(* ===== verification/_CoqProject ===== *)
-Q . S2P
Prelude.v
Limbs.v
Circuit.v
U63.v
MerkleTree.v
LeafTrees.v
Poseidon.v
IndexedTree.v
Keccak.v
Regev.v
BalanceState.v
BalanceStateProps.v
Account.v
AccountProps.v
AccountScenario.v
Ledger.v
LedgerProps.v
Balance.v
BalanceProps.v
BalanceCodec.v
LedgerScenario.v
Channel.v
ChannelProps.v
StateUpdate.v
StateUpdateProps.v
ChannelRun.v
Scenario.v
CreditSafety.v
CreditSafetyProps.v
HashChains.v
BlockStep.v
CloseFunding.v
WalletChecks.v
Producer.v
ExitClaims.v
BlockChain.v
Withdrawal.v
Payout.v
ProducerService.v
HashChainProps.v
BlockStepProps.v
CloseFundingProps.v
WalletChecksProps.v
ProducerProps.v
ProducerRun.v
ServiceProps.v
ServiceRun.v
BlockChainProps.v
ChainCodec.v
ExitCodec.v
ExitClaimsProps.v
WithdrawalProps.v
PayoutProps.v
PayoutScenario.v
WithdrawalBacking.v
ValidityProgress.v
WithdrawalProgress.v
ValidityScenario.v
WithdrawalScenario.v
FundingScenario.v
ProducerScenario.v
ServiceScenario.v
FoundationTheorems.v
AccountTheorems.v
LedgerTheorems.v
BalanceTheorems.v
ChannelTheorems.v
ValidityTheorems.v
WithdrawalTheorems.v
FundingTheorems.v
ExitTheorems.v
PayoutTheorems.v
ProducerTheorems.v
ServiceTheorems.v
