(* ===== verification/Prelude.v ===== *)
(** * INTMAX3: a Rocq development for the proving stack of the rollup

    INTMAX3 is a rollup of payment channels.  A channel keeps one encrypted
    balance per member and per token; its members co-sign every state.  On the
    rollup a channel is a user: it owns a private account state behind a
    commitment, puts transactions in blocks, and proves with a chain of
    balance proofs which of its sends are spent and which transfers and
    deposits it received.  Blocks and deposits form the public ledger, whose
    trees and hash chains the validity proofs and the L1 contract refer to.

    This library is a shallow embedding of the native Rust code of those parts
    (under [src/src/]) with the theorems that make it correct.

    ** Parts, files and sources

    Foundations
    - [Prelude]: outcomes of Rust code ([res]: value, error, panic), the monad
      [meth] of mutating methods ([&mut self], where an error keeps the
      mutations made before it), machine-width wrap-around, shared tactics.
    - [Limbs]: [ethereum_types/]: [U256], [Bytes32], [Address], [U64] as lists
      of 32-bit limbs; conversions, ordering, checked arithmetic.
    - [U63]: [common/u63.rs]: 63-bit counters and their comparison gadgets over
      the circuit interface of [Circuit].
    - [MerkleTree], [LeafTrees], [IndexedTree]: [utils/trees/]: the node store
      with proofs, the incremental and sparse wrappers with their packing, and
      the indexed tree with insertion proofs.
    - [Poseidon], [Keccak]: [utils/poseidon_hash_out.rs] and the word streams
      of [common/channel.rs]; the permutations themselves are parameters.
    - [Regev]: [regev/encrypt.rs], [regev/keys.rs], [regev/params.rs]:
      validation, digests, screens, homomorphic addition and decoding.

    The channel
    - [BalanceState]: [common/balance_state.rs], [common/channel_id.rs]: the
      co-signed balance matrix, its validation, its commitment [h1], token
      registration, storage formats.
    - [Channel]: [common/channel.rs]: records, states, transactions, close and
      claim messages, with every digest that is signed.
    - [StateUpdate]: [circuits/channel/state_update_verifier.rs]: the seven
      update verifiers and their shared checks.
    - [ChannelRun]: runs of accepted updates.

    The account
    - [Account]: [common/private_state.rs], [transfer.rs], [tx.rs],
      [deposit.rs], [trees/nullifier_tree.rs],
      [circuits/balance/common/update_private_state.rs] and the native side of
      [spend_circuit.rs]: the committed state, receiving and spending.

    The ledger
    - [Ledger]: [common/public_state.rs] (the state machine [FullPublicState]),
      [block.rs], [tx.rs] (versioned transactions, channel actions),
      [channel_message.rs] (close messages), the leaves of
      [common/trees/].
    - [Balance]: [circuits/balance/balance_pis.rs], the native transitions of
      [send_tx_circuit.rs], [receive_transfer_circuit.rs] and
      [receive_deposit_circuit.rs], and the witnesses of
      [circuits/balance/common/].

    The validity proofs
    - [HashChains]: [circuits/validity/deposit_hash_chain/] and
      [channel_reg_hash_chain/], with the registration record of
      [common/channel_registration.rs]: the two chains a block may extend, one
      step at a time, the public inputs of a step and its processor.
    - [BlockStep]: [circuits/validity/block_hash_chain/]: the message the members
      of a channel sign for a block ([channel_state_message.rs],
      [small_block_message.rs]), the statements about their signatures that are
      folded into a chain ([falcon_sig/agg_list.rs], [poseidon_sig/list.rs]) and
      the update of the channel tree ([update_channel_tree.rs]).
    - [BlockChain]: the extended public state, the step that joins the proofs of
      a block ([block_step.rs]), the processor
      ([block_hash_chain_processor.rs]) and the statement for the contract
      ([validity_circuit.rs]).
    - [ChainCodec] (words of public inputs), [ValidityProgress] (honest
      witnesses), [ValidityScenario] (a run of two blocks).

    Withdrawals
    - [Withdrawal]: [circuits/withdraw/] and [common/withdrawal.rs]: a single
      withdrawal of a settled transfer to an address, the chain that collects
      withdrawals under one public state, the processor and the statement of
      the final proof.
    - [WithdrawalProps] (withdrawals against the proved history),
      [WithdrawalBacking] (withdrawals against the account),
      [WithdrawalProgress] (honest withdrawals and the words of the proofs),
      [WithdrawalScenario] (a withdrawal on the run of two blocks).

    Signing and closing
    - [CreditSafety]: [channel_credit_safety.rs]: the upper bounds a signer keeps
      on balances it cannot decrypt, so that no signed credit overflows 64 bits.
    - [CloseFunding]: [close_funding.rs]: the terminal child of a channel state
      that pays the whole fund to the settlement manager, and the check that
      rebuilds it.

    Leaving a channel
    - [ExitClaims]: the native side of [circuits/channel/close_pis.rs],
      [cancel_close_pis.rs], [withdrawal_claim_pis.rs] and
      [post_close_claim_pis.rs]: the statements of a close, of its cancellation
      and of the claims against the closed state.  [ExitCodec] has the words of
      their public inputs.

    The payout journal
    - [Payout]: [partial_withdrawal_payout.rs] with the finality of
      [l1_finality.rs]: the file that makes the payout of a partial withdrawal
      survive crashes.  The snapshot file is a part of the state, a failed or torn
      write an outcome of every operation.  [PayoutProps] holds its invariant and
      its runs with crashes and restarts.

    The block producer
    - [WalletChecks]: the checks of [wallet_core.rs] that decide what the members
      of a channel authorised: signatures of a state, snapshots, the binding of a
      small block to its state, and the base transaction of an inter-channel debit.
    - [Producer]: [block_producer.rs]: the producer that registers channels, seals
      deposits and admits blocks of channels behind a fence of their last
      co-signed states.
    - [ProducerProps] (what an accepted call checked and did), [ProducerRun] (any
      sequence of calls), [ProducerScenario] (a channel that registers, sends and
      closes).
    - [ProducerService]: [block_producer_service.rs] and the accessors it uses of
      [block_producer.rs]: the producer behind a journal file, a hash chain of
      accepted requests that is written before the producer advances and replayed
      at a start, with at most one prepared entry.
    - [ServiceProps] (sound journals and what every request does to one),
      [ServiceRun] (starts, requests, failed writes and crashes in any order),
      [ServiceScenario] (deposits across a crash, and a prepared close).

    A file named [XProps] holds the specification of [X] (what its states stand
    for, its invariant) and the lemmas about it; the files
    named [XScenario] and [Scenario] are concrete runs that instantiate every parameter; the
    files named [XTheorems] hold the properties, each with its statement in
    words, and the instances that show their hypotheses can hold.

    ** How code becomes definitions

    A struct is a record with the field names of the source, an enum an
    inductive type, a function or method one definition, with its checks in
    source order and its early returns as errors.  [u8], [u32], [u64] are
    integers; a cast or an unchecked addition of a release build is written
    with [wrap], a checked one with [checked_add] or an explicit [Panic].  Error
    values keep their constructor and drop the message.  [unwrap], [expect],
    [assert!] and out-of-range indexing are [Panic].  Vectors are lists, maps
    are [gmap], Merkle trees are the node store of the code.  Trait objects and
    generics over proof systems are classes.

    ** Parameters

    Code outside the repository is a class, with what the code relies on as
    separate hypothesis classes.
    - [Poseidon], [Keccak]: hash functions.  Theorems that need their security
      either assume the ideal [PoseidonCollisionFree] or conclude with an
      explicit collision among the hashed words ([keccak_collision],
      [collision], [chain_broken]); [PoseidonOutput] and
      [PoseidonWordsOk] are the documented output format, [PoseidonNonzero]
      that no hash is the reserved zero root.
    - [CircuitBuilder]: the arithmetic gates of plonky2; [ReferenceBuilder] is
      an instance.
    - [RegevScheme], [ChannelProofVerifier], [RegevProofVerifier],
      [BalanceProofs]: decryption and the verifiers of recursive proofs, which
      the modelled code only calls.
    - [Features]: the compile-time features.
    - [ClaimStark]: the decryption proof of a claim; [ClaimStarkSound] says that
      an accepted one shows the decryption of its ciphertext.
    - [PayoutCodec]: the serde format of the journal; [PayoutCodecOk] is its round
      trip.
    - [CosignVerifier], [BlockWitnessGenerator]: interfaces of the producer to two
      parts of the repository that are not modelled, the Falcon verifier
      ([falcon_sig/mod.rs], [verify_cosign_blob]) and the generator of witnesses
      ([circuits/witness/block_witness_generator.rs]).  No law of them is assumed:
      the theorems about the producer hold for every verifier and generator.
      [GeneratorState] is what the service reads of the generator, and
      [GeneratorTimestamps] says that timestamps of blocks are not negative.
    - [JournalCodec], [CommandCodec]: serde and Keccak on bytes in the service;
      [JournalCodecOk] is the round trip of a journal, [JournalCodecInj] that
      different hashed values have different bytes.  The repository's format
      ([token_matrix_serde] in [common/balance_state.rs]) drops trailing empty
      rows of a balance state and pads them when it reads, so that the laws
      describe it on states of full width, the only ones that [validate] accepts.
    - [plain] in [CreditSafetyProps]: what a ciphertext holds under a key.  The
      transitions a signer authenticates are assumed to conserve the tokens
      ([conserves]) and to reach states where no token is owed more than its fund
      ([backed]), which the proofs checked by [StateUpdate] are for.
    - [Plonky2], [ChainProvers], [BlockProvers]: proofs with their public
      inputs, verifier data, and the circuits of the validity steps as functions
      from a witness and its public inputs to a proof, or to none.
      [ChainProversOk] and [BlockProversOk] say that a proof exposes the inputs
      it was made for, [ChainDataOk] and [BlockDataOk] that verifier data has the
      shape of its circuit and that the chain circuit has the common data that the
      step circuit was built for; [WithdrawalProvers], [WithdrawalProversOk] and
      [WithdrawalDataOk] are the same for withdrawals.  That a circuit proves
      what the native code accepts is never assumed: the circuits check more (the
      inner proofs, canonical hash outs, ranges, heights), so a prover that gives
      no proof is an outcome of the theorems.  [PoseidonElements] and
      [PoseidonReadable] say that hash outs are four canonical field elements,
      read back from words.

    ** What the theorems show

    - Channel: over any run of accepted updates value is conserved exactly and
      identity, membership and epochs are kept; each update verifier accepts
      exactly the change its kind allows; signed digests bind what is signed.
    - Account: a spend debits every token by its transfers, a receive credits
      one asset under a fresh nullifier, and runs conserve balances; the honest
      prover always succeeds.
    - Ledger: every field of a reachable ledger is a function of its blocks and
      deposits; the outcomes of every operation are determined, refused blocks
      leave no trace; the hash chains bind the whole history.
    - Balance proofs: over any interleaving of the ledger and one channel's
      steps, what the channel spent is exactly its sends up to the block its
      proof refers to; receives are for deposits of the ledger and for transfers
      of transactions in its blocks; the next send is always accepted; encodings
      are inverse.
    - Validity: a chain of proofs made by the processor exposes the state of the
      history of its blocks; channels are registered once, sends are signed by
      all registered members and numbered consecutively, sends and deposits are
      those of the blocks; honest blocks are never refused; the signed
      message and the signature chain are those of the channel and of the
      aggregation list; the statement for the contract binds the states.
    - Withdrawals: a final proof made against the state of a proved history pays
      exactly transfers that channels settled in its blocks; no account
      withdraws more than it received; the public hash fixes the list of
      withdrawals; the withdrawal of a settled transfer is never refused, alone,
      in a chain or under the final proof.
    - Signing and closing: the bounds stay true over every run of authenticated
      transitions, no accepted transition or allowed credit leaves a balance of
      2^64 or more, and bounded tokens never need evidence; a close-funding plan
      is built exactly for fundable heads and pays exactly the fund to the
      manager, the check accepts that plan and no other, and every withdrawal of
      its transaction goes to the manager.
    - Leaving a channel: all claims against a close of a funded channel together
      pay at most what its funding brought to the manager, if its hidden balances
      are backed by its fund and every claim is under the registered key of its
      cell, which the circuit of the claim enforces; newer states cancel
      closes of older ones and never the other way round, chains of cancellations
      end; honest claims are accepted; the native check of a claim leaves its key
      open; the words of the four statements are read back exactly.
    - Payout journal: whatever fails or crashes, the file is one verified
      snapshot, answers are durable, a withdrawal is broadcast under one intent
      only, and a payout with a final receipt can be finished while its hash is
      recorded or there is room for one more.
    - Block producer: for any calls, the heads of a channel form one chain that
      its co-signers signed; closing is final; the block of a debit carries
      exactly the transfer of that debit.
    - Durable producer: whatever fails or crashes, a restart gives exactly the
      producer of the committed entries; the receipts of requests that commit an
      entry and the history behind them are kept; a prepared entry lands with its
      generation and head or not at all; the committed payments of a channel spend
      consecutive nonces and no transaction is committed twice; the hash of an
      entry fixes the history up to it.
    - Foundations: tree updates and proofs, insertion chains without double
      inserts, exact fixed-width arithmetic, encodings, ciphertext addition.

    ** Bounds and fuel

    [chunks] and [layer_loop] recurse on fuel that is the length of their input;
    the lemmas [chunks_concat] and [layer_loop_spec] show it is enough.  Every
    other recursion is structural.  Tree heights (32 and 63) are kept folded and
    are never computed.  Counters wrap as in a release build; where the code
    checks, the exhausted case is a separate outcome of the theorem.

    ** Not modelled

    The plonky2 and plonky3 constraint systems of the same steps (their native
    counterparts are modelled), the signature schemes, key generation and
    encryption of the lattice crate and proof wrapping: their content is the
    arithmetic of third-party proof systems, which the model takes as parameters.
    The generator that fills witnesses, the wallet apart from [WalletChecks], the
    evidence of late incoming transfers, the balance and validity services and the
    publishers: they orchestrate I/O, storage and proving around the modelled
    checks.  Of the two journals, the checks of the path, mode and lock of the
    file; of the producer, the code behind the feature [deprecated-msu].  Command-line
    tools, bindings, the L1 contracts and the JavaScript services. *)

From Stdlib Require Export ZArith Lia.
From stdpp Require Export base gmap list option numbers propset functions.

#[global] Open Scope Z_scope.

(** ** Outcomes of Rust code

    A Rust function of the modelled code ends in one of three ways: it returns
    a value, it returns [Result::Err], or it panics ([assert!], [unwrap], an
    out-of-range index, an overflow check).  [res] keeps the three apart. *)

Inductive res (E A : Type) : Type :=
| Ok (a : A)
| Err (e : E)
| Panic.

Arguments Ok {E A} a.
Arguments Err {E A} e.
Arguments Panic {E A}.

#[export] Instance res_ret {E} : MRet (res E) := fun _ x => Ok x.

#[export] Instance res_bind {E} : MBind (res E) := fun _ _ f m =>
  match m with
  | Ok a => f a
  | Err e => Err e
  | Panic => Panic
  end.

#[export] Instance res_fmap {E} : FMap (res E) := fun _ _ f m =>
  match m with
  | Ok a => Ok (f a)
  | Err e => Err e
  | Panic => Panic
  end.

#[export] Instance res_eq_dec {E A} `{EqDecision E, EqDecision A} : EqDecision (res E A).
Proof. solve_decision. Defined.

(** [Result::map_err]. *)
Definition map_err {E E' A} (f : E -> E') (m : res E A) : res E' A :=
  match m with
  | Ok a => Ok a
  | Err e => Err (f e)
  | Panic => Panic
  end.

(** [Result::is_ok]. *)
Definition is_ok {E A} (m : res E A) : bool :=
  match m with Ok _ => true | _ => false end.

(** [Option::ok_or]. *)
Definition ok_or {E A} (o : option A) (e : E) : res E A :=
  match o with Some a => Ok a | None => Err e end.

(** [Option::unwrap] and [Vec] indexing: absence panics. *)
Definition unwrap {E A} (o : option A) : res E A :=
  match o with Some a => Ok a | None => Panic end.

(** [if !b { return Err(e) }]. *)
Definition ensure {E} (b : bool) (e : E) : res E unit :=
  if b then Ok tt else Err e.

(** [assert!(b)]. *)
Definition assert_that {E} (b : bool) : res E unit :=
  if b then Ok tt else Panic.

(** [for x in xs { body }] over a mutable state that may fail. *)
Fixpoint res_foldl {E S A} (f : S -> A -> res E S) (s : S) (xs : list A) : res E S :=
  match xs with
  | [] => Ok s
  | x :: xs' => s' ← f s x; res_foldl f s' xs'
  end.

(** [for x in xs { check(x)? }]. *)
Definition res_forall {E A} (f : A -> res E unit) (xs : list A) : res E unit :=
  res_foldl (fun _ x => f x) tt xs.

(** [iter().map(f).collect::<Result<Vec<_>>>()]. *)
Fixpoint res_mapM {E A B} (f : A -> res E B) (xs : list A) : res E (list B) :=
  match xs with
  | [] => Ok []
  | x :: xs' => y ← f x; ys ← res_mapM f xs'; Ok (y :: ys)
  end.

(** ** Mutating methods

    A method with a [&mut self] receiver: it returns the receiver as it left it
    beside its outcome, so that what an early [return Err] has already written
    is visible. *)

Definition meth (S E A : Type) : Type := S -> S * res E A.

#[export] Instance meth_ret {S E} : MRet (meth S E) := fun _ a s => (s, Ok a).

#[export] Instance meth_bind {S E} : MBind (meth S E) := fun _ _ f m s =>
  match m s with
  | (s', Ok a) => f a s'
  | (s', Err e) => (s', Err e)
  | (s', Panic) => (s', Panic)
  end.

(** A call that does not touch the receiver. *)
Definition pure {S E A} (m : res E A) : meth S E A := fun s => (s, m).

(** The receiver, and assignment to it. *)
Definition self {S E} : meth S E S := fun s => (s, Ok s).

Definition modify {S E} (f : S -> S) : meth S E unit := fun s => (f s, Ok tt).

(** [for x in xs { body }] in a method. *)
Fixpoint for_each {S E A} (body : A -> meth S E unit) (xs : list A) : meth S E unit :=
  match xs with
  | [] => mret tt
  | x :: xs' => _ ← body x; for_each body xs'
  end.

Lemma pure_bind {S E A B} (m : res E A) (f : A -> meth S E B) s :
  (pure m ≫= f) s =
  match m with Ok a => f a s | Err e => (s, Err e) | Panic => (s, Panic) end.
Proof. by destruct m. Qed.

Lemma self_bind {S E A} (f : S -> meth S E A) s : (self ≫= f) s = f s s.
Proof. done. Qed.

Lemma modify_bind {S E A} (g : S -> S) (f : unit -> meth S E A) s : (modify g ≫= f) s = f tt (g s).
Proof. done. Qed.

Lemma meth_bind_Ok {S E A B} (m : meth S E A) (f : A -> meth S E B) s s' a :
  m s = (s', Ok a) -> (m ≫= f) s = f a s'.
Proof. unfold mbind, meth_bind. by intros ->. Qed.

Section res_lemmas.
Context {E : Type}.

Lemma Ok_inj {A} (a b : A) : Ok (E := E) a = Ok b -> a = b.
Proof. by intros [= ->]. Qed.

Lemma bind_Ok {A B} (m : res E A) (f : A -> res E B) b :
  (m ≫= f) = Ok b <-> exists a, m = Ok a /\ f a = Ok b.
Proof. destruct m; cbn; naive_solver. Qed.

Lemma bind_Panic {A B} (m : res E A) (f : A -> res E B) :
  (m ≫= f) = Panic <-> m = Panic \/ exists a, m = Ok a /\ f a = Panic.
Proof. destruct m; cbn; naive_solver. Qed.

Lemma bind_assoc {A B C} (m : res E A) (f : A -> res E B) (g : B -> res E C) :
  ((m ≫= f) ≫= g) = (m ≫= fun x => f x ≫= g).
Proof. by destruct m. Qed.

Lemma ensure_Ok b (e : E) u : ensure b e = Ok u <-> b = true.
Proof. destruct b, u; cbn; naive_solver. Qed.

Lemma ensure_no_Panic b (e : E) : ensure b e <> Panic.
Proof. by destruct b. Qed.

Lemma assert_that_Ok b u : assert_that (E := E) b = Ok u <-> b = true.
Proof. destruct b, u; cbn; naive_solver. Qed.

Lemma unwrap_Ok {A} (o : option A) a : unwrap (E := E) o = Ok a <-> o = Some a.
Proof. destruct o; cbn; naive_solver. Qed.

Lemma ok_or_Ok {A} (o : option A) (e : E) a : ok_or o e = Ok a <-> o = Some a.
Proof. destruct o; cbn; naive_solver. Qed.

Lemma map_err_Ok {E' A} (f : E -> E') (m : res E A) a : map_err f m = Ok a <-> m = Ok a.
Proof. destruct m; cbn; naive_solver. Qed.

Lemma fmap_Ok {A B} (f : A -> B) (m : res E A) b :
  f <$> m = Ok b <-> exists a, m = Ok a /\ b = f a.
Proof. destruct m; cbn; naive_solver. Qed.

Lemma res_foldl_app {S A} (f : S -> A -> res E S) s xs ys :
  res_foldl f s (xs ++ ys) = (s' ← res_foldl f s xs; res_foldl f s' ys).
Proof.
  revert s. induction xs as [|x xs IH]; intros s; cbn; [done|].
  destruct (f s x); cbn; [apply IH | done | done].
Qed.

Lemma res_forall_Ok {A} (f : A -> res E unit) xs u :
  res_forall f xs = Ok u <-> Forall (fun x => f x = Ok tt) xs.
Proof.
  unfold res_forall. destruct u. induction xs as [|x xs IH]; cbn.
  - by split.
  - rewrite Forall_cons_iff. split.
    + intros H. apply bind_Ok in H as [[] [-> H]]. by apply IH in H.
    + intros [-> H]. by apply IH.
Qed.

(** An invariant that every iteration keeps holds after the loop. *)
Lemma res_foldl_inv {S A} (P : S -> Prop) (f : S -> A -> res E S) s xs s' :
  P s ->
  (forall s x s', x ∈ xs -> P s -> f s x = Ok s' -> P s') ->
  res_foldl f s xs = Ok s' -> P s'.
Proof.
  revert s. induction xs as [|x xs IH]; cbn; intros s HP Hstep H.
  - by simplify_eq.
  - apply bind_Ok in H as [s1 [H1 H2]].
    apply (IH s1); [| | done].
    + eapply Hstep; [left | done | done].
    + intros s2 y s3 Hy. apply Hstep. by right.
Qed.

Lemma res_mapM_Ok {A B} (f : A -> res E B) xs ys :
  res_mapM f xs = Ok ys <-> Forall2 (fun x y => f x = Ok y) xs ys.
Proof.
  revert ys. induction xs as [|x xs IH]; intros ys; cbn.
  - split; [intros [= <-]; constructor | by inversion 1].
  - rewrite bind_Ok. setoid_rewrite bind_Ok. split.
    + intros (y & Hy & ys' & Hys & [= <-]). constructor; [done|]. by apply IH.
    + inversion 1 as [|? y ? ys' Hy Hys]; subst. exists y; split; [done|].
      exists ys'. split; [by apply IH | done].
Qed.
(** Freedom from aborts, by the shape of the code. *)
Lemma bind_no_panic {A B} (m : res E A) (k : A -> res E B) :
  m <> Panic -> (forall x, m = Ok x -> k x <> Panic) -> (m ≫= k) <> Panic.
Proof. intros Hm Hk. destruct m as [x|e|]; cbn; [by apply Hk|done|done]. Qed.

Lemma map_err_no_panic {E' A} (f : E -> E') (m : res E A) : m <> Panic -> map_err f m <> Panic.
Proof. by destruct m. Qed.

Lemma map_no_panic {A B} (f : A -> res E B) xs : (forall x, x ∈ xs -> f x <> Panic) -> res_mapM f xs <> Panic.
Proof.
  induction xs as [|x xs IH]; intros H; [done|]. cbn [res_mapM]. apply bind_no_panic; [apply H; left|]. intros y _.
  apply bind_no_panic; [|done]. apply IH. intros z Hz. apply H. by right.
Qed.

Lemma fold_no_panic {S A} (f : S -> A -> res E S) s xs : (forall s x, x ∈ xs -> f s x <> Panic) -> res_foldl f s xs <> Panic.
Proof.
  revert s. induction xs as [|x xs IH]; intros s H; [done|]. cbn [res_foldl]. apply bind_no_panic; [apply H; left|]. intros s' _.
  apply IH. intros s2 y Hy. apply H. by right.
Qed.

Lemma res_forall_no_panic {A} (f : A -> res E unit) xs : Forall (fun x => f x <> Panic) xs -> res_forall f xs <> Panic.
Proof. intros H. apply fold_no_panic. intros [] x (i & Hi)%list_elem_of_lookup. exact (Forall_lookup_1 _ _ _ _ H Hi). Qed.
End res_lemmas.

(** [simplify_res] opens every successful monadic computation in the context. *)
Ltac simplify_res :=
  repeat match goal with
  | H : Ok ?x = Ok ?y |- _ =>
      apply Ok_inj in H; try first [is_var y; subst y | is_var x; subst x]
  | H : Ok _ = Err _ |- _ => discriminate H
  | H : Err _ = Ok _ |- _ => discriminate H
  | H : Ok _ = Panic |- _ => discriminate H
  | H : Panic = Ok _ |- _ => discriminate H
  | H : Err _ = Panic |- _ => discriminate H
  | H : Panic = Err _ |- _ => discriminate H
  | H : (_ ≫= _) = Ok _ |- _ =>
      let a := fresh "r" in let Ha := fresh "Hr" in
      apply bind_Ok in H as [a [Ha H]]
  | H : ensure _ _ = Ok _ |- _ => apply ensure_Ok in H
  | H : assert_that _ = Ok _ |- _ => apply assert_that_Ok in H
  | H : unwrap _ = Ok _ |- _ => apply unwrap_Ok in H
  | H : ok_or _ _ = Ok _ |- _ => apply ok_or_Ok in H
  | H : map_err _ _ = Ok _ |- _ => apply map_err_Ok in H
  | H : unit |- _ => destruct H
  end.

(** Boolean guards of the code, turned into propositions. *)
Ltac simplify_bool :=
  repeat match goal with
  | H : negb _ = true |- _ => apply negb_true_iff in H
  | H : negb _ = false |- _ => apply negb_false_iff in H
  | H : andb _ _ = true |- _ => apply andb_prop in H as [? ?]
  | H : orb _ _ = false |- _ => apply orb_false_elim in H as [? ?]
  | H : bool_decide _ = true |- _ => apply bool_decide_eq_true_1 in H
  | H : bool_decide _ = false |- _ => apply bool_decide_eq_false_1 in H
  | H : Z.ltb _ _ = true |- _ => apply Z.ltb_lt in H
  | H : Z.ltb _ _ = false |- _ => apply Z.ltb_ge in H
  | H : Z.leb _ _ = true |- _ => apply Z.leb_le in H
  | H : Z.leb _ _ = false |- _ => apply Z.leb_gt in H
  | H : Z.eqb _ _ = true |- _ => apply Z.eqb_eq in H
  | H : Z.eqb _ _ = false |- _ => apply Z.eqb_neq in H
  end.

(** ** Machine integers

    A [w]-bit unsigned integer is a [Z] in [[0, 2^w)]; [wrap w] is the [as]
    conversion that keeps the low [w] bits. *)

Definition wrap (w x : Z) : Z := x mod 2 ^ w.

Definition in_width (w x : Z) : Prop := 0 <= x < 2 ^ w.

Definition in_widthb (w x : Z) : bool := (0 <=? x) && (x <? 2 ^ w).

Lemma in_widthb_spec w x : in_widthb w x = true <-> in_width w x.
Proof. unfold in_widthb, in_width. rewrite andb_true_iff, Z.leb_le, Z.ltb_lt. done. Qed.

#[export] Instance in_width_dec w x : Decision (in_width w x).
Proof. unfold in_width. apply _. Defined.

Lemma wrap_in_width w x : 0 <= w -> in_width w (wrap w x).
Proof. intros. apply Z.mod_pos_bound. lia. Qed.

Lemma wrap_id w x : in_width w x -> wrap w x = x.
Proof. apply Z.mod_small. Qed.

Lemma wrap_add_l w x y : 0 <= w -> wrap w (wrap w x + y) = wrap w (x + y).
Proof. intros. unfold wrap. rewrite Z.add_mod_idemp_l by lia. done. Qed.

Lemma wrap_le w x : 0 <= w -> 0 <= x -> wrap w x <= x.
Proof. intros. apply Z.mod_le; lia. Qed.

Lemma testbit_above w x j : in_width w x -> 0 <= w <= j -> Z.testbit x j = false.
Proof.
  intros Hx Hj. rewrite <- (Z.mod_small x (2 ^ w)) by done.
  apply Z.mod_pow2_bits_high. lia.
Qed.

(** Concatenating a high part with a [k]-bit low part. *)
Lemma land_shiftl_low acc b k : 0 <= k -> in_width k b -> Z.land (Z.shiftl acc k) b = 0.
Proof.
  intros Hk Hb. apply Z.bits_inj'. intros j Hj. rewrite Z.land_spec, Z.bits_0.
  destruct (Z_lt_le_dec j k).
  - by rewrite Z.shiftl_spec_low by lia.
  - rewrite (testbit_above k b) by (try done; lia). apply andb_false_r.
Qed.

Lemma lor_shiftl_add acc b k :
  0 <= k -> in_width k b -> Z.lor (Z.shiftl acc k) b = acc * 2 ^ k + b.
Proof.
  intros Hk Hb. rewrite <- (Z.shiftl_mul_pow2 acc k) by lia.
  rewrite <- Z.lxor_lor by (by apply land_shiftl_low). symmetry.
  apply Z.add_nocarry_lxor. by apply land_shiftl_low.
Qed.

(** [u64::checked_add] / [u64::checked_sub] at width [w]. *)
Definition checked_add (w a b : Z) : option Z :=
  if a + b <? 2 ^ w then Some (a + b) else None.

Definition checked_sub (a b : Z) : option Z :=
  if b <=? a then Some (a - b) else None.

Lemma checked_add_Some w a b c :
  checked_add w a b = Some c <-> c = a + b /\ a + b < 2 ^ w.
Proof. unfold checked_add. destruct (Z.ltb_spec (a + b) (2 ^ w)); naive_solver lia. Qed.

Lemma checked_sub_Some a b c : checked_sub a b = Some c <-> c = a - b /\ b <= a.
Proof. unfold checked_sub. destruct (Z.leb_spec b a); naive_solver lia. Qed.

(** ** Hints *)

Create HintDb intmax discriminated.
#[export] Hint Resolve wrap_in_width : intmax.
#[export] Hint Extern 4 (_ <= _) => lia : intmax.
#[export] Hint Extern 4 (_ < _) => lia : intmax.

(** ** Lists *)

Lemma Forall2_same_length_lookup {A B} (P : A -> B -> Prop) l k :
  length l = length k ->
  (forall i x y, l !! i = Some x -> k !! i = Some y -> P x y) ->
  Forall2 P l k.
Proof. intros. by apply Forall2_same_length_lookup_2. Qed.

Lemma list_eq_len_1 {A} (l : list A) : length l = 1%nat -> exists x, l = [x].
Proof. destruct l as [|x [|]]; cbn; try lia. by exists x. Qed.

(** ** Sums *)

Definition zsum {A} (f : A -> Z) (l : list A) : Z := foldr (fun x acc => f x + acc) 0 l.

Lemma zsum_app {A} (f : A -> Z) l k : zsum f (l ++ k) = zsum f l + zsum f k.
Proof. induction l as [|x l IH]; [done|]. cbn. fold (zsum f (l ++ k)) (zsum f l). rewrite IH. lia. Qed.

Lemma zsum_perm {A} (f : A -> Z) l k : l ≡ₚ k -> zsum f l = zsum f k.
Proof.
  unfold zsum. induction 1 as [|x l k _ IH|x y l|l k m _ IH1 _ IH2]; cbn; lia.
Qed.

Lemma zsum_nonneg {A} (f : A -> Z) l : (forall x, 0 <= f x) -> 0 <= zsum f l.
Proof. intros Hf. induction l as [|x l IH]; cbn; [lia|]. specialize (Hf x). unfold zsum in IH. lia. Qed.

(** Distinct elements of a list sum to at most the whole. *)
Lemma zsum_sub {A} (f : A -> Z) l k :
  (forall x, 0 <= f x) -> NoDup l -> (forall x, x ∈ l -> x ∈ k) -> zsum f l <= zsum f k.
Proof.
  intros Hf Hnd Hsub. apply (NoDup_submseteq _ _ Hnd) in Hsub. apply submseteq_Permutation in Hsub as [r Hr].
  rewrite (zsum_perm f _ _ Hr), zsum_app. pose proof (zsum_nonneg f r Hf). lia.
Qed.

Lemma zsum_Forall2 {A B} (f : A -> Z) (g : B -> Z) l k :
  Forall2 (fun x y => f x = g y) l k -> zsum f l = zsum g k.
Proof. unfold zsum. induction 1 as [|x y l k H _ IH]; cbn; [done|]. lia. Qed.

Lemma zsum_imap {A B} (f : B -> Z) (g : nat -> A -> B) (h : A -> Z) l :
  (forall i x, f (g i x) = h x) -> zsum f (imap g l) = zsum h l.
Proof.
  revert g. induction l as [|x l IH]; intros g Hg; [done|]. cbn [imap zsum foldr]. rewrite Hg. f_equal.
  apply (IH (g ∘ S)). intros i y. apply Hg.
Qed.

Lemma zsum_le {A} (f g : A -> Z) l : (forall x, x ∈ l -> f x <= g x) -> zsum f l <= zsum g l.
Proof.
  unfold zsum. induction l as [|x l IH]; intros H; cbn; [lia|]. pose proof (H x ltac:(left)).
  pose proof (IH ltac:(intros y Hy; apply H; by right)). lia.
Qed.

Lemma zsum_add {A} (f g : A -> Z) l : zsum (fun x => f x + g x) l = zsum f l + zsum g l.
Proof. unfold zsum. induction l as [|x l IH]; cbn; lia. Qed.

Lemma zsum_elem {A} (f : A -> Z) l x : (forall y, 0 <= f y) -> x ∈ l -> f x <= zsum f l.
Proof.
  intros Hf. unfold zsum. induction l as [|y l IH]; intros Hx; [by apply elem_of_nil in Hx|]. cbn. pose proof (zsum_nonneg f l Hf) as Hn.
  unfold zsum in Hn. pose proof (Hf y). apply elem_of_cons in Hx as [->|Hx]; [lia|]. specialize (IH Hx). lia.
Qed.

Lemma seq_Forall (Q : nat -> Prop) a n : Forall Q (seq a n) <-> forall i, (a <= i < a + n)%nat -> Q i.
Proof.
  rewrite List.Forall_forall. split; intros H i Hi; apply H; [apply List.in_seq; lia|apply List.in_seq in Hi; lia].
Qed.
