(* ===== verification/Limbs.v ===== *)
(** * Ethereum-shaped integers on 32-bit limbs

    Models [src/src/ethereum_types/]: the [U32LimbTrait] conversions
    (u32limb_trait.rs), [U256] (u256.rs) with its limb-wise addition,
    subtraction and ordering, [U64] (u64.rs), and the fixed-width byte types
    [Bytes32] and [Address], which share the representation.

    A value of a Rust type [struct { limbs: [u32; N] }] is a [Limbs N]: a list
    of [N] numbers below [2^32], most significant first, carrying the proof
    that it is one, as the Rust array type does. *)

From S2P Require Import Prelude.

(** The variants of [EthereumTypeError] that the modelled functions return. *)
Inductive EthereumTypeError :=
| OutOfU32Range
| InvalidLengthSimple (len : nat).

Definition limbs_wfb (n : nat) (l : list Z) : bool :=
  (length l =? n)%nat && forallb (in_widthb 32) l.

Record Limbs (n : nat) := mkLimbs {
  limbs : list Z;
  limbs_ok : limbs_wfb n limbs = true;
}.
Arguments mkLimbs {n} _ _.
Arguments limbs {n} _.
Arguments limbs_ok {n} _.

Definition U256_LEN : nat := 8.
Definition U64_LEN : nat := 2.
Definition BYTES32_LEN : nat := 8.
Definition ADDRESS_LEN : nat := 5.

Notation U256 := (Limbs U256_LEN).
Notation U64 := (Limbs U64_LEN).
Notation Bytes32 := (Limbs BYTES32_LEN).
Notation Address := (Limbs ADDRESS_LEN).

#[export] Instance Limbs_eq_dec {n} : EqDecision (Limbs n).
Proof.
  intros [l Hl] [k Hk]. destruct (decide (l = k)) as [->|Hne].
  - left. f_equal. apply (Eqdep_dec.UIP_dec Bool.bool_dec).
  - right. by intros [=].
Defined.

(** [limbs.try_into().unwrap()]: the array conversion panics on a wrong length. *)
Definition limbs_try_into {E} (n : nat) (l : list Z) : res E (Limbs n) :=
  match decide (limbs_wfb n l = true) with
  | left H => Ok (mkLimbs l H)
  | right _ => Panic
  end.

(** ** [U32LimbTrait] *)

Definition to_u32_vec {n} (x : Limbs n) : list Z := limbs x.

Definition from_u32_slice (n : nat) (l : list Z) : res EthereumTypeError (Limbs n) :=
  if bool_decide (length l <> n) then Err (InvalidLengthSimple (length l))
  else limbs_try_into n l.

Definition to_u64_vec {n} (x : Limbs n) : list Z := to_u32_vec x.

Definition u32_range_check (x : Z) : res EthereumTypeError Z :=
  if 2 ^ 32 - 1 <? x then Err OutOfU32Range else Ok (wrap 32 x).

Definition from_u64_slice (n : nat) (input : list Z) : res EthereumTypeError (Limbs n) :=
  range_checked_input ← res_mapM u32_range_check input;
  from_u32_slice n range_checked_input.

Definition zero {E} (n : nat) : res E (Limbs n) := limbs_try_into n (replicate n 0).

Definition one {E} (n : nat) : res E (Limbs n) :=
  limbs_try_into n (<[Nat.pred n := 1]> (replicate n 0)).

(** [u32::to_be_bytes] and [u32::from_be_bytes]. *)
Definition to_be_bytes (x : Z) : list Z :=
  [wrap 8 (Z.shiftr x 24); wrap 8 (Z.shiftr x 16); wrap 8 (Z.shiftr x 8); wrap 8 x].

Definition from_be_bytes (bs : list Z) : Z :=
  foldl (fun acc b => Z.lor (Z.shiftl acc 8) b) 0 bs.

(** [slice.chunks(k)]. *)
Fixpoint chunks_fuel {A} (fuel k : nat) (l : list A) : list (list A) :=
  match fuel, l with
  | O, _ | _, [] => []
  | S fuel', _ => take k l :: chunks_fuel fuel' k (drop k l)
  end.

Definition chunks {A} (k : nat) (l : list A) : list (list A) := chunks_fuel (length l) k l.

Definition from_bytes_be (n : nat) (bytes : list Z) : res EthereumTypeError (Limbs n) :=
  if bool_decide (4 * n < length bytes)%nat then Err (InvalidLengthSimple (length bytes))
  else
    let padded_bytes := replicate (4 * n - length bytes) 0 ++ bytes in
    from_u32_slice n (from_be_bytes <$> chunks 4 padded_bytes).

Definition to_bytes_be {n} (x : Limbs n) : list Z := limbs x ≫= to_be_bytes.

(** [u32_to_bits_be]: bits 31 down to 0. *)
Definition u32_to_bits_be (x : Z) : list bool :=
  (fun i => negb (Z.land x (Z.shiftl 1 (Z.of_nat i)) =? 0)) <$> reverse (seq 0 32).

(** [bits_be_to_u32]: set bit [31 - i] for every true position [i]. *)
Fixpoint bits_be_to_u32_loop (i : nat) (bits : list bool) (result : Z) : Z :=
  match bits with
  | [] => result
  | bit :: bits' =>
      bits_be_to_u32_loop (S i) bits'
        (if bit then Z.lor result (Z.shiftl 1 (31 - Z.of_nat i)) else result)
  end.

Definition bits_be_to_u32 (bits : list bool) : Z := bits_be_to_u32_loop 0 bits 0.

Definition to_bits_be {n} (x : Limbs n) : list bool := limbs x ≫= u32_to_bits_be.

Definition from_bits_be (n : nat) (bits : list bool) : res EthereumTypeError (Limbs n) :=
  if bool_decide (32 * n < length bits)%nat then Err (InvalidLengthSimple (length bits))
  else
    let padded_bits := replicate (32 * n - length bits) false ++ bits in
    from_u32_slice n (bits_be_to_u32 <$> chunks 32 padded_bits).

(** ** [U256] *)

Module U256.

(** [Iterator::cmp]: lexicographic comparison of the limbs. *)
Fixpoint lex_cmp (l k : list Z) : comparison :=
  match l, k with
  | [], [] => Eq
  | [], _ :: _ => Lt
  | _ :: _, [] => Gt
  | a :: l', b :: k' => match a ?= b with Eq => lex_cmp l' k' | c => c end
  end.

Definition cmp (x y : U256) : comparison := lex_cmp (limbs x) (limbs y).

Definition ltb (x y : U256) : bool := match cmp x y with Lt => true | _ => false end.

Definition leb (x y : U256) : bool := match cmp x y with Gt => false | _ => true end.

Definition from_u32 {E} (value : Z) : res E U256 :=
  limbs_try_into U256_LEN [0; 0; 0; 0; 0; 0; 0; value].

Definition from_u64 {E} (value : Z) : res E U256 :=
  limbs_try_into U256_LEN [0; 0; 0; 0; 0; 0; wrap 32 (Z.shiftr value 32); wrap 32 value].

(** [From<U256> for BigUint]: the sum of [digit << 32 i] over the reversed limbs. *)
Fixpoint biguint_loop (i : Z) (digits : list Z) (sum : Z) : Z :=
  match digits with
  | [] => sum
  | digit :: digits' => biguint_loop (i + 1) digits' (sum + Z.shiftl digit (32 * i))
  end.

Definition to_biguint (x : U256) : Z := biguint_loop 0 (rev (limbs x)) 0.

(** The carry loop of [Add], least significant limb first. *)
Fixpoint add_loop (xs ys : list Z) (carry : Z) : list Z * Z :=
  match xs, ys with
  | a :: xs', b :: ys' =>
      let c := carry + a + b in
      let '(result_limbs, carry') := add_loop xs' ys' (Z.shiftr c 32) in
      (wrap 32 c :: result_limbs, carry')
  | _, _ => ([], carry)
  end.

Definition add {E} (x y : U256) : res E U256 :=
  let '(result_limbs, carry) := add_loop (rev (limbs x)) (rev (limbs y)) 0 in
  _ ← assert_that (carry =? 0);
  limbs_try_into U256_LEN (rev result_limbs).

(** [x as i32] of an [i64]. *)
Definition as_i32 (x : Z) : Z :=
  let y := wrap 32 x in if y <? 2 ^ 31 then y else y - 2 ^ 32.

(** The borrow loop of [Sub]. *)
Fixpoint sub_loop (xs ys : list Z) (borrow : Z) : list Z * Z :=
  match xs, ys with
  | a :: xs', b :: ys' =>
      let c := a - b + borrow in
      let '(result_limbs, borrow') := sub_loop xs' ys' (as_i32 (Z.shiftr c 32)) in
      (wrap 32 c :: result_limbs, borrow')
  | _, _ => ([], borrow)
  end.

Definition sub {E} (x y : U256) : res E U256 :=
  let '(result_limbs, borrow) := sub_loop (rev (limbs x)) (rev (limbs y)) 0 in
  _ ← assert_that (borrow =? 0);
  limbs_try_into U256_LEN (rev result_limbs).

End U256.

(** ** [U64] *)

Module U64.

Definition from_u64 {E} (value : Z) : res E U64 :=
  limbs_try_into U64_LEN [wrap 32 (Z.shiftr value 32); wrap 32 value].

Definition to_u64 (x : U64) : Z :=
  let hi := nth 0 (limbs x) 0 in
  let lo := nth 1 (limbs x) 0 in
  Z.lor (Z.shiftl hi 32) lo.

Definition add {E} (x y : U64) : res E U64 :=
  s ← unwrap (checked_add 64 (to_u64 x) (to_u64 y)); from_u64 s.

Definition sub {E} (x y : U64) : res E U64 :=
  s ← unwrap (checked_sub (to_u64 x) (to_u64 y)); from_u64 s.

End U64.

(** ** The number a limb list denotes *)

Fixpoint le_val (l : list Z) : Z :=
  match l with
  | [] => 0
  | d :: l' => d + 2 ^ 32 * le_val l'
  end.

Definition val {n} (x : Limbs n) : Z := le_val (rev (limbs x)).

(** ** Representation lemmas *)

Definition u32_list (l : list Z) : Prop := Forall (in_width 32) l.

Lemma limbs_wfb_spec n l : limbs_wfb n l = true <-> length l = n /\ u32_list l.
Proof.
  unfold limbs_wfb, u32_list.
  rewrite andb_true_iff, Nat.eqb_eq, List.forallb_forall, List.Forall_forall.
  by setoid_rewrite in_widthb_spec.
Qed.

Lemma limbs_length {n} (x : Limbs n) : length (limbs x) = n.
Proof. apply (limbs_wfb_spec n), limbs_ok. Qed.

Lemma limbs_u32 {n} (x : Limbs n) : u32_list (limbs x).
Proof. apply (limbs_wfb_spec n), limbs_ok. Qed.

Lemma Limbs_eq {n} (x y : Limbs n) : limbs x = limbs y -> x = y.
Proof.
  destruct x as [l Hl], y as [k Hk]; cbn. intros ->. f_equal.
  apply (Eqdep_dec.UIP_dec Bool.bool_dec).
Qed.

Lemma limbs_try_into_Ok {E} n l x :
  limbs_try_into (E := E) n l = Ok x -> limbs x = l.
Proof. unfold limbs_try_into. case_match; intros; by simplify_eq/=. Qed.

Lemma limbs_try_into_ok {E} n l :
  length l = n -> u32_list l -> exists x, limbs_try_into (E := E) n l = Ok x /\ limbs x = l.
Proof.
  intros Hlen Hl. unfold limbs_try_into. destruct (decide _) as [H|H].
  - by eexists.
  - exfalso. apply H. by apply limbs_wfb_spec.
Qed.

Lemma limbs_try_into_limbs {E} n (x : Limbs n) : limbs_try_into (E := E) n (limbs x) = Ok x.
Proof.
  destruct (limbs_try_into_ok (E := E) n (limbs x)) as (y & -> & Hy).
  - apply limbs_length.
  - apply limbs_u32.
  - f_equal. by apply Limbs_eq.
Qed.

Lemma from_u32_slice_limbs n (x : Limbs n) : from_u32_slice n (limbs x) = Ok x.
Proof.
  unfold from_u32_slice. rewrite bool_decide_eq_false_2 by (rewrite limbs_length; auto).
  apply limbs_try_into_limbs.
Qed.

Lemma u32_list_rev l : u32_list (rev l) <-> u32_list l.
Proof.
  unfold u32_list. split; intros H; [|by apply List.Forall_rev].
  rewrite <- (rev_involutive l). by apply List.Forall_rev.
Qed.

Lemma le_val_bound l : u32_list l -> 0 <= le_val l < 2 ^ (32 * Z.of_nat (length l)).
Proof.
  induction 1 as [|d l Hd Hl IH]; [cbn; lia|].
  rewrite length_cons, Nat2Z.inj_succ, Z.mul_succ_r, Z.add_comm, Z.pow_add_r by lia.
  cbn [le_val]. unfold in_width in Hd. nia.
Qed.

Lemma le_val_inj l k :
  length l = length k -> u32_list l -> u32_list k -> le_val l = le_val k -> l = k.
Proof.
  intros Hlen Hl. revert k Hlen. induction Hl as [|d l Hd Hl IH]; intros [|e k]; cbn; try done.
  intros [= Hlen] Hk Heq. apply Forall_cons_iff in Hk as [He Hk].
  unfold in_width in *. assert (d = e /\ le_val l = le_val k) as [-> ?] by lia.
  f_equal. by apply IH.
Qed.

Lemma val_bound {n} (x : Limbs n) : 0 <= val x < 2 ^ (32 * Z.of_nat n).
Proof.
  unfold val. rewrite <- (limbs_length x) at 3. rewrite <- length_rev.
  apply le_val_bound, u32_list_rev, limbs_u32.
Qed.

Lemma val_inj {n} (x y : Limbs n) : val x = val y -> x = y.
Proof.
  intros H. apply Limbs_eq.
  rewrite <- (rev_involutive (limbs x)), <- (rev_involutive (limbs y)). f_equal.
  apply le_val_inj; try done.
  - by rewrite !length_rev, !limbs_length.
  - apply u32_list_rev, limbs_u32.
  - apply u32_list_rev, limbs_u32.
Qed.

Lemma limbs_try_into_val {E} n l :
  length l = n -> u32_list l ->
  exists x, limbs_try_into (E := E) n (rev l) = Ok x /\ val x = le_val l.
Proof.
  intros Hlen Hl. destruct (limbs_try_into_ok (E := E) n (rev l)) as (x & Hx & Hx').
  - by rewrite length_rev.
  - by apply u32_list_rev.
  - exists x. split; [done|]. unfold val. by rewrite Hx', rev_involutive.
Qed.

(** Splitting a number into its low 32 bits and the rest. *)
Lemma split_low_32 c : wrap 32 c + 2 ^ 32 * Z.shiftr c 32 = c.
Proof. unfold wrap. rewrite Z.shiftr_div_pow2 by lia. pose proof (Z.div_mod c (2 ^ 32)). lia. Qed.

Lemma shiftr_32_bounds c lo hi :
  lo * 2 ^ 32 <= c < hi * 2 ^ 32 -> lo <= Z.shiftr c 32 < hi.
Proof. rewrite Z.shiftr_div_pow2 by lia. pose proof (Z.div_mod c (2 ^ 32)). pose proof (Z.mod_pos_bound c (2 ^ 32)). nia. Qed.

(** ** Theorems on [U256] *)

Module U256_theorems.
Import U256.

Lemma biguint_loop_spec i ds s :
  0 <= i -> biguint_loop i ds s = s + 2 ^ (32 * i) * le_val ds.
Proof.
  revert i s. induction ds as [|d ds IH]; intros i s Hi; cbn [biguint_loop le_val]; [lia|].
  rewrite IH by lia. rewrite Z.shiftl_mul_pow2 by lia.
  replace (32 * (i + 1)) with (32 * i + 32) by lia. rewrite Z.pow_add_r by lia. ring.
Qed.

Lemma to_biguint_val x : to_biguint x = val x.
Proof. unfold to_biguint. rewrite biguint_loop_spec by lia. unfold val. lia. Qed.

Lemma lex_cmp_rev l k :
  length l = length k -> u32_list l -> u32_list k ->
  lex_cmp l k = (le_val (rev l) ?= le_val (rev k)).
Proof.
  assert (forall m d, le_val (m ++ [d]) = le_val m + 2 ^ (32 * Z.of_nat (length m)) * d) as Happ.
  { induction m as [|e m IH]; intros d; cbn [le_val app length]; [cbn; lia|].
    rewrite IH, Nat2Z.inj_succ, Z.mul_succ_r, (Z.pow_add_r 2 _ 32) by lia. ring. }
  intros Hlen Hl. revert k Hlen. induction Hl as [|a l Ha Hl IH]; intros [|b k]; try done.
  intros [= Hlen] Hk. apply Forall_cons_iff in Hk as [Hb Hk].
  cbn [lex_cmp rev]. rewrite !Happ, !length_rev, <- Hlen.
  pose proof (le_val_bound (rev l) ltac:(by apply u32_list_rev)) as Bl.
  pose proof (le_val_bound (rev k) ltac:(by apply u32_list_rev)) as Bk.
  rewrite length_rev in Bl, Bk. rewrite <- Hlen in Bk. unfold in_width in *.
  set (M := 2 ^ (32 * Z.of_nat (length l))) in *.
  destruct (Z.compare_spec a b) as [->|Hlt|Hgt].
  - rewrite IH by done. by rewrite !(Z.add_comm _ (M * b)), Z.add_compare_mono_l.
  - symmetry. apply Z.compare_lt_iff. nia.
  - symmetry. apply Z.compare_gt_iff. nia.
Qed.

Lemma cmp_val (x y : U256) : cmp x y = (val x ?= val y).
Proof.
  unfold cmp, val. apply lex_cmp_rev; try apply limbs_u32. by rewrite !limbs_length.
Qed.

Lemma ltb_val x y : ltb x y = (val x <? val y).
Proof. unfold ltb. rewrite cmp_val. unfold Z.ltb. by destruct (val x ?= val y). Qed.

Lemma leb_val x y : leb x y = (val x <=? val y).
Proof. unfold leb. rewrite cmp_val. unfold Z.leb. by destruct (val x ?= val y). Qed.

Lemma add_loop_spec xs ys carry :
  length xs = length ys -> u32_list xs -> u32_list ys -> 0 <= carry <= 1 ->
  let '(r, k) := add_loop xs ys carry in
  length r = length xs /\ u32_list r /\ 0 <= k <= 1 /\
  le_val r + 2 ^ (32 * Z.of_nat (length xs)) * k = le_val xs + le_val ys + carry.
Proof.
  intros Hlen Hx. revert ys carry Hlen.
  induction Hx as [|a xs Ha Hx IH]; intros [|b ys] carry; try done.
  { intros _ _ ?. cbn [add_loop length le_val]. repeat split; try done; try lia. constructor. }
  intros [= Hlen] Hy Hc. apply Forall_cons_iff in Hy as [Hb Hy]. unfold in_width in *.
  assert (0 <= Z.shiftr (carry + a + b) 32 < 2) as Hcarry by (apply shiftr_32_bounds; lia).
  specialize (IH ys (Z.shiftr (carry + a + b) 32) Hlen Hy ltac:(lia)).
  cbn [add_loop]. destruct (add_loop xs ys _) as [r k]. destruct IH as (Hr & Hru & Hk & IH).
  pose proof (split_low_32 (carry + a + b)) as Hs.
  cbn [length le_val]. rewrite Hr. repeat split; try lia.
  - constructor; [apply wrap_in_width; lia | done].
  - rewrite Nat2Z.inj_succ, Z.mul_succ_r, (Z.pow_add_r 2 _ 32) by lia. lia.
Qed.

(** [Add] returns the sum when it is representable and panics otherwise. *)
Lemma add_val {E} (x y : U256) :
  match add (E := E) x y with
  | Ok z => val z = val x + val y /\ val x + val y < 2 ^ 256
  | Err _ => False
  | Panic => 2 ^ 256 <= val x + val y
  end.
Proof.
  unfold add. pose proof (add_loop_spec (rev (limbs x)) (rev (limbs y)) 0) as H.
  destruct (add_loop _ _ _) as [r k].
  destruct H as (Hr & Hru & Hk & H); rewrite ?length_rev, ?limbs_length; try lia;
    try (by apply u32_list_rev, limbs_u32).
  rewrite ?length_rev, ?limbs_length in Hr, H. fold (val x) (val y) in H.
  pose proof (le_val_bound r Hru) as Hb. rewrite Hr in Hb.
  replace (32 * Z.of_nat U256_LEN) with 256 in * by done.
  destruct (Z.eqb_spec k 0) as [->|Hk0]; cbn.
  - destruct (limbs_try_into_val (E := E) U256_LEN r Hr Hru) as (z & -> & Hz). lia.
  - nia.
Qed.

Lemma add_Ok {E} x y z : add (E := E) x y = Ok z -> val z = val x + val y.
Proof. intros H. pose proof (add_val (E := E) x y) as Hv. rewrite H in Hv. tauto. Qed.

Lemma add_total {E} x y : val x + val y < 2 ^ 256 -> exists z, add (E := E) x y = Ok z.
Proof.
  intros H. pose proof (add_val (E := E) x y) as Hv. destruct (add x y); [by eexists|done|lia].
Qed.

Lemma as_i32_id c : - 2 ^ 31 <= c < 2 ^ 31 -> as_i32 c = c.
Proof.
  intros H. unfold as_i32, wrap. destruct (Z_lt_le_dec c 0).
  - replace (c mod 2 ^ 32) with (c + 2 ^ 32).
    + destruct (Z.ltb_spec (c + 2 ^ 32) (2 ^ 31)); lia.
    + symmetry. rewrite <- (Z.mod_small (c + 2 ^ 32) (2 ^ 32)) by lia.
      rewrite <- (Z.add_mod_idemp_r c (2 ^ 32)) by lia. rewrite Z.mod_same by lia.
      by rewrite Z.add_0_r.
  - rewrite Z.mod_small by lia. destruct (Z.ltb_spec c (2 ^ 31)); lia.
Qed.

Lemma sub_loop_spec xs ys borrow :
  length xs = length ys -> u32_list xs -> u32_list ys -> -1 <= borrow <= 0 ->
  let '(r, k) := sub_loop xs ys borrow in
  length r = length xs /\ u32_list r /\ -1 <= k <= 0 /\
  le_val r + 2 ^ (32 * Z.of_nat (length xs)) * k = le_val xs - le_val ys + borrow.
Proof.
  intros Hlen Hx. revert ys borrow Hlen.
  induction Hx as [|a xs Ha Hx IH]; intros [|b ys] borrow; try done.
  { intros _ _ ?. cbn [sub_loop length le_val]. repeat split; try done; try lia. constructor. }
  intros [= Hlen] Hy Hc. apply Forall_cons_iff in Hy as [Hb Hy]. unfold in_width in *.
  assert (-1 <= Z.shiftr (a - b + borrow) 32 < 1) as Hcarry by (apply shiftr_32_bounds; lia).
  cbn [sub_loop]. rewrite as_i32_id by lia.
  specialize (IH ys (Z.shiftr (a - b + borrow) 32) Hlen Hy ltac:(lia)).
  destruct (sub_loop xs ys _) as [r k]. destruct IH as (Hr & Hru & Hk & IH).
  pose proof (split_low_32 (a - b + borrow)) as Hs.
  cbn [length le_val]. rewrite Hr. repeat split; try lia.
  - constructor; [apply wrap_in_width; lia | done].
  - rewrite Nat2Z.inj_succ, Z.mul_succ_r, (Z.pow_add_r 2 _ 32) by lia. lia.
Qed.

(** [Sub] returns the difference when it is non-negative and panics otherwise. *)
Lemma sub_val {E} (x y : U256) :
  match sub (E := E) x y with
  | Ok z => val z = val x - val y /\ val y <= val x
  | Err _ => False
  | Panic => val x < val y
  end.
Proof.
  unfold sub. pose proof (sub_loop_spec (rev (limbs x)) (rev (limbs y)) 0) as H.
  destruct (sub_loop _ _ _) as [r k].
  destruct H as (Hr & Hru & Hk & H); rewrite ?length_rev, ?limbs_length; try lia;
    try (by apply u32_list_rev, limbs_u32).
  rewrite ?length_rev, ?limbs_length in Hr, H. fold (val x) (val y) in H.
  pose proof (le_val_bound r Hru) as Hb. rewrite Hr in Hb.
  destruct (Z.eqb_spec k 0) as [->|Hk0]; cbn.
  - destruct (limbs_try_into_val (E := E) U256_LEN r Hr Hru) as (z & -> & Hz). lia.
  - nia.
Qed.

Lemma sub_Ok {E} x y z : sub (E := E) x y = Ok z -> val z = val x - val y.
Proof. intros H. pose proof (sub_val (E := E) x y) as Hv. rewrite H in Hv. tauto. Qed.

Lemma sub_total {E} x y : val y <= val x -> exists z, sub (E := E) x y = Ok z.
Proof.
  intros H. pose proof (sub_val (E := E) x y) as Hv. destruct (sub x y); [by eexists|done|lia].
Qed.

End U256_theorems.

(** ** Byte, bit and slice round trips *)

Section conversions.

Lemma from_to_be_bytes x : in_width 32 x -> from_be_bytes (to_be_bytes x) = x.
Proof.
  intros Hx. unfold from_be_bytes, to_be_bytes. cbn [foldl].
  rewrite !lor_shiftl_add by (try lia; apply wrap_in_width; lia).
  unfold wrap, in_width in *. rewrite !Z.shiftr_div_pow2 by lia.
  Z.div_mod_to_equations. lia.
Qed.

Lemma from_be_bytes_u32 bs :
  length bs = 4%nat -> Forall (in_width 8) bs -> in_width 32 (from_be_bytes bs).
Proof.
  destruct bs as [|a [|b [|c [|d [|]]]]]; try done. intros _ H.
  apply Forall_cons_iff in H as [Ha H]. apply Forall_cons_iff in H as [Hb H].
  apply Forall_cons_iff in H as [Hc H]. apply Forall_cons_iff in H as [Hd _].
  unfold from_be_bytes. cbn [foldl].
  rewrite !lor_shiftl_add by (try lia; done). unfold in_width in *. lia.
Qed.

Lemma chunks_fuel_concat {A} fuel k (ls : list (list A)) :
  (0 < k)%nat -> Forall (fun l => length l = k) ls -> (length ls <= fuel)%nat ->
  chunks_fuel fuel k (concat ls) = ls.
Proof.
  intros Hk Hls. revert fuel. induction Hls as [|l ls Hl Hls IH]; intros fuel Hf.
  - by destruct fuel.
  - destruct fuel as [|fuel]; cbn in Hf; [lia|]. cbn [concat].
    destruct l as [|x l]; [cbn in Hl; lia|].
    change (chunks_fuel (S fuel) k ((x :: l) ++ concat ls)) with
      (take k ((x :: l) ++ concat ls) :: chunks_fuel fuel k (drop k ((x :: l) ++ concat ls))).
    rewrite take_app_length', drop_app_length' by done. f_equal. apply IH. lia.
Qed.

Lemma chunks_concat {A} k (ls : list (list A)) :
  (0 < k)%nat -> Forall (fun l => length l = k) ls -> chunks k (concat ls) = ls.
Proof.
  intros Hk Hls. apply chunks_fuel_concat; try done.
  induction Hls as [|l ls Hl Hls IH]; cbn; [lia|]. rewrite length_app. lia.
Qed.

Lemma length_bind_const {A B} (f : A -> list B) k l :
  (forall x, length (f x) = k) -> length (l ≫= f) = (k * length l)%nat.
Proof. intros Hf. induction l as [|x l IH]; cbn; [lia|]. rewrite length_app, Hf, IH. lia. Qed.

Lemma bind_concat {A B} (f : A -> list B) l : l ≫= f = concat (f <$> l).
Proof. induction l as [|x l IH]; cbn; [done|]. by rewrite IH. Qed.

Lemma fmap_roundtrip {A B} (f : A -> B) (g : B -> A) (P : A -> Prop) l :
  (forall x, P x -> g (f x) = x) -> Forall P l -> g <$> (f <$> l) = l.
Proof. intros H. induction 1 as [|x l Hx Hl IH]; cbn; [done|]. by rewrite IH, H. Qed.

Lemma from_bytes_be_to_bytes_be {n} (x : Limbs n) : from_bytes_be n (to_bytes_be x) = Ok x.
Proof.
  unfold from_bytes_be.
  assert (length (to_bytes_be x) = 4 * n)%nat as Hlen.
  { unfold to_bytes_be. rewrite (length_bind_const _ 4) by done. by rewrite limbs_length. }
  rewrite Hlen, bool_decide_eq_false_2 by lia. rewrite Nat.sub_diag. cbn [replicate app].
  unfold to_bytes_be. rewrite bind_concat, chunks_concat; [|lia|].
  - rewrite (fmap_roundtrip _ _ (in_width 32)); [apply from_u32_slice_limbs | | apply limbs_u32].
    apply from_to_be_bytes.
  - by apply Forall_fmap, Forall_true.
Qed.

Lemma u32_to_bits_be_lookup x k :
  (k < 32)%nat -> u32_to_bits_be x !! k = Some (Z.testbit x (31 - Z.of_nat k)).
Proof.
  intros Hk. unfold u32_to_bits_be. rewrite list_lookup_fmap.
  rewrite reverse_lookup by (rewrite length_seq; lia). rewrite length_seq, lookup_seq_lt by lia.
  cbn [fmap option_fmap option_map]. f_equal.
  replace (Z.of_nat (0 + (32 - S k))) with (31 - Z.of_nat k) by lia.
  rewrite Z.shiftl_1_l.
  destruct (Z.testbit x (31 - Z.of_nat k)) eqn:Hb.
  - apply negb_true_iff, Z.eqb_neq. intros H0.
    apply (f_equal (fun z => Z.testbit z (31 - Z.of_nat k))) in H0.
    rewrite Z.land_spec, Hb, Z.pow2_bits_true, Z.bits_0 in H0 by lia. done.
  - apply negb_false_iff, Z.eqb_eq. apply Z.bits_inj'. intros j Hj.
    rewrite Z.land_spec, Z.pow2_bits_eqb, Z.bits_0 by lia.
    destruct (Z.eqb_spec (31 - Z.of_nat k) j) as [<-|]; [by rewrite Hb|apply andb_false_r].
Qed.

Lemma bits_be_to_u32_loop_testbit bits i r j :
  (i + length bits <= 32)%nat -> 0 <= j ->
  Z.testbit (bits_be_to_u32_loop i bits r) j =
  Z.testbit r j ||
    (if j <=? 31 - Z.of_nat i then default false (bits !! Z.to_nat (31 - Z.of_nat i - j)) else false).
Proof.
  revert i r. induction bits as [|b bits IH]; intros i r Hi Hj; cbn [bits_be_to_u32_loop].
  { rewrite lookup_nil. cbn. destruct (j <=? _); by rewrite orb_false_r. }
  cbn [length] in Hi. rewrite IH by lia.
  destruct (Z.leb_spec j (31 - Z.of_nat i)), (Z.leb_spec j (31 - Z.of_nat (S i))); try lia.
  - replace (Z.to_nat (31 - Z.of_nat i - j)) with (S (Z.to_nat (31 - Z.of_nat (S i) - j))) by lia.
    cbn [lookup list_lookup]. f_equal. destruct b; [|done].
    rewrite Z.lor_spec, Z.shiftl_1_l, Z.pow2_bits_false by lia. by rewrite orb_false_r.
  - replace (31 - Z.of_nat i - j) with 0 by lia. cbn. rewrite orb_false_r.
    assert (j = 31 - Z.of_nat i) as -> by lia.
    destruct b; [|by rewrite orb_false_r].
    rewrite Z.lor_spec, Z.shiftl_1_l, Z.pow2_bits_true by lia. done.
  - rewrite !orb_false_r. destruct b; [|done].
    rewrite Z.lor_spec, Z.shiftl_1_l, Z.pow2_bits_false by lia. by rewrite orb_false_r.
Qed.

Lemma length_u32_to_bits_be x : length (u32_to_bits_be x) = 32%nat.
Proof. done. Qed.

Lemma bits_be_to_u32_to_bits x : in_width 32 x -> bits_be_to_u32 (u32_to_bits_be x) = x.
Proof.
  intros Hx. apply Z.bits_inj'. intros j Hj. unfold bits_be_to_u32.
  rewrite bits_be_to_u32_loop_testbit by (rewrite ?length_u32_to_bits_be; lia).
  rewrite Z.bits_0. cbn [orb]. destruct (Z.leb_spec j (31 - Z.of_nat 0)).
  - rewrite u32_to_bits_be_lookup by lia. cbn. f_equal. lia.
  - symmetry. apply (testbit_above 32); [done|lia].
Qed.

Lemma from_bits_be_to_bits_be {n} (x : Limbs n) : from_bits_be n (to_bits_be x) = Ok x.
Proof.
  unfold from_bits_be.
  assert (length (to_bits_be x) = 32 * n)%nat as Hlen.
  { unfold to_bits_be. rewrite (length_bind_const _ 32) by apply length_u32_to_bits_be.
    by rewrite limbs_length. }
  rewrite Hlen, bool_decide_eq_false_2 by lia. rewrite Nat.sub_diag. cbn [replicate app].
  unfold to_bits_be. rewrite bind_concat, chunks_concat; [|lia|].
  - rewrite (fmap_roundtrip _ _ (in_width 32)); [apply from_u32_slice_limbs | | apply limbs_u32].
    apply bits_be_to_u32_to_bits.
  - apply Forall_fmap, Forall_true. intros. apply length_u32_to_bits_be.
Qed.

Lemma u32_range_check_id x : in_width 32 x -> u32_range_check x = Ok x.
Proof.
  intros Hx. unfold u32_range_check. unfold in_width in Hx.
  destruct (Z.ltb_spec (2 ^ 32 - 1) x); [lia|]. by rewrite wrap_id.
Qed.

Lemma from_u64_slice_to_u64_vec {n} (x : Limbs n) : from_u64_slice n (to_u64_vec x) = Ok x.
Proof.
  unfold from_u64_slice, to_u64_vec, to_u32_vec.
  replace (res_mapM u32_range_check (limbs x)) with (Ok (E := EthereumTypeError) (limbs x)).
  - apply from_u32_slice_limbs.
  - symmetry. apply res_mapM_Ok.
    induction (limbs_u32 x) as [|d l Hd Hl IH]; constructor; [by apply u32_range_check_id | done].
Qed.

(** The checked decoder refuses every limb above [u32::MAX]. *)
Lemma from_u64_slice_Ok n input (x : Limbs n) :
  Forall (Z.le 0) input ->
  from_u64_slice n input = Ok x -> limbs x = input /\ u32_list input.
Proof.
  intros Hnn H. unfold from_u64_slice in H. simplify_res.
  apply res_mapM_Ok in Hr.
  assert (r = input) as ->.
  { clear H. revert r Hr Hnn. induction input as [|a l IH]; intros r Hr Hnn; inversion Hr; subst; [done|].
    apply Forall_cons_iff in Hnn as [Ha Hnn]. f_equal; [|by apply IH].
    unfold u32_range_check in *. destruct (Z.ltb_spec (2 ^ 32 - 1) a); simplify_res.
    apply wrap_id. unfold in_width. lia. }
  unfold from_u32_slice in H. case_bool_decide; [done|]. apply limbs_try_into_Ok in H as <-.
  split; [done|]. apply limbs_u32.
Qed.

End conversions.

Module U64_theorems.
Import U64.

Lemma to_u64_val (x : U64) : to_u64 x = val x.
Proof.
  unfold to_u64, val. destruct x as [l Hl]; cbn [limbs].
  pose proof Hl as Hl'. apply limbs_wfb_spec in Hl' as [Hlen Hu].
  destruct l as [|a [|b [|]]]; try done. apply Forall_cons_iff in Hu as [Ha Hu].
  apply Forall_cons_iff in Hu as [Hb _]. cbn [nth rev app le_val].
  rewrite lor_shiftl_add by (try lia; done). lia.
Qed.

Lemma from_u64_val {E} v : in_width 64 v -> exists x, from_u64 (E := E) v = Ok x /\ val x = v.
Proof.
  intros Hv. unfold from_u64.
  destruct (limbs_try_into_val (E := E) U64_LEN [wrap 32 v; wrap 32 (Z.shiftr v 32)]) as (x & Hx & Hxv).
  - done.
  - repeat constructor; apply wrap_in_width; lia.
  - exists x. split; [exact Hx|]. rewrite Hxv. cbn [le_val].
    rewrite (wrap_id 32 (Z.shiftr v 32)).
    + pose proof (split_low_32 v). lia.
    + unfold in_width in *. apply (shiftr_32_bounds v 0 (2 ^ 32)). lia.
Qed.

Lemma u64_add_val {E} (x y : U64) :
  match add (E := E) x y with
  | Ok z => val z = val x + val y /\ val x + val y < 2 ^ 64
  | Err _ => False
  | Panic => 2 ^ 64 <= val x + val y
  end.
Proof.
  unfold add. rewrite !to_u64_val. unfold checked_add.
  pose proof (val_bound x). pose proof (val_bound y).
  destruct (Z.ltb_spec (val x + val y) (2 ^ 64)); cbn; [|done].
  destruct (from_u64_val (E := E) (val x + val y)) as (z & -> & Hz); [unfold in_width; lia|]. lia.
Qed.

Lemma u64_sub_val {E} (x y : U64) :
  match sub (E := E) x y with
  | Ok z => val z = val x - val y /\ val y <= val x
  | Err _ => False
  | Panic => val x < val y
  end.
Proof.
  unfold sub. rewrite !to_u64_val. unfold checked_sub.
  pose proof (val_bound x) as Hx. pose proof (val_bound y).
  destruct (Z.leb_spec (val y) (val x)); cbn; [|done].
  change (32 * Z.of_nat U64_LEN) with 64 in Hx.
  destruct (from_u64_val (E := E) (val x - val y)) as (z & -> & Hz); [unfold in_width; lia|]. lia.
Qed.

End U64_theorems.
