(* ===== verification/Circuit.v ===== *)
(** * The circuit builder interface

    The circuits of [src/src/] are built with plonky2's [CircuitBuilder] over
    the Goldilocks field.  plonky2 is not part of the repository's sources, so
    the builder is an interface here: a class of the gates the modelled gadgets
    use, with the documented meaning of each gate as its laws.

    A [Target] denotes a field element, represented by its canonical value in
    [[0, p)].  A gadget denotes the set of results it can return in a
    satisfying assignment ([propset], whose bind composes gadgets): a gate that
    constrains its inputs contributes no result when the constraint fails, a
    gate with witness freedom (a bit decomposition) contributes every result a
    prover may choose.  Soundness of a gadget speaks of every member of its
    set, completeness of the existence of one.

    [ReferenceBuilder] is an instance: the laws are satisfiable. *)

From S2P Require Import Prelude.

(** [GOLDILOCKS_ORDER]. *)
Definition GOLDILOCKS_ORDER : Z := 0xFFFFFFFF00000001.

Definition canonical (x : Z) : Prop := 0 <= x < GOLDILOCKS_ORDER.

Definition is_bit (x : Z) : Prop := x = 0 \/ x = 1.

(** Field element to field element. *)
Definition fadd (x y : Z) : Z := (x + y) mod GOLDILOCKS_ORDER.
Definition fsub (x y : Z) : Z := (x - y) mod GOLDILOCKS_ORDER.
Definition fmul (x y : Z) : Z := (x * y) mod GOLDILOCKS_ORDER.

(** The number a little-endian bit list denotes. *)
Fixpoint le_bits (bs : list Z) : Z :=
  match bs with
  | [] => 0
  | b :: bs' => b + 2 * le_bits bs'
  end.

(** The gates, with their documented meaning. *)
Class CircuitBuilder := {
  split_le : Z -> nat -> propset (list Z);
  range_check : Z -> nat -> propset unit;
  split_low_high : Z -> nat -> nat -> propset (Z * Z);
  is_equal : Z -> Z -> propset Z;
  select : Z -> Z -> Z -> propset Z;
  mul : Z -> Z -> propset Z;
  badd : Z -> Z -> propset Z;
  bnot : Z -> propset Z;
  bor : Z -> Z -> propset Z;
  band : Z -> Z -> propset Z;
  assert_zero : Z -> propset unit;
  assert_one : Z -> propset unit;
  connect : Z -> Z -> propset unit;

  (** [split_le(x, n)]: [n] boolean targets whose little-endian sum is [x] in the field. *)
  split_le_law x n bs :
    bs ∈ split_le x n <->
    length bs = n /\ Forall is_bit bs /\ le_bits bs mod GOLDILOCKS_ORDER = x;
  (** [range_check(x, n)]: [x] has an [n]-bit value. *)
  range_check_law x n : tt ∈ range_check x n <-> in_width (Z.of_nat n) x;
  (** [split_low_high(x, l, n)]: [x = low + 2^l high] in the field, [low] on [l] bits, [high] on
      [n - l] bits. *)
  split_low_high_law x l n lo hi :
    (lo, hi) ∈ split_low_high x l n <->
    in_width (Z.of_nat l) lo /\ in_width (Z.of_nat (n - l)) hi /\
    (lo + 2 ^ Z.of_nat l * hi) mod GOLDILOCKS_ORDER = x;
  is_equal_law x y b : b ∈ is_equal x y <-> b = if x =? y then 1 else 0;
  (** [select(b, x, y) = b x + (1 - b) y]; on a boolean condition, the usual choice. *)
  select_law c x y r : is_bit c -> r ∈ select c x y <-> r = if c =? 1 then x else y;
  mul_law x y r : r ∈ mul x y <-> r = fmul x y;
  badd_law x y r : r ∈ badd x y <-> r = fadd x y;
  bnot_law x r : is_bit x -> r ∈ bnot x <-> r = 1 - x;
  bor_law x y r : is_bit x -> is_bit y -> r ∈ bor x y <-> r = Z.max x y;
  band_law x y r : is_bit x -> is_bit y -> r ∈ band x y <-> r = x * y;
  assert_zero_law x : tt ∈ assert_zero x <-> x = 0;
  assert_one_law x : tt ∈ assert_one x <-> x = 1;
  connect_law x y : tt ∈ connect x y <-> x = y;
}.

(** The gates over [Z], defined by their meaning. *)
#[export] Program Instance ReferenceBuilder : CircuitBuilder := {|
  split_le x n :=
    {[ bs | length bs = n /\ Forall is_bit bs /\ le_bits bs mod GOLDILOCKS_ORDER = x ]};
  range_check x n := {[ _ | in_width (Z.of_nat n) x ]};
  split_low_high x l n :=
    {[ p | in_width (Z.of_nat l) p.1 /\ in_width (Z.of_nat (n - l)) p.2 /\
           (p.1 + 2 ^ Z.of_nat l * p.2) mod GOLDILOCKS_ORDER = x ]};
  is_equal x y := {[ if x =? y then 1 else 0 ]};
  select c x y := {[ if c =? 1 then x else y ]};
  mul x y := {[ fmul x y ]};
  badd x y := {[ fadd x y ]};
  bnot x := {[ 1 - x ]};
  bor x y := {[ Z.max x y ]};
  band x y := {[ x * y ]};
  assert_zero x := {[ _ | x = 0 ]};
  assert_one x := {[ _ | x = 1 ]};
  connect x y := {[ _ | x = y ]};
|}.
Solve Obligations with (intros; set_solver).

Section builder_lemmas.

Lemma le_bits_bound bs : Forall is_bit bs -> in_width (Z.of_nat (length bs)) (le_bits bs).
Proof.
  unfold in_width, is_bit. induction 1 as [|b bs Hb Hbs IH]; [cbn; lia|].
  cbn [length le_bits]. rewrite Nat2Z.inj_succ, Z.pow_succ_r by lia. lia.
Qed.

(** A decomposition on fewer bits than the field order holds is the value itself. *)
Lemma split_le_canonical `{CircuitBuilder} x n bs :
  (n <= 63)%nat -> bs ∈ split_le x n ->
  length bs = n /\ Forall is_bit bs /\ le_bits bs = x.
Proof.
  intros Hn Hbs. apply split_le_law in Hbs as (Hlen & Hbits & Hx).
  repeat split; try done. rewrite <- Hx. symmetry. apply Z.mod_small.
  pose proof (le_bits_bound bs Hbits) as Hb. rewrite Hlen in Hb. unfold in_width in Hb.
  assert (2 ^ Z.of_nat n <= 2 ^ 63) by (apply Z.pow_le_mono_r; lia).
  unfold GOLDILOCKS_ORDER. lia.
Qed.

(** The bits of [x], least significant first. *)
Fixpoint bits_of (n : nat) (x : Z) : list Z :=
  match n with
  | O => []
  | S n' => x mod 2 :: bits_of n' (x / 2)
  end.

Lemma bits_of_spec n x :
  in_width (Z.of_nat n) x ->
  length (bits_of n x) = n /\ Forall is_bit (bits_of n x) /\ le_bits (bits_of n x) = x.
Proof.
  unfold in_width. revert x. induction n as [|n IH]; intros x Hx.
  - cbn in *. repeat split; [constructor|lia].
  - rewrite Nat2Z.inj_succ, Z.pow_succ_r in Hx by lia.
    pose proof (Z.mod_pos_bound x 2). pose proof (Z.div_mod x 2).
    destruct (IH (x / 2)) as (IH1 & IH2 & IH3); [lia|].
    cbn [bits_of length le_bits]. repeat split.
    + lia.
    + constructor; [unfold is_bit; lia|done].
    + lia.
Qed.

Lemma split_le_complete `{CircuitBuilder} x n :
  (n <= 63)%nat -> in_width (Z.of_nat n) x -> bits_of n x ∈ split_le x n.
Proof.
  intros Hn Hx. destruct (bits_of_spec n x Hx) as (H1 & H2 & H3).
  apply split_le_law. repeat split; try done. rewrite H3. apply Z.mod_small.
  assert (2 ^ Z.of_nat n <= 2 ^ 63) by (apply Z.pow_le_mono_r; lia).
  unfold in_width, GOLDILOCKS_ORDER in *. lia.
Qed.

End builder_lemmas.

(** [open_circuit] opens membership in a composed gadget. *)
Ltac open_circuit :=
  repeat match goal with
  | H : _ ∈ (_ ≫= _) |- _ => apply elem_of_bind in H as (? & H & ?)
  | H : _ ∈ mret _ |- _ => apply elem_of_ret in H
  | u : unit |- _ => destruct u
  | H : exists _, _ |- _ => destruct H
  | H : _ /\ _ |- _ => destruct H
  end.
