(* ===== verification/U63.v ===== *)
(** * 63-bit numbers and their comparison gadget

    Models [src/src/common/u63.rs]: the newtype [U63] (used for block numbers)
    with its constructors and encodings, and the circuit side [U63Target],
    whose comparator works bit by bit so that it cannot wrap modulo the field
    order. *)

From S2P Require Import Prelude Circuit.

Module U63.

Definition U63_BITS : Z := 63.
Definition U63_LOW_BITS : Z := 32.
Definition U63_HIGH_BITS : Z := U63_BITS - U63_LOW_BITS.
Definition U63_MAX_VALUE : Z := Z.shiftl 1 U63_BITS - 1.
Definition U63_HIGH_MAX : Z := Z.shiftl 1 U63_HIGH_BITS - 1.

Inductive U63Error :=
| ValueOverflow (v : Z)
| InvalidHigh (high bits : Z)
| InvalidU32SliceLength (got want : nat)
| InvalidU64SliceLength (got want : nat).

(** [pub struct U63(u64)]. *)
Record U63 := mkU63 { as_u64 : Z }.

#[export] Instance U63_eq_dec : EqDecision U63.
Proof. solve_decision. Defined.

Definition new (value : Z) : res U63Error U63 :=
  if U63_MAX_VALUE <? value then Err (ValueOverflow value) else Ok (mkU63 value).

Definition from_parts (high low : Z) : res U63Error U63 :=
  if U63_HIGH_MAX <? high then Err (InvalidHigh high U63_HIGH_BITS)
  else new (Z.lor (Z.shiftl high U63_LOW_BITS) low).

Definition high (x : U63) : Z :=
  wrap 32 (Z.land (Z.shiftr (as_u64 x) U63_LOW_BITS) U63_HIGH_MAX).

Definition low (x : U63) : Z :=
  wrap 32 (Z.land (as_u64 x) (Z.shiftl 1 U63_LOW_BITS - 1)).

Definition to_u32_parts (x : U63) : Z * Z := (high x, low x).

Definition to_u32_vec (x : U63) : list Z := let '(h, l) := to_u32_parts x in [h; l].

Definition to_u64_vec (x : U63) : list Z := [as_u64 x].

Definition from_u32_slice (slice : list Z) : res U63Error U63 :=
  match slice with
  | [h; l] => from_parts h l
  | _ => Err (InvalidU32SliceLength (length slice) 2)
  end.

Definition from_u64_slice (slice : list Z) : res U63Error U63 :=
  match slice with
  | [v] => new v
  | _ => Err (InvalidU64SliceLength (length slice) 1)
  end.

Definition add (x : U63) (y : Z) : res U63Error U63 :=
  s ← ok_or (checked_add 64 (as_u64 x) y) (ValueOverflow (as_u64 x)); new s.

(** ** The circuit side, [U63Target] (its [value] is the target itself) *)

Section gadgets.
Context `{CircuitBuilder}.

Fixpoint compare_loop (a b : list Z) (greater : Z) : propset Z :=
  match a, b with
  | a0 :: a', b0 :: b' =>
      equal ← is_equal a0 b0;
      greater' ← select equal greater a0;
      compare_loop a' b' greater'
  | _, _ => mret greater
  end.

Definition compare (lhs rhs : Z) (strict : bool) : propset Z :=
  a ← split_le lhs 63;
  b ← split_le rhs 63;
  compare_loop a b (if strict then 0 else 1).

Definition enforce_ge (self lower : Z) : propset unit :=
  ge ← compare self lower false; assert_one ge.

Definition enforce_gt (self lower : Z) : propset unit :=
  gt ← compare self lower true; assert_one gt.

Definition conditional_compare (self lower condition : Z) (strict : bool) : propset unit :=
  lhs ← select condition self 0;
  rhs ← select condition lower 0;
  comparison ← compare lhs rhs strict;
  disabled ← bnot condition;
  accepted ← bor disabled comparison;
  assert_one accepted.

Definition conditional_ge (self lower condition : Z) : propset unit :=
  conditional_compare self lower condition false.

Definition conditional_gt (self lower condition : Z) : propset unit :=
  conditional_compare self lower condition true.

Definition split_parts (value : Z) : propset (Z * Z) :=
  p ← split_low_high value 32 63; mret (p.2, p.1).

Definition from_parts_target (hi lo : Z) (is_checked : bool) : propset Z :=
  _ ← (if is_checked then range_check hi 31 else {[ tt ]});
  _ ← (if is_checked then range_check lo 32 else {[ tt ]});
  high_shifted ← mul (2 ^ 32) hi;
  value ← badd high_shifted lo;
  _ ← (if is_checked then range_check value 63 else {[ tt ]});
  mret value.

End gadgets.
End U63.

(** ** Lemmas *)

Module U63_lemmas.
Import U63.

(** The values the constructors of [U63] produce. *)
Definition u63_ok (x : U63) : Prop := in_width 63 (as_u64 x).

Lemma U63_MAX_VALUE_eq : U63_MAX_VALUE = 2 ^ 63 - 1.
Proof. done. Qed.

Lemma new_Ok v x : 0 <= v -> new v = Ok x <-> x = mkU63 v /\ v < 2 ^ 63.
Proof.
  intros Hv. unfold new. rewrite U63_MAX_VALUE_eq.
  destruct (Z.ltb_spec (2 ^ 63 - 1) v); split; naive_solver lia.
Qed.

Lemma new_u63_ok v x : 0 <= v -> new v = Ok x -> u63_ok x.
Proof. intros Hv H. apply new_Ok in H as [-> ?]; [|done]. unfold u63_ok, in_width; cbn. lia. Qed.

Lemma low_eq x : u63_ok x -> low x = as_u64 x mod 2 ^ 32.
Proof.
  intros Hx. unfold low, U63_LOW_BITS. change (Z.shiftl 1 32 - 1) with (Z.ones 32).
  rewrite Z.land_ones by lia. apply wrap_id. apply Z.mod_pos_bound. lia.
Qed.

Lemma high_eq x : u63_ok x -> high x = as_u64 x / 2 ^ 32.
Proof.
  intros Hx. unfold u63_ok, in_width in Hx. unfold high, U63_LOW_BITS.
  change U63_HIGH_MAX with (Z.ones 31). rewrite Z.land_ones, Z.shiftr_div_pow2 by lia.
  assert (0 <= as_u64 x / 2 ^ 32 < 2 ^ 31) as Hb by (Z.div_mod_to_equations; lia).
  rewrite (Z.mod_small _ (2 ^ 31)) by done. apply wrap_id. unfold in_width. lia.
Qed.

Lemma compare_loop_spec `{CircuitBuilder} a b g r :
  length a = length b -> Forall is_bit a -> Forall is_bit b -> is_bit g ->
  r ∈ compare_loop a b g <->
  r = if le_bits a =? le_bits b then g else if le_bits b <? le_bits a then 1 else 0.
Proof.
  intros Hlen Ha. revert b g Hlen.
  induction Ha as [|a0 a Ha0 Ha IH]; intros [|b0 b] g; try done.
  intros [= Hlen] Hb Hg. apply Forall_cons_iff in Hb as [Hb0 Hb]. cbn [compare_loop le_bits].
  assert (forall c, is_bit c -> r ∈ (greater' ← select c g a0; compare_loop a b greater') <->
    r ∈ compare_loop a b (if c =? 1 then g else a0)) as Hsel.
  { intros c Hc. split.
    - intros (g' & Hr & Hg')%elem_of_bind. by apply select_law in Hg' as ->.
    - intros Hr. apply elem_of_bind. eexists. split; [exact Hr|]. by apply select_law. }
  assert (r ∈ (equal ← is_equal a0 b0; greater' ← select equal g a0; compare_loop a b greater') <->
    r ∈ compare_loop a b (if a0 =? b0 then g else a0)) as ->.
  { split.
    - intros (c & Hr & Hc)%elem_of_bind. apply is_equal_law in Hc as ->.
      apply Hsel in Hr; [|unfold is_bit; destruct (a0 =? b0); lia].
      by destruct (a0 =? b0).
    - intros Hr. apply elem_of_bind. eexists. split; [|by apply is_equal_law].
      apply Hsel; [unfold is_bit; destruct (a0 =? b0); lia|]. by destruct (a0 =? b0). }
  rewrite IH by (try done; destruct (a0 =? b0); done). unfold is_bit in *.
  destruct (Z.eqb_spec a0 b0), (Z.eqb_spec (le_bits a) (le_bits b)),
    (Z.eqb_spec (a0 + 2 * le_bits a) (b0 + 2 * le_bits b)),
    (Z.ltb_spec (le_bits b) (le_bits a)),
    (Z.ltb_spec (b0 + 2 * le_bits b) (a0 + 2 * le_bits a)); lia.
Qed.

(** What the comparator returns: both operands are 63-bit and the result decides the order. *)
Lemma compare_spec `{CircuitBuilder} x y strict r :
  r ∈ compare x y strict <->
  in_width 63 x /\ in_width 63 y /\
  r = (if (if strict then y <? x else y <=? x) then 1 else 0).
Proof.
  unfold compare. split.
  - intros (a & Hr & Ha)%elem_of_bind. apply elem_of_bind in Hr as (b & Hr & Hb).
    apply split_le_canonical in Ha as (Hla & Hba & <-); [|lia].
    apply split_le_canonical in Hb as (Hlb & Hbb & <-); [|lia].
    pose proof (le_bits_bound a Hba) as Ba. pose proof (le_bits_bound b Hbb) as Bb.
    rewrite Hla in Ba. rewrite Hlb in Bb. split; [exact Ba|split; [exact Bb|]].
    apply compare_loop_spec in Hr as ->; [|congruence|done|done|destruct strict; unfold is_bit; lia].
    destruct strict, (Z.eqb_spec (le_bits a) (le_bits b)), (Z.ltb_spec (le_bits b) (le_bits a)),
      (Z.leb_spec (le_bits b) (le_bits a)); lia.
  - intros (Hx & Hy & ->).
    destruct (bits_of_spec 63 x Hx) as (X1 & X2 & X3), (bits_of_spec 63 y Hy) as (Y1 & Y2 & Y3).
    apply elem_of_bind. exists (bits_of 63 x). split; [|apply split_le_complete; [lia|done]].
    apply elem_of_bind. exists (bits_of 63 y). split; [|apply split_le_complete; [lia|done]].
    apply compare_loop_spec; [congruence|done|done|destruct strict; unfold is_bit; lia|].
    rewrite X3, Y3.
    destruct strict, (Z.eqb_spec x y), (Z.ltb_spec y x), (Z.leb_spec y x); lia.
Qed.

Lemma enforce_compare_spec `{CircuitBuilder} x y strict :
  tt ∈ (r ← compare x y strict; assert_one r) <->
  in_width 63 x /\ in_width 63 y /\ (if strict then y < x else y <= x).
Proof.
  rewrite elem_of_bind. split.
  - intros (r & Hr & (Hx & Hy & Hc)%compare_spec). apply assert_one_law in Hr as ->.
    repeat split; try apply Hx; try apply Hy.
    destruct strict; [destruct (Z.ltb_spec y x)|destruct (Z.leb_spec y x)]; lia.
  - intros (Hx & Hy & Hc). exists 1. split; [by apply assert_one_law|].
    apply compare_spec. repeat split; try apply Hx; try apply Hy.
    destruct strict; [destruct (Z.ltb_spec y x)|destruct (Z.leb_spec y x)]; lia.
Qed.

#[local] Opaque compare.

Lemma conditional_compare_spec `{CircuitBuilder} x y c strict :
  is_bit c ->
  tt ∈ conditional_compare x y c strict <->
  c = 0 \/ (in_width 63 x /\ in_width 63 y /\ (if strict then y < x else y <= x)).
Proof.
  intros Hc. unfold conditional_compare. repeat setoid_rewrite elem_of_bind. split.
  - intros (lhs & (rhs & (cmp & (dis & (acc & Hacc & Ha) & Hd) & Hcmp) & Hr) & Hl).
    apply select_law in Hl as ->; [|done]. apply select_law in Hr as ->; [|done].
    apply bnot_law in Hd as ->; [|done]. apply assert_one_law in Hacc as ->.
    apply compare_spec in Hcmp as (Hx & Hy & ->).
    apply bor_law in Ha; [|unfold is_bit in *; lia|unfold is_bit; by repeat case_match; auto].
    destruct Hc as [->| ->]; [by left|right]. cbn [Z.eqb Pos.eqb] in *.
    repeat split; try apply Hx; try apply Hy.
    destruct strict; [destruct (Z.ltb_spec y x)|destruct (Z.leb_spec y x)]; lia.
  - intros Hcase. eexists. split; [|by apply select_law]. eexists. split; [|by apply select_law].
    eexists. split; [|apply compare_spec; split; [|split; [|reflexivity]]].
    { eexists. split; [|by apply bnot_law]. exists 1. split; [by apply assert_one_law|].
      apply bor_law; [unfold is_bit in *; lia|unfold is_bit; by repeat case_match; auto|].
      destruct Hc as [->| ->]; cbn [Z.eqb Pos.eqb] in *; [by repeat case_match|].
      destruct Hcase as [?|(Hx & Hy & Ho)]; [lia|].
      destruct strict; [destruct (Z.ltb_spec y x)|destruct (Z.leb_spec y x)]; lia. }
    all: unfold in_width in *; destruct Hc as [->| ->]; cbn [Z.eqb Pos.eqb]; lia.
Qed.

Lemma split_parts_spec `{CircuitBuilder} v h l :
  (h, l) ∈ split_parts v <-> in_width 63 v /\ h = v / 2 ^ 32 /\ l = v mod 2 ^ 32.
Proof.
  unfold split_parts. rewrite elem_of_bind. split.
  - intros ([lo hi] & Hret & Hs). apply elem_of_ret in Hret. cbn in Hret. simplify_eq.
    apply split_low_high_law in Hs as (Hlo & Hhi & Hv). unfold in_width in *.
    change (2 ^ Z.of_nat 32) with (2 ^ 32) in *. change (2 ^ Z.of_nat (63 - 32)) with (2 ^ 31) in *.
    rewrite Z.mod_small in Hv by (unfold GOLDILOCKS_ORDER; lia).
    subst v. Z.div_mod_to_equations. lia.
  - intros (Hv & -> & ->). exists (v mod 2 ^ 32, v / 2 ^ 32). split; [by apply elem_of_ret|].
    apply split_low_high_law. unfold in_width in *.
    change (2 ^ Z.of_nat 32) with (2 ^ 32) in *. change (2 ^ Z.of_nat (63 - 32)) with (2 ^ 31) in *.
    pose proof (Z.div_mod v (2 ^ 32)). pose proof (Z.mod_pos_bound v (2 ^ 32)).
    repeat split; try lia.
    replace (v mod 2 ^ 32 + 2 ^ 32 * (v / 2 ^ 32)) with v by lia.
    apply Z.mod_small. unfold GOLDILOCKS_ORDER. lia.
Qed.

End U63_lemmas.

(** ** Theorems *)

Module U63_theorems.
Import U63 U63_lemmas.

Theorem u63_u32_roundtrip (x : U63) : u63_ok x -> from_u32_slice (to_u32_vec x) = Ok x.
Proof.
  intros Hx. pose proof Hx as Hb. unfold u63_ok, in_width in Hb.
  unfold from_u32_slice, to_u32_vec, to_u32_parts, from_parts.
  rewrite high_eq, low_eq by done. change U63_HIGH_MAX with (2 ^ 31 - 1).
  pose proof (Z.mod_pos_bound (as_u64 x) (2 ^ 32)). pose proof (Z.div_mod (as_u64 x) (2 ^ 32)).
  destruct (Z.ltb_spec (2 ^ 31 - 1) (as_u64 x / 2 ^ 32)); [lia|].
  unfold U63_LOW_BITS. rewrite lor_shiftl_add by (try lia; unfold in_width; lia).
  apply new_Ok; [lia|]. split; [|lia]. destruct x; cbn in *. f_equal. lia.
Qed.

Theorem u63_from_u32_slice_total (slice : list Z) :
  Forall (in_width 32) slice ->
  match from_u32_slice slice with
  | Ok x => u63_ok x /\ to_u32_vec x = slice
  | Err _ => length slice <> 2%nat \/ exists h l, slice = [h; l] /\ 2 ^ 31 <= h
  | Panic => False
  end.
Proof.
  intros Hs. destruct slice as [|h [|l [|]]]; cbn [from_u32_slice]; try (left; cbn; lia).
  apply Forall_cons_iff in Hs as [Hh Hs]. apply Forall_cons_iff in Hs as [Hl _].
  unfold from_parts. change U63_HIGH_MAX with (2 ^ 31 - 1). unfold in_width in *.
  destruct (Z.ltb_spec (2 ^ 31 - 1) h); [right; exists h, l; split; [done|lia]|].
  unfold U63_LOW_BITS. rewrite lor_shiftl_add by (try lia; done).
  assert (new (h * 2 ^ 32 + l) = Ok (mkU63 (h * 2 ^ 32 + l))) as -> by (apply new_Ok; [lia|split; [done|lia]]).
  assert (u63_ok (mkU63 (h * 2 ^ 32 + l))) as Hok by (unfold u63_ok, in_width; cbn; lia).
  split; [done|]. unfold to_u32_vec, to_u32_parts. rewrite high_eq, low_eq by done. cbn [as_u64].
  rewrite Z.div_add_l, Z.div_small, (Z.add_comm _ l), Z.mod_add, Z.mod_small by lia.
  f_equal. lia.
Qed.

Theorem u63_add_spec (x : U63) (y : Z) :
  u63_ok x -> in_width 64 y ->
  match add x y with
  | Ok z => u63_ok z /\ as_u64 z = as_u64 x + y
  | Err _ => 2 ^ 63 <= as_u64 x + y
  | Panic => False
  end.
Proof.
  intros Hx Hy. unfold add, u63_ok, in_width in *. unfold checked_add.
  destruct (Z.ltb_spec (as_u64 x + y) (2 ^ 64)); cbn [ok_or mbind res_bind]; [|lia].
  unfold new. rewrite U63_MAX_VALUE_eq.
  destruct (Z.ltb_spec (2 ^ 63 - 1) (as_u64 x + y)); cbn; lia.
Qed.

Theorem enforce_ge_exact `{CircuitBuilder} x y :
  tt ∈ enforce_ge x y <-> in_width 63 x /\ in_width 63 y /\ y <= x.
Proof. apply enforce_compare_spec. Qed.

Theorem enforce_gt_exact `{CircuitBuilder} x y :
  tt ∈ enforce_gt x y <-> in_width 63 x /\ in_width 63 y /\ y < x.
Proof. apply enforce_compare_spec. Qed.

End U63_theorems.
