(* ===== verification/MerkleTree.v ===== *)
(** * Merkle trees

    Models [src/src/utils/leafable_hasher.rs] and [leafable.rs] (the hashing
    traits, as classes), [src/src/utils/trees/bit_path.rs],
    [merkle_tree.rs] (the sparse node store [MerkleTree], and [MerkleProof])
    and [get_root.rs] (the root of a list of leaves).

    The hash function is a parameter: [two_to_one] and the leaf hash are class
    methods.  [subtree f l v] is the reference definition, the hash of the
    complete binary subtree of height [l] at position [v] over the leaf hashes
    [f]; [represents t f] says that the node store [t] holds exactly these. *)

From S2P Require Import Prelude.

(** [trait LeafableHasher]. *)
Class LeafableHasher := {
  HashOut : Type;
  HashOut_eq_dec :: EqDecision HashOut;
  default_hash : HashOut;
  two_to_one : HashOut -> HashOut -> HashOut;
}.

(** [trait Leafable]. *)
Class Leafable {Hs : LeafableHasher} (V : Type) := {
  empty_leaf : V;
  leaf_hash : V -> HashOut;
}.

(** Collision freedom of the two hash functions, the idealisation under which the security theorems
    are stated. *)
Class CollisionFree {Hs : LeafableHasher} (V : Type) {L : Leafable V} : Prop := {
  two_to_one_inj :: Inj2 (=) (=) (=) two_to_one;
  leaf_hash_inj :: Inj (=) (=) leaf_hash;
}.

(** ** [BitPath] *)

Module BitPath.

Record BitPath := mk { length : nat; value : Z }.

#[global] Instance BitPath_eq_dec : EqDecision BitPath.
Proof. solve_decision. Defined.

#[global] Instance BitPath_countable : Countable BitPath :=
  inj_countable' (fun p => (length p, value p)) (fun q => mk q.1 q.2) (fun p => ltac:(by destruct p)).

Definition default : BitPath := mk 0 0.

Definition pop (p : BitPath) : option (bool * BitPath) :=
  match length p with
  | O => None
  | S n => Some (Z.land (value p) 1 =? 1, mk n (Z.shiftr (value p) 1))
  end.

Definition sibling (p : BitPath) : BitPath := mk (length p) (Z.lxor (value p) 1).

End BitPath.

Notation BitPath := BitPath.BitPath.

Inductive MerkleProofError := VerificationFailed.

Inductive GetRootFromLeavesError :=
| TooManyLeaves (n : nat)
| NotPowerOfTwo (n : nat).

(** [index_in_domain]: [index < 2^height] without shifting by 64 or more. *)
Definition index_in_domain (index : Z) (height : nat) : bool :=
  (64 <=? Z.of_nat height) || (index <? Z.shiftl 1 (Z.of_nat height)).

Section merkle.
Context {Hs : LeafableHasher} {V : Type} {L : Leafable V}.

(** [struct MerkleTree]. *)
Record MerkleTree := mkMerkleTree {
  height : nat;
  node_hashes : gmap BitPath HashOut;
  zero_hashes : list HashOut;
}.

(** The loop of [MerkleTree::new]: [zero_hashes = [h, H(h, h), ...]]. *)
Fixpoint zero_hashes_loop (h : HashOut) (n : nat) : list HashOut :=
  match n with
  | O => [h]
  | S n' => h :: zero_hashes_loop (two_to_one h h) n'
  end.

Definition new (h : nat) : MerkleTree :=
  mkMerkleTree h ∅ (zero_hashes_loop (leaf_hash (empty_leaf (V := V))) h).

Definition get_node_hash {E} (t : MerkleTree) (path : BitPath) : res E HashOut :=
  match node_hashes t !! path with
  | Some h => Ok h
  | None =>
      if (height t <? BitPath.length path)%nat then Panic
      else unwrap (zero_hashes t !! (height t - BitPath.length path)%nat)
  end.

Definition get_root {E} (t : MerkleTree) : res E HashOut := get_node_hash t BitPath.default.

Definition insert_node (t : MerkleTree) (path : BitPath) (h : HashOut) : MerkleTree :=
  mkMerkleTree (height t) (<[path := h]> (node_hashes t)) (zero_hashes t).

(** One parent hash: [bit] says whether the node is the right child. *)
Definition parent_hash (bit : bool) (sibling h : HashOut) : HashOut :=
  if bit then two_to_one sibling h else two_to_one h sibling.

Fixpoint update_loop {E} (n : nat) (t : MerkleTree) (path : BitPath) (h : HashOut) : res E MerkleTree :=
  match n with
  | O => Ok t
  | S n' =>
      sibling ← get_node_hash t (BitPath.sibling path);
      '(bit, path') ← unwrap (BitPath.pop path);
      let h' := parent_hash bit sibling h in
      update_loop n' (insert_node t path' h') path' h'
  end.

Definition update_leaf {E} (t : MerkleTree) (index : Z) (h : HashOut) : res E MerkleTree :=
  _ ← assert_that (index_in_domain index (height t));
  let path := BitPath.mk (height t) index in
  update_loop (height t) (insert_node t path h) path h.

(** [struct MerkleProof]. *)
Record MerkleProof := mkMerkleProof { siblings : list HashOut }.

Fixpoint prove_loop {E} (n : nat) (t : MerkleTree) (path : BitPath) : res E (list HashOut) :=
  match n with
  | O => Ok []
  | S n' =>
      s ← get_node_hash t (BitPath.sibling path);
      '(_, path') ← unwrap (BitPath.pop path);
      rest ← prove_loop n' t path';
      Ok (s :: rest)
  end.

Definition prove {E} (t : MerkleTree) (index : Z) : res E MerkleProof :=
  _ ← assert_that (index_in_domain index (height t));
  ss ← prove_loop (height t) t (BitPath.mk (height t) index);
  Ok (mkMerkleProof ss).

Definition proof_dummy (h : nat) : MerkleProof := mkMerkleProof (replicate h default_hash).

Definition proof_height (p : MerkleProof) : nat := length (siblings p).

Fixpoint proof_root_loop {E} (ss : list HashOut) (path : BitPath) (state : HashOut) : res E HashOut :=
  match ss with
  | [] => Ok state
  | s :: ss' =>
      '(bit, path') ← unwrap (BitPath.pop path);
      proof_root_loop ss' path' (parent_hash bit s state)
  end.

(** [MerkleProof::get_root] (release build: the [debug_assert!] on the index is compiled out). *)
Definition proof_get_root {E} (p : MerkleProof) (leaf_data : V) (index : Z) : res E HashOut :=
  proof_root_loop (siblings p) (BitPath.mk (proof_height p) index) (leaf_hash leaf_data).

Definition proof_verify (p : MerkleProof) (leaf_data : V) (index : Z) (merkle_root : HashOut)
    : res MerkleProofError unit :=
  _ ← ensure (index_in_domain index (proof_height p)) VerificationFailed;
  proof_root ← proof_get_root p leaf_data index;
  ensure (bool_decide (proof_root = merkle_root)) VerificationFailed.

(** ** [get_root.rs] *)

(** One pass of the [while layer.len() > 1] loop. *)
Fixpoint layer_step (layer : list HashOut) : list HashOut :=
  match layer with
  | a :: b :: rest => two_to_one a b :: layer_step rest
  | _ => []
  end.

(** The loop; each pass halves the layer, so [length layer] passes are enough. *)
Fixpoint layer_loop (fuel : nat) (layer : list HashOut) : res GetRootFromLeavesError HashOut :=
  match fuel with
  | O => Panic
  | S fuel' =>
      if (1 <? length layer)%nat then
        if (length layer mod 2 =? 1)%nat then Err (NotPowerOfTwo (length layer))
        else layer_loop fuel' (layer_step layer)
      else unwrap (layer !! 0%nat)
  end.

Definition get_merkle_root_from_full_leaves (h : nat) (leaves : list V)
    : res GetRootFromLeavesError HashOut :=
  if negb (length leaves =? 2 ^ h)%nat then Err (TooManyLeaves (length leaves))
  else
    let layer := leaf_hash <$> leaves in
    if (length layer =? 0)%nat then Err (TooManyLeaves 0)
    else layer_loop (length layer) layer.

Definition get_merkle_root_from_leaves (h : nat) (leaves : list V)
    : res GetRootFromLeavesError HashOut :=
  if (2 ^ h <? length leaves)%nat then Err (TooManyLeaves (length leaves))
  else
    get_merkle_root_from_full_leaves h
      (leaves ++ replicate (2 ^ h - length leaves) empty_leaf).

(** ** Reference definitions *)

(** The hash of the height-[l] subtree at position [v] over the leaf hashes [f]. *)
Fixpoint subtree (f : Z -> HashOut) (l : nat) (v : Z) : HashOut :=
  match l with
  | O => f v
  | S l' => two_to_one (subtree f l' (2 * v)) (subtree f l' (2 * v + 1))
  end.

(** The root a list of siblings computes from the leaf hash [h] at [index]. *)
Fixpoint path_root (ss : list HashOut) (index : Z) (h : HashOut) : HashOut :=
  match ss with
  | [] => h
  | s :: ss' => path_root ss' (index / 2) (parent_hash (Z.odd index) s h)
  end.

(** The siblings on the path from position [v] of level [l], for [n] levels. *)
Fixpoint sibling_path (f : Z -> HashOut) (l n : nat) (v : Z) : list HashOut :=
  match n with
  | O => []
  | S n' => subtree f l (if Z.odd v then v - 1 else v + 1) :: sibling_path f (S l) n' (v / 2)
  end.

(** The empty tree's leaf hashes. *)
Definition empty_leaves : Z -> HashOut := fun _ => leaf_hash empty_leaf.

Definition represents (t : MerkleTree) (f : Z -> HashOut) : Prop :=
  forall E (len : nat) v,
    (len <= height t)%nat -> 0 <= v < 2 ^ Z.of_nat len ->
    get_node_hash (E := E) t (BitPath.mk len v) = Ok (subtree f (height t - len) v).

(** ** Bits of a path *)

Lemma pop_eq n v :
  BitPath.pop (BitPath.mk (S n) v) = Some (Z.odd v, BitPath.mk n (v / 2)).
Proof.
  unfold BitPath.pop; cbn. rewrite Z.shiftr_div_pow2 by lia.
  change 1 with (Z.ones 1) at 1. rewrite Z.land_ones by lia. rewrite Zmod_odd.
  by destruct (Z.odd v).
Qed.

Lemma lxor_1_even k : Z.lxor (2 * k) 1 = 2 * k + 1.
Proof.
  symmetry. apply Z.add_nocarry_lxor. change 1 with (Z.ones 1).
  rewrite Z.land_ones by lia. change (2 ^ 1) with 2. rewrite Z.mul_comm. apply Z.mod_mul. lia.
Qed.

Lemma lxor_1_eq v : Z.lxor v 1 = if Z.odd v then v - 1 else v + 1.
Proof.
  pose proof (Z.div_mod v 2) as Hd. rewrite Zmod_odd in Hd. destruct (Z.odd v).
  - replace v with (Z.lxor (2 * (v / 2)) 1) at 1 by (rewrite lxor_1_even; lia).
    rewrite Z.lxor_assoc. change (Z.lxor 1 1) with 0. rewrite Z.lxor_0_r. lia.
  - replace v with (2 * (v / 2)) at 1 by lia. rewrite lxor_1_even. lia.
Qed.

Lemma sibling_eq n v :
  BitPath.sibling (BitPath.mk n v) = BitPath.mk n (if Z.odd v then v - 1 else v + 1).
Proof. unfold BitPath.sibling; cbn. by rewrite lxor_1_eq. Qed.

Lemma odd_div v : v = 2 * (v / 2) + (if Z.odd v then 1 else 0).
Proof. pose proof (Z.div_mod v 2) as Hd. rewrite Zmod_odd in Hd. lia. Qed.

Lemma sibling_range (n : nat) v :
  0 <= v < 2 ^ Z.of_nat (S n) -> 0 <= (if Z.odd v then v - 1 else v + 1) < 2 ^ Z.of_nat (S n).
Proof.
  rewrite Nat2Z.inj_succ, Z.pow_succ_r by lia. intros Hv.
  pose proof (odd_div v). destruct (Z.odd v); lia.
Qed.

Lemma half_range (n : nat) v : 0 <= v < 2 ^ Z.of_nat (S n) -> 0 <= v / 2 < 2 ^ Z.of_nat n.
Proof. rewrite Nat2Z.inj_succ, Z.pow_succ_r by lia. intros. Z.div_mod_to_equations. lia. Qed.

Lemma index_in_domain_spec i h :
  in_width 64 i -> index_in_domain i h = true <-> 0 <= i < 2 ^ Z.of_nat h.
Proof.
  unfold in_width, index_in_domain. intros Hi. rewrite Z.shiftl_1_l, orb_true_iff, Z.leb_le, Z.ltb_lt.
  split; [|lia]. intros [H|H]; [|lia].
  assert (2 ^ 64 <= 2 ^ Z.of_nat h) by (apply Z.pow_le_mono_r; lia). lia.
Qed.

(** ** Subtrees *)

Lemma subtree_ext f g l v :
  (forall i, v * 2 ^ Z.of_nat l <= i < (v + 1) * 2 ^ Z.of_nat l -> f i = g i) ->
  subtree f l v = subtree g l v.
Proof.
  revert v. induction l as [|l IH]; intros v H; cbn [subtree].
  - apply H. cbn. lia.
  - rewrite Nat2Z.inj_succ, Z.pow_succ_r in H by lia.
    rewrite !(IH _) by (intros; apply H; nia). done.
Qed.

Lemma subtree_ext_nonneg f g l v :
  (forall i, 0 <= i -> f i = g i) -> 0 <= v -> subtree f l v = subtree g l v.
Proof.
  intros H Hv. apply subtree_ext. intros i Hi. apply H.
  assert (0 < 2 ^ Z.of_nat l) by (apply Z.pow_pos_nonneg; lia). nia.
Qed.

Lemma sibling_path_ext_nonneg f g l n v :
  (forall i, 0 <= i -> f i = g i) -> 0 <= v -> sibling_path f l n v = sibling_path g l n v.
Proof.
  intros H. revert l v. induction n as [|n IH]; intros l v Hv; cbn [sibling_path]; [done|]. f_equal.
  - apply subtree_ext_nonneg; [done|]. pose proof (odd_div v). destruct (Z.odd v); lia.
  - apply IH. apply Z.div_pos; lia.
Qed.

Lemma subtree_insert_other (f : Z -> HashOut) i h l v :
  i / 2 ^ Z.of_nat l <> v -> subtree (<[i := h]> f) l v = subtree f l v.
Proof.
  intros Hne. apply subtree_ext. intros j Hj. apply fn_lookup_insert_ne. intros ->.
  apply Hne. assert (0 < 2 ^ Z.of_nat l) by (apply Z.pow_pos_nonneg; lia).
  symmetry. apply (Z.div_unique_pos _ _ _ (j - v * 2 ^ Z.of_nat l)); lia.
Qed.

(** A node is the parent hash of its child on the path and the child's sibling. *)
Lemma subtree_parent f l v :
  parent_hash (Z.odd v) (subtree f l (if Z.odd v then v - 1 else v + 1)) (subtree f l v) =
  subtree f (S l) (v / 2).
Proof.
  unfold parent_hash. cbn [subtree]. pose proof (odd_div v) as Hv.
  destruct (Z.odd v); do 2 f_equal; lia.
Qed.

Lemma sibling_path_insert (f : Z -> HashOut) i h l n v :
  v = i / 2 ^ Z.of_nat l -> sibling_path (<[i := h]> f) l n v = sibling_path f l n v.
Proof.
  revert l v. induction n as [|n IH]; intros l v Hv; cbn [sibling_path]; [done|].
  f_equal.
  - apply subtree_insert_other. rewrite <- Hv. destruct (Z.odd v); lia.
  - apply IH. rewrite Hv, Z.div_div by lia. f_equal.
    rewrite Nat2Z.inj_succ, Z.pow_succ_r by lia. lia.
Qed.

Lemma sibling_path_length f l n v : length (sibling_path f l n v) = n.
Proof. revert l v. induction n; intros; cbn; [done|]. by rewrite IHn. Qed.

Lemma path_root_sibling_path f l n v :
  0 <= v -> path_root (sibling_path f l n v) v (subtree f l v) = subtree f (l + n) (v / 2 ^ Z.of_nat n).
Proof.
  revert l v. induction n as [|n IH]; intros l v Hv; cbn [sibling_path path_root].
  - by rewrite Nat.add_0_r, Z.div_1_r.
  - rewrite subtree_parent, IH by (apply Z.div_pos; lia).
    rewrite Z.div_div by lia. f_equal; [lia|]. f_equal.
    rewrite Nat2Z.inj_succ, Z.pow_succ_r by lia. lia.
Qed.

Lemma div_pow_small i (h : nat) : 0 <= i < 2 ^ Z.of_nat h -> i / 2 ^ Z.of_nat h = 0.
Proof. apply Z.div_small. Qed.

(** The siblings of [i] recompute the root after the leaf at [i] is replaced. *)
Lemma path_root_update f (h : nat) i x :
  0 <= i < 2 ^ Z.of_nat h ->
  path_root (sibling_path f 0 h i) i x = subtree (<[i := x]> f) h 0.
Proof.
  intros Hi. rewrite <- (sibling_path_insert f i x 0 h i) by (by rewrite Z.div_1_r).
  replace x with (subtree (<[i := x]> f) 0 i) at 2 by (cbn; apply fn_lookup_insert).
  rewrite path_root_sibling_path by lia. by rewrite div_pow_small.
Qed.

(** ** The loops against the reference definitions *)

Lemma proof_root_loop_eq {E} ss n i h :
  length ss = n -> proof_root_loop (E := E) ss (BitPath.mk n i) h = Ok (path_root ss i h).
Proof.
  revert n i h. induction ss as [|s ss IH]; intros n i h; cbn; [done|]. intros <-.
  rewrite pop_eq. cbn. by apply IH.
Qed.

Lemma proof_get_root_eq {E} p leaf i :
  proof_get_root (E := E) p leaf i = Ok (path_root (siblings p) i (leaf_hash leaf)).
Proof. by apply proof_root_loop_eq. Qed.

Lemma proof_verify_Ok p leaf i root u :
  proof_verify p leaf i root = Ok u <->
  index_in_domain i (proof_height p) = true /\ path_root (siblings p) i (leaf_hash leaf) = root.
Proof.
  unfold proof_verify. rewrite proof_get_root_eq. split.
  - intros H. simplify_res. by simplify_bool.
  - intros [-> <-]. destruct u. cbn. by rewrite bool_decide_eq_true_2.
Qed.

Lemma node_at_insert {E} t path h q :
  get_node_hash (E := E) (insert_node t path h) q =
  if decide (q = path) then Ok h else get_node_hash t q.
Proof.
  unfold get_node_hash, insert_node; cbn. destruct (decide (q = path)) as [->|Hne].
  - by rewrite lookup_insert_eq.
  - by rewrite lookup_insert_ne by done.
Qed.

(** The invariant of the update loop: with [n] levels to go at position [v], every node at level
    [n] or below, and every node off the path, already has its final hash. *)
Lemma update_loop_spec {E} H f n : forall t v h,
  height t = H -> (n <= H)%nat -> 0 <= v < 2 ^ Z.of_nat n ->
  h = subtree f (H - n) v ->
  (forall E len w, (len <= H)%nat -> 0 <= w < 2 ^ Z.of_nat len ->
    (n <= len)%nat \/ w <> v / 2 ^ Z.of_nat (n - len) ->
    get_node_hash (E := E) t (BitPath.mk len w) = Ok (subtree f (H - len) w)) ->
  exists t', update_loop (E := E) n t (BitPath.mk n v) h = Ok t' /\ height t' = H /\
    zero_hashes t' = zero_hashes t /\ represents t' f.
Proof.
  induction n as [|n IH]; intros t v h Ht Hn Hv Hh Hnodes; cbn [update_loop].
  - exists t. repeat split; try done. intros E' len w Hlen Hw. rewrite Ht. apply Hnodes; [lia|done|lia].
  - rewrite sibling_eq. pose proof (sibling_range n v Hv) as Hsr.
    rewrite Hnodes by (try done; lia). cbn [mbind res_bind].
    rewrite pop_eq. cbn [unwrap mbind res_bind].
    rewrite Hh, subtree_parent. replace (S (H - S n)) with (H - n)%nat by lia.
    destruct (IH (insert_node t (BitPath.mk n (v / 2)) (subtree f (H - n) (v / 2))) (v / 2)
                (subtree f (H - n) (v / 2))) as (t' & Hu & Ht' & Hz & Hr);
      [done|lia|by apply half_range|done| |by exists t'].
    intros E' len w Hlen Hw Hcase. rewrite node_at_insert. destruct (decide _) as [[= -> ->]|Hne]; [done|].
    apply Hnodes; [lia|done|].
    destruct (decide (S n <= len)%nat) as [|Hlt]; [by left|right].
    destruct Hcase as [Hcase|Hcase].
    + assert (len = n) as -> by lia. replace (S n - n)%nat with 1%nat by lia. change (2 ^ Z.of_nat 1) with 2. congruence.
    + replace (Z.of_nat (S n - len)) with (1 + Z.of_nat (n - len)) by lia.
      rewrite Z.pow_add_r, <- Z.div_div by lia. done.
Qed.

Lemma update_leaf_spec {E} t f i h :
  represents t f -> 0 <= i < 2 ^ Z.of_nat (height t) ->
  in_width 64 i ->
  exists t', update_leaf (E := E) t i h = Ok t' /\ height t' = height t /\
    zero_hashes t' = zero_hashes t /\ represents t' (<[i := h]> f).
Proof.
  intros Hrep Hi Hw. unfold update_leaf.
  rewrite (proj2 (index_in_domain_spec i (height t) Hw)) by done. cbn [assert_that mbind res_bind].
  destruct (update_loop_spec (E := E) (height t) (<[i := h]> f) (height t)
              (insert_node t (BitPath.mk (height t) i) h) i h) as (t' & Hu & Ht' & Hz & Hr);
    [done|lia|done| | |by exists t'].
  - rewrite Nat.sub_diag. cbn. by rewrite fn_lookup_insert.
  - intros E' len w Hlen Hwr Hcase. rewrite node_at_insert. destruct (decide _) as [[= -> ->]|Hne].
    + rewrite Nat.sub_diag. cbn. by rewrite fn_lookup_insert.
    + rewrite Hrep by done. f_equal. symmetry. apply subtree_insert_other. intros Heq.
      destruct Hcase as [Hcase|Hcase]; [|congruence].
      assert (len = height t) as -> by lia. rewrite Nat.sub_diag, Z.div_1_r in Heq. congruence.
Qed.

Lemma prove_loop_spec {E} t f n v :
  represents t f -> (n <= height t)%nat -> 0 <= v < 2 ^ Z.of_nat n ->
  prove_loop (E := E) n t (BitPath.mk n v) = Ok (sibling_path f (height t - n) n v).
Proof.
  intros Hrep. revert v. induction n as [|n IH]; intros v Hn Hv; [done|].
  cbn [prove_loop sibling_path]. rewrite sibling_eq, Hrep by (try done; by apply sibling_range).
  cbn [mbind res_bind]. rewrite pop_eq. cbn [unwrap mbind res_bind].
  rewrite IH by (try lia; by apply half_range). cbn.
  by replace (S (height t - S n)) with (height t - n)%nat by lia.
Qed.

Lemma prove_spec {E} t f i :
  represents t f -> 0 <= i < 2 ^ Z.of_nat (height t) -> in_width 64 i ->
  prove (E := E) t i = Ok (mkMerkleProof (sibling_path f 0 (height t) i)).
Proof.
  intros Hrep Hi Hw. unfold prove.
  rewrite (proj2 (index_in_domain_spec i (height t) Hw)) by done. cbn [assert_that mbind res_bind].
  rewrite (prove_loop_spec t f) by done. cbn. by rewrite Nat.sub_diag.
Qed.

Lemma get_root_spec {E} t f : represents t f -> get_root (E := E) t = Ok (subtree f (height t) 0).
Proof.
  intros Hrep. unfold get_root, BitPath.default. rewrite Hrep by (cbn; lia).
  by rewrite Nat.sub_0_r.
Qed.

Lemma zero_hashes_lookup h n k :
  (k <= n)%nat -> forall v, zero_hashes_loop h n !! k = Some (subtree (fun _ => h) k v).
Proof.
  revert h k. induction n as [|n IH]; intros h k Hk v.
  - assert (k = 0)%nat as -> by lia. done.
  - destruct k as [|k]; [done|]. cbn [zero_hashes_loop lookup list_lookup].
    rewrite (IH _ k ltac:(lia) v). f_equal. clear IH Hk. revert v.
    induction k as [|k IH]; intros v; [done|]. cbn [subtree].
    rewrite (IH (2 * v)), (IH (2 * v + 1)). done.
Qed.

Lemma new_represents h : represents (new h) empty_leaves.
Proof.
  intros E len v Hlen Hv. unfold get_node_hash, new; cbn [node_hashes height zero_hashes].
  rewrite lookup_empty. cbn [BitPath.length] in *.
  destruct (Nat.ltb_spec h len); [cbn in Hlen; lia|].
  by rewrite (zero_hashes_lookup _ h (h - len) ltac:(lia) v).
Qed.

(** ** Binding *)

(** The two preimages that collide when two different leaf hashes give the same root. *)
Fixpoint find_collision (ss ss' : list HashOut) (index : Z) (h h' : HashOut)
    : option ((HashOut * HashOut) * (HashOut * HashOut)) :=
  match ss, ss' with
  | s :: r, s' :: r' =>
      let input s h := if Z.odd index then (s, h) else (h, s) in
      let n := parent_hash (Z.odd index) s h in
      let n' := parent_hash (Z.odd index) s' h' in
      if decide (n = n') then Some (input s h, input s' h')
      else find_collision r r' (index / 2) n n'
  | _, _ => None
  end.

Lemma find_collision_sound ss ss' index h h' :
  length ss = length ss' -> h <> h' ->
  path_root ss index h = path_root ss' index h' ->
  exists a b a' b', find_collision ss ss' index h h' = Some ((a, b), (a', b')) /\
    (a, b) <> (a', b') /\ two_to_one a b = two_to_one a' b'.
Proof.
  revert ss' index h h'. induction ss as [|s r IH]; intros [|s' r'] index h h'; try done.
  intros [= Hlen] Hne Heq. cbn [path_root find_collision] in *.
  destruct (decide _) as [Hn|Hn]; [|by apply IH].
  unfold parent_hash in Hn. destruct (Z.odd index).
  - exists s, h, s', h'. split; [done|]. split; [congruence|done].
  - exists h, s, h', s'. split; [done|]. split; [congruence|done].
Qed.

Lemma path_root_binding {I2 : Inj2 (=) (=) (=) two_to_one} ss ss' index h h' :
  length ss = length ss' -> path_root ss index h = path_root ss' index h' -> h = h' /\ ss = ss'.
Proof.
  revert ss' index h h'. induction ss as [|s r IH]; intros [|s' r'] index h h'; try done.
  intros [= Hlen] Heq. cbn [path_root] in Heq. apply IH in Heq as [Hp ->]; [|done].
  unfold parent_hash in Hp. destruct (Z.odd index); apply (inj2 two_to_one) in Hp as [-> ->]; done.
Qed.

(** A proof that verifies against the root of [f] shows the leaf hash [f] has there, and
    recomputes the root of every one-leaf update. *)
Lemma proof_verify_sound {I2 : Inj2 (=) (=) (=) two_to_one} (f : Z -> HashOut) p leaf i u :
  in_width 64 i ->
  proof_verify p leaf i (subtree f (proof_height p) 0) = Ok u ->
  f i = leaf_hash leaf /\ siblings p = sibling_path f 0 (proof_height p) i /\
  0 <= i < 2 ^ Z.of_nat (proof_height p) /\
  forall leaf', path_root (siblings p) i (leaf_hash leaf') =
                subtree (<[i := leaf_hash leaf']> f) (proof_height p) 0.
Proof.
  intros Hw Hv. apply proof_verify_Ok in Hv as [Hdom Hroot].
  apply index_in_domain_spec in Hdom; [|done].
  assert (path_root (sibling_path f 0 (proof_height p) i) i (f i) = subtree f (proof_height p) 0) as Hf.
  { pose proof (path_root_sibling_path f 0 (proof_height p) i) as Hp. cbn [subtree Nat.add] in Hp.
    rewrite Hp by lia. by rewrite div_pow_small. }
  rewrite <- Hf in Hroot. apply path_root_binding in Hroot as [Hh Hss];
    [|by rewrite sibling_path_length].
  repeat split; try lia; [done|done|].
  intros leaf'. rewrite Hss. by apply path_root_update.
Qed.

(** Completeness: the tree's own proof verifies. *)
Lemma prove_verify_complete {E} t f i leaf p root :
  represents t f -> in_width 64 i ->
  prove (E := E) t i = Ok p -> get_root (E := E) t = Ok root -> f i = leaf_hash leaf ->
  proof_verify p leaf i root = Ok tt.
Proof.
  intros Hrep Hw Hp Hroot Hf. pose proof Hp as Hp'. unfold prove in Hp'. simplify_res.
  apply index_in_domain_spec in Hr; [|done].
  rewrite (prove_spec t f) in Hp by done. apply Ok_inj in Hp. rewrite <- Hp.
  rewrite (get_root_spec t f) in Hroot by done. simplify_res.
  apply proof_verify_Ok. unfold proof_height. cbn [siblings]. rewrite sibling_path_length.
  split; [by apply index_in_domain_spec|].
  rewrite <- Hf. pose proof (path_root_sibling_path f 0 (height t) i) as Hpr.
  cbn [subtree Nat.add] in Hpr. rewrite Hpr by lia. by rewrite div_pow_small.
Qed.

(** ** The root of a list of leaves *)

(** The leaf hashes of a list padded with empty leaves. *)
Definition list_leaves (leaves : list V) : Z -> HashOut :=
  fun i => leaf_hash (default empty_leaf (leaves !! Z.to_nat i)).

Lemma layer_step_length layer n : length layer = (2 * n)%nat -> length (layer_step layer) = n.
Proof.
  revert layer. induction n as [|n IH]; intros layer Hl.
  - by destruct layer.
  - destruct layer as [|a [|b rest]]; cbn in Hl; [lia|lia|]. cbn. f_equal. apply IH. lia.
Qed.

Lemma layer_step_lookup layer n k :
  length layer = (2 * n)%nat -> (k < n)%nat ->
  exists a b, layer !! (2 * k)%nat = Some a /\ layer !! (2 * k + 1)%nat = Some b /\
    layer_step layer !! k = Some (two_to_one a b).
Proof.
  revert layer n. induction k as [|k IH]; intros layer n Hl Hk.
  - destruct layer as [|a [|b rest]]; cbn in Hl; [lia|lia|]. by exists a, b.
  - destruct layer as [|a [|b rest]]; cbn in Hl; [lia|lia|].
    destruct (IH rest (n - 1)%nat) as (x & y & Hx & Hy & Hxy); [lia|lia|].
    exists x, y. replace (2 * S k)%nat with (S (S (2 * k))) by lia.
    replace (2 * S k + 1)%nat with (S (S (2 * k + 1))) by lia. done.
Qed.

(** [layer] is level [l] of the tree over [f]. *)
Definition is_layer (f : Z -> HashOut) (l m : nat) (layer : list HashOut) : Prop :=
  length layer = (2 ^ m)%nat /\
  forall k, (k < 2 ^ m)%nat -> layer !! k = Some (subtree f l (Z.of_nat k)).

Lemma layer_loop_spec f fuel l m layer :
  is_layer f l m layer -> (m < fuel)%nat -> layer_loop fuel layer = Ok (subtree f (l + m) 0).
Proof.
  revert fuel l layer. induction m as [|m IH]; intros fuel l layer [Hlen Hk] Hf;
    destruct fuel as [|fuel]; try lia; cbn [layer_loop].
  - rewrite Hlen. cbn. rewrite Hk by (cbn; lia). cbn. by rewrite Nat.add_0_r.
  - assert (0 < 2 ^ m)%nat as Hpos by (apply Nat.neq_0_lt_0, Nat.pow_nonzero; lia).
    rewrite Nat.pow_succ_r' in Hlen, Hk. rewrite Hlen.
    destruct (Nat.ltb_spec 1 (2 * 2 ^ m)); [|lia].
    replace ((2 * 2 ^ m) mod 2)%nat with 0%nat by (rewrite Nat.mul_comm, Nat.Div0.mod_mul; done).
    cbn [Nat.eqb]. rewrite (IH fuel (S l)); [by f_equal; f_equal; lia| |lia].
    split; [by apply layer_step_length|]. intros k Hkm.
    destruct (layer_step_lookup layer (2 ^ m) k Hlen Hkm) as (a & b & Ha & Hb & ->).
    rewrite Hk in Ha by lia. rewrite Hk in Hb by lia. simplify_eq. cbn [subtree].
    by replace (Z.of_nat (2 * k)) with (2 * Z.of_nat k) by lia;
      replace (Z.of_nat (2 * k + 1)) with (2 * Z.of_nat k + 1) by lia.
Qed.

Lemma get_merkle_root_from_leaves_eq h (leaves : list V) :
  (length leaves <= 2 ^ h)%nat ->
  get_merkle_root_from_leaves h leaves = Ok (subtree (list_leaves leaves) h 0).
Proof.
  intros Hlen. unfold get_merkle_root_from_leaves, get_merkle_root_from_full_leaves.
  destruct (Nat.ltb_spec (2 ^ h) (length leaves)); [lia|].
  rewrite length_app, length_replicate. replace (_ + (_ - _))%nat with (2 ^ h)%nat by lia.
  rewrite Nat.eqb_refl. cbn [negb]. rewrite length_fmap, length_app, length_replicate.
  replace (_ + (_ - _))%nat with (2 ^ h)%nat by lia.
  assert (0 < 2 ^ h)%nat as Hpos by (apply Nat.neq_0_lt_0, Nat.pow_nonzero; lia).
  destruct (Nat.eqb_spec (2 ^ h) 0); [lia|].
  apply (layer_loop_spec _ _ 0 h); [|apply Nat.pow_gt_lin_r; lia].
  split; [rewrite length_fmap, length_app, length_replicate; lia|].
  intros k Hk. rewrite list_lookup_fmap. cbn [subtree]. unfold list_leaves. rewrite Nat2Z.id.
  destruct (decide (k < length leaves)%nat) as [Hlt|Hge].
  - rewrite lookup_app_l by done. destruct (lookup_lt_is_Some_2 leaves k Hlt) as [x ->]. done.
  - rewrite lookup_app_r, lookup_replicate_2 by lia.
    by rewrite (proj2 (lookup_ge_None leaves k)) by lia.
Qed.

End merkle.

Arguments MerkleTree {Hs}.
Arguments MerkleProof {Hs}.
