(* ===== verification/LeafTrees.v ===== *)
(** * Incremental and sparse Merkle trees

    Models [src/src/utils/trees/incremental_merkle_tree.rs] (leaves in a
    vector, appended at the next free index) and [sparse_merkle_tree.rs]
    (leaves in a map), with their packed serialisation.  Both wrap a
    [MerkleTree]; their invariants say that the node store is the tree over
    exactly the leaves they hold. *)

From S2P Require Import Prelude MerkleTree.

(** [1u64 << h]: the shift amount is taken modulo 64. *)
Definition shl64 (h : nat) : Z := wrap 64 (Z.shiftl 1 (Z.of_nat h mod 64)).

Lemma shl64_eq h : (h < 64)%nat -> shl64 h = 2 ^ Z.of_nat h.
Proof.
  intros Hh. unfold shl64. rewrite Z.mod_small by lia. rewrite Z.shiftl_1_l. apply wrap_id.
  split; [lia|]. apply Z.pow_lt_mono_r; lia.
Qed.

Lemma represents_ext {Hs : LeafableHasher} t f g :
  (forall i, 0 <= i < 2 ^ Z.of_nat (height t) -> f i = g i) ->
  represents t f -> represents t g.
Proof.
  intros Hfg Hrep E len v Hlen Hv. rewrite Hrep by done. f_equal. apply subtree_ext.
  intros i Hi. apply Hfg.
  assert (2 ^ Z.of_nat (height t) = 2 ^ Z.of_nat len * 2 ^ Z.of_nat (height t - len)) as ->.
  { rewrite <- Z.pow_add_r by lia. f_equal. lia. }
  assert (0 < 2 ^ Z.of_nat (height t - len)) by (apply Z.pow_pos_nonneg; lia). nia.
Qed.

(** ** [IncrementalMerkleTree] *)

Module Incremental.
Section incremental.
Context {Hs : LeafableHasher} {V : Type} {L : Leafable V}.

Record IncrementalMerkleTree := mkIncremental {
  merkle_tree : MerkleTree;
  leaves : list V;
}.

Definition new (h : nat) : IncrementalMerkleTree := mkIncremental (MerkleTree.new (V := V) h) [].

Definition height (t : IncrementalMerkleTree) : nat := MerkleTree.height (merkle_tree t).

Definition get_leaf (t : IncrementalMerkleTree) (index : Z) : V :=
  match leaves t !! Z.to_nat index with
  | Some leaf => leaf
  | None => empty_leaf
  end.

Definition get_root {E} (t : IncrementalMerkleTree) : res E HashOut :=
  MerkleTree.get_root (merkle_tree t).

Definition len (t : IncrementalMerkleTree) : nat := length (leaves t).

Definition update {E} (t : IncrementalMerkleTree) (index : Z) (leaf : V) : res E IncrementalMerkleTree :=
  mt ← update_leaf (merkle_tree t) index (leaf_hash leaf);
  _ ← assert_that (Z.to_nat index <? length (leaves t))%nat;
  Ok (mkIncremental mt (<[Z.to_nat index := leaf]> (leaves t))).

Definition push {E} (t : IncrementalMerkleTree) (leaf : V) : res E IncrementalMerkleTree :=
  let index := Z.of_nat (length (leaves t)) in
  _ ← assert_that (index <? shl64 (height t));
  mt ← update_leaf (merkle_tree t) index (leaf_hash leaf);
  Ok (mkIncremental mt (leaves t ++ [leaf])).

Definition prove {E} (t : IncrementalMerkleTree) (index : Z) : res E MerkleProof :=
  MerkleTree.prove (merkle_tree t) index.

(** [IncrementalMerkleTreePacked], the serialised form. *)
Record Packed := mkPacked { packed_height : nat; packed_leaves : list V }.

Definition pack (t : IncrementalMerkleTree) : Packed := mkPacked (height t) (leaves t).

Definition unpack {E} (p : Packed) : res E IncrementalMerkleTree :=
  res_foldl push (new (packed_height p)) (packed_leaves p).

Inductive DeserializeError := HeightNotAddressable | TooManyLeavesForHeight.

(** [Deserialize]: the two guards, then [unpack]. *)
Definition deserialize (p : Packed) : res DeserializeError IncrementalMerkleTree :=
  if (64 <=? packed_height p)%nat then Err HeightNotAddressable
  else if Z.shiftl 1 (Z.of_nat (packed_height p)) <? Z.of_nat (length (packed_leaves p))
  then Err TooManyLeavesForHeight
  else unpack p.

(** The node store is the tree over the leaves. *)
Definition inv (t : IncrementalMerkleTree) : Prop :=
  represents (merkle_tree t) (list_leaves (leaves t)) /\
  (height t < 64)%nat /\ Z.of_nat (length (leaves t)) <= 2 ^ Z.of_nat (height t).

Lemma new_inv h : (h < 64)%nat -> inv (new h).
Proof.
  intros Hh. split; [|split; [done|cbn; lia]]. eapply represents_ext; [|apply new_represents]. done.
Qed.

Lemma list_leaves_update ls i leaf j :
  (Z.to_nat i < length ls)%nat -> 0 <= i -> 0 <= j ->
  (<[i := leaf_hash leaf]> (list_leaves ls)) j = list_leaves (<[Z.to_nat i := leaf]> ls) j.
Proof.
  intros Hlt Hi Hj. unfold list_leaves. destruct (decide (i = j)) as [->|Hne].
  - by rewrite fn_lookup_insert, list_lookup_insert_eq.
  - rewrite fn_lookup_insert_ne by done. by rewrite list_lookup_insert_ne by lia.
Qed.

Lemma list_leaves_push ls leaf j :
  0 <= j ->
  (<[Z.of_nat (length ls) := leaf_hash leaf]> (list_leaves ls)) j = list_leaves (ls ++ [leaf]) j.
Proof.
  intros Hj. unfold list_leaves. destruct (decide (Z.of_nat (length ls) = j)) as [<-|Hne].
  - rewrite fn_lookup_insert, Nat2Z.id. by rewrite list_lookup_middle.
  - rewrite fn_lookup_insert_ne by done.
    destruct (decide (Z.to_nat j < length ls)%nat) as [Hlt|Hge].
    + by rewrite lookup_app_l.
    + rewrite !(proj2 (lookup_ge_None _ _)); rewrite ?length_app; cbn; try done; lia.
Qed.

Lemma in_width_64_small (h : nat) i : (h < 64)%nat -> 0 <= i < 2 ^ Z.of_nat h -> in_width 64 i.
Proof.
  intros Hh Hi. split; [lia|]. assert (2 ^ Z.of_nat h <= 2 ^ 64) by (apply Z.pow_le_mono_r; lia). lia.
Qed.

(** [update] on an occupied index succeeds, writes that leaf only and keeps the invariant. *)
Lemma update_spec {E} t i leaf :
  inv t -> 0 <= i < Z.of_nat (length (leaves t)) ->
  exists t', update (E := E) t i leaf = Ok t' /\ inv t' /\ height t' = height t /\
    leaves t' = <[Z.to_nat i := leaf]> (leaves t).
Proof.
  intros (Hrep & Hh & Hlen) Hi. unfold update.
  destruct (update_leaf_spec (E := E) (merkle_tree t) _ i (leaf_hash leaf) Hrep)
    as (mt & -> & Hmt & _ & Hrep'); [unfold height in *; lia|apply (in_width_64_small (height t)); lia|].
  cbn [mbind res_bind]. rewrite (proj2 (Nat.ltb_lt _ _)) by lia. cbn.
  eexists. split; [done|]. split_and!; try done.
  split; [|unfold height in *; cbn; by rewrite Hmt, length_insert].
  cbn. eapply represents_ext; [|exact Hrep'].
  intros j Hj. apply list_leaves_update; lia.
Qed.

(** [push] below capacity appends the leaf and keeps the invariant. *)
Lemma push_spec {E} t leaf :
  inv t -> Z.of_nat (length (leaves t)) < 2 ^ Z.of_nat (height t) ->
  exists t', push (E := E) t leaf = Ok t' /\ inv t' /\ height t' = height t /\
    leaves t' = leaves t ++ [leaf].
Proof.
  intros (Hrep & Hh & Hlen) Hlt. unfold push.
  rewrite (proj2 (Z.ltb_lt _ _)) by (by rewrite shl64_eq). cbn [assert_that mbind res_bind].
  destruct (update_leaf_spec (E := E) (merkle_tree t) _ (Z.of_nat (length (leaves t))) (leaf_hash leaf) Hrep)
    as (mt & -> & Hmt & _ & Hrep'); [unfold height in *; lia|apply (in_width_64_small (height t)); lia|].
  cbn. eexists. split; [done|]. split_and!; try done.
  split; [|split; unfold height in *; cbn; rewrite Hmt; [done|rewrite length_app; cbn; lia]].
  cbn. eapply represents_ext; [|exact Hrep']. intros j Hj. apply list_leaves_push; lia.
Qed.

(** [push] at capacity panics. *)
Lemma push_full {E} t leaf :
  inv t -> Z.of_nat (length (leaves t)) = 2 ^ Z.of_nat (height t) -> push (E := E) t leaf = Panic.
Proof.
  intros (_ & Hh & _) Heq. unfold push. rewrite shl64_eq by done.
  by rewrite (proj2 (Z.ltb_ge _ _)) by lia.
Qed.

Lemma get_root_inv {E} t :
  inv t -> get_root (E := E) t = Ok (subtree (list_leaves (leaves t)) (height t) 0).
Proof. intros (Hrep & _). by apply get_root_spec. Qed.

Lemma get_leaf_hash t i : list_leaves (leaves t) i = leaf_hash (get_leaf t i).
Proof. unfold list_leaves, get_leaf. by destruct (leaves t !! Z.to_nat i). Qed.

Lemma prove_inv {E} t i :
  inv t -> 0 <= i < 2 ^ Z.of_nat (height t) ->
  prove (E := E) t i = Ok (mkMerkleProof (sibling_path (list_leaves (leaves t)) 0 (height t) i)).
Proof.
  intros (Hrep & Hh & _) Hi. unfold prove. apply prove_spec; try done.
  by apply (in_width_64_small (height t)).
Qed.

Lemma unpack_loop {E} ls t :
  inv t -> Z.of_nat (length (leaves t) + length ls) <= 2 ^ Z.of_nat (height t) ->
  exists t', res_foldl push t ls = Ok (E := E) t' /\ inv t' /\ height t' = height t /\
    leaves t' = leaves t ++ ls.
Proof.
  revert t. induction ls as [|leaf ls IH]; intros t Hinv Hcap.
  - exists t. by rewrite app_nil_r.
  - cbn [res_foldl length] in *.
    destruct (push_spec (E := E) t leaf Hinv) as (t1 & -> & Hinv1 & Hh1 & Hl1); [lia|].
    cbn [mbind res_bind]. destruct (IH t1 Hinv1) as (t' & Ht' & Hinv' & Hh' & Hl').
    { rewrite Hh1, Hl1, length_app. cbn. lia. }
    exists t'. split_and!; try done; [congruence|]. rewrite Hl', Hl1. by rewrite <- app_assoc.
Qed.

(** [deserialize] decides: an addressable height that holds the leaves, or an error; never a panic. *)
Lemma deserialize_spec p :
  match deserialize p with
  | Ok t => inv t /\ height t = packed_height p /\ leaves t = packed_leaves p
  | Err HeightNotAddressable => (64 <= packed_height p)%nat
  | Err TooManyLeavesForHeight =>
      2 ^ Z.of_nat (packed_height p) < Z.of_nat (length (packed_leaves p))
  | Panic => False
  end.
Proof.
  unfold deserialize. destruct (Nat.leb_spec 64 (packed_height p)); [done|].
  rewrite Z.shiftl_1_l. destruct (Z.ltb_spec (2 ^ Z.of_nat (packed_height p))
    (Z.of_nat (length (packed_leaves p)))); [done|].
  destruct (unpack_loop (E := DeserializeError) (packed_leaves p) (new (packed_height p)))
    as (t & Ht & Hinv & Hh & Hl); [by apply new_inv|done|].
  unfold unpack. rewrite Ht. done.
Qed.

End incremental.
Arguments IncrementalMerkleTree {Hs} V.
Arguments Packed V : clear implicits.
End Incremental.

(** ** [SparseMerkleTree] *)

Module Sparse.
Section sparse.
Context {Hs : LeafableHasher} {V : Type} {L : Leafable V}.

Record SparseMerkleTree := mkSparse {
  merkle_tree : MerkleTree;
  leaves : gmap Z V;
}.

Definition new (h : nat) : SparseMerkleTree := mkSparse (MerkleTree.new (V := V) h) ∅.

Definition height (t : SparseMerkleTree) : nat := MerkleTree.height (merkle_tree t).

Definition get_leaf (t : SparseMerkleTree) (index : Z) : V :=
  match leaves t !! index with
  | Some leaf => leaf
  | None => empty_leaf
  end.

Definition get_root {E} (t : SparseMerkleTree) : res E HashOut :=
  MerkleTree.get_root (merkle_tree t).

Definition update {E} (t : SparseMerkleTree) (index : Z) (leaf : V) : res E SparseMerkleTree :=
  mt ← update_leaf (merkle_tree t) index (leaf_hash leaf);
  Ok (mkSparse mt (<[index := leaf]> (leaves t))).

Definition prove {E} (t : SparseMerkleTree) (index : Z) : res E MerkleProof :=
  MerkleTree.prove (merkle_tree t) index.

Record Packed := mkPacked { packed_height : nat; packed_leaves : list (Z * V) }.

(** [HashMap] iteration has no fixed order; any enumeration of the entries is a packing. *)
Definition pack (t : SparseMerkleTree) : Packed := mkPacked (height t) (map_to_list (leaves t)).

Definition unpack {E} (p : Packed) : res E SparseMerkleTree :=
  res_foldl (fun t e => update t e.1 e.2) (new (packed_height p)) (packed_leaves p).

(** The leaf hashes of a map padded with empty leaves. *)
Definition map_leaves (m : gmap Z V) : Z -> HashOut :=
  fun i => leaf_hash (default empty_leaf (m !! i)).

Definition in_domain (h : nat) (i : Z) : Prop := 0 <= i < 2 ^ Z.of_nat h /\ in_width 64 i.

Definition inv (t : SparseMerkleTree) : Prop :=
  represents (merkle_tree t) (map_leaves (leaves t)) /\
  forall i, is_Some (leaves t !! i) -> in_domain (height t) i.

Lemma sparse_new_inv h : inv (new h).
Proof.
  split.
  - eapply represents_ext; [|apply new_represents]. intros i _. unfold map_leaves. cbn.
    by rewrite lookup_empty.
  - intros i [x Hx]. cbn in Hx. by rewrite lookup_empty in Hx.
Qed.

Lemma map_leaves_insert m i leaf j :
  (<[i := leaf_hash leaf]> (map_leaves m)) j = map_leaves (<[i := leaf]> m) j.
Proof.
  unfold map_leaves. destruct (decide (i = j)) as [->|Hne].
  - by rewrite fn_lookup_insert, lookup_insert_eq.
  - by rewrite fn_lookup_insert_ne, lookup_insert_ne.
Qed.

(** [update] in the index domain writes that leaf only; outside it panics before any change. *)
Lemma sparse_update_spec {E} t i leaf :
  inv t -> in_width 64 i ->
  match update (E := E) t i leaf with
  | Ok t' => 0 <= i < 2 ^ Z.of_nat (height t) /\ inv t' /\ height t' = height t /\
             leaves t' = <[i := leaf]> (leaves t)
  | Err _ => False
  | Panic => 2 ^ Z.of_nat (height t) <= i
  end.
Proof.
  intros (Hrep & Hdom) Hi. unfold update.
  destruct (index_in_domain i (height t)) eqn:Hd.
  - pose proof Hd as Hd'. apply index_in_domain_spec in Hd'; [|done].
    destruct (update_leaf_spec (E := E) (merkle_tree t) _ i (leaf_hash leaf) Hrep)
      as (mt & -> & Hmt & _ & Hrep'); [done|done|].
    cbn. unfold height in *. split; [done|]. split; [|done].
    split; cbn.
    + eapply represents_ext; [|exact Hrep']. intros j _. apply map_leaves_insert.
    + intros j Hj. unfold height; cbn. rewrite Hmt. destruct (decide (i = j)) as [->|Hne]; [done|].
      rewrite lookup_insert_ne in Hj by done. by apply Hdom.
  - unfold update_leaf. unfold height in Hd. rewrite Hd. cbn.
    apply not_true_iff_false in Hd. rewrite index_in_domain_spec in Hd by done.
    unfold in_width, height in *. lia.
Qed.

Lemma sparse_get_root_inv {E} t :
  inv t -> get_root (E := E) t = Ok (subtree (map_leaves (leaves t)) (height t) 0).
Proof. intros (Hrep & _). by apply get_root_spec. Qed.

Lemma sparse_get_leaf_hash t i : map_leaves (leaves t) i = leaf_hash (get_leaf t i).
Proof. unfold map_leaves, get_leaf. by destruct (leaves t !! i). Qed.

Lemma sparse_unpack_loop {E} ls t :
  inv t -> (forall i x, (i, x) ∈ ls -> in_domain (height t) i) ->
  exists t', res_foldl (fun t e => update t e.1 e.2) t ls = Ok (E := E) t' /\ inv t' /\
    height t' = height t /\ leaves t' = foldl (fun m e => <[e.1 := e.2]> m) (leaves t) ls.
Proof.
  revert t. induction ls as [|[i x] ls IH]; intros t Hinv Hls; [by exists t|].
  cbn [res_foldl foldl fst snd]. destruct (Hls i x) as [Hi Hw]; [left|].
  pose proof (sparse_update_spec (E := E) t i x Hinv Hw) as Hu.
  destruct (update t i x) as [t1| |]; [|done|lia]. destruct Hu as (_ & Hinv1 & Hh1 & Hl1).
  cbn [mbind res_bind]. destruct (IH t1 Hinv1) as (t' & Ht' & Hinv' & Hh' & Hl').
  { intros j y Hj. rewrite Hh1. apply (Hls j y). by right. }
  exists t'. split_and!; try done; [congruence|]. by rewrite Hl', Hl1.
Qed.

Lemma foldl_insert_list_to_map (ls : list (Z * V)) (m : gmap Z V) :
  NoDup (ls.*1) -> foldl (fun m e => <[e.1 := e.2]> m) m ls = list_to_map ls ∪ m.
Proof.
  revert m. induction ls as [|[i x] ls IH]; intros m Hnd; cbn.
  - by rewrite map_empty_union.
  - inversion Hnd as [|? ? Hni Hnd']; subst. rewrite IH by done. cbn.
    rewrite <- insert_union_l, <- insert_union_r; [done|].
    by apply not_elem_of_list_to_map_1.
Qed.

(** Unpacking a packed tree gives back its leaves and its root. *)
Lemma unpack_pack {E} t :
  inv t ->
  exists t', unpack (pack t) = Ok (E := E) t' /\ inv t' /\ leaves t' = leaves t /\ height t' = height t.
Proof.
  intros Hinv. unfold unpack, pack. cbn.
  destruct (sparse_unpack_loop (E := E) (map_to_list (leaves t)) (new (height t))) as (t' & Ht' & Hinv' & Hh & Hl).
  - apply sparse_new_inv.
  - intros i x Hix. apply elem_of_map_to_list in Hix. apply Hinv. by eexists.
  - exists t'. split_and!; try done. rewrite Hl, foldl_insert_list_to_map by apply NoDup_fst_map_to_list.
    rewrite list_to_map_to_list. apply map_union_empty.
Qed.

End sparse.
Arguments SparseMerkleTree {Hs} V.
Arguments Packed V : clear implicits.
End Sparse.
