(* ===== verification/Poseidon.v ===== *)
(** * Poseidon hashing and its byte encoding

    Models [src/src/utils/poseidon_hash_out.rs].  The Poseidon permutation is
    plonky2's; the class [Poseidon] is what the code uses of it: an output type
    with its four-word encoding and [hash_inputs_u64].  [PoseidonLeafableHasher]
    builds the tree hasher of leafable_hasher.rs from it.

    [PoseidonHashOut] is the concrete four-word value, with the conversions to
    and from [Bytes32] and the circuit gadget that splits a field element into
    two 32-bit halves in the one canonical way. *)

From S2P Require Import Prelude Limbs Circuit MerkleTree.

Class Poseidon := {
  PHash : Type;
  PHash_eq_dec :: EqDecision PHash;
  phash_default : PHash;
  phash_to_u64_vec : PHash -> list Z;
  hash_inputs_u64 : list Z -> PHash;
}.

(** Poseidon as an ideal collision-free function with four-word outputs. *)
Class PoseidonCollisionFree (P : Poseidon) : Prop := {
  hash_inputs_u64_inj :: Inj (=) (=) hash_inputs_u64;
  phash_to_u64_vec_inj :: Inj (=) (=) phash_to_u64_vec;
  phash_to_u64_vec_length h : length (phash_to_u64_vec h) = 4%nat;
}.

(** [impl LeafableHasher for PoseidonLeafableHasher]. *)
#[export] Instance PoseidonLeafableHasher {P : Poseidon} : LeafableHasher := {|
  HashOut := PHash;
  default_hash := phash_default;
  two_to_one left right := hash_inputs_u64 (phash_to_u64_vec left ++ phash_to_u64_vec right);
|}.

Lemma poseidon_two_to_one_inj {P : Poseidon} {PC : PoseidonCollisionFree P} :
  Inj2 (=) (=) (=) (two_to_one (LeafableHasher := PoseidonLeafableHasher)).
Proof.
  intros l r l' r' H. cbn in H. apply (inj hash_inputs_u64) in H.
  apply app_inj_1 in H as [H1 H2]; [|by rewrite !phash_to_u64_vec_length].
  split; by apply (inj phash_to_u64_vec).
Qed.

(** [impl Leafable for U256]. *)
Definition u256_zero : U256 := mkLimbs (n := U256_LEN) (replicate 8 0) eq_refl.
Definition u256_max : U256 := mkLimbs (n := U256_LEN) (replicate 8 (2 ^ 32 - 1)) eq_refl.

#[export] Instance Leafable_U256 {P : Poseidon} : Leafable U256 := {|
  empty_leaf := u256_zero;
  leaf_hash x := hash_inputs_u64 (to_u32_vec x);
|}.

#[export] Instance CollisionFree_U256 {P : Poseidon} {PC : PoseidonCollisionFree P} :
  CollisionFree U256.
Proof.
  split; [apply poseidon_two_to_one_inj|].
  intros x y H. apply (inj hash_inputs_u64) in H. by apply Limbs_eq.
Qed.

Lemma val_u256_zero : val u256_zero = 0.
Proof. done. Qed.

Lemma val_u256_max : val u256_max = 2 ^ 256 - 1.
Proof. done. Qed.

(** [impl Leafable for Bytes32] and [impl Leafable for PoseidonHashOut]. *)
#[export] Instance Leafable_Bytes32 {P : Poseidon} : Leafable Bytes32 := {|
  empty_leaf := mkLimbs (n := BYTES32_LEN) (replicate 8 0) eq_refl;
  leaf_hash x := hash_inputs_u64 (to_u32_vec x);
|}.

#[export] Instance Leafable_PHash {P : Poseidon} : Leafable PHash := {|
  empty_leaf := phash_default;
  leaf_hash h := h;
|}.

(** What plonky2 documents of a Poseidon output: four words of 64 bits that determine it. *)
Class PoseidonOutput (P : Poseidon) : Prop := {
  poseidon_output_length h : length (phash_to_u64_vec h) = 4%nat;
  poseidon_output_u64 h : Forall (in_width 64) (phash_to_u64_vec h);
  poseidon_output_inj :: Inj (=) (=) phash_to_u64_vec;
}.

(** [impl From<PoseidonHashOut> for Bytes32], on the words of an output: high half first. *)
Definition words_into_bytes32 {E} (words : list Z) : res E Bytes32 :=
  limbs_try_into BYTES32_LEN (words ≫= fun e => [wrap 32 (Z.shiftr e 32); wrap 32 e]).

Definition phash_into_bytes32 {P : Poseidon} {E} (h : PHash) : res E Bytes32 :=
  words_into_bytes32 (phash_to_u64_vec h).

(** A collision-free instance: outputs are numbers, the hash of a word list is its code. *)
Definition CodePoseidon : Poseidon := {|
  PHash := Z;
  phash_default := 0;
  phash_to_u64_vec h := [h; 0; 0; 0];
  hash_inputs_u64 l := Zpos (encode l);
|}.

#[export] Instance CodePoseidon_collision_free : PoseidonCollisionFree CodePoseidon.
Proof.
  split.
  - intros l k [= H]. by apply (inj encode).
  - intros h h' [= H]. done.
  - done.
Qed.

(** ** The concrete output type *)

Module PoseidonHashOut.

Definition elements_okb (l : list Z) : bool :=
  (length l =? 4)%nat && forallb (in_widthb 64) l.

(** [pub struct PoseidonHashOut { elements: [u64; 4] }]. *)
Record PoseidonHashOut := mk { elements : list Z; elements_ok : elements_okb elements = true }.

#[global] Instance PoseidonHashOut_eq_dec : EqDecision PoseidonHashOut.
Proof.
  intros [l Hl] [k Hk]. destruct (decide (l = k)) as [->|Hne].
  - left. f_equal. apply (Eqdep_dec.UIP_dec Bool.bool_dec).
  - right. by intros [=].
Defined.

Inductive PoseidonHashOutError :=
| InvalidHashValue
| NonCanonicalElement (i : nat)
| RecoveryFailed.

Definition try_into {E} (l : list Z) : res E PoseidonHashOut :=
  match decide (elements_okb l = true) with
  | left H => Ok (mk l H)
  | right _ => Panic
  end.

Definition to_u64_vec (h : PoseidonHashOut) : list Z := elements h.

(** The index of the first non-canonical word. *)
Fixpoint position_noncanonical (i : nat) (l : list Z) : option nat :=
  match l with
  | [] => None
  | x :: l' => if GOLDILOCKS_ORDER <=? x then Some i else position_noncanonical (S i) l'
  end.

Definition from_u64_slice (input : list Z) : res PoseidonHashOutError PoseidonHashOut :=
  if bool_decide (length input <> 4%nat) then Err InvalidHashValue
  else match position_noncanonical 0 input with
  | Some i => Err (NonCanonicalElement i)
  | None => try_into input
  end.

(** [impl From<PoseidonHashOut> for Bytes32]. *)
Definition into_bytes32 {E} (h : PoseidonHashOut) : res E Bytes32 :=
  words_into_bytes32 (elements h).

(** [Bytes32::reduce_to_hash_out]. *)
Fixpoint pair_words (l : list Z) : list Z :=
  match l with
  | hi :: lo :: l' => (Z.shiftl hi 32 + lo) :: pair_words l'
  | _ => []
  end.

Definition reduce_to_hash_out {E} (b : Bytes32) : res E PoseidonHashOut :=
  try_into (pair_words (limbs b)).

(** [impl TryFrom<Bytes32> for PoseidonHashOut]. *)
Definition try_from_bytes32 (value : Bytes32) : res PoseidonHashOutError PoseidonHashOut :=
  hash_out ← reduce_to_hash_out value;
  match position_noncanonical 0 (elements hash_out) with
  | Some i => Err (NonCanonicalElement i)
  | None =>
      recovered ← into_bytes32 hash_out;
      if bool_decide (value <> recovered) then Err RecoveryFailed else Ok hash_out
  end.

(** ** The canonical split gadget *)
Section gadget.
Context `{CircuitBuilder}.

(** [safe_split_lo_and_hi]. *)
Definition safe_split_lo_and_hi (x : Z) : propset (Z * Z) :=
  '(lo, hi) ← split_low_high x 32 64;
  is_hi_max ← is_equal hi (2 ^ 32 - 1);
  t ← mul is_hi_max lo;
  _ ← assert_zero t;
  mret (lo, hi).

End gadget.
End PoseidonHashOut.

Notation PoseidonHashOut := PoseidonHashOut.PoseidonHashOut.

Module PoseidonHashOut_lemmas.
Import PoseidonHashOut.

Lemma elements_okb_spec l : elements_okb l = true <-> length l = 4%nat /\ Forall (in_width 64) l.
Proof.
  unfold elements_okb. rewrite andb_true_iff, Nat.eqb_eq, List.forallb_forall, List.Forall_forall.
  by setoid_rewrite in_widthb_spec.
Qed.

Lemma PoseidonHashOut_eq h h' : elements h = elements h' -> h = h'.
Proof.
  destruct h as [l Hl], h' as [k Hk]; cbn. intros ->. f_equal.
  apply (Eqdep_dec.UIP_dec Bool.bool_dec).
Qed.

Lemma try_into_ok {E} l :
  length l = 4%nat -> Forall (in_width 64) l -> exists h, try_into (E := E) l = Ok h /\ elements h = l.
Proof.
  intros H1 H2. unfold try_into. destruct (decide _) as [H|H]; [by eexists|].
  exfalso. apply H. by apply elements_okb_spec.
Qed.

Lemma try_into_elements {E} h : try_into (E := E) (elements h) = Ok h.
Proof.
  pose proof (elements_ok h) as Hok. apply elements_okb_spec in Hok as [H1 H2].
  destruct (try_into_ok (E := E) _ H1 H2) as (h' & -> & Hh'). f_equal. by apply PoseidonHashOut_eq.
Qed.

Lemma position_noncanonical_None i l :
  position_noncanonical i l = None <-> Forall (fun x => x < GOLDILOCKS_ORDER) l.
Proof.
  revert i. induction l as [|x l IH]; intros i; cbn; [by split|].
  destruct (Z.leb_spec GOLDILOCKS_ORDER x); rewrite Forall_cons_iff.
  - split; [done|lia].
  - rewrite IH. naive_solver lia.
Qed.

Lemma split_words e : in_width 64 e -> Z.shiftl (wrap 32 (Z.shiftr e 32)) 32 + wrap 32 e = e.
Proof.
  intros He. rewrite (wrap_id 32 (Z.shiftr e 32)).
  - rewrite Z.shiftl_mul_pow2 by lia. pose proof (split_low_32 e). lia.
  - unfold in_width in *. apply (shiftr_32_bounds e 0 (2 ^ 32)). lia.
Qed.

Lemma pair_words_split l :
  Forall (in_width 64) l -> pair_words (l ≫= fun e => [wrap 32 (Z.shiftr e 32); wrap 32 e]) = l.
Proof.
  induction 1 as [|e l He Hl IH]; [done|]. cbn [mbind list_bind app pair_words].
  rewrite split_words by done. f_equal. exact IH.
Qed.

Lemma words_into_bytes32_ok {E} ws :
  length ws = 4%nat ->
  exists b, words_into_bytes32 (E := E) ws = Ok b /\
    limbs b = (ws ≫= fun e => [wrap 32 (Z.shiftr e 32); wrap 32 e]).
Proof.
  intros Hlen. apply (limbs_try_into_ok (E := E) BYTES32_LEN).
  - rewrite (length_bind_const _ 2) by done. by rewrite Hlen.
  - clear Hlen. unfold u32_list. induction ws as [|e l IH]; [constructor|].
    cbn. repeat constructor; try (apply wrap_in_width; lia). exact IH.
Qed.

Lemma words_into_bytes32_inj {E} ws ws' b :
  length ws = 4%nat -> length ws' = 4%nat ->
  Forall (in_width 64) ws -> Forall (in_width 64) ws' ->
  words_into_bytes32 (E := E) ws = Ok b -> words_into_bytes32 (E := E) ws' = Ok b -> ws = ws'.
Proof.
  intros Hl Hl' Hw Hw' H H'.
  destruct (words_into_bytes32_ok (E := E) ws Hl) as (c & Hc & Hcl).
  destruct (words_into_bytes32_ok (E := E) ws' Hl') as (c' & Hc' & Hcl').
  rewrite <- (pair_words_split ws Hw), <- (pair_words_split ws' Hw'), <- Hcl, <- Hcl'. congruence.
Qed.

(** [Bytes32::from] never fails and [reduce_to_hash_out] inverts it. *)
Lemma into_bytes32_ok {E} h :
  exists b, into_bytes32 (E := E) h = Ok b /\ forall E', reduce_to_hash_out (E := E') b = Ok h.
Proof.
  pose proof (elements_ok h) as Hok. apply elements_okb_spec in Hok as [H1 H2].
  destruct (words_into_bytes32_ok (E := E) (elements h) H1) as (b & Hb & Hbl).
  exists b. split; [exact Hb|]. intros E'. unfold reduce_to_hash_out.
  rewrite Hbl, pair_words_split by done. apply try_into_elements.
Qed.

(** Regrouping and splitting are inverse on every [Bytes32]. *)
Lemma pair_words_spec (l : list Z) (n : nat) :
  length l = (2 * n)%nat -> u32_list l ->
  length (pair_words l) = n /\ Forall (in_width 64) (pair_words l) /\
  (pair_words l ≫= fun e => [wrap 32 (Z.shiftr e 32); wrap 32 e]) = l.
Proof.
  revert l. induction n as [|n IH]; intros l Hlen Hl.
  - destruct l; [|done]. repeat split. constructor.
  - destruct l as [|hi [|lo l]]; cbn in Hlen; try lia.
    apply Forall_cons_iff in Hl as [Hhi Hl]. apply Forall_cons_iff in Hl as [Hlo Hl].
    destruct (IH l) as (H1 & H2 & H3); [lia|done|]. cbn [pair_words length].
    assert (Z.shiftl hi 32 + lo = hi * 2 ^ 32 + lo) as -> by (rewrite Z.shiftl_mul_pow2; lia).
    unfold in_width in *. repeat split.
    + lia.
    + constructor; [unfold in_width; lia|done].
    + cbn [mbind list_bind app]. fold (mbind (M := list) (fun e => [wrap 32 (Z.shiftr e 32); wrap 32 e]) (pair_words l)).
      rewrite H3. rewrite Z.shiftr_div_pow2 by lia.
      rewrite Z.div_add_l, Z.div_small, Z.add_0_r by lia. rewrite wrap_id by done.
      unfold wrap. rewrite Z.add_comm, Z.mod_add, Z.mod_small by lia. done.
Qed.

Lemma reduce_to_hash_out_ok {E} b :
  exists h, reduce_to_hash_out (E := E) b = Ok h /\ elements h = pair_words (limbs b) /\
    forall E', into_bytes32 (E := E') h = Ok b.
Proof.
  destruct (pair_words_spec (limbs b) 4) as (H1 & H2 & H3); [by rewrite limbs_length|apply limbs_u32|].
  destruct (try_into_ok (E := E) _ H1 H2) as (h & Hh & Hel).
  exists h. split; [exact Hh|]. split; [done|]. intros E'. unfold into_bytes32, words_into_bytes32. rewrite Hel, H3.
  apply limbs_try_into_limbs.
Qed.

Lemma safe_split_spec `{CircuitBuilder} x lo hi :
  canonical x ->
  (lo, hi) ∈ safe_split_lo_and_hi x <-> lo = x mod 2 ^ 32 /\ hi = x / 2 ^ 32.
Proof.
  intros Hx. unfold safe_split_lo_and_hi. rewrite elem_of_bind.
  unfold canonical, GOLDILOCKS_ORDER in Hx.
  pose proof (Z.div_mod x (2 ^ 32)) as Hd. pose proof (Z.mod_pos_bound x (2 ^ 32)) as Hm. split.
  - intros ([lo' hi'] & Hb & Hs). apply split_low_high_law in Hs as (Hlo & Hhi & Hv).
    apply elem_of_bind in Hb as (e & Hb & He). apply is_equal_law in He as ->.
    apply elem_of_bind in Hb as (t & Hb & Ht). apply mul_law in Ht as ->.
    apply elem_of_bind in Hb as ([] & Hb & Hz). apply assert_zero_law in Hz.
    apply elem_of_ret in Hb. injection Hb as -> ->. unfold in_width in *.
    change (2 ^ Z.of_nat 32) with (2 ^ 32) in *. change (2 ^ Z.of_nat (64 - 32)) with (2 ^ 32) in *.
    unfold fmul, GOLDILOCKS_ORDER in *.
    destruct (Z.eqb_spec hi' (2 ^ 32 - 1)) as [He|Hne].
    + rewrite Z.mod_small in Hz by lia. Z.div_mod_to_equations. lia.
    + rewrite Z.mod_small in Hv by lia. Z.div_mod_to_equations. lia.
  - intros [-> ->]. exists (x mod 2 ^ 32, x / 2 ^ 32). split.
    + apply elem_of_bind. eexists. split; [|by apply is_equal_law].
      apply elem_of_bind. eexists. split; [|by apply mul_law].
      apply elem_of_bind. exists tt. split; [by apply elem_of_ret|].
      apply assert_zero_law. unfold fmul, GOLDILOCKS_ORDER.
      destruct (Z.eqb_spec (x / 2 ^ 32) (2 ^ 32 - 1)) as [He|Hne]; [|done].
      assert (x mod 2 ^ 32 = 0) as -> by lia. done.
    + apply split_low_high_law. unfold in_width.
      change (2 ^ Z.of_nat 32) with (2 ^ 32). change (2 ^ Z.of_nat (64 - 32)) with (2 ^ 32).
      repeat split; try lia.
      replace (x mod 2 ^ 32 + 2 ^ 32 * (x / 2 ^ 32)) with x by lia.
      apply Z.mod_small. unfold GOLDILOCKS_ORDER. lia.
Qed.

End PoseidonHashOut_lemmas.

Module PoseidonHashOut_theorems.
Import PoseidonHashOut PoseidonHashOut_lemmas.

Theorem try_from_bytes32_exact (b : Bytes32) :
  match try_from_bytes32 b with
  | Ok h => Forall canonical (elements h) /\ into_bytes32 (E := Empty_set) h = Ok b
  | Err (NonCanonicalElement _) => ~ Forall canonical (pair_words (limbs b))
  | Err _ => False
  | Panic => False
  end.
Proof.
  unfold try_from_bytes32.
  destruct (reduce_to_hash_out_ok (E := PoseidonHashOutError) b) as (h & -> & Hel & Hinto).
  cbn [mbind res_bind]. rewrite Hel.
  destruct (pair_words_spec (limbs b) 4) as (H1 & H2 & H3); [by rewrite limbs_length|apply limbs_u32|].
  destruct (position_noncanonical 0 (pair_words (limbs b))) eqn:Hpos.
  - intros Hc. assert (Forall (fun x => x < GOLDILOCKS_ORDER) (pair_words (limbs b))) as Hlt.
    { eapply Forall_impl; [|exact Hc]. unfold canonical. lia. }
    apply (position_noncanonical_None 0) in Hlt. congruence.
  - rewrite Hinto. cbn [mbind res_bind]. rewrite bool_decide_eq_false_2 by auto.
    split; [|apply Hinto]. rewrite Hel. apply position_noncanonical_None in Hpos.
    rewrite List.Forall_forall in *. intros x Hx. unfold canonical. split; [|by apply Hpos].
    by apply H2 in Hx as [? _].
Qed.

End PoseidonHashOut_theorems.
