(* ===== verification/IndexedTree.v ===== *)
(** * Indexed Merkle trees and nullifier uniqueness

    Models [src/src/utils/trees/indexed_merkle_tree/] (mod.rs, leaf.rs,
    insertion.rs) and the nullifier tree of
    [src/src/common/trees/nullifier_tree.rs].

    The leaves form a linked list sorted by key, threaded through the tree by
    [next_index] and [next_key]; a key is absent when it falls in the gap of
    some leaf.  [linked] is this invariant on a map from positions to leaves:
    the prover's tree fills positions in order, but an insertion proof may use
    any free position, and the verifier only sees roots. *)

From S2P Require Import Prelude Limbs MerkleTree LeafTrees Poseidon.

(** ** The leaf, [leaf.rs] *)

Record IndexedMerkleLeaf := mkLeaf {
  next_index : Z;
  key : U256;
  next_key : U256;
  value : Z;
}.

#[export] Instance IndexedMerkleLeaf_eq_dec : EqDecision IndexedMerkleLeaf.
Proof. solve_decision. Defined.

Definition default_leaf : IndexedMerkleLeaf := mkLeaf 0 u256_zero u256_zero 0.

Definition leaf_to_u64_vec (l : IndexedMerkleLeaf) : list Z :=
  [next_index l] ++ to_u64_vec (key l) ++ to_u64_vec (next_key l) ++ [value l].

(** [impl Leafable for IndexedMerkleLeaf]: empty positions hold the key [U256::MAX]. *)
#[export] Instance Leafable_IndexedMerkleLeaf {P : Poseidon} : Leafable IndexedMerkleLeaf := {|
  empty_leaf := mkLeaf (2 ^ 64 - 1) u256_max u256_zero 0;
  leaf_hash l := hash_inputs_u64 (leaf_to_u64_vec l);
|}.

Lemma leaf_to_u64_vec_inj l k : leaf_to_u64_vec l = leaf_to_u64_vec k -> l = k.
Proof.
  destruct l as [ni ky nk v], k as [ni' ky' nk' v']. unfold leaf_to_u64_vec; cbn.
  intros H. injection H as <- H.
  apply app_inj_1 in H as [H1 H]; [|unfold to_u64_vec, to_u32_vec; by rewrite !limbs_length].
  apply app_inj_1 in H as [H2 H]; [|unfold to_u64_vec, to_u32_vec; by rewrite !limbs_length].
  injection H as <-. apply Limbs_eq in H1 as <-. by apply Limbs_eq in H2 as <-.
Qed.

#[export] Instance CollisionFree_IndexedMerkleLeaf {P : Poseidon} {PC : PoseidonCollisionFree P} :
  CollisionFree IndexedMerkleLeaf.
Proof.
  split; [apply poseidon_two_to_one_inj|].
  intros x y H. apply (inj hash_inputs_u64) in H. by apply leaf_to_u64_vec_inj.
Qed.

Inductive IndexedMerkleTreeError :=
| KeyAlreadyExists
| KeyDoesNotExist
| KeyNotLowerBounded
| KeyNotUpperBounded
| NewRootMismatch
| TooManyCandidates
| ProofError (e : MerkleProofError).

Section indexed.
Context {P : Poseidon}.

(** ** The tree, [mod.rs] *)

Definition IndexedMerkleTree : Type := Incremental.IncrementalMerkleTree IndexedMerkleLeaf.

Definition indexed_new {E} (h : nat) : res E IndexedMerkleTree :=
  Incremental.push (Incremental.new h) default_leaf.

(** The gap test of [low_index] and [get_new_root]. *)
Definition is_low_leaf (leaf : IndexedMerkleLeaf) (k : U256) : bool :=
  U256.ltb (key leaf) k &&
  (U256.ltb k (next_key leaf) || bool_decide (next_key leaf = u256_zero)).

(** [leaves().into_iter().enumerate().filter(..)]. *)
Definition candidates (p : IndexedMerkleLeaf -> bool) (ls : list IndexedMerkleLeaf)
    : list (nat * IndexedMerkleLeaf) :=
  List.filter (fun e => p e.2) (imap pair ls).

Definition low_index (t : IndexedMerkleTree) (k : U256) : res IndexedMerkleTreeError Z :=
  match candidates (fun leaf => is_low_leaf leaf k) (Incremental.leaves t) with
  | [] => Err KeyAlreadyExists
  | [(i, _)] => Ok (Z.of_nat i)
  | _ => Err TooManyCandidates
  end.

Definition index {E} (t : IndexedMerkleTree) (k : U256) : res E (option Z) :=
  match candidates (fun leaf => bool_decide (key leaf = k)) (Incremental.leaves t) with
  | [] => Ok None
  | [(i, _)] => Ok (Some (Z.of_nat i))
  | _ => Panic
  end.

Definition indexed_update (t : IndexedMerkleTree) (k : U256) (v : Z)
    : res IndexedMerkleTreeError IndexedMerkleTree :=
  oi ← index t k;
  i ← ok_or oi KeyDoesNotExist;
  let leaf := Incremental.get_leaf t i in
  Incremental.update t i (mkLeaf (next_index leaf) (key leaf) (next_key leaf) v).

(** ** Insertion, [insertion.rs] *)

(** The two leaves an insertion writes. *)
Definition new_low_leaf (prev : IndexedMerkleLeaf) (i : Z) (k : U256) : IndexedMerkleLeaf :=
  mkLeaf i (key prev) k (value prev).

Definition new_leaf (prev : IndexedMerkleLeaf) (k : U256) (v : Z) : IndexedMerkleLeaf :=
  mkLeaf (next_index prev) k (next_key prev) v.

Definition insert (t : IndexedMerkleTree) (k : U256) (v : Z)
    : res IndexedMerkleTreeError IndexedMerkleTree :=
  let i := Z.of_nat (length (Incremental.leaves t)) in
  low ← low_index t k;
  let prev_low_leaf := Incremental.get_leaf t low in
  t1 ← Incremental.update t low (new_low_leaf prev_low_leaf i k);
  Incremental.push t1 (new_leaf prev_low_leaf k v).

Record IndexedInsertionProof := mkInsertionProof {
  ip_index : Z;
  low_leaf_proof : MerkleProof;
  leaf_proof : MerkleProof;
  low_leaf_index : Z;
  prev_low_leaf : IndexedMerkleLeaf;
}.

Definition prove_and_insert (t : IndexedMerkleTree) (k : U256) (v : Z)
    : res IndexedMerkleTreeError (IndexedMerkleTree * IndexedInsertionProof) :=
  let i := Z.of_nat (length (Incremental.leaves t)) in
  low ← low_index t k;
  let prev_low_leaf := Incremental.get_leaf t low in
  low_leaf_proof ← Incremental.prove t low;
  t1 ← Incremental.update t low (new_low_leaf prev_low_leaf i k);
  t2 ← Incremental.push t1 (new_leaf prev_low_leaf k v);
  leaf_proof ← Incremental.prove t2 i;
  Ok (t2, mkInsertionProof i low_leaf_proof leaf_proof low prev_low_leaf).

Definition prove_dummy {E} (t : IndexedMerkleTree) : res E IndexedInsertionProof :=
  dummy_proof ← Incremental.prove t 0;
  Ok (mkInsertionProof 0 dummy_proof dummy_proof 0 (Incremental.get_leaf t 0)).

Definition get_new_root (p : IndexedInsertionProof) (k : U256) (v : Z) (prev_root : HashOut)
    : res IndexedMerkleTreeError HashOut :=
  _ ← ensure (negb (U256.leb k (key (prev_low_leaf p)))) KeyNotLowerBounded;
  _ ← ensure (U256.ltb k (next_key (prev_low_leaf p))
              || bool_decide (next_key (prev_low_leaf p) = u256_zero)) KeyNotUpperBounded;
  _ ← map_err ProofError
        (proof_verify (low_leaf_proof p) (prev_low_leaf p) (low_leaf_index p) prev_root);
  temp_root ← proof_get_root (low_leaf_proof p) (new_low_leaf (prev_low_leaf p) (ip_index p) k)
                (low_leaf_index p);
  _ ← map_err ProofError (proof_verify (leaf_proof p) empty_leaf (ip_index p) temp_root);
  proof_get_root (leaf_proof p) (new_leaf (prev_low_leaf p) k v) (ip_index p).

Definition conditional_get_new_root (p : IndexedInsertionProof) (condition : bool) (k : U256) (v : Z)
    (prev_root : HashOut) : res IndexedMerkleTreeError HashOut :=
  if condition then get_new_root p k v prev_root else Ok prev_root.

Definition insertion_verify (p : IndexedInsertionProof) (k : U256) (v : Z) (prev_root new_root : HashOut)
    : res IndexedMerkleTreeError unit :=
  expected_new_root ← get_new_root p k v prev_root;
  ensure (bool_decide (new_root = expected_new_root)) NewRootMismatch.

(** ** The linked-list invariant *)

Definition in_gap (leaf : IndexedMerkleLeaf) (k : U256) : Prop :=
  val (key leaf) < val k /\ (val k < val (next_key leaf) \/ next_key leaf = u256_zero).

Definition has_key (m : gmap Z IndexedMerkleLeaf) (k : U256) : Prop :=
  exists i leaf, m !! i = Some leaf /\ key leaf = k.

Record linked (m : gmap Z IndexedMerkleLeaf) : Prop := {
  lk_sentinel : exists leaf, m !! 0 = Some leaf /\ key leaf = u256_zero;
  lk_unique : forall i j leaf leaf',
    m !! i = Some leaf -> m !! j = Some leaf' -> key leaf = key leaf' -> i = j;
  lk_next : forall i leaf, m !! i = Some leaf ->
    exists leaf', m !! next_index leaf = Some leaf' /\ key leaf' = next_key leaf;
  lk_order : forall i leaf, m !! i = Some leaf ->
    next_key leaf = u256_zero \/ val (key leaf) < val (next_key leaf);
  lk_gap : forall i j leaf leaf',
    m !! i = Some leaf -> m !! j = Some leaf' -> ~ in_gap leaf (key leaf');
}.

(** The map after an insertion at the free position [i] below the leaf at [low]. *)
Definition insert_map (m : gmap Z IndexedMerkleLeaf) (low i : Z) (prev : IndexedMerkleLeaf)
    (k : U256) (v : Z) : gmap Z IndexedMerkleLeaf :=
  <[i := new_leaf prev k v]> (<[low := new_low_leaf prev i k]> m).

Lemma is_low_leaf_spec leaf k : is_low_leaf leaf k = true <-> in_gap leaf k.
Proof.
  unfold is_low_leaf, in_gap. rewrite andb_true_iff, orb_true_iff, !U256_theorems.ltb_val, !Z.ltb_lt.
  by rewrite bool_decide_eq_true.
Qed.

(** A key inside a gap is not in the tree. *)
Lemma in_gap_absent m i leaf k : linked m -> m !! i = Some leaf -> in_gap leaf k -> ~ has_key m k.
Proof. intros Hl Hi Hg (j & leaf' & Hj & <-). by apply (lk_gap m Hl i j leaf leaf'). Qed.

Lemma in_gap_nonzero leaf k : in_gap leaf k -> k <> u256_zero.
Proof.
  intros [H _] ->. rewrite val_u256_zero in H. pose proof (val_bound (key leaf)). lia.
Qed.

Section insert_map.
Context (m : gmap Z IndexedMerkleLeaf) (low i : Z) (prev : IndexedMerkleLeaf) (k : U256) (v : Z).
Hypotheses (Hlk : linked m) (Hlow : m !! low = Some prev) (Hgap : in_gap prev k) (Hfree : m !! i = None).

(** Every leaf after the insertion is the new leaf, the rewritten low leaf or an old leaf. *)
Lemma insert_map_lookup j leaf :
  insert_map m low i prev k v !! j = Some leaf ->
  (j = i /\ leaf = new_leaf prev k v) \/ (j = low /\ leaf = new_low_leaf prev i k) \/
  (j <> i /\ j <> low /\ m !! j = Some leaf).
Proof using Type.
  clear. unfold insert_map. intros H.
  destruct (decide (i = j)) as [->|Hi]; [rewrite lookup_insert_eq in H; naive_solver|].
  rewrite lookup_insert_ne in H by done.
  destruct (decide (low = j)) as [->|Hl]; [rewrite lookup_insert_eq in H; naive_solver|].
  rewrite lookup_insert_ne in H by done. naive_solver.
Qed.

Lemma insert_map_low_ne : low <> i.
Proof. intros ->. congruence. Qed.

Lemma insert_map_at_i : insert_map m low i prev k v !! i = Some (new_leaf prev k v).
Proof. apply lookup_insert_eq. Qed.

Lemma insert_map_at_low : insert_map m low i prev k v !! low = Some (new_low_leaf prev i k).
Proof.
  unfold insert_map. rewrite lookup_insert_ne by (pose proof insert_map_low_ne; congruence).
  apply lookup_insert_eq.
Qed.

Lemma insert_map_at_other j : j <> i -> j <> low -> insert_map m low i prev k v !! j = m !! j.
Proof. intros. unfold insert_map. by rewrite !lookup_insert_ne by congruence. Qed.

(** Old positions keep their keys. *)
Lemma insert_map_old_key j leaf :
  m !! j = Some leaf -> exists leaf', insert_map m low i prev k v !! j = Some leaf' /\ key leaf' = key leaf.
Proof.
  intros Hj. destruct (decide (j = i)) as [->|]; [congruence|].
  destruct (decide (j = low)) as [->|].
  - eexists. split; [apply insert_map_at_low|]. simplify_eq. done.
  - exists leaf. by rewrite insert_map_at_other.
Qed.

Lemma insert_map_has_key k' : has_key (insert_map m low i prev k v) k' <-> k' = k \/ has_key m k'.
Proof.
  split.
  - intros (j & leaf & Hj & <-).
    apply insert_map_lookup in Hj as [[-> ->]|[[-> ->]|(_ & _ & Hj)]]; [by left| |]; right.
    + by exists low, prev.
    + by exists j, leaf.
  - intros [->|(j & leaf & Hj & <-)].
    + exists i, (new_leaf prev k v). split; [apply insert_map_at_i|done].
    + destruct (insert_map_old_key j leaf Hj) as (leaf' & Hl & Hk). by exists j, leaf'.
Qed.

Lemma k_absent j leaf : m !! j = Some leaf -> key leaf <> k.
Proof. intros Hj <-. by apply (lk_gap m Hlk low j prev leaf). Qed.

(** A leaf other than the low leaf has no gap containing the new key. *)
Lemma other_gap j leaf : m !! j = Some leaf -> j <> low -> ~ in_gap leaf k.
Proof.
  intros Hj Hne Hg. destruct Hg as [G1 G2], Hgap as [K1 K2].
  destruct (Z.lt_trichotomy (val (key leaf)) (val (key prev))) as [H|[H|H]].
  - apply (lk_gap m Hlk j low leaf prev); try done. split; [done|]. destruct G2; [left; lia|by right].
  - apply Hne. apply (lk_unique m Hlk j low leaf prev); try done. by apply val_inj.
  - apply (lk_gap m Hlk low j prev leaf); try done. split; [done|]. destruct K2; [left; lia|by right].
Qed.

Lemma linked_insert_map : linked (insert_map m low i prev k v).
Proof.
  pose proof insert_map_low_ne as Hli. destruct Hgap as [K1 K2].
  split.
  - destruct (lk_sentinel m Hlk) as (s & Hs & Hs0).
    destruct (insert_map_old_key 0 s Hs) as (s' & ? & ?). exists s'. split; [done|congruence].
  - intros j j' l l' Hj Hj' Heq.
    apply insert_map_lookup in Hj as [[-> ->]|[[-> ->]|(?&?&Hj)]];
    apply insert_map_lookup in Hj' as [[-> ->]|[[-> ->]|(?&?&Hj')]]; try done; cbn in Heq.
    + exfalso. by apply (k_absent low prev).
    + exfalso. by apply (k_absent j' l').
    + exfalso. by apply (k_absent low prev).
    + by apply (lk_unique m Hlk low j' prev l').
    + exfalso. by apply (k_absent j l).
    + by apply (lk_unique m Hlk j low l prev).
    + by apply (lk_unique m Hlk j j' l l').
  - intros j l Hj.
    apply insert_map_lookup in Hj as [[-> ->]|[[-> ->]|(?&?&Hj)]]; cbn.
    + destruct (lk_next m Hlk low prev Hlow) as (l' & Hl' & Hk).
      destruct (insert_map_old_key _ _ Hl') as (l'' & ? & ?). exists l''. split; [done|congruence].
    + exists (new_leaf prev k v). split; [apply insert_map_at_i|done].
    + destruct (lk_next m Hlk j l Hj) as (l' & Hl' & Hk).
      destruct (insert_map_old_key _ _ Hl') as (l'' & ? & ?). exists l''. split; [done|congruence].
  - intros j l Hj.
    apply insert_map_lookup in Hj as [[-> ->]|[[-> ->]|(?&?&Hj)]]; cbn.
    + destruct K2; [by right|by left].
    + by right.
    + by apply (lk_order m Hlk j).
  - intros j j' l l' Hj Hj' [G1 G2].
    apply insert_map_lookup in Hj as [[-> ->]|[[-> ->]|(Hji & Hjl & Hj)]];
    apply insert_map_lookup in Hj' as [[-> ->]|[[-> ->]|(?&?&Hj')]]; cbn in *; try lia.
    + apply (lk_gap m Hlk low j' prev l'); try done. split; [lia|done].
    + destruct G2 as [G2| ->]; [lia|]. rewrite val_u256_zero in K1.
      pose proof (val_bound (key prev)). lia.
    + destruct G2 as [G2| ->]; [|rewrite val_u256_zero in K1; pose proof (val_bound (key prev)); lia].
      apply (lk_gap m Hlk low j' prev l'); try done. split; [done|]. destruct K2; [left; lia|by right].
    + by apply (other_gap j l).
    + by apply (lk_gap m Hlk j low l prev).
    + by apply (lk_gap m Hlk j j' l l').
Qed.

End insert_map.

(** ** Soundness of an insertion proof *)

Definition dom_ok (h : nat) (m : gmap Z IndexedMerkleLeaf) : Prop :=
  forall j leaf, m !! j = Some leaf -> 0 <= j < 2 ^ Z.of_nat h.

Definition root_of (h : nat) (m : gmap Z IndexedMerkleLeaf) : HashOut :=
  subtree (Sparse.map_leaves m) h 0.

(** The proof has the shape the circuit fixes: two paths of height [h], 64-bit positions. *)
Definition well_shaped (h : nat) (p : IndexedInsertionProof) : Prop :=
  proof_height (low_leaf_proof p) = h /\ proof_height (leaf_proof p) = h /\
  in_width 64 (low_leaf_index p) /\ in_width 64 (ip_index p).

Lemma root_of_insert h m j leaf :
  subtree (<[j := leaf_hash leaf]> (Sparse.map_leaves m)) h 0 = root_of h (<[j := leaf]> m).
Proof. apply subtree_ext. intros. apply Sparse.map_leaves_insert. Qed.

Lemma map_leaves_inj {PC : PoseidonCollisionFree P} (m : gmap Z IndexedMerkleLeaf) j leaf :
  Sparse.map_leaves m j = leaf_hash leaf -> default empty_leaf (m !! j) = leaf.
Proof. apply (inj leaf_hash). Qed.

(** No occupied position holds the empty leaf: its [next_index] is out of the domain. *)
Lemma linked_not_empty h m j leaf :
  linked m -> dom_ok h m -> (h < 64)%nat -> m !! j = Some leaf -> leaf <> empty_leaf.
Proof.
  intros Hlk Hdom Hh Hj ->. destruct (lk_next m Hlk j _ Hj) as (l' & Hl' & _).
  apply Hdom in Hl'. cbn in Hl'.
  assert (2 ^ Z.of_nat h <= 2 ^ 63) by (apply Z.pow_le_mono_r; lia). lia.
Qed.

Lemma get_new_root_sound {PC : PoseidonCollisionFree P} h m p k v r :
  linked m -> dom_ok h m -> (h < 64)%nat -> well_shaped h p ->
  get_new_root p k v (root_of h m) = Ok r ->
  m !! low_leaf_index p = Some (prev_low_leaf p) /\ in_gap (prev_low_leaf p) k /\
  m !! ip_index p = None /\ 0 <= ip_index p < 2 ^ Z.of_nat h /\
  r = root_of h (insert_map m (low_leaf_index p) (ip_index p) (prev_low_leaf p) k v).
Proof.
  intros Hlk Hdom Hh (Hp1 & Hp2 & Hw1 & Hw2) H. unfold get_new_root in H. simplify_res.
  rewrite U256_theorems.leb_val in Hr. simplify_bool.
  apply orb_true_iff in Hr0. rewrite U256_theorems.ltb_val, Z.ltb_lt, bool_decide_eq_true in Hr0.
  assert (in_gap (prev_low_leaf p) k) as Hgap by (split; [lia|done]).
  rewrite proof_get_root_eq in Hr2, H. simplify_res.
  unfold root_of in Hr1. rewrite <- Hp1 in Hr1.
  pose proof (poseidon_two_to_one_inj (P := P)) as I2.
  apply proof_verify_sound in Hr1 as (Hf & _ & _ & Hup); [|done].
  apply map_leaves_inj in Hf.
  assert (m !! low_leaf_index p = Some (prev_low_leaf p)) as Hlow.
  { destruct (m !! low_leaf_index p) eqn:Hm; cbn in Hf; [by subst|].
    exfalso. destruct Hgap as [Hg _]. rewrite <- Hf in Hg. cbn [key empty_leaf Leafable_IndexedMerkleLeaf] in Hg.
    rewrite val_u256_max in Hg. pose proof (val_bound k). change (32 * Z.of_nat U256_LEN) with 256 in *. lia. }
  rewrite Hup, Hp1, root_of_insert in Hr3.
  set (m1 := <[low_leaf_index p := _]> m) in Hr3. unfold root_of in Hr3. rewrite <- Hp2 in Hr3.
  apply proof_verify_sound in Hr3 as (Hf1 & _ & Hdom1 & Hup1); [|done]. rewrite Hp2 in Hdom1.
  apply map_leaves_inj in Hf1. rewrite Hup1, Hp2, root_of_insert.
  assert (m !! ip_index p = None) as Hfree.
  { unfold m1 in Hf1. destruct (decide (low_leaf_index p = ip_index p)) as [Heq|Hne].
    - rewrite Heq, lookup_insert_eq in Hf1. cbn in Hf1. apply (f_equal next_index) in Hf1. cbn in Hf1.
      assert (2 ^ Z.of_nat h <= 2 ^ 63) by (apply Z.pow_le_mono_r; lia). lia.
    - rewrite lookup_insert_ne in Hf1 by done.
      destruct (m !! ip_index p) as [leaf|] eqn:Hm; [|done].
      exfalso. by apply (linked_not_empty h m (ip_index p) leaf). }
  split_and!; try done; try lia.
Qed.

Lemma dom_ok_insert_map h m low i prev k v :
  dom_ok h m -> m !! low = Some prev -> 0 <= i < 2 ^ Z.of_nat h ->
  dom_ok h (insert_map m low i prev k v).
Proof.
  intros Hdom Hlow Hi j leaf Hj.
  apply insert_map_lookup in Hj as [[-> _]|[[-> _]|(_ & _ & Hj)]]; [done| |]; by eapply Hdom.
Qed.

(** A sequence of insertion proofs checked one after the other. *)
Definition run_insertions (root : HashOut) (ps : list (IndexedInsertionProof * U256 * Z))
    : res IndexedMerkleTreeError HashOut :=
  res_foldl (fun r e => get_new_root e.1.1 e.1.2 e.2 r) root ps.

Lemma run_insertions_sound {PC : PoseidonCollisionFree P} h ps : forall m r,
  linked m -> dom_ok h m -> (h < 64)%nat ->
  Forall (fun e => well_shaped h e.1.1) ps ->
  run_insertions (root_of h m) ps = Ok r ->
  NoDup ((fun e => e.1.2) <$> ps) /\
  (forall k, k ∈ ((fun e => e.1.2) <$> ps) -> ~ has_key m k) /\
  exists m', linked m' /\ dom_ok h m' /\ r = root_of h m' /\
    forall k, has_key m' k <-> k ∈ ((fun e => e.1.2) <$> ps) \/ has_key m k.
Proof.
  induction ps as [|[[p k] v] ps IH]; intros m r Hlk Hdom Hh Hws Hrun.
  - cbn in Hrun. simplify_res. split; [constructor|]. split; [set_solver|].
    exists m. split_and!; try done. set_solver.
  - cbn [run_insertions res_foldl fst snd] in Hrun. apply bind_Ok in Hrun as (r1 & Hr1 & Hrun).
    apply Forall_cons_iff in Hws as [Hw Hws].
    apply (get_new_root_sound h) in Hr1 as (Hlow & Hgap & Hfree & Hi & ->); try done.
    pose proof (linked_insert_map _ _ _ _ _ v Hlk Hlow Hgap Hfree) as Hlk1.
    pose proof (dom_ok_insert_map h _ _ _ _ k v Hdom Hlow Hi) as Hdom1.
    destruct (IH _ _ Hlk1 Hdom1 Hh Hws Hrun) as (Hnd & Habs & m' & Hlk' & Hdom' & Hr & Hkeys).
    pose proof (insert_map_has_key _ _ _ _ k v Hlow Hfree) as Hins.
    cbn [fmap list_fmap fst snd]. split_and!.
    + constructor; [|done]. intros Hin. apply (Habs k Hin). apply Hins. by left.
    + intros k' Hk'. apply elem_of_cons in Hk' as [->|Hk'].
      * by eapply in_gap_absent.
      * intros Hm. apply (Habs k' Hk'). apply Hins. by right.
    + exists m'. split_and!; try done. intros k'. rewrite Hkeys, Hins, elem_of_cons. tauto.
Qed.

(** ** The prover's tree *)

(** The leaves of the vector, by position. *)
Definition positions (ls : list IndexedMerkleLeaf) : gmap Z IndexedMerkleLeaf := map_seqZ 0 ls.

Lemma positions_lookup ls i leaf :
  positions ls !! i = Some leaf <-> 0 <= i /\ ls !! Z.to_nat i = Some leaf.
Proof. unfold positions. rewrite lookup_map_seqZ_Some. by rewrite Z.sub_0_r. Qed.

Lemma positions_None ls i : 0 <= i -> positions ls !! i = None <-> (length ls <= Z.to_nat i)%nat.
Proof.
  intros Hi. rewrite <- lookup_ge_None. destruct (positions ls !! i) as [l|] eqn:Hl.
  - apply positions_lookup in Hl as [_ Hl]. by rewrite Hl.
  - split; [|done]. intros _. destruct (ls !! Z.to_nat i) as [l|] eqn:Hl'; [|done].
    assert (positions ls !! i = Some l) by (by apply positions_lookup). congruence.
Qed.

Lemma positions_insert ls (i : Z) leaf :
  0 <= i < Z.of_nat (length ls) -> positions (<[Z.to_nat i := leaf]> ls) = <[i := leaf]> (positions ls).
Proof.
  intros Hi. apply map_eq. intros j. apply option_eq. intros x. rewrite positions_lookup.
  destruct (decide (i = j)) as [->|Hne].
  - rewrite list_lookup_insert_eq, lookup_insert_eq by lia. naive_solver lia.
  - rewrite lookup_insert_ne, positions_lookup by done. split; intros [Hj Hx]; (split; [done|]).
    + by rewrite list_lookup_insert_ne in Hx by lia.
    + by rewrite list_lookup_insert_ne by lia.
Qed.

Lemma positions_snoc ls leaf :
  positions (ls ++ [leaf]) = <[Z.of_nat (length ls) := leaf]> (positions ls).
Proof.
  apply map_eq. intros j. apply option_eq. intros x. rewrite positions_lookup.
  destruct (decide (Z.of_nat (length ls) = j)) as [<-|Hne].
  - rewrite Nat2Z.id, lookup_insert_eq, list_lookup_middle by done. naive_solver lia.
  - rewrite lookup_insert_ne, positions_lookup by done. split; intros [Hj Hx]; (split; [done|]).
    + apply lookup_app_Some in Hx as [Hx|[Hlen Hx]]; [done|].
      apply list_lookup_singleton_Some in Hx as [Hx _]. lia.
    + by apply lookup_app_l_Some.
Qed.

Lemma list_leaves_positions ls i : 0 <= i -> list_leaves ls i = Sparse.map_leaves (positions ls) i.
Proof.
  intros Hi. unfold list_leaves, Sparse.map_leaves. do 2 f_equal.
  destruct (positions ls !! i) eqn:Hp.
  - by apply positions_lookup in Hp as [_ ->].
  - apply positions_None in Hp; [|done]. by apply lookup_ge_None.
Qed.

Definition indexed_inv (t : IndexedMerkleTree) : Prop :=
  Incremental.inv t /\ linked (positions (Incremental.leaves t)).

Lemma inv_root_of t {E} :
  Incremental.inv t ->
  Incremental.get_root (E := E) t = Ok (root_of (Incremental.height t) (positions (Incremental.leaves t))).
Proof.
  intros Hinv. rewrite Incremental.get_root_inv by done. f_equal.
  apply subtree_ext_nonneg; [|lia]. apply list_leaves_positions.
Qed.

Lemma inv_dom_ok t : Incremental.inv t -> dom_ok (Incremental.height t) (positions (Incremental.leaves t)).
Proof.
  intros (_ & _ & Hlen) j leaf Hj. apply positions_lookup in Hj as [Hj Hl].
  apply lookup_lt_Some in Hl. lia.
Qed.

Lemma default_linked : linked (positions [default_leaf]).
Proof.
  assert (forall j l, positions [default_leaf] !! j = Some l -> j = 0 /\ l = default_leaf) as H.
  { intros j l Hj. apply positions_lookup in Hj as [Hj Hl].
    apply list_lookup_singleton_Some in Hl as [? <-]. split; [lia|done]. }
  split.
  - by exists default_leaf.
  - intros i j l l' Hi Hj _. apply H in Hi as [-> _]. by apply H in Hj as [-> _].
  - intros i l Hi. apply H in Hi as [-> ->]. by exists default_leaf.
  - intros i l Hi. apply H in Hi as [-> ->]. by left.
  - intros i j l l' Hi Hj [Hg _]. apply H in Hi as [-> ->]. apply H in Hj as [-> ->]. lia.
Qed.

Lemma indexed_new_inv {E} h :
  (h < 64)%nat ->
  exists t, indexed_new (E := E) h = Ok t /\ indexed_inv t /\ Incremental.height t = h /\
    Incremental.leaves t = [default_leaf].
Proof.
  intros Hh. unfold indexed_new.
  destruct (Incremental.push_spec (E := E) (Incremental.new h) default_leaf) as (t & Ht & Hinv & Hht & Hl).
  - by apply Incremental.new_inv.
  - cbn. apply Z.pow_pos_nonneg; lia.
  - exists t. cbn in Hl. split_and!; try done. split; [done|]. rewrite Hl. apply default_linked.
Qed.

(** *** Candidates *)

Lemma candidates_In p ls i leaf :
  In (i, leaf) (candidates p ls) <-> ls !! i = Some leaf /\ p leaf = true.
Proof.
  unfold candidates. rewrite filter_In. cbn. rewrite <- list_elem_of_In, elem_of_lookup_imap.
  naive_solver.
Qed.

Lemma candidates_NoDup p ls : List.NoDup (candidates p ls).
Proof.
  apply List.NoDup_filter. apply NoDup_ListNoDup. apply NoDup_alt. intros i j [n x] Hi Hj.
  rewrite list_lookup_imap in Hi, Hj.
  apply fmap_Some in Hi as (? & _ & [= -> _]). by apply fmap_Some in Hj as (? & _ & [= -> _]).
Qed.

Lemma candidates_unique p ls :
  (forall i j x y, ls !! i = Some x -> ls !! j = Some y -> p x = true -> p y = true -> i = j) ->
  match candidates p ls with
  | [] => forall i x, ls !! i = Some x -> p x = false
  | [(i, x)] => ls !! i = Some x /\ p x = true
  | _ => False
  end.
Proof.
  intros Hu. pose proof (candidates_In p ls) as Hin. pose proof (candidates_NoDup p ls) as Hnd.
  destruct (candidates p ls) as [|[i x] [|[j y] rest]].
  - intros i x Hi. destruct (p x) eqn:Hp; [|done]. by destruct (proj2 (Hin i x)).
  - apply Hin. by left.
  - destruct (proj1 (Hin i x)) as [H1 H2]; [by left|].
    destruct (proj1 (Hin j y)) as [H3 H4]; [by right; left|].
    assert (i = j) as -> by (by eapply Hu). assert (x = y) as -> by congruence.
    inversion Hnd as [|? ? Hni _]. apply Hni. by left.
Qed.

(** Following the links from the sentinel reaches the gap of an absent key. *)
Lemma low_leaf_exists m k :
  linked m -> ~ has_key m k -> exists i leaf, m !! i = Some leaf /\ in_gap leaf k.
Proof.
  intros Hlk Habs. destruct (lk_sentinel m Hlk) as (s & Hs & Hs0).
  assert (val (key s) < val k) as Hlt.
  { rewrite Hs0, val_u256_zero. pose proof (val_bound k). destruct (Z.eq_dec (val k) 0) as [He|]; [|lia].
    exfalso. apply Habs. exists 0, s. split; [done|]. apply val_inj. by rewrite He, Hs0. }
  clear Hs0. revert Hs Hlt. generalize 0 as i.
  remember (val k - val (key s)) as d eqn:Hd. revert s Hd.
  induction d as [d IH] using (well_founded_induction (Z.lt_wf 0)). intros s Hd i Hs Hlt.
  destruct (lk_next m Hlk i s Hs) as (l' & Hl' & Hk').
  destruct (lk_order m Hlk i s Hs) as [Hz|Ho]; [exists i, s; split; [done|]; split; [done|by right]|].
  destruct (Z.lt_trichotomy (val k) (val (next_key s))) as [H|[H|H]].
  - exists i, s. split; [done|]. split; [done|by left].
  - exfalso. apply Habs. exists (next_index s), l'. split; [done|]. rewrite Hk'. by apply val_inj.
  - apply (IH (val k - val (key l'))) with (s := l') (i := next_index s); try done; rewrite Hk'; lia.
Qed.

Lemma in_gap_unique m i j l l' k :
  linked m -> m !! i = Some l -> m !! j = Some l' -> in_gap l k -> in_gap l' k -> i = j.
Proof.
  intros Hlk Hi Hj Hg Hg'. destruct (decide (j = i)) as [->|Hne]; [done|].
  exfalso. by apply (other_gap m i l k Hlk Hi Hg j l').
Qed.

Lemma low_index_spec t k :
  indexed_inv t ->
  match low_index t k with
  | Ok i => exists leaf, positions (Incremental.leaves t) !! i = Some leaf /\ in_gap leaf k /\
              Incremental.get_leaf t i = leaf
  | Err KeyAlreadyExists => has_key (positions (Incremental.leaves t)) k
  | _ => False
  end.
Proof.
  intros [_ Hlk]. unfold low_index.
  pose proof (candidates_unique (fun leaf => is_low_leaf leaf k) (Incremental.leaves t)) as Hc.
  assert (forall i x, Incremental.leaves t !! i = Some x ->
            positions (Incremental.leaves t) !! Z.of_nat i = Some x) as Hpos.
  { intros i x Hi. apply positions_lookup. rewrite Nat2Z.id. split; [lia|done]. }
  destruct (candidates _ _) as [|[i x] [|]].
  - destruct (decide (Exists (fun l => key l = k) (Incremental.leaves t))) as [Hex|Hne].
    + apply list.Exists_exists in Hex as (l & Hl & Hk). apply list_elem_of_lookup in Hl as [i Hi].
      exists (Z.of_nat i), l. split; [by apply Hpos|done].
    + exfalso. destruct (low_leaf_exists _ k Hlk) as (i & l & Hi & Hg).
      * intros (i & l & Hi & Hk). apply Hne. apply list.Exists_exists. exists l. split; [|done].
        apply positions_lookup in Hi as [_ Hi]. apply list_elem_of_lookup. by eexists.
      * apply positions_lookup in Hi as [_ Hi]. apply is_low_leaf_spec in Hg.
        assert (is_low_leaf l k = false) as Hf; [|congruence].
        apply (Hc) with (i := Z.to_nat i); [|done].
        intros a b y z Ha Hb Hy Hz. apply is_low_leaf_spec in Hy, Hz.
        apply Hpos in Ha, Hb. pose proof (in_gap_unique _ _ _ _ _ k Hlk Ha Hb Hy Hz). lia.
  - destruct Hc as [Hi Hx].
    { intros a b y z Ha Hb Hy Hz. apply is_low_leaf_spec in Hy, Hz.
      apply Hpos in Ha, Hb. pose proof (in_gap_unique _ _ _ _ _ k Hlk Ha Hb Hy Hz). lia. }
    exists x. split; [by apply Hpos|]. split; [by apply is_low_leaf_spec|].
    unfold Incremental.get_leaf. by rewrite Nat2Z.id, Hi.
  - apply Hc. intros a b y z Ha Hb Hy Hz. apply is_low_leaf_spec in Hy, Hz.
    apply Hpos in Ha, Hb. pose proof (in_gap_unique _ _ _ _ _ k Hlk Ha Hb Hy Hz). lia.
Qed.

(** The leaf store after an insertion, by position. *)
Lemma positions_insert_map ls low prev k v :
  positions ls !! low = Some prev ->
  positions (<[Z.to_nat low := new_low_leaf prev (Z.of_nat (length ls)) k]> ls ++ [new_leaf prev k v]) =
  insert_map (positions ls) low (Z.of_nat (length ls)) prev k v.
Proof.
  intros Hlow. apply positions_lookup in Hlow as [H0 Hl]. apply lookup_lt_Some in Hl.
  rewrite positions_snoc, length_insert, positions_insert by lia. done.
Qed.

Lemma positions_free ls : positions ls !! Z.of_nat (length ls) = None.
Proof. apply positions_None; [lia|]. by rewrite Nat2Z.id. Qed.

(** [insert] decides membership: an absent key is linked in, a present key is refused, and only a
    full tree makes it panic. *)
Lemma insert_spec t k v :
  indexed_inv t ->
  match insert t k v with
  | Ok t' =>
      ~ has_key (positions (Incremental.leaves t)) k /\ indexed_inv t' /\
      Incremental.height t' = Incremental.height t /\
      exists low prev, positions (Incremental.leaves t) !! low = Some prev /\ in_gap prev k /\
        low_index t k = Ok low /\ Incremental.get_leaf t low = prev /\
        Incremental.leaves t' =
          <[Z.to_nat low := new_low_leaf prev (Z.of_nat (length (Incremental.leaves t))) k]>
            (Incremental.leaves t) ++ [new_leaf prev k v]
  | Err KeyAlreadyExists => has_key (positions (Incremental.leaves t)) k
  | Err _ => False
  | Panic => ~ has_key (positions (Incremental.leaves t)) k /\
      Z.of_nat (length (Incremental.leaves t)) = 2 ^ Z.of_nat (Incremental.height t)
  end.
Proof.
  intros Hinv. pose proof (low_index_spec t k Hinv) as Hlow. destruct Hinv as [Hinv Hlk].
  unfold insert. destruct (low_index t k) as [low|[]|] eqn:Hli; try done. cbn [mbind res_bind].
  destruct Hlow as (prev & Hpos & Hgap & Hget). rewrite Hget.
  pose proof (in_gap_absent _ _ _ _ Hlk Hpos Hgap) as Habs.
  pose proof Hpos as Hpos'. apply positions_lookup in Hpos' as [H0 Hl]. apply lookup_lt_Some in Hl.
  edestruct (Incremental.update_spec (E := IndexedMerkleTreeError) t low) as (t1 & -> & Hinv1 & Hh1 & Hl1);
    [done|split; [done|]; lia|].
  cbn [mbind res_bind].
  destruct (decide (Z.of_nat (length (Incremental.leaves t)) < 2 ^ Z.of_nat (Incremental.height t))) as [Hlt|Hge].
  - destruct (Incremental.push_spec (E := IndexedMerkleTreeError) t1 (new_leaf prev k v))
      as (t2 & -> & Hinv2 & Hh2 & Hl2); [done|by rewrite Hh1, Hl1, length_insert|].
    rewrite Hl1 in Hl2. split_and!; try done; [|congruence|by exists low, prev].
    split; [done|]. rewrite Hl2, positions_insert_map by done.
    apply linked_insert_map; try done. apply positions_free.
  - assert (Z.of_nat (length (Incremental.leaves t)) = 2 ^ Z.of_nat (Incremental.height t)) as Heq.
    { destruct Hinv as (_ & _ & ?). lia. }
    rewrite Incremental.push_full; [done|done|]. by rewrite Hh1, Hl1, length_insert.
Qed.

(** *** Completeness of the prover *)

(** [prove_and_insert] makes the same tree as [insert]. *)
Lemma prove_and_insert_Ok t k v t' p :
  indexed_inv t -> prove_and_insert t k v = Ok (t', p) ->
  insert t k v = Ok t' /\
  exists low prev, positions (Incremental.leaves t) !! low = Some prev /\ in_gap prev k /\
    p = mkInsertionProof (Z.of_nat (length (Incremental.leaves t)))
          (mkMerkleProof (sibling_path (list_leaves (Incremental.leaves t)) 0 (Incremental.height t) low))
          (mkMerkleProof (sibling_path (list_leaves (Incremental.leaves t')) 0 (Incremental.height t)
             (Z.of_nat (length (Incremental.leaves t))))) low prev /\
    Incremental.leaves t' =
      <[Z.to_nat low := new_low_leaf prev (Z.of_nat (length (Incremental.leaves t))) k]>
        (Incremental.leaves t) ++ [new_leaf prev k v] /\
    Z.of_nat (length (Incremental.leaves t)) < 2 ^ Z.of_nat (Incremental.height t).
Proof.
  intros Hinv Hp. pose proof (insert_spec t k v Hinv) as Hins.
  pose proof (low_index_spec t k Hinv) as Hlow. destruct Hinv as [Hinv Hlk].
  unfold prove_and_insert in Hp. unfold insert in *.
  destruct (low_index t k) as [low|e|] eqn:Hli; [|done|done]. cbn [mbind res_bind] in *.
  destruct Hlow as (prev & Hpos & Hgap & Hget). rewrite Hget in *.
  pose proof (inv_dom_ok t Hinv _ _ Hpos) as Hdom.
  rewrite Incremental.prove_inv in Hp by done. cbn [mbind res_bind] in Hp.
  apply bind_Ok in Hp as (t1 & Ht1 & Hp). rewrite Ht1 in *. cbn [mbind res_bind] in *.
  apply bind_Ok in Hp as (t2 & Ht2 & Hp). rewrite Ht2 in *.
  destruct Hins as (_ & [Hinv2 _] & Hh2 & low' & prev' & Hpos' & _ & [= <-] & Hget' & Hl2).
  assert (prev' = prev) as -> by congruence.
  assert (Z.of_nat (length (Incremental.leaves t)) < 2 ^ Z.of_nat (Incremental.height t)) as Hlt.
  { destruct Hinv2 as (_ & _ & Hlen). rewrite Hl2, length_app, length_insert, Hh2 in Hlen. cbn in Hlen. lia. }
  rewrite Incremental.prove_inv in Hp by (try done; rewrite Hh2; lia). rewrite Hh2 in Hp.
  cbn [mbind res_bind] in Hp. apply Ok_inj in Hp. injection Hp as <- <-.
  split; [done|]. exists low, prev. by split_and!.
Qed.

(** [prove_and_insert] fails exactly when [insert] does. *)
Lemma prove_and_insert_follows t k v :
  indexed_inv t ->
  match insert t k v with
  | Ok t' => exists p, prove_and_insert t k v = Ok (t', p)
  | Err e => prove_and_insert t k v = Err e
  | Panic => prove_and_insert t k v = Panic
  end.
Proof.
  intros Hinv. pose proof (insert_spec t k v Hinv) as Hins.
  pose proof (low_index_spec t k Hinv) as Hlow. destruct Hinv as [Hinv Hlk].
  unfold prove_and_insert. unfold insert in *.
  destruct (low_index t k) as [low|e|] eqn:Hli; [|done|done]. cbn [mbind res_bind] in *.
  destruct Hlow as (prev & Hpos & Hgap & Hget). rewrite Hget in *.
  pose proof (inv_dom_ok t Hinv _ _ Hpos) as Hdom.
  rewrite Incremental.prove_inv by done. cbn [mbind res_bind].
  destruct (Incremental.update _ _ _) as [t1|e|]; [|done|done]. cbn [mbind res_bind] in *.
  destruct (Incremental.push _ _) as [t2|e|]; [|done|done]. cbn [mbind res_bind].
  destruct Hins as (_ & [Hinv2 _] & Hh2 & low' & prev' & _ & _ & _ & _ & Hl2).
  rewrite Incremental.prove_inv; [eexists; reflexivity|done|].
  destruct Hinv2 as (_ & _ & Hlen). rewrite Hl2, length_app, length_insert in Hlen. cbn in Hlen. lia.
Qed.

(** Agreement of the leaf hashes of the updated vector with the point updates of the verifier. *)
Lemma list_leaves_insert_low ls low leaf j :
  0 <= low < Z.of_nat (length ls) -> 0 <= j ->
  list_leaves (<[Z.to_nat low := leaf]> ls) j = (<[low := leaf_hash leaf]> (list_leaves ls)) j.
Proof. intros Hl Hj. symmetry. apply Incremental.list_leaves_update; lia. Qed.

Lemma siblings_root f h i x :
  0 <= i < 2 ^ Z.of_nat h -> f i = x -> path_root (sibling_path f 0 h i) i x = subtree f h 0.
Proof.
  intros Hi <-. pose proof (path_root_sibling_path f 0 h i) as Hp. cbn [subtree Nat.add] in Hp.
  rewrite Hp by lia. by rewrite div_pow_small.
Qed.

Lemma proof_verify_siblings f h i leaf :
  (h < 64)%nat -> 0 <= i < 2 ^ Z.of_nat h -> f i = leaf_hash leaf ->
  proof_verify (V := IndexedMerkleLeaf) (mkMerkleProof (sibling_path f 0 h i)) leaf i (subtree f h 0) = Ok tt.
Proof.
  intros Hh Hi Hf. apply proof_verify_Ok. unfold proof_height. cbn [siblings].
  rewrite sibling_path_length. split.
  - apply index_in_domain_spec; [|done]. by apply (Incremental.in_width_64_small h).
  - by apply siblings_root.
Qed.

Lemma prove_and_insert_verifies t k v t' p r r' :
  indexed_inv t -> prove_and_insert t k v = Ok (t', p) ->
  Incremental.get_root (E := IndexedMerkleTreeError) t = Ok r ->
  Incremental.get_root (E := IndexedMerkleTreeError) t' = Ok r' ->
  insertion_verify p k v r r' = Ok tt.
Proof.
  intros Hinv Hp Hr Hr'. pose proof (prove_and_insert_Ok t k v t' p Hinv Hp)
    as (Hins & low & prev & Hpos & Hgap & -> & Hl' & Hlt).
  pose proof (insert_spec t k v Hinv) as Hspec. rewrite Hins in Hspec.
  destruct Hspec as (_ & [Hinv' _] & Hh' & _). destruct Hinv as [Hinv Hlk].
  set (n := Z.of_nat (length (Incremental.leaves t))) in *.
  set (f := list_leaves (Incremental.leaves t)) in *. set (h := Incremental.height t) in *.
  assert ((h < 64)%nat) as Hh by apply Hinv.
  pose proof (inv_dom_ok t Hinv _ _ Hpos) as Hdl. fold h in Hdl.
  apply positions_lookup in Hpos as [Hl0 Hll]. pose proof (lookup_lt_Some _ _ _ Hll) as Hlen.
  rewrite Incremental.get_root_inv in Hr, Hr' by done. rewrite Hh' in Hr'.
  apply Ok_inj in Hr, Hr'. subst r r'. fold f h.
  set (f1 := <[low := leaf_hash (new_low_leaf prev n k)]> f).
  assert (forall j, 0 <= j -> list_leaves (Incremental.leaves t') j =
            (<[n := leaf_hash (new_leaf prev k v)]> f1) j) as Hf2.
  { intros j Hj. rewrite Hl'. rewrite <- Incremental.list_leaves_push by done. rewrite length_insert. fold n.
    destruct (decide (n = j)) as [->|Hne]; [by rewrite !fn_lookup_insert|].
    rewrite !fn_lookup_insert_ne by done. apply list_leaves_insert_low; [lia|done]. }
  destruct Hgap as [G1 G2]. unfold insertion_verify, get_new_root.
  cbn [ip_index low_leaf_proof leaf_proof low_leaf_index prev_low_leaf].
  rewrite U256_theorems.leb_val, U256_theorems.ltb_val, (proj2 (Z.leb_gt _ _)) by done.
  cbn [negb ensure mbind res_bind].
  assert ((val k <? val (next_key prev)) || bool_decide (next_key prev = u256_zero) = true) as ->.
  { rewrite orb_true_iff, Z.ltb_lt, bool_decide_eq_true. done. }
  cbn [negb ensure mbind res_bind].
  rewrite proof_verify_siblings; [|done|done|].
  2:{ unfold f, list_leaves. by rewrite Hll. }
  cbn [map_err mbind res_bind]. rewrite !proof_get_root_eq. cbn [siblings mbind res_bind].
  rewrite (path_root_update f h low) by done. fold f1.
  rewrite (sibling_path_ext_nonneg _ _ 0 h n Hf2) by lia.
  rewrite sibling_path_insert by (cbn; by rewrite Z.div_1_r).
  rewrite proof_verify_siblings; [|done|lia|].
  2:{ unfold f1. rewrite fn_lookup_insert_ne by lia. unfold f, list_leaves, n. rewrite Nat2Z.id.
      by rewrite (proj2 (lookup_ge_None _ _)) by lia. }
  cbn [map_err mbind res_bind]. rewrite path_root_update by lia.
  rewrite bool_decide_eq_true_2; [done|]. apply subtree_ext_nonneg; [done|lia].
Qed.

(** [update] rewrites the value of a present key and refuses an absent one. *)
Lemma index_spec {E} t k :
  indexed_inv t ->
  match index (E := E) t k with
  | Ok (Some i) => exists leaf, positions (Incremental.leaves t) !! i = Some leaf /\ key leaf = k /\
                     Incremental.get_leaf t i = leaf
  | Ok None => ~ has_key (positions (Incremental.leaves t)) k
  | _ => False
  end.
Proof.
  intros [_ Hlk]. unfold index.
  pose proof (candidates_unique (fun leaf => bool_decide (key leaf = k)) (Incremental.leaves t)) as Hc.
  assert (forall i x, Incremental.leaves t !! i = Some x ->
            positions (Incremental.leaves t) !! Z.of_nat i = Some x) as Hpos.
  { intros i x Hi. apply positions_lookup. rewrite Nat2Z.id. split; [lia|done]. }
  match type of Hc with ?A -> _ => assert A as HA end.
  { intros i j x y Hi Hj Hx Hy. simplify_bool. apply Hpos in Hi, Hj.
    pose proof (lk_unique _ Hlk _ _ _ _ Hi Hj ltac:(congruence)). lia. }
  specialize (Hc HA). destruct (candidates _ _) as [|[i x] [|]]; [| |done].
  - intros (i & leaf & Hi & Hk). apply positions_lookup in Hi as [_ Hi]. apply Hc in Hi.
    apply bool_decide_eq_false in Hi. done.
  - destruct Hc as [Hi Hx]. apply bool_decide_eq_true in Hx. exists x. split; [by apply Hpos|].
    split; [done|]. unfold Incremental.get_leaf. by rewrite Nat2Z.id, Hi.
Qed.

End indexed.
