(* ===== verification/Keccak.v ===== *)
(** * Keccak digests over 32-bit word streams

    Models the digest helpers of [src/src/common/channel.rs]: [hash_words],
    [split_u64] and [bytes_to_u32_words].  Keccak-256 is plonky2_keccak's
    [solidity_keccak256]: a parameter of type [list Z -> [u32; 8]].  Every
    signed message of the channel layer is [hash_words] of a word list, so the
    shared lemmas here are about those lists: concatenations of fixed-width
    fields are injective, and a byte string after its length word is. *)

From S2P Require Import Prelude Limbs.

Class Keccak := {
  solidity_keccak256 : list Z -> Bytes32;
}.

Definition hash_words {K : Keccak} (words : list Z) : Bytes32 := solidity_keccak256 words.

(** Two word lists that exhibit a Keccak collision. *)
Definition keccak_collision {K : Keccak} (a b : list Z) : Prop :=
  a <> b /\ hash_words a = hash_words b.

(** [Bytes32::default()], [Address::default()]. *)
Definition bytes32_default : Bytes32 := mkLimbs (n := BYTES32_LEN) (replicate 8 0) eq_refl.
Definition address_default : Address := mkLimbs (n := ADDRESS_LEN) (replicate 5 0) eq_refl.

Definition split_u64 (value : Z) : list Z := [wrap 32 (Z.shiftr value 32); wrap 32 value].

(** One chunk of at most four bytes, zero-padded on the right. *)
Definition padded_word (chunk : list Z) : Z :=
  from_be_bytes (chunk ++ replicate (4 - length chunk) 0).

Definition bytes_to_u32_words (bytes : list Z) : list Z := padded_word <$> chunks 4 bytes.

(** ** Injectivity *)

Section keccak_lemmas.
Context {K : Keccak}.

Lemma hash_words_inj_or a b : hash_words a = hash_words b -> a = b \/ keccak_collision a b.
Proof. intros H. destruct (decide (a = b)); [by left | right; by split]. Qed.

Lemma limbs_app_inj {n} (x y : Limbs n) l k :
  to_u32_vec x ++ l = to_u32_vec y ++ k -> x = y /\ l = k.
Proof.
  intros H. apply app_inj_1 in H as [Hx ?]; [|unfold to_u32_vec; by rewrite !limbs_length].
  split; [by apply Limbs_eq | done].
Qed.

Lemma split_u64_app_inj x y l k :
  in_width 64 x -> in_width 64 y ->
  split_u64 x ++ l = split_u64 y ++ k -> x = y /\ l = k.
Proof.
  unfold split_u64, in_width, wrap. cbn. intros Hx Hy [= H1 H2 ->]. split; [|done].
  rewrite !Z.shiftr_div_pow2 in H1 by lia.
  rewrite !(Z.mod_small (_ / _)) in H1
    by (split; [apply Z.div_pos; lia | apply Z.div_lt_upper_bound; lia]).
  rewrite (Z.div_mod x (2 ^ 32)), (Z.div_mod y (2 ^ 32)) by lia. lia.
Qed.

Lemma concat_fixed_inj {A} (n : nat) (l k : list (list A)) :
  length l = length k -> Forall (fun x => length x = n) l -> Forall (fun x => length x = n) k ->
  concat l = concat k -> l = k.
Proof.
  revert k. induction l as [|x l IH]; intros [|y k] Hlen Hl Hk H; try done.
  apply Forall_cons_iff in Hl as [? ?], Hk as [? ?]. cbn in *.
  apply app_inj_1 in H as [-> H]; [|lia]. f_equal. apply IH; [lia | done..].
Qed.

(** A fixed number of limb values written one after the other. *)
Lemma limbs_list_app_inj {n} (xs ys : list (Limbs n)) l k :
  length xs = length ys ->
  (xs ≫= to_u32_vec) ++ l = (ys ≫= to_u32_vec) ++ k -> xs = ys /\ l = k.
Proof.
  revert ys. induction xs as [|x xs IH]; intros [|y ys] Hlen H; try done.
  cbn in H. rewrite <- !(assoc_L (++)) in H. apply limbs_app_inj in H as [-> H].
  cbn in Hlen. apply IH in H as [-> ->]; [done | lia].
Qed.

Lemma from_be_bytes_4_inj (x y : list Z) :
  length x = 4%nat -> length y = 4%nat ->
  Forall (in_width 8) x -> Forall (in_width 8) y ->
  from_be_bytes x = from_be_bytes y -> x = y.
Proof.
  destruct x as [|x0 [|x1 [|x2 [|x3 []]]]]; try done.
  destruct y as [|y0 [|y1 [|y2 [|y3 []]]]]; try done. intros _ _ Hx Hy.
  rewrite !Forall_cons_iff in Hx, Hy. destruct_and!. unfold from_be_bytes. cbn [foldl].
  rewrite !lor_shiftl_add by (done || lia). unfold in_width in *. intros Heq.
  repeat f_equal; lia.
Qed.

Lemma padded_word_inj (x y : list Z) :
  length x = length y -> (length x <= 4)%nat ->
  Forall (in_width 8) x -> Forall (in_width 8) y ->
  padded_word x = padded_word y -> x = y.
Proof.
  intros Hlen Hle Hx Hy H. unfold padded_word in H.
  apply from_be_bytes_4_inj in H; rewrite ?length_app, ?length_replicate; try lia.
  - by apply app_inj_1 in H as [? _].
  - apply Forall_app_2; [done|]. by apply Forall_replicate.
  - apply Forall_app_2; [done|]. by apply Forall_replicate.
Qed.

Lemma chunk_words_fuel_inj fuel (x y : list Z) :
  length x = length y -> (length x <= fuel)%nat ->
  Forall (in_width 8) x -> Forall (in_width 8) y ->
  padded_word <$> chunks_fuel fuel 4 x = padded_word <$> chunks_fuel fuel 4 y -> x = y.
Proof.
  revert x y. induction fuel as [|fuel IH]; intros x y Hlen Hf Hx Hy H.
  - destruct x, y; cbn in *; try done; lia.
  - destruct x as [|a x]; [by destruct y|]. destruct y as [|b y]; [done|].
    cbn [chunks_fuel] in H. rewrite !fmap_cons in H. injection H as H1 H2.
    rewrite <- (take_drop 4 (a :: x)), <- (take_drop 4 (b :: y)). f_equal.
    + apply padded_word_inj; rewrite ?length_take; try lia; [by apply Forall_take..|done].
    + apply IH; rewrite ?length_drop; try (cbn in *; lia); [by apply Forall_drop..|done].
Qed.

Lemma bytes_to_u32_words_inj (x y : list Z) :
  length x = length y -> Forall (in_width 8) x -> Forall (in_width 8) y ->
  bytes_to_u32_words x = bytes_to_u32_words y -> x = y.
Proof.
  intros Hlen Hx Hy H. unfold bytes_to_u32_words, chunks in H. rewrite <- Hlen in H.
  by apply (chunk_words_fuel_inj (length x)).
Qed.

Lemma length_chunks_fuel {A} fuel (x y : list A) :
  length x = length y -> length (chunks_fuel fuel 4 x) = length (chunks_fuel fuel 4 y).
Proof.
  revert x y. induction fuel as [|fuel IH]; intros x y Hlen; [done|].
  destruct x as [|a x], y as [|b y]; try done. cbn [chunks_fuel length]. f_equal.
  apply IH. rewrite !length_drop. lia.
Qed.

(** The [length word ++ packed bytes] field that ends several signed messages. *)
Lemma bytes_field_app_inj (x y : list Z) l k :
  in_width 32 (Z.of_nat (length x)) -> in_width 32 (Z.of_nat (length y)) ->
  Forall (in_width 8) x -> Forall (in_width 8) y ->
  wrap 32 (Z.of_nat (length x)) :: bytes_to_u32_words x ++ l =
  wrap 32 (Z.of_nat (length y)) :: bytes_to_u32_words y ++ k ->
  x = y /\ l = k.
Proof.
  intros Hwx Hwy Hx Hy [= Hlen H]. rewrite !wrap_id in Hlen by done.
  apply Nat2Z.inj in Hlen. apply app_inj_1 in H as [H ->].
  - split; [|done]. by apply bytes_to_u32_words_inj.
  - unfold bytes_to_u32_words, chunks. rewrite !length_fmap, Hlen. by apply length_chunks_fuel.
Qed.
End keccak_lemmas.

Lemma word_app_inj (x y : Z) l k : [x] ++ l = [y] ++ k -> x = y /\ l = k.
Proof. by intros [= -> ->]. Qed.

(** Opens an equality of two concatenated preimages, field by field. *)
Ltac split_preimage H :=
  repeat lazymatch type of H with
  | (to_u32_vec _ ++ _) = _ => apply limbs_app_inj in H as [? H]
  | (split_u64 _ ++ _) = _ => apply split_u64_app_inj in H as [? H]; [|done|done]
  | (_ ++ _) = _ => apply word_app_inj in H as [? H]
  end.

(** ** Hash chains

    A chain folds each element with the hash so far.  [chain_inputs] are the
    word lists that computing it hashes. *)

(** Two different queries, one of each list, with the same image. *)
Definition collision {A} (h : list Z -> A) (q q' : list (list Z)) : Prop :=
  exists x y, x ∈ q /\ y ∈ q' /\ x <> y /\ h x = h y.

Lemma collision_mono {A} (h : list Z -> A) q1 q2 q1' q2' :
  (forall x, x ∈ q1 -> x ∈ q2) -> (forall x, x ∈ q1' -> x ∈ q2') -> collision h q1 q1' -> collision h q2 q2'.
Proof. intros H H' (x & y & ? & ? & ?). exists x, y. auto. Qed.

Section chains.
Context {K : Keccak} {A : Type} (step : A -> Bytes32 -> list Z).

Definition hash_chain (l : list A) (start : Bytes32) : Bytes32 := foldl (fun h a => hash_words (step a h)) start l.

Fixpoint chain_inputs (l : list A) (start : Bytes32) : list (list Z) :=
  match l with
  | [] => []
  | a :: l' => step a start :: chain_inputs l' (hash_words (step a start))
  end.

Lemma chain_inputs_app l k h : chain_inputs (l ++ k) h = chain_inputs l h ++ chain_inputs k (hash_chain l h).
Proof. revert h. induction l as [|a l IH]; intros h; [done|]. cbn. by rewrite IH. Qed.

Lemma chain_inputs_take n l h x : x ∈ chain_inputs (take n l) h -> x ∈ chain_inputs l h.
Proof. rewrite <- (take_drop n l) at 2. rewrite chain_inputs_app, elem_of_app. auto. Qed.

(** A collision between the inputs of two chains, or an input that hashes to the zero start value. *)
Definition chain_broken (q q' : list (list Z)) : Prop :=
  collision hash_words q q' \/ exists w, (w ∈ q \/ w ∈ q') /\ hash_words w = bytes32_default.

Lemma chain_broken_mono q1 q2 q1' q2' :
  (forall x, x ∈ q1 -> x ∈ q2) -> (forall x, x ∈ q1' -> x ∈ q2') -> chain_broken q1 q1' -> chain_broken q2 q2'.
Proof.
  intros H H' [Hc|(w & Hw & Hh)]; [left; by eapply collision_mono|]. right. exists w. split; [|done]. destruct Hw; auto.
Qed.

(** Equal chains have related elements, or are broken. *)
Lemma hash_chain_binding (wf : A -> Prop) (R : A -> A -> Prop) l k :
  (forall a b h h', wf a -> wf b -> step a h = step b h' -> R a b /\ h = h') -> Forall wf l -> Forall wf k ->
  hash_chain l bytes32_default = hash_chain k bytes32_default ->
  Forall2 R l k \/ chain_broken (chain_inputs l bytes32_default) (chain_inputs k bytes32_default).
Proof.
  intros Hinj. revert k. induction l as [|a l IH] using rev_ind; intros k Hl Hk H; destruct k as [|b k _] using rev_ind;
    unfold hash_chain in H; rewrite ?foldl_app in H; cbn [foldl] in H;
    repeat match type of H with context [foldl _ bytes32_default ?x] => fold (hash_chain x bytes32_default) in H end.
  - left. constructor.
  - right. right. eexists. split; [right|symmetry; exact H]. rewrite chain_inputs_app. apply elem_of_app. right. left.
  - right. right. eexists. split; [left|exact H]. rewrite chain_inputs_app. apply elem_of_app. right. left.
  - apply Forall_app in Hl as [Hl [Ha _]%Forall_cons_iff], Hk as [Hk [Hb _]%Forall_cons_iff].
    rewrite !chain_inputs_app. destruct (decide (step a (hash_chain l bytes32_default) = step b (hash_chain k bytes32_default))) as [Hs|Hne].
    + apply Hinj in Hs as [HR Hh]; [|done|done]. apply IH in Hh as [Hh|Hh]; [|right|done|done].
      * left. apply Forall2_app; [done|by constructor].
      * eapply chain_broken_mono; [| |exact Hh]; intros x Hx; apply elem_of_app; by left.
    + right. left. eexists _, _. split_and!; [| |exact Hne|exact H]; apply elem_of_app; right; left.
Qed.

End chains.
