(* ===== verification/Regev.v ===== *)
(** * Regev ciphertexts, keys and homomorphic addition

    Models [src/src/regev/params.rs], [encrypt.rs] and [keys.rs]: the
    canonicality checks, the digests that commit ciphertexts and keys, the
    screens against key-independent ciphertexts and degenerate keys, the
    coefficient-wise addition and the decoding of decrypted digits.  The ring
    operations themselves (key generation, encryption, raw decryption) are the
    vendored [regev_plonky3] crate; of these only raw decryption is called by the
    modelled code, as the parameter [regev_decrypt]. *)

From S2P Require Import Prelude Limbs Keccak MerkleTree Poseidon.

Definition REGEV_N : nat := 2048.
Definition REGEV_PLAIN_BITS : Z := 8.
Definition REGEV_Q : Z := 2013265921.
Definition MAX_HOMO_ADDS_BEFORE_REFRESH : Z := 64.
Definition DEGENERATE_SMALL_BOUND : Z := Z.shiftl 1 20.

Lemma REGEV_N_pos : (0 < REGEV_N)%nat.
Proof. apply Nat.lt_0_succ. Qed.

#[global] Arguments REGEV_N : simpl never.
#[global] Opaque REGEV_N.

Definition REGEV_CT_DOMAIN : Z := 0x494d5243.
Definition REGEV_PK_DOMAIN : Z := 0x494d524b.
Definition REGEV_PK_ROOT_DOMAIN : Z := 0x494d5252.
Definition REGEV_PK_POSEIDON_DOMAIN : Z := 0x494d5250.

(** The variants of [RegevError]; the messages are not modelled. *)
Inductive RegevError :=
| InvalidPk
| InvalidSk
| InvalidCiphertext
| DecryptOverflow
| InvalidWitness
| ProofCodec
| ProofVerification
| PurposeMismatch.

Record RegevCiphertext := mkCt { c1 : list Z; c2 : list Z }.
Record RegevPk := mkPk { pk_a : list Z; pk_b : list Z }.
Record RegevSk := mkSk { sk_s : list Z }.

#[export] Instance RegevCiphertext_eq_dec : EqDecision RegevCiphertext.
Proof. solve_decision. Defined.
#[export] Instance RegevPk_eq_dec : EqDecision RegevPk.
Proof. solve_decision. Defined.

(** Two polynomials of [REGEV_N] coefficients, all below [REGEV_Q]. *)
Definition validate_polys (e : RegevError) (p q : list Z) : res RegevError unit :=
  if bool_decide (length p <> REGEV_N) || bool_decide (length q <> REGEV_N) then Err e
  else match list_find (fun c => REGEV_Q <= c) (p ++ q) with
  | Some _ => Err e
  | None => Ok tt
  end.

(** [small]: the centred coefficient lies within the degenerate bound. *)
Definition small (c : Z) : bool :=
  (c <=? DEGENERATE_SMALL_BOUND) || (REGEV_Q - c <=? DEGENERATE_SMALL_BOUND).

Module Ct.

Definition padding : RegevCiphertext := mkCt (replicate REGEV_N 0) (replicate REGEV_N 0).

Definition validate (ct : RegevCiphertext) : res RegevError unit :=
  validate_polys InvalidCiphertext (c1 ct) (c2 ct).

Definition reject_key_independent (ct : RegevCiphertext) : res RegevError unit :=
  _ ← validate ct;
  if forallb small (c1 ct) then Err InvalidCiphertext else Ok tt.

Definition validate_balance_exit_shape (ct : RegevCiphertext) : res RegevError unit :=
  _ ← validate ct;
  if forallb (fun c => c =? 0) (c1 ct) && existsb (fun c => negb (c =? 0)) (c2 ct)
  then Err InvalidCiphertext else Ok tt.

Definition digest_words (ct : RegevCiphertext) : list Z :=
  [REGEV_CT_DOMAIN; wrap 32 (Z.of_nat (length (c1 ct)))] ++ c1 ct ++ c2 ct.

Definition digest {K : Keccak} {E} (ct : RegevCiphertext) : res E Bytes32 :=
  _ ← assert_that (is_ok (validate ct));
  Ok (hash_words (digest_words ct)).

End Ct.

Module Pk.

Definition padding : RegevPk := mkPk (replicate REGEV_N 0) (replicate REGEV_N 0).

Definition validate (pk : RegevPk) : res RegevError unit :=
  validate_polys InvalidPk (pk_a pk) (pk_b pk).

Definition nonzero_count (poly : list Z) : nat := length (filter (fun c => c <> 0) poly).

(** One of the two polynomials of [reject_degenerate]'s loop. *)
Definition reject_degenerate_poly (poly : list Z) : res RegevError unit :=
  if bool_decide (nonzero_count poly <= 1)%nat then Err InvalidPk
  else if forallb (fun c => c =? nth 0 poly 0) poly then Err InvalidPk
  else if forallb small poly then Err InvalidPk
  else Ok tt.

Definition reject_degenerate (pk : RegevPk) : res RegevError unit :=
  _ ← validate pk;
  res_forall reject_degenerate_poly [pk_a pk; pk_b pk].

Definition digest_words (pk : RegevPk) : list Z :=
  [REGEV_PK_DOMAIN; wrap 32 (Z.of_nat REGEV_N)] ++ pk_a pk ++ pk_b pk.

Definition digest {K : Keccak} {E} (pk : RegevPk) : res E Bytes32 :=
  _ ← assert_that (is_ok (validate pk));
  Ok (hash_words (digest_words pk)).

Definition poseidon_inputs (pk : RegevPk) : list Z :=
  [REGEV_PK_POSEIDON_DOMAIN; Z.of_nat REGEV_N] ++ pk_a pk ++ pk_b pk.

Definition poseidon_digest {P : Poseidon} {E} (pk : RegevPk) : res E PHash :=
  _ ← assert_that (is_ok (validate pk));
  Ok (hash_inputs_u64 (poseidon_inputs pk)).

End Pk.

Definition regev_pk_root {K : Keccak} {E} (pks : list RegevPk) : res E Bytes32 :=
  digests ← res_mapM Pk.digest pks;
  Ok (hash_words ([REGEV_PK_ROOT_DOMAIN; wrap 32 (Z.of_nat (length pks))]
                    ++ (digests ≫= to_u32_vec))).

(** The closure [add] of [add_ciphertexts]: [zip], [u64] addition, [% q]. *)
Definition add_poly (x y : list Z) : list Z :=
  zip_with (fun a b => wrap 32 ((a + b) mod REGEV_Q)) x y.

Definition add_ciphertexts (a b : RegevCiphertext) : res RegevError RegevCiphertext :=
  _ ← Ct.validate a;
  _ ← Ct.validate b;
  Ok (mkCt (add_poly (c1 a) (c1 b)) (add_poly (c2 a) (c2 b))).

(** Raw decryption, [regev_plonky3::decrypt]: one digit per coefficient. *)
Class RegevScheme := {
  regev_decrypt : RegevSk -> RegevCiphertext -> list Z;
}.

(** The digit loop of [decrypt_amount], from coefficient [i] with the running [u128] sum. *)
Fixpoint decode_digits (i : nat) (digits : list Z) (value : Z) : res RegevError Z :=
  match digits with
  | [] => Ok value
  | d :: digits' =>
      if d =? 0 then decode_digits (S i) digits' value
      else if (64 <=? i)%nat then Err DecryptOverflow
      else decode_digits (S i) digits' (value + Z.shiftl d (Z.of_nat i))
  end.

Definition decrypt_amount {R : RegevScheme} (sk : RegevSk) (ct : RegevCiphertext) : res RegevError Z :=
  if bool_decide (length (sk_s sk) <> REGEV_N) then Err InvalidSk
  else
    _ ← Ct.validate ct;
    value ← decode_digits 0 (regev_decrypt sk ct) 0;
    if value <? 2 ^ 64 then Ok value else Err DecryptOverflow.

(** ** Canonicality *)

Definition poly_ok (p : list Z) : Prop := length p = REGEV_N /\ Forall (fun c => c < REGEV_Q) p.

Definition ct_ok (ct : RegevCiphertext) : Prop := poly_ok (c1 ct) /\ poly_ok (c2 ct).
Definition pk_ok (pk : RegevPk) : Prop := poly_ok (pk_a pk) /\ poly_ok (pk_b pk).

(** Coefficients are [u32]s. *)
Definition ct_u32 (ct : RegevCiphertext) : Prop := u32_list (c1 ct) /\ u32_list (c2 ct).

Lemma validate_polys_Ok e p q u : validate_polys e p q = Ok u <-> poly_ok p /\ poly_ok q.
Proof.
  unfold validate_polys, poly_ok. destruct u.
  destruct (bool_decide_reflect (length p <> REGEV_N)), (bool_decide_reflect (length q <> REGEV_N));
    cbn [orb]; try naive_solver lia.
  destruct (list_find _ (p ++ q)) as [[i c]|] eqn:Hf.
  - apply list_find_Some in Hf as (Hc & Hle & _). split; [done|].
    intros [[_ Hp] [_ Hq]]. assert (Forall (fun c => c < REGEV_Q) (p ++ q)) as Hpq
      by (by apply Forall_app_2).
    eapply Forall_lookup_1 in Hpq; [|exact Hc]. cbn in Hpq. lia.
  - apply list_find_None in Hf. apply Forall_app in Hf as [Hp Hq].
    split; [|done]. intros _. split; (split; [lia|]).
    + eapply Forall_impl; [|exact Hp]. cbn. lia.
    + eapply Forall_impl; [|exact Hq]. cbn. lia.
Qed.

Lemma validate_polys_total e p q : validate_polys e p q = Ok tt \/ validate_polys e p q = Err e.
Proof.
  unfold validate_polys. destruct (_ || _); [by right|].
  destruct (list_find _ _); [by right | by left].
Qed.

Lemma ct_validate_Ok ct u : Ct.validate ct = Ok u <-> ct_ok ct.
Proof. apply validate_polys_Ok. Qed.

Lemma pk_validate_Ok pk u : Pk.validate pk = Ok u <-> pk_ok pk.
Proof. apply validate_polys_Ok. Qed.

Lemma ct_validate_total ct : Ct.validate ct = Ok tt \/ Ct.validate ct = Err InvalidCiphertext.
Proof. apply validate_polys_total. Qed.

Lemma ct_validate_not_ok ct : ~ ct_ok ct -> Ct.validate ct = Err InvalidCiphertext.
Proof.
  intros H. destruct (ct_validate_total ct) as [Hv|]; [|done]. by apply ct_validate_Ok in Hv.
Qed.

Lemma zero_poly_ok : poly_ok (replicate REGEV_N 0).
Proof. split; [apply length_replicate | by apply Forall_replicate]. Qed.

Lemma padding_ok : ct_ok Ct.padding.
Proof. split; apply zero_poly_ok. Qed.

Lemma pk_padding_ok : pk_ok Pk.padding.
Proof. split; apply zero_poly_ok. Qed.

(** ** Digests *)

Section digests.
Context {K : Keccak} {E : Type}.

Lemma ct_digest_Ok ct b :
  Ct.digest (E := E) ct = Ok b <-> ct_ok ct /\ b = hash_words (Ct.digest_words ct).
Proof.
  unfold Ct.digest. rewrite bind_Ok. setoid_rewrite assert_that_Ok.
  destruct (Ct.validate ct) as [[]| |] eqn:Hv; cbn.
  - apply ct_validate_Ok in Hv. naive_solver.
  - split; [naive_solver|]. intros [Hc _]. apply (ct_validate_Ok _ tt) in Hc. congruence.
  - split; [naive_solver|]. intros [Hc _]. apply (ct_validate_Ok _ tt) in Hc. congruence.
Qed.

(** [digest] never returns an error: it answers on canonical input and panics otherwise. *)
Lemma ct_digest_panics ct : ~ ct_ok ct -> Ct.digest (E := E) ct = Panic.
Proof. intros H. unfold Ct.digest. by rewrite ct_validate_not_ok. Qed.

Lemma ct_digest_ok ct :
  ct_ok ct -> Ct.digest (E := E) ct = Ok (hash_words (Ct.digest_words ct)).
Proof. intros. by apply ct_digest_Ok. Qed.

Lemma digest_words_inj ct ct' :
  ct_ok ct -> ct_ok ct' -> Ct.digest_words ct = Ct.digest_words ct' -> ct = ct'.
Proof.
  destruct ct as [x1 x2], ct' as [y1 y2].
  intros [[H1 _] [H2 _]] [[H1' _] [H2' _]]. cbn in *. intros [= _ H].
  apply app_inj_1 in H as [-> ->]; [done | congruence].
Qed.

Lemma ct_digest_binding ct ct' b :
  Ct.digest (E := E) ct = Ok b -> Ct.digest (E := E) ct' = Ok b ->
  ct = ct' \/ keccak_collision (Ct.digest_words ct) (Ct.digest_words ct').
Proof.
  intros [Hc Hb]%ct_digest_Ok [Hc' Hb']%ct_digest_Ok.
  destruct (hash_words_inj_or (Ct.digest_words ct) (Ct.digest_words ct')) as [H|H];
    [congruence | left; by apply digest_words_inj | by right].
Qed.

Lemma pk_digest_Ok pk b :
  Pk.digest (E := E) pk = Ok b <-> pk_ok pk /\ b = hash_words (Pk.digest_words pk).
Proof.
  unfold Pk.digest. rewrite bind_Ok. setoid_rewrite assert_that_Ok.
  destruct (Pk.validate pk) as [[]| |] eqn:Hv; cbn.
  - apply pk_validate_Ok in Hv. naive_solver.
  - split; [naive_solver|]. intros [Hc _]. apply (pk_validate_Ok _ tt) in Hc. congruence.
  - split; [naive_solver|]. intros [Hc _]. apply (pk_validate_Ok _ tt) in Hc. congruence.
Qed.

Lemma pk_poseidon_digest_Ok {P : Poseidon} pk h :
  Pk.poseidon_digest (E := E) pk = Ok h <-> pk_ok pk /\ h = hash_inputs_u64 (Pk.poseidon_inputs pk).
Proof.
  unfold Pk.poseidon_digest. rewrite bind_Ok. setoid_rewrite assert_that_Ok.
  destruct (Pk.validate pk) as [[]| |] eqn:Hv; cbn.
  - apply pk_validate_Ok in Hv. naive_solver.
  - split; [naive_solver|]. intros [Hc _]. apply (pk_validate_Ok _ tt) in Hc. congruence.
  - split; [naive_solver|]. intros [Hc _]. apply (pk_validate_Ok _ tt) in Hc. congruence.
Qed.
End digests.

(** ** Homomorphic addition *)

Definition poly_canonical (p : list Z) : Prop := length p = REGEV_N /\ Forall (fun c => 0 <= c < REGEV_Q) p.

Lemma length_add_poly x y :
  length x = REGEV_N -> length y = REGEV_N -> length (add_poly x y) = REGEV_N.
Proof. intros. unfold add_poly. rewrite length_zip_with. lia. Qed.

Lemma add_coeff a b : wrap 32 ((a + b) mod REGEV_Q) = (a + b) mod REGEV_Q.
Proof.
  apply wrap_id. pose proof (Z.mod_pos_bound (a + b) REGEV_Q). unfold in_width, REGEV_Q in *. lia.
Qed.

Lemma add_poly_lookup x y i a b :
  x !! i = Some a -> y !! i = Some b -> add_poly x y !! i = Some ((a + b) mod REGEV_Q).
Proof. intros Ha Hb. unfold add_poly. rewrite lookup_zip_with, Ha; cbn. rewrite Hb; cbn. by rewrite add_coeff. Qed.

Lemma add_poly_canonical x y :
  length x = REGEV_N -> length y = REGEV_N -> poly_canonical (add_poly x y).
Proof.
  intros Hx Hy. split; [by apply length_add_poly|].
  unfold add_poly. rewrite Forall_lookup. intros i c. rewrite lookup_zip_with. intros H.
  destruct (x !! i) as [a|]; cbn in H; [|done]. destruct (y !! i) as [b|]; cbn in H; [|done].
  simplify_eq. rewrite add_coeff. apply Z.mod_pos_bound. unfold REGEV_Q. lia.
Qed.

Lemma add_poly_comm x y : add_poly x y = add_poly y x.
Proof.
  revert y. induction x as [|a x IH]; intros [|b y]; cbn; try done.
  fold (add_poly x y) (add_poly y x). by rewrite IH, (Z.add_comm a b).
Qed.

Lemma add_poly_assoc x y z : add_poly x (add_poly y z) = add_poly (add_poly x y) z.
Proof.
  revert y z. induction x as [|a x IH]; intros [|b y] [|c z]; cbn; try done.
  fold (add_poly y z) (add_poly x y) (add_poly x (add_poly y z)). rewrite IH. f_equal.
  by rewrite !add_coeff, Zplus_mod_idemp_l, Zplus_mod_idemp_r, Z.add_assoc.
Qed.

Lemma add_poly_zero x : poly_canonical x -> add_poly x (replicate REGEV_N 0) = x.
Proof.
  intros [Hl Hx]. apply list_eq_same_length with (n := REGEV_N);
    [done | by apply length_add_poly; rewrite ?length_replicate |].
  intros i a b Hi Ha Hb.
  erewrite (add_poly_lookup _ _ _ b 0) in Ha;
    [|done|apply lookup_replicate; split; [done|lia]].
  simplify_eq. rewrite Z.add_0_r. apply Z.mod_small. by eapply Forall_lookup_1 in Hx.
Qed.

Definition ct_canonical (ct : RegevCiphertext) : Prop :=
  poly_canonical (c1 ct) /\ poly_canonical (c2 ct).

Lemma ct_canonical_ok ct : ct_canonical ct -> ct_ok ct.
Proof.
  intros [[? Ha] [? Hb]]. split; (split; [done|]);
    [eapply Forall_impl; [|exact Ha] | eapply Forall_impl; [|exact Hb]]; cbn; lia.
Qed.

Lemma ct_ok_canonical ct : ct_u32 ct -> ct_ok ct -> ct_canonical ct.
Proof.
  assert (forall p, u32_list p -> Forall (fun c => c < REGEV_Q) p ->
            Forall (fun c => 0 <= c < REGEV_Q) p) as Hp.
  { intros p Hu Hq. unfold u32_list in Hu. rewrite Forall_lookup in *. intros i c Hc.
    specialize (Hu i c Hc). specialize (Hq i c Hc). unfold in_width in Hu. cbn in *. lia. }
  intros [Ha Hb] [[? Hqa] [? Hqb]]. split; (split; [done | by apply Hp]).
Qed.

Lemma add_ciphertexts_Ok a b c :
  add_ciphertexts a b = Ok c <->
  ct_ok a /\ ct_ok b /\ c = mkCt (add_poly (c1 a) (c1 b)) (add_poly (c2 a) (c2 b)).
Proof.
  unfold add_ciphertexts. rewrite bind_Ok. setoid_rewrite ct_validate_Ok.
  setoid_rewrite bind_Ok. setoid_rewrite ct_validate_Ok. naive_solver.
Qed.

Lemma add_ciphertexts_canonical a b c : add_ciphertexts a b = Ok c -> ct_canonical c.
Proof.
  intros ([[? _] [? _]] & [[? _] [? _]] & ->)%add_ciphertexts_Ok.
  split; by apply add_poly_canonical.
Qed.

Lemma add_ciphertexts_comm a b : ct_ok a -> ct_ok b -> add_ciphertexts a b = add_ciphertexts b a.
Proof.
  intros Ha Hb. transitivity (Ok (E := RegevError) (mkCt (add_poly (c1 a) (c1 b)) (add_poly (c2 a) (c2 b)))).
  - by apply add_ciphertexts_Ok.
  - symmetry. apply add_ciphertexts_Ok. rewrite (add_poly_comm (c1 b)), (add_poly_comm (c2 b)). done.
Qed.

Lemma add_ciphertexts_padding a : ct_canonical a -> add_ciphertexts a Ct.padding = Ok a.
Proof.
  intros Ha. apply add_ciphertexts_Ok. split; [by apply ct_canonical_ok|].
  split; [apply padding_ok|]. destruct Ha as [H1 H2]. destruct a as [a1 a2]. cbn in *.
  by rewrite !add_poly_zero.
Qed.

Lemma add_ciphertexts_assoc a b c :
  ct_ok a -> ct_ok b -> ct_ok c ->
  (bc ← add_ciphertexts b c; add_ciphertexts a bc) =
  (ab ← add_ciphertexts a b; add_ciphertexts ab c).
Proof.
  intros Ha Hb Hc.
  destruct (add_ciphertexts b c) as [bc| |] eqn:Hbc;
    [|exfalso; assert (add_ciphertexts b c = Ok _) as H by (by apply add_ciphertexts_Ok); congruence..].
  destruct (add_ciphertexts a b) as [ab| |] eqn:Hab;
    [|exfalso; assert (add_ciphertexts a b = Ok _) as H by (by apply add_ciphertexts_Ok); congruence..].
  pose proof (add_ciphertexts_canonical _ _ _ Hbc) as Hbc'%ct_canonical_ok.
  pose proof (add_ciphertexts_canonical _ _ _ Hab) as Hab'%ct_canonical_ok.
  apply add_ciphertexts_Ok in Hbc as (_ & _ & ->), Hab as (_ & _ & ->).
  cbn. unfold mbind, res_bind.
  transitivity (Ok (E := RegevError)
    (mkCt (add_poly (c1 a) (add_poly (c1 b) (c1 c))) (add_poly (c2 a) (add_poly (c2 b) (c2 c))))).
  - by apply add_ciphertexts_Ok.
  - symmetry. apply add_ciphertexts_Ok. cbn. by rewrite !add_poly_assoc.
Qed.

(** ** Decoding *)

(** The value that a digit list denotes from coefficient [i] on. *)
Fixpoint digits_value (i : nat) (digits : list Z) : Z :=
  match digits with
  | [] => 0
  | d :: digits' => d * 2 ^ Z.of_nat i + digits_value (S i) digits'
  end.

Definition high_digits_zero (digits : list Z) : Prop :=
  forall i d, (64 <= i)%nat -> digits !! i = Some d -> d = 0.

Lemma decode_digits_Ok i digits value v :
  decode_digits i digits value = Ok v <->
  v = value + digits_value i digits /\
  forall j d, (64 <= i + j)%nat -> digits !! j = Some d -> d = 0.
Proof.
  revert i value. induction digits as [|d ds IH]; intros i value; cbn [decode_digits digits_value].
  - split; [intros [= ->]; split; [lia | done] | intros [-> _]; f_equal; lia].
  - destruct (Z.eqb_spec d 0) as [->|Hd].
    + rewrite IH, Z.mul_0_l. cbn [Z.add]. split.
      * intros [-> Hz]. split; [done|]. intros [|j] c Hj Hc; cbn in Hc; [by simplify_eq|].
        apply (Hz j); [lia | exact Hc].
      * intros [-> Hz]. split; [done|]. intros j c Hj Hc. apply (Hz (S j)); [lia | done].
    + destruct (Nat.leb_spec 64 i).
      * split; [done|]. intros [_ Hz]. exfalso. apply Hd, (Hz 0%nat); [lia | done].
      * rewrite IH, Z.shiftl_mul_pow2 by lia. split.
        -- intros [-> Hz]. split; [lia|]. intros [|j] c Hj Hc; cbn in Hc; [lia|].
           apply (Hz j); [lia | exact Hc].
        -- intros [-> Hz]. split; [lia|]. intros j c Hj Hc. apply (Hz (S j)); [lia | done].
Qed.

Lemma decode_digits_no_Panic i digits value : decode_digits i digits value <> Panic.
Proof.
  revert i value. induction digits as [|d ds IH]; intros i value; cbn [decode_digits]; [done|].
  destruct (d =? 0); [apply IH|]. destruct (64 <=? i)%nat; [done | apply IH].
Qed.

Lemma digits_value_nonneg i digits : Forall (fun d => 0 <= d) digits -> 0 <= digits_value i digits.
Proof.
  intros H. revert i. induction H; intros i; cbn; [lia|]. specialize (IHForall (S i)). nia.
Qed.

Lemma digits_value_add i ds es :
  length ds = length es ->
  digits_value i (zip_with Z.add ds es) = digits_value i ds + digits_value i es.
Proof.
  revert i es. induction ds as [|d ds IH]; intros i [|e es] H; cbn in *; try lia.
  rewrite IH by lia. lia.
Qed.

Section decrypt.
Context {R : RegevScheme}.

Lemma decrypt_amount_Ok sk ct v :
  decrypt_amount sk ct = Ok v <->
  length (sk_s sk) = REGEV_N /\ ct_ok ct /\ high_digits_zero (regev_decrypt sk ct) /\
  v = digits_value 0 (regev_decrypt sk ct) /\ v < 2 ^ 64.
Proof.
  unfold decrypt_amount. destruct (bool_decide_reflect (length (sk_s sk) <> REGEV_N)) as [|Hsk];
    [split; [done | naive_solver]|].
  rewrite bind_Ok. setoid_rewrite ct_validate_Ok. setoid_rewrite bind_Ok.
  setoid_rewrite decode_digits_Ok. unfold high_digits_zero. split.
  - intros (_ & Hct & v' & (-> & Hz) & Hv). cbn [Nat.add] in Hz.
    destruct (Z.ltb_spec (0 + digits_value 0 (regev_decrypt sk ct)) (2 ^ 64)); [|done].
    simplify_eq. split; [by apply dec_stable|]. split; [done|]. split; [done|]. by rewrite Z.add_0_l in *.
  - intros (_ & Hct & Hz & -> & Hv). exists tt. split; [done|].
    exists (digits_value 0 (regev_decrypt sk ct)). split; [split; [lia | done]|].
    by destruct (Z.ltb_spec (digits_value 0 (regev_decrypt sk ct)) (2 ^ 64)); [|lia].
Qed.
End decrypt.
