(* ===== verification/BalanceState.v ===== *)
(** * The hidden-balance state of a channel

    Models [src/src/common/balance_state.rs] and the identifier type of
    [src/src/common/channel_id.rs]: the [BalanceState] record, its padding
    constructors, the compact wire encoding of its token matrices, the slot
    tree, the signed commitment [h1], the canonicality check [validate], the
    token registration step and the settlement hashes.

    Array fields are lists; the lengths the Rust types fix are the predicate
    [typed].  Indexing out of range panics, as in the source. *)

From S2P Require Import Prelude Limbs MerkleTree LeafTrees Poseidon Keccak Regev.

Definition MAX_CHANNEL_MEMBERS : nat := 1024.
Definition MAX_SIG_CLUSTER : nat := 8.
Definition MAX_CHANNEL_TOKENS : nat := 10.
Definition BALANCE_SLOT_TREE_HEIGHT : nat := 10.
Definition BURN_CHANNEL_ID : Z := 0xFFFFFFFF.

Lemma MAX_CHANNEL_MEMBERS_pow : MAX_CHANNEL_MEMBERS = (2 ^ BALANCE_SLOT_TREE_HEIGHT)%nat.
Proof. reflexivity. Qed.

Lemma MAX_CHANNEL_MEMBERS_Z : Z.of_nat MAX_CHANNEL_MEMBERS = 1024.
Proof. reflexivity. Qed.

#[global] Arguments MAX_CHANNEL_MEMBERS : simpl never.
#[global] Opaque MAX_CHANNEL_MEMBERS.

Definition BALANCE_STATE_DOMAIN_V2 : Z := 0x494d4232.
Definition BALANCE_SLOT_LEAF_DOMAIN_V2 : Z := 0x494d5332.
Definition BALANCE_STATE_HASH_DOMAIN : Z := 0x494d4248.
Definition TX_LEAF_DOMAIN : Z := 0x494d544c.
Definition SETTLED_TX_CHAIN_DOMAIN : Z := 0x494d5443.
Definition UNAPPLIED_INCOMING_DOMAIN : Z := 0x494d5549.

(** [ChannelError] without its messages. *)
Inductive ChannelError :=
| InvalidIdLength
| InvalidIdValue
| InvalidCloseBinding
| InvalidChannelRecord
| InvalidSignatureSet
| InvalidBalanceState
| InvalidInterChannelTx.

(** ** [ChannelId] *)

Module ChannelId.

Inductive ChannelIdError := InvalidChannelId | InvalidValue.

(** [struct ChannelId(u32)]. *)
Definition ChannelId := Z.

Definition validate_components (channel_id : Z) : res ChannelIdError unit :=
  if channel_id =? 0 then Err InvalidChannelId else Ok tt.

(** [u32::try_from], then the reserved id. *)
Definition new (value : Z) : res ChannelIdError ChannelId :=
  if value <? 2 ^ 32 then _ ← validate_components value; Ok value else Err InvalidValue.

Definition dummy : ChannelId := 0.

Definition as_bytes (id : ChannelId) : list Z := to_be_bytes id.

Definition from_bytes (bytes : list Z) : res ChannelIdError ChannelId :=
  let channel_id := from_be_bytes bytes in
  _ ← validate_components channel_id; Ok channel_id.

Definition to_u32_vec (id : ChannelId) : list Z := [id].

Definition from_u64_slice (values : list Z) : res ChannelIdError ChannelId :=
  match values with
  | [v] => new v
  | _ => Err InvalidValue
  end.

End ChannelId.
Notation ChannelId := ChannelId.ChannelId.

(** ** Token rows *)

Notation TokenCiphertexts := (list RegevCiphertext).
Notation TokenPendingAdds := (list Z).

Definition zero_ciphertext : RegevCiphertext := Ct.padding.

Definition zero_ciphertext_digest {K : Keccak} {E} : res E Bytes32 := Ct.digest zero_ciphertext.

Definition zero_token_row : TokenCiphertexts := replicate MAX_CHANNEL_TOKENS zero_ciphertext.

Definition zero_adds_row : TokenPendingAdds := replicate MAX_CHANNEL_TOKENS 0.

(** [Vec::resize_with]: truncate or extend to [n]. *)
Definition resize_with {A} (n : nat) (x : A) (l : list A) : list A :=
  take n l ++ replicate (n - length l) x.

(** ** The compact wire form [token_matrix_serde] *)

Module TokenMatrixSerde.

Inductive SerdeError := TooManyRows | TokenPositionOutOfRange (slot : nat).

Section rows.
Context {V : Type} `{EqDecision V} (zero : V).

(** One row as [token position -> value], canonical zeros left out. *)
Definition sparse_row (row : list V) : gmap Z V :=
  list_to_map (filter (fun '(_, v) => v <> zero) (imap (fun t v => (Z.of_nat t, v)) row)).

(** [while sparse.last().is_some_and(is_empty) { sparse.pop() }], on the reversed list. *)
Fixpoint pop_empty (rev_rows : list (gmap Z V)) : list (gmap Z V) :=
  match rev_rows with
  | [] => []
  | m :: ms => if decide (m = ∅) then pop_empty ms else m :: ms
  end.

Definition serialize (rows : list (list V)) : list (gmap Z V) :=
  reverse (pop_empty (reverse (sparse_row <$> rows))).

Definition dense_row (m : gmap Z V) : list V :=
  (fun t => default zero (m !! Z.of_nat t)) <$> seq 0 MAX_CHANNEL_TOKENS.

Definition deserialize_row (slot : nat) (m : gmap Z V) : res SerdeError (list V) :=
  if existsb (fun '(t, _) => Z.of_nat MAX_CHANNEL_TOKENS <=? t) (map_to_list m)
  then Err (TokenPositionOutOfRange slot)
  else Ok (dense_row m).

Definition deserialize (sparse : list (gmap Z V)) : res SerdeError (list (list V)) :=
  if (MAX_CHANNEL_MEMBERS <? length sparse)%nat then Err TooManyRows
  else
    rows ← res_mapM (fun '(slot, m) => deserialize_row slot m) (imap pair sparse);
    Ok (resize_with MAX_CHANNEL_MEMBERS (replicate MAX_CHANNEL_TOKENS zero) rows).
End rows.

Definition ciphertexts_serialize := serialize zero_ciphertext.
Definition ciphertexts_deserialize := deserialize zero_ciphertext.
Definition pending_adds_serialize := serialize 0.
Definition pending_adds_deserialize := deserialize 0.

End TokenMatrixSerde.

(** ** The settlement hashes *)

Section settlement.
Context {K : Keccak}.

Definition unapplied_incoming_leaf (tx_hash : Bytes32) : Bytes32 :=
  hash_words ([UNAPPLIED_INCOMING_DOMAIN] ++ to_u32_vec tx_hash).

Definition balance_state_hash (h1 h2 : Bytes32) : Bytes32 :=
  hash_words ([BALANCE_STATE_HASH_DOMAIN] ++ to_u32_vec h1 ++ to_u32_vec h2).

Definition sender_wing_words (source_pk_g sender_delta_digest : Bytes32) : list Z :=
  [TX_LEAF_DOMAIN] ++ to_u32_vec source_pk_g ++ to_u32_vec sender_delta_digest.

Definition receiver_wing_words
    (receiver_pk_g receiver_regev_pk_digest receiver_delta_digest : Bytes32) : list Z :=
  [TX_LEAF_DOMAIN] ++ to_u32_vec receiver_pk_g ++ to_u32_vec receiver_regev_pk_digest
    ++ to_u32_vec receiver_delta_digest.

Definition tx_leaf_hash (source_pk_g sender_delta_digest receiver_pk_g
    receiver_regev_pk_digest receiver_delta_digest : Bytes32) : Bytes32 :=
  let sender_wing := hash_words (sender_wing_words source_pk_g sender_delta_digest) in
  let receiver_wing :=
    hash_words (receiver_wing_words receiver_pk_g receiver_regev_pk_digest receiver_delta_digest) in
  hash_words (to_u32_vec sender_wing ++ to_u32_vec receiver_wing).

Definition settled_tx_chain_push (chain leaf : Bytes32) : Bytes32 :=
  hash_words ([SETTLED_TX_CHAIN_DOMAIN] ++ to_u32_vec chain ++ to_u32_vec leaf).
End settlement.

(** ** [BalanceState] *)

Module BalanceState.

Record BalanceState := mk {
  channel_id : ChannelId;
  member_count : Z;
  delegate_count : Z;
  enc_balances : list TokenCiphertexts;
  regev_pk_digests : list Bytes32;
  recipients : list Address;
  settled_tx_chain : Bytes32;
  settled_tx_accumulator_root : Bytes32;
  state_version : Z;
  pending_adds : list TokenPendingAdds;
  token_registry : list Z;
  token_count : Z;
}.

#[global] Instance BalanceState_eq_dec : EqDecision BalanceState.
Proof. solve_decision. Defined.

(** *** Padding constructors *)

Definition pad_enc_balances {E} (active : list TokenCiphertexts) : res E (list TokenCiphertexts) :=
  _ ← assert_that (length active <=? MAX_CHANNEL_MEMBERS)%nat;
  Ok (resize_with MAX_CHANNEL_MEMBERS zero_token_row active).

Definition pad_enc_balances_token0 {E} (active : list RegevCiphertext) : res E (list TokenCiphertexts) :=
  pad_enc_balances ((fun ct => <[0%nat := ct]> zero_token_row) <$> active).

Definition pad_pending_adds {E} (active : list TokenPendingAdds) : res E (list TokenPendingAdds) :=
  _ ← assert_that (length active <=? MAX_CHANNEL_MEMBERS)%nat;
  Ok (resize_with MAX_CHANNEL_MEMBERS zero_adds_row active).

Definition pad_pending_adds_token0 {E} (active : list Z) : res E (list TokenPendingAdds) :=
  pad_pending_adds ((fun adds => <[0%nat := adds]> zero_adds_row) <$> active).

Definition single_token_registry (token_index : Z) : list Z :=
  <[0%nat := token_index]> (replicate MAX_CHANNEL_TOKENS 0).

(** [std::array::from_fn(|i| active.get(i).copied().unwrap_or_default())]. *)
Definition pad_with {A} (d : A) (active : list A) : list A :=
  (fun i => default d (active !! i)) <$> seq 0 MAX_CHANNEL_MEMBERS.

Definition pad_regev_pk_digests : list Bytes32 -> list Bytes32 := pad_with bytes32_default.
Definition pad_recipients : list Address -> list Address := pad_with address_default.

(** *** Slot leaves *)

Definition balance_slot_leaf_preimage (regev_pk_digest : Bytes32) (enc_balance_digests : list Bytes32)
    (adds : list Z) (recipient : Address) : list Z :=
  [BALANCE_SLOT_LEAF_DOMAIN_V2] ++ to_u32_vec regev_pk_digest
    ++ (enc_balance_digests ≫= to_u32_vec) ++ adds ++ to_u32_vec recipient.

Definition balance_slot_leaf_hash {P : Poseidon} (regev_pk_digest : Bytes32)
    (enc_balance_digests : list Bytes32) (adds : list Z) (recipient : Address) : PHash :=
  hash_inputs_u64 (balance_slot_leaf_preimage regev_pk_digest enc_balance_digests adds recipient).

Section commitments.
Context {K : Keccak} {P : Poseidon} {E : Type}.

Definition token_ct_digests (row : TokenCiphertexts) : res E (list Bytes32) :=
  res_mapM (fun t =>
    ct ← unwrap (row !! t);
    if decide (ct = zero_ciphertext) then zero_ciphertext_digest else Ct.digest ct)
    (seq 0 MAX_CHANNEL_TOKENS).

Definition is_padding_slot (digest : Bytes32) (adds : list Z) (recipient : Address)
    (row : TokenCiphertexts) : bool :=
  bool_decide (digest = bytes32_default) && bool_decide (adds = zero_adds_row)
    && bool_decide (recipient = address_default)
    && forallb (fun ct => bool_decide (ct = zero_ciphertext)) row.

(** The closure of [slot_leaf_hashes] for slot [i]. *)
Definition slot_leaf_hash (s : BalanceState) (padding_leaf : PHash) (i : nat) : res E PHash :=
  digest ← unwrap (regev_pk_digests s !! i);
  adds ← unwrap (pending_adds s !! i);
  recipient ← unwrap (recipients s !! i);
  row ← unwrap (enc_balances s !! i);
  if is_padding_slot digest adds recipient row then Ok padding_leaf
  else
    digests ← token_ct_digests row;
    Ok (balance_slot_leaf_hash digest digests adds recipient).

Definition slot_leaf_hashes (s : BalanceState) : res E (list PHash) :=
  _ ← assert_that (length (enc_balances s) =? MAX_CHANNEL_MEMBERS)%nat;
  _ ← assert_that (length (pending_adds s) =? MAX_CHANNEL_MEMBERS)%nat;
  zero_digest ← zero_ciphertext_digest;
  let padding_leaf :=
    balance_slot_leaf_hash bytes32_default (replicate MAX_CHANNEL_TOKENS zero_digest)
      zero_adds_row address_default in
  res_mapM (slot_leaf_hash s padding_leaf) (seq 0 MAX_CHANNEL_MEMBERS).

Definition slot_tree (s : BalanceState) : res E (Incremental.IncrementalMerkleTree PHash) :=
  leaves ← slot_leaf_hashes s;
  res_foldl Incremental.push (Incremental.new BALANCE_SLOT_TREE_HEIGHT) leaves.

(** [pair[0]], [pair[1]] of a chunk. *)
Definition hash_pair (pair : list PHash) : res E PHash :=
  match pair !! 0%nat, pair !! 1%nat with
  | Some l, Some r => Ok (two_to_one l r)
  | _, _ => Panic
  end.

(** [while level.len() > 1]: each pass halves the level, so its length bounds the passes. *)
Fixpoint fold_levels (fuel : nat) (level : list PHash) : res E PHash :=
  match fuel with
  | O => Panic
  | S fuel' =>
      if (1 <? length level)%nat then
        level' ← res_mapM hash_pair (chunks 2 level);
        fold_levels fuel' level'
      else unwrap (level !! 0%nat)
  end.

Definition slot_tree_root (s : BalanceState) : res E PHash :=
  level ← slot_leaf_hashes s;
  fold_levels (length level) level.

Definition h1_header_words (s : BalanceState) (root : PHash) : list Z :=
  [BALANCE_STATE_DOMAIN_V2; channel_id s; member_count s; delegate_count s; token_count s]
    ++ token_registry s ++ phash_to_u64_vec root ++ to_u32_vec (settled_tx_chain s)
    ++ to_u32_vec (settled_tx_accumulator_root s) ++ split_u64 (state_version s).

Definition h1_header_preimage (s : BalanceState) : res E (list Z) :=
  root ← slot_tree_root s;
  Ok (h1_header_words s root).

Definition h1 (s : BalanceState) : res E Bytes32 :=
  preimage ← h1_header_preimage s;
  phash_into_bytes32 (hash_inputs_u64 preimage).
End commitments.

(** *** [validate] *)

Definition invalid {A} : res ChannelError A := Err InvalidBalanceState.

(** [if b { return Err(InvalidBalanceState) }]. *)
Definition refuse_if (b : bool) : res ChannelError unit := if b then invalid else Ok tt.

(** The double loop over the active registry prefix. *)
Definition check_registry_injective (registry : list Z) (count : nat) : res ChannelError unit :=
  res_forall (fun i =>
    res_forall (fun j =>
      a ← unwrap (registry !! i);
      b ← unwrap (registry !! j);
      refuse_if (a =? b)) (seq (S i) (count - S i)))
    (seq 0 count).

Definition check_registry_padding (registry : list Z) (count : nat) : res ChannelError unit :=
  res_forall (fun index => refuse_if (negb (index =? 0))) (drop count registry).

Definition check_ciphertext (active count index t : nat) (ct : RegevCiphertext) : res ChannelError unit :=
  _ ← map_err (fun _ => InvalidBalanceState) (Ct.validate ct);
  _ ← refuse_if ((active <=? index)%nat && negb (bool_decide (ct = zero_ciphertext)));
  refuse_if ((count <=? t)%nat && negb (bool_decide (ct = zero_ciphertext))).

Definition check_enc_balances (active count : nat) (rows : list TokenCiphertexts) : res ChannelError unit :=
  res_forall (fun '(index, row) =>
    res_forall (fun '(t, ct) => check_ciphertext active count index t ct) (imap pair row))
    (imap pair rows).

Definition check_pk_digests (active : nat) (digests : list Bytes32) : res ChannelError unit :=
  res_forall (fun '(index, d) =>
    refuse_if ((active <=? index)%nat && negb (bool_decide (d = bytes32_default))))
    (imap pair digests).

Definition check_recipients (active : nat) (rs : list Address) : res ChannelError unit :=
  res_forall (fun '(index, r) =>
    _ ← refuse_if ((index <? active)%nat && bool_decide (r = address_default));
    refuse_if ((active <=? index)%nat && negb (bool_decide (r = address_default))))
    (imap pair rs).

Definition check_adds (active count index t : nat) (adds : Z) : res ChannelError unit :=
  _ ← refuse_if (MAX_HOMO_ADDS_BEFORE_REFRESH <? adds);
  _ ← refuse_if ((active <=? index)%nat && negb (adds =? 0));
  refuse_if ((count <=? t)%nat && negb (adds =? 0)).

Definition check_pending_adds (active count : nat) (rows : list TokenPendingAdds) : res ChannelError unit :=
  res_forall (fun '(index, row) =>
    res_forall (fun '(t, adds) => check_adds active count index t adds) (imap pair row))
    (imap pair rows).

Definition validate (s : BalanceState) : res ChannelError unit :=
  _ ← refuse_if (negb (length (enc_balances s) =? MAX_CHANNEL_MEMBERS)%nat
                 || negb (length (pending_adds s) =? MAX_CHANNEL_MEMBERS)%nat);
  let count_t := Z.to_nat (token_count s) in
  _ ← refuse_if (negb ((1 <=? count_t)%nat && (count_t <=? MAX_CHANNEL_TOKENS)%nat));
  _ ← check_registry_injective (token_registry s) count_t;
  _ ← check_registry_padding (token_registry s) count_t;
  let count := Z.to_nat (member_count s) in
  _ ← refuse_if ((count <? 2)%nat || (MAX_SIG_CLUSTER <? count)%nat);
  let active := (count + Z.to_nat (delegate_count s))%nat in
  _ ← refuse_if (negb (active <=? MAX_CHANNEL_MEMBERS)%nat);
  _ ← check_enc_balances active count_t (enc_balances s);
  _ ← check_pk_digests active (regev_pk_digests s);
  _ ← check_recipients active (recipients s);
  check_pending_adds active count_t (pending_adds s).

(** *** Token registration *)

Definition apply_token_register (s : BalanceState) (token_index : Z) : res ChannelError BalanceState :=
  let count := Z.to_nat (token_count s) in
  if (MAX_CHANNEL_TOKENS <=? count)%nat then invalid
  else if bool_decide (token_index ∈ take count (token_registry s)) then invalid
  else Ok {|
    channel_id := channel_id s;
    member_count := member_count s;
    delegate_count := delegate_count s;
    enc_balances := enc_balances s;
    regev_pk_digests := regev_pk_digests s;
    recipients := recipients s;
    settled_tx_chain := settled_tx_chain s;
    settled_tx_accumulator_root := settled_tx_accumulator_root s;
    state_version := wrap 64 (state_version s + 1);
    pending_adds := pending_adds s;
    token_registry := <[count := token_index]> (token_registry s);
    token_count := wrap 8 (token_count s + 1);
  |}.

Definition verify_token_register_transition (prev next : BalanceState) (token_index : Z)
    : res ChannelError unit :=
  expected ← apply_token_register prev token_index;
  if decide (next = expected) then Ok tt else invalid.

End BalanceState.
