(* ===== verification/BalanceStateProps.v ===== *)
(** * What [BalanceState] promises

    The canonicality check against its specification, the slot tree against
    the Merkle reference, the binding of the signed commitment [h1], token
    registration and the compact wire form. *)

From S2P Require Import Prelude Limbs MerkleTree LeafTrees Poseidon Keccak Regev BalanceState.

Import BalanceState.

(** ** Loops over indexed lists *)

Lemma elem_of_imap_pair {A} (l : list A) i x : (i, x) ∈ imap pair l <-> l !! i = Some x.
Proof.
  rewrite list_elem_of_lookup. setoid_rewrite list_lookup_imap. split.
  - intros (j & Hj). destruct (l !! j) eqn:Hl; cbn in Hj; [|done]. by simplify_eq.
  - intros H. exists i. by rewrite H.
Qed.

Lemma res_forall_elem {E A} (f : A -> res E unit) l u :
  res_forall f l = Ok u <-> forall x, x ∈ l -> f x = Ok tt.
Proof.
  rewrite res_forall_Ok, Forall_lookup. setoid_rewrite list_elem_of_lookup. naive_solver.
Qed.

Lemma res_forall_imap {E A} (f : nat -> A -> res E unit) l u :
  res_forall (fun '(i, x) => f i x) (imap pair l) = Ok u <->
  forall i x, l !! i = Some x -> f i x = Ok tt.
Proof.
  rewrite res_forall_elem. split.
  - intros H i x Hx. apply (H (i, x)). by apply elem_of_imap_pair.
  - intros H [i x] Hx. apply H. by apply elem_of_imap_pair.
Qed.

Lemma res_forall_seq {E} (f : nat -> res E unit) a n u :
  res_forall f (seq a n) = Ok u <-> forall i, (a <= i < a + n)%nat -> f i = Ok tt.
Proof.
  rewrite res_forall_elem. split.
  - intros H i Hi. apply H. by apply elem_of_seq.
  - intros H i Hi%elem_of_seq. by apply H.
Qed.

Lemma refuse_if_Ok b u : refuse_if b = Ok u <-> b = false.
Proof. destruct b, u; cbn; naive_solver. Qed.

Lemma seq_bind_Ok {E A} (m : res E unit) (f : unit -> res E A) b :
  (m ≫= f) = Ok b <-> m = Ok tt /\ f tt = Ok b.
Proof. rewrite bind_Ok. split; [intros ([] & ? & ?); done | intros [? ?]; by exists tt]. Qed.

(** ** Type and canonicality predicates *)

(** What the Rust types fix: array lengths and integer widths. *)
Record typed (s : BalanceState) : Prop := {
  ty_channel_id : in_width 32 (channel_id s);
  ty_member_count : in_width 8 (member_count s);
  ty_delegate_count : in_width 16 (delegate_count s);
  ty_token_count : in_width 8 (token_count s);
  ty_state_version : in_width 64 (state_version s);
  ty_rows : Forall (fun row => length row = MAX_CHANNEL_TOKENS) (enc_balances s);
  ty_adds : Forall (fun row => length row = MAX_CHANNEL_TOKENS) (pending_adds s);
  ty_digests : length (regev_pk_digests s) = MAX_CHANNEL_MEMBERS;
  ty_recipients : length (recipients s) = MAX_CHANNEL_MEMBERS;
  ty_registry : length (token_registry s) = MAX_CHANNEL_TOKENS;
}.

Definition active_slots (s : BalanceState) : nat :=
  (Z.to_nat (member_count s) + Z.to_nat (delegate_count s))%nat.

Definition active_tokens (s : BalanceState) : nat := Z.to_nat (token_count s).

(** The invariant of a channel balance state. *)
Record valid (s : BalanceState) : Prop := {
  v_rows : length (enc_balances s) = MAX_CHANNEL_MEMBERS;
  v_adds : length (pending_adds s) = MAX_CHANNEL_MEMBERS;
  v_token_count : (1 <= active_tokens s <= MAX_CHANNEL_TOKENS)%nat;
  v_injective : forall i j a, (i < j < active_tokens s)%nat ->
    token_registry s !! i = Some a -> token_registry s !! j = Some a -> False;
  v_registry_padding : forall t a, (active_tokens s <= t)%nat -> token_registry s !! t = Some a -> a = 0;
  v_member_count : (2 <= Z.to_nat (member_count s) <= MAX_SIG_CLUSTER)%nat;
  v_active : (active_slots s <= MAX_CHANNEL_MEMBERS)%nat;
  v_ciphertexts : forall i t row ct, enc_balances s !! i = Some row -> row !! t = Some ct ->
    ct_ok ct /\ ((active_slots s <= i)%nat \/ (active_tokens s <= t)%nat -> ct = zero_ciphertext);
  v_digests : forall i d, (active_slots s <= i)%nat -> regev_pk_digests s !! i = Some d -> d = bytes32_default;
  v_recipients : forall i r, recipients s !! i = Some r ->
    (r = address_default <-> (active_slots s <= i)%nat);
  v_pending : forall i t row adds, pending_adds s !! i = Some row -> row !! t = Some adds ->
    adds <= MAX_HOMO_ADDS_BEFORE_REFRESH /\
    ((active_slots s <= i)%nat \/ (active_tokens s <= t)%nat -> adds = 0);
}.

Lemma refuse_guard_spec (n i : nat) (b : bool) :
  (n <=? i)%nat && negb b = false <-> ((n <= i)%nat -> b = true).
Proof. destruct (Nat.leb_spec n i), b; cbn; naive_solver lia. Qed.

Lemma check_ciphertext_Ok active count i t ct u :
  check_ciphertext active count i t ct = Ok u <->
  ct_ok ct /\ ((active <= i)%nat \/ (count <= t)%nat -> ct = zero_ciphertext).
Proof.
  unfold check_ciphertext. rewrite seq_bind_Ok, map_err_Ok, ct_validate_Ok, seq_bind_Ok.
  rewrite !refuse_if_Ok, !refuse_guard_spec, bool_decide_eq_true. naive_solver.
Qed.

Lemma check_adds_Ok active count i t adds u :
  check_adds active count i t adds = Ok u <->
  adds <= MAX_HOMO_ADDS_BEFORE_REFRESH /\ ((active <= i)%nat \/ (count <= t)%nat -> adds = 0).
Proof.
  unfold check_adds. rewrite !seq_bind_Ok, !refuse_if_Ok, !refuse_guard_spec, Z.ltb_ge, Z.eqb_eq.
  naive_solver.
Qed.

Lemma check_enc_balances_Ok active count rows u :
  check_enc_balances active count rows = Ok u <->
  forall i t row ct, rows !! i = Some row -> row !! t = Some ct ->
    ct_ok ct /\ ((active <= i)%nat \/ (count <= t)%nat -> ct = zero_ciphertext).
Proof.
  unfold check_enc_balances. rewrite res_forall_imap. setoid_rewrite res_forall_imap.
  setoid_rewrite check_ciphertext_Ok. naive_solver.
Qed.

Lemma check_pending_adds_Ok active count rows u :
  check_pending_adds active count rows = Ok u <->
  forall i t row adds, rows !! i = Some row -> row !! t = Some adds ->
    adds <= MAX_HOMO_ADDS_BEFORE_REFRESH /\ ((active <= i)%nat \/ (count <= t)%nat -> adds = 0).
Proof.
  unfold check_pending_adds. rewrite res_forall_imap. setoid_rewrite res_forall_imap.
  setoid_rewrite check_adds_Ok. naive_solver.
Qed.

Lemma check_pk_digests_Ok active ds u :
  check_pk_digests active ds = Ok u <->
  forall i d, (active <= i)%nat -> ds !! i = Some d -> d = bytes32_default.
Proof.
  unfold check_pk_digests. rewrite res_forall_imap.
  setoid_rewrite refuse_if_Ok. setoid_rewrite refuse_guard_spec.
  setoid_rewrite bool_decide_eq_true. naive_solver.
Qed.

Lemma check_recipients_Ok active rs u :
  check_recipients active rs = Ok u <->
  forall i r, rs !! i = Some r -> (r = address_default <-> (active <= i)%nat).
Proof.
  unfold check_recipients. rewrite res_forall_imap.
  setoid_rewrite seq_bind_Ok. setoid_rewrite refuse_if_Ok. setoid_rewrite refuse_guard_spec.
  setoid_rewrite bool_decide_eq_true. split; intros H i r Hr; specialize (H i r Hr).
  - destruct H as [H1 H2]. destruct (Nat.ltb_spec i active), (bool_decide_reflect (r = address_default));
      cbn in H1; naive_solver lia.
  - destruct (Nat.ltb_spec i active), (bool_decide_reflect (r = address_default)); cbn; naive_solver lia.
Qed.

Lemma check_registry_injective_Ok registry count u :
  (count <= length registry)%nat ->
  check_registry_injective registry count = Ok u <->
  forall i j a, (i < j < count)%nat -> registry !! i = Some a -> registry !! j = Some a -> False.
Proof.
  intros Hlen. unfold check_registry_injective. rewrite res_forall_seq.
  setoid_rewrite res_forall_seq. split.
  - intros H i j a Hij Hi Hj. specialize (H i ltac:(lia) j ltac:(lia)). rewrite Hi, Hj in H.
    cbn in H. by rewrite Z.eqb_refl in H.
  - intros H i Hi j Hj. destruct (registry !! i) as [a|] eqn:Ha; [|apply lookup_ge_None in Ha; lia].
    destruct (registry !! j) as [b|] eqn:Hb; [|apply lookup_ge_None in Hb; lia]. cbn.
    destruct (Z.eqb_spec a b) as [->|]; [|done]. exfalso. apply (H i j b); [lia|done..].
Qed.

Lemma check_registry_padding_Ok registry count u :
  check_registry_padding registry count = Ok u <->
  forall t a, (count <= t)%nat -> registry !! t = Some a -> a = 0.
Proof.
  unfold check_registry_padding. rewrite res_forall_elem. setoid_rewrite refuse_if_Ok.
  setoid_rewrite negb_false_iff. setoid_rewrite Z.eqb_eq. split.
  - intros H t a Ht Ha. apply H, list_elem_of_lookup. exists (t - count)%nat.
    rewrite lookup_drop. by replace (count + (t - count))%nat with t by lia.
  - intros H a (k & Hk)%list_elem_of_lookup. rewrite lookup_drop in Hk. eapply H, Hk. lia.
Qed.

(** [validate] accepts exactly the valid states. *)
Lemma validate_Ok s u : typed s -> validate s = Ok u <-> valid s.
Proof.
  intros Hty. unfold validate. rewrite !seq_bind_Ok, !refuse_if_Ok.
  rewrite orb_false_iff, !negb_false_iff, !Nat.eqb_eq, !andb_true_iff, orb_false_iff.
  rewrite !Nat.leb_le, !Nat.ltb_ge.
  rewrite check_registry_padding_Ok, check_enc_balances_Ok, check_pk_digests_Ok,
    check_recipients_Ok, check_pending_adds_Ok.
  fold (active_slots s) (active_tokens s). split.
  - intros ([? ?] & Htc & Hinj & ? & ? & ? & ? & ? & ? & ?).
    rewrite check_registry_injective_Ok in Hinj by (rewrite (ty_registry s Hty); lia).
    by constructor.
  - intros [? ? ? ? ? ? ? ? ? ? ?].
    rewrite check_registry_injective_Ok by (rewrite (ty_registry s Hty); lia).
    split_and!; first [done | lia].
Qed.

(** *** The check never aborts *)

(** Accepts, or refuses with the one error of this type. *)
Definition decides (m : res ChannelError unit) : Prop := m = Ok tt \/ m = Err InvalidBalanceState.

Lemma decides_bind (m m' : res ChannelError unit) :
  decides m -> (m = Ok tt -> decides m') -> decides (m ≫= fun _ => m').
Proof. intros [->| ->] H; [by apply H | by right]. Qed.

Lemma decides_refuse b : decides (refuse_if b).
Proof. destruct b; [by right | by left]. Qed.

Lemma decides_forall {A} (f : A -> res ChannelError unit) xs :
  (forall x, x ∈ xs -> decides (f x)) -> decides (res_forall f xs).
Proof.
  intros H. unfold res_forall. induction xs as [|x xs IH]; [by left|]. cbn.
  destruct (H x) as [->| ->]; [by left| |by right]. cbn. apply IH. intros y Hy. apply H. by right.
Qed.

Lemma decides_registry registry count :
  (count <= length registry)%nat -> decides (check_registry_injective registry count).
Proof.
  intros Hc. apply decides_forall. intros i Hi%elem_of_seq. apply decides_forall. intros j Hj%elem_of_seq.
  destruct (lookup_lt_is_Some_2 registry i) as [a ->]; [lia|].
  destruct (lookup_lt_is_Some_2 registry j) as [b ->]; [lia|]. apply decides_refuse.
Qed.

Lemma decides_ciphertext active count i t ct : decides (check_ciphertext active count i t ct).
Proof.
  unfold check_ciphertext. apply decides_bind.
  - destruct (ct_validate_total ct) as [->| ->]; [by left | by right].
  - intros _. apply decides_bind; intros; apply decides_refuse.
Qed.

Lemma validate_decides s : typed s -> decides (validate s).
Proof.
  intros Hty. unfold validate. apply decides_bind; [apply decides_refuse|]. intros _.
  apply decides_bind; [apply decides_refuse|]. intros Hc.
  apply refuse_if_Ok, negb_false_iff, andb_true_iff in Hc as [_ Hc%Nat.leb_le].
  apply decides_bind; [apply decides_registry; by rewrite (ty_registry s Hty)|]. intros _.
  apply decides_bind; [apply decides_forall; intros; apply decides_refuse|]. intros _.
  apply decides_bind; [apply decides_refuse|]. intros _.
  apply decides_bind; [apply decides_refuse|]. intros _.
  apply decides_bind.
  { apply decides_forall. intros [i row] _. apply decides_forall. intros [t ct] _. apply decides_ciphertext. }
  intros _. apply decides_bind; [apply decides_forall; intros [i d] _; apply decides_refuse|]. intros _.
  apply decides_bind.
  { apply decides_forall. intros [i r] _. apply decides_bind; intros; apply decides_refuse. }
  intros _. apply decides_forall. intros [i row] _. apply decides_forall. intros [t n] _. unfold check_adds.
  apply decides_bind; [apply decides_refuse|]. intros _. apply decides_bind; intros; apply decides_refuse.
Qed.


(** ** The slot tree *)

Definition ciphertexts_ok (s : BalanceState) : Prop :=
  forall i t row ct, enc_balances s !! i = Some row -> row !! t = Some ct -> ct_ok ct.

Definition well_shaped (s : BalanceState) : Prop :=
  typed s /\ length (enc_balances s) = MAX_CHANNEL_MEMBERS /\
  length (pending_adds s) = MAX_CHANNEL_MEMBERS.

Lemma valid_ciphertexts_ok s : valid s -> ciphertexts_ok s.
Proof. intros H i t row ct Hrow Hct. by destruct (v_ciphertexts s H i t row ct Hrow Hct). Qed.

Lemma valid_well_shaped s : typed s -> valid s -> well_shaped s.
Proof. intros Hty H. split; [done|]. split; [apply v_rows | apply v_adds]; done. Qed.

Lemma res_mapM_ext_Ok {E A B} (f : A -> res E B) (g : A -> B) xs :
  (forall x, x ∈ xs -> f x = Ok (g x)) -> res_mapM f xs = Ok (g <$> xs).
Proof.
  intros H. apply res_mapM_Ok. induction xs as [|x xs IH]; [constructor|].
  rewrite fmap_cons. constructor; [apply H; left|]. apply IH. intros y Hy. apply H. by right.
Qed.

Lemma res_mapM_Panic {E A B} (f : A -> res E B) xs x :
  (forall y e, f y <> Err e) -> x ∈ xs -> f x = Panic -> res_mapM f xs = Panic.
Proof.
  intros Hne Hx Hp. induction Hx as [xs|z y xs Hx IH]; cbn; [by rewrite Hp|].
  destruct (f y) as [b| e |] eqn:Hy; cbn; [by rewrite (IH Hp) | by destruct (Hne y e) | done].
Qed.

Lemma fmap_seq_lookup {A} (l : list A) d : (fun t => default d (l !! t)) <$> seq 0 (length l) = l.
Proof.
  apply list_eq_same_length with (n := length l); [done | by rewrite length_fmap, length_seq |].
  intros i x y Hi Hx Hy. rewrite list_lookup_fmap, lookup_seq_lt in Hx by done. cbn in Hx.
  rewrite Hy in Hx. by simplify_eq.
Qed.

Section slot_tree.
Context {K : Keccak} {P : Poseidon} {E : Type}.

Definition row_digests (row : TokenCiphertexts) : list Bytes32 :=
  (fun ct => hash_words (Ct.digest_words ct)) <$> row.

(** The preimage of slot [i]'s leaf, recomputed field by field. *)
Definition slot_words (s : BalanceState) (i : nat) : list Z :=
  balance_slot_leaf_preimage (default bytes32_default (regev_pk_digests s !! i))
    (row_digests (default [] (enc_balances s !! i)))
    (default [] (pending_adds s !! i)) (default address_default (recipients s !! i)).

Definition leaf_list (s : BalanceState) : list PHash :=
  (fun i => hash_inputs_u64 (slot_words s i)) <$> seq 0 MAX_CHANNEL_MEMBERS.

Lemma length_leaf_list s : length (leaf_list s) = MAX_CHANNEL_MEMBERS.
Proof. unfold leaf_list. by rewrite length_fmap, length_seq. Qed.

(** The memoised digests are the plain ones. *)
Lemma token_ct_digests_Ok row :
  length row = MAX_CHANNEL_TOKENS -> Forall ct_ok row ->
  token_ct_digests (E := E) row = Ok (row_digests row).
Proof.
  intros Hlen Hok. unfold token_ct_digests. rewrite <- Hlen.
  rewrite (res_mapM_ext_Ok _ (fun t => hash_words (Ct.digest_words (default zero_ciphertext (row !! t))))).
  - f_equal. transitivity (row_digests ((fun t => default zero_ciphertext (row !! t)) <$> seq 0 (length row))).
    + unfold row_digests. by rewrite <- list_fmap_compose.
    + by rewrite fmap_seq_lookup.
  - intros t Ht%elem_of_seq. destruct (row !! t) as [ct|] eqn:Hct; [|apply lookup_ge_None in Hct; lia].
    cbn [unwrap mbind res_bind from_option]. unfold id. rewrite Forall_lookup in Hok. specialize (Hok t ct Hct).
    destruct (decide (ct = zero_ciphertext)) as [->|]; [unfold zero_ciphertext_digest|]; by apply ct_digest_ok.
Qed.

Lemma zero_row_digests :
  row_digests zero_token_row = replicate MAX_CHANNEL_TOKENS (hash_words (Ct.digest_words zero_ciphertext)).
Proof. unfold row_digests, zero_token_row. by rewrite fmap_replicate. Qed.

Lemma forallb_zero_row row :
  length row = MAX_CHANNEL_TOKENS ->
  forallb (fun ct => bool_decide (ct = zero_ciphertext)) row = true -> row = zero_token_row.
Proof.
  intros Hlen H. symmetry. apply replicate_as_Forall. split; [done|]. rewrite forallb_forall in H.
  apply Forall_forall. intros ct Hct. symmetry. by apply H, bool_decide_eq_true in Hct.
Qed.

(** The padding shortcut and the cached digests do not change the leaves. *)
Lemma slot_leaf_hashes_Ok s :
  well_shaped s -> ciphertexts_ok s -> slot_leaf_hashes (E := E) s = Ok (leaf_list s).
Proof.
  intros (Hty & Hrows & Hadds) Hok. unfold slot_leaf_hashes.
  rewrite Hrows, Hadds, Nat.eqb_refl. cbn [assert_that mbind res_bind].
  unfold zero_ciphertext_digest. rewrite ct_digest_ok by apply padding_ok. cbn [mbind res_bind].
  apply res_mapM_ext_Ok. intros i Hi%elem_of_seq. unfold slot_leaf_hash, slot_words.
  pose proof (ty_digests s Hty). pose proof (ty_recipients s Hty).
  destruct (lookup_lt_is_Some_2 (regev_pk_digests s) i) as [d Hd]; [lia|].
  destruct (lookup_lt_is_Some_2 (pending_adds s) i) as [adds Ha]; [lia|].
  destruct (lookup_lt_is_Some_2 (recipients s) i) as [r Hr]; [lia|].
  destruct (lookup_lt_is_Some_2 (enc_balances s) i) as [row Hrow]; [lia|].
  rewrite Hd, Ha, Hr, Hrow. cbn [unwrap mbind res_bind from_option]. unfold id.
  assert (length row = MAX_CHANNEL_TOKENS) as Hlen
    by (eapply (Forall_lookup_1 _ _ _ _ (ty_rows s Hty)), Hrow).
  destruct (is_padding_slot d adds r row) eqn:Hpad.
  - unfold is_padding_slot in Hpad. simplify_bool. subst.
    rewrite (forallb_zero_row row) by done. by rewrite zero_row_digests.
  - rewrite token_ct_digests_Ok; [done|done|]. apply Forall_lookup. intros t ct Ht.
    by eapply Hok.
Qed.

Lemma chunks_two {A} (a b : A) l : chunks 2 (a :: b :: l) = [a; b] :: chunks 2 l.
Proof.
  unfold chunks. change (chunks_fuel (length (a :: b :: l)) 2 (a :: b :: l))
    with ([a; b] :: chunks_fuel (S (length l)) 2 (drop 0 l)). rewrite drop_0. f_equal.
  enough (forall f g, (length l <= f)%nat -> (length l <= g)%nat -> chunks_fuel f 2 l = chunks_fuel g 2 l)
    as H by (apply H; cbn; lia).
  remember (length l) as n eqn:Hn. revert l Hn. induction (lt_wf n) as [n _ IH]. intros l -> f g Hf Hg.
  destruct l as [|x l]; [by destruct f, g|].
  destruct f as [|f]; [cbn in Hf; lia|]. destruct g as [|g]; [cbn in Hg; lia|].
  cbn [chunks_fuel]. f_equal. eapply IH; [|reflexivity| |]; rewrite length_drop; cbn in *; lia.
Qed.

Lemma hash_pairs_layer_step n (level : list PHash) :
  length level = (2 * n)%nat ->
  res_mapM (E := E) hash_pair (chunks 2 level) = Ok (layer_step level).
Proof.
  revert level. induction n as [|n IH]; intros level Hl; [by destruct level|].
  destruct level as [|a [|b rest]]; cbn in Hl; [lia|lia|].
  rewrite chunks_two. cbn [res_mapM hash_pair lookup list_lookup]. rewrite IH by lia. done.
Qed.

Lemma fold_levels_layer_loop fuel m (level : list PHash) r :
  length level = (2 ^ m)%nat -> layer_loop fuel level = Ok r -> fold_levels (E := E) fuel level = Ok r.
Proof.
  revert m level. induction fuel as [|fuel IH]; intros m level Hl H; [done|].
  cbn [layer_loop fold_levels] in *. change (@length (@HashOut PoseidonLeafableHasher) level) with (@length PHash level) in *.
  destruct (Nat.ltb_spec 1 (length level)).
  - destruct m as [|m]; [cbn in Hl; lia|]. rewrite Nat.pow_succ_r' in Hl.
    destruct (length level mod 2 =? 1)%nat; [done|].
    rewrite (hash_pairs_layer_step (2 ^ m)) by done. cbn [mbind res_bind].
    apply (IH m); [by apply (layer_step_length (Hs := PoseidonLeafableHasher)) | done].
  - apply unwrap_Ok in H. by apply unwrap_Ok.
Qed.

Lemma fold_levels_subtree (level : list PHash) m :
  length level = (2 ^ m)%nat ->
  fold_levels (E := E) (length level) level = Ok (subtree (list_leaves level) m 0).
Proof.
  intros Hl. apply (fold_levels_layer_loop _ m); [done|].
  rewrite (layer_loop_spec (list_leaves level) (length level) 0 m); [done| |].
  - split; [done|]. intros k Hk. unfold list_leaves. cbn.
    rewrite Nat2Z.id.
    destruct (lookup_lt_is_Some_2 level k) as [x Hx]; [lia|]. by rewrite Hx.
  - rewrite Hl. apply Nat.pow_gt_lin_r. lia.
Qed.

Lemma slot_tree_root_Ok s :
  well_shaped s -> ciphertexts_ok s ->
  slot_tree_root (E := E) s = Ok (subtree (list_leaves (leaf_list s)) BALANCE_SLOT_TREE_HEIGHT 0).
Proof.
  intros Hws Hok. unfold slot_tree_root. rewrite slot_leaf_hashes_Ok by done. cbn [mbind res_bind].
  apply fold_levels_subtree. by rewrite length_leaf_list, MAX_CHANNEL_MEMBERS_pow.
Qed.
End slot_tree.

(** ** [slot_tree] *)

Section slot_tree_incremental.
Context {K : Keccak} {P : Poseidon} {E : Type}.

Lemma slot_tree_Ok s :
  well_shaped s -> ciphertexts_ok s ->
  exists t, slot_tree (E := E) s = Ok t /\ Incremental.inv t /\
    Incremental.leaves t = leaf_list s /\ Incremental.height t = BALANCE_SLOT_TREE_HEIGHT.
Proof.
  intros Hws Hok. unfold slot_tree. rewrite slot_leaf_hashes_Ok by done. cbn [mbind res_bind].
  destruct (Incremental.unpack_loop (E := E) (leaf_list s) (Incremental.new BALANCE_SLOT_TREE_HEIGHT))
    as (t & Ht & Hinv & Hh & Hl).
  - apply Incremental.new_inv. unfold BALANCE_SLOT_TREE_HEIGHT. lia.
  - rewrite length_leaf_list. change (length (Incremental.leaves _)) with 0%nat.
    rewrite Nat.add_0_l, MAX_CHANNEL_MEMBERS_Z. done.
  - exists t. by split_and!.
Qed.

(** [slot_tree().get_root()] and [slot_tree_root()] agree. *)
Lemma slot_tree_get_root s t :
  well_shaped s -> ciphertexts_ok s -> slot_tree (E := E) s = Ok t ->
  Incremental.get_root (E := E) t = slot_tree_root s.
Proof.
  intros Hws Hok Ht. destruct (slot_tree_Ok s Hws Hok) as (t' & Ht' & Hinv & Hl & Hh).
  rewrite Ht in Ht'. simplify_res. rewrite slot_tree_root_Ok by done.
  rewrite Incremental.get_root_inv by done. by rewrite Hl, Hh.
Qed.
End slot_tree_incremental.

(** ** Panics of the hashing paths *)

Section panics.
Context {K : Keccak} {P : Poseidon} {E : Type}.

Lemma ct_digest_no_Err ct e : Ct.digest (E := E) ct <> Err e.
Proof. unfold Ct.digest. by destruct (is_ok (Ct.validate ct)). Qed.

Lemma res_mapM_no_Err {A B} (f : A -> res E B) xs e :
  (forall x e', f x <> Err e') -> res_mapM f xs <> Err e.
Proof.
  intros Hf. induction xs as [|x xs IH]; cbn; [done|].
  destruct (f x) eqn:Hx; cbn; [|by destruct (Hf x e0)|done].
  by destruct (res_mapM f xs).
Qed.

Lemma token_ct_digests_no_Err row e : token_ct_digests (E := E) row <> Err e.
Proof.
  apply res_mapM_no_Err. intros t e'. destruct (row !! t); cbn; [|done].
  destruct (decide _); apply ct_digest_no_Err.
Qed.

Lemma token_ct_digests_Panic row t ct :
  (t < MAX_CHANNEL_TOKENS)%nat -> row !! t = Some ct -> ~ ct_ok ct ->
  token_ct_digests (E := E) row = Panic.
Proof.
  intros Ht Hct Hbad. unfold token_ct_digests. eapply (res_mapM_Panic _ _ t).
  - intros t' e. destruct (row !! t'); cbn; [|done]. destruct (decide _); apply ct_digest_no_Err.
  - apply elem_of_seq. lia.
  - rewrite Hct. cbn. rewrite decide_False; [by apply ct_digest_panics|].
    intros ->. by apply Hbad, padding_ok.
Qed.

Lemma slot_leaf_hash_no_Err s pad i e : slot_leaf_hash (E := E) s pad i <> Err e.
Proof.
  unfold slot_leaf_hash.
  destruct (regev_pk_digests s !! i), (pending_adds s !! i), (recipients s !! i), (enc_balances s !! i);
    cbn [unwrap mbind res_bind]; try done.
  destruct (is_padding_slot _ _ _ _); [done|].
  destruct (token_ct_digests (E := E) l2) eqn:Ht; cbn [mbind res_bind]; [done| |done]. by apply token_ct_digests_no_Err in Ht.
Qed.

(** A non-canonical ciphertext anywhere in the matrix makes [slot_leaf_hashes] panic. *)
Lemma slot_leaf_hashes_Panic s i t row ct :
  well_shaped s -> enc_balances s !! i = Some row -> row !! t = Some ct -> ~ ct_ok ct ->
  slot_leaf_hashes (E := E) s = Panic.
Proof.
  intros (Hty & Hrows & Hadds) Hrow Hct Hbad. unfold slot_leaf_hashes.
  rewrite Hrows, Hadds, Nat.eqb_refl. cbn [assert_that mbind res_bind].
  unfold zero_ciphertext_digest. rewrite ct_digest_ok by apply padding_ok. cbn [mbind res_bind].
  pose proof (lookup_lt_Some _ _ _ Hrow).
  assert (length row = MAX_CHANNEL_TOKENS) as Hlen
    by (eapply (Forall_lookup_1 _ _ _ _ (ty_rows s Hty)), Hrow).
  eapply (res_mapM_Panic _ _ i); [apply slot_leaf_hash_no_Err | apply elem_of_seq; lia |].
  unfold slot_leaf_hash. pose proof (ty_digests s Hty). pose proof (ty_recipients s Hty).
  destruct (lookup_lt_is_Some_2 (regev_pk_digests s) i) as [d Hd]; [lia|].
  destruct (lookup_lt_is_Some_2 (pending_adds s) i) as [adds Ha]; [lia|].
  destruct (lookup_lt_is_Some_2 (recipients s) i) as [r Hr]; [lia|].
  rewrite Hd, Ha, Hr, Hrow. cbn [unwrap mbind res_bind].
  destruct (is_padding_slot d adds r row) eqn:Hpad.
  - exfalso. unfold is_padding_slot in Hpad. simplify_bool.
    rewrite forallb_forall in *. apply Hbad. enough (ct = zero_ciphertext) as -> by apply padding_ok.
    eapply bool_decide_eq_true, H3, list_elem_of_In, list_elem_of_lookup_2, Hct.
  - by rewrite (token_ct_digests_Panic row t ct); [|apply lookup_lt_Some in Hct; lia|done..].
Qed.

Lemma slot_leaf_hashes_short s :
  length (enc_balances s) <> MAX_CHANNEL_MEMBERS \/ length (pending_adds s) <> MAX_CHANNEL_MEMBERS ->
  slot_leaf_hashes (E := E) s = Panic.
Proof.
  intros H. unfold slot_leaf_hashes.
  destruct (Nat.eqb_spec (length (enc_balances s)) MAX_CHANNEL_MEMBERS); [|done]. cbn.
  destruct (Nat.eqb_spec (length (pending_adds s)) MAX_CHANNEL_MEMBERS); [|done]. by destruct H.
Qed.

Lemma h1_Panic s : slot_leaf_hashes (E := E) s = Panic -> h1 (E := E) s = Panic.
Proof. intros H. unfold h1, h1_header_preimage, slot_tree_root. by rewrite H. Qed.

(** Four words an output are enough. *)
Lemma h1_words s : (forall h : PHash, length (phash_to_u64_vec h) = 4%nat) ->
  well_shaped s -> ciphertexts_ok s ->
  exists b, h1 (E := E) s = Ok b /\
    words_into_bytes32 (E := E) (phash_to_u64_vec (hash_inputs_u64 (h1_header_words s
      (subtree (list_leaves (leaf_list s)) BALANCE_SLOT_TREE_HEIGHT 0)))) = Ok b.
Proof.
  intros Hlen Hws Hok. unfold h1, h1_header_preimage. rewrite slot_tree_root_Ok by done.
  cbn [mbind res_bind]. unfold phash_into_bytes32.
  edestruct (PoseidonHashOut_lemmas.words_into_bytes32_ok (E := E)) as (b & Hb & _);
    [apply Hlen|]. exists b. by split.
Qed.

Lemma h1_Ok {PO : PoseidonOutput P} s :
  well_shaped s -> ciphertexts_ok s ->
  exists b, h1 (E := E) s = Ok b /\
    words_into_bytes32 (E := E) (phash_to_u64_vec (hash_inputs_u64 (h1_header_words s
      (subtree (list_leaves (leaf_list s)) BALANCE_SLOT_TREE_HEIGHT 0)))) = Ok b.
Proof. apply h1_words, poseidon_output_length. Qed.
End panics.

(** ** Binding of [h1]

    The commitment is a tree of hashes.  [poseidon_queries] and [keccak_queries]
    are the inputs that computing it hashes; [no_collision] says that the hash
    does not collide between two such finite sets. *)

Definition no_collision {A} (h : list Z -> A) (q q' : list (list Z)) : Prop :=
  forall x y, x ∈ q -> y ∈ q' -> h x = h y -> x = y.

Lemma no_collision_or {A} `{EqDecision A} (h : list Z -> A) q q' :
  no_collision h q q' \/ collision h q q'.
Proof.
  destruct (decide (Exists (fun x => Exists (fun y => x <> y /\ h x = h y) q') q)) as [H|H].
  - right. apply list.Exists_exists in H as (x & Hx & H). apply list.Exists_exists in H as (y & Hy & H & ?).
    by exists x, y.
  - left. intros x y Hx Hy Hh. destruct (decide (x = y)) as [|Hne]; [done|]. destruct H.
    apply list.Exists_exists. exists x. split; [done|]. apply list.Exists_exists. by exists y.
Qed.

Lemma no_collision_app {A} (h : list Z -> A) q1 q2 q1' q2' :
  no_collision h (q1 ++ q2) (q1' ++ q2') -> no_collision h q1 q1' /\ no_collision h q2 q2'.
Proof.
  intros H. split; intros x y Hx Hy; apply H; apply elem_of_app; auto.
Qed.

Section binding.
Context {K : Keccak} {P : Poseidon} {PO : PoseidonOutput P} {E : Type}.

Fixpoint node_inputs (level : list PHash) : list (list Z) :=
  match level with
  | a :: b :: rest => (phash_to_u64_vec a ++ phash_to_u64_vec b) :: node_inputs rest
  | _ => []
  end.

Fixpoint tree_queries (m : nat) (level : list PHash) : list (list Z) :=
  match m with
  | O => []
  | S m' => node_inputs level ++ tree_queries m' (layer_step (Hs := PoseidonLeafableHasher) level)
  end.

Definition keccak_queries (s : BalanceState) : list (list Z) :=
  Ct.digest_words <$> concat (enc_balances s).

Definition poseidon_queries (s : BalanceState) : list (list Z) :=
  [h1_header_words s (subtree (list_leaves (leaf_list s)) BALANCE_SLOT_TREE_HEIGHT 0)]
    ++ tree_queries BALANCE_SLOT_TREE_HEIGHT (leaf_list s)
    ++ (slot_words s <$> seq 0 MAX_CHANNEL_MEMBERS).

Lemma layer_step_binding n (l l' : list PHash) :
  length l = (2 * n)%nat -> length l' = (2 * n)%nat ->
  no_collision hash_inputs_u64 (node_inputs l) (node_inputs l') ->
  layer_step (Hs := PoseidonLeafableHasher) l = layer_step l' -> l = l'.
Proof.
  revert l l'. induction n as [|n IH]; intros l l' Hl Hl' Hnc H.
  - destruct l; [by destruct l'|done].
  - destruct l as [|a [|b l]]; cbn in Hl; [lia|lia|].
    destruct l' as [|a' [|b' l']]; cbn in Hl'; [lia|lia|].
    cbn [layer_step node_inputs] in *. injection H as Hab H.
    apply Hnc in Hab; [|left..].
    apply app_inj_1 in Hab as [Ha Hb]; [|by rewrite !poseidon_output_length].
    apply (inj phash_to_u64_vec) in Ha as ->, Hb as ->. do 2 f_equal.
    apply IH; [lia|lia| |done]. intros x y Hx Hy. apply Hnc; by right.
Qed.

Lemma subtree_layer_step m (l : list PHash) :
  length l = (2 ^ S m)%nat ->
  subtree (list_leaves l) (S m) 0 = subtree (list_leaves (layer_step (Hs := PoseidonLeafableHasher) l)) m 0.
Proof.
  intros Hl. apply (Ok_inj (E := GetRootFromLeavesError)).
  assert (forall (k : list PHash) m, length k = (2 ^ m)%nat -> is_layer (list_leaves k) 0 m k) as Hlay.
  { intros k j Hk. split; [done|]. intros i Hi. cbn. unfold list_leaves. rewrite Nat2Z.id.
    destruct (lookup_lt_is_Some_2 k i) as [x Hx]; [lia|]. by rewrite Hx. }
  rewrite <- (layer_loop_spec (Hs := PoseidonLeafableHasher) _ (S (S m)) 0 (S m) l); [|by apply Hlay|lia].
  rewrite <- (layer_loop_spec (Hs := PoseidonLeafableHasher) _ (S m) 0 m (layer_step (Hs := PoseidonLeafableHasher) l)); [|apply Hlay|lia].
  - cbn [layer_loop]. change (@length (@HashOut PoseidonLeafableHasher) l) with (@length PHash l).
    rewrite Hl. pose proof (Nat.pow_nonzero 2 m). rewrite Nat.pow_succ_r'.
    destruct (Nat.ltb_spec 1 (2 * 2 ^ m)); [|lia].
    by rewrite (Nat.mul_comm 2), Nat.Div0.mod_mul.
  - rewrite Nat.pow_succ_r' in Hl. by apply (layer_step_length (Hs := PoseidonLeafableHasher)).
Qed.

Lemma tree_binding m (l l' : list PHash) :
  length l = (2 ^ m)%nat -> length l' = (2 ^ m)%nat ->
  no_collision hash_inputs_u64 (tree_queries m l) (tree_queries m l') ->
  subtree (list_leaves l) m 0 = subtree (list_leaves l') m 0 -> l = l'.
Proof.
  revert l l'. induction m as [|m IH]; intros l l' Hl Hl' Hnc H.
  - apply list_eq_len_1 in Hl as [x ->], Hl' as [y ->]. change (x = y) in H. congruence.
  - rewrite !subtree_layer_step in H by done. rewrite Nat.pow_succ_r' in Hl, Hl'.
    cbn [tree_queries] in Hnc. apply no_collision_app in Hnc as [Hnc1 Hnc2].
    apply (layer_step_binding (2 ^ m)); [done..|].
    apply IH; [by apply (layer_step_length (Hs := PoseidonLeafableHasher))..|done|done].
Qed.

Lemma row_digests_binding row row' :
  Forall ct_ok row -> Forall ct_ok row' ->
  no_collision hash_words (Ct.digest_words <$> row) (Ct.digest_words <$> row') ->
  row_digests row = row_digests row' -> row = row'.
Proof.
  revert row'. induction row as [|ct row IH]; intros [|ct' row'] Hok Hok' Hnc H; try done.
  apply Forall_cons_iff in Hok as [? ?], Hok' as [? ?].
  cbn [row_digests fmap list_fmap] in H. injection H as Hd H. rewrite !fmap_cons in Hnc.
  apply Hnc in Hd; [|left..]. apply digest_words_inj in Hd as ->; [|done..]. f_equal.
  apply IH; [done..| |done]. intros x y Hx Hy. apply Hnc; by right.
Qed.

Lemma leaf_preimage_inj d d' ds ds' adds adds' r r' :
  length ds = length ds' -> length adds = length adds' ->
  balance_slot_leaf_preimage d ds adds r = balance_slot_leaf_preimage d' ds' adds' r' ->
  d = d' /\ ds = ds' /\ adds = adds' /\ r = r'.
Proof.
  intros Hds Hadds H. unfold balance_slot_leaf_preimage in H. cbn [app] in H. injection H as H.
  apply limbs_app_inj in H as [-> H]. apply limbs_list_app_inj in H as [-> H]; [|done].
  apply app_inj_1 in H as [-> H]; [|done]. split_and!; try done. by apply Limbs_eq.
Qed.

Lemma header_words_inj s s' root root' :
  typed s -> typed s' -> h1_header_words s root = h1_header_words s' root' ->
  root = root' /\ channel_id s = channel_id s' /\ member_count s = member_count s' /\
  delegate_count s = delegate_count s' /\ token_count s = token_count s' /\
  token_registry s = token_registry s' /\ settled_tx_chain s = settled_tx_chain s' /\
  settled_tx_accumulator_root s = settled_tx_accumulator_root s' /\
  state_version s = state_version s'.
Proof.
  intros Hty Hty' H. unfold h1_header_words in H. cbn [app] in H.
  injection H as Hc Hm Hd Ht H.
  apply app_inj_1 in H as [Hr H]; [|by rewrite !ty_registry].
  apply app_inj_1 in H as [Hroot H]; [|by rewrite !poseidon_output_length].
  apply (inj phash_to_u64_vec) in Hroot. apply limbs_app_inj in H as [? H].
  apply limbs_app_inj in H as [? H].
  rewrite <- (app_nil_r (split_u64 (state_version s))), <- (app_nil_r (split_u64 (state_version s'))) in H.
  apply split_u64_app_inj in H as [? _]; [by split_and!|apply ty_state_version; done..].
Qed.

Lemma elem_of_keccak_queries s i row ct :
  enc_balances s !! i = Some row -> ct ∈ row -> Ct.digest_words ct ∈ keccak_queries s.
Proof.
  intros Hrow Hct. unfold keccak_queries. apply list_elem_of_fmap_2.
  apply list_elem_of_In, in_concat. exists row. split; apply list_elem_of_In; [|done].
  by eapply list_elem_of_lookup_2.
Qed.

(** Equal slot preimages come from equal slots. *)
Lemma slot_binding s s' i :
  well_shaped s -> well_shaped s' -> ciphertexts_ok s -> ciphertexts_ok s' ->
  no_collision hash_words (keccak_queries s) (keccak_queries s') ->
  (i < MAX_CHANNEL_MEMBERS)%nat -> slot_words s i = slot_words s' i ->
  regev_pk_digests s !! i = regev_pk_digests s' !! i /\ enc_balances s !! i = enc_balances s' !! i /\
  pending_adds s !! i = pending_adds s' !! i /\ recipients s !! i = recipients s' !! i.
Proof.
  intros (Hty & Hrows & Hadds) (Hty' & Hrows' & Hadds') Hok Hok' Hnc Hi H.
  pose proof (ty_digests s Hty). pose proof (ty_recipients s Hty).
  pose proof (ty_digests s' Hty'). pose proof (ty_recipients s' Hty').
  destruct (lookup_lt_is_Some_2 (regev_pk_digests s) i) as [d Hd]; [lia|].
  destruct (lookup_lt_is_Some_2 (pending_adds s) i) as [adds Ha]; [lia|].
  destruct (lookup_lt_is_Some_2 (recipients s) i) as [r Hr]; [lia|].
  destruct (lookup_lt_is_Some_2 (enc_balances s) i) as [row Hrow]; [lia|].
  destruct (lookup_lt_is_Some_2 (regev_pk_digests s') i) as [d' Hd']; [lia|].
  destruct (lookup_lt_is_Some_2 (pending_adds s') i) as [adds' Ha']; [lia|].
  destruct (lookup_lt_is_Some_2 (recipients s') i) as [r' Hr']; [lia|].
  destruct (lookup_lt_is_Some_2 (enc_balances s') i) as [row' Hrow']; [lia|].
  unfold slot_words in H. rewrite Hd, Ha, Hr, Hrow, Hd', Ha', Hr', Hrow' in *. cbn [from_option] in H.
  unfold id in H.
  pose proof (Forall_lookup_1 _ _ _ _ (ty_rows s Hty) Hrow).
  pose proof (Forall_lookup_1 _ _ _ _ (ty_rows s' Hty') Hrow').
  pose proof (Forall_lookup_1 _ _ _ _ (ty_adds s Hty) Ha).
  pose proof (Forall_lookup_1 _ _ _ _ (ty_adds s' Hty') Ha'). cbn in *.
  apply leaf_preimage_inj in H as (-> & Hds & -> & ->);
    [|unfold row_digests; rewrite !length_fmap; congruence|congruence].
  split_and!; try done. f_equal. apply row_digests_binding; [| | |done].
  - apply Forall_lookup. intros t ct Ht. by eapply Hok.
  - apply Forall_lookup. intros t ct Ht. by eapply Hok'.
  - intros x y (ct & -> & Hct)%list_elem_of_fmap (ct' & -> & Hct')%list_elem_of_fmap.
    apply Hnc; by eapply elem_of_keccak_queries.
Qed.

Lemma leaf_list_binding s s' :
  no_collision hash_inputs_u64 (slot_words s <$> seq 0 MAX_CHANNEL_MEMBERS)
    (slot_words s' <$> seq 0 MAX_CHANNEL_MEMBERS) ->
  leaf_list s = leaf_list s' ->
  forall i, (i < MAX_CHANNEL_MEMBERS)%nat -> slot_words s i = slot_words s' i.
Proof.
  intros Hnc H i Hi. apply Hnc.
  - apply list_elem_of_fmap_2, elem_of_seq. lia.
  - apply list_elem_of_fmap_2, elem_of_seq. lia.
  - assert (leaf_list s !! i = leaf_list s' !! i) as Hl by (by rewrite H).
    unfold leaf_list in Hl. rewrite !list_lookup_fmap, lookup_seq_lt in Hl by done. cbn [fmap option_fmap option_map Nat.add] in Hl. by injection Hl.
Qed.

(** Two canonical states with the same [h1] are the same state. *)
Lemma h1_injective s s' b :
  well_shaped s -> well_shaped s' -> ciphertexts_ok s -> ciphertexts_ok s' ->
  no_collision hash_inputs_u64 (poseidon_queries s) (poseidon_queries s') ->
  no_collision hash_words (keccak_queries s) (keccak_queries s') ->
  h1 (E := E) s = Ok b -> h1 (E := E) s' = Ok b -> s = s'.
Proof.
  intros Hws Hws' Hok Hok' Hnp Hnk Hb Hb'.
  destruct (h1_Ok (E := E) s Hws Hok) as (c & Hc & Hcw). rewrite Hb in Hc. simplify_res.
  destruct (h1_Ok (E := E) s' Hws' Hok') as (c' & Hc' & Hcw'). rewrite Hb' in Hc'. simplify_res.
  apply (PoseidonHashOut_lemmas.words_into_bytes32_inj (E := E) _ _ _
           (poseidon_output_length _) (poseidon_output_length _)
           (poseidon_output_u64 _) (poseidon_output_u64 _) Hcw) in Hcw'.
  apply (inj phash_to_u64_vec) in Hcw'. unfold poseidon_queries in Hnp.
  apply no_collision_app in Hnp as [Hn1 Hn2]. apply no_collision_app in Hn2 as [Hn2 Hn3].
  apply Hn1 in Hcw'; [|left..]. destruct Hws as [Hty [Hr Ha]], Hws' as [Hty' [Hr' Ha']].
  apply header_words_inj in Hcw' as (Hroot & ? & ? & ? & ? & ? & ? & ? & ?); [|done..].
  apply tree_binding in Hroot; [|rewrite length_leaf_list; apply MAX_CHANNEL_MEMBERS_pow..|done].
  pose proof (leaf_list_binding s s' Hn3 Hroot) as Hw.
  assert (forall i, (i < MAX_CHANNEL_MEMBERS)%nat -> _) as Hs
    by (intros i Hi; exact (slot_binding s s' i (conj Hty (conj Hr Ha)) (conj Hty' (conj Hr' Ha'))
                              Hok Hok' Hnk Hi (Hw i Hi))).
  assert (forall {A} (l l' : list A), length l = MAX_CHANNEL_MEMBERS -> length l' = MAX_CHANNEL_MEMBERS ->
    (forall i, (i < MAX_CHANNEL_MEMBERS)%nat -> l !! i = l' !! i) -> l = l') as Hext.
  { intros A l l' Hl Hl' Hi. apply list_eq. intros i.
    destruct (decide (i < MAX_CHANNEL_MEMBERS)%nat); [by apply Hi|].
    rewrite !lookup_ge_None_2; [done|lia..]. }
  destruct s, s'; cbn in *; subst. f_equal; apply Hext; try done;
    try (by apply (ty_digests _ Hty)); try (by apply (ty_digests _ Hty'));
    try (by apply (ty_recipients _ Hty)); try (by apply (ty_recipients _ Hty'));
    intros i Hi; by destruct (Hs i Hi) as (? & ? & ? & ?).
Qed.

(** Without assumptions on the hashes: equal commitments mean equal states or a collision in hand. *)
Lemma h1_binding s s' b :
  well_shaped s -> well_shaped s' -> ciphertexts_ok s -> ciphertexts_ok s' ->
  h1 (E := E) s = Ok b -> h1 (E := E) s' = Ok b ->
  s = s' \/ collision hash_inputs_u64 (poseidon_queries s) (poseidon_queries s')
    \/ collision hash_words (keccak_queries s) (keccak_queries s').
Proof.
  intros. destruct (no_collision_or hash_inputs_u64 (poseidon_queries s) (poseidon_queries s')); [|auto].
  destruct (no_collision_or hash_words (keccak_queries s) (keccak_queries s')); [|auto].
  left. by eapply h1_injective.
Qed.
End binding.

(** ** Token registration *)

Lemma apply_token_register_Ok s token_index s' :
  apply_token_register s token_index = Ok s' ->
  (active_tokens s < MAX_CHANNEL_TOKENS)%nat /\
  token_index ∉ take (active_tokens s) (token_registry s) /\
  token_registry s' = <[active_tokens s := token_index]> (token_registry s) /\
  token_count s' = wrap 8 (token_count s + 1) /\
  state_version s' = wrap 64 (state_version s + 1) /\
  channel_id s' = channel_id s /\ member_count s' = member_count s /\
  delegate_count s' = delegate_count s /\ enc_balances s' = enc_balances s /\
  regev_pk_digests s' = regev_pk_digests s /\ recipients s' = recipients s /\
  settled_tx_chain s' = settled_tx_chain s /\
  settled_tx_accumulator_root s' = settled_tx_accumulator_root s /\ pending_adds s' = pending_adds s.
Proof.
  unfold apply_token_register. fold (active_tokens s).
  destruct (Nat.leb_spec MAX_CHANNEL_TOKENS (active_tokens s)); [done|].
  destruct (bool_decide_reflect (token_index ∈ take (active_tokens s) (token_registry s))); [done|].
  intros [= <-]. done.
Qed.

Lemma apply_token_register_Err s token_index :
  match apply_token_register s token_index with
  | Ok _ => (active_tokens s < MAX_CHANNEL_TOKENS)%nat /\ token_index ∉ take (active_tokens s) (token_registry s)
  | Err e => e = InvalidBalanceState /\
      ((MAX_CHANNEL_TOKENS <= active_tokens s)%nat \/ token_index ∈ take (active_tokens s) (token_registry s))
  | Panic => False
  end.
Proof.
  unfold apply_token_register. fold (active_tokens s).
  destruct (Nat.leb_spec MAX_CHANNEL_TOKENS (active_tokens s)); [by split; [|left]|].
  destruct (bool_decide_reflect (token_index ∈ take (active_tokens s) (token_registry s))); [by split; [|right]|done].
Qed.

(** Registering a token keeps the state typed and valid and activates exactly one more slot. *)
Lemma apply_token_register_valid s token_index s' :
  typed s -> valid s -> apply_token_register s token_index = Ok s' ->
  typed s' /\ valid s' /\ active_tokens s' = S (active_tokens s).
Proof.
  intros Hty Hv H. pose proof (apply_token_register_Ok _ _ _ H) as
    (Hlt & Hni & Hreg & Htc & Hsv & Hc & Hm & Hd & He & Hp & Hr & _ & _ & Ha).
  assert (0 <= token_count s < 2 ^ 8) as Hw by apply (ty_token_count s Hty).
  unfold MAX_CHANNEL_TOKENS in Hlt.
  assert (token_count s' = token_count s + 1) as Htc'.
  { rewrite Htc. apply wrap_id. unfold in_width, active_tokens in *. lia. }
  assert (active_tokens s' = S (active_tokens s)) as Hat by (unfold active_tokens; lia).
  assert (active_slots s' = active_slots s) as Has by (unfold active_slots; congruence).
  pose proof (ty_registry s Hty) as Hlen.
  split_and!; [|constructor|done].
  - destruct Hty. constructor; try congruence.
    + rewrite Htc. apply wrap_in_width. lia.
    + rewrite Hsv. apply wrap_in_width. lia.
    + by rewrite Hreg, length_insert.
  - rewrite He. apply (v_rows s Hv).
  - rewrite Ha. apply (v_adds s Hv).
  - rewrite Hat. unfold MAX_CHANNEL_TOKENS. lia.
  - rewrite Hat, Hreg. intros i j a Hij Hi Hj.
    rewrite list_lookup_insert_ne in Hi by lia.
    destruct (decide (j = active_tokens s)) as [->|].
    + rewrite list_lookup_insert_eq in Hj by (rewrite Hlen; unfold MAX_CHANNEL_TOKENS; lia).
      simplify_eq. apply Hni, list_elem_of_lookup. exists i. by rewrite lookup_take_lt by lia.
    + rewrite list_lookup_insert_ne in Hj by lia. apply (v_injective s Hv i j a); [lia|done..].
  - rewrite Hat, Hreg. intros t a Ht Hta. rewrite list_lookup_insert_ne in Hta by lia.
    apply (v_registry_padding s Hv t a); [lia|done].
  - rewrite Hm. apply (v_member_count s Hv).
  - rewrite Has. apply (v_active s Hv).
  - rewrite He, Has, Hat. intros i t row ct Hrow Hct.
    destruct (v_ciphertexts s Hv i t row ct Hrow Hct) as [? Hz]. split; [done|].
    intros [|]; apply Hz; [by left | right; lia].
  - rewrite Hp, Has. apply (v_digests s Hv).
  - rewrite Hr, Has. apply (v_recipients s Hv).
  - rewrite Ha, Has, Hat. intros i t row adds Hrow Hadd.
    destruct (v_pending s Hv i t row adds Hrow Hadd) as [? Hz]. split; [done|].
    intros [|]; apply Hz; [by left | right; lia].
Qed.

Lemma verify_token_register_transition_Ok prev next token_index u :
  verify_token_register_transition prev next token_index = Ok u <->
  apply_token_register prev token_index = Ok next.
Proof.
  unfold verify_token_register_transition. destruct u. rewrite bind_Ok. split.
  - intros (expected & He & H). by destruct (decide (next = expected)) as [->|].
  - intros H. exists next. split; [done|]. by rewrite decide_True.
Qed.

(** ** The compact wire form *)

Section serde.
Import TokenMatrixSerde.
Context {V : Type} `{EqDecision V} (zero : V).

Lemma sparse_row_lookup row (t : nat) :
  sparse_row zero row !! Z.of_nat t =
  match row !! t with Some v => if decide (v = zero) then None else Some v | None => None end.
Proof.
  unfold sparse_row.
  assert (base.NoDup (fst <$> filter (fun '(_, v) => v <> zero)
                   (imap (fun t v => (Z.of_nat t, v)) row))) as Hnd.
  { eapply sublist_NoDup; [|apply fmap_sublist, sublist_filter].
    replace (fst <$> imap (fun t v => (Z.of_nat t, v)) row) with (Z.of_nat <$> seq 0 (length row)).
    - apply NoDup_fmap_2; [apply _|apply NoDup_seq].
    - apply list_eq. intros i. rewrite !list_lookup_fmap, list_lookup_imap.
      destruct (decide (i < length row)%nat) as [Hi|Hi].
      + rewrite lookup_seq_lt by done. by destruct (lookup_lt_is_Some_2 row i Hi) as [x ->].
      + by rewrite lookup_seq_ge, lookup_ge_None_2 by lia. }
  apply option_eq. intros v. rewrite <- elem_of_list_to_map by done.
  rewrite list_elem_of_filter, list_elem_of_lookup. setoid_rewrite list_lookup_imap. split.
  - intros [Hv (i & Hi)]. destruct (row !! i) as [w|] eqn:Hw; cbn in Hi; [|done].
    injection Hi as Hi ->. apply Nat2Z.inj in Hi as ->. by rewrite Hw, decide_False.
  - intros H. destruct (row !! t) as [w|] eqn:Hw; [|done].
    destruct (decide (w = zero)); [done|]. simplify_eq. split; [done|]. exists t. by rewrite Hw.
Qed.

Lemma sparse_row_keys row k v :
  sparse_row zero row !! k = Some v -> 0 <= k < Z.of_nat (length row).
Proof.
  intros H. unfold sparse_row in H. apply elem_of_list_to_map_2, list_elem_of_filter in H as [_ H].
  apply list_elem_of_lookup in H as (i & Hi). rewrite list_lookup_imap in Hi.
  destruct (row !! i) eqn:Hw; cbn in Hi; [|done]. simplify_eq.
  apply lookup_lt_Some in Hw. lia.
Qed.

Lemma dense_sparse_row row :
  length row = MAX_CHANNEL_TOKENS -> dense_row zero (sparse_row zero row) = row.
Proof.
  intros Hlen. unfold dense_row. rewrite <- Hlen. rewrite <- (fmap_seq_lookup row zero) at 2.
  apply list_fmap_ext. intros i t _. rewrite sparse_row_lookup.
  destruct (row !! t) as [v|]; [|done]. by destruct (decide (v = zero)) as [->|].
Qed.

Lemma dense_row_empty : dense_row zero ∅ = replicate MAX_CHANNEL_TOKENS zero.
Proof. done. Qed.

Lemma deserialize_sparse_row slot row :
  length row = MAX_CHANNEL_TOKENS ->
  deserialize_row zero slot (sparse_row zero row) = Ok row.
Proof.
  intros Hlen. unfold deserialize_row. destruct (existsb _ _) eqn:He.
  - exfalso. apply existsb_exists in He as ([t v] & Hin & Ht).
    apply list_elem_of_In, elem_of_map_to_list, sparse_row_keys in Hin.
    apply Z.leb_le in Ht. rewrite Hlen in Hin. lia.
  - by rewrite dense_sparse_row.
Qed.

Lemma pop_empty_spec (ms : list (gmap Z V)) :
  exists k, ms = replicate k ∅ ++ pop_empty ms.
Proof.
  induction ms as [|m ms [k IH]]; [by exists 0%nat|]. cbn.
  destruct (decide (m = ∅)) as [->|]; [|by exists 0%nat].
  exists (S k). cbn. by f_equal.
Qed.

Lemma serialize_spec rows :
  exists k, sparse_row zero <$> rows = serialize zero rows ++ replicate k ∅.
Proof.
  unfold serialize. destruct (pop_empty_spec (reverse (sparse_row zero <$> rows))) as [k Hk].
  exists k. rewrite <- (reverse_involutive (sparse_row zero <$> rows)) at 1. rewrite Hk at 1.
  by rewrite reverse_app, reverse_replicate.
Qed.

Lemma sparse_row_empty row :
  length row = MAX_CHANNEL_TOKENS -> sparse_row zero row = ∅ -> row = replicate MAX_CHANNEL_TOKENS zero.
Proof. intros Hlen H. by rewrite <- (dense_sparse_row row Hlen), H, dense_row_empty. Qed.

(** Loading what was stored gives the stored matrix back. *)
Lemma deserialize_serialize rows :
  length rows = MAX_CHANNEL_MEMBERS -> Forall (fun row => length row = MAX_CHANNEL_TOKENS) rows ->
  deserialize zero (serialize zero rows) = Ok rows.
Proof.
  intros Hlen Hrows. destruct (serialize_spec rows) as [k Hk].
  set (n := length (serialize zero rows)).
  assert (n + k = length rows)%nat as Hn.
  { rewrite <- (length_fmap (sparse_row zero)), Hk, length_app, length_replicate. done. }
  assert (serialize zero rows = sparse_row zero <$> take n rows) as Hser.
  { rewrite fmap_take, Hk. unfold n. by rewrite take_app_length. }
  assert (drop n rows = replicate k (replicate MAX_CHANNEL_TOKENS zero)) as Hdrop.
  { symmetry. apply replicate_as_Forall. split; [rewrite length_drop; lia|].
    apply Forall_lookup. intros i row Hi. symmetry.
    apply sparse_row_empty; [exact (Forall_lookup_1 _ _ _ _ (Forall_drop _ n _ Hrows) Hi)|].
    assert (replicate k (∅ : gmap Z V) !! i = Some (sparse_row zero row)) as Hr.
    { rewrite <- (drop_app_length (serialize zero rows) (replicate k ∅)), <- Hk. fold n.
      rewrite lookup_drop, list_lookup_fmap. rewrite lookup_drop in Hi. by rewrite Hi. }
    by apply lookup_replicate in Hr as [-> _]. }
  unfold deserialize. fold n. destruct (Nat.ltb_spec MAX_CHANNEL_MEMBERS n); [lia|].
  replace (res_mapM _ _) with (Ok (E := SerdeError) (take n rows)).
  - cbn [mbind res_bind]. unfold resize_with. f_equal.
    rewrite take_ge by (rewrite length_take; lia). rewrite length_take, <- Hlen.
    rewrite Nat.min_l by lia. replace (length rows - n)%nat with k by lia. rewrite <- Hdrop.
    apply take_drop.
  - symmetry. apply res_mapM_Ok, Forall2_same_length_lookup.
    + rewrite length_imap, Hser, length_fmap. done.
    + intros i [slot m] row Hm Hrow. rewrite list_lookup_imap, Hser, list_lookup_fmap, Hrow in Hm.
      cbn in Hm. simplify_eq. apply deserialize_sparse_row.
      exact (Forall_lookup_1 _ _ _ _ (Forall_take _ n _ Hrows) Hrow).
Qed.

(** What the loader accepts is always a full-width matrix. *)
Lemma deserialize_shape sparse rows :
  deserialize zero sparse = Ok rows ->
  length rows = MAX_CHANNEL_MEMBERS /\ Forall (fun row => length row = MAX_CHANNEL_TOKENS) rows.
Proof.
  unfold deserialize. destruct (Nat.ltb_spec MAX_CHANNEL_MEMBERS (length sparse)); [done|].
  intros Hd. simplify_res. apply res_mapM_Ok in Hr as Hf2. pose proof (Forall2_length Hf2) as Hl.
  rewrite length_imap in Hl. unfold resize_with. split.
  - rewrite length_app, length_take, length_replicate. lia.
  - apply Forall_app_2; [|apply Forall_replicate, length_replicate].
    apply Forall_take, Forall_lookup. intros i row Hrow.
    destruct (Forall2_lookup_r _ _ _ _ _ Hf2 Hrow) as ([slot m] & _ & Hrow').
    unfold deserialize_row in Hrow'. destruct (existsb _ _); [done|]. simplify_res.
    unfold dense_row. by rewrite length_fmap, length_seq.
Qed.
End serde.
