(* ===== verification/Account.v ===== *)
(** * The private account state

    Models the base-layer account of a channel: transfers, transactions and
    deposits with their leaf hashes and nullifiers
    ([src/src/common/transfer.rs], [tx.rs], [deposit.rs]), the nullifier tree
    ([trees/nullifier_tree.rs]), the private state and its commitment
    ([private_state.rs]), and the two ways it changes:
    [UpdatePrivateState::new] for an incoming transfer or deposit
    ([circuits/balance/common/update_private_state.rs]) and
    [SpendWitness::to_public_inputs] for an outgoing transaction
    ([circuits/balance/spend_circuit.rs]).

    Poseidon is the parameter of [Poseidon.v].  The private state holds only
    tree roots; [ledger] is what the roots stand for. *)

From S2P Require Import Prelude Limbs U63 MerkleTree LeafTrees Poseidon IndexedTree Keccak Regev BalanceState.

(* Amounts are leaves through [Leafable_U256]; [Bytes32] has the same representation. *)
#[local] Remove Hints Leafable_Bytes32 : typeclass_instances.

Definition ASSET_TREE_HEIGHT : nat := 32.
Definition NULLIFIER_TREE_HEIGHT : nat := 32.
Definition SENT_TX_TREE_HEIGHT : nat := 32.
Definition TRANSFER_TREE_HEIGHT : nat := 6.
Definition MAX_NUM_TRANSFERS_PER_TX : nat := Nat.shiftl 1 TRANSFER_TREE_HEIGHT.

Lemma asset_tree_height : Z.of_nat ASSET_TREE_HEIGHT = 32.
Proof. done. Qed.
Lemma nullifier_tree_height : Z.of_nat NULLIFIER_TREE_HEIGHT = 32.
Proof. done. Qed.
Lemma sent_tx_tree_height : Z.of_nat SENT_TX_TREE_HEIGHT = 32.
Proof. done. Qed.

(* The heights stay folded: a tree of height 32 is never computed. *)
#[global] Opaque ASSET_TREE_HEIGHT NULLIFIER_TREE_HEIGHT SENT_TX_TREE_HEIGHT.

(** The variants of [CommonError] that the nullifier tree returns. *)
Inductive CommonError := NullifierAlreadyExists | InvalidData.

(** [Result::expect]: an error panics. *)
Definition expect {E E' A} (m : res E A) : res E' A :=
  match m with Ok a => Ok a | _ => Panic end.

(** [impl From<Bytes32> for U256]. *)
Definition bytes32_into_u256 {E} (b : Bytes32) : res E U256 :=
  expect (from_u32_slice U256_LEN (to_u32_vec b)).

(** ** Transfers *)

Module Transfer.
Record Transfer := mk {
  recipient : Bytes32;
  token_index : Z;
  amount : U256;
  aux_data : Bytes32;
}.

#[global] Instance Transfer_eq_dec : EqDecision Transfer.
Proof. solve_decision. Defined.

Definition TRANSFER_LEN : nat := BYTES32_LEN + 1 + U256_LEN + BYTES32_LEN.

Definition default : Transfer := mk bytes32_default 0 u256_zero bytes32_default.

Definition to_u64_vec (t : Transfer) : list Z :=
  Limbs.to_u64_vec (recipient t) ++ [token_index t] ++ Limbs.to_u64_vec (amount t)
    ++ Limbs.to_u64_vec (aux_data t).

Definition poseidon_hash {P : Poseidon} (t : Transfer) : PHash := hash_inputs_u64 (to_u64_vec t).
End Transfer.
Notation Transfer := Transfer.Transfer.

(** [impl Leafable for Transfer]. *)
#[export] Instance Leafable_Transfer {P : Poseidon} : Leafable Transfer := {|
  empty_leaf := Transfer.default;
  leaf_hash t := hash_inputs_u64 (Transfer.to_u64_vec t);
|}.

Module SettledTransfer.
Record SettledTransfer := mk {
  inner : Transfer;
  from : ChannelId;
  transfer_index : Z;
  nonce : Z;
}.

Definition to_u64_vec (t : SettledTransfer) : list Z :=
  Transfer.to_u64_vec (inner t) ++ ChannelId.to_u32_vec (from t) ++ [transfer_index t] ++ [nonce t].

Definition poseidon_hash {P : Poseidon} (t : SettledTransfer) : PHash := hash_inputs_u64 (to_u64_vec t).

Definition nullifier {P : Poseidon} {E} (t : SettledTransfer) : res E Bytes32 :=
  phash_into_bytes32 (poseidon_hash t).
End SettledTransfer.
Notation SettledTransfer := SettledTransfer.SettledTransfer.

(** ** Transactions *)

Module Tx.
Record Tx {P : Poseidon} := mk {
  transfer_tree_root : PHash;
  nonce : Z;
}.
#[global] Arguments Tx : clear implicits.
#[global] Arguments Tx {P}.

#[global] Instance Tx_eq_dec {P : Poseidon} : EqDecision Tx.
Proof. solve_decision. Defined.

Definition default {P : Poseidon} : Tx := mk P phash_default 0.

Definition to_u64_vec {P : Poseidon} (t : Tx) : list Z :=
  phash_to_u64_vec (transfer_tree_root t) ++ [nonce t].
End Tx.
Notation Tx := Tx.Tx.

(** [impl Leafable for Tx]. *)
#[export] Instance Leafable_Tx {P : Poseidon} : Leafable Tx := {|
  empty_leaf := Tx.default;
  leaf_hash t := hash_inputs_u64 (Tx.to_u64_vec t);
|}.

(** ** Deposits *)

Module Deposit.
Record Deposit := mk {
  deposit_index : U63.U63;
  block_number : U63.U63;
  depositor : Address;
  recipient : Bytes32;
  token_index : Z;
  amount : U256;
  aux_data : Bytes32;
}.

Definition to_u64_vec (d : Deposit) : list Z :=
  [U63.as_u64 (deposit_index d); U63.as_u64 (block_number d)] ++ Limbs.to_u64_vec (depositor d)
    ++ Limbs.to_u64_vec (recipient d) ++ [token_index d] ++ Limbs.to_u64_vec (amount d)
    ++ Limbs.to_u64_vec (aux_data d).

Definition poseidon_hash {P : Poseidon} (d : Deposit) : PHash := hash_inputs_u64 (to_u64_vec d).

Definition nullifier {P : Poseidon} {E} (d : Deposit) : res E Bytes32 :=
  phash_into_bytes32 (poseidon_hash d).

Definition chain_words (d : Deposit) (prev_hash : Bytes32) : list Z :=
  to_u32_vec prev_hash ++ to_u32_vec (depositor d) ++ to_u32_vec (recipient d) ++ [token_index d]
    ++ to_u32_vec (amount d) ++ to_u32_vec (aux_data d).

Definition hash_with_prev_hash {K : Keccak} (d : Deposit) (prev_hash : Bytes32) : Bytes32 :=
  solidity_keccak256 (chain_words d prev_hash).
End Deposit.
Notation Deposit := Deposit.Deposit.

(** ** The nullifier tree *)

Module NullifierTree.
Section nullifier_tree.
Context {P : Poseidon}.

Definition NullifierTree : Type := IndexedMerkleTree.

Definition init {E} : res E NullifierTree := indexed_new NULLIFIER_TREE_HEIGHT.

Definition get_root {E} (t : NullifierTree) : res E HashOut := Incremental.get_root t.

(** All keys but that of the default leaf. *)
Definition nullifiers (t : NullifierTree) : list Bytes32 := key <$> drop 1 (Incremental.leaves t).

Definition prove_and_insert (t : NullifierTree) (nullifier : Bytes32)
    : res CommonError (NullifierTree * IndexedInsertionProof) :=
  k ← bytes32_into_u256 nullifier;
  map_err (fun _ => NullifierAlreadyExists) (IndexedTree.prove_and_insert t k 0).

Definition get_new_root (p : IndexedInsertionProof) (prev_root : HashOut) (nullifier : Bytes32)
    : res CommonError HashOut :=
  k ← bytes32_into_u256 nullifier;
  map_err (fun _ => InvalidData) (IndexedTree.get_new_root p k 0 prev_root).

Definition verify (p : IndexedInsertionProof) (prev_root new_root : HashOut) (nullifier : Bytes32)
    : res CommonError unit :=
  expected_new_root ← get_new_root p prev_root nullifier;
  ensure (bool_decide (new_root = expected_new_root)) InvalidData.

End nullifier_tree.
End NullifierTree.

(** ** The private state *)

Module PrivateState.
(** A [Salt] is a Poseidon output. *)
Record PrivateState {P : Poseidon} := mk {
  asset_tree_root : PHash;
  nullifier_tree_root : PHash;
  sent_tx_tree_root : PHash;
  prev_private_commitment : PHash;
  nonce : Z;
  salt : PHash;
}.
#[global] Arguments PrivateState : clear implicits.
#[global] Arguments PrivateState {P}.
#[global] Arguments mk {P}.

Section private_state.
Context {P : Poseidon}.

#[global] Instance PrivateState_eq_dec : EqDecision PrivateState.
Proof. solve_decision. Defined.

Definition new {E} (salt : PHash) : res E PrivateState :=
  asset_tree_root ← Sparse.get_root (Sparse.new (Hs := PoseidonLeafableHasher) (V := U256) ASSET_TREE_HEIGHT);
  nullifier_tree ← NullifierTree.init;
  nullifier_tree_root ← NullifierTree.get_root nullifier_tree;
  sent_tx_tree_root ← Incremental.get_root (Incremental.new (Hs := PoseidonLeafableHasher) (V := Tx) SENT_TX_TREE_HEIGHT);
  Ok (mk asset_tree_root nullifier_tree_root sent_tx_tree_root phash_default 0 salt).

Definition to_u64_vec (s : PrivateState) : list Z :=
  phash_to_u64_vec (asset_tree_root s) ++ phash_to_u64_vec (nullifier_tree_root s)
    ++ phash_to_u64_vec (sent_tx_tree_root s) ++ phash_to_u64_vec (prev_private_commitment s)
    ++ [nonce s] ++ phash_to_u64_vec (salt s).

Definition commitment (s : PrivateState) : PHash := hash_inputs_u64 (to_u64_vec s).

End private_state.
End PrivateState.
Notation PrivateState := PrivateState.PrivateState.

(** The holder's view: the trees themselves. *)
Module FullPrivateState.
Record FullPrivateState {P : Poseidon} := mk {
  asset_tree : Sparse.SparseMerkleTree U256;
  nullifier_tree : NullifierTree.NullifierTree;
  sent_tx_tree : Incremental.IncrementalMerkleTree Tx;
  prev_private_commitment : PHash;
  nonce : Z;
  salt : PHash;
}.
#[global] Arguments FullPrivateState : clear implicits.
#[global] Arguments FullPrivateState {P}.
#[global] Arguments mk {P}.

Section full_state.
Context {P : Poseidon}.

Definition new {E} (salt : PHash) : res E FullPrivateState :=
  nullifier_tree ← NullifierTree.init;
  Ok (mk (Sparse.new ASSET_TREE_HEIGHT) nullifier_tree (Incremental.new SENT_TX_TREE_HEIGHT)
        phash_default 0 salt).

Definition to_private_state {E} (s : FullPrivateState) : res E PrivateState :=
  asset_tree_root ← Sparse.get_root (asset_tree s);
  nullifier_tree_root ← NullifierTree.get_root (nullifier_tree s);
  sent_tx_tree_root ← Incremental.get_root (sent_tx_tree s);
  Ok (PrivateState.mk asset_tree_root nullifier_tree_root sent_tx_tree_root
        (prev_private_commitment s) (nonce s) (salt s)).

End full_state.
End FullPrivateState.
Notation FullPrivateState := FullPrivateState.FullPrivateState.

(** ** Receiving *)

Module UpdatePrivateState.
Inductive UpdatePrivateStateError := MerkleProofError.

Record UpdatePrivateState {P : Poseidon} := mk {
  token_index : Z;
  amount : U256;
  nullifier : Bytes32;
  prev_private_state : PrivateState;
  nullifier_proof : IndexedInsertionProof;
  prev_balance : U256;
  asset_merkle_proof : MerkleProof;
  new_private_state : PrivateState;
}.
#[global] Arguments UpdatePrivateState : clear implicits.
#[global] Arguments UpdatePrivateState {P}.
#[global] Arguments mk {P}.

Definition new {P : Poseidon} (token_index : Z) (amount : U256) (nullifier : Bytes32)
    (prev_private_state : PrivateState) (nullifier_proof : IndexedInsertionProof)
    (prev_balance : U256) (asset_merkle_proof : MerkleProof)
    : res UpdatePrivateStateError UpdatePrivateState :=
  let prev_private_commitment := PrivateState.commitment prev_private_state in
  new_nullifier_tree_root ← map_err (fun _ => MerkleProofError)
    (NullifierTree.get_new_root nullifier_proof (PrivateState.nullifier_tree_root prev_private_state) nullifier);
  _ ← map_err (fun _ => MerkleProofError)
    (proof_verify asset_merkle_proof prev_balance token_index (PrivateState.asset_tree_root prev_private_state));
  new_asset_leaf ← U256.add prev_balance amount;
  new_asset_tree_root ← proof_get_root asset_merkle_proof new_asset_leaf token_index;
  let new_private_state := PrivateState.mk new_asset_tree_root new_nullifier_tree_root
    (PrivateState.sent_tx_tree_root prev_private_state) prev_private_commitment
    (PrivateState.nonce prev_private_state) (PrivateState.salt prev_private_state) in
  Ok (mk token_index amount nullifier prev_private_state nullifier_proof prev_balance
        asset_merkle_proof new_private_state).
End UpdatePrivateState.
Notation UpdatePrivateState := UpdatePrivateState.UpdatePrivateState.

(** ** Spending *)

Inductive SpendError := InvalidNumInputs | InvalidMerkleProof | InsufficientBalance | InvalidSpendData.

Module SpendPublicInputs.
Record SpendPublicInputs {P : Poseidon} := mk {
  prev_private_commitment : PHash;
  new_private_commitment : PHash;
  tx : Tx;
  is_valid : bool;
}.
#[global] Arguments SpendPublicInputs : clear implicits.
#[global] Arguments SpendPublicInputs {P}.
#[global] Arguments mk {P}.
End SpendPublicInputs.
Notation SpendPublicInputs := SpendPublicInputs.SpendPublicInputs.

Module SpendWitness.
Record SpendWitness {P : Poseidon} := mk {
  tx_nonce : Z;
  prev_private_state : PrivateState;
  transfers : list Transfer;
  before_balances : list U256;
  asset_merkle_proofs : list MerkleProof;
  sent_tx_merkle_proof : MerkleProof;
}.
#[global] Arguments SpendWitness : clear implicits.
#[global] Arguments SpendWitness {P}.
#[global] Arguments mk {P}.

Section spend.
Context {P : Poseidon}.

(** The body of the loop over the transfers: the asset root after the [i]th debit. *)
Definition debit (w : SpendWitness) (asset_tree_root : PHash) (i : nat) : res SpendError PHash :=
  prev_balance ← unwrap (before_balances w !! i);
  transfer ← unwrap (transfers w !! i);
  proof ← unwrap (asset_merkle_proofs w !! i);
  _ ← map_err (fun _ => InvalidMerkleProof)
    (proof_verify proof prev_balance (Transfer.token_index transfer) asset_tree_root);
  _ ← ensure (negb (U256.ltb prev_balance (Transfer.amount transfer))) InsufficientBalance;
  new_balance ← U256.sub prev_balance (Transfer.amount transfer);
  proof_get_root proof new_balance (Transfer.token_index transfer).

Definition to_public_inputs (w : SpendWitness) : res SpendError SpendPublicInputs :=
  let prev := prev_private_state w in
  _ ← ensure ((length (transfers w) =? MAX_NUM_TRANSFERS_PER_TX)%nat
              && (length (before_balances w) =? MAX_NUM_TRANSFERS_PER_TX)%nat
              && (length (asset_merkle_proofs w) =? MAX_NUM_TRANSFERS_PER_TX)%nat) InvalidNumInputs;
  asset_tree_root ← res_foldl (debit w) (PrivateState.asset_tree_root prev) (seq 0 MAX_NUM_TRANSFERS_PER_TX);
  transfer_tree_root ← map_err (fun _ => InvalidSpendData)
    (get_merkle_root_from_leaves (Hs := PoseidonLeafableHasher) TRANSFER_TREE_HEIGHT (transfers w));
  let tx := Tx.mk P transfer_tree_root (tx_nonce w) in
  let empty_tx := empty_leaf (Hs := PoseidonLeafableHasher) (V := Tx) in
  _ ← map_err (fun _ => InvalidMerkleProof)
    (proof_verify (sent_tx_merkle_proof w) empty_tx (tx_nonce w) (PrivateState.sent_tx_tree_root prev));
  sent_tx_tree_root ← proof_get_root (sent_tx_merkle_proof w) tx (tx_nonce w);
  let new_private_state := PrivateState.mk asset_tree_root (PrivateState.nullifier_tree_root prev)
    sent_tx_tree_root (PrivateState.commitment prev) (wrap 32 (PrivateState.nonce prev + 1))
    (PrivateState.salt prev) in
  let is_valid := tx_nonce w =? PrivateState.nonce prev in
  Ok (SpendPublicInputs.mk (PrivateState.commitment prev) (PrivateState.commitment new_private_state) tx is_valid).

End spend.
End SpendWitness.
Notation SpendWitness := SpendWitness.SpendWitness.
