(* ===== verification/AccountProps.v ===== *)
(** * What the private state stands for

    A [ledger] is the content of the three trees whose roots a private state
    holds; [commits] relates the two.  Receiving and spending are shown to
    refine the obvious operations on ledgers, under a collision-free hash and
    proofs of the heights the circuits fix.  The honest prover's side is here
    too: the witnesses built from a ledger are accepted. *)

From S2P Require Import Prelude Limbs U63 MerkleTree LeafTrees Poseidon IndexedTree Keccak Regev BalanceState Account.

(* Amounts are leaves through [Leafable_U256]; [Bytes32] has the same representation. *)
#[local] Remove Hints Leafable_Bytes32 : typeclass_instances.

(** ** Encodings *)

Lemma bytes32_into_u256_eq {E} (b : Bytes32) : bytes32_into_u256 (E := E) b = Ok (b : U256).
Proof.
  unfold bytes32_into_u256, to_u32_vec. change (@limbs BYTES32_LEN b) with (@limbs U256_LEN b).
  by rewrite (from_u32_slice_limbs U256_LEN b).
Qed.

Lemma u64_vec_app_inj {n} (x y : Limbs n) l k :
  Limbs.to_u64_vec x ++ l = Limbs.to_u64_vec y ++ k -> x = y /\ l = k.
Proof. apply limbs_app_inj. Qed.

Lemma u64_vec_inj {n} (x y : Limbs n) : Limbs.to_u64_vec x = Limbs.to_u64_vec y -> x = y.
Proof. intros H. by apply Limbs_eq. Qed.

(** The assertion at the end of [Transfer::to_u64_vec] holds. *)
Lemma transfer_to_u64_vec_length t : length (Transfer.to_u64_vec t) = Transfer.TRANSFER_LEN.
Proof.
  unfold Transfer.to_u64_vec, Limbs.to_u64_vec, to_u32_vec. rewrite !length_app, !limbs_length. done.
Qed.

Lemma transfer_to_u64_vec_app_inj t t' l k :
  Transfer.to_u64_vec t ++ l = Transfer.to_u64_vec t' ++ k -> t = t' /\ l = k.
Proof.
  unfold Transfer.to_u64_vec. rewrite <- !app_assoc. intros H.
  apply u64_vec_app_inj in H as [H1 H]. injection H as H2 H.
  apply u64_vec_app_inj in H as [H3 H]. apply u64_vec_app_inj in H as [H4 H].
  destruct t, t'. cbn in *. by subst.
Qed.

Lemma transfer_to_u64_vec_inj t t' : Transfer.to_u64_vec t = Transfer.to_u64_vec t' -> t = t'.
Proof.
  intros H. apply (transfer_to_u64_vec_app_inj t t' [] []). by rewrite !app_nil_r.
Qed.

Lemma settled_to_u64_vec_inj t t' : SettledTransfer.to_u64_vec t = SettledTransfer.to_u64_vec t' -> t = t'.
Proof.
  unfold SettledTransfer.to_u64_vec, ChannelId.to_u32_vec. intros H.
  apply transfer_to_u64_vec_app_inj in H as [H1 H]. injection H as H2 H3 H4.
  destruct t, t'. cbn in *. by subst.
Qed.

Lemma deposit_to_u64_vec_inj d d' : Deposit.to_u64_vec d = Deposit.to_u64_vec d' -> d = d'.
Proof.
  unfold Deposit.to_u64_vec. intros H. injection H as H1 H2 H.
  apply u64_vec_app_inj in H as [H3 H]. apply u64_vec_app_inj in H as [H4 H]. injection H as H5 H.
  apply u64_vec_app_inj in H as [H6 H]. apply u64_vec_inj in H.
  destruct d as [[i] [b] ? ? ? ? ?], d' as [[i'] [b'] ? ? ? ? ?]. cbn in *. by subst.
Qed.

(** The words of [hash_with_prev_hash] fix everything but the two fields the chain leaves out. *)
Lemma chain_words_inj d p d' p' :
  Deposit.chain_words d p = Deposit.chain_words d' p' ->
  p = p' /\ Deposit.depositor d = Deposit.depositor d' /\ Deposit.recipient d = Deposit.recipient d' /\
  Deposit.token_index d = Deposit.token_index d' /\ Deposit.amount d = Deposit.amount d' /\
  Deposit.aux_data d = Deposit.aux_data d'.
Proof.
  unfold Deposit.chain_words. intros H.
  apply limbs_app_inj in H as [H1 H]. apply limbs_app_inj in H as [H2 H].
  apply limbs_app_inj in H as [H3 H]. injection H as H4 H. apply limbs_app_inj in H as [H5 H].
  apply Limbs_eq in H. by split_and!.
Qed.

Section ideal_hash.
Context {P : Poseidon} {PC : PoseidonCollisionFree P}.

Lemma phash_app_inj (x y : PHash) l k :
  phash_to_u64_vec x ++ l = phash_to_u64_vec y ++ k -> x = y /\ l = k.
Proof.
  intros H. apply app_inj_1 in H as [H ?]; [|by rewrite !phash_to_u64_vec_length].
  split; [by apply (inj phash_to_u64_vec)|done].
Qed.

Lemma tx_to_u64_vec_inj (t t' : Tx) : Tx.to_u64_vec t = Tx.to_u64_vec t' -> t = t'.
Proof.
  unfold Tx.to_u64_vec. intros H. apply phash_app_inj in H as [H1 H]. injection H as H2.
  destruct t, t'. cbn in *. by subst.
Qed.

#[export] Instance CollisionFree_Transfer : CollisionFree Transfer.
Proof.
  split; [apply poseidon_two_to_one_inj|].
  intros x y H. apply (inj hash_inputs_u64) in H. by apply transfer_to_u64_vec_inj.
Qed.

#[export] Instance CollisionFree_Tx : CollisionFree Tx.
Proof.
  split; [apply poseidon_two_to_one_inj|].
  intros x y H. apply (inj hash_inputs_u64) in H. by apply tx_to_u64_vec_inj.
Qed.

(** A private state is determined by its commitment. *)
Lemma commitment_inj (s s' : PrivateState) : PrivateState.commitment s = PrivateState.commitment s' -> s = s'.
Proof.
  unfold PrivateState.commitment, PrivateState.to_u64_vec. intros H. apply (inj hash_inputs_u64) in H.
  apply phash_app_inj in H as [H1 H]. apply phash_app_inj in H as [H2 H].
  apply phash_app_inj in H as [H3 H]. apply phash_app_inj in H as [H4 H]. injection H as H5 H.
  apply (inj phash_to_u64_vec) in H. destruct s, s'. cbn in *. by subst.
Qed.

(** ** Writing one leaf *)

(** A verified proof followed by [get_root] with a new leaf replaces that leaf of the tree. *)
Lemma proof_write {V} {L : Leafable V} {CF : CollisionFree V} {E} (h : nat) (m : gmap Z V) p i old new u r :
  (h < 64)%nat -> proof_height p = h -> in_width 64 i ->
  proof_verify p old i (subtree (Sparse.map_leaves m) h 0) = Ok u ->
  proof_get_root (E := E) p new i = Ok r ->
  default empty_leaf (m !! i) = old /\ 0 <= i < 2 ^ Z.of_nat h /\
  r = subtree (Sparse.map_leaves (<[i := new]> m)) h 0.
Proof.
  intros Hh <- Hw Hv Hr.
  destruct (proof_verify_sound (Sparse.map_leaves m) p old i u Hw Hv) as (Hl & Hs & Hi & _).
  rewrite proof_get_root_eq, Hs in Hr. injection Hr as <-.
  rewrite path_root_update by done. split_and!; [by apply (inj leaf_hash)|lia|lia|].
  apply subtree_ext. intros j _. apply Sparse.map_leaves_insert.
Qed.

End ideal_hash.

(** ** Ledgers *)

Section ledger.
Context {P : Poseidon}.

Record ledger := mkLedger {
  assets : gmap Z U256;
  spent_nullifiers : gmap Z IndexedMerkleLeaf;
  sent : gmap Z Tx;
}.

Definition asset_root (m : gmap Z U256) : PHash := subtree (Sparse.map_leaves m) ASSET_TREE_HEIGHT 0.
Definition sent_root (m : gmap Z Tx) : PHash := subtree (Sparse.map_leaves m) SENT_TX_TREE_HEIGHT 0.

Record commits (s : PrivateState) (l : ledger) : Prop := {
  co_assets : PrivateState.asset_tree_root s = asset_root (assets l);
  co_nullifiers : PrivateState.nullifier_tree_root s = root_of NULLIFIER_TREE_HEIGHT (spent_nullifiers l);
  co_linked : linked (spent_nullifiers l);
  co_dom : dom_ok NULLIFIER_TREE_HEIGHT (spent_nullifiers l);
  co_sent : PrivateState.sent_tx_tree_root s = sent_root (sent l);
}.

Definition balance_of (m : gmap Z U256) (token : Z) : Z := val (default u256_zero (m !! token)).

Definition is_spent (l : ledger) (nullifier : Bytes32) : Prop := has_key (spent_nullifiers l) (nullifier : U256).

(** What a list of transfers takes of one token. *)
Fixpoint outflow (ts : list Transfer) (token : Z) : Z :=
  match ts with
  | [] => 0
  | t :: ts' => (if Transfer.token_index t =? token then val (Transfer.amount t) else 0) + outflow ts' token
  end.

Lemma balance_of_insert m token x t :
  balance_of (<[token := x]> m) t = if token =? t then val x else balance_of m t.
Proof.
  unfold balance_of. destruct (Z.eqb_spec token t) as [->|Hne];
    [by rewrite lookup_insert_eq | by rewrite lookup_insert_ne].
Qed.

Lemma outflow_nonneg ts token : 0 <= outflow ts token.
Proof.
  induction ts as [|t ts IH]; cbn [outflow]; [lia|].
  pose proof (val_bound (Transfer.amount t)). destruct (_ =? _); lia.
Qed.

Lemma in_width_32_64 x : in_width 32 x -> in_width 64 x.
Proof. unfold in_width. lia. Qed.

Context {PC : PoseidonCollisionFree P}.

(** *** Receiving *)

Lemma receive_refines token amount nullifier prev np bal ap u l :
  commits prev l -> in_width 32 token -> well_shaped NULLIFIER_TREE_HEIGHT np ->
  proof_height ap = ASSET_TREE_HEIGHT ->
  UpdatePrivateState.new token amount nullifier prev np bal ap = Ok u ->
  let s' := UpdatePrivateState.new_private_state u in
  ~ is_spent l nullifier /\ bal = default u256_zero (assets l !! token) /\
  PrivateState.nonce s' = PrivateState.nonce prev /\ PrivateState.salt s' = PrivateState.salt prev /\
  PrivateState.prev_private_commitment s' = PrivateState.commitment prev /\
  exists l', commits s' l' /\ sent l' = sent l /\
    (forall t, balance_of (assets l') t = balance_of (assets l) t + (if token =? t then val amount else 0)) /\
    (forall n, is_spent l' n <-> n = nullifier \/ is_spent l n).
Proof.
  intros Hc Ht Hws Hap H. pose proof asset_tree_height as Hah. pose proof nullifier_tree_height as Hnh.
  unfold UpdatePrivateState.new, NullifierTree.get_new_root in H. rewrite bytes32_into_u256_eq in H.
  cbn [mbind res_bind] in H. simplify_res. cbn [UpdatePrivateState.new_private_state PrivateState.nonce
    PrivateState.salt PrivateState.prev_private_commitment].
  rewrite (co_nullifiers prev l Hc) in Hr. rewrite (co_assets prev l Hc) in Hr0.
  apply get_new_root_sound in Hr as (Hlow & Hgap & Hfree & Hi & ->);
    [|apply (co_linked prev l Hc)|apply (co_dom prev l Hc)|lia|done].
  eapply (proof_write ASSET_TREE_HEIGHT) in Hr2 as (Hbal & _ & ->); [|lia|exact Hap|by apply in_width_32_64|exact Hr0].
  split_and!; [by eapply in_gap_absent; [apply (co_linked prev l Hc)| |]|done..|].
  eexists (mkLedger _ _ (sent l)). split_and!; [|done| |].
  - split; cbn [assets spent_nullifiers sent PrivateState.asset_tree_root PrivateState.nullifier_tree_root
      PrivateState.sent_tx_tree_root]; [reflexivity|reflexivity| | |apply (co_sent prev l Hc)].
    + by apply linked_insert_map; [apply (co_linked prev l Hc)| | |].
    + by eapply dom_ok_insert_map; [apply (co_dom prev l Hc)| |].
  - intros t. cbn [assets]. rewrite balance_of_insert. apply U256_theorems.add_Ok in Hr1.
    destruct (Z.eqb_spec token t) as [<-|]; [|lia]. rewrite Hr1, <- Hbal. done.
  - intros n. unfold is_spent. cbn [spent_nullifiers]. by apply insert_map_has_key.
Qed.

(** *** Spending *)

Record spend_shape (w : SpendWitness) : Prop := {
  ss_tokens : Forall (fun t => in_width 32 (Transfer.token_index t)) (SpendWitness.transfers w);
  ss_nonce : in_width 32 (SpendWitness.tx_nonce w);
  ss_assets : Forall (fun p => proof_height p = ASSET_TREE_HEIGHT) (SpendWitness.asset_merkle_proofs w);
  ss_sent : proof_height (SpendWitness.sent_tx_merkle_proof w) = SENT_TX_TREE_HEIGHT;
}.

Lemma debit_refines w m i root :
  spend_shape w -> SpendWitness.debit w (asset_root m) i = Ok root ->
  exists m' t, SpendWitness.transfers w !! i = Some t /\ root = asset_root m' /\
    forall token, balance_of m token = balance_of m' token + outflow [t] token.
Proof.
  intros Hs H. pose proof asset_tree_height as Hah. unfold SpendWitness.debit in H. simplify_res.
  rename r into bal, r0 into t, r1 into p.
  eapply (proof_write ASSET_TREE_HEIGHT) in H as (Hbal & _ & ->).
  2: lia.
  2: eapply (Forall_lookup_1 _ _ _ _ (ss_assets w Hs)); eassumption.
  2: apply in_width_32_64, (Forall_lookup_1 _ _ _ _ (ss_tokens w Hs) Hr0).
  2: exact Hr2.
  eexists _, t. split_and!; [done|reflexivity|].
  intros token. rewrite balance_of_insert. cbn [outflow]. apply U256_theorems.sub_Ok in Hr4.
  destruct (Z.eqb_spec (Transfer.token_index t) token) as [<-|]; [|lia].
  unfold balance_of. change u256_zero with (empty_leaf (V := U256)). rewrite Hbal. lia.
Qed.

Lemma debits_refine w : spend_shape w -> forall n i m root,
  res_foldl (SpendWitness.debit w) (asset_root m) (seq i n) = Ok root ->
  (i + n <= length (SpendWitness.transfers w))%nat ->
  exists m', root = asset_root m' /\
    forall token, balance_of m token = balance_of m' token + outflow (take n (drop i (SpendWitness.transfers w))) token.
Proof.
  intros Hs. induction n as [|n IH]; intros i m root H Hn; cbn [seq res_foldl] in H.
  - simplify_res. exists m. split; [done|]. intros. rewrite take_0. cbn. lia.
  - simplify_res. apply debit_refines in Hr as (m1 & t & Ht & -> & Hm1); [|done].
    apply IH in H as (m' & -> & Hm'); [|lia]. exists m'. split; [done|]. intros token.
    rewrite (drop_S _ t i Ht). cbn [take outflow]. rewrite Hm1, Hm'. cbn [outflow]. lia.
Qed.

(** The state an accepted spend leads to. *)
Definition spent_state (w : SpendWitness) (assets_root sent_root : PHash) : PrivateState :=
  let prev := SpendWitness.prev_private_state w in
  PrivateState.mk assets_root (PrivateState.nullifier_tree_root prev) sent_root
    (PrivateState.commitment prev) (wrap 32 (PrivateState.nonce prev + 1)) (PrivateState.salt prev).

Record spends (w : SpendWitness) (l l' : ledger) (pi : SpendPublicInputs) : Prop := {
  sp_assets : forall token, balance_of (assets l) token
    = balance_of (assets l') token + outflow (SpendWitness.transfers w) token;
  sp_nullifiers : spent_nullifiers l' = spent_nullifiers l;
  sp_fresh : default empty_leaf (sent l !! SpendWitness.tx_nonce w) = empty_leaf;
  sp_sent : sent l' = <[SpendWitness.tx_nonce w := SpendPublicInputs.tx pi]> (sent l);
  sp_tx : SpendPublicInputs.tx pi = Tx.mk P
    (subtree (list_leaves (SpendWitness.transfers w)) TRANSFER_TREE_HEIGHT 0) (SpendWitness.tx_nonce w);
  sp_prev : SpendPublicInputs.prev_private_commitment pi
    = PrivateState.commitment (SpendWitness.prev_private_state w);
  sp_valid : SpendPublicInputs.is_valid pi = true
    <-> SpendWitness.tx_nonce w = PrivateState.nonce (SpendWitness.prev_private_state w);
}.

Lemma spend_refines w pi l :
  commits (SpendWitness.prev_private_state w) l -> spend_shape w ->
  SpendWitness.to_public_inputs w = Ok pi ->
  exists l', let s' := spent_state w (asset_root (assets l')) (sent_root (sent l')) in
    commits s' l' /\ SpendPublicInputs.new_private_commitment pi = PrivateState.commitment s' /\
    spends w l l' pi.
Proof.
  intros Hc Hs H. pose proof sent_tx_tree_height as Hsh.
  unfold SpendWitness.to_public_inputs in H. cbv zeta in H. simplify_res. simplify_bool.
  assert (length (SpendWitness.transfers w) = MAX_NUM_TRANSFERS_PER_TX) as Hlen by (by apply Nat.eqb_eq).
  rewrite (co_assets _ _ Hc) in Hr0. apply debits_refine in Hr0 as (m' & -> & Hm'); [|done|by rewrite Hlen].
  rewrite drop_0, take_ge in Hm' by lia.
  rewrite get_merkle_root_from_leaves_eq in Hr1 by (by rewrite Hlen). simplify_res.
  rewrite (co_sent _ _ Hc) in Hr2.
  eapply (proof_write SENT_TX_TREE_HEIGHT) in Hr3 as (Hold & _ & ->);
    [|lia|apply (ss_sent w Hs)|apply in_width_32_64, (ss_nonce w Hs)|exact Hr2].
  eexists (mkLedger m' (spent_nullifiers l) _). cbv zeta. split_and!.
  - split; cbn; [done|apply (co_nullifiers _ _ Hc)|apply (co_linked _ _ Hc)|apply (co_dom _ _ Hc)|reflexivity].
  - reflexivity.
  - split; cbn [assets spent_nullifiers sent SpendPublicInputs.tx SpendPublicInputs.prev_private_commitment
      SpendPublicInputs.is_valid]; try done. apply Z.eqb_eq.
Qed.

(** ** Runs of an account *)

Inductive account_event :=
| Received (token : Z) (amount : U256) (nullifier : Bytes32)
| Spent (transfers : list Transfer) (tx : Tx).

Inductive account_step : PrivateState -> account_event -> PrivateState -> Prop :=
| step_receive token amount nullifier s np bal ap u :
    in_width 32 token -> well_shaped NULLIFIER_TREE_HEIGHT np -> proof_height ap = ASSET_TREE_HEIGHT ->
    UpdatePrivateState.new token amount nullifier s np bal ap = Ok u ->
    account_step s (Received token amount nullifier) (UpdatePrivateState.new_private_state u)
| step_spend w pi s' :
    spend_shape w -> SpendWitness.to_public_inputs w = Ok pi -> SpendPublicInputs.is_valid pi = true ->
    PrivateState.commitment s' = SpendPublicInputs.new_private_commitment pi ->
    account_step (SpendWitness.prev_private_state w)
      (Spent (SpendWitness.transfers w) (SpendPublicInputs.tx pi)) s'.

Inductive account_run : PrivateState -> list account_event -> PrivateState -> Prop :=
| account_run_nil s : account_run s [] s
| account_run_cons s ev s1 evs s' :
    account_step s ev s1 -> account_run s1 evs s' -> account_run s (ev :: evs) s'.

Definition asset_flow (token : Z) (ev : account_event) : Z :=
  match ev with
  | Received t amount _ => if t =? token then val amount else 0
  | Spent ts _ => - outflow ts token
  end.

Definition total_flow (token : Z) (evs : list account_event) : Z :=
  foldr (fun ev acc => asset_flow token ev + acc) 0 evs.

Definition received (evs : list account_event) : list Bytes32 :=
  omap (fun ev => match ev with Received _ _ n => Some n | Spent _ _ => None end) evs.

Definition sent_txs (evs : list account_event) : list Tx :=
  omap (fun ev => match ev with Spent _ tx => Some tx | Received _ _ _ => None end) evs.

(** What a step does to the ledger and the nonce. *)
Lemma account_step_refines s ev s' l :
  account_step s ev s' -> commits s l ->
  exists l', commits s' l' /\
    (forall token, balance_of (assets l') token = balance_of (assets l) token + asset_flow token ev) /\
    (forall n, n ∈ received [ev] -> ~ is_spent l n) /\
    (forall n, is_spent l' n <-> n ∈ received [ev] \/ is_spent l n) /\
    PrivateState.nonce s' = (match ev with
      | Spent _ _ => wrap 32 (PrivateState.nonce s + 1) | Received _ _ _ => PrivateState.nonce s end) /\
    (forall tx, tx ∈ sent_txs [ev] -> Tx.nonce tx = PrivateState.nonce s).
Proof.
  intros Hstep Hc. destruct Hstep as [token amount nullifier s np bal ap u Ht Hws Hap Hu|w pi s' Hs Hpi Hv Hs'].
  - pose proof (receive_refines _ _ _ _ _ _ _ _ _ Hc Ht Hws Hap Hu)
      as (Hfresh & _ & Hn & _ & _ & l' & Hc' & _ & Hb & Hk).
    exists l'. split_and!; try done; cbn [received sent_txs omap list_omap].
    + by intros n ->%list_elem_of_singleton.
    + intros n. rewrite list_elem_of_singleton. apply Hk.
    + by intros tx ?%elem_of_nil.
  - destruct (spend_refines w pi l Hc Hs Hpi) as (l' & Hc' & Hnew & Hsp). exists l'.
    rewrite Hnew in Hs'. apply commitment_inj in Hs' as ->.
    split_and!; try done; cbn [received sent_txs omap list_omap asset_flow].
    + intros token. rewrite (sp_assets _ _ _ _ Hsp token). lia.
    + by intros n ?%elem_of_nil.
    + intros n. unfold is_spent. rewrite (sp_nullifiers _ _ _ _ Hsp), elem_of_nil. naive_solver.
    + intros tx ->%list_elem_of_singleton. rewrite (sp_tx _ _ _ _ Hsp). by apply (sp_valid _ _ _ _ Hsp).
Qed.

Lemma received_cons ev evs : received (ev :: evs) = received [ev] ++ received evs.
Proof. by destruct ev. Qed.

Lemma sent_txs_cons ev evs : sent_txs (ev :: evs) = sent_txs [ev] ++ sent_txs evs.
Proof. by destruct ev. Qed.

Lemma account_run_refines s evs s' : account_run s evs s' -> forall l, commits s l ->
  exists l', commits s' l' /\
    (forall token, balance_of (assets l') token = balance_of (assets l) token + total_flow token evs) /\
    NoDup (received evs) /\ (forall n, n ∈ received evs -> ~ is_spent l n) /\
    (forall n, is_spent l' n <-> n ∈ received evs \/ is_spent l n).
Proof.
  induction 1 as [s|s ev s1 evs s' Hstep _ IH]; intros l Hc.
  - exists l. split_and!; [done|intros; cbn; lia|constructor|by intros n ?%elem_of_nil|].
    intros n. cbn. rewrite elem_of_nil. naive_solver.
  - destruct (account_step_refines _ _ _ _ Hstep Hc) as (l1 & Hc1 & Hb1 & Hf1 & Hk1 & _ & _).
    destruct (IH l1 Hc1) as (l' & Hc' & Hb & Hnd & Hf & Hk). exists l'.
    rewrite received_cons. split_and!; [done| | | |].
    + intros token. cbn. rewrite Hb, Hb1. fold (total_flow token evs). lia.
    + apply list.NoDup_app. split_and!; [destruct ev; cbn; repeat constructor; by intros ?%elem_of_nil| |done].
      intros n Hn Hn'. apply (Hf n Hn'), Hk1. by left.
    + intros n [Hn|Hn]%elem_of_app; [by apply Hf1|]. intros Hsp. apply (Hf n Hn), Hk1. by right.
    + intros n. rewrite Hk, Hk1, elem_of_app. tauto.
Qed.

(** Every transaction of a run carries the nonce of its position, and the state counts them. *)
Lemma account_run_nonces s evs s' : account_run s evs s' -> in_width 32 (PrivateState.nonce s) ->
  forall l, commits s l ->
  PrivateState.nonce s' = wrap 32 (PrivateState.nonce s + Z.of_nat (length (sent_txs evs))) /\
  forall i tx, sent_txs evs !! i = Some tx -> Tx.nonce tx = wrap 32 (PrivateState.nonce s + Z.of_nat i).
Proof.
  induction 1 as [s|s ev s1 evs s' Hstep _ IH]; intros Hw l Hc.
  - split; [|done]. cbn. rewrite Z.add_0_r. symmetry. by apply Z.mod_small.
  - destruct (account_step_refines _ _ _ _ Hstep Hc) as (l1 & Hc1 & _ & _ & _ & Hn & Htx).
    destruct ev as [token amount nullifier|ts tx].
    + rewrite <- Hn. apply (IH ltac:(by rewrite Hn) l1 Hc1).
    + destruct (IH ltac:(rewrite Hn; apply wrap_in_width; lia) l1 Hc1) as [IHn IHtx].
      rewrite Hn in IHn, IHtx. rewrite sent_txs_cons. cbn [sent_txs omap list_omap app]. split.
      * rewrite IHn, wrap_add_l by lia. f_equal. cbn [length]. lia.
      * intros [|i] tx' Hi.
        -- cbn in Hi. injection Hi as <-. rewrite (Htx tx) by (by left). rewrite Z.add_0_r.
           symmetry. by apply Z.mod_small.
        -- cbn in Hi. rewrite (IHtx i tx' Hi), wrap_add_l by lia. f_equal. lia.
Qed.
End ledger.

(** ** The honest prover *)

Section honest.
Context {P : Poseidon}.

(** The authentication path of position [i] in the tree over [m]. *)
Definition honest_proof {V} {L : Leafable V} (h : nat) (m : gmap Z V) (i : Z) : MerkleProof :=
  mkMerkleProof (sibling_path (Sparse.map_leaves m) 0 h i).

Lemma honest_proof_height {V} {L : Leafable V} h (m : gmap Z V) i : proof_height (honest_proof h m i) = h.
Proof. apply sibling_path_length. Qed.

Lemma honest_proof_verifies {V} {L : Leafable V} (h : nat) (m : gmap Z V) i leaf :
  (h < 64)%nat -> 0 <= i < 2 ^ Z.of_nat h -> default empty_leaf (m !! i) = leaf ->
  proof_verify (honest_proof h m i) leaf i (subtree (Sparse.map_leaves m) h 0) = Ok tt.
Proof.
  intros Hh Hi Hl. apply proof_verify_Ok. rewrite honest_proof_height. split.
  - apply index_in_domain_spec; [|done]. by apply (Incremental.in_width_64_small h).
  - apply siblings_root; [done|]. unfold Sparse.map_leaves. by rewrite Hl.
Qed.

Lemma honest_proof_writes {V} {L : Leafable V} {E} (h : nat) (m : gmap Z V) i leaf :
  0 <= i < 2 ^ Z.of_nat h ->
  proof_get_root (E := E) (honest_proof h m i) leaf i = Ok (subtree (Sparse.map_leaves (<[i := leaf]> m)) h 0).
Proof.
  intros Hi. rewrite proof_get_root_eq. unfold honest_proof. cbn [siblings].
  rewrite path_root_update by done. f_equal. apply subtree_ext. intros j _. apply Sparse.map_leaves_insert.
Qed.

Definition honest_insertion (h : nat) (m : gmap Z IndexedMerkleLeaf) (low i : Z) (prev : IndexedMerkleLeaf)
    (k : U256) : IndexedInsertionProof :=
  mkInsertionProof i (honest_proof h m low) (honest_proof h (<[low := new_low_leaf prev i k]> m) i) low prev.

Lemma honest_insertion_accepted (h : nat) m low i prev k v :
  (h < 64)%nat -> dom_ok h m -> m !! low = Some prev -> in_gap prev k -> m !! i = None ->
  0 <= i < 2 ^ Z.of_nat h ->
  get_new_root (honest_insertion h m low i prev k) k v (root_of h m) = Ok (root_of h (insert_map m low i prev k v)).
Proof.
  intros Hh Hdom Hlow Hgap Hfree Hi. pose proof (Hdom _ _ Hlow) as Hl.
  assert (low <> i) as Hne by congruence.
  apply is_low_leaf_spec in Hgap. unfold is_low_leaf in Hgap. apply andb_prop in Hgap as [G1 G2].
  unfold get_new_root, honest_insertion.
  cbn [ip_index low_leaf_proof leaf_proof low_leaf_index prev_low_leaf].
  rewrite U256_theorems.ltb_val in G1. apply Z.ltb_lt in G1.
  rewrite U256_theorems.leb_val, (proj2 (Z.leb_gt _ _)) by done. rewrite G2.
  cbn [negb ensure mbind res_bind]. unfold root_of at 1.
  rewrite honest_proof_verifies by (try done; by rewrite Hlow). cbn [map_err mbind res_bind].
  rewrite !honest_proof_writes by done. cbn [mbind res_bind].
  rewrite honest_proof_verifies by (try done; by rewrite lookup_insert_ne, Hfree).
  done.
Qed.

(** *** Spending *)

(** [checked_sub], with a default that an affordable batch never reaches. *)
Definition sub_or_zero (x y : U256) : U256 :=
  match U256.sub (E := SpendError) x y with Ok z => z | _ => u256_zero end.

(** Balance and path of each transfer, in the tree the previous ones leave. *)
Fixpoint honest_debits (m : gmap Z U256) (ts : list Transfer) : list (U256 * MerkleProof) :=
  match ts with
  | [] => []
  | t :: ts' =>
      let token := Transfer.token_index t in
      let bal := default empty_leaf (m !! token) in
      (bal, honest_proof ASSET_TREE_HEIGHT m token)
        :: honest_debits (<[token := sub_or_zero bal (Transfer.amount t)]> m) ts'
  end.

Definition honest_spend (s : PrivateState) (l : ledger) (ts : list Transfer) : SpendWitness :=
  let ds := honest_debits (assets l) ts in
  SpendWitness.mk (PrivateState.nonce s) s ts (fst <$> ds) (snd <$> ds)
    (honest_proof SENT_TX_TREE_HEIGHT (sent l) (PrivateState.nonce s)).

Definition affordable (m : gmap Z U256) (ts : list Transfer) : Prop :=
  forall token, outflow ts token <= balance_of m token.

Lemma honest_debits_length m ts : length (honest_debits m ts) = length ts.
Proof. revert m. induction ts as [|t ts IH]; intros m; cbn; [done|]. by rewrite IH. Qed.

Lemma honest_debits_heights m ts :
  Forall (fun p => proof_height p = ASSET_TREE_HEIGHT) (snd <$> honest_debits m ts).
Proof.
  revert m. induction ts as [|t ts IH]; intros m; cbn; constructor; [apply honest_proof_height|apply IH].
Qed.

Lemma affordable_cons m t ts :
  affordable m (t :: ts) ->
  let bal := default empty_leaf (m !! Transfer.token_index t) in
  val (Transfer.amount t) <= val bal /\
  exists new, U256.sub (E := SpendError) bal (Transfer.amount t) = Ok new /\
    sub_or_zero bal (Transfer.amount t) = new /\ affordable (<[Transfer.token_index t := new]> m) ts.
Proof.
  intros Ha bal. pose proof (Ha (Transfer.token_index t)) as Ht. cbn [outflow] in Ht.
  rewrite Z.eqb_refl in Ht. pose proof (outflow_nonneg ts (Transfer.token_index t)) as Hnn.
  change (balance_of m (Transfer.token_index t)) with (val bal) in Ht.
  split; [lia|]. unfold sub_or_zero.
  pose proof (U256_theorems.sub_val (E := SpendError) bal (Transfer.amount t)) as Hs.
  destruct (U256.sub bal (Transfer.amount t)) as [new|e|]; [|by exfalso|exfalso; lia].
  exists new. split_and!; [done..|]. intros token. rewrite balance_of_insert.
  specialize (Ha token). cbn [outflow] in Ha.
  destruct (Z.eqb_spec (Transfer.token_index t) token) as [Heq|Hne]; [rewrite <- Heq; lia | lia].
Qed.

Lemma honest_debits_accepted w (Hts : Forall (fun t => in_width 32 (Transfer.token_index t)) (SpendWitness.transfers w)) :
  forall n i m,
  drop i (zip (SpendWitness.before_balances w) (SpendWitness.asset_merkle_proofs w))
    = honest_debits m (drop i (SpendWitness.transfers w)) ->
  (i + n = length (SpendWitness.transfers w))%nat -> affordable m (drop i (SpendWitness.transfers w)) ->
  exists root, res_foldl (SpendWitness.debit w) (asset_root m) (seq i n) = Ok root.
Proof.
  pose proof asset_tree_height as Hah. induction n as [|n IH]; intros i m Hd Hn Ha; [by eexists|].
  destruct (lookup_lt_is_Some_2 (SpendWitness.transfers w) i) as [t Ht]; [lia|].
  rewrite (drop_S _ t i Ht) in Hd, Ha. cbn [honest_debits] in Hd. cbv zeta in Hd.
  apply affordable_cons in Ha as (Hle & new & Hsub & Hnew & Ha). rewrite Hnew in Hd.
  set (bal := default empty_leaf (m !! Transfer.token_index t)) in *.
  assert (zip (SpendWitness.before_balances w) (SpendWitness.asset_merkle_proofs w) !! i
    = Some (bal, honest_proof ASSET_TREE_HEIGHT m (Transfer.token_index t))) as Hi.
  { rewrite <- (Nat.add_0_r i), <- lookup_drop, Hd. done. }
  pose proof (drop_S _ _ i Hi) as Hd'. rewrite Hd in Hd'. injection Hd' as Hd'.
  apply lookup_zip_Some in Hi as [Hb Hp].
  pose proof (Forall_lookup_1 _ _ _ _ Hts Ht) as Hw. cbn beta in Hw.
  assert (0 <= Transfer.token_index t < 2 ^ Z.of_nat ASSET_TREE_HEIGHT) as Hw' by (rewrite Hah; exact Hw).
  destruct (IH (S i) _ (eq_sym Hd') ltac:(lia) Ha) as [root Hroot]. exists root.
  assert (SpendWitness.debit w (asset_root m) i
    = Ok (asset_root (<[Transfer.token_index t := new]> m))) as Hdebit.
  { unfold SpendWitness.debit. rewrite Hb, Ht, Hp. cbn [unwrap mbind res_bind].
    unfold asset_root at 1. rewrite honest_proof_verifies by (try done; lia). cbn [map_err mbind res_bind].
    rewrite U256_theorems.ltb_val, (proj2 (Z.ltb_ge _ _)) by done. cbn [negb ensure mbind res_bind].
    rewrite Hsub. cbn [mbind res_bind]. by apply honest_proof_writes. }
  cbn [seq res_foldl]. rewrite Hdebit. exact Hroot.
Qed.

Lemma honest_spend_shape s l ts :
  Forall (fun t => in_width 32 (Transfer.token_index t)) ts -> in_width 32 (PrivateState.nonce s) ->
  spend_shape (honest_spend s l ts).
Proof.
  intros Hts Hn. split; cbn; [done..|apply honest_debits_heights|apply honest_proof_height].
Qed.

Lemma honest_spend_accepted s l ts :
  commits s l -> length ts = MAX_NUM_TRANSFERS_PER_TX ->
  Forall (fun t => in_width 32 (Transfer.token_index t)) ts -> in_width 32 (PrivateState.nonce s) ->
  affordable (assets l) ts -> default empty_leaf (sent l !! PrivateState.nonce s) = empty_leaf ->
  exists pi, SpendWitness.to_public_inputs (honest_spend s l ts) = Ok pi /\ SpendPublicInputs.is_valid pi = true.
Proof.
  intros Hc Hlen Hts Hn Ha Hsent. pose proof sent_tx_tree_height as Hsh.
  destruct (honest_debits_accepted (honest_spend s l ts) Hts MAX_NUM_TRANSFERS_PER_TX 0 (assets l)) as [root Hroot].
  { cbn [SpendWitness.before_balances SpendWitness.asset_merkle_proofs SpendWitness.transfers honest_spend].
    rewrite !drop_0. apply zip_fst_snd. }
  { done. }
  { done. }
  assert (0 <= PrivateState.nonce s < 2 ^ Z.of_nat SENT_TX_TREE_HEIGHT) as Hn' by (rewrite Hsh; exact Hn).
  unfold SpendWitness.to_public_inputs. cbv zeta.
  change (SpendWitness.prev_private_state (honest_spend s l ts)) with s. rewrite (co_assets _ _ Hc), Hroot.
  cbn [SpendWitness.transfers SpendWitness.before_balances SpendWitness.asset_merkle_proofs
    SpendWitness.sent_tx_merkle_proof SpendWitness.tx_nonce honest_spend].
  rewrite !length_fmap, honest_debits_length, Hlen, Nat.eqb_refl. cbn [andb ensure mbind res_bind].
  rewrite get_merkle_root_from_leaves_eq by (by rewrite Hlen). cbn [map_err mbind res_bind].
  rewrite (co_sent _ _ Hc). unfold sent_root. rewrite honest_proof_verifies by (try done; lia).
  cbn [map_err mbind res_bind]. rewrite honest_proof_writes by done. cbn [mbind res_bind].
  eexists. split; [reflexivity|]. cbn [SpendPublicInputs.is_valid]. apply Z.eqb_refl.
Qed.

(** *** Receiving *)

Lemma honest_receive_accepted s l token amount nullifier i :
  commits s l -> in_width 32 token -> ~ is_spent l nullifier ->
  balance_of (assets l) token + val amount < 2 ^ 256 ->
  0 <= i < 2 ^ 32 -> spent_nullifiers l !! i = None ->
  exists np u, well_shaped NULLIFIER_TREE_HEIGHT np /\
    UpdatePrivateState.new token amount nullifier s np (default empty_leaf (assets l !! token))
      (honest_proof ASSET_TREE_HEIGHT (assets l) token) = Ok u.
Proof.
  intros Hc Ht Hns Hlt Hi Hfree. pose proof asset_tree_height as Hah. pose proof nullifier_tree_height as Hnh.
  destruct (low_leaf_exists _ _ (co_linked s l Hc) Hns) as (low & prev & Hlow & Hgap).
  pose proof (co_dom s l Hc _ _ Hlow) as Hl.
  exists (honest_insertion NULLIFIER_TREE_HEIGHT (spent_nullifiers l) low i prev nullifier).
  assert (0 <= token < 2 ^ Z.of_nat ASSET_TREE_HEIGHT) as Ht' by (rewrite Hah; exact Ht).
  pose proof (U256_theorems.add_val (E := UpdatePrivateState.UpdatePrivateStateError)
    (default empty_leaf (assets l !! token)) amount) as Hadd.
  change (val (default empty_leaf (assets l !! token))) with (balance_of (assets l) token) in Hadd.
  destruct (U256.add (default empty_leaf (assets l !! token)) amount) as [sum|e|] eqn:Hsum; [|done|lia].
  eexists. split.
  - split_and!; cbn [low_leaf_proof leaf_proof low_leaf_index ip_index honest_insertion];
      [apply honest_proof_height|apply honest_proof_height|unfold in_width; rewrite Hnh in Hl; lia|unfold in_width; lia].
  - unfold UpdatePrivateState.new, NullifierTree.get_new_root. cbv zeta. rewrite bytes32_into_u256_eq.
    cbn [mbind res_bind]. rewrite (co_nullifiers s l Hc), honest_insertion_accepted;
      [|lia|apply (co_dom s l Hc)|done..|by rewrite Hnh].
    cbn [map_err mbind res_bind]. rewrite (co_assets s l Hc). unfold asset_root.
    rewrite honest_proof_verifies by (try done; lia). cbn [map_err mbind res_bind].
    rewrite Hsum. cbn [mbind res_bind]. rewrite honest_proof_writes by done. reflexivity.
Qed.

(** *** Genesis *)

Definition genesis_ledger : ledger := mkLedger ∅ (positions [default_leaf]) ∅.

Lemma sparse_new_root {E} {V} {L : Leafable V} h :
  Sparse.get_root (E := E) (Sparse.new (V := V) h) = Ok (subtree (Sparse.map_leaves (∅ : gmap Z V)) h 0).
Proof. by rewrite Sparse.sparse_get_root_inv by apply Sparse.sparse_new_inv. Qed.

Lemma incremental_new_root {E} {V} {L : Leafable V} h :
  (h < 64)%nat ->
  Incremental.get_root (E := E) (Incremental.new (V := V) h) = Ok (subtree (Sparse.map_leaves (∅ : gmap Z V)) h 0).
Proof. intros Hh. by rewrite Incremental.get_root_inv by (by apply Incremental.new_inv). Qed.

Lemma indexed_new_root {E E'} h :
  (h < 64)%nat -> exists t, indexed_new (E := E) h = Ok t /\
    Incremental.get_root (E := E') t = Ok (root_of h (positions [default_leaf])) /\
    linked (positions [default_leaf]) /\ dom_ok h (positions [default_leaf]).
Proof.
  intros Hh. destruct (indexed_new_inv (E := E) h Hh) as (t & Ht & [Hinv Hlk] & <- & Hl).
  exists t. pose proof (inv_dom_ok t Hinv) as Hdom. pose proof (inv_root_of t (E := E') Hinv) as Hr.
  rewrite Hl in *. by split_and!.
Qed.

Lemma commits_intro a n st pc no sa l :
  a = asset_root (assets l) -> n = root_of NULLIFIER_TREE_HEIGHT (spent_nullifiers l) -> st = sent_root (sent l) ->
  linked (spent_nullifiers l) -> dom_ok NULLIFIER_TREE_HEIGHT (spent_nullifiers l) ->
  commits (PrivateState.mk a n st pc no sa) l.
Proof. by intros -> -> ->. Qed.

Lemma asset_new_root {E} : Sparse.get_root (E := E) (Sparse.new (V := U256) ASSET_TREE_HEIGHT) = Ok (asset_root ∅).
Proof. exact (sparse_new_root (E := E) (V := U256) ASSET_TREE_HEIGHT). Qed.

Lemma sent_new_root {E} : Incremental.get_root (E := E) (Incremental.new (V := Tx) SENT_TX_TREE_HEIGHT) = Ok (sent_root ∅).
Proof. apply (incremental_new_root (E := E) (V := Tx) SENT_TX_TREE_HEIGHT). pose proof sent_tx_tree_height. lia. Qed.

Lemma private_state_new_commits {E} salt :
  exists s, PrivateState.new (E := E) salt = Ok s /\ commits s genesis_ledger /\ PrivateState.nonce s = 0.
Proof.
  pose proof nullifier_tree_height as Hnh.
  destruct (indexed_new_root (E := E) (E' := E) NULLIFIER_TREE_HEIGHT) as (t & Ht & Hr & Hlk & Hdom); [lia|].
  exists (PrivateState.mk (asset_root ∅) (root_of NULLIFIER_TREE_HEIGHT (positions [default_leaf])) (sent_root ∅)
            phash_default 0 salt).
  split; [|split; [|reflexivity]].
  - unfold PrivateState.new. rewrite asset_new_root, sent_new_root. unfold NullifierTree.init. rewrite Ht.
    unfold NullifierTree.get_root. cbn [mbind res_bind]. rewrite Hr. reflexivity.
  - exact (commits_intro _ _ _ _ _ _ genesis_ledger eq_refl eq_refl eq_refl Hlk Hdom).
Qed.

(** *** The nullifier tree *)

Lemma nullifiers_has_key t (n : Bytes32) :
  indexed_inv t ->
  has_key (positions (Incremental.leaves t)) (n : U256) <-> n = bytes32_default \/ n ∈ NullifierTree.nullifiers t.
Proof.
  intros [_ Hlk]. destruct (lk_sentinel _ Hlk) as (s & Hs & Hs0). apply positions_lookup in Hs as [_ Hs].
  unfold NullifierTree.nullifiers. destruct (Incremental.leaves t) as [|x ls]; [done|]. cbn in Hs. injection Hs as <-.
  cbn [drop]. rewrite list_elem_of_fmap. split.
  - intros (i & leaf & Hi & <-). apply positions_lookup in Hi as [_ Hi].
    destruct (Z.to_nat i) as [|j]; cbn in Hi; [injection Hi as <-; by left|].
    right. exists leaf. split; [done|]. by eapply list_elem_of_lookup_2.
  - intros [->|(leaf & -> & Hin)]; [exists 0, x; by split; [apply positions_lookup|]|].
    apply list_elem_of_lookup in Hin as [j Hj]. exists (Z.of_nat (S j)), leaf. split; [|done].
    apply positions_lookup. split; [lia|]. by rewrite Nat2Z.id.
Qed.

Lemma nullifiers_snoc ls low k v prev :
  ls <> [] -> positions ls !! low = Some prev ->
  key <$> drop 1 (<[Z.to_nat low := new_low_leaf prev (Z.of_nat (length ls)) k]> ls ++ [new_leaf prev k v])
    = (key <$> drop 1 ls) ++ [k].
Proof.
  intros Hne [H0 Hl]%positions_lookup. destruct ls as [|x ls]; [done|].
  destruct (Z.to_nat low) as [|j] eqn:Hj.
  - apply (fmap_app key ls).
  - trans (key <$> (<[j := new_low_leaf prev (Z.of_nat (S (length ls))) k]> ls ++ [new_leaf prev k v])); [done|].
    rewrite fmap_app, list_fmap_insert. f_equal. apply list_insert_id.
    change (ls !! j = Some prev) in Hl. change (drop 1 (x :: ls)) with ls. by rewrite list_lookup_fmap, Hl.
Qed.

(** Inserting a nullifier decides membership; the zero nullifier counts as present, since the
    sentinel leaf has key zero. *)
Lemma nullifier_insert_spec t n :
  indexed_inv t ->
  match NullifierTree.prove_and_insert t n with
  | Ok (t', p) => (n ∉ NullifierTree.nullifiers t) /\ n <> bytes32_default /\ indexed_inv t' /\
      NullifierTree.nullifiers t' = NullifierTree.nullifiers t ++ [n] /\
      forall r r', NullifierTree.get_root (E := IndexedMerkleTreeError) t = Ok r ->
        NullifierTree.get_root (E := IndexedMerkleTreeError) t' = Ok r' ->
        NullifierTree.verify p r r' n = Ok tt
  | Err NullifierAlreadyExists => n ∈ NullifierTree.nullifiers t \/ n = bytes32_default
  | Err InvalidData => False
  | Panic => Z.of_nat (length (Incremental.leaves t)) = 2 ^ Z.of_nat (Incremental.height t)
  end.
Proof.
  intros Hinv. unfold NullifierTree.prove_and_insert. rewrite bytes32_into_u256_eq. cbn [mbind res_bind].
  pose proof (insert_spec t n 0 Hinv) as Hspec. pose proof (prove_and_insert_follows t n 0 Hinv) as Hf.
  pose proof (nullifiers_has_key t n Hinv) as Hk.
  destruct (insert t n 0) as [t'|e|] eqn:Hins.
  - destruct Hf as [p Hp]. rewrite Hp. cbn [map_err].
    destruct Hspec as (Hnk & Hinv' & _ & low & prev & Hlow & _ & _ & _ & Hl). rewrite Hk in Hnk.
    split_and!; [tauto|tauto|done| |].
    + unfold NullifierTree.nullifiers. rewrite Hl. apply nullifiers_snoc; [|done].
      intros He. rewrite He in Hlow. done.
    + intros r r' Hr Hr'. pose proof (prove_and_insert_verifies t n 0 t' p r r' Hinv Hp Hr Hr') as Hv.
      unfold insertion_verify in Hv. unfold NullifierTree.verify, NullifierTree.get_new_root.
      rewrite bytes32_into_u256_eq. cbn [mbind res_bind]. simplify_res. simplify_bool. subst r'.
      rewrite Hr0. cbn [map_err mbind res_bind ensure]. by rewrite bool_decide_eq_true_2.
  - rewrite Hf. cbn [map_err]. destruct e; try done. tauto.
  - rewrite Hf. cbn [map_err]. apply Hspec.
Qed.
End honest.
