(* ===== verification/AccountScenario.v ===== *)
(** * A concrete account

    An account that receives seven units of token zero and then pays five of
    them to a given recipient, in one batch: the run that the examples on
    accounts and withdrawals share, for any collision-free hash. *)

From S2P Require Import Prelude Limbs U63 MerkleTree LeafTrees Poseidon IndexedTree Keccak Regev BalanceState Account AccountProps.

#[local] Remove Hints Leafable_Bytes32 : typeclass_instances.

Definition word (x : Z) (H : limbs_wfb 8 [0; 0; 0; 0; 0; 0; 0; x] = true) : U256 := mkLimbs (n := U256_LEN) _ H.
Definition amount_seven : U256 := word 7 eq_refl.
Definition amount_five : U256 := word 5 eq_refl.
Definition nullifier_one : Bytes32 := word 1 eq_refl.
Definition bytes32_one : Bytes32 := mkLimbs (n := BYTES32_LEN) [0; 1; 0; 0; 0; 0; 0; 0] eq_refl.

Section account.
Context {P : Poseidon} {PC : PoseidonCollisionFree P} (recipient : Bytes32).

(** One transfer of five units of token zero, padded to a full batch. *)
Definition pay_five : Transfer := Transfer.mk recipient 0 amount_five bytes32_one.
Definition batch : list Transfer := pay_five :: replicate 63 Transfer.default.

Lemma outflow_padding n token : outflow (replicate n Transfer.default) token = 0.
Proof.
  induction n as [|n IH]; cbn [replicate outflow]; [done|]. rewrite IH. by destruct (_ =? _).
Qed.

Lemma outflow_batch token : outflow batch token = if 0 =? token then 5 else 0.
Proof. unfold batch. cbn [outflow]. rewrite outflow_padding. cbn. by destruct token. Qed.

Lemma batch_tokens : Forall (fun t => in_width 32 (Transfer.token_index t)) batch.
Proof. constructor; [by split|]. apply Forall_replicate. by split. Qed.

Lemma genesis_fresh : ~ is_spent genesis_ledger nullifier_one.
Proof.
  intros (i & leaf & Hi & Hk). apply positions_lookup in Hi as [_ Hi].
  destruct (Z.to_nat i) as [|[|]]; [|done|done]. cbn in Hi. injection Hi as <-. discriminate Hk.
Qed.

(** The genesis state, with its first receive. *)
Lemma first_receive : exists s np u,
  commits s genesis_ledger /\ PrivateState.nonce s = 0 /\ well_shaped NULLIFIER_TREE_HEIGHT np /\
  UpdatePrivateState.new 0 amount_seven nullifier_one s np (default empty_leaf (assets genesis_ledger !! 0))
    (honest_proof ASSET_TREE_HEIGHT (assets genesis_ledger) 0) = Ok u.
Proof.
  destruct (private_state_new_commits (E := Empty_set) phash_default) as (s & _ & Hc & Hn).
  destruct (honest_receive_accepted s genesis_ledger 0 amount_seven nullifier_one 1) as (np & u & Hws & Hu);
    [exact Hc|by split|exact genesis_fresh|done|done| |by exists s, np, u].
  apply positions_None; [done|]. cbn. lia.
Qed.

(** The state after the first receive, and its ledger. *)
Lemma funded : exists s l, commits s l /\ PrivateState.nonce s = 0 /\ sent l = ∅ /\
  forall t, balance_of (assets l) t = if 0 =? t then 7 else 0.
Proof.
  destruct first_receive as (s & np & u & Hc & Hn & Hws & Hu).
  destruct (receive_refines _ _ _ _ _ _ _ _ _ Hc ltac:(by split) Hws (honest_proof_height _ _ _) Hu)
    as (_ & _ & Hn' & _ & _ & l' & Hc' & Hs & Hb & _).
  exists (UpdatePrivateState.new_private_state u), l'.
  split; [exact Hc'|]. split; [by rewrite Hn', Hn|]. split; [exact Hs|].
  intros t. rewrite Hb. by destruct t.
Qed.

Lemma funded_affordable (l : ledger) :
  (forall t, balance_of (assets l) t = if 0 =? t then 7 else 0) -> affordable (assets l) batch.
Proof. intros Hb t. rewrite Hb, outflow_batch. by destruct (0 =? t). Qed.

Lemma funded_spend s l : commits s l -> PrivateState.nonce s = 0 -> sent l = ∅ ->
  (forall t, balance_of (assets l) t = if 0 =? t then 7 else 0) ->
  spend_shape (honest_spend s l batch) /\
  exists pi, SpendWitness.to_public_inputs (honest_spend s l batch) = Ok pi /\ SpendPublicInputs.is_valid pi = true.
Proof.
  intros Hc Hn Hs Hb. split.
  - apply honest_spend_shape; [apply batch_tokens|by rewrite Hn].
  - apply honest_spend_accepted; [exact Hc|reflexivity|apply batch_tokens|by rewrite Hn| |by rewrite Hs].
    by apply funded_affordable.
Qed.

(** Receive seven, then pay five. *)
Lemma small_run : exists s tx s' l', commits s genesis_ledger /\ PrivateState.nonce s = 0 /\
  account_run s [Received 0 amount_seven nullifier_one; Spent batch tx] s' /\
  commits s' l' /\ sent l' !! 0 = Some tx /\ tx = Tx.mk P (subtree (list_leaves batch) TRANSFER_TREE_HEIGHT 0) 0.
Proof.
  destruct first_receive as (s & np & u & Hc & Hn & Hws & Hu).
  destruct (receive_refines _ _ _ _ _ _ _ _ _ Hc ltac:(by split) Hws (honest_proof_height _ _ _) Hu)
    as (_ & _ & Hn' & _ & _ & l' & Hc' & Hs & Hb & _). rewrite Hn in Hn'.
  destruct (funded_spend (UpdatePrivateState.new_private_state u) l' Hc') as (Hsh & pi & Hpi & Hv);
    [done|exact Hs|intros t; rewrite Hb; by destruct t|].
  destruct (spend_refines (honest_spend (UpdatePrivateState.new_private_state u) l' batch) pi l' Hc' Hsh Hpi)
    as (l2 & Hc2 & Hnew & Hsp).
  exists s, (SpendPublicInputs.tx pi). eexists _, l2. split; [exact Hc|]. split; [exact Hn|]. split; [|split; [exact Hc2|split]].
  - eapply account_run_cons; [|eapply account_run_cons; [|apply account_run_nil]].
    + refine (step_receive _ _ _ _ _ _ _ _ _ Hws _ Hu); [by split|apply honest_proof_height].
    + eapply (step_spend (honest_spend (UpdatePrivateState.new_private_state u) l' batch));
        [exact Hsh|exact Hpi|exact Hv|symmetry; exact Hnew].
  - rewrite (sp_sent _ _ _ _ Hsp). cbn [honest_spend SpendWitness.tx_nonce]. rewrite Hn'. apply lookup_insert_eq.
  - rewrite (sp_tx _ _ _ _ Hsp). cbn [honest_spend SpendWitness.tx_nonce SpendWitness.transfers]. by rewrite Hn'.
Qed.

End account.
