(* ===== verification/Ledger.v ===== *)
(** * The public ledger

    Models the base layer as a block producer keeps it
    ([src/src/common/public_state.rs], [block.rs], [tx.rs],
    [channel_message.rs], and the trees of [common/trees/]): the versioned
    transactions and channel actions with their trees, the leaves of the
    channel tree, the [PublicState] that a block commits to, the block header
    with its hash chain, and [FullPublicState] with its two mutating methods,
    adding a block and adding a deposit.

    The mutating methods are in the [meth] monad of [Prelude]: an early return
    keeps what was already written to the receiver. *)

From S2P Require Import Prelude Limbs U63 MerkleTree LeafTrees Poseidon IndexedTree Keccak Regev BalanceState Account.

#[local] Remove Hints Leafable_Bytes32 : typeclass_instances.

Notation BlockNumber := U63.U63.

Definition BLOCK_NUMBER_BITS : nat := 63.
Definition PUBLIC_STATE_TREE_HEIGHT : nat := BLOCK_NUMBER_BITS.
Definition DEPOSIT_TREE_HEIGHT : nat := 63.
Definition SEND_TREE_HEIGHT : nat := 32.
Definition CHANNEL_ID_BITS : nat := 32.
Definition CHANNEL_TREE_HEIGHT : nat := CHANNEL_ID_BITS.
Definition MEMBER_TREE_HEIGHT : nat := 3.
Definition TX_TREE_HEIGHT : nat := CHANNEL_ID_BITS.

Lemma public_state_tree_height : Z.of_nat PUBLIC_STATE_TREE_HEIGHT = 63.
Proof. done. Qed.
Lemma deposit_tree_height : Z.of_nat DEPOSIT_TREE_HEIGHT = 63.
Proof. done. Qed.
Lemma send_tree_height : Z.of_nat SEND_TREE_HEIGHT = 32.
Proof. done. Qed.
Lemma channel_tree_height : Z.of_nat CHANNEL_TREE_HEIGHT = 32.
Proof. done. Qed.
Lemma tx_tree_height : Z.of_nat TX_TREE_HEIGHT = 32.
Proof. done. Qed.

(* The heights stay folded: a tree of height 32 or 63 is never computed. *)
#[global] Opaque PUBLIC_STATE_TREE_HEIGHT DEPOSIT_TREE_HEIGHT SEND_TREE_HEIGHT CHANNEL_TREE_HEIGHT TX_TREE_HEIGHT.

(** [Tree::init().get_root()]: the root of an empty tree, which cannot panic
    ([init_root_spec]). *)
Definition init_root {Hs : LeafableHasher} (V : Type) {L : Leafable V} (h : nat) : HashOut :=
  match MerkleTree.get_root (E := unit) (MerkleTree.new (V := V) h) with
  | Ok r => r
  | _ => default_hash
  end.

Lemma init_root_spec {Hs : LeafableHasher} (V : Type) {L : Leafable V} (h : nat) :
  init_root V h = subtree (fun _ => leaf_hash (empty_leaf (V := V))) h 0.
Proof. unfold init_root. by rewrite (get_root_spec _ _ (new_represents h)). Qed.

#[export] Existing Instance U63.U63_eq_dec.

Definition block_number_default : BlockNumber := U63.mkU63 0.

(** ** Channel actions and versioned transactions *)

Inductive TxClass := UserTransfer | ChannelActionClass.

Module TxClass.
Definition as_u32 (c : TxClass) : Z := match c with UserTransfer => 0 | ChannelActionClass => 1 end.

Definition from_u32 (value : Z) : res CommonError TxClass :=
  if value =? 0 then Ok UserTransfer
  else if value =? 1 then Ok ChannelActionClass
  else Err InvalidData.
End TxClass.

Inductive ChannelActionKind := InterChannelSend | ChannelClose | MemberSetUpdate.

Module ChannelActionKind.
Definition as_u32 (k : ChannelActionKind) : Z :=
  match k with InterChannelSend => 0 | ChannelClose => 1 | MemberSetUpdate => 2 end.

Definition from_u32 (value : Z) : res CommonError ChannelActionKind :=
  if value =? 0 then Ok InterChannelSend
  else if value =? 1 then Ok ChannelClose
  else if value =? 2 then Ok MemberSetUpdate
  else Err InvalidData.
End ChannelActionKind.

#[export] Instance TxClass_eq_dec : EqDecision TxClass.
Proof. solve_decision. Defined.
#[export] Instance ChannelActionKind_eq_dec : EqDecision ChannelActionKind.
Proof. solve_decision. Defined.

Definition MEMBER_SET_UPDATE_DOMAIN : Z := 0x494d4d53.

(** The payload of a member-set update: the transition between two registered roots. *)
Definition member_set_update_payload {P : Poseidon} (prev_member_root new_member_root : PHash) : PHash :=
  hash_inputs_u64 ([MEMBER_SET_UPDATE_DOMAIN] ++ phash_to_u64_vec prev_member_root
                     ++ phash_to_u64_vec new_member_root).

Module ChannelAction.
Record ChannelAction {P : Poseidon} := mk {
  kind : ChannelActionKind;
  source_channel_id : ChannelId;
  destination_channel_id : ChannelId;
  tx_hash : Bytes32;
  seal : Bytes32;
  payload_hash : PHash;
}.
#[global] Arguments ChannelAction : clear implicits.
#[global] Arguments ChannelAction {P}.
#[global] Arguments mk {P}.

#[global] Instance ChannelAction_eq_dec {P : Poseidon} : EqDecision ChannelAction.
Proof. intros x y. unfold Decision. decide equality; apply decide; apply _. Defined.

Definition to_u64_vec {P : Poseidon} (a : ChannelAction) : list Z :=
  [ChannelActionKind.as_u32 (kind a)] ++ ChannelId.to_u32_vec (source_channel_id a)
    ++ ChannelId.to_u32_vec (destination_channel_id a) ++ Limbs.to_u64_vec (tx_hash a)
    ++ Limbs.to_u64_vec (seal a) ++ phash_to_u64_vec (payload_hash a).

Definition default {P : Poseidon} : ChannelAction :=
  mk InterChannelSend ChannelId.dummy ChannelId.dummy bytes32_default bytes32_default phash_default.
End ChannelAction.
Notation ChannelAction := ChannelAction.ChannelAction.

#[export] Instance Leafable_ChannelAction {P : Poseidon} : Leafable ChannelAction := {|
  empty_leaf := ChannelAction.default;
  leaf_hash a := hash_inputs_u64 (ChannelAction.to_u64_vec a);
|}.

Module TxV2.
Record TxV2 {P : Poseidon} := mk {
  tx_class : TxClass;
  transfer_tree_root : PHash;
  nonce : Z;
  channel_action_root : PHash;
}.
#[global] Arguments TxV2 : clear implicits.
#[global] Arguments TxV2 {P}.
#[global] Arguments mk {P}.

#[global] Instance TxV2_eq_dec {P : Poseidon} : EqDecision TxV2.
Proof. solve_decision. Defined.

Definition to_u64_vec {P : Poseidon} (t : TxV2) : list Z :=
  [TxClass.as_u32 (tx_class t)] ++ phash_to_u64_vec (transfer_tree_root t) ++ [nonce t]
    ++ phash_to_u64_vec (channel_action_root t).

Definition default {P : Poseidon} : TxV2 := mk UserTransfer phash_default 0 phash_default.
End TxV2.
Notation TxV2 := TxV2.TxV2.

#[export] Instance Leafable_TxV2 {P : Poseidon} : Leafable TxV2 := {|
  empty_leaf := TxV2.default;
  leaf_hash t := hash_inputs_u64 (TxV2.to_u64_vec t);
|}.

(** [for (index, x) in xs.iter().cloned().enumerate() { tree.update(index as u64, x) }]. *)
Definition fill_sparse {Hs : LeafableHasher} {V : Type} {L : Leafable V} {E}
    (t : Sparse.SparseMerkleTree V) (xs : list V) : res E (Sparse.SparseMerkleTree V) :=
  res_foldl (fun t e => Sparse.update t (Z.of_nat e.1) e.2) t (imap pair xs).

Section tx_trees.
Context {P : Poseidon}.

Definition compute_channel_action_root {E} (actions : list ChannelAction) : res E PHash :=
  tree ← fill_sparse (Sparse.new (Hs := PoseidonLeafableHasher) TX_TREE_HEIGHT) actions;
  Sparse.get_root (Hs := PoseidonLeafableHasher) tree.

Definition compute_tx_v2_root {E} (txs : list TxV2) : res E PHash :=
  tree ← fill_sparse (Sparse.new (Hs := PoseidonLeafableHasher) TX_TREE_HEIGHT) txs;
  Sparse.get_root (Hs := PoseidonLeafableHasher) tree.

End tx_trees.

(** ** Channel messages *)

Definition CHANNEL_MESSAGE_MAGIC : Z := 0x494d5043.

Module Allocation.
Record Allocation := mk { recipient : Bytes32; token_index : Z; amount : U256 }.

Definition to_u32_vec (a : Allocation) : list Z :=
  Limbs.to_u32_vec (recipient a) ++ [token_index a] ++ Limbs.to_u32_vec (amount a).
End Allocation.
Notation Allocation := Allocation.Allocation.

Module ChannelMessage.
Record ChannelMessage := mk {
  channel_id : ChannelId;
  sequence : Z;
  allocations : list Allocation;
  tx_tree_root : Bytes32;
}.

Section message.
Context {K : Keccak} {P : Poseidon}.

(** The sequence is written low word first. *)
Definition sequence_words (m : ChannelMessage) : list Z :=
  [wrap 32 (sequence m); wrap 32 (Z.shiftr (sequence m) 32)].

Definition allocations_hash (m : ChannelMessage) : Bytes32 :=
  let inputs := allocations m ≫= Allocation.to_u32_vec in
  match inputs with
  | [] => bytes32_default
  | _ => solidity_keccak256 inputs
  end.

Definition body_words (m : ChannelMessage) : list Z :=
  ChannelId.to_u32_vec (channel_id m) ++ sequence_words m ++ to_u32_vec (allocations_hash m)
    ++ to_u32_vec (tx_tree_root m).

Definition signing_hash (m : ChannelMessage) : Bytes32 :=
  solidity_keccak256 ([CHANNEL_MESSAGE_MAGIC] ++ body_words m).

Definition close_action_payload_hash (m : ChannelMessage) : PHash := hash_inputs_u64 (body_words m).

Definition to_channel_close_action (m : ChannelMessage) (seal : Bytes32) : ChannelAction :=
  ChannelAction.mk ChannelClose (channel_id m) ChannelId.dummy (signing_hash m) seal
    (close_action_payload_hash m).

Definition to_channel_close_tx_v2 {E} (m : ChannelMessage) (seal : Bytes32) (nonce : Z) : res E TxV2 :=
  channel_action_root ← compute_channel_action_root [to_channel_close_action m seal];
  Ok (TxV2.mk ChannelActionClass phash_default nonce channel_action_root).

Definition channel_close_tx_v2_root {E} (m : ChannelMessage) (seal : Bytes32) (nonce : Z) : res E PHash :=
  tx ← to_channel_close_tx_v2 m seal nonce;
  compute_tx_v2_root [tx].

End message.
End ChannelMessage.
Notation ChannelMessage := ChannelMessage.ChannelMessage.

(** ** Leaves of the channel tree *)

Definition MEMBER_LEAF_DOMAIN : Z := 0x4d424c46.
Definition CHANNEL_LEAF_DOMAIN : Z := 0x43484c46.

Module MemberLeaf.
Record MemberLeaf {P : Poseidon} := mk { pk_g : PHash; pk_b : PHash; regev_pk_digest : PHash }.
#[global] Arguments MemberLeaf : clear implicits.
#[global] Arguments MemberLeaf {P}.
#[global] Arguments mk {P}.

Definition to_u64_vec {P : Poseidon} (l : MemberLeaf) : list Z :=
  [MEMBER_LEAF_DOMAIN] ++ phash_to_u64_vec (pk_g l) ++ phash_to_u64_vec (pk_b l)
    ++ phash_to_u64_vec (regev_pk_digest l).
End MemberLeaf.
Notation MemberLeaf := MemberLeaf.MemberLeaf.

#[export] Instance Leafable_MemberLeaf {P : Poseidon} : Leafable MemberLeaf := {|
  empty_leaf := MemberLeaf.mk phash_default phash_default phash_default;
  leaf_hash l := hash_inputs_u64 (MemberLeaf.to_u64_vec l);
|}.

Module SendLeaf.
Record SendLeaf := mk { prev : BlockNumber; cur : BlockNumber; tx_tree_root : Bytes32 }.

#[global] Instance SendLeaf_eq_dec : EqDecision SendLeaf.
Proof. solve_decision. Defined.

Definition default : SendLeaf := mk block_number_default block_number_default bytes32_default.

Definition to_u64_vec (l : SendLeaf) : list Z :=
  U63.to_u64_vec (prev l) ++ U63.to_u64_vec (cur l) ++ Limbs.to_u64_vec (tx_tree_root l).
End SendLeaf.
Notation SendLeaf := SendLeaf.SendLeaf.

#[export] Instance Leafable_SendLeaf {P : Poseidon} : Leafable SendLeaf := {|
  empty_leaf := SendLeaf.default;
  leaf_hash l := hash_inputs_u64 (SendLeaf.to_u64_vec l);
|}.

Module ChannelLeaf.
Record ChannelLeaf {P : Poseidon} := mk {
  index : Z;
  prev : BlockNumber;
  send_tree_root : PHash;
  member_pubkeys_root : PHash;
}.
#[global] Arguments ChannelLeaf : clear implicits.
#[global] Arguments ChannelLeaf {P}.
#[global] Arguments mk {P}.

#[global] Instance ChannelLeaf_eq_dec {P : Poseidon} : EqDecision ChannelLeaf.
Proof. solve_decision. Defined.

(** [impl Default for ChannelLeaf]: a channel with no sends and no members. *)
Definition default {P : Poseidon} : ChannelLeaf :=
  mk 0 block_number_default (init_root (Hs := PoseidonLeafableHasher) SendLeaf SEND_TREE_HEIGHT)
    (init_root (Hs := PoseidonLeafableHasher) MemberLeaf MEMBER_TREE_HEIGHT).

Definition to_u64_vec {P : Poseidon} (l : ChannelLeaf) : list Z :=
  [CHANNEL_LEAF_DOMAIN; index l] ++ U63.to_u64_vec (prev l) ++ phash_to_u64_vec (send_tree_root l)
    ++ phash_to_u64_vec (member_pubkeys_root l).
End ChannelLeaf.
Notation ChannelLeaf := ChannelLeaf.ChannelLeaf.

#[export] Instance Leafable_ChannelLeaf {P : Poseidon} : Leafable ChannelLeaf := {|
  empty_leaf := ChannelLeaf.default;
  leaf_hash l := hash_inputs_u64 (ChannelLeaf.to_u64_vec l);
|}.

(** [impl Leafable for Deposit]. *)
Definition deposit_default : Deposit :=
  Deposit.mk (U63.mkU63 0) block_number_default address_default bytes32_default 0 u256_zero bytes32_default.

#[export] Instance Leafable_Deposit {P : Poseidon} : Leafable Deposit := {|
  empty_leaf := deposit_default;
  leaf_hash d := Deposit.poseidon_hash d;
|}.

(** ** The public state *)

Module PublicState.
Record PublicState {P : Poseidon} := mk {
  block_number : BlockNumber;
  timestamp : Z;
  account_tree_root : PHash;
  deposit_tree_root : PHash;
  prev_public_state_root : PHash;
}.
#[global] Arguments PublicState : clear implicits.
#[global] Arguments PublicState {P}.
#[global] Arguments mk {P}.

#[global] Instance PublicState_eq_dec {P : Poseidon} : EqDecision PublicState.
Proof. solve_decision. Defined.

(** [U64::from(timestamp).to_u64_vec()] is [split_u64]; the conversion cannot panic ([timestamp_words]). *)
Definition to_u64_vec {P : Poseidon} (s : PublicState) : list Z :=
  U63.to_u64_vec (block_number s) ++ split_u64 (timestamp s)
    ++ phash_to_u64_vec (account_tree_root s) ++ phash_to_u64_vec (deposit_tree_root s)
    ++ phash_to_u64_vec (prev_public_state_root s).

Definition poseidon_hash {P : Poseidon} (s : PublicState) : PHash := hash_inputs_u64 (to_u64_vec s).

(** The leaf of an unused position: all zero, unlike [default]. *)
Definition empty {P : Poseidon} : PublicState :=
  mk block_number_default 0 phash_default phash_default phash_default.
End PublicState.
Notation PublicState := PublicState.PublicState.

Lemma timestamp_words {E} t :
  exists u, U64.from_u64 (E := E) t = Ok u /\ Limbs.to_u64_vec u = split_u64 t.
Proof.
  unfold U64.from_u64, limbs_try_into.
  destruct (decide _) as [H|H]; [by eexists|]. exfalso. apply H. apply limbs_wfb_spec.
  split; [done|]. repeat constructor; apply wrap_in_width; lia.
Qed.

#[export] Instance Leafable_PublicState {P : Poseidon} : Leafable PublicState := {|
  empty_leaf := PublicState.empty;
  leaf_hash s := PublicState.poseidon_hash s;
|}.

(** [impl Default for PublicState]. *)
Definition public_state_default {P : Poseidon} : PublicState :=
  PublicState.mk block_number_default 0
    (init_root (Hs := PoseidonLeafableHasher) ChannelLeaf CHANNEL_TREE_HEIGHT)
    (init_root (Hs := PoseidonLeafableHasher) Deposit DEPOSIT_TREE_HEIGHT)
    (init_root (Hs := PoseidonLeafableHasher) PublicState PUBLIC_STATE_TREE_HEIGHT).

(** ** Blocks *)

Inductive BlockError := InvalidNumUsers.

Module Block.
Record Block := mk {
  num_users : Z;
  channel_id : Z;
  timestamp : Z;
  key_ids : list Z;
  tx_tree_root : Bytes32;
  deposit_hash_chain : Bytes32;
  channel_reg_hash_chain : Bytes32;
}.

(** [#[derive(Default)]], the genesis block. *)
Definition default : Block := mk 0 0 0 [] bytes32_default bytes32_default bytes32_default.

Definition new (num_users channel_id : Z) (key_ids : list Z) (timestamp : Z)
    (tx_tree_root deposit_hash_chain channel_reg_hash_chain : Bytes32) : res BlockError Block :=
  if num_users <? wrap 32 (Z.of_nat (length key_ids)) then Err InvalidNumUsers
  else Ok (mk num_users channel_id timestamp (resize_with (Z.to_nat num_users) 0 key_ids)
             tx_tree_root deposit_hash_chain channel_reg_hash_chain).

Definition hash_words (b : Block) (prev_hash : Bytes32) : list Z :=
  to_u32_vec prev_hash ++ [channel_id b] ++ split_u64 (timestamp b) ++ key_ids b
    ++ to_u32_vec (tx_tree_root b) ++ to_u32_vec (deposit_hash_chain b)
    ++ to_u32_vec (channel_reg_hash_chain b).

Definition hash_with_prev_hash {K : Keccak} (b : Block) (prev_hash : Bytes32) : res BlockError Bytes32 :=
  if negb (wrap 32 (Z.of_nat (length (key_ids b))) =? num_users b) then Err InvalidNumUsers
  else Ok (solidity_keccak256 (hash_words b prev_hash)).

Definition new_with_tx_v2s {P : Poseidon} (num_users channel_id : Z) (key_ids : list Z) (timestamp : Z)
    (txs : list TxV2) (deposit_hash_chain channel_reg_hash_chain : Bytes32) : res BlockError Block :=
  root ← compute_tx_v2_root txs;
  tx_tree_root ← phash_into_bytes32 root;
  new num_users channel_id key_ids timestamp tx_tree_root deposit_hash_chain channel_reg_hash_chain.
End Block.
Notation Block := Block.Block.

(** ** The block producer's view *)

Inductive FullPublicStateError :=
| TooManyKeyIds (n : nat)
| UserIdError (e : ChannelId.ChannelIdError)
| FullBlockError (e : BlockError).

(** The first supported user count that holds [length] key ids. *)
Definition get_num_users (length : nat) (supported_user_counts : list Z) : option Z :=
  List.find (fun num_users => wrap 32 (Z.of_nat length) <=? num_users) supported_user_counts.

Module FullPublicState.
Record FullPublicState {P : Poseidon} := mk {
  supported_user_counts : list Z;
  block_number : BlockNumber;
  channel_tree : Sparse.SparseMerkleTree ChannelLeaf;
  send_leaves : gmap ChannelId (list SendLeaf);
  deposit_tree : Incremental.IncrementalMerkleTree Deposit;
  public_state_tree : Incremental.IncrementalMerkleTree PublicState;
  blocks : list Block;
  deposits : list Deposit;
  block_hash_chain : Bytes32;
  deposit_hash_chain : Bytes32;
  channel_reg_hash_chain : Bytes32;
}.
#[global] Arguments FullPublicState : clear implicits.
#[global] Arguments FullPublicState {P}.
#[global] Arguments mk {P}.

Section full_public_state.
Context {P : Poseidon} {K : Keccak}.

Definition new (supported_user_counts : list Z) : FullPublicState :=
  mk supported_user_counts block_number_default (Sparse.new CHANNEL_TREE_HEIGHT) ∅
    (Incremental.new DEPOSIT_TREE_HEIGHT) (Incremental.new PUBLIC_STATE_TREE_HEIGHT)
    [Block.default] [] bytes32_default bytes32_default bytes32_default.

Definition last_timestamp (s : FullPublicState) : Z :=
  match list.last (blocks s) with Some b => Block.timestamp b | None => 0 end.

Definition to_public_state {E} (s : FullPublicState) : res E PublicState :=
  account_tree_root ← Sparse.get_root (channel_tree s);
  deposit_tree_root ← Incremental.get_root (deposit_tree s);
  prev_public_state_root ← Incremental.get_root (public_state_tree s);
  Ok (PublicState.mk (block_number s) (last_timestamp s) account_tree_root deposit_tree_root
        prev_public_state_root).

(** The assignments of [add_block_with_channel] before its loop. *)
Definition set_block (tree : Incremental.IncrementalMerkleTree PublicState) (number : BlockNumber)
    (block : Block) (chain : Bytes32) (s : FullPublicState) : FullPublicState :=
  mk (supported_user_counts s) number (channel_tree s) (send_leaves s) (deposit_tree s) tree
    (blocks s ++ [block]) (deposits s) chain (deposit_hash_chain s) (channel_reg_hash_chain s).

(** The assignments of one iteration of the loop. *)
Definition set_sends (channel_id : ChannelId) (leaves : list SendLeaf)
    (tree : Sparse.SparseMerkleTree ChannelLeaf) (s : FullPublicState) : FullPublicState :=
  mk (supported_user_counts s) (block_number s) tree (<[channel_id := leaves]> (send_leaves s))
    (deposit_tree s) (public_state_tree s) (blocks s) (deposits s) (block_hash_chain s)
    (deposit_hash_chain s) (channel_reg_hash_chain s).

Definition last_send (leaves : list SendLeaf) : BlockNumber :=
  match list.last leaves with Some l => SendLeaf.cur l | None => block_number_default end.

(** The body of the loop over the key ids. *)
Definition add_send (channel_id : Z) (tx_tree_root : Bytes32) (block_number : Z) (key_id : Z)
    : meth FullPublicState FullPublicStateError unit :=
  if key_id =? 0 then mret tt
  else
    channel_id ← pure (map_err UserIdError (ChannelId.new channel_id));
    s ← self;
    let leaves := default [] (send_leaves s !! channel_id) in
    let prev := last_send leaves in
    current_block ← pure (expect (U63.new block_number));
    if bool_decide (prev = current_block) then mret tt
    else
      send_tree ← pure (res_foldl Incremental.push (Incremental.new SEND_TREE_HEIGHT) leaves);
      let current_user_leaf := Sparse.get_leaf (channel_tree s) channel_id in
      send_tree_root ← pure (Incremental.get_root send_tree);
      let channel_leaf := ChannelLeaf.mk (wrap 32 (Z.of_nat (Incremental.len send_tree))) prev
        send_tree_root (ChannelLeaf.member_pubkeys_root current_user_leaf) in
      _ ← pure (assert_that (bool_decide (current_user_leaf = channel_leaf)));
      let new_send_leaf := SendLeaf.mk prev current_block tx_tree_root in
      send_tree' ← pure (Incremental.push send_tree new_send_leaf);
      send_tree_root' ← pure (Incremental.get_root send_tree');
      let new_user_leaf := ChannelLeaf.mk (wrap 32 (Z.of_nat (Incremental.len send_tree'))) current_block
        send_tree_root' (ChannelLeaf.member_pubkeys_root current_user_leaf) in
      channel_tree' ← pure (Sparse.update (channel_tree s) channel_id new_user_leaf);
      modify (set_sends channel_id (leaves ++ [new_send_leaf]) channel_tree').

Definition add_block_with_channel (channel_id : Z) (key_ids : list Z) (timestamp : Z) (tx_tree_root : Bytes32)
    : meth FullPublicState FullPublicStateError unit :=
  s ← self;
  num_users ← pure (ok_or (get_num_users (length key_ids) (supported_user_counts s))
                      (TooManyKeyIds (length key_ids)));
  block ← pure (map_err FullBlockError
    (Block.new num_users channel_id key_ids timestamp tx_tree_root (deposit_hash_chain s)
       (channel_reg_hash_chain s)));
  let number := wrap 64 (U63.as_u64 (block_number s) + 1) in
  next_block_number ← pure (expect (U63.new number));
  _ ← pure (if existsb (fun key_id => negb (key_id =? 0)) key_ids
            then _ ← map_err UserIdError (ChannelId.new channel_id); Ok tt
            else Ok tt);
  next_block_hash_chain ← pure (expect (Block.hash_with_prev_hash block (block_hash_chain s)));
  prev_public_state ← pure (to_public_state s);
  public_state_tree' ← pure (Incremental.push (public_state_tree s) prev_public_state);
  _ ← modify (set_block public_state_tree' next_block_number block next_block_hash_chain);
  for_each (add_send channel_id tx_tree_root number) key_ids.

Definition add_block_with_tx_tree_root_v2 (channel_id : Z) (key_ids : list Z) (timestamp : Z) (root : PHash)
    : meth FullPublicState FullPublicStateError unit :=
  tx_tree_root ← pure (phash_into_bytes32 root);
  add_block_with_channel channel_id key_ids timestamp tx_tree_root.

Definition add_block_with_tx_v2s (channel_id : Z) (key_ids : list Z) (timestamp : Z) (txs : list TxV2)
    : meth FullPublicState FullPublicStateError unit :=
  root ← pure (compute_tx_v2_root txs);
  add_block_with_tx_tree_root_v2 channel_id key_ids timestamp root.

Definition add_channel_close_block (channel_id : Z) (key_ids : list Z) (timestamp : Z)
    (channel_message : ChannelMessage) (seal : Bytes32) (nonce : Z)
    : meth FullPublicState FullPublicStateError unit :=
  close_tx ← pure (ChannelMessage.to_channel_close_tx_v2 channel_message seal nonce);
  add_block_with_tx_v2s channel_id key_ids timestamp [close_tx].

Definition set_deposit (deposit : Deposit) (tree : Incremental.IncrementalMerkleTree Deposit)
    (chain : Bytes32) (s : FullPublicState) : FullPublicState :=
  mk (supported_user_counts s) (block_number s) (channel_tree s) (send_leaves s) tree
    (public_state_tree s) (blocks s) (deposits s ++ [deposit]) (block_hash_chain s) chain
    (channel_reg_hash_chain s).

Definition add_deposit (depositor : Address) (recipient : Bytes32) (token_index : Z) (amount : U256)
    (aux_data : Bytes32) : meth FullPublicState FullPublicStateError unit :=
  s ← self;
  block_number ← pure (expect (U63.add (block_number s) 1));
  deposit_index ← pure (expect (U63.new (wrap 64 (Z.of_nat (length (deposits s))))));
  let deposit := Deposit.mk deposit_index block_number depositor recipient token_index amount aux_data in
  deposit_tree' ← pure (Incremental.push (deposit_tree s) deposit);
  modify (set_deposit deposit deposit_tree'
            (Deposit.hash_with_prev_hash deposit (deposit_hash_chain s))).

End full_public_state.
End FullPublicState.
Notation FullPublicState := FullPublicState.FullPublicState.
