(* ===== verification/LedgerProps.v ===== *)
(** * What the public ledger promises

    The specification of [FullPublicState] is a history: the list of blocks
    and the list of deposits.  [ledger_inv] says that every other field is a
    function of the two: the send leaves of a channel are the blocks it took
    part in ([send_history]), the channel tree holds the summary of those
    leaves, and the two hash chains are folds.  The invariant holds initially
    and every method keeps it; it also shows that the consistency assertion in
    the middle of [add_block_with_channel] cannot fail. *)

From S2P Require Import Prelude Limbs U63 MerkleTree LeafTrees Poseidon IndexedTree Keccak Regev BalanceState Account AccountProps Ledger.

#[local] Remove Hints Leafable_Bytes32 : typeclass_instances.
Import FullPublicState.

(** ** The history a ledger stands for *)

Definition active_key (key_id : Z) : bool := negb (key_id =? 0).

(** Channel [c] sends in block [b]. *)
Definition takes_part (c : Z) (b : Block) : bool :=
  (Block.channel_id b =? c) && existsb active_key (Block.key_ids b).

Definition record_send (c : Z) (acc : Z * list SendLeaf) (b : Block) : Z * list SendLeaf :=
  (acc.1 + 1,
   if takes_part c b
   then acc.2 ++ [SendLeaf.mk (last_send acc.2) (U63.mkU63 acc.1) (Block.tx_tree_root b)]
   else acc.2).

(** The sends of channel [c], read off the blocks. *)
Definition send_history (c : Z) (bs : list Block) : list SendLeaf := (foldl (record_send c) (0, []) bs).2.

Lemma record_send_count c bs acc :
  (foldl (record_send c) acc bs).1 = acc.1 + Z.of_nat (length bs).
Proof.
  revert acc. induction bs as [|b bs IH]; intros acc; cbn [foldl length]; [lia|].
  rewrite IH. cbn. lia.
Qed.

Lemma send_history_snoc c bs b :
  send_history c (bs ++ [b]) =
  if takes_part c b
  then send_history c bs ++ [SendLeaf.mk (last_send (send_history c bs))
         (U63.mkU63 (Z.of_nat (length bs))) (Block.tx_tree_root b)]
  else send_history c bs.
Proof.
  unfold send_history. rewrite foldl_app. cbn [foldl]. unfold record_send at 1.
  rewrite record_send_count. cbn [fst snd]. rewrite Z.add_0_l. by destruct (takes_part c b).
Qed.

Lemma send_history_genesis c : send_history c [Block.default] = [].
Proof.
  unfold send_history, record_send, takes_part. cbn. by rewrite andb_false_r.
Qed.

(** The block of a send. *)
Lemma send_history_block c bs l : l ∈ send_history c bs ->
  exists b, bs !! Z.to_nat (U63.as_u64 (SendLeaf.cur l)) = Some b /\ takes_part c b = true /\ Block.tx_tree_root b = SendLeaf.tx_tree_root l.
Proof.
  induction bs as [|b bs IH] using rev_ind; [by intros ?%not_elem_of_nil|]. rewrite send_history_snoc.
  assert (l ∈ send_history c bs -> exists b0, (bs ++ [b]) !! Z.to_nat (U63.as_u64 (SendLeaf.cur l)) = Some b0 /\ takes_part c b0 = true /\ Block.tx_tree_root b0 = SendLeaf.tx_tree_root l) as Hold.
  { intros (b0 & Hb & ?)%IH. exists b0. split; [by apply lookup_app_l_Some|done]. }
  destruct (takes_part c b) eqn:Ht; [|done]. intros [H| ->%list_elem_of_singleton]%elem_of_app; [by apply Hold|].
  exists b. cbn. rewrite Nat2Z.id, lookup_app_r, Nat.sub_diag by lia. done.
Qed.

Lemma last_send_snoc ls l : last_send (ls ++ [l]) = SendLeaf.cur l.
Proof. unfold last_send. by rewrite list.last_snoc. Qed.

Lemma send_history_range c bs :
  Forall (fun l => 0 <= U63.as_u64 (SendLeaf.cur l) < Z.of_nat (length bs)) (send_history c bs).
Proof.
  induction bs as [|b bs IH] using rev_ind; [constructor|].
  rewrite send_history_snoc, length_app. cbn [length].
  assert (Forall (fun l => 0 <= U63.as_u64 (SendLeaf.cur l) < Z.of_nat (length bs + 1))
            (send_history c bs)).
  { eapply Forall_impl; [|exact IH]. cbn. intros; lia. }
  destruct (takes_part c b); [|done]. apply Forall_app_2; [done|]. repeat constructor; cbn; lia.
Qed.

Lemma last_send_range c bs : bs <> [] -> 0 <= U63.as_u64 (last_send (send_history c bs)) < Z.of_nat (length bs).
Proof.
  intros Hne. assert (0 < length bs)%nat by (destruct bs; cbn; [done|lia]).
  unfold last_send. destruct (list.last (send_history c bs)) as [l|] eqn:Hl; [|cbn; lia].
  pose proof (send_history_range c bs) as Hr. rewrite Forall_forall in Hr. apply Hr.
  apply list.last_Some in Hl as [l' ->]. apply List.in_or_app. right. by left.
Qed.

(** The chain of a list of blocks or deposits. *)
Definition block_chain {K : Keccak} (bs : list Block) (start : Bytes32) : Bytes32 :=
  foldl (fun h b => solidity_keccak256 (Block.hash_words b h)) start bs.

Definition deposit_chain {K : Keccak} (ds : list Deposit) (start : Bytes32) : Bytes32 :=
  foldl (fun h d => Deposit.hash_with_prev_hash d h) start ds.

(** The channel leaf that summarises a list of sends. *)
Definition channel_summary {P : Poseidon} (ls : list SendLeaf) : ChannelLeaf :=
  ChannelLeaf.mk (wrap 32 (Z.of_nat (length ls))) (last_send ls)
    (subtree (list_leaves (Hs := PoseidonLeafableHasher) ls) SEND_TREE_HEIGHT 0)
    (init_root (Hs := PoseidonLeafableHasher) MemberLeaf MEMBER_TREE_HEIGHT).

(** The deposits that block [i] and its predecessors commit. *)
Definition deposits_upto (i : Z) (ds : list Deposit) : list Deposit :=
  filter (fun d => U63.as_u64 (Deposit.block_number d) <= i) ds.

(** The roots and the public states that a history determines.  The state recorded for block [m]
    is taken when block [m + 1] is added, so its deposit root already covers the deposits stamped
    with [m + 1]. *)
Section history.
Context {P : Poseidon}.

Definition account_root (bs : list Block) : PHash :=
  subtree (Hs := PoseidonLeafableHasher) (fun c => leaf_hash (channel_summary (send_history c bs)))
    CHANNEL_TREE_HEIGHT 0.

Definition deposit_root (ds : list Deposit) : PHash :=
  subtree (Hs := PoseidonLeafableHasher) (list_leaves ds) DEPOSIT_TREE_HEIGHT 0.

Definition state_root (l : list PublicState) : PHash :=
  subtree (Hs := PoseidonLeafableHasher) (list_leaves l) PUBLIC_STATE_TREE_HEIGHT 0.

Definition block_timestamp (bs : list Block) (n : nat) : Z :=
  match bs !! n with Some b => Block.timestamp b | None => 0 end.

Fixpoint past_states (bs : list Block) (ds : list Deposit) (n : nat) : list PublicState :=
  match n with
  | O => []
  | S m =>
      let past := past_states bs ds m in
      past ++ [PublicState.mk (U63.mkU63 (Z.of_nat m)) (block_timestamp bs m) (account_root (take (S m) bs))
                 (deposit_root (deposits_upto (Z.of_nat m + 1) ds)) (state_root past)]
  end.

Definition history_view (bs : list Block) (ds : list Deposit) : PublicState :=
  let n := pred (length bs) in
  PublicState.mk (U63.mkU63 (Z.of_nat n)) (block_timestamp bs n) (account_root bs) (deposit_root ds)
    (state_root (past_states bs ds n)).

Lemma length_past_states bs ds n : length (past_states bs ds n) = n.
Proof. induction n as [|n IH]; [done|]. cbn [past_states]. rewrite length_app, IH. cbn. lia. Qed.

(** What is recorded does not change as the history grows. *)
Lemma past_states_block bs b ds n :
  (n <= length bs)%nat -> past_states (bs ++ [b]) ds n = past_states bs ds n.
Proof.
  induction n as [|n IH]; intros Hn; [done|]. cbn [past_states]. rewrite IH by lia.
  unfold block_timestamp. rewrite lookup_app_l by lia. by rewrite take_app_le by lia.
Qed.

Lemma deposits_upto_snoc i ds d :
  i < U63.as_u64 (Deposit.block_number d) -> deposits_upto i (ds ++ [d]) = deposits_upto i ds.
Proof.
  intros Hi. unfold deposits_upto. rewrite list.filter_app, filter_cons_False by lia.
  by rewrite filter_nil, app_nil_r.
Qed.

Lemma past_states_deposit bs ds d n :
  Z.of_nat n < U63.as_u64 (Deposit.block_number d) -> past_states bs (ds ++ [d]) n = past_states bs ds n.
Proof.
  induction n as [|n IH]; intros Hn; [done|]. cbn [past_states]. rewrite IH by lia.
  by rewrite deposits_upto_snoc by lia.
Qed.

Lemma deposits_upto_all i ds :
  Forall (fun d => U63.as_u64 (Deposit.block_number d) <= i) ds -> deposits_upto i ds = ds.
Proof.
  unfold deposits_upto. induction 1 as [|d ds Hd _ IH]; [done|]. by rewrite filter_cons_True, IH.
Qed.

End history.

(** Deposits are stamped in order. *)
Definition stamps_ordered (ds : list Deposit) : Prop :=
  forall i j d d', ds !! i = Some d -> ds !! j = Some d' -> (i <= j)%nat ->
    U63.as_u64 (Deposit.block_number d) <= U63.as_u64 (Deposit.block_number d').

(** A header as the producer writes it. *)
Definition block_wf (b : Block) : Prop :=
  in_width 32 (Block.num_users b) /\ length (Block.key_ids b) = Z.to_nat (Block.num_users b) /\
  in_width 64 (Block.timestamp b).

Section ledger.
Context {P : Poseidon} {K : Keccak}.

Record ledger_inv (s : FullPublicState) : Prop := {
  inv_counts : Forall (in_width 32) (supported_user_counts s);
  inv_number : 0 <= U63.as_u64 (block_number s) < 2 ^ 63;
  inv_blocks : Z.of_nat (length (blocks s)) = U63.as_u64 (block_number s) + 1;
  inv_genesis : head (blocks s) = Some Block.default;
  inv_block_wf : Forall block_wf (blocks s);
  inv_sends c : default [] (send_leaves s !! c) = send_history c (blocks s);
  inv_capacity c : Z.of_nat (length (send_history c (blocks s))) <= 2 ^ 32;
  inv_channel_tree : Sparse.inv (channel_tree s);
  inv_channel_height : Sparse.height (channel_tree s) = CHANNEL_TREE_HEIGHT;
  inv_channel_leaf c : 0 <= c < 2 ^ 32 ->
    Sparse.get_leaf (channel_tree s) c = channel_summary (send_history c (blocks s));
  inv_public_tree : Incremental.inv (public_state_tree s);
  inv_public_height : Incremental.height (public_state_tree s) = PUBLIC_STATE_TREE_HEIGHT;
  inv_past : Incremental.leaves (public_state_tree s) =
    past_states (blocks s) (deposits s) (Z.to_nat (U63.as_u64 (block_number s)));
  inv_deposit_tree : Incremental.inv (deposit_tree s);
  inv_deposit_height : Incremental.height (deposit_tree s) = DEPOSIT_TREE_HEIGHT;
  inv_deposit_leaves : Incremental.leaves (deposit_tree s) = deposits s;
  inv_deposit i d : deposits s !! i = Some d ->
    U63.as_u64 (Deposit.deposit_index d) = Z.of_nat i /\
    1 <= U63.as_u64 (Deposit.block_number d) <= U63.as_u64 (block_number s) + 1;
  inv_deposit_order : stamps_ordered (deposits s);
  inv_block_chain : block_hash_chain s = block_chain (tail (blocks s)) bytes32_default;
  inv_deposit_chain : deposit_hash_chain s = deposit_chain (deposits s) bytes32_default;
  inv_block_deposits i b : blocks s !! i = Some b ->
    Block.deposit_hash_chain b = deposit_chain (deposits_upto (Z.of_nat i) (deposits s)) bytes32_default;
}.

(** ** The first state *)

Lemma incremental_new_inv {V} {L : Leafable V} h : (h < 64)%nat -> Incremental.inv (Incremental.new (V := V) h).
Proof. apply Incremental.new_inv. Qed.

Lemma channel_summary_nil : channel_summary [] = ChannelLeaf.default.
Proof. unfold channel_summary, ChannelLeaf.default. by rewrite (init_root_spec SendLeaf). Qed.

Lemma new_ledger_inv counts : Forall (in_width 32) counts -> ledger_inv (new counts).
Proof.
  pose proof public_state_tree_height. pose proof deposit_tree_height.
  intros Hc. constructor; cbn -[send_history]; try done; try lia.
  - repeat constructor; done.
  - intros c. rewrite send_history_genesis. by rewrite lookup_empty.
  - intros c. rewrite send_history_genesis. cbn. lia.
  - apply Sparse.sparse_new_inv.
  - intros c _. rewrite send_history_genesis, channel_summary_nil. unfold Sparse.get_leaf. cbn.
    by rewrite lookup_empty.
  - apply incremental_new_inv. lia.
  - apply incremental_new_inv. lia.
  - intros [|[|]] b [= <-]; done.
Qed.

(** ** One block *)

Lemma channel_id_new_Ok c : 0 < c < 2 ^ 32 -> ChannelId.new c = Ok c.
Proof.
  intros Hc. unfold ChannelId.new, ChannelId.validate_components.
  rewrite (proj2 (Z.ltb_lt _ _)) by lia. by rewrite (proj2 (Z.eqb_neq _ _)) by lia.
Qed.

Lemma channel_id_new_cases c :
  0 <= c < 2 ^ 32 -> ChannelId.new c = if c =? 0 then Err ChannelId.InvalidChannelId else Ok c.
Proof.
  intros Hc. unfold ChannelId.new, ChannelId.validate_components.
  rewrite (proj2 (Z.ltb_lt _ _)) by lia. by destruct (c =? 0).
Qed.

Lemma u63_new_Ok n : 0 <= n < 2 ^ 63 -> U63.new n = Ok (U63.mkU63 n).
Proof.
  intros Hn. unfold U63.new. rewrite (proj2 (Z.ltb_ge _ _)); [done|].
  unfold U63.U63_MAX_VALUE, U63.U63_BITS. rewrite Z.shiftl_1_l. lia.
Qed.

(** A leaf written to the channel tree. *)
Lemma sparse_update_Ok {V} {L : Leafable V} {E} (t : Sparse.SparseMerkleTree V) i leaf :
  Sparse.inv t -> in_width 64 i -> 0 <= i < 2 ^ Z.of_nat (Sparse.height t) ->
  exists t', Sparse.update (E := E) t i leaf = Ok t' /\ Sparse.inv t' /\
    Sparse.height t' = Sparse.height t /\ Sparse.leaves t' = <[i := leaf]> (Sparse.leaves t).
Proof.
  intros Hinv Hw Hi. pose proof (Sparse.sparse_update_spec (E := E) t i leaf Hinv Hw) as Hu.
  destruct (Sparse.update t i leaf) as [t'| |]; [|done|lia]. destruct Hu as (_ & ? & ? & ?). by exists t'.
Qed.

Lemma send_tree_root_eq {E} (t : Incremental.IncrementalMerkleTree SendLeaf) :
  Incremental.inv t -> Incremental.height t = SEND_TREE_HEIGHT ->
  Incremental.get_root (E := E) t = Ok (subtree (list_leaves (Incremental.leaves t)) SEND_TREE_HEIGHT 0).
Proof. intros Hi Hh. rewrite Incremental.get_root_inv by done. by rewrite Hh. Qed.

(** The first active key of a block records the send. *)
Lemma add_send_first s c root n k :
  k <> 0 -> 0 < c < 2 ^ 32 -> 0 <= n < 2 ^ 63 ->
  let ls := default [] (send_leaves s !! c) in
  let l := SendLeaf.mk (last_send ls) (U63.mkU63 n) root in
  Sparse.inv (channel_tree s) -> Sparse.height (channel_tree s) = CHANNEL_TREE_HEIGHT ->
  Sparse.get_leaf (channel_tree s) c = channel_summary ls ->
  Z.of_nat (length ls) < 2 ^ 32 -> last_send ls <> U63.mkU63 n ->
  exists t, add_send c root n k s = (set_sends c (ls ++ [l]) t s, Ok tt) /\
    Sparse.inv t /\ Sparse.height t = CHANNEL_TREE_HEIGHT /\
    Sparse.leaves t = <[c := channel_summary (ls ++ [l])]> (Sparse.leaves (channel_tree s)).
Proof.
  pose proof send_tree_height as Hsh. pose proof channel_tree_height as Hch.
  intros Hk Hc Hn ls l Hinv Hht Hleaf Hcap Hne.
  destruct (Incremental.unpack_loop (E := FullPublicStateError) ls
    (Incremental.new (Hs := PoseidonLeafableHasher) SEND_TREE_HEIGHT)) as (st & Hst & Hsi & Hsth & Hsl).
  { apply incremental_new_inv. lia. }
  { change (Incremental.height (Incremental.new SEND_TREE_HEIGHT)) with SEND_TREE_HEIGHT.
    rewrite Hsh. cbn [Incremental.leaves Incremental.new length]. lia. }
  change (Incremental.height (Incremental.new SEND_TREE_HEIGHT)) with SEND_TREE_HEIGHT in Hsth.
  cbn [Incremental.leaves Incremental.new app] in Hsl.
  destruct (Incremental.push_spec (E := FullPublicStateError) st l Hsi) as (st' & Hst' & Hsi' & Hsth' & Hsl').
  { rewrite Hsth, Hsl, Hsh. lia. }
  rewrite Hsth in Hsth'. rewrite Hsl in Hsl'.
  destruct (sparse_update_Ok (E := FullPublicStateError) (channel_tree s) c (channel_summary (ls ++ [l])) Hinv)
    as (t & Ht & Hti & Htht & Htl); [unfold in_width; lia|rewrite Hht, Hch; lia|].
  exists t. split; [|rewrite <- Hht; by split_and!].
  unfold add_send. rewrite (proj2 (Z.eqb_neq _ _)) by done. rewrite channel_id_new_Ok by done.
  rewrite pure_bind. cbn [map_err]. rewrite self_bind.
  rewrite u63_new_Ok by done. rewrite pure_bind. cbn [expect]. fold ls.
  rewrite bool_decide_eq_false_2 by done. rewrite pure_bind, Hst, pure_bind.
  rewrite send_tree_root_eq by done. rewrite pure_bind. unfold Incremental.len. rewrite Hsl.
  rewrite bool_decide_eq_true_2 by (by rewrite Hleaf). cbn [assert_that].
  fold l. rewrite pure_bind, Hst', pure_bind, send_tree_root_eq by done.
  rewrite pure_bind, Hsl', Hleaf. cbn [ChannelLeaf.member_pubkeys_root channel_summary].
  replace (ChannelLeaf.mk _ (U63.mkU63 n) _ _) with (channel_summary (ls ++ [l])).
  - by rewrite Ht.
  - unfold channel_summary. by rewrite last_send_snoc.
Qed.

(** Every later active key of the same block is skipped. *)
Lemma add_send_again s c root n k :
  0 < c < 2 ^ 32 -> 0 <= n < 2 ^ 63 ->
  last_send (default [] (send_leaves s !! c)) = U63.mkU63 n ->
  add_send c root n k s = (s, Ok tt).
Proof.
  intros Hc Hn Hlast. unfold add_send. destruct (k =? 0); [done|].
  rewrite channel_id_new_Ok by done. rewrite pure_bind. cbn [map_err]. rewrite self_bind.
  rewrite u63_new_Ok by done. rewrite pure_bind. cbn [expect]. by rewrite bool_decide_eq_true_2.
Qed.

Lemma for_each_again s c root n ks :
  0 < c < 2 ^ 32 -> 0 <= n < 2 ^ 63 ->
  last_send (default [] (send_leaves s !! c)) = U63.mkU63 n ->
  for_each (add_send c root n) ks s = (s, Ok tt).
Proof.
  intros Hc Hn Hlast. induction ks as [|k ks IH]; [done|]. cbn [for_each].
  by rewrite (meth_bind_Ok _ _ s s tt) by (by apply add_send_again).
Qed.

Lemma add_send_inactive s c root n k : active_key k = false -> add_send c root n k s = (s, Ok tt).
Proof. unfold active_key, add_send. intros H. simplify_bool. by subst. Qed.

Lemma for_each_inactive s c root n ks :
  existsb active_key ks = false -> for_each (add_send c root n) ks s = (s, Ok tt).
Proof.
  induction ks as [|k ks IH]; [done|]. cbn [existsb for_each]. intros H. simplify_bool.
  rewrite (meth_bind_Ok _ _ s s tt) by (by apply add_send_inactive). by apply IH.
Qed.

(** The loop records one send for the whole block. *)
Lemma for_each_sends s c root n ks :
  existsb active_key ks = true -> 0 < c < 2 ^ 32 -> 0 <= n < 2 ^ 63 ->
  let ls := default [] (send_leaves s !! c) in
  let l := SendLeaf.mk (last_send ls) (U63.mkU63 n) root in
  Sparse.inv (channel_tree s) -> Sparse.height (channel_tree s) = CHANNEL_TREE_HEIGHT ->
  Sparse.get_leaf (channel_tree s) c = channel_summary ls ->
  Z.of_nat (length ls) < 2 ^ 32 -> last_send ls <> U63.mkU63 n ->
  exists t, for_each (add_send c root n) ks s = (set_sends c (ls ++ [l]) t s, Ok tt) /\
    Sparse.inv t /\ Sparse.height t = CHANNEL_TREE_HEIGHT /\
    Sparse.leaves t = <[c := channel_summary (ls ++ [l])]> (Sparse.leaves (channel_tree s)).
Proof.
  intros Hks Hc Hn ls l Hinv Hht Hleaf Hcap Hne. induction ks as [|k ks IH]; [done|].
  cbn [existsb for_each] in *. destruct (active_key k) eqn:Hk.
  - destruct (add_send_first s c root n k) as (t & Hs & Ht); try done.
    { unfold active_key in Hk. by simplify_bool. }
    exists t. split; [|done]. rewrite (meth_bind_Ok _ _ _ _ _ Hs).
    apply for_each_again; try done. unfold set_sends. cbn. rewrite lookup_insert_eq. cbn.
    by rewrite last_send_snoc.
  - rewrite (meth_bind_Ok _ _ s s tt) by (by apply add_send_inactive). by apply IH.
Qed.

(** The public state of a ledger is a function of its history. *)
Definition public_view (s : FullPublicState) : PublicState := history_view (blocks s) (deposits s).

Lemma last_block_index s : ledger_inv s -> pred (length (blocks s)) = Z.to_nat (U63.as_u64 (block_number s)).
Proof. intros Hs. pose proof (inv_number _ Hs). pose proof (inv_blocks _ Hs). lia. Qed.

Lemma account_root_eq s : ledger_inv s ->
  subtree (Sparse.map_leaves (Sparse.leaves (channel_tree s))) CHANNEL_TREE_HEIGHT 0 = account_root (blocks s).
Proof.
  intros Hs. apply subtree_ext. intros c Hc. rewrite channel_tree_height in Hc.
  rewrite Sparse.sparse_get_leaf_hash. by rewrite (inv_channel_leaf _ Hs) by lia.
Qed.

Lemma to_public_state_eq {E} s : ledger_inv s -> to_public_state (E := E) s = Ok (public_view s).
Proof.
  intros Hs. unfold to_public_state, public_view, history_view.
  rewrite Sparse.sparse_get_root_inv by apply (inv_channel_tree _ Hs).
  rewrite !Incremental.get_root_inv by (apply (inv_deposit_tree _ Hs) || apply (inv_public_tree _ Hs)).
  cbn [mbind res_bind]. rewrite inv_channel_height, inv_deposit_height, inv_public_height by done.
  rewrite inv_deposit_leaves, inv_past, account_root_eq, last_block_index by done.
  unfold last_timestamp. rewrite list.last_lookup, last_block_index by done.
  pose proof (inv_number _ Hs). rewrite Z2Nat.id by lia. by destruct (block_number s).
Qed.

(** What a block leaves to show: that the send leaves and the channel tree follow. *)
Lemma block_keeps_inv s b tree s' :
  ledger_inv s -> U63.as_u64 (block_number s) + 1 < 2 ^ 63 ->
  Incremental.inv tree -> Incremental.height tree = PUBLIC_STATE_TREE_HEIGHT ->
  Incremental.leaves tree = Incremental.leaves (public_state_tree s) ++ [public_view s] ->
  Block.deposit_hash_chain b = deposit_hash_chain s -> block_wf b ->
  supported_user_counts s' = supported_user_counts s ->
  block_number s' = U63.mkU63 (U63.as_u64 (block_number s) + 1) ->
  blocks s' = blocks s ++ [b] -> public_state_tree s' = tree ->
  deposit_tree s' = deposit_tree s -> deposits s' = deposits s ->
  deposit_hash_chain s' = deposit_hash_chain s ->
  block_hash_chain s' = solidity_keccak256 (Block.hash_words b (block_hash_chain s)) ->
  (forall c, default [] (send_leaves s' !! c) = send_history c (blocks s ++ [b])) ->
  (forall c, Z.of_nat (length (send_history c (blocks s ++ [b]))) <= 2 ^ 32) ->
  Sparse.inv (channel_tree s') -> Sparse.height (channel_tree s') = CHANNEL_TREE_HEIGHT ->
  (forall c, 0 <= c < 2 ^ 32 ->
    Sparse.get_leaf (channel_tree s') c = channel_summary (send_history c (blocks s ++ [b]))) ->
  ledger_inv s'.
Proof.
  intros Hs Hroom Hti Hth Htl Hb Hwf E1 E2 E3 E4 E5 E6 E7 E8 Hsends Hcap Hci Hch Hcl.
  pose proof (inv_number _ Hs) as Hn. pose proof (inv_blocks _ Hs) as Hlen.
  constructor; rewrite ?E1, ?E2, ?E3, ?E4, ?E5, ?E6, ?E7; cbn [U63.as_u64]; try done; try apply Hs; try lia.
  - rewrite length_app. cbn [length]. lia.
  - pose proof (inv_genesis _ Hs) as Hg. destruct (blocks s); [done|]. done.
  - apply Forall_app_2; [apply Hs|by constructor].
  - rewrite Htl, (inv_past _ Hs). replace (Z.to_nat (_ + 1)) with (S (Z.to_nat (U63.as_u64 (block_number s)))) by lia.
    cbn [past_states]. rewrite past_states_block by lia. f_equal.
    unfold public_view, history_view. rewrite last_block_index by done. f_equal.
    unfold block_timestamp. rewrite lookup_app_l by lia. rewrite take_app_le, take_ge by lia.
    rewrite deposits_upto_all; [done|]. apply list.Forall_lookup_2. intros j d Hd.
    destruct (inv_deposit _ Hs j d Hd). lia.
  - intros i d Hd. destruct (inv_deposit _ Hs i d Hd). split; [done|lia].
  - rewrite E8, (inv_block_chain _ Hs). pose proof (inv_genesis _ Hs) as Hg.
    destruct (blocks s) as [|g bs]; [done|]. cbn [app tail]. unfold block_chain. by rewrite foldl_app.
  - intros i b0 Hb0. apply lookup_app_Some in Hb0 as [Hb0|[Hge Hb0]]; [by apply (inv_block_deposits _ Hs)|].
    assert (i = length (blocks s) /\ b0 = b) as [-> ->].
    { destruct (i - _)%nat eqn:Hi; [injection Hb0 as <-; split; [lia|done]|done]. }
    rewrite Hb, (inv_deposit_chain _ Hs), Hlen. rewrite deposits_upto_all; [done|].
    apply list.Forall_lookup_2. intros j d Hd. destruct (inv_deposit _ Hs j d Hd). lia.
Qed.

(** The header a block producer writes. *)
Definition header (s : FullPublicState) (n c : Z) (keys : list Z) (ts : Z) (root : Bytes32) : Block :=
  Block.mk n c ts (resize_with (Z.to_nat n) 0 keys) root (deposit_hash_chain s) (channel_reg_hash_chain s).

Lemma get_num_users_Some len counts n :
  Forall (in_width 32) counts -> (Z.of_nat len < 2 ^ 32) -> get_num_users len counts = Some n ->
  in_width 32 n /\ Z.of_nat len <= n.
Proof.
  intros Hc Hlen H. apply List.find_some in H as [Hin H]. rewrite List.Forall_forall in Hc.
  apply Z.leb_le in H. rewrite wrap_id in H by (unfold in_width; lia). by split; [apply Hc|].
Qed.

Lemma resize_active n keys :
  Z.of_nat (length keys) <= n -> existsb active_key (resize_with (Z.to_nat n) 0 keys) = existsb active_key keys.
Proof.
  intros Hn. unfold resize_with. rewrite take_ge by lia. rewrite existsb_app.
  assert (forall m, existsb active_key (replicate m 0) = false) as -> by (by intros m; induction m).
  apply orb_false_r.
Qed.

Lemma length_resize_with {A} n (x : A) l : length (resize_with n x l) = n.
Proof. unfold resize_with. rewrite length_app, length_take, length_replicate. lia. Qed.

Lemma header_takes_part s n c keys ts root c' :
  Z.of_nat (length keys) <= n ->
  takes_part c' (header s n c keys ts root) = (c =? c') && existsb active_key keys.
Proof. intros Hn. unfold takes_part, header. cbn. by rewrite resize_active. Qed.

(** The early check on the channel id. *)
Lemma active_id_check c keys :
  in_width 32 c ->
  (if existsb (fun key_id => negb (key_id =? 0)) keys
   then _ ← map_err UserIdError (ChannelId.new c); Ok tt else Ok tt) =
  if existsb active_key keys && (c =? 0) then Err (UserIdError ChannelId.InvalidChannelId) else Ok tt.
Proof.
  intros Hc. rewrite channel_id_new_cases by done.
  change (existsb (fun key_id => negb (key_id =? 0)) keys) with (existsb active_key keys).
  by destruct (existsb active_key keys), (c =? 0).
Qed.

(** The method up to its loop: the two declared errors change nothing. *)
Lemma add_block_prefix s c keys ts root :
  ledger_inv s -> in_width 32 c -> Z.of_nat (length keys) < 2 ^ 32 ->
  U63.as_u64 (block_number s) + 1 < 2 ^ 63 ->
  match get_num_users (length keys) (supported_user_counts s) with
  | None => add_block_with_channel c keys ts root s = (s, Err (TooManyKeyIds (length keys)))
  | Some n =>
      if existsb active_key keys && (c =? 0)
      then add_block_with_channel c keys ts root s = (s, Err (UserIdError ChannelId.InvalidChannelId))
      else exists tree,
        Incremental.inv tree /\ Incremental.height tree = PUBLIC_STATE_TREE_HEIGHT /\
        Incremental.leaves tree = Incremental.leaves (public_state_tree s) ++ [public_view s] /\
        let b := header s n c keys ts root in
        let number := U63.as_u64 (block_number s) + 1 in
        add_block_with_channel c keys ts root s =
        for_each (add_send c root number) keys
          (set_block tree (U63.mkU63 number) b (solidity_keccak256 (Block.hash_words b (block_hash_chain s))) s)
  end.
Proof.
  intros Hs Hc Hlen Hroom. pose proof (inv_number _ Hs) as Hn. pose proof public_state_tree_height as Hph.
  unfold add_block_with_channel. rewrite self_bind, pure_bind.
  destruct (get_num_users _ _) as [n|] eqn:Hg; [|done]. cbn [ok_or].
  apply get_num_users_Some in Hg as [Hn32 Hle]; [|apply Hs|done]. rewrite pure_bind. unfold Block.new.
  rewrite (wrap_id 32 (Z.of_nat (length keys))) by (unfold in_width; lia).
  rewrite (proj2 (Z.ltb_ge _ _)) by lia. cbn [map_err]. fold (header s n c keys ts root).
  rewrite (wrap_id 64) by (unfold in_width; lia). rewrite pure_bind, u63_new_Ok by lia. cbn [expect].
  rewrite active_id_check by done. destruct (existsb active_key keys && (c =? 0)); [done|].
  rewrite !pure_bind. unfold Block.hash_with_prev_hash. cbn [Block.key_ids Block.num_users header].
  rewrite length_resize_with, Z2Nat.id by apply Hn32. rewrite wrap_id, Z.eqb_refl by done. cbn [negb expect].
  rewrite pure_bind, to_public_state_eq by done.
  destruct (Incremental.push_spec (E := FullPublicStateError) (public_state_tree s)
    (public_view s)) as (tree & Htree & Hti & Hth & Htl); [apply Hs|rewrite inv_public_height, inv_past, length_past_states, Hph by done; lia|].
  exists tree. rewrite <- (inv_public_height _ Hs).
  split_and!; try done. cbn zeta. by rewrite pure_bind, Htree, modify_bind.
Qed.

(** The two ways a block cannot be added: the block numbers or the channel's send tree are used up. *)
Lemma add_block_no_room s c keys ts root :
  ledger_inv s -> Z.of_nat (length keys) < 2 ^ 32 -> U63.as_u64 (block_number s) + 1 = 2 ^ 63 ->
  add_block_with_channel c keys ts root s =
  (s, match get_num_users (length keys) (supported_user_counts s) with
      | None => Err (TooManyKeyIds (length keys))
      | Some _ => Panic
      end).
Proof.
  intros Hs Hlen Hfull. unfold add_block_with_channel. rewrite self_bind, pure_bind.
  destruct (get_num_users _ _) as [n|] eqn:Hg; [|done]. cbn [ok_or].
  apply get_num_users_Some in Hg as [Hn32 Hle]; [|apply Hs|done]. rewrite pure_bind. unfold Block.new.
  rewrite (wrap_id 32) by (unfold in_width; lia). rewrite (proj2 (Z.ltb_ge _ _)) by lia.
  cbn [map_err]. rewrite pure_bind, Hfull. done.
Qed.

Lemma add_send_full s c root n k :
  k <> 0 -> 0 < c < 2 ^ 32 -> 0 <= n < 2 ^ 63 ->
  let ls := default [] (send_leaves s !! c) in
  Sparse.get_leaf (channel_tree s) c = channel_summary ls ->
  Z.of_nat (length ls) = 2 ^ 32 -> last_send ls <> U63.mkU63 n ->
  (add_send c root n k s).2 = Panic.
Proof.
  pose proof send_tree_height as Hsh. intros Hk Hc Hn ls Hleaf Hcap Hne.
  destruct (Incremental.unpack_loop (E := FullPublicStateError) ls
    (Incremental.new (Hs := PoseidonLeafableHasher) SEND_TREE_HEIGHT)) as (st & Hst & Hsi & Hsth & Hsl).
  { apply incremental_new_inv. lia. }
  { change (Incremental.height (Incremental.new SEND_TREE_HEIGHT)) with SEND_TREE_HEIGHT.
    rewrite Hsh. cbn [Incremental.leaves Incremental.new length]. lia. }
  change (Incremental.height (Incremental.new SEND_TREE_HEIGHT)) with SEND_TREE_HEIGHT in Hsth.
  cbn [Incremental.leaves Incremental.new app] in Hsl.
  unfold add_send. rewrite (proj2 (Z.eqb_neq _ _)) by done. rewrite channel_id_new_Ok by done.
  rewrite pure_bind. cbn [map_err]. rewrite self_bind, u63_new_Ok by done. rewrite pure_bind. cbn [expect].
  fold ls. rewrite bool_decide_eq_false_2 by done. rewrite pure_bind, Hst, pure_bind.
  rewrite send_tree_root_eq by done. rewrite pure_bind. unfold Incremental.len. rewrite Hsl.
  rewrite bool_decide_eq_true_2 by (by rewrite Hleaf). cbn [assert_that].
  rewrite pure_bind. rewrite Incremental.push_full; [done|done|]. rewrite Hsl, Hsth, Hsh. done.
Qed.

Lemma for_each_full s c root n ks :
  existsb active_key ks = true -> 0 < c < 2 ^ 32 -> 0 <= n < 2 ^ 63 ->
  let ls := default [] (send_leaves s !! c) in
  Sparse.get_leaf (channel_tree s) c = channel_summary ls ->
  Z.of_nat (length ls) = 2 ^ 32 -> last_send ls <> U63.mkU63 n ->
  (for_each (add_send c root n) ks s).2 = Panic.
Proof.
  intros Hks Hc Hn ls Hleaf Hcap Hne. induction ks as [|k ks IH]; [done|].
  cbn [existsb for_each] in *. destruct (active_key k) eqn:Hk.
  - assert ((add_send c root n k s).2 = Panic) as Hp.
    { apply add_send_full; try done. unfold active_key in Hk. by simplify_bool. }
    unfold mbind, meth_bind. destruct (add_send c root n k s) as [s' r]. cbn in Hp. by subst.
  - rewrite (meth_bind_Ok _ _ s s tt) by (by apply add_send_inactive). by apply IH.
Qed.

(** The state before the loop still has the leaves of the previous blocks. *)
Lemma last_send_before s c : ledger_inv s ->
  last_send (send_history c (blocks s)) <> U63.mkU63 (U63.as_u64 (block_number s) + 1).
Proof.
  intros Hs Heq. pose proof (inv_blocks _ Hs). pose proof (inv_genesis _ Hs) as Hg.
  pose proof (last_send_range c (blocks s)) as Hr. rewrite Heq in Hr. cbn in Hr.
  assert (blocks s <> []) by (by destruct (blocks s)). naive_solver lia.
Qed.

(** What adding a block does. *)
Definition block_added (s : FullPublicState) (n c : Z) (keys : list Z) (ts : Z) (root : Bytes32)
    (s' : FullPublicState) : Prop :=
  blocks s' = blocks s ++ [header s n c keys ts root] /\ deposits s' = deposits s /\
  supported_user_counts s' = supported_user_counts s /\
  Incremental.leaves (public_state_tree s') = Incremental.leaves (public_state_tree s) ++ [public_view s].

Lemma header_wf s n c keys ts root : in_width 32 n -> in_width 64 ts -> block_wf (header s n c keys ts root).
Proof. intros Hn Ht. split_and!; [done|apply length_resize_with|done]. Qed.

Lemma add_block_Ok s n c keys ts root :
  ledger_inv s -> in_width 32 c -> Z.of_nat (length keys) < 2 ^ 32 -> in_width 64 ts ->
  U63.as_u64 (block_number s) + 1 < 2 ^ 63 ->
  get_num_users (length keys) (supported_user_counts s) = Some n ->
  (existsb active_key keys = true -> c <> 0 /\ Z.of_nat (length (send_history c (blocks s))) < 2 ^ 32) ->
  exists s', add_block_with_channel c keys ts root s = (s', Ok tt) /\ ledger_inv s' /\
    block_added s n c keys ts root s'.
Proof.
  intros Hs Hc Hlen Hts Hroom Hg Hact. pose proof (inv_number _ Hs) as Hn. pose proof channel_tree_height as Hch.
  pose proof (add_block_prefix s c keys ts root Hs Hc Hlen Hroom) as Hp. rewrite Hg in Hp.
  apply get_num_users_Some in Hg as [Hn32 Hle]; [|apply Hs|done].
  replace (existsb active_key keys && (c =? 0)) with false in Hp.
  2: { symmetry. destruct (existsb active_key keys); [|done]. apply Z.eqb_neq. naive_solver. }
  destruct Hp as (tree & Hti & Hth & Htl & ->).
  pose proof (header_wf s n c keys ts root Hn32 Hts) as Hwf.
  set (b := header s n c keys ts root) in *.
  set (s1 := set_block tree _ b _ s).
  assert (forall c', send_history c' (blocks s ++ [b]) =
    if (c =? c') && existsb active_key keys
    then send_history c' (blocks s) ++ [SendLeaf.mk (last_send (send_history c' (blocks s)))
           (U63.mkU63 (U63.as_u64 (block_number s) + 1)) root]
    else send_history c' (blocks s)) as Hhist.
  { intros c'. rewrite send_history_snoc. unfold b at 1. rewrite header_takes_part by done.
    by rewrite (inv_blocks _ Hs). }
  destruct (existsb active_key keys) eqn:Ha.
  - destruct (Hact eq_refl) as [Hc0 Hcap]. unfold in_width in Hc.
    destruct (for_each_sends s1 c root (U63.as_u64 (block_number s) + 1) keys)
      as (t & -> & Ht & Htht & Htl'); try done; try lia; try apply Hs; cbn [send_leaves channel_tree s1 set_block];
      rewrite ?(inv_sends _ Hs); try done; [by apply Hs|by apply last_send_before|].
    eexists. split; [done|]. split; [|done].
    eapply (block_keeps_inv s b tree); try done; cbn [send_leaves channel_tree s1 set_block set_sends].
    + intros c'. rewrite Hhist, andb_true_r. change (send_leaves s1) with (send_leaves s).
      destruct (Z.eqb_spec c c') as [<-|Hne].
      * by rewrite lookup_insert_eq, ?(inv_sends _ Hs).
      * rewrite lookup_insert_ne by done. by rewrite (inv_sends _ Hs).
    + intros c'. rewrite Hhist, andb_true_r. destruct (Z.eqb_spec c c') as [<-|Hne]; [|apply Hs].
      rewrite length_app. cbn [length]. lia.
    + intros c' Hc'. rewrite Hhist, andb_true_r. unfold Sparse.get_leaf. rewrite Htl'.
      change (send_leaves s1) with (send_leaves s). change (channel_tree s1) with (channel_tree s).
      destruct (Z.eqb_spec c c') as [<-|Hne].
      * by rewrite lookup_insert_eq, ?(inv_sends _ Hs).
      * rewrite lookup_insert_ne by done. by apply (inv_channel_leaf _ Hs).
  - rewrite for_each_inactive by done. eexists. split; [done|]. split; [|done].
    eapply (block_keeps_inv s b tree); try done; cbn [send_leaves channel_tree s1 set_block]; try apply Hs;
      intros c'; rewrite Hhist, andb_false_r; apply Hs.
Qed.

(** Every outcome of [add_block_with_channel]. *)
Lemma add_block_cases s c keys ts root :
  ledger_inv s -> in_width 32 c -> Z.of_nat (length keys) < 2 ^ 32 -> in_width 64 ts ->
  match add_block_with_channel c keys ts root s with
  | (s', Ok _) => ledger_inv s' /\ (existsb active_key keys = true -> c <> 0) /\
      exists n, get_num_users (length keys) (supported_user_counts s) = Some n /\
        block_added s n c keys ts root s'
  | (s', Err e) => s' = s /\
      (e = TooManyKeyIds (length keys) /\ get_num_users (length keys) (supported_user_counts s) = None \/
       e = UserIdError ChannelId.InvalidChannelId /\ c = 0 /\ existsb active_key keys = true)
  | (_, Panic) => U63.as_u64 (block_number s) + 1 = 2 ^ 63 \/
      existsb active_key keys = true /\ Z.of_nat (length (send_history c (blocks s))) = 2 ^ 32
  end.
Proof.
  intros Hs Hc Hlen Hts. pose proof (inv_number _ Hs) as Hn.
  destruct (decide (U63.as_u64 (block_number s) + 1 = 2 ^ 63)) as [Hfull|Hroom].
  { rewrite add_block_no_room by done. destruct (get_num_users _ _) eqn:Hg; [by left|]. split; [done|by left]. }
  pose proof (add_block_prefix s c keys ts root Hs Hc Hlen) as Hp.
  destruct (get_num_users _ _) as [n|] eqn:Hg; [|rewrite Hp by lia; split; [done|by left]].
  destruct (existsb active_key keys && (c =? 0)) eqn:Hz.
  { rewrite Hp by lia. simplify_bool. split; [done|]. by right. }
  destruct (decide (existsb active_key keys = true /\ Z.of_nat (length (send_history c (blocks s))) = 2 ^ 32))
    as [[Ha Hf]|Hcap].
  - destruct Hp as (tree & _ & _ & _ & ->); [lia|]. rewrite Ha in Hz. cbn in Hz. simplify_bool.
    unfold in_width in Hc. set (s1 := set_block _ _ _ _ _).
    pose proof (for_each_full s1 c root (U63.as_u64 (block_number s) + 1) keys) as Hpanic.
    change (send_leaves s1) with (send_leaves s) in Hpanic. change (channel_tree s1) with (channel_tree s) in Hpanic.
    rewrite (inv_sends _ Hs) in Hpanic. destruct (for_each _ _ s1) as [s' r]. cbn in Hpanic.
    rewrite Hpanic; [by right|done|lia|lia|apply Hs; lia|done|by apply last_send_before].
  - destruct (add_block_Ok s n c keys ts root) as (s' & -> & Hs' & Hadd); try done; [lia| |].
    + intros Ha. rewrite Ha in Hz. cbn in Hz. simplify_bool. split; [done|].
      pose proof (inv_capacity _ Hs c). apply Z.le_neq. split; [done|]. intros ?. by apply Hcap.
    + split; [done|]. split; [|by exists n]. intros Ha. rewrite Ha in Hz. cbn in Hz. by simplify_bool.
Qed.

(** ** Deposits *)

Definition deposit_added (s : FullPublicState) (d : Deposit) (s' : FullPublicState) : Prop :=
  deposits s' = deposits s ++ [d] /\ blocks s' = blocks s /\ send_leaves s' = send_leaves s /\
  channel_tree s' = channel_tree s /\ public_state_tree s' = public_state_tree s /\
  block_number s' = block_number s /\ supported_user_counts s' = supported_user_counts s.

Definition next_deposit (s : FullPublicState) (depositor : Address) (recipient : Bytes32) (token_index : Z)
    (amount : U256) (aux_data : Bytes32) : Deposit :=
  Deposit.mk (U63.mkU63 (Z.of_nat (length (deposits s)))) (U63.mkU63 (U63.as_u64 (block_number s) + 1))
    depositor recipient token_index amount aux_data.

Lemma deposit_keeps_inv s d tree :
  ledger_inv s -> U63.as_u64 (Deposit.deposit_index d) = Z.of_nat (length (deposits s)) ->
  U63.as_u64 (Deposit.block_number d) = U63.as_u64 (block_number s) + 1 ->
  Incremental.inv tree -> Incremental.height tree = DEPOSIT_TREE_HEIGHT ->
  Incremental.leaves tree = deposits s ++ [d] ->
  ledger_inv (set_deposit d tree (Deposit.hash_with_prev_hash d (deposit_hash_chain s)) s).
Proof.
  intros Hs Hi Hb Hti Hth Htl. pose proof (inv_blocks _ Hs) as Hlen. pose proof (inv_number _ Hs).
  constructor; cbn [set_deposit supported_user_counts block_number channel_tree send_leaves deposit_tree
    public_state_tree blocks deposits block_hash_chain deposit_hash_chain]; try done; try apply Hs.
  - rewrite past_states_deposit by lia. apply Hs.
  - intros i d' Hd. apply lookup_app_Some in Hd as [Hd|[Hge Hd]]; [by apply (inv_deposit _ Hs)|].
    destruct (i - _)%nat eqn:Hi'; [injection Hd as <-; lia|done].
  - intros i j d1 d2 H1 H2 Hij. apply lookup_app_Some in H2 as [H2|[Hge H2]].
    + apply lookup_app_Some in H1 as [H1|[Hge H1]]; [by apply (inv_deposit_order _ Hs i j)|].
      apply lookup_lt_Some in H2. lia.
    + destruct (j - _)%nat; [injection H2 as <-|done]. apply lookup_app_Some in H1 as [H1|[Hge' H1]].
      * destruct (inv_deposit _ Hs i d1 H1). lia.
      * by destruct (i - _)%nat; [injection H1 as <-|].
  - rewrite (inv_deposit_chain _ Hs). unfold deposit_chain. by rewrite foldl_app.
  - intros i b Hbl. pose proof (lookup_lt_Some _ _ _ Hbl). rewrite deposits_upto_snoc by lia.
    by apply (inv_block_deposits _ Hs).
Qed.

Lemma add_deposit_cases s depositor recipient token_index amount aux_data :
  ledger_inv s ->
  match add_deposit depositor recipient token_index amount aux_data s with
  | (s', Ok _) => ledger_inv s' /\
      deposit_added s (next_deposit s depositor recipient token_index amount aux_data) s'
  | (_, Err _) => False
  | (_, Panic) => U63.as_u64 (block_number s) + 1 = 2 ^ 63 \/ Z.of_nat (length (deposits s)) = 2 ^ 63
  end.
Proof.
  intros Hs. pose proof (inv_number _ Hs) as Hn. pose proof deposit_tree_height as Hdh.
  destruct (inv_deposit_tree _ Hs) as (_ & _ & Hcap). rewrite (inv_deposit_height _ Hs), Hdh, (inv_deposit_leaves _ Hs) in Hcap.
  unfold add_deposit. rewrite self_bind. unfold U63.add, checked_add.
  rewrite (proj2 (Z.ltb_lt _ _)) by lia. cbn [ok_or mbind res_bind].
  destruct (decide (U63.as_u64 (block_number s) + 1 = 2 ^ 63)) as [Hfull|Hroom].
  { rewrite Hfull. by left. }
  rewrite (u63_new_Ok (_ + 1)) by lia. rewrite pure_bind. cbn [expect]. rewrite wrap_id by (unfold in_width; lia).
  destruct (decide (Z.of_nat (length (deposits s)) = 2 ^ 63)) as [Hfull|Hroom'].
  { rewrite Hfull. by right. }
  rewrite u63_new_Ok by lia. rewrite pure_bind. cbn [expect].
  fold (next_deposit s depositor recipient token_index amount aux_data). set (d := next_deposit _ _ _ _ _ _).
  destruct (Incremental.push_spec (E := FullPublicStateError) (deposit_tree s) d) as (tree & Ht & Hti & Hth & Htl);
    [apply Hs|rewrite (inv_deposit_height _ Hs), Hdh, (inv_deposit_leaves _ Hs); lia|].
  rewrite pure_bind, Ht. cbn [modify]. split; [|done].
  apply deposit_keeps_inv; try done; [by rewrite Hth, (inv_deposit_height _ Hs)|].
  by rewrite Htl, (inv_deposit_leaves _ Hs).
Qed.

(** ** Runs *)

Inductive ledger_op :=
| OpBlock (channel_id : Z) (key_ids : list Z) (timestamp : Z) (tx_tree_root : Bytes32)
| OpTxs (channel_id : Z) (key_ids : list Z) (timestamp : Z) (txs : list TxV2)
| OpClose (channel_id : Z) (key_ids : list Z) (timestamp : Z) (m : ChannelMessage) (seal : Bytes32) (nonce : Z)
| OpDeposit (depositor : Address) (recipient : Bytes32) (token_index : Z) (amount : U256) (aux_data : Bytes32).

Definition apply_op (op : ledger_op) : meth FullPublicState FullPublicStateError unit :=
  match op with
  | OpBlock c ks ts root => add_block_with_channel c ks ts root
  | OpTxs c ks ts txs => add_block_with_tx_v2s c ks ts txs
  | OpClose c ks ts m seal nonce => add_channel_close_block c ks ts m seal nonce
  | OpDeposit a r t v x => add_deposit a r t v x
  end.

(** The argument types of the Rust methods. *)
Definition op_typed (op : ledger_op) : Prop :=
  match op with
  | OpBlock c ks ts _ | OpTxs c ks ts _ | OpClose c ks ts _ _ _ =>
      in_width 32 c /\ Z.of_nat (length ks) < 2 ^ 32 /\ in_width 64 ts
  | OpDeposit _ _ _ _ _ => True
  end.

(** The states a caller can see: it may go on after a declared error. *)
Inductive ledger_reach (counts : list Z) : FullPublicState -> Prop :=
| reach_new : ledger_reach counts (new counts)
| reach_op s op s' r : ledger_reach counts s -> op_typed op -> apply_op op s = (s', r) -> r <> Panic ->
    ledger_reach counts s'.

(** A block with transactions is a block with their root, or fails before it starts. *)
Lemma tx_block_is_block c ks ts txs s :
  (exists r, add_block_with_tx_v2s c ks ts txs s = (s, r)) \/
  exists root, add_block_with_tx_v2s c ks ts txs s = add_block_with_channel c ks ts root s.
Proof.
  unfold add_block_with_tx_v2s, add_block_with_tx_tree_root_v2. rewrite pure_bind.
  destruct (compute_tx_v2_root txs) as [h|e|]; [|left; by eexists..]. rewrite pure_bind.
  destruct (phash_into_bytes32 h) as [b|e|]; [right; by eexists|left; by eexists..].
Qed.

(** What an operation that does not panic does. *)
Definition op_effect (s s' : FullPublicState) : Prop :=
  s' = s \/ (exists d, deposit_added s d s') \/
  exists n c ks ts root, in_width 32 c /\ (existsb active_key ks = true -> c <> 0) /\
    block_added s n c ks ts root s'.

Lemma op_keeps_inv s op s' r :
  ledger_inv s -> op_typed op -> apply_op op s = (s', r) -> r <> Panic -> ledger_inv s' /\ op_effect s s'.
Proof.
  intros Hs Hty Hop Hr.
  assert (forall c ks ts root, in_width 32 c /\ Z.of_nat (length ks) < 2 ^ 32 /\ in_width 64 ts ->
    add_block_with_channel c ks ts root s = (s', r) -> ledger_inv s' /\ op_effect s s') as Hblock.
  { intros c ks ts root (Hc & Hk & Ht) H. pose proof (add_block_cases s c ks ts root Hs Hc Hk Ht) as Hb.
    rewrite H in Hb. destruct r; [|by destruct Hb as [-> _]; split; [|left]|done].
    destruct Hb as (Hi & Hz & n & _ & Hadd). split; [done|]. right. right. by exists n, c, ks, ts, root. }
  assert (forall c ks ts txs, in_width 32 c /\ Z.of_nat (length ks) < 2 ^ 32 /\ in_width 64 ts ->
    add_block_with_tx_v2s c ks ts txs s = (s', r) -> ledger_inv s' /\ op_effect s s') as Htxs.
  { intros c ks ts txs Hck H. destruct (tx_block_is_block c ks ts txs s) as [[r' H']|[root H']];
      rewrite H' in H; [injection H as <- _; by split; [|left]|by eapply Hblock]. }
  destruct op as [c ks ts root|c ks ts txs|c ks ts m seal nonce|a rc t v x]; cbn [op_typed apply_op] in *.
  - by eapply Hblock.
  - by eapply Htxs.
  - unfold add_channel_close_block in Hop. rewrite pure_bind in Hop.
    destruct (ChannelMessage.to_channel_close_tx_v2 m seal nonce);
      [by eapply Htxs|injection Hop as <- _; by split; [|left]..].
  - pose proof (add_deposit_cases s a rc t v x Hs) as Hd. rewrite Hop in Hd. destruct r; [|done|done].
    destruct Hd as [Hi Hadd]. split; [done|]. right. left. by eexists.
Qed.

Lemma ledger_reach_inv counts s : Forall (in_width 32) counts -> ledger_reach counts s -> ledger_inv s.
Proof.
  intros Hc. induction 1 as [|s op s' r _ IH Hty Hop Hr]; [by apply new_ledger_inv|].
  by destruct (op_keeps_inv s op s' r).
Qed.

(** ** What the hash chains bind *)

Lemma hash_words_inj b b' h h' :
  block_wf b -> block_wf b' -> Block.hash_words b h = Block.hash_words b' h' -> b = b' /\ h = h'.
Proof.
  intros (Hn & Hk & Ht) (Hn' & Hk' & Ht') H. unfold Block.hash_words in H.
  assert (length (Block.key_ids b) = length (Block.key_ids b')) as Hlen.
  { apply (f_equal length) in H. rewrite !length_app in H. unfold to_u32_vec in H.
    rewrite !limbs_length in H. cbn in H. lia. }
  apply limbs_app_inj in H as [-> H]. apply word_app_inj in H as [Hc H].
  apply split_u64_app_inj in H as [Hts H]; [|done|done]. apply app_inj_1 in H as [Hks H]; [|done].
  apply limbs_app_inj in H as [H1 H]. apply limbs_app_inj in H as [H2 H]. apply Limbs_eq in H.
  split; [|done]. assert (Block.num_users b = Block.num_users b') as Hnu.
  { unfold in_width in *. lia. }
  destruct b, b'. cbn in *. by subst.
Qed.

(** The word lists that the two chains of a ledger hash. *)
Definition block_inputs (bs : list Block) : list (list Z) := chain_inputs Block.hash_words bs bytes32_default.
Definition deposit_inputs (ds : list Deposit) : list (list Z) := chain_inputs Deposit.chain_words ds bytes32_default.

Lemma block_chain_binding bs bs' :
  Forall block_wf bs -> Forall block_wf bs' ->
  block_chain bs bytes32_default = block_chain bs' bytes32_default ->
  bs = bs' \/ chain_broken (block_inputs bs) (block_inputs bs').
Proof.
  intros Hw Hw' H. destruct (hash_chain_binding Block.hash_words block_wf eq bs bs') as [He|]; [|done..| |by right].
  - intros a b h h'. apply hash_words_inj.
  - left. by apply list_eq_Forall2.
Qed.

Lemma deposit_chain_binding (ds ds' : list Deposit) :
  deposit_chain ds bytes32_default = deposit_chain ds' bytes32_default ->
  Forall2 (fun d d' => Deposit.depositor d = Deposit.depositor d' /\ Deposit.recipient d = Deposit.recipient d' /\
    Deposit.token_index d = Deposit.token_index d' /\ Deposit.amount d = Deposit.amount d' /\
    Deposit.aux_data d = Deposit.aux_data d') ds ds' \/ chain_broken (deposit_inputs ds) (deposit_inputs ds').
Proof.
  intros H. apply (hash_chain_binding Deposit.chain_words (fun _ => True)); [|by apply Forall_true..|exact H].
  intros a b h h' _ _ Hw. by apply chain_words_inj in Hw as (-> & Hd).
Qed.

(** The stamps of ordered deposits can be read off the prefixes the blocks commit. *)
Lemma upto_prefix ds i j d :
  stamps_ordered ds -> ds !! j = Some d ->
  U63.as_u64 (Deposit.block_number d) <= i <-> (j < length (deposits_upto i ds))%nat.
Proof.
  revert j. induction ds as [|d0 ds IH]; intros j Hord Hj; [done|].
  assert (stamps_ordered ds) as Hord'.
  { intros a b x y Ha Hb Hab. apply (Hord (S a) (S b)); [done|done|lia]. }
  unfold deposits_upto. destruct (decide (U63.as_u64 (Deposit.block_number d0) <= i)) as [Hle|Hgt].
  - rewrite filter_cons_True by done. destruct j as [|j].
    + injection Hj as <-. cbn. split; [lia|done].
    + cbn [length]. rewrite (IH j) by done. unfold deposits_upto. lia.
  - rewrite filter_cons_False by done. pose proof (Hord 0%nat j d0 d eq_refl Hj). split; [lia|].
    fold (deposits_upto i ds). destruct (deposits_upto i ds) as [|d1 l] eqn:Hl; [cbn; lia|].
    assert (d1 ∈ deposits_upto i ds) as Hin by (rewrite Hl; left).
    unfold deposits_upto in Hin. apply list_elem_of_filter in Hin as [Hle Hin].
    apply list_elem_of_lookup in Hin as [k Hk]. pose proof (Hord 0%nat (S k) d0 d1 eq_refl Hk). lia.
Qed.

(** The deposits up to a block are a prefix. *)
Lemma upto_take ds i : stamps_ordered ds -> deposits_upto i ds = take (length (deposits_upto i ds)) ds.
Proof.
  induction ds as [|d ds IH]; intros Hord; [done|].
  assert (stamps_ordered ds) as Hord'.
  { intros a b x y Ha Hb Hab. apply (Hord (S a) (S b)); [done|done|lia]. }
  pose proof (upto_prefix (d :: ds) i 0 d Hord eq_refl) as H0. unfold deposits_upto in *.
  destruct (decide (U63.as_u64 (Deposit.block_number d) <= i)) as [Hle|Hgt].
  - rewrite filter_cons_True by done. cbn [length take]. by rewrite <- (IH Hord').
  - destruct (filter _ (d :: ds)) as [|x l]; [done|]. exfalso. apply Hgt, H0. cbn. lia.
Qed.

(** Two ledgers with the same block chain commit the same number of deposits per block. *)
Lemma same_prefixes s s' :
  ledger_inv s -> ledger_inv s' -> blocks s = blocks s' ->
  (forall i, 0 <= i <= U63.as_u64 (block_number s) ->
    length (deposits_upto i (deposits s)) = length (deposits_upto i (deposits s'))) \/ chain_broken (deposit_inputs (deposits s)) (deposit_inputs (deposits s')).
Proof.
  intros Hs Hs' Hb.
  destruct (Forall_Exists_dec (fun i => length (deposits_upto (Z.of_nat i) (deposits s)) =
    length (deposits_upto (Z.of_nat i) (deposits s'))) (fun i => decide _)
    (seq 0 (length (blocks s)))) as [Hall|Hex].
  - left. intros i Hi. rewrite List.Forall_forall in Hall. specialize (Hall (Z.to_nat i)).
    rewrite Z2Nat.id in Hall by lia. apply Hall, List.in_seq. pose proof (inv_blocks _ Hs). lia.
  - right. apply List.Exists_exists in Hex as (i & Hi & Hne). apply List.in_seq in Hi.
    destruct (lookup_lt_is_Some_2 (blocks s) i) as [b Hbi]; [lia|].
    pose proof (inv_block_deposits _ Hs i b Hbi) as H1. rewrite Hb in Hbi.
    pose proof (inv_block_deposits _ Hs' i b Hbi) as H2. rewrite H1 in H2.
    apply deposit_chain_binding in H2 as [H2|H2]; [by apply Forall2_length in H2|].
    rewrite (upto_take (deposits s)), (upto_take (deposits s')) in H2 by (apply Hs || apply Hs').
    eapply chain_broken_mono; [| |exact H2]; intros x; apply chain_inputs_take.
Qed.

(** The words hashed by the two block chains, or by the two deposit chains, break the hash. *)
Definition ledger_broken (s s' : FullPublicState) : Prop :=
  chain_broken (block_inputs (tail (blocks s))) (block_inputs (tail (blocks s'))) \/
  chain_broken (deposit_inputs (deposits s)) (deposit_inputs (deposits s')).

Lemma ledger_binding s s' :
  ledger_inv s -> ledger_inv s' ->
  block_hash_chain s = block_hash_chain s' -> deposit_hash_chain s = deposit_hash_chain s' ->
  (blocks s = blocks s' /\ deposits s = deposits s') \/ ledger_broken s s'.
Proof.
  intros Hs Hs' Hbc Hdc. pose proof (inv_blocks _ Hs) as Hl. pose proof (inv_blocks _ Hs') as Hl'.
  rewrite (inv_block_chain _ Hs), (inv_block_chain _ Hs') in Hbc.
  rewrite (inv_deposit_chain _ Hs), (inv_deposit_chain _ Hs') in Hdc.
  assert (blocks s = blocks s' \/ chain_broken (block_inputs (tail (blocks s))) (block_inputs (tail (blocks s')))) as [Hb|Hx];
    [|clear Hbc|by right; left].
  { pose proof (inv_genesis _ Hs) as Hg. pose proof (inv_genesis _ Hs') as Hg'.
    pose proof (inv_block_wf _ Hs) as Hw. pose proof (inv_block_wf _ Hs') as Hw'.
    destruct (blocks s) as [|g bs], (blocks s') as [|g' bs']; try done. cbn in *. simplify_eq.
    apply Forall_cons_iff in Hw as [_ Hw], Hw' as [_ Hw'].
    apply block_chain_binding in Hbc as [->|]; [by left|by right|done|done]. }
  apply deposit_chain_binding in Hdc as [Hd|]; [|by right; right].
  destruct (same_prefixes s s' Hs Hs' Hb) as [Hpre|]; [|by right; right]. left. split; [done|].
  apply list_eq_Forall2. apply Forall2_same_length_lookup; [by apply Forall2_length in Hd|].
  intros i d d' Hi Hi'. pose proof (Forall2_lookup_lr _ _ _ _ _ _ Hd Hi Hi') as Heq. cbn in Heq. destruct_and! Heq.
  destruct (inv_deposit _ Hs i d Hi) as [Hx Hr]. destruct (inv_deposit _ Hs' i d' Hi') as [Hx' Hr'].
  rewrite <- Hb in Hl'.
  assert (U63.as_u64 (Deposit.block_number d) = U63.as_u64 (Deposit.block_number d')) as Hn.
  { assert (forall k, 0 <= k <= U63.as_u64 (block_number s) ->
      U63.as_u64 (Deposit.block_number d) <= k <-> U63.as_u64 (Deposit.block_number d') <= k) as Hk.
    { intros k Hk. rewrite (upto_prefix (deposits s) k i d), (upto_prefix (deposits s') k i d'), (Hpre k);
        [done|done|apply Hs'|done|apply Hs|done]. }
    pose proof (Hk (U63.as_u64 (Deposit.block_number d))). pose proof (Hk (U63.as_u64 (Deposit.block_number d'))).
    lia. }
  destruct d as [[] [] ? ? ? ? ?], d' as [[] [] ? ? ? ? ?]. cbn in *. by subst.
Qed.

End ledger.
