(* ===== verification/Balance.v ===== *)
(** * Balance proofs: the transition of a channel's public inputs

    Models the native side of [src/src/circuits/balance/]: the public inputs of
    a balance proof ([balance_pis.rs]) and of a spend proof
    ([spend_circuit.rs]), the witnesses that tie them to the public ledger
    ([common/account_state.rs], [update_public_state.rs],
    [transfer_witness.rs], [deposit_witness.rs], [recipient.rs],
    [receive_window.rs], [tx_settlement.rs]), and the three steps
    [SendTxWitness], [ReceiveTransferWitness] and [ReceiveDepositWitness] with
    every check in source order.

    The recursive proofs are plonky2's: the class [BalanceProofs] is what the
    code reads of them (their public inputs) and the verifier of spend proofs.
    The compile-time feature of the receive window is the class [Features]. *)

From S2P Require Import Prelude Limbs U63 Circuit MerkleTree LeafTrees Poseidon IndexedTree Keccak Regev BalanceState Account Ledger.

#[local] Remove Hints Leafable_Bytes32 : typeclass_instances.

(** [PoseidonHashOut { elements }]: a hash out built from its four words. *)
Class PoseidonWords (P : Poseidon) := {
  phash_from_elements : list Z -> PHash;
}.

(** Building a hash out from the words of one gives it back. *)
Class PoseidonWordsOk (P : Poseidon) (W : PoseidonWords P) : Prop := {
  phash_from_to h : phash_from_elements (phash_to_u64_vec h) = h;
  phash_canonical h : Forall (fun x => 0 <= x < GOLDILOCKS_ORDER) (phash_to_u64_vec h);
  phash_words_length h : length (phash_to_u64_vec h) = 4%nat;
}.

Definition slice {A} (from to : nat) (l : list A) : list A := take (to - from) (drop from l).

Definition POSEIDON_HASH_OUT_LEN : nat := 4.
Definition PUBLIC_STATE_U64_LEN : nat := 1 + U64_LEN + 3 * POSEIDON_HASH_OUT_LEN.
Definition TX_LEN : nat := POSEIDON_HASH_OUT_LEN + 1.
Definition SPEND_PUBLIC_INPUTS_LEN : nat := POSEIDON_HASH_OUT_LEN * 2 + TX_LEN + 1.
Definition BALANCE_PUBLIC_INPUTS_LEN : nat := 1 + PUBLIC_STATE_U64_LEN + 1 + POSEIDON_HASH_OUT_LEN + BYTES32_LEN.

(** ** Parsing *)

Section parsing.
Context {P : Poseidon} {W : PoseidonWords P}.

Definition phash_from_u64_slice (input : list Z) : res PoseidonHashOut.PoseidonHashOutError PHash :=
  if bool_decide (length input <> POSEIDON_HASH_OUT_LEN) then Err PoseidonHashOut.InvalidHashValue
  else match PoseidonHashOut.position_noncanonical 0 input with
  | Some i => Err (PoseidonHashOut.NonCanonicalElement i)
  | None => Ok (phash_from_elements input)
  end.

(** [Bytes32::reduce_to_hash_out]: the eight limbs regrouped into four words. *)
Definition reduce_to_hash_out (b : Bytes32) : PHash :=
  phash_from_elements (PoseidonHashOut.pair_words (limbs b)).

Inductive PublicStateError :=
| PublicStateInvalidLength
| PublicStateBlockNumber (e : U63.U63Error)
| PublicStateTimestamp (e : EthereumTypeError)
| PublicStatePoseidonHash (e : PoseidonHashOut.PoseidonHashOutError).

Definition public_state_from_u64_slice (values : list Z) : res PublicStateError PublicState :=
  if bool_decide (length values <> PUBLIC_STATE_U64_LEN) then Err PublicStateInvalidLength
  else
    block_number_word ← unwrap (values !! 0%nat);
    block_number ← map_err PublicStateBlockNumber (U63.new block_number_word);
    timestamp ← map_err PublicStateTimestamp (Limbs.from_u64_slice U64_LEN (slice 1 3 values));
    account_tree_root ← map_err PublicStatePoseidonHash (phash_from_u64_slice (slice 3 7 values));
    deposit_tree_root ← map_err PublicStatePoseidonHash (phash_from_u64_slice (slice 7 11 values));
    prev_public_state_root ← map_err PublicStatePoseidonHash (phash_from_u64_slice (slice 11 15 values));
    Ok (PublicState.mk block_number (U64.to_u64 timestamp) account_tree_root deposit_tree_root
          prev_public_state_root).

Definition tx_from_u64_slice (input : list Z) : res CommonError Tx :=
  if bool_decide (length input <> TX_LEN) then Err InvalidData
  else
    transfer_tree_root ← map_err (fun _ => InvalidData) (phash_from_u64_slice (slice 0 4 input));
    nonce ← unwrap (input !! 4%nat);
    _ ← ensure (nonce <? 2 ^ 32) InvalidData;
    Ok (Tx.mk P transfer_tree_root nonce).

Inductive SpendPisError := InvalidPublicInputs.

Definition spend_pis_from_u64 (pis : list Z) : res SpendPisError SpendPublicInputs :=
  if (length pis <? SPEND_PUBLIC_INPUTS_LEN)%nat then Err InvalidPublicInputs
  else
    prev_private_commitment ← map_err (fun _ => InvalidPublicInputs) (phash_from_u64_slice (slice 0 4 pis));
    new_private_commitment ← map_err (fun _ => InvalidPublicInputs) (phash_from_u64_slice (slice 4 8 pis));
    tx ← map_err (fun _ => InvalidPublicInputs) (tx_from_u64_slice (slice 8 13 pis));
    is_valid ← unwrap (pis !! 13%nat);
    Ok (SpendPublicInputs.mk prev_private_commitment new_private_commitment tx (negb (is_valid =? 0))).

End parsing.

Inductive BalancePublicInputsError := InvalidLength | ParseError.

Module BalancePublicInputs.
Record BalancePublicInputs {P : Poseidon} := mk {
  channel_id : ChannelId;
  public_state : PublicState;
  block_r : BlockNumber;
  private_commitment : PHash;
  settled_tx_chain : Bytes32;
}.
#[global] Arguments BalancePublicInputs : clear implicits.
#[global] Arguments BalancePublicInputs {P}.
#[global] Arguments mk {P}.

Section pis.
Context {P : Poseidon} {W : PoseidonWords P}.

Definition new {E} (channel_id : ChannelId) (salt : PHash) : res E BalancePublicInputs :=
  private_state ← PrivateState.new salt;
  Ok (mk channel_id public_state_default block_number_default (PrivateState.commitment private_state)
        bytes32_default).

Definition to_u64_vec (p : BalancePublicInputs) : list Z :=
  [channel_id p] ++ PublicState.to_u64_vec (public_state p) ++ U63.to_u64_vec (block_r p)
    ++ phash_to_u64_vec (private_commitment p) ++ Limbs.to_u64_vec (settled_tx_chain p).

(** A non-canonical private commitment panics; every other field is an error. *)
Definition from_u64 (pis : list Z) : res BalancePublicInputsError BalancePublicInputs :=
  if bool_decide (length pis <> BALANCE_PUBLIC_INPUTS_LEN) then Err InvalidLength
  else
    channel_word ← unwrap (pis !! 0%nat);
    channel_id ← map_err (fun _ => ParseError) (ChannelId.new channel_word);
    public_state ← map_err (fun _ => ParseError) (public_state_from_u64_slice (slice 1 16 pis));
    block_r_u64 ← unwrap (pis !! 16%nat);
    block_r ← map_err (fun _ => ParseError) (U63.new block_r_u64);
    private_commitment ← expect (phash_from_u64_slice (slice 17 21 pis));
    settled_tx_chain ← map_err (fun _ => ParseError) (Limbs.from_u64_slice BYTES32_LEN (slice 21 29 pis));
    Ok (mk channel_id public_state block_r private_commitment settled_tx_chain).

End pis.
End BalancePublicInputs.
Notation BalancePublicInputs := BalancePublicInputs.BalancePublicInputs.

(** [VerifierOnlyCircuitData], as the words that end the public inputs. *)
Module VerifierData.
Record VerifierData := mk { constants_sigmas_cap : list (list Z); circuit_digest : list Z }.

#[global] Instance VerifierData_eq_dec : EqDecision VerifierData.
Proof. solve_decision. Defined.

Definition vec_len (cap_len : nat) : nat := 4 + 4 * cap_len.

Definition from_pis_slice (words : list Z) (cap_len : nat) : res BalancePublicInputsError VerifierData :=
  let len := length words in
  if (len <? 4 + 4 * cap_len)%nat then Err ParseError
  else Ok (mk ((fun i => slice (len - 4 * (cap_len - i)) (len - 4 * (cap_len - i) + 4) words) <$> seq 0 cap_len)
             (slice (len - 4 - 4 * cap_len) (len - 4 * cap_len) words)).
End VerifierData.
Notation VerifierData := VerifierData.VerifierData.

(** What the code reads of the recursive proofs. *)
Class BalanceProofs := {
  BalanceProof : Type;
  balance_public_inputs : BalanceProof -> list Z;
  num_cap_elements : nat;
  SpendProof : Type;
  spend_public_inputs : SpendProof -> list Z;
  spend_verify : SpendProof -> bool;
}.

Class Features := { authenticated_tail_receive : bool }.

(** [BalanceFullPublicInputs::from_u64_slice]. *)
Definition full_pis_from_u64_slice {P : Poseidon} {W : PoseidonWords P} {BP : BalanceProofs} (inputs : list Z)
    : res BalancePublicInputsError (BalancePublicInputs * VerifierData) :=
  let vd_len := VerifierData.vec_len num_cap_elements in
  if bool_decide (length inputs <> (BALANCE_PUBLIC_INPUTS_LEN + vd_len)%nat) then Err InvalidLength
  else
    pis ← BalancePublicInputs.from_u64 (slice 0 BALANCE_PUBLIC_INPUTS_LEN inputs);
    vd ← VerifierData.from_pis_slice
      (slice BALANCE_PUBLIC_INPUTS_LEN (BALANCE_PUBLIC_INPUTS_LEN + vd_len) inputs) num_cap_elements;
    Ok (pis, vd).

(** ** Recipients *)

Definition USER_ID_DOMAIN : Z := 0x55494400.
Definition USER_ID_TAG : Z := 1.
Definition ADDRESS_TAG : Z := 2.

Inductive RecipientError := InvalidRecipient.

(** [bytes[0] = tag], then back to limbs. *)
Definition tag_recipient {E} (tag : Z) (b : Bytes32) : res E Bytes32 :=
  expect (from_bytes_be BYTES32_LEN (<[0%nat := tag]> (to_bytes_be b))).

Definition calculate_recipient_from_user_id {P : Poseidon} {E} (channel_id : ChannelId) (salt : PHash)
    : res E Bytes32 :=
  hash ← phash_into_bytes32 (hash_inputs_u64 ([USER_ID_DOMAIN; channel_id] ++ phash_to_u64_vec salt));
  tag_recipient USER_ID_TAG hash.

Definition calculate_recipient_from_address {E} (address : Address) : res E Bytes32 :=
  padded_address ← expect (from_u32_slice BYTES32_LEN (replicate 3 0 ++ to_u32_vec address));
  tag_recipient ADDRESS_TAG padded_address.

Definition extract_address_from_recipient (recipient : Bytes32) : res RecipientError Address :=
  let bytes := to_bytes_be recipient in
  tag ← unwrap (bytes !! 0%nat);
  _ ← ensure (tag =? ADDRESS_TAG) InvalidRecipient;
  address ← expect (from_bytes_be ADDRESS_LEN (slice 12 32 bytes));
  canonical ← calculate_recipient_from_address address;
  _ ← ensure (bool_decide (recipient = canonical)) InvalidRecipient;
  Ok address.

(** ** Witnesses against the ledger *)

Definition u63_ltb (a b : BlockNumber) : bool := U63.as_u64 a <? U63.as_u64 b.
Definition u63_leb (a b : BlockNumber) : bool := U63.as_u64 a <=? U63.as_u64 b.

Inductive AccountStateError := InvalidSendMerkleProof | InvalidUserMerkleProof.

Module AccountState.
Record AccountState {P : Poseidon} := mk {
  channel_id : ChannelId;
  account_tree_root : PHash;
  send_leaf : SendLeaf;
  send_leaf_index : Z;
  send_merkle_proof : MerkleProof;
  channel_leaf : ChannelLeaf;
  user_merkle_proof : MerkleProof;
}.
#[global] Arguments AccountState : clear implicits.
#[global] Arguments AccountState {P}.
#[global] Arguments mk {P}.

Definition verify {P : Poseidon} (a : AccountState) : res AccountStateError unit :=
  _ ← map_err (fun _ => InvalidSendMerkleProof)
    (proof_verify (send_merkle_proof a) (send_leaf a) (send_leaf_index a)
       (ChannelLeaf.send_tree_root (channel_leaf a)));
  map_err (fun _ => InvalidUserMerkleProof)
    (proof_verify (user_merkle_proof a) (channel_leaf a) (channel_id a) (account_tree_root a)).
End AccountState.
Notation AccountState := AccountState.AccountState.

Inductive UpdatePublicStateError := UpdateInvalidMerkleProof.

Module UpdatePublicState.
Record UpdatePublicState {P : Poseidon} := mk {
  new : PublicState;
  old : PublicState;
  merkle_proof : MerkleProof;
}.
#[global] Arguments UpdatePublicState : clear implicits.
#[global] Arguments UpdatePublicState {P}.
#[global] Arguments mk {P}.

Definition make {P : Poseidon} (new old : PublicState) (merkle_proof : option MerkleProof)
    : res UpdatePublicStateError UpdatePublicState :=
  if bool_decide (new = old)
  then Ok (mk new old (proof_dummy (Hs := PoseidonLeafableHasher) PUBLIC_STATE_TREE_HEIGHT))
  else
    merkle_proof ← ok_or merkle_proof UpdateInvalidMerkleProof;
    calculated ← proof_get_root merkle_proof old (U63.as_u64 (PublicState.block_number old));
    _ ← ensure (bool_decide (calculated = PublicState.prev_public_state_root new)) UpdateInvalidMerkleProof;
    Ok (mk new old merkle_proof).

Definition verify {P : Poseidon} (u : UpdatePublicState) : res UpdatePublicStateError unit :=
  if bool_decide (new u = old u) then Ok tt
  else
    calculated ← proof_get_root (merkle_proof u) (old u) (U63.as_u64 (PublicState.block_number (old u)));
    ensure (bool_decide (calculated = PublicState.prev_public_state_root (new u))) UpdateInvalidMerkleProof.
End UpdatePublicState.
Notation UpdatePublicState := UpdatePublicState.UpdatePublicState.

Inductive TransferWitnessError := InvalidTransferMerkleProof.

Module TransferWitness.
Record TransferWitness {P : Poseidon} := mk {
  transfer_tree_root : PHash;
  transfer : Transfer;
  transfer_index : Z;
  transfer_merkle_proof : MerkleProof;
}.
#[global] Arguments TransferWitness : clear implicits.
#[global] Arguments TransferWitness {P}.
#[global] Arguments mk {P}.

Definition verify {P : Poseidon} (w : TransferWitness) : res TransferWitnessError unit :=
  map_err (fun _ => InvalidTransferMerkleProof)
    (proof_verify (transfer_merkle_proof w) (transfer w) (transfer_index w) (transfer_tree_root w)).
End TransferWitness.
Notation TransferWitness := TransferWitness.TransferWitness.

Inductive DepositWitnessError := InvalidDepositIndex | InvalidDepositMerkleProof | DepositInvalidRecipient.

Module DepositWitness.
Record DepositWitness {P : Poseidon} := mk {
  channel_id : ChannelId;
  deposit_tree_root : PHash;
  deposit_salt : PHash;
  deposit : Deposit;
  deposit_merkle_proof : MerkleProof;
}.
#[global] Arguments DepositWitness : clear implicits.
#[global] Arguments DepositWitness {P}.
#[global] Arguments mk {P}.

Definition verify {P : Poseidon} (w : DepositWitness) : res DepositWitnessError unit :=
  let deposit_index := U63.as_u64 (Deposit.deposit_index (deposit w)) in
  _ ← ensure (deposit_index <? shl64 DEPOSIT_TREE_HEIGHT) InvalidDepositIndex;
  _ ← map_err (fun _ => InvalidDepositMerkleProof)
    (proof_verify (deposit_merkle_proof w) (deposit w) deposit_index (deposit_tree_root w));
  expected_recipient ← calculate_recipient_from_user_id (channel_id w) (deposit_salt w);
  ensure (bool_decide (Deposit.recipient (deposit w) = expected_recipient)) DepositInvalidRecipient.
End DepositWitness.
Notation DepositWitness := DepositWitness.DepositWitness.

(** Whether a receive must show the interval between two sends. *)
Definition requires_send_interval {F : Features} (last previous : BlockNumber) : bool :=
  if authenticated_tail_receive then u63_ltb previous last else negb (bool_decide (last = block_number_default)).

(** ** Settlement of a transaction *)

Inductive TxSettlementError :=
| InvalidSpendProof
| InvalidTxMerkleProof
| InvalidTxV2MerkleProof
| InvalidAccountState (e : AccountStateError)
| InvalidUserId
| InvalidPublicState
| InconsistentWitness.

Module TxSettlement.
Record TxSettlement {P : Poseidon} {BP : BalanceProofs} := mk {
  channel_id : ChannelId;
  tx : Tx;
  public_state : PublicState;
  account_state : AccountState;
  tx_merkle_proof : MerkleProof;
  tx_v2_merkle_proof : option MerkleProof;
  tx_v2 : option TxV2;
  spend_proof : SpendProof;
}.
#[global] Arguments TxSettlement : clear implicits.
#[global] Arguments TxSettlement {P BP}.
#[global] Arguments mk {P BP}.

Section settlement.
Context {P : Poseidon} {W : PoseidonWords P} {BP : BalanceProofs}.

(** The inclusion of the transaction in the block's tree, in either form. *)
Definition verify_inclusion (channel_id : ChannelId) (tx : Tx) (tx_tree_root : PHash)
    (tx_merkle_proof : MerkleProof) (tx_v2_merkle_proof : option MerkleProof) (tx_v2 : option TxV2)
    : res TxSettlementError unit :=
  match tx_v2, tx_v2_merkle_proof with
  | Some tx_v2, Some tx_v2_merkle_proof =>
      _ ← map_err (fun _ => InvalidTxV2MerkleProof)
        (proof_verify tx_v2_merkle_proof tx_v2 channel_id tx_tree_root);
      _ ← ensure (bool_decide (TxV2.tx_class tx_v2 = UserTransfer)) InconsistentWitness;
      _ ← ensure (bool_decide (TxV2.channel_action_root tx_v2 = phash_default)) InconsistentWitness;
      _ ← ensure (bool_decide (TxV2.transfer_tree_root tx_v2 = Tx.transfer_tree_root tx)) InconsistentWitness;
      ensure (TxV2.nonce tx_v2 =? Tx.nonce tx) InconsistentWitness
  | None, None =>
      map_err (fun _ => InvalidTxMerkleProof) (proof_verify tx_merkle_proof tx channel_id tx_tree_root)
  | _, _ => Err InconsistentWitness
  end.

Definition new_with_optional_tx_v2 (channel_id : ChannelId) (tx : Tx) (public_state : PublicState)
    (account_state : AccountState) (tx_merkle_proof : MerkleProof) (tx_v2_merkle_proof : option MerkleProof)
    (tx_v2 : option TxV2) (spend_proof : SpendProof) : res TxSettlementError TxSettlement :=
  _ ← ensure (spend_verify spend_proof) InvalidSpendProof;
  _ ← map_err InvalidAccountState (AccountState.verify account_state);
  _ ← ensure (AccountState.channel_id account_state =? channel_id) InvalidUserId;
  _ ← ensure (bool_decide (AccountState.account_tree_root account_state
                             = PublicState.account_tree_root public_state)) InvalidPublicState;
  let tx_tree_root := reduce_to_hash_out (SendLeaf.tx_tree_root (AccountState.send_leaf account_state)) in
  _ ← verify_inclusion channel_id tx tx_tree_root tx_merkle_proof tx_v2_merkle_proof tx_v2;
  spend_pis ← map_err (fun _ => InvalidSpendProof) (spend_pis_from_u64 (spend_public_inputs spend_proof));
  _ ← ensure (bool_decide (SpendPublicInputs.tx spend_pis = tx)) InvalidSpendProof;
  Ok (mk channel_id tx public_state account_state tx_merkle_proof tx_v2_merkle_proof tx_v2 spend_proof).

Definition tx_block_number (t : TxSettlement) : BlockNumber := SendLeaf.cur (AccountState.send_leaf (account_state t)).

Definition send_block_number_before_tx (t : TxSettlement) : BlockNumber :=
  SendLeaf.prev (AccountState.send_leaf (account_state t)).

Definition spend_pis (t : TxSettlement) : res TxSettlementError SpendPublicInputs :=
  map_err (fun _ => InvalidSpendProof) (spend_pis_from_u64 (spend_public_inputs (spend_proof t))).

End settlement.
End TxSettlement.
Notation TxSettlement := TxSettlement.TxSettlement.

(** ** Sending *)

Inductive SendTxError :=
| SendConnectionError
| SendBalancePublicInputsError (e : BalancePublicInputsError)
| SendSpendPisError
| SendBlockNumberError.

Module SendTxWitness.
Record SendTxWitness {P : Poseidon} {BP : BalanceProofs} := mk {
  prev_balance_proof : BalanceProof;
  update_public_state : UpdatePublicState;
  tx_settlement : TxSettlement;
  transfer_witness : TransferWitness;
}.
#[global] Arguments SendTxWitness : clear implicits.
#[global] Arguments SendTxWitness {P BP}.
#[global] Arguments mk {P BP}.

Section send.
Context {P : Poseidon} {W : PoseidonWords P} {K : Keccak} {BP : BalanceProofs}.

Definition to_public_inputs (w : SendTxWitness) : res SendTxError (BalancePublicInputs * VerifierData) :=
  '(prev, balance_vd) ← map_err SendBalancePublicInputsError
    (full_pis_from_u64_slice (balance_public_inputs (prev_balance_proof w)));
  let settlement := tx_settlement w in
  let update := update_public_state w in
  _ ← ensure (bool_decide (BalancePublicInputs.public_state prev = UpdatePublicState.old update)) SendConnectionError;
  _ ← ensure (bool_decide (UpdatePublicState.new update = TxSettlement.public_state settlement)) SendConnectionError;
  _ ← ensure (TxSettlement.channel_id settlement =? BalancePublicInputs.channel_id prev) SendConnectionError;
  spend_pis ← map_err (fun _ => SendSpendPisError) (TxSettlement.spend_pis settlement);
  _ ← ensure (bool_decide (SpendPublicInputs.prev_private_commitment spend_pis
                             = BalancePublicInputs.private_commitment prev)) SendConnectionError;
  _ ← ensure (negb (u63_ltb (BalancePublicInputs.block_r prev)
                      (TxSettlement.send_block_number_before_tx settlement))) SendBlockNumberError;
  _ ← ensure (negb (u63_ltb (TxSettlement.tx_block_number settlement) (BalancePublicInputs.block_r prev)))
    SendBlockNumberError;
  _ ← ensure (TransferWitness.transfer_index (transfer_witness w) =? 0) SendConnectionError;
  _ ← ensure (bool_decide (TransferWitness.transfer_tree_root (transfer_witness w)
                             = Tx.transfer_tree_root (TxSettlement.tx settlement))) SendConnectionError;
  _ ← map_err (fun _ => SendConnectionError) (TransferWitness.verify (transfer_witness w));
  let '(new_block_r, new_private_commitment) :=
    if SpendPublicInputs.is_valid spend_pis
    then (TxSettlement.tx_block_number settlement, SpendPublicInputs.new_private_commitment spend_pis)
    else (BalancePublicInputs.block_r prev, BalancePublicInputs.private_commitment prev) in
  let aux_data := Transfer.aux_data (TransferWitness.transfer (transfer_witness w)) in
  let new_settled_tx_chain :=
    if SpendPublicInputs.is_valid spend_pis && negb (bool_decide (aux_data = bytes32_default))
    then settled_tx_chain_push (BalancePublicInputs.settled_tx_chain prev) aux_data
    else BalancePublicInputs.settled_tx_chain prev in
  Ok (BalancePublicInputs.mk (BalancePublicInputs.channel_id prev) (UpdatePublicState.new update) new_block_r
        new_private_commitment new_settled_tx_chain, balance_vd).

End send.
End SendTxWitness.
Notation SendTxWitness := SendTxWitness.SendTxWitness.

(** ** Receiving a transfer *)

Inductive ReceiveTransferError :=
| ReceiveConnectionError
| ReceiveBalancePublicInputsError (e : BalancePublicInputsError)
| ReceiveInvalidBalanceVd
| ReceiveInvalidRecipient
| ReceiveBlockNumberError
| ReceiveSpendPisError.

(** The block-number rules shared by the two receiving steps: the new reference lies between the old
    one and the public state, and no send falls in between. *)
Definition receive_window {F : Features} {P : Poseidon} {E} (block_error : E) (account_state : AccountState)
    (public_state : PublicState) (prev_block_r new_block_r : BlockNumber) : res E unit :=
  _ ← ensure (negb (u63_ltb new_block_r prev_block_r
                    || u63_ltb (PublicState.block_number public_state) new_block_r)) block_error;
  if requires_send_interval (ChannelLeaf.prev (AccountState.channel_leaf account_state)) prev_block_r
  then
    _ ← ensure (negb (u63_ltb prev_block_r (SendLeaf.prev (AccountState.send_leaf account_state)))) block_error;
    ensure (negb (u63_leb (SendLeaf.cur (AccountState.send_leaf account_state)) new_block_r)) block_error
  else Ok tt.

Module ReceiveTransferWitness.
Record ReceiveTransferWitness {P : Poseidon} {BP : BalanceProofs} := mk {
  prev_balance_proof : BalanceProof;
  sender_balance_proof : BalanceProof;
  sender_update_public_state : UpdatePublicState;
  receiver_update_public_state : UpdatePublicState;
  new_block_r : BlockNumber;
  account_state : AccountState;
  tx_settlement : TxSettlement;
  transfer_witness : TransferWitness;
  transfer_salt : PHash;
  update_private_state : UpdatePrivateState;
}.
#[global] Arguments ReceiveTransferWitness : clear implicits.
#[global] Arguments ReceiveTransferWitness {P BP}.
#[global] Arguments mk {P BP}.

Section receive.
Context {P : Poseidon} {W : PoseidonWords P} {K : Keccak} {BP : BalanceProofs} {F : Features}.

Definition to_public_inputs (w : ReceiveTransferWitness)
    : res ReceiveTransferError (BalancePublicInputs * VerifierData) :=
  '(prev, balance_vd) ← map_err ReceiveBalancePublicInputsError
    (full_pis_from_u64_slice (balance_public_inputs (prev_balance_proof w)));
  '(sender, sender_vd) ← map_err ReceiveBalancePublicInputsError
    (full_pis_from_u64_slice (balance_public_inputs (sender_balance_proof w)));
  _ ← ensure (bool_decide (balance_vd = sender_vd)) ReceiveInvalidBalanceVd;
  let sender_user_id := BalancePublicInputs.channel_id sender in
  let receiver_user_id := BalancePublicInputs.channel_id prev in
  let receiver_update := receiver_update_public_state w in
  let sender_update := sender_update_public_state w in
  _ ← ensure (bool_decide (UpdatePublicState.old receiver_update = BalancePublicInputs.public_state prev))
    ReceiveConnectionError;
  _ ← ensure (bool_decide (UpdatePublicState.old sender_update = BalancePublicInputs.public_state sender))
    ReceiveConnectionError;
  _ ← ensure (bool_decide (UpdatePublicState.new receiver_update = UpdatePublicState.new sender_update))
    ReceiveConnectionError;
  let public_state := UpdatePublicState.new receiver_update in
  _ ← ensure (AccountState.channel_id (account_state w) =? receiver_user_id) ReceiveConnectionError;
  _ ← ensure (bool_decide (AccountState.account_tree_root (account_state w)
                             = PublicState.account_tree_root public_state)) ReceiveConnectionError;
  let settlement := tx_settlement w in
  _ ← ensure (TxSettlement.channel_id settlement =? sender_user_id) ReceiveConnectionError;
  _ ← ensure (bool_decide (TxSettlement.public_state settlement = public_state)) ReceiveConnectionError;
  _ ← ensure (bool_decide (TransferWitness.transfer_tree_root (transfer_witness w)
                             = Tx.transfer_tree_root (TxSettlement.tx settlement))) ReceiveConnectionError;
  let transfer := TransferWitness.transfer (transfer_witness w) in
  expected_recipient ← calculate_recipient_from_user_id receiver_user_id (transfer_salt w);
  _ ← ensure (bool_decide (Transfer.recipient transfer = expected_recipient)) ReceiveInvalidRecipient;
  let prev_block_r := BalancePublicInputs.block_r prev in
  _ ← receive_window ReceiveBlockNumberError (account_state w) public_state prev_block_r (new_block_r w);
  _ ← ensure (negb (u63_ltb (new_block_r w) (TxSettlement.tx_block_number settlement))) ReceiveBlockNumberError;
  let sender_block_r := BalancePublicInputs.block_r sender in
  _ ← ensure (negb (u63_ltb sender_block_r (TxSettlement.send_block_number_before_tx settlement)))
    ReceiveBlockNumberError;
  _ ← ensure (negb (u63_leb (TxSettlement.tx_block_number settlement) sender_block_r)) ReceiveBlockNumberError;
  spend_pis ← map_err (fun _ => ReceiveSpendPisError) (TxSettlement.spend_pis settlement);
  _ ← ensure (bool_decide (BalancePublicInputs.private_commitment sender
                             = SpendPublicInputs.prev_private_commitment spend_pis)) ReceiveConnectionError;
  _ ← ensure (SpendPublicInputs.is_valid spend_pis) ReceiveConnectionError;
  let settled_transfer := SettledTransfer.mk transfer sender_user_id
    (TransferWitness.transfer_index (transfer_witness w)) (Tx.nonce (TxSettlement.tx settlement)) in
  nullifier ← SettledTransfer.nullifier settled_transfer;
  let update := update_private_state w in
  _ ← ensure (UpdatePrivateState.token_index update =? Transfer.token_index transfer) ReceiveConnectionError;
  _ ← ensure (bool_decide (UpdatePrivateState.amount update = Transfer.amount transfer)) ReceiveConnectionError;
  _ ← ensure (bool_decide (UpdatePrivateState.nullifier update = nullifier)) ReceiveConnectionError;
  _ ← ensure (bool_decide (PrivateState.commitment (UpdatePrivateState.prev_private_state update)
                             = BalancePublicInputs.private_commitment prev)) ReceiveConnectionError;
  let new_settled_tx_chain :=
    if bool_decide (Transfer.aux_data transfer = bytes32_default)
    then BalancePublicInputs.settled_tx_chain prev
    else settled_tx_chain_push (BalancePublicInputs.settled_tx_chain prev) (Transfer.aux_data transfer) in
  Ok (BalancePublicInputs.mk receiver_user_id public_state (new_block_r w)
        (PrivateState.commitment (UpdatePrivateState.new_private_state update)) new_settled_tx_chain, balance_vd).

End receive.
End ReceiveTransferWitness.
Notation ReceiveTransferWitness := ReceiveTransferWitness.ReceiveTransferWitness.

(** ** Receiving a deposit *)

Inductive ReceiveDepositError :=
| DepositConnectionError
| DepositBalancePublicInputsError (e : BalancePublicInputsError)
| ReceiveDepositInvalidRecipient
| DepositBlockNumberError
| InvalidDepositWitness.

Module ReceiveDepositWitness.
Record ReceiveDepositWitness {P : Poseidon} {BP : BalanceProofs} := mk {
  prev_balance_proof : BalanceProof;
  update_public_state : UpdatePublicState;
  new_block_r : BlockNumber;
  account_state : AccountState;
  deposit_witness : DepositWitness;
  update_private_state : UpdatePrivateState;
}.
#[global] Arguments ReceiveDepositWitness : clear implicits.
#[global] Arguments ReceiveDepositWitness {P BP}.
#[global] Arguments mk {P BP}.

Section receive.
Context {P : Poseidon} {W : PoseidonWords P} {K : Keccak} {BP : BalanceProofs} {F : Features}.

Definition deposit_error (e : DepositWitnessError) : ReceiveDepositError :=
  match e with
  | DepositInvalidRecipient => ReceiveDepositInvalidRecipient
  | _ => InvalidDepositWitness
  end.

Definition to_public_inputs (w : ReceiveDepositWitness)
    : res ReceiveDepositError (BalancePublicInputs * VerifierData) :=
  '(prev, balance_vd) ← map_err DepositBalancePublicInputsError
    (full_pis_from_u64_slice (balance_public_inputs (prev_balance_proof w)));
  let receiver_user_id := BalancePublicInputs.channel_id prev in
  _ ← map_err (fun _ => DepositConnectionError) (UpdatePublicState.verify (update_public_state w));
  _ ← ensure (bool_decide (UpdatePublicState.old (update_public_state w) = BalancePublicInputs.public_state prev))
    DepositConnectionError;
  let public_state := UpdatePublicState.new (update_public_state w) in
  _ ← map_err (fun _ => DepositConnectionError) (AccountState.verify (account_state w));
  _ ← ensure (AccountState.channel_id (account_state w) =? receiver_user_id) DepositConnectionError;
  _ ← ensure (bool_decide (AccountState.account_tree_root (account_state w)
                             = PublicState.account_tree_root public_state)) DepositConnectionError;
  _ ← ensure (DepositWitness.channel_id (deposit_witness w) =? receiver_user_id) DepositConnectionError;
  _ ← map_err deposit_error (DepositWitness.verify (deposit_witness w));
  _ ← ensure (bool_decide (DepositWitness.deposit_tree_root (deposit_witness w)
                             = PublicState.deposit_tree_root public_state)) DepositConnectionError;
  let prev_block_r := BalancePublicInputs.block_r prev in
  _ ← receive_window DepositBlockNumberError (account_state w) public_state prev_block_r (new_block_r w);
  let deposit := DepositWitness.deposit (deposit_witness w) in
  _ ← ensure (negb (u63_ltb (new_block_r w) (Deposit.block_number deposit))) DepositBlockNumberError;
  let update := update_private_state w in
  _ ← ensure (UpdatePrivateState.token_index update =? Deposit.token_index deposit) DepositConnectionError;
  _ ← ensure (bool_decide (UpdatePrivateState.amount update = Deposit.amount deposit)) DepositConnectionError;
  deposit_nullifier ← Deposit.nullifier deposit;
  _ ← ensure (bool_decide (UpdatePrivateState.nullifier update = deposit_nullifier)) DepositConnectionError;
  _ ← ensure (bool_decide (PrivateState.commitment (UpdatePrivateState.prev_private_state update)
                             = BalancePublicInputs.private_commitment prev)) DepositConnectionError;
  let new_settled_tx_chain :=
    settled_tx_chain_push (BalancePublicInputs.settled_tx_chain prev) deposit_nullifier in
  Ok (BalancePublicInputs.mk receiver_user_id public_state (new_block_r w)
        (PrivateState.commitment (UpdatePrivateState.new_private_state update)) new_settled_tx_chain, balance_vd).

End receive.
End ReceiveDepositWitness.
Notation ReceiveDepositWitness := ReceiveDepositWitness.ReceiveDepositWitness.
