(* ===== verification/BalanceProps.v ===== *)
(** * Balance steps against the ledger

    What an accepted balance step says about the public ledger it refers to.
    The sends of a channel form a chain of intervals; a verified account state
    is one interval of it; so a receive shows that the channel sent nothing in
    the blocks it skips, and a send is the next unprocessed one.  [system] is
    the ledger and one channel's balance proof evolving together, and
    [system_sends_exact] its invariant. *)

From S2P Require Import Prelude Limbs U63 Circuit MerkleTree LeafTrees Poseidon IndexedTree Keccak Regev BalanceState Account AccountProps Ledger LedgerProps Balance.

#[local] Remove Hints Leafable_Bytes32 : typeclass_instances.
Import FullPublicState.

(** ** The sends of a channel *)

Notation cur l := (U63.as_u64 (SendLeaf.cur l)).

(** Each send remembers the one before it. *)
Lemma send_history_prev c bs i l :
  send_history c bs !! i = Some l -> SendLeaf.prev l = last_send (take i (send_history c bs)).
Proof.
  revert i l. induction bs as [|b bs IH] using rev_ind; intros i l Hl; [done|].
  rewrite send_history_snoc in *. destruct (takes_part c b); [|by apply IH].
  apply lookup_app_Some in Hl as [Hl|[Hge Hl]].
  - rewrite take_app_le by (apply lookup_lt_Some in Hl; lia). by apply IH.
  - destruct (i - _)%nat eqn:Hi; [injection Hl as <-|done]. cbn. rewrite take_app_le by lia.
    by rewrite take_ge by lia.
Qed.

(** Sends are in block order. *)
Lemma send_history_sorted c bs i j l l' :
  send_history c bs !! i = Some l -> send_history c bs !! j = Some l' -> (i < j)%nat -> cur l < cur l'.
Proof.
  revert i j l l'. induction bs as [|b bs IH] using rev_ind; intros i j l l' Hl Hl' Hij; [done|].
  rewrite send_history_snoc in *. destruct (takes_part c b); [|by eapply IH].
  apply lookup_app_Some in Hl' as [Hl'|[Hge Hl']].
  - rewrite lookup_app_l in Hl by (apply lookup_lt_Some in Hl'; lia). by eapply IH.
  - destruct (j - _)%nat eqn:Hj; [injection Hl' as <-|done]. rewrite lookup_app_l in Hl by lia.
    pose proof (send_history_range c bs) as Hr. rewrite Forall_lookup in Hr. apply Hr in Hl. cbn. lia.
Qed.

(** The genesis block sends nothing. *)
Lemma send_history_positive c bs : head bs = Some Block.default -> Forall (fun l => 0 < cur l) (send_history c bs).
Proof.
  induction bs as [|b bs IH] using rev_ind; [done|]. intros Hh. rewrite send_history_snoc.
  destruct bs as [|b0 bs].
  - cbn in Hh. injection Hh as ->. unfold takes_part. cbn. rewrite andb_false_r. constructor.
  - destruct (takes_part c b); [|by apply IH]. apply Forall_app_2; [by apply IH|].
    constructor; [cbn; lia|constructor].
Qed.

(** No send lies strictly inside the interval of a send leaf. *)
Lemma send_interval_empty c bs i l l' :
  head bs = Some Block.default -> send_history c bs !! i = Some l -> l' ∈ send_history c bs ->
  cur l' <= U63.as_u64 (SendLeaf.prev l) \/ cur l <= cur l'.
Proof.
  intros Hh Hl Hl'. apply list_elem_of_lookup in Hl' as [j Hj].
  destruct (decide (i <= j)%nat) as [Hij|Hij].
  - right. destruct (decide (i = j)) as [->|Hne]; [by simplify_eq|].
    apply Z.lt_le_incl. apply (send_history_sorted c bs i j); [done|done|lia].
  - left. rewrite (send_history_prev c bs i l Hl). unfold last_send.
    destruct (list.last (take i (send_history c bs))) as [l1|] eqn:Hlast.
    + rewrite list.last_lookup, length_take in Hlast. apply lookup_lt_Some in Hl as Hlt.
      replace (pred (i `min` length (send_history c bs))) with (pred i) in Hlast by lia.
      rewrite lookup_take_lt in Hlast by lia.
      destruct (decide (j = pred i)) as [->|Hne]; [by simplify_eq|].
      apply Z.lt_le_incl. apply (send_history_sorted c bs j (pred i)); [done|done|lia].
    + apply list.last_None in Hlast. apply (f_equal length) in Hlast. rewrite length_take in Hlast.
      apply lookup_lt_Some in Hl. cbn in Hlast. lia.
Qed.

Lemma last_send_max c bs l' :
  l' ∈ send_history c bs -> cur l' <= U63.as_u64 (last_send (send_history c bs)).
Proof.
  intros Hl'. apply list_elem_of_lookup in Hl' as [j Hj]. apply lookup_lt_Some in Hj as Hlt.
  unfold last_send. rewrite list.last_lookup.
  destruct (lookup_lt_is_Some_2 (send_history c bs) (pred (length (send_history c bs)))) as [l Hl]; [lia|].
  rewrite Hl. destruct (decide (j = pred (length (send_history c bs)))) as [->|Hne]; [by simplify_eq|].
  apply Z.lt_le_incl. apply (send_history_sorted c bs j (pred (length (send_history c bs)))); [done|done|lia].
Qed.

(** The sends up to a block. *)
Definition sends_upto (n : Z) (ls : list SendLeaf) : list SendLeaf := filter (fun l => cur l <= n) ls.

Lemma list_filter_none {A} (Q : A -> Prop) `{!forall x, Decision (Q x)} (ls : list A) :
  (forall i x, ls !! i = Some x -> ~ Q x) -> filter Q ls = [].
Proof.
  induction ls as [|x ls IH]; intros Hno; [done|]. rewrite filter_cons_False by apply (Hno 0%nat x eq_refl).
  apply IH. intros i y Hy. by apply (Hno (S i)).
Qed.

(** Moving past blocks without sends adds nothing. *)
Lemma sends_upto_skip n m ls :
  n <= m -> (forall l, l ∈ ls -> ~ (n < cur l <= m)) -> sends_upto m ls = sends_upto n ls.
Proof.
  intros Hnm. unfold sends_upto. induction ls as [|l ls IH]; intros Hno; [done|].
  specialize (IH (fun x Hx => Hno x (list_elem_of_further _ _ _ Hx))).
  specialize (Hno l (list_elem_of_here _ _)). rewrite !filter_cons.
  destruct (decide (cur l <= m)), (decide (cur l <= n)); try lia; by rewrite IH.
Qed.

(** The selected sends keep their order. *)
Lemma sends_upto_sorted n c bs i j l l' :
  sends_upto n (send_history c bs) !! i = Some l -> sends_upto n (send_history c bs) !! j = Some l' ->
  (i < j)%nat -> cur l < cur l'.
Proof.
  assert (forall i j x y, send_history c bs !! i = Some x -> send_history c bs !! j = Some y ->
    (i < j)%nat -> cur x < cur y) as Hs by (intros ????; apply send_history_sorted).
  unfold sends_upto. revert i j. generalize dependent (send_history c bs).
  intros ls. induction ls as [|x ls IH]; intros Hs i j Hi Hj Hij; [done|].
  assert (forall i j a b, ls !! i = Some a -> ls !! j = Some b -> (i < j)%nat -> cur a < cur b) as Hs'.
  { intros i' j' a b Ha Hb Hab. apply (Hs (S i') (S j')); [done|done|lia]. }
  destruct (decide (cur x <= n)) as [Hx|Hx].
  - rewrite filter_cons_True in Hi, Hj by done. destruct j as [|j]; [lia|]. destruct i as [|i].
    + injection Hi as ->. apply (list_elem_of_lookup_2 _ j) in Hj. apply list_elem_of_filter in Hj as [_ Hj].
      apply list_elem_of_lookup in Hj as [k Hk]. apply (Hs 0%nat (S k)); [done|done|lia].
    + apply (IH Hs' i j); [done|done|lia].
  - rewrite filter_cons_False in Hi, Hj by done. by apply (IH Hs' i j).
Qed.

(** ** Recipients *)

(** A recipient's first limb: the tag in front of the three low bytes. *)
Definition tag_limb (tag x : Z) : Z := tag * 2 ^ 24 + x mod 2 ^ 24.

Lemma div_mod_pow2 y a b : 0 <= a -> 0 <= b -> (y / 2 ^ a) mod 2 ^ b = y mod 2 ^ (a + b) / 2 ^ a.
Proof.
  intros Ha Hb. apply Z.bits_inj'. intros n Hn. rewrite Z.div_pow2_bits by lia.
  rewrite !Z.testbit_mod_pow2, Z.div_pow2_bits by lia. f_equal.
  destruct (Z.ltb_spec n b), (Z.ltb_spec (n + a) (a + b)); lia || done.
Qed.

Lemma tag_limb_mod tag x k : 0 <= k <= 24 -> tag_limb tag x mod 2 ^ k = x mod 2 ^ k.
Proof.
  intros Hk. unfold tag_limb. apply Z.bits_inj'. intros n Hn. rewrite !Z.testbit_mod_pow2 by lia.
  destruct (Z.ltb_spec n k); [|done]. cbn. rewrite <- (Z.mod_pow2_bits_low _ 24) by lia.
  rewrite Z.add_comm, Z.mod_add by lia. rewrite Z.mod_mod by lia. by rewrite Z.mod_pow2_bits_low by lia.
Qed.

Lemma tag_limb_bytes tag x :
  in_width 8 tag -> in_width 32 x -> to_be_bytes (tag_limb tag x) = <[0%nat := tag]> (to_be_bytes x).
Proof.
  intros Ht Hx. unfold to_be_bytes, wrap. cbn [list_insert insert]. rewrite !Z.shiftr_div_pow2 by lia.
  assert ((tag_limb tag x / 2 ^ 24) mod 2 ^ 8 = tag) as ->.
  { unfold tag_limb, in_width in *. Z.div_mod_to_equations. lia. }
  rewrite !div_mod_pow2, !tag_limb_mod by lia. done.
Qed.

Lemma tag_recipient_spec {E} tag (b : Bytes32) :
  in_width 8 tag -> exists r, tag_recipient (E := E) tag b = Ok r /\
    limbs r = tag_limb tag (nth 0 (limbs b) 0) :: tail (limbs b).
Proof.
  intros Ht. pose proof (limbs_length b) as Hl. pose proof (limbs_u32 b) as Hu.
  assert (limbs_wfb BYTES32_LEN (tag_limb tag (nth 0 (limbs b) 0) :: tail (limbs b)) = true) as Hwf.
  { apply limbs_wfb_spec. destruct (limbs b) as [|x ls]; [done|]. apply Forall_cons_iff in Hu as [Hx Hls].
    split; [done|]. constructor; [|done]. cbn. unfold tag_limb, in_width in *. Z.div_mod_to_equations. lia. }
  exists (mkLimbs _ Hwf). split; [|done]. unfold tag_recipient.
  assert (<[0%nat := tag]> (to_bytes_be b) = to_bytes_be (mkLimbs _ Hwf)) as ->.
  { unfold to_bytes_be. cbn [limbs]. destruct (limbs b) as [|x ls]; [done|]. apply Forall_cons_iff in Hu as [Hx _].
    cbn [nth tail mbind list_bind]. by rewrite (tag_limb_bytes tag x). }
  by rewrite from_bytes_be_to_bytes_be.
Qed.

Lemma tagged_nonzero {E} tag (b r : Bytes32) :
  in_width 8 tag -> tag <> 0 -> tag_recipient (E := E) tag b = Ok r -> r <> bytes32_default.
Proof.
  intros Ht Hnz Hr ->. destruct (tag_recipient_spec (E := E) tag b Ht) as (r' & Hr' & Hl).
  rewrite Hr in Hr'. injection Hr' as <-. cbn in Hl. injection Hl as Hl _.
  unfold tag_limb, in_width in *. Z.div_mod_to_equations. lia.
Qed.

(** ** Leaves that hash injectively *)

Section binding.
Context {P : Poseidon} {PC : PoseidonCollisionFree P}.

#[export] Instance CollisionFree_SendLeaf : CollisionFree SendLeaf.
Proof.
  split; [apply poseidon_two_to_one_inj|]. intros x y H. apply (inj hash_inputs_u64) in H.
  unfold SendLeaf.to_u64_vec, U63.to_u64_vec in H. injection H as H1 H2 H. apply u64_vec_inj in H.
  destruct x as [[] [] ?], y as [[] [] ?]. cbn in *. by subst.
Qed.

#[export] Instance CollisionFree_ChannelLeaf : CollisionFree ChannelLeaf.
Proof.
  split; [apply poseidon_two_to_one_inj|]. intros x y H. apply (inj hash_inputs_u64) in H.
  unfold ChannelLeaf.to_u64_vec, U63.to_u64_vec in H. injection H as H1 H2 H.
  apply phash_app_inj in H as [H3 H]. apply (inj phash_to_u64_vec) in H.
  destruct x as [? [] ? ?], y as [? [] ? ?]. cbn in *. by subst.
Qed.

#[export] Instance CollisionFree_Deposit : CollisionFree Deposit.
Proof.
  split; [apply poseidon_two_to_one_inj|]. intros x y H. apply (inj hash_inputs_u64) in H.
  by apply deposit_to_u64_vec_inj.
Qed.

Lemma tx_class_inj x y : TxClass.as_u32 x = TxClass.as_u32 y -> x = y.
Proof. by destruct x, y. Qed.

#[export] Instance CollisionFree_TxV2 : CollisionFree TxV2.
Proof.
  split; [apply poseidon_two_to_one_inj|]. intros x y H. apply (inj hash_inputs_u64) in H.
  unfold TxV2.to_u64_vec in H. injection H as H1 H. apply tx_class_inj in H1.
  apply phash_app_inj in H as [H2 H]. injection H as H3 H. apply (inj phash_to_u64_vec) in H.
  destruct x, y. cbn in *. by subst.
Qed.

(** A public state is determined by its leaf hash, within the width of its timestamp. *)
Lemma public_state_hash_inj (x y : PublicState) :
  in_width 64 (PublicState.timestamp x) -> in_width 64 (PublicState.timestamp y) ->
  PublicState.poseidon_hash x = PublicState.poseidon_hash y -> x = y.
Proof.
  intros Hx Hy H. apply (inj hash_inputs_u64) in H. unfold PublicState.to_u64_vec, U63.to_u64_vec in H.
  apply word_app_inj in H as [H1 H]. apply split_u64_app_inj in H as [H2 H]; [|done|done].
  apply phash_app_inj in H as [H3 H]. apply phash_app_inj in H as [H4 H]. apply (inj phash_to_u64_vec) in H.
  destruct x as [[] ? ? ? ?], y as [[] ? ? ? ?]. cbn in *. by subst.
Qed.

(** A proof of the height of the tree shows the leaf that is there. *)
Lemma list_proof_leaf {V} {L : Leafable V} {CF : CollisionFree V} (ls : list V) h p leaf i root u :
  root = subtree (list_leaves ls) h 0 -> proof_height p = h -> in_width 64 i ->
  proof_verify p leaf i root = Ok u ->
  0 <= i < 2 ^ Z.of_nat h /\ leaf = default empty_leaf (ls !! Z.to_nat i).
Proof.
  intros -> <- Hw Hv. destruct (proof_verify_sound (list_leaves ls) p leaf i u Hw Hv) as (Hf & _ & Hi & _).
  split; [done|]. unfold list_leaves in Hf. symmetry. apply (inj leaf_hash). rewrite <- Hf.
  by destruct (ls !! Z.to_nat i).
Qed.

(** ** Account states *)

(** The widths of the fields and the heights the circuits fix for the proofs. *)
Definition account_shape (a : AccountState) : Prop :=
  in_width 32 (AccountState.channel_id a) /\ in_width 32 (AccountState.send_leaf_index a) /\
  proof_height (AccountState.send_merkle_proof a) = SEND_TREE_HEIGHT /\
  proof_height (AccountState.user_merkle_proof a) = CHANNEL_TREE_HEIGHT.

Lemma account_state_sound bs a u :
  account_shape a -> AccountState.verify a = Ok u -> AccountState.account_tree_root a = account_root bs ->
  let hist := send_history (AccountState.channel_id a) bs in
  AccountState.channel_leaf a = channel_summary hist /\
  AccountState.send_leaf a = default SendLeaf.default (hist !! Z.to_nat (AccountState.send_leaf_index a)).
Proof.
  intros (Hc & Hi & Hsh & Huh) Hv Hroot hist. unfold AccountState.verify in Hv. simplify_res.
  rewrite Hroot in Hv. unfold account_root in Hv. rewrite <- Huh in Hv.
  apply (proof_verify_sound (I2 := poseidon_two_to_one_inj)) in Hv as (Hleaf & _); [|unfold in_width in *; lia].
  apply (inj leaf_hash) in Hleaf. split; [done|]. rewrite <- Hleaf in Hr.
  eapply list_proof_leaf in Hr as [_ Hr]; [exact Hr|done|done|unfold in_width in *; lia].
Qed.

(** ** The receive window *)

(** An accepted window contains no send of the channel. *)
Lemma receive_window_sound {F : Features} {E} (e : E) bs a ps prev_r new_r u :
  head bs = Some Block.default -> account_shape a -> AccountState.verify a = Ok tt ->
  AccountState.account_tree_root a = account_root bs -> 0 <= U63.as_u64 new_r ->
  receive_window e a ps prev_r new_r = Ok u ->
  U63.as_u64 prev_r <= U63.as_u64 new_r <= U63.as_u64 (PublicState.block_number ps) /\
  forall l, l ∈ send_history (AccountState.channel_id a) bs ->
    ~ (U63.as_u64 prev_r < cur l <= U63.as_u64 new_r).
Proof.
  intros Hh Hshape Hv Hroot Hnew Hw.
  destruct (account_state_sound bs a tt Hshape Hv Hroot) as [Hcl Hsl]. unfold receive_window in Hw. simplify_res.
  unfold u63_ltb in Hr. simplify_bool. split; [lia|]. intros l Hl Hbad.
  rewrite Hcl in Hw. cbn [channel_summary ChannelLeaf.prev] in Hw.
  pose proof (last_send_max _ bs l Hl) as Hmax. unfold requires_send_interval in Hw.
  destruct (if authenticated_tail_receive then _ else _) eqn:Hreq.
  - simplify_res. unfold u63_ltb, u63_leb in *. simplify_bool. rewrite Hsl in *.
    destruct (send_history _ bs !! _) as [l0|] eqn:Hl0; cbn in *; [|lia].
    destruct (send_interval_empty _ bs _ l0 l Hh Hl0 Hl); lia.
  - destruct authenticated_tail_receive; unfold u63_ltb in Hreq; simplify_bool; [lia|].
    rewrite Hreq in Hmax. cbn in Hmax. pose proof (send_history_positive (AccountState.channel_id a) bs Hh) as Hp.
    rewrite Forall_forall in Hp. apply list_elem_of_In, Hp in Hl. lia.
Qed.

(** ** Deposits *)

Definition deposit_shape (w : DepositWitness) : Prop :=
  0 <= U63.as_u64 (Deposit.deposit_index (DepositWitness.deposit w)) < 2 ^ 63 /\
  proof_height (DepositWitness.deposit_merkle_proof w) = DEPOSIT_TREE_HEIGHT.

Lemma recipient_any_error {E E'} c salt r :
  calculate_recipient_from_user_id (E := E) c salt = Ok r -> calculate_recipient_from_user_id (E := E') c salt = Ok r.
Proof.
  unfold calculate_recipient_from_user_id, phash_into_bytes32, words_into_bytes32, limbs_try_into.
  destruct (decide _); cbn; [|done]. unfold tag_recipient, expect.
  destruct (from_bytes_be _ _); [|done..]. by intros [= ->].
Qed.

(** An accepted deposit witness names a deposit of the ledger, made out to the channel. *)
Lemma deposit_witness_sound ds w u :
  deposit_shape w -> DepositWitness.verify w = Ok u -> DepositWitness.deposit_tree_root w = deposit_root ds ->
  ds !! Z.to_nat (U63.as_u64 (Deposit.deposit_index (DepositWitness.deposit w))) = Some (DepositWitness.deposit w) /\
  calculate_recipient_from_user_id (E := unit) (DepositWitness.channel_id w) (DepositWitness.deposit_salt w)
    = Ok (Deposit.recipient (DepositWitness.deposit w)).
Proof.
  intros [Hi Hh] Hv Hroot. unfold DepositWitness.verify in Hv. simplify_res. simplify_bool.
  rewrite <- Hv in Hr1. apply (recipient_any_error (E' := unit)) in Hr1 as Hrec. split; [|done].
  eapply list_proof_leaf in Hr0 as [_ Hleaf]; [|exact Hroot|done|unfold in_width; lia].
  destruct (ds !! _) as [d|] eqn:Hd; [cbn in Hleaf; congruence|]. exfalso. cbn in Hleaf.
  unfold calculate_recipient_from_user_id in Hrec. simplify_res.
  apply (tagged_nonzero USER_ID_TAG) in Hrec; [|done|done]. apply Hrec. by rewrite Hleaf.
Qed.

(** A verified transfer witness whose transfer is made out to a channel names a transfer of the batch. *)
Lemma transfer_witness_sound (batch : list Transfer) w c salt :
  proof_height (TransferWitness.transfer_merkle_proof w) = TRANSFER_TREE_HEIGHT -> in_width 32 (TransferWitness.transfer_index w) ->
  TransferWitness.verify w = Ok tt -> TransferWitness.transfer_tree_root w = subtree (list_leaves batch) TRANSFER_TREE_HEIGHT 0 ->
  calculate_recipient_from_user_id (E := unit) c salt = Ok (Transfer.recipient (TransferWitness.transfer w)) ->
  batch !! Z.to_nat (TransferWitness.transfer_index w) = Some (TransferWitness.transfer w).
Proof.
  intros Hh Hi Hv%map_err_Ok Hroot Hrec. eapply list_proof_leaf in Hv as [_ Hleaf]; [|exact Hroot|done|unfold in_width in *; lia].
  destruct (batch !! _) as [x|] eqn:Hx; [cbn in Hleaf; congruence|]. exfalso. cbn in Hleaf.
  unfold calculate_recipient_from_user_id in Hrec. simplify_res.
  apply (tagged_nonzero USER_ID_TAG) in Hrec; [|done|done]. apply Hrec. by rewrite Hleaf.
Qed.

End binding.

(** ** Settlement *)

(** The zero root is reserved: no tree hashes to it. *)
Class PoseidonNonzero (P : Poseidon) (W : PoseidonWords P) : Prop := {
  hash_nonzero l : hash_inputs_u64 l <> phash_from_elements [0; 0; 0; 0];
}.

Section system.
Context {P : Poseidon} {PC : PoseidonCollisionFree P} {W : PoseidonWords P} {NZ : PoseidonNonzero P W}.
Context {K : Keccak} {BP : BalanceProofs} {F : Features}.

Lemma path_root_is_hash ss i l : exists l', path_root (Hs := PoseidonLeafableHasher) ss i (hash_inputs_u64 l) = hash_inputs_u64 l'.
Proof.
  revert i l. induction ss as [|s ss IH]; intros i l; [by exists l|]. cbn [path_root].
  unfold parent_hash. destruct (Z.odd i); apply IH.
Qed.

Lemma verified_root_nonzero {V} {L : Leafable V} p (leaf : V) i u :
  (exists l, leaf_hash leaf = hash_inputs_u64 l) ->
  proof_verify p leaf i (phash_from_elements [0; 0; 0; 0]) = Ok u -> False.
Proof.
  intros [l Hl] Hv. apply proof_verify_Ok in Hv as [_ Hv]. rewrite Hl in Hv.
  destruct (path_root_is_hash (siblings p) i l) as [l' Hl']. rewrite Hl' in Hv. by apply hash_nonzero in Hv.
Qed.

(** A settlement that was constructed by its checked constructor. *)
Definition settlement_built (t : TxSettlement) : Prop :=
  TxSettlement.new_with_optional_tx_v2 (TxSettlement.channel_id t) (TxSettlement.tx t) (TxSettlement.public_state t)
    (TxSettlement.account_state t) (TxSettlement.tx_merkle_proof t) (TxSettlement.tx_v2_merkle_proof t)
    (TxSettlement.tx_v2 t) (TxSettlement.spend_proof t) = Ok t.

Notation settled_leaf t := (AccountState.send_leaf (TxSettlement.account_state t)).

(** A settled transaction is in a block the channel took part in, and its spend proof verifies. *)
Lemma settlement_sound bs t :
  account_shape (TxSettlement.account_state t) -> settlement_built t ->
  PublicState.account_tree_root (TxSettlement.public_state t) = account_root bs ->
  (exists i, send_history (TxSettlement.channel_id t) bs !! i = Some (settled_leaf t)) /\
  spend_verify (TxSettlement.spend_proof t) = true /\
  exists pis, TxSettlement.spend_pis t = Ok pis /\ SpendPublicInputs.tx pis = TxSettlement.tx t.
Proof.
  intros Hshape Hb Hroot. unfold settlement_built, TxSettlement.new_with_optional_tx_v2 in Hb. simplify_res.
  simplify_bool. clear Hb. rewrite Hroot in Hr2.
  destruct (account_state_sound bs _ tt Hshape Hr0 Hr2) as [_ Hleaf]. rewrite Hr1 in Hleaf.
  split_and!; [|done|]; [|eexists; split; [unfold TxSettlement.spend_pis; by rewrite Hr4|done]].
  eexists. destruct (send_history _ bs !! _) as [l|] eqn:Hl; [by rewrite Hl, Hleaf|]. exfalso.
  rewrite Hleaf in Hr3. cbn [default SendLeaf.tx_tree_root SendLeaf.default] in Hr3.
  change (reduce_to_hash_out _) with (phash_from_elements [0; 0; 0; 0]) in Hr3.
  unfold TxSettlement.verify_inclusion in Hr3.
  destruct (TxSettlement.tx_v2 t) as [v2|], (TxSettlement.tx_v2_merkle_proof t) as [pr|]; try done; simplify_res.
  - apply (verified_root_nonzero (V := TxV2)) in Hr6; [done|by eexists].
  - apply (verified_root_nonzero (V := Tx)) in Hr3; [done|by eexists].
Qed.

(** A transaction, in the form of the blocks. *)
Definition block_form (x : Tx) : TxV2 := TxV2.mk UserTransfer (Tx.transfer_tree_root x) (Tx.nonce x) phash_default.

(** The tree under [root] has the transaction of channel [c], in either form. *)
Definition included (c : ChannelId) (x : Tx) (root : PHash) : Prop :=
  exists mp, proof_verify mp x c root = Ok tt \/ proof_verify mp (block_form x) c root = Ok tt.

Lemma settlement_included t : settlement_built t ->
  included (TxSettlement.channel_id t) (TxSettlement.tx t) (reduce_to_hash_out (SendLeaf.tx_tree_root (settled_leaf t))).
Proof.
  intros Hb. unfold settlement_built, TxSettlement.new_with_optional_tx_v2 in Hb. simplify_res. clear Hb.
  unfold TxSettlement.verify_inclusion in Hr3. destruct (TxSettlement.tx_v2 t) as [v2|], (TxSettlement.tx_v2_merkle_proof t) as [mp|]; try done; simplify_res; simplify_bool.
  - exists mp. right. replace (block_form (TxSettlement.tx t)) with v2; [done|]. destruct v2. cbn in *. unfold block_form. congruence.
  - eexists. left. done.
Qed.

(** ** The ledger and one channel's balance proof, together *)

(** A balance proof exposes [p]. *)
Definition proves (b : BalanceProof) (p : BalancePublicInputs) : Prop :=
  exists vd, full_pis_from_u64_slice (balance_public_inputs b) = Ok (p, vd).

(** The send step on the ledger [s]: the native check, with the strict block order that the circuit
    enforces ([enforce_gt] in [SendTxTarget::new]). *)
Record send_step (s : FullPublicState) (p : BalancePublicInputs) (w : SendTxWitness) (p' : BalancePublicInputs)
    : Prop := {
  send_prev : proves (SendTxWitness.prev_balance_proof w) p;
  send_accepted : exists vd, SendTxWitness.to_public_inputs w = Ok (p', vd);
  send_settlement : settlement_built (SendTxWitness.tx_settlement w);
  send_shape : account_shape (TxSettlement.account_state (SendTxWitness.tx_settlement w));
  send_public : UpdatePublicState.new (SendTxWitness.update_public_state w) = public_view s;
  send_strict : U63.as_u64 (BalancePublicInputs.block_r p)
    < U63.as_u64 (TxSettlement.tx_block_number (SendTxWitness.tx_settlement w));
}.

Record receive_transfer_step (s : FullPublicState) (p : BalancePublicInputs) (w : ReceiveTransferWitness)
    (p' : BalancePublicInputs) : Prop := {
  rt_prev : proves (ReceiveTransferWitness.prev_balance_proof w) p;
  rt_accepted : exists vd, ReceiveTransferWitness.to_public_inputs w = Ok (p', vd);
  rt_account : AccountState.verify (ReceiveTransferWitness.account_state w) = Ok tt;
  rt_shape : account_shape (ReceiveTransferWitness.account_state w);
  rt_public : UpdatePublicState.new (ReceiveTransferWitness.receiver_update_public_state w) = public_view s;
  rt_block_r : 0 <= U63.as_u64 (ReceiveTransferWitness.new_block_r w) < 2 ^ 63;
}.

Record receive_deposit_step (s : FullPublicState) (p : BalancePublicInputs) (w : ReceiveDepositWitness)
    (p' : BalancePublicInputs) : Prop := {
  rd_prev : proves (ReceiveDepositWitness.prev_balance_proof w) p;
  rd_accepted : exists vd, ReceiveDepositWitness.to_public_inputs w = Ok (p', vd);
  rd_shape : account_shape (ReceiveDepositWitness.account_state w);
  rd_deposit_shape : deposit_shape (ReceiveDepositWitness.deposit_witness w);
  rd_public : UpdatePublicState.new (ReceiveDepositWitness.update_public_state w) = public_view s;
  rd_block_r : 0 <= U63.as_u64 (ReceiveDepositWitness.new_block_r w) < 2 ^ 63;
}.

(** The channel's spend as the settled transaction's spend proof declares it. *)
Definition spend_valid (t : TxSettlement) : bool :=
  match TxSettlement.spend_pis t with Ok pis => SpendPublicInputs.is_valid pis | _ => false end.

(** [system c s p sent]: the ledger is in [s], the balance proof of channel [c] exposes [p], and
    [sent] are the sends it has spent, in order. *)
Inductive system (c : ChannelId) : FullPublicState -> BalancePublicInputs -> list SendLeaf -> Prop :=
| sys_init counts salt p :
    Forall (in_width 32) counts -> BalancePublicInputs.new (E := unit) c salt = Ok p -> system c (new counts) p []
| sys_ledger s p sent op s' r :
    system c s p sent -> op_typed op -> apply_op op s = (s', r) -> r <> Panic -> system c s' p sent
| sys_send s p sent w p' :
    system c s p sent -> send_step s p w p' ->
    system c s p' (if spend_valid (SendTxWitness.tx_settlement w)
                   then sent ++ [settled_leaf (SendTxWitness.tx_settlement w)] else sent)
| sys_receive_transfer s p sent w p' :
    system c s p sent -> receive_transfer_step s p w p' -> system c s p' sent
| sys_receive_deposit s p sent w p' :
    system c s p sent -> receive_deposit_step s p w p' -> system c s p' sent.

Record system_inv (c : ChannelId) (s : FullPublicState) (p : BalancePublicInputs) (sent : list SendLeaf) : Prop := {
  sys_ledger_inv : ledger_inv s;
  sys_channel : BalancePublicInputs.channel_id p = c;
  sys_block_r : 0 <= U63.as_u64 (BalancePublicInputs.block_r p) <= U63.as_u64 (block_number s);
  sys_sent : sent = sends_upto (U63.as_u64 (BalancePublicInputs.block_r p)) (send_history c (blocks s));
}.

Lemma public_view_roots s :
  PublicState.account_tree_root (public_view s) = account_root (blocks s) /\
  PublicState.deposit_tree_root (public_view s) = deposit_root (deposits s) /\
  PublicState.block_number (public_view s) = U63.mkU63 (Z.of_nat (pred (length (blocks s)))).
Proof. done. Qed.

Lemma public_view_number s : ledger_inv s ->
  U63.as_u64 (PublicState.block_number (public_view s)) = U63.as_u64 (block_number s).
Proof. intros Hs. cbn. rewrite last_block_index by done. pose proof (inv_number _ Hs). lia. Qed.

(** A new block is after every block already referred to. *)
Lemma sends_upto_block c bs b n :
  n < Z.of_nat (length bs) -> sends_upto n (send_history c (bs ++ [b])) = sends_upto n (send_history c bs).
Proof.
  intros Hn. rewrite send_history_snoc. destruct (takes_part c b); [|done].
  unfold sends_upto. rewrite list.filter_app, filter_cons_False by (cbn; lia). by rewrite filter_nil, app_nil_r.
Qed.

Lemma system_ledger c s p sent s' :
  system_inv c s p sent -> ledger_inv s' -> op_effect s s' -> system_inv c s' p sent.
Proof.
  intros [Hs Hc Hr ->] Hs' Heff. pose proof (inv_blocks _ Hs) as Hl. pose proof (inv_blocks _ Hs') as Hl'.
  destruct Heff as [->|[(d & _ & Hb & _)|(n & c' & ks & ts & root & _ & _ & Hb & _)]]; [done| |];
    rewrite Hb in Hl'; (split; [done|done| |rewrite Hb]).
  - lia.
  - done.
  - rewrite length_app in Hl'. cbn in Hl'. lia.
  - by rewrite sends_upto_block by lia.
Qed.

(** A receive moves the reference over blocks without sends. *)
Lemma system_receive c s p sent p' :
  system_inv c s p sent ->
  BalancePublicInputs.channel_id p' = c ->
  U63.as_u64 (BalancePublicInputs.block_r p) <= U63.as_u64 (BalancePublicInputs.block_r p')
    <= U63.as_u64 (block_number s) ->
  (forall l, l ∈ send_history c (blocks s) ->
    ~ (U63.as_u64 (BalancePublicInputs.block_r p) < cur l <= U63.as_u64 (BalancePublicInputs.block_r p'))) ->
  system_inv c s p' sent.
Proof.
  intros [Hs Hc Hr ->] Hc' Hr' Hno. split; [done|done|lia|]. symmetry. apply sends_upto_skip; [lia|done].
Qed.

(** The next send is the only one up to its block. *)
Lemma sends_upto_next bs c i l n :
  head bs = Some Block.default -> send_history c bs !! i = Some l ->
  U63.as_u64 (SendLeaf.prev l) <= n < cur l ->
  sends_upto (cur l) (send_history c bs) = sends_upto n (send_history c bs) ++ [l].
Proof.
  intros Hh Hl Hn. apply lookup_lt_Some in Hl as Hlt.
  assert (forall m, sends_upto m (send_history c bs) = sends_upto m (take i (send_history c bs)) ++
    sends_upto m (l :: drop (S i) (send_history c bs))) as Hsplit.
  { intros m. unfold sends_upto. rewrite <- list.filter_app. f_equal.
    by rewrite <- (take_drop_middle _ _ _ Hl) at 1. }
  assert (forall m, m <= cur l -> sends_upto m (drop (S i) (send_history c bs)) = []) as Hafter.
  { intros m Hm. unfold sends_upto. apply list_filter_none. intros j x Hx. rewrite lookup_drop in Hx.
    pose proof (send_history_sorted c bs i (S i + j) l x Hl Hx). lia. }
  assert (sends_upto (cur l) (take i (send_history c bs)) = sends_upto n (take i (send_history c bs))) as Hbefore.
  { apply sends_upto_skip; [lia|]. intros x Hx Hbad. apply list_elem_of_lookup in Hx as [j Hj].
    apply lookup_take_Some in Hj as [Hj Hji].
    destruct (send_interval_empty c bs i l x Hh Hl) as [H|H]; [by apply list_elem_of_lookup_2 in Hj|lia|].
    pose proof (send_history_sorted c bs j i x l Hj Hl Hji). lia. }
  rewrite !Hsplit, Hbefore. unfold sends_upto at 2 4. rewrite filter_cons_True, filter_cons_False by lia.
  fold (sends_upto (cur l) (drop (S i) (send_history c bs))) (sends_upto n (drop (S i) (send_history c bs))).
  rewrite !Hafter by lia. by rewrite app_nil_r.
Qed.

(** ** What an accepted step says *)

(** The facts of an accepted send. *)
Record send_facts (p : BalancePublicInputs) (w : SendTxWitness) (p' : BalancePublicInputs) : Prop := {
  sf_channel : TxSettlement.channel_id (SendTxWitness.tx_settlement w) = BalancePublicInputs.channel_id p;
  sf_public : UpdatePublicState.new (SendTxWitness.update_public_state w)
    = TxSettlement.public_state (SendTxWitness.tx_settlement w);
  sf_before : U63.as_u64 (TxSettlement.send_block_number_before_tx (SendTxWitness.tx_settlement w))
    <= U63.as_u64 (BalancePublicInputs.block_r p);
  sf_spend : exists pis, TxSettlement.spend_pis (SendTxWitness.tx_settlement w) = Ok pis /\
    SpendPublicInputs.prev_private_commitment pis = BalancePublicInputs.private_commitment p /\
    BalancePublicInputs.private_commitment p' =
      (if SpendPublicInputs.is_valid pis then SpendPublicInputs.new_private_commitment pis
       else BalancePublicInputs.private_commitment p);
  sf_channel' : BalancePublicInputs.channel_id p' = BalancePublicInputs.channel_id p;
  sf_block_r : BalancePublicInputs.block_r p' =
    (if spend_valid (SendTxWitness.tx_settlement w)
     then TxSettlement.tx_block_number (SendTxWitness.tx_settlement w) else BalancePublicInputs.block_r p);
  sf_chain : BalancePublicInputs.settled_tx_chain p' =
    (let aux := Transfer.aux_data (TransferWitness.transfer (SendTxWitness.transfer_witness w)) in
     if spend_valid (SendTxWitness.tx_settlement w) && negb (bool_decide (aux = bytes32_default))
     then settled_tx_chain_push (BalancePublicInputs.settled_tx_chain p) aux
     else BalancePublicInputs.settled_tx_chain p);
}.

Lemma send_inv p w p' vd :
  proves (SendTxWitness.prev_balance_proof w) p -> SendTxWitness.to_public_inputs w = Ok (p', vd) -> send_facts p w p'.
Proof.
  intros [vd0 Hp] Hs. unfold SendTxWitness.to_public_inputs in Hs. rewrite Hp in Hs.
  cbn [map_err mbind res_bind] in Hs. simplify_res. unfold u63_ltb in *. simplify_bool.
  match goal with H : TxSettlement.spend_pis _ = Ok ?x |- _ => rename x into pis; rename H into Hpis end.
  destruct (SpendPublicInputs.is_valid pis) eqn:Hv; injection Hs as <- _;
    (split; rewrite ?Hpis; [done|done|lia|exists pis; rewrite Hv; by split_and!|done|..]);
    unfold spend_valid; by rewrite Hpis, Hv.
Qed.

Lemma phash_bytes_any_error {E E'} (h : PHash) b :
  phash_into_bytes32 (E := E) h = Ok b -> phash_into_bytes32 (E := E') h = Ok b.
Proof.
  unfold phash_into_bytes32, words_into_bytes32, limbs_try_into. destruct (decide _); [|done]. by intros [= ->].
Qed.

(** The facts of an accepted receive of a transfer. *)
Record receive_transfer_facts (p : BalancePublicInputs) (w : ReceiveTransferWitness) (p' : BalancePublicInputs)
    : Prop := {
  rf_sender : exists sender, proves (ReceiveTransferWitness.sender_balance_proof w) sender /\
    TxSettlement.channel_id (ReceiveTransferWitness.tx_settlement w) = BalancePublicInputs.channel_id sender /\
    U63.as_u64 (TxSettlement.send_block_number_before_tx (ReceiveTransferWitness.tx_settlement w))
      <= U63.as_u64 (BalancePublicInputs.block_r sender)
      < U63.as_u64 (TxSettlement.tx_block_number (ReceiveTransferWitness.tx_settlement w)) /\
    exists pis, TxSettlement.spend_pis (ReceiveTransferWitness.tx_settlement w) = Ok pis /\
      SpendPublicInputs.is_valid pis = true /\
      SpendPublicInputs.prev_private_commitment pis = BalancePublicInputs.private_commitment sender;
  rf_account : AccountState.channel_id (ReceiveTransferWitness.account_state w) = BalancePublicInputs.channel_id p;
  rf_root : AccountState.account_tree_root (ReceiveTransferWitness.account_state w) =
    PublicState.account_tree_root (UpdatePublicState.new (ReceiveTransferWitness.receiver_update_public_state w));
  rf_public : TxSettlement.public_state (ReceiveTransferWitness.tx_settlement w) =
    UpdatePublicState.new (ReceiveTransferWitness.receiver_update_public_state w);
  rf_window : receive_window ReceiveBlockNumberError (ReceiveTransferWitness.account_state w)
    (UpdatePublicState.new (ReceiveTransferWitness.receiver_update_public_state w))
    (BalancePublicInputs.block_r p) (ReceiveTransferWitness.new_block_r w) = Ok tt;
  rf_settled : U63.as_u64 (TxSettlement.tx_block_number (ReceiveTransferWitness.tx_settlement w))
    <= U63.as_u64 (ReceiveTransferWitness.new_block_r w);
  rf_recipient : calculate_recipient_from_user_id (E := unit) (BalancePublicInputs.channel_id p)
      (ReceiveTransferWitness.transfer_salt w)
    = Ok (Transfer.recipient (TransferWitness.transfer (ReceiveTransferWitness.transfer_witness w)));
  rf_transfer : TransferWitness.transfer_tree_root (ReceiveTransferWitness.transfer_witness w)
    = Tx.transfer_tree_root (TxSettlement.tx (ReceiveTransferWitness.tx_settlement w));
  rf_update : let t := TransferWitness.transfer (ReceiveTransferWitness.transfer_witness w) in
    let u := ReceiveTransferWitness.update_private_state w in
    UpdatePrivateState.token_index u = Transfer.token_index t /\ UpdatePrivateState.amount u = Transfer.amount t /\
    SettledTransfer.nullifier (E := unit)
      (SettledTransfer.mk t (TxSettlement.channel_id (ReceiveTransferWitness.tx_settlement w))
         (TransferWitness.transfer_index (ReceiveTransferWitness.transfer_witness w))
         (Tx.nonce (TxSettlement.tx (ReceiveTransferWitness.tx_settlement w)))) = Ok (UpdatePrivateState.nullifier u) /\
    PrivateState.commitment (UpdatePrivateState.prev_private_state u) = BalancePublicInputs.private_commitment p /\
    PrivateState.commitment (UpdatePrivateState.new_private_state u) = BalancePublicInputs.private_commitment p';
  rf_channel' : BalancePublicInputs.channel_id p' = BalancePublicInputs.channel_id p;
  rf_block_r' : BalancePublicInputs.block_r p' = ReceiveTransferWitness.new_block_r w;
}.

Lemma receive_transfer_inv p w p' vd :
  proves (ReceiveTransferWitness.prev_balance_proof w) p ->
  ReceiveTransferWitness.to_public_inputs w = Ok (p', vd) -> receive_transfer_facts p w p'.
Proof.
  intros [vd0 Hp] Hs. unfold ReceiveTransferWitness.to_public_inputs in Hs. rewrite Hp in Hs.
  cbn [map_err mbind res_bind] in Hs. simplify_res.
  match goal with x : (BalancePublicInputs * VerifierData)%type |- _ => destruct x as [sender vds] end.
  simplify_res. unfold u63_ltb, u63_leb in *. simplify_bool. injection Hs as <- _.
  match goal with H : calculate_recipient_from_user_id _ _ = Ok _ |- _ => apply (recipient_any_error (E' := unit)) in H end.
  match goal with H : SettledTransfer.nullifier _ = Ok _ |- _ => apply (phash_bytes_any_error (E' := unit)) in H end.
  split; try done.
  - exists sender. split; [by eexists|]. split; [done|]. split; [lia|]. by eexists.
  - congruence.
  - cbn zeta. subst. split_and!; try done. rewrite Hr6. done.
Qed.

(** The facts of an accepted receive of a deposit. *)
Record receive_deposit_facts (p : BalancePublicInputs) (w : ReceiveDepositWitness) (p' : BalancePublicInputs)
    : Prop := {
  df_account : AccountState.verify (ReceiveDepositWitness.account_state w) = Ok tt;
  df_channel : AccountState.channel_id (ReceiveDepositWitness.account_state w) = BalancePublicInputs.channel_id p;
  df_root : AccountState.account_tree_root (ReceiveDepositWitness.account_state w) =
    PublicState.account_tree_root (UpdatePublicState.new (ReceiveDepositWitness.update_public_state w));
  df_deposit : DepositWitness.verify (ReceiveDepositWitness.deposit_witness w) = Ok tt;
  df_deposit_channel : DepositWitness.channel_id (ReceiveDepositWitness.deposit_witness w)
    = BalancePublicInputs.channel_id p;
  df_deposit_root : DepositWitness.deposit_tree_root (ReceiveDepositWitness.deposit_witness w) =
    PublicState.deposit_tree_root (UpdatePublicState.new (ReceiveDepositWitness.update_public_state w));
  df_window : receive_window DepositBlockNumberError (ReceiveDepositWitness.account_state w)
    (UpdatePublicState.new (ReceiveDepositWitness.update_public_state w))
    (BalancePublicInputs.block_r p) (ReceiveDepositWitness.new_block_r w) = Ok tt;
  df_settled : U63.as_u64 (Deposit.block_number (DepositWitness.deposit (ReceiveDepositWitness.deposit_witness w)))
    <= U63.as_u64 (ReceiveDepositWitness.new_block_r w);
  df_update : let d := DepositWitness.deposit (ReceiveDepositWitness.deposit_witness w) in
    let u := ReceiveDepositWitness.update_private_state w in
    UpdatePrivateState.token_index u = Deposit.token_index d /\ UpdatePrivateState.amount u = Deposit.amount d /\
    Deposit.nullifier (E := unit) d = Ok (UpdatePrivateState.nullifier u) /\
    PrivateState.commitment (UpdatePrivateState.prev_private_state u) = BalancePublicInputs.private_commitment p /\
    PrivateState.commitment (UpdatePrivateState.new_private_state u) = BalancePublicInputs.private_commitment p';
  df_chain : BalancePublicInputs.settled_tx_chain p' =
    settled_tx_chain_push (BalancePublicInputs.settled_tx_chain p)
      (UpdatePrivateState.nullifier (ReceiveDepositWitness.update_private_state w));
  df_channel' : BalancePublicInputs.channel_id p' = BalancePublicInputs.channel_id p;
  df_block_r' : BalancePublicInputs.block_r p' = ReceiveDepositWitness.new_block_r w;
}.

Lemma receive_deposit_inv p w p' vd :
  proves (ReceiveDepositWitness.prev_balance_proof w) p ->
  ReceiveDepositWitness.to_public_inputs w = Ok (p', vd) -> receive_deposit_facts p w p'.
Proof.
  intros [vd0 Hp] Hs. unfold ReceiveDepositWitness.to_public_inputs in Hs. rewrite Hp in Hs.
  cbn [map_err mbind res_bind] in Hs. simplify_res. unfold u63_ltb, u63_leb in *. simplify_bool. injection Hs as <- _.
  match goal with H : Deposit.nullifier _ = Ok ?x |- _ => rename x into nf; rename H into Hnf end.
  split; try done; cbn zeta; subst; try done. split_and!; try done. by eapply phash_bytes_any_error.
Qed.

(** ** The invariant of the system *)

Lemma send_system c s p sent w p' :
  system_inv c s p sent -> send_step s p w p' ->
  system_inv c s p' (if spend_valid (SendTxWitness.tx_settlement w)
                     then sent ++ [settled_leaf (SendTxWitness.tx_settlement w)] else sent).
Proof.
  intros [Hs Hc Hr ->] [Hprev [vd Hok] Hbuilt Hshape Hpub Hlt]. destruct (send_inv p w p' vd Hprev Hok).
  destruct (settlement_sound (blocks s) (SendTxWitness.tx_settlement w)) as ([i Hi] & _); [done|done| |].
  { by rewrite <- sf_public0, Hpub. }
  rewrite sf_channel0, Hc in Hi. pose proof (send_history_range c (blocks s)) as Hrange.
  rewrite Forall_lookup in Hrange. specialize (Hrange _ _ Hi). cbn beta in Hrange.
  pose proof (inv_blocks _ Hs) as Hlen. unfold TxSettlement.tx_block_number in *.
  pose proof (send_history_prev c (blocks s) i _ Hi) as Hpi.
  split; [done|congruence|rewrite sf_block_r0; destruct (spend_valid _); lia|]. rewrite sf_block_r0.
  destruct (spend_valid _); [|done]. symmetry. eapply sends_upto_next; [by apply Hs|done|].
  unfold TxSettlement.send_block_number_before_tx in *. lia.
Qed.

Lemma receive_transfer_system c s p sent w p' :
  system_inv c s p sent -> receive_transfer_step s p w p' -> system_inv c s p' sent.
Proof.
  intros Hi [Hprev [vd Hok] Hacc Hshape Hpub Hnew]. destruct (receive_transfer_inv p w p' vd Hprev Hok).
  pose proof (sys_ledger_inv _ _ _ _ Hi) as Hs. pose proof (sys_channel _ _ _ _ Hi) as Hc.
  rewrite Hpub in *. eapply receive_window_sound in rf_window0 as [Hr Hno];
    [|by apply Hs|done|done|exact rf_root0|lia].
  rewrite public_view_number in Hr by done. rewrite rf_account0, Hc in Hno.
  apply system_receive with p; [done|congruence| |]; by rewrite rf_block_r'0.
Qed.

Lemma receive_deposit_system c s p sent w p' :
  system_inv c s p sent -> receive_deposit_step s p w p' -> system_inv c s p' sent.
Proof.
  intros Hi [Hprev [vd Hok] Hshape Hdshape Hpub Hnew]. destruct (receive_deposit_inv p w p' vd Hprev Hok).
  pose proof (sys_ledger_inv _ _ _ _ Hi) as Hs. pose proof (sys_channel _ _ _ _ Hi) as Hc.
  rewrite Hpub in *. eapply receive_window_sound in df_window0 as [Hr Hno];
    [|by apply Hs|done|done|exact df_root0|lia].
  rewrite public_view_number in Hr by done. rewrite df_channel0, Hc in Hno.
  apply system_receive with p; [done|congruence| |]; by rewrite df_block_r'0.
Qed.

Lemma init_system c counts salt p :
  Forall (in_width 32) counts -> BalancePublicInputs.new (E := unit) c salt = Ok p -> system_inv c (new counts) p [].
Proof.
  intros Hc Hp. unfold BalancePublicInputs.new in Hp. simplify_res.
  split; [by apply new_ledger_inv|reflexivity|cbn [BalancePublicInputs.block_r block_number new]; cbn; lia|].
  cbn. unfold takes_part. cbn. by rewrite andb_false_r.
Qed.

Lemma system_sends_exact c s p sent : system c s p sent -> system_inv c s p sent.
Proof.
  induction 1 as [|s p sent op s' r _ IH Hty Hop Hr| | |].
  - by eapply init_system.
  - destruct (op_keeps_inv s op s' r (sys_ledger_inv _ _ _ _ IH) Hty Hop Hr). by eapply system_ledger.
  - by apply send_system with p.
  - by eapply receive_transfer_system.
  - by eapply receive_deposit_system.
Qed.

(** ** A send can always be proved *)

(** The proof a full tree gives for one position. *)
Definition tree_proof (f : Z -> PHash) (h : nat) (i : Z) : MerkleProof :=
  mkMerkleProof (Hs := PoseidonLeafableHasher) (sibling_path (Hs := PoseidonLeafableHasher) f 0 h i).

Lemma tree_proof_height f h i : proof_height (tree_proof f h i) = h.
Proof. apply sibling_path_length. Qed.

Lemma tree_proof_verifies {V} {L : Leafable V} f h i (leaf : V) :
  (h < 64)%nat -> 0 <= i < 2 ^ Z.of_nat h -> f i = leaf_hash leaf ->
  proof_verify (tree_proof f h i) leaf i (subtree (Hs := PoseidonLeafableHasher) f h 0) = Ok tt.
Proof.
  intros Hh Hi Hf. apply proof_verify_Ok. rewrite tree_proof_height. split.
  - apply index_in_domain_spec; [by apply (Incremental.in_width_64_small h)|done].
  - rewrite <- Hf. pose proof (path_root_sibling_path (Hs := PoseidonLeafableHasher) f 0 h i) as Hpr.
    cbn [subtree Nat.add] in Hpr. cbn [tree_proof siblings]. rewrite Hpr by lia. by rewrite div_pow_small.
Qed.

(** The account state of channel [c] that shows its [i]-th send. *)
Definition account_state_of (bs : list Block) (c : ChannelId) (i : nat) : AccountState :=
  let hist := send_history c bs in
  AccountState.mk c (account_root bs) (default SendLeaf.default (hist !! i)) (Z.of_nat i)
    (tree_proof (list_leaves hist) SEND_TREE_HEIGHT (Z.of_nat i)) (channel_summary hist)
    (tree_proof (fun c => leaf_hash (channel_summary (send_history c bs))) CHANNEL_TREE_HEIGHT c).

Lemma account_state_of_ok bs c i :
  in_width 32 c -> Z.of_nat i < 2 ^ 32 ->
  account_shape (account_state_of bs c i) /\ AccountState.verify (account_state_of bs c i) = Ok tt.
Proof.
  intros Hc Hi. pose proof send_tree_height as Hsh. pose proof channel_tree_height as Hch.
  unfold account_shape, AccountState.verify. cbn [account_state_of AccountState.channel_id
    AccountState.account_tree_root AccountState.send_leaf AccountState.send_leaf_index
    AccountState.send_merkle_proof AccountState.channel_leaf AccountState.user_merkle_proof channel_summary
    ChannelLeaf.send_tree_root].
  rewrite !tree_proof_height. split; [unfold in_width in *; split_and!; done || lia|].
  rewrite (tree_proof_verifies (V := SendLeaf)) by (unfold list_leaves; rewrite ?Nat2Z.id, ?Hsh; done || lia).
  cbn [map_err mbind res_bind].
  by rewrite (tree_proof_verifies (V := ChannelLeaf)) by (rewrite ?Hch; done || lia).
Qed.

Lemma ensure_decided {E} (Q : Prop) `{!Decision Q} (e : E) : Q -> ensure (bool_decide Q) e = Ok tt.
Proof. intros HQ. by rewrite bool_decide_eq_true_2. Qed.

(** The witness that shows a deposit of the ledger to its recipient. *)
Definition deposit_witness_of (ds : list Deposit) (c : ChannelId) (salt : PHash) (d : Deposit) : DepositWitness :=
  DepositWitness.mk c (deposit_root ds) salt d
    (tree_proof (list_leaves ds) DEPOSIT_TREE_HEIGHT (U63.as_u64 (Deposit.deposit_index d))).

Lemma deposit_witness_of_ok {E} ds c salt d i :
  ds !! i = Some d -> U63.as_u64 (Deposit.deposit_index d) = Z.of_nat i -> Z.of_nat i < 2 ^ 63 ->
  calculate_recipient_from_user_id (E := E) c salt = Ok (Deposit.recipient d) ->
  deposit_shape (deposit_witness_of ds c salt d) /\ DepositWitness.verify (deposit_witness_of ds c salt d) = Ok tt.
Proof.
  intros Hd Hi Hlt Hrec. pose proof deposit_tree_height as Hh. unfold deposit_shape, DepositWitness.verify.
  cbn [deposit_witness_of DepositWitness.deposit DepositWitness.deposit_merkle_proof DepositWitness.deposit_tree_root
    DepositWitness.channel_id DepositWitness.deposit_salt].
  rewrite Hi, tree_proof_height. split; [split; [lia|done]|].
  rewrite (proj2 (Z.ltb_lt _ _)) by (rewrite shl64_eq, Hh by lia; lia). cbn [ensure mbind res_bind].
  unfold deposit_root. rewrite (tree_proof_verifies (V := Deposit)); [|lia|rewrite Hh; lia|].
  - cbn [map_err mbind res_bind]. rewrite (recipient_any_error _ _ _ Hrec). by apply ensure_decided.
  - unfold list_leaves. by rewrite Nat2Z.id, Hd.
Qed.

(** The next send of a channel, whose transaction is in the block's tree and whose spend proof starts
    from the channel's commitment, has an accepted step. *)
Record sendable (c : ChannelId) (p : BalancePublicInputs) (l : SendLeaf) (tx : Tx) (sp : SpendProof)
    (pis : SpendPublicInputs) (txp : MerkleProof) (tw : TransferWitness) : Prop := {
  sd_channel : BalancePublicInputs.channel_id p = c;
  sd_window : U63.as_u64 (SendLeaf.prev l) <= U63.as_u64 (BalancePublicInputs.block_r p) < cur l;
  sd_spend : spend_verify sp = true;
  sd_pis : spend_pis_from_u64 (spend_public_inputs sp) = Ok pis;
  sd_commitment : SpendPublicInputs.prev_private_commitment pis = BalancePublicInputs.private_commitment p;
  sd_tx : SpendPublicInputs.tx pis = tx;
  sd_included : proof_verify txp tx c (reduce_to_hash_out (SendLeaf.tx_tree_root l)) = Ok tt;
  sd_transfer_index : TransferWitness.transfer_index tw = 0;
  sd_transfer_root : TransferWitness.transfer_tree_root tw = Tx.transfer_tree_root tx;
  sd_transfer : TransferWitness.verify tw = Ok tt;
}.

Definition settlement_of (s : FullPublicState) (c : ChannelId) (i : nat) (tx : Tx) (sp : SpendProof)
    (txp : MerkleProof) : TxSettlement :=
  TxSettlement.mk c tx (public_view s) (account_state_of (blocks s) c i) txp None None sp.

Definition send_witness (b : BalanceProof) (p : BalancePublicInputs) (s : FullPublicState) (t : TxSettlement)
    (tw : TransferWitness) : SendTxWitness :=
  SendTxWitness.mk b
    (UpdatePublicState.mk (public_view s) (BalancePublicInputs.public_state p)
       (proof_dummy (Hs := PoseidonLeafableHasher) PUBLIC_STATE_TREE_HEIGHT)) t tw.

Lemma settlement_of_built s c i l tx sp pis txp tw p :
  in_width 32 c -> Z.of_nat i < 2 ^ 32 -> send_history c (blocks s) !! i = Some l ->
  sendable c p l tx sp pis txp tw -> settlement_built (settlement_of s c i tx sp txp).
Proof.
  intros Hc Hi Hl []. destruct (account_state_of_ok (blocks s) c i Hc Hi) as [_ Hv].
  unfold settlement_built, TxSettlement.new_with_optional_tx_v2, TxSettlement.verify_inclusion.
  cbn [settlement_of TxSettlement.spend_proof TxSettlement.account_state TxSettlement.channel_id
    TxSettlement.public_state TxSettlement.tx TxSettlement.tx_merkle_proof TxSettlement.tx_v2_merkle_proof
    TxSettlement.tx_v2].
  rewrite sd_spend0, Hv. cbn [ensure map_err mbind res_bind account_state_of AccountState.channel_id
    AccountState.account_tree_root AccountState.send_leaf].
  rewrite Z.eqb_refl, bool_decide_eq_true_2 by done. cbn [ensure mbind res_bind].
  rewrite Hl. cbn [from_option id]. rewrite sd_included0, sd_pis0. cbn [map_err mbind res_bind].
  by rewrite bool_decide_eq_true_2.
Qed.

Lemma send_progress_step s c i l tx sp pis txp tw b p :
  ledger_inv s -> in_width 32 c -> Z.of_nat i < 2 ^ 32 -> send_history c (blocks s) !! i = Some l ->
  proves b p -> sendable c p l tx sp pis txp tw ->
  exists p', send_step s p (send_witness b p s (settlement_of s c i tx sp txp) tw) p'.
Proof.
  intros Hs Hc Hi Hl [vd Hb] Hsd. pose proof (settlement_of_built _ _ _ _ _ _ _ _ _ _ Hc Hi Hl Hsd) as Hbuilt.
  destruct (account_state_of_ok (blocks s) c i Hc Hi) as [Hshape _]. destruct Hsd.
  set (w := send_witness _ _ _ _ _).
  assert (exists p', SendTxWitness.to_public_inputs w = Ok (p', vd)) as [p' Hok].
  { unfold SendTxWitness.to_public_inputs, TxSettlement.spend_pis, TxSettlement.tx_block_number,
      TxSettlement.send_block_number_before_tx.
    cbn [w send_witness settlement_of SendTxWitness.prev_balance_proof SendTxWitness.update_public_state
      SendTxWitness.tx_settlement SendTxWitness.transfer_witness UpdatePublicState.old UpdatePublicState.new
      TxSettlement.public_state TxSettlement.channel_id TxSettlement.spend_proof TxSettlement.account_state
      TxSettlement.tx account_state_of AccountState.send_leaf].
    rewrite Hb, sd_pis0, Hl, sd_transfer_index0, sd_transfer0. cbn [map_err mbind res_bind from_option id].
    rewrite sd_channel0.
    rewrite !ensure_decided, !Z.eqb_refl by done. unfold u63_ltb. cbn [ensure mbind res_bind].
    rewrite !(proj2 (Z.ltb_ge _ _)) by lia. cbn [ensure negb mbind res_bind].
    destruct (SpendPublicInputs.is_valid pis); by eexists. }
  exists p'. split; [by exists vd|by exists vd|done|done|done|].
  unfold TxSettlement.tx_block_number.
  cbn [w send_witness settlement_of SendTxWitness.tx_settlement TxSettlement.account_state account_state_of
    AccountState.send_leaf]. rewrite Hl. cbn. lia.
Qed.

(** ** A deposit can always be received *)

(** What the recipient of a deposit needs: a proof that already refers to the ledger, an open window
    up to a block that settles the deposit, and a private update for it. *)
Record receivable (s : FullPublicState) (c : ChannelId) (p : BalancePublicInputs) (k : nat) (r : BlockNumber)
    (salt : PHash) (d : Deposit) (u : UpdatePrivateState) : Prop := {
  rc_channel : BalancePublicInputs.channel_id p = c;
  rc_public : BalancePublicInputs.public_state p = public_view s;
  rc_window : receive_window DepositBlockNumberError (account_state_of (blocks s) c k) (public_view s)
    (BalancePublicInputs.block_r p) r = Ok tt;
  rc_settled : U63.as_u64 (Deposit.block_number d) <= U63.as_u64 r < 2 ^ 63;
  rc_recipient : calculate_recipient_from_user_id (E := unit) c salt = Ok (Deposit.recipient d);
  rc_token : UpdatePrivateState.token_index u = Deposit.token_index d;
  rc_amount : UpdatePrivateState.amount u = Deposit.amount d;
  rc_nullifier : Deposit.nullifier (E := unit) d = Ok (UpdatePrivateState.nullifier u);
  rc_commitment : PrivateState.commitment (UpdatePrivateState.prev_private_state u)
    = BalancePublicInputs.private_commitment p;
}.

Definition deposit_receipt (s : FullPublicState) (c : ChannelId) (b : BalanceProof) (k : nat) (r : BlockNumber)
    (salt : PHash) (d : Deposit) (u : UpdatePrivateState) : ReceiveDepositWitness :=
  ReceiveDepositWitness.mk b
    (UpdatePublicState.mk (public_view s) (public_view s)
       (proof_dummy (Hs := PoseidonLeafableHasher) PUBLIC_STATE_TREE_HEIGHT)) r
    (account_state_of (blocks s) c k) (deposit_witness_of (deposits s) c salt d) u.

Lemma deposit_progress_step s c p b k r salt d i u :
  ledger_inv s -> in_width 32 c -> Z.of_nat k < 2 ^ 32 -> proves b p -> deposits s !! i = Some d ->
  receivable s c p k r salt d u ->
  exists p', receive_deposit_step s p (deposit_receipt s c b k r salt d u) p'.
Proof.
  intros Hs Hc Hk [vd Hb] Hd []. destruct (inv_deposit _ Hs i d Hd) as [Hi Hst].
  assert (Z.of_nat i < 2 ^ 63) as Hi63.
  { apply lookup_lt_Some in Hd. destruct (inv_deposit_tree _ Hs) as (_ & _ & Hcap).
    rewrite (inv_deposit_height _ Hs), deposit_tree_height, (inv_deposit_leaves _ Hs) in Hcap. lia. }
  destruct (deposit_witness_of_ok (deposits s) c salt d i Hd Hi Hi63 rc_recipient0) as [Hds Hdv].
  destruct (account_state_of_ok (blocks s) c k Hc Hk) as [Has Hav].
  set (w := deposit_receipt _ _ _ _ _ _ _ _).
  assert (exists p', ReceiveDepositWitness.to_public_inputs w = Ok (p', vd)) as [p' Hok].
  { unfold ReceiveDepositWitness.to_public_inputs, UpdatePublicState.verify.
    cbn [w deposit_receipt ReceiveDepositWitness.prev_balance_proof ReceiveDepositWitness.update_public_state
      ReceiveDepositWitness.new_block_r ReceiveDepositWitness.account_state ReceiveDepositWitness.deposit_witness
      ReceiveDepositWitness.update_private_state UpdatePublicState.new UpdatePublicState.old].
    rewrite Hb. cbn [map_err mbind res_bind].
    rewrite (bool_decide_eq_true_2 (public_view s = public_view s) eq_refl). cbn [map_err mbind res_bind].
    rewrite Hav, Hdv, rc_channel0, rc_public0. unfold Deposit.nullifier.
    cbn [map_err mbind res_bind deposit_witness_of account_state_of DepositWitness.channel_id
      DepositWitness.deposit DepositWitness.deposit_tree_root AccountState.channel_id AccountState.account_tree_root].
    rewrite (phash_bytes_any_error _ _ rc_nullifier0), rc_token0, rc_amount0, rc_commitment0.
    cbn [mbind res_bind].
    fold (account_state_of (blocks s) c k). rewrite !ensure_decided, !Z.eqb_refl by done.
    cbn [ensure mbind res_bind]. rewrite rc_window0. unfold u63_ltb. cbn [mbind res_bind].
    rewrite (proj2 (Z.ltb_ge _ _)) by lia. cbn [negb ensure mbind res_bind]. by eexists. }
  exists p'. split; [by exists vd|by exists vd|done|done|done|cbn; lia].
Qed.

End system.
