(* ===== verification/BalanceCodec.v ===== *)
(** * Encodings of the balance layer

    The word layout of the public inputs that one balance proof hands to the
    next, and the canonical form of a withdrawal recipient: what the writers
    produce the readers give back, and a reader accepts nothing else. *)

From S2P Require Import Prelude Limbs U63 Circuit MerkleTree LeafTrees Poseidon IndexedTree Keccak Regev BalanceState Account AccountProps Ledger LedgerProps Balance BalanceProps.

(** ** Recipients *)

(** The address a recipient would hold: its last five limbs. *)
Lemma tail_address (r : Bytes32) : limbs_wfb ADDRESS_LEN (drop 3 (limbs r)) = true.
Proof.
  apply limbs_wfb_spec. rewrite length_drop, limbs_length. split; [done|].
  apply Forall_drop, limbs_u32.
Qed.

Definition address_part (r : Bytes32) : Address := mkLimbs _ (tail_address r).

Lemma address_bytes (r : Bytes32) : slice 12 32 (to_bytes_be r) = to_bytes_be (address_part r).
Proof.
  unfold slice, to_bytes_be. cbn [limbs address_part]. pose proof (limbs_length r) as Hl.
  destruct (limbs r) as [|a0 [|a1 [|a2 [|a3 [|a4 [|a5 [|a6 [|a7 [|]]]]]]]]]; done.
Qed.

Lemma recipient_from_address {E} (a : Address) :
  exists r, calculate_recipient_from_address (E := E) a = Ok r /\
    limbs r = tag_limb ADDRESS_TAG 0 :: 0 :: 0 :: limbs a.
Proof.
  unfold calculate_recipient_from_address, to_u32_vec.
  assert (limbs_wfb BYTES32_LEN (replicate 3 0 ++ limbs a) = true) as Hwf.
  { apply limbs_wfb_spec. rewrite length_app, limbs_length. split; [done|].
    apply Forall_app_2; [by apply Forall_replicate|apply limbs_u32]. }
  pose proof (from_u32_slice_limbs BYTES32_LEN (mkLimbs _ Hwf)) as Hid. cbn [limbs] in Hid. rewrite Hid.
  cbn [expect mbind res_bind].
  by destruct (tag_recipient_spec (E := E) ADDRESS_TAG (mkLimbs _ Hwf)) as (r & -> & Hr); [|exists r].
Qed.

Lemma address_part_unique (a : Address) r :
  limbs r = tag_limb ADDRESS_TAG 0 :: 0 :: 0 :: limbs a -> address_part r = a.
Proof. intros H. apply Limbs_eq. cbn [address_part limbs]. by rewrite H. Qed.

(** Reading the address back, without the machinery: the tag and the padding decide. *)
Lemma extract_address_eq r :
  extract_address_from_recipient r =
  (if bool_decide (take 3 (limbs r) = [tag_limb ADDRESS_TAG 0; 0; 0]) then Ok (address_part r)
   else Err InvalidRecipient).
Proof.
  unfold extract_address_from_recipient. rewrite address_bytes, from_bytes_be_to_bytes_be.
  destruct (recipient_from_address (E := RecipientError) (address_part r)) as (r' & Hr' & Hl).
  pose proof (limbs_length r) as Hlen. pose proof (limbs_u32 r) as Hu.
  assert (r = r' <-> take 3 (limbs r) = [tag_limb ADDRESS_TAG 0; 0; 0]) as Hiff.
  { cbn [address_part limbs] in Hl. split; [intros ->; by rewrite Hl|intros H].
    apply Limbs_eq. rewrite Hl. rewrite <- (take_drop 3 (limbs r)) at 1. by rewrite H. }
  assert (exists tag, to_bytes_be r !! 0%nat = Some tag /\
    (r = r' -> tag = ADDRESS_TAG)) as (tag & Htag & Hta).
  { unfold to_bytes_be. destruct (limbs r) as [|x ls] eqn:Hx; [done|]. exists (wrap 8 (Z.shiftr x 24)).
    split; [done|]. intros ->. rewrite Hx in Hl. injection Hl as -> _. done. }
  rewrite Htag. cbn [unwrap expect mbind res_bind]. case_bool_decide as Hc.
  - rewrite (Hta (proj2 Hiff Hc)), Z.eqb_refl. cbn [ensure mbind res_bind]. rewrite Hr'. cbn [mbind res_bind].
    by rewrite bool_decide_eq_true_2 by by apply Hiff.
  - destruct (tag =? ADDRESS_TAG); [|done]. cbn [ensure mbind res_bind]. rewrite Hr'. cbn [mbind res_bind].
    by rewrite bool_decide_eq_false_2 by (intros H; by apply Hc, Hiff).
Qed.

(** Extraction is the inverse of the canonical form and accepts nothing else. *)
Lemma extract_address_spec r :
  match extract_address_from_recipient r with
  | Ok a => calculate_recipient_from_address (E := RecipientError) a = Ok r
  | Err _ => forall a, calculate_recipient_from_address (E := RecipientError) a <> Ok r
  | Panic => False
  end.
Proof.
  rewrite extract_address_eq. case_bool_decide as Hc.
  - destruct (recipient_from_address (E := RecipientError) (address_part r)) as (r' & -> & Hl). f_equal.
    apply Limbs_eq. rewrite Hl. rewrite <- (take_drop 3 (limbs r)). by rewrite Hc.
  - intros a Ha. destruct (recipient_from_address (E := RecipientError) a) as (r' & Hr & Hl).
    rewrite Ha in Hr. injection Hr as <-. apply Hc. by rewrite Hl.
Qed.

Lemma extract_from_address {E} a r :
  calculate_recipient_from_address (E := E) a = Ok r -> extract_address_from_recipient r = Ok a.
Proof.
  intros Ha. destruct (recipient_from_address (E := E) a) as (r' & Hr & Hl). rewrite Ha in Hr. injection Hr as <-.
  rewrite extract_address_eq, bool_decide_eq_true_2 by by rewrite Hl. f_equal. by apply address_part_unique.
Qed.

(** A channel's recipient is never an address. *)
Lemma user_recipient_no_address {P : Poseidon} {E} c salt r :
  calculate_recipient_from_user_id (E := E) c salt = Ok r -> extract_address_from_recipient r = Err InvalidRecipient.
Proof.
  intros Hr. unfold calculate_recipient_from_user_id in Hr. simplify_res.
  destruct (tag_recipient_spec (E := E) USER_ID_TAG r0) as (r' & Hr' & Hl); [done|].
  rewrite Hr in Hr'. injection Hr' as <-. rewrite extract_address_eq, bool_decide_eq_false_2; [done|].
  rewrite Hl. cbn. intros [= H _]. unfold tag_limb, USER_ID_TAG, ADDRESS_TAG in H. Z.div_mod_to_equations. lia.
Qed.

(** ** Public inputs *)

(** The words of a hash out can be read back: what the word format of hash outs promises the readers. *)
Class PoseidonReadable (P : Poseidon) (W : PoseidonWords P) : Prop := {
  phash_slice_roundtrip h : phash_from_u64_slice (phash_to_u64_vec h) = Ok h;
}.

(** Four canonical words are enough. *)
#[export] Instance words_ok_readable {P : Poseidon} {W : PoseidonWords P} {WO : PoseidonWordsOk P W} : PoseidonReadable P W.
Proof.
  split. intros h. unfold phash_from_u64_slice. rewrite phash_words_length, bool_decide_eq_false_2 by (by intros []).
  rewrite (proj2 (PoseidonHashOut_lemmas.position_noncanonical_None 0 _)); [by rewrite phash_from_to|].
  eapply Forall_impl; [|apply phash_canonical]. cbn. lia.
Qed.

Section codec.
Context {P : Poseidon} {W : PoseidonWords P} {PR : PoseidonReadable P W}.

Lemma readable_length h : length (phash_to_u64_vec h) = 4%nat.
Proof.
  pose proof (phash_slice_roundtrip h) as H. unfold phash_from_u64_slice in H.
  by destruct (decide (length (phash_to_u64_vec h) = POSEIDON_HASH_OUT_LEN)) as [|Hn];
    [|rewrite bool_decide_eq_true_2 in H].
Qed.

(** Reading four words where a hash out was written. *)
Lemma phash_slice_words h a b c d :
  phash_to_u64_vec h = [a; b; c; d] -> phash_from_u64_slice [a; b; c; d] = Ok h.
Proof. intros <-. apply phash_slice_roundtrip. Qed.

Lemma phash_words h : exists a b c d, phash_to_u64_vec h = [a; b; c; d].
Proof.
  pose proof (readable_length h) as Hl.
  destruct (phash_to_u64_vec h) as [|a [|b [|c [|d [|]]]]]; try done. by exists a, b, c, d.
Qed.

(** The ranges of the Rust types. *)
Definition public_state_typed (s : PublicState) : Prop :=
  0 <= U63.as_u64 (PublicState.block_number s) < 2 ^ 63 /\ in_width 64 (PublicState.timestamp s).

Definition balance_pis_typed (p : BalancePublicInputs) : Prop :=
  0 < BalancePublicInputs.channel_id p < 2 ^ 32 /\ public_state_typed (BalancePublicInputs.public_state p) /\
  0 <= U63.as_u64 (BalancePublicInputs.block_r p) < 2 ^ 63.

Lemma timestamp_roundtrip t :
  in_width 64 t -> exists u, Limbs.from_u64_slice U64_LEN (split_u64 t) = Ok u /\ U64.to_u64 u = t.
Proof.
  intros Ht. destruct (U64_theorems.from_u64_val (E := unit) t Ht) as (u & Hu & Hv). exists u.
  unfold U64.from_u64 in Hu. apply limbs_try_into_Ok in Hu. unfold split_u64. rewrite <- Hu.
  split; [apply from_u64_slice_to_u64_vec|by rewrite U64_theorems.to_u64_val].
Qed.

Lemma public_state_roundtrip (s : PublicState) :
  public_state_typed s -> public_state_from_u64_slice (PublicState.to_u64_vec s) = Ok s.
Proof.
  intros [Hn Ht]. unfold PublicState.to_u64_vec, U63.to_u64_vec, public_state_from_u64_slice.
  destruct (phash_words (PublicState.account_tree_root s)) as (a0 & a1 & a2 & a3 & Ha).
  destruct (phash_words (PublicState.deposit_tree_root s)) as (b0 & b1 & b2 & b3 & Hb).
  destruct (phash_words (PublicState.prev_public_state_root s)) as (c0 & c1 & c2 & c3 & Hc).
  rewrite Ha, Hb, Hc. destruct (timestamp_roundtrip _ Ht) as (u & Hu & Hut).
  unfold split_u64 in *. cbn [app length]. rewrite bool_decide_eq_false_2 by (by intros []).
  cbn [slice take drop Nat.sub lookup list_lookup unwrap mbind res_bind].
  rewrite u63_new_Ok by done. rewrite Hu. cbn [map_err mbind res_bind].
  rewrite (phash_slice_words _ _ _ _ _ Ha), (phash_slice_words _ _ _ _ _ Hb), (phash_slice_words _ _ _ _ _ Hc).
  cbn. rewrite Hut. by destruct s as [[] ? ? ? ?].
Qed.

Lemma public_state_words_length (s : PublicState) : length (PublicState.to_u64_vec s) = PUBLIC_STATE_U64_LEN.
Proof.
  unfold PublicState.to_u64_vec, U63.to_u64_vec, split_u64.
  by rewrite !length_app, !readable_length.
Qed.

Lemma slice_middle {A} (l1 l2 l3 : list A) n m :
  length l1 = n -> length l2 = (m - n)%nat -> slice n m (l1 ++ l2 ++ l3) = l2.
Proof. intros <- Hm. unfold slice. rewrite drop_app_length, <- Hm. apply take_app_length. Qed.

Lemma balance_pis_words_length (p : BalancePublicInputs) :
  length (BalancePublicInputs.to_u64_vec p) = BALANCE_PUBLIC_INPUTS_LEN.
Proof.
  unfold BalancePublicInputs.to_u64_vec, U63.to_u64_vec, Limbs.to_u64_vec, to_u32_vec.
  by rewrite !length_app, public_state_words_length, readable_length, limbs_length.
Qed.

Lemma balance_pis_roundtrip (p : BalancePublicInputs) :
  balance_pis_typed p -> BalancePublicInputs.from_u64 (BalancePublicInputs.to_u64_vec p) = Ok p.
Proof.
  intros (Hc & Hs & Hr). unfold BalancePublicInputs.from_u64.
  rewrite balance_pis_words_length, bool_decide_eq_false_2 by (by intros []).
  unfold BalancePublicInputs.to_u64_vec. set (ps := BalancePublicInputs.public_state p) in *.
  pose proof (public_state_words_length ps) as Hpl. pose proof (readable_length (BalancePublicInputs.private_commitment p)) as Hcl.
  set (sw := PublicState.to_u64_vec ps) in *. set (cw := phash_to_u64_vec (BalancePublicInputs.private_commitment p)) in *.
  set (bw := Limbs.to_u64_vec (BalancePublicInputs.settled_tx_chain p)).
  assert (length bw = 8%nat) as Hbl by apply limbs_length.
  unfold U63.to_u64_vec. set (r := U63.as_u64 (BalancePublicInputs.block_r p)) in *.
  set (c := BalancePublicInputs.channel_id p) in *.
  cbn [app lookup list_lookup unwrap mbind res_bind]. rewrite channel_id_new_Ok by done. cbn [map_err mbind res_bind].
  change (@cons ChannelId c (sw ++ r :: cw ++ bw)) with (@cons Z c (sw ++ r :: cw ++ bw)).
  pose proof (slice_middle (A := Z) [c] sw ([r] ++ cw ++ bw) 1 16 eq_refl Hpl) as Hsl. cbn [app] in Hsl. rewrite Hsl. pose proof (public_state_roundtrip ps Hs) as Hps. fold sw in Hps. rewrite Hps.
  cbn [map_err mbind res_bind].
  match goal with |- context [unwrap ?x] => replace x with (Some r) end.
  2: { change (Some r = (sw ++ r :: cw ++ bw) !! 15%nat). rewrite lookup_app_r by (rewrite Hpl; cbn; lia). by rewrite Hpl. }
  cbn [unwrap mbind res_bind]. rewrite u63_new_Ok by done. cbn [map_err mbind res_bind].
  replace (@cons Z c (sw ++ r :: cw ++ bw)) with ((@cons Z c (sw ++ [r])) ++ cw ++ bw) by (cbn; by rewrite <- app_assoc).
  rewrite (slice_middle _ cw bw 17 21) by (cbn [length]; rewrite ?length_app, ?Hpl, ?Hcl; reflexivity).
  pose proof (phash_slice_roundtrip (BalancePublicInputs.private_commitment p)) as Hcw. fold cw in Hcw. rewrite Hcw. cbn [expect mbind res_bind].
  replace (@cons Z c (sw ++ [r]) ++ cw ++ bw) with (@cons Z c ((sw ++ [r]) ++ cw) ++ bw ++ [])
    by (cbn; by rewrite app_nil_r, <- !app_assoc).
  rewrite (slice_middle _ bw [] 21 29) by (cbn [length]; rewrite ?length_app, ?Hpl, ?Hcl, ?Hbl; reflexivity).
  unfold bw. rewrite from_u64_slice_to_u64_vec. cbn. by destruct p as [? ? [] ? ?].
Qed.

(** A proof whose public inputs are the words of [p] and of a verifier key exposes [p]. *)
Lemma full_pis_roundtrip {BP : BalanceProofs} (p : BalancePublicInputs) vd :
  balance_pis_typed p -> length vd = VerifierData.vec_len num_cap_elements ->
  exists v, full_pis_from_u64_slice (BalancePublicInputs.to_u64_vec p ++ vd) = Ok (p, v).
Proof.
  intros Hp Hv. pose proof (balance_pis_words_length p) as Hl. unfold full_pis_from_u64_slice.
  rewrite length_app, Hl, Hv, bool_decide_eq_false_2 by (by intros []).
  pose proof (slice_middle [] (BalancePublicInputs.to_u64_vec p) vd 0 BALANCE_PUBLIC_INPUTS_LEN eq_refl Hl) as Hs.
  cbn [app] in Hs. rewrite Hs.
  rewrite balance_pis_roundtrip by done. cbn [mbind res_bind].
  replace (BalancePublicInputs.to_u64_vec p ++ vd) with (BalancePublicInputs.to_u64_vec p ++ vd ++ [])
    by by rewrite app_nil_r.
  rewrite (slice_middle _ vd []) by (rewrite ?Hl, ?Hv; lia). unfold VerifierData.from_pis_slice.
  rewrite (proj2 (Nat.ltb_ge _ _)); [by eexists|]. rewrite Hv. unfold VerifierData.vec_len. lia.
Qed.

Lemma tx_roundtrip (t : Tx) : in_width 32 (Tx.nonce t) -> tx_from_u64_slice (Tx.to_u64_vec t) = Ok t.
Proof.
  intros Hn. unfold Tx.to_u64_vec, tx_from_u64_slice.
  destruct (phash_words (Tx.transfer_tree_root t)) as (a & b & c & d & Hw). rewrite Hw. cbn [app length].
  rewrite bool_decide_eq_false_2 by (by intros []).
  cbn [slice take drop Nat.sub lookup list_lookup unwrap mbind res_bind].
  rewrite (phash_slice_words _ _ _ _ _ Hw). cbn [map_err mbind res_bind].
  rewrite (proj2 (Z.ltb_lt _ _)) by (unfold in_width in Hn; lia). by destruct t.
Qed.

End codec.
