(* ===== verification/LedgerScenario.v ===== *)
(** * A concrete ledger with its balance proofs

    A ledger with one deposit and one block of channel 1, the send step of
    that block, the receive of its transfer by channel 2 and the receive of
    the deposit.  Hashes are the collision-free [CodePoseidon]; the words of
    public inputs name the few roots the run needs through a table, and the
    proofs are the words they expose. *)

From S2P Require Import Prelude Limbs U63 Circuit MerkleTree LeafTrees Poseidon IndexedTree Keccak Regev BalanceState Account AccountProps AccountScenario Ledger LedgerProps Balance BalanceProps.

#[local] Remove Hints Leafable_Bytes32 : typeclass_instances.
Import FullPublicState.

(** ** Parameters *)

#[local] Existing Instance CodePoseidon.

Definition UnitKeccak : Keccak := {| solidity_keccak256 _ := bytes32_one |}.
#[local] Existing Instance UnitKeccak.

(** A proof is the list of words it exposes. *)
Definition WordProofs : BalanceProofs := {|
  BalanceProof := list Z;
  balance_public_inputs b := b;
  num_cap_elements := 0;
  SpendProof := list Z;
  spend_public_inputs b := b;
  spend_verify _ := true;
|}.
#[local] Existing Instance WordProofs.

Definition TailReceive : Features := {| authenticated_tail_receive := true |}.
#[local] Existing Instance TailReceive.

(** The roots that four-word values name. *)
Class table := { tx_root : Z; commitment0 : Z; transfer_root : Z; channel_root0 : Z; deposit_root0 : Z; state_root0 : Z }.

#[export] Instance TableWords {t : table} : PoseidonWords CodePoseidon := {|
  phash_from_elements l :=
    match l with
    | 1 :: _ => tx_root
    | 2 :: _ => commitment0
    | 4 :: _ => transfer_root
    | 5 :: _ => channel_root0
    | 6 :: _ => deposit_root0
    | 7 :: _ => state_root0
    | _ => 0
    end;
|}.

#[export] Instance TableWords_nonzero {t : table} : PoseidonNonzero CodePoseidon TableWords.
Proof. by split. Qed.

(** ** The ledger *)

Lemma one_count : Forall (in_width 32) [1].
Proof. constructor; [by split|constructor]. Qed.

(** Channel 1 takes part in the first block, after one deposit. *)
Lemma ledger_runs (recipient : Bytes32) :
  exists s0 s1 d, deposit_added (new [1]) d s0 /\
    d = next_deposit (new [1]) address_default recipient 0 u256_max bytes32_default /\
    apply_op (OpDeposit address_default recipient 0 u256_max bytes32_default) (new [1]) = (s0, Ok tt) /\
    apply_op (OpBlock 1 [1] 100 bytes32_one) s0 = (s1, Ok tt) /\
    ledger_inv s0 /\ ledger_inv s1 /\ block_added s0 1 1 [1] 100 bytes32_one s1.
Proof.
  pose proof (new_ledger_inv [1] ltac:(by repeat constructor)) as Hn.
  pose proof (add_deposit_cases (new [1]) address_default recipient 0 u256_max bytes32_default Hn) as Hd.
  cbn [apply_op].
  destruct (add_deposit address_default recipient 0 u256_max bytes32_default (new [1])) as [s0 [[]|e|]] eqn:Hs0.
  2: destruct Hd. 2: destruct Hd as [Hd|Hd]; discriminate Hd.
  destruct Hd as [Hi0 Hd]. pose proof Hd as (_ & Hb & _ & _ & _ & Hnum & Hcounts).
  destruct (add_block_Ok s0 1 1 [1] 100 bytes32_one Hi0) as (s1 & Hs1 & Hi1 & Hadd).
  1-3: unfold in_width; cbn [length]; lia.
  - rewrite Hnum. reflexivity.
  - rewrite Hcounts. reflexivity.
  - intros _. split; [lia|]. rewrite Hb. reflexivity.
  - exists s0, s1, (next_deposit (new [1]) address_default recipient 0 u256_max bytes32_default).
    split_and!; assumption || reflexivity.
Qed.

Lemma ledger_runs_reach s0 s1 recipient :
  apply_op (OpDeposit address_default recipient 0 u256_max bytes32_default) (new [1]) = (s0, Ok tt) ->
  apply_op (OpBlock 1 [1] 100 bytes32_one) s0 = (s1, Ok tt) -> ledger_reach [1] s1.
Proof.
  intros H0 H1. apply (reach_op [1] s0 (OpBlock 1 [1] 100 bytes32_one) s1 (Ok tt)); [| |exact H1|discriminate].
  - eapply reach_op; [apply reach_new| |exact H0|discriminate]. exact I.
  - cbn [op_typed length]; unfold in_width; lia.
Qed.

(** ** The proofs *)

Section steps.
Context {t : table}.

(** The first public inputs of a channel, and the words that expose them. *)
Definition pis0 (c : ChannelId) : BalancePublicInputs :=
  BalancePublicInputs.mk c
    (PublicState.mk block_number_default 0 (channel_root0) (deposit_root0) (state_root0))
    block_number_default (commitment0) bytes32_default.

Definition words0 (c : Z) : BalanceProof :=
  [c] ++ [0; 0; 0] ++ [5; 0; 0; 0] ++ [6; 0; 0; 0] ++ [7; 0; 0; 0] ++ [0] ++ [2; 0; 0; 0] ++ replicate 8 0
    ++ replicate 4 0.

Definition vd0 : VerifierData := VerifierData.mk [] [0; 0; 0; 0].

Lemma words0_prove : full_pis_from_u64_slice (words0 1) = Ok (pis0 1, vd0) /\
  full_pis_from_u64_slice (words0 2) = Ok (pis0 2, vd0).
Proof. split; reflexivity. Qed.

(** A transaction with one transfer, in the tree of the block of channel 1. *)
Context (pay : Transfer) (Htransfer : transfer_root = leaf_hash pay).

Definition tx1 : Tx := Tx.mk CodePoseidon (transfer_root) 0.
Definition tx1_proof : MerkleProof := mkMerkleProof (Hs := PoseidonLeafableHasher) [0].
Definition pay_witness : TransferWitness :=
  TransferWitness.mk (transfer_root) pay 0 (mkMerkleProof (Hs := PoseidonLeafableHasher) []).

Lemma pay_verifies : TransferWitness.verify pay_witness = Ok tt.
Proof.
  unfold TransferWitness.verify. cbn [pay_witness TransferWitness.transfer_merkle_proof TransferWitness.transfer
    TransferWitness.transfer_index TransferWitness.transfer_tree_root].
  replace (proof_verify _ _ _ _) with (Ok (E := MerkleProofError) tt); [reflexivity|].
  symmetry. apply proof_verify_Ok. split; [reflexivity|]. symmetry. exact Htransfer.
Qed.

Definition spend1 : SpendProof := [2; 0; 0; 0] ++ [3; 0; 0; 0] ++ [4; 0; 0; 0] ++ [0] ++ [1].
Definition spend1_pis : SpendPublicInputs := SpendPublicInputs.mk (commitment0) 0 tx1 true.
Definition send1 : SendLeaf := SendLeaf.mk block_number_default (U63.mkU63 1) bytes32_one.

Context (Htx : tx_root = path_root (Hs := PoseidonLeafableHasher) [0] 1 (leaf_hash tx1)).

Lemma send1_sendable :
  sendable 1 (pis0 1) send1 tx1 spend1 spend1_pis tx1_proof pay_witness.
Proof.
  split; [reflexivity|cbn; lia|reflexivity|reflexivity|reflexivity|reflexivity| |reflexivity|reflexivity|].
  - apply proof_verify_Ok. split; [reflexivity|]. symmetry. exact Htx.
  - exact pay_verifies.
Qed.

(** The history after the block. *)
Context (s0 s1 : FullPublicState) (d : Deposit).
Context (Hs1 : ledger_inv s1) (H0 : deposit_added (new [1]) d s0) (H1 : block_added s0 1 1 [1] 100 bytes32_one s1).

Lemma send1_history : send_history 1 (blocks s1) = [send1] /\ send_history 2 (blocks s1) = [].
Proof.
  destruct H1 as (-> & _). destruct H0 as (_ & -> & _). split; reflexivity.
Qed.

Lemma block1_number : U63.as_u64 (block_number s1) = 1.
Proof.
  pose proof (inv_blocks _ Hs1) as Hl. destruct H1 as (Hb & _). destruct H0 as (_ & Hb0 & _).
  rewrite Hb, Hb0 in Hl. cbn in Hl. lia.
Qed.

Lemma block1_deposits : deposits s1 = [d].
Proof. destruct H1 as (_ & -> & _). destruct H0 as (-> & _). reflexivity. Qed.

Definition send1_witness : SendTxWitness :=
  send_witness (words0 1) (pis0 1) s1 (settlement_of s1 1 0 tx1 spend1 tx1_proof) pay_witness.

Lemma send1_step : exists p', send_step s1 (pis0 1) send1_witness p'.
Proof.
  apply (send_progress_step s1 1 0 send1 tx1 spend1 spend1_pis); [exact Hs1|unfold in_width; lia|cbn; lia| | |].
  - destruct send1_history as [-> _]. reflexivity.
  - eexists. apply words0_prove.
  - exact send1_sendable.
Qed.

Lemma settlement1_built : settlement_built (settlement_of s1 1 0 tx1 spend1 tx1_proof) /\
  account_shape (account_state_of (blocks s1) 1 0).
Proof.
  split; [|apply account_state_of_ok; unfold in_width; lia].
  eapply settlement_of_built; [unfold in_width; lia|cbn; lia| |exact send1_sendable].
  destruct send1_history as [-> _]. reflexivity.
Qed.

(** ** Receiving *)

Definition unchanged (old : PublicState) : UpdatePublicState :=
  UpdatePublicState.mk (public_view s1) old (proof_dummy (Hs := PoseidonLeafableHasher) PUBLIC_STATE_TREE_HEIGHT).

Context (ps : PrivateState) (Hps : PrivateState.commitment ps = commitment0).

Definition dummy_insertion : IndexedInsertionProof :=
  mkInsertionProof 0 (mkMerkleProof []) (mkMerkleProof []) 0 default_leaf.

Definition update_with (token : Z) (amount : U256) (nf : Bytes32) : UpdatePrivateState :=
  UpdatePrivateState.mk token amount nf ps dummy_insertion u256_zero (mkMerkleProof (Hs := PoseidonLeafableHasher) []) ps.

Definition receive1_witness (nf : Bytes32) : ReceiveTransferWitness :=
  ReceiveTransferWitness.mk (words0 2) (words0 1) (unchanged (BalancePublicInputs.public_state (pis0 1)))
    (unchanged (BalancePublicInputs.public_state (pis0 2))) (U63.mkU63 1) (account_state_of (blocks s1) 2 0)
    (settlement_of s1 1 0 tx1 spend1 tx1_proof) pay_witness 0
    (update_with (Transfer.token_index pay) (Transfer.amount pay) nf).

Context (Hpay : calculate_recipient_from_user_id (E := ReceiveTransferError) 2 0 = Ok (Transfer.recipient pay)).

Lemma window_open {E} (e : E) c : send_history c (blocks s1) = [] ->
  receive_window e (account_state_of (blocks s1) c 0)
    (public_view s1) block_number_default (U63.mkU63 1) = Ok tt.
Proof.
  intros Hh. unfold receive_window, u63_ltb. rewrite public_view_number by exact Hs1. rewrite block1_number.
  unfold requires_send_interval. cbn [account_state_of AccountState.channel_leaf channel_summary ChannelLeaf.prev
    AccountState.channel_id]. rewrite Hh. reflexivity.
Qed.

Lemma settlement1 :
  TxSettlement.tx_block_number (settlement_of s1 1 0 tx1 spend1 tx1_proof) = U63.mkU63 1 /\
  TxSettlement.send_block_number_before_tx (settlement_of s1 1 0 tx1 spend1 tx1_proof) = block_number_default /\
  TxSettlement.spend_pis (settlement_of s1 1 0 tx1 spend1 tx1_proof) = Ok spend1_pis.
Proof.
  destruct send1_history as [Hh1 _].
  unfold TxSettlement.tx_block_number, TxSettlement.send_block_number_before_tx.
  cbn [settlement_of TxSettlement.account_state account_state_of AccountState.send_leaf]. rewrite Hh1.
  split_and!; reflexivity.
Qed.

Lemma nullifier_exists {E} h : exists nf, phash_into_bytes32 (E := E) (P := CodePoseidon) h = Ok nf.
Proof.
  unfold phash_into_bytes32, words_into_bytes32, limbs_try_into.
  destruct (decide _) as [H|H]; [by eexists|]. exfalso. apply H, limbs_wfb_spec. split; [reflexivity|].
  cbn. repeat constructor; apply wrap_in_width || done; lia.
Qed.

Lemma receive1_step : exists w p', receive_transfer_step s1 (pis0 2) w p' /\
  ReceiveTransferWitness.tx_settlement w = settlement_of s1 1 0 tx1 spend1 tx1_proof /\ ReceiveTransferWitness.transfer_witness w = pay_witness.
Proof.
  destruct send1_history as [Hh1 Hh2]. destruct words0_prove as [Hw1 Hw2].
  destruct (nullifier_exists (E := ReceiveTransferError)
    (SettledTransfer.poseidon_hash (SettledTransfer.mk pay 1 0 0))) as [nf Hnf].
  exists (receive1_witness nf). eexists. split; [|split; reflexivity]. split.
  - exists vd0. exact Hw2.
  - exists vd0. unfold ReceiveTransferWitness.to_public_inputs.
    cbn [receive1_witness ReceiveTransferWitness.prev_balance_proof ReceiveTransferWitness.sender_balance_proof
      balance_public_inputs WordProofs]. rewrite Hw1, Hw2. cbn [map_err mbind res_bind].
    rewrite !ensure_decided by (reflexivity || exact Hps).
    cbn [receive1_witness ReceiveTransferWitness.transfer_salt ReceiveTransferWitness.account_state
      ReceiveTransferWitness.tx_settlement ReceiveTransferWitness.transfer_witness
      ReceiveTransferWitness.update_private_state ReceiveTransferWitness.new_block_r
      ReceiveTransferWitness.receiver_update_public_state pis0 BalancePublicInputs.channel_id
      BalancePublicInputs.block_r mbind res_bind].
    cbn [account_state_of AccountState.channel_id settlement_of TxSettlement.channel_id]. rewrite !Z.eqb_refl.
    cbn [ensure mbind res_bind]. rewrite Hpay. cbn [mbind res_bind]. rewrite ensure_decided by reflexivity.
    cbn [mbind res_bind unchanged UpdatePublicState.new].
    pose proof (window_open ReceiveBlockNumberError 2 Hh2) as Hwin. cbn [account_state_of] in Hwin. rewrite Hwin. cbn [mbind res_bind].
    fold (account_state_of (blocks s1) 1 0). fold (settlement_of s1 1 0 tx1 spend1 tx1_proof).
    destruct settlement1 as (Ht & Hb & Hsp). rewrite Ht, Hb, Hsp. cbn [map_err mbind res_bind ensure].
    unfold u63_ltb, u63_leb. cbn [U63.as_u64 block_number_default negb Z.ltb Z.leb Z.compare ensure mbind res_bind
      Pos.compare Pos.compare_cont].
    rewrite ensure_decided by reflexivity. cbn [spend1_pis SpendPublicInputs.is_valid ensure mbind res_bind].
    unfold SettledTransfer.nullifier.
    cbn [TransferWitness.transfer TransferWitness.transfer_index pay_witness TxSettlement.tx settlement_of Tx.nonce tx1].
    rewrite Hnf. cbn [mbind res_bind update_with UpdatePrivateState.token_index UpdatePrivateState.nullifier].
    rewrite ?Z.eqb_refl, ensure_decided by reflexivity. cbn [ensure mbind res_bind]. reflexivity.
  - apply account_state_of_ok; unfold in_width; lia.
  - apply account_state_of_ok; unfold in_width; lia.
  - reflexivity.
  - cbn. lia.
Qed.

(** ** Receiving the deposit, from a proof that already refers to the block *)

Definition pis1 : BalancePublicInputs :=
  BalancePublicInputs.mk 2
    (PublicState.mk (U63.mkU63 1) 100 channel_root0 deposit_root0 state_root0)
    block_number_default commitment0 bytes32_default.

Definition words1 : BalanceProof :=
  [2] ++ [1; 0; 100] ++ [5; 0; 0; 0] ++ [6; 0; 0; 0] ++ [7; 0; 0; 0] ++ [0] ++ [2; 0; 0; 0] ++ replicate 8 0
    ++ replicate 4 0.

Context (Hview : public_view s1 = BalancePublicInputs.public_state pis1).
Context (Hd : d = next_deposit (new [1]) address_default (Transfer.recipient pay) 0 u256_max bytes32_default).

Lemma deposit1_receivable : exists nf, receivable s1 2 pis1 0 (U63.mkU63 1) (0 : PHash) d (update_with 0 u256_max nf).
Proof.
  destruct (nullifier_exists (E := unit) (Deposit.poseidon_hash d)) as [nf Hnf]. exists nf. split.
  - reflexivity.
  - symmetry. exact Hview.
  - apply window_open. apply send1_history.
  - rewrite Hd. cbn. lia.
  - rewrite Hd. apply (recipient_any_error _ _ _ Hpay).
  - rewrite Hd. reflexivity.
  - rewrite Hd. reflexivity.
  - exact Hnf.
  - exact Hps.
Qed.

Lemma receive2_step : exists w p', receive_deposit_step s1 pis1 w p'.
Proof.
  destruct deposit1_receivable as [nf Hrc]. eexists.
  apply (deposit_progress_step (P := CodePoseidon) s1 2 pis1 words1 0 (U63.mkU63 1) 0 d 0 (update_with 0 u256_max nf) Hs1).
  - unfold in_width; lia.
  - cbn; lia.
  - exists vd0. reflexivity.
  - rewrite block1_deposits. reflexivity.
  - exact Hrc.
Qed.

End steps.
