(* ===== verification/Channel.v ===== *)
(** * Channel records, states, transactions and their signed digests

    Models [src/src/common/channel.rs]: every message type of the channel layer
    with the word stream its signing digest hashes, the record check, the
    structural signature checks, the construction of a close intent and the
    canonical next state of a token registration.

    A digest that contains a ciphertext digest panics on a non-canonical
    ciphertext, so those digests are [res] values. *)

From S2P Require Import Prelude Limbs MerkleTree Poseidon Keccak Regev BalanceState.

Definition CHANNEL_STATE_DOMAIN : Z := 0x494d4348.
Definition SMALL_BLOCK_DOMAIN : Z := 0x494d5342.
Definition SIGNED_SMALL_BLOCK_DOMAIN : Z := 0x494d5353.
Definition CLOSE_TX_DOMAIN : Z := 0x494d434c.
Definition CLOSE_STATE_ID_DOMAIN : Z := 0x494d4353.
Definition SPECIAL_CLOSE_DOMAIN : Z := 0x494d5343.
Definition CANCEL_CLOSE_DOMAIN : Z := 0x494d434e.
Definition POST_CLOSE_CLAIM_DOMAIN : Z := 0x494d4350.
Definition BURN_DESCRIPTOR_DOMAIN : Z := 0x494d4432.
Definition POST_CLOSE_NULLIFIER_DOMAIN : Z := 0x494d434b.
Definition WITHDRAWAL_CLAIM_DOMAIN : Z := 0x494d4357.
Definition CHANNEL_BALANCE_LEAF_DOMAIN : Z := 0x494d5546.
Definition CHANNEL_RECORD_DOMAIN : Z := 0x494d4352.
Definition CLOSE_MEMBER_SET_DOMAIN : Z := 0x494d434d.
Definition PAY_DOMAIN_V2 : Z := 0x494d5032.
Definition L1_DEPOSIT_IMPORT_DOMAIN_V2 : Z := 0x494d4c32.
Definition WITHDRAWAL_CLAIM_DOMAIN_V2 : Z := 0x494d5732.
Definition INTER_CHANNEL_TX_DOMAIN_V5 : Z := 0x494d4935.
Definition TOKEN_FUNDS_DIGEST_DOMAIN : Z := 0x494d5446.

(** 1 + 40 + 625 signature bytes and 1024 key bytes. *)
Definition FALCON_COSIGN_BLOB_BYTES : nat := 1690.
Lemma FALCON_COSIGN_BLOB_BYTES_pos : (0 < FALCON_COSIGN_BLOB_BYTES)%nat.
Proof. apply Nat.lt_0_succ. Qed.
#[global] Arguments FALCON_COSIGN_BLOB_BYTES : simpl never.
#[global] Opaque FALCON_COSIGN_BLOB_BYTES.

(** A length field, [len() as u32]. *)
Definition len_word {A} (l : list A) : Z := wrap 32 (Z.of_nat (length l)).

(** ** Tags *)

Inductive ChannelStatus := Active | ClosePending | Closed.

Inductive ProofBackend := Plonky2 | Plonky3.

Inductive TransitionProofRole :=
| ChannelStateUpdate
| IntmaxTransport
| ChannelCloseSettlement
| SpecialCloseSettlement.

Inductive ChannelTransitionKind :=
| InChannelTransfer
| InterChannelSend
| InterChannelFundImport
| ReceiverBundleApply
| BalanceRefresh
| ChannelClose
| SpecialCloseKind
| L1DepositImport
| TokenRegisterKind.

#[export] Instance ChannelStatus_eq_dec : EqDecision ChannelStatus.
Proof. solve_decision. Defined.
#[export] Instance ProofBackend_eq_dec : EqDecision ProofBackend.
Proof. solve_decision. Defined.
#[export] Instance TransitionProofRole_eq_dec : EqDecision TransitionProofRole.
Proof. solve_decision. Defined.
#[export] Instance ChannelTransitionKind_eq_dec : EqDecision ChannelTransitionKind.
Proof. solve_decision. Defined.

(** [as u32] on field-less enums: the declaration index. *)
Definition status_u32 (s : ChannelStatus) : Z :=
  match s with Active => 0 | ClosePending => 1 | Closed => 2 end.
Definition backend_u32 (b : ProofBackend) : Z := match b with Plonky2 => 0 | Plonky3 => 1 end.
Definition role_u32 (r : TransitionProofRole) : Z :=
  match r with
  | ChannelStateUpdate => 0 | IntmaxTransport => 1
  | ChannelCloseSettlement => 2 | SpecialCloseSettlement => 3
  end.
Definition kind_u32 (k : ChannelTransitionKind) : Z :=
  match k with
  | InChannelTransfer => 0 | InterChannelSend => 1 | InterChannelFundImport => 2
  | ReceiverBundleApply => 3 | BalanceRefresh => 4 | ChannelClose => 5
  | SpecialCloseKind => 6 | L1DepositImport => 7 | TokenRegisterKind => 8
  end.

Definition required_state_backend (k : ChannelTransitionKind) : option ProofBackend :=
  match k with
  | InChannelTransfer | InterChannelSend | ReceiverBundleApply | BalanceRefresh => Some Plonky3
  | InterChannelFundImport | ChannelClose | SpecialCloseKind | L1DepositImport
  | TokenRegisterKind => None
  end.

Definition required_transport_backend (k : ChannelTransitionKind) : option ProofBackend :=
  match k with
  | InterChannelSend | InterChannelFundImport | ChannelClose | SpecialCloseKind => Some Plonky2
  | InChannelTransfer | ReceiverBundleApply | BalanceRefresh | L1DepositImport
  | TokenRegisterKind => None
  end.

Module ChannelProofEnvelope.
Record ChannelProofEnvelope := mk {
  role : TransitionProofRole;
  backend : ProofBackend;
  proof : list Z;
}.

#[global] Instance ChannelProofEnvelope_eq_dec : EqDecision ChannelProofEnvelope.
Proof. solve_decision. Defined.

Definition to_digest_words (e : ChannelProofEnvelope) : list Z :=
  [role_u32 (role e); backend_u32 (backend e); len_word (proof e)]
    ++ bytes_to_u32_words (proof e).
End ChannelProofEnvelope.
Notation ChannelProofEnvelope := ChannelProofEnvelope.ChannelProofEnvelope.

(** ** [ChannelRecord] *)

Module ChannelRecord.
Record ChannelRecord := mk {
  channel_id : ChannelId;
  member_count : Z;
  delegate_count : Z;
  member_pk_gs : list Bytes32;
  member_pubkeys_root : Bytes32;
  set_version : Z;
  bp_member_slot : Z;
  special_close_penalty : U256;
  close_freeze_nonce : Z;
  status : ChannelStatus;
  regev_pk_root : Bytes32;
}.

#[global] Instance ChannelRecord_eq_dec : EqDecision ChannelRecord.
Proof. solve_decision. Defined.

Definition invalid {A} : res ChannelError A := Err InvalidChannelRecord.

(** The inner loop: no later active slot holds the same hash. *)
Definition check_distinct (active i : nat) (hash : Bytes32) (hashes : list Bytes32) : res ChannelError unit :=
  res_forall (fun '(j, other) =>
    if (i <? j)%nat && (j <? active)%nat && bool_decide (hash = other) then invalid else Ok tt)
    (imap pair hashes).

Definition check_slot (active : nat) (hashes : list Bytes32) (i : nat) (hash : Bytes32) : res ChannelError unit :=
  if (i <? active)%nat then
    if decide (hash = bytes32_default) then invalid else check_distinct active i hash hashes
  else if decide (hash <> bytes32_default) then invalid else Ok tt.

Definition validate (r : ChannelRecord) : res ChannelError unit :=
  if decide (regev_pk_root r = bytes32_default) then invalid
  else if channel_id r =? BURN_CHANNEL_ID then invalid
  else
    let count := Z.to_nat (member_count r) in
    if (count <? 2)%nat || (MAX_SIG_CLUSTER <? count)%nat then invalid
    else if (count <=? Z.to_nat (bp_member_slot r))%nat then invalid
    else
      let active := (count + Z.to_nat (delegate_count r))%nat in
      if negb (active <=? MAX_CHANNEL_MEMBERS)%nat then invalid
      else res_forall (fun '(i, hash) => check_slot active (member_pk_gs r) i hash)
             (imap pair (member_pk_gs r)).

Definition signing_words (r : ChannelRecord) : list Z :=
  [CHANNEL_RECORD_DOMAIN] ++ ChannelId.to_u32_vec (channel_id r) ++ [bp_member_slot r]
    ++ split_u64 (close_freeze_nonce r) ++ split_u64 (set_version r)
    ++ [status_u32 (status r); member_count r; delegate_count r]
    ++ (member_pk_gs r ≫= to_u32_vec) ++ to_u32_vec (member_pubkeys_root r)
    ++ to_u32_vec (special_close_penalty r) ++ to_u32_vec (regev_pk_root r).

Definition signing_digest {K : Keccak} (r : ChannelRecord) : Bytes32 := hash_words (signing_words r).
End ChannelRecord.
Notation ChannelRecord := ChannelRecord.ChannelRecord.

(** ** Small blocks *)

Module MerkleInclusionProof.
Record MerkleInclusionProof := mk { siblings : list Bytes32; leaf_index : U256 }.

#[global] Instance MerkleInclusionProof_eq_dec : EqDecision MerkleInclusionProof.
Proof. solve_decision. Defined.

Definition default : MerkleInclusionProof := mk [] u256_zero.
End MerkleInclusionProof.
Notation MerkleInclusionProof := MerkleInclusionProof.MerkleInclusionProof.

Module SmallBlockRootMessage.
Record SmallBlockRootMessage := mk {
  channel_id : ChannelId;
  bp_member_slot : Z;
  bp_pk_g : Bytes32;
  small_block_number : Z;
  prev_small_block_root : Bytes32;
  tx_tree_root : Bytes32;
  state_commitment_root : Bytes32;
  medium_epoch_hint : Z;
  close_freeze_nonce : Z;
}.

#[global] Instance SmallBlockRootMessage_eq_dec : EqDecision SmallBlockRootMessage.
Proof. solve_decision. Defined.

Definition signing_words (m : SmallBlockRootMessage) : list Z :=
  [SMALL_BLOCK_DOMAIN] ++ ChannelId.to_u32_vec (channel_id m) ++ [bp_member_slot m]
    ++ to_u32_vec (bp_pk_g m) ++ split_u64 (small_block_number m)
    ++ to_u32_vec (prev_small_block_root m) ++ to_u32_vec (tx_tree_root m)
    ++ to_u32_vec (state_commitment_root m) ++ split_u64 (medium_epoch_hint m)
    ++ split_u64 (close_freeze_nonce m).

Definition signing_digest {K : Keccak} (m : SmallBlockRootMessage) : Bytes32 :=
  hash_words (signing_words m).
End SmallBlockRootMessage.
Notation SmallBlockRootMessage := SmallBlockRootMessage.SmallBlockRootMessage.

Module MemberSignature.
Record MemberSignature := mk { member_slot : Z; pk_g : Bytes32; signature : list Z }.

#[global] Instance MemberSignature_eq_dec : EqDecision MemberSignature.
Proof. solve_decision. Defined.

Definition digest_words (s : MemberSignature) : list Z :=
  [member_slot s] ++ to_u32_vec (pk_g s) ++ [len_word (signature s)]
    ++ bytes_to_u32_words (signature s).
End MemberSignature.
Notation MemberSignature := MemberSignature.MemberSignature.

Module SignedSmallBlock.
Record SignedSmallBlock := mk {
  message : SmallBlockRootMessage;
  signatures : list MemberSignature;
  aggregated_signature_proof : list Z;
  medium_block_number : Z;
  confirmation_proof : list Z;
}.

#[global] Instance SignedSmallBlock_eq_dec : EqDecision SignedSmallBlock.
Proof. solve_decision. Defined.

Definition signing_digest {K : Keccak} (b : SignedSmallBlock) : Bytes32 :=
  hash_words ([SIGNED_SMALL_BLOCK_DOMAIN]
    ++ to_u32_vec (SmallBlockRootMessage.signing_digest (message b))
    ++ split_u64 (medium_block_number b)
    ++ [len_word (signatures b)] ++ (signatures b ≫= MemberSignature.digest_words)
    ++ [len_word (aggregated_signature_proof b)] ++ bytes_to_u32_words (aggregated_signature_proof b)
    ++ [len_word (confirmation_proof b)] ++ bytes_to_u32_words (confirmation_proof b)).
End SignedSmallBlock.
Notation SignedSmallBlock := SignedSmallBlock.SignedSmallBlock.

(** ** Funds and states *)

Module ChannelFund.
Record ChannelFund := mk {
  channel_id : ChannelId;
  amounts : list U256;
  intmax_state_root : Bytes32;
}.

#[global] Instance ChannelFund_eq_dec : EqDecision ChannelFund.
Proof. solve_decision. Defined.

Definition single_token_amounts (amount : U256) : list U256 :=
  <[0%nat := amount]> (replicate MAX_CHANNEL_TOKENS u256_zero).
End ChannelFund.
Notation ChannelFund := ChannelFund.ChannelFund.

Definition token_funds_words (registry : list Z) (token_count : Z) (amounts : list U256) : list Z :=
  [TOKEN_FUNDS_DIGEST_DOMAIN] ++ registry ++ [token_count] ++ (amounts ≫= to_u32_vec).

Definition token_funds_digest {K : Keccak} (registry : list Z) (token_count : Z) (amounts : list U256)
    : Bytes32 := hash_words (token_funds_words registry token_count amounts).

Definition close_state_id_words (channel_id : ChannelId) (final_channel_state_digest : Bytes32)
    (close_freeze_nonce : Z) : list Z :=
  [CLOSE_STATE_ID_DOMAIN] ++ ChannelId.to_u32_vec channel_id
    ++ to_u32_vec final_channel_state_digest ++ split_u64 close_freeze_nonce.

Definition close_state_id {K : Keccak} (channel_id : ChannelId) (final_channel_state_digest : Bytes32)
    (close_freeze_nonce : Z) : Bytes32 :=
  hash_words (close_state_id_words channel_id final_channel_state_digest close_freeze_nonce).

Module ChannelState.
Record ChannelState := mk {
  channel_id : ChannelId;
  epoch : Z;
  small_block_number : Z;
  close_freeze_nonce : Z;
  channel_fund : ChannelFund;
  balance_state : BalanceState.BalanceState;
  h2_tag : Bytes32;
  shared_native_nullifier_root : Bytes32;
  unallocated_confirmed_incoming : U256;
  prev_digest : Bytes32;
  digest : Bytes32;
  member_signatures : list MemberSignature;
}.

#[global] Instance ChannelState_eq_dec : EqDecision ChannelState.
Proof. solve_decision. Defined.

(** The word stream, given the [h1] of the balance state. *)
Definition signing_words (s : ChannelState) (h1 : Bytes32) : list Z :=
  [CHANNEL_STATE_DOMAIN] ++ ChannelId.to_u32_vec (channel_id s) ++ split_u64 (epoch s)
    ++ split_u64 (small_block_number s) ++ split_u64 (close_freeze_nonce s)
    ++ ChannelId.to_u32_vec (ChannelFund.channel_id (channel_fund s))
    ++ (ChannelFund.amounts (channel_fund s) ≫= to_u32_vec)
    ++ to_u32_vec (ChannelFund.intmax_state_root (channel_fund s))
    ++ to_u32_vec h1 ++ to_u32_vec (shared_native_nullifier_root s)
    ++ to_u32_vec (unallocated_confirmed_incoming s) ++ to_u32_vec (prev_digest s)
    ++ to_u32_vec (h2_tag s) ++ split_u64 (BalanceState.state_version (balance_state s)).

Definition signing_digest {K : Keccak} {P : Poseidon} {E} (s : ChannelState) : res E Bytes32 :=
  h1 ← BalanceState.h1 (balance_state s);
  Ok (hash_words (signing_words s h1)).

Definition with_digest (s : ChannelState) (d : Bytes32) : ChannelState :=
  mk (channel_id s) (epoch s) (small_block_number s) (close_freeze_nonce s) (channel_fund s)
    (balance_state s) (h2_tag s) (shared_native_nullifier_root s)
    (unallocated_confirmed_incoming s) (prev_digest s) d (member_signatures s).

Definition with_computed_digest {K : Keccak} {P : Poseidon} {E} (s : ChannelState) : res E ChannelState :=
  d ← signing_digest s;
  Ok (with_digest s d).

Definition with_signatures (s : ChannelState) (sigs : list MemberSignature) : ChannelState :=
  mk (channel_id s) (epoch s) (small_block_number s) (close_freeze_nonce s) (channel_fund s)
    (balance_state s) (h2_tag s) (shared_native_nullifier_root s)
    (unallocated_confirmed_incoming s) (prev_digest s) (digest s) sigs.
End ChannelState.
Notation ChannelState := ChannelState.ChannelState.

(** The canonical next state of a token registration. *)
Definition token_register_next_state {K : Keccak} {P : Poseidon} (prev : ChannelState) (token_index : Z)
    : res ChannelError ChannelState :=
  balance_state ← BalanceState.apply_token_register (ChannelState.balance_state prev) token_index;
  ChannelState.with_computed_digest
    {| ChannelState.channel_id := ChannelState.channel_id prev;
       ChannelState.epoch := wrap 64 (ChannelState.epoch prev + 1);
       ChannelState.small_block_number := ChannelState.small_block_number prev;
       ChannelState.close_freeze_nonce := ChannelState.close_freeze_nonce prev;
       ChannelState.channel_fund := ChannelState.channel_fund prev;
       ChannelState.balance_state := balance_state;
       ChannelState.h2_tag := bytes32_default;
       ChannelState.shared_native_nullifier_root := ChannelState.shared_native_nullifier_root prev;
       ChannelState.unallocated_confirmed_incoming := ChannelState.unallocated_confirmed_incoming prev;
       ChannelState.prev_digest := ChannelState.digest prev;
       ChannelState.digest := ChannelState.digest prev;
       ChannelState.member_signatures := [] |}.

(** ** Transactions *)

Module ChannelTx.
Record ChannelTx := mk {
  recipient_pk_g : Bytes32;
  token_slot : Z;
  enc_amount : RegevCiphertext;
  nonce : Bytes32;
  channel_tx_zkp : ChannelProofEnvelope;
  sender_pk_g : Bytes32;
  sender_hash_sig : list Z;
  sender_pk_b : Bytes32;
}.

Definition signing_words (channel_id : ChannelId) (prev_state_digest enc_amount_digest nonce : Bytes32)
    (token_slot : Z) (sender_pk_g recipient_pk_g : Bytes32) : list Z :=
  [PAY_DOMAIN_V2] ++ ChannelId.to_u32_vec channel_id ++ to_u32_vec prev_state_digest
    ++ to_u32_vec enc_amount_digest ++ to_u32_vec nonce ++ [token_slot]
    ++ to_u32_vec sender_pk_g ++ to_u32_vec recipient_pk_g.

Definition signing_digest {K : Keccak} {E} (channel_id : ChannelId) (prev_state_digest : Bytes32)
    (enc_amount : RegevCiphertext) (nonce : Bytes32) (token_slot : Z)
    (sender_pk_g recipient_pk_g : Bytes32) : res E Bytes32 :=
  d ← Ct.digest enc_amount;
  Ok (hash_words (signing_words channel_id prev_state_digest d nonce token_slot sender_pk_g recipient_pk_g)).
End ChannelTx.
Notation ChannelTx := ChannelTx.ChannelTx.

Module ReceiverBalanceDelta.
Record ReceiverBalanceDelta := mk {
  receiver_pk_g : Bytes32;
  receiver_regev_pk_digest : Bytes32;
  amount : RegevCiphertext;
}.

Definition digest_words {K : Keccak} {E} (d : ReceiverBalanceDelta) : res E (list Z) :=
  a ← Ct.digest (amount d);
  Ok (to_u32_vec (receiver_pk_g d) ++ to_u32_vec (receiver_regev_pk_digest d) ++ to_u32_vec a).
End ReceiverBalanceDelta.
Notation ReceiverBalanceDelta := ReceiverBalanceDelta.ReceiverBalanceDelta.

Section tx_hash.
Context {K : Keccak}.

Definition burn_descriptor (source_channel_id : ChannelId) (base_nonce : Z)
    (tx_leaf recipient : Bytes32) (token_index : Z) (amount : U256) : Bytes32 :=
  hash_words ([BURN_DESCRIPTOR_DOMAIN] ++ ChannelId.to_u32_vec source_channel_id ++ [base_nonce]
    ++ to_u32_vec tx_leaf ++ to_u32_vec recipient ++ [token_index] ++ to_u32_vec amount).

(** The ids word [[0; 0; 0; 0; 0; token; destination; source]]. *)
Definition ids_word {E} (source_channel_id destination_channel_id : ChannelId) (token_index : Z)
    : res E Bytes32 :=
  limbs_try_into BYTES32_LEN [0; 0; 0; 0; 0; token_index; wrap 32 destination_channel_id;
                              wrap 32 source_channel_id].

Definition inter_channel_tx_hash {E} (source_channel_id destination_channel_id : ChannelId)
    (token_index : Z) (tx_tree_root tx_leaf : Bytes32) : res E Bytes32 :=
  let mixed := settled_tx_chain_push tx_tree_root tx_leaf in
  ids ← ids_word source_channel_id destination_channel_id token_index;
  Ok (settled_tx_chain_push ids mixed).

Definition inter_channel_tx_identity {E} (source_channel_id destination_channel_id : ChannelId)
    (tx_tree_root tx_leaf : Bytes32) : res E Bytes32 :=
  inter_channel_tx_hash source_channel_id destination_channel_id 0 tx_tree_root tx_leaf.
End tx_hash.

Module InterChannelTx.
Record InterChannelTx := mk {
  tx_inclusion_proof : MerkleInclusionProof;
  signed_small_block : SignedSmallBlock;
  sender_delta_ct : RegevCiphertext;
  source_channel_id : ChannelId;
  destination_channel_id : ChannelId;
  token_index : Z;
  base_nonce : Z;
  destination_base_transfer_salt : PoseidonHashOut.PoseidonHashOut;
  source_pk_g : Bytes32;
  seal : Bytes32;
  tx_hash : Bytes32;
  intmax_transfer_commitment : Bytes32;
  recipient_memo : list Z;
  receiver_deltas : list ReceiverBalanceDelta;
  channel_update_zkp : ChannelProofEnvelope;
  transport_proof : list Z;
  sender_hash_sig : list Z;
  sender_pk_b : Bytes32;
}.

Section digests.
Context {K : Keccak}.

Definition message (t : InterChannelTx) : SmallBlockRootMessage :=
  SignedSmallBlock.message (signed_small_block t).

Definition signing_digest {E} (t : InterChannelTx) : res E Bytes32 :=
  sender_delta ← Ct.digest (sender_delta_ct t);
  deltas ← res_mapM ReceiverBalanceDelta.digest_words (receiver_deltas t);
  Ok (hash_words ([INTER_CHANNEL_TX_DOMAIN_V5]
    ++ to_u32_vec (SmallBlockRootMessage.signing_digest (message t))
    ++ to_u32_vec sender_delta
    ++ ChannelId.to_u32_vec (source_channel_id t) ++ ChannelId.to_u32_vec (destination_channel_id t)
    ++ [token_index t] ++ [base_nonce t]
    ++ (PoseidonHashOut.to_u64_vec (destination_base_transfer_salt t) ≫= split_u64)
    ++ to_u32_vec (source_pk_g t) ++ to_u32_vec (seal t) ++ to_u32_vec (tx_hash t)
    ++ to_u32_vec (intmax_transfer_commitment t)
    ++ [len_word (recipient_memo t)] ++ bytes_to_u32_words (recipient_memo t)
    ++ [len_word (receiver_deltas t)] ++ concat deltas
    ++ ChannelProofEnvelope.to_digest_words (channel_update_zkp t)
    ++ [len_word (transport_proof t)] ++ bytes_to_u32_words (transport_proof t))).

Definition tx_leaf_hash (t : InterChannelTx) : res ChannelError Bytes32 :=
  receiver ← ok_or (head (receiver_deltas t)) InvalidInterChannelTx;
  sender_delta ← Ct.digest (sender_delta_ct t);
  receiver_delta ← Ct.digest (ReceiverBalanceDelta.amount receiver);
  Ok (BalanceState.tx_leaf_hash (source_pk_g t) sender_delta
        (ReceiverBalanceDelta.receiver_pk_g receiver)
        (ReceiverBalanceDelta.receiver_regev_pk_digest receiver) receiver_delta).

Definition compute_tx_hash (t : InterChannelTx) : res ChannelError Bytes32 :=
  leaf ← tx_leaf_hash t;
  inter_channel_tx_hash (source_channel_id t) (destination_channel_id t) (token_index t)
    (SmallBlockRootMessage.tx_tree_root (message t)) leaf.

Definition replay_identity (t : InterChannelTx) : res ChannelError Bytes32 :=
  leaf ← tx_leaf_hash t;
  inter_channel_tx_identity (source_channel_id t) (destination_channel_id t)
    (SmallBlockRootMessage.tx_tree_root (message t)) leaf.
End digests.
End InterChannelTx.
Notation InterChannelTx := InterChannelTx.InterChannelTx.

(** ** Closing *)

Module CloseWithdrawal.
Record CloseWithdrawal := mk {
  channel_id : ChannelId;
  final_channel_state_digest : Bytes32;
  final_balance_state_h1 : Bytes32;
  intmax_state_root : Bytes32;
  burn_tx_hash : Bytes32;
  burn_amount : U256;
  zkp : list Z;
}.

Definition signing_digest {K : Keccak} (w : CloseWithdrawal) : Bytes32 :=
  hash_words ([CLOSE_TX_DOMAIN] ++ ChannelId.to_u32_vec (channel_id w)
    ++ to_u32_vec (final_channel_state_digest w) ++ to_u32_vec (final_balance_state_h1 w)
    ++ to_u32_vec (intmax_state_root w) ++ to_u32_vec (burn_tx_hash w) ++ to_u32_vec (burn_amount w)).
End CloseWithdrawal.
Notation CloseWithdrawal := CloseWithdrawal.CloseWithdrawal.

Module CloseIntent.
Record CloseIntent := mk {
  channel_id : ChannelId;
  close_nonce : Z;
  final_epoch : Z;
  final_small_block_number : Z;
  close_freeze_nonce : Z;
  final_channel_state_digest : Bytes32;
  final_balance_state_h1 : Bytes32;
  channel_fund_snapshot : ChannelFund;
  burn_tx_hash : Bytes32;
  close_withdrawal_digest : Bytes32;
  snapshot_medium_block_number : Z;
  final_state_version : Z;
  final_settled_tx_chain : Bytes32;
}.

Section close_intent.
Context {K : Keccak} {P : Poseidon}.

Definition bind_if (b : bool) : res ChannelError unit := ensure b InvalidCloseBinding.

Definition new (s : ChannelState) (w : CloseWithdrawal) : res ChannelError CloseIntent :=
  _ ← bind_if (ChannelState.channel_id s =? CloseWithdrawal.channel_id w);
  _ ← bind_if (bool_decide (ChannelState.digest s = CloseWithdrawal.final_channel_state_digest w));
  h1 ← BalanceState.h1 (ChannelState.balance_state s);
  _ ← bind_if (bool_decide (h1 = CloseWithdrawal.final_balance_state_h1 w));
  _ ← bind_if (bool_decide (ChannelFund.intmax_state_root (ChannelState.channel_fund s)
                            = CloseWithdrawal.intmax_state_root w));
  _ ← bind_if (bool_decide (CloseWithdrawal.burn_tx_hash w = bytes32_default));
  amount0 ← unwrap (ChannelFund.amounts (ChannelState.channel_fund s) !! 0%nat);
  _ ← bind_if (bool_decide (amount0 = CloseWithdrawal.burn_amount w));
  close_nonce ← ok_or (checked_add 64 (ChannelState.close_freeze_nonce s) 1) InvalidCloseBinding;
  Ok {|
    channel_id := ChannelState.channel_id s;
    close_nonce := close_nonce;
    final_epoch := ChannelState.epoch s;
    final_small_block_number := ChannelState.small_block_number s;
    close_freeze_nonce := close_nonce;
    final_channel_state_digest := ChannelState.digest s;
    final_balance_state_h1 := h1;
    channel_fund_snapshot := ChannelState.channel_fund s;
    burn_tx_hash := CloseWithdrawal.burn_tx_hash w;
    close_withdrawal_digest := CloseWithdrawal.signing_digest w;
    snapshot_medium_block_number := 0;
    final_state_version := BalanceState.state_version (ChannelState.balance_state s);
    final_settled_tx_chain := BalanceState.settled_tx_chain (ChannelState.balance_state s);
  |}.

Definition state_id (i : CloseIntent) : Bytes32 :=
  close_state_id (channel_id i) (final_channel_state_digest i) (close_freeze_nonce i).

Definition signing_digest (i : CloseIntent) : Bytes32 := state_id i.
End close_intent.
End CloseIntent.
Notation CloseIntent := CloseIntent.CloseIntent.

Module WithdrawalClaim.
Record WithdrawalClaim := mk {
  close_intent_digest : Bytes32;
  member_pk_g : Bytes32;
  token_slot : Z;
  l1_recipient : Address;
  user_amount_ct : RegevCiphertext;
  withdrawal_nullifier : Bytes32;
  claim_proof : list Z;
}.

Definition nullifier_words (close_intent_digest slot_regev_pk_digest : Bytes32) (token_slot : Z) : list Z :=
  [WITHDRAWAL_CLAIM_DOMAIN_V2] ++ to_u32_vec close_intent_digest
    ++ to_u32_vec slot_regev_pk_digest ++ [token_slot].

Definition derive_nullifier {K : Keccak} (close_intent_digest slot_regev_pk_digest : Bytes32)
    (token_slot : Z) : Bytes32 :=
  hash_words (nullifier_words close_intent_digest slot_regev_pk_digest token_slot).

Definition signing_digest {K : Keccak} {E} (c : WithdrawalClaim) : res E Bytes32 :=
  d ← Ct.digest (user_amount_ct c);
  Ok (hash_words ([WITHDRAWAL_CLAIM_DOMAIN] ++ to_u32_vec (close_intent_digest c)
    ++ to_u32_vec (member_pk_g c) ++ [token_slot c] ++ to_u32_vec (l1_recipient c)
    ++ to_u32_vec d ++ to_u32_vec (withdrawal_nullifier c)
    ++ [len_word (claim_proof c)] ++ bytes_to_u32_words (claim_proof c))).
End WithdrawalClaim.
Notation WithdrawalClaim := WithdrawalClaim.WithdrawalClaim.

Module SpecialClose.
Record SpecialClose := mk {
  channel_id : ChannelId;
  offending_bp_member_slot : Z;
  offending_bp_pk_g : Bytes32;
  fully_signed_small_block_root : Bytes32;
  small_block_number : Z;
  signed_medium_block_number : Z;
  latest_finalized_medium_block_number : Z;
  non_inclusion_proof : list Z;
  aggregated_signature_proof : list Z;
}.

Definition signing_digest {K : Keccak} (c : SpecialClose) : Bytes32 :=
  hash_words ([SPECIAL_CLOSE_DOMAIN] ++ ChannelId.to_u32_vec (channel_id c)
    ++ [offending_bp_member_slot c] ++ to_u32_vec (offending_bp_pk_g c)
    ++ to_u32_vec (fully_signed_small_block_root c) ++ split_u64 (small_block_number c)
    ++ split_u64 (signed_medium_block_number c) ++ split_u64 (latest_finalized_medium_block_number c)
    ++ [len_word (non_inclusion_proof c)] ++ bytes_to_u32_words (non_inclusion_proof c)
    ++ [len_word (aggregated_signature_proof c)] ++ bytes_to_u32_words (aggregated_signature_proof c)).
End SpecialClose.
Notation SpecialClose := SpecialClose.SpecialClose.

Module CancelClose.
Record CancelClose := mk {
  close_intent_digest : Bytes32;
  revived_small_block_root : Bytes32;
  revived_inter_channel_tx_digest : Bytes32;
  revived_tx_hash : Bytes32;
  revived_seal : Bytes32;
  cancel_proof : list Z;
}.

Definition new {K : Keccak} {E} (close_intent : CloseIntent) (revived_tx : InterChannelTx)
    (cancel_proof : list Z) : res E CancelClose :=
  tx_digest ← InterChannelTx.signing_digest revived_tx;
  Ok {|
    close_intent_digest := CloseIntent.signing_digest close_intent;
    revived_small_block_root := SmallBlockRootMessage.signing_digest (InterChannelTx.message revived_tx);
    revived_inter_channel_tx_digest := tx_digest;
    revived_tx_hash := InterChannelTx.tx_hash revived_tx;
    revived_seal := InterChannelTx.seal revived_tx;
    cancel_proof := cancel_proof;
  |}.

Definition signing_digest {K : Keccak} (c : CancelClose) : Bytes32 :=
  hash_words ([CANCEL_CLOSE_DOMAIN] ++ to_u32_vec (close_intent_digest c)
    ++ to_u32_vec (revived_small_block_root c) ++ to_u32_vec (revived_inter_channel_tx_digest c)
    ++ to_u32_vec (revived_tx_hash c) ++ to_u32_vec (revived_seal c)
    ++ [len_word (cancel_proof c)] ++ bytes_to_u32_words (cancel_proof c)).
End CancelClose.
Notation CancelClose := CancelClose.CancelClose.

Module PostCloseIncomingClaim.
Record PostCloseIncomingClaim := mk {
  close_intent_digest : Bytes32;
  incoming_tx_hash : Bytes32;
  receiver_pk_g : Bytes32;
  l1_recipient : Address;
  receiver_amount : RegevCiphertext;
  shared_native_nullifier : Bytes32;
  recipient_memo : list Z;
  claim_proof : list Z;
}.

Definition nullifier_words (close_intent_digest incoming_tx_hash receiver_pk_g : Bytes32) : list Z :=
  [POST_CLOSE_NULLIFIER_DOMAIN] ++ to_u32_vec close_intent_digest
    ++ to_u32_vec incoming_tx_hash ++ to_u32_vec receiver_pk_g.

Definition derive_shared_native_nullifier {K : Keccak}
    (close_intent_digest incoming_tx_hash receiver_pk_g : Bytes32) : Bytes32 :=
  hash_words (nullifier_words close_intent_digest incoming_tx_hash receiver_pk_g).

Definition signing_digest {K : Keccak} {E} (c : PostCloseIncomingClaim) : res E Bytes32 :=
  d ← Ct.digest (receiver_amount c);
  Ok (hash_words ([POST_CLOSE_CLAIM_DOMAIN] ++ to_u32_vec (close_intent_digest c)
    ++ to_u32_vec (incoming_tx_hash c) ++ to_u32_vec (receiver_pk_g c) ++ to_u32_vec (l1_recipient c)
    ++ to_u32_vec d ++ to_u32_vec (shared_native_nullifier c)
    ++ [len_word (recipient_memo c)] ++ bytes_to_u32_words (recipient_memo c)
    ++ [len_word (claim_proof c)] ++ bytes_to_u32_words (claim_proof c))).
End PostCloseIncomingClaim.
Notation PostCloseIncomingClaim := PostCloseIncomingClaim.PostCloseIncomingClaim.

(** ** Transitions *)

Inductive ChannelTransition :=
| TInChannelTransfer (tx : ChannelTx)
| TInterChannelSend (tx : InterChannelTx)
| TInterChannelFundImport (tx : InterChannelTx)
| TReceiverBundleApply (tx : InterChannelTx)
| TBalanceRefresh (proof : ChannelProofEnvelope)
| TChannelClose (w : CloseWithdrawal)
| TSpecialClose (c : SpecialClose)
| TTokenRegister (token_index : Z).

Definition transition_kind (t : ChannelTransition) : ChannelTransitionKind :=
  match t with
  | TInChannelTransfer _ => InChannelTransfer
  | TInterChannelSend _ => InterChannelSend
  | TInterChannelFundImport _ => InterChannelFundImport
  | TReceiverBundleApply _ => ReceiverBundleApply
  | TBalanceRefresh _ => BalanceRefresh
  | TChannelClose _ => ChannelClose
  | TSpecialClose _ => SpecialCloseKind
  | TTokenRegister _ => TokenRegisterKind
  end.

(** ** Signature sets *)

(** One iteration of [validate_member_signature_slots]. *)
Definition check_signature_slot (record : ChannelRecord) (slot : nat) (actual : MemberSignature)
    : res ChannelError unit :=
  if negb (MemberSignature.member_slot actual =? Z.of_nat slot) then Err InvalidSignatureSet
  else
    pk_g ← unwrap (ChannelRecord.member_pk_gs record !! slot);
    if decide (MemberSignature.pk_g actual <> pk_g) then Err InvalidSignatureSet
    else if decide (MemberSignature.signature actual = []) then Err InvalidSignatureSet
    else Ok tt.

Definition validate_member_signature_slots (record : ChannelRecord) (signatures : list MemberSignature)
    : res ChannelError unit :=
  _ ← ChannelRecord.validate record;
  let count := Z.to_nat (ChannelRecord.member_count record) in
  if negb (length signatures =? count)%nat then Err InvalidSignatureSet
  else res_forall (fun '(slot, actual) => check_signature_slot record slot actual) (imap pair signatures).

Definition validate_all_member_signatures (record : ChannelRecord) (signatures : list MemberSignature)
    : res ChannelError unit :=
  _ ← validate_member_signature_slots record signatures;
  res_forall (fun actual =>
    ensure (length (MemberSignature.signature actual) =? FALCON_COSIGN_BLOB_BYTES)%nat InvalidSignatureSet)
    signatures.

(** ** Other digests *)

Section digests.
Context {K : Keccak}.

Definition channel_balance_leaf_digest {E} (channel_id : ChannelId) (pk_g : Bytes32)
    (balance_ciphertext : RegevCiphertext) : res E Bytes32 :=
  d ← Ct.digest balance_ciphertext;
  Ok (hash_words ([CHANNEL_BALANCE_LEAF_DOMAIN] ++ ChannelId.to_u32_vec channel_id
    ++ to_u32_vec pk_g ++ to_u32_vec d)).

(** One step of [merkle_root_from_proof]; the limb index underflows past depth 256. *)
Definition merkle_root_step {E} (leaf_index : U256) (current : Bytes32) (ds : nat * Bytes32)
    : res E Bytes32 :=
  let '(depth, sibling) := ds in
  let bits := to_u32_vec leaf_index in
  limb ← unwrap (if (depth / 32 <? length bits)%nat
                 then bits !! (length bits - 1 - depth / 32)%nat else None);
  let bit := Z.land (Z.shiftr limb (Z.of_nat (depth mod 32)%nat)) 1 in
  Ok (hash_words (if bit =? 0 then to_u32_vec current ++ to_u32_vec sibling
                  else to_u32_vec sibling ++ to_u32_vec current)).

Definition merkle_root_from_proof {E} (leaf : Bytes32) (proof : MerkleInclusionProof) : res E Bytes32 :=
  res_foldl (merkle_root_step (MerkleInclusionProof.leaf_index proof)) leaf
    (imap pair (MerkleInclusionProof.siblings proof)).

(** Padding cosigner slots contribute zero limbs. *)
Definition close_member_set_words (hashes : list Bytes32) (member_count : Z) : list Z :=
  [CLOSE_MEMBER_SET_DOMAIN; member_count]
    ++ (imap (fun i hash => if (i <? Z.to_nat member_count)%nat then hash else bytes32_default) hashes
          ≫= to_u32_vec).

Definition close_member_set_commitment (hashes : list Bytes32) (member_count : Z) : Bytes32 :=
  hash_words (close_member_set_words hashes member_count).

Definition l1_deposit_import_words (channel_id : ChannelId) (deposit_nullifier : Bytes32)
    (token_index amount depositor_slot : Z) : list Z :=
  [L1_DEPOSIT_IMPORT_DOMAIN_V2] ++ ChannelId.to_u32_vec channel_id ++ to_u32_vec deposit_nullifier
    ++ [token_index] ++ [wrap 32 amount; wrap 32 (Z.shiftr amount 32)] ++ [depositor_slot].

Definition l1_deposit_import_digest (channel_id : ChannelId) (deposit_nullifier : Bytes32)
    (token_index amount depositor_slot : Z) : Bytes32 :=
  hash_words (l1_deposit_import_words channel_id deposit_nullifier token_index amount depositor_slot).
End digests.
