(* ===== verification/ChannelProps.v ===== *)
(** * What the channel messages bind

    Theorems about [Channel]: the records a channel accepts, the signature
    sets it accepts, the close intents it builds, and, for every digest that is
    signed or used as an identity, that two preimages with the same digest are
    equal unless they exhibit a Keccak collision. *)

From S2P Require Import Prelude Limbs Poseidon Keccak Regev BalanceState BalanceStateProps Channel.

(** ** Records *)

Definition record_active (r : ChannelRecord) : nat :=
  (Z.to_nat (ChannelRecord.member_count r) + Z.to_nat (ChannelRecord.delegate_count r))%nat.

(** What [ChannelRecord::validate] promises. *)
Record record_valid (r : ChannelRecord) : Prop := {
  rv_regev_root : ChannelRecord.regev_pk_root r <> bytes32_default;
  rv_not_burn : ChannelRecord.channel_id r <> BURN_CHANNEL_ID;
  rv_members : (2 <= Z.to_nat (ChannelRecord.member_count r) <= MAX_SIG_CLUSTER)%nat;
  rv_producer : (Z.to_nat (ChannelRecord.bp_member_slot r) < Z.to_nat (ChannelRecord.member_count r))%nat;
  rv_active : (record_active r <= MAX_CHANNEL_MEMBERS)%nat;
  rv_keys : forall i pk, ChannelRecord.member_pk_gs r !! i = Some pk ->
    (pk = bytes32_default <-> (record_active r <= i)%nat);
  rv_distinct : forall i j pk, (i < j < record_active r)%nat ->
    ChannelRecord.member_pk_gs r !! i = Some pk -> ChannelRecord.member_pk_gs r !! j = Some pk -> False;
}.

Section records.
Import ChannelRecord.

Lemma guard_invalid_Ok (b : bool) (m : res ChannelError unit) u :
  (if b then invalid else m) = Ok u <-> b = false /\ m = Ok u.
Proof. destruct b; naive_solver. Qed.

Lemma guard_decide_Ok Q `{Decision Q} (m : res ChannelError unit) u :
  (if decide Q then invalid else m) = Ok u <-> ~ Q /\ m = Ok u.
Proof. destruct (decide Q); naive_solver. Qed.

Lemma check_distinct_Ok active i hash hashes u :
  check_distinct active i hash hashes = Ok u <->
  forall j, (i < j < active)%nat -> hashes !! j = Some hash -> False.
Proof.
  unfold check_distinct. rewrite res_forall_imap. setoid_rewrite guard_invalid_Ok.
  setoid_rewrite andb_false_iff. setoid_rewrite andb_false_iff. setoid_rewrite bool_decide_eq_false.
  setoid_rewrite Nat.ltb_ge. split.
  - intros H j Hj Hl. destruct (H j hash Hl) as [[[?|?]|?] _]; [lia..|done].
  - intros H j x Hl. split; [|by destruct u]. destruct (decide (hash = x)) as [<-|]; [|auto].
    left. destruct (decide (i < j)%nat); [|left; lia]. destruct (decide (j < active)%nat); [|right; lia].
    exfalso. eapply H; [split|]; eassumption.
Qed.

Lemma check_slot_Ok active hashes i hash u :
  check_slot active hashes i hash = Ok u <->
  (hash = bytes32_default <-> (active <= i)%nat) /\
  ((i < active)%nat -> forall j, (i < j < active)%nat -> hashes !! j = Some hash -> False).
Proof.
  unfold check_slot. destruct (Nat.ltb_spec i active).
  - rewrite guard_decide_Ok, check_distinct_Ok. naive_solver lia.
  - rewrite guard_decide_Ok. destruct (decide (hash = bytes32_default)), u; naive_solver lia.
Qed.

Lemma validate_record_Ok r u : validate r = Ok u <-> record_valid r.
Proof.
  unfold validate. rewrite guard_decide_Ok, !guard_invalid_Ok, orb_false_iff, !Nat.ltb_ge,
    Nat.leb_gt, negb_false_iff, Nat.leb_le, res_forall_imap, Z.eqb_neq.
  setoid_rewrite check_slot_Ok. fold (record_active r). split.
  - intros (Hr & Hb & [H2 Hm] & Hp & Ha & Hs). constructor; try done; [by apply Hs|].
    intros i j pk Hij Hi Hj. destruct (Hs i pk Hi) as [_ Hd]. eapply Hd; [lia|exact Hij|exact Hj].
  - intros []. split_and!; try done; try lia. intros i x Hi. split; [by apply rv_keys0|].
    intros _ j Hj Hl. by eapply rv_distinct0.
Qed.
End records.

(** ** Signature sets *)

(** Signature [sig] is member [slot]'s. *)
Definition signs_for (r : ChannelRecord) (slot : nat) (sig : MemberSignature) : Prop :=
  MemberSignature.member_slot sig = Z.of_nat slot /\
  ChannelRecord.member_pk_gs r !! slot = Some (MemberSignature.pk_g sig) /\
  length (MemberSignature.signature sig) = FALCON_COSIGN_BLOB_BYTES.

Lemma check_signature_slot_Ok r slot sig u :
  check_signature_slot r slot sig = Ok u <->
  MemberSignature.member_slot sig = Z.of_nat slot /\
  ChannelRecord.member_pk_gs r !! slot = Some (MemberSignature.pk_g sig) /\
  MemberSignature.signature sig <> [].
Proof.
  unfold check_signature_slot. destruct (Z.eqb_spec (MemberSignature.member_slot sig) (Z.of_nat slot)); cbn [negb];
    [|naive_solver].
  destruct (ChannelRecord.member_pk_gs r !! slot) as [pk|]; cbn; [|naive_solver].
  destruct (decide (MemberSignature.pk_g sig = pk));
    [rewrite decide_False by tauto | rewrite decide_True by done; naive_solver].
  destruct (decide (MemberSignature.signature sig = [])), u; naive_solver.
Qed.

Lemma validate_all_member_signatures_Ok r sigs u :
  validate_all_member_signatures r sigs = Ok u <->
  record_valid r /\ length sigs = Z.to_nat (ChannelRecord.member_count r) /\
  forall slot sig, sigs !! slot = Some sig -> signs_for r slot sig.
Proof.
  unfold validate_all_member_signatures, validate_member_signature_slots.
  rewrite !seq_bind_Ok, validate_record_Ok. split.
  - intros [[Hv H] Hb]. destruct (_ =? _)%nat eqn:Hl in H; [|done]. cbn [negb] in H.
    apply Nat.eqb_eq in Hl. split_and!; try done. intros slot sig Hs.
    rewrite res_forall_imap in H. specialize (H slot sig Hs). apply check_signature_slot_Ok in H as (? & ? & _).
    rewrite res_forall_Ok in Hb. eapply Forall_lookup_1 in Hb; [|exact Hs].
    apply ensure_Ok, Nat.eqb_eq in Hb. by split_and!.
  - intros (Hv & Hl & Hs). rewrite Hl, Nat.eqb_refl. cbn [negb]. split_and!; try done.
    + rewrite res_forall_imap. intros i x Hx. destruct (Hs i x Hx) as (? & ? & Hb).
      apply check_signature_slot_Ok. split_and!; try done. intros Hnil. rewrite Hnil in Hb.
      pose proof FALCON_COSIGN_BLOB_BYTES_pos. cbn in Hb. lia.
    + rewrite res_forall_Ok. apply Forall_lookup. intros i x Hx. destruct (Hs i x Hx) as (_ & _ & Hb).
      apply ensure_Ok. by apply Nat.eqb_eq.
Qed.

(** ** Close intents *)

(** The intent [i] closes [s] through the withdrawal [w]. *)
Record closes {K : Keccak} {P : Poseidon} (s : ChannelState) (w : CloseWithdrawal) (i : CloseIntent) : Prop := {
  cl_channel : CloseWithdrawal.channel_id w = ChannelState.channel_id s;
  cl_digest : CloseWithdrawal.final_channel_state_digest w = ChannelState.digest s;
  cl_h1 : BalanceState.h1 (E := ChannelError) (ChannelState.balance_state s)
            = Ok (CloseWithdrawal.final_balance_state_h1 w);
  cl_root : CloseWithdrawal.intmax_state_root w = ChannelFund.intmax_state_root (ChannelState.channel_fund s);
  cl_burn_hash : CloseWithdrawal.burn_tx_hash w = bytes32_default;
  cl_burn : ChannelFund.amounts (ChannelState.channel_fund s) !! 0%nat = Some (CloseWithdrawal.burn_amount w);
  cl_nonce : ChannelState.close_freeze_nonce s + 1 < 2 ^ 64;
  cl_intent : i = {|
    CloseIntent.channel_id := ChannelState.channel_id s;
    CloseIntent.close_nonce := ChannelState.close_freeze_nonce s + 1;
    CloseIntent.final_epoch := ChannelState.epoch s;
    CloseIntent.final_small_block_number := ChannelState.small_block_number s;
    CloseIntent.close_freeze_nonce := ChannelState.close_freeze_nonce s + 1;
    CloseIntent.final_channel_state_digest := ChannelState.digest s;
    CloseIntent.final_balance_state_h1 := CloseWithdrawal.final_balance_state_h1 w;
    CloseIntent.channel_fund_snapshot := ChannelState.channel_fund s;
    CloseIntent.burn_tx_hash := bytes32_default;
    CloseIntent.close_withdrawal_digest := CloseWithdrawal.signing_digest w;
    CloseIntent.snapshot_medium_block_number := 0;
    CloseIntent.final_state_version := BalanceState.state_version (ChannelState.balance_state s);
    CloseIntent.final_settled_tx_chain := BalanceState.settled_tx_chain (ChannelState.balance_state s);
  |};
}.

Section close.
Context {K : Keccak} {P : Poseidon}.

Lemma close_intent_new_Ok s w i :
  in_width 64 (ChannelState.close_freeze_nonce s) -> CloseIntent.new s w = Ok i <-> closes s w i.
Proof.
  intros Hn. unfold CloseIntent.new, CloseIntent.bind_if. split.
  - intros H. simplify_res. simplify_bool. subst.
    match goal with H : checked_add _ _ _ = Some _ |- _ =>
      unfold checked_add in H; case_match; simplify_eq end.
    simplify_bool. constructor; try done; congruence.
  - intros [Hc Hd Hh Hr Hb Ha Hw ->].
    rewrite Hc, Hd, Hh, Hr, Hb, Ha, Z.eqb_refl. cbn -[Z.pow Z.ltb].
    repeat (rewrite bool_decide_eq_true_2 by done; cbn -[Z.pow Z.ltb]).
    unfold checked_add. destruct (Z.ltb_spec (ChannelState.close_freeze_nonce s + 1) (2 ^ 64)); [done|lia].
Qed.
End close.

(** ** Digests *)

(** The field widths of the Rust structs that the digests read. *)
Record state_words_typed (s : ChannelState) : Prop := {
  sw_balance : typed (ChannelState.balance_state s);
  sw_epoch : in_width 64 (ChannelState.epoch s);
  sw_block : in_width 64 (ChannelState.small_block_number s);
  sw_nonce : in_width 64 (ChannelState.close_freeze_nonce s);
  sw_amounts : length (ChannelFund.amounts (ChannelState.channel_fund s)) = MAX_CHANNEL_TOKENS;
}.

Section binding.
Context {K : Keccak}.

Lemma channel_state_words_inj s s' h h' :
  state_words_typed s -> state_words_typed s' ->
  ChannelState.signing_words s h = ChannelState.signing_words s' h' ->
  h = h' /\
  ChannelState.channel_id s = ChannelState.channel_id s' /\
  ChannelState.epoch s = ChannelState.epoch s' /\
  ChannelState.small_block_number s = ChannelState.small_block_number s' /\
  ChannelState.close_freeze_nonce s = ChannelState.close_freeze_nonce s' /\
  ChannelState.channel_fund s = ChannelState.channel_fund s' /\
  ChannelState.shared_native_nullifier_root s = ChannelState.shared_native_nullifier_root s' /\
  ChannelState.unallocated_confirmed_incoming s = ChannelState.unallocated_confirmed_incoming s' /\
  ChannelState.prev_digest s = ChannelState.prev_digest s' /\
  ChannelState.h2_tag s = ChannelState.h2_tag s'.
Proof.
  intros [Hb He Hn Hc Ha] [Hb' He' Hn' Hc' Ha'] H. unfold ChannelState.signing_words in H.
  split_preimage H. apply limbs_list_app_inj in H as [? H]; [|congruence]. split_preimage H.
  destruct (ChannelState.channel_fund s), (ChannelState.channel_fund s'). cbn in *. subst.
  by split_and!.
Qed.

Lemma channel_tx_words_inj c d e n t a b c' d' e' n' t' a' b' :
  ChannelTx.signing_words c d e n t a b = ChannelTx.signing_words c' d' e' n' t' a' b' ->
  c = c' /\ d = d' /\ e = e' /\ n = n' /\ t = t' /\ a = a' /\ b = b'.
Proof.
  unfold ChannelTx.signing_words. intros H. split_preimage H. apply Limbs_eq in H. by split_and!.
Qed.

Lemma withdrawal_nullifier_words_inj d p t d' p' t' :
  WithdrawalClaim.nullifier_words d p t = WithdrawalClaim.nullifier_words d' p' t' ->
  d = d' /\ p = p' /\ t = t'.
Proof.
  unfold WithdrawalClaim.nullifier_words. intros H. split_preimage H. by injection H.
Qed.

Lemma post_close_nullifier_words_inj d t r d' t' r' :
  PostCloseIncomingClaim.nullifier_words d t r = PostCloseIncomingClaim.nullifier_words d' t' r' ->
  d = d' /\ t = t' /\ r = r'.
Proof.
  unfold PostCloseIncomingClaim.nullifier_words. intros H. split_preimage H. apply Limbs_eq in H. by split_and!.
Qed.

Lemma close_state_id_words_inj c d n c' d' n' :
  in_width 64 n -> in_width 64 n' ->
  close_state_id_words c d n = close_state_id_words c' d' n' -> c = c' /\ d = d' /\ n = n'.
Proof.
  intros Hn Hn'. unfold close_state_id_words. intros H.
  split_preimage H. rewrite <- (app_nil_r (split_u64 n)), <- (app_nil_r (split_u64 n')) in H.
  apply split_u64_app_inj in H as [? _]; [|done..]. by split_and!.
Qed.

Lemma token_funds_words_inj r c a r' c' a' :
  length r = length r' -> length a = length a' ->
  token_funds_words r c a = token_funds_words r' c' a' -> r = r' /\ c = c' /\ a = a'.
Proof.
  intros Hr Ha. unfold token_funds_words. intros H. injection H as H.
  apply app_inj_1 in H as [-> H]; [|done]. injection H as -> H.
  rewrite <- (app_nil_r (a ≫= _)), <- (app_nil_r (a' ≫= _)) in H.
  apply limbs_list_app_inj in H as [-> _]; [|done]. done.
Qed.

(** The members below the count decide the commitment's words. *)
Lemma close_member_set_words_inj hs n hs' n' :
  length hs = length hs' ->
  close_member_set_words hs n = close_member_set_words hs' n' ->
  n = n' /\ take (Z.to_nat n) hs = take (Z.to_nat n) hs'.
Proof.
  intros Hl. unfold close_member_set_words. intros H. injection H as -> H. split; [done|].
  rewrite <- (app_nil_r (imap _ hs ≫= _)), <- (app_nil_r (imap _ hs' ≫= _)) in H.
  apply limbs_list_app_inj in H as [H _]; [|by rewrite !length_imap].
  apply list_eq. intros i. destruct (decide (i < Z.to_nat n')%nat) as [Hi|Hi];
    [|by rewrite !lookup_take_ge by lia].
  rewrite !lookup_take_lt by done. apply (f_equal (lookup i)) in H. rewrite !list_lookup_imap in H.
  rewrite (proj2 (Nat.ltb_lt i (Z.to_nat n')) Hi) in H.
  destruct (hs !! i), (hs' !! i); cbn in H; congruence.
Qed.

(** Two applications of the settle chain: the outer value fixes both arguments. *)
Lemma settled_tx_chain_push_inj c l c' l' :
  settled_tx_chain_push c l = settled_tx_chain_push c' l' ->
  (c = c' /\ l = l') \/
  keccak_collision ([SETTLED_TX_CHAIN_DOMAIN] ++ to_u32_vec c ++ to_u32_vec l)
                   ([SETTLED_TX_CHAIN_DOMAIN] ++ to_u32_vec c' ++ to_u32_vec l').
Proof.
  unfold settled_tx_chain_push. intros [H|H]%hash_words_inj_or; [left|by right].
  split_preimage H. by apply Limbs_eq in H as ->.
Qed.

Lemma ids_word_Ok {E} s d t (b : Bytes32) :
  in_width 32 s -> in_width 32 d -> ids_word (E := E) s d t = Ok b ->
  to_u32_vec b = [0; 0; 0; 0; 0; t; d; s].
Proof.
  intros Hs Hd H. apply limbs_try_into_Ok in H. unfold to_u32_vec. rewrite H. by rewrite !wrap_id.
Qed.
End binding.

(** Equal digests of valid states: equal states up to their signatures, or a collision in hand. *)
Lemma state_digest_binding {K : Keccak} {P : Poseidon} {PO : PoseidonOutput P} {E} s s' h h' :
  state_words_typed s -> state_words_typed s' ->
  valid (ChannelState.balance_state s) -> valid (ChannelState.balance_state s') ->
  BalanceState.h1 (E := E) (ChannelState.balance_state s) = Ok h ->
  BalanceState.h1 (E := E) (ChannelState.balance_state s') = Ok h' ->
  ChannelState.signing_digest (E := E) s = Ok (ChannelState.digest s) ->
  ChannelState.signing_digest (E := E) s' = Ok (ChannelState.digest s') ->
  ChannelState.digest s = ChannelState.digest s' ->
  ChannelState.with_signatures s [] = ChannelState.with_signatures s' [] \/
  keccak_collision (ChannelState.signing_words s h) (ChannelState.signing_words s' h') \/
  collision hash_inputs_u64 (poseidon_queries (ChannelState.balance_state s))
    (poseidon_queries (ChannelState.balance_state s')) \/
  collision hash_words (keccak_queries (ChannelState.balance_state s))
    (keccak_queries (ChannelState.balance_state s')).
Proof.
  intros Hty Hty' Hv Hv' Hh Hh' Hd Hd' Heq. unfold ChannelState.signing_digest in Hd, Hd'.
  rewrite Hh in Hd. rewrite Hh' in Hd'. cbn in Hd, Hd'. simplify_res.
  rewrite <- Hd, <- Hd' in Heq. apply hash_words_inj_or in Heq as [Hw|Hc]; [|auto].
  apply channel_state_words_inj in Hw as (<- & ? & ? & ? & ? & ? & ? & ? & ? & ?); [|done..].
  destruct (h1_binding (E := E) (ChannelState.balance_state s) (ChannelState.balance_state s') h)
    as [Hb|[?|?]]; eauto using valid_well_shaped, valid_ciphertexts_ok, sw_balance.
  left. destruct s, s'. cbn in *. subst. f_equal; congruence.
Qed.


(** ** The hash of an inter-channel transaction *)

Section tx_hash.
Context {K : Keccak}.

Definition chain_words (chain leaf : Bytes32) : list Z :=
  [SETTLED_TX_CHAIN_DOMAIN] ++ to_u32_vec chain ++ to_u32_vec leaf.

Definition ids_words (t : InterChannelTx) : list Z :=
  [0; 0; 0; 0; 0; InterChannelTx.token_index t; InterChannelTx.destination_channel_id t;
   InterChannelTx.source_channel_id t].

Definition tx_root_of (t : InterChannelTx) : Bytes32 :=
  SmallBlockRootMessage.tx_tree_root (InterChannelTx.message t).

Definition ct_hash (ct : RegevCiphertext) : Bytes32 := hash_words (Ct.digest_words ct).

Definition tx_sender_words (t : InterChannelTx) : list Z :=
  sender_wing_words (InterChannelTx.source_pk_g t) (ct_hash (InterChannelTx.sender_delta_ct t)).

Definition tx_receiver_words (r : ReceiverBalanceDelta) : list Z :=
  receiver_wing_words (ReceiverBalanceDelta.receiver_pk_g r) (ReceiverBalanceDelta.receiver_regev_pk_digest r)
    (ct_hash (ReceiverBalanceDelta.amount r)).

Definition tx_leaf_words (t : InterChannelTx) (r : ReceiverBalanceDelta) : list Z :=
  to_u32_vec (hash_words (tx_sender_words t)) ++ to_u32_vec (hash_words (tx_receiver_words r)).

Definition tx_mixed_words (t : InterChannelTx) (r : ReceiverBalanceDelta) : list Z :=
  chain_words (tx_root_of t) (hash_words (tx_leaf_words t r)).

Definition tx_top_words (t : InterChannelTx) (r : ReceiverBalanceDelta) : list Z :=
  [SETTLED_TX_CHAIN_DOMAIN] ++ ids_words t ++ to_u32_vec (hash_words (tx_mixed_words t r)).

(** Every word list that is hashed on the way to the transaction hash. *)
Definition tx_queries (t : InterChannelTx) (r : ReceiverBalanceDelta) : list (list Z) :=
  [Ct.digest_words (InterChannelTx.sender_delta_ct t); Ct.digest_words (ReceiverBalanceDelta.amount r);
   tx_sender_words t; tx_receiver_words r; tx_leaf_words t r; tx_mixed_words t r; tx_top_words t r].

Record tx_typed (t : InterChannelTx) : Prop := {
  tt_source : in_width 32 (InterChannelTx.source_channel_id t);
  tt_destination : in_width 32 (InterChannelTx.destination_channel_id t);
  tt_token : in_width 32 (InterChannelTx.token_index t);
}.

Lemma compute_tx_hash_Ok t h :
  tx_typed t -> InterChannelTx.compute_tx_hash t = Ok h ->
  exists r, head (InterChannelTx.receiver_deltas t) = Some r /\
    ct_ok (InterChannelTx.sender_delta_ct t) /\ ct_ok (ReceiverBalanceDelta.amount r) /\
    h = hash_words (tx_top_words t r).
Proof.
  intros [Hs Hd Ht]. unfold InterChannelTx.compute_tx_hash, InterChannelTx.tx_leaf_hash, inter_channel_tx_hash.
  intros H. simplify_res. apply ct_digest_Ok in Hr2 as [? ->], Hr3 as [? ->].
  apply ids_word_Ok in Hr0; [|done..]. eexists. split_and!; try done.
  unfold settled_tx_chain_push. by rewrite Hr0.
Qed.

(** What the transaction hash fixes. *)
Record same_tx_content (t t' : InterChannelTx) (r r' : ReceiverBalanceDelta) : Prop := {
  tc_source : InterChannelTx.source_channel_id t = InterChannelTx.source_channel_id t';
  tc_destination : InterChannelTx.destination_channel_id t = InterChannelTx.destination_channel_id t';
  tc_token : InterChannelTx.token_index t = InterChannelTx.token_index t';
  tc_root : tx_root_of t = tx_root_of t';
  tc_sender : InterChannelTx.source_pk_g t = InterChannelTx.source_pk_g t';
  tc_sender_delta : InterChannelTx.sender_delta_ct t = InterChannelTx.sender_delta_ct t';
  tc_receiver : r = r';
}.

Lemma tx_top_words_inj t t' r r' :
  no_collision hash_words (tx_queries t r) (tx_queries t' r') ->
  ct_ok (InterChannelTx.sender_delta_ct t) -> ct_ok (InterChannelTx.sender_delta_ct t') ->
  ct_ok (ReceiverBalanceDelta.amount r) -> ct_ok (ReceiverBalanceDelta.amount r') ->
  hash_words (tx_top_words t r) = hash_words (tx_top_words t' r') -> same_tx_content t t' r r'.
Proof.
  intros Hnc Hs Hs' Hr Hr' H.
  assert (forall i x y, tx_queries t r !! i = Some x -> tx_queries t' r' !! i = Some y ->
            hash_words x = hash_words y -> x = y) as Hq
    by (intros i x y Hx Hy; apply Hnc; by eapply list_elem_of_lookup_2).
  apply (Hq 6%nat) in H; [|done..]. injection H as Htok Hdst Hsrc H. apply Limbs_eq in H.
  apply (Hq 5%nat) in H; [|done..]. unfold tx_mixed_words, chain_words in H. split_preimage H. apply Limbs_eq in H.
  apply (Hq 4%nat) in H; [|done..]. unfold tx_leaf_words in H. split_preimage H. apply Limbs_eq in H.
  match goal with H : hash_words (tx_sender_words _) = _ |- _ => apply (Hq 2%nat) in H as Hsend; [|done..] end.
  apply (Hq 3%nat) in H; [|done..].
  unfold tx_sender_words, sender_wing_words in Hsend. split_preimage Hsend. apply Limbs_eq in Hsend.
  apply (Hq 0%nat) in Hsend; [|done..]. apply digest_words_inj in Hsend; [|done..].
  unfold tx_receiver_words, receiver_wing_words in H. split_preimage H. apply Limbs_eq in H.
  apply (Hq 1%nat) in H; [|done..]. apply digest_words_inj in H; [|done..].
  destruct r, r'. cbn in *. subst. by constructor.
Qed.
End tx_hash.
