(* ===== verification/StateUpdate.v ===== *)
(** * Verification of channel state updates

    Models [src/src/circuits/channel/state_update_verifier.rs]: the seven
    [*UpdateWitness::verify] functions that a co-signer runs before it signs a
    next state, and the shared checks they are made of, in source order with
    every early return.

    The proof systems behind the two verifier traits are parameters: the trait
    [ChannelProofVerifier] (transport proofs) and [RegevProofVerifier] (the
    lattice STARKs) are classes here.  Arithmetic on epochs, versions and
    counters wraps as in the release build. *)

From S2P Require Import Prelude Limbs MerkleTree LeafTrees Poseidon Keccak Regev BalanceState Channel.

Definition BALANCE_REFRESH_ZKP_DOMAIN : Z := 0x494d5246.
Definition SETTLED_TX_ACCUMULATOR_HEIGHT : nat := 20.

(** [ChannelStateUpdateError] without its messages. *)
Inductive ChannelStateUpdateError :=
| InvalidProofRole (expected actual : TransitionProofRole)
| InvalidProofBackend (expected actual : ProofBackend)
| InvalidStateLinkage
| InvalidRegevPkRoot
| InvalidStateVersion
| InvalidH2Tag
| InvalidSettledTxChain
| InvalidCiphertextTransition
| InvalidPendingAdds
| InvalidAmountRelation
| InvalidRootTransition
| InvalidTransitionDigest
| InvalidReceiverDeltaBundle
| InvalidSmallBlock
| InvalidMemberSignatures
| InvalidDecryption
| ProofVerificationFailed
| PublicInputMismatch.

Notation result := (res ChannelStateUpdateError).

Definition u64_to_u256 (value : Z) : result U256 :=
  limbs_try_into U256_LEN [0; 0; 0; 0; 0; 0; wrap 32 (Z.shiftr value 32); wrap 32 value].

Definition hash_member {K : Keccak} (pubkey_hash : Bytes32) : Bytes32 := hash_words (to_u32_vec pubkey_hash).

Module PublicInputs.
Record ChannelStateUpdatePublicInputs := mk {
  kind : ChannelTransitionKind;
  channel_id : ChannelId;
  prev_state_digest : Bytes32;
  next_state_digest : Bytes32;
  amount : Z;
  prev_state_version : Z;
  next_state_version : Z;
  h2_tag : Bytes32;
  prev_settled_tx_chain : Bytes32;
  next_settled_tx_chain : Bytes32;
  receiver_entry_count : Z;
  sender_user_id_hash : Bytes32;
  receiver_user_id_hash : Bytes32;
  channel_fund_before : list U256;
  channel_fund_after : list U256;
  unallocated_before : U256;
  unallocated_after : U256;
  shared_nullifier_before : Bytes32;
  shared_nullifier_after : Bytes32;
  transition_digest : Bytes32;
}.

Definition digest_words (p : ChannelStateUpdatePublicInputs) : list Z :=
  [kind_u32 (kind p)] ++ ChannelId.to_u32_vec (channel_id p)
    ++ to_u32_vec (prev_state_digest p) ++ to_u32_vec (next_state_digest p)
    ++ split_u64 (amount p) ++ split_u64 (prev_state_version p) ++ split_u64 (next_state_version p)
    ++ to_u32_vec (h2_tag p) ++ to_u32_vec (prev_settled_tx_chain p)
    ++ to_u32_vec (next_settled_tx_chain p) ++ split_u64 (receiver_entry_count p)
    ++ to_u32_vec (sender_user_id_hash p) ++ to_u32_vec (receiver_user_id_hash p)
    ++ (channel_fund_before p ≫= to_u32_vec) ++ (channel_fund_after p ≫= to_u32_vec)
    ++ to_u32_vec (unallocated_before p) ++ to_u32_vec (unallocated_after p)
    ++ to_u32_vec (shared_nullifier_before p) ++ to_u32_vec (shared_nullifier_after p)
    ++ to_u32_vec (transition_digest p).

Definition digest {K : Keccak} (p : ChannelStateUpdatePublicInputs) : Bytes32 :=
  hash_words (digest_words p).

(** The literal that ends every [verify]: the fields all of them read from the two states. *)
Definition of_states (k : ChannelTransitionKind) (prev next : ChannelState) (amount count : Z)
    (sender receiver td : Bytes32) : ChannelStateUpdatePublicInputs := {|
  kind := k;
  channel_id := ChannelState.channel_id prev;
  prev_state_digest := ChannelState.digest prev;
  next_state_digest := ChannelState.digest next;
  amount := amount;
  prev_state_version := BalanceState.state_version (ChannelState.balance_state prev);
  next_state_version := BalanceState.state_version (ChannelState.balance_state next);
  h2_tag := ChannelState.h2_tag next;
  prev_settled_tx_chain := BalanceState.settled_tx_chain (ChannelState.balance_state prev);
  next_settled_tx_chain := BalanceState.settled_tx_chain (ChannelState.balance_state next);
  receiver_entry_count := count;
  sender_user_id_hash := sender;
  receiver_user_id_hash := receiver;
  channel_fund_before := ChannelFund.amounts (ChannelState.channel_fund prev);
  channel_fund_after := ChannelFund.amounts (ChannelState.channel_fund next);
  unallocated_before := ChannelState.unallocated_confirmed_incoming prev;
  unallocated_after := ChannelState.unallocated_confirmed_incoming next;
  shared_nullifier_before := ChannelState.shared_native_nullifier_root prev;
  shared_nullifier_after := ChannelState.shared_native_nullifier_root next;
  transition_digest := td;
|}.
End PublicInputs.
Notation ChannelStateUpdatePublicInputs := PublicInputs.ChannelStateUpdatePublicInputs.

(** ** Proof verifiers *)

Inductive RegevProofPurpose :=
| WithdrawClaim
| BalanceRefreshPurpose
| ChannelTxDecrypted
| ChannelUpdateDecrypted.

Inductive RegevStatement :=
| StChannelTx (sender_pk recipient_pk : RegevPk) (before enc_amount after : RegevCiphertext)
| StChannelUpdate (sender_pk recipient_pk : RegevPk)
    (before after sender_delta receiver_delta : RegevCiphertext) (amount token_index : Z)
| StWithdrawClaim (user_pk : RegevPk) (user_amount_ct : RegevCiphertext) (amount : Z)
| StBalanceRefresh (pk : RegevPk) (old_ct new_ct : RegevCiphertext).

Class ChannelProofVerifier := {
  verify_channel_proof : ChannelProofEnvelope -> ChannelStateUpdatePublicInputs -> result unit;
}.

Class RegevProofVerifier := {
  verify_regev_proof : ChannelProofEnvelope -> RegevProofPurpose -> RegevStatement -> result unit;
}.

(** [impl RegevProofVerifier for RealRegevProofVerifier], over the STARK verifier it calls. *)
Definition real_regev_verify (stark : RegevProofPurpose -> list Z -> RegevStatement -> res RegevError unit)
    (envelope : ChannelProofEnvelope) (purpose : RegevProofPurpose) (statement : RegevStatement)
    : result unit :=
  if decide (ChannelProofEnvelope.role envelope <> ChannelStateUpdate)
  then Err (InvalidProofRole ChannelStateUpdate (ChannelProofEnvelope.role envelope))
  else if decide (ChannelProofEnvelope.backend envelope <> Plonky3)
  then Err (InvalidProofBackend Plonky3 (ChannelProofEnvelope.backend envelope))
  else map_err (fun _ => ProofVerificationFailed)
         (stark purpose (ChannelProofEnvelope.proof envelope) statement).

Definition verify_decrypted_transfer_proof {VR : RegevProofVerifier} (envelope : ChannelProofEnvelope)
    (statement : RegevStatement) : result unit :=
  match statement with
  | StChannelTx _ _ _ _ _ => verify_regev_proof envelope ChannelTxDecrypted statement
  | StChannelUpdate _ _ _ _ _ _ _ _ => verify_regev_proof envelope ChannelUpdateDecrypted statement
  | _ => Err ProofVerificationFailed
  end.

Definition verify_proof {VP : ChannelProofVerifier} (proof : ChannelProofEnvelope)
    (expected_role : TransitionProofRole) (expected_backend : ProofBackend)
    (public_inputs : ChannelStateUpdatePublicInputs) : result unit :=
  if decide (ChannelProofEnvelope.role proof <> expected_role)
  then Err (InvalidProofRole expected_role (ChannelProofEnvelope.role proof))
  else if decide (ChannelProofEnvelope.backend proof <> expected_backend)
  then Err (InvalidProofBackend expected_backend (ChannelProofEnvelope.backend proof))
  else verify_channel_proof proof public_inputs.

(** ** Shared checks *)

Notation bal s := (ChannelState.balance_state s) (only parsing).

Section checks.
Context {K : Keccak} {P : Poseidon}.
Implicit Types prev next : ChannelState.

Definition verify_state_linkage prev next : result unit :=
  _ ← ensure (ChannelState.channel_id prev =? ChannelState.channel_id next) InvalidStateLinkage;
  _ ← ensure (ChannelState.epoch next =? wrap 64 (ChannelState.epoch prev + 1)) InvalidStateLinkage;
  _ ← ensure (bool_decide (ChannelState.prev_digest next = ChannelState.digest prev)) InvalidStateLinkage;
  prev_signing ← ChannelState.signing_digest prev;
  _ ← ensure (bool_decide (ChannelState.digest prev = prev_signing)) InvalidStateLinkage;
  next_signing ← ChannelState.signing_digest next;
  ensure (bool_decide (ChannelState.digest next = next_signing)) InvalidStateLinkage.

Definition counts_match (record : ChannelRecord) (s : ChannelState) : bool :=
  (BalanceState.member_count (bal s) =? ChannelRecord.member_count record)
  && (BalanceState.delegate_count (bal s) =? ChannelRecord.delegate_count record).

Definition verify_ordinary_state_metadata (record : ChannelRecord) prev next : result unit :=
  _ ← res_forall (fun s => ensure (counts_match record s) InvalidStateLinkage) [prev; next];
  ensure (ChannelState.close_freeze_nonce next =? ChannelState.close_freeze_nonce prev)
    InvalidStateLinkage.

Definition require_small_block_unchanged prev next : result unit :=
  ensure (ChannelState.small_block_number next =? ChannelState.small_block_number prev)
    InvalidStateLinkage.

Definition verify_balance_state_shared (record : ChannelRecord) prev next : result unit :=
  _ ← verify_ordinary_state_metadata record prev next;
  _ ← map_err (fun _ => InvalidCiphertextTransition) (BalanceState.validate (bal prev));
  _ ← map_err (fun _ => InvalidCiphertextTransition) (BalanceState.validate (bal next));
  _ ← ensure ((BalanceState.channel_id (bal prev) =? ChannelState.channel_id prev)
              && (BalanceState.channel_id (bal next) =? ChannelState.channel_id next)
              && (ChannelState.channel_id prev =? ChannelRecord.channel_id record))
        InvalidStateLinkage;
  _ ← ensure (BalanceState.state_version (bal next) =? wrap 64 (BalanceState.state_version (bal prev) + 1))
        InvalidStateVersion;
  _ ← ensure (bool_decide (BalanceState.recipients (bal prev) = BalanceState.recipients (bal next)))
        InvalidStateLinkage;
  ensure (bool_decide (BalanceState.regev_pk_digests (bal prev) = BalanceState.regev_pk_digests (bal next)))
    InvalidStateLinkage.

Definition verify_balance_state_common (record : ChannelRecord) prev next : result unit :=
  _ ← verify_balance_state_shared record prev next;
  ensure (bool_decide (BalanceState.token_registry (bal prev) = BalanceState.token_registry (bal next))
          && (BalanceState.token_count (bal prev) =? BalanceState.token_count (bal next)))
    InvalidStateLinkage.

Definition verify_regev_pk_root (record : ChannelRecord) (regev_pks : list RegevPk) : result unit :=
  _ ← res_forall (fun pk => map_err (fun _ => InvalidRegevPkRoot) (Pk.validate pk)) regev_pks;
  root ← regev_pk_root regev_pks;
  ensure (bool_decide (root = ChannelRecord.regev_pk_root record)) InvalidRegevPkRoot.

Definition require_h2_zero next : result unit :=
  ensure (bool_decide (ChannelState.h2_tag next = bytes32_default)) InvalidH2Tag.

Definition require_chain_unchanged prev next : result unit :=
  ensure (bool_decide (BalanceState.settled_tx_chain (bal next) = BalanceState.settled_tx_chain (bal prev)))
    InvalidSettledTxChain.

Definition require_chain_push prev next (leaf : Bytes32) : result unit :=
  let expected := settled_tx_chain_push (BalanceState.settled_tx_chain (bal prev)) leaf in
  ensure (bool_decide (BalanceState.settled_tx_chain (bal next) = expected)) InvalidSettledTxChain.

Definition require_accumulator_push (prev_accumulator : Incremental.IncrementalMerkleTree Bytes32)
    (tx_hash next_root : Bytes32) : result unit :=
  advanced ← Incremental.push prev_accumulator tx_hash;
  root ← (Incremental.get_root advanced : result PHash);
  expected ← phash_into_bytes32 root;
  ensure (bool_decide (expected = next_root)) InvalidSettledTxChain.

Definition require_incoming_application (prev_root next_root tx_hash : Bytes32) (index : Z)
    (proof : MerkleProof (Hs := PoseidonLeafableHasher)) : result unit :=
  if (2 ^ Z.of_nat SETTLED_TX_ACCUMULATOR_HEIGHT <=? index)
     || negb (length (siblings proof) =? SETTLED_TX_ACCUMULATOR_HEIGHT)%nat
  then Err InvalidSettledTxChain
  else
    before ← (proof_get_root (V := Bytes32) proof (unapplied_incoming_leaf tx_hash) index : result PHash);
    before_root ← phash_into_bytes32 before;
    _ ← ensure (bool_decide (before_root = prev_root)) InvalidSettledTxChain;
    after ← (proof_get_root (V := Bytes32) proof tx_hash index : result PHash);
    after_root ← phash_into_bytes32 after;
    ensure (bool_decide (after_root = next_root)) InvalidSettledTxChain.

Definition require_accumulator_unchanged (prev_root next_root : Bytes32) : result unit :=
  ensure (bool_decide (prev_root = next_root)) InvalidSettledTxChain.

Definition ensure_slot_unchanged prev next (index : nat) : result unit :=
  a ← unwrap (BalanceState.enc_balances (bal prev) !! index);
  b ← unwrap (BalanceState.enc_balances (bal next) !! index);
  ensure (bool_decide (a = b)) InvalidCiphertextTransition.

(** [enc_balances[index][t]]. *)
Definition ct_at (s : ChannelState) (index t : nat) : result RegevCiphertext :=
  row ← unwrap (BalanceState.enc_balances (bal s) !! index);
  unwrap (row !! t).

(** [pending_adds[index][t]]. *)
Definition adds_at (s : ChannelState) (index t : nat) : result Z :=
  row ← unwrap (BalanceState.pending_adds (bal s) !! index);
  unwrap (row !! t).

Definition ensure_row_unchanged_except prev next (index token_slot : nat) : result unit :=
  res_forall (fun t =>
    if (t =? token_slot)%nat then Ok tt
    else
      a ← ct_at prev index t;
      b ← ct_at next index t;
      ensure (bool_decide (a = b)) InvalidCiphertextTransition)
    (seq 0 MAX_CHANNEL_TOKENS).

Definition require_pending_adds_unchanged prev next (index : nat) : result unit :=
  a ← unwrap (BalanceState.pending_adds (bal prev) !! index);
  b ← unwrap (BalanceState.pending_adds (bal next) !! index);
  ensure (bool_decide (a = b)) InvalidPendingAdds.

Definition require_pending_adds_unchanged_except prev next (index token_slot : nat) : result unit :=
  res_forall (fun t =>
    if (t =? token_slot)%nat then Ok tt
    else
      a ← adds_at prev index t;
      b ← adds_at next index t;
      ensure (a =? b) InvalidPendingAdds)
    (seq 0 MAX_CHANNEL_TOKENS).

Definition require_pending_add_increment prev next (index token_slot : nat) : result unit :=
  before ← adds_at prev index token_slot;
  after ← adds_at next index token_slot;
  _ ← ensure (before <? MAX_HOMO_ADDS_BEFORE_REFRESH) InvalidPendingAdds;
  _ ← ensure (after =? wrap 32 (before + 1)) InvalidPendingAdds;
  require_pending_adds_unchanged_except prev next index token_slot.

Definition require_token_bearing_tx_hash (tx : InterChannelTx) : result unit :=
  recomputed ← map_err (fun _ => InvalidSettledTxChain) (InterChannelTx.compute_tx_hash tx);
  ensure (bool_decide (recomputed = InterChannelTx.tx_hash tx)) InvalidSettledTxChain.

(** [iter().position(..)] over the active registry prefix. *)
Definition resolve_token_slot (s : BalanceState.BalanceState) (token_index : Z) : result nat :=
  let token_count := Nat.min (Z.to_nat (BalanceState.token_count s)) MAX_CHANNEL_TOKENS in
  ok_or (fst <$> list_find (fun index => index = token_index)
           (take token_count (BalanceState.token_registry s))) InvalidAmountRelation.

Definition ensure_fund_identity_unchanged prev next : result unit :=
  _ ← ensure (ChannelFund.channel_id (ChannelState.channel_fund prev)
              =? ChannelFund.channel_id (ChannelState.channel_fund next)) InvalidRootTransition;
  ensure (bool_decide (ChannelFund.intmax_state_root (ChannelState.channel_fund prev)
                       = ChannelFund.intmax_state_root (ChannelState.channel_fund next)))
    InvalidRootTransition.

(** [channel_fund.amounts[t]]. *)
Definition fund_at (s : ChannelState) (t : nat) : result U256 :=
  unwrap (ChannelFund.amounts (ChannelState.channel_fund s) !! t).

Definition ensure_funds_unchanged_except prev next (token_slot : nat) : result unit :=
  res_forall (fun t =>
    if (t =? token_slot)%nat then Ok tt
    else
      a ← fund_at prev t;
      b ← fund_at next t;
      ensure (bool_decide (a = b)) InvalidAmountRelation)
    (seq 0 MAX_CHANNEL_TOKENS).

Definition member_slot_index (record : ChannelRecord) (pubkey_hash : Bytes32) : result nat :=
  ok_or (fst <$> list_find (fun member => member = pubkey_hash) (ChannelRecord.member_pk_gs record))
    InvalidStateLinkage.

Definition member_index_pubkey_hash (record : ChannelRecord) (index : nat) : result Bytes32 :=
  ok_or (ChannelRecord.member_pk_gs record !! index) InvalidStateLinkage.

Definition verify_next_state_signatures (record : ChannelRecord) next : result unit :=
  map_err (fun _ => InvalidMemberSignatures)
    (validate_all_member_signatures record (ChannelState.member_signatures next)).

Definition ensure_same_channel_fund prev next : result unit :=
  ensure (bool_decide (ChannelState.channel_fund prev = ChannelState.channel_fund next))
    InvalidRootTransition.

Definition ensure_same_root (before after : Bytes32) : result unit :=
  ensure (bool_decide (before = after)) InvalidRootTransition.

Definition ensure_different_root (before after : Bytes32) : result unit :=
  ensure (negb (bool_decide (before = after))) InvalidRootTransition.

Definition ensure_same_u256 (before after : U256) : result unit :=
  ensure (bool_decide (before = after)) InvalidRootTransition.

Definition validate_signed_small_block (source_channel_record : ChannelRecord)
    (expected_source_channel_id : ChannelId) (expected_close_freeze_nonce : Z)
    (tx : InterChannelTx) : result unit :=
  let signed := InterChannelTx.signed_small_block tx in
  let message := SignedSmallBlock.message signed in
  _ ← ensure (InterChannelTx.source_channel_id tx =? expected_source_channel_id) InvalidSmallBlock;
  _ ← ensure (SmallBlockRootMessage.channel_id message =? expected_source_channel_id) InvalidSmallBlock;
  _ ← (if negb (SmallBlockRootMessage.bp_member_slot message
                =? ChannelRecord.bp_member_slot source_channel_record)
       then Err InvalidSmallBlock
       else
         bp ← member_index_pubkey_hash source_channel_record
                (Z.to_nat (ChannelRecord.bp_member_slot source_channel_record));
         ensure (bool_decide (SmallBlockRootMessage.bp_pk_g message = bp)) InvalidSmallBlock);
  _ ← ensure (SmallBlockRootMessage.close_freeze_nonce message =? expected_close_freeze_nonce)
        InvalidSmallBlock;
  _ ← ensure ((SmallBlockRootMessage.medium_epoch_hint message =? 0)
              && (SignedSmallBlock.medium_block_number signed =? 0)) InvalidSmallBlock;
  _ ← ensure (bool_decide (SignedSmallBlock.aggregated_signature_proof signed = [])) InvalidSmallBlock;
  _ ← ensure (bool_decide (SignedSmallBlock.confirmation_proof signed = [])) InvalidSmallBlock;
  _ ← ensure (bool_decide (InterChannelTx.seal tx = bytes32_default)
              && bool_decide (InterChannelTx.recipient_memo tx = [])
              && bool_decide (InterChannelTx.transport_proof tx = [])
              && bool_decide (InterChannelTx.tx_inclusion_proof tx = MerkleInclusionProof.default))
        InvalidSmallBlock;
  _ ← ensure (negb (bool_decide (InterChannelTx.intmax_transfer_commitment tx = bytes32_default)))
        InvalidSmallBlock;
  map_err (fun _ => InvalidSmallBlock)
    (validate_member_signature_slots source_channel_record (SignedSmallBlock.signatures signed)).
End checks.

(** ** Witnesses and their [verify] *)

(** The layout bound, then the active bound, on a signed token slot. *)
Definition check_token_slot (s : BalanceState.BalanceState) (token_slot : nat) : result unit :=
  _ ← ensure (negb (MAX_CHANNEL_TOKENS <=? token_slot)%nat) InvalidCiphertextTransition;
  ensure (negb (Z.to_nat (BalanceState.token_count s) <=? token_slot)%nat) InvalidCiphertextTransition.

(** The recipient-only decryption check shared by the two receiving transitions. *)
Definition check_recipient_decryption {R : RegevScheme} (recipient_sk : option RegevSk)
    (expected_amount : option Z) (delta next_ct : RegevCiphertext) : result unit :=
  match recipient_sk with
  | None => Ok tt
  | Some sk =>
      expected ← ok_or expected_amount InvalidDecryption;
      decrypted ← map_err (fun _ => InvalidDecryption) (decrypt_amount sk delta);
      _ ← ensure (decrypted =? expected) InvalidDecryption;
      _ ← map_err (fun _ => InvalidDecryption) (decrypt_amount sk next_ct);
      Ok tt
  end.

Module InChannelTransferUpdateWitness.
Record InChannelTransferUpdateWitness := mk {
  channel_record : ChannelRecord;
  regev_pks : list RegevPk;
  prev_state : ChannelState;
  next_state : ChannelState;
  channel_tx : ChannelTx;
  sender_index : nat;
  recipient_index : nat;
  recipient_sk : option RegevSk;
  expected_amount : option Z;
}.

Definition verify {K : Keccak} {P : Poseidon} {R : RegevScheme} {VR : RegevProofVerifier}
    (w : InChannelTransferUpdateWitness) : result ChannelStateUpdatePublicInputs :=
  let prev := prev_state w in
  let next := next_state w in
  let tx := channel_tx w in
  _ ← verify_regev_pk_root (channel_record w) (regev_pks w);
  _ ← verify_state_linkage prev next;
  _ ← verify_balance_state_common (channel_record w) prev next;
  _ ← require_small_block_unchanged prev next;
  _ ← require_h2_zero next;
  _ ← require_chain_unchanged prev next;
  _ ← require_accumulator_unchanged
        (BalanceState.settled_tx_accumulator_root (bal prev))
        (BalanceState.settled_tx_accumulator_root (bal next));
  _ ← ensure_same_channel_fund prev next;
  _ ← ensure_same_u256 (ChannelState.unallocated_confirmed_incoming prev)
        (ChannelState.unallocated_confirmed_incoming next);
  _ ← ensure_same_root (ChannelState.shared_native_nullifier_root prev)
        (ChannelState.shared_native_nullifier_root next);
  _ ← verify_next_state_signatures (channel_record w) next;
  sender ← member_index_pubkey_hash (channel_record w) (sender_index w);
  recipient ← member_index_pubkey_hash (channel_record w) (recipient_index w);
  _ ← ensure (negb (sender_index w =? recipient_index w)%nat) InvalidStateLinkage;
  _ ← ensure (bool_decide (ChannelTx.sender_pk_g tx = sender)) InvalidTransitionDigest;
  _ ← ensure (bool_decide (ChannelTx.recipient_pk_g tx = recipient)) InvalidTransitionDigest;
  _ ← ensure (negb (bool_decide (ChannelTx.sender_hash_sig tx = []))) InvalidMemberSignatures;
  tx_digest ← ChannelTx.signing_digest (ChannelState.channel_id prev) (ChannelState.digest prev)
                (ChannelTx.enc_amount tx) (ChannelTx.nonce tx) (ChannelTx.token_slot tx)
                (ChannelTx.sender_pk_g tx) (ChannelTx.recipient_pk_g tx);
  let token_slot := Z.to_nat (ChannelTx.token_slot tx) in
  _ ← check_token_slot (bal prev) token_slot;
  prev_recipient_ct ← ct_at prev (recipient_index w) token_slot;
  expected_recipient_ct ← map_err (fun _ => InvalidCiphertextTransition)
                            (add_ciphertexts prev_recipient_ct (ChannelTx.enc_amount tx));
  next_recipient_ct ← ct_at next (recipient_index w) token_slot;
  _ ← ensure (bool_decide (next_recipient_ct = expected_recipient_ct)) InvalidCiphertextTransition;
  _ ← ensure_row_unchanged_except prev next (recipient_index w) token_slot;
  _ ← ensure_row_unchanged_except prev next (sender_index w) token_slot;
  _ ← res_forall (fun index =>
        if (index =? sender_index w)%nat || (index =? recipient_index w)%nat then Ok tt
        else ensure_slot_unchanged prev next index) (seq 0 MAX_CHANNEL_MEMBERS);
  _ ← require_pending_add_increment prev next (recipient_index w) token_slot;
  sender_adds ← adds_at next (sender_index w) token_slot;
  _ ← ensure (sender_adds =? 0) InvalidPendingAdds;
  _ ← require_pending_adds_unchanged_except prev next (sender_index w) token_slot;
  _ ← res_forall (fun index =>
        if (index =? sender_index w)%nat || (index =? recipient_index w)%nat then Ok tt
        else require_pending_adds_unchanged prev next index) (seq 0 MAX_CHANNEL_MEMBERS);
  sender_pk ← unwrap (regev_pks w !! sender_index w);
  recipient_pk ← unwrap (regev_pks w !! recipient_index w);
  before ← ct_at prev (sender_index w) token_slot;
  after ← ct_at next (sender_index w) token_slot;
  _ ← verify_decrypted_transfer_proof (ChannelTx.channel_tx_zkp tx)
        (StChannelTx sender_pk recipient_pk before (ChannelTx.enc_amount tx) after);
  _ ← check_recipient_decryption (recipient_sk w) (expected_amount w)
        (ChannelTx.enc_amount tx) next_recipient_ct;
  Ok (PublicInputs.of_states InChannelTransfer prev next 0 1
        (hash_member (ChannelTx.sender_pk_g tx)) (hash_member (ChannelTx.recipient_pk_g tx)) tx_digest).
End InChannelTransferUpdateWitness.

Module InterChannelSendUpdateWitness.
Record InterChannelSendUpdateWitness := mk {
  channel_record : ChannelRecord;
  regev_pks : list RegevPk;
  destination_recipient_pk : RegevPk;
  prev_state : ChannelState;
  next_state : ChannelState;
  inter_channel_tx : InterChannelTx;
  amount : Z;
  transport_proof : ChannelProofEnvelope;
}.

Definition verify {K : Keccak} {P : Poseidon} {VP : ChannelProofVerifier} {VR : RegevProofVerifier}
    (w : InterChannelSendUpdateWitness) : result ChannelStateUpdatePublicInputs :=
  let prev := prev_state w in
  let next := next_state w in
  let tx := inter_channel_tx w in
  _ ← verify_regev_pk_root (channel_record w) (regev_pks w);
  _ ← verify_state_linkage prev next;
  _ ← verify_balance_state_common (channel_record w) prev next;
  _ ← verify_next_state_signatures (channel_record w) next;
  _ ← validate_signed_small_block (channel_record w) (ChannelState.channel_id prev)
        (ChannelState.close_freeze_nonce prev) tx;
  _ ← ensure (ChannelState.channel_id prev =? InterChannelTx.source_channel_id tx) InvalidStateLinkage;
  let message := InterChannelTx.message tx in
  _ ← ensure (negb (bool_decide (SmallBlockRootMessage.tx_tree_root message = bytes32_default))) InvalidH2Tag;
  _ ← ensure (bool_decide (ChannelState.h2_tag next = SmallBlockRootMessage.tx_tree_root message)) InvalidH2Tag;
  next_h1 ← BalanceState.h1 (bal next);
  _ ← ensure (bool_decide (SmallBlockRootMessage.state_commitment_root message = next_h1)) InvalidSmallBlock;
  _ ← ensure (length (InterChannelTx.receiver_deltas tx) =? 1)%nat InvalidReceiverDeltaBundle;
  receiver_delta ← unwrap (InterChannelTx.receiver_deltas tx !! 0%nat);
  recipient_hash ← Pk.poseidon_digest (destination_recipient_pk w);
  recipient_digest ← phash_into_bytes32 recipient_hash;
  _ ← ensure (bool_decide (ReceiverBalanceDelta.receiver_regev_pk_digest receiver_delta = recipient_digest))
        InvalidReceiverDeltaBundle;
  let is_burn := InterChannelTx.destination_channel_id tx =? BURN_CHANNEL_ID in
  _ ← (if is_burn then Ok tt
       else map_err (fun _ => InvalidReceiverDeltaBundle)
              (Ct.reject_key_independent (ReceiverBalanceDelta.amount receiver_delta)));
  tx_leaf ← map_err (fun _ => InvalidSettledTxChain) (InterChannelTx.tx_leaf_hash tx);
  amount256 ← u64_to_u256 (amount w);
  let chain_leaf :=
    if is_burn
    then burn_descriptor (InterChannelTx.source_channel_id tx) (InterChannelTx.base_nonce tx) tx_leaf
           (ReceiverBalanceDelta.receiver_pk_g receiver_delta) (InterChannelTx.token_index tx) amount256
    else tx_leaf in
  _ ← require_chain_push prev next chain_leaf;
  token_slot ← resolve_token_slot (bal prev) (InterChannelTx.token_index tx);
  _ ← require_token_bearing_tx_hash tx;
  next_fund ← fund_at next token_slot;
  debited ← U256.add next_fund amount256;
  prev_fund ← fund_at prev token_slot;
  _ ← ensure (bool_decide (debited = prev_fund)) InvalidAmountRelation;
  _ ← ensure_funds_unchanged_except prev next token_slot;
  _ ← ensure_fund_identity_unchanged prev next;
  _ ← ensure_same_u256 (ChannelState.unallocated_confirmed_incoming prev)
        (ChannelState.unallocated_confirmed_incoming next);
  _ ← ensure_different_root (ChannelState.shared_native_nullifier_root prev)
        (ChannelState.shared_native_nullifier_root next);
  sender_index ← member_slot_index (channel_record w) (InterChannelTx.source_pk_g tx);
  _ ← res_forall (fun index =>
        if (index =? sender_index)%nat then Ok tt
        else _ ← ensure_slot_unchanged prev next index;
             require_pending_adds_unchanged prev next index) (seq 0 MAX_CHANNEL_MEMBERS);
  _ ← ensure_row_unchanged_except prev next sender_index token_slot;
  sender_adds ← adds_at next sender_index token_slot;
  _ ← ensure (sender_adds =? 0) InvalidPendingAdds;
  _ ← require_pending_adds_unchanged_except prev next sender_index token_slot;
  sender_pk ← unwrap (regev_pks w !! sender_index);
  before ← ct_at prev sender_index token_slot;
  after ← ct_at next sender_index token_slot;
  _ ← verify_decrypted_transfer_proof (InterChannelTx.channel_update_zkp tx)
        (StChannelUpdate sender_pk (destination_recipient_pk w) before after
           (InterChannelTx.sender_delta_ct tx) (ReceiverBalanceDelta.amount receiver_delta)
           (amount w) (InterChannelTx.token_index tx));
  _ ← ensure (bool_decide (InterChannelTx.transport_proof tx = ChannelProofEnvelope.proof (transport_proof w)))
        InvalidTransitionDigest;
  transition_digest ← InterChannelTx.signing_digest tx;
  let public_inputs :=
    PublicInputs.of_states InterChannelSend prev next (amount w) 1
      (hash_member (InterChannelTx.source_pk_g tx))
      (hash_member (ReceiverBalanceDelta.receiver_pk_g receiver_delta)) transition_digest in
  _ ← verify_proof (transport_proof w) IntmaxTransport Plonky2 public_inputs;
  Ok public_inputs.
End InterChannelSendUpdateWitness.

Module InterChannelFundImportUpdateWitness.
Record InterChannelFundImportUpdateWitness := mk {
  source_channel_record : ChannelRecord;
  receiver_channel_record : ChannelRecord;
  prev_state : ChannelState;
  next_state : ChannelState;
  inter_channel_tx : InterChannelTx;
  amount : Z;
  transport_proof : ChannelProofEnvelope;
}.

(** The active member addressed by [receiver_pk_g]. *)
Definition active_member_position (record : ChannelRecord) (pk_g : Bytes32) : result nat :=
  let active := (Z.to_nat (ChannelRecord.member_count record)
                 + Z.to_nat (ChannelRecord.delegate_count record))%nat in
  ok_or (fst <$> list_find (fun member => member = pk_g)
           (take (Nat.min active MAX_CHANNEL_MEMBERS) (ChannelRecord.member_pk_gs record)))
    InvalidReceiverDeltaBundle.

Definition verify {K : Keccak} {P : Poseidon} {VP : ChannelProofVerifier}
    (w : InterChannelFundImportUpdateWitness) : result ChannelStateUpdatePublicInputs :=
  let prev := prev_state w in
  let next := next_state w in
  let tx := inter_channel_tx w in
  _ ← verify_state_linkage prev next;
  _ ← verify_balance_state_common (receiver_channel_record w) prev next;
  _ ← verify_next_state_signatures (receiver_channel_record w) next;
  _ ← validate_signed_small_block (source_channel_record w) (InterChannelTx.source_channel_id tx)
        (SmallBlockRootMessage.close_freeze_nonce (InterChannelTx.message tx)) tx;
  _ ← ensure (ChannelState.channel_id prev =? InterChannelTx.destination_channel_id tx) InvalidStateLinkage;
  _ ← require_h2_zero next;
  settle_tag ← map_err (fun _ => InvalidSettledTxChain) (InterChannelTx.tx_leaf_hash tx);
  _ ← require_chain_push prev next settle_tag;
  token_slot ← resolve_token_slot (bal prev) (InterChannelTx.token_index tx);
  _ ← require_token_bearing_tx_hash tx;
  next_fund ← fund_at next token_slot;
  prev_fund ← fund_at prev token_slot;
  amount256 ← u64_to_u256 (amount w);
  credited ← U256.add prev_fund amount256;
  _ ← ensure (bool_decide (next_fund = credited)) InvalidAmountRelation;
  _ ← ensure_funds_unchanged_except prev next token_slot;
  _ ← ensure_fund_identity_unchanged prev next;
  unallocated ← U256.add (ChannelState.unallocated_confirmed_incoming prev) amount256;
  _ ← ensure (bool_decide (ChannelState.unallocated_confirmed_incoming next = unallocated))
        InvalidAmountRelation;
  _ ← res_forall (fun index =>
        _ ← ensure_slot_unchanged prev next index;
        require_pending_adds_unchanged prev next index) (seq 0 MAX_CHANNEL_MEMBERS);
  _ ← ensure_different_root (ChannelState.shared_native_nullifier_root prev)
        (ChannelState.shared_native_nullifier_root next);
  _ ← ensure (bool_decide (InterChannelTx.transport_proof tx = ChannelProofEnvelope.proof (transport_proof w)))
        InvalidTransitionDigest;
  receiver_delta ← ok_or (head (InterChannelTx.receiver_deltas tx)) InvalidReceiverDeltaBundle;
  let receiver_user_id := ReceiverBalanceDelta.receiver_pk_g receiver_delta in
  recipient_index ← active_member_position (receiver_channel_record w) receiver_user_id;
  committed ← unwrap (BalanceState.regev_pk_digests (bal prev) !! recipient_index);
  _ ← ensure (bool_decide (committed = ReceiverBalanceDelta.receiver_regev_pk_digest receiver_delta))
        InvalidReceiverDeltaBundle;
  _ ← map_err (fun _ => InvalidReceiverDeltaBundle)
        (Ct.reject_key_independent (ReceiverBalanceDelta.amount receiver_delta));
  transition_digest ← InterChannelTx.signing_digest tx;
  let public_inputs :=
    PublicInputs.of_states InterChannelFundImport prev next (amount w)
      (Z.of_nat (length (InterChannelTx.receiver_deltas tx)))
      (hash_member (InterChannelTx.source_pk_g tx)) (hash_member receiver_user_id) transition_digest in
  _ ← verify_proof (transport_proof w) IntmaxTransport Plonky2 public_inputs;
  Ok public_inputs.
End InterChannelFundImportUpdateWitness.

Module L1DepositImportUpdateWitness.
Record L1DepositImportUpdateWitness := mk {
  channel_record : ChannelRecord;
  prev_state : ChannelState;
  next_state : ChannelState;
  amount : Z;
  deposit_nullifier : Bytes32;
  token_index : Z;
  depositor_slot : nat;
}.

Definition verify {K : Keccak} {P : Poseidon} (w : L1DepositImportUpdateWitness)
    : result ChannelStateUpdatePublicInputs :=
  let prev := prev_state w in
  let next := next_state w in
  _ ← verify_state_linkage prev next;
  _ ← verify_balance_state_common (channel_record w) prev next;
  _ ← verify_next_state_signatures (channel_record w) next;
  _ ← require_h2_zero next;
  _ ← require_chain_push prev next (deposit_nullifier w);
  token_slot ← resolve_token_slot (bal prev) (token_index w);
  next_fund ← fund_at next token_slot;
  prev_fund ← fund_at prev token_slot;
  amount256 ← u64_to_u256 (amount w);
  credited ← U256.add prev_fund amount256;
  _ ← ensure (bool_decide (next_fund = credited)) InvalidAmountRelation;
  _ ← ensure_funds_unchanged_except prev next token_slot;
  unallocated ← U256.add (ChannelState.unallocated_confirmed_incoming prev) amount256;
  _ ← ensure (bool_decide (ChannelState.unallocated_confirmed_incoming next = unallocated))
        InvalidAmountRelation;
  _ ← res_forall (fun index =>
        _ ← ensure_slot_unchanged prev next index;
        require_pending_adds_unchanged prev next index) (seq 0 MAX_CHANNEL_MEMBERS);
  _ ← ensure_different_root (ChannelState.shared_native_nullifier_root prev)
        (ChannelState.shared_native_nullifier_root next);
  depositor_pk_g ← unwrap (ChannelRecord.member_pk_gs (channel_record w) !! depositor_slot w);
  let transition_digest :=
    l1_deposit_import_digest (ChannelState.channel_id prev) (deposit_nullifier w) (token_index w)
      (amount w) (wrap 16 (Z.of_nat (depositor_slot w))) in
  Ok (PublicInputs.of_states L1DepositImport prev next (amount w) 0
        (hash_member depositor_pk_g) (hash_member depositor_pk_g) transition_digest).
End L1DepositImportUpdateWitness.

Module ReceiverBundleApplyUpdateWitness.
Record ReceiverBundleApplyUpdateWitness {P : Poseidon} := mk {
  incoming_tx_index : Z;
  incoming_tx_inclusion : MerkleProof (Hs := PoseidonLeafableHasher);
  receiver_channel_record : ChannelRecord;
  regev_pks : list RegevPk;
  source_sender_pk : RegevPk;
  sender_before_ct : RegevCiphertext;
  sender_after_ct : RegevCiphertext;
  prev_state : ChannelState;
  next_state : ChannelState;
  inter_channel_tx : InterChannelTx;
  amount : Z;
  recipient_index : nat;
  recipient_sk : option RegevSk;
  expected_amount : option Z;
}.
#[global] Arguments ReceiverBundleApplyUpdateWitness _ : clear implicits.

Definition verify {K : Keccak} {P : Poseidon} {R : RegevScheme} {VR : RegevProofVerifier}
    (w : ReceiverBundleApplyUpdateWitness P) : result ChannelStateUpdatePublicInputs :=
  let prev := prev_state w in
  let next := next_state w in
  let tx := inter_channel_tx w in
  _ ← verify_regev_pk_root (receiver_channel_record w) (regev_pks w);
  _ ← verify_state_linkage prev next;
  _ ← verify_balance_state_common (receiver_channel_record w) prev next;
  _ ← verify_next_state_signatures (receiver_channel_record w) next;
  _ ← ensure (ChannelState.channel_id prev =? InterChannelTx.destination_channel_id tx) InvalidStateLinkage;
  _ ← require_h2_zero next;
  _ ← ensure_same_channel_fund prev next;
  amount256 ← u64_to_u256 (amount w);
  restored ← U256.add (ChannelState.unallocated_confirmed_incoming next) amount256;
  _ ← ensure (bool_decide (ChannelState.unallocated_confirmed_incoming prev = restored))
        InvalidAmountRelation;
  _ ← ensure_same_root (ChannelState.shared_native_nullifier_root prev)
        (ChannelState.shared_native_nullifier_root next);
  _ ← ensure (length (InterChannelTx.receiver_deltas tx) =? 1)%nat InvalidReceiverDeltaBundle;
  receiver_delta ← unwrap (InterChannelTx.receiver_deltas tx !! 0%nat);
  recipient ← member_index_pubkey_hash (receiver_channel_record w) (recipient_index w);
  _ ← ensure (bool_decide (ReceiverBalanceDelta.receiver_pk_g receiver_delta = recipient))
        InvalidReceiverDeltaBundle;
  recipient_pk ← unwrap (regev_pks w !! recipient_index w);
  recipient_hash ← Pk.poseidon_digest recipient_pk;
  recipient_digest ← phash_into_bytes32 recipient_hash;
  _ ← ensure (bool_decide (ReceiverBalanceDelta.receiver_regev_pk_digest receiver_delta = recipient_digest))
        InvalidReceiverDeltaBundle;
  _ ← map_err (fun _ => InvalidReceiverDeltaBundle)
        (Ct.reject_key_independent (ReceiverBalanceDelta.amount receiver_delta));
  _ ← require_chain_unchanged prev next;
  _ ← require_incoming_application
        (BalanceState.settled_tx_accumulator_root (bal prev))
        (BalanceState.settled_tx_accumulator_root (bal next))
        (InterChannelTx.tx_hash tx) (incoming_tx_index w) (incoming_tx_inclusion w);
  token_slot ← resolve_token_slot (bal prev) (InterChannelTx.token_index tx);
  _ ← require_token_bearing_tx_hash tx;
  prev_recipient_ct ← ct_at prev (recipient_index w) token_slot;
  expected_recipient_ct ← map_err (fun _ => InvalidCiphertextTransition)
                            (add_ciphertexts prev_recipient_ct (ReceiverBalanceDelta.amount receiver_delta));
  next_recipient_ct ← ct_at next (recipient_index w) token_slot;
  _ ← ensure (bool_decide (next_recipient_ct = expected_recipient_ct)) InvalidCiphertextTransition;
  _ ← ensure_row_unchanged_except prev next (recipient_index w) token_slot;
  _ ← res_forall (fun index =>
        if (index =? recipient_index w)%nat then Ok tt
        else _ ← ensure_slot_unchanged prev next index;
             require_pending_adds_unchanged prev next index) (seq 0 MAX_CHANNEL_MEMBERS);
  _ ← require_pending_add_increment prev next (recipient_index w) token_slot;
  _ ← verify_decrypted_transfer_proof (InterChannelTx.channel_update_zkp tx)
        (StChannelUpdate (source_sender_pk w) recipient_pk (sender_before_ct w) (sender_after_ct w)
           (InterChannelTx.sender_delta_ct tx) (ReceiverBalanceDelta.amount receiver_delta)
           (amount w) (InterChannelTx.token_index tx));
  _ ← check_recipient_decryption (recipient_sk w) (expected_amount w)
        (ReceiverBalanceDelta.amount receiver_delta) next_recipient_ct;
  transition_digest ← InterChannelTx.signing_digest tx;
  Ok (PublicInputs.of_states ReceiverBundleApply prev next (amount w) 1
        (hash_member (InterChannelTx.source_pk_g tx))
        (hash_member (ReceiverBalanceDelta.receiver_pk_g receiver_delta)) transition_digest).
End ReceiverBundleApplyUpdateWitness.

Module BalanceRefreshUpdateWitness.
Record BalanceRefreshUpdateWitness := mk {
  channel_record : ChannelRecord;
  regev_pks : list RegevPk;
  prev_state : ChannelState;
  next_state : ChannelState;
  member_index : nat;
  token_slot : nat;
  refresh_proof : ChannelProofEnvelope;
}.

Definition verify {K : Keccak} {P : Poseidon} {VR : RegevProofVerifier}
    (w : BalanceRefreshUpdateWitness) : result ChannelStateUpdatePublicInputs :=
  let prev := prev_state w in
  let next := next_state w in
  _ ← verify_regev_pk_root (channel_record w) (regev_pks w);
  _ ← verify_state_linkage prev next;
  _ ← verify_balance_state_common (channel_record w) prev next;
  _ ← require_small_block_unchanged prev next;
  _ ← verify_next_state_signatures (channel_record w) next;
  _ ← require_h2_zero next;
  _ ← require_chain_unchanged prev next;
  _ ← require_accumulator_unchanged
        (BalanceState.settled_tx_accumulator_root (bal prev))
        (BalanceState.settled_tx_accumulator_root (bal next));
  _ ← ensure_same_channel_fund prev next;
  _ ← ensure_same_u256 (ChannelState.unallocated_confirmed_incoming prev)
        (ChannelState.unallocated_confirmed_incoming next);
  _ ← ensure_same_root (ChannelState.shared_native_nullifier_root prev)
        (ChannelState.shared_native_nullifier_root next);
  member ← member_index_pubkey_hash (channel_record w) (member_index w);
  _ ← res_forall (fun index =>
        if (index =? member_index w)%nat then Ok tt
        else _ ← ensure_slot_unchanged prev next index;
             require_pending_adds_unchanged prev next index) (seq 0 MAX_CHANNEL_MEMBERS);
  _ ← check_token_slot (bal prev) (token_slot w);
  adds ← adds_at next (member_index w) (token_slot w);
  _ ← ensure (adds =? 0) InvalidPendingAdds;
  _ ← require_pending_adds_unchanged_except prev next (member_index w) (token_slot w);
  _ ← ensure_row_unchanged_except prev next (member_index w) (token_slot w);
  old_ct ← ct_at prev (member_index w) (token_slot w);
  new_ct ← ct_at next (member_index w) (token_slot w);
  pk ← unwrap (regev_pks w !! member_index w);
  _ ← verify_regev_proof (refresh_proof w) BalanceRefreshPurpose (StBalanceRefresh pk old_ct new_ct);
  old_digest ← Ct.digest old_ct;
  new_digest ← Ct.digest new_ct;
  let transition_digest :=
    hash_words ([BALANCE_REFRESH_ZKP_DOMAIN; wrap 32 (Z.of_nat (member_index w));
                 wrap 32 (Z.of_nat (token_slot w))] ++ to_u32_vec old_digest ++ to_u32_vec new_digest) in
  Ok (PublicInputs.of_states BalanceRefresh prev next 0 0 (hash_member member) (hash_member member)
        transition_digest).
End BalanceRefreshUpdateWitness.

Module TokenRegisterUpdateWitness.
Record TokenRegisterUpdateWitness := mk {
  channel_record : ChannelRecord;
  prev_state : ChannelState;
  next_state : ChannelState;
  token_index : Z;
}.

Definition verify {K : Keccak} {P : Poseidon} (w : TokenRegisterUpdateWitness)
    : result ChannelStateUpdatePublicInputs :=
  let prev := prev_state w in
  let next := next_state w in
  _ ← verify_state_linkage prev next;
  _ ← verify_balance_state_shared (channel_record w) prev next;
  _ ← map_err (fun _ => InvalidStateLinkage)
        (BalanceState.verify_token_register_transition (bal prev) (bal next) (token_index w));
  _ ← require_h2_zero next;
  _ ← require_chain_unchanged prev next;
  _ ← require_accumulator_unchanged
        (BalanceState.settled_tx_accumulator_root (bal prev))
        (BalanceState.settled_tx_accumulator_root (bal next));
  _ ← ensure_same_channel_fund prev next;
  _ ← ensure_same_u256 (ChannelState.unallocated_confirmed_incoming prev)
        (ChannelState.unallocated_confirmed_incoming next);
  _ ← ensure_same_root (ChannelState.shared_native_nullifier_root prev)
        (ChannelState.shared_native_nullifier_root next);
  _ ← ensure (ChannelState.small_block_number next =? ChannelState.small_block_number prev)
        InvalidStateLinkage;
  _ ← ensure (ChannelState.close_freeze_nonce next =? ChannelState.close_freeze_nonce prev)
        InvalidStateLinkage;
  expected ← map_err (fun _ => InvalidStateLinkage) (token_register_next_state prev (token_index w));
  let expected := ChannelState.with_signatures expected (ChannelState.member_signatures next) in
  _ ← ensure (bool_decide (expected = next)) InvalidStateLinkage;
  _ ← verify_next_state_signatures (channel_record w) next;
  Ok (PublicInputs.of_states TokenRegisterKind prev next 0 0 bytes32_default bytes32_default
        (ChannelState.digest next)).
End TokenRegisterUpdateWitness.
