(* ===== verification/StateUpdateProps.v ===== *)
(** * What an accepted channel update changes

    For every [verify] of [StateUpdate], the effect of an accepted update on
    the two states: which ciphertext and counter positions may differ and how,
    which fund position moves and by how much, and what stays fixed.  The
    checks are first turned into propositions, one lemma per check. *)

From S2P Require Import Prelude Limbs MerkleTree LeafTrees Poseidon Keccak Regev BalanceState BalanceStateProps Channel StateUpdate.

(** ** Positions *)

Definition ct_lookup (s : ChannelState) (i t : nat) : option RegevCiphertext :=
  BalanceState.enc_balances (bal s) !! i ≫= fun row => row !! t.

Definition adds_lookup (s : ChannelState) (i t : nat) : option Z :=
  BalanceState.pending_adds (bal s) !! i ≫= fun row => row !! t.

Definition fund_lookup (s : ChannelState) (t : nat) : option U256 :=
  ChannelFund.amounts (ChannelState.channel_fund s) !! t.

(** The Rust array lengths and widths of a channel state. *)
Record cs_typed (s : ChannelState) : Prop := {
  cty_balance : typed (bal s);
  cty_funds : length (ChannelFund.amounts (ChannelState.channel_fund s)) = MAX_CHANNEL_TOKENS;
  cty_epoch : in_width 64 (ChannelState.epoch s);
  cty_adds : forall i t n, adds_lookup s i t = Some n -> in_width 32 n;
}.

Lemma ct_at_Ok s i t ct : ct_at s i t = Ok ct <-> ct_lookup s i t = Some ct.
Proof.
  unfold ct_at, ct_lookup. destruct (BalanceState.enc_balances (bal s) !! i) as [row|]; cbn; [|done].
  apply unwrap_Ok.
Qed.

Lemma adds_at_Ok s i t n : adds_at s i t = Ok n <-> adds_lookup s i t = Some n.
Proof.
  unfold adds_at, adds_lookup. destruct (BalanceState.pending_adds (bal s) !! i) as [row|]; cbn; [|done].
  apply unwrap_Ok.
Qed.

Lemma fund_at_Ok s t a : fund_at s t = Ok a <-> fund_lookup s t = Some a.
Proof. apply unwrap_Ok. Qed.

(** Positions beyond the fixed width hold nothing. *)
Lemma ct_lookup_width s i t : typed (bal s) -> (MAX_CHANNEL_TOKENS <= t)%nat -> ct_lookup s i t = None.
Proof.
  intros Hty Ht. unfold ct_lookup. destruct (BalanceState.enc_balances (bal s) !! i) as [row|] eqn:Hr; [|done].
  cbn. apply lookup_ge_None. by rewrite (Forall_lookup_1 _ _ _ _ (ty_rows _ Hty) Hr).
Qed.

Lemma adds_lookup_width s i t : typed (bal s) -> (MAX_CHANNEL_TOKENS <= t)%nat -> adds_lookup s i t = None.
Proof.
  intros Hty Ht. unfold adds_lookup. destruct (BalanceState.pending_adds (bal s) !! i) as [row|] eqn:Hr; [|done].
  cbn. apply lookup_ge_None. by rewrite (Forall_lookup_1 _ _ _ _ (ty_adds _ Hty) Hr).
Qed.

Lemma ct_lookup_slots s i t : valid (bal s) -> (MAX_CHANNEL_MEMBERS <= i)%nat -> ct_lookup s i t = None.
Proof.
  intros Hv Hi. unfold ct_lookup. by rewrite lookup_ge_None_2 by (rewrite (v_rows _ Hv); lia).
Qed.

Lemma adds_lookup_slots s i t : valid (bal s) -> (MAX_CHANNEL_MEMBERS <= i)%nat -> adds_lookup s i t = None.
Proof.
  intros Hv Hi. unfold adds_lookup. by rewrite lookup_ge_None_2 by (rewrite (v_adds _ Hv); lia).
Qed.

(** ** The checks as propositions *)

Section checks.
Context {K : Keccak} {P : Poseidon}.
Implicit Types prev next : ChannelState.

(** [next] is the successor of [prev] in the hash chain of channel states. *)
Record chained prev next : Prop := {
  ch_id : ChannelState.channel_id next = ChannelState.channel_id prev;
  ch_epoch : ChannelState.epoch next = wrap 64 (ChannelState.epoch prev + 1);
  ch_prev_digest : ChannelState.prev_digest next = ChannelState.digest prev;
  ch_digest_prev : ChannelState.signing_digest (E := ChannelStateUpdateError) prev = Ok (ChannelState.digest prev);
  ch_digest_next : ChannelState.signing_digest (E := ChannelStateUpdateError) next = Ok (ChannelState.digest next);
}.

Lemma verify_state_linkage_Ok prev next u :
  verify_state_linkage prev next = Ok u -> chained prev next.
Proof.
  unfold verify_state_linkage. intros H. simplify_res. simplify_bool. subst.
  constructor; congruence.
Qed.

(** The linkage check computes both digests before any state is validated. *)
Lemma verify_state_linkage_Panic prev next :
  ChannelState.channel_id prev = ChannelState.channel_id next ->
  ChannelState.epoch next = wrap 64 (ChannelState.epoch prev + 1) ->
  ChannelState.prev_digest next = ChannelState.digest prev ->
  ChannelState.signing_digest (E := ChannelStateUpdateError) prev = Ok (ChannelState.digest prev) ->
  BalanceState.h1 (E := ChannelStateUpdateError) (bal next) = Panic ->
  verify_state_linkage prev next = Panic.
Proof.
  intros Hid He Hp Hd Hh. unfold verify_state_linkage.
  rewrite Hid, Z.eqb_refl, He, Z.eqb_refl, Hp, Hd. cbn -[wrap].
  rewrite !bool_decide_eq_true_2 by done. cbn -[wrap].
  unfold ChannelState.signing_digest. by rewrite Hh.
Qed.

(** What every ordinary transition shares. *)
Record linked (record : ChannelRecord) prev next : Prop := {
  lk_prev_valid : valid (bal prev);
  lk_next_valid : valid (bal next);
  lk_members : BalanceState.member_count (bal prev) = ChannelRecord.member_count record /\
               BalanceState.member_count (bal next) = ChannelRecord.member_count record;
  lk_delegates : BalanceState.delegate_count (bal prev) = ChannelRecord.delegate_count record /\
                 BalanceState.delegate_count (bal next) = ChannelRecord.delegate_count record;
  lk_nonce : ChannelState.close_freeze_nonce next = ChannelState.close_freeze_nonce prev;
  lk_id : BalanceState.channel_id (bal prev) = ChannelState.channel_id prev /\
          BalanceState.channel_id (bal next) = ChannelState.channel_id next /\
          ChannelState.channel_id prev = ChannelRecord.channel_id record;
  lk_version : BalanceState.state_version (bal next) = wrap 64 (BalanceState.state_version (bal prev) + 1);
  lk_recipients : BalanceState.recipients (bal next) = BalanceState.recipients (bal prev);
  lk_digests : BalanceState.regev_pk_digests (bal next) = BalanceState.regev_pk_digests (bal prev);
}.

Lemma verify_balance_state_shared_Ok record prev next u :
  typed (bal prev) -> typed (bal next) ->
  verify_balance_state_shared record prev next = Ok u -> linked record prev next.
Proof.
  intros Hp Hn. unfold verify_balance_state_shared, verify_ordinary_state_metadata. intros H.
  simplify_res. apply res_forall_Ok in Hr5. rewrite !Forall_cons_iff in Hr5.
  destruct Hr5 as [Hc1 [Hc2 _]]. apply ensure_Ok in Hc1, Hc2. unfold counts_match in *.
  apply validate_Ok in Hr0, Hr1; [|done..]. simplify_bool. by constructor.
Qed.

Lemma verify_balance_state_common_Ok record prev next u :
  typed (bal prev) -> typed (bal next) ->
  verify_balance_state_common record prev next = Ok u ->
  linked record prev next /\
  BalanceState.token_registry (bal next) = BalanceState.token_registry (bal prev) /\
  BalanceState.token_count (bal next) = BalanceState.token_count (bal prev).
Proof.
  intros Hp Hn. unfold verify_balance_state_common. intros H. simplify_res.
  apply verify_balance_state_shared_Ok in Hr; [|done..]. by simplify_bool.
Qed.

Lemma ensure_slot_unchanged_Ok prev next i u :
  ensure_slot_unchanged prev next i = Ok u -> forall t, ct_lookup next i t = ct_lookup prev i t.
Proof.
  unfold ensure_slot_unchanged, ct_lookup. intros H t. simplify_res. simplify_bool. subst.
  by rewrite Hr, Hr0.
Qed.

Lemma require_pending_adds_unchanged_Ok prev next i u :
  require_pending_adds_unchanged prev next i = Ok u ->
  forall t, adds_lookup next i t = adds_lookup prev i t.
Proof.
  unfold require_pending_adds_unchanged, adds_lookup. intros H t. simplify_res. simplify_bool. subst.
  by rewrite Hr, Hr0.
Qed.

Lemma ensure_row_unchanged_except_Ok prev next i ts u :
  typed (bal prev) -> typed (bal next) ->
  ensure_row_unchanged_except prev next i ts = Ok u ->
  forall t, t <> ts -> ct_lookup next i t = ct_lookup prev i t.
Proof.
  intros Hp Hn H t Hne. unfold ensure_row_unchanged_except in H. rewrite res_forall_seq in H.
  destruct (decide (t < MAX_CHANNEL_TOKENS)%nat) as [Ht|]; [|by rewrite !ct_lookup_width by (done || lia)].
  specialize (H t ltac:(lia)). rewrite (proj2 (Nat.eqb_neq _ _) Hne) in H. simplify_res.
  simplify_bool. subst. apply ct_at_Ok in Hr, Hr0. congruence.
Qed.

Lemma require_pending_adds_unchanged_except_Ok prev next i ts u :
  typed (bal prev) -> typed (bal next) ->
  require_pending_adds_unchanged_except prev next i ts = Ok u ->
  forall t, t <> ts -> adds_lookup next i t = adds_lookup prev i t.
Proof.
  intros Hp Hn H t Hne. unfold require_pending_adds_unchanged_except in H. rewrite res_forall_seq in H.
  destruct (decide (t < MAX_CHANNEL_TOKENS)%nat) as [Ht|]; [|by rewrite !adds_lookup_width by (done || lia)].
  specialize (H t ltac:(lia)). rewrite (proj2 (Nat.eqb_neq _ _) Hne) in H. simplify_res.
  simplify_bool. subst. apply adds_at_Ok in Hr, Hr0. congruence.
Qed.

Lemma require_pending_add_increment_Ok prev next i ts u :
  typed (bal prev) -> typed (bal next) ->
  (forall n, adds_lookup prev i ts = Some n -> 0 <= n) ->
  require_pending_add_increment prev next i ts = Ok u ->
  (exists n, adds_lookup prev i ts = Some n /\ 0 <= n < MAX_HOMO_ADDS_BEFORE_REFRESH /\
     adds_lookup next i ts = Some (n + 1)) /\
  forall t, t <> ts -> adds_lookup next i t = adds_lookup prev i t.
Proof.
  intros Hp Hn Hpos. unfold require_pending_add_increment. intros H. simplify_res. simplify_bool.
  apply adds_at_Ok in Hr, Hr0. specialize (Hpos _ Hr).
  assert (r0 = r + 1) as ->.
  { rewrite Hr2. apply wrap_id. unfold in_width, MAX_HOMO_ADDS_BEFORE_REFRESH in *. lia. }
  split; [by exists r|]. by eapply require_pending_adds_unchanged_except_Ok.
Qed.

Lemma ensure_funds_unchanged_except_Ok prev next ts u :
  cs_typed prev -> cs_typed next ->
  ensure_funds_unchanged_except prev next ts = Ok u ->
  forall t, t <> ts -> fund_lookup next t = fund_lookup prev t.
Proof.
  intros Hp Hn H t Hne. unfold ensure_funds_unchanged_except in H. rewrite res_forall_seq in H.
  destruct (decide (t < MAX_CHANNEL_TOKENS)%nat) as [Ht|Ht].
  - specialize (H t ltac:(lia)). rewrite (proj2 (Nat.eqb_neq _ _) Hne) in H. simplify_res.
    simplify_bool. subst. apply fund_at_Ok in Hr, Hr0. congruence.
  - unfold fund_lookup. rewrite !lookup_ge_None_2; [done| |]; rewrite cty_funds; (done || lia).
Qed.

(** The loops over the member slots. *)
Lemma slots_unchanged_Ok prev next (skip : nat -> bool) u :
  valid (bal prev) -> valid (bal next) ->
  res_forall (fun i => if skip i then Ok tt else ensure_slot_unchanged prev next i)
    (seq 0 MAX_CHANNEL_MEMBERS) = Ok u ->
  forall i t, skip i = false -> ct_lookup next i t = ct_lookup prev i t.
Proof.
  intros Hp Hn H i t Hs. rewrite res_forall_seq in H.
  destruct (decide (i < MAX_CHANNEL_MEMBERS)%nat) as [Hi|]; [|by rewrite !ct_lookup_slots by (done || lia)].
  specialize (H i ltac:(lia)). rewrite Hs in H. by eapply ensure_slot_unchanged_Ok.
Qed.

Lemma adds_unchanged_Ok prev next (skip : nat -> bool) u :
  valid (bal prev) -> valid (bal next) ->
  res_forall (fun i => if skip i then Ok tt else require_pending_adds_unchanged prev next i)
    (seq 0 MAX_CHANNEL_MEMBERS) = Ok u ->
  forall i t, skip i = false -> adds_lookup next i t = adds_lookup prev i t.
Proof.
  intros Hp Hn H i t Hs. rewrite res_forall_seq in H.
  destruct (decide (i < MAX_CHANNEL_MEMBERS)%nat) as [Hi|]; [|by rewrite !adds_lookup_slots by (done || lia)].
  specialize (H i ltac:(lia)). rewrite Hs in H. by eapply require_pending_adds_unchanged_Ok.
Qed.

Lemma slots_and_adds_unchanged_Ok prev next (skip : nat -> bool) u :
  valid (bal prev) -> valid (bal next) ->
  res_forall (fun i => if skip i then Ok tt
                       else _ ← ensure_slot_unchanged prev next i;
                            require_pending_adds_unchanged prev next i)
    (seq 0 MAX_CHANNEL_MEMBERS) = Ok u ->
  forall i t, skip i = false ->
    ct_lookup next i t = ct_lookup prev i t /\ adds_lookup next i t = adds_lookup prev i t.
Proof.
  intros Hp Hn H i t Hs. rewrite res_forall_seq in H.
  destruct (decide (i < MAX_CHANNEL_MEMBERS)%nat) as [Hi|];
    [|by rewrite !ct_lookup_slots, !adds_lookup_slots by (done || lia)].
  specialize (H i ltac:(lia)). rewrite Hs in H. simplify_res.
  split; [by eapply ensure_slot_unchanged_Ok | by eapply require_pending_adds_unchanged_Ok].
Qed.

Lemma resolve_token_slot_Ok s token_index ts :
  resolve_token_slot s token_index = Ok ts ->
  BalanceState.token_registry s !! ts = Some token_index /\ (ts < active_tokens s)%nat.
Proof.
  unfold resolve_token_slot. intros H. simplify_res.
  destruct (list_find _ _) as [[i x]|] eqn:Hf; cbn in H; [|done]. simplify_eq.
  apply list_find_Some in Hf as (Hl & -> & _). apply lookup_take_Some in Hl as [Hl Hlt].
  split; [done|]. unfold active_tokens. lia.
Qed.

Lemma u64_to_u256_val v x : in_width 64 v -> u64_to_u256 v = Ok x -> val x = v.
Proof.
  intros Hv. unfold u64_to_u256. intros H. apply limbs_try_into_Ok in H. unfold val. rewrite H. cbn.
  unfold wrap. rewrite Z.shiftr_div_pow2 by lia. unfold in_width in Hv.
  rewrite (Z.mod_small (v / 2 ^ 32)) by
    (split; [apply Z.div_pos; lia | apply Z.div_lt_upper_bound; lia]).
  pose proof (Z.div_mod v (2 ^ 32)). lia.
Qed.

Lemma check_token_slot_Ok s ts u :
  check_token_slot s ts = Ok u -> (ts < MAX_CHANNEL_TOKENS)%nat /\ (ts < active_tokens s)%nat.
Proof.
  unfold check_token_slot. intros H. simplify_res. simplify_bool.
  apply Nat.leb_gt in Hr, H. by split.
Qed.

Lemma member_slot_index_Ok record pk i :
  member_slot_index record pk = Ok i -> ChannelRecord.member_pk_gs record !! i = Some pk.
Proof.
  unfold member_slot_index. intros H. simplify_res.
  destruct (list_find _ _) as [[j x]|] eqn:Hf; cbn in H; [|done]. simplify_eq.
  by apply list_find_Some in Hf as (Hl & -> & _).
Qed.
End checks.

(** ** Effects *)

(** The registry and its active count are untouched. *)
Definition same_tokens (prev next : ChannelState) : Prop :=
  BalanceState.token_registry (bal next) = BalanceState.token_registry (bal prev) /\
  BalanceState.token_count (bal next) = BalanceState.token_count (bal prev).

(** Every position outside [touched] keeps its ciphertext and its counter. *)
Definition positions_unchanged (touched : nat -> nat -> Prop) (prev next : ChannelState) : Prop :=
  forall i t, ~ touched i t ->
    ct_lookup next i t = ct_lookup prev i t /\ adds_lookup next i t = adds_lookup prev i t.

(** The settle chain, accumulator, funds and incoming residue are untouched. *)
Definition no_settle (prev next : ChannelState) : Prop :=
  BalanceState.settled_tx_chain (bal next) = BalanceState.settled_tx_chain (bal prev) /\
  BalanceState.settled_tx_accumulator_root (bal next) = BalanceState.settled_tx_accumulator_root (bal prev) /\
  ChannelState.channel_fund next = ChannelState.channel_fund prev /\
  ChannelState.unallocated_confirmed_incoming next = ChannelState.unallocated_confirmed_incoming prev /\
  ChannelState.shared_native_nullifier_root next = ChannelState.shared_native_nullifier_root prev /\
  ChannelState.h2_tag next = bytes32_default.

(** Position [(i, t)] receives [delta] under the refresh budget. *)
Definition receives (prev next : ChannelState) (i t : nat) (delta : RegevCiphertext) : Prop :=
  (exists old new, ct_lookup prev i t = Some old /\ add_ciphertexts old delta = Ok new /\
     ct_lookup next i t = Some new) /\
  (exists n, adds_lookup prev i t = Some n /\ 0 <= n < MAX_HOMO_ADDS_BEFORE_REFRESH /\
     adds_lookup next i t = Some (n + 1)).

(** The amounts of fund position [ts] relate by [f]; every other position is untouched. *)
Definition fund_moves (prev next : ChannelState) (ts : nat) (delta : Z) : Prop :=
  (exists a b, fund_lookup prev ts = Some a /\ fund_lookup next ts = Some b /\ val b = val a + delta) /\
  (forall t, t <> ts -> fund_lookup next t = fund_lookup prev t).

Ltac open_checks :=
  repeat match goal with
  | H : verify_state_linkage _ _ = Ok _ |- _ => apply verify_state_linkage_Ok in H
  | H : verify_balance_state_common _ _ _ = Ok _ |- _ =>
      apply verify_balance_state_common_Ok in H as (? & ? & ?); [|by apply cty_balance|by apply cty_balance]
  | H : require_small_block_unchanged _ _ = Ok _ |- _ => unfold require_small_block_unchanged in H
  | H : require_h2_zero _ = Ok _ |- _ => unfold require_h2_zero in H
  | H : require_chain_unchanged _ _ = Ok _ |- _ => unfold require_chain_unchanged in H
  | H : require_chain_push _ _ _ = Ok _ |- _ => unfold require_chain_push in H
  | H : require_accumulator_unchanged _ _ = Ok _ |- _ => unfold require_accumulator_unchanged in H
  | H : ensure_same_channel_fund _ _ = Ok _ |- _ => unfold ensure_same_channel_fund in H
  | H : ensure_same_root _ _ = Ok _ |- _ => unfold ensure_same_root in H
  | H : ensure_different_root _ _ = Ok _ |- _ => unfold ensure_different_root in H
  | H : ensure_same_u256 _ _ = Ok _ |- _ => unfold ensure_same_u256 in H
  | H : ensure_fund_identity_unchanged _ _ = Ok _ |- _ => unfold ensure_fund_identity_unchanged in H
  | H : ct_at _ _ _ = Ok _ |- _ => apply ct_at_Ok in H
  | H : adds_at _ _ _ = Ok _ |- _ => apply adds_at_Ok in H
  | H : fund_at _ _ = Ok _ |- _ => apply fund_at_Ok in H
  | H : check_token_slot _ _ = Ok _ |- _ => apply check_token_slot_Ok in H as [? ?]
  | H : resolve_token_slot _ _ = Ok _ |- _ => apply resolve_token_slot_Ok in H as [? ?]
  | H : member_slot_index _ _ = Ok _ |- _ => apply member_slot_index_Ok in H
  end; simplify_res; simplify_bool.

Lemma adds_lookup_nonneg s i t n : cs_typed s -> adds_lookup s i t = Some n -> 0 <= n.
Proof. intros Hty H. by apply (cty_adds s Hty) in H as [? _]. Qed.

(** Turns the frame checks into equations, given the typing of both states. *)
Ltac derive_frames Hp Hn :=
  match goal with H : linked _ _ _ |- _ =>
    let Hvp := fresh "Hvp" in let Hvn := fresh "Hvn" in
    pose proof (lk_prev_valid _ _ _ H) as Hvp; pose proof (lk_next_valid _ _ _ H) as Hvn;
    repeat match goal with
    | H : ensure_row_unchanged_except _ _ _ _ = Ok _ |- _ =>
        pose proof (ensure_row_unchanged_except_Ok _ _ _ _ _ (cty_balance _ Hp) (cty_balance _ Hn) H); clear H
    | H : require_pending_adds_unchanged_except _ _ _ _ = Ok _ |- _ =>
        pose proof (require_pending_adds_unchanged_except_Ok _ _ _ _ _ (cty_balance _ Hp) (cty_balance _ Hn) H); clear H
    | H : require_pending_add_increment _ _ _ _ = Ok _ |- _ =>
        apply (require_pending_add_increment_Ok _ _ _ _ _ (cty_balance _ Hp) (cty_balance _ Hn)
                 (fun n => adds_lookup_nonneg _ _ _ n Hp)) in H as [? ?]
    | H : ensure_funds_unchanged_except _ _ _ = Ok _ |- _ =>
        pose proof (ensure_funds_unchanged_except_Ok _ _ _ _ Hp Hn H); clear H
    | H : res_forall (fun i => if _ then _ else ensure_slot_unchanged _ _ _) _ = Ok _ |- _ =>
        pose proof (slots_unchanged_Ok _ _ _ _ Hvp Hvn H); clear H
    | H : res_forall (fun i => if _ then _ else require_pending_adds_unchanged _ _ _) _ = Ok _ |- _ =>
        pose proof (adds_unchanged_Ok _ _ _ _ Hvp Hvn H); clear H
    | H : res_forall (fun i => if _ then _ else (ensure_slot_unchanged _ _ _ ≫= _)) _ = Ok _ |- _ =>
        pose proof (slots_and_adds_unchanged_Ok _ _ _ _ Hvp Hvn H); clear H
    | H : res_forall (fun i => ensure_slot_unchanged _ _ _ ≫= _) _ = Ok _ |- _ =>
        pose proof (slots_and_adds_unchanged_Ok _ _ (fun _ => false) _ Hvp Hvn H); clear H
    end
  end.

(** Closes a frame goal with the equation for its position. *)
Ltac use_frames :=
  match goal with
  | |- _ /\ _ => split; use_frames
  | H : forall t, t <> _ -> ct_lookup _ ?i t = _ |- ct_lookup _ ?i _ = _ => by apply H
  | H : forall t, t <> _ -> adds_lookup _ ?i t = _ |- adds_lookup _ ?i _ = _ => by apply H
  | H : forall i t, _ = false -> ct_lookup _ i t = _ |- ct_lookup _ _ _ = _ => by apply H
  | H : forall i t, _ = false -> adds_lookup _ i t = _ |- adds_lookup _ _ _ = _ => by apply H
  | H : forall i t, _ = false -> _ /\ _ |- ct_lookup _ _ _ = _ => by apply H
  | H : forall i t, _ = false -> _ /\ _ |- adds_lookup _ _ _ = _ => by apply H
  end.

Module InChannel.
Import InChannelTransferUpdateWitness.

Section effect.
Context {K : Keccak} {P : Poseidon} {R : RegevScheme} {VR : RegevProofVerifier}.

Definition slot (w : InChannelTransferUpdateWitness) : nat := Z.to_nat (ChannelTx.token_slot (channel_tx w)).

Definition touched (w : InChannelTransferUpdateWitness) (i t : nat) : Prop :=
  t = slot w /\ (i = sender_index w \/ i = recipient_index w).

Record effect (w : InChannelTransferUpdateWitness) : Prop := {
  ef_linked : linked (channel_record w) (prev_state w) (next_state w);
  ef_chained : chained (prev_state w) (next_state w);
  ef_tokens : same_tokens (prev_state w) (next_state w);
  ef_settle : no_settle (prev_state w) (next_state w);
  ef_parties : sender_index w <> recipient_index w;
  ef_slot : (slot w < active_tokens (bal (prev_state w)))%nat;
  ef_recipient : receives (prev_state w) (next_state w) (recipient_index w) (slot w)
                   (ChannelTx.enc_amount (channel_tx w));
  ef_sender_adds : adds_lookup (next_state w) (sender_index w) (slot w) = Some 0;
  ef_others : positions_unchanged (touched w) (prev_state w) (next_state w);
  ef_proof : exists spk rpk before after,
    regev_pks w !! sender_index w = Some spk /\ regev_pks w !! recipient_index w = Some rpk /\
    ct_lookup (prev_state w) (sender_index w) (slot w) = Some before /\
    ct_lookup (next_state w) (sender_index w) (slot w) = Some after /\
    verify_regev_proof (ChannelTx.channel_tx_zkp (channel_tx w)) ChannelTxDecrypted
      (StChannelTx spk rpk before (ChannelTx.enc_amount (channel_tx w)) after) = Ok tt;
}.

Lemma transfer_effect w pi :
  cs_typed (prev_state w) -> cs_typed (next_state w) -> verify w = Ok pi -> effect w.
Proof.
  intros Hp Hn H. unfold verify in H. cbv zeta in H. fold (slot w) in H. simplify_res. open_checks.
  derive_frames Hp Hn.
  constructor; try done.
  - by apply Nat.eqb_neq.
  - split; [|done]. subst. eauto.
  - by subst.
  - intros i t Hnt. unfold touched in Hnt.
    destruct (decide (i = sender_index w)) as [->|Hs];
      [assert (t <> slot w) by (intros ->; apply Hnt; auto); by use_frames|].
    destruct (decide (i = recipient_index w)) as [->|Hr'];
      [assert (t <> slot w) by (intros ->; apply Hnt; auto); by use_frames|].
    assert ((i =? sender_index w)%nat || (i =? recipient_index w)%nat = false)
      by (apply orb_false_iff; split; by apply Nat.eqb_neq). by use_frames.
  - do 4 eexists. by split_and!.
Qed.
End effect.
End InChannel.

Lemma fund_credit prev next ts amount a256 prev_fund next_fund :
  in_width 64 amount -> u64_to_u256 amount = Ok a256 ->
  fund_lookup prev ts = Some prev_fund -> fund_lookup next ts = Some next_fund ->
  U256.add (E := ChannelStateUpdateError) prev_fund a256 = Ok next_fund ->
  (forall t, t <> ts -> fund_lookup next t = fund_lookup prev t) ->
  fund_moves prev next ts amount.
Proof.
  intros Hw Ha Hp Hn Hadd Hrest. split; [|done]. exists prev_fund, next_fund. split_and!; try done.
  apply U256_theorems.add_Ok in Hadd. by rewrite Hadd, (u64_to_u256_val amount a256).
Qed.

Module Send.
Import InterChannelSendUpdateWitness.

Section effect.
Context {K : Keccak} {P : Poseidon} {VP : ChannelProofVerifier} {VR : RegevProofVerifier}.

Definition tx_root (w : InterChannelSendUpdateWitness) : Bytes32 :=
  SmallBlockRootMessage.tx_tree_root (InterChannelTx.message (inter_channel_tx w)).

Record effect (w : InterChannelSendUpdateWitness) (si ts : nat) : Prop := {
  ef_linked : linked (channel_record w) (prev_state w) (next_state w);
  ef_chained : chained (prev_state w) (next_state w);
  ef_tokens : same_tokens (prev_state w) (next_state w);
  ef_sender : ChannelRecord.member_pk_gs (channel_record w) !! si
                = Some (InterChannelTx.source_pk_g (inter_channel_tx w));
  ef_slot : BalanceState.token_registry (bal (prev_state w)) !! ts
              = Some (InterChannelTx.token_index (inter_channel_tx w)) /\
            (ts < active_tokens (bal (prev_state w)))%nat;
  ef_fund : fund_moves (prev_state w) (next_state w) ts (- amount w);
  ef_fund_identity :
    ChannelFund.intmax_state_root (ChannelState.channel_fund (next_state w))
      = ChannelFund.intmax_state_root (ChannelState.channel_fund (prev_state w));
  ef_unallocated : ChannelState.unallocated_confirmed_incoming (next_state w)
                     = ChannelState.unallocated_confirmed_incoming (prev_state w);
  ef_nullifier : ChannelState.shared_native_nullifier_root (next_state w)
                   <> ChannelState.shared_native_nullifier_root (prev_state w);
  ef_h2 : ChannelState.h2_tag (next_state w) = tx_root w /\ tx_root w <> bytes32_default;
  ef_h1 : BalanceState.h1 (E := ChannelStateUpdateError) (bal (next_state w))
            = Ok (SmallBlockRootMessage.state_commitment_root (InterChannelTx.message (inter_channel_tx w)));
  ef_sender_adds : adds_lookup (next_state w) si ts = Some 0;
  ef_others : positions_unchanged (fun i t => i = si /\ t = ts) (prev_state w) (next_state w);
  ef_proof : exists spk before after delta,
    regev_pks w !! si = Some spk /\
    ct_lookup (prev_state w) si ts = Some before /\ ct_lookup (next_state w) si ts = Some after /\
    InterChannelTx.receiver_deltas (inter_channel_tx w) = [delta] /\
    verify_regev_proof (InterChannelTx.channel_update_zkp (inter_channel_tx w)) ChannelUpdateDecrypted
      (StChannelUpdate spk (destination_recipient_pk w) before after
         (InterChannelTx.sender_delta_ct (inter_channel_tx w)) (ReceiverBalanceDelta.amount delta)
         (amount w) (InterChannelTx.token_index (inter_channel_tx w))) = Ok tt;
}.

Lemma send_effect w pi :
  cs_typed (prev_state w) -> cs_typed (next_state w) -> in_width 64 (amount w) ->
  verify w = Ok pi -> exists si ts, effect w si ts.
Proof.
  intros Hp Hn Hw H. unfold verify in H. cbv zeta in H. simplify_res. open_checks.
  derive_frames Hp Hn.
  match goal with H : ChannelRecord.member_pk_gs _ !! ?i = Some _ |- _ => rename i into si end.
  match goal with H : BalanceState.token_registry _ !! ?t = Some _ |- _ => rename t into ts end.
  exists si, ts. constructor; try done; try (by split); try congruence.
  - split; [|done]. match goal with Ha : fund_lookup (prev_state w) ts = Some ?a,
      Hb : fund_lookup (next_state w) ts = Some ?b |- _ => exists a, b end.
    split_and!; [done..|]. subst.
    match goal with H : U256.add _ _ = Ok _ |- _ => apply U256_theorems.add_Ok in H as -> end.
    match goal with H : u64_to_u256 _ = Ok ?x |- _ => rewrite (u64_to_u256_val _ x Hw H) end. lia.
  - intros i t Hnt. destruct (decide (i = si)) as [->|Hs].
    + assert (t <> ts) by (intros ->; by apply Hnt). by use_frames.
    + assert ((i =? si)%nat = false) by (by apply Nat.eqb_neq). by use_frames.
  - do 4 eexists. split_and!; try eassumption.
    destruct (InterChannelTx.receiver_deltas (inter_channel_tx w)) as [|d [|]]; try done.
    cbn in *. by simplify_eq.
Qed.
End effect.
End Send.

Module FundImport.
Import InterChannelFundImportUpdateWitness.

Section effect.
Context {K : Keccak} {P : Poseidon} {VP : ChannelProofVerifier}.

Record effect (w : InterChannelFundImportUpdateWitness) (ts : nat) : Prop := {
  ef_linked : linked (receiver_channel_record w) (prev_state w) (next_state w);
  ef_chained : chained (prev_state w) (next_state w);
  ef_tokens : same_tokens (prev_state w) (next_state w);
  ef_slot : BalanceState.token_registry (bal (prev_state w)) !! ts
              = Some (InterChannelTx.token_index (inter_channel_tx w)) /\
            (ts < active_tokens (bal (prev_state w)))%nat;
  ef_fund : fund_moves (prev_state w) (next_state w) ts (amount w);
  ef_unallocated : val (ChannelState.unallocated_confirmed_incoming (next_state w))
                     = val (ChannelState.unallocated_confirmed_incoming (prev_state w)) + amount w;
  ef_nullifier : ChannelState.shared_native_nullifier_root (next_state w)
                   <> ChannelState.shared_native_nullifier_root (prev_state w);
  ef_balances : positions_unchanged (fun _ _ => False) (prev_state w) (next_state w);
  ef_tx_hash : InterChannelTx.compute_tx_hash (inter_channel_tx w)
                 = Ok (InterChannelTx.tx_hash (inter_channel_tx w));
  ef_receiver : exists delta i, head (InterChannelTx.receiver_deltas (inter_channel_tx w)) = Some delta /\
    (i < active_slots (bal (prev_state w)))%nat /\
    ChannelRecord.member_pk_gs (receiver_channel_record w) !! i
      = Some (ReceiverBalanceDelta.receiver_pk_g delta) /\
    BalanceState.regev_pk_digests (bal (prev_state w)) !! i
      = Some (ReceiverBalanceDelta.receiver_regev_pk_digest delta);
}.

Lemma active_member_position_Ok record pk i :
  active_member_position record pk = Ok i ->
  ChannelRecord.member_pk_gs record !! i = Some pk /\
  (i < Z.to_nat (ChannelRecord.member_count record) + Z.to_nat (ChannelRecord.delegate_count record))%nat.
Proof.
  unfold active_member_position. intros H. simplify_res.
  destruct (list_find _ _) as [[j x]|] eqn:Hf; cbn in H; [|done]. simplify_eq.
  apply list_find_Some in Hf as (Hl & -> & _). apply lookup_take_Some in Hl as [Hl Hlt].
  split; [done | lia].
Qed.

Lemma import_effect w pi :
  cs_typed (prev_state w) -> cs_typed (next_state w) -> in_width 64 (amount w) ->
  verify w = Ok pi -> exists ts, effect w ts.
Proof.
  intros Hp Hn Hw H. unfold verify in H. cbv zeta in H. simplify_res. open_checks.
  derive_frames Hp Hn.
  match goal with H : BalanceState.token_registry _ !! ?t = Some _ |- _ => rename t into ts end.
  match goal with H : require_token_bearing_tx_hash _ = Ok _ |- _ =>
    unfold require_token_bearing_tx_hash in H; simplify_res; simplify_bool end.
  match goal with H : active_member_position _ _ = Ok _ |- _ =>
    apply active_member_position_Ok in H as [? ?] end.
  exists ts. constructor; try done; try (by split); try congruence.
  - subst. by eapply fund_credit.
  - subst. match goal with H : U256.add _ _ = Ok (ChannelState.unallocated_confirmed_incoming _) |- _ =>
      apply U256_theorems.add_Ok in H end.
    match goal with H : u64_to_u256 _ = Ok ?x |- _ => rewrite (u64_to_u256_val _ x Hw H) in * end. congruence.
  - intros i t _. by use_frames.
  - do 2 eexists. split_and!; try eassumption; [|congruence].
    unfold active_slots. match goal with H : linked _ _ _ |- _ => destruct (lk_members _ _ _ H) as [-> _];
      destruct (lk_delegates _ _ _ H) as [-> _] end. done.
Qed.
End effect.
End FundImport.

Module Deposit.
Import L1DepositImportUpdateWitness.

Section effect.
Context {K : Keccak} {P : Poseidon}.

Record effect (w : L1DepositImportUpdateWitness) (ts : nat) : Prop := {
  ef_linked : linked (channel_record w) (prev_state w) (next_state w);
  ef_chained : chained (prev_state w) (next_state w);
  ef_tokens : same_tokens (prev_state w) (next_state w);
  ef_slot : BalanceState.token_registry (bal (prev_state w)) !! ts = Some (token_index w) /\
            (ts < active_tokens (bal (prev_state w)))%nat;
  ef_fund : fund_moves (prev_state w) (next_state w) ts (amount w);
  ef_unallocated : val (ChannelState.unallocated_confirmed_incoming (next_state w))
                     = val (ChannelState.unallocated_confirmed_incoming (prev_state w)) + amount w;
  ef_balances : positions_unchanged (fun _ _ => False) (prev_state w) (next_state w);
  ef_chain : BalanceState.settled_tx_chain (bal (next_state w))
               = settled_tx_chain_push (BalanceState.settled_tx_chain (bal (prev_state w))) (deposit_nullifier w);
}.

Lemma deposit_effect w pi :
  cs_typed (prev_state w) -> cs_typed (next_state w) -> in_width 64 (amount w) ->
  verify w = Ok pi -> exists ts, effect w ts.
Proof.
  intros Hp Hn Hw H. unfold verify in H. cbv zeta in H. simplify_res. open_checks.
  derive_frames Hp Hn.
  match goal with H : BalanceState.token_registry _ !! ?t = Some _ |- _ => rename t into ts end.
  exists ts. constructor; try done; try (by split); try congruence.
  - subst. by eapply fund_credit.
  - subst. match goal with H : U256.add _ _ = Ok (ChannelState.unallocated_confirmed_incoming _) |- _ =>
      apply U256_theorems.add_Ok in H end.
    match goal with H : u64_to_u256 _ = Ok ?x |- _ => rewrite (u64_to_u256_val _ x Hw H) in * end. congruence.
  - intros i t _. by use_frames.
Qed.
End effect.
End Deposit.

(** The accumulator replaces the tagged leaf at [index] by the plain one, on one path. *)
Definition incoming_applied {K : Keccak} {P : Poseidon} (prev_root next_root tx_hash : Bytes32) (index : Z)
    (ss : list PHash) : Prop :=
  index < 2 ^ Z.of_nat SETTLED_TX_ACCUMULATOR_HEIGHT /\ length ss = SETTLED_TX_ACCUMULATOR_HEIGHT /\
  phash_into_bytes32 (E := ChannelStateUpdateError)
    (path_root (Hs := PoseidonLeafableHasher) ss index (leaf_hash (unapplied_incoming_leaf tx_hash))) = Ok prev_root /\
  phash_into_bytes32 (E := ChannelStateUpdateError)
    (path_root (Hs := PoseidonLeafableHasher) ss index (leaf_hash tx_hash)) = Ok next_root.

Lemma require_incoming_application_Ok {K : Keccak} {P : Poseidon} prev_root next_root tx_hash index proof u :
  require_incoming_application prev_root next_root tx_hash index proof = Ok u ->
  incoming_applied prev_root next_root tx_hash index (siblings proof).
Proof.
  unfold require_incoming_application. rewrite !proof_get_root_eq.
  destruct (_ || _) eqn:Hg; [done|]. apply orb_false_iff in Hg as [Hi Hl].
  apply Z.leb_gt in Hi. apply negb_false_iff, Nat.eqb_eq in Hl. cbn [mbind res_bind]. intros H.
  simplify_res. simplify_bool. subst. by split_and!.
Qed.

Module Bundle.
Import ReceiverBundleApplyUpdateWitness.

Section effect.
Context {K : Keccak} {P : Poseidon} {R : RegevScheme} {VR : RegevProofVerifier}.

Record effect (w : ReceiverBundleApplyUpdateWitness P) (ts : nat) : Prop := {
  ef_linked : linked (receiver_channel_record w) (prev_state w) (next_state w);
  ef_chained : chained (prev_state w) (next_state w);
  ef_tokens : same_tokens (prev_state w) (next_state w);
  ef_slot : BalanceState.token_registry (bal (prev_state w)) !! ts
              = Some (InterChannelTx.token_index (inter_channel_tx w)) /\
            (ts < active_tokens (bal (prev_state w)))%nat;
  ef_fund : ChannelState.channel_fund (next_state w) = ChannelState.channel_fund (prev_state w);
  ef_chain : BalanceState.settled_tx_chain (bal (next_state w)) = BalanceState.settled_tx_chain (bal (prev_state w));
  ef_unallocated : val (ChannelState.unallocated_confirmed_incoming (prev_state w))
                     = val (ChannelState.unallocated_confirmed_incoming (next_state w)) + amount w;
  ef_accumulator : incoming_applied (BalanceState.settled_tx_accumulator_root (bal (prev_state w)))
                     (BalanceState.settled_tx_accumulator_root (bal (next_state w)))
                     (InterChannelTx.tx_hash (inter_channel_tx w)) (incoming_tx_index w)
                     (siblings (incoming_tx_inclusion w));
  ef_delta : exists delta rpk, InterChannelTx.receiver_deltas (inter_channel_tx w) = [delta] /\
    regev_pks w !! recipient_index w = Some rpk /\
    receives (prev_state w) (next_state w) (recipient_index w) ts (ReceiverBalanceDelta.amount delta) /\
    verify_regev_proof (InterChannelTx.channel_update_zkp (inter_channel_tx w)) ChannelUpdateDecrypted
      (StChannelUpdate (source_sender_pk w) rpk (sender_before_ct w) (sender_after_ct w)
         (InterChannelTx.sender_delta_ct (inter_channel_tx w)) (ReceiverBalanceDelta.amount delta)
         (amount w) (InterChannelTx.token_index (inter_channel_tx w))) = Ok tt;
  ef_others : positions_unchanged (fun i t => i = recipient_index w /\ t = ts) (prev_state w) (next_state w);
}.

Lemma bundle_effect w pi :
  cs_typed (prev_state w) -> cs_typed (next_state w) -> in_width 64 (amount w) ->
  verify w = Ok pi -> exists ts, effect w ts.
Proof.
  intros Hp Hn Hw H. unfold verify in H. cbv zeta in H. simplify_res. open_checks.
  derive_frames Hp Hn.
  match goal with H : BalanceState.token_registry _ !! ?t = Some _ |- _ => rename t into ts end.
  exists ts. constructor; try done; try (by split); try congruence.
  - subst. match goal with H : U256.add _ _ = Ok (ChannelState.unallocated_confirmed_incoming _) |- _ =>
      apply U256_theorems.add_Ok in H end.
    match goal with H : u64_to_u256 _ = Ok ?x |- _ => rewrite (u64_to_u256_val _ x Hw H) in * end. congruence.
  - by eapply require_incoming_application_Ok.
  - destruct (InterChannelTx.receiver_deltas (inter_channel_tx w)) as [|d [|]]; try done.
    cbn in *. simplify_eq. do 2 eexists. repeat (split; [done|]). split; [|done].
    split; [|done]. do 2 eexists. by split_and!.
  - intros i t Hnt. destruct (decide (i = recipient_index w)) as [->|Hs].
    + assert (t <> ts) by (intros ->; by apply Hnt). by use_frames.
    + assert ((i =? recipient_index w)%nat = false) by (by apply Nat.eqb_neq). by use_frames.
Qed.
End effect.
End Bundle.

Module Refresh.
Import BalanceRefreshUpdateWitness.

Section effect.
Context {K : Keccak} {P : Poseidon} {VR : RegevProofVerifier}.

Record effect (w : BalanceRefreshUpdateWitness) : Prop := {
  ef_linked : linked (channel_record w) (prev_state w) (next_state w);
  ef_chained : chained (prev_state w) (next_state w);
  ef_tokens : same_tokens (prev_state w) (next_state w);
  ef_settle : no_settle (prev_state w) (next_state w);
  ef_slot : (token_slot w < active_tokens (bal (prev_state w)))%nat;
  ef_adds : adds_lookup (next_state w) (member_index w) (token_slot w) = Some 0;
  ef_others : positions_unchanged (fun i t => i = member_index w /\ t = token_slot w)
                (prev_state w) (next_state w);
  ef_proof : exists pk old new, regev_pks w !! member_index w = Some pk /\
    ct_lookup (prev_state w) (member_index w) (token_slot w) = Some old /\
    ct_lookup (next_state w) (member_index w) (token_slot w) = Some new /\
    verify_regev_proof (refresh_proof w) BalanceRefreshPurpose (StBalanceRefresh pk old new) = Ok tt;
}.

Lemma refresh_effect w pi :
  cs_typed (prev_state w) -> cs_typed (next_state w) -> verify w = Ok pi -> effect w.
Proof.
  intros Hp Hn H. unfold verify in H. cbv zeta in H. simplify_res. open_checks. derive_frames Hp Hn.
  constructor; try done; try congruence.
  - intros i t Hnt. destruct (decide (i = member_index w)) as [->|Hs].
    + assert (t <> token_slot w) by (intros ->; by apply Hnt). by use_frames.
    + assert ((i =? member_index w)%nat = false) by (by apply Nat.eqb_neq). by use_frames.
  - do 3 eexists. by split_and!.
Qed.
End effect.
End Refresh.

Module Register.
Import TokenRegisterUpdateWitness.

Section effect.
Context {K : Keccak} {P : Poseidon}.

Record effect (w : TokenRegisterUpdateWitness) : Prop := {
  ef_linked : linked (channel_record w) (prev_state w) (next_state w);
  ef_chained : chained (prev_state w) (next_state w);
  ef_settle : no_settle (prev_state w) (next_state w);
  ef_apply : BalanceState.apply_token_register (bal (prev_state w)) (token_index w) = Ok (bal (next_state w));
  ef_canonical : exists s, token_register_next_state (prev_state w) (token_index w) = Ok s /\
    next_state w = ChannelState.with_signatures s (ChannelState.member_signatures (next_state w));
}.

Lemma register_effect w pi :
  cs_typed (prev_state w) -> cs_typed (next_state w) -> verify w = Ok pi -> effect w.
Proof.
  intros Hp Hn H. unfold verify in H. cbv zeta in H. simplify_res. open_checks.
  match goal with H : verify_balance_state_shared _ _ _ = Ok _ |- _ =>
    apply verify_balance_state_shared_Ok in H; [|by apply cty_balance..] end.
  match goal with H : BalanceState.verify_token_register_transition _ _ _ = Ok _ |- _ =>
    apply verify_token_register_transition_Ok in H end.
  constructor; try done; [eexists; split; [eassumption | congruence]].
Qed.
End effect.
End Register.
