(* ===== verification/ChannelRun.v ===== *)
(** * Runs of a channel

    The seven transition verifiers of [StateUpdate] as one labelled step
    relation on channel states, and what every run of accepted steps
    preserves: identity, membership, the token registry, the version and epoch
    counters, the fund of every registered token, and the pool of confirmed
    but not yet allocated value. *)

From S2P Require Import Prelude Limbs MerkleTree LeafTrees Poseidon Keccak Regev BalanceState BalanceStateProps Channel StateUpdate StateUpdateProps.

(** ** Events *)

Inductive event :=
  | Transferred (sender recipient slot : nat)
  | Sent (token amount : Z)
  | Imported (token amount : Z)
  | Deposited (token amount : Z)
  | Applied (token amount : Z)
  | Refreshed (member slot : nat)
  | Registered (token : Z).

(** What an event adds to the channel fund of token [tok]. *)
Definition fund_flow (tok : Z) (ev : event) : Z :=
  match ev with
  | Sent t a => if t =? tok then - a else 0
  | Imported t a | Deposited t a => if t =? tok then a else 0
  | _ => 0
  end.

(** What an event adds to the confirmed value not yet credited to a member. *)
Definition incoming_flow (ev : event) : Z :=
  match ev with
  | Imported _ a | Deposited _ a => a
  | Applied _ a => - a
  | _ => 0
  end.

Definition total (f : event -> Z) (evs : list event) : Z := foldr (fun ev acc => f ev + acc) 0 evs.

Section step.
Context {K : Keccak} {P : Poseidon} {R : RegevScheme}
        {VP : ChannelProofVerifier} {VR : RegevProofVerifier}.

(** One accepted update of the channel registered as [record].  The typing
    premises are the field types of the Rust structs. *)
Inductive step (record : ChannelRecord) : ChannelState -> event -> ChannelState -> Prop :=
  | step_transfer w pi :
      InChannelTransferUpdateWitness.channel_record w = record ->
      cs_typed (InChannelTransferUpdateWitness.prev_state w) ->
      cs_typed (InChannelTransferUpdateWitness.next_state w) ->
      InChannelTransferUpdateWitness.verify w = Ok pi ->
      step record (InChannelTransferUpdateWitness.prev_state w)
        (Transferred (InChannelTransferUpdateWitness.sender_index w)
           (InChannelTransferUpdateWitness.recipient_index w) (InChannel.slot w))
        (InChannelTransferUpdateWitness.next_state w)
  | step_send w pi :
      InterChannelSendUpdateWitness.channel_record w = record ->
      cs_typed (InterChannelSendUpdateWitness.prev_state w) ->
      cs_typed (InterChannelSendUpdateWitness.next_state w) ->
      in_width 64 (InterChannelSendUpdateWitness.amount w) ->
      InterChannelSendUpdateWitness.verify w = Ok pi ->
      step record (InterChannelSendUpdateWitness.prev_state w)
        (Sent (InterChannelTx.token_index (InterChannelSendUpdateWitness.inter_channel_tx w))
           (InterChannelSendUpdateWitness.amount w))
        (InterChannelSendUpdateWitness.next_state w)
  | step_import w pi :
      InterChannelFundImportUpdateWitness.receiver_channel_record w = record ->
      cs_typed (InterChannelFundImportUpdateWitness.prev_state w) ->
      cs_typed (InterChannelFundImportUpdateWitness.next_state w) ->
      in_width 64 (InterChannelFundImportUpdateWitness.amount w) ->
      InterChannelFundImportUpdateWitness.verify w = Ok pi ->
      step record (InterChannelFundImportUpdateWitness.prev_state w)
        (Imported (InterChannelTx.token_index (InterChannelFundImportUpdateWitness.inter_channel_tx w))
           (InterChannelFundImportUpdateWitness.amount w))
        (InterChannelFundImportUpdateWitness.next_state w)
  | step_deposit w pi :
      L1DepositImportUpdateWitness.channel_record w = record ->
      cs_typed (L1DepositImportUpdateWitness.prev_state w) ->
      cs_typed (L1DepositImportUpdateWitness.next_state w) ->
      in_width 64 (L1DepositImportUpdateWitness.amount w) ->
      L1DepositImportUpdateWitness.verify w = Ok pi ->
      step record (L1DepositImportUpdateWitness.prev_state w)
        (Deposited (L1DepositImportUpdateWitness.token_index w) (L1DepositImportUpdateWitness.amount w))
        (L1DepositImportUpdateWitness.next_state w)
  | step_apply w pi :
      ReceiverBundleApplyUpdateWitness.receiver_channel_record w = record ->
      cs_typed (ReceiverBundleApplyUpdateWitness.prev_state w) ->
      cs_typed (ReceiverBundleApplyUpdateWitness.next_state w) ->
      in_width 64 (ReceiverBundleApplyUpdateWitness.amount w) ->
      ReceiverBundleApplyUpdateWitness.verify w = Ok pi ->
      step record (ReceiverBundleApplyUpdateWitness.prev_state w)
        (Applied (InterChannelTx.token_index (ReceiverBundleApplyUpdateWitness.inter_channel_tx w))
           (ReceiverBundleApplyUpdateWitness.amount w))
        (ReceiverBundleApplyUpdateWitness.next_state w)
  | step_refresh w pi :
      BalanceRefreshUpdateWitness.channel_record w = record ->
      cs_typed (BalanceRefreshUpdateWitness.prev_state w) ->
      cs_typed (BalanceRefreshUpdateWitness.next_state w) ->
      BalanceRefreshUpdateWitness.verify w = Ok pi ->
      step record (BalanceRefreshUpdateWitness.prev_state w)
        (Refreshed (BalanceRefreshUpdateWitness.member_index w) (BalanceRefreshUpdateWitness.token_slot w))
        (BalanceRefreshUpdateWitness.next_state w)
  | step_register w pi :
      TokenRegisterUpdateWitness.channel_record w = record ->
      cs_typed (TokenRegisterUpdateWitness.prev_state w) ->
      cs_typed (TokenRegisterUpdateWitness.next_state w) ->
      TokenRegisterUpdateWitness.verify w = Ok pi ->
      step record (TokenRegisterUpdateWitness.prev_state w)
        (Registered (TokenRegisterUpdateWitness.token_index w))
        (TokenRegisterUpdateWitness.next_state w).

(** A sequence of accepted updates, each starting from the state the previous one produced. *)
Inductive run (record : ChannelRecord) : ChannelState -> list event -> ChannelState -> Prop :=
  | run_nil s : run record s [] s
  | run_cons s ev s' evs s'' :
      step record s ev s' -> run record s' evs s'' -> run record s (ev :: evs) s''.
End step.

(** ** What one step preserves *)

(** The registered tokens of [prev] keep their positions in [next]. *)
Definition registry_extends (prev next : ChannelState) : Prop :=
  (active_tokens (bal prev) <= active_tokens (bal next))%nat /\
  forall t, (t < active_tokens (bal prev))%nat ->
    BalanceState.token_registry (bal next) !! t = BalanceState.token_registry (bal prev) !! t.

Lemma same_tokens_extends prev next : same_tokens prev next -> registry_extends prev next.
Proof.
  intros [Hr Hc]. unfold registry_extends, active_tokens. rewrite Hr, Hc. by split.
Qed.

#[export] Instance registry_extends_preorder : PreOrder registry_extends.
Proof.
  split; [done|]. intros x y z [Hl1 H1] [Hl2 H2]. split; [lia|].
  intros t Ht. rewrite H2 by lia. by apply H1.
Qed.

(** The fund of every token moves by what the event says: of the tokens
    registered in [next], and of those a [later] state registers. *)
Definition funds_follow (prev next : ChannelState) (ev : event) : Prop :=
  forall later t tok, valid (bal later) -> registry_extends next later ->
    (t < active_tokens (bal later))%nat -> BalanceState.token_registry (bal later) !! t = Some tok ->
    exists a b, fund_lookup prev t = Some a /\ fund_lookup next t = Some b /\
      val b = val a + fund_flow tok ev.

Lemma fund_lookup_typed s t :
  cs_typed s -> (t < MAX_CHANNEL_TOKENS)%nat -> exists a, fund_lookup s t = Some a.
Proof. intros Hty Ht. apply lookup_lt_is_Some. by rewrite (cty_funds s Hty). Qed.

Lemma funds_follow_still prev next ev :
  cs_typed prev -> ChannelState.channel_fund next = ChannelState.channel_fund prev ->
  (forall tok, fund_flow tok ev = 0) -> funds_follow prev next ev.
Proof.
  intros Hty Hf Hz later t tok Hv _ Ht _.
  destruct (fund_lookup_typed prev t Hty) as [a Ha]; [pose proof (v_token_count _ Hv); lia|].
  exists a, a. rewrite Hz, Z.add_0_r. split_and!; [done| |done].
  unfold fund_lookup in *. by rewrite Hf.
Qed.

(** A valid registry names a token at one active position only. *)
Lemma registry_position_unique s i j tok :
  valid s -> (i < active_tokens s)%nat -> (j < active_tokens s)%nat ->
  BalanceState.token_registry s !! i = Some tok -> BalanceState.token_registry s !! j = Some tok -> i = j.
Proof.
  intros Hv Hi Hj Hl Hk. destruct (Nat.lt_total i j) as [Hlt|[Heq|Hlt]]; [|done|]; exfalso.
  - by apply (v_injective _ Hv i j tok).
  - by apply (v_injective _ Hv j i tok).
Qed.

(** A move at the registered position of [token] is a move of the fund of [token]. *)
Lemma funds_follow_move prev next ts token delta ev :
  cs_typed prev -> same_tokens prev next ->
  BalanceState.token_registry (bal prev) !! ts = Some token /\ (ts < active_tokens (bal prev))%nat ->
  fund_moves prev next ts delta ->
  (forall tok, fund_flow tok ev = if token =? tok then delta else 0) ->
  funds_follow prev next ev.
Proof.
  intros Hty Hsame%same_tokens_extends [Hts Hlt] [(a & b & Ha & Hb & Hab) Hrest] Hflow later t tok Hv Hext Ht Htok.
  destruct (transitivity Hsame Hext) as [Hle Hreg].
  assert (BalanceState.token_registry (bal later) !! ts = Some token) as Hlater by (by rewrite Hreg).
  rewrite Hflow. destruct (Z.eqb_spec token tok) as [->|Hne].
  - assert (t = ts) as -> by (eapply registry_position_unique; try eassumption; lia).
    exists a, b. by split_and!.
  - assert (t <> ts) as Hne' by congruence.
    destruct (fund_lookup_typed prev t Hty) as [c Hpc]; [pose proof (v_token_count _ Hv); lia|].
    exists c, c. rewrite Hrest by done. split_and!; [done..|lia].
Qed.

(** Everything one accepted step guarantees, whatever its kind. *)
Record step_effect {K : Keccak} {P : Poseidon} (record : ChannelRecord) (s : ChannelState) (ev : event)
    (s' : ChannelState) : Prop := {
  se_typed : cs_typed s /\ cs_typed s';
  se_linked : linked record s s';
  se_chained : chained s s';
  se_registry : registry_extends s s';
  se_funds : funds_follow s s' ev;
  se_incoming : val (ChannelState.unallocated_confirmed_incoming s')
                  = val (ChannelState.unallocated_confirmed_incoming s) + incoming_flow ev;
}.

Section effects.
Context {K : Keccak} {P : Poseidon} {R : RegevScheme}
        {VP : ChannelProofVerifier} {VR : RegevProofVerifier}.

(** Registering a token extends the registry by one position and moves no fund. *)
Lemma register_extends w :
  cs_typed (TokenRegisterUpdateWitness.prev_state w) -> Register.effect w ->
  registry_extends (TokenRegisterUpdateWitness.prev_state w) (TokenRegisterUpdateWitness.next_state w).
Proof.
  intros Hp [Hl _ _ Ha _].
  pose proof (apply_token_register_valid _ _ _ (cty_balance _ Hp) (lk_prev_valid _ _ _ Hl) Ha) as (_ & _ & Hat).
  apply apply_token_register_Ok in Ha as (_ & _ & Hreg & _).
  split; [lia|]. intros t Ht. rewrite Hreg. by rewrite list_lookup_insert_ne by lia.
Qed.

Lemma no_settle_funds s ev s' :
  cs_typed s -> no_settle s s' -> (forall tok, fund_flow tok ev = 0) ->
  funds_follow s s' ev.
Proof.
  intros Hty (_ & _ & Hf & _) Hz. by apply funds_follow_still.
Qed.

Lemma no_settle_incoming s s' :
  no_settle s s' ->
  val (ChannelState.unallocated_confirmed_incoming s')
    = val (ChannelState.unallocated_confirmed_incoming s) + 0.
Proof. intros (_ & _ & _ & -> & _). lia. Qed.

Lemma step_has_effect record s ev s' : step record s ev s' -> step_effect record s ev s'.
Proof.
  destruct 1 as [w pi <- Hp Hn H | w pi <- Hp Hn Hw H | w pi <- Hp Hn Hw H | w pi <- Hp Hn Hw H
                | w pi <- Hp Hn Hw H | w pi <- Hp Hn H | w pi <- Hp Hn H].
  - apply InChannel.transfer_effect in H as []; [|done..].
    constructor; eauto using same_tokens_extends, no_settle_funds, no_settle_incoming.
  - apply Send.send_effect in H as (si & ts & []); [|done..].
    constructor; eauto using same_tokens_extends.
    + eapply funds_follow_move; eauto.
    + cbn. rewrite ef_unallocated. lia.
  - apply FundImport.import_effect in H as (ts & []); [|done..].
    constructor; eauto using same_tokens_extends.
    eapply funds_follow_move; eauto.
  - apply Deposit.deposit_effect in H as (ts & []); [|done..].
    constructor; eauto using same_tokens_extends.
    eapply funds_follow_move; eauto.
  - apply Bundle.bundle_effect in H as (ts & []); [|done..].
    constructor; eauto using same_tokens_extends; [|cbn; lia].
    by apply funds_follow_still.
  - apply Refresh.refresh_effect in H as []; [|done..].
    constructor; eauto using same_tokens_extends, no_settle_funds, no_settle_incoming.
  - pose proof (Register.register_effect _ _ Hp Hn H) as He. pose proof (register_extends w Hp He).
    destruct He. constructor; eauto using no_settle_funds, no_settle_incoming.
Qed.

(** *** Induction over runs *)

(** A relation that holds of every step, and is reflexive and transitive, holds of every run. *)
Lemma run_preorder record (Rel : relation ChannelState) {Hpre : PreOrder Rel} s evs s' :
  (forall x ev y, step_effect record x ev y -> Rel x y) -> run record s evs s' -> Rel s s'.
Proof.
  intros Hs. induction 1 as [|s ev s1 evs s2 Hstep Hrun IH]; [done|].
  transitivity s1; [|done]. by eapply Hs, step_has_effect.
Qed.

(** The identity of a channel: what no transition may touch. *)
Record same_identity (s s' : ChannelState) : Prop := {
  si_channel : ChannelState.channel_id s' = ChannelState.channel_id s;
  si_members : BalanceState.member_count (bal s') = BalanceState.member_count (bal s);
  si_delegates : BalanceState.delegate_count (bal s') = BalanceState.delegate_count (bal s);
  si_recipients : BalanceState.recipients (bal s') = BalanceState.recipients (bal s);
  si_digests : BalanceState.regev_pk_digests (bal s') = BalanceState.regev_pk_digests (bal s);
  si_nonce : ChannelState.close_freeze_nonce s' = ChannelState.close_freeze_nonce s;
}.

#[local] Instance same_identity_preorder : PreOrder same_identity.
Proof. split; [done|]. intros x y z [] []. constructor; congruence. Qed.

Lemma step_same_identity record s ev s' : step_effect record s ev s' -> same_identity s s'.
Proof.
  intros [_ Hl Hc _ _ _]. destruct (lk_members _ _ _ Hl), (lk_delegates _ _ _ Hl).
  constructor; first [apply Hc | apply Hl | congruence].
Qed.

Lemma run_identity record s evs s' : run record s evs s' -> same_identity s s'.
Proof. apply run_preorder; [exact _|apply step_same_identity]. Qed.

Lemma run_registry record s evs s' : run record s evs s' -> registry_extends s s'.
Proof. apply run_preorder; [exact _|]. by intros x ev y []. Qed.

(** Every state of a run is well typed and passes validation. *)
Lemma run_state_ok record s evs s' :
  run record s evs s' -> cs_typed s /\ valid (bal s) -> cs_typed s' /\ valid (bal s').
Proof.
  induction 1 as [|s ev s1 evs s2 Hstep Hrun IH]; [done|]. intros _. apply IH.
  apply step_has_effect in Hstep as [[_ Ht] Hl _ _ _ _]. split; [done|by apply (lk_next_valid _ _ _ Hl)].
Qed.

(** The counters advance by one per step, modulo their width. *)
Lemma run_counters record s evs s' :
  run record s evs s' ->
  in_width 64 (ChannelState.epoch s) -> in_width 64 (BalanceState.state_version (bal s)) ->
  ChannelState.epoch s' = wrap 64 (ChannelState.epoch s + Z.of_nat (length evs)) /\
  BalanceState.state_version (bal s') = wrap 64 (BalanceState.state_version (bal s) + Z.of_nat (length evs)).
Proof.
  induction 1 as [s|s ev s1 evs s2 Hstep Hrun IH]; intros He Hv.
  - cbn [length]. rewrite !Z.add_0_r, !wrap_id by done. done.
  - apply step_has_effect in Hstep as [_ Hl Hc _ _ _].
    rewrite (ch_epoch _ _ Hc), (lk_version _ _ _ Hl) in IH.
    destruct IH as [-> ->]; [apply wrap_in_width; lia..|].
    cbn [length]. rewrite !wrap_add_l by lia. split; f_equal; lia.
Qed.

(** The fund of every token registered at the end is what it was at the
    start, plus everything imported and deposited, minus everything sent. *)
Lemma run_funds record s evs s' t tok :
  run record s evs s' -> cs_typed s -> valid (bal s) ->
  (t < active_tokens (bal s'))%nat -> BalanceState.token_registry (bal s') !! t = Some tok ->
  exists a b, fund_lookup s t = Some a /\ fund_lookup s' t = Some b /\
    val b = val a + total (fund_flow tok) evs.
Proof.
  induction 1 as [s|s ev s1 evs s2 Hstep Hrun IH]; intros Hty Hv Ht Htok.
  - destruct (fund_lookup_typed s t Hty) as [a Ha]; [pose proof (v_token_count _ Hv); lia|].
    exists a, a. split_and!; [done..|cbn; lia].
  - apply step_has_effect in Hstep as [[_ Hty1] Hl _ Hreg Hf _].
    pose proof (lk_next_valid _ _ _ Hl) as Hv1.
    destruct IH as (b & c & Hb & Hc & Hbc); [done..|].
    destruct (run_state_ok _ _ _ _ Hrun) as [_ Hv2]; [done|].
    destruct (Hf s2 t tok Hv2 (run_registry _ _ _ _ Hrun) Ht Htok) as (a & b' & Ha & Hb' & Hab).
    rewrite Hb in Hb'. simplify_eq. exists a, c. split_and!; [done..|].
    cbn [total foldr]. unfold total in Hbc. lia.
Qed.

Lemma run_incoming record s evs s' :
  run record s evs s' ->
  val (ChannelState.unallocated_confirmed_incoming s')
    = val (ChannelState.unallocated_confirmed_incoming s) + total incoming_flow evs.
Proof.
  induction 1 as [s|s ev s1 evs s2 Hstep Hrun IH]; [cbn; lia|].
  apply step_has_effect in Hstep as [_ _ _ _ _ Hi].
  rewrite IH, Hi. cbn [total foldr]. unfold total. lia.
Qed.
End effects.
