(* ===== verification/Scenario.v ===== *)
(** * A concrete channel

    A two-member channel that goes through all seven transitions: an L1
    deposit of 100, an in-channel transfer, a send of 30, an import of 20, the
    application of the import, a refresh and a token registration.  The hash
    and proof parameters are constant functions, so the run shows that the
    checks of [StateUpdate] are satisfiable together; the theorems about them
    are instantiated here. *)

From S2P Require Import Prelude Limbs MerkleTree LeafTrees Poseidon Keccak Regev BalanceState BalanceStateProps Channel ChannelProps StateUpdate StateUpdateProps ChannelRun.

(** ** Parameters *)

Definition word32 (x : Z) (H : limbs_wfb BYTES32_LEN [x; 0; 0; 0; 0; 0; 0; 0] = true) : Bytes32 := mkLimbs _ H.

Definition digest_one : Bytes32 := word32 1 eq_refl.
Definition digest_two : Bytes32 := word32 2 eq_refl.
Definition digest_three : Bytes32 := word32 3 eq_refl.

#[local] Instance ToyKeccak : Keccak := {| solidity_keccak256 _ := digest_one |}.

#[local] Instance ToyPoseidon : Poseidon := {|
  PHash := unit;
  phash_default := tt;
  phash_to_u64_vec _ := [0; 0; 0; 0];
  hash_inputs_u64 _ := tt;
|}.

#[local] Instance ToyPoseidon_output : PoseidonOutput ToyPoseidon.
Proof.
  split; [done| |by intros [] []]. intros h. repeat (constructor; [done|]). constructor.
Qed.

#[local] Instance ToyScheme : RegevScheme := {| regev_decrypt _ _ := [] |}.
#[local] Instance ToyChannelProofs : ChannelProofVerifier := {| verify_channel_proof _ _ := Ok tt |}.
#[local] Instance ToyRegevProofs : RegevProofVerifier := {| verify_regev_proof _ _ _ := Ok tt |}.

(** ** The channel *)

Definition amount_of (x : Z) (H : limbs_wfb U256_LEN [0; 0; 0; 0; 0; 0; 0; x] = true) : U256 := mkLimbs _ H.

Definition recipient_address : Address := mkLimbs (n := ADDRESS_LEN) [1; 0; 0; 0; 0] eq_refl.

(** A dense ciphertext and its double. *)
Definition ct_a : RegevCiphertext := mkCt (replicate REGEV_N 1000000000) (replicate REGEV_N 1000000000).
Definition ct_b : RegevCiphertext := mkCt (replicate REGEV_N 2000000000) (replicate REGEV_N 2000000000).

(** Two active entries, padding elsewhere. *)
Definition two {A} (x y pad : A) : list A := [x; y] ++ replicate (MAX_CHANNEL_MEMBERS - 2) pad.

Definition token_row {A} (x pad : A) : list A := [x] ++ replicate (MAX_CHANNEL_TOKENS - 1) pad.

Definition record_of (id : Z) : ChannelRecord := {|
  ChannelRecord.channel_id := id;
  ChannelRecord.member_count := 2;
  ChannelRecord.delegate_count := 0;
  ChannelRecord.member_pk_gs := two digest_one digest_two bytes32_default;
  ChannelRecord.member_pubkeys_root := bytes32_default;
  ChannelRecord.set_version := 0;
  ChannelRecord.bp_member_slot := 0;
  ChannelRecord.special_close_penalty := u256_zero;
  ChannelRecord.close_freeze_nonce := 0;
  ChannelRecord.status := Active;
  ChannelRecord.regev_pk_root := digest_one;
|}.

Definition toy_record : ChannelRecord := record_of 7.

Definition toy_signatures : list MemberSignature :=
  [MemberSignature.mk 0 digest_one (replicate FALCON_COSIGN_BLOB_BYTES 0);
   MemberSignature.mk 1 digest_two (replicate FALCON_COSIGN_BLOB_BYTES 0)].

#[local] Arguments two : simpl never.
#[local] Arguments token_row : simpl never.
#[local] Arguments zero_token_row : simpl never.
#[local] Arguments zero_adds_row : simpl never.

(** The part of a state the scenario varies. *)
Record view := {
  vw_version : Z;
  vw_ct0 : RegevCiphertext;
  vw_ct1 : RegevCiphertext;
  vw_adds1 : Z;
  vw_registry : list Z;
  vw_tokens : Z;
  vw_fund : U256;
  vw_incoming : U256;
  vw_nullifiers : Bytes32;
  vw_h2 : Bytes32;
}.

Definition toy_balance (v : view) : BalanceState.BalanceState := {|
  BalanceState.channel_id := 7;
  BalanceState.member_count := 2;
  BalanceState.delegate_count := 0;
  BalanceState.enc_balances := two (token_row (vw_ct0 v) zero_ciphertext) (token_row (vw_ct1 v) zero_ciphertext)
                                 zero_token_row;
  BalanceState.regev_pk_digests := two bytes32_default bytes32_default bytes32_default;
  BalanceState.recipients := two recipient_address recipient_address address_default;
  BalanceState.settled_tx_chain := digest_one;
  BalanceState.settled_tx_accumulator_root := bytes32_default;
  BalanceState.state_version := vw_version v;
  BalanceState.pending_adds := two zero_adds_row (token_row (vw_adds1 v) 0) zero_adds_row;
  BalanceState.token_registry := vw_registry v;
  BalanceState.token_count := vw_tokens v;
|}.

Definition toy_state (v : view) : ChannelState := {|
  ChannelState.channel_id := 7;
  ChannelState.epoch := vw_version v;
  ChannelState.small_block_number := 0;
  ChannelState.close_freeze_nonce := 0;
  ChannelState.channel_fund := ChannelFund.mk 7 (token_row (vw_fund v) u256_zero) bytes32_default;
  ChannelState.balance_state := toy_balance v;
  ChannelState.h2_tag := vw_h2 v;
  ChannelState.shared_native_nullifier_root := vw_nullifiers v;
  ChannelState.unallocated_confirmed_incoming := vw_incoming v;
  ChannelState.prev_digest := digest_one;
  ChannelState.digest := digest_one;
  ChannelState.member_signatures := toy_signatures;
|}.

Definition registry_one : list Z := [0; 0; 0; 0; 0; 0; 0; 0; 0; 0].
Definition registry_two : list Z := [0; 9; 0; 0; 0; 0; 0; 0; 0; 0].

(** ** Lookups *)

Lemma MAX_CHANNEL_MEMBERS_nat : MAX_CHANNEL_MEMBERS = 1024%nat.
Proof. pose proof MAX_CHANNEL_MEMBERS_Z. lia. Qed.

Lemma length_two {A} (x y pad : A) : length (two x y pad) = MAX_CHANNEL_MEMBERS.
Proof.
  unfold two. rewrite length_app, length_replicate. pose proof MAX_CHANNEL_MEMBERS_nat. cbn [length]. lia.
Qed.

Lemma two_lookup {A} (x y pad z : A) i :
  two x y pad !! i = Some z -> (i = 0%nat /\ z = x) \/ (i = 1%nat /\ z = y) \/ ((2 <= i)%nat /\ z = pad).
Proof.
  unfold two. destruct i as [|[|i]]; [naive_solver..|]. intros H.
  rewrite lookup_app_r in H by (cbn; lia). apply lookup_replicate in H as [-> _]. right; right. split; [lia|done].
Qed.

Lemma token_row_lookup {A} (x pad z : A) t :
  token_row x pad !! t = Some z -> (t = 0%nat /\ z = x) \/ ((1 <= t)%nat /\ z = pad).
Proof.
  unfold token_row. destruct t as [|t]; [naive_solver|]. intros H.
  rewrite lookup_app_r in H by (cbn; lia). apply lookup_replicate in H as [-> _]. right. split; [lia|done].
Qed.

Lemma two_0 {A} (x y pad : A) : two x y pad !! 0%nat = Some x.
Proof. reflexivity. Qed.

Lemma two_1 {A} (x y pad : A) : two x y pad !! 1%nat = Some y.
Proof. reflexivity. Qed.

Lemma token_row_pad {A} (x pad : A) t : (t < 9)%nat -> token_row x pad !! S t = Some pad.
Proof. intros Ht. unfold token_row. rewrite lookup_app_r by (cbn; lia). apply lookup_replicate_2. cbn. lia. Qed.

(** Past the two active slots, any two such lists with the same padding agree. *)
Lemma two_agree {A} (x y x' y' pad : A) i : (2 <= i)%nat -> two x y pad !! i = two x' y' pad !! i.
Proof. intros Hi. unfold two. by rewrite !lookup_app_r by (cbn; lia). Qed.

Lemma two_is_Some {A} (x y pad : A) i : (i < MAX_CHANNEL_MEMBERS)%nat -> exists z, two x y pad !! i = Some z.
Proof. intros Hi. apply lookup_lt_is_Some. by rewrite length_two. Qed.

(** ** Ciphertexts *)

Lemma replicate_ct_canonical (a : Z) :
  0 <= a < REGEV_Q -> ct_canonical (mkCt (replicate REGEV_N a) (replicate REGEV_N a)).
Proof.
  intros Ha. split; (split; [apply length_replicate | by apply Forall_replicate]).
Qed.

Lemma ct_a_canonical : ct_canonical ct_a.
Proof. apply replicate_ct_canonical. by unfold REGEV_Q. Qed.

Lemma ct_b_canonical : ct_canonical ct_b.
Proof. apply replicate_ct_canonical. by unfold REGEV_Q. Qed.

Lemma zero_plus_a : add_ciphertexts zero_ciphertext ct_a = Ok ct_a.
Proof.
  rewrite add_ciphertexts_comm; [|apply padding_ok|apply ct_canonical_ok, ct_a_canonical].
  apply add_ciphertexts_padding, ct_a_canonical.
Qed.

Lemma a_plus_a : add_ciphertexts ct_a ct_a = Ok ct_b.
Proof.
  pose proof (ct_canonical_ok _ ct_a_canonical) as H. apply add_ciphertexts_Ok. split_and!; [done..|].
  unfold ct_b, ct_a, add_poly. cbn [c1 c2]. by rewrite zip_with_replicate.
Qed.

Lemma ct_a_dense : Ct.reject_key_independent ct_a = Ok tt.
Proof.
  unfold Ct.reject_key_independent.
  rewrite (proj2 (ct_validate_Ok ct_a tt) (ct_canonical_ok _ ct_a_canonical)). cbn [mbind res_bind].
  unfold ct_a. cbn [c1]. pose proof REGEV_N_pos. by destruct REGEV_N; [lia|].
Qed.

(** ** The states are valid *)

Record view_ok (v : view) : Prop := {
  vo_version : 0 <= vw_version v < 100;
  vo_ct0 : ct_ok (vw_ct0 v);
  vo_ct1 : ct_ok (vw_ct1 v);
  vo_adds : 0 <= vw_adds1 v <= MAX_HOMO_ADDS_BEFORE_REFRESH;
  vo_registry : (vw_registry v = registry_one /\ vw_tokens v = 1) \/
                (vw_registry v = registry_two /\ vw_tokens v = 2);
}.

(** Typing does not look at the ciphertexts. *)
Lemma toy_shape v :
  0 <= vw_version v < 100 ->
  (vw_registry v = registry_one /\ vw_tokens v = 1) \/ (vw_registry v = registry_two /\ vw_tokens v = 2) ->
  typed (toy_balance v).
Proof.
  intros Hv Hr.
  assert (in_width 8 (vw_tokens v)) by (unfold in_width; destruct Hr as [[_ ->]|[_ ->]]; lia).
  constructor; cbn; try assumption; try (unfold in_width; lia).
  - apply Forall_lookup. intros i row [[_ ->]|[[_ ->]|[_ ->]]]%two_lookup; done.
  - apply Forall_lookup. intros i row [[_ ->]|[[_ ->]|[_ ->]]]%two_lookup; done.
  - apply length_two.
  - apply length_two.
  - by destruct Hr as [[-> _]|[-> _]].
Qed.

Lemma toy_typed v : view_ok v -> typed (toy_balance v).
Proof. intros [Hv _ _ _ Hr]. by apply toy_shape. Qed.

Lemma toy_valid v : view_ok v -> valid (toy_balance v).
Proof.
  intros [Hv H0 H1 Ha Hr].
  assert ((1 <= active_tokens (toy_balance v) <= 2)%nat) as Hat
    by (unfold active_tokens; cbn; destruct Hr as [[_ ->]|[_ ->]]; lia).
  constructor; cbn.
  - apply length_two.
  - apply length_two.
  - unfold MAX_CHANNEL_TOKENS. lia.
  - intros i j a Hij. unfold active_tokens in Hij. cbn in Hij.
    destruct Hr as [[-> Hc]|[-> Hc]]; rewrite Hc in Hij; [lia|].
    assert (i = 0%nat) as -> by lia. assert (j = 1%nat) as -> by lia. cbn. congruence.
  - intros t a. unfold active_tokens. cbn.
    destruct Hr as [[-> ->]|[-> ->]]; do 11 (destruct t as [|t]; cbn; [lia || congruence|]); done.
  - unfold MAX_SIG_CLUSTER. lia.
  - pose proof MAX_CHANNEL_MEMBERS_nat. unfold active_slots. cbn. lia.
  - intros i t row ct Hrow Hct. unfold active_slots. cbn -[active_tokens].
    apply two_lookup in Hrow as [[-> ->]|[[-> ->]|[Hi ->]]].
    + apply token_row_lookup in Hct as [[-> ->]|[Ht ->]]; [split; [done|lia]|]. split; [apply padding_ok|done].
    + apply token_row_lookup in Hct as [[-> ->]|[Ht ->]]; [split; [done|lia]|]. split; [apply padding_ok|done].
    + apply lookup_replicate in Hct as [-> _]. split; [apply padding_ok|done].
  - intros i d _ [[_ ->]|[[_ ->]|[_ ->]]]%two_lookup; done.
  - intros i r. unfold active_slots. cbn.
    intros [[-> ->]|[[-> ->]|[Hi ->]]]%two_lookup; (split; [|lia || done]); intros Hx; (lia || discriminate Hx).
  - intros i t row adds Hrow Hadds. unfold active_slots. cbn -[active_tokens].
    unfold MAX_HOMO_ADDS_BEFORE_REFRESH in *.
    apply two_lookup in Hrow as [[-> ->]|[[-> ->]|[Hi ->]]].
    + apply lookup_replicate in Hadds as [-> _]. lia.
    + apply token_row_lookup in Hadds as [[-> ->]|[Ht ->]]; lia.
    + apply lookup_replicate in Hadds as [-> _]. lia.
Qed.

(** ** The checks pass *)

Lemma toy_h1 {E} v : view_ok v -> BalanceState.h1 (E := E) (toy_balance v) = Ok bytes32_default.
Proof.
  intros Hv. pose proof (toy_valid v Hv) as Hvalid.
  destruct (h1_Ok (E := E) (toy_balance v)) as (b & Hb & Hw);
    [by apply valid_well_shaped; [apply toy_typed|] | by apply valid_ciphertexts_ok|].
  rewrite Hb. f_equal. apply limbs_try_into_Ok in Hw. by apply Limbs_eq.
Qed.

Lemma toy_digest {E} v : view_ok v -> ChannelState.signing_digest (E := E) (toy_state v) = Ok digest_one.
Proof. intros Hv. unfold ChannelState.signing_digest. cbn. by rewrite toy_h1. Qed.

Lemma toy_words_typed v : view_ok v -> state_words_typed (toy_state v).
Proof.
  intros Hv. constructor; cbn; try done; [by apply toy_typed|].
  pose proof (vo_version v Hv). unfold in_width. lia.
Qed.

Definition next_version (v v' : view) : Prop := vw_version v' = vw_version v + 1.

Lemma toy_linkage v v' :
  view_ok v -> view_ok v' -> next_version v v' -> verify_state_linkage (toy_state v) (toy_state v') = Ok tt.
Proof.
  intros Hv Hv' Hn. unfold verify_state_linkage. rewrite !toy_digest by done. cbn -[wrap].
  rewrite Hn, wrap_id by (pose proof (vo_version v Hv); unfold in_width; lia). by rewrite Z.eqb_refl.
Qed.

Lemma toy_shared v v' :
  view_ok v -> view_ok v' -> next_version v v' ->
  verify_balance_state_shared toy_record (toy_state v) (toy_state v') = Ok tt.
Proof.
  intros Hv Hv' Hn. unfold verify_balance_state_shared.
  apply seq_bind_Ok. split; [done|].
  apply seq_bind_Ok. split; [apply map_err_Ok, validate_Ok; [by apply toy_typed|by apply toy_valid]|].
  apply seq_bind_Ok. split; [apply map_err_Ok, validate_Ok; [by apply toy_typed|by apply toy_valid]|].
  apply seq_bind_Ok. split; [done|].
  apply seq_bind_Ok. split.
  { apply ensure_Ok. cbn -[wrap].
    rewrite Hn, wrap_id by (pose proof (vo_version v Hv); unfold in_width; lia). apply Z.eqb_refl. }
  apply seq_bind_Ok. split; apply ensure_Ok, bool_decide_eq_true_2; reflexivity.
Qed.

Lemma toy_common v v' :
  view_ok v -> view_ok v' -> next_version v v' ->
  vw_registry v' = vw_registry v -> vw_tokens v' = vw_tokens v ->
  verify_balance_state_common toy_record (toy_state v) (toy_state v') = Ok tt.
Proof.
  intros Hv Hv' Hn Hr Ht. unfold verify_balance_state_common. rewrite toy_shared by done. cbn.
  by rewrite Hr, Ht, bool_decide_eq_true_2, Z.eqb_refl.
Qed.

Lemma record_of_valid id : id <> BURN_CHANNEL_ID -> record_valid (record_of id).
Proof.
  intros Hid. pose proof MAX_CHANNEL_MEMBERS_nat. constructor; cbn; try done; try (unfold MAX_SIG_CLUSTER; lia).
  - unfold record_active. cbn. lia.
  - intros i pk. unfold record_active. cbn.
    intros [[-> ->]|[[-> ->]|[Hi ->]]]%two_lookup; (split; [|lia || done]); intros Hx; (lia || discriminate Hx).
  - intros i j pk Hij. unfold record_active in Hij. cbn in Hij.
    assert (i = 0%nat) as -> by lia. assert (j = 1%nat) as -> by lia.
    intros [= <-] [=].
Qed.

Lemma toy_signed v : verify_next_state_signatures toy_record (toy_state v) = Ok tt.
Proof.
  unfold verify_next_state_signatures. apply map_err_Ok, validate_all_member_signatures_Ok.
  split_and!; [by apply record_of_valid|done|].
  intros [|[|slot]] sig; cbn; intros [= <-]; split_and!; try done; apply length_replicate.
Qed.

Definition toy_pks : list RegevPk := [Pk.padding; Pk.padding].

Lemma toy_pk_root : verify_regev_pk_root toy_record toy_pks = Ok tt.
Proof.
  pose proof pk_padding_ok as Hpk. unfold verify_regev_pk_root.
  apply seq_bind_Ok. split.
  - apply res_forall_Ok. repeat (constructor; [by apply map_err_Ok, pk_validate_Ok|]). constructor.
  - apply bind_Ok. exists digest_one. split; [|done]. unfold regev_pk_root.
    apply bind_Ok. exists [digest_one; digest_one]. split; [|done]. apply res_mapM_Ok.
    repeat (constructor; [by apply pk_digest_Ok|]). constructor.
Qed.

Definition same_cts (i : nat) (v v' : view) : Prop :=
  (i = 0%nat -> vw_ct0 v' = vw_ct0 v) /\ (i = 1%nat -> vw_ct1 v' = vw_ct1 v).

Lemma toy_slot_unchanged v v' i :
  (i < MAX_CHANNEL_MEMBERS)%nat -> same_cts i v v' ->
  ensure_slot_unchanged (toy_state v) (toy_state v') i = Ok tt.
Proof.
  intros Hi [H0 H1]. unfold ensure_slot_unchanged. cbn.
  assert (two (token_row (vw_ct0 v) zero_ciphertext) (token_row (vw_ct1 v) zero_ciphertext) zero_token_row !! i =
          two (token_row (vw_ct0 v') zero_ciphertext) (token_row (vw_ct1 v') zero_ciphertext) zero_token_row !! i) as Heq.
  { destruct i as [|[|i]]; [by cbn; rewrite H0|by cbn; rewrite H1|apply two_agree; lia]. }
  rewrite Heq. edestruct @two_is_Some as [row Hrow]; [exact Hi|]. rewrite Hrow. cbn.
  by rewrite bool_decide_eq_true_2.
Qed.

Lemma toy_adds_unchanged v v' i :
  (i < MAX_CHANNEL_MEMBERS)%nat -> (i = 1%nat -> vw_adds1 v' = vw_adds1 v) ->
  require_pending_adds_unchanged (toy_state v) (toy_state v') i = Ok tt.
Proof.
  intros Hi H1. unfold require_pending_adds_unchanged. cbn.
  assert (two zero_adds_row (token_row (vw_adds1 v) 0) zero_adds_row !! i =
          two zero_adds_row (token_row (vw_adds1 v') 0) zero_adds_row !! i) as Heq.
  { destruct i as [|[|i]]; [done|by cbn; rewrite H1|apply two_agree; lia]. }
  rewrite Heq. edestruct @two_is_Some as [row Hrow]; [exact Hi|]. rewrite Hrow. cbn.
  by rewrite bool_decide_eq_true_2.
Qed.

(** The other token positions of the two active rows are zero in every state. *)
Lemma toy_row_except v v' i :
  (i < 2)%nat -> ensure_row_unchanged_except (toy_state v) (toy_state v') i 0 = Ok tt.
Proof.
  intros Hi. apply res_forall_seq. intros t Ht. destruct t as [|t]; [done|]. cbn [Nat.eqb].
  apply bind_Ok. exists zero_ciphertext. assert (t < 9)%nat by (unfold MAX_CHANNEL_TOKENS in Ht; lia).
  assert (forall u, ct_at (toy_state u) i (S t) = Ok zero_ciphertext) as Hat.
  { intros u. unfold ct_at. destruct i as [|[|i]]; [| |lia]; cbn;
      rewrite ?two_0, ?two_1; cbn; by rewrite token_row_pad. }
  split; [apply Hat|]. apply bind_Ok. exists zero_ciphertext. split; [apply Hat|].
  by rewrite bool_decide_eq_true_2.
Qed.

Lemma toy_adds_except v v' i :
  (i < 2)%nat -> require_pending_adds_unchanged_except (toy_state v) (toy_state v') i 0 = Ok tt.
Proof.
  intros Hi. apply res_forall_seq. intros t Ht. destruct t as [|t]; [done|]. cbn [Nat.eqb].
  apply bind_Ok. exists 0. assert (t < 9)%nat by (unfold MAX_CHANNEL_TOKENS in Ht; lia).
  assert (forall u, adds_at (toy_state u) i (S t) = Ok 0) as Hat.
  { intros u. unfold adds_at. destruct i as [|[|i]]; [| |lia]; cbn.
    - rewrite two_0. cbn. unfold zero_adds_row. by rewrite lookup_replicate_2 by (unfold MAX_CHANNEL_TOKENS; lia).
    - rewrite two_1. cbn. by rewrite token_row_pad. }
  split; [apply Hat|]. apply bind_Ok. exists 0. split; [apply Hat|done].
Qed.

Lemma toy_adds_increment v v' :
  view_ok v -> vw_adds1 v < MAX_HOMO_ADDS_BEFORE_REFRESH -> vw_adds1 v' = vw_adds1 v + 1 ->
  require_pending_add_increment (toy_state v) (toy_state v') 1 0 = Ok tt.
Proof.
  intros Hv Hlt Hn. unfold require_pending_add_increment.
  apply bind_Ok. exists (vw_adds1 v). split; [done|].
  apply bind_Ok. exists (vw_adds1 v'). split; [done|].
  apply seq_bind_Ok. split; [by apply ensure_Ok, Z.ltb_lt|].
  apply seq_bind_Ok. split; [|by apply toy_adds_except; lia].
  apply ensure_Ok, Z.eqb_eq. rewrite Hn. symmetry. apply wrap_id.
  pose proof (vo_adds v Hv). unfold MAX_HOMO_ADDS_BEFORE_REFRESH, in_width in *. lia.
Qed.

Lemma toy_funds_except v v' : ensure_funds_unchanged_except (toy_state v) (toy_state v') 0 = Ok tt.
Proof.
  apply res_forall_seq. intros t Ht. destruct t as [|t]; [done|]. cbn [Nat.eqb].
  assert (t < 9)%nat by (unfold MAX_CHANNEL_TOKENS in Ht; lia).
  assert (forall u, fund_at (toy_state u) (S t) = Ok u256_zero) as Hat.
  { intros u. unfold fund_at. cbn. by rewrite token_row_pad. }
  rewrite !Hat. by cbn.
Qed.

Lemma toy_cs_typed v : view_ok v -> cs_typed (toy_state v).
Proof.
  intros Hv. constructor; cbn.
  - by apply toy_typed.
  - done.
  - pose proof (vo_version v Hv). unfold in_width. lia.
  - intros i t n H. unfold adds_lookup in H. cbn in H. apply bind_Some in H as (row & Hrow & Hn).
    pose proof (vo_adds v Hv) as Ha. unfold MAX_HOMO_ADDS_BEFORE_REFRESH, in_width in *.
    apply two_lookup in Hrow as [[_ ->]|[[_ ->]|[_ ->]]].
    + apply lookup_replicate in Hn as [-> _]. lia.
    + apply token_row_lookup in Hn as [[_ ->]|[_ ->]]; lia.
    + apply lookup_replicate in Hn as [-> _]. lia.
Qed.

(** ** The run *)

Definition u256_20 : U256 := amount_of 20 eq_refl.
Definition u256_30 : U256 := amount_of 30 eq_refl.
Definition u256_70 : U256 := amount_of 70 eq_refl.
Definition u256_90 : U256 := amount_of 90 eq_refl.
Definition u256_100 : U256 := amount_of 100 eq_refl.
Definition u256_120 : U256 := amount_of 120 eq_refl.

(** Before the run; after the deposit; the transfer; the send; the import; its
    application; the refresh; the registration. *)
Definition v0 : view :=
  Build_view 0 zero_ciphertext zero_ciphertext 0 registry_one 1 u256_zero u256_zero bytes32_default bytes32_default.
Definition v1 : view :=
  Build_view 1 zero_ciphertext zero_ciphertext 0 registry_one 1 u256_100 u256_100 digest_one bytes32_default.
Definition v2 : view := Build_view 2 ct_a ct_a 1 registry_one 1 u256_100 u256_100 digest_one bytes32_default.
Definition v3 : view := Build_view 3 ct_a ct_a 1 registry_one 1 u256_70 u256_100 digest_two digest_two.
Definition v4 : view := Build_view 4 ct_a ct_a 1 registry_one 1 u256_90 u256_120 digest_three bytes32_default.
Definition v5 : view := Build_view 5 ct_a ct_b 2 registry_one 1 u256_90 u256_100 digest_three bytes32_default.
Definition v6 : view := Build_view 6 ct_a ct_a 0 registry_one 1 u256_90 u256_100 digest_three bytes32_default.
Definition v7 : view := Build_view 7 ct_a ct_a 0 registry_two 2 u256_90 u256_100 digest_three bytes32_default.

Lemma view_ok_intro v :
  0 <= vw_version v < 100 -> ct_canonical (vw_ct0 v) -> ct_canonical (vw_ct1 v) ->
  0 <= vw_adds1 v <= 64 ->
  (vw_registry v = registry_one /\ vw_tokens v = 1) \/ (vw_registry v = registry_two /\ vw_tokens v = 2) ->
  view_ok v.
Proof. intros. constructor; try done; by apply ct_canonical_ok. Qed.

Lemma zero_canonical : ct_canonical zero_ciphertext.
Proof. apply replicate_ct_canonical. by unfold REGEV_Q. Qed.

Ltac prove_view_ok :=
  apply view_ok_intro; cbn -[ct_a ct_b zero_ciphertext registry_one registry_two];
  [lia | first [apply zero_canonical | apply ct_a_canonical | apply ct_b_canonical]
  | first [apply zero_canonical | apply ct_a_canonical | apply ct_b_canonical] | lia | by auto].

Lemma v0_ok : view_ok v0. Proof. prove_view_ok. Qed.
Lemma v1_ok : view_ok v1. Proof. prove_view_ok. Qed.
Lemma v2_ok : view_ok v2. Proof. prove_view_ok. Qed.
Lemma v3_ok : view_ok v3. Proof. prove_view_ok. Qed.
Lemma v4_ok : view_ok v4. Proof. prove_view_ok. Qed.
Lemma v5_ok : view_ok v5. Proof. prove_view_ok. Qed.
Lemma v6_ok : view_ok v6. Proof. prove_view_ok. Qed.
Lemma v7_ok : view_ok v7. Proof. prove_view_ok. Qed.

(** Runs one check: closes it with a lemma about the scenario, or by evaluation. *)
Ltac pass tac := apply seq_bind_Ok; split; [tac|].
Ltac get x tac := apply bind_Ok; exists x; split; [tac|].
Ltac pass_eq := pass ltac:(apply ensure_Ok, bool_decide_eq_true_2; reflexivity).

Lemma u64_to_u256_intro n (x : U256) :
  limbs x = [0; 0; 0; 0; 0; 0; wrap 32 (Z.shiftr n 32); wrap 32 n] -> u64_to_u256 n = Ok x.
Proof. intros H. unfold u64_to_u256. rewrite <- H. apply limbs_try_into_limbs. Qed.

Lemma u256_add_intro {E} (x y z : U256) : val x + val y = val z -> U256.add (E := E) x y = Ok z.
Proof.
  intros H. destruct (U256_theorems.add_total (E := E) x y) as [z' Hz].
  - rewrite H. apply (val_bound z).
  - rewrite Hz. f_equal. apply val_inj. apply U256_theorems.add_Ok in Hz. congruence.
Qed.

Definition deposit_witness : L1DepositImportUpdateWitness.L1DepositImportUpdateWitness :=
  {| L1DepositImportUpdateWitness.channel_record := toy_record;
     L1DepositImportUpdateWitness.prev_state := toy_state v0;
     L1DepositImportUpdateWitness.next_state := toy_state v1;
     L1DepositImportUpdateWitness.amount := 100;
     L1DepositImportUpdateWitness.deposit_nullifier := digest_two;
     L1DepositImportUpdateWitness.token_index := 0;
     L1DepositImportUpdateWitness.depositor_slot := 0 |}.

(** Every slot and counter of the two states agree. *)
Lemma toy_slots_loop v v' (skip : nat -> bool) :
  (forall i, skip i = false -> same_cts i v v' /\ (i = 1%nat -> vw_adds1 v' = vw_adds1 v)) ->
  res_forall (fun i => if skip i then Ok tt
                       else _ ← ensure_slot_unchanged (toy_state v) (toy_state v') i;
                            require_pending_adds_unchanged (toy_state v) (toy_state v') i)
    (seq 0 MAX_CHANNEL_MEMBERS) = Ok tt.
Proof.
  intros H. apply res_forall_seq. intros i Hi. destruct (skip i) eqn:Hs; [done|].
  destruct (H i Hs). rewrite toy_slot_unchanged by (done || lia). cbn. apply toy_adds_unchanged; [lia|done].
Qed.

Lemma deposit_accepted : exists pi, L1DepositImportUpdateWitness.verify deposit_witness = Ok pi.
Proof.
  eexists. unfold L1DepositImportUpdateWitness.verify. cbv zeta.
  cbn [L1DepositImportUpdateWitness.prev_state L1DepositImportUpdateWitness.next_state
       L1DepositImportUpdateWitness.channel_record L1DepositImportUpdateWitness.amount
       L1DepositImportUpdateWitness.deposit_nullifier L1DepositImportUpdateWitness.token_index
       L1DepositImportUpdateWitness.depositor_slot deposit_witness].
  pass ltac:(by apply toy_linkage; [apply v0_ok | apply v1_ok |]).
  pass ltac:(by apply toy_common; [apply v0_ok | apply v1_ok | ..]).
  pass ltac:(apply toy_signed).
  pass_eq. pass_eq.
  get 0%nat ltac:(reflexivity).
  get u256_100 ltac:(reflexivity).
  get u256_zero ltac:(reflexivity).
  get u256_100 ltac:(by apply u64_to_u256_intro).
  get u256_100 ltac:(by apply u256_add_intro).
  pass_eq.
  pass ltac:(apply toy_funds_except).
  get u256_100 ltac:(by apply u256_add_intro).
  pass_eq.
  pass ltac:(by apply (toy_slots_loop v0 v1 (fun _ => false))).
  pass ltac:(reflexivity).
  get digest_one ltac:(reflexivity).
  reflexivity.
Qed.

Definition toy_envelope (r : TransitionProofRole) (b : ProofBackend) : ChannelProofEnvelope :=
  ChannelProofEnvelope.mk r b [].

Definition transfer_witness : InChannelTransferUpdateWitness.InChannelTransferUpdateWitness :=
  {| InChannelTransferUpdateWitness.channel_record := toy_record;
     InChannelTransferUpdateWitness.regev_pks := toy_pks;
     InChannelTransferUpdateWitness.prev_state := toy_state v1;
     InChannelTransferUpdateWitness.next_state := toy_state v2;
     InChannelTransferUpdateWitness.channel_tx :=
       {| ChannelTx.recipient_pk_g := digest_two; ChannelTx.token_slot := 0; ChannelTx.enc_amount := ct_a;
          ChannelTx.nonce := bytes32_default; ChannelTx.channel_tx_zkp := toy_envelope ChannelStateUpdate Plonky3;
          ChannelTx.sender_pk_g := digest_one; ChannelTx.sender_hash_sig := [1];
          ChannelTx.sender_pk_b := bytes32_default |};
     InChannelTransferUpdateWitness.sender_index := 0;
     InChannelTransferUpdateWitness.recipient_index := 1;
     InChannelTransferUpdateWitness.recipient_sk := None;
     InChannelTransferUpdateWitness.expected_amount := None |}.

Lemma ct_a_digest {E} : Ct.digest (E := E) ct_a = Ok digest_one.
Proof. apply ct_digest_Ok. split; [apply ct_canonical_ok, ct_a_canonical|done]. Qed.

Lemma toy_ct_loop v v' :
  res_forall (fun i => if (i =? 0)%nat || (i =? 1)%nat then Ok tt
                       else ensure_slot_unchanged (toy_state v) (toy_state v') i)
    (seq 0 MAX_CHANNEL_MEMBERS) = Ok tt.
Proof.
  apply res_forall_seq. intros i Hi. destruct i as [|[|i]]; [done..|].
  apply toy_slot_unchanged; [lia|split; lia].
Qed.

Lemma toy_adds_loop v v' :
  res_forall (fun i => if (i =? 0)%nat || (i =? 1)%nat then Ok tt
                       else require_pending_adds_unchanged (toy_state v) (toy_state v') i)
    (seq 0 MAX_CHANNEL_MEMBERS) = Ok tt.
Proof.
  apply res_forall_seq. intros i Hi. destruct i as [|[|i]]; [done..|].
  apply toy_adds_unchanged; lia.
Qed.

Lemma transfer_accepted : exists pi, InChannelTransferUpdateWitness.verify transfer_witness = Ok pi.
Proof.
  eexists. unfold InChannelTransferUpdateWitness.verify. cbv zeta.
  pass ltac:(apply toy_pk_root).
  pass ltac:(by apply (toy_linkage v1 v2); [apply v1_ok | apply v2_ok |]).
  pass ltac:(by apply (toy_common v1 v2); [apply v1_ok | apply v2_ok | ..]).
  pass ltac:(reflexivity).
  pass_eq. pass_eq. pass_eq. pass_eq. pass_eq. pass_eq.
  pass ltac:(apply (toy_signed v2)).
  get digest_one ltac:(reflexivity). get digest_two ltac:(reflexivity).
  pass ltac:(reflexivity). pass_eq. pass_eq. pass ltac:(reflexivity).
  get digest_one ltac:(get digest_one ltac:(apply ct_a_digest); reflexivity).
  pass ltac:(reflexivity).
  get zero_ciphertext ltac:(reflexivity).
  get ct_a ltac:(apply map_err_Ok, zero_plus_a).
  get ct_a ltac:(reflexivity).
  pass_eq.
  pass ltac:(apply (toy_row_except v1 v2 1); lia).
  pass ltac:(apply (toy_row_except v1 v2 0); lia).
  pass ltac:(apply (toy_ct_loop v1 v2)).
  pass ltac:(apply (toy_adds_increment v1 v2); [apply v1_ok | done | done]).
  get 0 ltac:(reflexivity).
  pass ltac:(reflexivity).
  pass ltac:(apply (toy_adds_except v1 v2 0); lia).
  pass ltac:(apply (toy_adds_loop v1 v2)).
  get Pk.padding ltac:(reflexivity). get Pk.padding ltac:(reflexivity).
  get zero_ciphertext ltac:(reflexivity). get ct_a ltac:(reflexivity).
  pass ltac:(reflexivity). pass ltac:(reflexivity).
  reflexivity.
Qed.

Definition toy_delta : ReceiverBalanceDelta := ReceiverBalanceDelta.mk digest_two bytes32_default ct_a.

Definition toy_salt : PoseidonHashOut.PoseidonHashOut := PoseidonHashOut.mk [0; 0; 0; 0] eq_refl.

(** A transaction of token 0 from one channel to another. *)
Definition toy_tx (source destination : Z) : InterChannelTx :=
  {| InterChannelTx.tx_inclusion_proof := MerkleInclusionProof.default;
     InterChannelTx.signed_small_block :=
       {| SignedSmallBlock.message :=
            {| SmallBlockRootMessage.channel_id := source;
               SmallBlockRootMessage.bp_member_slot := 0;
               SmallBlockRootMessage.bp_pk_g := digest_one;
               SmallBlockRootMessage.small_block_number := 0;
               SmallBlockRootMessage.prev_small_block_root := bytes32_default;
               SmallBlockRootMessage.tx_tree_root := digest_two;
               SmallBlockRootMessage.state_commitment_root := bytes32_default;
               SmallBlockRootMessage.medium_epoch_hint := 0;
               SmallBlockRootMessage.close_freeze_nonce := 0 |};
          SignedSmallBlock.signatures := toy_signatures;
          SignedSmallBlock.aggregated_signature_proof := [];
          SignedSmallBlock.medium_block_number := 0;
          SignedSmallBlock.confirmation_proof := [] |};
     InterChannelTx.sender_delta_ct := ct_a;
     InterChannelTx.source_channel_id := source;
     InterChannelTx.destination_channel_id := destination;
     InterChannelTx.token_index := 0;
     InterChannelTx.base_nonce := 0;
     InterChannelTx.destination_base_transfer_salt := toy_salt;
     InterChannelTx.source_pk_g := digest_one;
     InterChannelTx.seal := bytes32_default;
     InterChannelTx.tx_hash := digest_one;
     InterChannelTx.intmax_transfer_commitment := digest_one;
     InterChannelTx.recipient_memo := [];
     InterChannelTx.receiver_deltas := [toy_delta];
     InterChannelTx.channel_update_zkp := toy_envelope ChannelStateUpdate Plonky3;
     InterChannelTx.transport_proof := [];
     InterChannelTx.sender_hash_sig := [1];
     InterChannelTx.sender_pk_b := bytes32_default |}.

Definition send_witness : InterChannelSendUpdateWitness.InterChannelSendUpdateWitness :=
  {| InterChannelSendUpdateWitness.channel_record := toy_record;
     InterChannelSendUpdateWitness.regev_pks := toy_pks;
     InterChannelSendUpdateWitness.destination_recipient_pk := Pk.padding;
     InterChannelSendUpdateWitness.prev_state := toy_state v2;
     InterChannelSendUpdateWitness.next_state := toy_state v3;
     InterChannelSendUpdateWitness.inter_channel_tx := toy_tx 7 8;
     InterChannelSendUpdateWitness.amount := 30;
     InterChannelSendUpdateWitness.transport_proof := toy_envelope IntmaxTransport Plonky2 |}.

Definition import_witness : InterChannelFundImportUpdateWitness.InterChannelFundImportUpdateWitness :=
  {| InterChannelFundImportUpdateWitness.source_channel_record := record_of 8;
     InterChannelFundImportUpdateWitness.receiver_channel_record := toy_record;
     InterChannelFundImportUpdateWitness.prev_state := toy_state v3;
     InterChannelFundImportUpdateWitness.next_state := toy_state v4;
     InterChannelFundImportUpdateWitness.inter_channel_tx := toy_tx 8 7;
     InterChannelFundImportUpdateWitness.amount := 20;
     InterChannelFundImportUpdateWitness.transport_proof := toy_envelope IntmaxTransport Plonky2 |}.

Definition apply_witness : ReceiverBundleApplyUpdateWitness.ReceiverBundleApplyUpdateWitness ToyPoseidon :=
  {| ReceiverBundleApplyUpdateWitness.incoming_tx_index := 0;
     ReceiverBundleApplyUpdateWitness.incoming_tx_inclusion :=
       mkMerkleProof (Hs := PoseidonLeafableHasher) (replicate SETTLED_TX_ACCUMULATOR_HEIGHT tt);
     ReceiverBundleApplyUpdateWitness.receiver_channel_record := toy_record;
     ReceiverBundleApplyUpdateWitness.regev_pks := toy_pks;
     ReceiverBundleApplyUpdateWitness.source_sender_pk := Pk.padding;
     ReceiverBundleApplyUpdateWitness.sender_before_ct := ct_a;
     ReceiverBundleApplyUpdateWitness.sender_after_ct := ct_a;
     ReceiverBundleApplyUpdateWitness.prev_state := toy_state v4;
     ReceiverBundleApplyUpdateWitness.next_state := toy_state v5;
     ReceiverBundleApplyUpdateWitness.inter_channel_tx := toy_tx 8 7;
     ReceiverBundleApplyUpdateWitness.amount := 20;
     ReceiverBundleApplyUpdateWitness.recipient_index := 1;
     ReceiverBundleApplyUpdateWitness.recipient_sk := None;
     ReceiverBundleApplyUpdateWitness.expected_amount := None |}.

Definition refresh_witness : BalanceRefreshUpdateWitness.BalanceRefreshUpdateWitness :=
  {| BalanceRefreshUpdateWitness.channel_record := toy_record;
     BalanceRefreshUpdateWitness.regev_pks := toy_pks;
     BalanceRefreshUpdateWitness.prev_state := toy_state v5;
     BalanceRefreshUpdateWitness.next_state := toy_state v6;
     BalanceRefreshUpdateWitness.member_index := 1;
     BalanceRefreshUpdateWitness.token_slot := 0;
     BalanceRefreshUpdateWitness.refresh_proof := toy_envelope ChannelStateUpdate Plonky3 |}.

Definition register_witness : TokenRegisterUpdateWitness.TokenRegisterUpdateWitness :=
  {| TokenRegisterUpdateWitness.channel_record := toy_record;
     TokenRegisterUpdateWitness.prev_state := toy_state v6;
     TokenRegisterUpdateWitness.next_state := toy_state v7;
     TokenRegisterUpdateWitness.token_index := 9 |}.

(** ** The remaining checks *)

Lemma toy_tx_leaf s d : InterChannelTx.tx_leaf_hash (toy_tx s d) = Ok digest_one.
Proof.
  get toy_delta ltac:(reflexivity). get digest_one ltac:(apply ct_a_digest).
  get digest_one ltac:(apply ct_a_digest). reflexivity.
Qed.

Lemma toy_ids {E} s d : in_width 32 s -> in_width 32 d -> exists b, ids_word (E := E) s d 0 = Ok b.
Proof.
  intros Hs Hd. unfold ids_word. rewrite !wrap_id by done.
  destruct (limbs_try_into_ok (E := E) BYTES32_LEN [0; 0; 0; 0; 0; 0; d; s]) as (b & Hb & _); [done| |by exists b].
  repeat (constructor; [done|]). constructor.
Qed.

Lemma toy_tx_hash_value s d :
  in_width 32 s -> in_width 32 d -> InterChannelTx.compute_tx_hash (toy_tx s d) = Ok digest_one.
Proof.
  intros Hs Hd. get digest_one ltac:(apply toy_tx_leaf).
  destruct (toy_ids (E := ChannelError) s d Hs Hd) as [b Hb].
  get b ltac:(exact Hb). reflexivity.
Qed.

Lemma toy_tx_hash s d :
  in_width 32 s -> in_width 32 d -> require_token_bearing_tx_hash (toy_tx s d) = Ok tt.
Proof.
  intros Hs Hd. get digest_one ltac:(by apply map_err_Ok, toy_tx_hash_value). reflexivity.
Qed.

Lemma toy_tx_digest {E} s d : InterChannelTx.signing_digest (E := E) (toy_tx s d) = Ok digest_one.
Proof.
  get digest_one ltac:(apply ct_a_digest).
  get [to_u32_vec digest_two ++ to_u32_vec bytes32_default ++ to_u32_vec digest_one] ltac:(idtac); [|reflexivity].
  apply res_mapM_Ok. constructor; [|constructor]. get digest_one ltac:(apply ct_a_digest). reflexivity.
Qed.

Lemma toy_small_block id s d nonce :
  id <> BURN_CHANNEL_ID -> nonce = 0 -> validate_signed_small_block (record_of id) s nonce (toy_tx s d) = Ok tt.
Proof.
  intros Hid ->. unfold validate_signed_small_block. cbv zeta.
  pass ltac:(apply ensure_Ok, Z.eqb_refl). pass ltac:(apply ensure_Ok, Z.eqb_refl).
  do 7 (pass ltac:(reflexivity)).
  apply map_err_Ok. unfold validate_member_signature_slots.
  pass ltac:(by apply validate_record_Ok, record_of_valid).
  pose proof FALCON_COSIGN_BLOB_BYTES_pos.
  cbn -[res_forall]. apply (res_forall_imap (check_signature_slot (record_of id)) toy_signatures).
  intros [|[|slot]] sig; cbn -[check_signature_slot]; intros [= <-];
    apply check_signature_slot_Ok; split_and!; try done; by destruct FALCON_COSIGN_BLOB_BYTES.
Qed.

Lemma toy_poseidon_digest {E} : Pk.poseidon_digest (E := E) Pk.padding = Ok phash_default.
Proof. apply (pk_poseidon_digest_Ok Pk.padding phash_default). split; [apply pk_padding_ok|done]. Qed.

Lemma toy_phash {E} : phash_into_bytes32 (E := E) phash_default = Ok bytes32_default.
Proof. unfold phash_into_bytes32, words_into_bytes32. apply (limbs_try_into_limbs BYTES32_LEN bytes32_default). Qed.

Lemma send_accepted : exists pi, InterChannelSendUpdateWitness.verify send_witness = Ok pi.
Proof.
  eexists. unfold InterChannelSendUpdateWitness.verify. cbv zeta.
  pass ltac:(apply toy_pk_root).
  pass ltac:(by apply (toy_linkage v2 v3); [apply v2_ok | apply v3_ok |]).
  pass ltac:(by apply (toy_common v2 v3); [apply v2_ok | apply v3_ok | ..]).
  pass ltac:(apply (toy_signed v3)).
  pass ltac:(by apply (toy_small_block 7 7 8)).
  pass ltac:(reflexivity). pass ltac:(reflexivity). pass_eq.
  get bytes32_default ltac:(apply (toy_h1 v3), v3_ok).
  pass_eq. pass ltac:(reflexivity).
  get toy_delta ltac:(reflexivity).
  get (phash_default : PHash) ltac:(apply toy_poseidon_digest).
  get bytes32_default ltac:(apply toy_phash).
  pass_eq.
  pass ltac:(apply map_err_Ok, ct_a_dense).
  get digest_one ltac:(apply map_err_Ok, toy_tx_leaf).
  get u256_30 ltac:(by apply u64_to_u256_intro).
  pass_eq.
  get 0%nat ltac:(reflexivity).
  pass ltac:(by apply (toy_tx_hash 7 8)).
  get u256_70 ltac:(reflexivity).
  get u256_100 ltac:(by apply u256_add_intro).
  get u256_100 ltac:(reflexivity).
  pass_eq.
  pass ltac:(apply (toy_funds_except v2 v3)).
  pass ltac:(reflexivity).
  pass_eq. pass ltac:(reflexivity).
  get 0%nat ltac:(reflexivity).
  pass ltac:(by apply (toy_slots_loop v2 v3 (fun i => (i =? 0)%nat))).
  pass ltac:(apply (toy_row_except v2 v3 0); lia).
  get 0 ltac:(reflexivity). pass ltac:(reflexivity).
  pass ltac:(apply (toy_adds_except v2 v3 0); lia).
  get Pk.padding ltac:(reflexivity). get ct_a ltac:(reflexivity). get ct_a ltac:(reflexivity).
  pass ltac:(reflexivity). pass_eq.
  get digest_one ltac:(apply toy_tx_digest).
  pass ltac:(reflexivity). reflexivity.
Qed.

Lemma import_accepted : exists pi, InterChannelFundImportUpdateWitness.verify import_witness = Ok pi.
Proof.
  eexists. unfold InterChannelFundImportUpdateWitness.verify. cbv zeta.
  pass ltac:(by apply (toy_linkage v3 v4); [apply v3_ok | apply v4_ok |]).
  pass ltac:(by apply (toy_common v3 v4); [apply v3_ok | apply v4_ok | ..]).
  pass ltac:(apply (toy_signed v4)).
  pass ltac:(by apply (toy_small_block 8 8 7)).
  pass ltac:(reflexivity). pass_eq.
  get digest_one ltac:(apply map_err_Ok, toy_tx_leaf).
  pass_eq.
  get 0%nat ltac:(reflexivity).
  pass ltac:(by apply (toy_tx_hash 8 7)).
  get u256_90 ltac:(reflexivity).
  get u256_70 ltac:(reflexivity).
  get u256_20 ltac:(by apply u64_to_u256_intro).
  get u256_90 ltac:(by apply u256_add_intro).
  pass_eq.
  pass ltac:(apply (toy_funds_except v3 v4)).
  pass ltac:(reflexivity).
  get u256_120 ltac:(by apply u256_add_intro).
  pass_eq.
  pass ltac:(by apply (toy_slots_loop v3 v4 (fun _ => false))).
  pass ltac:(reflexivity). pass_eq.
  get toy_delta ltac:(reflexivity).
  get 1%nat ltac:(reflexivity).
  get bytes32_default ltac:(reflexivity).
  pass_eq.
  pass ltac:(apply map_err_Ok, ct_a_dense).
  get digest_one ltac:(apply toy_tx_digest).
  pass ltac:(reflexivity). reflexivity.
Qed.

Lemma toy_application : require_incoming_application bytes32_default bytes32_default digest_one 0
    (mkMerkleProof (Hs := PoseidonLeafableHasher) (replicate SETTLED_TX_ACCUMULATOR_HEIGHT tt)) = Ok tt.
Proof.
  unfold require_incoming_application. rewrite !proof_get_root_eq.
  cbn [siblings]. rewrite length_replicate, Nat.eqb_refl. cbn [negb orb].
  replace (2 ^ Z.of_nat SETTLED_TX_ACCUMULATOR_HEIGHT <=? 0) with false by (symmetry; apply Z.leb_gt; lia).
  cbn [orb]. get (phash_default : PHash) ltac:(by destruct (path_root _ _ _)).
  get bytes32_default ltac:(apply toy_phash). pass_eq.
  get (phash_default : PHash) ltac:(by destruct (path_root _ _ _)).
  get bytes32_default ltac:(apply toy_phash). reflexivity.
Qed.

Lemma apply_accepted : exists pi, ReceiverBundleApplyUpdateWitness.verify apply_witness = Ok pi.
Proof.
  eexists. unfold ReceiverBundleApplyUpdateWitness.verify. cbv zeta.
  pass ltac:(apply toy_pk_root).
  pass ltac:(by apply (toy_linkage v4 v5); [apply v4_ok | apply v5_ok |]).
  pass ltac:(by apply (toy_common v4 v5); [apply v4_ok | apply v5_ok | ..]).
  pass ltac:(apply (toy_signed v5)).
  pass ltac:(reflexivity). pass_eq. pass_eq.
  get u256_20 ltac:(by apply u64_to_u256_intro).
  get u256_120 ltac:(by apply u256_add_intro).
  pass_eq. pass_eq. pass ltac:(reflexivity).
  get toy_delta ltac:(reflexivity).
  get digest_two ltac:(reflexivity).
  pass_eq.
  get Pk.padding ltac:(reflexivity).
  get (phash_default : PHash) ltac:(apply toy_poseidon_digest).
  get bytes32_default ltac:(apply toy_phash).
  pass_eq.
  pass ltac:(apply map_err_Ok, ct_a_dense).
  pass_eq.
  pass ltac:(apply toy_application).
  get 0%nat ltac:(reflexivity).
  pass ltac:(by apply (toy_tx_hash 8 7)).
  get ct_a ltac:(reflexivity).
  get ct_b ltac:(apply map_err_Ok, a_plus_a).
  get ct_b ltac:(reflexivity).
  pass_eq.
  pass ltac:(apply (toy_row_except v4 v5 1); lia).
  pass ltac:(by apply (toy_slots_loop v4 v5 (fun i => (i =? 1)%nat)); intros [|[|i]]).
  pass ltac:(apply (toy_adds_increment v4 v5); [apply v4_ok | done | done]).
  pass ltac:(reflexivity). pass ltac:(reflexivity).
  get digest_one ltac:(apply toy_tx_digest).
  reflexivity.
Qed.

Lemma ct_b_digest {E} : Ct.digest (E := E) ct_b = Ok digest_one.
Proof. apply ct_digest_Ok. split; [apply ct_canonical_ok, ct_b_canonical|done]. Qed.

Lemma refresh_accepted : exists pi, BalanceRefreshUpdateWitness.verify refresh_witness = Ok pi.
Proof.
  eexists. unfold BalanceRefreshUpdateWitness.verify. cbv zeta.
  pass ltac:(apply toy_pk_root).
  pass ltac:(by apply (toy_linkage v5 v6); [apply v5_ok | apply v6_ok |]).
  pass ltac:(by apply (toy_common v5 v6); [apply v5_ok | apply v6_ok | ..]).
  pass ltac:(reflexivity).
  pass ltac:(apply (toy_signed v6)).
  pass_eq. pass_eq. pass_eq. pass_eq. pass_eq. pass_eq.
  get digest_two ltac:(reflexivity).
  pass ltac:(by apply (toy_slots_loop v5 v6 (fun i => (i =? 1)%nat)); intros [|[|i]]).
  pass ltac:(reflexivity).
  get 0 ltac:(reflexivity). pass ltac:(reflexivity).
  pass ltac:(apply (toy_adds_except v5 v6 1); lia).
  pass ltac:(apply (toy_row_except v5 v6 1); lia).
  get ct_b ltac:(reflexivity). get ct_a ltac:(reflexivity). get Pk.padding ltac:(reflexivity).
  pass ltac:(reflexivity).
  get digest_one ltac:(apply ct_b_digest). get digest_one ltac:(apply ct_a_digest).
  reflexivity.
Qed.

Lemma toy_register : BalanceState.apply_token_register (toy_balance v6) 9 = Ok (toy_balance v7).
Proof. reflexivity. Qed.

Lemma toy_register_next :
  token_register_next_state (toy_state v6) 9 = Ok (ChannelState.with_signatures (toy_state v7) []).
Proof.
  get (toy_balance v7) ltac:(apply toy_register).
  get digest_one ltac:(idtac); [|reflexivity].
  get bytes32_default ltac:(apply (toy_h1 v7), v7_ok). reflexivity.
Qed.

Lemma register_accepted : exists pi, TokenRegisterUpdateWitness.verify register_witness = Ok pi.
Proof.
  eexists. unfold TokenRegisterUpdateWitness.verify. cbv zeta.
  pass ltac:(by apply (toy_linkage v6 v7); [apply v6_ok | apply v7_ok |]).
  pass ltac:(by apply (toy_shared v6 v7); [apply v6_ok | apply v7_ok |]).
  pass ltac:(apply map_err_Ok, verify_token_register_transition_Ok, toy_register).
  pass_eq. pass_eq. pass_eq. pass_eq. pass_eq. pass_eq.
  pass ltac:(reflexivity). pass ltac:(reflexivity).
  get (ChannelState.with_signatures (toy_state v7) []) ltac:(apply map_err_Ok, toy_register_next).
  pass_eq.
  pass ltac:(apply (toy_signed v7)).
  reflexivity.
Qed.

(** The seven updates in a row. *)
Definition toy_events : list event :=
  [Deposited 0 100; Transferred 0 1 0; Sent 0 30; Imported 0 20; Applied 0 20; Refreshed 1 0; Registered 9].

Lemma toy_deposit : step toy_record (toy_state v0) (Deposited 0 100) (toy_state v1).
Proof.
  destruct deposit_accepted as [pi H].
  refine (step_deposit toy_record deposit_witness pi eq_refl (toy_cs_typed v0 v0_ok) (toy_cs_typed v1 v1_ok)
           _ H). by split.
Qed.

Lemma toy_transfer : step toy_record (toy_state v1) (Transferred 0 1 0) (toy_state v2).
Proof.
  destruct transfer_accepted as [pi H].
  exact (step_transfer toy_record transfer_witness pi eq_refl (toy_cs_typed v1 v1_ok) (toy_cs_typed v2 v2_ok)
           H).
Qed.

Lemma toy_send : step toy_record (toy_state v2) (Sent 0 30) (toy_state v3).
Proof.
  destruct send_accepted as [pi H].
  refine (step_send toy_record send_witness pi eq_refl (toy_cs_typed v2 v2_ok) (toy_cs_typed v3 v3_ok)
           _ H). by split.
Qed.

Lemma toy_import : step toy_record (toy_state v3) (Imported 0 20) (toy_state v4).
Proof.
  destruct import_accepted as [pi H].
  refine (step_import toy_record import_witness pi eq_refl (toy_cs_typed v3 v3_ok) (toy_cs_typed v4 v4_ok)
           _ H). by split.
Qed.

Lemma toy_apply : step toy_record (toy_state v4) (Applied 0 20) (toy_state v5).
Proof.
  destruct apply_accepted as [pi H].
  refine (step_apply toy_record apply_witness pi eq_refl (toy_cs_typed v4 v4_ok) (toy_cs_typed v5 v5_ok)
           _ H). by split.
Qed.

Lemma toy_refresh : step toy_record (toy_state v5) (Refreshed 1 0) (toy_state v6).
Proof.
  destruct refresh_accepted as [pi H].
  exact (step_refresh toy_record refresh_witness pi eq_refl (toy_cs_typed v5 v5_ok) (toy_cs_typed v6 v6_ok)
           H).
Qed.

Lemma toy_registration : step toy_record (toy_state v6) (Registered 9) (toy_state v7).
Proof.
  destruct register_accepted as [pi H].
  exact (step_register toy_record register_witness pi eq_refl (toy_cs_typed v6 v6_ok) (toy_cs_typed v7 v7_ok)
           H).
Qed.

Lemma toy_run : run toy_record (toy_state v0) toy_events (toy_state v7).
Proof.
  refine (run_cons _ _ _ _ _ _ toy_deposit _). refine (run_cons _ _ _ _ _ _ toy_transfer _).
  refine (run_cons _ _ _ _ _ _ toy_send _). refine (run_cons _ _ _ _ _ _ toy_import _).
  refine (run_cons _ _ _ _ _ _ toy_apply _). refine (run_cons _ _ _ _ _ _ toy_refresh _).
  refine (run_cons _ _ _ _ _ _ toy_registration _). apply run_nil.
Qed.
