(* ===== verification/CreditSafety.v ===== *)
(** * Range evidence for channel balance credits

    Models [src/src/channel_credit_safety.rs]: the private upper bounds that a
    signer keeps for the hidden balances of a channel, how they start from an
    authenticated state, how they advance over an authenticated transition
    before the successor is signed, and the check before a public credit.

    A Rust array or [Vec] is a list, an out-of-range index is [Panic]; the map
    of owned plaintexts is the list of its entries in key order. *)

From S2P Require Import Prelude Limbs U63 Keccak Poseidon Regev BalanceState Channel.

Definition CREDIT_BOUNDS_SCHEMA_VERSION : Z := 1.

Definition OwnedPlaintexts : Type := list (nat * nat * Z).

Definition owned_get (owned : OwnedPlaintexts) (slot token_slot : nat) : option Z :=
  match list_find (fun e => e.1 = (slot, token_slot)) owned with Some (_, e) => Some e.2 | None => None end.

Inductive LayoutError := ChannelIdentifiers | ActiveCounts | CiphertextRows | BoundsRows | PaddingBound.

Inductive CreditSafetyError :=
| UnsupportedSchema (version : Z)
| StateMismatch
| InvalidLayout (what : LayoutError)
| SuccessorMismatch
| RegistryChanged
| InactiveCell (slot token_slot : nat)
| UnclaimableCiphertext (slot token_slot : nat)
| InconsistentPlaintext (slot token_slot : nat)
| RangeEvidenceRequired (slot token_slot : nat).

Definition is_recoverable_range_error (e : CreditSafetyError) : bool :=
  match e with RangeEvidenceRequired _ _ => true | _ => false end.

(** ** Helpers *)

Definition checked_layout (state : ChannelState) : res CreditSafetyError (nat * nat) :=
  let balance := ChannelState.balance_state state in
  let active := (Z.to_nat (BalanceState.member_count balance) + Z.to_nat (BalanceState.delegate_count balance))%nat in
  let tokens := Z.to_nat (BalanceState.token_count balance) in
  if negb (BalanceState.channel_id balance =? ChannelState.channel_id state)
     || negb (ChannelFund.channel_id (ChannelState.channel_fund state) =? ChannelState.channel_id state)
  then Err (InvalidLayout ChannelIdentifiers)
  else if (MAX_CHANNEL_MEMBERS <? active)%nat || (active =? 0)%nat || (tokens =? 0)%nat || (MAX_CHANNEL_TOKENS <? tokens)%nat
  then Err (InvalidLayout ActiveCounts)
  else if negb (length (BalanceState.enc_balances balance) =? MAX_CHANNEL_MEMBERS)%nat
  then Err (InvalidLayout CiphertextRows)
  else Ok (active, tokens).

Fixpoint validate_plaintext_cells (values : OwnedPlaintexts) (active tokens : nat) : res CreditSafetyError unit :=
  match values with
  | [] => Ok tt
  | (slot, token_slot, _) :: rest =>
      if (active <=? slot)%nat || (tokens <=? token_slot)%nat then Err (InactiveCell slot token_slot)
      else validate_plaintext_cells rest active tokens
  end.

Definition as_u64 (value : U256) : option Z :=
  match limbs value with
  | [l0; l1; l2; l3; l4; l5; l6; l7] =>
      if existsb (fun limb => negb (limb =? 0)) [l0; l1; l2; l3; l4; l5] then None
      else Some (Z.lor (Z.shiftl l6 32) l7)
  | _ => None
  end.

Definition positive_difference_bound {E} (a b : U256) : res E (option Z) :=
  if U256.ltb b a then difference ← U256.sub a b; Ok (as_u64 difference) else Ok (Some 0).

Definition add_bounds (a b : option Z) : option Z :=
  match a, b with Some a, Some b => checked_add 64 a b | _, _ => None end.

Definition tighter_bound (a b : option Z) : option Z :=
  match a, b with
  | Some a, Some b => Some (Z.min a b)
  | Some bound, None | None, Some bound => Some bound
  | None, None => None
  end.

Definition with_owned_plaintext (bound owned : option Z) (slot token_slot : nat) : res CreditSafetyError (option Z) :=
  match owned with
  | Some value =>
      if match bound with Some upper => upper <? value | None => false end
      then Err (InconsistentPlaintext slot token_slot)
      else Ok (Some value)
  | None => Ok bound
  end.

(** ** The bounds *)

Module ChannelCreditBounds.
Record ChannelCreditBounds := mk {
  schema_version : Z;
  channel_id : ChannelId;
  state_digest : Bytes32;
  upper_bounds : list (list (option Z));
}.

Definition no_bounds : list (option Z) := replicate MAX_CHANNEL_TOKENS (Some 0).

(** The nested loops over the active cells: every other cell keeps the initial [Some(0)]. *)
Definition fill_cells {E} (active tokens : nat) (cell : nat -> nat -> res E (option Z)) : res E (list (list (option Z))) :=
  res_mapM (fun slot =>
    if (slot <? active)%nat
    then res_mapM (fun token_slot => if (token_slot <? tokens)%nat then cell slot token_slot else Ok (Some 0)) (seq 0 MAX_CHANNEL_TOKENS)
    else Ok no_bounds) (seq 0 MAX_CHANNEL_MEMBERS).

Definition fund_amount {E} (state : ChannelState) (token_slot : nat) : res E U256 :=
  unwrap (ChannelFund.amounts (ChannelState.channel_fund state) !! token_slot).

Definition bootstrap (state : ChannelState) (owned : OwnedPlaintexts) : res CreditSafetyError ChannelCreditBounds :=
  '(active, tokens) ← checked_layout state;
  _ ← validate_plaintext_cells owned active tokens;
  upper_bounds ← fill_cells active tokens (fun slot token_slot =>
    amount ← fund_amount state token_slot;
    with_owned_plaintext (as_u64 amount) (owned_get owned slot token_slot) slot token_slot);
  Ok (mk CREDIT_BOUNDS_SCHEMA_VERSION (ChannelState.channel_id state) (ChannelState.digest state) upper_bounds).

Definition from_known_openings (state : ChannelState) (verified_openings : OwnedPlaintexts)
    : res CreditSafetyError ChannelCreditBounds := bootstrap state verified_openings.

Definition padding_ok (active tokens : nat) (rows : list (list (option Z))) : bool :=
  forallb id (imap (fun slot row => forallb id (imap (fun token_slot bound =>
    negb (((active <=? slot)%nat || (tokens <=? token_slot)%nat) && bool_decide (bound <> Some 0))) row)) rows).

Definition validate_for (b : ChannelCreditBounds) (state : ChannelState) : res CreditSafetyError unit :=
  '(active, tokens) ← checked_layout state;
  _ ← ensure (schema_version b =? CREDIT_BOUNDS_SCHEMA_VERSION) (UnsupportedSchema (schema_version b));
  _ ← ensure (negb (negb (channel_id b =? ChannelState.channel_id state)
                    || bool_decide (state_digest b <> ChannelState.digest state))) StateMismatch;
  _ ← ensure (length (upper_bounds b) =? MAX_CHANNEL_MEMBERS)%nat (InvalidLayout BoundsRows);
  ensure (padding_ok active tokens (upper_bounds b)) (InvalidLayout PaddingBound).

Definition bound_at {E} (b : ChannelCreditBounds) (slot token_slot : nat) : res E (option Z) :=
  row ← unwrap (upper_bounds b !! slot);
  unwrap (row !! token_slot).

Definition ciphertext_at {E} (state : ChannelState) (slot token_slot : nat) : res E RegevCiphertext :=
  row ← unwrap (BalanceState.enc_balances (ChannelState.balance_state state) !! slot);
  unwrap (row !! token_slot).

Definition key_at {E} (state : ChannelState) (slot : nat) : res E Bytes32 :=
  unwrap (BalanceState.regev_pk_digests (ChannelState.balance_state state) !! slot).

(** A changed ciphertext, or the same one under another key. *)
Definition is_changed {E} (prev next : ChannelState) (slot token_slot : nat) : res E bool :=
  prev_ct ← ciphertext_at prev slot token_slot;
  next_ct ← ciphertext_at next slot token_slot;
  prev_key ← key_at prev slot;
  next_key ← key_at next slot;
  Ok (bool_decide (prev_ct <> next_ct) || bool_decide (prev_key <> next_key)).

(** What the changed cells of one token can hold together after the transition. *)
Definition token_pool {E} (b : ChannelCreditBounds) (prev next : ChannelState) (allocation : option Z) (token_slot : nat)
    : res E (option Z) :=
  next_amount ← fund_amount next token_slot;
  prev_amount ← fund_amount prev token_slot;
  growth ← positive_difference_bound next_amount prev_amount;
  res_foldl (fun pool slot =>
    changed ← is_changed prev next slot token_slot;
    if changed : bool then bound ← bound_at b slot token_slot; Ok (add_bounds pool bound) else Ok pool)
    (add_bounds growth allocation) (seq 0 MAX_CHANNEL_MEMBERS).

(** The bound of one active cell of the successor. *)
Definition advance_cell (b : ChannelCreditBounds) (prev next : ChannelState) (pools : list (option Z)) (owned_next : OwnedPlaintexts)
    (slot token_slot : nat) : res CreditSafetyError (option Z) :=
  changed ← is_changed prev next slot token_slot;
  _ ← (if changed : bool then
         ct ← ciphertext_at next slot token_slot;
         map_err (fun _ => UnclaimableCiphertext slot token_slot) (Ct.validate_balance_exit_shape ct)
       else Ok tt);
  carried ← (if changed then unwrap (pools !! token_slot) else bound_at b slot token_slot);
  next_amount ← fund_amount next token_slot;
  bound ← with_owned_plaintext (tighter_bound carried (as_u64 next_amount)) (owned_get owned_next slot token_slot) slot token_slot;
  if changed && bool_decide (bound = None) then Err (RangeEvidenceRequired slot token_slot) else Ok bound.

Definition advance_authenticated (b : ChannelCreditBounds) (prev next : ChannelState) (owned_next : OwnedPlaintexts)
    : res CreditSafetyError ChannelCreditBounds :=
  _ ← validate_for b prev;
  '(next_active, next_tokens) ← checked_layout next;
  _ ← validate_plaintext_cells owned_next next_active next_tokens;
  _ ← ensure (negb (negb (ChannelState.channel_id next =? ChannelState.channel_id prev)
                    || bool_decide (ChannelState.prev_digest next <> ChannelState.digest prev))) SuccessorMismatch;
  let prev_tokens := Z.to_nat (BalanceState.token_count (ChannelState.balance_state prev)) in
  _ ← ensure (negb ((next_tokens <? prev_tokens)%nat
                    || bool_decide (take prev_tokens (BalanceState.token_registry (ChannelState.balance_state next))
                                    <> take prev_tokens (BalanceState.token_registry (ChannelState.balance_state prev)))))
    RegistryChanged;
  allocation ← positive_difference_bound (ChannelState.unallocated_confirmed_incoming prev)
    (ChannelState.unallocated_confirmed_incoming next);
  pools ← res_mapM (token_pool b prev next allocation) (seq 0 next_tokens);
  upper_bounds ← fill_cells next_active next_tokens (advance_cell b prev next pools owned_next);
  Ok (mk CREDIT_BOUNDS_SCHEMA_VERSION (ChannelState.channel_id next) (ChannelState.digest next) upper_bounds).

Definition can_credit (b : ChannelCreditBounds) (state : ChannelState) (slot token_slot : nat) (amount : Z) (owned_before : option Z)
    : res CreditSafetyError unit :=
  _ ← validate_for b state;
  '(active, tokens) ← checked_layout state;
  if (active <=? slot)%nat || (tokens <=? token_slot)%nat then Err (InactiveCell slot token_slot)
  else
    fund ← fund_amount state token_slot;
    let fund_before := as_u64 fund in
    bound ← bound_at b slot token_slot;
    before ← with_owned_plaintext (tighter_bound bound fund_before) owned_before slot token_slot;
    let after := tighter_bound (add_bounds before (Some amount)) (add_bounds fund_before (Some amount)) in
    if bool_decide (after = None) then Err (RangeEvidenceRequired slot token_slot) else Ok tt.

End ChannelCreditBounds.
Notation ChannelCreditBounds := ChannelCreditBounds.ChannelCreditBounds.
