(* ===== verification/CreditSafetyProps.v ===== *)
(** * The bounds against hidden balances

    The hidden balances are what the ciphertexts hold under their keys.  Bounds
    are sound for a state when every known bound is one; a transition that
    conserves the tokens keeps them sound, which is what the module promises
    ([advance_sound]), and every cell it changes is known to fit 64 bits. *)

From S2P Require Import Prelude Limbs U63 Keccak Poseidon Regev BalanceState Channel CreditSafety.
Import ChannelCreditBounds.

#[local] Notation res := (res CreditSafetyError).

(** ** Numbers *)

Definition u64_or_unknown (z : Z) : option Z := if z <? 2 ^ 64 then Some z else None.

Lemma as_u64_spec v : as_u64 v = u64_or_unknown (val v).
Proof.
  unfold as_u64, u64_or_unknown. pose proof (limbs_length v) as Hl. pose proof (limbs_u32 v) as Hw. unfold val.
  destruct (limbs v) as [|l0 [|l1 [|l2 [|l3 [|l4 [|l5 [|l6 [|l7 [|]]]]]]]]]; try done.
  repeat (apply Forall_cons_iff in Hw as [? Hw]). unfold in_width in *. cbn [rev app le_val existsb].
  rewrite lor_shiftl_add by (unfold in_width; lia).
  destruct (decide (l0 = 0 /\ l1 = 0 /\ l2 = 0 /\ l3 = 0 /\ l4 = 0 /\ l5 = 0)) as [(-> & -> & -> & -> & -> & ->)|Hne].
  - cbn [negb Z.eqb orb]. rewrite (proj2 (Z.ltb_lt _ _)) by lia. f_equal. lia.
  - assert (2 ^ 64 <= l7 + 2 ^ 32 * (l6 + 2 ^ 32 * (l5 + 2 ^ 32 * (l4 + 2 ^ 32 * (l3 + 2 ^ 32 * (l2 + 2 ^ 32 * (l1 + 2 ^ 32 * (l0 + 2 ^ 32 * 0)))))))) by lia.
    rewrite (proj2 (Z.ltb_ge _ _)) by lia.
    destruct (Z.eqb_spec l0 0), (Z.eqb_spec l1 0), (Z.eqb_spec l2 0), (Z.eqb_spec l3 0), (Z.eqb_spec l4 0), (Z.eqb_spec l5 0); try done.
    exfalso. apply Hne. done.
Qed.

Lemma positive_difference_spec {E} a b :
  positive_difference_bound (E := E) a b = Ok (u64_or_unknown (Z.max 0 (val a - val b))).
Proof.
  unfold positive_difference_bound. rewrite U256_theorems.ltb_val. destruct (Z.ltb_spec (val b) (val a)) as [Hlt|Hge].
  - destruct (U256_theorems.sub_total (E := E) a b) as [d Hd]; [lia|]. rewrite Hd. cbn [mbind res_bind]. rewrite as_u64_spec.
    rewrite (U256_theorems.sub_Ok _ _ _ Hd). by rewrite Z.max_r by lia.
  - by rewrite Z.max_l by lia.
Qed.

Lemma u64_or_unknown_Some z x : u64_or_unknown z = Some x <-> x = z /\ z < 2 ^ 64.
Proof. unfold u64_or_unknown. destruct (Z.ltb_spec z (2 ^ 64)); naive_solver lia. Qed.

Lemma add_bounds_Some a b x : add_bounds a b = Some x <-> exists y z, a = Some y /\ b = Some z /\ x = y + z /\ y + z < 2 ^ 64.
Proof.
  unfold add_bounds. split.
  - destruct a as [y|], b as [z|]; try done. intros [-> ?]%checked_add_Some. by exists y, z.
  - intros (y & z & -> & -> & ?). by apply checked_add_Some.
Qed.

(** A bound on a number that both arguments bound. *)
Lemma tighter_bound_sound a b x v : tighter_bound a b = Some x ->
  (forall y, a = Some y -> v <= y) -> (forall y, b = Some y -> v <= y) -> v <= x.
Proof.
  intros H Ha Hb. destruct a as [y|], b as [z|]; cbn in H; try done; injection H as <-; [|by apply Ha|by apply Hb].
  specialize (Ha _ eq_refl). specialize (Hb _ eq_refl). lia.
Qed.

Lemma tighter_bound_cases a b x : tighter_bound a b = Some x -> a = Some x \/ b = Some x.
Proof.
  destruct a as [y|], b as [z|]; cbn; intros H; try done; injection H as <-; auto.
  destruct (Z.min_spec y z) as [[_ ->]|[_ ->]]; auto.
Qed.

(** ** Hidden balances *)

Definition active_of (s : ChannelState) : nat :=
  (Z.to_nat (BalanceState.member_count (ChannelState.balance_state s)) + Z.to_nat (BalanceState.delegate_count (ChannelState.balance_state s)))%nat.
Definition tokens_of (s : ChannelState) : nat := Z.to_nat (BalanceState.token_count (ChannelState.balance_state s)).

(** The widths of the Rust arrays. *)
Record arrays (s : ChannelState) : Prop := {
  ar_rows : Forall (fun row => length row = MAX_CHANNEL_TOKENS) (BalanceState.enc_balances (ChannelState.balance_state s));
  ar_keys : length (BalanceState.regev_pk_digests (ChannelState.balance_state s)) = MAX_CHANNEL_MEMBERS;
  ar_funds : length (ChannelFund.amounts (ChannelState.channel_fund s)) = MAX_CHANNEL_TOKENS;
}.

Lemma checked_layout_Ok s x : checked_layout s = Ok x ->
  x = (active_of s, tokens_of s) /\ (0 < active_of s <= MAX_CHANNEL_MEMBERS)%nat /\ (0 < tokens_of s <= MAX_CHANNEL_TOKENS)%nat /\
  length (BalanceState.enc_balances (ChannelState.balance_state s)) = MAX_CHANNEL_MEMBERS.
Proof.
  unfold checked_layout. fold (active_of s) (tokens_of s). intros H.
  match type of H with (if ?b then _ else _) = _ => destruct b eqn:H1; [done|] end.
  match type of H with (if ?b then _ else _) = _ => destruct b eqn:H2; [done|] end.
  match type of H with (if ?b then _ else _) = _ => destruct b eqn:H3; [done|] end.
  apply Ok_inj in H as <-. rewrite !orb_false_iff in H2. destruct H2 as [[[H2 H4] H5] H6].
  apply Nat.ltb_ge in H2, H6. apply Nat.eqb_neq in H4, H5. apply negb_false_iff, Nat.eqb_eq in H3. split_and!; done || lia.
Qed.

Section hidden.
Context (plain : Bytes32 -> RegevCiphertext -> Z).

(** What a cell holds: the plaintext of its ciphertext under the registered key of its slot. *)
Definition value (s : ChannelState) (token slot : nat) : Z :=
  match key_at (E := CreditSafetyError) s slot, ciphertext_at (E := CreditSafetyError) s slot token with
  | Ok key, Ok ct => plain key ct
  | _, _ => 0
  end.

Definition total (s : ChannelState) (token : nat) : Z := zsum (value s token) (seq 0 MAX_CHANNEL_MEMBERS).

(** Balances are not negative, no token is owed more than its fund, unused cells are empty. *)
Record backed (s : ChannelState) : Prop := {
  bk_nonneg token slot : 0 <= value s token slot;
  bk_fund token a : (token < tokens_of s)%nat -> ChannelFund.amounts (ChannelState.channel_fund s) !! token = Some a -> total s token <= val a;
  bk_padding token slot : (active_of s <= slot)%nat \/ (tokens_of s <= token)%nat -> value s token slot = 0;
}.

(** No token grows by more than its fund grows and what leaves the unallocated pool. *)
Definition conserves (prev next : ChannelState) : Prop :=
  forall token a a', (token < tokens_of next)%nat ->
    ChannelFund.amounts (ChannelState.channel_fund prev) !! token = Some a ->
    ChannelFund.amounts (ChannelState.channel_fund next) !! token = Some a' ->
    total next token <= total prev token + Z.max 0 (val a' - val a)
      + Z.max 0 (val (ChannelState.unallocated_confirmed_incoming prev) - val (ChannelState.unallocated_confirmed_incoming next)).

(** The owned plaintexts are those of the state. *)
Definition opens (s : ChannelState) (owned : OwnedPlaintexts) : Prop :=
  forall slot token v, owned_get owned slot token = Some v -> v = value s token slot /\ in_width 64 v.

(** Every known bound is one. *)
Definition bounds_sound (b : ChannelCreditBounds) (s : ChannelState) : Prop :=
  forall slot token x, bound_at (E := CreditSafetyError) b slot token = Ok (Some x) -> value s token slot <= x < 2 ^ 64.

(** ** Cells *)

Lemma value_le_total s token slot : backed s -> (slot < MAX_CHANNEL_MEMBERS)%nat -> value s token slot <= total s token.
Proof. intros Hb Hs. apply zsum_elem; [apply Hb|]. apply elem_of_seq. lia. Qed.

Lemma fill_cells_Ok active tokens cell rows : fill_cells (E := CreditSafetyError) active tokens cell = Ok rows ->
  length rows = MAX_CHANNEL_MEMBERS /\ forall slot token, (slot < MAX_CHANNEL_MEMBERS)%nat -> (token < MAX_CHANNEL_TOKENS)%nat ->
    exists row o, rows !! slot = Some row /\ length row = MAX_CHANNEL_TOKENS /\ row !! token = Some o /\
      if (slot <? active)%nat && (token <? tokens)%nat then cell slot token = Ok o else o = Some 0.
Proof.
  intros H. apply res_mapM_Ok in H. split; [apply Forall2_length in H; by rewrite length_seq in H|]. intros slot token Hs Ht.
  destruct (Forall2_lookup_l _ _ _ slot slot H) as (row & Hrow & Hcell); [by apply lookup_seq|]. exists row.
  destruct (slot <? active)%nat; cbn [andb].
  - apply res_mapM_Ok in Hcell. destruct (Forall2_lookup_l _ _ _ token token Hcell) as (o & Ho & Hc); [by apply lookup_seq|].
    exists o. split_and!; [done|apply Forall2_length in Hcell; by rewrite length_seq in Hcell|done|].
    destruct (token <? tokens)%nat; [done|]. by injection Hc.
  - injection Hcell as <-. exists (Some 0). split_and!; [done|apply length_replicate|by apply lookup_replicate_2|done].
Qed.

Lemma fill_cells_bound active tokens cell rows v c d slot token o : fill_cells (E := CreditSafetyError) active tokens cell = Ok rows ->
  bound_at (E := CreditSafetyError) (mk v c d rows) slot token = Ok o ->
  if (slot <? active)%nat && (token <? tokens)%nat then cell slot token = Ok o else o = Some 0.
Proof.
  intros H Ho. destruct (fill_cells_Ok _ _ _ _ H) as [Hl Hc]. unfold bound_at in Ho. cbn [upper_bounds] in Ho.
  apply bind_Ok in Ho as (row & Hrow%unwrap_Ok & Ho%unwrap_Ok). assert (slot < MAX_CHANNEL_MEMBERS)%nat as Hs.
  { apply lookup_lt_Some in Hrow. lia. }
  destruct (Hc slot 0%nat Hs) as (row' & _ & Hrow' & Hlr & _); [unfold MAX_CHANNEL_TOKENS; lia|]. rewrite Hrow in Hrow'. injection Hrow' as <-.
  pose proof (lookup_lt_Some _ _ _ Ho) as Ht. destruct (Hc slot token Hs) as (row' & o' & Hrow' & _ & Ho' & Hcell); [lia|].
  rewrite Hrow in Hrow'. injection Hrow' as <-. rewrite Ho in Ho'. by injection Ho' as <-.
Qed.

Lemma with_owned_Ok bound owned slot token o : with_owned_plaintext bound owned slot token = Ok o ->
  match owned with Some v => o = Some v | None => o = bound end.
Proof.
  unfold with_owned_plaintext. destruct owned as [v|]; [|by intros H%Ok_inj].
  destruct bound as [u|]; [destruct (u <? v); [done|]|]; intros H%Ok_inj; done.
Qed.

(** The result of combining a bound with the fund and an owned plaintext. *)
Lemma cell_bound_sound s owned carried a slot token o x :
  backed s -> opens s owned -> (slot < MAX_CHANNEL_MEMBERS)%nat -> (token < tokens_of s)%nat ->
  ChannelFund.amounts (ChannelState.channel_fund s) !! token = Some a ->
  (forall y, carried = Some y -> value s token slot <= y < 2 ^ 64) ->
  with_owned_plaintext (tighter_bound carried (as_u64 a)) (owned_get owned slot token) slot token = Ok o ->
  o = Some x -> value s token slot <= x < 2 ^ 64.
Proof.
  intros Hb Ho Hs Ht Ha Hc Hw ->. apply with_owned_Ok in Hw. destruct (owned_get owned slot token) as [v|] eqn:Hv.
  - injection Hw as ->. destruct (Ho _ _ _ Hv) as [-> Hw]. unfold in_width in Hw. lia.
  - symmetry in Hw. rewrite as_u64_spec in Hw. assert (forall y, u64_or_unknown (val a) = Some y -> value s token slot <= y < 2 ^ 64) as Hf.
    { intros y [-> Hy]%u64_or_unknown_Some. pose proof (bk_fund _ Hb token a Ht Ha). pose proof (value_le_total s token slot Hb Hs). lia. }
    split.
    + eapply tighter_bound_sound; [exact Hw|intros y Hy; by apply Hc|intros y Hy; by apply Hf].
    + destruct (tighter_bound_cases _ _ _ Hw) as [H|H]; [by apply (Hc _ H)|by apply (Hf _ H)].
Qed.

(** ** Pools *)

Definition chg (prev next : ChannelState) (token slot : nat) : bool :=
  match is_changed (E := CreditSafetyError) prev next slot token with Ok c => c | _ => false end.

Lemma is_changed_spec prev next slot token c : is_changed (E := CreditSafetyError) prev next slot token = Ok c ->
  chg prev next token slot = c /\ (c = false -> value next token slot = value prev token slot).
Proof.
  intros H. unfold chg. rewrite H. split; [done|]. intros ->. unfold is_changed in H. unfold value.
  apply bind_Ok in H as (ct & Hct & H). apply bind_Ok in H as (ct' & Hct' & H).
  apply bind_Ok in H as (k & Hk & H). apply bind_Ok in H as (k' & Hk' & H). apply Ok_inj, orb_false_iff in H as [H1 H2].
  rewrite Hct, Hct', Hk, Hk'. apply bool_decide_eq_false_1, dec_stable in H1, H2. by subst.
Qed.

(** The part of a token that the changed cells hold. *)
Definition changed_total (prev next s : ChannelState) (token : nat) (slots : list nat) : Z :=
  zsum (fun slot => if chg prev next token slot then value s token slot else 0) slots.

Lemma pool_fold b prev next token slots pool x :
  bounds_sound b prev ->
  res_foldl (fun pool slot =>
    changed ← is_changed prev next slot token;
    if changed : bool then bound ← bound_at b slot token; Ok (add_bounds pool bound) else Ok pool) pool slots
    = (Ok (Some x) : res (option Z)) ->
  exists p, pool = Some p /\ p + changed_total prev next prev token slots <= x /\ (p < 2 ^ 64 -> x < 2 ^ 64).
Proof.
  intros Hb. revert pool. induction slots as [|slot slots IH]; intros pool H; cbn [res_foldl] in H.
  - apply Ok_inj in H as ->. exists x. split_and!; [done|cbn; lia|done].
  - apply bind_Ok in H as (pool' & Hp & H). destruct (IH _ H) as (p & -> & Hle & Hlt). apply bind_Ok in Hp as (c & Hc & Hp).
    destruct (is_changed_spec _ _ _ _ _ Hc) as [Hchg _]. unfold changed_total. cbn [zsum foldr]. fold (changed_total prev next prev token slots).
    rewrite Hchg. destruct c.
    + apply bind_Ok in Hp as (bound & Hbd & Hp). apply Ok_inj, add_bounds_Some in Hp as (y & z & -> & -> & -> & Hyz).
      pose proof (Hb slot token z Hbd). exists y. split_and!; [done| |intros _; by apply Hlt].
      change (y + (value prev token slot + changed_total prev next prev token slots) <= x). lia.
    + apply Ok_inj in Hp as ->. exists p. split_and!; [done| |done].
      change (p + (0 + changed_total prev next prev token slots) <= x). lia.
Qed.

(** Every changed cell holds at most the pool of its token. *)
Lemma pool_sound b prev next allocation token slot x a a' :
  bounds_sound b prev -> backed next -> conserves prev next -> (token < tokens_of next)%nat -> (slot < MAX_CHANNEL_MEMBERS)%nat ->
  ChannelFund.amounts (ChannelState.channel_fund prev) !! token = Some a ->
  ChannelFund.amounts (ChannelState.channel_fund next) !! token = Some a' ->
  (forall s, (s < MAX_CHANNEL_MEMBERS)%nat -> exists c, is_changed (E := CreditSafetyError) prev next s token = Ok c) ->
  positive_difference_bound (E := CreditSafetyError) (ChannelState.unallocated_confirmed_incoming prev)
    (ChannelState.unallocated_confirmed_incoming next) = Ok allocation ->
  token_pool b prev next allocation token = (Ok (Some x) : res (option Z)) -> chg prev next token slot = true ->
  value next token slot <= x < 2 ^ 64.
Proof.
  intros Hb Hn Hc Ht Hs Ha Ha' Hch Hal Hp Hslot. unfold token_pool, fund_amount in Hp. rewrite Ha, Ha' in Hp. cbn [unwrap mbind res_bind] in Hp.
  rewrite positive_difference_spec in Hp, Hal. cbn [mbind res_bind] in Hp. apply Ok_inj in Hal as <-.
  destruct (pool_fold _ _ _ _ _ _ _ Hb Hp) as (p & Hbase & Hle & Hlt).
  apply add_bounds_Some in Hbase as (y & z & [-> _]%u64_or_unknown_Some & [-> _]%u64_or_unknown_Some & -> & Hyz).
  pose proof (Hc token a a' Ht Ha Ha') as Hcons. set (slots := seq 0 MAX_CHANNEL_MEMBERS) in *.
  set (kept s := zsum (fun i => if chg prev next token i then 0 else value s token i) slots).
  assert (forall s, total s token = changed_total prev next s token slots + kept s) as Hsplit.
  { intros s. unfold total, changed_total, kept. rewrite <- zsum_add. fold slots.
    apply Z.le_antisymm; apply zsum_le; intros i _; destruct (chg prev next token i); lia. }
  assert (kept next = kept prev) as Hkept.
  { unfold kept. apply Z.le_antisymm; apply zsum_le; intros i Hi; apply elem_of_seq in Hi; destruct (Hch i) as [c Hci]; try lia;
      destruct (is_changed_spec _ _ _ _ _ Hci) as [-> Hv]; destruct c; try lia; specialize (Hv eq_refl); lia. }
  assert (value next token slot <= changed_total prev next next token slots) as Hcell.
  { unfold changed_total. pose proof (zsum_elem (fun i => if chg prev next token i then value next token i else 0) slots slot) as He.
    cbn beta in He. rewrite Hslot in He. apply He; [|apply elem_of_seq; lia]. intros i. pose proof (bk_nonneg _ Hn token i). by destruct (chg _ _ _ i). }
  rewrite !Hsplit in Hcons. split; [lia|]. apply Hlt. lia.
Qed.

(** ** Layouts *)

Lemma forallb_imap {A} (f : nat -> A -> bool) l : forallb id (imap f l) = true <-> forall i x, l !! i = Some x -> f i x = true.
Proof.
  rewrite forallb_forall. split.
  - intros H i x Hx. apply H, list_elem_of_In, list_elem_of_lookup. exists i. by rewrite list_lookup_imap, Hx.
  - intros H b Hb. apply list_elem_of_In, list_elem_of_lookup in Hb as [i Hi]. rewrite list_lookup_imap in Hi.
    destruct (l !! i) as [x|] eqn:Hx; [|done]. injection Hi as <-. by apply H.
Qed.

Definition rows_typed (b : ChannelCreditBounds) : Prop := Forall (fun row => length row = MAX_CHANNEL_TOKENS) (upper_bounds b).

Lemma fill_cells_typed active tokens cell rows : fill_cells (E := CreditSafetyError) active tokens cell = Ok rows ->
  Forall (fun row => length row = MAX_CHANNEL_TOKENS) rows /\ padding_ok active tokens rows = true.
Proof.
  intros H. destruct (fill_cells_Ok _ _ _ _ H) as [Hl Hc].
  assert (forall slot row, rows !! slot = Some row -> (slot < MAX_CHANNEL_MEMBERS)%nat /\ length row = MAX_CHANNEL_TOKENS) as Hrows.
  { intros slot row Hrow. assert (slot < MAX_CHANNEL_MEMBERS)%nat as Hs by (apply lookup_lt_Some in Hrow; lia). split; [done|].
    destruct (Hc slot 0%nat Hs) as (row' & _ & Hrow' & Hlr & _); [unfold MAX_CHANNEL_TOKENS; lia|]. rewrite Hrow in Hrow'. by injection Hrow' as <-. }
  split.
  - apply Forall_lookup. intros slot row Hrow. by apply (Hrows slot).
  - unfold padding_ok. rewrite forallb_imap. intros slot row Hrow. destruct (Hrows slot row Hrow) as [Hs Hlr].
    rewrite forallb_imap. intros token o Ho. pose proof (lookup_lt_Some _ _ _ Ho) as Ht.
    destruct (Hc slot token Hs) as (row' & o' & Hrow' & _ & Ho' & Hcell); [lia|].
    rewrite Hrow in Hrow'. injection Hrow' as <-. rewrite Ho in Ho'. injection Ho' as <-.
    destruct (Nat.leb_spec active slot), (Nat.leb_spec tokens token); cbn [orb andb]; [| | |done];
      first [rewrite (proj2 (Nat.ltb_ge slot active)) in Hcell by lia|rewrite (proj2 (Nat.ltb_ge token tokens)) in Hcell by lia];
      rewrite ?andb_false_r in Hcell; cbn [andb] in Hcell; subst o; by rewrite bool_decide_eq_false_2 by (intros H'; by apply H').
Qed.

Lemma bind_layout {A} s (k : nat * nat -> res A) x : (y ← checked_layout s; k y) = Ok x ->
  checked_layout s = Ok (active_of s, tokens_of s) /\ k (active_of s, tokens_of s) = Ok x.
Proof. intros H. apply bind_Ok in H as (y & Hy & H). destruct (checked_layout_Ok _ _ Hy) as [-> _]. done. Qed.

Lemma validate_for_Ok b s : validate_for b s = Ok tt -> checked_layout s = Ok (active_of s, tokens_of s) /\
  length (upper_bounds b) = MAX_CHANNEL_MEMBERS /\ padding_ok (active_of s) (tokens_of s) (upper_bounds b) = true.
Proof.
  intros H. unfold validate_for in H. apply bind_layout in H as [Hl H].
  apply bind_Ok in H as ([] & _ & H). apply bind_Ok in H as ([] & _ & H).
  apply bind_Ok in H as ([] & Hr%ensure_Ok & H%ensure_Ok). apply Nat.eqb_eq in Hr. done.
Qed.

Lemma validate_for_intro s rows cell :
  checked_layout s = Ok (active_of s, tokens_of s) -> fill_cells (E := CreditSafetyError) (active_of s) (tokens_of s) cell = Ok rows ->
  validate_for (mk CREDIT_BOUNDS_SCHEMA_VERSION (ChannelState.channel_id s) (ChannelState.digest s) rows) s = Ok tt.
Proof.
  intros Hl Hr. unfold validate_for. rewrite Hl. cbn [mbind res_bind schema_version channel_id state_digest upper_bounds].
  rewrite !Z.eqb_refl, bool_decide_eq_false_2 by (intros H; by apply H). cbn [negb orb ensure mbind res_bind].
  destruct (fill_cells_Ok _ _ _ _ Hr) as [-> _]. rewrite Nat.eqb_refl. cbn [ensure mbind res_bind].
  destruct (fill_cells_typed _ _ _ _ Hr) as [_ ->]. done.
Qed.

(** Inside the arrays every access succeeds. *)
Lemma cells_total s slot token : arrays s -> checked_layout s = Ok (active_of s, tokens_of s) ->
  (slot < MAX_CHANNEL_MEMBERS)%nat -> (token < MAX_CHANNEL_TOKENS)%nat ->
  (exists ct, ciphertext_at (E := CreditSafetyError) s slot token = Ok ct) /\ (exists k, key_at (E := CreditSafetyError) s slot = Ok k) /\
  exists a, ChannelFund.amounts (ChannelState.channel_fund s) !! token = Some a.
Proof.
  intros [Hr Hk Hf] Hl Hs Ht. destruct (checked_layout_Ok _ _ Hl) as (_ & _ & _ & He). unfold ciphertext_at, key_at.
  destruct (lookup_lt_is_Some_2 (BalanceState.enc_balances (ChannelState.balance_state s)) slot) as [row Hrow]; [lia|].
  pose proof (proj1 (Forall_lookup _ _) Hr slot row Hrow) as Hlr. cbn in Hlr.
  destruct (lookup_lt_is_Some_2 row token) as [ct Hct]; [lia|].
  destruct (lookup_lt_is_Some_2 (BalanceState.regev_pk_digests (ChannelState.balance_state s)) slot) as [k Hkk]; [lia|].
  destruct (lookup_lt_is_Some_2 (ChannelFund.amounts (ChannelState.channel_fund s)) token) as [a Ha]; [lia|].
  split_and!; [exists ct; rewrite Hrow; cbn [unwrap mbind res_bind]; by rewrite Hct|exists k; by rewrite Hkk|by exists a].
Qed.

Lemma is_changed_total prev next slot token : arrays prev -> arrays next ->
  checked_layout prev = Ok (active_of prev, tokens_of prev) -> checked_layout next = Ok (active_of next, tokens_of next) ->
  (slot < MAX_CHANNEL_MEMBERS)%nat -> (token < MAX_CHANNEL_TOKENS)%nat ->
  exists c, is_changed (E := CreditSafetyError) prev next slot token = Ok c.
Proof.
  intros Hp Hn Lp Ln Hs Ht. destruct (cells_total prev slot token Hp Lp Hs Ht) as ((ct & Hct) & (k & Hk) & _).
  destruct (cells_total next slot token Hn Ln Hs Ht) as ((ct' & Hct') & (k' & Hk') & _). unfold is_changed.
  rewrite Hct, Hct', Hk, Hk'. cbn [mbind res_bind]. by eexists.
Qed.

(** ** Soundness *)

Lemma bootstrap_sound s owned b :
  arrays s -> backed s -> opens s owned -> bootstrap s owned = Ok b ->
  validate_for b s = Ok tt /\ rows_typed b /\ bounds_sound b s.
Proof.
  intros Hs Hb Ho H. unfold bootstrap in H. apply bind_layout in H as [Hl H]. apply bind_Ok in H as ([] & _ & H).
  apply bind_Ok in H as (rows & Hr & H). apply Ok_inj in H as <-. destruct (checked_layout_Ok _ _ Hl) as (_ & [_ Ha] & [_ Ht] & _).
  split_and!; [by eapply validate_for_intro|by apply (fill_cells_typed _ _ _ _ Hr)|].
  intros slot token x Hx. pose proof (fill_cells_bound _ _ _ _ _ _ _ _ _ _ Hr Hx) as Hc.
  destruct (Nat.ltb_spec slot (active_of s)) as [Hsl|Hsl], (Nat.ltb_spec token (tokens_of s)) as [Htk|Htk]; cbn [andb] in Hc;
    try (injection Hc as ->; rewrite (bk_padding _ Hb) by (auto); lia).
  apply bind_Ok in Hc as (a & Ha'%unwrap_Ok & Hc).
  replace (as_u64 a) with (tighter_bound None (as_u64 a)) in Hc by (by destruct (as_u64 a)).
  eapply (cell_bound_sound s owned None a slot token); [done|done|lia|done|exact Ha'|done|exact Hc|done].
Qed.

Lemma advance_sound b prev next owned b' :
  arrays prev -> arrays next -> backed next -> conserves prev next -> opens next owned -> bounds_sound b prev ->
  advance_authenticated b prev next owned = Ok b' ->
  validate_for b' next = Ok tt /\ rows_typed b' /\ bounds_sound b' next /\
  forall slot token, (slot < active_of next)%nat -> (token < tokens_of next)%nat -> chg prev next token slot = true ->
    value next token slot < 2 ^ 64.
Proof.
  intros Hp Hn Hb Hc Ho Hbs H. unfold advance_authenticated in H. apply bind_Ok in H as ([] & Hv & H).
  destruct (validate_for_Ok _ _ Hv) as (Lp & _ & _). apply bind_layout in H as [Ln H]. do 3 (apply bind_Ok in H as ([] & _ & H)).
  apply bind_Ok in H as (alloc & Hal & H). apply bind_Ok in H as (pools & Hpools & H). apply bind_Ok in H as (rows & Hr & H).
  apply Ok_inj in H as <-. destruct (checked_layout_Ok _ _ Ln) as (_ & [_ Hact] & [_ Htok] & _).
  assert (forall slot token o, (slot < active_of next)%nat -> (token < tokens_of next)%nat ->
    advance_cell b prev next pools owned slot token = Ok o ->
    (forall x, o = Some x -> value next token slot <= x < 2 ^ 64) /\ (chg prev next token slot = true -> o <> None)) as Hcell.
  { intros slot token o Hs Ht H. unfold advance_cell in H.
    apply bind_Ok in H as (c & Hch & H). destruct (is_changed_spec _ _ _ _ _ Hch) as [Hcc Hval].
    apply bind_Ok in H as ([] & _ & H). apply bind_Ok in H as (carried & Hcar & H). apply bind_Ok in H as (a' & Ha'%unwrap_Ok & H).
    apply bind_Ok in H as (bd & Hbd & H). destruct (c && bool_decide (bd = None)) eqn:Hnone; [done|]. apply Ok_inj in H as <-. split.
    - intros x ->. eapply (cell_bound_sound next owned carried a' slot token); [done|done|lia|done|exact Ha'| |exact Hbd|done].
      intros y ->. destruct c.
      + destruct (cells_total prev slot token Hp Lp) as (_ & _ & a & Ha); [lia|lia|]. apply unwrap_Ok in Hcar.
        apply res_mapM_Ok in Hpools. destruct (Forall2_lookup_r _ _ _ _ _ Hpools Hcar) as (t & Ht' & Hpool).
        apply lookup_seq in Ht' as [-> _]. cbn [Nat.add] in *.
        eapply (pool_sound b prev next alloc token slot y a a'); try done; [lia|]. intros s Hs'. apply is_changed_total; done || lia.
      + rewrite Hval by done. by apply Hbs.
    - intros Hx ->. rewrite <- Hcc, Hx in Hnone. done. }
  split_and!; [by eapply validate_for_intro|by apply (fill_cells_typed _ _ _ _ Hr)| |].
  - intros slot token x Hx. pose proof (fill_cells_bound _ _ _ _ _ _ _ _ _ _ Hr Hx) as Hf.
    destruct (Nat.ltb_spec slot (active_of next)) as [Hsl|Hsl], (Nat.ltb_spec token (tokens_of next)) as [Htk|Htk]; cbn [andb] in Hf;
      try (injection Hf as ->; rewrite (bk_padding _ Hb) by (auto); lia).
    by apply (Hcell slot token (Some x)).
  - intros slot token Hs Ht Hx. destruct (fill_cells_Ok _ _ _ _ Hr) as [_ Hf].
    destruct (Hf slot token) as (row & o & Hrow & _ & Hro & Hcl); [lia|lia|].
    rewrite (proj2 (Nat.ltb_lt _ _)), (proj2 (Nat.ltb_lt _ _)) in Hcl by done. cbn [andb] in Hcl.
    destruct (Hcell slot token o Hs Ht Hcl) as [Hsome Hnn]. destruct o as [x|]; [|by destruct (Hnn Hx)].
    pose proof (Hsome x eq_refl). lia.
Qed.

(** ** Public credits *)

Lemma can_credit_sound b s slot token amount owned_before :
  arrays s -> backed s -> bounds_sound b s -> (forall v, owned_before = Some v -> v = value s token slot) ->
  can_credit b s slot token amount owned_before = Ok tt ->
  (slot < active_of s)%nat /\ (token < tokens_of s)%nat /\ value s token slot + amount < 2 ^ 64.
Proof.
  intros Hs Hb Hbs Ho H. unfold can_credit in H. apply bind_Ok in H as ([] & _ & H). apply bind_layout in H as [Hl H].
  destruct (checked_layout_Ok _ _ Hl) as (_ & [_ Hact] & _).
  destruct (_ || _) eqn:Hin; [done|]. apply orb_false_iff in Hin as [Hsl%Nat.leb_gt Htk%Nat.leb_gt].
  apply bind_Ok in H as (a & Ha%unwrap_Ok & H). apply bind_Ok in H as (bd & Hbd & H). apply bind_Ok in H as (before & Hbefore & H).
  case_bool_decide as Hafter; [done|]. split_and!; [done|done|].
  pose proof (bk_fund _ Hb token a Htk Ha) as Hf. pose proof (value_le_total s token slot Hb ltac:(lia)) as Hv.
  rewrite as_u64_spec in *. destruct (tighter_bound (add_bounds before _) _) as [x|] eqn:Hx; [|done].
  destruct (tighter_bound_cases _ _ _ Hx) as [(y & z & -> & [= <-] & -> & Hyz)%add_bounds_Some|(y & z & [-> _]%u64_or_unknown_Some & [= <-] & -> & Hyz)%add_bounds_Some];
    [|lia]. apply with_owned_Ok in Hbefore. destruct owned_before as [v|].
  - injection Hbefore as ->. rewrite <- (Ho v eq_refl). lia.
  - symmetry in Hbefore. enough (value s token slot <= y) by lia. eapply tighter_bound_sound; [exact Hbefore| |].
    + intros w ->. pose proof (Hbs slot token w Hbd). lia.
    + intros w [-> _]%u64_or_unknown_Some. lia.
Qed.

(** ** Runs *)

(** The bounds a signer holds for a state: from a start, over authenticated transitions. *)
Inductive credit_run : ChannelState -> ChannelCreditBounds -> Prop :=
| credit_start s owned b : arrays s -> backed s -> opens s owned -> bootstrap s owned = Ok b -> credit_run s b
| credit_step prev b next owned b' :
    credit_run prev b -> arrays next -> backed next -> conserves prev next -> opens next owned ->
    advance_authenticated b prev next owned = Ok b' -> credit_run next b'.

Lemma credit_run_sound s b : credit_run s b -> arrays s /\ backed s /\ validate_for b s = Ok tt /\ rows_typed b /\ bounds_sound b s.
Proof.
  induction 1 as [s owned b Hs Hb Ho H|prev b next owned b' _ (Hp & _ & _ & _ & Hbs) Hn Hb Hc Ho H].
  - destruct (bootstrap_sound s owned b Hs Hb Ho H) as (? & ? & ?). done.
  - destruct (advance_sound b prev next owned b' Hp Hn Hb Hc Ho Hbs H) as (? & ? & ? & _). done.
Qed.

End hidden.

(** ** Aborts *)

(** On arrays of the right width nothing is out of range. *)
Lemma fill_no_panic active tokens cell :
  (forall slot token, (slot < active)%nat -> (slot < MAX_CHANNEL_MEMBERS)%nat -> (token < tokens)%nat -> (token < MAX_CHANNEL_TOKENS)%nat ->
    cell slot token <> Panic) -> fill_cells (E := CreditSafetyError) active tokens cell <> Panic.
Proof.
  intros H. unfold fill_cells. apply map_no_panic. intros slot Hs. apply elem_of_seq in Hs.
  destruct (Nat.ltb_spec slot active); [|done]. apply map_no_panic. intros token Ht. apply elem_of_seq in Ht.
  destruct (Nat.ltb_spec token tokens); [|done]. apply H; lia.
Qed.

Lemma layout_no_panic s : checked_layout s <> Panic.
Proof. unfold checked_layout. by repeat case_match. Qed.

Lemma cells_no_panic owned active tokens : validate_plaintext_cells owned active tokens <> Panic.
Proof. induction owned as [|[[slot token] v] owned IH]; [done|]. cbn. by destruct (_ || _). Qed.

Lemma owned_no_panic bound owned slot token : with_owned_plaintext bound owned slot token <> Panic.
Proof. unfold with_owned_plaintext. by repeat case_match. Qed.

Lemma exit_shape_no_panic ct : Ct.validate_balance_exit_shape ct <> Panic.
Proof.
  unfold Ct.validate_balance_exit_shape, Ct.validate, validate_polys. cbn. repeat case_match; simplify_res; done.
Qed.

Lemma bound_total b slot token : rows_typed b -> length (upper_bounds b) = MAX_CHANNEL_MEMBERS ->
  (slot < MAX_CHANNEL_MEMBERS)%nat -> (token < MAX_CHANNEL_TOKENS)%nat -> exists o, bound_at (E := CreditSafetyError) b slot token = Ok o.
Proof.
  intros Hr Hl Hs Ht. unfold bound_at. destruct (lookup_lt_is_Some_2 (upper_bounds b) slot) as [row Hrow]; [lia|].
  pose proof (proj1 (Forall_lookup _ _) Hr slot row Hrow) as Hlr. cbn in Hlr.
  destruct (lookup_lt_is_Some_2 row token) as [o Ho]; [lia|]. exists o. rewrite Hrow. cbn [unwrap mbind res_bind]. by rewrite Ho.
Qed.

Lemma validate_no_panic b s : validate_for b s <> Panic.
Proof.
  unfold validate_for. apply bind_no_panic; [apply layout_no_panic|]. intros [a t] _.
  repeat (apply bind_no_panic; [apply ensure_no_Panic|intros [] _]). apply ensure_no_Panic.
Qed.

Lemma map_total {A B} (f : A -> res B) xs : (forall x, x ∈ xs -> exists y, f x = Ok y) -> exists ys, res_mapM f xs = Ok ys.
Proof.
  induction xs as [|x xs IH]; intros H; [by exists []|]. destruct (H x) as [y Hy]; [left|]. destruct IH as [ys Hys]; [intros z Hz; apply H; by right|].
  exists (y :: ys). cbn [res_mapM]. by rewrite Hy, Hys.
Qed.

Lemma token_pool_total b prev next allocation token :
  arrays prev -> arrays next -> checked_layout prev = Ok (active_of prev, tokens_of prev) -> checked_layout next = Ok (active_of next, tokens_of next) ->
  rows_typed b -> length (upper_bounds b) = MAX_CHANNEL_MEMBERS -> (token < MAX_CHANNEL_TOKENS)%nat ->
  exists pool, token_pool (E := CreditSafetyError) b prev next allocation token = Ok pool.
Proof.
  intros Hp Hn Lp Ln Hr Hrows Ht. unfold token_pool, fund_amount. destruct (checked_layout_Ok _ _ Lp) as (_ & [Hpos Hact] & _).
  destruct (cells_total prev 0%nat token Hp Lp) as (_ & _ & a & ->); [lia|lia|].
  destruct (cells_total next 0%nat token Hn Ln) as (_ & _ & a' & ->); [lia|lia|]. cbn [unwrap mbind res_bind].
  rewrite positive_difference_spec. cbn [mbind res_bind]. generalize (add_bounds (u64_or_unknown (Z.max 0 (val a' - val a))) allocation).
  assert (Forall (fun slot => (slot < MAX_CHANNEL_MEMBERS)%nat) (seq 0 MAX_CHANNEL_MEMBERS)) as Hs by (apply seq_Forall; lia).
  induction Hs as [|slot slots Hslot _ IH]; intros pool; [by exists pool|]. cbn [res_foldl].
  destruct (is_changed_total prev next slot token Hp Hn Lp Ln Hslot Ht) as [c ->]. cbn [mbind res_bind]. destruct c; [|apply IH].
  destruct (bound_total b slot token Hr Hrows Hslot Ht) as [o ->]. cbn [mbind res_bind]. apply IH.
Qed.

Lemma advance_no_panic b prev next owned :
  arrays prev -> arrays next -> rows_typed b -> advance_authenticated b prev next owned <> Panic.
Proof.
  intros Hp Hn Hr. unfold advance_authenticated. apply bind_no_panic; [apply validate_no_panic|]. intros [] Hv.
  destruct (validate_for_Ok _ _ Hv) as (Lp & Hrows & _). apply bind_no_panic; [apply layout_no_panic|]. intros [na nt] Ln.
  destruct (checked_layout_Ok _ _ Ln) as ([= -> ->] & [Hpos Hact] & [_ Htok] & _).
  apply bind_no_panic; [apply cells_no_panic|]. intros [] _. do 2 (apply bind_no_panic; [apply ensure_no_Panic|intros [] _]).
  apply bind_no_panic; [by rewrite positive_difference_spec|]. intros alloc _. apply bind_no_panic.
  - apply map_no_panic. intros token Ht%elem_of_seq. destruct (token_pool_total b prev next alloc token) as [pool ->]; done || lia.
  - intros pools Hpools. apply bind_no_panic; [|done]. apply fill_no_panic. intros slot token Hs1 Hs Ht1 Ht. unfold advance_cell.
    destruct (is_changed_total prev next slot token Hp Hn Lp Ln Hs Ht) as [c ->]. cbn [mbind res_bind].
    destruct (cells_total next slot token Hn Ln Hs Ht) as ((ct & Hct) & _ & a' & Ha').
    apply bind_no_panic.
    { destruct c; [|done]. rewrite Hct. cbn [mbind res_bind]. pose proof (exit_shape_no_panic ct).
      by destruct (Ct.validate_balance_exit_shape ct). }
    intros [] _. apply bind_no_panic.
    { destruct c; [|by destruct (bound_total b slot token Hr Hrows Hs Ht) as [o ->]].
      apply res_mapM_Ok, Forall2_length in Hpools. rewrite length_seq in Hpools.
      destruct (lookup_lt_is_Some_2 pools token) as [o ->]; [lia|]. done. }
    intros carried _. unfold fund_amount. rewrite Ha'. cbn [unwrap mbind res_bind]. apply bind_no_panic; [apply owned_no_panic|].
    intros bd _. by destruct (_ && _).
Qed.

(** ** Progress *)

Lemma fill_total active tokens cell :
  (forall slot token, (slot < active)%nat -> (slot < MAX_CHANNEL_MEMBERS)%nat -> (token < tokens)%nat -> (token < MAX_CHANNEL_TOKENS)%nat ->
    exists o, cell slot token = Ok o) -> exists rows, fill_cells (E := CreditSafetyError) active tokens cell = Ok rows.
Proof.
  intros H. unfold fill_cells. apply map_total. intros slot Hs. apply elem_of_seq in Hs.
  destruct (Nat.ltb_spec slot active); [|by eexists]. apply map_total. intros token Ht. apply elem_of_seq in Ht.
  destruct (Nat.ltb_spec token tokens); [|by eexists]. apply H; lia.
Qed.

Lemma advance_progress b prev next :
  validate_for b prev = Ok tt -> rows_typed b -> arrays prev -> arrays next -> checked_layout next = Ok (active_of next, tokens_of next) ->
  ChannelState.channel_id next = ChannelState.channel_id prev -> ChannelState.prev_digest next = ChannelState.digest prev ->
  (tokens_of prev <= tokens_of next)%nat ->
  take (tokens_of prev) (BalanceState.token_registry (ChannelState.balance_state next))
    = take (tokens_of prev) (BalanceState.token_registry (ChannelState.balance_state prev)) ->
  (forall slot token ct, (slot < active_of next)%nat -> (token < tokens_of next)%nat -> chg prev next token slot = true ->
    ciphertext_at (E := CreditSafetyError) next slot token = Ok ct -> Ct.validate_balance_exit_shape ct = Ok tt) ->
  (forall slot token a, (slot < active_of next)%nat -> (token < tokens_of next)%nat -> chg prev next token slot = true ->
    ChannelFund.amounts (ChannelState.channel_fund next) !! token = Some a -> val a < 2 ^ 64) ->
  exists b', advance_authenticated b prev next [] = Ok b'.
Proof.
  intros Hv Hr Hp Hn Ln Hid Hpd Htk Hreg Hshape Hfund. destruct (validate_for_Ok _ _ Hv) as (Lp & Hrows & _).
  destruct (checked_layout_Ok _ _ Ln) as (_ & [Hpos Hact] & [_ Htok] & _). unfold advance_authenticated. rewrite Hv, Ln. cbn [mbind res_bind validate_plaintext_cells].
  rewrite Hid, Hpd, Z.eqb_refl, bool_decide_eq_false_2 by (intros H; by apply H). cbn [negb orb ensure mbind res_bind].
  fold (tokens_of prev). rewrite (proj2 (Nat.ltb_ge _ _)), bool_decide_eq_false_2 by (lia || (intros H; by apply H)). cbn [negb orb ensure mbind res_bind].
  rewrite positive_difference_spec. cbn [mbind res_bind]. set (alloc := u64_or_unknown _).
  destruct (map_total (token_pool b prev next alloc) (seq 0 (tokens_of next))) as [pools Hpools].
  { intros token Ht%elem_of_seq. apply token_pool_total; done || lia. }
  rewrite Hpools. cbn [mbind res_bind]. apply res_mapM_Ok, Forall2_length in Hpools. rewrite length_seq in Hpools.
  destruct (fill_total (active_of next) (tokens_of next) (advance_cell b prev next pools [])) as [rows ->]; [|by eexists].
  intros slot token Hs1 Hs Ht1 Ht. unfold advance_cell. destruct (is_changed_total prev next slot token Hp Hn Lp Ln Hs Ht) as [c Hc].
  destruct (cells_total next slot token Hn Ln Hs Ht) as ((ct & Hct) & _ & a' & Ha'). rewrite Hc, Hct. cbn [mbind res_bind].
  unfold fund_amount. rewrite Ha'. cbn [unwrap mbind res_bind with_owned_plaintext owned_get].
  pose proof (proj1 (is_changed_spec (fun _ _ => 0) _ _ _ _ _ Hc)) as Hcc. destruct c; cbn [andb].
  - rewrite (Hshape slot token ct) by done. cbn [map_err mbind res_bind].
    destruct (lookup_lt_is_Some_2 pools token) as [o ->]; [lia|]. cbn [unwrap mbind res_bind].
    rewrite as_u64_spec. unfold u64_or_unknown. rewrite (proj2 (Z.ltb_lt _ _)) by (by eapply (Hfund slot token)). destruct o; by eexists.
  - destruct (bound_total b slot token Hr Hrows Hs Ht) as [o ->]. cbn [mbind res_bind]. by eexists.
Qed.

Lemma can_credit_no_panic b s slot token amount owned : arrays s -> rows_typed b -> can_credit b s slot token amount owned <> Panic.
Proof.
  intros Hs Hr. unfold can_credit. apply bind_no_panic; [apply validate_no_panic|]. intros [] Hv.
  destruct (validate_for_Ok _ _ Hv) as (Hl & Hrows & _). rewrite Hl. cbn [mbind res_bind].
  destruct (checked_layout_Ok _ _ Hl) as (_ & [_ Ha] & [_ Ht] & _).
  destruct ((active_of s <=? slot)%nat || (tokens_of s <=? token)%nat) eqn:Hin; [done|]. apply orb_false_iff in Hin as [Hsl%Nat.leb_gt Htk%Nat.leb_gt].
  destruct (cells_total s slot token Hs Hl) as (_ & _ & a & Hfa); [lia|lia|]. unfold fund_amount. rewrite Hfa. cbn [unwrap mbind res_bind].
  destruct (bound_total b slot token Hr Hrows) as [o ->]; [lia|lia|]. cbn [mbind res_bind].
  apply bind_no_panic; [apply owned_no_panic|]. intros before _. by destruct (bool_decide _).
Qed.
