(* ===== verification/HashChains.v ===== *)
(** * The deposit chain and the registration chain

    Models the native side of the two hash chains that a block may extend
    ([src/src/circuits/validity/deposit_hash_chain/] and
    [channel_reg_hash_chain/]): the record of an on-chain channel registration
    ([common/channel_registration.rs]), the public inputs of both chains with
    their word layout, the steps [DepositStepWitness] and
    [ChannelRegStepWitness] with every check in source order, and the
    processors that prove one step after the other.

    The proof system is plonky2: the class [Plonky2] is what the code reads of
    its proofs and verifier data, and [ChainProvers] the circuits of the two
    chains, which turn a witness with its public inputs into a proof or
    fail. *)

From S2P Require Import Prelude Limbs U63 Circuit MerkleTree LeafTrees Poseidon IndexedTree Keccak Regev BalanceState Account Ledger Balance.

#[local] Remove Hints Leafable_Bytes32 : typeclass_instances.

(** ** Proofs and verifier data *)

Class Plonky2 := {
  Proof : Type;
  public_inputs : Proof -> list Z;
  CommonData : Type;
  CommonData_eq_dec :: EqDecision CommonData;
  cap_elements : CommonData -> nat;
  VerifierCircuitData : Type;
  vd_common : VerifierCircuitData -> CommonData;
  vd_only : VerifierCircuitData -> VerifierData;
  vd_verify : VerifierCircuitData -> Proof -> bool;
  cyclic_check : VerifierCircuitData -> Proof -> bool;
}.

(** [vd_to_vec]: the digest, then the first [cap_len] cap elements. *)
Definition vd_to_vec {E} (cap_len : nat) (vd : VerifierData) : res E (list Z) :=
  cap ← res_mapM (fun i => unwrap (VerifierData.constants_sigmas_cap vd !! i)) (seq 0 cap_len);
  Ok (VerifierData.circuit_digest vd ++ concat cap).

(** [a.is_some() as usize + b.is_some() as usize == 1]. *)
Definition exactly_one {A B} (a : option A) (b : option B) : bool :=
  match a, b with Some _, None | None, Some _ => true | _, _ => false end.

(** ** The deposit chain *)

Module DepositChainPublicInputs.
Record DepositChainPublicInputs {P : Poseidon} := mk {
  initial_deposit_hash_chain : Bytes32;
  initial_deposit_tree_root : PHash;
  initial_deposit_count : U63.U63;
  deposit_hash_chain : Bytes32;
  deposit_tree_root : PHash;
  deposit_count : U63.U63;
  block_number : BlockNumber;
  vd : VerifierData;
}.
#[global] Arguments DepositChainPublicInputs : clear implicits.
#[global] Arguments DepositChainPublicInputs {P}.
#[global] Arguments mk {P}.

Inductive Error := InvalidLength | ParseError.

Definition LEN : nat := 2 * BYTES32_LEN + 2 * POSEIDON_HASH_OUT_LEN + 3.

Section pis.
Context {P : Poseidon} {W : PoseidonWords P}.

Definition to_u64_vec {E} (cap_len : nat) (p : DepositChainPublicInputs) : res E (list Z) :=
  vd_words ← vd_to_vec cap_len (vd p);
  Ok (Limbs.to_u64_vec (initial_deposit_hash_chain p) ++ phash_to_u64_vec (initial_deposit_tree_root p)
        ++ U63.to_u64_vec (initial_deposit_count p) ++ Limbs.to_u64_vec (deposit_hash_chain p)
        ++ phash_to_u64_vec (deposit_tree_root p) ++ U63.to_u64_vec (deposit_count p)
        ++ U63.to_u64_vec (block_number p) ++ vd_words).

Definition from_u64_slice (inputs : list Z) (cap_len : nat) : res Error DepositChainPublicInputs :=
  let vd_len := VerifierData.vec_len cap_len in
  if bool_decide (length inputs <> (LEN + vd_len)%nat) then Err InvalidLength
  else
    initial_deposit_hash_chain ← map_err (fun _ => ParseError) (Limbs.from_u64_slice BYTES32_LEN (slice 0 8 inputs));
    initial_deposit_tree_root ← map_err (fun _ => ParseError) (phash_from_u64_slice (slice 8 12 inputs));
    count_word ← unwrap (inputs !! 12%nat);
    initial_deposit_count ← map_err (fun _ => ParseError) (U63.new count_word);
    deposit_hash_chain ← map_err (fun _ => ParseError) (Limbs.from_u64_slice BYTES32_LEN (slice 13 21 inputs));
    deposit_tree_root ← map_err (fun _ => ParseError) (phash_from_u64_slice (slice 21 25 inputs));
    count_word ← unwrap (inputs !! 25%nat);
    deposit_count ← map_err (fun _ => ParseError) (U63.new count_word);
    number_word ← unwrap (inputs !! 26%nat);
    block_number ← map_err (fun _ => ParseError) (U63.new number_word);
    vd ← map_err (fun _ => ParseError) (VerifierData.from_pis_slice (slice 27 (27 + vd_len) inputs) cap_len);
    Ok (mk initial_deposit_hash_chain initial_deposit_tree_root initial_deposit_count deposit_hash_chain
          deposit_tree_root deposit_count block_number vd).

End pis.
End DepositChainPublicInputs.
Notation DepositChainPublicInputs := DepositChainPublicInputs.DepositChainPublicInputs.

Inductive UpdateDepositTreeError :=
| DepositInvalidInput
| DepositFailedToProve
| DepositMerkleProofError
| DepositPisError (e : DepositChainPublicInputs.Error).

Module DepositStepWitness.
Record DepositStepWitness {P : Poseidon} {PL : Plonky2} := mk {
  initial_value : option (Bytes32 * PHash * U63.U63);
  prev_deposit_chain_proof : option Proof;
  deposit : Deposit;
  deposit_merkle_proof : MerkleProof;
}.
#[global] Arguments DepositStepWitness : clear implicits.
#[global] Arguments DepositStepWitness {P PL}.
#[global] Arguments mk {P PL}.

Section step.
Context {P : Poseidon} {W : PoseidonWords P} {K : Keccak} {PL : Plonky2}.

Definition previous (w : DepositStepWitness) (deposit_chain_vd : VerifierCircuitData)
    : res UpdateDepositTreeError DepositChainPublicInputs :=
  match initial_value w with
  | Some (chain, root, count) =>
      Ok (DepositChainPublicInputs.mk chain root count chain root count
            (Deposit.block_number (deposit w)) (vd_only deposit_chain_vd))
  | None =>
      prev_proof ← unwrap (prev_deposit_chain_proof w);
      prev_pis ← map_err DepositPisError (DepositChainPublicInputs.from_u64_slice (public_inputs prev_proof)
        (cap_elements (vd_common deposit_chain_vd)));
      _ ← ensure (bool_decide (DepositChainPublicInputs.block_number prev_pis = Deposit.block_number (deposit w)))
        DepositInvalidInput;
      Ok prev_pis
  end.

Definition to_public_inputs (w : DepositStepWitness) (deposit_chain_vd : VerifierCircuitData)
    : res UpdateDepositTreeError DepositChainPublicInputs :=
  _ ← ensure (exactly_one (initial_value w) (prev_deposit_chain_proof w)) DepositInvalidInput;
  prev_pis ← previous w deposit_chain_vd;
  let count := DepositChainPublicInputs.deposit_count prev_pis in
  _ ← ensure (U63.as_u64 (Deposit.deposit_index (deposit w)) =? U63.as_u64 count) DepositInvalidInput;
  _ ← map_err (fun _ => DepositMerkleProofError)
    (proof_verify (deposit_merkle_proof w) (empty_leaf (V := Deposit)) (U63.as_u64 count)
       (DepositChainPublicInputs.deposit_tree_root prev_pis));
  new_deposit_tree_root ← proof_get_root (deposit_merkle_proof w) (deposit w) (U63.as_u64 count);
  new_deposit_count ← map_err (fun _ => DepositInvalidInput) (U63.add count 1);
  Ok (DepositChainPublicInputs.mk (DepositChainPublicInputs.initial_deposit_hash_chain prev_pis)
        (DepositChainPublicInputs.initial_deposit_tree_root prev_pis)
        (DepositChainPublicInputs.initial_deposit_count prev_pis)
        (Deposit.hash_with_prev_hash (deposit w) (DepositChainPublicInputs.deposit_hash_chain prev_pis))
        new_deposit_tree_root new_deposit_count (Deposit.block_number (deposit w))
        (DepositChainPublicInputs.vd prev_pis)).

End step.
End DepositStepWitness.
Notation DepositStepWitness := DepositStepWitness.DepositStepWitness.

(** ** Channel registrations *)

Module MemberRegEntry.
Record MemberRegEntry := mk {
  pk_g : Bytes32;
  pk_b : Bytes32;
  regev_pk_digest : Bytes32;
  recipient : Address;
}.

#[global] Instance MemberRegEntry_eq_dec : EqDecision MemberRegEntry.
Proof. solve_decision. Defined.

Definition default : MemberRegEntry := mk bytes32_default bytes32_default bytes32_default address_default.

Definition words (m : MemberRegEntry) : list Z :=
  to_u32_vec (pk_g m) ++ to_u32_vec (pk_b m) ++ to_u32_vec (regev_pk_digest m) ++ to_u32_vec (recipient m).
End MemberRegEntry.
Notation MemberRegEntry := MemberRegEntry.MemberRegEntry.

Inductive ChannelRegRecordError :=
| MemberCountOutOfRange (n : Z)
| DelegateCountNonZero (n : Z)
| ZeroActivePkG (i : nat)
| NonCanonicalPkG (i : nat)
| NonCanonicalPkB (i : nat)
| NonCanonicalRegevPkDigest (i : nat)
| DuplicatePkG (i j : nat)
| NonZeroPaddingSlot (i : nat)
| BpMemberSlotOutOfRange (slot count : Z).

Module ChannelRegRecord.
Record ChannelRegRecord := mk {
  channel_id : ChannelId;
  bp_member_slot : Z;
  member_count : Z;
  delegate_count : Z;
  members : list MemberRegEntry;
}.

#[global] Instance ChannelRegRecord_eq_dec : EqDecision ChannelRegRecord.
Proof. solve_decision. Defined.

(** [PoseidonHashOut::try_from(b).is_ok()]. *)
Definition is_canonical (b : Bytes32) : bool := is_ok (PoseidonHashOut.try_from_bytes32 b).

(** One iteration of the loop over the active members. *)
Definition check_active (r : ChannelRegRecord) (mc : nat) (i : nat) : res ChannelRegRecordError unit :=
  m ← unwrap (members r !! i);
  _ ← ensure (negb (bool_decide (MemberRegEntry.pk_g m = bytes32_default))) (ZeroActivePkG i);
  _ ← ensure (is_canonical (MemberRegEntry.pk_g m)) (NonCanonicalPkG i);
  _ ← ensure (is_canonical (MemberRegEntry.pk_b m)) (NonCanonicalPkB i);
  _ ← ensure (is_canonical (MemberRegEntry.regev_pk_digest m)) (NonCanonicalRegevPkDigest i);
  res_forall (fun j =>
    m' ← unwrap (members r !! j);
    ensure (negb (bool_decide (MemberRegEntry.pk_g m = MemberRegEntry.pk_g m'))) (DuplicatePkG i j))
    (seq (S i) (mc - S i)).

Definition validate (r : ChannelRegRecord) : res ChannelRegRecordError unit :=
  _ ← ensure (negb ((member_count r <? 2) || (MAX_SIG_CLUSTER <? Z.to_nat (member_count r))%nat))
    (MemberCountOutOfRange (member_count r));
  _ ← ensure (delegate_count r =? 0) (DelegateCountNonZero (delegate_count r));
  let mc := Z.to_nat (member_count r) in
  _ ← res_forall (check_active r mc) (seq 0 mc);
  _ ← res_forall (fun i =>
        m ← unwrap (members r !! i);
        ensure (bool_decide (m = MemberRegEntry.default)) (NonZeroPaddingSlot i))
        (seq mc (MAX_SIG_CLUSTER - mc));
  ensure (bp_member_slot r <? member_count r) (BpMemberSlotOutOfRange (bp_member_slot r) (member_count r)).

Definition hash_preimage (r : ChannelRegRecord) (prev_hash : Bytes32) : list Z :=
  to_u32_vec prev_hash ++ ChannelId.to_u32_vec (channel_id r)
    ++ [bp_member_slot r; member_count r; delegate_count r] ++ (members r ≫= MemberRegEntry.words).

Definition hash_with_prev_hash {K : Keccak} (r : ChannelRegRecord) (prev_hash : Bytes32) : Bytes32 :=
  solidity_keccak256 (hash_preimage r prev_hash).
End ChannelRegRecord.
Notation ChannelRegRecord := ChannelRegRecord.ChannelRegRecord.

Section member_root.
Context {P : Poseidon} {W : PoseidonWords P}.

Definition member_leaf_of (m : MemberRegEntry) : MemberLeaf :=
  MemberLeaf.mk (reduce_to_hash_out (MemberRegEntry.pk_g m)) (reduce_to_hash_out (MemberRegEntry.pk_b m))
    (reduce_to_hash_out (MemberRegEntry.regev_pk_digest m)).

(** The registered member tree: the active slots of the record, then empty leaves. *)
Definition member_pubkeys_root_for {E} (r : ChannelRegRecord) : res E PHash :=
  let active := (Z.to_nat (ChannelRegRecord.member_count r) + Z.to_nat (ChannelRegRecord.delegate_count r))%nat in
  tree ← res_foldl (fun tree i =>
      m ← unwrap (ChannelRegRecord.members r !! i);
      Incremental.push tree (member_leaf_of m))
    (Incremental.new (Hs := PoseidonLeafableHasher) MEMBER_TREE_HEIGHT) (seq 0 active);
  Incremental.get_root (Hs := PoseidonLeafableHasher) tree.

End member_root.

(** ** The registration chain *)

Module ChannelRegChainPublicInputs.
Record ChannelRegChainPublicInputs {P : Poseidon} := mk {
  initial_channel_reg_hash_chain : Bytes32;
  initial_channel_tree_root : PHash;
  initial_channel_reg_count : U63.U63;
  channel_reg_hash_chain : Bytes32;
  channel_tree_root : PHash;
  channel_reg_count : U63.U63;
  block_number : BlockNumber;
  vd : VerifierData;
}.
#[global] Arguments ChannelRegChainPublicInputs : clear implicits.
#[global] Arguments ChannelRegChainPublicInputs {P}.
#[global] Arguments mk {P}.

Inductive Error := InvalidLength | ParseError.

Definition LEN : nat := 2 * BYTES32_LEN + 2 * POSEIDON_HASH_OUT_LEN + 3.

Section pis.
Context {P : Poseidon} {W : PoseidonWords P}.

Definition to_u64_vec {E} (cap_len : nat) (p : ChannelRegChainPublicInputs) : res E (list Z) :=
  vd_words ← vd_to_vec cap_len (vd p);
  Ok (Limbs.to_u64_vec (initial_channel_reg_hash_chain p) ++ phash_to_u64_vec (initial_channel_tree_root p)
        ++ U63.to_u64_vec (initial_channel_reg_count p) ++ Limbs.to_u64_vec (channel_reg_hash_chain p)
        ++ phash_to_u64_vec (channel_tree_root p) ++ U63.to_u64_vec (channel_reg_count p)
        ++ U63.to_u64_vec (block_number p) ++ vd_words).

Definition from_u64_slice (inputs : list Z) (cap_len : nat) : res Error ChannelRegChainPublicInputs :=
  let vd_len := VerifierData.vec_len cap_len in
  if bool_decide (length inputs <> (LEN + vd_len)%nat) then Err InvalidLength
  else
    initial_channel_reg_hash_chain ← map_err (fun _ => ParseError) (Limbs.from_u64_slice BYTES32_LEN (slice 0 8 inputs));
    initial_channel_tree_root ← map_err (fun _ => ParseError) (phash_from_u64_slice (slice 8 12 inputs));
    count_word ← unwrap (inputs !! 12%nat);
    initial_channel_reg_count ← map_err (fun _ => ParseError) (U63.new count_word);
    channel_reg_hash_chain ← map_err (fun _ => ParseError) (Limbs.from_u64_slice BYTES32_LEN (slice 13 21 inputs));
    channel_tree_root ← map_err (fun _ => ParseError) (phash_from_u64_slice (slice 21 25 inputs));
    count_word ← unwrap (inputs !! 25%nat);
    channel_reg_count ← map_err (fun _ => ParseError) (U63.new count_word);
    number_word ← unwrap (inputs !! 26%nat);
    block_number ← map_err (fun _ => ParseError) (U63.new number_word);
    vd ← map_err (fun _ => ParseError) (VerifierData.from_pis_slice (slice 27 (27 + vd_len) inputs) cap_len);
    Ok (mk initial_channel_reg_hash_chain initial_channel_tree_root initial_channel_reg_count
          channel_reg_hash_chain channel_tree_root channel_reg_count block_number vd).

End pis.
End ChannelRegChainPublicInputs.
Notation ChannelRegChainPublicInputs := ChannelRegChainPublicInputs.ChannelRegChainPublicInputs.

Inductive ChannelRegStepError :=
| RegInvalidInput
| RegFailedToProve
| RegMerkleProofError
| RegRecordError (e : ChannelRegRecordError)
| RegPisError (e : ChannelRegChainPublicInputs.Error).

Module ChannelRegStepWitness.
Record ChannelRegStepWitness {P : Poseidon} {PL : Plonky2} := mk {
  initial_value : option (Bytes32 * PHash * U63.U63);
  prev_channel_reg_chain_proof : option Proof;
  record : ChannelRegRecord;
  channel_merkle_proof : MerkleProof;
  block_number : BlockNumber;
}.
#[global] Arguments ChannelRegStepWitness : clear implicits.
#[global] Arguments ChannelRegStepWitness {P PL}.
#[global] Arguments mk {P PL}.

Section step.
Context {P : Poseidon} {W : PoseidonWords P} {K : Keccak} {PL : Plonky2}.

Definition previous (w : ChannelRegStepWitness) (channel_reg_chain_vd : VerifierCircuitData)
    : res ChannelRegStepError ChannelRegChainPublicInputs :=
  match initial_value w with
  | Some (chain, root, count) =>
      Ok (ChannelRegChainPublicInputs.mk chain root count chain root count (block_number w)
            (vd_only channel_reg_chain_vd))
  | None =>
      prev_proof ← unwrap (prev_channel_reg_chain_proof w);
      prev_pis ← map_err RegPisError (ChannelRegChainPublicInputs.from_u64_slice (public_inputs prev_proof)
        (cap_elements (vd_common channel_reg_chain_vd)));
      _ ← ensure (bool_decide (ChannelRegChainPublicInputs.block_number prev_pis = block_number w)) RegInvalidInput;
      Ok prev_pis
  end.

Definition to_public_inputs_unchecked (w : ChannelRegStepWitness) (channel_reg_chain_vd : VerifierCircuitData)
    : res ChannelRegStepError ChannelRegChainPublicInputs :=
  _ ← ensure (exactly_one (initial_value w) (prev_channel_reg_chain_proof w)) RegInvalidInput;
  prev_pis ← previous w channel_reg_chain_vd;
  let channel_index := ChannelRegRecord.channel_id (record w) in
  _ ← map_err (fun _ => RegMerkleProofError)
    (proof_verify (channel_merkle_proof w) ChannelLeaf.default channel_index
       (ChannelRegChainPublicInputs.channel_tree_root prev_pis));
  member_pubkeys_root ← member_pubkeys_root_for (record w);
  let new_leaf := ChannelLeaf.mk 0 block_number_default (ChannelLeaf.send_tree_root ChannelLeaf.default)
    member_pubkeys_root in
  new_channel_tree_root ← proof_get_root (channel_merkle_proof w) new_leaf channel_index;
  new_channel_reg_count ← map_err (fun _ => RegInvalidInput)
    (U63.add (ChannelRegChainPublicInputs.channel_reg_count prev_pis) 1);
  Ok (ChannelRegChainPublicInputs.mk (ChannelRegChainPublicInputs.initial_channel_reg_hash_chain prev_pis)
        (ChannelRegChainPublicInputs.initial_channel_tree_root prev_pis)
        (ChannelRegChainPublicInputs.initial_channel_reg_count prev_pis)
        (ChannelRegRecord.hash_with_prev_hash (record w)
           (ChannelRegChainPublicInputs.channel_reg_hash_chain prev_pis))
        new_channel_tree_root new_channel_reg_count (block_number w) (ChannelRegChainPublicInputs.vd prev_pis)).

Definition to_public_inputs (w : ChannelRegStepWitness) (channel_reg_chain_vd : VerifierCircuitData)
    : res ChannelRegStepError ChannelRegChainPublicInputs :=
  _ ← map_err RegRecordError (ChannelRegRecord.validate (record w));
  to_public_inputs_unchecked w channel_reg_chain_vd.

End step.
End ChannelRegStepWitness.
Notation ChannelRegStepWitness := ChannelRegStepWitness.ChannelRegStepWitness.

(** ** The processors *)

(** The circuits of the two chains: their verifier data, and [data.prove]. *)
Class ChainProvers {P : Poseidon} {PL : Plonky2} := {
  deposit_chain_vd : VerifierCircuitData;
  deposit_step_data_prove : DepositStepWitness -> DepositChainPublicInputs -> option Proof;
  deposit_chain_data_prove : Proof -> option Proof;
  channel_reg_chain_vd : VerifierCircuitData;
  channel_reg_step_data_prove : ChannelRegStepWitness -> ChannelRegChainPublicInputs -> option Proof;
  channel_reg_chain_data_prove : Proof -> option Proof;
}.

(** A proof exposes the public inputs it was made for, and the outer circuit of a chain forwards
    those of the step. *)
Class ChainProversOk {P : Poseidon} {W : PoseidonWords P} {PL : Plonky2} (CP : ChainProvers) : Prop := {
  deposit_step_exposes w pis p : deposit_step_data_prove w pis = Some p ->
    DepositChainPublicInputs.from_u64_slice (public_inputs p) (cap_elements (vd_common deposit_chain_vd)) = Ok pis;
  deposit_chain_forwards p q : deposit_chain_data_prove p = Some q -> public_inputs q = public_inputs p;
  channel_reg_step_exposes w pis p : channel_reg_step_data_prove w pis = Some p ->
    ChannelRegChainPublicInputs.from_u64_slice (public_inputs p) (cap_elements (vd_common channel_reg_chain_vd)) = Ok pis;
  channel_reg_chain_forwards p q : channel_reg_chain_data_prove p = Some q -> public_inputs q = public_inputs p;
}.

Inductive DepositChainProcessorError := DepositStepFailed (e : UpdateDepositTreeError) | DepositChainFailed.
Inductive ChannelRegChainProcessorError := RegStepFailed (e : ChannelRegStepError) | RegChainFailed.

Section processors.
Context {P : Poseidon} {W : PoseidonWords P} {K : Keccak} {PL : Plonky2} {CP : ChainProvers}.

(** [DepositStepCircuit::prove], then [DepositHashChainCircuit::prove]. *)
Definition deposit_prove_step (w : DepositStepWitness) : res DepositChainProcessorError Proof :=
  step_proof ← map_err DepositStepFailed
    (new_pis ← DepositStepWitness.to_public_inputs w deposit_chain_vd;
     ok_or (deposit_step_data_prove w new_pis) DepositFailedToProve);
  ok_or (deposit_chain_data_prove step_proof) DepositChainFailed.

(** [ChannelRegStepCircuit::prove], then [ChannelRegHashChainCircuit::prove]. *)
Definition channel_reg_prove_step (w : ChannelRegStepWitness) : res ChannelRegChainProcessorError Proof :=
  step_proof ← map_err RegStepFailed
    (new_pis ← ChannelRegStepWitness.to_public_inputs w channel_reg_chain_vd;
     ok_or (channel_reg_step_data_prove w new_pis) RegFailedToProve);
  ok_or (channel_reg_chain_data_prove step_proof) RegChainFailed.

End processors.
