(* ===== verification/BlockStep.v ===== *)
(** * Validity: one block at a time

    Models the native side of
    [src/src/circuits/validity/block_hash_chain/]: the message every member of
    a channel signs for a block ([channel_state_message.rs],
    [small_block_message.rs]) and the statement about the signatures that is
    folded into a chain ([falcon_sig/agg_list.rs], [poseidon_sig/list.rs]),
    and the update of the channel tree ([update_channel_tree.rs]). *)

From S2P Require Import Prelude Limbs U63 Circuit MerkleTree LeafTrees Poseidon IndexedTree Keccak Regev BalanceState Account Ledger Balance Channel HashChains.

#[local] Remove Hints Leafable_Bytes32 : typeclass_instances.

(** [PoseidonHashOut::try_from(value)]. *)
Definition phash_try_from_bytes32 {P : Poseidon} {W : PoseidonWords P} (value : Bytes32)
    : res PoseidonHashOut.PoseidonHashOutError PHash :=
  match PoseidonHashOut.position_noncanonical 0 (PoseidonHashOut.pair_words (limbs value)) with
  | Some i => Err (PoseidonHashOut.NonCanonicalElement i)
  | None =>
      recovered ← phash_into_bytes32 (reduce_to_hash_out value);
      if bool_decide (value <> recovered) then Err PoseidonHashOut.RecoveryFailed
      else Ok (reduce_to_hash_out value)
  end.

(** ** Statements about signatures *)

Definition AGG_LIST_LEAF_DOMAIN : Z := 0x494d414c.
Definition AGG_PK_LIST_DOMAIN : Z := 0x494d504c.
Definition LIST_LEAF_DOMAIN : Z := 0x494d4c4c.
Definition AGG_PK_LIST_LIMBS : nat := MAX_SIG_CLUSTER * BYTES32_LEN.

Section statements.
Context {P : Poseidon}.

Definition agg_pk_list_digest {E} (signer_pks : list Bytes32) : res E PHash :=
  _ ← assert_that (length signer_pks <=? MAX_SIG_CLUSTER)%nat;
  Ok (hash_inputs_u64 (resize_with (1 + AGG_PK_LIST_LIMBS) 0
        ([AGG_PK_LIST_DOMAIN] ++ (signer_pks ≫= to_u32_vec)))).

Definition agg_list_leaf (message : Bytes32) (signer_count : Z) (pk_list_digest : PHash) : PHash :=
  hash_inputs_u64 ([AGG_LIST_LEAF_DOMAIN] ++ to_u32_vec message ++ [signer_count]
    ++ phash_to_u64_vec pk_list_digest).

Definition list_chain_step (prev leaf : PHash) : PHash :=
  hash_inputs_u64 (phash_to_u64_vec prev ++ phash_to_u64_vec leaf).

Definition list_leaf (message public_key : Bytes32) : PHash :=
  hash_inputs_u64 ([LIST_LEAF_DOMAIN] ++ to_u32_vec message ++ to_u32_vec public_key).

Definition list_commitment {E} (pairs : list (Bytes32 * Bytes32)) : res E Bytes32 :=
  phash_into_bytes32 (foldl (fun chain e => list_chain_step chain (list_leaf e.1 e.2)) phash_default pairs).

End statements.

Inductive AggListError := AggInvalid.

Module AggListEntry.
Record AggListEntry := mk { message : Bytes32; signer_pks : list Bytes32 }.

Definition FALCON_AGG_PUBLIC_INPUTS_LEN : nat := BYTES32_LEN + 1 + MAX_SIG_CLUSTER * BYTES32_LEN.

Definition leaf {P : Poseidon} {E} (e : AggListEntry) : res E PHash :=
  digest ← agg_pk_list_digest (signer_pks e);
  Ok (agg_list_leaf (message e) (Z.of_nat (length (signer_pks e))) digest).

Definition limb (v : Z) : res AggListError Z :=
  _ ← ensure (v <? 2 ^ 32) AggInvalid; Ok v.

Definition bytes32_of (words : list Z) : res AggListError Bytes32 :=
  words ← res_mapM limb words;
  map_err (fun _ => AggInvalid) (from_u32_slice BYTES32_LEN words).

(** Slot [slot] of the key list: collected below [count], required to be zero from there on. *)
Definition read_slot (pis : list Z) (count : nat) (pks : list Bytes32) (slot : nat)
    : res AggListError (list Bytes32) :=
  let start := (BYTES32_LEN + 1 + slot * BYTES32_LEN)%nat in
  pk ← bytes32_of (slice start (start + BYTES32_LEN) pis);
  if (slot <? count)%nat then Ok (pks ++ [pk])
  else _ ← ensure (bool_decide (pk = bytes32_default)) AggInvalid; Ok pks.

Definition from_agg_public_inputs (pis : list Z) : res AggListError AggListEntry :=
  _ ← ensure (length pis =? FALCON_AGG_PUBLIC_INPUTS_LEN)%nat AggInvalid;
  message ← bytes32_of (slice 0 BYTES32_LEN pis);
  count ← unwrap (pis !! BYTES32_LEN);
  _ ← ensure ((1 <=? count) && (count <=? Z.of_nat MAX_SIG_CLUSTER)) AggInvalid;
  signer_pks ← res_foldl (read_slot pis (Z.to_nat count)) [] (seq 0 MAX_SIG_CLUSTER);
  Ok (mk message signer_pks).
End AggListEntry.
Notation AggListEntry := AggListEntry.AggListEntry.

Definition agg_list_commitment {P : Poseidon} {E} (entries : list AggListEntry) : res E Bytes32 :=
  chain ← res_foldl (fun chain e => leaf ← AggListEntry.leaf e; Ok (list_chain_step chain leaf))
    phash_default entries;
  phash_into_bytes32 chain.

(** ** Signed messages *)

Module ChannelStateMessageFields.
Record ChannelStateMessageFields := mk {
  epoch : Z;
  small_block_number : Z;
  close_freeze_nonce : Z;
  fund_amounts : list U256;
  fund_intmax_state_root : Bytes32;
  balance_state_h1 : Bytes32;
  shared_native_nullifier_root : Bytes32;
  unallocated_confirmed_incoming : U256;
  prev_digest : Bytes32;
  state_version : Z;
}.

Definition default : ChannelStateMessageFields :=
  mk 0 0 0 (replicate MAX_CHANNEL_TOKENS u256_zero) bytes32_default bytes32_default bytes32_default u256_zero
    bytes32_default 0.

Definition CHANNEL_STATE_PREIMAGE_U32_LEN : nat := 139.
Definition CHANNEL_ID_LIMB : nat := 1.
Definition FUND_CHANNEL_ID_LIMB : nat := 8.
Definition H2_TAG_LIMBS : nat * nat := (129, 137)%nat.

Definition preimage (f : ChannelStateMessageFields) (channel_id : Z) (h2_tag : Bytes32) : list Z :=
  [CHANNEL_STATE_DOMAIN] ++ [channel_id] ++ split_u64 (epoch f) ++ split_u64 (small_block_number f)
    ++ split_u64 (close_freeze_nonce f) ++ [channel_id] ++ (fund_amounts f ≫= to_u32_vec)
    ++ to_u32_vec (fund_intmax_state_root f) ++ to_u32_vec (balance_state_h1 f)
    ++ to_u32_vec (shared_native_nullifier_root f) ++ to_u32_vec (unallocated_confirmed_incoming f)
    ++ to_u32_vec (prev_digest f) ++ to_u32_vec h2_tag ++ split_u64 (state_version f).

Definition signing_digest {K : Keccak} (f : ChannelStateMessageFields) (channel_id : Z) (h2_tag : Bytes32)
    : Bytes32 :=
  hash_words (preimage f channel_id h2_tag).

Definition from_channel_state {K : Keccak} {P : Poseidon} {E} (s : ChannelState)
    : res E ChannelStateMessageFields :=
  h1 ← BalanceState.h1 (ChannelState.balance_state s);
  Ok (mk (ChannelState.epoch s) (ChannelState.small_block_number s) (ChannelState.close_freeze_nonce s)
        (ChannelFund.amounts (ChannelState.channel_fund s))
        (ChannelFund.intmax_state_root (ChannelState.channel_fund s)) h1
        (ChannelState.shared_native_nullifier_root s) (ChannelState.unallocated_confirmed_incoming s)
        (ChannelState.prev_digest s) (BalanceState.state_version (ChannelState.balance_state s))).
End ChannelStateMessageFields.
Notation ChannelStateMessageFields := ChannelStateMessageFields.ChannelStateMessageFields.

Module SmallBlockMessageFields.
Record SmallBlockMessageFields := mk {
  bp_member_slot : Z;
  bp_pk_g : Bytes32;
  small_block_number : Z;
  prev_small_block_root : Bytes32;
  state_commitment_root : Bytes32;
  medium_epoch_hint : Z;
  close_freeze_nonce : Z;
}.

Definition signing_digest {K : Keccak} (f : SmallBlockMessageFields) (channel_id : Z) (tx_tree_root : Bytes32)
    : Bytes32 :=
  hash_words ([SMALL_BLOCK_DOMAIN; channel_id; bp_member_slot f] ++ to_u32_vec (bp_pk_g f)
    ++ split_u64 (small_block_number f) ++ to_u32_vec (prev_small_block_root f) ++ to_u32_vec tx_tree_root
    ++ to_u32_vec (state_commitment_root f) ++ split_u64 (medium_epoch_hint f)
    ++ split_u64 (close_freeze_nonce f)).
End SmallBlockMessageFields.
Notation SmallBlockMessageFields := SmallBlockMessageFields.SmallBlockMessageFields.

(** ** The update of the channel tree *)

Inductive UpdateUserTreeError :=
| UpdateInvalidLength
| UpdateBlockError (e : BlockError)
| UpdateUserIdError (e : ChannelId.ChannelIdError)
| UpdateMerkleProofError.

Module UpdateUserPublicInputs.
Record UpdateUserPublicInputs {P : Poseidon} := mk {
  block_number : BlockNumber;
  block_timestamp : Z;
  prev_block_hash_chain : Bytes32;
  prev_account_tree_root : PHash;
  new_block_hash_chain : Bytes32;
  new_account_tree_root : PHash;
  deposit_hash_chain : Bytes32;
  channel_reg_hash_chain : Bytes32;
  prev_bp_sig_chain : Bytes32;
  new_bp_sig_chain : Bytes32;
}.
#[global] Arguments UpdateUserPublicInputs : clear implicits.
#[global] Arguments UpdateUserPublicInputs {P}.
#[global] Arguments mk {P}.

Definition LEN : nat := 1 + U64_LEN + 6 * BYTES32_LEN + 2 * POSEIDON_HASH_OUT_LEN.

Section pis.
Context {P : Poseidon} {W : PoseidonWords P}.

Definition to_u64_vec (p : UpdateUserPublicInputs) : list Z :=
  [U63.as_u64 (block_number p)] ++ split_u64 (block_timestamp p) ++ Limbs.to_u64_vec (prev_block_hash_chain p)
    ++ phash_to_u64_vec (prev_account_tree_root p) ++ Limbs.to_u64_vec (new_block_hash_chain p)
    ++ phash_to_u64_vec (new_account_tree_root p) ++ Limbs.to_u64_vec (deposit_hash_chain p)
    ++ Limbs.to_u64_vec (channel_reg_hash_chain p) ++ Limbs.to_u64_vec (prev_bp_sig_chain p)
    ++ Limbs.to_u64_vec (new_bp_sig_chain p).

Definition commitment (p : UpdateUserPublicInputs) : PHash := hash_inputs_u64 (to_u64_vec p).

Definition from_u64_slice (values : list Z) : res UpdateUserTreeError UpdateUserPublicInputs :=
  if bool_decide (length values <> LEN) then Err UpdateInvalidLength
  else
    number_word ← unwrap (values !! 0%nat);
    block_number ← map_err (fun _ => UpdateInvalidLength) (U63.new number_word);
    block_timestamp ← map_err (fun _ => UpdateInvalidLength) (Limbs.from_u64_slice U64_LEN (slice 1 3 values));
    prev_block_hash_chain ← map_err (fun _ => UpdateInvalidLength) (Limbs.from_u64_slice BYTES32_LEN (slice 3 11 values));
    prev_account_tree_root ← map_err (fun _ => UpdateMerkleProofError) (phash_from_u64_slice (slice 11 15 values));
    new_block_hash_chain ← map_err (fun _ => UpdateInvalidLength) (Limbs.from_u64_slice BYTES32_LEN (slice 15 23 values));
    new_account_tree_root ← map_err (fun _ => UpdateMerkleProofError) (phash_from_u64_slice (slice 23 27 values));
    deposit_hash_chain ← map_err (fun _ => UpdateInvalidLength) (Limbs.from_u64_slice BYTES32_LEN (slice 27 35 values));
    channel_reg_hash_chain ← map_err (fun _ => UpdateInvalidLength) (Limbs.from_u64_slice BYTES32_LEN (slice 35 43 values));
    prev_bp_sig_chain ← map_err (fun _ => UpdateInvalidLength) (Limbs.from_u64_slice BYTES32_LEN (slice 43 51 values));
    new_bp_sig_chain ← map_err (fun _ => UpdateInvalidLength) (Limbs.from_u64_slice BYTES32_LEN (slice 51 59 values));
    Ok (mk block_number (U64.to_u64 block_timestamp) prev_block_hash_chain prev_account_tree_root
          new_block_hash_chain new_account_tree_root deposit_hash_chain channel_reg_hash_chain
          prev_bp_sig_chain new_bp_sig_chain).

End pis.
End UpdateUserPublicInputs.
Notation UpdateUserPublicInputs := UpdateUserPublicInputs.UpdateUserPublicInputs.

(** Membership cannot change in place: the registered root is kept. *)
Definition channel_leaf_member_root {P : Poseidon} (_tx_v2 : TxV2) (_channel_action : option ChannelAction)
    (_new_member_leaves : list MemberLeaf) (prev_member_pubkeys_root : PHash) : PHash :=
  prev_member_pubkeys_root.

#[export] Instance MemberLeaf_eq_dec {P : Poseidon} : EqDecision MemberLeaf.
Proof. solve_decision. Defined.

(** [if strict { m? }]. *)
Definition when {E} (b : bool) (m : res E unit) : res E unit := if b then m else Ok tt.

Module UpdateUserTree.
Record UpdateUserTree {P : Poseidon} := mk {
  prev_block_hash_chain : Bytes32;
  prev_account_tree_root : PHash;
  block_number : BlockNumber;
  block : Block;
  prev_account_leaves : list ChannelLeaf;
  user_merkle_proofs : list MerkleProof;
  send_merkle_proofs : list MerkleProof;
  prev_bp_sig_chain : Bytes32;
  member_leaves : list MemberLeaf;
  new_member_leaves : list MemberLeaf;
  signer_count : Z;
  member_regev_pks : list RegevPk;
  channel_state_fields : ChannelStateMessageFields;
  tx_v2_indices : list Z;
  tx_v2s : list TxV2;
  tx_v2_merkle_proofs : list MerkleProof;
  channel_action_indices : list Z;
  channel_actions : list ChannelAction;
  channel_action_merkle_proofs : list MerkleProof;
}.
#[global] Arguments UpdateUserTree : clear implicits.
#[global] Arguments UpdateUserTree {P}.
#[global] Arguments mk {P}.

Section update.
Context {P : Poseidon} {W : PoseidonWords P} {K : Keccak}.

(** One member slot: empty from [signer_count] on, occupied below it. *)
Definition check_member_slot (signer_count : nat) (e : nat * MemberLeaf) : res UpdateUserTreeError unit :=
  let is_signer := (e.1 <? signer_count)%nat in
  _ ← ensure (negb (negb is_signer && negb (bool_decide (e.2 = empty_leaf)))) UpdateInvalidLength;
  ensure (negb (is_signer && bool_decide (MemberLeaf.pk_g e.2 = phash_default))) UpdateInvalidLength.

Definition check_n_of_n_witness (w : UpdateUserTree) (i : nat) (prev_user_leaf : ChannelLeaf)
    : res UpdateUserTreeError unit :=
  _ ← ensure (negb (bool_decide (Block.tx_tree_root (block w) = bytes32_default))) UpdateInvalidLength;
  _ ← ensure (i <? MAX_SIG_CLUSTER)%nat UpdateInvalidLength;
  _ ← ensure ((2 <=? signer_count w) && (signer_count w <=? Z.of_nat MAX_SIG_CLUSTER)) UpdateInvalidLength;
  let signers := Z.to_nat (signer_count w) in
  _ ← res_forall (check_member_slot signers) (imap pair (member_leaves w));
  _ ← ensure (i <? signers)%nat UpdateInvalidLength;
  tree ← res_foldl Incremental.push (Incremental.new (Hs := PoseidonLeafableHasher) MEMBER_TREE_HEIGHT)
    (member_leaves w);
  root ← Incremental.get_root tree;
  _ ← ensure (bool_decide (root = ChannelLeaf.member_pubkeys_root prev_user_leaf)) UpdateMerkleProofError;
  regev_pk ← unwrap (member_regev_pks w !! i);
  digest ← Pk.poseidon_digest regev_pk;
  member_leaf ← unwrap (member_leaves w !! i);
  ensure (bool_decide (digest = MemberLeaf.regev_pk_digest member_leaf)) UpdateMerkleProofError.

(** The nonce rule: the channel's own leaf of the block's transaction tree carries the send index. *)
Definition check_tx (channel_id : ChannelId) (block_tx_root : PHash) (prev_user_leaf : ChannelLeaf)
    (tx_v2 : TxV2) (tx_v2_proof : MerkleProof) (tx_v2_index : Z) : res UpdateUserTreeError unit :=
  _ ← ensure (tx_v2_index =? channel_id) UpdateInvalidLength;
  _ ← map_err (fun _ => UpdateMerkleProofError) (proof_verify tx_v2_proof tx_v2 tx_v2_index block_tx_root);
  ensure (TxV2.nonce tx_v2 =? ChannelLeaf.index prev_user_leaf) UpdateInvalidLength.

Definition check_tx_class (w : UpdateUserTree) (i : nat) (channel_id : ChannelId) (tx_v2 : TxV2)
    : res UpdateUserTreeError unit :=
  match TxV2.tx_class tx_v2 with
  | UserTransfer => ensure (bool_decide (TxV2.channel_action_root tx_v2 = phash_default)) UpdateInvalidLength
  | ChannelActionClass =>
      _ ← ensure (bool_decide (TxV2.transfer_tree_root tx_v2 = phash_default)) UpdateInvalidLength;
      channel_action ← unwrap (channel_actions w !! i);
      channel_action_proof ← unwrap (channel_action_merkle_proofs w !! i);
      channel_action_index ← unwrap (channel_action_indices w !! i);
      _ ← map_err (fun _ => UpdateMerkleProofError)
        (proof_verify channel_action_proof channel_action channel_action_index (TxV2.channel_action_root tx_v2));
      _ ← ensure (ChannelAction.source_channel_id channel_action =? channel_id) UpdateInvalidLength;
      match ChannelAction.kind channel_action with
      | Ledger.InterChannelSend | Ledger.ChannelClose => Ok tt
      | MemberSetUpdate => Err UpdateInvalidLength
      end
  end.

(** The body of the loop over the key ids, on the account root and the signature chain. *)
Definition update_slot (w : UpdateUserTree) (strict : bool) (sig_leaf : PHash) (acc : PHash * Bytes32)
    (e : nat * Z) : res UpdateUserTreeError (PHash * Bytes32) :=
  let i := e.1 in
  if e.2 =? 0 then Ok acc
  else
    channel_id ← map_err UpdateUserIdError (ChannelId.new (Block.channel_id (block w)));
    prev_user_leaf ← unwrap (prev_account_leaves w !! i);
    user_merkle_proof ← unwrap (user_merkle_proofs w !! i);
    send_merkle_proof ← unwrap (send_merkle_proofs w !! i);
    _ ← when strict (map_err (fun _ => UpdateMerkleProofError)
          (proof_verify user_merkle_proof prev_user_leaf channel_id acc.1));
    if bool_decide (ChannelLeaf.prev prev_user_leaf = block_number w) then Ok acc
    else
      _ ← when strict (check_n_of_n_witness w i prev_user_leaf);
      prev_chain ← map_err (fun _ => UpdateInvalidLength) (phash_try_from_bytes32 acc.2);
      bp_sig_chain ← phash_into_bytes32 (list_chain_step prev_chain sig_leaf);
      tx_v2 ← unwrap (tx_v2s w !! i);
      tx_v2_proof ← unwrap (tx_v2_merkle_proofs w !! i);
      tx_v2_index ← unwrap (tx_v2_indices w !! i);
      _ ← when strict (check_tx channel_id (reduce_to_hash_out (Block.tx_tree_root (block w))) prev_user_leaf
            tx_v2 tx_v2_proof tx_v2_index);
      _ ← when strict (check_tx_class w i channel_id tx_v2);
      let member_root_for_leaf := channel_leaf_member_root tx_v2 (channel_actions w !! i) (new_member_leaves w)
        (ChannelLeaf.member_pubkeys_root prev_user_leaf) in
      _ ← when strict (map_err (fun _ => UpdateMerkleProofError)
            (proof_verify send_merkle_proof (empty_leaf (V := SendLeaf)) (ChannelLeaf.index prev_user_leaf)
               (ChannelLeaf.send_tree_root prev_user_leaf)));
      let new_send_leaf := SendLeaf.mk (ChannelLeaf.prev prev_user_leaf) (block_number w)
        (Block.tx_tree_root (block w)) in
      new_send_tree_root ← proof_get_root send_merkle_proof new_send_leaf (ChannelLeaf.index prev_user_leaf);
      let new_user_leaf := ChannelLeaf.mk (wrap 32 (ChannelLeaf.index prev_user_leaf + 1)) (block_number w)
        new_send_tree_root member_root_for_leaf in
      account_tree_root ← proof_get_root user_merkle_proof new_user_leaf channel_id;
      Ok (account_tree_root, bp_sig_chain).

Definition lengths_match (w : UpdateUserTree) : bool :=
  let n := Z.to_nat (Block.num_users (block w)) in
  (length (prev_account_leaves w) =? n)%nat && (length (user_merkle_proofs w) =? n)%nat
    && (length (send_merkle_proofs w) =? n)%nat && (length (member_regev_pks w) =? n)%nat
    && (length (tx_v2_indices w) =? n)%nat && (length (tx_v2s w) =? n)%nat
    && (length (tx_v2_merkle_proofs w) =? n)%nat && (length (channel_action_indices w) =? n)%nat
    && (length (channel_actions w) =? n)%nat && (length (channel_action_merkle_proofs w) =? n)%nat.

(** The statement of the block: all member slots, padding included. *)
Definition block_statement {E} (w : UpdateUserTree) : res E PHash :=
  signer_pks ← res_mapM (fun leaf => phash_into_bytes32 (MemberLeaf.pk_g leaf)) (member_leaves w);
  pk_list_digest ← agg_pk_list_digest signer_pks;
  Ok (agg_list_leaf (ChannelStateMessageFields.signing_digest (channel_state_fields w)
        (Block.channel_id (block w)) (Block.tx_tree_root (block w))) (signer_count w) pk_list_digest).

Definition compute_public_inputs (w : UpdateUserTree) (strict : bool)
    : res UpdateUserTreeError UpdateUserPublicInputs :=
  _ ← ensure (lengths_match w) UpdateInvalidLength;
  new_block_hash_chain ← map_err UpdateBlockError
    (Block.hash_with_prev_hash (block w) (prev_block_hash_chain w));
  _ ← ensure (length (member_leaves w) =? MAX_SIG_CLUSTER)%nat UpdateInvalidLength;
  _ ← ensure (negb (strict && negb (bool_decide (length (new_member_leaves w) = 0%nat)))) UpdateInvalidLength;
  sig_leaf ← block_statement w;
  acc ← res_foldl (update_slot w strict sig_leaf) (prev_account_tree_root w, prev_bp_sig_chain w)
    (imap pair (Block.key_ids (block w)));
  Ok (UpdateUserPublicInputs.mk (block_number w) (Block.timestamp (block w)) (prev_block_hash_chain w)
        (prev_account_tree_root w) new_block_hash_chain acc.1 (Block.deposit_hash_chain (block w))
        (Block.channel_reg_hash_chain (block w)) (prev_bp_sig_chain w) acc.2).

Definition to_public_inputs (w : UpdateUserTree) : res UpdateUserTreeError UpdateUserPublicInputs :=
  compute_public_inputs w true.

End update.
End UpdateUserTree.
Notation UpdateUserTree := UpdateUserTree.UpdateUserTree.
