(* ===== verification/CloseFunding.v ===== *)
(** * Close funding

    Models [src/src/close_funding.rs]: the terminal child of a channel state
    whose transaction pays the whole fund vector of the channel to its
    settlement manager, and the check that rebuilds it. *)

From S2P Require Import Prelude Limbs U63 Circuit MerkleTree LeafTrees Poseidon IndexedTree Keccak Regev BalanceState Account Ledger Balance Channel HashChains BlockStep.

#[local] Remove Hints Leafable_Bytes32 : typeclass_instances.

Definition CLOSE_FUNDING_DOMAIN : Z := 0x494d4346.
Definition CLOSE_FUNDING_PLAN_DOMAIN : Z := 0x494d4650.

Inductive Counter := CloseFreezeNonce | Epoch | SmallBlockNumber | StateVersion.

Inductive CloseFundingError := CloseFundingInvalid | CounterOverflow (counter : Counter).

Module CloseFundingPlan.
Record CloseFundingPlan {P : Poseidon} := mk {
  chain_id : Z;
  rollup : Address;
  manager : Address;
  source_channel_id : ChannelId;
  close_freeze_nonce : Z;
  base_nonce : Z;
  token_funds_digest : Bytes32;
  funding_aux_data : Bytes32;
  transfers : list Transfer;
  tx_v2 : TxV2;
  tx_tree_root : Bytes32;
  tx_v2_merkle_proof : MerkleProof;
  plan_digest : Bytes32;
}.
#[global] Arguments CloseFundingPlan : clear implicits.
#[global] Arguments CloseFundingPlan {P}.
#[global] Arguments mk {P}.
End CloseFundingPlan.
Notation CloseFundingPlan := CloseFundingPlan.CloseFundingPlan.

Module CloseFundingProposal.
Record CloseFundingProposal {P : Poseidon} := mk { plan : CloseFundingPlan; proposed_state : ChannelState }.
#[global] Arguments CloseFundingProposal : clear implicits.
#[global] Arguments CloseFundingProposal {P}.
#[global] Arguments mk {P}.
End CloseFundingProposal.
Notation CloseFundingProposal := CloseFundingProposal.CloseFundingProposal.

(** [checked_add(1).ok_or(CounterOverflow(..))] on a [u64]. *)
Definition next_counter (counter : Counter) (value : Z) : res CloseFundingError Z :=
  ok_or (checked_add 64 value 1) (CounterOverflow counter).

Section digests.
Context {K : Keccak}.

Definition close_funding_words (chain_id : U256) (rollup manager : Address) (channel_id : ChannelId) (close_freeze_nonce : Z)
    (funds_digest : Bytes32) : list Z :=
  [CLOSE_FUNDING_DOMAIN] ++ to_u32_vec chain_id ++ to_u32_vec rollup ++ to_u32_vec manager ++ ChannelId.to_u32_vec channel_id
    ++ split_u64 close_freeze_nonce ++ to_u32_vec funds_digest.

Definition close_funding_aux_data {E} (chain_id : Z) (rollup manager : Address) (channel_id : ChannelId) (close_freeze_nonce : Z)
    (funds_digest : Bytes32) : res E Bytes32 :=
  chain_id ← U256.from_u64 chain_id;
  Ok (solidity_keccak256 (close_funding_words chain_id rollup manager channel_id close_freeze_nonce funds_digest)).

Definition close_funding_plan_words (chain_id : U256) (rollup manager : Address) (channel_id : ChannelId) (close_freeze_nonce base_nonce : Z)
    (funds_digest tx_tree_root : Bytes32) : list Z :=
  [CLOSE_FUNDING_PLAN_DOMAIN] ++ to_u32_vec chain_id ++ to_u32_vec rollup ++ to_u32_vec manager ++ ChannelId.to_u32_vec channel_id
    ++ split_u64 close_freeze_nonce ++ [base_nonce] ++ to_u32_vec funds_digest ++ to_u32_vec tx_tree_root.

Definition close_funding_plan_digest {E} (chain_id : Z) (rollup manager : Address) (channel_id : ChannelId) (close_freeze_nonce base_nonce : Z)
    (funds_digest tx_tree_root : Bytes32) : res E Bytes32 :=
  chain_id ← U256.from_u64 chain_id;
  Ok (solidity_keccak256 (close_funding_plan_words chain_id rollup manager channel_id close_freeze_nonce base_nonce funds_digest tx_tree_root)).

End digests.

Section proposal.
Context {P : Poseidon} {W : PoseidonWords P} {K : Keccak}.

(** The loop over the active fund entries: one transfer per nonzero amount, in registry order. *)
Definition fund_transfers {E} (recipient funding_aux_data : Bytes32) (token_count : nat) (head : ChannelState) : res E (list Transfer) :=
  res_foldl (fun transfers slot =>
    amount ← unwrap (ChannelFund.amounts (ChannelState.channel_fund head) !! slot);
    if bool_decide (amount = u256_zero) then Ok transfers
    else
      token_index ← unwrap (BalanceState.token_registry (ChannelState.balance_state head) !! slot);
      Ok (transfers ++ [Transfer.mk recipient token_index amount funding_aux_data])) [] (seq 0 token_count).

Definition transfer_tree_root_of {E} (transfers : list Transfer) : res E PHash :=
  tree ← res_foldl (fun tree transfer => Incremental.push tree transfer)
    (Incremental.new (Hs := PoseidonLeafableHasher) (V := Transfer) TRANSFER_TREE_HEIGHT) transfers;
  Incremental.get_root tree.

(** The transaction, the root of the tree it is alone in, and its proof. *)
Record FundingTx := mkFundingTx { ft_tx_v2 : TxV2; ft_tx_tree_root : Bytes32; ft_merkle_proof : MerkleProof }.

Definition funding_tx {E} (channel_id : ChannelId) (base_nonce : Z) (transfers : list Transfer) : res E FundingTx :=
  transfer_tree_root ← transfer_tree_root_of transfers;
  let tx_v2 := TxV2.mk UserTransfer transfer_tree_root base_nonce phash_default in
  tx_tree ← Sparse.update (Sparse.new (Hs := PoseidonLeafableHasher) TX_TREE_HEIGHT) channel_id tx_v2;
  root ← Sparse.get_root tx_tree;
  tx_tree_root ← phash_into_bytes32 root;
  tx_v2_merkle_proof ← Sparse.prove tx_tree channel_id;
  Ok (mkFundingTx tx_v2 tx_tree_root tx_v2_merkle_proof).

Definition with_state_version (b : BalanceState.BalanceState) (state_version : Z) (settled_tx_chain : Bytes32) : BalanceState.BalanceState :=
  BalanceState.mk (BalanceState.channel_id b) (BalanceState.member_count b) (BalanceState.delegate_count b) (BalanceState.enc_balances b)
    (BalanceState.regev_pk_digests b) (BalanceState.recipients b) settled_tx_chain (BalanceState.settled_tx_accumulator_root b)
    state_version (BalanceState.pending_adds b) (BalanceState.token_registry b) (BalanceState.token_count b).

(** The unsigned child with its counters, chain, previous digest and transaction root. *)
Definition terminal_child (head : ChannelState) (funding_aux_data tx_tree_root : Bytes32) : res CloseFundingError ChannelState :=
  epoch ← next_counter Epoch (ChannelState.epoch head);
  small_block_number ← next_counter SmallBlockNumber (ChannelState.small_block_number head);
  state_version ← next_counter StateVersion (BalanceState.state_version (ChannelState.balance_state head));
  let settled_tx_chain := settled_tx_chain_push (BalanceState.settled_tx_chain (ChannelState.balance_state head)) funding_aux_data in
  ChannelState.with_computed_digest
    (ChannelState.mk (ChannelState.channel_id head) epoch small_block_number (ChannelState.close_freeze_nonce head)
       (ChannelState.channel_fund head) (with_state_version (ChannelState.balance_state head) state_version settled_tx_chain)
       tx_tree_root (ChannelState.shared_native_nullifier_root head) (ChannelState.unallocated_confirmed_incoming head)
       (ChannelState.digest head) (ChannelState.digest head) []).

Definition build_close_funding_proposal (head : ChannelState) (chain_id : Z) (rollup manager : Address) (base_nonce : Z)
    : res CloseFundingError CloseFundingProposal :=
  let balance := ChannelState.balance_state head in
  let fund := ChannelState.channel_fund head in
  _ ← map_err (fun _ => CloseFundingInvalid) (BalanceState.validate balance);
  _ ← ensure (negb (negb (ChannelState.channel_id head =? BalanceState.channel_id balance)
                    || negb (ChannelState.channel_id head =? ChannelFund.channel_id fund))) CloseFundingInvalid;
  digest ← ChannelState.signing_digest head;
  _ ← ensure (bool_decide (ChannelState.digest head = digest)) CloseFundingInvalid;
  _ ← ensure (negb (bool_decide (rollup = address_default) || bool_decide (manager = address_default))) CloseFundingInvalid;
  _ ← ensure (bool_decide (ChannelState.h2_tag head = bytes32_default)) CloseFundingInvalid;
  let token_count := Z.to_nat (BalanceState.token_count balance) in
  _ ← ensure (negb ((token_count =? 0)%nat || (length (BalanceState.token_registry balance) <? token_count)%nat)) CloseFundingInvalid;
  _ ← assert_that (token_count <=? length (ChannelFund.amounts fund))%nat;
  _ ← ensure (negb (existsb (fun amount => bool_decide (amount <> u256_zero)) (drop token_count (ChannelFund.amounts fund)))) CloseFundingInvalid;
  close_freeze_nonce ← next_counter CloseFreezeNonce (ChannelState.close_freeze_nonce head);
  let funds_digest := token_funds_digest (BalanceState.token_registry balance) (BalanceState.token_count balance) (ChannelFund.amounts fund) in
  funding_aux_data ← close_funding_aux_data chain_id rollup manager (ChannelState.channel_id head) close_freeze_nonce funds_digest;
  recipient ← calculate_recipient_from_address manager;
  transfers ← fund_transfers recipient funding_aux_data token_count head;
  _ ← ensure (negb (bool_decide (transfers = []))) CloseFundingInvalid;
  tx ← funding_tx (ChannelState.channel_id head) base_nonce transfers;
  plan_digest ← close_funding_plan_digest chain_id rollup manager (ChannelState.channel_id head) close_freeze_nonce base_nonce funds_digest (ft_tx_tree_root tx);
  let plan := CloseFundingPlan.mk chain_id rollup manager (ChannelState.channel_id head) close_freeze_nonce base_nonce funds_digest
    funding_aux_data transfers (ft_tx_v2 tx) (ft_tx_tree_root tx) (ft_merkle_proof tx) plan_digest in
  proposed_state ← terminal_child head funding_aux_data (ft_tx_tree_root tx);
  Ok (CloseFundingProposal.mk plan proposed_state).

Definition same_plan_fields (left right : CloseFundingPlan) : bool :=
  (CloseFundingPlan.chain_id left =? CloseFundingPlan.chain_id right)
  && bool_decide (CloseFundingPlan.rollup left = CloseFundingPlan.rollup right)
  && bool_decide (CloseFundingPlan.manager left = CloseFundingPlan.manager right)
  && (CloseFundingPlan.source_channel_id left =? CloseFundingPlan.source_channel_id right)
  && (CloseFundingPlan.close_freeze_nonce left =? CloseFundingPlan.close_freeze_nonce right)
  && (CloseFundingPlan.base_nonce left =? CloseFundingPlan.base_nonce right)
  && bool_decide (CloseFundingPlan.token_funds_digest left = CloseFundingPlan.token_funds_digest right)
  && bool_decide (CloseFundingPlan.funding_aux_data left = CloseFundingPlan.funding_aux_data right)
  && bool_decide (CloseFundingPlan.transfers left = CloseFundingPlan.transfers right)
  && bool_decide (CloseFundingPlan.tx_v2 left = CloseFundingPlan.tx_v2 right)
  && bool_decide (CloseFundingPlan.tx_tree_root left = CloseFundingPlan.tx_tree_root right)
  && bool_decide (CloseFundingPlan.plan_digest left = CloseFundingPlan.plan_digest right).

Definition verify_close_funding_proposal (previous signed_state : ChannelState) (plan : CloseFundingPlan) : res CloseFundingError unit :=
  expected ← build_close_funding_proposal previous (CloseFundingPlan.chain_id plan) (CloseFundingPlan.rollup plan)
    (CloseFundingPlan.manager plan) (CloseFundingPlan.base_nonce plan);
  _ ← ensure (same_plan_fields (CloseFundingProposal.plan expected) plan) CloseFundingInvalid;
  root ← map_err (fun _ => CloseFundingInvalid) (phash_try_from_bytes32 (CloseFundingPlan.tx_tree_root plan));
  _ ← map_err (fun _ => CloseFundingInvalid) (proof_verify (CloseFundingPlan.tx_v2_merkle_proof plan) (CloseFundingPlan.tx_v2 plan)
    (CloseFundingPlan.source_channel_id plan) root);
  let expected_digest := ChannelState.digest (CloseFundingProposal.proposed_state expected) in
  _ ← ensure (bool_decide (ChannelState.digest signed_state = expected_digest)) CloseFundingInvalid;
  signing_digest ← ChannelState.signing_digest signed_state;
  ensure (bool_decide (signing_digest = expected_digest)) CloseFundingInvalid.

End proposal.
