(* ===== verification/WalletChecks.v ===== *)
(** * The checks that a wallet and the block producer share

    Models the part of [src/src/wallet_core.rs] that decides what the members of
    a channel authorised: the signatures on a state, a snapshot of a channel,
    the binding of a small block to its state, and the one base-layer
    transaction that an inter-channel debit stands for.

    The Falcon verifier [falcon_sig::verify_cosign_blob] is the class
    [CosignVerifier].  Errors lose their message. *)

From S2P Require Import Prelude Limbs U63 Circuit MerkleTree LeafTrees Poseidon IndexedTree Keccak Regev BalanceState Account Ledger Balance Channel HashChains BlockStep.

#[local] Remove Hints Leafable_Bytes32 : typeclass_instances.

Inductive WalletError := WalletRefused.

#[local] Notation WResult := (res WalletError).

(** [return bail(..)] under a condition. *)
Definition bail_if (b : bool) : WResult unit := ensure (negb b) WalletRefused.

Definition we {E A} (m : res E A) : WResult A := map_err (fun _ => WalletRefused) m.

Class CosignVerifier := { verify_cosign_blob : Bytes32 -> Bytes32 -> list Z -> bool }.

Definition SETTLED_TX_ACCUMULATOR_HEIGHT : nat := 20.
Definition WALLET_MEMBER_TREE_HEIGHT : nat := 10.

(** ** Members *)

Module MemberInfo.
Record MemberInfo := mk { slot : Z; pk_g : Bytes32; pk_b : Bytes32; regev_pk : RegevPk }.
End MemberInfo.
Notation MemberInfo := MemberInfo.MemberInfo.

Definition slot_of (m : MemberInfo) : nat := Z.to_nat (MemberInfo.slot m).

Definition check_slot (slot active_count : nat) : WResult unit :=
  _ ← bail_if (MAX_CHANNEL_MEMBERS <=? slot)%nat;
  bail_if (active_count <=? slot)%nat.

Definition regev_pks_array (members : list MemberInfo) : list RegevPk :=
  foldl (fun arr m => if (slot_of m <? MAX_CHANNEL_MEMBERS)%nat then <[slot_of m := MemberInfo.regev_pk m]> arr else arr)
    (replicate MAX_CHANNEL_MEMBERS Pk.padding) members.

Definition member_at (members : list MemberInfo) (slot : nat) : WResult MemberInfo :=
  ok_or (List.find (fun m => slot_of m =? slot)%nat members) WalletRefused.

Definition require_member_pk_gs_match_record (record : ChannelRecord) (members : list MemberInfo) : WResult unit :=
  res_forall (fun m =>
    if (MAX_CHANNEL_MEMBERS <=? slot_of m)%nat then Err WalletRefused
    else
      registered ← unwrap (ChannelRecord.member_pk_gs record !! slot_of m);
      bail_if (bool_decide (MemberInfo.pk_g m <> registered))) members.

Definition member_pubkeys_root {P : Poseidon} {W : PoseidonWords P} (record : ChannelRecord) (members : list MemberInfo) : WResult Bytes32 :=
  let active := (Z.to_nat (ChannelRecord.member_count record) + Z.to_nat (ChannelRecord.delegate_count record))%nat in
  tree ← res_foldl (fun tree slot =>
      m ← member_at members slot;
      pk_g ← unwrap (ChannelRecord.member_pk_gs record !! slot);
      regev_pk_digest ← Pk.poseidon_digest (MemberInfo.regev_pk m);
      Incremental.push tree (MemberLeaf.mk (reduce_to_hash_out pk_g) (reduce_to_hash_out (MemberInfo.pk_b m)) regev_pk_digest))
    (Incremental.new (Hs := PoseidonLeafableHasher) WALLET_MEMBER_TREE_HEIGHT) (seq 0 active);
  root ← Incremental.get_root (Hs := PoseidonLeafableHasher) tree;
  phash_into_bytes32 root.

(** ** Signatures *)

Section signatures.
Context {P : Poseidon} {K : Keccak} {CV : CosignVerifier}.

Definition verify_state_sig (pk_g digest : Bytes32) (sig : list Z) : WResult unit :=
  ensure (verify_cosign_blob pk_g digest sig) WalletRefused.

(** The body of the loop over the slots of the co-signers. *)
Definition verify_slot_signature (record : ChannelRecord) (state : ChannelState) (digest : Bytes32) (slot : nat) : WResult unit :=
  expected_pk_g ← unwrap (ChannelRecord.member_pk_gs record !! slot);
  sig ← ok_or (List.find (fun s => Z.to_nat (MemberSignature.member_slot s) =? slot)%nat (ChannelState.member_signatures state)) WalletRefused;
  _ ← bail_if (bool_decide (MemberSignature.pk_g sig <> expected_pk_g));
  verify_state_sig expected_pk_g digest (MemberSignature.signature sig).

Definition verify_all_signatures (record : ChannelRecord) (state : ChannelState) : WResult unit :=
  digest ← ChannelState.signing_digest state;
  _ ← bail_if (bool_decide (ChannelState.digest state <> digest));
  res_forall (verify_slot_signature record state digest) (seq 0 (Z.to_nat (ChannelRecord.member_count record))).

Definition verify_member_signature (record : ChannelRecord) (state : ChannelState) (sig : MemberSignature) : WResult unit :=
  digest ← ChannelState.signing_digest state;
  _ ← bail_if (bool_decide (ChannelState.digest state <> digest));
  let slot := Z.to_nat (MemberSignature.member_slot sig) in
  _ ← bail_if (Z.to_nat (ChannelRecord.member_count record) <=? slot)%nat;
  registered ← unwrap (ChannelRecord.member_pk_gs record !! slot);
  _ ← bail_if (bool_decide (MemberSignature.pk_g sig <> registered));
  verify_state_sig registered digest (MemberSignature.signature sig).

End signatures.

(** ** Snapshots *)

Module ChannelSnapshot.
Record ChannelSnapshot {P : Poseidon} := mk {
  record : ChannelRecord;
  state : ChannelState;
  members : list MemberInfo;
  settled_tx_accumulator : Incremental.IncrementalMerkleTree (Hs := PoseidonLeafableHasher) Bytes32;
}.
#[global] Arguments ChannelSnapshot : clear implicits.
#[global] Arguments ChannelSnapshot {P}.
#[global] Arguments mk {P}.
End ChannelSnapshot.
Notation ChannelSnapshot := ChannelSnapshot.ChannelSnapshot.

Section snapshots.
Context {P : Poseidon} {W : PoseidonWords P} {K : Keccak} {CV : CosignVerifier}.

(** The loop over the member list with its array [seen]. *)
Definition check_members (active : nat) (members : list MemberInfo) : WResult (list nat) :=
  res_foldl (fun seen m =>
    _ ← check_slot (slot_of m) active;
    _ ← bail_if (bool_decide (slot_of m ∈ seen));
    Ok (slot_of m :: seen)) [] members.

Definition check_key_digest (state : ChannelState) (m : MemberInfo) : WResult unit :=
  committed ← unwrap (BalanceState.regev_pk_digests (ChannelState.balance_state state) !! slot_of m);
  digest ← Pk.poseidon_digest (MemberInfo.regev_pk m);
  digest ← phash_into_bytes32 digest;
  bail_if (bool_decide (committed <> digest)).

Definition verify_snapshot_structure (snapshot : ChannelSnapshot) : WResult unit :=
  let record := ChannelSnapshot.record snapshot in
  let state := ChannelSnapshot.state snapshot in
  let members := ChannelSnapshot.members snapshot in
  let bs := ChannelState.balance_state state in
  let channel_id := ChannelRecord.channel_id record in
  _ ← bail_if (negb (ChannelState.channel_id state =? channel_id));
  _ ← bail_if (negb (ChannelFund.channel_id (ChannelState.channel_fund state) =? channel_id));
  _ ← bail_if (negb (BalanceState.channel_id bs =? channel_id));
  _ ← bail_if (negb (ChannelRecord.member_count record =? BalanceState.member_count bs)
        || negb (ChannelRecord.delegate_count record =? BalanceState.delegate_count bs));
  _ ← we (ChannelRecord.validate record);
  let active := (Z.to_nat (ChannelRecord.member_count record) + Z.to_nat (ChannelRecord.delegate_count record))%nat in
  _ ← bail_if (negb (length members =? active)%nat);
  _ ← check_members active members;
  _ ← require_member_pk_gs_match_record record members;
  _ ← res_forall (fun m => we (Pk.validate (MemberInfo.regev_pk m))) members;
  pk_root ← regev_pk_root (regev_pks_array members);
  _ ← bail_if (bool_decide (pk_root <> ChannelRecord.regev_pk_root record));
  recomputed_root ← member_pubkeys_root record members;
  _ ← bail_if (bool_decide (recomputed_root <> ChannelRecord.member_pubkeys_root record));
  _ ← bail_if (negb (Incremental.height (ChannelSnapshot.settled_tx_accumulator snapshot) =? SETTLED_TX_ACCUMULATOR_HEIGHT)%nat);
  _ ← we (BalanceState.validate bs);
  res_forall (check_key_digest state) members.

(** [verify_snapshot(snapshot, None)]: without a key of one's own the last check is empty. *)
Definition verify_snapshot (snapshot : ChannelSnapshot) : WResult unit :=
  _ ← verify_snapshot_structure snapshot;
  verify_all_signatures (ChannelSnapshot.record snapshot) (ChannelSnapshot.state snapshot).

End snapshots.

(** ** Small blocks *)

Section small_blocks.
Context {P : Poseidon} {K : Keccak} {CV : CosignVerifier}.

Definition verify_small_block_state_binding (record : ChannelRecord) (a_signed : ChannelState) (tx : InterChannelTx.InterChannelTx) : WResult unit :=
  let msg := InterChannelTx.message tx in
  let channel_id := ChannelRecord.channel_id record in
  _ ← bail_if (negb (InterChannelTx.source_channel_id tx =? channel_id) || negb (SmallBlockRootMessage.channel_id msg =? channel_id));
  _ ← bail_if (negb (SmallBlockRootMessage.small_block_number msg =? ChannelState.small_block_number a_signed));
  _ ← bail_if (negb (SmallBlockRootMessage.close_freeze_nonce msg =? ChannelState.close_freeze_nonce a_signed));
  _ ← bail_if (bool_decide (ChannelState.h2_tag a_signed = bytes32_default));
  _ ← bail_if (bool_decide (ChannelState.h2_tag a_signed <> SmallBlockRootMessage.tx_tree_root msg));
  h1 ← BalanceState.h1 (ChannelState.balance_state a_signed);
  bail_if (bool_decide (h1 <> SmallBlockRootMessage.state_commitment_root msg)).

(** [sort_by_key(|s| s.member_slot)], which is stable. *)
Fixpoint insert_by_slot (s : MemberSignature) (sorted : list MemberSignature) : list MemberSignature :=
  match sorted with
  | [] => [s]
  | x :: rest => if MemberSignature.member_slot s <? MemberSignature.member_slot x then s :: sorted else x :: insert_by_slot s rest
  end.

Definition sort_by_slot (sigs : list MemberSignature) : list MemberSignature := foldl (fun sorted s => insert_by_slot s sorted) [] sigs.

Definition with_small_block_signatures (tx : InterChannelTx.InterChannelTx) (sigs : list MemberSignature) : InterChannelTx.InterChannelTx :=
  let b := InterChannelTx.signed_small_block tx in
  InterChannelTx.mk (InterChannelTx.tx_inclusion_proof tx)
    (SignedSmallBlock.mk (SignedSmallBlock.message b) sigs (SignedSmallBlock.aggregated_signature_proof b) (SignedSmallBlock.medium_block_number b)
       (SignedSmallBlock.confirmation_proof b))
    (InterChannelTx.sender_delta_ct tx) (InterChannelTx.source_channel_id tx) (InterChannelTx.destination_channel_id tx) (InterChannelTx.token_index tx)
    (InterChannelTx.base_nonce tx) (InterChannelTx.destination_base_transfer_salt tx) (InterChannelTx.source_pk_g tx) (InterChannelTx.seal tx)
    (InterChannelTx.tx_hash tx) (InterChannelTx.intmax_transfer_commitment tx) (InterChannelTx.recipient_memo tx) (InterChannelTx.receiver_deltas tx)
    (InterChannelTx.channel_update_zkp tx) (InterChannelTx.transport_proof tx) (InterChannelTx.sender_hash_sig tx) (InterChannelTx.sender_pk_b tx).

(** The transaction with its signatures; on an error the argument is left as it was. *)
Definition attach_small_block_signatures (record : ChannelRecord) (a_signed : ChannelState) (tx : InterChannelTx.InterChannelTx)
    : WResult InterChannelTx.InterChannelTx :=
  _ ← we (verify_all_signatures record a_signed);
  _ ← verify_small_block_state_binding record a_signed tx;
  a11_before ← InterChannelTx.signing_digest tx;
  let final_tx := with_small_block_signatures tx (sort_by_slot (ChannelState.member_signatures a_signed)) in
  a11_after ← InterChannelTx.signing_digest final_tx;
  _ ← bail_if (bool_decide (a11_after <> a11_before));
  Ok final_tx.

End small_blocks.

(** ** The base transaction of a debit *)

Definition u64_to_u256 {E} (v : Z) : res E U256 :=
  expect (from_u32_slice U256_LEN [0; 0; 0; 0; 0; 0; wrap 32 (Z.shiftr v 32); wrap 32 v]).

Section binding.
Context {P : Poseidon} {W : PoseidonWords P} {K : Keccak}.

Definition inter_channel_base_transfer {E} (recipient_pk_g : Bytes32) (token_index amount : Z) (aux_data : Bytes32) : res E Transfer :=
  amount ← u64_to_u256 amount;
  Ok (Transfer.mk recipient_pk_g token_index amount aux_data).

Definition inter_channel_tx_v2_leaf {E} (transfer : Transfer) (nonce : Z) : res E TxV2 :=
  transfer_tree ← Incremental.push (E := E) (Incremental.new (Hs := PoseidonLeafableHasher) (V := Transfer) TRANSFER_TREE_HEIGHT) transfer;
  transfer_tree_root ← (Incremental.get_root transfer_tree : res E PHash);
  Ok (TxV2.mk UserTransfer transfer_tree_root nonce phash_default).

(** The transaction and the root of the tree it is alone in. *)
Definition inter_channel_tx_v2 {E} (source_channel_id : ChannelId) (transfer : Transfer) (nonce : Z) : res E (TxV2 * PHash) :=
  tx_v2 ← inter_channel_tx_v2_leaf transfer nonce;
  tx_v2_tree ← Sparse.update (Sparse.new (Hs := PoseidonLeafableHasher) TX_TREE_HEIGHT) source_channel_id tx_v2;
  root ← Sparse.get_root tx_v2_tree;
  Ok (tx_v2, root).

(** [salt.0], a hash out, as the argument of the base layer. *)
Definition salt_hash_out (salt : PoseidonHashOut.PoseidonHashOut) : PHash := phash_from_elements (PoseidonHashOut.to_u64_vec salt).

Definition salt_default : PoseidonHashOut.PoseidonHashOut := PoseidonHashOut.mk (replicate 4 0) eq_refl.

Definition canonical_inter_channel_base_transfer (tx : InterChannelTx.InterChannelTx) (amount : Z) : WResult Transfer :=
  _ ← bail_if (negb (length (InterChannelTx.receiver_deltas tx) =? 1)%nat);
  tx_leaf ← we (InterChannelTx.tx_leaf_hash tx);
  receiver ← unwrap (InterChannelTx.receiver_deltas tx !! 0%nat);
  let receiver_pk_g := ReceiverBalanceDelta.receiver_pk_g receiver in
  let is_burn := InterChannelTx.destination_channel_id tx =? BURN_CHANNEL_ID in
  _ ← bail_if (is_burn && bool_decide (InterChannelTx.destination_base_transfer_salt tx <> salt_default));
  _ ← (if is_burn then _ ← we (extract_address_from_recipient receiver_pk_g); Ok tt else Ok tt);
  aux_data ← (if is_burn
    then
      amount ← u64_to_u256 amount;
      Ok (burn_descriptor (InterChannelTx.source_channel_id tx) (InterChannelTx.base_nonce tx) tx_leaf receiver_pk_g (InterChannelTx.token_index tx) amount)
    else Ok tx_leaf);
  base_recipient ← (if is_burn then Ok receiver_pk_g
    else calculate_recipient_from_user_id (InterChannelTx.destination_channel_id tx) (salt_hash_out (InterChannelTx.destination_base_transfer_salt tx)));
  inter_channel_base_transfer base_recipient (InterChannelTx.token_index tx) amount aux_data.

Definition canonical_inter_channel_binding (tx : InterChannelTx.InterChannelTx) (amount : Z) : WResult (Transfer * TxV2 * Bytes32) :=
  transfer ← canonical_inter_channel_base_transfer tx amount;
  r ← inter_channel_tx_v2 (InterChannelTx.source_channel_id tx) transfer (InterChannelTx.base_nonce tx);
  root ← phash_into_bytes32 r.2;
  Ok (transfer, r.1, root).

Definition verify_retired_inter_channel_fields (tx : InterChannelTx.InterChannelTx) : WResult unit :=
  let signed := InterChannelTx.signed_small_block tx in
  bail_if (negb (SmallBlockRootMessage.medium_epoch_hint (SignedSmallBlock.message signed) =? 0)
    || negb (SignedSmallBlock.medium_block_number signed =? 0)
    || negb (bool_decide (SignedSmallBlock.aggregated_signature_proof signed = []))
    || negb (bool_decide (SignedSmallBlock.confirmation_proof signed = []))
    || bool_decide (InterChannelTx.seal tx <> bytes32_default)
    || negb (bool_decide (InterChannelTx.recipient_memo tx = []))
    || negb (bool_decide (InterChannelTx.transport_proof tx = []))
    || bool_decide (InterChannelTx.tx_inclusion_proof tx <> MerkleInclusionProof.default)).

Definition verify_canonical_inter_channel_binding (tx : InterChannelTx.InterChannelTx) (amount : Z) : WResult (TxV2 * Bytes32) :=
  _ ← verify_retired_inter_channel_fields tx;
  r ← canonical_inter_channel_binding tx amount;
  let '(transfer, tx_v2, tx_tree_root) := r in
  expected_commitment ← phash_into_bytes32 (Transfer.poseidon_hash transfer);
  _ ← bail_if (bool_decide (InterChannelTx.intmax_transfer_commitment tx <> expected_commitment));
  _ ← bail_if (bool_decide (SmallBlockRootMessage.tx_tree_root (InterChannelTx.message tx) <> tx_tree_root));
  Ok (tx_v2, tx_tree_root).

End binding.

(** ** Payloads

    The optional manifest of an aggregated window, which none of these checks reads, is left out. *)

Module InterChannelDebitPayload.
Record InterChannelDebitPayload := mk {
  sender_index : Z;
  proposed_next_state : ChannelState;
  inter_channel_tx : InterChannelTx.InterChannelTx;
  amount : Z;
  members : list MemberInfo;
  record : ChannelRecord;
  destination_recipient_pk : RegevPk;
}.
End InterChannelDebitPayload.
Notation InterChannelDebitPayload := InterChannelDebitPayload.InterChannelDebitPayload.

Module InterChannelTransferDescriptor.
Record InterChannelTransferDescriptor {P : Poseidon} := mk {
  source_channel_id : ChannelId;
  destination_channel_id : ChannelId;
  recipient_slot : Z;
  amount : Z;
  tx_hash : Bytes32;
  tx_tree_root : Bytes32;
  source_pk_g : Bytes32;
  receiver_pk_g : Bytes32;
  destination_base_transfer_salt : PoseidonHashOut.PoseidonHashOut;
  source_pk : RegevPk;
  receiver_pk : RegevPk;
  sender_before_ct : RegevCiphertext;
  sender_after_ct : RegevCiphertext;
  sender_delta_ct : RegevCiphertext;
  receiver_delta : RegevCiphertext;
  inter_channel_tx : InterChannelTx.InterChannelTx;
  tx_v2 : TxV2;
  tx_v2_merkle_proof : MerkleProof;
}.
#[global] Arguments InterChannelTransferDescriptor : clear implicits.
#[global] Arguments InterChannelTransferDescriptor {P}.
#[global] Arguments mk {P}.
End InterChannelTransferDescriptor.
Notation InterChannelTransferDescriptor := InterChannelTransferDescriptor.InterChannelTransferDescriptor.

Section descriptor.
Context {P : Poseidon} {W : PoseidonWords P} {K : Keccak}.
Import InterChannelTransferDescriptor.

Definition verify_inter_channel_descriptor_matches_debit (debit_payload : InterChannelDebitPayload) (descriptor : InterChannelTransferDescriptor) : WResult unit :=
  let tx := InterChannelDebitPayload.inter_channel_tx debit_payload in
  let debit_amount := InterChannelDebitPayload.amount debit_payload in
  _ ← bail_if (negb (amount descriptor =? debit_amount));
  _ ← bail_if (bool_decide (destination_base_transfer_salt descriptor <> InterChannelTx.destination_base_transfer_salt tx));
  descriptor_digest ← InterChannelTx.signing_digest (inter_channel_tx descriptor);
  tx_digest ← InterChannelTx.signing_digest tx;
  _ ← bail_if (bool_decide (descriptor_digest <> tx_digest));
  receiver ← ok_or (head (InterChannelTx.receiver_deltas tx)) WalletRefused;
  _ ← bail_if (negb (source_channel_id descriptor =? InterChannelTx.source_channel_id tx)
        || negb (destination_channel_id descriptor =? InterChannelTx.destination_channel_id tx)
        || bool_decide (source_pk_g descriptor <> InterChannelTx.source_pk_g tx)
        || bool_decide (receiver_pk_g descriptor <> ReceiverBalanceDelta.receiver_pk_g receiver)
        || bool_decide (sender_delta_ct descriptor <> InterChannelTx.sender_delta_ct tx)
        || bool_decide (receiver_delta descriptor <> ReceiverBalanceDelta.amount receiver)
        || bool_decide (tx_hash descriptor <> InterChannelTx.tx_hash tx));
  r ← verify_canonical_inter_channel_binding tx debit_amount;
  bail_if (bool_decide (tx_v2 descriptor <> r.1) || bool_decide (tx_tree_root descriptor <> r.2)).

End descriptor.
