(* ===== verification/Producer.v ===== *)
(** * The block producer

    Models [src/src/block_producer.rs]: the keyless producer that registers
    channels, seals deposits, and admits blocks of channels.  It keeps the last
    co-signed state of every channel as a fence: a state is admitted only when
    it extends the fence, a transaction only once and with the next nonce of its
    channel, and a channel that paid its fund to the settlement manager admits
    nothing any more.

    The witness generator [circuits/witness/block_witness_generator.rs] that
    the producer drives is the interface [BlockWitnessGenerator]: the producer
    works on a copy and keeps it only when the whole operation succeeds, so the
    operations of the generator are functions to a new generator.  The
    operations behind the feature [deprecated-msu] and the accessors for
    proving are left out. *)

From S2P Require Import Prelude Limbs U63 Circuit MerkleTree LeafTrees Poseidon IndexedTree Keccak Regev BalanceState Account Ledger Balance Channel HashChains BlockStep CloseFunding WalletChecks.

#[local] Remove Hints Leafable_Bytes32 : typeclass_instances.

Inductive ProductionBlockProducerError := InvalidRegistration | WalletAuthorization | MemberSetUpdateRetired | Witness.

#[local] Notation res := (res ProductionBlockProducerError).

Definition auth_if (b : bool) : res unit := ensure (negb b) WalletAuthorization.
Definition invalid_if (b : bool) : res unit := ensure (negb b) InvalidRegistration.
Definition authorized {E A} (m : Prelude.res E A) : res A := map_err (fun _ => WalletAuthorization) m.
Definition registration_ok {E A} (m : Prelude.res E A) : res A := map_err (fun _ => InvalidRegistration) m.

(** [previous.checked_add(1).ok_or(..)?] *)
Definition next (w value : Z) : res Z := ok_or (checked_add w value 1) WalletAuthorization.

(** ** Registrations *)

Module ProductionChannelRegistration.
Record ProductionChannelRegistration := mk {
  channel_record : ChannelRecord;
  validity_record : ChannelRegRecord;
  regev_pks : list RegevPk;
}.

Section registration.
Context {P : Poseidon} {W : PoseidonWords P} {K : Keccak} {CV : CosignVerifier}.

(** The body of the loop over the slots. *)
Definition check_slot (r : ProductionChannelRegistration) (slot : nat) : res unit :=
  entry ← unwrap (ChannelRegRecord.members (validity_record r) !! slot);
  pk_g ← unwrap (ChannelRecord.member_pk_gs (channel_record r) !! slot);
  _ ← invalid_if (bool_decide (MemberRegEntry.pk_g entry <> pk_g));
  pk ← unwrap (regev_pks r !! slot);
  _ ← registration_ok (Pk.validate pk);
  digest ← Pk.poseidon_digest pk;
  digest ← phash_into_bytes32 digest;
  invalid_if (bool_decide (MemberRegEntry.regev_pk_digest entry <> digest)).

Definition validate (r : ProductionChannelRegistration) : res unit :=
  _ ← registration_ok (ChannelRecord.validate (channel_record r));
  _ ← registration_ok (ChannelRegRecord.validate (validity_record r));
  let member_count := Z.to_nat (ChannelRecord.member_count (channel_record r)) in
  _ ← invalid_if (negb (ChannelRegRecord.channel_id (validity_record r) =? ChannelRecord.channel_id (channel_record r))
        || negb (Z.to_nat (ChannelRegRecord.member_count (validity_record r)) =? member_count)%nat
        || negb (ChannelRegRecord.bp_member_slot (validity_record r) =? ChannelRecord.bp_member_slot (channel_record r)));
  _ ← invalid_if (negb (ChannelRegRecord.delegate_count (validity_record r) =? 0));
  _ ← invalid_if (negb (length (regev_pks r) =? member_count)%nat);
  res_forall (check_slot r) (seq 0 member_count).

(** One iteration that fills the entries. *)
Definition registration_entry (snapshot : ChannelSnapshot) (slot : nat) : res (MemberRegEntry * RegevPk) :=
  member ← ok_or (List.find (fun m => slot_of m =? slot)%nat (ChannelSnapshot.members snapshot)) InvalidRegistration;
  digest ← Pk.poseidon_digest (MemberInfo.regev_pk member);
  digest ← phash_into_bytes32 digest;
  recipient ← unwrap (BalanceState.recipients (ChannelState.balance_state (ChannelSnapshot.state snapshot)) !! slot);
  Ok (MemberRegEntry.mk (MemberInfo.pk_g member) (MemberInfo.pk_b member) digest recipient, MemberInfo.regev_pk member).

Definition from_snapshot (snapshot : ChannelSnapshot) : res ProductionChannelRegistration :=
  _ ← registration_ok (verify_snapshot snapshot);
  let record := ChannelSnapshot.record snapshot in
  let member_count := Z.to_nat (ChannelRecord.member_count record) in
  _ ← assert_that (member_count <=? MAX_SIG_CLUSTER)%nat;
  filled ← res_mapM (registration_entry snapshot) (seq 0 member_count);
  let validity_record := ChannelRegRecord.mk (ChannelRecord.channel_id record) (ChannelRecord.bp_member_slot record) (ChannelRecord.member_count record) 0
    (resize_with MAX_SIG_CLUSTER MemberRegEntry.default filled.*1) in
  let registration := mk record validity_record filled.*2 in
  _ ← validate registration;
  Ok registration.

End registration.
End ProductionChannelRegistration.
Notation ProductionChannelRegistration := ProductionChannelRegistration.ProductionChannelRegistration.

Module ProductionDepositRequest.
Record ProductionDepositRequest := mk {
  deposit_index : Z;
  depositor : Address;
  recipient : Bytes32;
  token_index : Z;
  amount : U256;
  aux_data : Bytes32;
  expected_deposit_hash_chain : Bytes32;
}.
End ProductionDepositRequest.
Notation ProductionDepositRequest := ProductionDepositRequest.ProductionDepositRequest.

Module BlockTxV2Witness.
Record BlockTxV2Witness {P : Poseidon} := mk {
  tx_v2_indices : list Z;
  tx_v2s : list TxV2;
  tx_v2_merkle_proofs : list MerkleProof;
  new_member_leaves : option (list MemberLeaf);
  channel_action_indices : option (list Z);
  channel_actions : option (list ChannelAction);
  channel_action_merkle_proofs : option (list MerkleProof);
}.
#[global] Arguments BlockTxV2Witness : clear implicits.
#[global] Arguments BlockTxV2Witness {P}.
#[global] Arguments mk {P}.
End BlockTxV2Witness.
Notation BlockTxV2Witness := BlockTxV2Witness.BlockTxV2Witness.

(** ** The generator *)

Inductive BlockWitnessGeneratorError := GeneratorRefused.

Class BlockWitnessGenerator {P : Poseidon} := {
  Generator : Type;
  generator_new : list Z -> Generator;
  supported_user_counts : Generator -> list Z;
  blocks : Generator -> list Block;
  deposit_counts : Generator -> Z;
  deposit_leaves : Generator -> list Deposit;
  deposit_hash_chain : Generator -> Bytes32;
  holds_local_signing_keys : Generator -> ChannelId -> bool;
  add_channel_registration_public : ChannelRegRecord -> list RegevPk -> Generator -> Prelude.res BlockWitnessGeneratorError Generator;
  add_registration_block : Z -> Generator -> Prelude.res BlockWitnessGeneratorError Generator;
  add_deposit : Address -> Bytes32 -> Z -> U256 -> Bytes32 -> Generator -> Prelude.res BlockWitnessGeneratorError Generator;
  (** The assignments to [unsigned_staging] and [next_channel_cosign]. *)
  stage_cosign : bool -> ChannelState -> list MemberSignature -> Generator -> Generator;
  add_block_with_tx_v2 : Z -> list Z -> Z -> Bytes32 -> option BlockTxV2Witness -> Generator -> Prelude.res BlockWitnessGeneratorError Generator;
}.

(** ** Joins of delegates *)

(** The body of the loop over the slots. *)
Definition check_joined_slot (old new : ChannelRecord) (old_boundary new_boundary slot : nat) : res unit :=
  old_pk ← unwrap (ChannelRecord.member_pk_gs old !! slot);
  new_pk ← unwrap (ChannelRecord.member_pk_gs new !! slot);
  if (slot <? old_boundary)%nat then auth_if (bool_decide (new_pk <> old_pk))
  else if (slot <? new_boundary)%nat then
    _ ← auth_if (bool_decide (old_pk <> bytes32_default) || bool_decide (new_pk = bytes32_default));
    auth_if (existsb (fun other => negb (other =? slot)%nat && bool_decide (ChannelRecord.member_pk_gs new !! other = Some new_pk)) (seq 0 new_boundary))
  else auth_if (bool_decide (new_pk <> bytes32_default) || bool_decide (old_pk <> bytes32_default)).

Definition verify_delegates_appended (old new : ChannelRecord) : res unit :=
  _ ← auth_if (negb (ChannelRecord.channel_id new =? ChannelRecord.channel_id old));
  _ ← auth_if (negb (ChannelRecord.member_count new =? ChannelRecord.member_count old)
        || negb (ChannelRecord.set_version new =? ChannelRecord.set_version old));
  _ ← auth_if (bool_decide (ChannelRecord.status new <> ChannelRecord.status old)
        || negb (ChannelRecord.bp_member_slot new =? ChannelRecord.bp_member_slot old));
  _ ← auth_if (ChannelRecord.delegate_count new <=? ChannelRecord.delegate_count old);
  let old_boundary := (Z.to_nat (ChannelRecord.member_count old) + Z.to_nat (ChannelRecord.delegate_count old))%nat in
  let new_boundary := (Z.to_nat (ChannelRecord.member_count new) + Z.to_nat (ChannelRecord.delegate_count new))%nat in
  _ ← auth_if (MAX_CHANNEL_MEMBERS <? new_boundary)%nat;
  res_forall (check_joined_slot old new old_boundary new_boundary) (seq 0 MAX_CHANNEL_MEMBERS).

Inductive CosignMode := Verified | UnsignedStaging.

#[global] Instance CosignMode_eq_dec : EqDecision CosignMode.
Proof. solve_decision. Defined.

(** ** The producer *)

Module ProductionBlockProducer.
Record ProductionBlockProducer {P : Poseidon} {G : BlockWitnessGenerator} := mk {
  witness : Generator;
  channel_records : gmap ChannelId ChannelRecord;
  channel_heads : gmap ChannelId ChannelState;
  accepted_inter_channel_txs : list Bytes32;
  accepted_base_nonces : gmap ChannelId Z;
  terminal_close_funding : gset ChannelId;
}.
#[global] Arguments ProductionBlockProducer : clear implicits.
#[global] Arguments ProductionBlockProducer {P G}.
#[global] Arguments mk {P G}.

Section producer.
Context {P : Poseidon} {W : PoseidonWords P} {K : Keccak} {CV : CosignVerifier} {G : BlockWitnessGenerator}.

#[local] Notation meth := (meth ProductionBlockProducer ProductionBlockProducerError).

(** Assignments to the fields. *)
Definition with_witness (p : ProductionBlockProducer) (g : Generator) : ProductionBlockProducer :=
  mk g (channel_records p) (channel_heads p) (accepted_inter_channel_txs p) (accepted_base_nonces p) (terminal_close_funding p).

Definition with_record (channel : ChannelId) (record : ChannelRecord) (p : ProductionBlockProducer) : ProductionBlockProducer :=
  mk (witness p) (<[channel := record]> (channel_records p)) (channel_heads p) (accepted_inter_channel_txs p) (accepted_base_nonces p) (terminal_close_funding p).

Definition with_head (channel : ChannelId) (state : ChannelState) (p : ProductionBlockProducer) : ProductionBlockProducer :=
  mk (witness p) (channel_records p) (<[channel := state]> (channel_heads p)) (accepted_inter_channel_txs p) (accepted_base_nonces p) (terminal_close_funding p).

(** [HashSet::insert]. *)
Definition with_accepted_tx (tx_hash : Bytes32) (p : ProductionBlockProducer) : ProductionBlockProducer :=
  mk (witness p) (channel_records p) (channel_heads p)
    (if bool_decide (tx_hash ∈ accepted_inter_channel_txs p) then accepted_inter_channel_txs p else tx_hash :: accepted_inter_channel_txs p)
    (accepted_base_nonces p) (terminal_close_funding p).

Definition with_nonce (channel : ChannelId) (nonce : Z) (p : ProductionBlockProducer) : ProductionBlockProducer :=
  mk (witness p) (channel_records p) (channel_heads p) (accepted_inter_channel_txs p) (<[channel := nonce]> (accepted_base_nonces p)) (terminal_close_funding p).

Definition with_terminal (channel : ChannelId) (p : ProductionBlockProducer) : ProductionBlockProducer :=
  mk (witness p) (channel_records p) (channel_heads p) (accepted_inter_channel_txs p) (accepted_base_nonces p) ({[channel]} ∪ terminal_close_funding p).

(** [let mut candidate = self.clone(); ..; *self = candidate]: the copy is kept only on success. *)
Definition on_candidate {A} (m : meth A) : meth A := fun p =>
  match m p with
  | (p', Ok a) => (p', Ok a)
  | (_, Err e) => (p, Err e)
  | (_, Panic) => (p, Panic)
  end.

Definition on_witness (f : Generator -> Prelude.res BlockWitnessGeneratorError Generator) : meth unit := fun p =>
  match f (witness p) with
  | Ok g => (with_witness p g, Ok tt)
  | Err _ => (p, Err Witness)
  | Panic => (p, Panic)
  end.

Definition new (supported_user_counts : list Z) : ProductionBlockProducer := mk (generator_new supported_user_counts) ∅ ∅ [] ∅ ∅.

Definition last_timestamp (p : ProductionBlockProducer) : Z := 
  match list.last (blocks (witness p)) with Some block => Block.timestamp block | None => 0 end.

Definition holds_any_local_signing_keys (p : ProductionBlockProducer) : bool :=
  existsb (fun e => holds_local_signing_keys (witness p) e.1) (map_to_list (channel_records p)).

Definition register_channel (registration : ProductionChannelRegistration) (timestamp : Z) : meth ChannelId :=
  _ ← pure (ProductionChannelRegistration.validate registration);
  let channel := ChannelRecord.channel_id (ProductionChannelRegistration.channel_record registration) in
  p ← self;
  _ ← pure (invalid_if (bool_decide (is_Some (channel_records p !! channel))));
  on_candidate (
    _ ← on_witness (add_channel_registration_public (ProductionChannelRegistration.validity_record registration)
          (ProductionChannelRegistration.regev_pks registration));
    _ ← on_witness (add_registration_block timestamp);
    candidate ← self;
    _ ← pure (invalid_if (holds_local_signing_keys (witness candidate) channel));
    _ ← modify (with_record channel (ProductionChannelRegistration.channel_record registration));
    mret channel).

Definition register_snapshot (snapshot : ChannelSnapshot) (timestamp : Z) : meth ChannelId :=
  registration ← pure (ProductionChannelRegistration.from_snapshot snapshot);
  let channel := ChannelRecord.channel_id (ProductionChannelRegistration.channel_record registration) in
  on_candidate (
    _ ← register_channel registration timestamp;
    _ ← modify (with_head channel (ChannelSnapshot.state snapshot));
    candidate ← self;
    _ ← pure (invalid_if (holds_any_local_signing_keys candidate));
    mret channel).

Definition produce_deposit_block (request : ProductionDepositRequest) (timestamp : Z) : meth Deposit :=
  p ← self;
  _ ← pure (invalid_if (bool_decide (ProductionDepositRequest.recipient request = bytes32_default)));
  _ ← pure (auth_if (negb (ProductionDepositRequest.deposit_index request =? deposit_counts (witness p))));
  _ ← pure (auth_if (timestamp <=? last_timestamp p));
  on_candidate (
    _ ← on_witness (add_deposit (ProductionDepositRequest.depositor request) (ProductionDepositRequest.recipient request)
          (ProductionDepositRequest.token_index request) (ProductionDepositRequest.amount request) (ProductionDepositRequest.aux_data request));
    _ ← on_witness (add_block_with_tx_v2 0 [] timestamp bytes32_default None);
    candidate ← self;
    deposit ← pure (ok_or (list.last (deposit_leaves (witness candidate))) Witness);
    _ ← pure (ensure (negb (bool_decide (Deposit.depositor deposit <> ProductionDepositRequest.depositor request)
          || negb (U63.as_u64 (Deposit.deposit_index deposit) =? ProductionDepositRequest.deposit_index request)
          || negb (Deposit.token_index deposit =? ProductionDepositRequest.token_index request)
          || bool_decide (Deposit.amount deposit <> ProductionDepositRequest.amount request)
          || bool_decide (Deposit.aux_data deposit <> ProductionDepositRequest.aux_data request))) Witness);
    _ ← pure (auth_if (bool_decide (deposit_hash_chain (witness candidate) <> ProductionDepositRequest.expected_deposit_hash_chain request)));
    _ ← pure (invalid_if (holds_any_local_signing_keys candidate));
    mret deposit).

(** Either marker of a member-set update. *)
Definition carries_member_set_update (w : BlockTxV2Witness) : bool :=
  match BlockTxV2Witness.new_member_leaves w with
  | Some _ => true
  | None =>
      match BlockTxV2Witness.channel_actions w with
      | Some actions => existsb (fun action => bool_decide (ChannelAction.kind action = MemberSetUpdate)) actions
      | None => false
      end
  end.

Definition check_cosigned (mode : CosignMode) (record : ChannelRecord) (state : ChannelState) : res unit :=
  match mode with
  | Verified => authorized (verify_all_signatures record state)
  | UnsignedStaging =>
      digest ← ChannelState.signing_digest state;
      auth_if (bool_decide (ChannelState.digest state <> digest))
  end.

(** The fence of a block: the state extends the head of its channel. *)
Definition check_block_fence (previous state : ChannelState) : res unit :=
  _ ← auth_if (bool_decide (ChannelState.prev_digest state <> ChannelState.digest previous));
  expected_small_block ← next 64 (ChannelState.small_block_number previous);
  expected_epoch ← next 64 (ChannelState.epoch previous);
  expected_version ← next 64 (BalanceState.state_version (ChannelState.balance_state previous));
  auth_if (negb (ChannelState.small_block_number state =? expected_small_block) || negb (ChannelState.epoch state =? expected_epoch)
    || negb (BalanceState.state_version (ChannelState.balance_state state) =? expected_version)
    || negb (ChannelState.close_freeze_nonce state =? ChannelState.close_freeze_nonce previous)).

Definition produce_cosigned_block_with (signed_state : ChannelState) (key_ids : list Z) (timestamp : Z) (tx_tree_root : Bytes32)
    (tx_v2_witness : BlockTxV2Witness) (mode : CosignMode) : meth unit :=
  _ ← pure (ensure (negb (carries_member_set_update tx_v2_witness)) MemberSetUpdateRetired);
  p ← self;
  let channel := ChannelState.channel_id signed_state in
  _ ← pure (auth_if (bool_decide (channel ∈ terminal_close_funding p)));
  record ← pure (ok_or (channel_records p !! channel) WalletAuthorization);
  _ ← pure (check_cosigned mode record signed_state);
  _ ← pure (auth_if (bool_decide (tx_tree_root = bytes32_default) || bool_decide (ChannelState.h2_tag signed_state <> tx_tree_root)));
  _ ← pure (auth_if (negb (ChannelFund.channel_id (ChannelState.channel_fund signed_state) =? channel)));
  _ ← pure (auth_if (negb (BalanceState.channel_id (ChannelState.balance_state signed_state) =? channel)));
  _ ← pure (auth_if (timestamp <=? last_timestamp p));
  _ ← pure (match channel_heads p !! channel with Some previous => check_block_fence previous signed_state | None => Ok tt end);
  on_candidate (
    _ ← modify (fun c => with_witness c (stage_cosign (bool_decide (mode = UnsignedStaging)) signed_state
          (match mode with Verified => ChannelState.member_signatures signed_state | UnsignedStaging => [] end) (witness c)));
    _ ← on_witness (add_block_with_tx_v2 (wrap 32 channel) key_ids timestamp tx_tree_root (Some tx_v2_witness));
    modify (with_head channel signed_state)).

Definition produce_cosigned_block (signed_state : ChannelState) (key_ids : list Z) (timestamp : Z) (tx_tree_root : Bytes32)
    (tx_v2_witness : BlockTxV2Witness) : meth unit :=
  produce_cosigned_block_with signed_state key_ids timestamp tx_tree_root tx_v2_witness Verified.

Definition produce_member_set_update_block : meth Bytes32 := pure (Err MemberSetUpdateRetired).

(** The record of the source channel of a transaction. *)
Definition source_record (tx : InterChannelTx.InterChannelTx) : meth ChannelRecord :=
  p ← self; pure (ok_or (channel_records p !! InterChannelTx.source_channel_id tx) WalletAuthorization).

(** The answer is the transaction with its signatures, which the code writes to its argument. *)
Definition produce_inter_channel_block (signed_state : ChannelState) (tx : InterChannelTx.InterChannelTx) (key_ids : list Z) (timestamp : Z)
    (tx_v2_witness : BlockTxV2Witness) : meth InterChannelTx.InterChannelTx :=
  record ← source_record tx;
  tx ← pure (authorized (attach_small_block_signatures record signed_state tx));
  _ ← produce_cosigned_block_with signed_state key_ids timestamp (SmallBlockRootMessage.tx_tree_root (InterChannelTx.message tx)) tx_v2_witness Verified;
  mret tx.

Definition produce_inter_channel_block_unsigned_staging (proposed_state : ChannelState) (tx : InterChannelTx.InterChannelTx) (key_ids : list Z)
    (timestamp : Z) (tx_v2_witness : BlockTxV2Witness) : meth unit :=
  record ← source_record tx;
  _ ← pure (authorized (verify_small_block_state_binding record proposed_state tx));
  produce_cosigned_block_with proposed_state key_ids timestamp (SmallBlockRootMessage.tx_tree_root (InterChannelTx.message tx)) tx_v2_witness UnsignedStaging.

(** The next nonce of a channel: zero for a fresh account. *)
Definition expected_nonce (p : ProductionBlockProducer) (channel : ChannelId) : res Z :=
  match accepted_base_nonces p !! channel with
  | Some previous_nonce => next 32 previous_nonce
  | None => Ok 0
  end.

(** The witness of a block whose only active slot sends one transaction. *)
Definition single_tx_witness (num_users : nat) (channel : ChannelId) (tx_v2 : TxV2) (proof : MerkleProof) : BlockTxV2Witness :=
  BlockTxV2Witness.mk (<[0%nat := channel]> (replicate num_users 0)) (<[0%nat := tx_v2]> (replicate num_users TxV2.default)) (replicate num_users proof)
    None None None None.

Definition produce_inter_channel_descriptor_block_with (signed_state : ChannelState) (debit_payload : InterChannelDebitPayload)
    (descriptor : InterChannelTransferDescriptor) (timestamp : Z) (mode : CosignMode) : meth InterChannelTx.InterChannelTx :=
  p ← self;
  let channel := InterChannelTransferDescriptor.source_channel_id descriptor in
  let tx := InterChannelTransferDescriptor.inter_channel_tx descriptor in
  _ ← pure (auth_if (bool_decide (channel ∈ terminal_close_funding p)));
  _ ← pure (authorized (verify_inter_channel_descriptor_matches_debit debit_payload descriptor));
  _ ← pure (auth_if (bool_decide (ChannelState.digest (InterChannelDebitPayload.proposed_next_state debit_payload) <> ChannelState.digest signed_state)));
  registered_record ← pure (ok_or (channel_records p !! channel) WalletAuthorization);
  _ ← pure (auth_if (bool_decide (ChannelRecord.signing_digest (InterChannelDebitPayload.record debit_payload) <> ChannelRecord.signing_digest registered_record)));
  opened_root ← pure (proof_get_root (InterChannelTransferDescriptor.tx_v2_merkle_proof descriptor) (InterChannelTransferDescriptor.tx_v2 descriptor) channel);
  opened_root ← pure (phash_into_bytes32 opened_root);
  _ ← pure (auth_if (bool_decide (opened_root <> InterChannelTransferDescriptor.tx_tree_root descriptor)));
  _ ← pure (auth_if (bool_decide (InterChannelTransferDescriptor.tx_hash descriptor ∈ accepted_inter_channel_txs p)));
  nonce ← pure (expected_nonce p channel);
  _ ← pure (auth_if (negb (InterChannelTx.base_nonce tx =? nonce)));
  num_users ← pure (ok_or (get_num_users 1 (supported_user_counts (witness p))) WalletAuthorization);
  _ ← pure (assert_that (0 <? num_users));
  let tx_v2_witness := single_tx_witness (Z.to_nat num_users) channel (InterChannelTransferDescriptor.tx_v2 descriptor)
    (InterChannelTransferDescriptor.tx_v2_merkle_proof descriptor) in
  on_candidate (
    attached_tx ← (match mode with
      | Verified => produce_inter_channel_block signed_state tx [1] timestamp tx_v2_witness
      | UnsignedStaging => _ ← produce_inter_channel_block_unsigned_staging signed_state tx [1] timestamp tx_v2_witness; mret tx
      end);
    _ ← modify (with_accepted_tx (InterChannelTransferDescriptor.tx_hash descriptor));
    _ ← modify (with_nonce channel (InterChannelTx.base_nonce tx));
    mret attached_tx).

Definition produce_inter_channel_descriptor_block (signed_state : ChannelState) (debit_payload : InterChannelDebitPayload)
    (descriptor : InterChannelTransferDescriptor) (timestamp : Z) : meth InterChannelTx.InterChannelTx :=
  produce_inter_channel_descriptor_block_with signed_state debit_payload descriptor timestamp Verified.

Definition produce_inter_channel_descriptor_block_unsigned_staging (proposed_state : ChannelState) (debit_payload : InterChannelDebitPayload)
    (descriptor : InterChannelTransferDescriptor) (timestamp : Z) : meth InterChannelTx.InterChannelTx :=
  produce_inter_channel_descriptor_block_with proposed_state debit_payload descriptor timestamp UnsignedStaging.

Definition produce_close_funding_block (signed_state : ChannelState) (plan : CloseFundingPlan) (timestamp : Z) : meth unit :=
  p ← self;
  let channel := CloseFundingPlan.source_channel_id plan in
  _ ← pure (auth_if (bool_decide (channel ∈ terminal_close_funding p)));
  previous ← pure (ok_or (channel_heads p !! channel) WalletAuthorization);
  _ ← pure (authorized (verify_close_funding_proposal previous signed_state plan));
  nonce ← pure (expected_nonce p channel);
  _ ← pure (auth_if (negb (CloseFundingPlan.base_nonce plan =? nonce)));
  num_users ← pure (ok_or (get_num_users 1 (supported_user_counts (witness p))) WalletAuthorization);
  _ ← pure (assert_that (0 <? num_users));
  on_candidate (
    _ ← produce_cosigned_block signed_state [1] timestamp (CloseFundingPlan.tx_tree_root plan)
          (single_tx_witness (Z.to_nat num_users) channel (CloseFundingPlan.tx_v2 plan) (CloseFundingPlan.tx_v2_merkle_proof plan));
    _ ← modify (with_nonce channel (CloseFundingPlan.base_nonce plan));
    modify (with_terminal channel)).

(** One iteration of [sync_offchain_heads]: the new [previous]. *)
Definition sync_step (channel : ChannelId) (record : ChannelRecord) (previous state : ChannelState) : res ChannelState :=
  _ ← auth_if (negb (ChannelState.channel_id state =? channel) || negb (ChannelFund.channel_id (ChannelState.channel_fund state) =? channel)
        || negb (BalanceState.channel_id (ChannelState.balance_state state) =? channel));
  _ ← authorized (verify_all_signatures record state);
  _ ← auth_if (bool_decide (ChannelState.h2_tag state <> bytes32_default));
  _ ← auth_if (bool_decide (ChannelState.prev_digest state <> ChannelState.digest previous));
  expected_epoch ← next 64 (ChannelState.epoch previous);
  expected_version ← next 64 (BalanceState.state_version (ChannelState.balance_state previous));
  max_small_block ← next 64 (ChannelState.small_block_number previous);
  _ ← auth_if (negb (ChannelState.epoch state =? expected_epoch)
        || negb (BalanceState.state_version (ChannelState.balance_state state) =? expected_version)
        || (ChannelState.small_block_number state <? ChannelState.small_block_number previous)
        || (max_small_block <? ChannelState.small_block_number state)
        || negb (ChannelState.close_freeze_nonce state =? ChannelState.close_freeze_nonce previous));
  Ok state.

Definition sync_offchain_heads (signed_states : list ChannelState) : meth ChannelId :=
  p ← self;
  first ← pure (ok_or (head signed_states) WalletAuthorization);
  let channel := ChannelState.channel_id first in
  _ ← pure (auth_if (bool_decide (channel ∈ terminal_close_funding p)));
  record ← pure (ok_or (channel_records p !! channel) WalletAuthorization);
  previous ← pure (ok_or (channel_heads p !! channel) WalletAuthorization);
  previous ← pure (res_foldl (sync_step channel record) previous signed_states);
  on_candidate (
    _ ← modify (with_head channel previous);
    candidate ← self;
    _ ← pure (invalid_if (holds_any_local_signing_keys candidate));
    mret channel).

Definition adopt_delegate_join (new_record : ChannelRecord) (signed_state : ChannelState) : meth unit :=
  p ← self;
  let channel := ChannelRecord.channel_id new_record in
  old ← pure (ok_or (channel_records p !! channel) WalletAuthorization);
  if bool_decide (ChannelRecord.signing_digest old = ChannelRecord.signing_digest new_record) then mret tt else
  _ ← pure (verify_delegates_appended old new_record);
  head ← pure (ok_or (channel_heads p !! channel) WalletAuthorization);
  _ ← pure (auth_if (negb (ChannelState.channel_id signed_state =? channel) || bool_decide (ChannelState.digest signed_state <> ChannelState.digest head)));
  _ ← pure (auth_if (negb (BalanceState.member_count (ChannelState.balance_state signed_state) =? ChannelRecord.member_count new_record)
        || negb (BalanceState.delegate_count (ChannelState.balance_state signed_state) =? ChannelRecord.delegate_count new_record)));
  _ ← pure (authorized (verify_all_signatures new_record signed_state));
  modify (with_record channel new_record).

End producer.
End ProductionBlockProducer.
Notation ProductionBlockProducer := ProductionBlockProducer.ProductionBlockProducer.
