(* ===== verification/ExitClaims.v ===== *)
(** * Leaving a closed channel

    Models the native side of [src/src/circuits/channel/]: the statements of
    the close ([close_pis.rs]), of its cancellation ([cancel_close_pis.rs]), of
    a member's withdrawal claim ([withdrawal_claim_pis.rs]) and of a claim for a
    transfer that arrived after the close ([post_close_claim_pis.rs]), with the
    witness checks that produce them and their word layout.

    The lattice STARK behind [verify_withdraw_claim] is a parameter. *)

From S2P Require Import Prelude Limbs Poseidon Keccak Regev BalanceState Account Ledger Balance Channel.

(** ** Words *)

(** [fn join_u64]: the shift drops what does not fit, as in a release build. *)
Definition join_u64 {E} (limbs : list Z) : res E Z :=
  hi ← unwrap (limbs !! 0%nat);
  lo ← unwrap (limbs !! 1%nat);
  Ok (Z.lor (wrap 64 (Z.shiftl hi 32)) lo).

(** [uN::try_from] on a [u64]. *)
Definition narrow {E} (width : Z) (e : E) (v : Z) : res E Z := if v <? 2 ^ width then Ok v else Err e.

(** A [Bytes32], [U256] or [Address] read from its words, with the error of the reader. *)
Definition read_limbs {E} (n : nat) (e : E) (words : list Z) : res E (Limbs n) := map_err (fun _ => e) (from_u64_slice n words).

Definition read_channel_id {E} (e : E) (words : list Z) : res E ChannelId := map_err (fun _ => e) (ChannelId.from_u64_slice words).

(** ** Close *)

Definition CHANNEL_CLOSE_PUBLIC_INPUTS_LEN : nat := 103.

Module ChannelClosePublicInputs.
Record ChannelClosePublicInputs := mk {
  channel_id : ChannelId;
  close_nonce : Z;
  final_epoch : Z;
  final_small_block_number : Z;
  close_freeze_nonce : Z;
  final_channel_state_digest : Bytes32;
  final_balance_state_h1 : Bytes32;
  channel_fund_amount : U256;
  channel_fund_intmax_state_root : Bytes32;
  burn_tx_hash : Bytes32;
  close_withdrawal_digest : Bytes32;
  close_intent_digest : Bytes32;
  snapshot_medium_block_number : Z;
  final_state_version : Z;
  final_settled_tx_chain : Bytes32;
  final_settled_tx_accumulator_root : Bytes32;
  member_set_commitment : Bytes32;
  member_count : Z;
  delegate_count : Z;
  token_funds_digest : Bytes32;
}.

Inductive Error := InvalidLength (expected actual : nat) | InvalidField.

Definition to_u64_vec (p : ChannelClosePublicInputs) : list Z :=
  ChannelId.to_u32_vec (channel_id p) ++ split_u64 (close_nonce p) ++ split_u64 (final_epoch p) ++ split_u64 (final_small_block_number p)
    ++ split_u64 (close_freeze_nonce p) ++ Limbs.to_u64_vec (final_channel_state_digest p) ++ Limbs.to_u64_vec (final_balance_state_h1 p)
    ++ Limbs.to_u64_vec (channel_fund_amount p) ++ Limbs.to_u64_vec (channel_fund_intmax_state_root p) ++ Limbs.to_u64_vec (burn_tx_hash p)
    ++ Limbs.to_u64_vec (close_withdrawal_digest p) ++ Limbs.to_u64_vec (close_intent_digest p) ++ split_u64 (snapshot_medium_block_number p)
    ++ split_u64 (final_state_version p) ++ Limbs.to_u64_vec (final_settled_tx_chain p)
    ++ Limbs.to_u64_vec (final_settled_tx_accumulator_root p) ++ Limbs.to_u64_vec (member_set_commitment p) ++ [member_count p]
    ++ [delegate_count p] ++ Limbs.to_u64_vec (token_funds_digest p).

Definition from_u64_slice (values : list Z) : res Error ChannelClosePublicInputs :=
  _ ← ensure (length values =? CHANNEL_CLOSE_PUBLIC_INPUTS_LEN)%nat (InvalidLength CHANNEL_CLOSE_PUBLIC_INPUTS_LEN (length values));
  channel_id ← read_channel_id InvalidField (slice 0 1 values);
  close_nonce ← join_u64 (slice 1 3 values);
  final_epoch ← join_u64 (slice 3 5 values);
  final_small_block_number ← join_u64 (slice 5 7 values);
  close_freeze_nonce ← join_u64 (slice 7 9 values);
  final_channel_state_digest ← read_limbs BYTES32_LEN InvalidField (slice 9 17 values);
  final_balance_state_h1 ← read_limbs BYTES32_LEN InvalidField (slice 17 25 values);
  channel_fund_amount ← read_limbs U256_LEN InvalidField (slice 25 33 values);
  channel_fund_intmax_state_root ← read_limbs BYTES32_LEN InvalidField (slice 33 41 values);
  burn_tx_hash ← read_limbs BYTES32_LEN InvalidField (slice 41 49 values);
  close_withdrawal_digest ← read_limbs BYTES32_LEN InvalidField (slice 49 57 values);
  close_intent_digest ← read_limbs BYTES32_LEN InvalidField (slice 57 65 values);
  snapshot_medium_block_number ← join_u64 (slice 65 67 values);
  final_state_version ← join_u64 (slice 67 69 values);
  final_settled_tx_chain ← read_limbs BYTES32_LEN InvalidField (slice 69 77 values);
  final_settled_tx_accumulator_root ← read_limbs BYTES32_LEN InvalidField (slice 77 85 values);
  member_set_commitment ← read_limbs BYTES32_LEN InvalidField (slice 85 93 values);
  member_count_word ← unwrap (values !! 93%nat);
  member_count ← narrow 8 InvalidField member_count_word;
  delegate_count_word ← unwrap (values !! 94%nat);
  delegate_count ← narrow 16 InvalidField delegate_count_word;
  token_funds_digest ← read_limbs BYTES32_LEN InvalidField (slice 95 103 values);
  Ok (mk channel_id close_nonce final_epoch final_small_block_number close_freeze_nonce final_channel_state_digest final_balance_state_h1
        channel_fund_amount channel_fund_intmax_state_root burn_tx_hash close_withdrawal_digest close_intent_digest
        snapshot_medium_block_number final_state_version final_settled_tx_chain final_settled_tx_accumulator_root member_set_commitment
        member_count delegate_count token_funds_digest).
End ChannelClosePublicInputs.
Notation ChannelClosePublicInputs := ChannelClosePublicInputs.ChannelClosePublicInputs.

#[global] Instance CloseIntent_eq_dec : EqDecision CloseIntent.
Proof. solve_decision. Defined.

Module ChannelCloseWitness.
Record ChannelCloseWitness := mk { final_channel_state : ChannelState; close_tx : CloseWithdrawal; close_intent : CloseIntent }.

Inductive Error := CloseBinding (e : ChannelError) | CloseIntentMismatch.

Definition to_public_inputs {K : Keccak} {P : Poseidon} (w : ChannelCloseWitness) : res Error ChannelClosePublicInputs :=
  expected_intent ← map_err CloseBinding (CloseIntent.new (final_channel_state w) (close_tx w));
  _ ← ensure (bool_decide (expected_intent = close_intent w)) CloseIntentMismatch;
  let intent := close_intent w in
  let fund := CloseIntent.channel_fund_snapshot intent in
  let balance := ChannelState.balance_state (final_channel_state w) in
  amount0 ← unwrap (ChannelFund.amounts fund !! 0%nat);
  Ok (ChannelClosePublicInputs.mk (CloseIntent.channel_id intent) (CloseIntent.close_nonce intent) (CloseIntent.final_epoch intent)
        (CloseIntent.final_small_block_number intent) (CloseIntent.close_freeze_nonce intent) (CloseIntent.final_channel_state_digest intent)
        (CloseIntent.final_balance_state_h1 intent) amount0 (ChannelFund.intmax_state_root fund) (CloseIntent.burn_tx_hash intent)
        (CloseIntent.close_withdrawal_digest intent) (CloseIntent.signing_digest intent) (CloseIntent.snapshot_medium_block_number intent)
        (CloseIntent.final_state_version intent) (CloseIntent.final_settled_tx_chain intent)
        (BalanceState.settled_tx_accumulator_root balance) bytes32_default (BalanceState.member_count balance)
        (BalanceState.delegate_count balance)
        (Channel.token_funds_digest (BalanceState.token_registry balance) (BalanceState.token_count balance) (ChannelFund.amounts fund))).
End ChannelCloseWitness.
Notation ChannelCloseWitness := ChannelCloseWitness.ChannelCloseWitness.

(** ** Cancellation of a close *)

Definition CANCEL_CLOSE_PUBLIC_INPUTS_LEN : nat := 29.

Module CancelClosePublicInputs.
Record CancelClosePublicInputs := mk {
  channel_id : ChannelId;
  close_intent_digest : Bytes32;
  member_set_commitment : Bytes32;
  close_final_state_version : Z;
  revived_state_version : Z;
  revived_channel_state_digest : Bytes32;
}.

(** [Result<_, String>]. *)
Inductive Error := Invalid.

Definition to_u64_vec (p : CancelClosePublicInputs) : list Z :=
  ChannelId.to_u32_vec (channel_id p) ++ Limbs.to_u64_vec (close_intent_digest p) ++ Limbs.to_u64_vec (member_set_commitment p)
    ++ split_u64 (close_final_state_version p) ++ split_u64 (revived_state_version p) ++ Limbs.to_u64_vec (revived_channel_state_digest p).

Definition from_u64_slice (values : list Z) : res Error CancelClosePublicInputs :=
  _ ← ensure (length values =? CANCEL_CLOSE_PUBLIC_INPUTS_LEN)%nat Invalid;
  channel_id ← read_channel_id Invalid (slice 0 1 values);
  close_intent_digest ← read_limbs BYTES32_LEN Invalid (slice 1 9 values);
  member_set_commitment ← read_limbs BYTES32_LEN Invalid (slice 9 17 values);
  close_final_state_version ← join_u64 (slice 17 19 values);
  revived_state_version ← join_u64 (slice 19 21 values);
  revived_channel_state_digest ← read_limbs BYTES32_LEN Invalid (slice 21 29 values);
  Ok (mk channel_id close_intent_digest member_set_commitment close_final_state_version revived_state_version revived_channel_state_digest).
End CancelClosePublicInputs.
Notation CancelClosePublicInputs := CancelClosePublicInputs.CancelClosePublicInputs.

Module CancelCloseWitness.
Record CancelCloseWitness := mk { revived_state : ChannelState; close_intent : CloseIntent }.

Inductive Error :=
| ChannelIdMismatch
| StaleRevivedState (revived close : Z)
| EraFenceMismatch (revived close : Z)
| EraNonceOverflow (revived : Z)
| RevivedDigestMismatch.

Definition to_public_inputs {K : Keccak} {P : Poseidon} (w : CancelCloseWitness) : res Error CancelClosePublicInputs :=
  let revived := revived_state w in
  let intent := close_intent w in
  _ ← ensure (ChannelState.channel_id revived =? CloseIntent.channel_id intent) ChannelIdMismatch;
  digest ← ChannelState.signing_digest revived;
  _ ← ensure (bool_decide (ChannelState.digest revived = digest)) RevivedDigestMismatch;
  let revived_version := BalanceState.state_version (ChannelState.balance_state revived) in
  _ ← ensure (CloseIntent.final_state_version intent <? revived_version)
        (StaleRevivedState revived_version (CloseIntent.final_state_version intent));
  revived_next_nonce ← ok_or (checked_add 64 (ChannelState.close_freeze_nonce revived) 1) (EraNonceOverflow (ChannelState.close_freeze_nonce revived));
  _ ← ensure (revived_next_nonce =? CloseIntent.close_freeze_nonce intent)
        (EraFenceMismatch (ChannelState.close_freeze_nonce revived) (CloseIntent.close_freeze_nonce intent));
  digest ← ChannelState.signing_digest revived;
  Ok (CancelClosePublicInputs.mk (CloseIntent.channel_id intent) (CloseIntent.signing_digest intent) bytes32_default
        (CloseIntent.final_state_version intent) revived_version digest).
End CancelCloseWitness.
Notation CancelCloseWitness := CancelCloseWitness.CancelCloseWitness.

(** ** Withdrawal claims *)

Inductive RegevSecurityLevel := Test | Production.

(** The decryption STARK: the public values are the key, the ciphertext and the amount. *)
Class ClaimStark := {
  verify_decryption : RegevSecurityLevel -> RegevPk -> RegevCiphertext -> Z -> list Z -> res RegevError unit;
}.

(** The key and the ciphertext are validated before the proof is touched. *)
Definition verify_withdraw_claim {CS : ClaimStark} (level : RegevSecurityLevel) (pk : RegevPk) (ct : RegevCiphertext) (amount : Z)
    (proof : list Z) : res RegevError unit :=
  _ ← Pk.validate pk;
  _ ← Ct.validate ct;
  verify_decryption level pk ct amount proof.

(** [Bytes32::from(pk.poseidon_digest())]. *)
Definition pk_digest {P : Poseidon} {E} (pk : RegevPk) : res E Bytes32 :=
  h ← Pk.poseidon_digest pk;
  phash_into_bytes32 h.

Module ChannelMember.
Record ChannelMember := mk { pk_g : Bytes32; member_slot : Z; l1_withdrawal_recipient : Address }.
End ChannelMember.
Notation ChannelMember := ChannelMember.ChannelMember.

Definition WITHDRAWAL_CLAIM_PUBLIC_INPUTS_LEN : nat := 50.

Module WithdrawalClaimPublicInputs.
Record WithdrawalClaimPublicInputs := mk {
  close_intent_digest : Bytes32;
  channel_id : ChannelId;
  final_balance_state_h1 : Bytes32;
  member_pk_g : Bytes32;
  recipient : Address;
  user_amount_digest : Bytes32;
  withdrawal_nullifier : Bytes32;
  amount : Z;
  token_slot : Z;
  token_index : Z;
}.

Inductive Error := Invalid.

Definition to_u64_vec (p : WithdrawalClaimPublicInputs) : list Z :=
  Limbs.to_u64_vec (close_intent_digest p) ++ ChannelId.to_u32_vec (channel_id p) ++ Limbs.to_u64_vec (final_balance_state_h1 p)
    ++ Limbs.to_u64_vec (member_pk_g p) ++ Limbs.to_u64_vec (recipient p) ++ Limbs.to_u64_vec (user_amount_digest p)
    ++ Limbs.to_u64_vec (withdrawal_nullifier p) ++ split_u64 (amount p) ++ [token_slot p] ++ [token_index p].

Definition from_u64_slice (values : list Z) : res Error WithdrawalClaimPublicInputs :=
  _ ← ensure (length values =? WITHDRAWAL_CLAIM_PUBLIC_INPUTS_LEN)%nat Invalid;
  close_intent_digest ← read_limbs BYTES32_LEN Invalid (slice 0 8 values);
  channel_id ← read_channel_id Invalid (slice 8 9 values);
  final_balance_state_h1 ← read_limbs BYTES32_LEN Invalid (slice 9 17 values);
  member_pk_g ← read_limbs BYTES32_LEN Invalid (slice 17 25 values);
  recipient ← read_limbs ADDRESS_LEN Invalid (slice 25 30 values);
  user_amount_digest ← read_limbs BYTES32_LEN Invalid (slice 30 38 values);
  withdrawal_nullifier ← read_limbs BYTES32_LEN Invalid (slice 38 46 values);
  amount ← join_u64 (slice 46 48 values);
  token_slot_word ← unwrap (values !! 48%nat);
  token_slot ← narrow 8 Invalid token_slot_word;
  token_index_word ← unwrap (values !! 49%nat);
  token_index ← narrow 32 Invalid token_index_word;
  Ok (mk close_intent_digest channel_id final_balance_state_h1 member_pk_g recipient user_amount_digest withdrawal_nullifier amount
        token_slot token_index).
End WithdrawalClaimPublicInputs.
Notation WithdrawalClaimPublicInputs := WithdrawalClaimPublicInputs.WithdrawalClaimPublicInputs.

Module WithdrawalClaimWitness.
Record WithdrawalClaimWitness := mk {
  close_intent : CloseIntent;
  close_tx : CloseWithdrawal;
  member : ChannelMember;
  claim : WithdrawalClaim;
  final_balance_state : BalanceState.BalanceState;
  member_index : nat;
  user_pk : RegevPk;
  amount : Z;
}.

(** Without the messages. *)
Inductive Error :=
| CloseIntentMismatch
| CloseWithdrawalMismatch
| RecipientMismatch
| NullifierMismatch
| FinalBalanceStateMismatch
| MemberSlotMismatch
| InvalidClaimProof.

Section checks.
Context {K : Keccak} {P : Poseidon} {CS : ClaimStark}.

(** The claim is for this close and this member, under the nullifier of the key and the token. *)
Definition check_claim (w : WithdrawalClaimWitness) : res Error unit :=
  let intent := close_intent w in
  let close := close_tx w in
  _ ← ensure (bool_decide (WithdrawalClaim.close_intent_digest (claim w) = CloseIntent.signing_digest intent)) CloseIntentMismatch;
  _ ← ensure (negb (bool_decide (CloseWithdrawal.signing_digest close <> CloseIntent.close_withdrawal_digest intent)
                    || bool_decide (CloseWithdrawal.final_balance_state_h1 close <> CloseIntent.final_balance_state_h1 intent)
                    || negb (CloseWithdrawal.channel_id close =? CloseIntent.channel_id intent))) CloseWithdrawalMismatch;
  _ ← ensure (negb (bool_decide (ChannelMember.pk_g (member w) <> WithdrawalClaim.member_pk_g (claim w))
                    || bool_decide (ChannelMember.l1_withdrawal_recipient (member w) <> WithdrawalClaim.l1_recipient (claim w)))) RecipientMismatch;
  slot_regev_pk_digest ← pk_digest (user_pk w);
  let expected_nullifier := WithdrawalClaim.derive_nullifier (CloseIntent.signing_digest intent) slot_regev_pk_digest (WithdrawalClaim.token_slot (claim w)) in
  _ ← ensure (bool_decide (expected_nullifier = WithdrawalClaim.withdrawal_nullifier (claim w))) NullifierMismatch;
  ensure (negb (Z.to_nat (BalanceState.token_count (final_balance_state w)) <=? Z.to_nat (WithdrawalClaim.token_slot (claim w)))%nat) MemberSlotMismatch.

(** The balance state is the one that was closed, and the claim is one of its cells. *)
Definition check_slot (w : WithdrawalClaimWitness) : res Error unit :=
  let balance := final_balance_state w in
  let intent := close_intent w in
  _ ← map_err (fun _ => FinalBalanceStateMismatch) (BalanceState.validate balance);
  h1 ← BalanceState.h1 balance;
  _ ← ensure (bool_decide (h1 = CloseIntent.final_balance_state_h1 intent)) FinalBalanceStateMismatch;
  _ ← ensure (BalanceState.channel_id balance =? CloseIntent.channel_id intent) FinalBalanceStateMismatch;
  _ ← ensure (negb (MAX_CHANNEL_MEMBERS <=? member_index w)%nat) MemberSlotMismatch;
  let active := (Z.to_nat (BalanceState.member_count balance) + Z.to_nat (BalanceState.delegate_count balance))%nat in
  _ ← ensure (negb (active <=? member_index w)%nat) MemberSlotMismatch;
  row ← unwrap (BalanceState.enc_balances balance !! member_index w);
  ct ← unwrap (row !! Z.to_nat (WithdrawalClaim.token_slot (claim w)));
  _ ← ensure (bool_decide (WithdrawalClaim.user_amount_ct (claim w) = ct)) MemberSlotMismatch;
  slot_recipient ← unwrap (BalanceState.recipients balance !! member_index w);
  ensure (bool_decide (ChannelMember.l1_withdrawal_recipient (member w) = slot_recipient)) RecipientMismatch.

Definition to_public_inputs_inner (w : WithdrawalClaimWitness) (level : RegevSecurityLevel) (verify_external_claim_proof : bool)
    : res Error WithdrawalClaimPublicInputs :=
  _ ← check_claim w;
  _ ← check_slot w;
  _ ← (if verify_external_claim_proof then
         map_err (fun _ => InvalidClaimProof)
           (verify_withdraw_claim level (user_pk w) (WithdrawalClaim.user_amount_ct (claim w)) (amount w) (WithdrawalClaim.claim_proof (claim w)))
       else Ok tt);
  user_amount_digest ← Ct.digest (WithdrawalClaim.user_amount_ct (claim w));
  token_index ← unwrap (BalanceState.token_registry (final_balance_state w) !! Z.to_nat (WithdrawalClaim.token_slot (claim w)));
  Ok (WithdrawalClaimPublicInputs.mk (CloseIntent.signing_digest (close_intent w)) (CloseIntent.channel_id (close_intent w))
        (CloseIntent.final_balance_state_h1 (close_intent w)) (ChannelMember.pk_g (member w)) (ChannelMember.l1_withdrawal_recipient (member w))
        user_amount_digest (WithdrawalClaim.withdrawal_nullifier (claim w)) (amount w) (WithdrawalClaim.token_slot (claim w)) token_index).

Definition to_public_inputs (w : WithdrawalClaimWitness) (level : RegevSecurityLevel) : res Error WithdrawalClaimPublicInputs :=
  to_public_inputs_inner w level true.

Definition to_public_inputs_for_in_circuit_decryption (w : WithdrawalClaimWitness) (level : RegevSecurityLevel)
    : res Error WithdrawalClaimPublicInputs :=
  to_public_inputs_inner w level false.

End checks.
End WithdrawalClaimWitness.
Notation WithdrawalClaimWitness := WithdrawalClaimWitness.WithdrawalClaimWitness.

(** ** Claims after the close *)

Definition POST_CLOSE_CLAIM_PUBLIC_INPUTS_LEN : nat := 58.

Module PostCloseClaimPublicInputs.
Record PostCloseClaimPublicInputs := mk {
  close_intent_digest : Bytes32;
  receiver_channel_id : ChannelId;
  incoming_tx_hash : Bytes32;
  receiver_pk_g : Bytes32;
  recipient : Address;
  shared_native_nullifier : Bytes32;
  amount : Z;
  final_balance_state_h1 : Bytes32;
  final_settled_tx_accumulator_root : Bytes32;
  token_index : Z;
}.

Inductive Error := Invalid.

(** The last word is the version of the statement. *)
Definition to_u64_vec (p : PostCloseClaimPublicInputs) : list Z :=
  Limbs.to_u64_vec (close_intent_digest p) ++ ChannelId.to_u32_vec (receiver_channel_id p) ++ Limbs.to_u64_vec (incoming_tx_hash p)
    ++ Limbs.to_u64_vec (receiver_pk_g p) ++ Limbs.to_u64_vec (recipient p) ++ Limbs.to_u64_vec (shared_native_nullifier p)
    ++ split_u64 (amount p) ++ Limbs.to_u64_vec (final_balance_state_h1 p) ++ Limbs.to_u64_vec (final_settled_tx_accumulator_root p)
    ++ [token_index p; 2].

Definition from_u64_slice (values : list Z) : res Error PostCloseClaimPublicInputs :=
  _ ← ensure (length values =? POST_CLOSE_CLAIM_PUBLIC_INPUTS_LEN)%nat Invalid;
  version ← unwrap (values !! 57%nat);
  _ ← ensure (version =? 2) Invalid;
  close_intent_digest ← read_limbs BYTES32_LEN Invalid (slice 0 8 values);
  receiver_channel_id ← read_channel_id Invalid (slice 8 9 values);
  incoming_tx_hash ← read_limbs BYTES32_LEN Invalid (slice 9 17 values);
  receiver_pk_g ← read_limbs BYTES32_LEN Invalid (slice 17 25 values);
  recipient ← read_limbs ADDRESS_LEN Invalid (slice 25 30 values);
  shared_native_nullifier ← read_limbs BYTES32_LEN Invalid (slice 30 38 values);
  amount ← join_u64 (slice 38 40 values);
  final_balance_state_h1 ← read_limbs BYTES32_LEN Invalid (slice 40 48 values);
  final_settled_tx_accumulator_root ← read_limbs BYTES32_LEN Invalid (slice 48 56 values);
  token_index_word ← unwrap (values !! 56%nat);
  token_index ← narrow 32 Invalid token_index_word;
  Ok (mk close_intent_digest receiver_channel_id incoming_tx_hash receiver_pk_g recipient shared_native_nullifier amount
        final_balance_state_h1 final_settled_tx_accumulator_root token_index).
End PostCloseClaimPublicInputs.
Notation PostCloseClaimPublicInputs := PostCloseClaimPublicInputs.PostCloseClaimPublicInputs.

Module PostCloseClaimWitness.
Record PostCloseClaimWitness := mk {
  close_intent_digest : Bytes32;
  closed_channel_id : ChannelId;
  source_tx : InterChannelTx;
  claim : PostCloseIncomingClaim;
  receiver_pk : RegevPk;
  amount : Z;
  final_balance_state : BalanceState.BalanceState;
  receiver_member_index : nat;
}.

Inductive Error :=
| CloseIntentDigestMismatch
| IncomingTxHashMismatch
| TxHashRecomputeMismatch
| ReceiverChannelMismatch
| ReceiverDeltaMismatch
| RecipientMismatch
| InvalidClaimProof.

Definition matching_delta (w : PostCloseClaimWitness) (receiver_pk_digest : Bytes32) : bool :=
  existsb (fun delta =>
    bool_decide (ReceiverBalanceDelta.receiver_pk_g delta = PostCloseIncomingClaim.receiver_pk_g (claim w))
    && bool_decide (ReceiverBalanceDelta.receiver_regev_pk_digest delta = receiver_pk_digest)
    && bool_decide (ReceiverBalanceDelta.amount delta = PostCloseIncomingClaim.receiver_amount (claim w)))
    (InterChannelTx.receiver_deltas (source_tx w)).

Definition to_public_inputs {K : Keccak} {P : Poseidon} {CS : ClaimStark} (w : PostCloseClaimWitness) (level : RegevSecurityLevel)
    : res Error PostCloseClaimPublicInputs :=
  let tx := source_tx w in
  let balance := final_balance_state w in
  _ ← ensure (bool_decide (PostCloseIncomingClaim.close_intent_digest (claim w) = close_intent_digest w)) CloseIntentDigestMismatch;
  _ ← ensure (bool_decide (PostCloseIncomingClaim.incoming_tx_hash (claim w) = InterChannelTx.tx_hash tx)) IncomingTxHashMismatch;
  _ ← ensure (InterChannelTx.destination_channel_id tx =? closed_channel_id w) ReceiverChannelMismatch;
  recomputed_tx_hash ← map_err (fun _ => TxHashRecomputeMismatch) (InterChannelTx.compute_tx_hash tx);
  _ ← ensure (bool_decide (recomputed_tx_hash = InterChannelTx.tx_hash tx)) TxHashRecomputeMismatch;
  receiver_pk_digest ← pk_digest (receiver_pk w);
  _ ← ensure (matching_delta w receiver_pk_digest) ReceiverDeltaMismatch;
  _ ← map_err (fun _ => InvalidClaimProof)
        (verify_withdraw_claim level (receiver_pk w) (PostCloseIncomingClaim.receiver_amount (claim w)) (amount w)
           (PostCloseIncomingClaim.claim_proof (claim w)));
  let active := (Z.to_nat (BalanceState.member_count balance) + Z.to_nat (BalanceState.delegate_count balance))%nat in
  _ ← ensure (negb (active <=? receiver_member_index w)%nat) ReceiverChannelMismatch;
  committed_pk_digest ← unwrap (BalanceState.regev_pk_digests balance !! receiver_member_index w);
  _ ← ensure (bool_decide (committed_pk_digest = receiver_pk_digest)) ReceiverDeltaMismatch;
  slot_recipient ← unwrap (BalanceState.recipients balance !! receiver_member_index w);
  _ ← ensure (bool_decide (PostCloseIncomingClaim.l1_recipient (claim w) = slot_recipient)) RecipientMismatch;
  h1 ← BalanceState.h1 balance;
  Ok (PostCloseClaimPublicInputs.mk (close_intent_digest w) (closed_channel_id w) (InterChannelTx.tx_hash tx)
        (PostCloseIncomingClaim.receiver_pk_g (claim w)) (PostCloseIncomingClaim.l1_recipient (claim w))
        (PostCloseIncomingClaim.shared_native_nullifier (claim w)) (amount w) h1 (BalanceState.settled_tx_accumulator_root balance)
        (InterChannelTx.token_index tx)).
End PostCloseClaimWitness.
Notation PostCloseClaimWitness := PostCloseClaimWitness.PostCloseClaimWitness.
