(* ===== verification/BlockChain.v ===== *)
(** * Validity: the chain of blocks

    The extended public state and the public inputs built from it
    ([ext_public_state.rs], [block_chain_pis.rs], [validity_circuit.rs]), the
    step that joins the update, deposit and registration proofs of a block
    ([block_step.rs]), and the processor that produces these proofs and then
    the step ([block_hash_chain_processor.rs]). *)

From S2P Require Import Prelude Limbs U63 Circuit MerkleTree LeafTrees Poseidon IndexedTree Keccak Regev BalanceState Account Ledger Balance Channel HashChains BlockStep.

#[local] Remove Hints Leafable_Bytes32 : typeclass_instances.

(** ** The extended public state *)

Module ExtendedPublicState.
Record ExtendedPublicState {P : Poseidon} := mk {
  inner : PublicState;
  block_hash_chain : Bytes32;
  deposit_hash_chain : Bytes32;
  deposit_count : U63.U63;
  channel_reg_hash_chain : Bytes32;
  bp_sig_chain : Bytes32;
}.
#[global] Arguments ExtendedPublicState : clear implicits.
#[global] Arguments ExtendedPublicState {P}.
#[global] Arguments mk {P}.

Inductive Error := InvalidLength | PublicStateFailed (e : PublicStateError) | Bytes32Failed.

Definition LEN : nat := PUBLIC_STATE_U64_LEN + 4 * BYTES32_LEN + 1.

Section state.
Context {P : Poseidon} {W : PoseidonWords P}.

Definition default : ExtendedPublicState :=
  mk public_state_default bytes32_default bytes32_default block_number_default bytes32_default bytes32_default.

Definition to_u64_vec (s : ExtendedPublicState) : list Z :=
  PublicState.to_u64_vec (inner s) ++ Limbs.to_u64_vec (block_hash_chain s)
    ++ Limbs.to_u64_vec (deposit_hash_chain s) ++ U63.to_u64_vec (deposit_count s)
    ++ Limbs.to_u64_vec (channel_reg_hash_chain s) ++ Limbs.to_u64_vec (bp_sig_chain s).

Definition commitment {E} (s : ExtendedPublicState) : res E Bytes32 :=
  phash_into_bytes32 (hash_inputs_u64 (to_u64_vec s)).

Definition from_u64_slice (values : list Z) : res Error ExtendedPublicState :=
  if bool_decide (length values <> LEN) then Err InvalidLength
  else
    inner ← map_err PublicStateFailed (public_state_from_u64_slice (slice 0 15 values));
    block_hash_chain ← map_err (fun _ => Bytes32Failed) (Limbs.from_u64_slice BYTES32_LEN (slice 15 23 values));
    deposit_hash_chain ← map_err (fun _ => Bytes32Failed) (Limbs.from_u64_slice BYTES32_LEN (slice 23 31 values));
    count_word ← unwrap (values !! 31%nat);
    deposit_count ← map_err (fun _ => InvalidLength) (U63.new count_word);
    channel_reg_hash_chain ← map_err (fun _ => Bytes32Failed) (Limbs.from_u64_slice BYTES32_LEN (slice 32 40 values));
    bp_sig_chain ← map_err (fun _ => Bytes32Failed) (Limbs.from_u64_slice BYTES32_LEN (slice 40 48 values));
    Ok (mk inner block_hash_chain deposit_hash_chain deposit_count channel_reg_hash_chain bp_sig_chain).

End state.
End ExtendedPublicState.
Notation ExtendedPublicState := ExtendedPublicState.ExtendedPublicState.

Module BlockChainPublicInputs.
Record BlockChainPublicInputs {P : Poseidon} := mk {
  initial_ext_public_state : ExtendedPublicState;
  ext_public_state : ExtendedPublicState;
  vd : VerifierData;
}.
#[global] Arguments BlockChainPublicInputs : clear implicits.
#[global] Arguments BlockChainPublicInputs {P}.
#[global] Arguments mk {P}.

Inductive Error := InvalidLength | ParseError.

Definition LEN : nat := 2 * ExtendedPublicState.LEN.

Section pis.
Context {P : Poseidon} {W : PoseidonWords P}.

Definition to_u64_vec {E} (cap_len : nat) (p : BlockChainPublicInputs) : res E (list Z) :=
  vd_words ← vd_to_vec cap_len (vd p);
  Ok (ExtendedPublicState.to_u64_vec (initial_ext_public_state p)
        ++ ExtendedPublicState.to_u64_vec (ext_public_state p) ++ vd_words).

Definition from_u64_slice (inputs : list Z) (cap_len : nat) : res Error BlockChainPublicInputs :=
  let vd_len := VerifierData.vec_len cap_len in
  if bool_decide (length inputs <> (LEN + vd_len)%nat) then Err InvalidLength
  else
    initial ← map_err (fun _ => ParseError) (ExtendedPublicState.from_u64_slice (slice 0 48 inputs));
    current ← map_err (fun _ => ParseError) (ExtendedPublicState.from_u64_slice (slice 48 96 inputs));
    vd ← map_err (fun _ => ParseError) (VerifierData.from_pis_slice (slice 96 (96 + vd_len) inputs) cap_len);
    Ok (mk initial current vd).

End pis.
End BlockChainPublicInputs.
Notation BlockChainPublicInputs := BlockChainPublicInputs.BlockChainPublicInputs.

Module ValidityPublicInputs.
Record ValidityPublicInputs := mk {
  initial_block_number : BlockNumber;
  initial_block_chain : Bytes32;
  initial_ext_commitment : Bytes32;
  final_block_number : BlockNumber;
  final_block_chain : Bytes32;
  final_ext_commitment : Bytes32;
  prover : Address;
}.

Definition from_states {P : Poseidon} {E} (initial final_state : ExtendedPublicState) (prover : Address)
    : res E ValidityPublicInputs :=
  initial_ext_commitment ← ExtendedPublicState.commitment initial;
  final_ext_commitment ← ExtendedPublicState.commitment final_state;
  Ok (mk (PublicState.block_number (ExtendedPublicState.inner initial)) (ExtendedPublicState.block_hash_chain initial)
        initial_ext_commitment
        (PublicState.block_number (ExtendedPublicState.inner final_state))
        (ExtendedPublicState.block_hash_chain final_state) final_ext_commitment prover).

Definition to_u32_vec (p : ValidityPublicInputs) : list Z :=
  U63.to_u32_vec (initial_block_number p) ++ Limbs.to_u32_vec (initial_block_chain p)
    ++ Limbs.to_u32_vec (initial_ext_commitment p) ++ U63.to_u32_vec (final_block_number p)
    ++ Limbs.to_u32_vec (final_block_chain p) ++ Limbs.to_u32_vec (final_ext_commitment p)
    ++ Limbs.to_u32_vec (prover p).

Definition hash {K : Keccak} (p : ValidityPublicInputs) : Bytes32 := solidity_keccak256 (to_u32_vec p).
End ValidityPublicInputs.
Notation ValidityPublicInputs := ValidityPublicInputs.ValidityPublicInputs.

(** ** The block step *)

Inductive BlockStepError :=
| BlockInvalidInput
| BlockInvalidProof
| MissingUpdateUserVerifierData (n : Z)
| BlockDepositPis (e : DepositChainPublicInputs.Error)
| BlockChannelRegPis (e : ChannelRegChainPublicInputs.Error)
| BlockChainPis (e : BlockChainPublicInputs.Error)
| BlockUpdateUserPis (e : UpdateUserTreeError)
| PublicStateMerkleProof
| BlockFailedToProve.

(** The [HashMap] collected from the list of verifiers: a later entry replaces an earlier one. *)
Definition collect_vds {PL : Plonky2} (vds : list (Z * VerifierCircuitData)) : gmap Z VerifierCircuitData :=
  foldl (fun m e => <[e.1 := e.2]> m) ∅ vds.

Module BlockStepWitness.
Record BlockStepWitness {P : Poseidon} {PL : Plonky2} := mk {
  num_users : Z;
  initial_public_state : option ExtendedPublicState;
  prev_block_chain_proof : option Proof;
  deposit_hash_chain_proof : option Proof;
  channel_reg_hash_chain_proof : option Proof;
  update_user_proof : Proof;
  public_state_merkle_proof : MerkleProof;
}.
#[global] Arguments BlockStepWitness : clear implicits.
#[global] Arguments BlockStepWitness {P PL}.
#[global] Arguments mk {P PL}.

Section step.
Context {P : Poseidon} {W : PoseidonWords P} {PL : Plonky2}.

Notation invalid_unless b := (ensure b BlockInvalidInput).

Definition previous (w : BlockStepWitness) (block_chain_vd : VerifierCircuitData)
    : res BlockStepError BlockChainPublicInputs :=
  match prev_block_chain_proof w with
  | Some prev_proof =>
      _ ← ensure (vd_verify block_chain_vd prev_proof) BlockInvalidProof;
      map_err BlockChainPis (BlockChainPublicInputs.from_u64_slice (public_inputs prev_proof)
        (cap_elements (vd_common block_chain_vd)))
  | None =>
      initial_state ← ok_or (initial_public_state w) BlockInvalidInput;
      Ok (BlockChainPublicInputs.mk initial_state initial_state (vd_only block_chain_vd))
  end.

(** The update proof, and its agreement with the previous state. *)
Definition update_inputs (w : BlockStepWitness) (update_account_vds : list (Z * VerifierCircuitData))
    (prev : ExtendedPublicState) : res BlockStepError (UpdateUserPublicInputs * BlockNumber) :=
  update_vd ← ok_or (collect_vds update_account_vds !! num_users w) (MissingUpdateUserVerifierData (num_users w));
  _ ← ensure (vd_verify update_vd (update_user_proof w)) BlockInvalidProof;
  update ← map_err BlockUpdateUserPis (UpdateUserPublicInputs.from_u64_slice (public_inputs (update_user_proof w)));
  let prev_public_state := ExtendedPublicState.inner prev in
  block_number ← map_err (fun _ => BlockInvalidInput) (U63.add (PublicState.block_number prev_public_state) 1);
  _ ← invalid_unless (bool_decide (UpdateUserPublicInputs.block_number update = block_number));
  _ ← invalid_unless (bool_decide (UpdateUserPublicInputs.prev_account_tree_root update
                                    = PublicState.account_tree_root prev_public_state));
  _ ← invalid_unless (bool_decide (UpdateUserPublicInputs.prev_block_hash_chain update
                                    = ExtendedPublicState.block_hash_chain prev));
  _ ← invalid_unless (bool_decide (UpdateUserPublicInputs.prev_bp_sig_chain update
                                    = ExtendedPublicState.bp_sig_chain prev));
  Ok (update, block_number).

(** The deposit chain, root and count after the block. *)
Definition deposit_part (w : BlockStepWitness) (deposit_chain_vd : VerifierCircuitData)
    (prev : ExtendedPublicState) (update : UpdateUserPublicInputs) (block_number : BlockNumber)
    : res BlockStepError (Bytes32 * PHash * U63.U63) :=
  let prev_public_state := ExtendedPublicState.inner prev in
  if bool_decide (ExtendedPublicState.deposit_hash_chain prev = UpdateUserPublicInputs.deposit_hash_chain update)
  then Ok (ExtendedPublicState.deposit_hash_chain prev, PublicState.deposit_tree_root prev_public_state,
           ExtendedPublicState.deposit_count prev)
  else
    deposit_proof ← ok_or (deposit_hash_chain_proof w) BlockInvalidInput;
    _ ← ensure (vd_verify deposit_chain_vd deposit_proof) BlockInvalidProof;
    inputs ← map_err BlockDepositPis (DepositChainPublicInputs.from_u64_slice (public_inputs deposit_proof)
      (cap_elements (vd_common deposit_chain_vd)));
    _ ← invalid_unless (bool_decide (DepositChainPublicInputs.initial_deposit_hash_chain inputs
                                      = ExtendedPublicState.deposit_hash_chain prev));
    _ ← invalid_unless (bool_decide (DepositChainPublicInputs.initial_deposit_tree_root inputs
                                      = PublicState.deposit_tree_root prev_public_state));
    _ ← invalid_unless (bool_decide (DepositChainPublicInputs.initial_deposit_count inputs
                                      = ExtendedPublicState.deposit_count prev));
    _ ← invalid_unless (bool_decide (DepositChainPublicInputs.deposit_hash_chain inputs
                                      = UpdateUserPublicInputs.deposit_hash_chain update));
    _ ← invalid_unless (bool_decide (DepositChainPublicInputs.block_number inputs = block_number));
    Ok (DepositChainPublicInputs.deposit_hash_chain inputs, DepositChainPublicInputs.deposit_tree_root inputs,
        DepositChainPublicInputs.deposit_count inputs).

(** The registration chain and the account root after the block. *)
Definition channel_reg_part (w : BlockStepWitness) (channel_reg_chain_vd : VerifierCircuitData)
    (prev : ExtendedPublicState) (update : UpdateUserPublicInputs) (block_number : BlockNumber)
    : res BlockStepError (Bytes32 * PHash) :=
  match channel_reg_hash_chain_proof w with
  | None => Ok (ExtendedPublicState.channel_reg_hash_chain prev, UpdateUserPublicInputs.new_account_tree_root update)
  | Some proof =>
      _ ← ensure (vd_verify channel_reg_chain_vd proof) BlockInvalidProof;
      inputs ← map_err BlockChannelRegPis (ChannelRegChainPublicInputs.from_u64_slice (public_inputs proof)
        (cap_elements (vd_common channel_reg_chain_vd)));
      _ ← invalid_unless (bool_decide (ChannelRegChainPublicInputs.initial_channel_reg_hash_chain inputs
                                        = ExtendedPublicState.channel_reg_hash_chain prev));
      _ ← invalid_unless (bool_decide (ChannelRegChainPublicInputs.initial_channel_tree_root inputs
                                        = PublicState.account_tree_root (ExtendedPublicState.inner prev)));
      _ ← invalid_unless (bool_decide (ChannelRegChainPublicInputs.block_number inputs = block_number));
      _ ← invalid_unless (bool_decide (UpdateUserPublicInputs.new_account_tree_root update
                                        = UpdateUserPublicInputs.prev_account_tree_root update));
      Ok (ChannelRegChainPublicInputs.channel_reg_hash_chain inputs, ChannelRegChainPublicInputs.channel_tree_root inputs)
  end.

Definition to_public_inputs (w : BlockStepWitness) (block_chain_vd : VerifierCircuitData)
    (update_account_vds : list (Z * VerifierCircuitData))
    (deposit_chain_vd channel_reg_chain_vd : VerifierCircuitData) : res BlockStepError BlockChainPublicInputs :=
  prev_inputs ← previous w block_chain_vd;
  let prev := BlockChainPublicInputs.ext_public_state prev_inputs in
  let prev_public_state := ExtendedPublicState.inner prev in
  '(update, block_number) ← update_inputs w update_account_vds prev;
  '(deposit_hash_chain, deposit_tree_root, deposit_count) ← deposit_part w deposit_chain_vd prev update block_number;
  '(channel_reg_hash_chain, account_tree_root) ← channel_reg_part w channel_reg_chain_vd prev update block_number;
  let changed := negb (bool_decide (channel_reg_hash_chain = ExtendedPublicState.channel_reg_hash_chain prev)) in
  _ ← invalid_unless (Bool.eqb changed (bool_decide (is_Some (channel_reg_hash_chain_proof w))));
  _ ← invalid_unless (bool_decide (UpdateUserPublicInputs.channel_reg_hash_chain update = channel_reg_hash_chain));
  let index := U63.as_u64 (PublicState.block_number prev_public_state) in
  _ ← map_err (fun _ => PublicStateMerkleProof)
    (proof_verify (public_state_merkle_proof w) (empty_leaf (V := PublicState)) index
       (PublicState.prev_public_state_root prev_public_state));
  prev_public_state_root ← proof_get_root (public_state_merkle_proof w) prev_public_state index;
  let new_public_state := PublicState.mk block_number (UpdateUserPublicInputs.block_timestamp update)
    account_tree_root deposit_tree_root prev_public_state_root in
  Ok (BlockChainPublicInputs.mk (BlockChainPublicInputs.initial_ext_public_state prev_inputs)
        (ExtendedPublicState.mk new_public_state (UpdateUserPublicInputs.new_block_hash_chain update)
           deposit_hash_chain deposit_count channel_reg_hash_chain (UpdateUserPublicInputs.new_bp_sig_chain update))
        (BlockChainPublicInputs.vd prev_inputs)).

End step.
End BlockStepWitness.
Notation BlockStepWitness := BlockStepWitness.BlockStepWitness.

(** ** The processor *)

Module BlockHashChainProcessorWitness.
Record BlockHashChainProcessorWitness {P : Poseidon} := mk {
  deposit_step_witness : list (Deposit * MerkleProof);
  channel_reg_step_witness : list (ChannelRegRecord * MerkleProof);
  block : Block;
  prev_account_leaves : list ChannelLeaf;
  user_merkle_proofs : list MerkleProof;
  send_merkle_proofs : list MerkleProof;
  public_state_merkle_proof : MerkleProof;
  member_leaves : option (list MemberLeaf);
  new_member_leaves : option (list MemberLeaf);
  signer_count : option Z;
  member_regev_pks : option (list RegevPk);
  channel_state_fields : option ChannelStateMessageFields;
  tx_v2_indices : option (list Z);
  tx_v2s : option (list TxV2);
  tx_v2_merkle_proofs : option (list MerkleProof);
  channel_action_indices : option (list Z);
  channel_actions : option (list ChannelAction);
  channel_action_merkle_proofs : option (list MerkleProof);
}.
#[global] Arguments BlockHashChainProcessorWitness : clear implicits.
#[global] Arguments BlockHashChainProcessorWitness {P}.
#[global] Arguments mk {P}.

Definition dummy_regev_pk : RegevPk := mkPk (replicate REGEV_N 0) (replicate REGEV_N 0).

(** Every absent part is replaced by its dummy. *)
Definition to_update_channel_tree {P : Poseidon} (w : BlockHashChainProcessorWitness) (prev : ExtendedPublicState)
    (block_number : BlockNumber) : UpdateUserTree :=
  let n := Z.to_nat (Block.num_users (block w)) in
  let dummies := replicate n (proof_dummy (Hs := PoseidonLeafableHasher) TX_TREE_HEIGHT) in
  UpdateUserTree.mk (ExtendedPublicState.block_hash_chain prev)
    (PublicState.account_tree_root (ExtendedPublicState.inner prev)) block_number (block w)
    (prev_account_leaves w) (user_merkle_proofs w) (send_merkle_proofs w) (ExtendedPublicState.bp_sig_chain prev)
    (default (replicate MAX_SIG_CLUSTER empty_leaf) (member_leaves w)) (default [] (new_member_leaves w))
    (default 0 (signer_count w)) (default (replicate n dummy_regev_pk) (member_regev_pks w))
    (default ChannelStateMessageFields.default (channel_state_fields w))
    (default (replicate n 0) (tx_v2_indices w)) (default (replicate n TxV2.default) (tx_v2s w))
    (default dummies (tx_v2_merkle_proofs w))
    (default (replicate n 0) (channel_action_indices w)) (default (replicate n ChannelAction.default) (channel_actions w))
    (default dummies (channel_action_merkle_proofs w)).
End BlockHashChainProcessorWitness.
Notation BlockHashChainProcessorWitness := BlockHashChainProcessorWitness.BlockHashChainProcessorWitness.

(** The circuits of the block chain; the update circuit is built for a number of users, the outer
    circuit for the list of supported numbers. *)
Class BlockProvers {P : Poseidon} {PL : Plonky2} := {
  block_chain_cd : CommonData;
  update_user_vd : Z -> VerifierCircuitData;
  update_user_data_prove : Z -> UpdateUserTree -> UpdateUserPublicInputs -> option Proof;
  block_step_data_prove : list Z -> BlockStepWitness -> BlockChainPublicInputs -> option Proof;
  block_chain_vd : list Z -> VerifierCircuitData;
  block_chain_data_prove : list Z -> Proof -> option Proof;
}.

Class BlockProversOk {P : Poseidon} {W : PoseidonWords P} {PL : Plonky2} (BP : BlockProvers) : Prop := {
  update_user_exposes n w pis p : update_user_data_prove n w pis = Some p ->
    UpdateUserPublicInputs.from_u64_slice (public_inputs p) = Ok pis;
  block_step_exposes counts w pis p : block_step_data_prove counts w pis = Some p ->
    BlockChainPublicInputs.from_u64_slice (public_inputs p)
      (cap_elements (vd_common (block_chain_vd counts))) = Ok pis;
  block_chain_forwards counts p q : block_chain_data_prove counts p = Some q -> public_inputs q = public_inputs p;
}.

Inductive UpdateUserCircuitError := UpdateTreeError (e : UpdateUserTreeError) | UpdateFailedToProve.

Module BlockStepCircuit.
Record BlockStepCircuit {PL : Plonky2} := mk {
  block_chain_cd : CommonData;
  deposit_chain_common : CommonData;
  channel_reg_chain_common : CommonData;
  supported_user_counts : list Z;
}.
#[global] Arguments BlockStepCircuit : clear implicits.
#[global] Arguments BlockStepCircuit {PL}.
#[global] Arguments mk {PL}.

Section circuit.
Context {P : Poseidon} {W : PoseidonWords P} {PL : Plonky2} {BP : BlockProvers}.

Definition new (block_chain_cd : CommonData) (update_account_vds : list (Z * VerifierCircuitData))
    (deposit_chain_vd channel_reg_chain_vd : VerifierCircuitData) : BlockStepCircuit :=
  mk block_chain_cd (vd_common deposit_chain_vd) (vd_common channel_reg_chain_vd) (fst <$> update_account_vds).

Definition prove (c : BlockStepCircuit) (block_chain_vd : VerifierCircuitData)
    (update_account_vds : list (Z * VerifierCircuitData))
    (deposit_chain_vd channel_reg_chain_vd : VerifierCircuitData) (w : BlockStepWitness)
    : res BlockStepError Proof :=
  _ ← ensure (bool_decide (vd_common block_chain_vd = block_chain_cd c)) BlockInvalidInput;
  _ ← ensure (bool_decide (vd_common deposit_chain_vd = deposit_chain_common c)) BlockInvalidInput;
  _ ← ensure (bool_decide (vd_common channel_reg_chain_vd = channel_reg_chain_common c)) BlockInvalidInput;
  _ ← ensure (length update_account_vds =? length (supported_user_counts c))%nat BlockInvalidInput;
  _ ← res_forall (fun e => ensure (e.1 =? e.2.1) BlockInvalidInput)
    (zip (supported_user_counts c) update_account_vds);
  new_public_inputs ← BlockStepWitness.to_public_inputs w block_chain_vd update_account_vds deposit_chain_vd
    channel_reg_chain_vd;
  ok_or (block_step_data_prove (supported_user_counts c) w new_public_inputs) BlockFailedToProve.

End circuit.
End BlockStepCircuit.
Notation BlockStepCircuit := BlockStepCircuit.BlockStepCircuit.

Inductive BlockHashChainProcessorError :=
| UnsupportedUserCount (n : Z)
| ProcessorInvalidInput
| ProcessorDeposit (e : DepositChainProcessorError)
| ProcessorChannelReg (e : ChannelRegChainProcessorError)
| ProcessorUpdateUser (e : UpdateUserCircuitError)
| ProcessorBlockStep (e : BlockStepError)
| ProcessorBlockHashChain.

Module BlockHashChainProcessor.
Record BlockHashChainProcessor {PL : Plonky2} := mk {
  block_hash_chain_vd : VerifierCircuitData;
  block_step_circuit : BlockStepCircuit;
  update_account_vds : list (Z * VerifierCircuitData);
  update_user_circuits : gset Z;
}.
#[global] Arguments BlockHashChainProcessor : clear implicits.
#[global] Arguments BlockHashChainProcessor {PL}.
#[global] Arguments mk {PL}.

Section processor.
Context {P : Poseidon} {W : PoseidonWords P} {K : Keccak} {PL : Plonky2} {CP : ChainProvers} {BP : BlockProvers}.

Definition new {E} (counts : list Z) : res E BlockHashChainProcessor :=
  _ ← assert_that (negb (bool_decide (length counts = 0%nat)));
  let update_account_vds := (fun n => (n, update_user_vd n)) <$> counts in
  Ok (mk (block_chain_vd counts)
        (BlockStepCircuit.new block_chain_cd update_account_vds deposit_chain_vd channel_reg_chain_vd)
        update_account_vds (list_to_set counts)).

(** [UpdateUserCircuit::prove]. *)
Definition update_user_prove (num_users : Z) (w : UpdateUserTree) : res UpdateUserCircuitError Proof :=
  public_inputs ← map_err UpdateTreeError (UpdateUserTree.to_public_inputs w);
  ok_or (update_user_data_prove num_users w public_inputs) UpdateFailedToProve.

(** [BlockHashChainCircuit::verify] and [prove]. *)
Definition verify (c : BlockHashChainProcessor) (proof : Proof) : res BlockHashChainProcessorError unit :=
  _ ← ensure (cyclic_check (block_hash_chain_vd c) proof) ProcessorBlockHashChain;
  ensure (vd_verify (block_hash_chain_vd c) proof) ProcessorBlockHashChain.

Definition previous_state (c : BlockHashChainProcessor) (initial_public_state : option ExtendedPublicState)
    (prev_block_chain_proof : option Proof) : res BlockHashChainProcessorError ExtendedPublicState :=
  match prev_block_chain_proof with
  | Some proof =>
      _ ← verify c proof;
      prev_pis ← map_err (fun _ => ProcessorInvalidInput) (BlockChainPublicInputs.from_u64_slice
        (public_inputs proof) (cap_elements (vd_common (block_hash_chain_vd c))));
      Ok (BlockChainPublicInputs.ext_public_state prev_pis)
  | None => ok_or initial_public_state ProcessorInvalidInput
  end.

(** One iteration of the deposit loop: the first step starts from the previous state. *)
Definition prove_deposit (prev : ExtendedPublicState) (proof : option Proof) (e : Deposit * MerkleProof)
    : res BlockHashChainProcessorError (option Proof) :=
  let initial_value := match proof with
    | None => Some (ExtendedPublicState.deposit_hash_chain prev,
                    PublicState.deposit_tree_root (ExtendedPublicState.inner prev),
                    ExtendedPublicState.deposit_count prev)
    | Some _ => None
    end in
  next ← map_err ProcessorDeposit (deposit_prove_step (DepositStepWitness.mk initial_value proof e.1 e.2));
  Ok (Some next).

Definition prove_registration (prev : ExtendedPublicState) (block_number : BlockNumber) (proof : option Proof)
    (e : ChannelRegRecord * MerkleProof) : res BlockHashChainProcessorError (option Proof) :=
  let initial_value := match proof with
    | None => Some (ExtendedPublicState.channel_reg_hash_chain prev,
                    PublicState.account_tree_root (ExtendedPublicState.inner prev), block_number_default)
    | Some _ => None
    end in
  next ← map_err ProcessorChannelReg
    (channel_reg_prove_step (ChannelRegStepWitness.mk initial_value proof e.1 e.2 block_number));
  Ok (Some next).

Definition prove_block (c : BlockHashChainProcessor) (initial_public_state : option ExtendedPublicState)
    (prev_block_chain_proof : option Proof) (w : BlockHashChainProcessorWitness)
    : res BlockHashChainProcessorError Proof :=
  let num_users := Block.num_users (BlockHashChainProcessorWitness.block w) in
  _ ← ensure (bool_decide (num_users ∈ update_user_circuits c)) (UnsupportedUserCount num_users);
  _ ← ensure (exactly_one initial_public_state prev_block_chain_proof) ProcessorInvalidInput;
  prev ← previous_state c initial_public_state prev_block_chain_proof;
  deposit_chain_proof ← res_foldl (prove_deposit prev) None (BlockHashChainProcessorWitness.deposit_step_witness w);
  block_number ← map_err (fun _ => ProcessorInvalidInput)
    (U63.add (PublicState.block_number (ExtendedPublicState.inner prev)) 1);
  channel_reg_chain_proof ← res_foldl (prove_registration prev block_number) None
    (BlockHashChainProcessorWitness.channel_reg_step_witness w);
  update_user_proof ← map_err ProcessorUpdateUser (update_user_prove num_users
    (BlockHashChainProcessorWitness.to_update_channel_tree w prev block_number));
  block_step_proof ← map_err ProcessorBlockStep (BlockStepCircuit.prove (block_step_circuit c)
    (block_hash_chain_vd c) (update_account_vds c) deposit_chain_vd channel_reg_chain_vd
    (BlockStepWitness.mk num_users initial_public_state prev_block_chain_proof deposit_chain_proof
       channel_reg_chain_proof update_user_proof (BlockHashChainProcessorWitness.public_state_merkle_proof w)));
  ok_or (block_chain_data_prove (BlockStepCircuit.supported_user_counts (block_step_circuit c)) block_step_proof)
    ProcessorBlockHashChain.

End processor.
End BlockHashChainProcessor.
Notation BlockHashChainProcessor := BlockHashChainProcessor.BlockHashChainProcessor.
