(* ===== verification/Withdrawal.v ===== *)
(** * Withdrawals

    Models [src/src/circuits/withdraw/] and [common/withdrawal.rs] on the native
    side: one withdrawal, which shows that a transfer to an L1 address was sent
    by a channel and is in its proven state ([single_withdrawal_circuit.rs]);
    the chain that collects withdrawals under one public state
    ([withdrawal_step.rs], [withdrawal_chain_circuit.rs],
    [withdrawal_processor.rs]); and the statement of the final proof
    ([withdrawal_circuit.rs]).

    The circuits are the class [WithdrawalProvers], in the style of
    [ChainProvers]. *)

From S2P Require Import Prelude Limbs U63 Circuit MerkleTree LeafTrees Poseidon IndexedTree Keccak Regev BalanceState Account Ledger Balance Channel HashChains BlockStep BlockChain.

#[local] Remove Hints Leafable_Bytes32 : typeclass_instances.

(** ** [Withdrawal] *)

Definition WITHDRAWAL_LEN : nat := ADDRESS_LEN + 1 + U256_LEN + 2 * BYTES32_LEN.

Module Withdrawal.
Record Withdrawal := mk {
  recipient : Address;
  token_index : Z;
  amount : U256;
  nullifier : Bytes32;
  aux_data : Bytes32;
}.

#[global] Instance Withdrawal_eq_dec : EqDecision Withdrawal.
Proof. solve_decision. Defined.

Definition to_u32_vec (w : Withdrawal) : list Z :=
  Limbs.to_u32_vec (recipient w) ++ [token_index w] ++ Limbs.to_u32_vec (amount w)
    ++ Limbs.to_u32_vec (nullifier w) ++ Limbs.to_u32_vec (aux_data w).

Definition from_u32_slice (words : list Z) : res CommonError Withdrawal :=
  if bool_decide (length words <> WITHDRAWAL_LEN) then Err InvalidData
  else
    recipient ← expect (Limbs.from_u32_slice ADDRESS_LEN (slice 0 5 words));
    token_index ← unwrap (words !! 5%nat);
    amount ← expect (Limbs.from_u32_slice U256_LEN (slice 6 14 words));
    nullifier ← expect (Limbs.from_u32_slice BYTES32_LEN (slice 14 22 words));
    aux_data ← expect (Limbs.from_u32_slice BYTES32_LEN (slice 22 30 words));
    Ok (mk recipient token_index amount nullifier aux_data).

Definition from_u64_slice (words : list Z) : res CommonError Withdrawal :=
  u32_words ← res_mapM (fun x => if x <? 2 ^ 32 then Ok x else Err InvalidData) words;
  from_u32_slice u32_words.

Definition hash_with_prev_hash {K : Keccak} (w : Withdrawal) (prev_withdrawal_hash : Bytes32) : Bytes32 :=
  solidity_keccak256 (Limbs.to_u32_vec prev_withdrawal_hash ++ to_u32_vec w).
End Withdrawal.
Notation Withdrawal := Withdrawal.Withdrawal.

(** ** One withdrawal *)

Definition SINGLE_WITHDRAWAL_PUBLIC_INPUTS_LEN : nat := PUBLIC_STATE_U64_LEN + WITHDRAWAL_LEN.

Module SingleWithdawalPublicInputs.
Record SingleWithdawalPublicInputs {P : Poseidon} := mk {
  public_state : PublicState;
  withdrawal : Withdrawal;
}.
#[global] Arguments SingleWithdawalPublicInputs : clear implicits.
#[global] Arguments SingleWithdawalPublicInputs {P}.
#[global] Arguments mk {P}.

Inductive Error := InvalidLength | PublicStateFailed (e : PublicStateError) | WithdrawalFailed.

Section pis.
Context {P : Poseidon} {W : PoseidonWords P}.

Definition to_u64_vec (p : SingleWithdawalPublicInputs) : list Z :=
  PublicState.to_u64_vec (public_state p) ++ Withdrawal.to_u32_vec (withdrawal p).

Definition from_u64_slice (values : list Z) : res Error SingleWithdawalPublicInputs :=
  if bool_decide (length values <> SINGLE_WITHDRAWAL_PUBLIC_INPUTS_LEN) then Err InvalidLength
  else
    public_state ← map_err PublicStateFailed (public_state_from_u64_slice (slice 0 15 values));
    withdrawal ← map_err (fun _ => WithdrawalFailed) (Withdrawal.from_u64_slice (slice 15 45 values));
    Ok (mk public_state withdrawal).

End pis.
End SingleWithdawalPublicInputs.
Notation SingleWithdawalPublicInputs := SingleWithdawalPublicInputs.SingleWithdawalPublicInputs.

Inductive SingleWithdawalWitnessError :=
| BalanceProofVerification
| BalancePublicInputsFailed
| PrivateStateCommitmentMismatch
| WithdrawalTxMerkleProof
| WithdrawalTxV2MerkleProof
| WithdrawalTransferWitness
| WithdrawalInvalidRecipient
| WithdrawalInconsistentWitness
| WithdrawalAccountState
| WithdrawalUpdatePublicState
| BalancePublicStateMismatch.

Module SingleWithdawalWitness.
Record SingleWithdawalWitness {P : Poseidon} {BP : BalanceProofs} := mk {
  balance_proof : BalanceProof;
  private_state : PrivateState;
  update_public_state : UpdatePublicState;
  account_state : AccountState;
  tx_merkle_proof : MerkleProof;
  tx_v2_merkle_proof : option MerkleProof;
  tx_v2 : option TxV2;
  tx : Tx;
  sent_tx_merkle_proof : MerkleProof;
  transfer_witness : TransferWitness;
}.
#[global] Arguments SingleWithdawalWitness : clear implicits.
#[global] Arguments SingleWithdawalWitness {P BP}.
#[global] Arguments mk {P BP}.
End SingleWithdawalWitness.
Notation SingleWithdawalWitness := SingleWithdawalWitness.SingleWithdawalWitness.

(** ** The withdrawal chain *)

Definition WITHDRAWAL_STEP_PUBLIC_INPUTS_LEN : nat := BYTES32_LEN + PUBLIC_STATE_U64_LEN.

Module WithdrawalStepPublicInputs.
Record WithdrawalStepPublicInputs {P : Poseidon} := mk {
  withdrawal_hash_chain : Bytes32;
  public_state : PublicState;
  vd : VerifierData;
}.
#[global] Arguments WithdrawalStepPublicInputs : clear implicits.
#[global] Arguments WithdrawalStepPublicInputs {P}.
#[global] Arguments mk {P}.

Inductive Error := InvalidLength | WithdrawalHashFailed | VerifierDataFailed | PublicStateFailed.

Section pis.
Context {P : Poseidon} {W : PoseidonWords P}.

Definition to_u64_vec {E} (cap_len : nat) (p : WithdrawalStepPublicInputs) : res E (list Z) :=
  vd_words ← vd_to_vec cap_len (vd p);
  Ok (Limbs.to_u64_vec (withdrawal_hash_chain p) ++ PublicState.to_u64_vec (public_state p) ++ vd_words).

Definition from_u64_slice (inputs : list Z) (cap_len : nat) : res Error WithdrawalStepPublicInputs :=
  let vd_len := VerifierData.vec_len cap_len in
  if bool_decide (length inputs <> (WITHDRAWAL_STEP_PUBLIC_INPUTS_LEN + vd_len)%nat) then Err InvalidLength
  else
    withdrawal_hash_chain ← map_err (fun _ => WithdrawalHashFailed) (Limbs.from_u64_slice BYTES32_LEN (slice 0 8 inputs));
    public_state ← map_err (fun _ => PublicStateFailed) (public_state_from_u64_slice (slice 8 23 inputs));
    vd ← map_err (fun _ => VerifierDataFailed) (VerifierData.from_pis_slice (slice 23 (23 + vd_len) inputs) cap_len);
    Ok (mk withdrawal_hash_chain public_state vd).

End pis.
End WithdrawalStepPublicInputs.
Notation WithdrawalStepPublicInputs := WithdrawalStepPublicInputs.WithdrawalStepPublicInputs.

Inductive WithdrawalStepError :=
| StepInvalidInput
| StepInvalidProof
| StepFailedToProve
| StepUpdatePublicState (e : UpdatePublicStateError)
| StepPublicInputs (e : WithdrawalStepPublicInputs.Error)
| StepSingleWithdrawalPublicInputs (e : SingleWithdawalPublicInputs.Error).

Module WithdrawalStepWitness.
Record WithdrawalStepWitness {P : Poseidon} {PL : Plonky2} := mk {
  prev_withdrawal_chain_proof : option Proof;
  single_withdrawal_proof : Proof;
  update_public_state : UpdatePublicState;
}.
#[global] Arguments WithdrawalStepWitness : clear implicits.
#[global] Arguments WithdrawalStepWitness {P PL}.
#[global] Arguments mk {P PL}.
End WithdrawalStepWitness.
Notation WithdrawalStepWitness := WithdrawalStepWitness.WithdrawalStepWitness.

(** The circuits of withdrawals: the two checks on a balance proof, verifier data, and [data.prove]
    with the public inputs of the witness. *)
Class WithdrawalProvers {P : Poseidon} {BP : BalanceProofs} {PL : Plonky2} := {
  balance_cyclic_check : BalanceProof -> bool;
  balance_verify : BalanceProof -> bool;
  single_withdrawal_vd : VerifierCircuitData;
  single_withdrawal_data_prove : SingleWithdawalWitness -> SingleWithdawalPublicInputs -> option Proof;
  withdrawal_chain_vd : VerifierCircuitData;
  withdrawal_step_data_prove : WithdrawalStepWitness -> WithdrawalStepPublicInputs -> option Proof;
  withdrawal_chain_data_prove : Proof -> option Proof;
  withdrawal_data_prove : Proof -> Address -> ExtendedPublicState -> list Z -> option Proof;
}.

(** [&inputs[..len]]: out of range on a shorter list. *)
Definition slice_to {E A} (len : nat) (inputs : list A) : res E (list A) :=
  if (len <=? length inputs)%nat then Ok (take len inputs) else Panic.

Section withdraw.
Context {P : Poseidon} {W : PoseidonWords P} {K : Keccak} {BP : BalanceProofs} {PL : Plonky2} {WP : WithdrawalProvers}.
Import SingleWithdawalWitness.

(** The inclusion of the transaction in the tree of the block, in either form. *)
Definition withdrawal_tx_included (w : SingleWithdawalWitness) (channel_id : ChannelId) (tx_tree_root : PHash)
    : res SingleWithdawalWitnessError unit :=
  match tx_v2 w, tx_v2_merkle_proof w with
  | Some tx_v2, Some tx_v2_merkle_proof =>
      _ ← map_err (fun _ => WithdrawalTxV2MerkleProof) (proof_verify tx_v2_merkle_proof tx_v2 channel_id tx_tree_root);
      _ ← ensure (bool_decide (TxV2.tx_class tx_v2 = UserTransfer)) WithdrawalInconsistentWitness;
      _ ← ensure (bool_decide (TxV2.channel_action_root tx_v2 = phash_default)) WithdrawalInconsistentWitness;
      _ ← ensure (bool_decide (TxV2.transfer_tree_root tx_v2 = Tx.transfer_tree_root (tx w))) WithdrawalInconsistentWitness;
      ensure (TxV2.nonce tx_v2 =? Tx.nonce (tx w)) WithdrawalInconsistentWitness
  | None, None =>
      map_err (fun _ => WithdrawalTxMerkleProof) (proof_verify (tx_merkle_proof w) (tx w) channel_id tx_tree_root)
  | _, _ => Err WithdrawalInconsistentWitness
  end.

Definition single_to_public_inputs (w : SingleWithdawalWitness)
    : res SingleWithdawalWitnessError SingleWithdawalPublicInputs :=
  _ ← ensure (balance_cyclic_check (balance_proof w)) BalanceProofVerification;
  _ ← ensure (balance_verify (balance_proof w)) BalanceProofVerification;
  '(balance_pis, _) ← map_err (fun _ => BalancePublicInputsFailed)
    (full_pis_from_u64_slice (balance_public_inputs (balance_proof w)));
  let channel_id := BalancePublicInputs.channel_id balance_pis in
  _ ← ensure (bool_decide (BalancePublicInputs.private_commitment balance_pis
                            = PrivateState.commitment (private_state w))) PrivateStateCommitmentMismatch;
  _ ← map_err (fun _ => WithdrawalUpdatePublicState) (UpdatePublicState.verify (update_public_state w));
  _ ← ensure (bool_decide (UpdatePublicState.old (update_public_state w) = BalancePublicInputs.public_state balance_pis))
    BalancePublicStateMismatch;
  let public_state := UpdatePublicState.new (update_public_state w) in
  _ ← map_err (fun _ => WithdrawalTxMerkleProof)
    (proof_verify (sent_tx_merkle_proof w) (tx w) (Tx.nonce (tx w)) (PrivateState.sent_tx_tree_root (private_state w)));
  _ ← ensure (bool_decide (TransferWitness.transfer_tree_root (transfer_witness w) = Tx.transfer_tree_root (tx w)))
    WithdrawalInconsistentWitness;
  _ ← map_err (fun _ => WithdrawalTransferWitness) (TransferWitness.verify (transfer_witness w));
  _ ← ensure (AccountState.channel_id (account_state w) =? channel_id) WithdrawalInconsistentWitness;
  _ ← ensure (bool_decide (AccountState.account_tree_root (account_state w) = PublicState.account_tree_root public_state))
    WithdrawalInconsistentWitness;
  _ ← map_err (fun _ => WithdrawalAccountState) (AccountState.verify (account_state w));
  let tx_tree_root := reduce_to_hash_out (SendLeaf.tx_tree_root (AccountState.send_leaf (account_state w))) in
  _ ← withdrawal_tx_included w channel_id tx_tree_root;
  let transfer := TransferWitness.transfer (transfer_witness w) in
  recipient ← map_err (fun _ => WithdrawalInvalidRecipient) (extract_address_from_recipient (Transfer.recipient transfer));
  let settled_transfer := SettledTransfer.mk transfer channel_id (TransferWitness.transfer_index (transfer_witness w))
    (Tx.nonce (tx w)) in
  nullifier ← SettledTransfer.nullifier settled_transfer;
  Ok (SingleWithdawalPublicInputs.mk public_state
        (Withdrawal.mk recipient (Transfer.token_index transfer) (Transfer.amount transfer) nullifier
           (Transfer.aux_data transfer))).

Inductive SingleWithdawalCircuitError := SingleWitnessFailed (e : SingleWithdawalWitnessError) | SingleFailedToProve.

Definition single_prove (w : SingleWithdawalWitness) : res SingleWithdawalCircuitError Proof :=
  public_inputs ← map_err SingleWitnessFailed (single_to_public_inputs w);
  ok_or (single_withdrawal_data_prove w public_inputs) SingleFailedToProve.

(** ** The step *)

Definition step_to_public_inputs (w : WithdrawalStepWitness) : res WithdrawalStepError WithdrawalStepPublicInputs :=
  let update := WithdrawalStepWitness.update_public_state w in
  let single_proof := WithdrawalStepWitness.single_withdrawal_proof w in
  _ ← map_err StepUpdatePublicState (UpdatePublicState.verify update);
  _ ← ensure (vd_verify single_withdrawal_vd single_proof) StepInvalidProof;
  single_words ← slice_to SINGLE_WITHDRAWAL_PUBLIC_INPUTS_LEN (public_inputs single_proof);
  single_inputs ← map_err StepSingleWithdrawalPublicInputs (SingleWithdawalPublicInputs.from_u64_slice single_words);
  _ ← ensure (bool_decide (SingleWithdawalPublicInputs.public_state single_inputs = UpdatePublicState.old update))
    StepInvalidInput;
  prev_hash ← match WithdrawalStepWitness.prev_withdrawal_chain_proof w with
    | Some prev_proof =>
        _ ← ensure (vd_verify withdrawal_chain_vd prev_proof) StepInvalidProof;
        prev_inputs ← map_err StepPublicInputs (WithdrawalStepPublicInputs.from_u64_slice (public_inputs prev_proof)
          (cap_elements (vd_common withdrawal_chain_vd)));
        _ ← ensure (bool_decide (WithdrawalStepPublicInputs.public_state prev_inputs = UpdatePublicState.new update))
          StepInvalidInput;
        Ok (WithdrawalStepPublicInputs.withdrawal_hash_chain prev_inputs)
    | None => Ok bytes32_default
    end;
  Ok (WithdrawalStepPublicInputs.mk
        (Withdrawal.hash_with_prev_hash (SingleWithdawalPublicInputs.withdrawal single_inputs) prev_hash)
        (UpdatePublicState.new update) (vd_only withdrawal_chain_vd)).

Inductive WithdrawalCircuitError := WithdrawalInvalidPublicInputs | WithdrawalFailedToProve.

Inductive WithdrawalProcessorError :=
| WithdrawalStepFailed (e : WithdrawalStepError)
| WithdrawalChainFailed
| WithdrawalCircuitFailed (e : WithdrawalCircuitError).

(** [WithdrawalStepCircuit::prove], then [WithdrawalChainCircuit::prove]. *)
Definition withdrawal_prove_step (w : WithdrawalStepWitness) : res WithdrawalProcessorError Proof :=
  step_proof ← map_err WithdrawalStepFailed
    (new_pis ← step_to_public_inputs w;
     ok_or (withdrawal_step_data_prove w new_pis) StepFailedToProve);
  ok_or (withdrawal_chain_data_prove step_proof) WithdrawalChainFailed.

End withdraw.

(** ** The final proof *)

(** [Bytes32::remove_3bits]. *)
Definition remove_3bits {E} (b : Bytes32) : res E Bytes32 :=
  match limbs b with
  | l :: ls => expect (Limbs.from_u32_slice BYTES32_LEN (Z.land l (2 ^ 29 - 1) :: ls))
  | [] => Panic
  end.

Definition WITHDRAWAL_PROOF_PUBLIC_INPUTS_LEN : nat := BYTES32_LEN + ADDRESS_LEN + BYTES32_LEN + 2.

Module WithdrawalProofPublicInputs.
Record WithdrawalProofPublicInputs := mk {
  withdrawal_hash : Bytes32;
  withdrawal_prover : Address;
  ext_public_state_commitment : Bytes32;
  block_number : BlockNumber;
}.

Definition to_u32_vec (p : WithdrawalProofPublicInputs) : list Z :=
  Limbs.to_u32_vec (withdrawal_hash p) ++ Limbs.to_u32_vec (withdrawal_prover p)
    ++ Limbs.to_u32_vec (ext_public_state_commitment p) ++ U63.to_u32_vec (block_number p).

Definition from_u32_slice (words : list Z) : res WithdrawalCircuitError WithdrawalProofPublicInputs :=
  if bool_decide (length words <> WITHDRAWAL_PROOF_PUBLIC_INPUTS_LEN) then Err WithdrawalInvalidPublicInputs
  else
    withdrawal_hash ← expect (Limbs.from_u32_slice BYTES32_LEN (slice 0 8 words));
    withdrawal_prover ← expect (Limbs.from_u32_slice ADDRESS_LEN (slice 8 13 words));
    ext_public_state_commitment ← expect (Limbs.from_u32_slice BYTES32_LEN (slice 13 21 words));
    block_number ← map_err (fun _ => WithdrawalInvalidPublicInputs) (U63.from_u32_slice (slice 21 23 words));
    Ok (mk withdrawal_hash withdrawal_prover ext_public_state_commitment block_number).

(** A word that does not fit 32 bits is an assertion, not an error. *)
Definition from_u64_slice (words : list Z) : res WithdrawalCircuitError WithdrawalProofPublicInputs :=
  if bool_decide (length words <> WITHDRAWAL_PROOF_PUBLIC_INPUTS_LEN) then Err WithdrawalInvalidPublicInputs
  else
    inputs ← res_mapM (fun x => _ ← assert_that (x <=? 2 ^ 32 - 1); Ok (wrap 32 x)) words;
    from_u32_slice inputs.

Definition hash {K : Keccak} {E} (p : WithdrawalProofPublicInputs) : res E Bytes32 :=
  remove_3bits (solidity_keccak256 (to_u32_vec p)).
End WithdrawalProofPublicInputs.
Notation WithdrawalProofPublicInputs := WithdrawalProofPublicInputs.WithdrawalProofPublicInputs.

Module WithdrawalCircuit.
Section circuit.
Context {P : Poseidon} {W : PoseidonWords P} {K : Keccak} {BP : BalanceProofs} {PL : Plonky2} {WP : WithdrawalProvers}.

(** The public inputs that [WithdrawalCircuit::new] registers: the chain proof is verified, the chain
    hash and the public state are read off it, and the extended state is connected to that public
    state. *)
Definition registered_inputs (proof : Proof) (withdrawal_prover : Address) (ext_public_state : ExtendedPublicState)
    : res WithdrawalCircuitError (list Z) :=
  _ ← ensure (cyclic_check withdrawal_chain_vd proof && vd_verify withdrawal_chain_vd proof) WithdrawalFailedToProve;
  withdrawal_hash ← map_err (fun _ => WithdrawalFailedToProve)
    (Limbs.from_u64_slice BYTES32_LEN (slice 0 8 (public_inputs proof)));
  _ ← ensure (bool_decide (slice 8 23 (public_inputs proof) = PublicState.to_u64_vec (ExtendedPublicState.inner ext_public_state)))
    WithdrawalFailedToProve;
  ext_public_state_commitment ← ExtendedPublicState.commitment ext_public_state;
  let block_number := PublicState.block_number (ExtendedPublicState.inner ext_public_state) in
  pis_hash ← WithdrawalProofPublicInputs.hash
    (WithdrawalProofPublicInputs.mk withdrawal_hash withdrawal_prover ext_public_state_commitment block_number);
  Ok (Limbs.to_u64_vec pis_hash ++ Limbs.to_u64_vec ext_public_state_commitment ++ U63.to_u64_vec block_number).

Definition prove (proof : Proof) (withdrawal_prover : Address) (ext_public_state : ExtendedPublicState)
    : res WithdrawalCircuitError Proof :=
  inputs ← registered_inputs proof withdrawal_prover ext_public_state;
  ok_or (withdrawal_data_prove proof withdrawal_prover ext_public_state inputs) WithdrawalFailedToProve.

Definition prove_final (proof : Proof) (withdrawal_prover : Address) (ext_public_state : ExtendedPublicState)
    : res WithdrawalProcessorError Proof :=
  map_err WithdrawalCircuitFailed (prove proof withdrawal_prover ext_public_state).

End circuit.
End WithdrawalCircuit.

(** ** What the code relies on *)

(** A proof exposes the public inputs it was made for; the outer circuit forwards those of the step. *)
Class WithdrawalProversOk {P : Poseidon} {W : PoseidonWords P} {BP : BalanceProofs} {PL : Plonky2} (WP : WithdrawalProvers)
    : Prop := {
  single_exposes w pis p : single_withdrawal_data_prove w pis = Some p ->
    exists words, slice_to (E := unit) SINGLE_WITHDRAWAL_PUBLIC_INPUTS_LEN (public_inputs p) = Ok words /\
      SingleWithdawalPublicInputs.from_u64_slice words = Ok pis;
  withdrawal_step_exposes w pis p : withdrawal_step_data_prove w pis = Some p ->
    WithdrawalStepPublicInputs.from_u64_slice (public_inputs p) (cap_elements (vd_common withdrawal_chain_vd)) = Ok pis;
  withdrawal_chain_forwards p q : withdrawal_chain_data_prove p = Some q -> public_inputs q = public_inputs p;
  withdrawal_exposes p a e inputs q : withdrawal_data_prove p a e inputs = Some q -> public_inputs q = inputs;
}.
