(* ===== verification/Payout.v ===== *)
(** * The journal of partial withdrawals

    Models [src/src/partial_withdrawal_payout.rs] and the checkpoints of
    [src/src/l1_finality.rs]: the candidate that is being paid, its phases, the
    checks of every phase, the durable snapshot with its byte format, and the
    store that runs the phases and writes the snapshot before it answers.

    The file named by the path of a store is part of the state.  A write can
    fail before or after the new file replaced the old one; [Fault] says where.
    The JSON codecs and the byte-wise Keccak are parameters.  The checks of the
    path, of the file mode and of the lock are left out: they can only refuse
    to open a store. *)

From S2P Require Import Prelude Limbs U63 Circuit MerkleTree LeafTrees Poseidon IndexedTree Keccak Regev BalanceState Account Ledger Balance Channel HashChains BlockStep BlockChain Withdrawal.

(** ** Finality of L1 blocks *)

Definition ANVIL_CHAIN_ID : Z := 31337.

Inductive L1FinalitySource := RpcFinalized | DevnetLatest.

#[global] Instance L1FinalitySource_eq_dec : EqDecision L1FinalitySource.
Proof. solve_decision. Defined.

Module L1FinalizedCheckpoint.
Record L1FinalizedCheckpoint := mk { chain_id : Z; block_number : Z; block_hash : Bytes32; parent_hash : Bytes32; source : L1FinalitySource }.

#[global] Instance L1FinalizedCheckpoint_eq_dec : EqDecision L1FinalizedCheckpoint.
Proof. solve_decision. Defined.

(** [Result<_, String>]. *)
Inductive Error := Refused.

Definition validate (c : L1FinalizedCheckpoint) : res Error unit :=
  _ ← ensure (negb (chain_id c =? 0)) Refused;
  _ ← ensure (bool_decide (block_hash c <> bytes32_default)) Refused;
  _ ← ensure (negb (negb (block_number c =? 0) && bool_decide (parent_hash c = bytes32_default))) Refused;
  ensure (negb (bool_decide (source c = DevnetLatest) && negb (chain_id c =? ANVIL_CHAIN_ID))) Refused.

Definition covers_receipt (c : L1FinalizedCheckpoint) (number : Z) (hash : Bytes32) : res Error unit :=
  _ ← validate c;
  _ ← ensure (bool_decide (hash <> bytes32_default)) Refused;
  _ ← ensure (negb (block_number c <? number)) Refused;
  ensure (negb ((number =? block_number c) && bool_decide (hash <> block_hash c))) Refused.
End L1FinalizedCheckpoint.
Notation L1FinalizedCheckpoint := L1FinalizedCheckpoint.L1FinalizedCheckpoint.

(** ** Data *)

(** [Option::is_some]. *)
Definition is_some {A} (o : option A) : bool := match o with Some _ => true | None => false end.

(** The errors without their messages. *)
Inductive PartialWithdrawalPayoutError := InvalidRequest | Conflict | Snapshot | Locked | Poisoned.

Inductive PartialWithdrawalLane := Native | Erc20.

#[global] Instance PartialWithdrawalLane_eq_dec : EqDecision PartialWithdrawalLane.
Proof. solve_decision. Defined.

(** A [String] that is only inspected: its characters.  One that is hashed: its bytes. *)
Definition is_whitespace (c : Z) : bool :=
  ((9 <=? c) && (c <=? 13)) || (c =? 32) || (c =? 133) || (c =? 160) || (c =? 5760) || ((8192 <=? c) && (c <=? 8202))
    || (c =? 8232) || (c =? 8233) || (c =? 8239) || (c =? 8287) || (c =? 12288).

Module BlockProducerReceipt.
Record BlockProducerReceipt := mk {
  request_id : list Z;
  generation : Z;
  entry_hash : Bytes32;
  block_number : Z;
  timestamp : Z;
  extended_state_commitment : Bytes32;
  bp_sig_chain : Bytes32;
}.

#[global] Instance BlockProducerReceipt_eq_dec : EqDecision BlockProducerReceipt.
Proof. solve_decision. Defined.
End BlockProducerReceipt.
Notation BlockProducerReceipt := BlockProducerReceipt.BlockProducerReceipt.

Module BlockProducerAnchor.
Record BlockProducerAnchor := mk {
  generation : Z;
  entry_hash : Bytes32;
  block_number : Z;
  timestamp : Z;
  extended_state_commitment : Bytes32;
  bp_sig_chain : Bytes32;
}.

#[global] Instance BlockProducerAnchor_eq_dec : EqDecision BlockProducerAnchor.
Proof. solve_decision. Defined.
End BlockProducerAnchor.
Notation BlockProducerAnchor := BlockProducerAnchor.BlockProducerAnchor.

Module PartialWithdrawalProofMetrics.
Record PartialWithdrawalProofMetrics := mk {
  single_withdrawal_millis : Z;
  withdrawal_chain_millis : Z;
  withdrawal_final_millis : Z;
  wrap_mle_millis : Z;
  single_withdrawal_proof_bytes : Z;
  withdrawal_chain_proof_bytes : Z;
  withdrawal_final_proof_bytes : Z;
  mle_json_bytes : Z;
  peak_rss_bytes : option Z;
}.

#[global] Instance PartialWithdrawalProofMetrics_eq_dec : EqDecision PartialWithdrawalProofMetrics.
Proof. solve_decision. Defined.
End PartialWithdrawalProofMetrics.
Notation PartialWithdrawalProofMetrics := PartialWithdrawalProofMetrics.PartialWithdrawalProofMetrics.

Module PartialWithdrawalProofArtifacts.
Record PartialWithdrawalProofArtifacts := mk {
  withdrawal : Withdrawal;
  withdrawal_prover : Address;
  payout_json : list Z;
  withdrawal_mle_json : list Z;
  producer_anchor : BlockProducerAnchor;
  metrics : PartialWithdrawalProofMetrics;
}.

#[global] Instance PartialWithdrawalProofArtifacts_eq_dec : EqDecision PartialWithdrawalProofArtifacts.
Proof. solve_decision. Defined.
End PartialWithdrawalProofArtifacts.
Notation PartialWithdrawalProofArtifacts := PartialWithdrawalProofArtifacts.PartialWithdrawalProofArtifacts.

Module PreparePartialWithdrawalPayout.
Record PreparePartialWithdrawalPayout := mk {
  chain_id : Z;
  rollup : Address;
  channel_id : ChannelId;
  signed_head_digest : Bytes32;
  burn_base_nonce : Z;
  producer_receipt : BlockProducerReceipt;
  artifacts : PartialWithdrawalProofArtifacts;
}.
End PreparePartialWithdrawalPayout.
Notation PreparePartialWithdrawalPayout := PreparePartialWithdrawalPayout.PreparePartialWithdrawalPayout.

Inductive L1CallKind := RegisterSettlementManager | WithdrawNative | WithdrawErc20 | PullNative | PullErc20.

#[global] Instance L1CallKind_eq_dec : EqDecision L1CallKind.
Proof. solve_decision. Defined.

Module L1TransactionReceipt.
Record L1TransactionReceipt := mk {
  tx_hash : Bytes32;
  block_hash : Bytes32;
  block_number : Z;
  chain_id : Z;
  from : Address;
  to : Address;
  success : bool;
  call_kind : L1CallKind;
  calldata_hash : Bytes32;
  transaction_nonce : Z;
  finalized_checkpoint : L1FinalizedCheckpoint;
}.

#[global] Instance L1TransactionReceipt_eq_dec : EqDecision L1TransactionReceipt.
Proof. solve_decision. Defined.
End L1TransactionReceipt.
Notation L1TransactionReceipt := L1TransactionReceipt.L1TransactionReceipt.

Module BroadcastIntent.
Record BroadcastIntent := mk { caller : Address; start_block : Z; caller_nonce : Z; calldata_hash : Bytes32; credit_before : U256 }.

#[global] Instance BroadcastIntent_eq_dec : EqDecision BroadcastIntent.
Proof. solve_decision. Defined.
End BroadcastIntent.
Notation BroadcastIntent := BroadcastIntent.BroadcastIntent.

Module PayoutConfirmation.
Record PayoutConfirmation := mk {
  receipt : L1TransactionReceipt;
  finalized_anchor_observed : bool;
  nullifier_used_observed : bool;
  credit_before : U256;
  credit_after : U256;
}.

#[global] Instance PayoutConfirmation_eq_dec : EqDecision PayoutConfirmation.
Proof. solve_decision. Defined.
End PayoutConfirmation.
Notation PayoutConfirmation := PayoutConfirmation.PayoutConfirmation.

Module PullConfirmation.
Record PullConfirmation := mk { receipt : L1TransactionReceipt; credit_before : U256; credit_after : U256 }.

#[global] Instance PullConfirmation_eq_dec : EqDecision PullConfirmation.
Proof. solve_decision. Defined.
End PullConfirmation.
Notation PullConfirmation := PullConfirmation.PullConfirmation.

Module PartialWithdrawalCandidate.
Record PartialWithdrawalCandidate := mk {
  candidate_id : Bytes32;
  chain_id : Z;
  rollup : Address;
  channel_id : ChannelId;
  signed_head_digest : Bytes32;
  burn_base_nonce : Z;
  producer_receipt : BlockProducerReceipt;
  lane : PartialWithdrawalLane;
  artifacts : PartialWithdrawalProofArtifacts;
  payout_broadcast : option BroadcastIntent;
  payout_tx_hashes : list Bytes32;
  payout_confirmation : option PayoutConfirmation;
  recipient_pull_delegated : bool;
  pull_broadcast : option BroadcastIntent;
  pull_tx_hashes : list Bytes32;
  pull_confirmation : option PullConfirmation;
}.

#[global] Instance PartialWithdrawalCandidate_eq_dec : EqDecision PartialWithdrawalCandidate.
Proof. solve_decision. Defined.

Definition is_complete (c : PartialWithdrawalCandidate) : bool :=
  is_some (payout_confirmation c) && (is_some (pull_confirmation c) || recipient_pull_delegated c).

(** The proved withdrawal. *)
Definition withdrawal (c : PartialWithdrawalCandidate) : Withdrawal := PartialWithdrawalProofArtifacts.withdrawal (artifacts c).

(** Assignments to the fields of the phases. *)
Definition with_payout (c : PartialWithdrawalCandidate) (broadcast : option BroadcastIntent) (hashes : list Bytes32)
    (confirmation : option PayoutConfirmation) : PartialWithdrawalCandidate :=
  mk (candidate_id c) (chain_id c) (rollup c) (channel_id c) (signed_head_digest c) (burn_base_nonce c) (producer_receipt c) (lane c) (artifacts c)
    broadcast hashes confirmation (recipient_pull_delegated c) (pull_broadcast c) (pull_tx_hashes c) (pull_confirmation c).

Definition with_pull (c : PartialWithdrawalCandidate) (delegated : bool) (broadcast : option BroadcastIntent) (hashes : list Bytes32)
    (confirmation : option PullConfirmation) : PartialWithdrawalCandidate :=
  mk (candidate_id c) (chain_id c) (rollup c) (channel_id c) (signed_head_digest c) (burn_base_nonce c) (producer_receipt c) (lane c) (artifacts c)
    (payout_broadcast c) (payout_tx_hashes c) (payout_confirmation c) delegated broadcast hashes confirmation.
End PartialWithdrawalCandidate.
Notation PartialWithdrawalCandidate := PartialWithdrawalCandidate.PartialWithdrawalCandidate.

(** ** Resuming after a crash *)

(** [PartialWithdrawalOnchainState] has one field. *)
Record PartialWithdrawalOnchainState := mk_onchain { nullifier_used : bool }.

Inductive PartialWithdrawalResumeAction := BroadcastPayout | ReconcilePayout | ContinueAfterPayout.

Definition partial_withdrawal_resume_action (candidate : PartialWithdrawalCandidate) (state : PartialWithdrawalOnchainState)
    : res PartialWithdrawalPayoutError PartialWithdrawalResumeAction :=
  match PartialWithdrawalCandidate.payout_confirmation candidate, PartialWithdrawalCandidate.payout_broadcast candidate with
  | Some _, _ => if negb (nullifier_used state) then Err Conflict else Ok ContinueAfterPayout
  | None, Some _ => Ok ReconcilePayout
  | None, None => if nullifier_used state then Err Conflict else Ok BroadcastPayout
  end.

Module PayoutSnapshot.
Record PayoutSnapshot := mk { version : Z; active : option PartialWithdrawalCandidate; completed_nullifiers : list Bytes32 }.

#[global] Instance PayoutSnapshot_eq_dec : EqDecision PayoutSnapshot.
Proof. solve_decision. Defined.
End PayoutSnapshot.
Notation PayoutSnapshot := PayoutSnapshot.PayoutSnapshot.

Module CandidateIdentity.
Record CandidateIdentity := mk {
  chain_id : Z;
  rollup : Address;
  channel_id : ChannelId;
  signed_head_digest : Bytes32;
  burn_base_nonce : Z;
  producer_receipt : BlockProducerReceipt;
  withdrawal : Withdrawal;
  withdrawal_prover : Address;
  producer_anchor : BlockProducerAnchor;
  payout_json_digest : Bytes32;
  mle_json_digest : Bytes32;
}.
End CandidateIdentity.
Notation CandidateIdentity := CandidateIdentity.CandidateIdentity.

Module PayoutJson.
Record PayoutJsonWithdrawal := mk_withdrawal { recipient : Address; token_index : Z; amount : U256; nullifier : Bytes32; aux_data : Bytes32 }.
Record PayoutJson := mk { withdrawals : list PayoutJsonWithdrawal; withdrawal_prover : Address; block_number : Z; ext_commitment : Bytes32 }.
End PayoutJson.
Notation PayoutJson := PayoutJson.PayoutJson.

(** [serde_json] on the types of the module and [keccak_hash::keccak] on bytes. *)
Class PayoutCodec := {
  payout_from_str : list Z -> option PayoutJson;
  value_is_object : list Z -> option bool;
  identity_to_vec : CandidateIdentity -> option (list Z);
  snapshot_to_vec : PayoutSnapshot -> option (list Z);
  snapshot_from_slice : list Z -> option PayoutSnapshot;
  keccak_bytes : list Z -> list Z;
}.

(** What was serialized is read back, and a Keccak digest is 32 bytes. *)
Class PayoutCodecOk (PC : PayoutCodec) : Prop := {
  snapshot_roundtrip d bytes : snapshot_to_vec d = Some bytes -> snapshot_from_slice bytes = Some d;
  keccak_bytes_length bytes : length (keccak_bytes bytes) = 32%nat;
}.

(** ** Checks *)

Definition PARTIAL_WITHDRAWAL_PAYOUT_VERSION : Z := 4.
Definition MAX_REPLACEMENT_TX_HASHES : nat := 16.

Definition lane_for (w : Withdrawal) : PartialWithdrawalLane := if Withdrawal.token_index w =? 0 then Native else Erc20.

Definition expected_payout_kind (lane : PartialWithdrawalLane) : L1CallKind :=
  match lane with Native => WithdrawNative | Erc20 => WithdrawErc20 end.

Definition expected_pull_kind (lane : PartialWithdrawalLane) : L1CallKind :=
  match lane with Native => PullNative | Erc20 => PullErc20 end.

#[local] Notation res := (res PartialWithdrawalPayoutError).

(** [if b { return Err(e) }]. *)
Definition refuse (b : bool) (e : PartialWithdrawalPayoutError) : res unit := ensure (negb b) e.

Section checks.
Context {PC : PayoutCodec}.

Definition hash_bytes (bytes : list Z) : res Bytes32 := map_err (fun _ => InvalidRequest) (from_bytes_be BYTES32_LEN (keccak_bytes bytes)).

Definition validate_payout_json (a : PartialWithdrawalProofArtifacts) : res unit :=
  payout ← ok_or (payout_from_str (PartialWithdrawalProofArtifacts.payout_json a)) InvalidRequest;
  _ ← refuse (negb (length (PayoutJson.withdrawals payout) =? 1)%nat) InvalidRequest;
  encoded ← unwrap (PayoutJson.withdrawals payout !! 0%nat);
  let proved := PartialWithdrawalProofArtifacts.withdrawal a in
  let anchor := PartialWithdrawalProofArtifacts.producer_anchor a in
  refuse (bool_decide (PayoutJson.recipient encoded <> Withdrawal.recipient proved)
    || negb (PayoutJson.token_index encoded =? Withdrawal.token_index proved)
    || bool_decide (PayoutJson.amount encoded <> Withdrawal.amount proved)
    || bool_decide (PayoutJson.nullifier encoded <> Withdrawal.nullifier proved)
    || bool_decide (PayoutJson.aux_data encoded <> Withdrawal.aux_data proved)
    || bool_decide (PayoutJson.withdrawal_prover payout <> PartialWithdrawalProofArtifacts.withdrawal_prover a)
    || negb (PayoutJson.block_number payout =? BlockProducerAnchor.block_number anchor)
    || bool_decide (PayoutJson.ext_commitment payout <> BlockProducerAnchor.extended_state_commitment anchor)) InvalidRequest.

Definition validate_prepare (r : PreparePartialWithdrawalPayout) : res unit :=
  let a := PreparePartialWithdrawalPayout.artifacts r in
  let w := PartialWithdrawalProofArtifacts.withdrawal a in
  let receipt := PreparePartialWithdrawalPayout.producer_receipt r in
  let anchor := PartialWithdrawalProofArtifacts.producer_anchor a in
  let metrics := PartialWithdrawalProofArtifacts.metrics a in
  _ ← refuse ((PreparePartialWithdrawalPayout.chain_id r =? 0)
        || bool_decide (PreparePartialWithdrawalPayout.rollup r = address_default)) InvalidRequest;
  _ ← refuse (bool_decide (Withdrawal.recipient w = address_default) || bool_decide (Withdrawal.amount w = u256_zero)
        || bool_decide (Withdrawal.aux_data w = bytes32_default)
        || bool_decide (PartialWithdrawalProofArtifacts.withdrawal_prover a = address_default)) InvalidRequest;
  _ ← refuse (bool_decide (PreparePartialWithdrawalPayout.signed_head_digest r = bytes32_default)
        || forallb is_whitespace (BlockProducerReceipt.request_id receipt)
        || bool_decide (BlockProducerReceipt.entry_hash receipt = bytes32_default)
        || bool_decide (BlockProducerReceipt.extended_state_commitment receipt = bytes32_default)
        || bool_decide (BlockProducerAnchor.entry_hash anchor = bytes32_default)
        || bool_decide (BlockProducerAnchor.extended_state_commitment anchor = bytes32_default)) InvalidRequest;
  _ ← refuse ((BlockProducerAnchor.generation anchor <? BlockProducerReceipt.generation receipt)
        || (BlockProducerAnchor.block_number anchor <? BlockProducerReceipt.block_number receipt)) InvalidRequest;
  _ ← validate_payout_json a;
  is_object ← ok_or (value_is_object (PartialWithdrawalProofArtifacts.withdrawal_mle_json a)) InvalidRequest;
  _ ← refuse (negb is_object || bool_decide (PartialWithdrawalProofArtifacts.withdrawal_mle_json a = [])) InvalidRequest;
  _ ← refuse (negb (PartialWithdrawalProofMetrics.mle_json_bytes metrics
                     =? Z.of_nat (length (PartialWithdrawalProofArtifacts.withdrawal_mle_json a)))) InvalidRequest;
  refuse ((PartialWithdrawalProofMetrics.single_withdrawal_proof_bytes metrics =? 0)
    || (PartialWithdrawalProofMetrics.withdrawal_chain_proof_bytes metrics =? 0)
    || (PartialWithdrawalProofMetrics.withdrawal_final_proof_bytes metrics =? 0)) InvalidRequest.

Definition candidate_id (r : PreparePartialWithdrawalPayout) : res Bytes32 :=
  let a := PreparePartialWithdrawalPayout.artifacts r in
  payout_json_digest ← hash_bytes (PartialWithdrawalProofArtifacts.payout_json a);
  mle_json_digest ← hash_bytes (PartialWithdrawalProofArtifacts.withdrawal_mle_json a);
  bytes ← ok_or (identity_to_vec (CandidateIdentity.mk (PreparePartialWithdrawalPayout.chain_id r) (PreparePartialWithdrawalPayout.rollup r)
      (PreparePartialWithdrawalPayout.channel_id r) (PreparePartialWithdrawalPayout.signed_head_digest r)
      (PreparePartialWithdrawalPayout.burn_base_nonce r) (PreparePartialWithdrawalPayout.producer_receipt r)
      (PartialWithdrawalProofArtifacts.withdrawal a) (PartialWithdrawalProofArtifacts.withdrawal_prover a)
      (PartialWithdrawalProofArtifacts.producer_anchor a) payout_json_digest mle_json_digest)) InvalidRequest;
  hash_bytes bytes.
End checks.

(** The vector with the hash appended, unless it is there. *)
Definition push_tx_hash (hashes : list Bytes32) (tx_hash : Bytes32) : res (list Bytes32) :=
  _ ← refuse (bool_decide (tx_hash = bytes32_default)) InvalidRequest;
  if bool_decide (tx_hash ∈ hashes) then Ok hashes
  else if (MAX_REPLACEMENT_TX_HASHES <=? length hashes)%nat then Err Conflict
  else Ok (hashes ++ [tx_hash]).

(** What both receipts have in common. *)
Definition receipt_mismatch (c : PartialWithdrawalCandidate) (receipt : L1TransactionReceipt) (intent : BroadcastIntent) (kind : L1CallKind) : bool :=
  bool_decide (L1TransactionReceipt.tx_hash receipt = bytes32_default)
    || bool_decide (L1TransactionReceipt.block_hash receipt = bytes32_default)
    || negb (L1TransactionReceipt.success receipt)
    || negb (L1TransactionReceipt.chain_id receipt =? PartialWithdrawalCandidate.chain_id c)
    || negb (L1FinalizedCheckpoint.chain_id (L1TransactionReceipt.finalized_checkpoint receipt) =? PartialWithdrawalCandidate.chain_id c)
    || bool_decide (L1TransactionReceipt.from receipt <> BroadcastIntent.caller intent)
    || bool_decide (L1TransactionReceipt.to receipt <> PartialWithdrawalCandidate.rollup c)
    || (L1TransactionReceipt.block_number receipt <? BroadcastIntent.start_block intent)
    || negb (L1TransactionReceipt.transaction_nonce receipt =? BroadcastIntent.caller_nonce intent)
    || bool_decide (L1TransactionReceipt.calldata_hash receipt <> BroadcastIntent.calldata_hash intent)
    || bool_decide (L1TransactionReceipt.call_kind receipt <> kind).

Definition check_covered (receipt : L1TransactionReceipt) : res unit :=
  map_err (fun _ => InvalidRequest)
    (L1FinalizedCheckpoint.covers_receipt (L1TransactionReceipt.finalized_checkpoint receipt) (L1TransactionReceipt.block_number receipt)
       (L1TransactionReceipt.block_hash receipt)).

Definition validate_payout_confirmation (c : PartialWithdrawalCandidate) (confirmation : PayoutConfirmation) : res unit :=
  let receipt := PayoutConfirmation.receipt confirmation in
  intent ← ok_or (PartialWithdrawalCandidate.payout_broadcast c) InvalidRequest;
  _ ← refuse (bool_decide (PayoutConfirmation.credit_before confirmation <> BroadcastIntent.credit_before intent)) InvalidRequest;
  _ ← check_covered receipt;
  _ ← refuse (receipt_mismatch c receipt intent (expected_payout_kind (PartialWithdrawalCandidate.lane c))) InvalidRequest;
  _ ← refuse (negb (PayoutConfirmation.finalized_anchor_observed confirmation)
        || negb (PayoutConfirmation.nullifier_used_observed confirmation)) InvalidRequest;
  _ ← refuse (U256.ltb (PayoutConfirmation.credit_after confirmation) (PayoutConfirmation.credit_before confirmation)) InvalidRequest;
  increase ← U256.sub (PayoutConfirmation.credit_after confirmation) (PayoutConfirmation.credit_before confirmation);
  refuse (bool_decide (increase <> Withdrawal.amount (PartialWithdrawalCandidate.withdrawal c))) InvalidRequest.

Definition validate_pull_confirmation (c : PartialWithdrawalCandidate) (confirmation : PullConfirmation) : res unit :=
  let w := PartialWithdrawalCandidate.withdrawal c in
  _ ← ok_or (PartialWithdrawalCandidate.payout_confirmation c) InvalidRequest;
  intent ← ok_or (PartialWithdrawalCandidate.pull_broadcast c) InvalidRequest;
  _ ← refuse (bool_decide (BroadcastIntent.caller intent <> Withdrawal.recipient w)
        || bool_decide (PullConfirmation.credit_before confirmation <> BroadcastIntent.credit_before intent)
        || U256.ltb (BroadcastIntent.credit_before intent) (Withdrawal.amount w)) InvalidRequest;
  let receipt := PullConfirmation.receipt confirmation in
  _ ← check_covered receipt;
  _ ← refuse (receipt_mismatch c receipt intent (expected_pull_kind (PartialWithdrawalCandidate.lane c))
        || bool_decide (L1TransactionReceipt.from receipt <> Withdrawal.recipient w)) InvalidRequest;
  refuse (U256.ltb (PullConfirmation.credit_before confirmation) (Withdrawal.amount w)) InvalidRequest.

Definition verify_tx_hashes (hashes : list Bytes32) (has_intent : bool) : res unit :=
  _ ← refuse (bool_decide (hashes <> []) && negb has_intent) Snapshot;
  _ ← refuse (MAX_REPLACEMENT_TX_HASHES <? length hashes)%nat Snapshot;
  refuse (bool_decide (bytes32_default ∈ hashes) || negb (bool_decide (NoDup hashes))) Snapshot.

(** [if let Some(x) = o { check(x)? }]. *)
Definition if_some {A} (o : option A) (check : A -> res unit) : res unit := match o with Some x => check x | None => Ok tt end.

Section disk.
Context {PC : PayoutCodec}.

Definition request_of (c : PartialWithdrawalCandidate) : PreparePartialWithdrawalPayout :=
  PreparePartialWithdrawalPayout.mk (PartialWithdrawalCandidate.chain_id c) (PartialWithdrawalCandidate.rollup c)
    (PartialWithdrawalCandidate.channel_id c) (PartialWithdrawalCandidate.signed_head_digest c) (PartialWithdrawalCandidate.burn_base_nonce c)
    (PartialWithdrawalCandidate.producer_receipt c) (PartialWithdrawalCandidate.artifacts c).

Definition verify_active (c : PartialWithdrawalCandidate) (completed : list Bytes32) : res unit :=
  let w := PartialWithdrawalCandidate.withdrawal c in
  let payout_broadcast := PartialWithdrawalCandidate.payout_broadcast c in
  let payout_confirmation := PartialWithdrawalCandidate.payout_confirmation c in
  let pull_broadcast := PartialWithdrawalCandidate.pull_broadcast c in
  let pull_confirmation := PartialWithdrawalCandidate.pull_confirmation c in
  _ ← map_err (fun _ => Snapshot) (validate_prepare (request_of c));
  expected_id ← map_err (fun _ => Snapshot) (candidate_id (request_of c));
  _ ← refuse (bool_decide (PartialWithdrawalCandidate.candidate_id c <> expected_id)
        || bool_decide (PartialWithdrawalCandidate.lane c <> lane_for w)) Snapshot;
  _ ← refuse (is_some payout_confirmation && negb (is_some payout_broadcast)) Snapshot;
  _ ← verify_tx_hashes (PartialWithdrawalCandidate.payout_tx_hashes c) (is_some payout_broadcast);
  _ ← if_some payout_broadcast (fun intent =>
        refuse (bool_decide (BroadcastIntent.caller intent = address_default)
          || bool_decide (BroadcastIntent.calldata_hash intent = bytes32_default)) Snapshot);
  _ ← refuse (is_some pull_broadcast && negb (is_some payout_confirmation)) Snapshot;
  _ ← refuse (PartialWithdrawalCandidate.recipient_pull_delegated c
        && (negb (is_some payout_confirmation) || is_some pull_broadcast || is_some pull_confirmation)) Snapshot;
  _ ← refuse (is_some pull_confirmation && negb (is_some pull_broadcast)) Snapshot;
  _ ← verify_tx_hashes (PartialWithdrawalCandidate.pull_tx_hashes c) (is_some pull_broadcast);
  _ ← if_some pull_broadcast (fun intent =>
        _ ← ok_or payout_confirmation Snapshot;
        refuse (bool_decide (BroadcastIntent.caller intent <> Withdrawal.recipient w)
          || bool_decide (BroadcastIntent.calldata_hash intent = bytes32_default)
          || U256.ltb (BroadcastIntent.credit_before intent) (Withdrawal.amount w)) Snapshot);
  _ ← if_some payout_confirmation (fun confirmation =>
        _ ← refuse (negb (bool_decide (L1TransactionReceipt.tx_hash (PayoutConfirmation.receipt confirmation)
                                        ∈ PartialWithdrawalCandidate.payout_tx_hashes c))) Snapshot;
        map_err (fun _ => Snapshot) (validate_payout_confirmation c confirmation));
  _ ← if_some pull_confirmation (fun confirmation =>
        _ ← refuse (negb (bool_decide (L1TransactionReceipt.tx_hash (PullConfirmation.receipt confirmation)
                                        ∈ PartialWithdrawalCandidate.pull_tx_hashes c))) Snapshot;
        map_err (fun _ => Snapshot) (validate_pull_confirmation c confirmation));
  _ ← refuse (PartialWithdrawalCandidate.is_complete c && negb (bool_decide (Withdrawal.nullifier w ∈ completed))) Snapshot;
  refuse (is_some pull_confirmation && negb (is_some payout_confirmation)) Snapshot.

Definition verify_disk (d : PayoutSnapshot) : res unit :=
  _ ← refuse (negb (PayoutSnapshot.version d =? PARTIAL_WITHDRAWAL_PAYOUT_VERSION)) Snapshot;
  _ ← refuse (negb (bool_decide (NoDup (PayoutSnapshot.completed_nullifiers d)))) Snapshot;
  if_some (PayoutSnapshot.active d) (fun c => verify_active c (PayoutSnapshot.completed_nullifiers d)).
End disk.

(** ** The file *)

(** [to_le_bytes] and [from_le_bytes]. *)
Definition to_le_bytes (n : nat) (x : Z) : list Z := (fun i => wrap 8 (Z.shiftr x (8 * Z.of_nat i))) <$> seq 0 n.
Definition from_le_bytes (bytes : list Z) : Z := foldr (fun b acc => b + 2 ^ 8 * acc) 0 bytes.

(** [b"INTMAX_PAYOUT_04"] and its family prefix. *)
Definition SNAPSHOT_MAGIC : list Z := [73; 78; 84; 77; 65; 88; 95; 80; 65; 89; 79; 85; 84; 95; 48; 52].
Definition SNAPSHOT_MAGIC_FAMILY : list Z := [73; 78; 84; 77; 65; 88; 95; 80; 65; 89; 79; 85; 84; 95].
Definition HEADER_BYTES : nat := 60.
Definition MAX_SNAPSHOT_BYTES : Z := 512 * 1024 * 1024.

Section file.
Context {PC : PayoutCodec}.

(** Every failure is [Snapshot]; the retired versions only have a message of their own. *)
Definition read_snapshot (bytes : list Z) : res PayoutSnapshot :=
  let len := Z.of_nat (length bytes) in
  _ ← refuse ((len <? Z.of_nat HEADER_BYTES) || (MAX_SNAPSHOT_BYTES <? len)) Snapshot;
  let version := from_le_bytes (slice 16 20 bytes) in
  _ ← (if bool_decide (slice 0 16 bytes <> SNAPSHOT_MAGIC)
       then (if bool_decide (slice 0 14 bytes = SNAPSHOT_MAGIC_FAMILY) && (version <? PARTIAL_WITHDRAWAL_PAYOUT_VERSION)
             then Err Snapshot else Err Snapshot)
       else Ok tt);
  _ ← refuse (negb (version =? PARTIAL_WITHDRAWAL_PAYOUT_VERSION)) Snapshot;
  let payload_len := from_le_bytes (slice 20 28 bytes) in
  _ ← refuse (negb (payload_len =? len - Z.of_nat HEADER_BYTES)) Snapshot;
  let payload := drop HEADER_BYTES bytes in
  _ ← refuse (bool_decide (keccak_bytes payload <> slice 28 60 bytes)) Snapshot;
  ok_or (snapshot_from_slice payload) Snapshot.

(** The bytes that [persist_snapshot] writes. *)
Definition encode_snapshot (d : PayoutSnapshot) : res (list Z) :=
  payload ← ok_or (snapshot_to_vec d) Snapshot;
  _ ← refuse (MAX_SNAPSHOT_BYTES <? Z.of_nat (length payload) + Z.of_nat HEADER_BYTES) Snapshot;
  Ok (SNAPSHOT_MAGIC ++ to_le_bytes 4 PARTIAL_WITHDRAWAL_PAYOUT_VERSION ++ to_le_bytes 8 (Z.of_nat (length payload)) ++ keccak_bytes payload ++ payload).

(** Where a write stops: before the rename the old file stays, after it the new one is there. *)
Inductive Fault := NoFault | BeforeRename | AfterRename.

Definition persist_snapshot (fault : Fault) (d : PayoutSnapshot) : meth (option (list Z)) PartialWithdrawalPayoutError unit :=
  encoded ← pure (encode_snapshot d);
  match fault with
  | NoFault => modify (fun _ => Some encoded)
  | BeforeRename => pure (Err Snapshot)
  | AfterRename => _ ← modify (fun _ => Some encoded); pure (Err Snapshot)
  end.
End file.

(** ** The store *)

Module PartialWithdrawalPayoutStore.
(** [path] is represented by the file it names. *)
Record PartialWithdrawalPayoutStore := mk { file : option (list Z); disk : PayoutSnapshot; poisoned : bool }.

#[local] Notation meth := (meth PartialWithdrawalPayoutStore PartialWithdrawalPayoutError).

Section operations.
Context {PC : PayoutCodec}.

Definition empty_snapshot : PayoutSnapshot := PayoutSnapshot.mk PARTIAL_WITHDRAWAL_PAYOUT_VERSION None [].

(** The file as it is left, and the store. *)
Definition open (fault : Fault) (path : option (list Z)) : option (list Z) * res PartialWithdrawalPayoutStore :=
  let '(file, disk) := match path with
    | Some bytes => (path, read_snapshot bytes)
    | None => let '(file, r) := persist_snapshot fault empty_snapshot None in (file, _ ← r; Ok empty_snapshot)
    end in
  (file, disk ← disk; _ ← verify_disk disk; Ok (mk file disk false)).

Definition ensure_healthy : meth unit :=
  s ← self; pure (if poisoned s then Err Poisoned else Ok tt).

Definition active : meth (option PartialWithdrawalCandidate) :=
  _ ← ensure_healthy; s ← self; mret (PayoutSnapshot.active (disk s)).

Definition commit (fault : Fault) (d : PayoutSnapshot) : meth unit :=
  _ ← pure (verify_disk d);
  s ← self;
  let '(file, r) := persist_snapshot fault d (file s) in
  match r with
  | Ok _ => modify (fun s => mk file d (poisoned s))
  | _ => _ ← modify (fun s => mk file (disk s) true); pure r
  end.

Definition prepare (fault : Fault) (request : PreparePartialWithdrawalPayout) : meth PartialWithdrawalCandidate :=
  _ ← ensure_healthy;
  _ ← pure (validate_prepare request);
  id ← pure (candidate_id request);
  s ← self;
  let artifacts := PreparePartialWithdrawalPayout.artifacts request in
  let withdrawal := PartialWithdrawalProofArtifacts.withdrawal artifacts in
  let create : meth PartialWithdrawalCandidate :=
    _ ← pure (refuse (bool_decide (Withdrawal.nullifier withdrawal ∈ PayoutSnapshot.completed_nullifiers (disk s))) Conflict);
    let candidate := PartialWithdrawalCandidate.mk id (PreparePartialWithdrawalPayout.chain_id request) (PreparePartialWithdrawalPayout.rollup request)
      (PreparePartialWithdrawalPayout.channel_id request) (PreparePartialWithdrawalPayout.signed_head_digest request)
      (PreparePartialWithdrawalPayout.burn_base_nonce request) (PreparePartialWithdrawalPayout.producer_receipt request)
      (lane_for withdrawal) artifacts None [] None false None [] None in
    _ ← commit fault (PayoutSnapshot.mk (PayoutSnapshot.version (disk s)) (Some candidate) (PayoutSnapshot.completed_nullifiers (disk s)));
    mret candidate in
  match PayoutSnapshot.active (disk s) with
  | Some current =>
      if bool_decide (PartialWithdrawalCandidate.candidate_id current = id) then mret current
      else if negb (PartialWithdrawalCandidate.is_complete current) then pure (Err Conflict)
      else create
  | None => create
  end.

(** [update] works on a copy, which is dropped when it fails. *)
Definition mutate_candidate (fault : Fault) (id : Bytes32) (update : PartialWithdrawalCandidate -> res PartialWithdrawalCandidate)
    : meth PartialWithdrawalCandidate :=
  _ ← ensure_healthy;
  s ← self;
  candidate ← pure (ok_or (PayoutSnapshot.active (disk s)) InvalidRequest);
  _ ← pure (refuse (bool_decide (PartialWithdrawalCandidate.candidate_id candidate <> id)) Conflict);
  result ← pure (update candidate);
  let nullifier := Withdrawal.nullifier (PartialWithdrawalCandidate.withdrawal result) in
  let completed := PayoutSnapshot.completed_nullifiers (disk s) in
  let completed := if PartialWithdrawalCandidate.is_complete result && negb (bool_decide (nullifier ∈ completed))
    then completed ++ [nullifier] else completed in
  _ ← commit fault (PayoutSnapshot.mk (PayoutSnapshot.version (disk s)) (Some result) completed);
  mret result.

(** The updates of the phases, each on the candidate alone. *)
Definition update_payout_broadcast (intent : BroadcastIntent) (c : PartialWithdrawalCandidate) : res PartialWithdrawalCandidate :=
  if is_some (PartialWithdrawalCandidate.payout_confirmation c) then Ok c else
  _ ← refuse (bool_decide (BroadcastIntent.caller intent = address_default) || bool_decide (BroadcastIntent.calldata_hash intent = bytes32_default))
        InvalidRequest;
  match PartialWithdrawalCandidate.payout_broadcast c with
  | Some existing => if bool_decide (existing <> intent) then Err Conflict else Ok c
  | None => Ok (PartialWithdrawalCandidate.with_payout c (Some intent) (PartialWithdrawalCandidate.payout_tx_hashes c) (PartialWithdrawalCandidate.payout_confirmation c))
  end.

Definition update_payout_confirmation (confirmation : PayoutConfirmation) (c : PartialWithdrawalCandidate) : res PartialWithdrawalCandidate :=
  _ ← validate_payout_confirmation c confirmation;
  match PartialWithdrawalCandidate.payout_confirmation c with
  | Some existing => if bool_decide (existing <> confirmation) then Err Conflict else Ok c
  | None =>
      hashes ← push_tx_hash (PartialWithdrawalCandidate.payout_tx_hashes c) (L1TransactionReceipt.tx_hash (PayoutConfirmation.receipt confirmation));
      Ok (PartialWithdrawalCandidate.with_payout c (PartialWithdrawalCandidate.payout_broadcast c) hashes (Some confirmation))
  end.

Definition update_payout_tx_hash (tx_hash : Bytes32) (c : PartialWithdrawalCandidate) : res PartialWithdrawalCandidate :=
  _ ← refuse (negb (is_some (PartialWithdrawalCandidate.payout_broadcast c))) InvalidRequest;
  match PartialWithdrawalCandidate.payout_confirmation c with
  | Some confirmation =>
      if bool_decide (L1TransactionReceipt.tx_hash (PayoutConfirmation.receipt confirmation) <> tx_hash) then Err Conflict else Ok c
  | None =>
      hashes ← push_tx_hash (PartialWithdrawalCandidate.payout_tx_hashes c) tx_hash;
      Ok (PartialWithdrawalCandidate.with_payout c (PartialWithdrawalCandidate.payout_broadcast c) hashes (PartialWithdrawalCandidate.payout_confirmation c))
  end.

Definition update_pull_delegated (c : PartialWithdrawalCandidate) : res PartialWithdrawalCandidate :=
  _ ← refuse (negb (is_some (PartialWithdrawalCandidate.payout_confirmation c))) InvalidRequest;
  _ ← refuse (is_some (PartialWithdrawalCandidate.pull_broadcast c) || is_some (PartialWithdrawalCandidate.pull_confirmation c)) Conflict;
  Ok (PartialWithdrawalCandidate.with_pull c true (PartialWithdrawalCandidate.pull_broadcast c) (PartialWithdrawalCandidate.pull_tx_hashes c)
        (PartialWithdrawalCandidate.pull_confirmation c)).

Definition update_pull_broadcast (intent : BroadcastIntent) (c : PartialWithdrawalCandidate) : res PartialWithdrawalCandidate :=
  let w := PartialWithdrawalCandidate.withdrawal c in
  _ ← refuse (PartialWithdrawalCandidate.recipient_pull_delegated c) Conflict;
  _ ← ok_or (PartialWithdrawalCandidate.payout_confirmation c) InvalidRequest;
  if is_some (PartialWithdrawalCandidate.pull_confirmation c) then Ok c else
  _ ← refuse (bool_decide (BroadcastIntent.caller intent <> Withdrawal.recipient w)
        || U256.ltb (BroadcastIntent.credit_before intent) (Withdrawal.amount w)) InvalidRequest;
  match PartialWithdrawalCandidate.pull_broadcast c with
  | Some existing => if bool_decide (existing <> intent) then Err Conflict else Ok c
  | None => Ok (PartialWithdrawalCandidate.with_pull c (PartialWithdrawalCandidate.recipient_pull_delegated c) (Some intent)
                  (PartialWithdrawalCandidate.pull_tx_hashes c) (PartialWithdrawalCandidate.pull_confirmation c))
  end.

Definition update_pull_confirmation (confirmation : PullConfirmation) (c : PartialWithdrawalCandidate) : res PartialWithdrawalCandidate :=
  _ ← validate_pull_confirmation c confirmation;
  match PartialWithdrawalCandidate.pull_confirmation c with
  | Some existing => if bool_decide (existing <> confirmation) then Err Conflict else Ok c
  | None =>
      hashes ← push_tx_hash (PartialWithdrawalCandidate.pull_tx_hashes c) (L1TransactionReceipt.tx_hash (PullConfirmation.receipt confirmation));
      Ok (PartialWithdrawalCandidate.with_pull c (PartialWithdrawalCandidate.recipient_pull_delegated c) (PartialWithdrawalCandidate.pull_broadcast c)
            hashes (Some confirmation))
  end.

Definition update_pull_tx_hash (tx_hash : Bytes32) (c : PartialWithdrawalCandidate) : res PartialWithdrawalCandidate :=
  _ ← refuse (negb (is_some (PartialWithdrawalCandidate.pull_broadcast c))) InvalidRequest;
  match PartialWithdrawalCandidate.pull_confirmation c with
  | Some confirmation =>
      if bool_decide (L1TransactionReceipt.tx_hash (PullConfirmation.receipt confirmation) <> tx_hash) then Err Conflict else Ok c
  | None =>
      hashes ← push_tx_hash (PartialWithdrawalCandidate.pull_tx_hashes c) tx_hash;
      Ok (PartialWithdrawalCandidate.with_pull c (PartialWithdrawalCandidate.recipient_pull_delegated c) (PartialWithdrawalCandidate.pull_broadcast c)
            hashes (PartialWithdrawalCandidate.pull_confirmation c))
  end.

Definition mark_payout_broadcast fault id intent : meth PartialWithdrawalCandidate := mutate_candidate fault id (update_payout_broadcast intent).
Definition confirm_payout fault id confirmation : meth PartialWithdrawalCandidate := mutate_candidate fault id (update_payout_confirmation confirmation).
Definition record_payout_tx_hash fault id tx_hash : meth PartialWithdrawalCandidate := mutate_candidate fault id (update_payout_tx_hash tx_hash).
Definition mark_recipient_pull_delegated fault id : meth PartialWithdrawalCandidate := mutate_candidate fault id update_pull_delegated.
Definition mark_pull_broadcast fault id intent : meth PartialWithdrawalCandidate := mutate_candidate fault id (update_pull_broadcast intent).
Definition confirm_pull fault id confirmation : meth PartialWithdrawalCandidate := mutate_candidate fault id (update_pull_confirmation confirmation).
Definition record_pull_tx_hash fault id tx_hash : meth PartialWithdrawalCandidate := mutate_candidate fault id (update_pull_tx_hash tx_hash).

End operations.
End PartialWithdrawalPayoutStore.
Notation PartialWithdrawalPayoutStore := PartialWithdrawalPayoutStore.PartialWithdrawalPayoutStore.
