(* ===== verification/ProducerService.v ===== *)
(** * The durable block producer

    Models [src/src/block_producer_service.rs]: the service that runs the block
    producer of [Producer] behind a journal.  Every accepted request is an entry
    of a hash chain, which is written to the journal file before the producer in
    memory advances; at a start the file is read, checked and replayed.  One
    entry may be prepared: durable, but not authoritative yet.

    The journal file is a part of the state ([file]); a write can fail before or
    after the new file replaced the old one ([Fault] of [Payout]).  The clock is
    an argument of the operations that read it.  Serde and Keccak on bytes are
    the class [JournalCodec], the values that the generator exposes the class
    [GeneratorState].  The checks of paths, links and the lock of the file are
    left out, and so is the code behind the feature [deprecated-msu]. *)

From S2P Require Import Prelude Limbs U63 Circuit MerkleTree LeafTrees Poseidon IndexedTree Keccak Regev BalanceState Account Ledger Balance Channel HashChains BlockStep CloseFunding WalletChecks Producer BlockChain Payout.
From stdpp Require Import strings.

#[local] Remove Hints Leafable_Bytes32 : typeclass_instances.
#[local] Open Scope Z_scope.

Definition PRODUCTION_JOURNAL_MAGIC : string := "INTMAX_KEYLESS_BLOCK_PRODUCER".
Definition PRODUCTION_JOURNAL_VERSION : Z := 1.
Definition MAX_JOURNAL_BYTES : Z := 512 * 1024 * 1024.
Definition MAX_REQUEST_ID_BYTES : nat := 128.
Definition STAGED_INTER_CHANNEL_EXIT_KIT_DOMAIN : string := "stageInterChannelExitKit".

Inductive BlockProducerServiceError := InvalidConfiguration | InvalidRequest | Conflict | Locked | Journal | Poisoned | ProducerError (e : ProductionBlockProducerError).

#[local] Notation res := (res BlockProducerServiceError).

(** [if b { return Err(e) }]. *)
Definition reject (b : bool) (e : BlockProducerServiceError) : res unit := ensure (negb b) e.

(** ** The journal *)

Inductive ProductionJournalAction {P : Poseidon} :=
| Register (snapshot : ChannelSnapshot) (timestamp : Z)
| PostDeposit (deposit : ProductionDepositRequest) (timestamp : Z)
| SyncOffchainHeads (signed_states : list ChannelState) (timestamp : Z)
| PostInterChannel (signed_state : ChannelState) (debit_payload : InterChannelDebitPayload) (descriptor : InterChannelTransferDescriptor) (timestamp : Z)
| PostCloseFunding (signed_state : ChannelState) (plan : CloseFundingPlan) (timestamp : Z)
| StagedInterChannelExitKit (proposed_state : ChannelState) (debit_payload : InterChannelDebitPayload) (descriptor : InterChannelTransferDescriptor) (timestamp : Z)
| AdoptDelegateJoin (record : ChannelRecord) (signed_state : ChannelState) (timestamp : Z)
| PostMemberSetUpdate (signed_state : ChannelState) (old_members : list MemberInfo) (new_record : ChannelRecord) (new_members : list MemberInfo) (timestamp : Z).
Arguments ProductionJournalAction : clear implicits.
Arguments ProductionJournalAction {P}.

Definition action_timestamp {P : Poseidon} (action : ProductionJournalAction) : Z :=
  match action with
  | Register _ timestamp | PostDeposit _ timestamp | SyncOffchainHeads _ timestamp | PostInterChannel _ _ _ timestamp
  | PostCloseFunding _ _ timestamp | StagedInterChannelExitKit _ _ _ timestamp | AdoptDelegateJoin _ _ timestamp
  | PostMemberSetUpdate _ _ _ _ timestamp => timestamp
  end.

Module ProductionChannelHead.
Record ProductionChannelHead := mk { channel_id : ChannelId; state_digest : Bytes32; epoch : Z; small_block_number : Z; state_version : Z }.

#[global] Instance ProductionChannelHead_eq_dec : EqDecision ProductionChannelHead.
Proof. solve_decision. Defined.
End ProductionChannelHead.
Notation ProductionChannelHead := ProductionChannelHead.ProductionChannelHead.

Module ProducerHeadSnapshot.
Record ProducerHeadSnapshot {P : Poseidon} := mk {
  block_number : Z;
  timestamp : Z;
  account_tree_root : PHash;
  deposit_tree_root : PHash;
  prev_public_state_root : PHash;
  block_hash_chain : Bytes32;
  deposit_hash_chain : Bytes32;
  deposit_count : Z;
  channel_reg_hash_chain : Bytes32;
  bp_sig_chain : Bytes32;
  registered_channel_count : Z;
  channel_heads : list ProductionChannelHead;
}.
#[global] Arguments ProducerHeadSnapshot : clear implicits.
#[global] Arguments ProducerHeadSnapshot {P}.
#[global] Arguments mk {P}.

#[global] Instance ProducerHeadSnapshot_eq_dec {P : Poseidon} : EqDecision ProducerHeadSnapshot.
Proof. solve_decision. Defined.
End ProducerHeadSnapshot.
Notation ProducerHeadSnapshot := ProducerHeadSnapshot.ProducerHeadSnapshot.

Module ProductionJournalEntry.
Record ProductionJournalEntry {P : Poseidon} := mk {
  generation : Z;
  request_id : list Z;
  request_fingerprint : Bytes32;
  prev_entry_hash : Bytes32;
  action : ProductionJournalAction;
  result : ProducerHeadSnapshot;
  entry_hash : Bytes32;
}.
#[global] Arguments ProductionJournalEntry : clear implicits.
#[global] Arguments ProductionJournalEntry {P}.
#[global] Arguments mk {P}.
End ProductionJournalEntry.
Notation ProductionJournalEntry := ProductionJournalEntry.ProductionJournalEntry.

Module ProductionJournalFile.
Record ProductionJournalFile {P : Poseidon} := mk {
  magic : string;
  version : Z;
  supported_user_counts : list Z;
  generation : Z;
  tail_hash : Bytes32;
  entries : list ProductionJournalEntry;
  prepared : option ProductionJournalEntry;
}.
#[global] Arguments ProductionJournalFile : clear implicits.
#[global] Arguments ProductionJournalFile {P}.
#[global] Arguments mk {P}.
End ProductionJournalFile.
Notation ProductionJournalFile := ProductionJournalFile.ProductionJournalFile.

(** ** What is hashed *)

(** The bodies of a request. *)
Inductive RequestBody {P : Poseidon} :=
| SnapshotBody (snapshot : ChannelSnapshot)
| DepositBody (deposit : ProductionDepositRequest)
| StatesBody (signed_states : list ChannelState)
| PostFingerprint (signed_state : ChannelState) (debit_payload : InterChannelDebitPayload) (descriptor : InterChannelTransferDescriptor)
| CloseFundingFingerprint (signed_state : ChannelState) (plan : CloseFundingPlan)
| JoinBody (record : ChannelRecord) (signed_state : ChannelState)
| MemberSetUpdateFingerprint (signed_state : ChannelState) (old_members : list MemberInfo) (new_record : ChannelRecord) (new_members : list MemberInfo).
Arguments RequestBody : clear implicits.
Arguments RequestBody {P}.

(** The arguments of [hash_serializable]. *)
Inductive Hashed {P : Poseidon} :=
| JournalGenesis (domain : string) (version : Z) (supported_user_counts : list Z)
| JournalEntryHashMaterial (domain : string) (version generation : Z) (request_id : list Z) (request_fingerprint prev_entry_hash : Bytes32)
    (action : ProductionJournalAction) (result : ProducerHeadSnapshot)
| RequestFingerprint (domain kind : string) (body : RequestBody).
Arguments Hashed : clear implicits.
Arguments Hashed {P}.

Class JournalCodec {P : Poseidon} := {
  to_vec : Hashed -> option (list Z);
  journal_to_vec : ProductionJournalFile -> option (list Z);
  (** The whole input is one journal. *)
  journal_from_slice : list Z -> option ProductionJournalFile;
  keccak_of_bytes : list Z -> list Z;
}.

(** A written journal is read back.  The repository's format drops trailing empty rows of a balance
    state and pads to full width when it reads: the law describes it for states of full width. *)
Class JournalCodecOk {P : Poseidon} (JC : JournalCodec) : Prop := {
  journal_roundtrip d bytes : journal_to_vec d = Some bytes -> journal_from_slice bytes = Some d;
}.

(** What is hashed can be read back from its bytes, so that different values have different bytes;
    again for states of full width. *)
Class JournalCodecInj {P : Poseidon} (JC : JournalCodec) : Prop := {
  to_vec_inj a b bytes : to_vec a = Some bytes -> to_vec b = Some bytes -> a = b;
}.

Section hashes.
Context {P : Poseidon} {JC : JournalCodec}.

Definition hash_serializable (value : Hashed) : res Bytes32 :=
  bytes ← ok_or (to_vec value) Journal;
  map_err (fun _ => Journal) (from_bytes_be BYTES32_LEN (keccak_of_bytes bytes)).

Definition genesis_material (supported_user_counts : list Z) : Hashed :=
  JournalGenesis "INTMAX_BLOCK_PRODUCER_JOURNAL_GENESIS_V1" PRODUCTION_JOURNAL_VERSION supported_user_counts.

Definition journal_genesis_hash (supported_user_counts : list Z) : res Bytes32 := hash_serializable (genesis_material supported_user_counts).

(** [journal_entry_hash] reads every field but [entry_hash]. *)
Definition entry_material (entry : ProductionJournalEntry) : Hashed :=
  JournalEntryHashMaterial "INTMAX_BLOCK_PRODUCER_JOURNAL_ENTRY_V1" PRODUCTION_JOURNAL_VERSION (ProductionJournalEntry.generation entry)
    (ProductionJournalEntry.request_id entry) (ProductionJournalEntry.request_fingerprint entry) (ProductionJournalEntry.prev_entry_hash entry)
    (ProductionJournalEntry.action entry) (ProductionJournalEntry.result entry).

Definition journal_entry_hash (entry : ProductionJournalEntry) : res Bytes32 := hash_serializable (entry_material entry).

Definition request_fingerprint (kind : string) (body : RequestBody) : res Bytes32 :=
  hash_serializable (RequestFingerprint "INTMAX_BLOCK_PRODUCER_REQUEST_V1" kind body).

(** The payload with the signatures of its proposed state cleared. *)
Definition strip_payload (payload : InterChannelDebitPayload) : InterChannelDebitPayload :=
  InterChannelDebitPayload.mk (InterChannelDebitPayload.sender_index payload)
    (ChannelState.with_signatures (InterChannelDebitPayload.proposed_next_state payload) [])
    (InterChannelDebitPayload.inter_channel_tx payload) (InterChannelDebitPayload.amount payload) (InterChannelDebitPayload.members payload)
    (InterChannelDebitPayload.record payload) (InterChannelDebitPayload.destination_recipient_pk payload).

Definition staged_exit_kit_fingerprint (state : ChannelState) (debit_payload : InterChannelDebitPayload) (descriptor : InterChannelTransferDescriptor) : res Bytes32 :=
  request_fingerprint STAGED_INTER_CHANNEL_EXIT_KIT_DOMAIN
    (PostFingerprint (ChannelState.with_signatures state []) (strip_payload debit_payload) descriptor).

Definition fingerprint_for_action (action : ProductionJournalAction) : res Bytes32 :=
  match action with
  | Register snapshot _ => request_fingerprint "register" (SnapshotBody snapshot)
  | PostDeposit deposit _ => request_fingerprint "postDeposit" (DepositBody deposit)
  | SyncOffchainHeads signed_states _ => request_fingerprint "syncOffchainHeads" (StatesBody signed_states)
  | PostInterChannel signed_state debit_payload descriptor _ => request_fingerprint "postInterChannel" (PostFingerprint signed_state debit_payload descriptor)
  | PostCloseFunding signed_state plan _ => request_fingerprint "postCloseFunding" (CloseFundingFingerprint signed_state plan)
  | StagedInterChannelExitKit proposed_state debit_payload descriptor _ => staged_exit_kit_fingerprint proposed_state debit_payload descriptor
  | AdoptDelegateJoin record signed_state _ => request_fingerprint "adoptDelegateJoin" (JoinBody record signed_state)
  | PostMemberSetUpdate signed_state old_members new_record new_members _ =>
      request_fingerprint "postMemberSetUpdate" (MemberSetUpdateFingerprint signed_state old_members new_record new_members)
  end.

(** [ProductionJournalFile::empty]. *)
Definition empty_journal (supported_user_counts : list Z) : res ProductionJournalFile :=
  tail_hash ← journal_genesis_hash supported_user_counts;
  Ok (ProductionJournalFile.mk PRODUCTION_JOURNAL_MAGIC PRODUCTION_JOURNAL_VERSION supported_user_counts 0 tail_hash [] None).

(** ** The file *)

Definition read_journal (bytes : list Z) : res ProductionJournalFile :=
  let len := Z.of_nat (length bytes) in
  _ ← reject ((len =? 0) || (MAX_JOURNAL_BYTES <? len)) Journal;
  ok_or (journal_from_slice bytes) Journal.

(** The bytes that [persist_journal] writes. *)
Definition encode_journal (disk : ProductionJournalFile) : res (list Z) :=
  encoded ← ok_or (journal_to_vec disk) Journal;
  let len := Z.of_nat (length encoded) in
  _ ← reject ((len =? 0) || (MAX_JOURNAL_BYTES <? len)) Journal;
  Ok encoded.

Definition persist_journal (fault : Fault) (disk : ProductionJournalFile) : meth (option (list Z)) BlockProducerServiceError unit :=
  encoded ← pure (encode_journal disk);
  match fault with
  | NoFault => modify (fun _ => Some encoded)
  | BeforeRename => pure (Err Journal)
  | AfterRename => _ ← modify (fun _ => Some encoded); pure (Err Journal)
  end.

End hashes.

(** ** Checks of requests *)

(** [counts.windows(2).any(|window| window[0] >= window[1])]. *)
Fixpoint has_descent (counts : list Z) : bool :=
  match counts with
  | a :: (b :: _) as rest => (b <=? a) || has_descent rest
  | _ => false
  end.

Definition validate_supported_user_counts (counts : list Z) : res unit :=
  _ ← reject (bool_decide (counts = []) || existsb (fun count => count =? 0) counts || has_descent counts) InvalidConfiguration;
  first ← unwrap (counts !! 0%nat);
  reject (first <? 1) InvalidConfiguration.

Definition is_ascii_alphanumeric (byte : Z) : bool :=
  ((48 <=? byte) && (byte <=? 57)) || ((65 <=? byte) && (byte <=? 90)) || ((97 <=? byte) && (byte <=? 122)).

(** The other bytes are [-], [_], [.] and [:]. *)
Definition validate_request_id (request_id : list Z) : res unit :=
  reject (bool_decide (request_id = []) || (MAX_REQUEST_ID_BYTES <? length request_id)%nat
    || negb (forallb (fun byte => is_ascii_alphanumeric byte || (byte =? 45) || (byte =? 95) || (byte =? 46) || (byte =? 58)) request_id)) InvalidRequest.

(** ** Heads of the producer *)

(** [sort_by_key], which is stable. *)
Fixpoint insert_by_key {A} (key : A -> Z) (x : A) (sorted : list A) : list A :=
  match sorted with
  | [] => [x]
  | y :: rest => if key x <? key y then x :: sorted else y :: insert_by_key key x rest
  end.

Definition sort_by_key {A} (key : A -> Z) (xs : list A) : list A := foldl (fun sorted x => insert_by_key key x sorted) [] xs.

(** The fields of the generator that the service reads. *)
Class GeneratorState {P : Poseidon} {G : BlockWitnessGenerator} := {
  generator_block_number : Generator -> U63.U63;
  generator_extended_public_state : Generator -> ExtendedPublicState;
}.

(** Timestamps of blocks are [u64]. *)
Class GeneratorTimestamps {P : Poseidon} (G : BlockWitnessGenerator) : Prop := {
  timestamps_nonneg g b : b ∈ blocks g -> 0 <= Block.timestamp b;
}.

Section producer.
Context {P : Poseidon} {W : PoseidonWords P} {K : Keccak} {CV : CosignVerifier} {G : BlockWitnessGenerator} {GS : GeneratorState}.

#[local] Notation Producer := ProductionBlockProducer.ProductionBlockProducer.

Definition block_number (p : Producer) : Z := U63.as_u64 (generator_block_number (ProductionBlockProducer.witness p)).

Definition current_extended_public_state (p : Producer) : ExtendedPublicState := generator_extended_public_state (ProductionBlockProducer.witness p).

Definition registered_channel_count (p : Producer) : Z := Z.of_nat (size (ProductionBlockProducer.channel_records p)).

Definition next_deposit_index (p : Producer) : Z := deposit_counts (ProductionBlockProducer.witness p).

Definition registered_record_counts (p : Producer) : list (ChannelId * Z * Z) :=
  sort_by_key (fun e => e.1.1)
    ((fun e : ChannelId * ChannelRecord => (e.1, ChannelRecord.member_count e.2, ChannelRecord.delegate_count e.2))
       <$> map_to_list (ProductionBlockProducer.channel_records p)).

Definition channel_heads (p : Producer) : list ProductionChannelHead :=
  sort_by_key ProductionChannelHead.channel_id
    ((fun e : ChannelId * ChannelState =>
        ProductionChannelHead.mk e.1 (ChannelState.digest e.2) (ChannelState.epoch e.2) (ChannelState.small_block_number e.2)
          (BalanceState.state_version (ChannelState.balance_state e.2)))
       <$> map_to_list (ProductionBlockProducer.channel_heads p)).

Definition capture (p : Producer) : ProducerHeadSnapshot :=
  let ext := current_extended_public_state p in
  let inner := ExtendedPublicState.inner ext in
  ProducerHeadSnapshot.mk (block_number p) (ProductionBlockProducer.last_timestamp p) (PublicState.account_tree_root inner)
    (PublicState.deposit_tree_root inner) (PublicState.prev_public_state_root inner) (ExtendedPublicState.block_hash_chain ext)
    (ExtendedPublicState.deposit_hash_chain ext) (U63.as_u64 (ExtendedPublicState.deposit_count ext))
    (ExtendedPublicState.channel_reg_hash_chain ext) (ExtendedPublicState.bp_sig_chain ext) (registered_channel_count p) (channel_heads p).

(** The two [expect]s are panics. *)
Definition extended_public_state (head : ProducerHeadSnapshot) : res ExtendedPublicState :=
  block_number ← expect (U63.new (ProducerHeadSnapshot.block_number head));
  deposit_count ← expect (U63.new (ProducerHeadSnapshot.deposit_count head));
  Ok (ExtendedPublicState.mk
    (PublicState.mk block_number (ProducerHeadSnapshot.timestamp head) (ProducerHeadSnapshot.account_tree_root head)
       (ProducerHeadSnapshot.deposit_tree_root head) (ProducerHeadSnapshot.prev_public_state_root head))
    (ProducerHeadSnapshot.block_hash_chain head) (ProducerHeadSnapshot.deposit_hash_chain head) deposit_count
    (ProducerHeadSnapshot.channel_reg_hash_chain head) (ProducerHeadSnapshot.bp_sig_chain head)).

Definition extended_state_commitment (head : ProducerHeadSnapshot) : res Bytes32 :=
  state ← extended_public_state head; ExtendedPublicState.commitment state.

(** [BlockProducerReceipt::from_entry] and [BlockProducerAnchor::from_entry]. *)
Definition receipt_from_entry (entry : ProductionJournalEntry) : res BlockProducerReceipt :=
  let result := ProductionJournalEntry.result entry in
  commitment ← extended_state_commitment result;
  Ok (BlockProducerReceipt.mk (ProductionJournalEntry.request_id entry) (ProductionJournalEntry.generation entry) (ProductionJournalEntry.entry_hash entry)
    (ProducerHeadSnapshot.block_number result) (ProducerHeadSnapshot.timestamp result) commitment (ProducerHeadSnapshot.bp_sig_chain result)).

Definition anchor_from_entry (entry : ProductionJournalEntry) : res BlockProducerAnchor :=
  let result := ProductionJournalEntry.result entry in
  commitment ← extended_state_commitment result;
  Ok (BlockProducerAnchor.mk (ProductionJournalEntry.generation entry) (ProductionJournalEntry.entry_hash entry)
    (ProducerHeadSnapshot.block_number result) (ProducerHeadSnapshot.timestamp result) commitment (ProducerHeadSnapshot.bp_sig_chain result)).

(** ** Replay *)

(** A call of the producer, whose answer is dropped and whose error is wrapped. *)
Definition call {A} (m : meth Producer ProductionBlockProducerError A) : meth Producer BlockProducerServiceError unit := fun p =>
  let '(p', r) := m p in (p', map_err ProducerError (_ ← r; Ok tt)).

Definition apply_action (action : ProductionJournalAction) : meth Producer BlockProducerServiceError unit :=
  match action with
  | Register snapshot timestamp => call (ProductionBlockProducer.register_snapshot snapshot timestamp)
  | PostDeposit deposit timestamp => call (ProductionBlockProducer.produce_deposit_block deposit timestamp)
  | SyncOffchainHeads signed_states _ => call (ProductionBlockProducer.sync_offchain_heads signed_states)
  | PostInterChannel signed_state debit_payload descriptor timestamp =>
      call (ProductionBlockProducer.produce_inter_channel_descriptor_block signed_state debit_payload descriptor timestamp)
  | PostCloseFunding signed_state plan timestamp => call (ProductionBlockProducer.produce_close_funding_block signed_state plan timestamp)
  | StagedInterChannelExitKit proposed_state debit_payload descriptor timestamp =>
      call (ProductionBlockProducer.produce_inter_channel_descriptor_block_unsigned_staging proposed_state debit_payload descriptor timestamp)
  | AdoptDelegateJoin record signed_state _ => call (ProductionBlockProducer.adopt_delegate_join record signed_state)
  | PostMemberSetUpdate _ _ _ _ _ => pure (Err InvalidRequest)
  end.

Context {JC : JournalCodec}.

(** The mutable variables of the replay. *)
Record Replay := mkReplay { replayed : Producer; expected_prev : Bytes32; request_ids : list (list Z); prior_timestamp : Z; index : nat }.

(** The checks of one entry against the replayed prefix, up to and including its replay; [kind] is the check of the action that a prepared entry has
    and a committed one has not. *)
Definition replay_entry (kind : ProductionJournalAction -> bool) (expected_generation : Z) (r : Replay) (entry : ProductionJournalEntry) : res Producer :=
  let action := ProductionJournalEntry.action entry in
  _ ← reject (negb (ProductionJournalEntry.generation entry =? expected_generation)
        || bool_decide (ProductionJournalEntry.prev_entry_hash entry <> expected_prev r)) Journal;
  _ ← map_err (fun _ => Journal) (validate_request_id (ProductionJournalEntry.request_id entry));
  _ ← reject (bool_decide (ProductionJournalEntry.request_id entry ∈ request_ids r)) Journal;
  _ ← reject (negb (kind action)) Journal;
  expected_fingerprint ← fingerprint_for_action action;
  _ ← reject (bool_decide (ProductionJournalEntry.request_fingerprint entry <> expected_fingerprint)) Journal;
  _ ← reject (action_timestamp action <=? prior_timestamp r) Journal;
  expected_hash ← journal_entry_hash entry;
  _ ← reject (bool_decide (ProductionJournalEntry.entry_hash entry <> expected_hash)) Journal;
  let '(candidate, applied) := apply_action action (replayed r) in
  _ ← map_err (fun _ => Journal) applied;
  _ ← reject (bool_decide (capture candidate <> ProductionJournalEntry.result entry)) Journal;
  _ ← reject (ProductionBlockProducer.holds_any_local_signing_keys candidate) Journal;
  Ok candidate.

(** One iteration of the loop over the committed entries. *)
Definition replay_step (r : Replay) (entry : ProductionJournalEntry) : res Replay :=
  candidate ← replay_entry (fun _ => true) (wrap 64 (Z.of_nat (index r) + 1)) r entry;
  Ok (mkReplay candidate (ProductionJournalEntry.entry_hash entry) (ProductionJournalEntry.request_id entry :: request_ids r)
    (action_timestamp (ProductionJournalEntry.action entry)) (S (index r))).

Definition is_member_set_update (action : ProductionJournalAction) : bool :=
  match action with PostMemberSetUpdate _ _ _ _ _ => true | _ => false end.

Definition is_staged (action : ProductionJournalAction) : bool :=
  match action with StagedInterChannelExitKit _ _ _ _ => true | _ => false end.

Definition is_close_funding (action : ProductionJournalAction) : bool :=
  match action with PostCloseFunding _ _ _ => true | _ => false end.

Definition verify_and_replay (disk : ProductionJournalFile) : res (Producer * option Producer) :=
  let entries := ProductionJournalFile.entries disk in
  let counts := ProductionJournalFile.supported_user_counts disk in
  _ ← reject (bool_decide (ProductionJournalFile.magic disk <> PRODUCTION_JOURNAL_MAGIC)) Journal;
  _ ← reject (negb (ProductionJournalFile.version disk =? PRODUCTION_JOURNAL_VERSION)) Journal;
  _ ← validate_supported_user_counts counts;
  _ ← reject (existsb (fun e => is_member_set_update (ProductionJournalEntry.action e)) entries) Journal;
  _ ← reject (existsb (fun e => is_staged (ProductionJournalEntry.action e)) entries) Journal;
  _ ← reject (negb (ProductionJournalFile.generation disk =? wrap 64 (Z.of_nat (length entries)))) Journal;
  genesis ← journal_genesis_hash counts;
  r ← res_foldl replay_step (mkReplay (ProductionBlockProducer.new counts) genesis [] 0 0) entries;
  _ ← reject (bool_decide (ProductionJournalFile.tail_hash disk <> expected_prev r)) Journal;
  prepared ← (match ProductionJournalFile.prepared disk with
    | Some prepared =>
        expected_generation ← ok_or (checked_add 64 (ProductionJournalFile.generation disk) 1) Journal;
        candidate ← replay_entry (fun action => is_close_funding action || is_staged action) expected_generation r prepared;
        Ok (Some candidate)
    | None => Ok None
    end);
  Ok (replayed r, prepared).

End producer.
Arguments Replay {P G}.

Module BlockProducerServiceStatus.
Record BlockProducerServiceStatus := mk {
  journal_version : Z;
  generation : Z;
  journal_head : Bytes32;
  block_number : Z;
  timestamp : Z;
  extended_state_commitment : Bytes32;
  block_hash_chain : Bytes32;
  channel_reg_hash_chain : Bytes32;
  bp_sig_chain : Bytes32;
  registered_channel_count : Z;
  channel_heads : list ProductionChannelHead;
  holds_local_signing_keys : bool;
  next_deposit_index : Z;
  (** Channel, members and delegates of every registered record. *)
  registered_records : list (ChannelId * Z * Z);
}.
End BlockProducerServiceStatus.
Notation BlockProducerServiceStatus := BlockProducerServiceStatus.BlockProducerServiceStatus.

(** [serde_json::Value] and the payloads that are read from it. *)
Class CommandCodec {P : Poseidon} := {
  Value : Type;
  snapshot_from_value : Value -> option ChannelSnapshot;
  states_from_value : Value -> option (list ChannelState);
  state_from_value : Value -> option ChannelState;
  payload_from_value : Value -> option InterChannelDebitPayload;
  descriptor_from_value : Value -> option InterChannelTransferDescriptor;
  record_from_value : Value -> option ChannelRecord;
}.

Inductive BlockProducerCommand {P : Poseidon} {CC : CommandCodec} :=
| StatusCommand
| RegisterCommand (request_id : list Z) (snapshot : Value)
| PostDepositCommand (request_id : list Z) (deposit : ProductionDepositRequest)
| SyncOffchainHeadsCommand (request_id : list Z) (signed_states : Value)
| PostInterChannelCommand (request_id : list Z) (signed_state debit_payload descriptor : Value)
| PostCloseFundingCommand (request_id : list Z) (signed_state plan : Value)
| PrepareCloseFundingCommand (request_id : list Z) (signed_state plan : Value)
| PrepareInterChannelExitKitCommand (request_id : list Z) (proposed_state debit_payload descriptor : Value)
| AbandonPreparedInterChannelExitKitCommand (request_id : list Z)
| AdoptDelegateJoinCommand (request_id : list Z) (record signed_state : Value)
| PostMemberSetUpdateCommand (request_id : list Z) (signed_state old_members new_record new_members : Value).
Arguments BlockProducerCommand : clear implicits.
Arguments BlockProducerCommand {P CC}.

Inductive BlockProducerCommandResult := StatusResult (status : BlockProducerServiceStatus) | ReceiptResult (receipt : BlockProducerReceipt).

(** ** The service *)

Module BlockProducerService.
(** [journal_path] is represented by the file it names. *)
Record BlockProducerService {P : Poseidon} {G : BlockWitnessGenerator} := mk {
  file : option (list Z);
  disk : ProductionJournalFile;
  producer : ProductionBlockProducer.ProductionBlockProducer;
  prepared_producer : option ProductionBlockProducer.ProductionBlockProducer;
  poisoned : bool;
}.
#[global] Arguments BlockProducerService : clear implicits.
#[global] Arguments BlockProducerService {P G}.
#[global] Arguments mk {P G}.

Section service.
Context {P : Poseidon} {W : PoseidonWords P} {K : Keccak} {CV : CosignVerifier} {G : BlockWitnessGenerator} {GS : GeneratorState} {JC : JournalCodec}.

#[local] Notation meth := (meth BlockProducerService BlockProducerServiceError).
#[local] Notation Producer := ProductionBlockProducer.ProductionBlockProducer.

(** The file as it is left, and the service. *)
Definition open (fault : Fault) (path : option (list Z)) (supported_user_counts : list Z) : option (list Z) * res BlockProducerService :=
  match validate_supported_user_counts supported_user_counts with
  | Ok _ =>
      let '(file, disk) := match path with
        | Some bytes => (path, read_journal bytes)
        | None =>
            match empty_journal supported_user_counts with
            | Ok disk => let '(file, r) := persist_journal fault disk None in (file, _ ← r; Ok disk)
            | Err e => (None, Err e)
            | Panic => (None, Panic)
            end
        end in
      (file,
        disk ← disk;
        _ ← reject (bool_decide (ProductionJournalFile.supported_user_counts disk <> supported_user_counts)) InvalidConfiguration;
        r ← verify_and_replay disk;
        Ok (mk file disk r.1 r.2 false))
  | Err e => (path, Err e)
  | Panic => (path, Panic)
  end.

Definition ensure_healthy : meth unit := s ← self; pure (if poisoned s then Err Poisoned else Ok tt).

Definition ensure_no_prepared : meth unit :=
  s ← self; pure (match ProductionJournalFile.prepared (disk s) with Some _ => Err Conflict | None => Ok tt end).

(** [wall] is the clock, [None] when it is before the epoch. *)
Definition next_timestamp (wall : option Z) : meth Z :=
  s ← self;
  wall ← pure (ok_or wall InvalidConfiguration);
  let last_timestamp := ProductionBlockProducer.last_timestamp (producer s) in
  let prior := Z.max (match list.last (ProductionJournalFile.entries (disk s)) with
    | Some entry => action_timestamp (ProductionJournalEntry.action entry)
    | None => last_timestamp
    end) last_timestamp in
  successor ← pure (ok_or (checked_add 64 prior 1) InvalidConfiguration);
  mret (Z.max wall successor).

Definition find_entry (request_id : list Z) (s : BlockProducerService) : option ProductionJournalEntry :=
  List.find (fun entry => bool_decide (ProductionJournalEntry.request_id entry = request_id)) (ProductionJournalFile.entries (disk s)).

(** [Option::map] with a conversion that may panic. *)
Definition map_receipt (entry : option ProductionJournalEntry) : res (option BlockProducerReceipt) :=
  match entry with
  | Some entry => receipt ← receipt_from_entry entry; Ok (Some receipt)
  | None => Ok None
  end.

Definition idempotent_receipt (request_id : list Z) (fingerprint : Bytes32) : meth (option BlockProducerReceipt) :=
  s ← self;
  match find_entry request_id s with
  | None => mret None
  | Some entry =>
      _ ← pure (reject (bool_decide (ProductionJournalEntry.request_fingerprint entry <> fingerprint)) Conflict);
      pure (map_receipt (Some entry))
  end.

Definition build_candidate_entry (request_id : list Z) (request_fingerprint : Bytes32) (action : ProductionJournalAction)
    : meth (Producer * ProductionJournalEntry) :=
  s ← self;
  let '(candidate, applied) := apply_action action (producer s) in
  _ ← pure applied;
  _ ← pure (reject (ProductionBlockProducer.holds_any_local_signing_keys candidate) Journal);
  generation ← pure (ok_or (checked_add 64 (ProductionJournalFile.generation (disk s)) 1) Journal);
  let entry hash := ProductionJournalEntry.mk generation request_id request_fingerprint (ProductionJournalFile.tail_hash (disk s)) action (capture candidate) hash in
  entry_hash ← pure (journal_entry_hash (entry bytes32_default));
  mret (candidate, entry entry_hash).

(** [if let Err(error) = persist_journal(..) { self.poisoned = true; return Err(error) } self.disk = next_disk]. *)
Definition save (fault : Fault) (next_disk : ProductionJournalFile) : meth unit :=
  s ← self;
  let '(file, r) := persist_journal fault next_disk (file s) in
  match r with
  | Ok _ => modify (fun s => mk file next_disk (producer s) (prepared_producer s) (poisoned s))
  | _ => _ ← modify (fun s => mk file (disk s) (producer s) (prepared_producer s) true); pure r
  end.

(** Assignments to the producers. *)
Definition set_producer (p : Producer) : meth unit := modify (fun s => mk (file s) (disk s) p (prepared_producer s) (poisoned s)).
Definition set_prepared_producer (p : option Producer) : meth unit := modify (fun s => mk (file s) (disk s) (producer s) p (poisoned s)).

(** [next_disk.entries.push(entry)] with the new tail, and the prepared entry that stays. *)
Definition push_entry (d : ProductionJournalFile) (entry : ProductionJournalEntry) (receipt : BlockProducerReceipt) (prepared : option ProductionJournalEntry)
    : ProductionJournalFile :=
  ProductionJournalFile.mk (ProductionJournalFile.magic d) (ProductionJournalFile.version d) (ProductionJournalFile.supported_user_counts d)
    (BlockProducerReceipt.generation receipt) (BlockProducerReceipt.entry_hash receipt) (ProductionJournalFile.entries d ++ [entry]) prepared.

Definition with_prepared (d : ProductionJournalFile) (prepared : option ProductionJournalEntry) : ProductionJournalFile :=
  ProductionJournalFile.mk (ProductionJournalFile.magic d) (ProductionJournalFile.version d) (ProductionJournalFile.supported_user_counts d)
    (ProductionJournalFile.generation d) (ProductionJournalFile.tail_hash d) (ProductionJournalFile.entries d) prepared.

Definition apply_and_persist (fault : Fault) (request_id : list Z) (request_fingerprint : Bytes32) (action : ProductionJournalAction)
    : meth BlockProducerReceipt :=
  _ ← ensure_no_prepared;
  s ← self;
  built ← build_candidate_entry request_id request_fingerprint action;
  receipt ← pure (receipt_from_entry built.2);
  _ ← save fault (push_entry (disk s) built.2 receipt (ProductionJournalFile.prepared (disk s)));
  _ ← set_producer built.1;
  mret receipt.

(** A request that is answered from the journal when it is there, and admitted otherwise. *)
Definition idempotently (request_id : list Z) (fingerprint : Bytes32) (otherwise : meth BlockProducerReceipt) : meth BlockProducerReceipt :=
  receipt ← idempotent_receipt request_id fingerprint;
  match receipt with Some receipt => mret receipt | None => otherwise end.

Definition register (fault : Fault) (wall : option Z) (request_id : list Z) (snapshot : ChannelSnapshot) : meth BlockProducerReceipt :=
  _ ← ensure_healthy;
  _ ← ensure_no_prepared;
  _ ← pure (validate_request_id request_id);
  fingerprint ← pure (request_fingerprint "register" (SnapshotBody snapshot));
  idempotently request_id fingerprint (
    timestamp ← next_timestamp wall;
    apply_and_persist fault request_id fingerprint (Register snapshot timestamp)).

Definition post_deposit (fault : Fault) (wall : option Z) (request_id : list Z) (deposit : ProductionDepositRequest) : meth BlockProducerReceipt :=
  _ ← ensure_healthy;
  _ ← ensure_no_prepared;
  _ ← pure (validate_request_id request_id);
  fingerprint ← pure (request_fingerprint "postDeposit" (DepositBody deposit));
  idempotently request_id fingerprint (
    timestamp ← next_timestamp wall;
    apply_and_persist fault request_id fingerprint (PostDeposit deposit timestamp)).

(** The state is one that a committed sync or transfer admitted. *)
Definition synced_before (state : ChannelState) (entry : ProductionJournalEntry) : bool :=
  match ProductionJournalEntry.action entry with
  | PostInterChannel accepted _ _ _ => bool_decide (ChannelState.digest accepted = ChannelState.digest state)
  | SyncOffchainHeads accepted _ => existsb (fun accepted => bool_decide (ChannelState.digest accepted = ChannelState.digest state)) accepted
  | _ => false
  end.

Definition sync_offchain_heads (fault : Fault) (wall : option Z) (request_id : list Z) (signed_states : list ChannelState) : meth BlockProducerReceipt :=
  _ ← ensure_healthy;
  _ ← ensure_no_prepared;
  _ ← pure (validate_request_id request_id);
  _ ← pure (reject (bool_decide (length signed_states = 0%nat)) InvalidRequest);
  fingerprint ← pure (request_fingerprint "syncOffchainHeads" (StatesBody signed_states));
  idempotently request_id fingerprint (
    s ← self;
    _ ← pure (reject (existsb (fun state => existsb (synced_before state) (ProductionJournalFile.entries (disk s))) signed_states) Conflict);
    timestamp ← next_timestamp wall;
    apply_and_persist fault request_id fingerprint (SyncOffchainHeads signed_states timestamp)).

(** The join is tried on a copy first. *)
Definition adopt_delegate_join (fault : Fault) (wall : option Z) (request_id : list Z) (record : ChannelRecord) (signed_state : ChannelState)
    : meth BlockProducerReceipt :=
  _ ← ensure_healthy;
  _ ← ensure_no_prepared;
  _ ← pure (validate_request_id request_id);
  fingerprint ← pure (request_fingerprint "adoptDelegateJoin" (JoinBody record signed_state));
  idempotently request_id fingerprint (
    s ← self;
    _ ← pure (call (ProductionBlockProducer.adopt_delegate_join record signed_state) (producer s)).2;
    timestamp ← next_timestamp wall;
    apply_and_persist fault request_id fingerprint (AdoptDelegateJoin record signed_state timestamp)).

(** The state or the transaction of a committed transfer. *)
Definition posted_before (signed_state : ChannelState) (descriptor : InterChannelTransferDescriptor) (entry : ProductionJournalEntry) : bool :=
  match ProductionJournalEntry.action entry with
  | PostInterChannel accepted _ accepted_descriptor _ =>
      bool_decide (ChannelState.digest accepted = ChannelState.digest signed_state)
        || bool_decide (InterChannelTransferDescriptor.tx_hash accepted_descriptor = InterChannelTransferDescriptor.tx_hash descriptor)
  | _ => false
  end.

(** The timestamp of a staged exit kit with this fingerprint. *)
Definition staged_timestamp (prepared : ProductionJournalEntry) (staged_fingerprint : Bytes32) : res Z :=
  match ProductionJournalEntry.action prepared with
  | StagedInterChannelExitKit _ _ _ timestamp =>
      if bool_decide (ProductionJournalEntry.request_fingerprint prepared = staged_fingerprint) then Ok timestamp else Err Conflict
  | _ => Err Conflict
  end.

Definition post_inter_channel (fault : Fault) (wall : option Z) (request_id : list Z) (signed_state : ChannelState)
    (debit_payload : InterChannelDebitPayload) (descriptor : InterChannelTransferDescriptor) : meth BlockProducerReceipt :=
  _ ← ensure_healthy;
  _ ← pure (validate_request_id request_id);
  fingerprint ← pure (request_fingerprint "postInterChannel" (PostFingerprint signed_state debit_payload descriptor));
  idempotently request_id fingerprint (
    s ← self;
    match ProductionJournalFile.prepared (disk s) with
    | Some prepared =>
        staged_fingerprint ← pure (staged_exit_kit_fingerprint signed_state debit_payload descriptor);
        timestamp ← pure (staged_timestamp prepared staged_fingerprint);
        built ← build_candidate_entry request_id fingerprint (PostInterChannel signed_state debit_payload descriptor timestamp);
        _ ← pure (reject (bool_decide (ProductionJournalEntry.result built.2 <> ProductionJournalEntry.result prepared)) Conflict);
        receipt ← pure (receipt_from_entry built.2);
        _ ← save fault (push_entry (disk s) built.2 receipt None);
        _ ← set_producer built.1;
        _ ← set_prepared_producer None;
        mret receipt
    | None =>
        _ ← pure (reject (existsb (posted_before signed_state descriptor) (ProductionJournalFile.entries (disk s))) Conflict);
        timestamp ← next_timestamp wall;
        apply_and_persist fault request_id fingerprint (PostInterChannel signed_state debit_payload descriptor timestamp)
    end).

Definition post_close_funding : meth BlockProducerReceipt := pure (Err InvalidRequest).

Definition post_member_set_update : meth BlockProducerReceipt := pure (Err InvalidRequest).

(** The state is one that a committed entry admitted. *)
Definition admitted_before (state : ChannelState) (entry : ProductionJournalEntry) : bool :=
  match ProductionJournalEntry.action entry with
  | PostCloseFunding accepted _ _ | PostInterChannel accepted _ _ _ => bool_decide (ChannelState.digest accepted = ChannelState.digest state)
  | SyncOffchainHeads signed_states _ => existsb (fun accepted => bool_decide (ChannelState.digest accepted = ChannelState.digest state)) signed_states
  | _ => false
  end.

(** The end of the two operations that stage an entry. *)
Definition stage (fault : Fault) (request_id : list Z) (fingerprint : Bytes32) (action : ProductionJournalAction) : meth BlockProducerReceipt :=
  s ← self;
  built ← build_candidate_entry request_id fingerprint action;
  receipt ← pure (receipt_from_entry built.2);
  _ ← save fault (with_prepared (disk s) (Some built.2));
  _ ← set_prepared_producer (Some built.1);
  mret receipt.

Definition prepare_close_funding (fault : Fault) (wall : option Z) (request_id : list Z) (signed_state : ChannelState) (plan : CloseFundingPlan)
    : meth BlockProducerReceipt :=
  _ ← ensure_healthy;
  _ ← pure (validate_request_id request_id);
  fingerprint ← pure (request_fingerprint "postCloseFunding" (CloseFundingFingerprint signed_state plan));
  idempotently request_id fingerprint (
    s ← self;
    match ProductionJournalFile.prepared (disk s) with
    | Some prepared =>
        _ ← pure (reject (bool_decide (ProductionJournalEntry.request_id prepared <> request_id)) Conflict);
        _ ← pure (reject (bool_decide (ProductionJournalEntry.request_fingerprint prepared <> fingerprint)) Conflict);
        pure (receipt_from_entry prepared)
    | None =>
        _ ← pure (reject (existsb (admitted_before signed_state) (ProductionJournalFile.entries (disk s))) Conflict);
        timestamp ← next_timestamp wall;
        stage fault request_id fingerprint (PostCloseFunding signed_state plan timestamp)
    end).

Definition promote_prepared (fault : Fault) (expected_anchor : BlockProducerAnchor) : meth BlockProducerReceipt :=
  s ← self;
  prepared ← pure (ok_or (ProductionJournalFile.prepared (disk s)) InvalidRequest);
  anchor ← pure (anchor_from_entry prepared);
  _ ← pure (reject (bool_decide (anchor <> expected_anchor)) Conflict);
  _ ← pure (reject (negb (is_close_funding (ProductionJournalEntry.action prepared))) Journal);
  candidate ← pure (ok_or (prepared_producer s) Journal);
  receipt ← pure (receipt_from_entry prepared);
  _ ← save fault (push_entry (disk s) prepared receipt None);
  _ ← set_prepared_producer None;
  _ ← set_producer candidate;
  mret receipt.

Definition commit_prepared_close_funding (fault : Fault) (request_id : list Z) (signed_state : ChannelState) (plan : CloseFundingPlan)
    (expected_anchor : BlockProducerAnchor) : meth BlockProducerReceipt :=
  _ ← ensure_healthy;
  _ ← pure (validate_request_id request_id);
  fingerprint ← pure (request_fingerprint "postCloseFunding" (CloseFundingFingerprint signed_state plan));
  receipt ← idempotent_receipt request_id fingerprint;
  s ← self;
  match receipt with
  | Some receipt =>
      committed ← pure (unwrap (find_entry request_id s));
      anchor ← pure (anchor_from_entry committed);
      _ ← pure (reject (bool_decide (anchor <> expected_anchor)) Conflict);
      mret receipt
  | None =>
      prepared ← pure (ok_or (ProductionJournalFile.prepared (disk s)) InvalidRequest);
      _ ← pure (reject (bool_decide (ProductionJournalEntry.request_id prepared <> request_id)
            || bool_decide (ProductionJournalEntry.request_fingerprint prepared <> fingerprint)) Conflict);
      anchor ← pure (anchor_from_entry prepared);
      _ ← pure (reject (bool_decide (anchor <> expected_anchor)) Conflict);
      promote_prepared fault expected_anchor
  end.

Definition committed_entry_at_anchor (anchor : BlockProducerAnchor) (s : BlockProducerService) : res (option ProductionJournalEntry) :=
  let generation := BlockProducerAnchor.generation anchor in
  if (generation =? 0) || (ProductionJournalFile.generation (disk s) <? generation) then Ok None
  else
    match ProductionJournalFile.entries (disk s) !! Z.to_nat (generation - 1) with
    | None => Ok None
    | Some entry =>
        authenticated ← anchor_from_entry entry;
        Ok (if bool_decide (authenticated <> anchor) then None else Some entry)
    end.

Definition commit_prepared_close_funding_at_anchor (fault : Fault) (expected_anchor : BlockProducerAnchor) : meth BlockProducerReceipt :=
  _ ← ensure_healthy;
  s ← self;
  committed ← pure (committed_entry_at_anchor expected_anchor s);
  match committed with
  | Some committed =>
      _ ← pure (reject (negb (is_close_funding (ProductionJournalEntry.action committed))) Conflict);
      pure (receipt_from_entry committed)
  | None =>
      _ ← pure (reject (negb (is_some (ProductionJournalFile.prepared (disk s)))) InvalidRequest);
      promote_prepared fault expected_anchor
  end.

Definition prepare_inter_channel_exit_kit (fault : Fault) (wall : option Z) (request_id : list Z) (proposed_state : ChannelState)
    (debit_payload : InterChannelDebitPayload) (descriptor : InterChannelTransferDescriptor) : meth BlockProducerReceipt :=
  _ ← ensure_healthy;
  _ ← pure (validate_request_id request_id);
  fingerprint ← pure (staged_exit_kit_fingerprint proposed_state debit_payload descriptor);
  s ← self;
  match ProductionJournalFile.prepared (disk s) with
  | Some prepared =>
      if bool_decide (ProductionJournalEntry.request_id prepared = request_id) && bool_decide (ProductionJournalEntry.request_fingerprint prepared = fingerprint)
      then pure (receipt_from_entry prepared)
      else pure (Err Conflict)
  | None =>
      _ ← pure (reject (existsb (fun entry => bool_decide (ProductionJournalEntry.request_id entry = request_id)) (ProductionJournalFile.entries (disk s))) Conflict);
      _ ← pure (reject (existsb (admitted_before proposed_state) (ProductionJournalFile.entries (disk s))) Conflict);
      timestamp ← next_timestamp wall;
      stage fault request_id fingerprint (StagedInterChannelExitKit proposed_state debit_payload descriptor timestamp)
  end.

Definition abandon_prepared_inter_channel_exit_kit (fault : Fault) (request_id : list Z) : meth unit :=
  _ ← ensure_healthy;
  s ← self;
  match ProductionJournalFile.prepared (disk s) with
  | None => mret tt
  | Some prepared =>
      _ ← pure (reject (bool_decide (ProductionJournalEntry.request_id prepared <> request_id)) Conflict);
      _ ← pure (reject (negb (is_staged (ProductionJournalEntry.action prepared))) InvalidRequest);
      _ ← save fault (with_prepared (disk s) None);
      set_prepared_producer None
  end.

(** ** Queries *)

Definition get_producer : meth Producer := _ ← ensure_healthy; s ← self; mret (producer s).

Definition prepared_receipt : meth (option BlockProducerReceipt) :=
  _ ← ensure_healthy; s ← self; pure (map_receipt (ProductionJournalFile.prepared (disk s))).

Definition prepared_receipt_for_close_funding (request_id : list Z) (signed_state : ChannelState) (plan : CloseFundingPlan)
    : meth (option BlockProducerReceipt) :=
  _ ← ensure_healthy;
  fingerprint ← pure (request_fingerprint "postCloseFunding" (CloseFundingFingerprint signed_state plan));
  s ← self;
  match ProductionJournalFile.prepared (disk s) with
  | None => mret None
  | Some prepared =>
      if bool_decide (ProductionJournalEntry.request_id prepared <> request_id) then mret None
      else
        _ ← pure (reject (bool_decide (ProductionJournalEntry.request_fingerprint prepared <> fingerprint)) Conflict);
        pure (map_receipt (Some prepared))
  end.

Definition prepared_anchor : meth (option BlockProducerAnchor) :=
  _ ← ensure_healthy;
  s ← self;
  match ProductionJournalFile.prepared (disk s) with
  | None => mret None
  | Some prepared => anchor ← pure (anchor_from_entry prepared); mret (Some anchor)
  end.

Definition get_prepared_producer : meth (option Producer) := _ ← ensure_healthy; s ← self; mret (prepared_producer s).

Definition receipt (request_id : list Z) : meth (option BlockProducerReceipt) :=
  _ ← ensure_healthy; s ← self; pure (map_receipt (find_entry request_id s)).

Definition anchor_at_generation (generation : Z) : meth (option BlockProducerAnchor) :=
  _ ← ensure_healthy;
  s ← self;
  let counts := ProductionJournalFile.supported_user_counts (disk s) in
  if ProductionJournalFile.generation (disk s) <? generation then mret None
  else if generation =? 0 then
    let head := capture (ProductionBlockProducer.new counts) in
    genesis ← pure (journal_genesis_hash counts);
    commitment ← pure (extended_state_commitment head);
    mret (Some (BlockProducerAnchor.mk 0 genesis (ProducerHeadSnapshot.block_number head) (ProducerHeadSnapshot.timestamp head) commitment
      (ProducerHeadSnapshot.bp_sig_chain head)))
  else
    entry ← pure (unwrap (ProductionJournalFile.entries (disk s) !! Z.to_nat (generation - 1)));
    let result := ProductionJournalEntry.result entry in
    commitment ← pure (extended_state_commitment result);
    mret (Some (BlockProducerAnchor.mk generation (ProductionJournalEntry.entry_hash entry) (ProducerHeadSnapshot.block_number result)
      (ProducerHeadSnapshot.timestamp result) commitment (ProducerHeadSnapshot.bp_sig_chain result))).

Definition current_anchor : meth BlockProducerAnchor :=
  s ← self;
  anchor ← anchor_at_generation (ProductionJournalFile.generation (disk s));
  pure (ok_or anchor Journal).

(** One iteration of the closure [consider]. *)
Definition consider (inner : PublicState) (matched : option ExtendedPublicState) (head : ProducerHeadSnapshot) : res (option ExtendedPublicState) :=
  candidate ← extended_public_state head;
  if bool_decide (ExtendedPublicState.inner candidate <> inner) then Ok matched
  else
    match matched with
    | Some previous =>
        previous_commitment ← ExtendedPublicState.commitment previous;
        commitment ← ExtendedPublicState.commitment candidate;
        _ ← reject (bool_decide (previous_commitment <> commitment)) Conflict;
        Ok matched
    | None => Ok (Some candidate)
    end.

Definition extended_public_state_matching (inner : PublicState) : meth ExtendedPublicState :=
  _ ← ensure_healthy;
  s ← self;
  let genesis_head := capture (ProductionBlockProducer.new (ProductionJournalFile.supported_user_counts (disk s))) in
  let heads := genesis_head :: (ProductionJournalEntry.result <$> ProductionJournalFile.entries (disk s))
    ++ (match ProductionJournalFile.prepared (disk s) with Some prepared => [ProductionJournalEntry.result prepared] | None => [] end) in
  matched ← pure (res_foldl (consider inner) None heads);
  pure (ok_or matched Conflict).

(** One iteration of the replay of [producer_at_anchor]. *)
Definition replay_historical (p : Producer) (entry : ProductionJournalEntry) : res Producer :=
  let '(p', applied) := apply_action (ProductionJournalEntry.action entry) p in
  _ ← map_err (fun _ => Journal) applied;
  _ ← reject (bool_decide (capture p' <> ProductionJournalEntry.result entry)) Journal;
  Ok p'.

(** A generation fits [usize]. *)
Definition producer_at_anchor (anchor : BlockProducerAnchor) : meth Producer :=
  _ ← ensure_healthy;
  authenticated ← anchor_at_generation (BlockProducerAnchor.generation anchor);
  authenticated ← pure (ok_or authenticated Conflict);
  _ ← pure (reject (bool_decide (authenticated <> anchor)) Conflict);
  s ← self;
  if BlockProducerAnchor.generation anchor =? ProductionJournalFile.generation (disk s) then mret (producer s)
  else
    p ← pure (res_foldl replay_historical (ProductionBlockProducer.new (ProductionJournalFile.supported_user_counts (disk s)))
          (take (Z.to_nat (BlockProducerAnchor.generation anchor)) (ProductionJournalFile.entries (disk s))));
    _ ← pure (reject (ProductionBlockProducer.holds_any_local_signing_keys p) Journal);
    mret p.

Definition receipt_for_deposit (request_id : list Z) (deposit : ProductionDepositRequest) : meth (option BlockProducerReceipt) :=
  _ ← ensure_healthy;
  fingerprint ← pure (request_fingerprint "postDeposit" (DepositBody deposit));
  idempotent_receipt request_id fingerprint.

Definition receipt_for_inter_channel (request_id : list Z) (signed_state : ChannelState) (debit_payload : InterChannelDebitPayload)
    (descriptor : InterChannelTransferDescriptor) : meth (option BlockProducerReceipt) :=
  _ ← ensure_healthy;
  fingerprint ← pure (request_fingerprint "postInterChannel" (PostFingerprint signed_state debit_payload descriptor));
  idempotent_receipt request_id fingerprint.

Definition receipt_for_staged_inter_channel_exit_kit (request_id : list Z) (proposed_state : ChannelState) (debit_payload : InterChannelDebitPayload)
    (descriptor : InterChannelTransferDescriptor) : meth (option BlockProducerReceipt) :=
  _ ← ensure_healthy;
  fingerprint ← pure (staged_exit_kit_fingerprint proposed_state debit_payload descriptor);
  s ← self;
  match ProductionJournalFile.prepared (disk s) with
  | Some prepared =>
      if bool_decide (ProductionJournalEntry.request_id prepared = request_id) then
        _ ← pure (reject (bool_decide (ProductionJournalEntry.request_fingerprint prepared <> fingerprint)
              || negb (is_staged (ProductionJournalEntry.action prepared))) Conflict);
        pure (map_receipt (Some prepared))
      else mret None
  | None => mret None
  end.

Definition receipt_for_close_funding (request_id : list Z) (signed_state : ChannelState) (plan : CloseFundingPlan) : meth (option BlockProducerReceipt) :=
  _ ← ensure_healthy;
  fingerprint ← pure (request_fingerprint "postCloseFunding" (CloseFundingFingerprint signed_state plan));
  idempotent_receipt request_id fingerprint.

Definition committed_receipt_for_close_funding_at_anchor (request_id : list Z) (signed_state : ChannelState) (plan : CloseFundingPlan)
    (prepared_anchor : BlockProducerAnchor) : meth (option BlockProducerReceipt) :=
  _ ← ensure_healthy;
  fingerprint ← pure (request_fingerprint "postCloseFunding" (CloseFundingFingerprint signed_state plan));
  s ← self;
  match find_entry request_id s with
  | None => mret None
  | Some entry =>
      _ ← pure (reject (bool_decide (ProductionJournalEntry.request_fingerprint entry <> fingerprint)) Conflict);
      anchor ← pure (anchor_from_entry entry);
      _ ← pure (reject (bool_decide (anchor <> prepared_anchor)) Conflict);
      pure (map_receipt (Some entry))
  end.

Definition committed_receipt_at_anchor (committed_anchor : BlockProducerAnchor) : meth (option BlockProducerReceipt) :=
  _ ← ensure_healthy;
  s ← self;
  entry ← pure (committed_entry_at_anchor committed_anchor s);
  pure (map_receipt entry).

Definition status : meth BlockProducerServiceStatus :=
  _ ← ensure_healthy;
  s ← self;
  let head := capture (producer s) in
  commitment ← pure (extended_state_commitment head);
  mret (BlockProducerServiceStatus.mk (ProductionJournalFile.version (disk s)) (ProductionJournalFile.generation (disk s)) (ProductionJournalFile.tail_hash (disk s))
    (ProducerHeadSnapshot.block_number head) (ProducerHeadSnapshot.timestamp head) commitment (ProducerHeadSnapshot.block_hash_chain head)
    (ProducerHeadSnapshot.channel_reg_hash_chain head) (ProducerHeadSnapshot.bp_sig_chain head) (ProducerHeadSnapshot.registered_channel_count head)
    (ProducerHeadSnapshot.channel_heads head) (ProductionBlockProducer.holds_any_local_signing_keys (producer s)) (next_deposit_index (producer s))
    (registered_record_counts (producer s))).

Context {CC : CommandCodec}.

Definition command_payload {T} (parsed : option T) : res T := ok_or parsed InvalidRequest.

Definition answer (m : meth BlockProducerReceipt) : meth BlockProducerCommandResult := receipt ← m; mret (ReceiptResult receipt).

Definition execute (fault : Fault) (wall : option Z) (command : BlockProducerCommand) : meth BlockProducerCommandResult :=
  match command with
  | StatusCommand => status ← status; mret (StatusResult status)
  | RegisterCommand request_id snapshot =>
      snapshot ← pure (command_payload (snapshot_from_value snapshot));
      answer (register fault wall request_id snapshot)
  | PostDepositCommand request_id deposit => answer (post_deposit fault wall request_id deposit)
  | SyncOffchainHeadsCommand request_id signed_states =>
      signed_states ← pure (command_payload (states_from_value signed_states));
      answer (sync_offchain_heads fault wall request_id signed_states)
  | PostInterChannelCommand request_id signed_state debit_payload descriptor =>
      signed_state ← pure (command_payload (state_from_value signed_state));
      debit_payload ← pure (command_payload (payload_from_value debit_payload));
      descriptor ← pure (command_payload (descriptor_from_value descriptor));
      answer (post_inter_channel fault wall request_id signed_state debit_payload descriptor)
  | AdoptDelegateJoinCommand request_id record signed_state =>
      record ← pure (command_payload (record_from_value record));
      signed_state ← pure (command_payload (state_from_value signed_state));
      answer (adopt_delegate_join fault wall request_id record signed_state)
  | PostCloseFundingCommand _ _ _ | PrepareCloseFundingCommand _ _ _ => pure (Err InvalidRequest)
  | PrepareInterChannelExitKitCommand request_id proposed_state debit_payload descriptor =>
      proposed_state ← pure (command_payload (state_from_value proposed_state));
      debit_payload ← pure (command_payload (payload_from_value debit_payload));
      descriptor ← pure (command_payload (descriptor_from_value descriptor));
      answer (prepare_inter_channel_exit_kit fault wall request_id proposed_state debit_payload descriptor)
  | AbandonPreparedInterChannelExitKitCommand request_id =>
      _ ← abandon_prepared_inter_channel_exit_kit fault request_id;
      status ← status; mret (StatusResult status)
  | PostMemberSetUpdateCommand _ _ _ _ _ => pure (Err InvalidRequest)
  end.

End service.
End BlockProducerService.
