(* ===== verification/HashChainProps.v ===== *)
(** * What the two hash chains establish

    A chain of deposit steps appends deposits: the tree root, the hash chain
    and the count of the last step are those of the extended list.  A chain of
    registration steps registers channels: each step finds a channel that was
    never registered and never sent, and gives it the member set of its
    record.  The steps are considered in the loops of the processor, which
    feed the proof of one step to the next. *)

From S2P Require Import Prelude Limbs U63 Circuit MerkleTree LeafTrees Poseidon IndexedTree Keccak Regev BalanceState Account AccountProps Ledger LedgerProps Balance BalanceProps Channel HashChains BlockStep BlockChain.

#[local] Remove Hints Leafable_Bytes32 : typeclass_instances.
Import FullPublicState.

(** ** Trees *)

Lemma subtree_inj {Hs : LeafableHasher} {I2 : Inj2 (=) (=) (=) two_to_one} f g l v i :
  subtree f l v = subtree g l v -> v * 2 ^ Z.of_nat l <= i < (v + 1) * 2 ^ Z.of_nat l -> f i = g i.
Proof.
  revert v. induction l as [|l IH]; intros v Heq Hi; cbn [subtree] in Heq.
  - assert (i = v) as -> by (cbn in Hi; lia). done.
  - apply (inj2 two_to_one) in Heq as [Hl Hr]. rewrite Nat2Z.inj_succ, Z.pow_succ_r in Hi by lia.
    destruct (decide (i < (2 * v + 1) * 2 ^ Z.of_nat l)); [apply (IH _ Hl)|apply (IH _ Hr)]; nia.
Qed.

(** A proof of the empty position after the last leaf computes the root of the list with one more. *)
Lemma append_leaf {Hs : LeafableHasher} {V} {L : Leafable V} {I2 : Inj2 (=) (=) (=) two_to_one}
    (ls : list V) p (x y : V) i u :
  i = Z.of_nat (length ls) -> in_width 64 i ->
  proof_verify p y i (subtree (list_leaves ls) (proof_height p) 0) = Ok u ->
  path_root (siblings p) i (leaf_hash x) = subtree (list_leaves (ls ++ [x])) (proof_height p) 0.
Proof.
  intros -> Hw Hv. destruct (proof_verify_sound _ _ _ _ _ Hw Hv) as (_ & _ & _ & ->).
  apply subtree_ext_nonneg; [|lia]. intros j Hj. by apply Incremental.list_leaves_push.
Qed.

(** ** Hash outs and their words *)

(** A hash out is the record of its four canonical words. *)
Class PoseidonElements (P : Poseidon) (W : PoseidonWords P) : Prop := {
  elements_to_from ws : length ws = 4%nat -> Forall (fun x => 0 <= x < GOLDILOCKS_ORDER) ws ->
    phash_to_u64_vec (phash_from_elements ws) = ws;
  default_elements : phash_to_u64_vec phash_default = replicate 4 0;
}.

(** The digests that are hash outs: every word canonical. *)
Lemma canonical_words (b : Bytes32) : ChannelRegRecord.is_canonical b = true ->
  Forall (fun x => 0 <= x < GOLDILOCKS_ORDER) (PoseidonHashOut.pair_words (limbs b)).
Proof.
  intros H. unfold ChannelRegRecord.is_canonical, PoseidonHashOut.try_from_bytes32 in H.
  destruct (PoseidonHashOut_lemmas.reduce_to_hash_out_ok (E := PoseidonHashOut.PoseidonHashOutError) b) as (h & Hh & Hel & _).
  rewrite Hh in H. cbn [mbind res_bind] in H. rewrite Hel in H.
  destruct (PoseidonHashOut.position_noncanonical 0 _) eqn:Hpos; [done|].
  apply PoseidonHashOut_lemmas.position_noncanonical_None in Hpos.
  destruct (PoseidonHashOut_lemmas.pair_words_spec (limbs b) 4) as (_ & Hw & _); [by rewrite limbs_length|apply limbs_u32|].
  rewrite Forall_lookup in Hw, Hpos |- *. intros i x Hi. split; [apply (Hw i x Hi)|apply (Hpos i x Hi)].
Qed.

Section elements.
Context {P : Poseidon} {W : PoseidonWords P} {PE : PoseidonElements P W}.

Lemma reduce_words (b : Bytes32) : ChannelRegRecord.is_canonical b = true ->
  phash_to_u64_vec (reduce_to_hash_out b) = PoseidonHashOut.pair_words (limbs b).
Proof.
  intros Hb. destruct (PoseidonHashOut_lemmas.pair_words_spec (limbs b) 4) as (H1 & _);
    [by rewrite limbs_length|apply limbs_u32|]. apply elements_to_from; [done|by apply canonical_words].
Qed.

(** The bytes of a reduced digest are the digest. *)
Lemma reduce_into_bytes32 {E} (b : Bytes32) : ChannelRegRecord.is_canonical b = true ->
  phash_into_bytes32 (E := E) (reduce_to_hash_out b) = Ok b.
Proof.
  intros Hb. unfold phash_into_bytes32, words_into_bytes32. rewrite reduce_words by done.
  destruct (PoseidonHashOut_lemmas.pair_words_spec (limbs b) 4) as (_ & _ & ->);
    [by rewrite limbs_length|apply limbs_u32|]. apply limbs_try_into_limbs.
Qed.

Lemma default_into_bytes32 {E} : phash_into_bytes32 (E := E) phash_default = Ok bytes32_default.
Proof.
  unfold phash_into_bytes32. rewrite default_elements. unfold words_into_bytes32, limbs_try_into. cbn.
  destruct (decide _) as [H|H]; [|done]. f_equal. by apply Limbs_eq.
Qed.

Lemma reduce_default (b : Bytes32) : ChannelRegRecord.is_canonical b = true ->
  reduce_to_hash_out b = phash_default -> b = bytes32_default.
Proof.
  intros Hc H. pose proof (reduce_into_bytes32 (E := unit) b Hc) as Hb. rewrite H, default_into_bytes32 in Hb.
  by injection Hb.
Qed.

End elements.

(** ** Channels *)

(** What a channel leaf stands for: the sends of the channel and its registration. *)
Record channel := mkChannel { sends : list SendLeaf; registration : option ChannelRegRecord }.

Definition fresh : channel := mkChannel [] None.

Definition active_members (r : ChannelRegRecord) : list MemberRegEntry :=
  take (Z.to_nat (ChannelRegRecord.member_count r)) (ChannelRegRecord.members r).

Section channels.
Context {P : Poseidon} {W : PoseidonWords P}.

Definition member_list (ch : channel) : list MemberLeaf :=
  match registration ch with Some r => member_leaf_of <$> active_members r | None => [] end.

Definition channel_leaf (ch : channel) : ChannelLeaf :=
  ChannelLeaf.mk (wrap 32 (Z.of_nat (length (sends ch)))) (last_send (sends ch))
    (subtree (list_leaves (Hs := PoseidonLeafableHasher) (sends ch)) SEND_TREE_HEIGHT 0)
    (subtree (list_leaves (Hs := PoseidonLeafableHasher) (member_list ch)) MEMBER_TREE_HEIGHT 0).

Definition channels_root (chs : Z -> channel) : PHash :=
  subtree (Hs := PoseidonLeafableHasher) (fun c => leaf_hash (channel_leaf (chs c))) CHANNEL_TREE_HEIGHT 0.

Lemma fresh_leaf : channel_leaf fresh = ChannelLeaf.default.
Proof. unfold channel_leaf, ChannelLeaf.default. by rewrite (init_root_spec SendLeaf), (init_root_spec MemberLeaf). Qed.

Lemma channels_root_insert chs c ch :
  subtree (Hs := PoseidonLeafableHasher) (<[c := leaf_hash (channel_leaf ch)]> (fun c => leaf_hash (channel_leaf (chs c))))
    CHANNEL_TREE_HEIGHT 0 = channels_root (<[c := ch]> chs).
Proof.
  apply subtree_ext_nonneg; [|lia]. intros i _. destruct (decide (c = i)) as [->|Hne].
  - by rewrite !fn_lookup_insert.
  - by rewrite !fn_lookup_insert_ne.
Qed.

End channels.

(** The records a registration accepts, and what they contain. *)
Record record_valid (r : ChannelRegRecord) : Prop := {
  rec_count : 2 <= ChannelRegRecord.member_count r <= 8;
  rec_delegates : ChannelRegRecord.delegate_count r = 0;
  rec_members : (8 <= length (ChannelRegRecord.members r))%nat;
  rec_active i m : (i < Z.to_nat (ChannelRegRecord.member_count r))%nat -> ChannelRegRecord.members r !! i = Some m ->
    MemberRegEntry.pk_g m <> bytes32_default /\ ChannelRegRecord.is_canonical (MemberRegEntry.pk_g m) = true /\
    ChannelRegRecord.is_canonical (MemberRegEntry.pk_b m) = true /\
    ChannelRegRecord.is_canonical (MemberRegEntry.regev_pk_digest m) = true;
  rec_distinct i j m m' : (i < j < Z.to_nat (ChannelRegRecord.member_count r))%nat ->
    ChannelRegRecord.members r !! i = Some m -> ChannelRegRecord.members r !! j = Some m' ->
    MemberRegEntry.pk_g m <> MemberRegEntry.pk_g m';
  rec_padding i : (Z.to_nat (ChannelRegRecord.member_count r) <= i < 8)%nat ->
    ChannelRegRecord.members r !! i = Some MemberRegEntry.default;
  rec_producer : ChannelRegRecord.bp_member_slot r < ChannelRegRecord.member_count r;
}.

Lemma check_active_Ok r mc i :
  ChannelRegRecord.check_active r mc i = Ok tt <->
  exists m, ChannelRegRecord.members r !! i = Some m /\ MemberRegEntry.pk_g m <> bytes32_default /\
    ChannelRegRecord.is_canonical (MemberRegEntry.pk_g m) = true /\
    ChannelRegRecord.is_canonical (MemberRegEntry.pk_b m) = true /\
    ChannelRegRecord.is_canonical (MemberRegEntry.regev_pk_digest m) = true /\
    forall j, (S i <= j < mc)%nat -> exists m', ChannelRegRecord.members r !! j = Some m' /\
      MemberRegEntry.pk_g m <> MemberRegEntry.pk_g m'.
Proof.
  unfold ChannelRegRecord.check_active.
  assert (forall m j, (m' ← unwrap (ChannelRegRecord.members r !! j);
      ensure (negb (bool_decide (MemberRegEntry.pk_g m = MemberRegEntry.pk_g m'))) (DuplicatePkG i j)) = Ok tt <->
      exists m', ChannelRegRecord.members r !! j = Some m' /\ MemberRegEntry.pk_g m <> MemberRegEntry.pk_g m') as Hdup.
  { intros m j. rewrite bind_Ok. setoid_rewrite unwrap_Ok. setoid_rewrite ensure_Ok.
    setoid_rewrite negb_true_iff. by setoid_rewrite bool_decide_eq_false. }
  split.
  - intros H. apply bind_Ok in H as (m & Hm & H). apply unwrap_Ok in Hm. exists m. split; [done|].
    do 4 (apply bind_Ok in H as ([] & ?%ensure_Ok & H)). simplify_bool.
    apply res_forall_Ok in H. rewrite seq_Forall in H. split_and!; try done.
    intros j Hj. apply Hdup, H. lia.
  - intros (m & -> & H1 & H2 & H3 & H4 & H5). cbn [unwrap mbind res_bind].
    rewrite bool_decide_eq_false_2 by done. rewrite H2, H3, H4. cbn [negb ensure mbind res_bind].
    apply res_forall_Ok, seq_Forall. intros j Hj. apply Hdup, H5. lia.
Qed.

Lemma padding_Ok r i :
  (m ← unwrap (ChannelRegRecord.members r !! i);
   ensure (bool_decide (m = MemberRegEntry.default)) (NonZeroPaddingSlot i)) = Ok tt <->
  ChannelRegRecord.members r !! i = Some MemberRegEntry.default.
Proof.
  rewrite bind_Ok. setoid_rewrite unwrap_Ok. setoid_rewrite ensure_Ok. setoid_rewrite bool_decide_eq_true. naive_solver.
Qed.

(** [validate] accepts exactly the valid records. *)
Lemma record_validate_iff r : ChannelRegRecord.validate r = Ok tt <-> record_valid r.
Proof.
  unfold ChannelRegRecord.validate. split.
  - intros H. apply bind_Ok in H as ([] & Hc%ensure_Ok & H). apply bind_Ok in H as ([] & Hd%ensure_Ok & H).
    apply bind_Ok in H as ([] & Ha & H). apply bind_Ok in H as ([] & Hp & H). apply ensure_Ok in H.
    apply negb_true_iff, orb_false_iff in Hc as [Hc1 Hc2]. apply Nat.ltb_ge in Hc2. simplify_bool.
    unfold MAX_SIG_CLUSTER in *.
    apply res_forall_Ok in Ha, Hp. rewrite seq_Forall in Ha, Hp. setoid_rewrite check_active_Ok in Ha.
    setoid_rewrite padding_Ok in Hp.
    assert (forall i, (i < 8)%nat -> is_Some (ChannelRegRecord.members r !! i)) as Hall.
    { intros i Hi. destruct (decide (i < Z.to_nat (ChannelRegRecord.member_count r))%nat) as [Hlt|Hge].
      - destruct (Ha i) as (m & -> & _); [lia|done].
      - rewrite Hp by lia. done. }
    constructor; try lia.
    + destruct (Hall 7%nat) as [m Hm]; [lia|]. apply lookup_lt_Some in Hm. lia.
    + intros i m Hi Hm. destruct (Ha i) as (m0 & Hm0 & H1 & H2 & H3 & H4 & _); [lia|]. by simplify_eq.
    + intros i j m m' Hij Hm Hm'. destruct (Ha i ltac:(lia)) as (m0 & Hm0 & _ & _ & _ & _ & H5).
      destruct (H5 j) as (m1 & Hm1 & Hne); [lia|]. by simplify_eq.
    + intros i Hi. apply Hp. lia.
  - intros [Hc Hd Hl Ha Hdis Hp Hb].
    rewrite (proj2 (Z.ltb_ge (ChannelRegRecord.member_count r) 2)) by lia.
    rewrite (proj2 (Nat.ltb_ge _ _)) by (unfold MAX_SIG_CLUSTER; lia).
    rewrite Hd, Z.eqb_refl. cbn [orb negb ensure mbind res_bind].
    assert (forall i, (i < 8)%nat -> exists m, ChannelRegRecord.members r !! i = Some m) as Hall.
    { intros i Hi. apply lookup_lt_is_Some_2. lia. }
    assert (res_forall (ChannelRegRecord.check_active r (Z.to_nat (ChannelRegRecord.member_count r)))
      (seq 0 (Z.to_nat (ChannelRegRecord.member_count r))) = Ok tt) as ->.
    { apply res_forall_Ok, seq_Forall. intros i Hi. apply check_active_Ok. destruct (Hall i) as [m Hm]; [lia|].
      exists m. destruct (Ha i m) as (H1 & H2 & H3 & H4); [lia|done|]. split_and!; try done.
      intros j Hj. destruct (Hall j) as [m' Hm']; [lia|]. exists m'. split; [done|].
      apply (Hdis i j); [lia|done..]. }
    cbn [mbind res_bind]. rewrite (proj2 (res_forall_Ok _ _ tt)).
    + cbn [mbind res_bind]. by rewrite (proj2 (Z.ltb_lt _ _)) by lia.
    + apply seq_Forall. intros i Hi. apply padding_Ok, Hp. unfold MAX_SIG_CLUSTER in *. lia.
Qed.

(** On a record of the array width [validate] never aborts. *)
Lemma record_validate_no_panic r : length (ChannelRegRecord.members r) = MAX_SIG_CLUSTER -> ChannelRegRecord.validate r <> Panic.
Proof.
  intros Hl. unfold ChannelRegRecord.validate. apply bind_no_panic; [apply ensure_no_Panic|]. intros [] Hmc%ensure_Ok.
  apply negb_true_iff, orb_false_iff in Hmc as [_ Hmc]. apply Nat.ltb_ge in Hmc.
  assert (forall j (f : MemberRegEntry -> res ChannelRegRecordError unit), (j < MAX_SIG_CLUSTER)%nat ->
    (forall m, f m <> Panic) -> (m ← unwrap (ChannelRegRecord.members r !! j); f m) <> Panic) as Hget.
  { intros j f Hj Hf. destruct (lookup_lt_is_Some_2 (ChannelRegRecord.members r) j) as [m ->]; [lia|]. apply Hf. }
  apply bind_no_panic; [apply ensure_no_Panic|]. intros _ _. apply bind_no_panic.
  - apply res_forall_no_panic, seq_Forall. intros i Hi. apply Hget; [lia|]. intros m.
    do 4 (apply bind_no_panic; [apply ensure_no_Panic|]; intros _ _).
    apply res_forall_no_panic, seq_Forall. intros j Hj. apply Hget; [lia|]. intros m'. apply ensure_no_Panic.
  - intros _ _. apply bind_no_panic; [|intros _ _; apply ensure_no_Panic].
    apply res_forall_no_panic, seq_Forall. intros i Hi. apply Hget; [lia|]. intros m. apply ensure_no_Panic.
Qed.

(** ** Counters and loops *)

Lemma u63_succ x y : 0 <= U63.as_u64 x -> U63.add x 1 = Ok y ->
  y = U63.mkU63 (U63.as_u64 x + 1) /\ U63.as_u64 x + 1 < 2 ^ 63.
Proof.
  intros Hx H. unfold U63.add in H. apply bind_Ok in H as (s & Hs & H). apply ok_or_Ok in Hs.
  unfold checked_add in Hs. destruct (_ <? _); [|done]. injection Hs as <-.
  apply U63_lemmas.new_Ok in H as [-> ?]; [done|lia].
Qed.

Lemma u63_succ_Ok x : 0 <= U63.as_u64 x -> U63.as_u64 x + 1 < 2 ^ 63 -> U63.add x 1 = Ok (U63.mkU63 (U63.as_u64 x + 1)).
Proof.
  intros Hx Hlt. unfold U63.add, checked_add. rewrite (proj2 (Z.ltb_lt _ _)) by lia.
  cbn [ok_or mbind res_bind]. apply u63_new_Ok. lia.
Qed.

(** A loop over the indices of a list is a loop over the list. *)
Lemma fold_indices {E S A B} (f : S -> B -> res E S) (g : A -> B) (l : list A) n s :
  (n <= length l)%nat ->
  res_foldl (fun s i => m ← unwrap (l !! i); f s (g m)) s (seq 0 n) = res_foldl f s (g <$> take n l).
Proof.
  induction n as [|n IH]; intros Hn; [done|]. destruct (lookup_lt_is_Some_2 l n) as [x Hx]; [lia|].
  rewrite seq_S, (take_S_r _ _ x), Nat.add_0_l by done. rewrite fmap_app, !res_foldl_app, IH by lia.
  destruct (res_foldl f s (g <$> take n l)) as [s'| |]; [|done|done].
  cbn [mbind res_bind res_foldl fmap list_fmap]. by rewrite Hx.
Qed.

Section chains.
Context {P : Poseidon} {PC : PoseidonCollisionFree P} {W : PoseidonWords P} {PE : PoseidonElements P W}.

#[export] Instance CollisionFree_MemberLeaf : CollisionFree MemberLeaf.
Proof.
  split; [apply poseidon_two_to_one_inj|]. intros x y H. apply (inj hash_inputs_u64) in H.
  unfold MemberLeaf.to_u64_vec in H. injection H as H. apply phash_app_inj in H as [H1 H].
  apply phash_app_inj in H as [H2 H]. apply (inj phash_to_u64_vec) in H. destruct x, y. cbn in *. by subst.
Qed.

(** ** The registered member tree *)

Lemma member_tree_root {E} (ls : list MemberLeaf) : (length ls <= 8)%nat ->
  (tree ← res_foldl Incremental.push (Incremental.new (Hs := PoseidonLeafableHasher) MEMBER_TREE_HEIGHT) ls;
   Incremental.get_root (E := E) tree) =
  Ok (subtree (list_leaves (Hs := PoseidonLeafableHasher) ls) MEMBER_TREE_HEIGHT 0).
Proof.
  intros Hl. assert (2 ^ Z.of_nat MEMBER_TREE_HEIGHT = 8) as H8 by reflexivity.
  destruct (Incremental.unpack_loop (E := E) ls (Incremental.new (Hs := PoseidonLeafableHasher) MEMBER_TREE_HEIGHT))
    as (t & -> & Hinv & Hh & Hls); [apply incremental_new_inv; unfold MEMBER_TREE_HEIGHT; lia| |].
  { change (Incremental.height _) with MEMBER_TREE_HEIGHT. rewrite H8. cbn [Incremental.new Incremental.leaves length]. lia. }
  cbn [mbind res_bind]. rewrite Incremental.get_root_inv by done. by rewrite Hh, Hls.
Qed.

Lemma length_active r : record_valid r -> length (active_members r) = Z.to_nat (ChannelRegRecord.member_count r).
Proof.
  intros H. pose proof (rec_count _ H). pose proof (rec_members _ H). unfold active_members. rewrite length_take. lia.
Qed.

Lemma member_root_eq {E} r : record_valid r ->
  member_pubkeys_root_for (E := E) r =
  Ok (subtree (list_leaves (Hs := PoseidonLeafableHasher) (member_leaf_of <$> active_members r)) MEMBER_TREE_HEIGHT 0).
Proof.
  intros H. pose proof (rec_count _ H). pose proof (rec_members _ H). unfold member_pubkeys_root_for.
  rewrite (rec_delegates _ H), Nat.add_0_r, fold_indices by lia. fold (active_members r).
  apply member_tree_root. rewrite length_fmap, length_active by done. lia.
Qed.

(** Two lists of at most eight leaves with the same root agree on every slot. *)
Lemma member_tree_binding (ls ls' : list MemberLeaf) i :
  subtree (list_leaves (Hs := PoseidonLeafableHasher) ls) MEMBER_TREE_HEIGHT 0 =
  subtree (list_leaves (Hs := PoseidonLeafableHasher) ls') MEMBER_TREE_HEIGHT 0 -> (i < 8)%nat ->
  default empty_leaf (ls !! i) = default empty_leaf (ls' !! i).
Proof.
  intros Heq Hi. apply (subtree_inj (I2 := poseidon_two_to_one_inj) _ _ _ _ (Z.of_nat i)) in Heq.
  - unfold list_leaves in Heq. rewrite Nat2Z.id in Heq. by apply (inj leaf_hash) in Heq.
  - change (2 ^ Z.of_nat MEMBER_TREE_HEIGHT) with 8. lia.
Qed.

Lemma member_leaf_nonempty r i m : record_valid r -> active_members r !! i = Some m ->
  MemberLeaf.pk_g (member_leaf_of m) <> phash_default.
Proof.
  intros H Hm. apply lookup_take_Some in Hm as [Hm Hi]. destruct (rec_active _ H i m) as (Hne & Hc & _); [done|done|].
  cbn. intros Hd. by apply Hne, reduce_default.
Qed.

(** A registered channel's member root is not that of an empty set. *)
Lemma registered_root r : record_valid r ->
  subtree (list_leaves (Hs := PoseidonLeafableHasher) (member_leaf_of <$> active_members r)) MEMBER_TREE_HEIGHT 0 <>
  subtree (list_leaves (Hs := PoseidonLeafableHasher) (@nil MemberLeaf)) MEMBER_TREE_HEIGHT 0.
Proof.
  intros H Heq. pose proof (rec_count _ H). apply (member_tree_binding _ _ 0) in Heq; [|lia].
  destruct (lookup_lt_is_Some_2 (active_members r) 0) as [m Hm]; [rewrite length_active by done; lia|].
  rewrite list_lookup_fmap, Hm in Heq. cbn in Heq. apply (member_leaf_nonempty r 0 m H Hm).
  cbn. by injection Heq as -> _ _.
Qed.

(** The states of the channels that a run can reach. *)
Record channels_ok (chs : Z -> channel) (n : Z) : Prop := {
  chs_sends c : Forall (fun l => 0 < U63.as_u64 (SendLeaf.cur l) <= n) (sends (chs c));
  chs_record c r : registration (chs c) = Some r -> record_valid r /\ ChannelRegRecord.channel_id r = c;
}.

Lemma last_send_positive ls n :
  Forall (fun l => 0 < U63.as_u64 (SendLeaf.cur l) <= n) ls -> last_send ls = block_number_default -> ls = [].
Proof.
  intros Hf Hl. unfold last_send in Hl. destruct (list.last ls) as [l|] eqn:Hlast.
  - apply list.last_Some in Hlast as [ls' ->]. apply Forall_app in Hf as [_ Hf]. apply Forall_cons_iff in Hf as [Hf _].
    rewrite Hl in Hf. cbn in Hf. lia.
  - by apply list.last_None in Hlast.
Qed.

(** The unregistered guard: only a fresh channel has the default leaf. *)
Lemma default_leaf_fresh chs n c :
  channels_ok chs n -> channel_leaf (chs c) = ChannelLeaf.default -> chs c = fresh.
Proof.
  intros Hok Heq. rewrite <- fresh_leaf in Heq. injection Heq as _ Hprev _ Hroot.
  apply (last_send_positive _ n) in Hprev; [|by apply Hok].
  destruct (chs c) as [ls reg] eqn:Hc. cbn in *. subst ls. destruct reg as [r|]; [|done].
  exfalso. apply (registered_root r); [|exact Hroot]. apply (chs_record _ _ Hok c). by rewrite Hc.
Qed.

(** ** Deposit steps *)

Context {K : Keccak} {PL : Plonky2} {CP : ChainProvers} {CPO : ChainProversOk CP}.
Import BlockHashChainProcessor.

Definition exposes_deposits (p : Proof) (pis : DepositChainPublicInputs) : Prop :=
  DepositChainPublicInputs.from_u64_slice (public_inputs p) (cap_elements (vd_common deposit_chain_vd)) = Ok pis.

(** What the public inputs say when the chain started at the deposits [ds0] and appended [ds]. *)
Record deposit_pis_for (chain0 : Bytes32) (ds0 ds : list Deposit) (pis : DepositChainPublicInputs) : Prop := {
  dp_chain0 : DepositChainPublicInputs.initial_deposit_hash_chain pis = chain0;
  dp_root0 : DepositChainPublicInputs.initial_deposit_tree_root pis = deposit_root ds0;
  dp_count0 : U63.as_u64 (DepositChainPublicInputs.initial_deposit_count pis) = Z.of_nat (length ds0);
  dp_chain : DepositChainPublicInputs.deposit_hash_chain pis = deposit_chain ds chain0;
  dp_root : DepositChainPublicInputs.deposit_tree_root pis = deposit_root (ds0 ++ ds);
  dp_count : U63.as_u64 (DepositChainPublicInputs.deposit_count pis) = Z.of_nat (length (ds0 ++ ds));
  dp_deposits i d : ds !! i = Some d ->
    U63.as_u64 (Deposit.deposit_index d) = Z.of_nat (length ds0 + i) /\
    Deposit.block_number d = DepositChainPublicInputs.block_number pis;
}.

(** The public inputs a step starts from. *)
Lemma deposit_previous (w : DepositStepWitness) chain0 ds0 ds pis :
  DepositStepWitness.previous w deposit_chain_vd = Ok pis ->
  match DepositStepWitness.initial_value w with
  | Some (chain, root, count) => chain = chain0 /\ root = deposit_root ds0 /\
      U63.as_u64 count = Z.of_nat (length ds0) /\ ds = []
  | None => forall p, DepositStepWitness.prev_deposit_chain_proof w = Some p ->
      exists q, exposes_deposits p q /\ deposit_pis_for chain0 ds0 ds q
  end ->
  deposit_pis_for chain0 ds0 ds pis /\
  Deposit.block_number (DepositStepWitness.deposit w) = DepositChainPublicInputs.block_number pis.
Proof.
  intros Hp Hw. unfold DepositStepWitness.previous in Hp.
  destruct (DepositStepWitness.initial_value w) as [[[chain root] count]|].
  - destruct Hw as (-> & -> & Hc & ->). apply Ok_inj in Hp as <-. split; [|done].
    split; cbn; rewrite ?app_nil_r; done.
  - apply bind_Ok in Hp as (p & Hproof%unwrap_Ok & Hp). apply bind_Ok in Hp as (q & Hq & Hp).
    apply map_err_Ok in Hq. apply bind_Ok in Hp as ([] & Hn%ensure_Ok & Hp). apply Ok_inj in Hp as ->.
    destruct (Hw p Hproof) as (q' & Hq' & Hpis). unfold exposes_deposits in Hq'. rewrite Hq in Hq'.
    apply Ok_inj in Hq' as ->. simplify_bool. done.
Qed.

(** One step appends its deposit. *)
Lemma deposit_step_append (w : DepositStepWitness) chain0 ds0 ds prev pis :
  proof_height (DepositStepWitness.deposit_merkle_proof w) = DEPOSIT_TREE_HEIGHT ->
  DepositStepWitness.previous w deposit_chain_vd = Ok prev ->
  deposit_pis_for chain0 ds0 ds prev ->
  Deposit.block_number (DepositStepWitness.deposit w) = DepositChainPublicInputs.block_number prev ->
  DepositStepWitness.to_public_inputs w deposit_chain_vd = Ok pis ->
  deposit_pis_for chain0 ds0 (ds ++ [DepositStepWitness.deposit w]) pis.
Proof.
  intros Hh Hprev Hfor Hblock Hw. unfold DepositStepWitness.to_public_inputs in Hw.
  apply bind_Ok in Hw as ([] & _ & Hw). rewrite Hprev in Hw. cbn [mbind res_bind] in Hw.
  apply bind_Ok in Hw as ([] & Hidx%ensure_Ok & Hw). apply bind_Ok in Hw as ([] & Hv%map_err_Ok & Hw).
  rewrite proof_get_root_eq in Hw. cbn [mbind res_bind] in Hw.
  apply bind_Ok in Hw as (count & Hcount%map_err_Ok & Hw). apply Ok_inj in Hw as <-. simplify_bool.
  destruct Hfor as [H1 H2 H3 H4 H5 H6 H7].
  apply u63_succ in Hcount as [-> Hlt]; [|lia]. rewrite H6 in *.
  split; cbn; rewrite ?(assoc_L (++)); try done.
  - unfold deposit_chain. rewrite foldl_app. cbn. by rewrite H4.
  - unfold deposit_root. rewrite <- Hh. rewrite H5 in Hv. unfold deposit_root in Hv. rewrite <- Hh in Hv.
    apply (append_leaf (I2 := poseidon_two_to_one_inj) _ _ (DepositStepWitness.deposit w)) in Hv; [done|done|].
    unfold in_width. lia.
  - rewrite !length_app in *. cbn [length]. lia.
  - intros i d Hd. apply lookup_app_Some in Hd as [Hd|[Hi Hd]].
    + destruct (H7 i d Hd) as [? ->]. done.
    + destruct (i - length ds)%nat eqn:Hz; [|done]. injection Hd as <-. rewrite Hidx.
      rewrite length_app. split; [lia|done].
Qed.

Lemma deposit_prove_step_exposes w p :
  deposit_prove_step w = Ok p ->
  exists pis, DepositStepWitness.to_public_inputs w deposit_chain_vd = Ok pis /\ exposes_deposits p pis.
Proof.
  intros H. unfold deposit_prove_step in H. apply bind_Ok in H as (sp & Hs%map_err_Ok & H). apply ok_or_Ok in H.
  apply bind_Ok in Hs as (pis & Hpis & Hs). apply ok_or_Ok in Hs. exists pis. split; [done|].
  unfold exposes_deposits. rewrite (deposit_chain_forwards _ _ H). by apply (deposit_step_exposes w).
Qed.

(** The deposit loop of the processor. *)
Lemma deposits_proved (prev : ExtendedPublicState) ds0 steps po :
  PublicState.deposit_tree_root (ExtendedPublicState.inner prev) = deposit_root ds0 ->
  U63.as_u64 (ExtendedPublicState.deposit_count prev) = Z.of_nat (length ds0) ->
  Forall (fun e => proof_height e.2 = DEPOSIT_TREE_HEIGHT) steps ->
  res_foldl (prove_deposit prev) None steps = Ok po ->
  match po with
  | None => steps = []
  | Some p => exists pis, exposes_deposits p pis /\
      deposit_pis_for (ExtendedPublicState.deposit_hash_chain prev) ds0 steps.*1 pis
  end.
Proof.
  intros Hroot Hcount. revert po. induction steps as [|[d mp] steps IH] using rev_ind; intros po Hh Hrun.
  - by apply Ok_inj in Hrun as <-.
  - apply Forall_app in Hh as [Hhs Hh]. apply Forall_cons_iff in Hh as [Hmp _]. cbn in Hmp.
    rewrite res_foldl_app in Hrun. apply bind_Ok in Hrun as (po1 & Hrun & Hlast). specialize (IH po1 Hhs Hrun).
    cbn [res_foldl] in Hlast. apply bind_Ok in Hlast as (x & Hstep & Hx). apply Ok_inj in Hx as ->.
    unfold prove_deposit in Hstep. apply bind_Ok in Hstep as (p & Hp%map_err_Ok & Hs). apply Ok_inj in Hs as <-.
    apply deposit_prove_step_exposes in Hp as (pis & Hw & Hex). exists pis. split; [done|].
    rewrite fmap_app. cbn [fmap list_fmap fst].
    pose proof Hw as Hprev. unfold DepositStepWitness.to_public_inputs in Hprev.
    apply bind_Ok in Hprev as ([] & _ & Hprev). apply bind_Ok in Hprev as (q & Hq & _).
    destruct (deposit_previous _ (ExtendedPublicState.deposit_hash_chain prev) ds0 steps.*1 q Hq) as [Hf Hb].
    { cbn. destruct po1 as [p1|]; [intros p' [= <-]; exact IH|]. subst steps. done. }
    by eapply deposit_step_append in Hw.
Qed.

(** ** Registration steps *)

Definition exposes_registrations (p : Proof) (pis : ChannelRegChainPublicInputs) : Prop :=
  ChannelRegChainPublicInputs.from_u64_slice (public_inputs p) (cap_elements (vd_common channel_reg_chain_vd)) = Ok pis.

Definition register (chs : Z -> channel) (r : ChannelRegRecord) : Z -> channel :=
  <[ChannelRegRecord.channel_id r := mkChannel [] (Some r)]> chs.

Definition reg_chain (rs : list ChannelRegRecord) (start : Bytes32) : Bytes32 :=
  foldl (fun h r => ChannelRegRecord.hash_with_prev_hash r h) start rs.

(** The registrations [rs] on top of [chs]: every one finds a fresh channel. *)
Fixpoint registrable (chs : Z -> channel) (rs : list ChannelRegRecord) : Prop :=
  match rs with
  | [] => True
  | r :: rs' => record_valid r /\ chs (ChannelRegRecord.channel_id r) = fresh /\ registrable (register chs r) rs'
  end.

Lemma registrable_snoc chs rs r :
  registrable chs (rs ++ [r]) <->
  registrable chs rs /\ record_valid r /\ foldl register chs rs (ChannelRegRecord.channel_id r) = fresh.
Proof.
  revert chs. induction rs as [|r0 rs IH]; intros chs; cbn [registrable app foldl]; [tauto|].
  rewrite IH. tauto.
Qed.

Lemma register_ok chs n r : channels_ok chs n -> record_valid r -> channels_ok (register chs r) n.
Proof.
  intros Hok Hr. unfold register. split; intros c.
  - destruct (decide (ChannelRegRecord.channel_id r = c)) as [->|Hne].
    + rewrite fn_lookup_insert. constructor.
    + rewrite fn_lookup_insert_ne by done. apply Hok.
  - destruct (decide (ChannelRegRecord.channel_id r = c)) as [<-|Hne].
    + rewrite fn_lookup_insert. by intros r' [= <-].
    + rewrite fn_lookup_insert_ne by done. apply Hok.
Qed.

Lemma registrations_ok chs n rs : channels_ok chs n -> registrable chs rs -> channels_ok (foldl register chs rs) n.
Proof.
  revert chs. induction rs as [|r rs IH]; intros chs Hok Hrs; [done|]. destruct Hrs as (Hr & _ & Hrs).
  cbn [foldl]. apply IH; [by apply register_ok|done].
Qed.

Record reg_pis_for (chain0 : Bytes32) (chs : Z -> channel) (rs : list ChannelRegRecord) (n : BlockNumber)
    (pis : ChannelRegChainPublicInputs) : Prop := {
  rp_chain0 : ChannelRegChainPublicInputs.initial_channel_reg_hash_chain pis = chain0;
  rp_root0 : ChannelRegChainPublicInputs.initial_channel_tree_root pis = channels_root chs;
  rp_chain : ChannelRegChainPublicInputs.channel_reg_hash_chain pis = reg_chain rs chain0;
  rp_root : ChannelRegChainPublicInputs.channel_tree_root pis = channels_root (foldl register chs rs);
  rp_block : ChannelRegChainPublicInputs.block_number pis = n;
  rp_records : registrable chs rs;
}.

Lemma reg_previous (w : ChannelRegStepWitness) chain0 chs rs pis :
  ChannelRegStepWitness.previous w channel_reg_chain_vd = Ok pis ->
  match ChannelRegStepWitness.initial_value w with
  | Some (chain, root, _) => chain = chain0 /\ root = channels_root chs /\ rs = []
  | None => forall p, ChannelRegStepWitness.prev_channel_reg_chain_proof w = Some p ->
      exists q, exposes_registrations p q /\ reg_pis_for chain0 chs rs (ChannelRegStepWitness.block_number w) q
  end ->
  reg_pis_for chain0 chs rs (ChannelRegStepWitness.block_number w) pis.
Proof.
  intros Hp Hw. unfold ChannelRegStepWitness.previous in Hp.
  destruct (ChannelRegStepWitness.initial_value w) as [[[chain root] count]|].
  - destruct Hw as (-> & -> & ->). apply Ok_inj in Hp as <-. by split.
  - apply bind_Ok in Hp as (p & Hproof%unwrap_Ok & Hp). apply bind_Ok in Hp as (q & Hq & Hp).
    apply map_err_Ok in Hq. apply bind_Ok in Hp as ([] & _ & Hp). apply Ok_inj in Hp as ->.
    destruct (Hw p Hproof) as (q' & Hq' & Hpis). unfold exposes_registrations in Hq'. rewrite Hq in Hq'.
    apply Ok_inj in Hq' as ->. exact Hpis.
Qed.

(** The leaf a registration writes is that of the registered channel. *)
Lemma registered_leaf r : record_valid r ->
  ChannelLeaf.mk 0 block_number_default (ChannelLeaf.send_tree_root ChannelLeaf.default)
    (subtree (list_leaves (Hs := PoseidonLeafableHasher) (member_leaf_of <$> active_members r)) MEMBER_TREE_HEIGHT 0)
  = channel_leaf (mkChannel [] (Some r)).
Proof.
  intros _. unfold channel_leaf, ChannelLeaf.default. cbn [ChannelLeaf.send_tree_root sends].
  by rewrite (init_root_spec SendLeaf).
Qed.

(** One step registers its record. *)
Lemma reg_step_registers (w : ChannelRegStepWitness) chain0 chs n rs prev pis :
  proof_height (ChannelRegStepWitness.channel_merkle_proof w) = CHANNEL_TREE_HEIGHT ->
  in_width 32 (ChannelRegRecord.channel_id (ChannelRegStepWitness.record w)) ->
  channels_ok chs n ->
  ChannelRegStepWitness.previous w channel_reg_chain_vd = Ok prev ->
  reg_pis_for chain0 chs rs (ChannelRegStepWitness.block_number w) prev ->
  ChannelRegStepWitness.to_public_inputs w channel_reg_chain_vd = Ok pis ->
  reg_pis_for chain0 chs (rs ++ [ChannelRegStepWitness.record w]) (ChannelRegStepWitness.block_number w) pis.
Proof.
  intros Hh Hid Hok Hprev [H1 H2 H3 H4 H5 H6] Hw. unfold ChannelRegStepWitness.to_public_inputs in Hw.
  apply bind_Ok in Hw as ([] & Hval%map_err_Ok & Hw). apply record_validate_iff in Hval.
  unfold ChannelRegStepWitness.to_public_inputs_unchecked in Hw.
  apply bind_Ok in Hw as ([] & _ & Hw). rewrite Hprev in Hw. cbn [mbind res_bind] in Hw.
  apply bind_Ok in Hw as ([] & Hv%map_err_Ok & Hw). rewrite (member_root_eq _ Hval) in Hw. cbn [mbind res_bind] in Hw.
  rewrite proof_get_root_eq in Hw. cbn [mbind res_bind] in Hw. rewrite (registered_leaf _ Hval) in Hw.
  apply bind_Ok in Hw as (count & _ & Hw). apply Ok_inj in Hw as <-. rewrite H4 in Hv. unfold channels_root in Hv. rewrite <- Hh in Hv.
  apply (proof_verify_sound (I2 := poseidon_two_to_one_inj)) in Hv as (Hleaf & _ & _ & Hup); [|unfold in_width in *; lia].
  apply (inj leaf_hash) in Hleaf.
  apply (default_leaf_fresh _ n) in Hleaf; [|by apply registrations_ok].
  split; cbn -[channels_root channel_leaf foldl leaf_hash]; try done.
  - unfold reg_chain. rewrite foldl_app. cbn. by rewrite H3.
  - rewrite foldl_app. cbn [foldl]. unfold register at 1.
    rewrite <- channels_root_insert, <- Hh. apply Hup.
  - by apply registrable_snoc.
Qed.

Lemma reg_prove_step_exposes w p :
  channel_reg_prove_step w = Ok p ->
  exists pis, ChannelRegStepWitness.to_public_inputs w channel_reg_chain_vd = Ok pis /\ exposes_registrations p pis.
Proof.
  intros H. unfold channel_reg_prove_step in H. apply bind_Ok in H as (sp & Hs%map_err_Ok & H). apply ok_or_Ok in H.
  apply bind_Ok in Hs as (pis & Hpis & Hs). apply ok_or_Ok in Hs. exists pis. split; [done|].
  unfold exposes_registrations. rewrite (channel_reg_chain_forwards _ _ H). by apply (channel_reg_step_exposes w).
Qed.

(** The registration loop of the processor. *)
Lemma registrations_proved (prev : ExtendedPublicState) chs n bn steps po :
  PublicState.account_tree_root (ExtendedPublicState.inner prev) = channels_root chs -> channels_ok chs n ->
  Forall (fun e => proof_height e.2 = CHANNEL_TREE_HEIGHT /\ in_width 32 (ChannelRegRecord.channel_id e.1)) steps ->
  res_foldl (prove_registration prev bn) None steps = Ok po ->
  match po with
  | None => steps = []
  | Some p => exists pis, exposes_registrations p pis /\
      reg_pis_for (ExtendedPublicState.channel_reg_hash_chain prev) chs steps.*1 bn pis
  end.
Proof.
  intros Hroot Hok. revert po. induction steps as [|[r mp] steps IH] using rev_ind; intros po Hh Hrun.
  - by apply Ok_inj in Hrun as <-.
  - apply Forall_app in Hh as [Hhs Hh]. apply Forall_cons_iff in Hh as [[Hmp Hid] _]. cbn in Hmp, Hid.
    rewrite res_foldl_app in Hrun. apply bind_Ok in Hrun as (po1 & Hrun & Hlast). specialize (IH po1 Hhs Hrun).
    cbn [res_foldl] in Hlast. apply bind_Ok in Hlast as (x & Hstep & Hx). apply Ok_inj in Hx as ->.
    unfold prove_registration in Hstep. apply bind_Ok in Hstep as (p & Hp%map_err_Ok & Hs). apply Ok_inj in Hs as <-.
    apply reg_prove_step_exposes in Hp as (pis & Hw & Hex). exists pis. split; [done|].
    rewrite fmap_app. cbn [fmap list_fmap fst].
    pose proof Hw as Hprev. unfold ChannelRegStepWitness.to_public_inputs, ChannelRegStepWitness.to_public_inputs_unchecked in Hprev.
    apply bind_Ok in Hprev as ([] & _ & Hprev). apply bind_Ok in Hprev as ([] & _ & Hprev).
    apply bind_Ok in Hprev as (q & Hq & _).
    pose proof (reg_previous _ (ExtendedPublicState.channel_reg_hash_chain prev) chs steps.*1 q Hq) as Hf.
    eapply (reg_step_registers _ _ chs n) in Hw; [exact Hw|done|done|done|exact Hq|].
    apply Hf. cbn. destruct po1 as [p1|]; [intros p' [= <-]; exact IH|]. by subst steps.
Qed.

End chains.
