(* ===== verification/BlockStepProps.v ===== *)
(** * What the update of a block establishes

    An accepted [UpdateUserTree] leaves the channel tree as it is, or records
    one send of the block's channel.  In the second case the channel is
    registered, all its registered members are named in the folded statement,
    and the transaction at the channel's own position of the block's tree
    carries the next send index as its nonce. *)

From S2P Require Import Prelude Limbs U63 Circuit MerkleTree LeafTrees Poseidon IndexedTree Keccak Regev BalanceState Account AccountProps Ledger LedgerProps Balance BalanceProps Channel HashChains BlockStep BlockChain HashChainProps.

#[local] Remove Hints Leafable_Bytes32 : typeclass_instances.
Import FullPublicState.

(** ** Statements *)

(** The fold of one statement into the signature chain. *)
Definition fold_statement {P : Poseidon} {W : PoseidonWords P} (chain : Bytes32) (leaf : PHash)
    : res PoseidonHashOut.PoseidonHashOutError Bytes32 :=
  prev_chain ← phash_try_from_bytes32 chain;
  phash_into_bytes32 (list_chain_step prev_chain leaf).

Lemma phash_into_any_error {P : Poseidon} {E E'} (h : PHash) b :
  phash_into_bytes32 (E := E) h = Ok b -> phash_into_bytes32 (E := E') h = Ok b.
Proof.
  unfold phash_into_bytes32, words_into_bytes32. intros H. apply limbs_try_into_Ok in H. rewrite <- H.
  apply limbs_try_into_limbs.
Qed.

Section bytes.
Context {P : Poseidon} {W : PoseidonWords P} {WO : PoseidonWordsOk P W}.

Lemma canonical_width h : Forall (in_width 64) (phash_to_u64_vec h).
Proof. eapply Forall_impl; [|apply phash_canonical]. unfold in_width, GOLDILOCKS_ORDER. cbn. lia. Qed.

(** A hash out written as bytes is read back. *)
Lemma try_from_into_bytes32 {E} h b : phash_into_bytes32 (E := E) h = Ok b -> phash_try_from_bytes32 b = Ok h.
Proof.
  intros H. destruct (PoseidonHashOut_lemmas.words_into_bytes32_ok (E := E) (phash_to_u64_vec h)) as (b' & Hb & Hl);
    [apply phash_words_length|]. unfold phash_into_bytes32 in H. rewrite H in Hb. injection Hb as <-.
  unfold phash_try_from_bytes32, reduce_to_hash_out. rewrite Hl, PoseidonHashOut_lemmas.pair_words_split by apply canonical_width.
  rewrite (proj2 (PoseidonHashOut_lemmas.position_noncanonical_None 0 _)), phash_from_to.
  - rewrite (phash_into_any_error (E := E) (E' := PoseidonHashOut.PoseidonHashOutError) h b H). cbn [mbind res_bind].
    by rewrite bool_decide_eq_false_2 by (intros Hn; by apply Hn).
  - eapply Forall_impl; [|apply phash_canonical]. cbn. lia.
Qed.

End bytes.

(** The digest of the keys does not see the padding. *)
Lemma pk_list_digest_padding {P : Poseidon} {E} (pks : list Bytes32) k :
  (length pks + k <= MAX_SIG_CLUSTER)%nat ->
  agg_pk_list_digest (E := E) (pks ++ replicate k bytes32_default) = agg_pk_list_digest (E := E) pks.
Proof.
  intros Hk. unfold agg_pk_list_digest.
  rewrite !(proj2 (Nat.leb_le _ _)) by (rewrite ?length_app, ?length_replicate; lia).
  cbn [assert_that mbind res_bind]. f_equal. f_equal.
  assert (forall (l : list Bytes32), length (l ≫= to_u32_vec) = (8 * length l)%nat) as Hlen.
  { intros l. rewrite (length_bind_const _ 8); [lia|]. intros x. apply limbs_length. }
  assert (replicate k bytes32_default ≫= to_u32_vec = replicate (8 * k) 0) as Hz.
  { clear. induction k as [|k IH]; [done|]. replace (8 * S k)%nat with (8 + 8 * k)%nat by lia.
    cbn [replicate mbind list_bind]. rewrite replicate_add, <- IH. done. }
  unfold MAX_SIG_CLUSTER in *. unfold resize_with. change AGG_PK_LIST_LIMBS with 64%nat.
  rewrite bind_app, Hz. rewrite !take_ge by (rewrite ?length_app, ?length_replicate, ?Hlen; cbn [length]; lia).
  rewrite <- !(assoc_L (++)). do 2 f_equal. rewrite <- replicate_add. f_equal.
  rewrite !length_app, length_replicate, Hlen. cbn [length]. lia.
Qed.

Section update.
Context {P : Poseidon} {PC : PoseidonCollisionFree P} {W : PoseidonWords P} {PE : PoseidonElements P W} {K : Keccak}.
Import UpdateUserTree.

(** ** N of N *)

Lemma check_member_slot_Ok n e :
  check_member_slot n e = Ok tt <->
  ((e.1 < n)%nat -> MemberLeaf.pk_g e.2 <> phash_default) /\ ((n <= e.1)%nat -> e.2 = empty_leaf).
Proof.
  unfold check_member_slot. destruct (Nat.ltb_spec e.1 n) as [Hlt|Hge]; cbn [andb negb ensure mbind res_bind].
  - rewrite ensure_Ok, negb_true_iff, bool_decide_eq_false. split; [intros H; split; [done|lia]|intros [H _]; auto].
  - destruct (bool_decide (e.2 = empty_leaf)) eqn:He; cbn.
    + apply bool_decide_eq_true in He. split; [intros _; split; [lia|done]|done].
    + apply bool_decide_eq_false in He. split; [done|]. intros [_ H]. by specialize (H Hge).
Qed.

(** All slots of the member tree of a registered channel. *)
Definition all_member_leaves (r : ChannelRegRecord) : list MemberLeaf :=
  (member_leaf_of <$> active_members r)
    ++ replicate (MAX_SIG_CLUSTER - Z.to_nat (ChannelRegRecord.member_count r)) empty_leaf.

Record n_of_n (w : UpdateUserTree) (r : ChannelRegRecord) : Prop := {
  nn_leaves : member_leaves w = all_member_leaves r;
  nn_count : signer_count w = ChannelRegRecord.member_count r;
  nn_tx_root : Block.tx_tree_root (block w) <> bytes32_default;
}.

(** The witness of a signing slot names exactly the registered members. *)
Lemma check_n_of_n_sound w i chs n c :
  channels_ok chs n -> length (member_leaves w) = MAX_SIG_CLUSTER ->
  check_n_of_n_witness w i (channel_leaf (chs c)) = Ok tt ->
  exists r, registration (chs c) = Some r /\ record_valid r /\ n_of_n w r.
Proof.
  intros Hok Hlen H. unfold check_n_of_n_witness in H.
  apply bind_Ok in H as ([] & Htx%ensure_Ok & H). apply bind_Ok in H as ([] & _ & H).
  apply bind_Ok in H as ([] & Hc%ensure_Ok & H). apply bind_Ok in H as ([] & Hs & H).
  apply bind_Ok in H as ([] & _ & H). apply bind_Ok in H as (t & Ht & H). apply bind_Ok in H as (root & Hrt & H).
  pose proof (member_tree_root (E := UpdateUserTreeError) (member_leaves w)) as Hmr. rewrite Ht in Hmr.
  cbn [mbind res_bind] in Hmr. rewrite Hrt in Hmr. specialize (Hmr ltac:(unfold MAX_SIG_CLUSTER in *; lia)).
  apply Ok_inj in Hmr as ->. apply bind_Ok in H as ([] & Hroot%ensure_Ok & _). simplify_bool.
  unfold MAX_SIG_CLUSTER in *. cbn [channel_leaf ChannelLeaf.member_pubkeys_root] in Hroot.
  assert (forall j l, member_leaves w !! j = Some l ->
    ((j < Z.to_nat (signer_count w))%nat -> MemberLeaf.pk_g l <> phash_default) /\
    ((Z.to_nat (signer_count w) <= j)%nat -> l = empty_leaf)) as Hslot.
  { intros j l Hj. apply res_forall_Ok in Hs. rewrite Forall_lookup in Hs. specialize (Hs j (j, l)).
    rewrite list_lookup_imap, Hj in Hs. exact (proj1 (check_member_slot_Ok _ _) (Hs eq_refl)). }
  assert (forall j, (j < 8)%nat -> exists l, member_leaves w !! j = Some l /\ l = default empty_leaf (member_list (chs c) !! j))
    as Hbind.
  { intros j Hj. destruct (lookup_lt_is_Some_2 (member_leaves w) j) as [l Hl]; [lia|]. exists l. split; [done|].
    pose proof (member_tree_binding _ _ j Hroot Hj) as He. by rewrite Hl in He. }
  destruct (registration (chs c)) as [r|] eqn:Hreg.
  2: { exfalso. destruct (Hbind 0%nat) as (l & Hl & He); [lia|]. unfold member_list in He. rewrite Hreg in He. cbn in He.
       destruct (Hslot 0%nat l Hl) as [Hne _]. apply Hne; [lia|]. by subst l. }
  destruct (chs_record _ _ Hok c r Hreg) as [Hr _]. exists r. split; [done|]. split; [done|].
  pose proof (rec_count _ Hr) as Hrc. pose proof (length_active r Hr) as Hla.
  assert (member_list (chs c) = member_leaf_of <$> active_members r) as Hml by (unfold member_list; by rewrite Hreg).
  rewrite Hml in Hbind.
  assert (Z.to_nat (signer_count w) = Z.to_nat (ChannelRegRecord.member_count r)) as Hcount.
  { apply Nat.le_antisymm; apply Nat.nlt_ge; intros Hlt.
    - destruct (Hbind (Z.to_nat (ChannelRegRecord.member_count r))) as (l & Hl & He); [lia|].
      rewrite list_lookup_fmap, (proj2 (lookup_ge_None _ _)) in He by lia. cbn in He.
      destruct (Hslot _ l Hl) as [Hne _]. apply Hne; [done|]. by subst l.
    - destruct (Hbind (Z.to_nat (signer_count w))) as (l & Hl & He); [lia|].
      destruct (lookup_lt_is_Some_2 (active_members r) (Z.to_nat (signer_count w))) as [m Hm]; [lia|].
      rewrite list_lookup_fmap, Hm in He. cbn in He. destruct (Hslot _ l Hl) as [_ Hemp].
      apply (member_leaf_nonempty r _ m Hr Hm). rewrite <- He, Hemp by lia. done. }
  split; [|lia|done]. unfold all_member_leaves. apply list_eq_same_length with 8%nat;
    [by rewrite length_app, length_fmap, length_replicate, Hla; unfold MAX_SIG_CLUSTER; lia|done|].
  intros j x y Hj Hx Hy. destruct (Hbind j Hj) as (l & Hl & He). rewrite Hx in Hl. injection Hl as ->. subst l.
  apply lookup_app_Some in Hy as [Hy|[Hge Hy]].
  - rewrite Hy. done.
  - apply lookup_replicate in Hy as [-> _]. by rewrite (proj2 (lookup_ge_None _ _)) by done.
Qed.

(** The statement folded for such a block. *)
Definition block_entry (w : UpdateUserTree) (r : ChannelRegRecord) : AggListEntry :=
  AggListEntry.mk (ChannelStateMessageFields.signing_digest (channel_state_fields w)
      (Block.channel_id (block w)) (Block.tx_tree_root (block w)))
    (MemberRegEntry.pk_g <$> active_members r).

Lemma member_pks {E} r : record_valid r ->
  res_mapM (fun leaf => phash_into_bytes32 (E := E) (MemberLeaf.pk_g leaf)) (all_member_leaves r) =
  Ok ((MemberRegEntry.pk_g <$> active_members r)
        ++ replicate (MAX_SIG_CLUSTER - Z.to_nat (ChannelRegRecord.member_count r)) bytes32_default).
Proof.
  intros Hr. apply res_mapM_Ok. unfold all_member_leaves. apply Forall2_app.
  - rewrite Forall2_fmap. apply Forall_Forall2_diag, Forall_lookup. intros i m Hm. apply reduce_into_bytes32.
    apply lookup_take_Some in Hm as [Hm Hi]. by apply (rec_active _ Hr i m).
  - apply Forall2_replicate. apply default_into_bytes32.
Qed.

(** The block side and the aggregator side fold the same leaf. *)
Lemma block_statement_entry {E} w r : record_valid r -> n_of_n w r ->
  block_statement (E := E) w = AggListEntry.leaf (block_entry w r).
Proof.
  intros Hr [Hl Hc _]. unfold block_statement, AggListEntry.leaf. rewrite Hl, member_pks by done. cbn [mbind res_bind].
  pose proof (rec_count _ Hr). rewrite pk_list_digest_padding.
  - cbn [block_entry AggListEntry.signer_pks AggListEntry.message]. rewrite length_fmap, length_active, Hc by done.
    destruct (agg_pk_list_digest _); [|done|done]. cbn [mbind res_bind]. by rewrite Z2Nat.id by lia.
  - rewrite length_fmap, length_active by done. unfold MAX_SIG_CLUSTER. lia.
Qed.

(** ** One slot *)

(** The widths of the fields and the heights the circuit fixes for the proofs. *)
Definition update_shaped (w : UpdateUserTree) : Prop :=
  Forall (fun p => proof_height p = CHANNEL_TREE_HEIGHT) (user_merkle_proofs w) /\
  Forall (fun p => proof_height p = SEND_TREE_HEIGHT) (send_merkle_proofs w) /\
  in_width 32 (Block.channel_id (block w)) /\
  Forall (fun p => proof_height p = TX_TREE_HEIGHT) (tx_v2_merkle_proofs w).

Definition with_send (n : BlockNumber) (tx_root : Bytes32) (ch : channel) : channel :=
  mkChannel (sends ch ++ [SendLeaf.mk (last_send (sends ch)) n tx_root]) (registration ch).

Definition record_block (w : UpdateUserTree) (chs : Z -> channel) : Z -> channel :=
  let c := Block.channel_id (block w) in
  <[c := with_send (block_number w) (Block.tx_tree_root (block w)) (chs c)]> chs.

(** The transaction the block carries for its channel. *)
Definition channel_tx (w : UpdateUserTree) (ch : channel) (tx : TxV2) : Prop :=
  TxV2.nonce tx = Z.of_nat (length (sends ch)) /\
  (exists p, proof_height p = TX_TREE_HEIGHT /\
    proof_verify p tx (Block.channel_id (block w)) (reduce_to_hash_out (Block.tx_tree_root (block w))) = Ok tt) /\
  exists i, check_tx_class w i (Block.channel_id (block w)) tx = Ok tt.

Record signed_send (w : UpdateUserTree) (chs : Z -> channel) (leaf : PHash) (sig0 sig1 : Bytes32) : Prop := {
  ss_channel : 0 < Block.channel_id (block w) < 2 ^ 32;
  ss_registered : exists r, registration (chs (Block.channel_id (block w))) = Some r /\ record_valid r /\ n_of_n w r;
  ss_tx : exists tx, channel_tx w (chs (Block.channel_id (block w))) tx;
  ss_room : Z.of_nat (length (sends (chs (Block.channel_id (block w))))) < 2 ^ 32;
  ss_fold : fold_statement sig0 leaf = Ok sig1;
}.

(** The empty position the send proof opens is the one after the last send. *)
Lemma send_slot chs n c p u (x : SendLeaf) :
  channels_ok chs n -> proof_height p = SEND_TREE_HEIGHT ->
  proof_verify p (empty_leaf (V := SendLeaf)) (ChannelLeaf.index (channel_leaf (chs c)))
    (ChannelLeaf.send_tree_root (channel_leaf (chs c))) = Ok u ->
  Z.of_nat (length (sends (chs c))) < 2 ^ 32 /\
  path_root (siblings p) (ChannelLeaf.index (channel_leaf (chs c))) (leaf_hash x) =
  subtree (list_leaves (Hs := PoseidonLeafableHasher) (sends (chs c) ++ [x])) SEND_TREE_HEIGHT 0.
Proof.
  intros Hok Hh Hv. cbn [channel_leaf ChannelLeaf.index ChannelLeaf.send_tree_root] in *. rewrite <- Hh in *.
  pose proof (wrap_in_width 32 (Z.of_nat (length (sends (chs c)))) ltac:(lia)) as Hw.
  assert (in_width 64 (wrap 32 (Z.of_nat (length (sends (chs c)))))) as Hw64 by (unfold in_width in *; lia).
  destruct (proof_verify_sound (I2 := poseidon_two_to_one_inj) _ _ _ _ _ Hw64 Hv) as (Hleaf & _).
  unfold list_leaves in Hleaf. apply (inj leaf_hash) in Hleaf.
  assert (Z.of_nat (length (sends (chs c))) < 2 ^ 32) as Hlt.
  { apply Z.nle_gt. intros Hge.
    destruct (lookup_lt_is_Some_2 (sends (chs c)) (Z.to_nat (wrap 32 (Z.of_nat (length (sends (chs c))))))) as [l Hl].
    { unfold in_width in Hw. lia. }
    rewrite Hl in Hleaf. cbn in Hleaf. subst l. pose proof (chs_sends _ _ Hok c) as Hf.
    rewrite Forall_lookup in Hf. specialize (Hf _ _ Hl). cbn in Hf. lia. }
  split; [done|]. apply (append_leaf (I2 := poseidon_two_to_one_inj) _ _ x) in Hv; [exact Hv| |done].
  apply wrap_id. unfold in_width. lia.
Qed.

(** The channel leaf after the send. *)
Lemma with_send_leaf n tx_root ch : Z.of_nat (length (sends ch)) < 2 ^ 32 ->
  channel_leaf (with_send n tx_root ch) =
  ChannelLeaf.mk (wrap 32 (ChannelLeaf.index (channel_leaf ch) + 1)) n
    (subtree (list_leaves (Hs := PoseidonLeafableHasher)
       (sends ch ++ [SendLeaf.mk (ChannelLeaf.prev (channel_leaf ch)) n tx_root])) SEND_TREE_HEIGHT 0)
    (ChannelLeaf.member_pubkeys_root (channel_leaf ch)).
Proof.
  intros Hlt. unfold channel_leaf at 1. cbn [with_send sends registration member_list]. f_equal.
  - cbn [channel_leaf ChannelLeaf.index]. rewrite wrap_add_l by lia. f_equal. rewrite length_app. cbn [length]. lia.
  - by rewrite last_send_snoc.
Qed.

Lemma last_send_le chs n c : channels_ok chs n -> 0 <= n -> U63.as_u64 (last_send (sends (chs c))) <= n.
Proof.
  intros Hok Hn. unfold last_send. destruct (list.last (sends (chs c))) as [l|] eqn:Hl; [|done].
  pose proof (chs_sends _ _ Hok c) as Hf. apply list.last_Some in Hl as [ls' Hl].
  rewrite Hl in Hf. apply Forall_app in Hf as [_ Hf]. apply Forall_cons_iff in Hf as [Hf _]. lia.
Qed.

Lemma slot_first w leaf chs n sig0 i k acc :
  update_shaped w -> channels_ok chs n -> 0 <= n < U63.as_u64 (block_number w) ->
  length (member_leaves w) = MAX_SIG_CLUSTER -> active_key k = true ->
  update_slot w true leaf (channels_root chs, sig0) (i, k) = Ok acc ->
  signed_send w chs leaf sig0 acc.2 /\ acc.1 = channels_root (record_block w chs).
Proof.
  intros (Huh & Hsh & Hcw & Hth) Hok [Hn0 Hn] Hlen Hk H. unfold update_slot in H. cbn [fst snd] in H.
  apply negb_true_iff in Hk. rewrite Hk in H. apply bind_Ok in H as (c & Hc%map_err_Ok & H).
  rewrite channel_id_new_cases in Hc by (unfold in_width in Hcw; lia).
  destruct (Z.eqb_spec (Block.channel_id (block w)) 0) as [|Hnz]; [done|]. apply Ok_inj in Hc as <-.
  apply bind_Ok in H as (lf & Hlf%unwrap_Ok & H). apply bind_Ok in H as (up & Hup%unwrap_Ok & H).
  apply bind_Ok in H as (sp & Hsp%unwrap_Ok & H). rewrite Forall_lookup in Huh, Hsh.
  specialize (Huh _ _ Hup). specialize (Hsh _ _ Hsp). cbn [when] in H.
  apply bind_Ok in H as ([] & Hv%map_err_Ok & H). unfold channels_root in Hv. rewrite <- Huh in Hv.
  apply (proof_verify_sound (I2 := poseidon_two_to_one_inj)) in Hv as (Hleaf & _ & _ & Hroot);
    [|unfold in_width in *; lia]. apply (inj leaf_hash) in Hleaf. subst lf.
  rewrite bool_decide_eq_false_2 in H by (cbn; intros Hp; pose proof (last_send_le _ _ (Block.channel_id (block w)) Hok Hn0) as Hl; rewrite Hp in Hl; lia).
  apply bind_Ok in H as ([] & Hnn & H). apply check_n_of_n_sound with (n := n) in Hnn as (r & Hreg & Hr & Hnn); [|done|done].
  apply bind_Ok in H as (pc & Hpc%map_err_Ok & H). apply bind_Ok in H as (sig1 & Hsig & H).
  apply bind_Ok in H as (tx & Htx%unwrap_Ok & H). apply bind_Ok in H as (txp & Htxp%unwrap_Ok & H).
  apply bind_Ok in H as (ti & Hti%unwrap_Ok & H). apply bind_Ok in H as ([] & Hct & H).
  apply bind_Ok in H as ([] & Hcc & H). apply bind_Ok in H as ([] & Hsv%map_err_Ok & H).
  rewrite proof_get_root_eq in H. cbn [mbind res_bind] in H. rewrite proof_get_root_eq in H. apply Ok_inj in H as <-.
  cbn [fst snd].
  apply (send_slot chs n (Block.channel_id (block w)) sp tt (SendLeaf.mk (ChannelLeaf.prev
    (channel_leaf (chs (Block.channel_id (block w))))) (block_number w) (Block.tx_tree_root (block w)))) in Hsv as [Hlt Hsend];
    [|done|done].
  split.
  - split; [unfold in_width in Hcw; lia|by exists r| |done|].
    + exists tx. unfold check_tx in Hct. apply bind_Ok in Hct as ([] & Hi%ensure_Ok & Hct).
      apply bind_Ok in Hct as ([] & Hpv%map_err_Ok & Hct). apply ensure_Ok in Hct. simplify_bool. subst ti.
      split; [|split; [exists txp; split; [by eapply (Forall_lookup_1 _ _ _ _ Hth)|done]|by exists i]]. rewrite Hct. apply wrap_id. unfold in_width. lia.
    + unfold fold_statement. rewrite Hpc. cbn [mbind res_bind]. by eapply phash_into_any_error.
  - unfold record_block. rewrite <- channels_root_insert, <- Huh. rewrite Hsend. unfold channel_leaf_member_root.
    rewrite <- with_send_leaf by done. apply Hroot.
Qed.

(** After the send, the other active slots of the block change nothing. *)
Lemma slot_after w leaf chs sig i k acc :
  update_shaped w -> active_key k = true ->
  last_send (sends (chs (Block.channel_id (block w)))) = block_number w ->
  update_slot w true leaf (channels_root chs, sig) (i, k) = Ok acc -> acc = (channels_root chs, sig).
Proof.
  intros (Huh & _ & Hcw & _) Hk Hlast H. unfold update_slot in H. cbn [fst snd] in H.
  apply negb_true_iff in Hk. rewrite Hk in H. apply bind_Ok in H as (c & Hc%map_err_Ok & H).
  rewrite channel_id_new_cases in Hc by (unfold in_width in Hcw; lia).
  destruct (Z.eqb_spec (Block.channel_id (block w)) 0) as [|Hnz]; [done|]. apply Ok_inj in Hc as <-.
  apply bind_Ok in H as (lf & Hlf%unwrap_Ok & H). apply bind_Ok in H as (up & Hup%unwrap_Ok & H).
  apply bind_Ok in H as (sp & _ & H). rewrite Forall_lookup in Huh. specialize (Huh _ _ Hup). cbn [when] in H.
  apply bind_Ok in H as ([] & Hv%map_err_Ok & H). unfold channels_root in Hv. rewrite <- Huh in Hv.
  apply (proof_verify_sound (I2 := poseidon_two_to_one_inj)) in Hv as (Hleaf & _); [|unfold in_width in *; lia].
  apply (inj leaf_hash) in Hleaf. subst lf. rewrite bool_decide_eq_true_2 in H by exact Hlast. by apply Ok_inj in H.
Qed.

(** ** The loop *)

Lemma slots_after w leaf chs sig l acc :
  update_shaped w -> last_send (sends (chs (Block.channel_id (block w)))) = block_number w ->
  res_foldl (update_slot w true leaf) (channels_root chs, sig) l = Ok acc -> acc = (channels_root chs, sig).
Proof.
  intros Hs Hl. induction l as [|[i k] l IH]; intros H; [by apply Ok_inj in H|].
  cbn [res_foldl] in H. apply bind_Ok in H as (acc1 & H1 & H2).
  assert (acc1 = (channels_root chs, sig)) as ->; [|by apply IH].
  destruct (active_key k) eqn:Hk; [by eapply slot_after|]. unfold update_slot in H1. cbn [fst snd] in H1.
  apply negb_false_iff in Hk. rewrite Hk in H1. by apply Ok_inj in H1.
Qed.

Lemma slots_sound w leaf chs n sig l acc :
  update_shaped w -> channels_ok chs n -> 0 <= n < U63.as_u64 (block_number w) ->
  length (member_leaves w) = MAX_SIG_CLUSTER ->
  res_foldl (update_slot w true leaf) (channels_root chs, sig) l = Ok acc ->
  if existsb active_key l.*2
  then signed_send w chs leaf sig acc.2 /\ acc.1 = channels_root (record_block w chs)
  else acc = (channels_root chs, sig).
Proof.
  intros Hs Hok Hn Hlen. induction l as [|[i k] l IH]; intros H; [by apply Ok_inj in H|].
  cbn [res_foldl] in H. apply bind_Ok in H as (acc1 & H1 & H2). cbn [fmap list_fmap snd existsb].
  destruct (active_key k) eqn:Hk; cbn [orb].
  - apply (slot_first w leaf chs n) in H1 as [Hss Hroot]; [|done..]. destruct acc1 as [root1 sig1]. cbn in *. subst root1.
    apply slots_after in H2 as ->; [done|done|]. unfold record_block. rewrite fn_lookup_insert. cbn. by rewrite last_send_snoc.
  - unfold update_slot in H1. cbn [fst snd] in H1. apply negb_false_iff in Hk. rewrite Hk in H1.
    apply Ok_inj in H1 as <-. by apply IH.
Qed.

Lemma imap_pair_snd {A} (l : list A) : (imap pair l).*2 = l.
Proof. apply list_eq. intros i. rewrite list_lookup_fmap, list_lookup_imap. by destruct (l !! i). Qed.

(** The update of a block, as a whole. *)
Lemma update_sound w chs n pis :
  update_shaped w -> channels_ok chs n -> 0 <= n < U63.as_u64 (block_number w) ->
  prev_account_tree_root w = channels_root chs -> to_public_inputs w = Ok pis ->
  let sig := UpdateUserPublicInputs.new_bp_sig_chain pis in
  let root := UpdateUserPublicInputs.new_account_tree_root pis in
  pis = UpdateUserPublicInputs.mk (block_number w) (Block.timestamp (block w)) (prev_block_hash_chain w)
    (channels_root chs) (solidity_keccak256 (Block.hash_words (block w) (prev_block_hash_chain w))) root
    (Block.deposit_hash_chain (block w)) (Block.channel_reg_hash_chain (block w)) (prev_bp_sig_chain w) sig /\
  if existsb active_key (Block.key_ids (block w))
  then exists r leaf, registration (chs (Block.channel_id (block w))) = Some r /\ record_valid r /\ n_of_n w r /\
    AggListEntry.leaf (E := PoseidonHashOut.PoseidonHashOutError) (block_entry w r) = Ok leaf /\
    signed_send w chs leaf (prev_bp_sig_chain w) sig /\ root = channels_root (record_block w chs)
  else root = channels_root chs /\ sig = prev_bp_sig_chain w.
Proof.
  intros Hs Hok Hn Hroot H. unfold to_public_inputs, compute_public_inputs in H.
  apply bind_Ok in H as ([] & _ & H). apply bind_Ok in H as (bh & Hbh%map_err_Ok & H).
  apply bind_Ok in H as ([] & Hlen%ensure_Ok & H). apply Nat.eqb_eq in Hlen. apply bind_Ok in H as ([] & _ & H).
  apply bind_Ok in H as (leaf & Hleaf & H). apply bind_Ok in H as (acc & Hacc & H). apply Ok_inj in H as <-.
  cbn [UpdateUserPublicInputs.new_bp_sig_chain UpdateUserPublicInputs.new_account_tree_root].
  unfold Block.hash_with_prev_hash in Hbh. destruct (negb _); [done|]. apply Ok_inj in Hbh as <-.
  rewrite Hroot in *. split; [done|]. apply (slots_sound w leaf chs n) in Hacc; [|done..].
  rewrite imap_pair_snd in Hacc. destruct (existsb active_key _); [|by subst acc].
  destruct Hacc as [Hss Hr]. destruct (ss_registered _ _ _ _ _ Hss) as (r & Hreg & Hrv & Hnn). exists r, leaf.
  split_and!; try done. rewrite <- (block_statement_entry w r Hrv Hnn).
  revert Hleaf. unfold block_statement. rewrite (nn_leaves _ _ Hnn), !member_pks by done. cbn [mbind res_bind].
  unfold agg_pk_list_digest. destruct (_ <=? _)%nat; [|done]. cbn [assert_that mbind res_bind]. by intros [= <-].
Qed.

End update.
