(* ===== verification/CloseFundingProps.v ===== *)
(** * What a close-funding proposal pays

    A head either has a close-funding child, and then the plan pays the fund of
    every registered token to the manager and nothing else, or the builder
    refuses it ([build_spec]); the check accepts what the builder builds
    ([built_verifies]) and nothing that differs from it ([verify_sound]). *)

From S2P Require Import Prelude Limbs U63 Circuit MerkleTree LeafTrees Poseidon IndexedTree Keccak Regev BalanceState BalanceStateProps Account AccountProps Ledger Balance BalanceCodec Channel ChannelProps HashChains BlockStep BlockStepProps CloseFunding.

#[local] Remove Hints Leafable_Bytes32 : typeclass_instances.

#[local] Notation bal := ChannelState.balance_state.
#[local] Notation amounts s := (ChannelFund.amounts (ChannelState.channel_fund s)).
#[local] Notation registry s := (BalanceState.token_registry (ChannelState.balance_state s)).
#[local] Notation res := (res CloseFundingError).

(** ** Specification *)

Section spec.
Context {P : Poseidon} {W : PoseidonWords P} {K : Keccak}.

(** The heads that have a close-funding child. *)
Record fundable (head : ChannelState) (rollup manager : Address) : Prop := {
  fd_valid : valid (bal head);
  fd_balance_id : ChannelState.channel_id head = BalanceState.channel_id (bal head);
  fd_fund_id : ChannelState.channel_id head = ChannelFund.channel_id (ChannelState.channel_fund head);
  fd_digest : ChannelState.signing_digest (E := CloseFundingError) head = Ok (ChannelState.digest head);
  fd_rollup : rollup <> address_default;
  fd_manager : manager <> address_default;
  fd_h2 : ChannelState.h2_tag head = bytes32_default;
  fd_padding slot a : (active_tokens (bal head) <= slot)%nat -> amounts head !! slot = Some a -> a = u256_zero;
  fd_some : exists slot a, (slot < active_tokens (bal head))%nat /\ amounts head !! slot = Some a /\ a <> u256_zero;
  fd_nonce : ChannelState.close_freeze_nonce head + 1 < 2 ^ 64;
  fd_epoch : ChannelState.epoch head + 1 < 2 ^ 64;
  fd_block : ChannelState.small_block_number head + 1 < 2 ^ 64;
  fd_version : BalanceState.state_version (bal head) + 1 < 2 ^ 64;
}.

(** What the transfers of a plan pay. *)
Record pays_fund (head : ChannelState) (manager : Address) (aux : Bytes32) (ts : list Transfer) : Prop := {
  pf_token slot token a : (slot < active_tokens (bal head))%nat -> registry head !! slot = Some token -> amounts head !! slot = Some a ->
    outflow ts token = val a;
  pf_other token : token ∉ take (active_tokens (bal head)) (registry head) -> outflow ts token = 0;
  pf_each t : t ∈ ts -> extract_address_from_recipient (Transfer.recipient t) = Ok manager /\
    Transfer.aux_data t = aux /\ 0 < val (Transfer.amount t) /\ exists slot, (slot < active_tokens (bal head))%nat /\
      registry head !! slot = Some (Transfer.token_index t) /\ amounts head !! slot = Some (Transfer.amount t);
  pf_order : Transfer.token_index <$> ts `sublist_of` take (active_tokens (bal head)) (registry head);
}.

(** The terminal child: the head with the counters, the chain, the previous digest and the root advanced. *)
Definition child_of (head : ChannelState) (aux root digest : Bytes32) : ChannelState :=
  ChannelState.mk (ChannelState.channel_id head) (ChannelState.epoch head + 1) (ChannelState.small_block_number head + 1)
    (ChannelState.close_freeze_nonce head) (ChannelState.channel_fund head)
    (with_state_version (bal head) (BalanceState.state_version (bal head) + 1) (settled_tx_chain_push (BalanceState.settled_tx_chain (bal head)) aux))
    root (ChannelState.shared_native_nullifier_root head) (ChannelState.unallocated_confirmed_incoming head)
    (ChannelState.digest head) digest [].

(** The plan of a proposal and its child. *)
Record funding (head : ChannelState) (chain_id : Z) (rollup manager : Address) (base_nonce : Z) (p : CloseFundingProposal) : Prop := {
  fu_context : CloseFundingPlan.chain_id (CloseFundingProposal.plan p) = chain_id /\ CloseFundingPlan.rollup (CloseFundingProposal.plan p) = rollup /\
    CloseFundingPlan.manager (CloseFundingProposal.plan p) = manager /\ CloseFundingPlan.base_nonce (CloseFundingProposal.plan p) = base_nonce /\
    CloseFundingPlan.source_channel_id (CloseFundingProposal.plan p) = ChannelState.channel_id head;
  fu_nonce : CloseFundingPlan.close_freeze_nonce (CloseFundingProposal.plan p) = ChannelState.close_freeze_nonce head + 1;
  fu_funds : CloseFundingPlan.token_funds_digest (CloseFundingProposal.plan p) =
    token_funds_digest (registry head) (BalanceState.token_count (bal head)) (amounts head);
  fu_aux : close_funding_aux_data (E := CloseFundingError) chain_id rollup manager (ChannelState.channel_id head) (ChannelState.close_freeze_nonce head + 1)
    (CloseFundingPlan.token_funds_digest (CloseFundingProposal.plan p)) = Ok (CloseFundingPlan.funding_aux_data (CloseFundingProposal.plan p));
  fu_pays : pays_fund head manager (CloseFundingPlan.funding_aux_data (CloseFundingProposal.plan p)) (CloseFundingPlan.transfers (CloseFundingProposal.plan p));
  fu_tx : CloseFundingPlan.tx_v2 (CloseFundingProposal.plan p) = TxV2.mk UserTransfer
    (subtree (list_leaves (CloseFundingPlan.transfers (CloseFundingProposal.plan p))) TRANSFER_TREE_HEIGHT 0) base_nonce phash_default;
  fu_root : exists root, phash_into_bytes32 (E := CloseFundingError) root = Ok (CloseFundingPlan.tx_tree_root (CloseFundingProposal.plan p)) /\
    root = subtree (Sparse.map_leaves {[ChannelState.channel_id head := CloseFundingPlan.tx_v2 (CloseFundingProposal.plan p)]}) TX_TREE_HEIGHT 0 /\
    proof_height (CloseFundingPlan.tx_v2_merkle_proof (CloseFundingProposal.plan p)) = TX_TREE_HEIGHT /\
    proof_verify (CloseFundingPlan.tx_v2_merkle_proof (CloseFundingProposal.plan p)) (CloseFundingPlan.tx_v2 (CloseFundingProposal.plan p))
      (ChannelState.channel_id head) root = Ok tt;
  fu_digest : close_funding_plan_digest (E := CloseFundingError) chain_id rollup manager (ChannelState.channel_id head)
    (ChannelState.close_freeze_nonce head + 1) base_nonce (CloseFundingPlan.token_funds_digest (CloseFundingProposal.plan p))
    (CloseFundingPlan.tx_tree_root (CloseFundingProposal.plan p)) = Ok (CloseFundingPlan.plan_digest (CloseFundingProposal.plan p));
  fu_child : exists d, CloseFundingProposal.proposed_state p =
      child_of head (CloseFundingPlan.funding_aux_data (CloseFundingProposal.plan p)) (CloseFundingPlan.tx_tree_root (CloseFundingProposal.plan p)) d /\
    ChannelState.signing_digest (E := CloseFundingError) (CloseFundingProposal.proposed_state p) = Ok d;
}.
End spec.

(** ** The loop over the fund *)

(** The transfer of one position. *)
Definition fund_entry (recipient aux : Bytes32) (head : ChannelState) (slot : nat) : option Transfer :=
  amount ← amounts head !! slot;
  token ← registry head !! slot;
  if bool_decide (amount = u256_zero) then None else Some (Transfer.mk recipient token amount aux).

Lemma fund_entry_eq recipient aux head slot a token : amounts head !! slot = Some a -> registry head !! slot = Some token ->
  fund_entry recipient aux head slot = if bool_decide (a = u256_zero) then None else Some (Transfer.mk recipient token a aux).
Proof. intros Ha Ht. unfold fund_entry. by rewrite Ha, Ht. Qed.

Lemma fund_entry_Some recipient aux head slot t : fund_entry recipient aux head slot = Some t ->
  registry head !! slot = Some (Transfer.token_index t) /\ amounts head !! slot = Some (Transfer.amount t) /\
  Transfer.amount t <> u256_zero /\ Transfer.recipient t = recipient /\ Transfer.aux_data t = aux.
Proof.
  unfold fund_entry. destruct (amounts head !! slot) as [a|], (registry head !! slot) as [token|]; try done. cbn.
  case_bool_decide; [done|]. by intros [= <-].
Qed.

Lemma omap_snoc {A B} (f : A -> option B) l x : omap f (l ++ [x]) = omap f l ++ match f x with Some y => [y] | None => [] end.
Proof. by rewrite omap_app. Qed.

Lemma fund_transfers_spec {E} recipient aux n head : (n <= length (amounts head))%nat -> (n <= length (registry head))%nat ->
  fund_transfers (E := E) recipient aux n head = Ok (omap (fund_entry recipient aux head) (seq 0 n)).
Proof.
  intros Ha Hr. unfold fund_transfers. induction n as [|n IH]; [done|].
  rewrite seq_S, res_foldl_app, IH by lia. cbn [mbind res_bind res_foldl Nat.add]. rewrite omap_snoc.
  destruct (lookup_lt_is_Some_2 (amounts head) n) as [a Han]; [lia|]. destruct (lookup_lt_is_Some_2 (registry head) n) as [t Htn]; [lia|].
  rewrite (fund_entry_eq recipient aux head n a t Han Htn), Han, Htn. cbn [unwrap mbind res_bind].
  case_bool_decide; cbn [unwrap mbind res_bind]; [by rewrite app_nil_r|done].
Qed.

Lemma outflow_app ts us token : outflow (ts ++ us) token = outflow ts token + outflow us token.
Proof. induction ts as [|t ts IH]; [done|]. cbn [app outflow]. rewrite IH. lia. Qed.

(** Position by position: what the first [n] entries take of a token. *)
Lemma entries_outflow recipient aux head token n : (n <= length (amounts head))%nat -> (n <= length (registry head))%nat ->
  (token ∉ take n (registry head) -> outflow (omap (fund_entry recipient aux head) (seq 0 n)) token = 0) /\
  (NoDup (take n (registry head)) -> forall slot a, (slot < n)%nat -> registry head !! slot = Some token -> amounts head !! slot = Some a ->
    outflow (omap (fund_entry recipient aux head) (seq 0 n)) token = val a).
Proof.
  induction n as [|n IH]; intros Ha Hr; [split; [done|lia]|]. destruct IH as [IH0 IH1]; [lia..|].
  destruct (lookup_lt_is_Some_2 (amounts head) n) as [an Han]; [lia|]. destruct (lookup_lt_is_Some_2 (registry head) n) as [tn Htn]; [lia|].
  rewrite seq_S, omap_snoc, outflow_app, (take_S_r _ _ _ Htn). cbn [Nat.add]. rewrite (fund_entry_eq _ _ _ _ _ _ Han Htn).
  assert (outflow (match (if bool_decide (an = u256_zero) then None else Some (Transfer.mk recipient tn an aux)) with Some y => [y] | None => [] end) token
    = if tn =? token then val an else 0) as ->.
  { case_bool_decide as Hz; cbn [outflow Transfer.token_index Transfer.amount]; [subst an; by destruct (tn =? token)|lia]. }
  split.
  - intros Hn. rewrite not_elem_of_app, list_elem_of_singleton in Hn. destruct Hn as [Hn Hne]. rewrite IH0 by done.
    by destruct (Z.eqb_spec tn token) as [->|].
  - intros Hnd slot a Hslot Ht Hsa. apply list.NoDup_app in Hnd as (Hnd & Hdis & _). destruct (decide (slot = n)) as [->|Hne].
    + rewrite Htn in Ht. rewrite Han in Hsa. injection Ht as ->. injection Hsa as ->. rewrite Z.eqb_refl, IH0; [lia|].
      intros Hin. apply (Hdis _ Hin). by left.
    + rewrite (IH1 Hnd slot a) by (done || lia). destruct (Z.eqb_spec tn token) as [->|]; [|lia]. exfalso. apply (Hdis token); [|by left].
      apply list_elem_of_lookup. exists slot. rewrite lookup_take. destruct (decide _); [done|lia].
Qed.

Lemma entries_order recipient aux head n : (n <= length (amounts head))%nat -> (n <= length (registry head))%nat ->
  Transfer.token_index <$> omap (fund_entry recipient aux head) (seq 0 n) `sublist_of` take n (registry head).
Proof.
  induction n as [|n IH]; intros Ha Hr; [constructor|].
  destruct (lookup_lt_is_Some_2 (amounts head) n) as [an Han]; [lia|]. destruct (lookup_lt_is_Some_2 (registry head) n) as [tn Htn]; [lia|].
  rewrite seq_S, omap_snoc, (take_S_r _ _ _ Htn), fmap_app. cbn [Nat.add]. rewrite (fund_entry_eq _ _ _ _ _ _ Han Htn).
  apply sublist_app; [apply IH; lia|]. case_bool_decide; cbn; [apply sublist_nil_l|done].
Qed.

Lemma active_registry_NoDup (s : BalanceState.BalanceState) : valid s -> NoDup (take (active_tokens s) (BalanceState.token_registry s)).
Proof.
  intros Hv. apply NoDup_alt. intros i j x Hi Hj. apply lookup_take_Some in Hi as [Hi Hil], Hj as [Hj Hjl].
  destruct (Nat.lt_trichotomy i j) as [H|[H|H]]; [|done|]; exfalso; by eapply (v_injective s Hv); [split; [exact H|]|..].
Qed.

Lemma u256_pos (a : U256) : a <> u256_zero -> 0 < val a.
Proof.
  intros H. pose proof (val_bound a). destruct (decide (val a = 0)) as [Hz|]; [|lia]. exfalso. apply H. by apply val_inj.
Qed.

(** The transfers of the plan pay the fund. *)
Lemma entries_pay head manager recipient aux :
  typed (bal head) -> valid (bal head) -> length (amounts head) = MAX_CHANNEL_TOKENS ->
  extract_address_from_recipient recipient = Ok manager ->
  pays_fund head manager aux (omap (fund_entry recipient aux head) (seq 0 (active_tokens (bal head)))).
Proof.
  intros Hty Hv Ha Hr. pose proof (v_token_count _ Hv) as Htc. pose proof (ty_registry _ Hty) as Hreg. split.
  - intros slot token a Hs Ht Hsa. eapply (entries_outflow recipient aux head token); [lia|lia| |exact Hs|done|done].
    by apply active_registry_NoDup.
  - intros token Hn. by apply (entries_outflow recipient aux head token); [lia|lia|].
  - intros t Ht. apply list_elem_of_omap in Ht as (slot & Hs%elem_of_seq & He). apply fund_entry_Some in He as (Ht & Hta & Hz & -> & ->).
    split_and!; [done|done|by apply u256_pos|]. exists slot. split_and!; [lia|done|done].
  - apply entries_order; lia.
Qed.

(** ** The trees *)

Section build.
Context {P : Poseidon} {W : PoseidonWords P} {PR : PoseidonReadable P W} {K : Keccak}.

Lemma bytes_total {E} (h : PHash) : exists b, phash_into_bytes32 (E := E) h = Ok b.
Proof.
  destruct (PoseidonHashOut_lemmas.words_into_bytes32_ok (E := E) (phash_to_u64_vec h)) as (b & Hb & _); [apply readable_length|].
  by exists b.
Qed.

Lemma transfer_root_spec {E} ts : (length ts <= 2 ^ TRANSFER_TREE_HEIGHT)%nat ->
  transfer_tree_root_of (E := E) ts = Ok (subtree (list_leaves ts) TRANSFER_TREE_HEIGHT 0).
Proof.
  intros Hl. unfold transfer_tree_root_of.
  destruct (Incremental.unpack_loop (E := E) ts (Incremental.new (Hs := PoseidonLeafableHasher) TRANSFER_TREE_HEIGHT)) as (t & Ht & Hi & Hh & Hls).
  - apply Incremental.new_inv. unfold TRANSFER_TREE_HEIGHT. lia.
  - cbn [Incremental.leaves Incremental.new length Nat.add]. change (Incremental.height (Incremental.new TRANSFER_TREE_HEIGHT)) with TRANSFER_TREE_HEIGHT.
    rewrite <- (Nat2Z.inj_pow 2). by apply Nat2Z.inj_le.
  - change (res_foldl (E := E) (fun tree transfer => Incremental.push tree transfer)
      (Incremental.new (Hs := PoseidonLeafableHasher) (V := Transfer) TRANSFER_TREE_HEIGHT) ts = Ok t) in Ht.
    rewrite Ht. cbn [mbind res_bind]. rewrite Incremental.get_root_inv by done. by rewrite Hls, Hh.
Qed.

(** The tree with one transaction. *)
Lemma tx_tree_spec {E} c (tx : TxV2) : in_width 32 c ->
  exists t, Sparse.update (E := E) (Sparse.new (Hs := PoseidonLeafableHasher) TX_TREE_HEIGHT) c tx = Ok t /\
    Sparse.get_root (E := E) t = Ok (subtree (Sparse.map_leaves {[c := tx]}) TX_TREE_HEIGHT 0) /\
    Sparse.prove (E := E) t c = Ok (honest_proof TX_TREE_HEIGHT {[c := tx]} c).
Proof.
  intros Hc. pose proof tx_tree_height as Hh.
  assert (0 <= c < 2 ^ Z.of_nat TX_TREE_HEIGHT) as Hd by (rewrite Hh; exact Hc).
  pose proof (Sparse.sparse_update_spec (E := E) (Sparse.new (Hs := PoseidonLeafableHasher) TX_TREE_HEIGHT) c tx
    (Sparse.sparse_new_inv _) (in_width_32_64 c Hc)) as Hu.
  change (Sparse.height (Sparse.new (Hs := PoseidonLeafableHasher) (V := TxV2) TX_TREE_HEIGHT)) with TX_TREE_HEIGHT in Hu.
  destruct (Sparse.update _ c tx) as [t|e|]; [|done|lia]. destruct Hu as (_ & Hi & Ht & Hl). exists t.
  change (Sparse.leaves t = {[c := tx]}) in Hl. split; [done|]. rewrite (Sparse.sparse_get_root_inv t Hi), Hl, Ht. split; [done|].
  unfold Sparse.prove, honest_proof. destruct Hi as [Hrep _]. rewrite Hl in Hrep. unfold Sparse.height in Ht.
  rewrite (prove_spec _ _ c Hrep); [by rewrite Ht|by rewrite Ht|by apply in_width_32_64].
Qed.

Lemma tx_proof_verifies c (tx : TxV2) : in_width 32 c ->
  proof_verify (honest_proof TX_TREE_HEIGHT {[c := tx]} c) tx c (subtree (Sparse.map_leaves {[c := tx]}) TX_TREE_HEIGHT 0) = Ok tt.
Proof.
  intros Hc. pose proof tx_tree_height as Hh. apply honest_proof_verifies; [lia|rewrite Hh; exact Hc|]. by rewrite lookup_singleton_eq.
Qed.

Lemma funding_tx_spec {E} c base_nonce ts : in_width 32 c -> (length ts <= 2 ^ TRANSFER_TREE_HEIGHT)%nat ->
  exists tx rb mp, funding_tx (E := E) c base_nonce ts = Ok (mkFundingTx tx rb mp) /\
    tx = TxV2.mk UserTransfer (subtree (list_leaves ts) TRANSFER_TREE_HEIGHT 0) base_nonce phash_default /\
    exists root, phash_into_bytes32 (E := E) root = Ok rb /\ root = subtree (Sparse.map_leaves {[c := tx]}) TX_TREE_HEIGHT 0 /\
      proof_height mp = TX_TREE_HEIGHT /\ proof_verify mp tx c root = Ok tt.
Proof.
  intros Hc Hl. unfold funding_tx. rewrite transfer_root_spec by done. cbn [mbind res_bind]. set (tx := TxV2.mk _ _ _ _).
  destruct (tx_tree_spec (E := E) c tx Hc) as (tree & -> & Hroot & Hprove). cbn [mbind res_bind].
  rewrite Hroot. cbn [mbind res_bind]. set (root := subtree (Sparse.map_leaves _) _ _) in *.
  destruct (bytes_total (E := E) root) as [rb Hrb]. rewrite Hrb, Hprove. cbn [mbind res_bind].
  exists tx, rb, (honest_proof TX_TREE_HEIGHT {[c := tx]} c). split_and!; [done|done|]. exists root.
  split_and!; [done|done|apply honest_proof_height|by apply tx_proof_verifies].
Qed.

(** ** The digests *)

Lemma from_u64_total {E} v : exists x, U256.from_u64 (E := E) v = Ok x.
Proof.
  unfold U256.from_u64. destruct (limbs_try_into_val (E := E) U256_LEN [wrap 32 v; wrap 32 (Z.shiftr v 32); 0; 0; 0; 0; 0; 0]) as (x & Hx & _).
  - done.
  - repeat constructor; first [apply wrap_in_width; lia|unfold in_width; lia].
  - by exists x.
Qed.

Lemma aux_total {E} c r m i n f : exists aux, close_funding_aux_data (E := E) c r m i n f = Ok aux.
Proof. unfold close_funding_aux_data. destruct (from_u64_total (E := E) c) as [x ->]. by eexists. Qed.

Lemma plan_digest_total {E} c r m i n b f t : exists d, close_funding_plan_digest (E := E) c r m i n b f t = Ok d.
Proof. unfold close_funding_plan_digest. destruct (from_u64_total (E := E) c) as [x ->]. by eexists. Qed.

Lemma signing_digest_total {E} s : typed (bal s) -> valid (bal s) -> exists d, ChannelState.signing_digest (E := E) s = Ok d.
Proof.
  intros Hty Hv. unfold ChannelState.signing_digest.
  destruct (h1_words (E := E) (bal s)) as (b & -> & _); [apply readable_length|by apply valid_well_shaped|by apply valid_ciphertexts_ok|]. by eexists.
Qed.

Lemma child_balance_valid b v c : valid b -> valid (with_state_version b v c).
Proof. by intros []. Qed.

Lemma child_balance_typed b v c : in_width 64 v -> typed b -> typed (with_state_version b v c).
Proof. by intros Hv []. Qed.

Lemma next_counter_eq c v : next_counter c v = if v + 1 <? 2 ^ 64 then Ok (v + 1) else Err (CounterOverflow c).
Proof. unfold next_counter, checked_add. by destruct (_ <? _). Qed.

(** ** The builder *)

Lemma guard_step {E A} (b : bool) (e : E) (k : unit -> Prelude.res E A) (Q : Prelude.res E A -> Prop) :
  (b = true -> Q (k tt)) -> (b = false -> Q (Err e)) -> Q (ensure b e ≫= k).
Proof. destruct b; cbn; auto. Qed.

Lemma counter_step {A} c v (k : Z -> res A) (Q : res A -> Prop) :
  (v + 1 < 2 ^ 64 -> Q (k (v + 1))) -> (2 ^ 64 <= v + 1 -> Q (Err (CounterOverflow c))) -> Q (next_counter c v ≫= k).
Proof. rewrite next_counter_eq. destruct (Z.ltb_spec (v + 1) (2 ^ 64)); cbn [mbind res_bind]; auto. Qed.

Lemma validate_step {A} b (k : unit -> res A) (Q : res A -> Prop) :
  typed b -> (valid b -> Q (k tt)) -> (~ valid b -> Q (Err CloseFundingInvalid)) ->
  Q (map_err (fun _ => CloseFundingInvalid) (BalanceState.validate b) ≫= k).
Proof.
  intros Hty Hk He. destruct (validate_decides b Hty) as [H|H]; rewrite H; cbn; [by apply Hk, (validate_Ok b tt Hty)|].
  apply He. intros Hb. apply (validate_Ok b tt Hty) in Hb. by rewrite Hb in H.
Qed.

Lemma fund_entries_some head recipient aux n : (n <= length (registry head))%nat ->
  omap (fund_entry recipient aux head) (seq 0 n) <> [] <-> exists slot a, (slot < n)%nat /\ amounts head !! slot = Some a /\ a <> u256_zero.
Proof.
  intros Hr. split.
  - intros Hne. destruct (omap _ _) as [|t ts] eqn:He; [done|].
    assert (t ∈ omap (fund_entry recipient aux head) (seq 0 n)) as Hin by (rewrite He; left).
    apply list_elem_of_omap in Hin as (slot & Hs%elem_of_seq & Ht). apply fund_entry_Some in Ht as (_ & Hta & Hz & _).
    exists slot, (Transfer.amount t). split_and!; [lia|done|done].
  - intros (slot & a & Hs & Ha & Hz) He. destruct (lookup_lt_is_Some_2 (registry head) slot) as [t Ht]; [lia|].
    assert (Transfer.mk recipient t a aux ∈ omap (fund_entry recipient aux head) (seq 0 n)) as Hin.
    { apply list_elem_of_omap. exists slot. split; [apply elem_of_seq; lia|]. rewrite (fund_entry_eq _ _ _ _ _ _ Ha Ht). by case_bool_decide. }
    rewrite He in Hin. by apply elem_of_nil in Hin.
Qed.

Lemma padding_guard n (l : list U256) :
  existsb (fun amount => bool_decide (amount <> u256_zero)) (drop n l) = false <->
  forall slot a, (n <= slot)%nat -> l !! slot = Some a -> a = u256_zero.
Proof.
  rewrite <- not_true_iff_false, existsb_exists. split.
  - intros H slot a Hn Ha. destruct (decide (a = u256_zero)) as [|Hz]; [done|]. exfalso. apply H. exists a.
    split; [|by apply bool_decide_eq_true]. apply list_elem_of_In, list_elem_of_lookup. exists (slot - n)%nat. rewrite lookup_drop.
    by replace (n + (slot - n))%nat with slot by lia.
  - intros H (a & Ha & Hz). apply bool_decide_eq_true in Hz. apply Hz. apply list_elem_of_In, list_elem_of_lookup in Ha as [i Hi].
    rewrite lookup_drop in Hi. eapply H, Hi. lia.
Qed.

(** What the builder returns on a head. *)
Definition build_result (head : ChannelState) (chain_id : Z) (rollup manager : Address) (base_nonce : Z) (r : res CloseFundingProposal) : Prop :=
  match r with
  | Ok p => fundable head rollup manager /\ funding head chain_id rollup manager base_nonce p
  | Err _ => ~ fundable head rollup manager
  | Panic => False
  end.

(** The terminal child: the counters decide. *)
Lemma terminal_child_spec head aux root : typed (bal head) -> valid (bal head) ->
  match terminal_child head aux root with
  | Ok s => exists d, s = child_of head aux root d /\ ChannelState.signing_digest (E := CloseFundingError) s = Ok d /\
      ChannelState.epoch head + 1 < 2 ^ 64 /\ ChannelState.small_block_number head + 1 < 2 ^ 64 /\ BalanceState.state_version (bal head) + 1 < 2 ^ 64
  | Err _ => 2 ^ 64 <= ChannelState.epoch head + 1 \/ 2 ^ 64 <= ChannelState.small_block_number head + 1 \/
      2 ^ 64 <= BalanceState.state_version (bal head) + 1
  | Panic => False
  end.
Proof.
  intros Hty Hv. unfold terminal_child. do 3 (apply counter_step; [intros|by auto]).
  unfold ChannelState.with_computed_digest. match goal with |- context [ChannelState.signing_digest ?x] => set (s := x) end.
  destruct (signing_digest_total (E := CloseFundingError) s) as [d Hd].
  { apply child_balance_typed; [|done]. pose proof (ty_state_version _ Hty). unfold in_width in *. lia. }
  { by apply child_balance_valid. }
  rewrite Hd. cbn [mbind res_bind]. exists d. split_and!; [done|exact Hd|done..].
Qed.

Lemma build_spec head chain_id rollup manager base_nonce :
  state_words_typed head -> in_width 32 (ChannelState.channel_id head) ->
  build_result head chain_id rollup manager base_nonce (build_close_funding_proposal head chain_id rollup manager base_nonce).
Proof.
  intros [Hty He Hb Hn Ham] Hid. unfold build_close_funding_proposal. pose proof (ty_registry _ Hty) as Hreg.
  apply validate_step; [done| |by intros H Hf; apply H, Hf]. intros Hv. pose proof (v_token_count _ Hv) as Htc.
  apply guard_step; [intros Hids|intros Hids Hf; rewrite <- (fd_balance_id _ _ _ Hf), <- (fd_fund_id _ _ _ Hf), Z.eqb_refl in Hids; done].
  apply negb_true_iff, orb_false_iff in Hids as [Hid1%negb_false_iff%Z.eqb_eq Hid2%negb_false_iff%Z.eqb_eq].
  destruct (signing_digest_total (E := CloseFundingError) head Hty Hv) as [d Hd]. rewrite Hd. cbn [mbind res_bind].
  apply guard_step; [intros Hdg%bool_decide_eq_true|intros Hdg%bool_decide_eq_false Hf; apply Hdg;
    pose proof (fd_digest _ _ _ Hf) as Hx; rewrite Hd in Hx; by injection Hx]. subst d.
  apply guard_step; [intros Hadr|intros Hadr Hf; rewrite !bool_decide_eq_false_2 in Hadr by apply Hf; done].
  apply negb_true_iff, orb_false_iff in Hadr as [Hroll%bool_decide_eq_false Hman%bool_decide_eq_false].
  apply guard_step; [intros Hh2%bool_decide_eq_true|intros Hh2%bool_decide_eq_false Hf; by apply Hh2, Hf].
  fold (active_tokens (bal head)). apply guard_step; [intros _|intros Ht; exfalso; apply negb_false_iff, orb_true_iff in Ht;
    rewrite Nat.eqb_eq, Nat.ltb_lt in Ht; lia].
  rewrite (proj2 (Nat.leb_le _ _)) by lia. cbn [assert_that mbind res_bind].
  apply guard_step; [intros Hpad%negb_true_iff; rewrite padding_guard in Hpad|intros Hpad%negb_false_iff Hf;
    apply not_false_iff_true in Hpad; apply Hpad; apply padding_guard, Hf].
  apply counter_step; [intros Hnn|intros Hnn Hf; pose proof (fd_nonce _ _ _ Hf); lia].
  destruct (aux_total (E := CloseFundingError) chain_id rollup manager (ChannelState.channel_id head) (ChannelState.close_freeze_nonce head + 1)
    (token_funds_digest (registry head) (BalanceState.token_count (bal head)) (amounts head))) as [aux Haux].
  rewrite Haux. cbn [mbind res_bind]. destruct (recipient_from_address (E := CloseFundingError) manager) as (rcp & Hrcp & _). rewrite Hrcp. cbn [mbind res_bind].
  apply extract_from_address in Hrcp. rewrite fund_transfers_spec by lia. cbn [mbind res_bind].
  pose proof (entries_pay head manager rcp aux Hty Hv Ham Hrcp) as Hpay. pose proof (fund_entries_some head rcp aux (active_tokens (bal head)) ltac:(lia)) as Hsome.
  set (ts := omap _ _) in *.
  assert (length ts <= 2 ^ TRANSFER_TREE_HEIGHT)%nat as Hlen.
  { pose proof (sublist_length _ _ (pf_order _ _ _ _ Hpay)) as Hl. rewrite length_fmap, length_take in Hl. change (2 ^ TRANSFER_TREE_HEIGHT)%nat with 64%nat.
    unfold MAX_CHANNEL_TOKENS in Htc. lia. }
  apply guard_step; [intros Hne%negb_true_iff%bool_decide_eq_false; rewrite Hsome in Hne|intros Hnl%negb_false_iff%bool_decide_eq_true Hf;
    by apply Hsome in Hnl; [|apply Hf]].
  destruct (funding_tx_spec (E := CloseFundingError) (ChannelState.channel_id head) base_nonce ts Hid Hlen) as (tx & rb & mp & -> & Htx & Hroot).
  cbn [mbind res_bind ft_tx_v2 ft_tx_tree_root ft_merkle_proof].
  destruct (plan_digest_total (E := CloseFundingError) chain_id rollup manager (ChannelState.channel_id head) (ChannelState.close_freeze_nonce head + 1)
    base_nonce (token_funds_digest (registry head) (BalanceState.token_count (bal head)) (amounts head)) rb) as [pd Hpd].
  rewrite Hpd. cbn [mbind res_bind]. pose proof (terminal_child_spec head aux rb Hty Hv) as Hchild.
  destruct (terminal_child head aux rb) as [s|e|]; cbn [mbind res_bind build_result];
    [|intros Hf; pose proof (fd_epoch _ _ _ Hf); pose proof (fd_block _ _ _ Hf); pose proof (fd_version _ _ _ Hf); lia|done].
  destruct Hchild as (d & Hs & Hsd & Hc1 & Hc2 & Hc3). split; [by split|]. split; try done.
  by exists d.
Qed.
End build.

(** ** The check *)

Section check.
Context {P : Poseidon} {W : PoseidonWords P} {WO : PoseidonWordsOk P W} {K : Keccak}.

#[local] Instance words_output : PoseidonOutput P.
Proof.
  split; [apply phash_words_length|apply canonical_width|]. intros h h' H. rewrite <- (phash_from_to h), <- (phash_from_to h'). by rewrite H.
Qed.

(** A plan with another inclusion proof. *)
Definition with_proof (q : CloseFundingPlan) (mp : MerkleProof) : CloseFundingPlan :=
  CloseFundingPlan.mk (CloseFundingPlan.chain_id q) (CloseFundingPlan.rollup q) (CloseFundingPlan.manager q) (CloseFundingPlan.source_channel_id q)
    (CloseFundingPlan.close_freeze_nonce q) (CloseFundingPlan.base_nonce q) (CloseFundingPlan.token_funds_digest q) (CloseFundingPlan.funding_aux_data q)
    (CloseFundingPlan.transfers q) (CloseFundingPlan.tx_v2 q) (CloseFundingPlan.tx_tree_root q) mp (CloseFundingPlan.plan_digest q).

Lemma same_plan_spec q q' : same_plan_fields q q' = true <-> q' = with_proof q (CloseFundingPlan.tx_v2_merkle_proof q').
Proof.
  unfold same_plan_fields. rewrite !andb_true_iff, !bool_decide_eq_true, !Z.eqb_eq. destruct q, q'. unfold with_proof. cbn. split.
  - intros H. destruct_and! H. by subst.
  - by intros [= -> -> -> -> -> -> -> -> -> -> -> ->].
Qed.

Lemma with_proof_id q : with_proof q (CloseFundingPlan.tx_v2_merkle_proof q) = q.
Proof. by destruct q. Qed.

Lemma signing_digest_signatures {E} s sigs : ChannelState.signing_digest (E := E) (ChannelState.with_signatures s sigs) = ChannelState.signing_digest (E := E) s.
Proof. done. Qed.

(** What the builder builds is accepted, whatever the signatures. *)
Lemma built_verifies head chain_id rollup manager base_nonce p sigs :
  state_words_typed head -> in_width 32 (ChannelState.channel_id head) ->
  build_close_funding_proposal head chain_id rollup manager base_nonce = Ok p ->
  verify_close_funding_proposal head (ChannelState.with_signatures (CloseFundingProposal.proposed_state p) sigs) (CloseFundingProposal.plan p) = Ok tt.
Proof.
  intros Hty Hid Hb. pose proof (build_spec head chain_id rollup manager base_nonce Hty Hid) as Hs. rewrite Hb in Hs.
  destruct Hs as [_ Hf]. destruct (fu_context _ _ _ _ _ _ Hf) as (Hc & Hr & Hm & Hn & Hi). unfold verify_close_funding_proposal.
  rewrite Hc, Hr, Hm, Hn, Hb. cbn [mbind res_bind]. rewrite (proj2 (same_plan_spec _ _)) by by rewrite with_proof_id. cbn [ensure mbind res_bind].
  destruct (fu_root _ _ _ _ _ _ Hf) as (root & Hrb & _ & _ & Hp). rewrite (try_from_into_bytes32 _ _ Hrb). cbn [map_err mbind res_bind].
  rewrite Hi, Hp. cbn [map_err mbind res_bind]. destruct (fu_child _ _ _ _ _ _ Hf) as (d & Hch & Hd).
  assert (ChannelState.digest (CloseFundingProposal.proposed_state p) = d) as Hdg by by rewrite Hch.
  change (ChannelState.digest (ChannelState.with_signatures ?s sigs)) with (ChannelState.digest s).
  rewrite bool_decide_eq_true_2 by done. cbn [ensure mbind res_bind]. rewrite signing_digest_signatures, Hd. cbn [mbind res_bind].
  by rewrite bool_decide_eq_true_2.
Qed.

Lemma child_typed head aux root d : state_words_typed head -> ChannelState.epoch head + 1 < 2 ^ 64 -> ChannelState.small_block_number head + 1 < 2 ^ 64 ->
  BalanceState.state_version (bal head) + 1 < 2 ^ 64 -> state_words_typed (child_of head aux root d).
Proof.
  intros [Hty He Hb Hn Ha] ? ? ?. pose proof (ty_state_version _ Hty). split; cbn; try done; unfold in_width in *; try lia.
  apply child_balance_typed; [unfold in_width; lia|done].
Qed.

(** Two different states with one digest exhibit a collision of a hash. *)
Definition digest_collision (s s' : ChannelState) : Prop :=
  exists h h', BalanceState.h1 (E := CloseFundingError) (bal s) = Ok h /\ BalanceState.h1 (E := CloseFundingError) (bal s') = Ok h' /\
    (keccak_collision (ChannelState.signing_words s h) (ChannelState.signing_words s' h') \/
     collision hash_inputs_u64 (poseidon_queries (bal s)) (poseidon_queries (bal s')) \/
     collision hash_words (keccak_queries (bal s)) (keccak_queries (bal s'))).

(** An accepted plan is the built one up to its proof, and the signed state is the child. *)
Lemma verify_sound prev signed plan :
  state_words_typed prev -> in_width 32 (ChannelState.channel_id prev) -> state_words_typed signed -> valid (bal signed) ->
  verify_close_funding_proposal prev signed plan = Ok tt ->
  exists p, build_close_funding_proposal prev (CloseFundingPlan.chain_id plan) (CloseFundingPlan.rollup plan) (CloseFundingPlan.manager plan)
      (CloseFundingPlan.base_nonce plan) = Ok p /\
    plan = with_proof (CloseFundingProposal.plan p) (CloseFundingPlan.tx_v2_merkle_proof plan) /\
    (exists root, phash_into_bytes32 (E := CloseFundingError) root = Ok (CloseFundingPlan.tx_tree_root plan) /\
      proof_verify (CloseFundingPlan.tx_v2_merkle_proof plan) (CloseFundingPlan.tx_v2 plan) (ChannelState.channel_id prev) root = Ok tt) /\
    (ChannelState.with_signatures signed [] = CloseFundingProposal.proposed_state p \/ digest_collision (CloseFundingProposal.proposed_state p) signed).
Proof.
  intros Hty Hid Hts Hvs H. unfold verify_close_funding_proposal in H. apply bind_Ok in H as (p & Hb & H).
  pose proof (build_spec prev (CloseFundingPlan.chain_id plan) (CloseFundingPlan.rollup plan) (CloseFundingPlan.manager plan)
    (CloseFundingPlan.base_nonce plan) Hty Hid) as Hs. rewrite Hb in Hs. destruct Hs as [Hfd Hf].
  apply bind_Ok in H as ([] & Hsame%ensure_Ok%same_plan_spec & H). apply bind_Ok in H as (root & Hroot%map_err_Ok & H).
  apply bind_Ok in H as ([] & Hpr%map_err_Ok & H). apply bind_Ok in H as ([] & Hdg%ensure_Ok%bool_decide_eq_true & H).
  apply bind_Ok in H as (sd & Hsd & Hsd'%ensure_Ok%bool_decide_eq_true). exists p. split; [done|]. split; [done|].
  destruct (fu_context _ _ _ _ _ _ Hf) as (_ & _ & _ & _ & Hi). assert (CloseFundingPlan.source_channel_id plan = ChannelState.channel_id prev) as Hsrc
    by (rewrite Hsame; exact Hi). assert (CloseFundingPlan.tx_tree_root plan = CloseFundingPlan.tx_tree_root (CloseFundingProposal.plan p)) as Htr
    by (by rewrite Hsame). split.
  - destruct (fu_root _ _ _ _ _ _ Hf) as (root' & Hrb & _). exists root'. rewrite <- Htr in Hrb. split; [done|].
    rewrite (try_from_into_bytes32 _ _ Hrb) in Hroot. injection Hroot as ->. by rewrite <- Hsrc.
  - destruct (fu_child _ _ _ _ _ _ Hf) as (d & Hch & Hcd). set (child := CloseFundingProposal.proposed_state p) in *.
    assert (ChannelState.digest child = d) as Hd by by rewrite Hch. rewrite Hd in *. subst sd.
    assert (state_words_typed child) as Htc by (rewrite Hch; apply child_typed; [done|apply Hfd..]).
    assert (valid (bal child)) as Hvc by (rewrite Hch; apply child_balance_valid, Hfd).
    destruct (h1_Ok (E := CloseFundingError) (bal child)) as (h & Hh & _); [by apply valid_well_shaped; [apply Htc|]|by apply valid_ciphertexts_ok|].
    destruct (h1_Ok (E := CloseFundingError) (bal signed)) as (h' & Hh' & _); [by apply valid_well_shaped; [apply Hts|]|by apply valid_ciphertexts_ok|].
    destruct (state_digest_binding (E := CloseFundingError) child signed h h') as [Heq|Hc]; try done;
      [by rewrite Hd|by rewrite Hdg|by rewrite Hd| |right; by exists h, h'].
    left. rewrite <- Heq, Hch. done.
Qed.
End check.
