(* ===== verification/WalletChecksProps.v ===== *)
(** * Facts about the shared checks

    The base-layer transaction that an inter-channel debit stands for: one
    transfer of the debit's amount, alone in its batch, alone in the tree of its
    block; and what the digest of a transaction binds of its small block. *)

From S2P Require Import Prelude Limbs U63 Circuit MerkleTree LeafTrees Poseidon IndexedTree Keccak Regev BalanceState BalanceStateProps Account AccountProps Ledger Balance BalanceCodec Channel ChannelProps HashChains BlockStep BlockStepProps CloseFunding CloseFundingProps WalletChecks.

#[local] Remove Hints Leafable_Bytes32 : typeclass_instances.

Lemma wallet_u256_val {E} v x : in_width 64 v -> u64_to_u256 (E := E) v = Ok x -> val x = v.
Proof.
  intros Hv. unfold u64_to_u256, from_u32_slice. cbn [length]. rewrite bool_decide_eq_false_2 by (unfold U256_LEN; lia).
  destruct (limbs_try_into_val (E := EthereumTypeError) U256_LEN [wrap 32 v; wrap 32 (Z.shiftr v 32); 0; 0; 0; 0; 0; 0]) as (y & Hy & Hval).
  - done.
  - repeat constructor; first [apply wrap_in_width; lia|unfold in_width; lia].
  - cbn [rev app] in Hy. rewrite Hy. cbn [expect]. intros [= <-]. rewrite Hval. cbn [le_val]. rewrite (wrap_id 32 (Z.shiftr v 32)).
    + pose proof (split_low_32 v). lia.
    + unfold in_width in *. apply (shiftr_32_bounds v 0 (2 ^ 32)). lia.
Qed.

Section binding.
Context {P : Poseidon} {W : PoseidonWords P} {PR : PoseidonReadable P W} {K : Keccak}.

(** The transfer that a debit of [amount] stands for. *)
Record debit_transfer (tx : InterChannelTx) (amount : Z) (t : Transfer) : Prop := {
  dt_token : Transfer.token_index t = InterChannelTx.token_index tx;
  dt_amount : in_width 64 amount -> val (Transfer.amount t) = amount;
  dt_receiver : exists receiver, InterChannelTx.receiver_deltas tx = [receiver] /\
    if InterChannelTx.destination_channel_id tx =? BURN_CHANNEL_ID
    then Transfer.recipient t = ReceiverBalanceDelta.receiver_pk_g receiver /\ exists a, extract_address_from_recipient (Transfer.recipient t) = Ok a
    else calculate_recipient_from_user_id (E := WalletError) (InterChannelTx.destination_channel_id tx)
      (salt_hash_out (InterChannelTx.destination_base_transfer_salt tx)) = Ok (Transfer.recipient t) /\
      InterChannelTx.tx_leaf_hash tx = Ok (Transfer.aux_data t);
}.

Lemma canonical_transfer_sound tx amount t : canonical_inter_channel_base_transfer tx amount = Ok t -> debit_transfer tx amount t.
Proof.
  unfold canonical_inter_channel_base_transfer, bail_if, we. intros H. simplify_res. simplify_bool. apply Nat.eqb_eq in Hr.
  destruct (InterChannelTx.receiver_deltas tx) as [|receiver [|? ?]] eqn:Hd; try done.
  match goal with H : [receiver] !! 0%nat = Some _ |- _ => injection H as <- end.
  unfold inter_channel_base_transfer in H. simplify_res. constructor; [done|intros Hw; by apply (wallet_u256_val (E := WalletError))|]. exists receiver. split; [done|].
  destruct (InterChannelTx.destination_channel_id tx =? BURN_CHANNEL_ID); simplify_res; [|done]. cbn. split; [done|]. eauto.
Qed.

Lemma inter_channel_tx_v2_leaf_eq {E} t nonce :
  inter_channel_tx_v2_leaf (E := E) t nonce = Ok (TxV2.mk UserTransfer (subtree (list_leaves [t]) TRANSFER_TREE_HEIGHT 0) nonce phash_default).
Proof.
  pose proof (transfer_root_spec (E := E) [t]) as Ht. unfold transfer_tree_root_of in Ht. cbn [res_foldl] in Ht. unfold inter_channel_tx_v2_leaf.
  specialize (Ht ltac:(cbn; lia)). destruct (Incremental.push _ t) as [tree|e|]; cbn [mbind res_bind] in Ht |- *; [|done..]. by rewrite Ht.
Qed.

(** The transaction with that transfer alone in its batch, and the tree with that transaction alone. *)
Lemma canonical_binding_sound tx amount t tx_v2 rb : in_width 32 (InterChannelTx.source_channel_id tx) ->
  canonical_inter_channel_binding tx amount = Ok (t, tx_v2, rb) ->
  debit_transfer tx amount t /\
  tx_v2 = TxV2.mk UserTransfer (subtree (list_leaves [t]) TRANSFER_TREE_HEIGHT 0) (InterChannelTx.base_nonce tx) phash_default /\
  exists root, phash_into_bytes32 (E := WalletError) root = Ok rb /\
    root = subtree (Sparse.map_leaves {[InterChannelTx.source_channel_id tx := tx_v2]}) TX_TREE_HEIGHT 0.
Proof.
  unfold canonical_inter_channel_binding, inter_channel_tx_v2. intros Hs H. apply bind_Ok in H as (t' & Ht & H). apply bind_Ok in H as ([tx2 root] & H2 & H).
  apply bind_Ok in H as (rb' & Hrb & H). cbn [fst snd] in *. apply Ok_inj in H. injection H as <- <- <-. split; [by apply canonical_transfer_sound|].
  rewrite inter_channel_tx_v2_leaf_eq in H2. cbn [mbind res_bind] in H2. set (tx' := TxV2.mk _ _ _ _) in *.
  destruct (tx_tree_spec (E := WalletError) (InterChannelTx.source_channel_id tx) tx' Hs) as (tree & Hu & Hg & _).
  rewrite Hu in H2. cbn [mbind res_bind] in H2. rewrite Hg in H2. apply Ok_inj in H2. injection H2 as <- <-. split; [done|]. eexists. split; [exact Hrb|reflexivity].
Qed.

Lemma verify_canonical_binding_sound tx amount tx_v2 rb : verify_canonical_inter_channel_binding tx amount = Ok (tx_v2, rb) ->
  exists t, canonical_inter_channel_binding tx amount = Ok (t, tx_v2, rb) /\
    phash_into_bytes32 (E := WalletError) (Transfer.poseidon_hash t) = Ok (InterChannelTx.intmax_transfer_commitment tx) /\
    SmallBlockRootMessage.tx_tree_root (InterChannelTx.message tx) = rb.
Proof.
  unfold verify_canonical_inter_channel_binding, bail_if. intros H. apply bind_Ok in H as ([] & _ & H). apply bind_Ok in H as ([[t tx2] rb2] & Hb & H).
  simplify_res. simplify_bool. injection H as <- <-. apply dec_stable in Hr0, Hr1. exists t. by rewrite Hr0.
Qed.

(** ** Digests of transactions *)

(** The words that the digest of a transaction hashes, from the digests of its ciphertexts. *)
Definition tx_words (t : InterChannelTx) (sender_delta : Bytes32) (deltas : list (list Z)) : list Z :=
  [INTER_CHANNEL_TX_DOMAIN_V5]
    ++ to_u32_vec (SmallBlockRootMessage.signing_digest (InterChannelTx.message t))
    ++ to_u32_vec sender_delta
    ++ ChannelId.to_u32_vec (InterChannelTx.source_channel_id t) ++ ChannelId.to_u32_vec (InterChannelTx.destination_channel_id t)
    ++ [InterChannelTx.token_index t] ++ [InterChannelTx.base_nonce t]
    ++ (PoseidonHashOut.to_u64_vec (InterChannelTx.destination_base_transfer_salt t) ≫= split_u64)
    ++ to_u32_vec (InterChannelTx.source_pk_g t) ++ to_u32_vec (InterChannelTx.seal t) ++ to_u32_vec (InterChannelTx.tx_hash t)
    ++ to_u32_vec (InterChannelTx.intmax_transfer_commitment t)
    ++ [len_word (InterChannelTx.recipient_memo t)] ++ bytes_to_u32_words (InterChannelTx.recipient_memo t)
    ++ [len_word (InterChannelTx.receiver_deltas t)] ++ concat deltas
    ++ ChannelProofEnvelope.to_digest_words (InterChannelTx.channel_update_zkp t)
    ++ [len_word (InterChannelTx.transport_proof t)] ++ bytes_to_u32_words (InterChannelTx.transport_proof t).

(** Two transactions with one digest whose small blocks differ exhibit a Keccak collision. *)
Definition small_block_collision (t t' : InterChannelTx) : Prop :=
  keccak_collision (SmallBlockRootMessage.signing_words (InterChannelTx.message t)) (SmallBlockRootMessage.signing_words (InterChannelTx.message t')) \/
  exists d ds d' ds', Ct.digest (E := WalletError) (InterChannelTx.sender_delta_ct t) = Ok d /\
    Ct.digest (E := WalletError) (InterChannelTx.sender_delta_ct t') = Ok d' /\
    res_mapM (E := WalletError) ReceiverBalanceDelta.digest_words (InterChannelTx.receiver_deltas t) = Ok ds /\
    res_mapM (E := WalletError) ReceiverBalanceDelta.digest_words (InterChannelTx.receiver_deltas t') = Ok ds' /\
    keccak_collision (tx_words t d ds) (tx_words t' d' ds').

Lemma message_root_inj m m' : SmallBlockRootMessage.signing_words m = SmallBlockRootMessage.signing_words m' ->
  SmallBlockRootMessage.tx_tree_root m = SmallBlockRootMessage.tx_tree_root m' /\ SmallBlockRootMessage.channel_id m = SmallBlockRootMessage.channel_id m'.
Proof.
  unfold SmallBlockRootMessage.signing_words, split_u64, ChannelId.to_u32_vec. intros H. cbn [app] in H. injection H as Hc _ H.
  split; [|done]. apply limbs_app_inj in H as [_ H]. cbn [app] in H. injection H as _ _ H. apply limbs_app_inj in H as [_ H]. by apply limbs_app_inj in H as [H _].
Qed.

(** What one digest fixes of the two transactions. *)
Record same_send (t t' : InterChannelTx) : Prop := {
  ss_root : SmallBlockRootMessage.tx_tree_root (InterChannelTx.message t) = SmallBlockRootMessage.tx_tree_root (InterChannelTx.message t');
  ss_source : InterChannelTx.source_channel_id t = InterChannelTx.source_channel_id t';
  ss_nonce : InterChannelTx.base_nonce t = InterChannelTx.base_nonce t';
}.

Lemma tx_digest_send t t' d : InterChannelTx.signing_digest (E := WalletError) t = Ok d -> InterChannelTx.signing_digest (E := WalletError) t' = Ok d ->
  same_send t t' \/ small_block_collision t t'.
Proof.
  unfold InterChannelTx.signing_digest. intros (sd & Hsd & H)%bind_Ok (sd' & Hsd' & H')%bind_Ok. apply bind_Ok in H as (ds & Hds & H), H' as (ds' & Hds' & H').
  apply Ok_inj in H, H'. subst d. change (hash_words (tx_words t' sd' ds') = hash_words (tx_words t sd ds)) in H'. symmetry in H'. apply hash_words_inj_or in H' as [H|[Hne H]].
  - unfold tx_words, ChannelId.to_u32_vec in H. split_preimage H. match goal with Hd : SmallBlockRootMessage.signing_digest _ = _ |- _ => apply hash_words_inj_or in Hd as [Hm|[Hne Hm]] end.
    + left. apply message_root_inj in Hm as [Hm _]. by constructor.
    + right. left. by split.
  - right. right. by exists sd, ds, sd', ds'.
Qed.

(** What matching a descriptor with a debit establishes. *)
Lemma descriptor_matches_sound debit d : verify_inter_channel_descriptor_matches_debit debit d = Ok tt ->
  InterChannelTransferDescriptor.source_channel_id d = InterChannelTx.source_channel_id (InterChannelDebitPayload.inter_channel_tx debit) /\
  (exists dg, InterChannelTx.signing_digest (E := WalletError) (InterChannelTransferDescriptor.inter_channel_tx d) = Ok dg /\
    InterChannelTx.signing_digest (E := WalletError) (InterChannelDebitPayload.inter_channel_tx debit) = Ok dg) /\
  verify_canonical_inter_channel_binding (InterChannelDebitPayload.inter_channel_tx debit) (InterChannelDebitPayload.amount debit) =
    Ok (InterChannelTransferDescriptor.tx_v2 d, InterChannelTransferDescriptor.tx_tree_root d).
Proof.
  unfold verify_inter_channel_descriptor_matches_debit, bail_if. intros H. do 2 apply bind_Ok in H as ([] & _ & H).
  apply bind_Ok in H as (dd & Hdd & H). apply bind_Ok in H as (td & Htd & H). apply bind_Ok in H as ([] & Hdt & H). apply bind_Ok in H as (rc & _ & H).
  apply bind_Ok in H as ([] & Hids & H). apply bind_Ok in H as ([tx rb] & Hc & H). simplify_res. simplify_bool. cbn [fst snd] in *.
  repeat match goal with H : ~ (_ <> _) |- _ => apply dec_stable in H end. subst. split; [done|]. split; [by exists td|]. congruence.
Qed.
End binding.
