(* ===== verification/ProducerProps.v ===== *)
(** * Facts about the block producer

    Every operation either succeeds or leaves the producer as it was; what a
    successful operation checked and changed; and the order [later] in which
    every run of verified operations moves: records only gain delegates, heads
    only extend, nonces and accepted transactions only grow, and a funded
    channel stands still. *)

From S2P Require Import Prelude Limbs U63 Circuit MerkleTree LeafTrees Poseidon IndexedTree Keccak Regev BalanceState Account Ledger Balance Channel HashChains BlockStep CloseFunding WalletChecks Producer.
Import ProductionBlockProducer.

#[local] Remove Hints Leafable_Bytes32 : typeclass_instances.

(** ** Inversion of methods *)

Section methods.
Context {S E : Type}.

Lemma meth_bind_inv {A B} (m : meth S E A) (f : A -> meth S E B) s s' b :
  (m ≫= f) s = (s', Ok b) -> exists a s1, m s = (s1, Ok a) /\ f a s1 = (s', Ok b).
Proof. unfold mbind, meth_bind. destruct (m s) as [s1 [a| |]]; [eauto|done..]. Qed.

Lemma pure_inv {A} (m : res E A) (s s' : S) a : pure m s = (s', Ok a) -> s' = s /\ m = Ok a.
Proof. by intros [= -> ->]. Qed.

Lemma self_inv (s s' : S) (a : S) : self (E := E) s = (s', Ok a) -> s' = s /\ a = s.
Proof. by intros [= -> ->]. Qed.

Lemma modify_inv (f : S -> S) s s' u : modify (E := E) f s = (s', Ok u) -> s' = f s.
Proof. by intros [= ->]. Qed.

Lemma mret_inv {A} (a b : A) (s s' : S) : (mret a : meth S E A) s = (s', Ok b) -> s' = s /\ a = b.
Proof. by intros [= -> ->]. Qed.

(** A method that changes its receiver only when it succeeds. *)
Definition atomic {A} (m : meth S E A) : Prop := forall s s' r, m s = (s', r) -> (exists a, r = Ok a) \/ s' = s.

Lemma atomic_pure {A} (m : res E A) : atomic (pure m).
Proof. intros s s' r [= -> ->]. by right. Qed.

Lemma atomic_mret {A} (a : A) : atomic (mret a).
Proof. intros s s' r [= -> <-]. by right. Qed.

Lemma atomic_modify (f : S -> S) : atomic (modify f).
Proof. intros s s' r [= <- <-]. eauto. Qed.

Lemma atomic_self_bind {A} (f : S -> meth S E A) : (forall s, atomic (f s)) -> atomic (self ≫= f).
Proof. intros H s s' r. rewrite self_bind. apply H. Qed.

Lemma atomic_pure_bind {A B} (m : res E A) (f : A -> meth S E B) : (forall a, m = Ok a -> atomic (f a)) -> atomic (pure m ≫= f).
Proof. intros H s s' r. rewrite pure_bind. destruct m; [by apply H|intros [= -> <-]; by right..]. Qed.

Lemma atomic_quiet_bind {A B} (m : meth S E A) (f : A -> meth S E B) : (forall s, fst (m s) = s) -> (forall a, atomic (f a)) -> atomic (m ≫= f).
Proof.
  intros Hq H s s' r. specialize (Hq s). unfold mbind, meth_bind. destruct (m s) as [s1 [a|e|]]; cbn in Hq; subst s1; [apply H|intros [= <- _]; by right..].
Qed.

Lemma atomic_bind_ret {A B} (m : meth S E A) (f : A -> B) : atomic m -> atomic (m ≫= fun a => mret (f a)).
Proof.
  intros H s s' r. unfold mbind, meth_bind. destruct (m s) as [s1 [a|e|]] eqn:Hm; intros [= <- <-]; [eauto|right..]; destruct (H _ _ _ Hm) as [[? ?]|?]; done.
Qed.
End methods.

(** [meth_inv] opens every successful method in the context. *)
Ltac meth_inv :=
  repeat match goal with
  | H : (_ ≫= _) _ = (_, Ok _) |- _ => apply meth_bind_inv in H as (? & ? & ? & H)
  | H : pure _ _ = (_, Ok _) |- _ => apply pure_inv in H as [-> H]
  | H : self _ = (_, Ok _) |- _ => apply self_inv in H as [-> ->]
  | H : modify _ _ = (_, Ok _) |- _ => apply modify_inv in H as ->
  | H : mret _ _ = (_, Ok _) |- _ => apply mret_inv in H as [-> H]; try match type of H with _ = ?b => is_var b; subst b end
  | H : unit |- _ => destruct H
  end.

(** ** Signatures and fences *)

Definition cosigners (r : ChannelRecord) : list Bytes32 := take (Z.to_nat (ChannelRecord.member_count r)) (ChannelRecord.member_pk_gs r).

Section signed.
Context {P : Poseidon} {K : Keccak} {CV : CosignVerifier}.

(** The state carries, for every key of the list, a valid signature over its own digest. *)
Definition signed_by (keys : list Bytes32) (s : ChannelState) : Prop :=
  ChannelState.signing_digest (E := WalletError) s = Ok (ChannelState.digest s) /\
  forall slot key, keys !! slot = Some key -> exists sig, sig ∈ ChannelState.member_signatures s /\
    Z.to_nat (MemberSignature.member_slot sig) = slot /\ MemberSignature.pk_g sig = key /\
    verify_cosign_blob key (ChannelState.digest s) (MemberSignature.signature sig) = true.

Lemma verify_all_signatures_sound r s : verify_all_signatures r s = Ok tt ->
  signed_by (cosigners r) s /\ length (cosigners r) = Z.to_nat (ChannelRecord.member_count r).
Proof.
  unfold verify_all_signatures, bail_if. intros H. simplify_res. simplify_bool. apply res_forall_Ok in H.
  assert (forall slot, (slot < Z.to_nat (ChannelRecord.member_count r))%nat -> verify_slot_signature r s r0 slot = Ok tt) as Hs.
  { intros slot Hlt. rewrite list.Forall_forall in H. apply H. apply elem_of_seq. lia. }
  clear H. assert (ChannelState.digest s = r0) as <- by (apply dec_stable; done). split.
  - split; [done|]. intros slot key [Hk Hlt]%lookup_take_Some. specialize (Hs slot Hlt). unfold verify_slot_signature, verify_state_sig, bail_if in Hs.
    simplify_res. simplify_bool. match goal with H : List.find _ _ = Some ?g |- _ => apply List.find_some in H as [Hin Heq]; exists g end.
    apply Nat.eqb_eq in Heq. apply list_elem_of_In in Hin. split_and!; [done|done| |]; [|by simplify_eq]. simplify_eq. by apply dec_stable.
  - unfold cosigners. rewrite length_take. destruct (le_lt_dec (Z.to_nat (ChannelRecord.member_count r)) (length (ChannelRecord.member_pk_gs r))); [lia|].
    exfalso. specialize (Hs _ l). unfold verify_slot_signature in Hs. simplify_res. apply lookup_lt_Some in Hr1. lia.
Qed.

(** A later state of the same channel and close era. *)
Record extends (prev s : ChannelState) : Prop := {
  ex_prev : ChannelState.prev_digest s = ChannelState.digest prev;
  ex_epoch : ChannelState.epoch s = ChannelState.epoch prev + 1;
  ex_version : BalanceState.state_version (ChannelState.balance_state s) = BalanceState.state_version (ChannelState.balance_state prev) + 1;
  ex_small : ChannelState.small_block_number prev <= ChannelState.small_block_number s <= ChannelState.small_block_number prev + 1;
  ex_posted : ChannelState.h2_tag s <> bytes32_default -> ChannelState.small_block_number s = ChannelState.small_block_number prev + 1;
  ex_era : ChannelState.close_freeze_nonce s = ChannelState.close_freeze_nonce prev;
}.

(** A state of channel [c] that the keys signed. *)
Record head_of (keys : list Bytes32) (c : ChannelId) (s : ChannelState) : Prop := {
  ho_signed : signed_by keys s;
  ho_channel : ChannelState.channel_id s = c;
  ho_fund : ChannelFund.channel_id (ChannelState.channel_fund s) = c;
  ho_balance : BalanceState.channel_id (ChannelState.balance_state s) = c;
}.

Definition link (keys : list Bytes32) (c : ChannelId) (prev s : ChannelState) : Prop := extends prev s /\ head_of keys c s.

Lemma link_head keys c prev s : head_of keys c prev -> rtc (link keys c) prev s -> head_of keys c s.
Proof. intros Hp. induction 1 as [|x y z [_ Hy] _ IH]; [done|]. by apply IH. Qed.

Lemma chain_epoch keys c prev s : rtc (link keys c) prev s -> ChannelState.epoch prev <= ChannelState.epoch s.
Proof. induction 1 as [|x y z [He _] _ IH]; [lia|]. pose proof (ex_epoch _ _ He). lia. Qed.

Lemma chain_same_epoch keys c prev s : rtc (link keys c) prev s -> ChannelState.epoch s = ChannelState.epoch prev -> s = prev.
Proof. destruct 1 as [|x y z [He _] Hc]; [done|]. apply chain_epoch in Hc. pose proof (ex_epoch _ _ He). lia. Qed.
End signed.

Lemma next_Ok w v n : next w v = Ok n -> n = v + 1 /\ v + 1 < 2 ^ w.
Proof. unfold next. intros H. simplify_res. by apply checked_add_Some in H. Qed.

Section accepted.
Context {P : Poseidon} {W : PoseidonWords P} {K : Keccak} {CV : CosignVerifier} {G : BlockWitnessGenerator}.

#[local] Notation meth := (meth ProductionBlockProducer ProductionBlockProducerError).

Lemma atomic_on_candidate {A} (m : meth A) : atomic (on_candidate m).
Proof. intros p p' r. unfold on_candidate. destruct (m p) as [p1 [a|e|]]; intros [= <- <-]; eauto. Qed.

Lemma on_candidate_inv {A} (m : meth A) p p' a : on_candidate m p = (p', Ok a) -> m p = (p', Ok a).
Proof. unfold on_candidate. destruct (m p) as [p1 [b| |]]; by intros [= -> ->]. Qed.

Lemma on_witness_inv f (p p' : ProductionBlockProducer) u : on_witness f p = (p', Ok u) -> exists g, f (witness p) = Ok g /\ p' = with_witness p g.
Proof. unfold on_witness. destruct (f (witness p)) as [g| |] eqn:Hf; intros [= <-]. eauto. Qed.

Ltac producer_inv :=
  repeat first [progress meth_inv | match goal with
  | H : on_candidate _ _ = (_, Ok _) |- _ => apply on_candidate_inv in H
  | H : on_witness _ _ = (_, Ok _) |- _ => apply on_witness_inv in H as (? & ? & ->)
  end].

Ltac atomic_tac :=
  repeat match goal with
  | |- atomic (self ≫= _) => apply atomic_self_bind; intros ?
  | |- atomic (pure _ ≫= _) => apply atomic_pure_bind; intros ? ?
  | |- atomic (if bool_decide _ then _ else _) => case_bool_decide
  | |- atomic (on_candidate _) => apply atomic_on_candidate
  | |- atomic (mret _) => apply atomic_mret
  | |- atomic (modify _) => apply atomic_modify
  end.

(** What a block of a channel was checked for, and the producer it leaves. *)
Record block_accepted (mode : CosignMode) (s : ChannelState) (key_ids : list Z) (timestamp : Z) (root : Bytes32) (w : BlockTxV2Witness)
    (p p' : ProductionBlockProducer) : Prop := {
  ba_no_update : carries_member_set_update w = false;
  ba_live : ChannelState.channel_id s ∉ terminal_close_funding p;
  ba_record : exists r, channel_records p !! ChannelState.channel_id s = Some r /\ check_cosigned mode r s = Ok tt;
  ba_root : root <> bytes32_default /\ ChannelState.h2_tag s = root;
  ba_fund : ChannelFund.channel_id (ChannelState.channel_fund s) = ChannelState.channel_id s;
  ba_balance : BalanceState.channel_id (ChannelState.balance_state s) = ChannelState.channel_id s;
  ba_time : last_timestamp p < timestamp;
  ba_extends : forall prev, channel_heads p !! ChannelState.channel_id s = Some prev -> extends prev s;
  ba_block : exists g, add_block_with_tx_v2 (wrap 32 (ChannelState.channel_id s)) key_ids timestamp root (Some w)
      (stage_cosign (bool_decide (mode = UnsignedStaging)) s (match mode with Verified => ChannelState.member_signatures s | UnsignedStaging => [] end) (witness p)) = Ok g /\
    p' = with_head (ChannelState.channel_id s) s (with_witness p g);
}.

Lemma check_block_fence_Ok prev s : check_block_fence prev s = Ok tt -> extends prev s.
Proof.
  unfold check_block_fence, auth_if. intros H. simplify_res. simplify_bool.
  repeat match goal with H : next _ _ = Ok _ |- _ => apply next_Ok in H as [-> _] end. constructor; try done; [by apply dec_stable|lia].
Qed.

Lemma produce_cosigned_block_with_Ok s key_ids timestamp root w mode p p' u :
  produce_cosigned_block_with s key_ids timestamp root w mode p = (p', Ok u) -> block_accepted mode s key_ids timestamp root w p p'.
Proof.
  unfold produce_cosigned_block_with. intros H. producer_inv. unfold auth_if in *. simplify_res. simplify_bool. constructor; eauto.
  - split; [done|by apply dec_stable].
  - intros prev Hp. rewrite Hp in *. by apply check_block_fence_Ok.
Qed.

Lemma produce_cosigned_block_atomic s key_ids timestamp root w mode : atomic (produce_cosigned_block_with s key_ids timestamp root w mode).
Proof. unfold produce_cosigned_block_with. atomic_tac. Qed.

Lemma produce_inter_channel_block_Ok s tx key_ids timestamp w p p' tx' :
  produce_inter_channel_block s tx key_ids timestamp w p = (p', Ok tx') -> exists r,
    channel_records p !! InterChannelTx.source_channel_id tx = Some r /\ attach_small_block_signatures r s tx = Ok tx' /\
    block_accepted Verified s key_ids timestamp (SmallBlockRootMessage.tx_tree_root (InterChannelTx.message tx')) w p p'.
Proof.
  unfold produce_inter_channel_block, source_record, authorized. intros H. producer_inv. simplify_res. eexists. split; [done|]. split; [done|].
  by eapply produce_cosigned_block_with_Ok.
Qed.

Lemma produce_inter_channel_block_atomic s tx key_ids timestamp w : atomic (produce_inter_channel_block s tx key_ids timestamp w).
Proof.
  unfold produce_inter_channel_block. apply atomic_quiet_bind; [done|intros record]. apply atomic_pure_bind. intros a _.
  apply atomic_bind_ret, produce_cosigned_block_atomic.
Qed.

(** What the block of a descriptor was checked for. *)
Record descriptor_accepted (s : ChannelState) (debit : InterChannelDebitPayload) (d : InterChannelTransferDescriptor) (timestamp : Z)
    (p p' : ProductionBlockProducer) (tx' : InterChannelTx.InterChannelTx) : Prop := {
  da_live : InterChannelTransferDescriptor.source_channel_id d ∉ terminal_close_funding p;
  da_debit : verify_inter_channel_descriptor_matches_debit debit d = Ok tt;
  da_state : ChannelState.digest (InterChannelDebitPayload.proposed_next_state debit) = ChannelState.digest s;
  da_record : exists r, channel_records p !! InterChannelTransferDescriptor.source_channel_id d = Some r /\
    ChannelRecord.signing_digest (InterChannelDebitPayload.record debit) = ChannelRecord.signing_digest r;
  da_opened : exists root, proof_get_root (InterChannelTransferDescriptor.tx_v2_merkle_proof d) (InterChannelTransferDescriptor.tx_v2 d)
      (InterChannelTransferDescriptor.source_channel_id d) = Ok (E := ProductionBlockProducerError) root /\
    phash_into_bytes32 (E := ProductionBlockProducerError) root = Ok (InterChannelTransferDescriptor.tx_tree_root d);
  da_fresh : InterChannelTransferDescriptor.tx_hash d ∉ accepted_inter_channel_txs p;
  da_nonce : expected_nonce p (InterChannelTransferDescriptor.source_channel_id d) = Ok (InterChannelTx.base_nonce (InterChannelTransferDescriptor.inter_channel_tx d));
  da_block : exists r n p1, channel_records p !! InterChannelTx.source_channel_id (InterChannelTransferDescriptor.inter_channel_tx d) = Some r /\
    attach_small_block_signatures r s (InterChannelTransferDescriptor.inter_channel_tx d) = Ok tx' /\
    get_num_users 1 (supported_user_counts (witness p)) = Some n /\ 0 < n /\
    block_accepted Verified s [1] timestamp (SmallBlockRootMessage.tx_tree_root (InterChannelTx.message tx'))
      (single_tx_witness (Z.to_nat n) (InterChannelTransferDescriptor.source_channel_id d) (InterChannelTransferDescriptor.tx_v2 d)
        (InterChannelTransferDescriptor.tx_v2_merkle_proof d)) p p1 /\
    p' = with_nonce (InterChannelTransferDescriptor.source_channel_id d) (InterChannelTx.base_nonce (InterChannelTransferDescriptor.inter_channel_tx d))
      (with_accepted_tx (InterChannelTransferDescriptor.tx_hash d) p1);
}.

Lemma produce_inter_channel_descriptor_block_Ok s debit d timestamp p p' tx' :
  produce_inter_channel_descriptor_block s debit d timestamp p = (p', Ok tx') -> descriptor_accepted s debit d timestamp p p' tx'.
Proof.
  unfold produce_inter_channel_descriptor_block, produce_inter_channel_descriptor_block_with. intros H. producer_inv. unfold auth_if, authorized in *.
  simplify_res. simplify_bool. match goal with H : produce_inter_channel_block _ _ _ _ _ _ = _ |- _ => apply produce_inter_channel_block_Ok in H as (r' & Hr' & Ha & Hb) end.
  constructor; eauto.
  - by apply dec_stable.
  - eexists. split; [done|]. by apply dec_stable.
  - eexists. split; [done|]. match goal with H : phash_into_bytes32 _ = Ok _ |- _ => rewrite H end. f_equal. by apply dec_stable.
  - by match goal with H : expected_nonce _ _ = Ok _ |- _ => rewrite H; f_equal end.
  - exists r'. do 2 eexists. split_and!; eauto.
Qed.

Lemma produce_inter_channel_descriptor_block_atomic s debit d timestamp : atomic (produce_inter_channel_descriptor_block s debit d timestamp).
Proof. unfold produce_inter_channel_descriptor_block, produce_inter_channel_descriptor_block_with. atomic_tac. Qed.

(** What a close-funding block was checked for. *)
Record funding_accepted (s : ChannelState) (plan : CloseFundingPlan) (timestamp : Z) (p p' : ProductionBlockProducer) : Prop := {
  fa_live : CloseFundingPlan.source_channel_id plan ∉ terminal_close_funding p;
  fa_head : exists prev, channel_heads p !! CloseFundingPlan.source_channel_id plan = Some prev /\ verify_close_funding_proposal prev s plan = Ok tt;
  fa_nonce : expected_nonce p (CloseFundingPlan.source_channel_id plan) = Ok (CloseFundingPlan.base_nonce plan);
  fa_block : exists n p1, get_num_users 1 (supported_user_counts (witness p)) = Some n /\ 0 < n /\
    block_accepted Verified s [1] timestamp (CloseFundingPlan.tx_tree_root plan)
      (single_tx_witness (Z.to_nat n) (CloseFundingPlan.source_channel_id plan) (CloseFundingPlan.tx_v2 plan) (CloseFundingPlan.tx_v2_merkle_proof plan)) p p1 /\
    p' = with_terminal (CloseFundingPlan.source_channel_id plan) (with_nonce (CloseFundingPlan.source_channel_id plan) (CloseFundingPlan.base_nonce plan) p1);
}.

Lemma produce_close_funding_block_Ok s plan timestamp p p' u :
  produce_close_funding_block s plan timestamp p = (p', Ok u) -> funding_accepted s plan timestamp p p'.
Proof.
  unfold produce_close_funding_block, produce_cosigned_block. intros H. producer_inv. unfold auth_if, authorized in *. simplify_res. simplify_bool.
  match goal with H : produce_cosigned_block_with _ _ _ _ _ _ _ = _ |- _ => apply produce_cosigned_block_with_Ok in H end.
  constructor; eauto.
  - by match goal with H : expected_nonce _ _ = Ok _ |- _ => rewrite H; f_equal end.
  - do 2 eexists. eauto.
Qed.

Lemma produce_close_funding_block_atomic s plan timestamp : atomic (produce_close_funding_block s plan timestamp).
Proof. unfold produce_close_funding_block. atomic_tac. Qed.

Lemma sync_step_Ok c r prev s s' : sync_step c r prev s = Ok s' -> s' = s /\ link (cosigners r) c prev s.
Proof.
  unfold sync_step, auth_if, authorized. intros H. simplify_res. simplify_bool.
  repeat match goal with H : next _ _ = Ok _ |- _ => apply next_Ok in H as [-> _] end.
  match goal with H : verify_all_signatures _ _ = Ok _ |- _ => apply verify_all_signatures_sound in H as [Hs _] end.
  split; [done|]. split; constructor; try done; by apply dec_stable.
Qed.

Lemma sync_loop_Ok c r prev ss s' : res_foldl (sync_step c r) prev ss = Ok s' -> rtc (link (cosigners r) c) prev s'.
Proof.
  revert prev. induction ss as [|s ss IH]; intros prev H; cbn [res_foldl] in H; simplify_res; [done|].
  apply sync_step_Ok in Hr as [-> Hl]. eapply rtc_l; [exact Hl|by apply IH].
Qed.

Record sync_accepted (c : ChannelId) (p p' : ProductionBlockProducer) : Prop := {
  sa_live : c ∉ terminal_close_funding p;
  sa_chain : exists r prev s, channel_records p !! c = Some r /\ channel_heads p !! c = Some prev /\ rtc (link (cosigners r) c) prev s /\ p' = with_head c s p;
}.

Lemma sync_offchain_heads_Ok ss p p' c : sync_offchain_heads ss p = (p', Ok c) -> ChannelState.channel_id <$> head ss = Some c /\ sync_accepted c p p'.
Proof.
  unfold sync_offchain_heads. intros H. producer_inv. unfold auth_if, invalid_if in *. simplify_res. simplify_bool. split.
  { by match goal with H : head ss = Some _ |- _ => rewrite H end. }
  constructor; [done|]. do 3 eexists. split; [done|]. split; [done|]. split; [by eapply sync_loop_Ok|done].
Qed.

Lemma sync_offchain_heads_atomic ss : atomic (sync_offchain_heads ss).
Proof. unfold sync_offchain_heads. atomic_tac. Qed.

(** ** Records *)

(** A record of a channel whose co-signers are at least two distinct nonzero keys. *)
Record good_record (c : ChannelId) (r : ChannelRecord) : Prop := {
  gr_channel : ChannelRecord.channel_id r = c;
  gr_count : length (cosigners r) = Z.to_nat (ChannelRecord.member_count r) /\ (2 <= length (cosigners r) <= MAX_SIG_CLUSTER)%nat;
  gr_distinct : NoDup (cosigners r);
  gr_nonzero : bytes32_default ∉ cosigners r;
}.

(** [new] is [old] with delegates appended, as far as it is checked. *)
Record appended (old new : ChannelRecord) : Prop := {
  ap_channel : ChannelRecord.channel_id new = ChannelRecord.channel_id old;
  ap_members : ChannelRecord.member_count new = ChannelRecord.member_count old;
  ap_version : ChannelRecord.set_version new = ChannelRecord.set_version old;
  ap_status : ChannelRecord.status new = ChannelRecord.status old;
  ap_bp : ChannelRecord.bp_member_slot new = ChannelRecord.bp_member_slot old;
  ap_grows : ChannelRecord.delegate_count old <= ChannelRecord.delegate_count new;
  ap_slots : forall slot, (slot < Z.to_nat (ChannelRecord.member_count old) + Z.to_nat (ChannelRecord.delegate_count old))%nat ->
    ChannelRecord.member_pk_gs new !! slot = ChannelRecord.member_pk_gs old !! slot;
}.

#[export] Instance appended_preorder : PreOrder appended.
Proof.
  split; [intros r; by constructor|]. intros a b c [] []. constructor; try (by etransitivity). intros slot Hs. rewrite <- ap_slots0 by done. apply ap_slots1. lia.
Qed.

Lemma appended_cosigners old new : appended old new -> cosigners new = cosigners old.
Proof.
  intros H. unfold cosigners. rewrite (ap_members _ _ H). apply list_eq. intros i.
  destruct (decide (i < Z.to_nat (ChannelRecord.member_count old))%nat) as [Hi|Hi].
  - rewrite !lookup_take_lt by done. apply (ap_slots _ _ H). lia.
  - by rewrite !lookup_take_ge by lia.
Qed.

Lemma appended_good c old new : appended old new -> good_record c old -> good_record c new.
Proof.
  intros Ha [Hc Hn Hd Hz]. pose proof (appended_cosigners _ _ Ha) as He. constructor; rewrite ?He, ?(ap_members _ _ Ha); try done. by rewrite (ap_channel _ _ Ha).
Qed.

Lemma verify_delegates_appended_sound old new : verify_delegates_appended old new = Ok tt ->
  appended old new /\ ChannelRecord.delegate_count old < ChannelRecord.delegate_count new.
Proof.
  unfold verify_delegates_appended, auth_if. intros H. simplify_res. simplify_bool. split; [|done]. apply res_forall_Ok in H. rewrite list.Forall_forall in H.
  constructor; try done; try lia; try by apply dec_stable. intros slot Hs.
  match goal with H : (MAX_CHANNEL_MEMBERS <? _)%nat = false |- _ => apply Nat.ltb_ge in H as Hb end.
  assert (slot ∈ seq 0 MAX_CHANNEL_MEMBERS) as Hin by (apply elem_of_seq; lia). specialize (H slot Hin). unfold check_joined_slot, auth_if in H. simplify_res.
  rewrite (proj2 (Nat.ltb_lt _ _) Hs) in H. simplify_res. simplify_bool. apply dec_stable in H. congruence.
Qed.

(** ** Registrations *)

Lemma imap_pair_in {A} (xs : list A) i x : xs !! i = Some x -> (i, x) ∈ imap pair xs.
Proof. intros H. apply (elem_of_lookup_imap_2 pair _ _ i H). Qed.

Lemma check_slots_distinct r active : res_forall (fun '(i, hash) => ChannelRecord.check_slot active (ChannelRecord.member_pk_gs r) i hash) (imap pair (ChannelRecord.member_pk_gs r)) = Ok tt ->
  forall i x, ChannelRecord.member_pk_gs r !! i = Some x -> (i < active)%nat ->
  x <> bytes32_default /\ forall j y, ChannelRecord.member_pk_gs r !! j = Some y -> (i < j < active)%nat -> x <> y.
Proof.
  intros H i x Hi Hlt. apply res_forall_Ok in H. rewrite list.Forall_forall in H. specialize (H _ (imap_pair_in _ _ _ Hi)). cbv beta iota in H. unfold ChannelRecord.check_slot in H.
  rewrite (proj2 (Nat.ltb_lt _ _) Hlt) in H. case_decide; [done|]. split; [done|]. intros j y Hj [Hij Hja] ->. unfold ChannelRecord.check_distinct in H.
  apply res_forall_Ok in H. rewrite list.Forall_forall in H. specialize (H _ (imap_pair_in _ _ _ Hj)). cbv beta iota in H.
  by rewrite (proj2 (Nat.ltb_lt _ _) Hij), (proj2 (Nat.ltb_lt _ _) Hja), bool_decide_eq_true_2 in H.
Qed.

Lemma validate_record_good r c : ChannelRecord.validate r = Ok tt -> ChannelRecord.channel_id r = c ->
  length (cosigners r) = Z.to_nat (ChannelRecord.member_count r) -> good_record c r.
Proof.
  unfold ChannelRecord.validate. intros H Hc Hl. repeat case_decide; try done. repeat (case_match; try done). simplify_bool.
  repeat match goal with H : (_ <? _)%nat = false |- _ => apply Nat.ltb_ge in H end. pose proof (check_slots_distinct _ _ H) as Hs.
  constructor; [done|lia| |].
  - apply NoDup_alt. intros i j x [Hi Hil]%lookup_take_Some [Hj Hjl]%lookup_take_Some. destruct (lt_eq_lt_dec i j) as [[Hij|?]|Hij]; [|done|]; exfalso.
    + destruct (Hs i x Hi ltac:(lia)) as [_ Hd]. by apply (Hd j x Hj ltac:(lia)).
    + destruct (Hs j x Hj ltac:(lia)) as [_ Hd]. by apply (Hd i x Hi ltac:(lia)).
  - intros (i & [Hi Hil]%lookup_take_Some)%list_elem_of_lookup. by destruct (Hs i _ Hi ltac:(lia)).
Qed.

Lemma registration_good reg : ProductionChannelRegistration.validate reg = Ok tt ->
  good_record (ChannelRecord.channel_id (ProductionChannelRegistration.channel_record reg)) (ProductionChannelRegistration.channel_record reg).
Proof.
  unfold ProductionChannelRegistration.validate, invalid_if, registration_ok. intros H. simplify_res. apply validate_record_good; [done|done|].
  unfold cosigners. set (r := ProductionChannelRegistration.channel_record reg) in *. rewrite length_take. destruct (le_lt_dec (Z.to_nat (ChannelRecord.member_count r)) (length (ChannelRecord.member_pk_gs r))) as [?|Hlt]; [lia|].
  exfalso. apply res_forall_Ok in H. rewrite list.Forall_forall in H. assert (length (ChannelRecord.member_pk_gs r) ∈ seq 0 (Z.to_nat (ChannelRecord.member_count r))) as Hin by (apply elem_of_seq; lia).
  specialize (H _ Hin). unfold ProductionChannelRegistration.check_slot in H. simplify_res. match goal with H : ChannelRecord.member_pk_gs _ !! _ = Some _ |- _ => apply lookup_lt_Some in H end.
  unfold r in *. lia.
Qed.

Record registered (c : ChannelId) (r : ChannelRecord) (p p' : ProductionBlockProducer) : Prop := {
  rg_new : channel_records p !! c = None;
  rg_good : good_record c r;
  rg_after : exists g, p' = with_record c r (with_witness p g) /\ holds_local_signing_keys g c = false;
}.

Lemma register_channel_Ok reg timestamp p p' c : register_channel reg timestamp p = (p', Ok c) -> registered c (ProductionChannelRegistration.channel_record reg) p p'.
Proof.
  unfold register_channel. intros H. producer_inv. unfold invalid_if in *. simplify_res. simplify_bool. constructor.
  - by apply eq_None_not_Some.
  - by apply registration_good.
  - eexists. split; [reflexivity|done].
Qed.

Lemma register_channel_atomic reg timestamp : atomic (register_channel reg timestamp).
Proof. unfold register_channel. atomic_tac. Qed.

Lemma verify_snapshot_head snapshot : verify_snapshot snapshot = Ok tt ->
  head_of (cosigners (ChannelSnapshot.record snapshot)) (ChannelRecord.channel_id (ChannelSnapshot.record snapshot)) (ChannelSnapshot.state snapshot).
Proof.
  unfold verify_snapshot, verify_snapshot_structure, bail_if. intros H. simplify_res. simplify_bool. apply verify_all_signatures_sound in H as [Hs _]. by constructor.
Qed.

Lemma register_snapshot_Ok snapshot timestamp p p' c : register_snapshot snapshot timestamp p = (p', Ok c) ->
  exists p1, registered c (ChannelSnapshot.record snapshot) p p1 /\ head_of (cosigners (ChannelSnapshot.record snapshot)) c (ChannelSnapshot.state snapshot) /\
    p' = with_head c (ChannelSnapshot.state snapshot) p1.
Proof.
  unfold register_snapshot. intros H. producer_inv. match goal with H : register_channel _ _ _ = _ |- _ => apply register_channel_Ok in H as Hreg end.
  match goal with H : ProductionChannelRegistration.from_snapshot _ = Ok ?g |- _ => unfold ProductionChannelRegistration.from_snapshot, registration_ok in H end.
  simplify_res. cbn in *. eexists. split; [|split; [|reflexivity]].
  - destruct Hreg as [Hn Hg Ha]. by pose proof (gr_channel _ _ Hg) as <-.
  - by apply verify_snapshot_head.
Qed.

Lemma register_snapshot_atomic snapshot timestamp : atomic (register_snapshot snapshot timestamp).
Proof. unfold register_snapshot. atomic_tac. Qed.

Lemma produce_deposit_block_Ok request timestamp p p' d : produce_deposit_block request timestamp p = (p', Ok d) -> exists g, p' = with_witness p g.
Proof. unfold produce_deposit_block. intros H. producer_inv. by eexists. Qed.

Lemma produce_deposit_block_atomic request timestamp : atomic (produce_deposit_block request timestamp).
Proof. unfold produce_deposit_block. atomic_tac. Qed.

Lemma adopt_delegate_join_Ok r s p p' u : adopt_delegate_join r s p = (p', Ok u) ->
  p' = p \/ exists old, channel_records p !! ChannelRecord.channel_id r = Some old /\ appended old r /\ p' = with_record (ChannelRecord.channel_id r) r p.
Proof.
  unfold adopt_delegate_join. intros H. producer_inv. case_bool_decide; producer_inv; [by left|right]. simplify_res. eexists. split; [done|]. split; [|done].
  by eapply verify_delegates_appended_sound.
Qed.

Lemma adopt_delegate_join_atomic r s : atomic (adopt_delegate_join r s).
Proof. unfold adopt_delegate_join. atomic_tac. Qed.

(** ** Progress *)

Lemma auth_false b : b = false -> auth_if b = Ok tt.
Proof. by intros ->. Qed.

Lemma pure_Ok {S E A B} (m : res E A) a (f : A -> Prelude.meth S E B) s : m = Ok a -> (pure m ≫= f) s = f a s.
Proof. by intros ->. Qed.

Lemma block_fence_progress prev s : ChannelState.prev_digest s = ChannelState.digest prev ->
  ChannelState.small_block_number s = ChannelState.small_block_number prev + 1 -> ChannelState.epoch s = ChannelState.epoch prev + 1 ->
  BalanceState.state_version (ChannelState.balance_state s) = BalanceState.state_version (ChannelState.balance_state prev) + 1 ->
  ChannelState.close_freeze_nonce s = ChannelState.close_freeze_nonce prev ->
  ChannelState.small_block_number s < 2 ^ 64 -> ChannelState.epoch s < 2 ^ 64 -> BalanceState.state_version (ChannelState.balance_state s) < 2 ^ 64 ->
  check_block_fence prev s = Ok tt.
Proof.
  intros Hp Hs He Hv Hn Hs' He' Hv'. unfold check_block_fence, next, checked_add. rewrite Hs in Hs'. rewrite He in He'. rewrite Hv in Hv'.
  rewrite (proj2 (Z.ltb_lt _ _) Hs'), (proj2 (Z.ltb_lt _ _) He'), (proj2 (Z.ltb_lt _ _) Hv'), Hp, Hs, He, Hv, Hn, bool_decide_eq_false_2 by auto. unfold auth_if. cbn [ok_or negb ensure mbind res_bind]. by rewrite !Z.eqb_refl.
Qed.

Lemma produce_cosigned_block_progress s key_ids timestamp root w p r g : let c := ChannelState.channel_id s in
  carries_member_set_update w = false -> c ∉ terminal_close_funding p -> channel_records p !! c = Some r -> verify_all_signatures r s = Ok tt ->
  root <> bytes32_default -> ChannelState.h2_tag s = root -> ChannelFund.channel_id (ChannelState.channel_fund s) = c ->
  BalanceState.channel_id (ChannelState.balance_state s) = c -> last_timestamp p < timestamp ->
  (forall prev, channel_heads p !! c = Some prev -> check_block_fence prev s = Ok tt) ->
  add_block_with_tx_v2 (wrap 32 c) key_ids timestamp root (Some w) (stage_cosign false s (ChannelState.member_signatures s) (witness p)) = Ok g ->
  produce_cosigned_block_with s key_ids timestamp root w Verified p = (with_head c s (with_witness p g), Ok tt).
Proof.
  intros c Hw Hl Hr Hv Hroot Hh Hf Hb Ht Hp Hg. unfold produce_cosigned_block_with. fold c. rewrite Hw. cbn [negb ensure].
  rewrite (pure_Ok _ tt) by done. rewrite self_bind. rewrite (pure_Ok _ tt) by (apply auth_false; by rewrite bool_decide_eq_false_2).
  rewrite Hr, (pure_Ok _ r) by done. unfold check_cosigned. rewrite Hv, (pure_Ok _ tt) by done.
  rewrite (pure_Ok _ tt) by (apply auth_false; rewrite bool_decide_eq_false_2, bool_decide_eq_false_2; auto).
  rewrite Hf, Hb, Z.eqb_refl, !(pure_Ok _ tt) by done. rewrite (pure_Ok _ tt) by (apply auth_false; apply Z.leb_gt; lia).
  rewrite (pure_Ok _ tt) by (destruct (channel_heads p !! c); [by apply Hp|done]).
  unfold on_candidate, mbind, meth_bind, modify, on_witness. cbn [with_witness witness]. rewrite bool_decide_eq_false_2, Hg by done. done.
Qed.

Lemma produce_close_funding_block_progress s plan timestamp p prev r n g : let c := ChannelState.channel_id s in
  CloseFundingPlan.source_channel_id plan = c -> c ∉ terminal_close_funding p -> channel_heads p !! c = Some prev ->
  verify_close_funding_proposal prev s plan = Ok tt -> expected_nonce p c = Ok (CloseFundingPlan.base_nonce plan) ->
  get_num_users 1 (supported_user_counts (witness p)) = Some n -> 0 < n ->
  channel_records p !! c = Some r -> verify_all_signatures r s = Ok tt -> CloseFundingPlan.tx_tree_root plan <> bytes32_default ->
  ChannelState.h2_tag s = CloseFundingPlan.tx_tree_root plan -> ChannelFund.channel_id (ChannelState.channel_fund s) = c ->
  BalanceState.channel_id (ChannelState.balance_state s) = c -> last_timestamp p < timestamp -> check_block_fence prev s = Ok tt ->
  add_block_with_tx_v2 (wrap 32 c) [1] timestamp (CloseFundingPlan.tx_tree_root plan)
    (Some (single_tx_witness (Z.to_nat n) c (CloseFundingPlan.tx_v2 plan) (CloseFundingPlan.tx_v2_merkle_proof plan)))
    (stage_cosign false s (ChannelState.member_signatures s) (witness p)) = Ok g ->
  produce_close_funding_block s plan timestamp p =
    (with_terminal c (with_nonce c (CloseFundingPlan.base_nonce plan) (with_head c s (with_witness p g))), Ok tt).
Proof.
  intros c Hsrc Hl Hh Hver Hn Hu Hpos Hr Hv Hroot Hh2 Hf Hb Ht Hfence Hg. unfold produce_close_funding_block. rewrite Hsrc, self_bind.
  rewrite (pure_Ok _ tt) by (apply auth_false; by rewrite bool_decide_eq_false_2). rewrite Hh, (pure_Ok _ prev) by done. rewrite Hver, (pure_Ok _ tt) by done.
  rewrite Hn, (pure_Ok _ (CloseFundingPlan.base_nonce plan)) by done. rewrite Z.eqb_refl, (pure_Ok _ tt) by done. rewrite Hu, (pure_Ok _ n) by done.
  rewrite (pure_Ok _ tt) by (by rewrite (proj2 (Z.ltb_lt _ _) Hpos)). unfold on_candidate, produce_cosigned_block.
  erewrite meth_bind_Ok; [done|]. apply (produce_cosigned_block_progress _ _ _ _ _ _ r); try done. fold c. intros prev'. rewrite Hh. by intros [= <-].
Qed.

Lemma produce_descriptor_block_progress s debit d timestamp p r r' n tx' root g : let c := ChannelState.channel_id s in
  let tx := InterChannelTransferDescriptor.inter_channel_tx d in
  InterChannelTransferDescriptor.source_channel_id d = c -> InterChannelTx.source_channel_id tx = c -> c ∉ terminal_close_funding p ->
  verify_inter_channel_descriptor_matches_debit debit d = Ok tt ->
  ChannelState.digest (InterChannelDebitPayload.proposed_next_state debit) = ChannelState.digest s ->
  channel_records p !! c = Some r -> InterChannelDebitPayload.record debit = r' -> ChannelRecord.signing_digest r' = ChannelRecord.signing_digest r ->
  proof_get_root (E := ProductionBlockProducerError) (InterChannelTransferDescriptor.tx_v2_merkle_proof d) (InterChannelTransferDescriptor.tx_v2 d) c = Ok root ->
  phash_into_bytes32 (E := ProductionBlockProducerError) root = Ok (InterChannelTransferDescriptor.tx_tree_root d) ->
  InterChannelTransferDescriptor.tx_hash d ∉ accepted_inter_channel_txs p -> expected_nonce p c = Ok (InterChannelTx.base_nonce tx) ->
  get_num_users 1 (supported_user_counts (witness p)) = Some n -> 0 < n -> attach_small_block_signatures r s tx = Ok tx' ->
  verify_all_signatures r s = Ok tt -> SmallBlockRootMessage.tx_tree_root (InterChannelTx.message tx') <> bytes32_default ->
  ChannelState.h2_tag s = SmallBlockRootMessage.tx_tree_root (InterChannelTx.message tx') ->
  ChannelFund.channel_id (ChannelState.channel_fund s) = c -> BalanceState.channel_id (ChannelState.balance_state s) = c -> last_timestamp p < timestamp ->
  (forall prev, channel_heads p !! c = Some prev -> check_block_fence prev s = Ok tt) ->
  add_block_with_tx_v2 (wrap 32 c) [1] timestamp (SmallBlockRootMessage.tx_tree_root (InterChannelTx.message tx'))
    (Some (single_tx_witness (Z.to_nat n) c (InterChannelTransferDescriptor.tx_v2 d) (InterChannelTransferDescriptor.tx_v2_merkle_proof d)))
    (stage_cosign false s (ChannelState.member_signatures s) (witness p)) = Ok g ->
  produce_inter_channel_descriptor_block s debit d timestamp p =
    (with_nonce c (InterChannelTx.base_nonce tx) (with_accepted_tx (InterChannelTransferDescriptor.tx_hash d) (with_head c s (with_witness p g))), Ok tx').
Proof.
  intros c tx Hsrc Htx Hl Hm Hd Hr Hrd Hdig Hroot Hbytes Hfresh Hn Hu Hpos Hatt Hv Hnz Hh2 Hf Hb Ht Hfence Hg.
  unfold produce_inter_channel_descriptor_block, produce_inter_channel_descriptor_block_with. fold tx. rewrite Hsrc, self_bind.
  rewrite (pure_Ok _ tt) by (apply auth_false; by rewrite bool_decide_eq_false_2). rewrite Hm, (pure_Ok _ tt) by done. rewrite Hd, (pure_Ok _ tt) by (apply auth_false; by rewrite bool_decide_eq_false_2 by auto).
  rewrite Hr, (pure_Ok _ r) by done. rewrite Hrd, Hdig, (pure_Ok _ tt) by (apply auth_false; by rewrite bool_decide_eq_false_2 by auto).
  rewrite Hroot, (pure_Ok _ root) by done. rewrite Hbytes, (pure_Ok _ (InterChannelTransferDescriptor.tx_tree_root d)) by done.
  rewrite (pure_Ok _ tt) by (apply auth_false; by rewrite bool_decide_eq_false_2 by auto). rewrite (pure_Ok _ tt) by (apply auth_false; by rewrite bool_decide_eq_false_2).
  rewrite Hn, (pure_Ok _ (InterChannelTx.base_nonce tx)) by done. rewrite Z.eqb_refl, (pure_Ok _ tt) by done. rewrite Hu, (pure_Ok _ n) by done.
  rewrite (pure_Ok _ tt) by (by rewrite (proj2 (Z.ltb_lt _ _) Hpos)). unfold on_candidate.
  erewrite meth_bind_Ok; [done|]. unfold produce_inter_channel_block. erewrite (meth_bind_Ok _ _ _ p r); [|unfold source_record; rewrite self_bind; by rewrite Htx, Hr].
  rewrite Hatt, (pure_Ok _ tx') by done. erewrite meth_bind_Ok; [done|]. by apply (produce_cosigned_block_progress _ _ _ _ _ _ r).
Qed.

(** ** Runs *)

(** The calls of a service, without the staging of unsigned states, which works on a copy that is thrown away. *)
Inductive Call :=
  | RegisterChannel (registration : ProductionChannelRegistration) (timestamp : Z)
  | RegisterSnapshot (snapshot : ChannelSnapshot) (timestamp : Z)
  | DepositBlock (request : ProductionDepositRequest) (timestamp : Z)
  | CosignedBlock (state : ChannelState) (key_ids : list Z) (timestamp : Z) (root : Bytes32) (w : BlockTxV2Witness)
  | InterChannelBlock (state : ChannelState) (tx : InterChannelTx.InterChannelTx) (key_ids : list Z) (timestamp : Z) (w : BlockTxV2Witness)
  | DescriptorBlock (state : ChannelState) (debit : InterChannelDebitPayload) (d : InterChannelTransferDescriptor) (timestamp : Z)
  | CloseFundingBlock (state : ChannelState) (plan : CloseFundingPlan) (timestamp : Z)
  | MemberSetUpdateBlock
  | SyncHeads (states : list ChannelState)
  | AdoptJoin (record : ChannelRecord) (state : ChannelState).

(** The producer after a call, and whether the call succeeded. *)
Definition outcome {A} (m : meth A) (p : ProductionBlockProducer) : ProductionBlockProducer * bool := let '(p', r) := m p in (p', is_ok r).

Definition perform (k : Call) : ProductionBlockProducer -> ProductionBlockProducer * bool :=
  match k with
  | RegisterChannel registration timestamp => outcome (register_channel registration timestamp)
  | RegisterSnapshot snapshot timestamp => outcome (register_snapshot snapshot timestamp)
  | DepositBlock request timestamp => outcome (produce_deposit_block request timestamp)
  | CosignedBlock s key_ids timestamp root w => outcome (produce_cosigned_block s key_ids timestamp root w)
  | InterChannelBlock s tx key_ids timestamp w => outcome (produce_inter_channel_block s tx key_ids timestamp w)
  | DescriptorBlock s debit d timestamp => outcome (produce_inter_channel_descriptor_block s debit d timestamp)
  | CloseFundingBlock s plan timestamp => outcome (produce_close_funding_block s plan timestamp)
  | MemberSetUpdateBlock => outcome produce_member_set_update_block
  | SyncHeads states => outcome (sync_offchain_heads states)
  | AdoptJoin r s => outcome (adopt_delegate_join r s)
  end.

(** The producer after a list of calls, and the calls that succeeded. *)
Fixpoint run (ks : list Call) (p : ProductionBlockProducer) : ProductionBlockProducer * list Call :=
  match ks with
  | [] => (p, [])
  | k :: rest =>
      let '(p1, ok) := perform k p in
      let '(p2, log) := run rest p1 in
      (p2, if ok then k :: log else log)
  end.

(** What a call that succeeded was checked for and did. *)
Definition accepted (k : Call) (p p' : ProductionBlockProducer) : Prop :=
  match k with
  | RegisterChannel registration _ => exists c, registered c (ProductionChannelRegistration.channel_record registration) p p'
  | RegisterSnapshot snapshot _ => exists c p1, registered c (ChannelSnapshot.record snapshot) p p1 /\
      head_of (cosigners (ChannelSnapshot.record snapshot)) c (ChannelSnapshot.state snapshot) /\ p' = with_head c (ChannelSnapshot.state snapshot) p1
  | DepositBlock _ _ => exists g, p' = with_witness p g
  | CosignedBlock s key_ids timestamp root w => block_accepted Verified s key_ids timestamp root w p p'
  | InterChannelBlock s _ key_ids timestamp w => exists root, block_accepted Verified s key_ids timestamp root w p p'
  | DescriptorBlock s debit d timestamp => exists tx', descriptor_accepted s debit d timestamp p p' tx'
  | CloseFundingBlock s plan timestamp => funding_accepted s plan timestamp p p'
  | MemberSetUpdateBlock => False
  | SyncHeads states => exists c, ChannelState.channel_id <$> head states = Some c /\ sync_accepted c p p'
  | AdoptJoin r _ => p' = p \/ exists old, channel_records p !! ChannelRecord.channel_id r = Some old /\ appended old r /\
      p' = with_record (ChannelRecord.channel_id r) r p
  end.

Lemma outcome_true {A} (m : meth A) p p' : outcome m p = (p', true) -> exists a, m p = (p', Ok a).
Proof. unfold outcome. destruct (m p) as [p1 [a| |]]; intros [= ->]. by eexists. Qed.

Lemma outcome_false {A} (m : meth A) p p' : atomic m -> outcome m p = (p', false) -> p' = p.
Proof. unfold outcome. intros Ha. destruct (m p) as [p1 r] eqn:Hm. intros [= <- Hr]. destruct (Ha _ _ _ Hm) as [[a ->]|?]; done. Qed.

Lemma perform_true k p p' : perform k p = (p', true) -> accepted k p p'.
Proof.
  destruct k; cbn [perform accepted]; intros [a H]%outcome_true.
  - eexists. by eapply register_channel_Ok.
  - apply register_snapshot_Ok in H as (p1 & ? & ? & ->). eauto.
  - by eapply produce_deposit_block_Ok.
  - by eapply produce_cosigned_block_with_Ok.
  - apply produce_inter_channel_block_Ok in H as (? & _ & _ & ?). eauto.
  - eexists. by eapply produce_inter_channel_descriptor_block_Ok.
  - by eapply produce_close_funding_block_Ok.
  - done.
  - eexists. by eapply sync_offchain_heads_Ok.
  - by eapply adopt_delegate_join_Ok.
Qed.

Lemma perform_false k p p' : perform k p = (p', false) -> p' = p.
Proof.
  destruct k; cbn [perform]; apply outcome_false; auto using register_channel_atomic, register_snapshot_atomic, produce_deposit_block_atomic,
    produce_cosigned_block_atomic, produce_inter_channel_block_atomic, produce_inter_channel_descriptor_block_atomic, produce_close_funding_block_atomic,
    sync_offchain_heads_atomic, adopt_delegate_join_atomic, atomic_pure.
  - apply produce_cosigned_block_atomic.
  - apply atomic_pure.
Qed.

(** Rule induction over a run. *)
Lemma run_ind_accepted (I : ProductionBlockProducer -> list Call -> Prop) :
  (forall k p p' log, I p log -> accepted k p p' -> I p' (log ++ [k])) ->
  forall ks p log, I p log -> let '(p', log') := run ks p in I p' (log ++ log').
Proof.
  intros Hstep ks. induction ks as [|k ks IH]; intros p log Hi; cbn [run]; [by rewrite app_nil_r|].
  destruct (perform k p) as [p1 ok] eqn:Hk. destruct ok.
  - apply perform_true in Hk. specialize (IH p1 (log ++ [k]) (Hstep _ _ _ _ Hi Hk)). destruct (run ks p1) as [p2 log2]. by rewrite <- app_assoc in IH.
  - apply perform_false in Hk as ->. specialize (IH p log Hi). by destruct (run ks p).
Qed.
End accepted.
