(* ===== verification/ProducerRun.v ===== *)
(** * Runs of the block producer

    The invariant of a producer that only verified calls have changed, the order
    [later] in which it moves, and the ledger of the calls that it numbers. *)

From S2P Require Import Prelude Limbs U63 Circuit MerkleTree LeafTrees Poseidon IndexedTree Keccak Regev BalanceState Account Ledger Balance Channel HashChains BlockStep CloseFunding WalletChecks Producer ProducerProps.
Import ProductionBlockProducer.

#[local] Remove Hints Leafable_Bytes32 : typeclass_instances.

Section runs.
Context {P : Poseidon} {W : PoseidonWords P} {K : Keccak} {CV : CosignVerifier} {G : BlockWitnessGenerator}.

(** Every head is a co-signed state of a registered channel. *)
Record producer_inv (p : ProductionBlockProducer) : Prop := {
  pi_record : forall c r, channel_records p !! c = Some r -> good_record c r;
  pi_head : forall c h, channel_heads p !! c = Some h -> exists r, channel_records p !! c = Some r /\ head_of (cosigners r) c h;
  pi_terminal : forall c, c ∈ terminal_close_funding p -> is_Some (channel_records p !! c);
}.

Record later (p p' : ProductionBlockProducer) : Prop := {
  la_record : forall c r, channel_records p !! c = Some r -> exists r', channel_records p' !! c = Some r' /\ appended r r';
  la_head : forall c r h, channel_records p !! c = Some r -> channel_heads p !! c = Some h ->
    exists h', channel_heads p' !! c = Some h' /\ rtc (link (cosigners r) c) h h';
  la_terminal : forall c, c ∈ terminal_close_funding p -> c ∈ terminal_close_funding p' /\
    channel_heads p' !! c = channel_heads p !! c /\ accepted_base_nonces p' !! c = accepted_base_nonces p !! c;
}.

#[export] Instance later_preorder : PreOrder later.
Proof.
  split.
  - intros p. constructor; [|intros c r h ? ?; exists h; split; [done|apply rtc_refl]|done]. intros c r Hr. exists r. by split.
  - intros p q s [R1 H1 T1] [R2 H2 T2]. constructor.
    + intros c r (r1 & (r2 & ? & ?)%R2 & ?)%R1. exists r2. split; [done|]. by etransitivity.
    + intros c r h Hr Hh. destruct (R1 _ _ Hr) as (r1 & Hr1 & Ha). destruct (H1 _ _ _ Hr Hh) as (h1 & Hh1 & Hc1).
      destruct (H2 _ _ _ Hr1 Hh1) as (h2 & ? & Hc2). exists h2. split; [done|]. rewrite (appended_cosigners _ _ Ha) in Hc2. by etransitivity.
    + intros c (Ht & Hh & Hn)%T1. destruct (T2 _ Ht) as (? & Hh2 & Hn2). split; [done|]. split; congruence.
Qed.

(** A change that leads from a producer in the invariant to a later one. *)
Definition moves (p p' : ProductionBlockProducer) : Prop := producer_inv p -> producer_inv p' /\ later p p'.

Lemma moves_trans p q s : moves p q -> (producer_inv q -> moves q s) -> moves p s.
Proof. intros H1 H2 Hi. destruct (H1 Hi) as [Hq ?]. destruct (H2 Hq Hq) as [? ?]. split; [done|]. by etransitivity. Qed.

Lemma moves_same p p' : channel_records p' = channel_records p -> channel_heads p' = channel_heads p -> 
  (forall c, c ∈ terminal_close_funding p -> c ∈ terminal_close_funding p' /\ accepted_base_nonces p' !! c = accepted_base_nonces p !! c) ->
  (forall c, c ∈ terminal_close_funding p' -> c ∈ terminal_close_funding p \/ is_Some (channel_records p !! c)) -> moves p p'.
Proof.
  intros Hr Hh Ht Ht' Hi. split.
  - destruct Hi as [I1 I2 I3]. constructor; rewrite ?Hr, ?Hh; [done|done|]. intros c [?|?]%Ht'; [|done]. by apply I3.
  - constructor; rewrite ?Hr, ?Hh; [|intros c r h ? ?; exists h; split; [done|apply rtc_refl]|by intros c [? ?]%Ht]. intros c r ?. exists r. by split.
Qed.

Lemma moves_witness p g : moves p (with_witness p g).
Proof. apply moves_same; [done|done|done|]. intros c. by left. Qed.

Lemma moves_accepted_tx p h : moves p (with_accepted_tx h p).
Proof. apply moves_same; [done|done|done|]. intros c. by left. Qed.

Lemma moves_nonce p c n : c ∉ terminal_close_funding p -> moves p (with_nonce c n p).
Proof.
  intros Hc. apply moves_same; [done|done| |intros c' ?; by left]. intros c' Ht. split; [done|]. cbn. rewrite lookup_insert_ne; [done|]. intros ->. by apply Hc.
Qed.

Lemma moves_terminal p c : is_Some (channel_records p !! c) -> moves p (with_terminal c p).
Proof. intros Hc. apply moves_same; cbn; [done|done|set_solver|]. intros c' [->%elem_of_singleton|?]%elem_of_union; [by right|by left]. Qed.

Lemma moves_head p c r s : channel_records p !! c = Some r -> c ∉ terminal_close_funding p -> head_of (cosigners r) c s ->
  (forall prev, channel_heads p !! c = Some prev -> rtc (link (cosigners r) c) prev s) -> moves p (with_head c s p).
Proof.
  intros Hr Hc Hs Hl [I1 I2 I3]. split.
  - constructor; cbn; [done| |done]. intros c' h'. destruct (decide (c' = c)) as [->|Hne].
    + rewrite lookup_insert_eq. intros [= <-]. eauto.
    + rewrite lookup_insert_ne by done. apply I2.
  - constructor; cbn.
    + intros c' r' ?. exists r'. by split.
    + intros c' r' h' Hr' Hh'. destruct (decide (c' = c)) as [->|Hne].
      * rewrite lookup_insert_eq. exists s. split; [done|]. rewrite Hr in Hr'. injection Hr' as <-. by apply Hl.
      * rewrite lookup_insert_ne by done. exists h'. split; [done|apply rtc_refl].
    + intros c' Ht. split; [done|]. split; [|done]. rewrite lookup_insert_ne; [done|]. intros ->. by apply Hc.
Qed.

Lemma moves_record p c r : (channel_records p !! c = None /\ good_record c r \/ exists old, channel_records p !! c = Some old /\ appended old r) -> moves p (with_record c r p).
Proof.
  intros Hr [I1 I2 I3]. split.
  - constructor; cbn.
    + intros c' r'. destruct (decide (c' = c)) as [->|Hne]; [|rewrite lookup_insert_ne by done; apply I1].
      rewrite lookup_insert_eq. intros [= <-]. destruct Hr as [[_ ?]|(old & Ho & Ha)]; [done|]. apply (appended_good _ old); [done|by apply I1].
    + intros c' h' (r' & Hr' & Hh')%I2. destruct (decide (c' = c)) as [->|Hne]; [|rewrite lookup_insert_ne by done; eauto].
      rewrite lookup_insert_eq. exists r. split; [done|]. destruct Hr as [[? _]|(old & Ho & Ha)]; [congruence|]. rewrite (appended_cosigners _ _ Ha). by simplify_eq.
    + intros c' Ht%I3. destruct (decide (c' = c)) as [->|Hne]; [rewrite lookup_insert_eq; eauto|by rewrite lookup_insert_ne].
  - constructor; cbn; [|intros c' r' h' ? ?; exists h'; split; [done|apply rtc_refl]|done].
    intros c' r' Hr'. destruct (decide (c' = c)) as [->|Hne]; [|rewrite lookup_insert_ne by done; exists r'; by split].
    rewrite lookup_insert_eq. exists r. split; [done|]. destruct Hr as [[? _]|(old & Ho & Ha)]; [congruence|]. by simplify_eq.
Qed.

Lemma moves_block s key_ids timestamp root w p p' : block_accepted Verified s key_ids timestamp root w p p' -> moves p p'.
Proof.
  intros []. destruct ba_record as (r & Hr & Hv), ba_block as (g & _ & ->). unfold check_cosigned, authorized in Hv. simplify_res.
  apply verify_all_signatures_sound in Hv as [Hs _]. eapply moves_trans; [apply moves_witness|intros _].
  assert (head_of (cosigners r) (ChannelState.channel_id s) s) as Hh by by constructor.
  eapply moves_head; [exact Hr|done|done|]. intros prev Hp. apply rtc_once. split; [by apply ba_extends|done].
Qed.

Lemma moves_registered c r p p' : registered c r p p' -> moves p p'.
Proof. intros [Hn Hg (g & -> & _)]. eapply moves_trans; [apply moves_witness|intros _]. apply moves_record. by left. Qed.

(** What a block leaves alone. *)
Lemma block_frame mode s key_ids timestamp root w p p' : block_accepted mode s key_ids timestamp root w p p' ->
  channel_records p' = channel_records p /\ accepted_inter_channel_txs p' = accepted_inter_channel_txs p /\
  accepted_base_nonces p' = accepted_base_nonces p /\ terminal_close_funding p' = terminal_close_funding p.
Proof. intros []. by destruct ba_block as (g & _ & ->). Qed.

Lemma accepted_moves k p p' : accepted k p p' -> moves p p'.
Proof.
  destruct k; cbn [accepted].
  - intros [c H]. by eapply moves_registered.
  - intros (c & p1 & Hr & Hh & ->). intros Hi. assert (c ∉ terminal_close_funding p) as Hl.
    { intros [r0 Ht]%(pi_terminal _ Hi). by rewrite (rg_new _ _ _ _ Hr) in Ht. }
    assert (channel_heads p !! c = None) as Hn.
    { apply eq_None_not_Some. intros [h (r0 & Hr0 & _)%(pi_head _ Hi)]. by rewrite (rg_new _ _ _ _ Hr) in Hr0. }
    pose proof (moves_registered _ _ _ _ Hr) as Hm. destruct (rg_after _ _ _ _ Hr) as (g & -> & _).
    revert Hi. eapply moves_trans; [exact Hm|intros _]. eapply moves_head; [by apply lookup_insert_eq|done|done|]. cbn. by rewrite Hn.
  - intros [g ->]. apply moves_witness.
  - apply moves_block.
  - intros [root H]. by eapply moves_block.
  - intros [tx' []]. destruct da_block as (r & n & p1 & _ & _ & _ & _ & Hb & ->). pose proof (block_frame _ _ _ _ _ _ _ _ Hb) as (_ & _ & _ & Ht).
    eapply moves_trans; [by eapply moves_block|intros _]. eapply moves_trans; [apply moves_accepted_tx|intros _]. apply moves_nonce. cbn. by rewrite Ht.
  - intros []. destruct fa_block as (n & p1 & _ & _ & Hb & ->). pose proof (block_frame _ _ _ _ _ _ _ _ Hb) as (Hr & _ & _ & Ht).
    destruct fa_head as (prev & Hh & _). intros Hi. destruct (pi_head _ Hi _ _ Hh) as (r0 & Hr0 & _). revert Hi.
    eapply moves_trans; [by eapply moves_block|intros _]. eapply moves_trans; [apply (moves_nonce p1 (CloseFundingPlan.source_channel_id plan) (CloseFundingPlan.base_nonce plan)); by rewrite Ht|intros _].
    apply moves_terminal. cbn. rewrite Hr. eauto.
  - done.
  - intros (c & _ & [Hl (r & prev & s & Hr & Hh & Hc & ->)]) Hi. destruct (pi_head _ Hi _ _ Hh) as (r0 & Hr0 & Hho). simplify_eq. revert Hi.
    eapply moves_head; [exact Hr|done|by eapply link_head|]. intros prev' Hp. by simplify_eq.
  - intros [->|(old & Ho & Ha & ->)]; [done|]. apply moves_record. eauto.
Qed.

Lemma run_moves ks p : moves p (run ks p).1.
Proof.
  intros Hi. pose proof (run_ind_accepted (fun q _ => producer_inv q /\ later p q)) as Hind.
  specialize (Hind ltac:(intros k q q' log [Hq Hl] Ha; destruct (accepted_moves _ _ _ Ha Hq); split; [done|by etransitivity]) ks p [] (conj Hi (reflexivity p))).
  by destruct (run ks p).
Qed.

Lemma producer_new_inv counts : producer_inv (new counts).
Proof. constructor; cbn; intros c; try (intros ?; rewrite lookup_empty; done). Qed.

(** ** The ledger of a run *)

(** The calls that the producer numbers and their nonces. [InterChannelBlock] and [CosignedBlock]
    carry sends too, but the producer neither checks nor records a nonce or a transaction for
    them; the service, whose journal has no action for these calls, never makes them. *)
Definition numbered (k : Call) : option (ChannelId * Z) :=
  match k with
  | DescriptorBlock _ _ d _ => Some (InterChannelTransferDescriptor.source_channel_id d, InterChannelTx.base_nonce (InterChannelTransferDescriptor.inter_channel_tx d))
  | CloseFundingBlock _ plan _ => Some (CloseFundingPlan.source_channel_id plan, CloseFundingPlan.base_nonce plan)
  | _ => None
  end.

Definition nonces_of (c : ChannelId) (log : list Call) : list Z :=
  omap (fun k => match numbered k with Some (c', n) => if bool_decide (c' = c) then Some n else None | None => None end) log.

(** The transactions that [accepted_inter_channel_txs] fences. *)
Definition fenced (k : Call) : option Bytes32 :=
  match k with DescriptorBlock _ _ d _ => Some (InterChannelTransferDescriptor.tx_hash d) | _ => None end.

Definition next_nonce (p : ProductionBlockProducer) (c : ChannelId) : Z := match accepted_base_nonces p !! c with Some n => n + 1 | None => 0 end.

Lemma expected_nonce_Ok p c n : expected_nonce p c = Ok n -> n = next_nonce p c.
Proof. unfold expected_nonce, next_nonce. destruct (_ !! c); [by intros [-> _]%next_Ok|by intros [= ->]]. Qed.

Lemma nonces_of_app c log k : nonces_of c (log ++ [k]) = nonces_of c log ++ nonces_of c [k].
Proof. apply omap_app. Qed.

(** The numbered calls of a channel spend 0, 1, 2 and so on, and no fenced transaction is accepted twice. *)
Record ledger (p : ProductionBlockProducer) (log : list Call) : Prop := {
  le_next : forall c, 0 <= next_nonce p c;
  le_nonces : forall c, nonces_of c log = seqZ 0 (next_nonce p c);
  le_txs : accepted_inter_channel_txs p = reverse (omap fenced log);
  le_once : NoDup (omap fenced log);
}.

Lemma ledger_quiet p p' log k : numbered k = None -> fenced k = None -> accepted_base_nonces p' = accepted_base_nonces p ->
  accepted_inter_channel_txs p' = accepted_inter_channel_txs p -> ledger p log -> ledger p' (log ++ [k]).
Proof.
  intros Hp Ht Hn Hx [L1 L2 L3 L4]. assert (omap fenced (log ++ [k]) = omap fenced log) as Ho by (rewrite omap_app; cbn; by rewrite Ht, app_nil_r).
  constructor; unfold next_nonce; rewrite ?Hn, ?Hx, ?Ho; try done. intros c. rewrite nonces_of_app. unfold nonces_of at 2. cbn. rewrite Hp, app_nil_r. apply L2.
Qed.

(** Spending the next nonce of a channel. *)
Lemma nonces_spent p p' log k c : (forall c, 0 <= next_nonce p c) -> (forall c, nonces_of c log = seqZ 0 (next_nonce p c)) ->
  numbered k = Some (c, next_nonce p c) -> accepted_base_nonces p' = <[c := next_nonce p c]> (accepted_base_nonces p) ->
  (forall c, 0 <= next_nonce p' c) /\ (forall c, nonces_of c (log ++ [k]) = seqZ 0 (next_nonce p' c)).
Proof.
  intros L1 L2 Hp Hn. assert (forall c', next_nonce p' c' = if bool_decide (c = c') then next_nonce p c + 1 else next_nonce p c') as He.
  { intros c'. unfold next_nonce at 1. rewrite Hn. case_bool_decide as Hc; [subst c'; by rewrite lookup_insert_eq|by rewrite lookup_insert_ne]. }
  split; intros c'; rewrite He; specialize (L1 c'); [case_bool_decide; [subst|]; lia|].
  rewrite nonces_of_app, L2. unfold nonces_of. cbn. rewrite Hp. case_bool_decide as Hc; [subst c'|by rewrite app_nil_r].
  rewrite (seqZ_app 0 (next_nonce p c) 1) by lia. by rewrite Z.add_0_l.
Qed.

Lemma accepted_ledger k p p' log : ledger p log -> accepted k p p' -> ledger p' (log ++ [k]).
Proof.
  intros Hl. destruct k; cbn [accepted].
  - intros [c [_ _ (g & -> & _)]]. by apply (ledger_quiet p).
  - intros (c & p1 & [_ _ (g & -> & _)] & _ & ->). by apply (ledger_quiet p).
  - intros [g ->]. by apply (ledger_quiet p).
  - intros (_ & Hx & Hn & _)%block_frame. by apply (ledger_quiet p).
  - intros [root (_ & Hx & Hn & _)%block_frame]. by apply (ledger_quiet p).
  - intros [tx' []]. destruct da_block as (r & n & p1 & _ & _ & _ & _ & (_ & Hx & Hn & _)%block_frame & ->). apply expected_nonce_Ok in da_nonce.
    destruct Hl as [L1 L2 L3 L4]. edestruct (nonces_spent p (with_nonce (InterChannelTransferDescriptor.source_channel_id d) (InterChannelTx.base_nonce (InterChannelTransferDescriptor.inter_channel_tx d))
      (with_accepted_tx (InterChannelTransferDescriptor.tx_hash d) p1)) log (DescriptorBlock state debit d timestamp)) as [N1 N2]; [done|done|cbn; by rewrite da_nonce|cbn; by rewrite Hn, da_nonce|].
    constructor; [done|done| |].
    + cbn. rewrite Hx, bool_decide_eq_false_2 by done. rewrite omap_app, reverse_app, L3. done.
    + rewrite omap_app. cbn. apply list.NoDup_app. split; [done|]. split; [|apply list.NoDup_singleton]. intros x Hin ->%list_elem_of_singleton. apply da_fresh.
      rewrite L3. by apply elem_of_reverse.
  - intros []. destruct fa_block as (n & p1 & _ & _ & (_ & Hx & Hn & _)%block_frame & ->). apply expected_nonce_Ok in fa_nonce.
    destruct Hl as [L1 L2 L3 L4]. edestruct (nonces_spent p (with_terminal (CloseFundingPlan.source_channel_id plan) (with_nonce (CloseFundingPlan.source_channel_id plan) (CloseFundingPlan.base_nonce plan) p1))
      log (CloseFundingBlock state plan timestamp)) as [N1 N2]; [done|done|cbn; by rewrite fa_nonce|cbn; by rewrite Hn, fa_nonce|].
    constructor; [done|done| |]; rewrite omap_app; cbn; rewrite app_nil_r; [by rewrite Hx|done].
  - done.
  - intros (c & _ & [_ (r & prev & s & _ & _ & _ & ->)]). by apply (ledger_quiet p).
  - intros [->|(old & _ & _ & ->)]; by apply (ledger_quiet p).
Qed.

Lemma new_ledger counts : ledger (new counts) [].
Proof. constructor; cbn; [done|done|done|constructor]. Qed.

Lemma run_ledger ks p log : ledger p log -> let '(p', log') := run ks p in ledger p' (log ++ log').
Proof. apply run_ind_accepted. intros. by eapply accepted_ledger. Qed.

(** ** Terminal channels *)

(** The call would move the head or spend a nonce of the channel, or register it. *)
Definition touches (c : ChannelId) (k : Call) : Prop :=
  match k with
  | RegisterChannel registration _ => ChannelRecord.channel_id (ProductionChannelRegistration.channel_record registration) = c
  | RegisterSnapshot snapshot _ => ChannelRecord.channel_id (ChannelSnapshot.record snapshot) = c
  | CosignedBlock s _ _ _ _ | InterChannelBlock s _ _ _ _ => ChannelState.channel_id s = c
  | DescriptorBlock s _ d _ => ChannelState.channel_id s = c \/ InterChannelTransferDescriptor.source_channel_id d = c
  | CloseFundingBlock s plan _ => ChannelState.channel_id s = c \/ CloseFundingPlan.source_channel_id plan = c
  | SyncHeads states => ChannelState.channel_id <$> head states = Some c
  | DepositBlock _ _ | MemberSetUpdateBlock | AdoptJoin _ _ => False
  end.

Lemma terminal_refuses c k p p' : producer_inv p -> c ∈ terminal_close_funding p -> touches c k -> ~ accepted k p p'.
Proof.
  intros Hi Hc. destruct (pi_terminal _ Hi _ Hc) as [r0 Hr0]. destruct k; cbn [touches accepted]; try done.
  - intros <- [c' [Hn Hg _]]. pose proof (gr_channel _ _ Hg) as He. congruence.
  - intros <- (c' & p1 & [Hn Hg _] & _). pose proof (gr_channel _ _ Hg) as He. congruence.
  - by intros <- [].
  - by intros <- [root []].
  - intros [<-|<-] [tx' []]; [|done]. destruct da_block as (? & ? & p1 & _ & _ & _ & _ & [] & _). done.
  - intros [<-|<-] []; [|done]. destruct fa_block as (? & p1 & _ & _ & [] & _). done.
  - intros Hs (c' & Hs' & [Hl _]). congruence.
Qed.
End runs.
