(* ===== verification/ServiceProps.v ===== *)
(** * Facts about the durable block producer

    [good d r prep] says that the journal [d] is sound and replays to the
    producer of [r], with [prep] the producer of the prepared entry.  Every
    operation either leaves the service alone or writes one of three next
    journals ([next_journal]), each of them sound.  From there, the invariant of
    a service under failed writes, crashes and restarts. *)

From S2P Require Import Prelude Limbs U63 Circuit MerkleTree LeafTrees Poseidon IndexedTree Keccak Regev BalanceState Account Ledger Balance Channel HashChains BlockStep CloseFunding WalletChecks Producer BlockChain Payout ProducerProps ProducerRun ProducerService.
Import BlockProducerService.

#[local] Remove Hints Leafable_Bytes32 : typeclass_instances.

#[local] Notation service := BlockProducerService.
#[local] Notation journal := ProductionJournalFile.
#[local] Notation entry := ProductionJournalEntry.
#[local] Notation Receipt := BlockProducerReceipt.
#[local] Notation Producer := ProductionBlockProducer.ProductionBlockProducer.
#[local] Notation res := (res BlockProducerServiceError).
#[local] Notation meth := (meth BlockProducerService BlockProducerServiceError).
#[local] Notation entries := ProductionJournalFile.entries.
#[local] Notation prepared := ProductionJournalFile.prepared.
#[local] Notation action := ProductionJournalEntry.action.
#[local] Notation id_of := ProductionJournalEntry.request_id.
#[local] Notation counts_of := ProductionJournalFile.supported_user_counts.
#[local] Notation generation_of := ProductionJournalFile.generation.
#[local] Notation tail_of := ProductionJournalFile.tail_hash.

Lemma reject_Ok b e u : reject b e = Ok u <-> b = false.
Proof. unfold reject. rewrite ensure_Ok. apply negb_true_iff. Qed.

(** [a != b] that was refused. *)
Ltac stable := repeat match goal with H : ~ (?a <> ?b) |- _ => apply dec_stable in H end.

Lemma refl_check {A} `{EqDecision A} (x : A) : bool_decide (x <> x) = false.
Proof. apply bool_decide_eq_false_2. auto. Qed.

(** Past a check. *)
Ltac passes := apply bind_Ok; exists tt; split; [apply reject_Ok|].

Section journal.
Context {P : Poseidon} {W : PoseidonWords P} {K : Keccak} {CV : CosignVerifier} {G : BlockWitnessGenerator} {GS : GeneratorState} {JC : JournalCodec}.

(** ** Sound journals *)

Lemma encode_reads {JO : JournalCodecOk JC} d bytes : encode_journal d = Ok bytes -> read_journal bytes = Ok d.
Proof.
  unfold encode_journal, read_journal. intros H. simplify_res. rewrite Hr0. cbn. by rewrite (journal_roundtrip _ _ Hr).
Qed.

(** What the committed journal may hold. *)
Definition committable (a : ProductionJournalAction) : bool := negb (is_member_set_update a) && negb (is_staged a).

Definition preparable (a : ProductionJournalAction) : bool := is_close_funding a || is_staged a.

Definition genesis_replay (counts : list Z) (genesis : Bytes32) : Replay := mkReplay (ProductionBlockProducer.new counts) genesis [] 0 0.

(** The checks that make an entry the next one of a replayed prefix, and the producer it leads to. *)
Record follows (r : Replay) (e : entry) (p : Producer) : Prop := {
  fo_generation : ProductionJournalEntry.generation e = Z.of_nat (index r) + 1;
  fo_prev : ProductionJournalEntry.prev_entry_hash e = expected_prev r;
  fo_id : validate_request_id (id_of e) = Ok tt;
  fo_fresh : id_of e ∉ request_ids r;
  fo_fingerprint : fingerprint_for_action (action e) = Ok (ProductionJournalEntry.request_fingerprint e);
  fo_timestamp : prior_timestamp r < action_timestamp (action e);
  fo_hash : journal_entry_hash e = Ok (ProductionJournalEntry.entry_hash e);
  fo_applied : apply_action (action e) (replayed r) = (p, Ok tt);
  fo_result : ProductionJournalEntry.result e = capture p;
  fo_keyless : ProductionBlockProducer.holds_any_local_signing_keys p = false;
}.

Lemma replay_entry_follows kind g r e p : g = Z.of_nat (index r) + 1 -> replay_entry kind g r e = Ok p <-> kind (action e) = true /\ follows r e p.
Proof.
  intros ->. unfold replay_entry. split.
  - intros H. simplify_res. destruct (apply_action (action e) (replayed r)) as [p' applied] eqn:Ha. simplify_res.
    repeat match goal with H : reject _ _ = Ok _ |- _ => apply reject_Ok in H end. simplify_bool.
    stable. split; [done|]. constructor; try done; congruence.
  - intros [Hk [F1 F2 F3 F4 F5 F6 F7 F8 F9 F10]]. cbv zeta.
    passes. { rewrite F1, F2, Z.eqb_refl. apply refl_check. }
    apply bind_Ok. exists tt. split; [by rewrite F3|]. passes. { by apply bool_decide_eq_false_2. } passes. { by rewrite Hk. }
    apply bind_Ok. eexists. split; [exact F5|]. passes. { apply refl_check. } passes. { by apply Z.leb_gt. }
    apply bind_Ok. eexists. split; [exact F7|]. passes. { apply refl_check. } rewrite F8.
    apply bind_Ok. exists tt. split; [done|]. passes. { rewrite F9. apply refl_check. } by passes.
Qed.

(** The replayed prefix with one more entry. *)
Definition extend (r : Replay) (e : entry) (p : Producer) : Replay :=
  mkReplay p (ProductionJournalEntry.entry_hash e) (id_of e :: request_ids r) (action_timestamp (action e)) (S (index r)).

Lemma wrap_next (n : nat) : Z.of_nat n + 1 < 2 ^ 64 -> wrap 64 (Z.of_nat n + 1) = Z.of_nat n + 1.
Proof. intros H. unfold wrap. rewrite Z.mod_small; [done|]. lia. Qed.

Lemma replay_step_follows r e p : Z.of_nat (index r) + 1 < 2 ^ 64 -> follows r e p -> replay_step r e = Ok (extend r e p).
Proof. intros Hb Hf. unfold replay_step. by rewrite (proj2 (replay_entry_follows (fun _ => true) _ r e p (wrap_next _ Hb)) (conj eq_refl Hf)). Qed.

(** The replay of a list of entries. *)
Inductive replays : Replay -> list entry -> Replay -> Prop :=
| replays_nil r : replays r [] r
| replays_snoc r es r1 e p : replays r es r1 -> follows r1 e p -> replays r (es ++ [e]) (extend r1 e p).

Lemma replays_index r es r' : replays r es r' -> index r' = (index r + length es)%nat.
Proof. induction 1 as [|r es r1 e p _ IH Hf]; cbn; [lia|]. rewrite IH, length_app. cbn. lia. Qed.

Lemma replays_foldl r es r' : replays r es r' -> Z.of_nat (index r') < 2 ^ 64 -> res_foldl replay_step r es = Ok r'.
Proof.
  induction 1 as [|r es r1 e p _ IH Hf]; intros Hb; [done|]. cbn [extend index] in Hb. rewrite res_foldl_app, IH by lia. cbn. rewrite (replay_step_follows _ _ p); [done|lia|done].
Qed.

Record good (d : journal) (r : Replay) (prep : option Producer) : Prop := {
  go_magic : ProductionJournalFile.magic d = PRODUCTION_JOURNAL_MAGIC;
  go_version : ProductionJournalFile.version d = PRODUCTION_JOURNAL_VERSION;
  go_counts : validate_supported_user_counts (counts_of d) = Ok tt;
  go_plain : Forall (fun e => committable (action e) = true) (entries d);
  go_replay : exists genesis, journal_genesis_hash (counts_of d) = Ok genesis /\ replays (genesis_replay (counts_of d) genesis) (entries d) r;
  go_bound : Z.of_nat (length (entries d)) < 2 ^ 64;
  go_generation : generation_of d = Z.of_nat (length (entries d));
  go_tail : tail_of d = expected_prev r;
  go_prepared : match prepared d, prep with
    | None, None => True
    | Some e, Some p => preparable (action e) = true /\ follows r e p /\ Z.of_nat (length (entries d)) + 1 < 2 ^ 64
    | _, _ => False
    end;
}.

Lemma good_index d r prep : good d r prep -> Z.of_nat (index r) = generation_of d.
Proof. intros [_ _ _ _ (g & _ & Hr) _ -> _ _]. by rewrite (replays_index _ _ _ Hr). Qed.

Lemma existsb_Forall {A} (f : A -> bool) l : existsb f l = false <-> Forall (fun x => f x = false) l.
Proof. induction l as [|x l IH]; cbn; [by split|]. rewrite orb_false_iff, IH, list.Forall_cons. done. Qed.

Lemma plain_checks (es : list entry) : Forall (fun e => committable (action e) = true) es ->
  existsb (fun e => is_member_set_update (action e)) es = false /\ existsb (fun e => is_staged (action e)) es = false.
Proof. intros H. rewrite !existsb_Forall. split; eapply Forall_impl; try exact H; intros e; cbn; unfold committable; by destruct (action e). Qed.

Lemma good_replays d r prep : good d r prep -> verify_and_replay d = Ok (replayed r, prep).
Proof.
  intros Hg. pose proof (good_index _ _ _ Hg) as Hi. destruct Hg as [Hm Hv Hc Hp (g & Hgen & Hr) Hb Hn Ht Hprep]. destruct (plain_checks _ Hp) as [Hp1 Hp2].
  unfold verify_and_replay. passes. { rewrite Hm. apply refl_check. } passes. { by rewrite Hv, Z.eqb_refl. } rewrite Hc. cbn [mbind res_bind].
  passes. { done. } passes. { done. } passes. { unfold wrap. rewrite Hn, Z.mod_small by lia. by rewrite Z.eqb_refl. }
  rewrite Hgen. cbn [mbind res_bind]. fold (genesis_replay (counts_of d) g). rewrite (replays_foldl _ _ _ Hr) by lia. cbn [mbind res_bind].
  passes. { rewrite Ht. apply refl_check. } destruct (prepared d) as [e|], prep as [p|]; try done. destruct Hprep as (Hk & Hf & Hb1).
  assert (checked_add 64 (generation_of d) 1 = Some (Z.of_nat (index r) + 1)) as -> by (apply checked_add_Some; lia). cbn [ok_or mbind res_bind].
  by rewrite (proj2 (replay_entry_follows (fun a => is_close_funding a || is_staged a) _ r e p eq_refl) (conj Hk Hf)).
Qed.

(** ** The next journal *)

(** A journal with one more entry and nothing prepared. *)
Definition pushed (d : journal) (e : entry) : journal :=
  ProductionJournalFile.mk (ProductionJournalFile.magic d) (ProductionJournalFile.version d) (counts_of d) (ProductionJournalEntry.generation e)
    (ProductionJournalEntry.entry_hash e) (entries d ++ [e]) None.

(** How the prepared entry [e0] may land as [e]: a close funding as it is, a staged exit kit as the transfer that it was staged for. *)
Definition lands (e0 e : entry) : Prop :=
  e = e0 /\ is_close_funding (action e0) = true \/
  exists s debit d t, action e = PostInterChannel s debit d t /\ is_staged (action e0) = true /\ action_timestamp (action e0) = t /\
    staged_exit_kit_fingerprint s debit d = Ok (ProductionJournalEntry.request_fingerprint e0) /\
    ProductionJournalEntry.result e = ProductionJournalEntry.result e0 /\ ProductionJournalEntry.generation e = ProductionJournalEntry.generation e0.

Inductive next_journal (d : journal) (r : Replay) : journal -> Replay -> option Producer -> Prop :=
| next_commit e p : committable (action e) = true -> follows r e p -> Z.of_nat (index r) + 1 < 2 ^ 64 ->
    (forall e0, prepared d = Some e0 -> lands e0 e) -> next_journal d r (pushed d e) (extend r e p) None
| next_stage e p : prepared d = None -> preparable (action e) = true -> follows r e p -> Z.of_nat (index r) + 1 < 2 ^ 64 ->
    next_journal d r (with_prepared d (Some e)) r (Some p)
| next_abandon e0 : prepared d = Some e0 -> is_staged (action e0) = true -> next_journal d r (with_prepared d None) r None.

Lemma good_next d r prep d1 r1 prep1 : good d r prep -> next_journal d r d1 r1 prep1 -> good d1 r1 prep1.
Proof.
  intros Hg Hn. pose proof (good_index _ _ _ Hg) as Hi. destruct Hg as [Hm Hv Hc Hp (g & Hgen & Hr) Hb Hgn Ht Hprep]. destruct Hn as [e p Hk Hf Hb1 _|e p _ Hk Hf Hb1|e0 He Hs].
  - constructor; cbn; try done.
    + apply list.Forall_app. split; [done|]. by constructor.
    + exists g. split; [done|]. by apply replays_snoc.
    + rewrite length_app. cbn. lia.
    + rewrite (fo_generation _ _ _ Hf), length_app. cbn. lia.
  - constructor; cbn; try done; [by exists g|]. split; [done|]. split; [done|]. lia.
  - constructor; cbn; try done. by exists g.
Qed.

(** What a replayed prefix remembers. *)
Lemma replays_ids r es r' id : replays r es r' -> id ∈ request_ids r' <-> id ∈ request_ids r \/ id ∈ id_of <$> es.
Proof.
  induction 1 as [|r es r1 e p _ IH Hf]; cbn [extend request_ids]; [by split; [left|intros [?|?%elem_of_nil]]|].
  rewrite elem_of_cons, IH, fmap_app, elem_of_app. cbn. rewrite list_elem_of_singleton. tauto.
Qed.

Lemma replays_prior counts g es r : replays (genesis_replay counts g) es r ->
  prior_timestamp r = match list.last es with Some e => action_timestamp (action e) | None => 0 end /\ (es = [] -> replayed r = ProductionBlockProducer.new counts).
Proof. remember (genesis_replay counts g) as r0 eqn:Hr0. destruct 1 as [|r es r1 e p _ Hf]; subst; [done|]. rewrite last_snoc. split; [done|]. by destruct es. Qed.

Lemma good_ids d r prep id : good d r prep -> id ∈ request_ids r <-> id ∈ id_of <$> entries d.
Proof. intros [_ _ _ _ (g & _ & Hr) _ _ _ _]. rewrite (replays_ids _ _ _ _ Hr). cbn. split; [by intros [?%elem_of_nil|]|by right]. Qed.

Lemma last_timestamp_nonneg {GT : GeneratorTimestamps G} p : 0 <= ProductionBlockProducer.last_timestamp p.
Proof.
  unfold ProductionBlockProducer.last_timestamp. destruct (list.last _) as [b|] eqn:Hb; [|done]. apply (timestamps_nonneg (ProductionBlockProducer.witness p)).
  by apply last_Some_elem_of.
Qed.

(** ** Operations *)

(** The service after a write of the journal [d1]. *)
Definition poison (s : service) (f : option (list Z)) : service := mk f (disk s) (producer s) (prepared_producer s) true.

Definition written (fault : Fault) (s : service) (d1 : journal) (p1 : Producer) (prep1 : option Producer) : service :=
  match encode_journal d1, fault with
  | Ok bytes, NoFault => mk (Some bytes) d1 p1 prep1 false
  | Ok bytes, AfterRename => poison s (Some bytes)
  | _, _ => poison s (file s)
  end.

Definition clean (fault : Fault) (d1 : journal) : Prop := fault = NoFault /\ exists bytes, encode_journal d1 = Ok bytes.

(** The answer comes from an entry of the journal, or from a prepared one where the operation stages. *)
Definition known {A} (rc_of : A -> option Receipt) (staging : bool) (d : journal) (a : res A) : Prop :=
  forall x rc, a = Ok x -> rc_of x = Some rc -> exists e, (e ∈ entries d \/ staging = true /\ prepared d = Some e) /\ receipt_from_entry e = Ok rc.

Inductive handled {A} (rc_of : A -> option Receipt) (staging : bool) (fault : Fault) (s : service) (r : Replay) : service * res A -> Prop :=
| handled_same a : known rc_of staging (disk s) a -> handled rc_of staging fault s r (s, a)
| handled_next d1 r1 prep1 a : next_journal (disk s) r d1 r1 prep1 -> (is_ok a = true -> clean fault d1) -> known rc_of staging d1 a ->
    handled rc_of staging fault s r (written fault s d1 (replayed r1) prep1, a).

Record live (s : service) (r : Replay) (prep : option Producer) : Prop := {
  li_good : good (disk s) r prep;
  li_producer : producer s = replayed r;
  li_prepared : prepared_producer s = prep;
  li_healthy : poisoned s = false;
}.

Section operations.
Context {GT : GeneratorTimestamps G} (fault : Fault) (s : service) (r : Replay) (prep : option Producer) (Hlive : live s r prep).
Context {A : Type} (rc_of : A -> option Receipt) (staging : bool).

#[local] Notation handled := (handled rc_of staging fault s r).

Lemma handled_error (a : res A) : is_ok a = false -> handled (s, a).
Proof. intros H. constructor. intros x rc ->. done. Qed.

Lemma handled_pure {B} (m : res B) (f : B -> meth A) : (forall b, m = Ok b -> handled (f b s)) -> handled ((pure m ≫= f) s).
Proof. intros H. rewrite pure_bind. destruct m as [b|e|]; [by apply H|by apply handled_error..]. Qed.

(** An operation that only reads. *)
Lemma handled_query {B} (m : meth B) (x : res B) (f : B -> meth A) : m s = (s, x) -> (forall b, x = Ok b -> handled (f b s)) -> handled ((m ≫= f) s).
Proof. intros Hm H. unfold mbind, meth_bind. rewrite Hm. destruct x as [b|e|]; [by apply H|by apply handled_error..]. Qed.

Lemma handled_reject b e (f : unit -> meth A) : (b = false -> handled (f tt s)) -> handled ((pure (reject b e) ≫= f) s).
Proof. intros H. apply handled_pure. intros [] ?%reject_Ok. by apply H. Qed.

Lemma handled_healthy (f : unit -> meth A) : handled (f tt s) -> handled ((ensure_healthy ≫= f) s).
Proof. intros H. unfold ensure_healthy, mbind, meth_bind, self, pure. by rewrite (li_healthy _ _ _ Hlive). Qed.

Lemma handled_no_prepared (f : unit -> meth A) : (prepared (disk s) = None -> handled (f tt s)) -> handled ((ensure_no_prepared ≫= f) s).
Proof. intros H. unfold ensure_no_prepared, mbind, meth_bind, self, pure. destruct (prepared (disk s)); [by apply handled_error|by apply H]. Qed.

Lemma handled_timestamp wall (f : Z -> meth A) : (forall t, prior_timestamp r < t -> handled (f t s)) -> handled ((next_timestamp wall ≫= f) s).
Proof.
  intros H. destruct wall as [w|]; [|by apply handled_error].
  set (last := ProductionBlockProducer.last_timestamp (producer s)).
  set (prior := Z.max (match list.last (entries (disk s)) with Some e => action_timestamp (action e) | None => last end) last).
  assert (prior_timestamp r <= prior) as Hp.
  { destruct (li_good _ _ _ Hlive) as [_ _ _ _ (g & _ & [-> He]%replays_prior) _ _ _ _]. subst prior. destruct (list.last _) as [e|]; [lia|].
    pose proof (last_timestamp_nonneg (producer s)). subst last. lia. }
  apply (handled_query _ (x ← ok_or (checked_add 64 prior 1) InvalidConfiguration; Ok (Z.max w x))).
  - unfold next_timestamp. rewrite self_bind. cbn [ok_or]. rewrite pure_bind. cbv zeta. rewrite pure_bind. fold last prior. by destruct (checked_add 64 prior 1).
  - intros t Ht. simplify_res. apply checked_add_Some in Hr as [-> _]. apply H. lia.
Qed.

Lemma find_entry_None id : find_entry id s = None -> id ∉ request_ids r.
Proof.
  intros Hf. rewrite (good_ids _ _ _ _ (li_good _ _ _ Hlive)). intros (e & -> & He)%list_elem_of_fmap. apply list_elem_of_In in He.
  pose proof (List.find_none _ _ Hf _ He) as Hn. cbn in Hn. by apply bool_decide_eq_false in Hn.
Qed.

Lemma find_entry_Some id e : find_entry id s = Some e -> e ∈ entries (disk s) /\ id_of e = id.
Proof. intros [H1 H2]%List.find_some. apply list_elem_of_In in H1. split; [done|]. by apply bool_decide_eq_true in H2. Qed.

(** The entry that is built is the next one of the journal. *)
Record built (id : list Z) (fp : Bytes32) (a : ProductionJournalAction) (c : Producer * entry) : Prop := {
  bu_follows : follows r c.2 c.1;
  bu_id : id_of c.2 = id;
  bu_action : action c.2 = a;
  bu_bound : Z.of_nat (index r) + 1 < 2 ^ 64;
}.

Lemma handled_build id fp a (f : Producer * entry -> meth A) : validate_request_id id = Ok tt -> id ∉ request_ids r -> fingerprint_for_action a = Ok fp ->
  prior_timestamp r < action_timestamp a -> (forall c, built id fp a c -> handled (f c s)) -> handled ((build_candidate_entry id fp a ≫= f) s).
Proof.
  intros Hid Hfresh Hfp Ht H. pose proof (good_index _ _ _ (li_good _ _ _ Hlive)) as Hi. destruct (apply_action a (producer s)) as [p applied] eqn:Ha.
  set (e g h := ProductionJournalEntry.mk g id fp (tail_of (disk s)) a (capture p) h).
  apply (handled_query _ (_ ← applied; _ ← reject (ProductionBlockProducer.holds_any_local_signing_keys p) Journal;
    g ← ok_or (checked_add 64 (generation_of (disk s)) 1) Journal; h ← journal_entry_hash (e g bytes32_default); Ok (p, e g h))).
  - unfold build_candidate_entry. rewrite self_bind, Ha, pure_bind. destruct applied as [[]| |]; [|done..]. rewrite pure_bind. cbn [mbind res_bind].
    destruct (reject _ _) as [[]| |]; [|done..]. rewrite pure_bind. cbn [mbind res_bind]. destruct (ok_or _ _) as [g| |]; [|done..]. cbv zeta. rewrite pure_bind.
    cbn [mbind res_bind]. fold (e g bytes32_default). by destruct (journal_entry_hash _).
  - intros c Hc. simplify_res. apply reject_Ok in Hr0. apply checked_add_Some in Hr1 as [-> Hb]. apply H. constructor; cbn; [|done|done|lia].
    constructor; cbn; try done; [lia|by apply (go_tail _ _ _ (li_good _ _ _ Hlive))|]. rewrite <- (li_producer _ _ _ Hlive). by rewrite Ha, Hr.
Qed.

Lemma handled_save d1 r1 prep1 a (f : unit -> meth A) : next_journal (disk s) r d1 r1 prep1 -> known rc_of staging d1 a ->
  (forall bytes, f tt (mk (Some bytes) d1 (producer s) (prepared_producer s) false) = (mk (Some bytes) d1 (replayed r1) prep1 false, a)) ->
  handled ((save fault d1 ≫= f) s).
Proof.
  intros Hn Hk Hf. pose proof (handled_next rc_of staging fault s r d1 r1 prep1) as Hnext. unfold written, clean in Hnext.
  assert (forall a, is_ok a = false -> known rc_of staging d1 a) as Hfail by (intros b Hb x rc ->; done).
  unfold save, persist_journal. unfold mbind at 1, meth_bind at 1. rewrite self_bind, pure_bind. destruct (encode_journal d1) as [bytes|e|]; [|by apply Hnext; [done|done|apply Hfail]..].
  destruct fault; cbn.
  - rewrite (li_healthy _ _ _ Hlive), Hf. apply Hnext; [done| |done]. intros _. split; [done|]. by exists bytes.
  - by apply Hnext; [done|done|apply Hfail].
  - by apply Hnext; [done|done|apply Hfail].
Qed.

End operations.
(** *** Each operation *)

Lemma push_pushed d e rc : receipt_from_entry e = Ok rc -> push_entry d e rc None = pushed d e.
Proof. unfold receipt_from_entry. intros H. simplify_res. done. Qed.

Lemma known_Some staging d e rc : receipt_from_entry e = Ok rc -> e ∈ entries d \/ staging = true /\ prepared d = Some e -> known Some staging d (Ok rc).
Proof. intros Hr He x rc' [= <-] [= <-]. by exists e. Qed.

Lemma known_receipt staging d e : e ∈ entries d \/ staging = true /\ prepared d = Some e -> known Some staging d (receipt_from_entry e).
Proof. intros He. destruct (receipt_from_entry e) as [rc| |] eqn:Hr; [by eapply known_Some|intros x rc' [=]..]. Qed.

Lemma pushed_elem (d : journal) e : e ∈ entries (pushed d e).
Proof. cbn. apply elem_of_app. right. by apply list_elem_of_singleton. Qed.

Section requests.
Context {GT : GeneratorTimestamps G} (fault : Fault) (wall : option Z) (s : service) (r : Replay) (prep : option Producer) (Hlive : live s r prep).

#[local] Notation commits := (handled Some false fault s r).
#[local] Notation stages := (handled Some true fault s r).

Lemma handled_admit staging id fp (otherwise : meth Receipt) : (id ∉ request_ids r -> handled Some staging fault s r (otherwise s)) ->
  handled Some staging fault s r (idempotently id fp otherwise s).
Proof.
  intros H. unfold idempotently, idempotent_receipt. unfold mbind at 1, meth_bind at 1. rewrite self_bind. destruct (find_entry id s) as [e|] eqn:Hf.
  - destruct (find_entry_Some _ _ _ Hf) as [He _]. rewrite pure_bind. destruct (reject _ _) as [u| |]; [|by apply handled_error..]. unfold pure, map_receipt.
    destruct (receipt_from_entry e) as [rc| |] eqn:Hr; [|by apply handled_error..]. constructor. by eapply known_Some; [|left].
  - apply H. by eapply find_entry_None.
Qed.

Lemma handled_commit id fp a : committable a = true -> validate_request_id id = Ok tt -> id ∉ request_ids r -> fingerprint_for_action a = Ok fp ->
  prior_timestamp r < action_timestamp a -> commits (apply_and_persist fault id fp a s).
Proof.
  intros Hc Hid Hfresh Hfp Ht. unfold apply_and_persist. apply handled_no_prepared. intros Hnone. rewrite self_bind, Hnone.
  eapply handled_build; [exact Hlive|done..|]. intros [p e] [Hf _ He Hb]. cbn [fst snd] in *. apply handled_pure. intros rc Hrc. rewrite (push_pushed _ _ _ Hrc).
  eapply (handled_save _ _ _ _ Hlive _ _ _ (extend r e p) None (Ok rc)).
  - apply next_commit; [by rewrite He|done|done|]. by rewrite Hnone.
  - eapply known_Some; [done|left; apply pushed_elem].
  - intros bytes. cbn. destruct (li_good _ _ _ Hlive) as [_ _ _ _ _ _ _ _ Hp]. rewrite Hnone in Hp. destruct prep; [done|]. by rewrite (li_prepared _ _ _ Hlive).
Qed.

Lemma handled_stage id fp a : prepared (disk s) = None -> preparable a = true -> validate_request_id id = Ok tt -> id ∉ request_ids r -> fingerprint_for_action a = Ok fp ->
  prior_timestamp r < action_timestamp a -> stages (stage fault id fp a s).
Proof.
  intros Hnone Hc Hid Hfresh Hfp Ht. unfold stage. rewrite self_bind. eapply handled_build; [exact Hlive|done..|]. intros [p e] [Hf _ He Hb]. cbn [fst snd] in *.
  apply handled_pure. intros rc Hrc. eapply (handled_save _ _ _ _ Hlive _ _ _ r (Some p) (Ok rc)).
  - apply next_stage; [done|by rewrite He|done|done].
  - eapply known_Some; [done|by right].
  - intros bytes. cbn. by rewrite (li_producer _ _ _ Hlive).
Qed.

(** The beginning of every request. *)
Ltac request := apply handled_healthy with prep; [exact Hlive|]; try (apply handled_no_prepared; intros Hnone); apply handled_pure; intros [] Hid.

Lemma register_handled id snapshot : commits (register fault wall id snapshot s).
Proof.
  unfold register. request. apply handled_pure. intros fp Hfp. apply handled_admit. intros Hfresh. eapply handled_timestamp; [exact Hlive|]. intros t Ht.
  by apply handled_commit.
Qed.

Lemma post_deposit_handled id deposit : commits (post_deposit fault wall id deposit s).
Proof.
  unfold post_deposit. request. apply handled_pure. intros fp Hfp. apply handled_admit. intros Hfresh. eapply handled_timestamp; [exact Hlive|]. intros t Ht.
  by apply handled_commit.
Qed.

Lemma sync_handled id states : commits (sync_offchain_heads fault wall id states s).
Proof.
  unfold sync_offchain_heads. request. apply handled_reject. intros _. apply handled_pure. intros fp Hfp. apply handled_admit. intros Hfresh. rewrite self_bind.
  apply handled_reject. intros _. eapply handled_timestamp; [exact Hlive|]. intros t Ht. by apply handled_commit.
Qed.

Lemma adopt_handled id record state : commits (adopt_delegate_join fault wall id record state s).
Proof.
  unfold adopt_delegate_join. request. apply handled_pure. intros fp Hfp. apply handled_admit. intros Hfresh. rewrite self_bind.
  apply handled_pure. intros [] _. eapply handled_timestamp; [exact Hlive|]. intros t Ht. by apply handled_commit.
Qed.

(** The prepared entry is the next one of the journal. *)
Lemma live_prepared e0 : prepared (disk s) = Some e0 -> exists p0, prep = Some p0 /\ preparable (action e0) = true /\ follows r e0 p0 /\ Z.of_nat (index r) + 1 < 2 ^ 64.
Proof.
  intros He. pose proof (good_index _ _ _ (li_good _ _ _ Hlive)) as Hi. destruct (li_good _ _ _ Hlive) as [_ _ _ _ _ _ Hg _ Hp]. rewrite He in Hp.
  destruct prep as [p0|]; [|done]. destruct Hp as (? & ? & ?). exists p0. split_and!; try done. lia.
Qed.

Lemma staged_timestamp_Ok e0 fp t : staged_timestamp e0 fp = Ok t ->
  is_staged (action e0) = true /\ action_timestamp (action e0) = t /\ ProductionJournalEntry.request_fingerprint e0 = fp.
Proof. unfold staged_timestamp. destruct (action e0); try done. case_bool_decide; [|done]. by intros [= <-]. Qed.

Lemma post_handled id state debit d : commits (post_inter_channel fault wall id state debit d s).
Proof.
  unfold post_inter_channel. request. apply handled_pure. intros fp Hfp. apply handled_admit. intros Hfresh. rewrite self_bind. destruct (prepared (disk s)) as [e0|] eqn:He0.
  - destruct (live_prepared _ He0) as (p0 & Hprep & _ & Hf0 & Hb0). apply handled_pure. intros fp0 Hfp0. apply handled_pure. intros t (Hst & Ht & <-)%staged_timestamp_Ok.
    eapply handled_build; [exact Hlive|done|done|done|cbn; rewrite <- Ht; apply (fo_timestamp _ _ _ Hf0)|]. intros [p e] [Hf _ He Hb]. cbn [fst snd] in *.
    apply handled_reject. intros Hres%bool_decide_eq_false. stable. apply handled_pure. intros rc Hrc. rewrite (push_pushed _ _ _ Hrc).
    eapply (handled_save _ _ _ _ Hlive _ _ _ (extend r e p) None (Ok rc)); [|eapply known_Some; [done|left; apply pushed_elem]|done].
    apply next_commit; [by rewrite He|done|done|]. rewrite He0. intros e1 [= <-]. right. exists state, debit, d, t. split_and!; try done.
    by rewrite (fo_generation _ _ _ Hf), (fo_generation _ _ _ Hf0).
  - apply handled_reject. intros _. eapply handled_timestamp; [exact Hlive|]. intros t Ht. by apply handled_commit.
Qed.

Lemma prepare_close_handled id state plan : stages (prepare_close_funding fault wall id state plan s).
Proof.
  unfold prepare_close_funding. request. apply handled_pure. intros fp Hfp. apply handled_admit. intros Hfresh. rewrite self_bind. destruct (prepared (disk s)) as [e0|] eqn:He0.
  - apply handled_reject. intros _. apply handled_reject. intros _. constructor. apply known_receipt. by right.
  - apply handled_reject. intros _. eapply handled_timestamp; [exact Hlive|]. intros t Ht. by apply handled_stage.
Qed.

Lemma existsb_ids (es : list entry) id : existsb (fun e => bool_decide (id_of e = id)) es = false -> id ∉ id_of <$> es.
Proof. rewrite existsb_Forall. intros H (e & -> & He)%list_elem_of_fmap. rewrite list.Forall_forall in H. by apply H, bool_decide_eq_false in He. Qed.

Lemma prepare_exit_kit_handled id state debit d : stages (prepare_inter_channel_exit_kit fault wall id state debit d s).
Proof.
  unfold prepare_inter_channel_exit_kit. request. apply handled_pure. intros fp Hfp. rewrite self_bind. destruct (prepared (disk s)) as [e0|] eqn:He0.
  - destruct (_ && _); [|by apply handled_error]. constructor. apply known_receipt. by right.
  - apply handled_reject. intros Hids%existsb_ids. rewrite <- (good_ids _ _ _ _ (li_good _ _ _ Hlive)) in Hids. apply handled_reject. intros _.
    eapply handled_timestamp; [exact Hlive|]. intros t Ht. by apply handled_stage.
Qed.

Lemma promote_handled anchor : commits (promote_prepared fault anchor s).
Proof.
  unfold promote_prepared. rewrite self_bind. apply handled_pure. intros e0 He0%ok_or_Ok. destruct (live_prepared _ He0) as (p0 & Hprep & _ & Hf0 & Hb0).
  apply handled_pure. intros anchor' _. apply handled_reject. intros _. apply handled_reject. intros Hcl%negb_false_iff. apply handled_pure. intros p Hp%ok_or_Ok.
  rewrite (li_prepared _ _ _ Hlive), Hprep in Hp. injection Hp as ->. apply handled_pure. intros rc Hrc. rewrite (push_pushed _ _ _ Hrc).
  eapply (handled_save _ _ _ _ Hlive _ _ _ (extend r e0 p) None (Ok rc)); [|eapply known_Some; [done|left; apply pushed_elem]|done].
  apply next_commit; [by destruct (action e0)|done|done|]. rewrite He0. intros e1 [= <-]. by left.
Qed.

Lemma commit_prepared_handled id state plan anchor : commits (commit_prepared_close_funding fault id state plan anchor s).
Proof.
  unfold commit_prepared_close_funding. request. apply handled_pure. intros fp Hfp.
  destruct (idempotent_receipt id fp s) as [s' m] eqn:Hi. assert (s' = s) as ->.
  { unfold idempotent_receipt in Hi. rewrite self_bind in Hi. destruct (find_entry id s); [|by injection Hi]. rewrite pure_bind in Hi. by destruct (reject _ _); injection Hi. }
  eapply handled_query; [exact Hi|]. intros rc ->. rewrite self_bind. destruct rc as [rc|].
  - apply handled_pure. intros e He%unwrap_Ok. apply handled_pure. intros anchor' _. apply handled_reject. intros _. constructor.
    unfold idempotent_receipt in Hi. rewrite self_bind, He, pure_bind in Hi. destruct (reject _ _); [|done..]. unfold pure, map_receipt in Hi. injection Hi as Hi. simplify_res.
    injection Hi as ->. eapply known_Some; [done|left]. by eapply find_entry_Some.
  - apply handled_pure. intros e0 _. apply handled_reject. intros _. apply handled_pure. intros anchor' _. apply handled_reject. intros _. apply promote_handled.
Qed.

Lemma commit_at_anchor_handled anchor : commits (commit_prepared_close_funding_at_anchor fault anchor s).
Proof.
  unfold commit_prepared_close_funding_at_anchor. apply handled_healthy with prep; [exact Hlive|]. rewrite self_bind. apply handled_pure. intros [e|] He.
  - apply handled_reject. intros _. constructor. apply known_receipt. left. unfold committed_entry_at_anchor in He. destruct (_ || _); [done|].
    destruct (entries (disk s) !! _) as [e'|] eqn:Hl; [|done]. simplify_res. case_bool_decide; [done|]. injection He as <-. by eapply list_elem_of_lookup_2.
  - apply handled_reject. intros _. apply promote_handled.
Qed.

Lemma abandon_handled id : handled (fun _ => None) false fault s r (abandon_prepared_inter_channel_exit_kit fault id s).
Proof.
  unfold abandon_prepared_inter_channel_exit_kit. apply handled_healthy with prep; [exact Hlive|]. rewrite self_bind. destruct (prepared (disk s)) as [e0|] eqn:He0.
  - apply handled_reject. intros _. apply handled_reject. intros Hst%negb_false_iff.
    eapply (handled_save _ _ _ _ Hlive _ _ _ r None (Ok tt)); [by eapply next_abandon|by intros ? ? ? [=]|]. intros bytes. cbn. by rewrite (li_producer _ _ _ Hlive).
  - constructor. by intros ? ? ? [=].
Qed.
End requests.
(** ** The calls of a service *)

Context {CC : CommandCodec}.

Inductive op :=
| ORegister (id : list Z) (snapshot : ChannelSnapshot)
| ODeposit (id : list Z) (deposit : ProductionDepositRequest)
| OSync (id : list Z) (states : list ChannelState)
| OAdopt (id : list Z) (record : ChannelRecord) (state : ChannelState)
| OPost (id : list Z) (state : ChannelState) (debit : InterChannelDebitPayload) (d : InterChannelTransferDescriptor)
| OPrepareClose (id : list Z) (state : ChannelState) (plan : CloseFundingPlan)
| OCommitClose (id : list Z) (state : ChannelState) (plan : CloseFundingPlan) (anchor : BlockProducerAnchor)
| OCommitAtAnchor (anchor : BlockProducerAnchor)
| OPrepareExitKit (id : list Z) (state : ChannelState) (debit : InterChannelDebitPayload) (d : InterChannelTransferDescriptor)
| OAbandon (id : list Z)
| OExecute (command : BlockProducerCommand).

Definition answered (m : meth Receipt) : meth (option Receipt) := rc ← m; mret (Some rc).

Definition command_receipt (x : BlockProducerCommandResult) : option Receipt := match x with ReceiptResult rc => Some rc | StatusResult _ => None end.

(** The operation and the receipt that it answers with, if any. *)
Definition apply (fault : Fault) (wall : option Z) (o : op) : meth (option Receipt) :=
  match o with
  | ORegister id snapshot => answered (register fault wall id snapshot)
  | ODeposit id deposit => answered (post_deposit fault wall id deposit)
  | OSync id states => answered (sync_offchain_heads fault wall id states)
  | OAdopt id record state => answered (adopt_delegate_join fault wall id record state)
  | OPost id state debit d => answered (post_inter_channel fault wall id state debit d)
  | OPrepareClose id state plan => answered (prepare_close_funding fault wall id state plan)
  | OCommitClose id state plan anchor => answered (commit_prepared_close_funding fault id state plan anchor)
  | OCommitAtAnchor anchor => answered (commit_prepared_close_funding_at_anchor fault anchor)
  | OPrepareExitKit id state debit d => answered (prepare_inter_channel_exit_kit fault wall id state debit d)
  | OAbandon id => _ ← abandon_prepared_inter_channel_exit_kit fault id; mret None
  | OExecute command => x ← execute fault wall command; mret (command_receipt x)
  end.

(** The operations whose answer may be about a prepared entry. *)
Definition stages_entry (o : op) : bool :=
  match o with OPrepareClose _ _ _ | OPrepareExitKit _ _ _ _ | OExecute (PrepareInterChannelExitKitCommand _ _ _ _) => true | _ => false end.

(** A query after an operation, which leaves the service alone and adds no receipt. *)
Lemma handled_then {A B} (rc_of : A -> option Receipt) (rc_of' : B -> option Receipt) staging fault s r (m : meth A) (f : A -> meth B) :
  (forall a s', (f a s').1 = s' /\ forall b rc, (f a s').2 = Ok b -> rc_of' b = Some rc -> rc_of a = Some rc) ->
  handled rc_of staging fault s r (m s) -> handled rc_of' staging fault s r ((m ≫= f) s).
Proof.
  intros Hf H. unfold mbind, meth_bind. assert (forall d a s', known rc_of staging d (Ok a) -> known rc_of' staging d (f a s').2) as Hk.
  { intros d a s' Ha b rc Hb Hrc. destruct (Hf a s') as [_ Hrc']. apply (Ha a); [done|by eapply Hrc']. }
  destruct H as [[a|e|] Ha|d1 r1 prep1 [a|e|] Hn Hc Ha].
  - specialize (Hk _ _ s Ha). destruct (Hf a s) as [Hs _]. destruct (f a s) as [s' b]. cbn in Hs, Hk. subst s'. by constructor.
  - by apply handled_error.
  - by apply handled_error.
  - specialize (Hk _ _ (written fault s d1 (replayed r1) prep1) Ha). destruct (Hf a (written fault s d1 (replayed r1) prep1)) as [Hs _]. destruct (f a _) as [s' b]. cbn in Hs, Hk. subst s'.
    apply handled_next; [done|by intros _; apply Hc|done].
  - apply handled_next; [done|done|by intros ? ? [=]].
  - apply handled_next; [done|done|by intros ? ? [=]].
Qed.

Lemma handled_answer {B} (rc_of' : B -> option Receipt) (k : Receipt -> B) staging fault s r (m : meth Receipt) : (forall rc, rc_of' (k rc) = Some rc) ->
  handled Some staging fault s r (m s) -> handled rc_of' staging fault s r ((m ≫= fun rc => mret (k rc)) s).
Proof. intros Hk. apply handled_then. intros rc s'. split; [done|]. intros b rc' [= <-]. by rewrite Hk. Qed.

Lemma status_reads (s : service) : (status s).1 = s.
Proof. unfold status, ensure_healthy, mbind, meth_bind, self, pure. destruct (poisoned s); [done|]. by destruct (extended_state_commitment _). Qed.

Lemma execute_handled {GT : GeneratorTimestamps G} fault wall s r prep command : live s r prep ->
  handled command_receipt (stages_entry (OExecute command)) fault s r (execute fault wall command s).
Proof.
  intros Hl. destruct command; cbn [execute stages_entry]; try (by apply handled_error); repeat (apply handled_pure; intros ? _); unfold answer;
    try (apply handled_answer; [done|]; eauto using register_handled, post_deposit_handled, sync_handled, adopt_handled, post_handled, prepare_exit_kit_handled).
  - pose proof (status_reads s) as Hs. unfold mbind, meth_bind. destruct (status s) as [s' [st| |]]; cbn in Hs; subst s'; [|by apply handled_error..]. constructor. by intros ? ? [= <-] [=].
  - eapply handled_then; [|by eapply abandon_handled]. intros [] s'. pose proof (status_reads s') as Hs. unfold mbind, meth_bind. destruct (status s') as [s2 [st| |]]; cbn in Hs; subst s2.
    + split; [done|]. by intros b rc [= <-] [=].
    + done.
    + done.
Qed.

Lemma apply_handled {GT : GeneratorTimestamps G} fault wall s r prep o : live s r prep -> handled id (stages_entry o) fault s r (apply fault wall o s).
Proof.
  intros Hl. destruct o; cbn [apply]; unfold answered;
    try (apply handled_answer; [done|]; cbn [stages_entry]; eauto using register_handled, post_deposit_handled, sync_handled, adopt_handled, post_handled, prepare_close_handled,
      commit_prepared_handled, commit_at_anchor_handled, prepare_exit_kit_handled).
  - eapply handled_then; [|by eapply abandon_handled]. intros [] s'. split; [done|]. by intros b rc [= <-] [=].
  - eapply handled_then; [|by eapply execute_handled]. intros x s'. split; [done|]. by intros b rc [= <-].
Qed.

(** A poisoned service refuses. *)
Lemma poisoned_bind {A} (f : unit -> meth A) s : poisoned s = true -> (ensure_healthy ≫= f) s = (s, Err Poisoned).
Proof. intros Hp. unfold ensure_healthy, mbind, meth_bind, self, pure. by rewrite Hp. Qed.

Ltac refuses Hp := unfold register, post_deposit, sync_offchain_heads, adopt_delegate_join, post_inter_channel, prepare_close_funding, commit_prepared_close_funding,
  commit_prepared_close_funding_at_anchor, prepare_inter_channel_exit_kit, abandon_prepared_inter_channel_exit_kit, status; by rewrite (poisoned_bind _ _ Hp).

Lemma poisoned_execute fault wall command s : poisoned s = true -> exists e, execute fault wall command s = (s, e) /\ is_ok e = false.
Proof.
  intros Hp. destruct command; cbn [execute]; unfold answer; rewrite ?pure_bind;
    repeat match goal with |- context [command_payload ?x] => destruct (command_payload x); [rewrite ?pure_bind|eexists; by split..] end;
    first [by eexists|exists (Err Poisoned); split; [unfold mbind at 1, meth_bind at 1; refuses Hp|done]].
Qed.

Lemma poisoned_same fault wall o s : poisoned s = true -> exists e, apply fault wall o s = (s, e) /\ is_ok e = false.
Proof.
  intros Hp. destruct o; cbn [apply]; unfold answered; try (exists (Err Poisoned); split; [unfold mbind at 1, meth_bind at 1; refuses Hp|done]).
  destruct (poisoned_execute fault wall command s Hp) as (e & He & Hne). unfold mbind, meth_bind. rewrite He. destruct e; [done|by eexists..].
Qed.
End journal.
