(* ===== verification/ServiceRun.v ===== *)
(** * A service under crashes and restarts

    The worlds of a service: down with its journal file, or up.  The invariant
    [serves] ties the file to a sound journal and the memory of a healthy service
    to it; every step keeps it and moves the journal forward.  The committed
    entries stand for calls of the producer, and the hash chain fixes them. *)

From S2P Require Import Prelude Limbs U63 Circuit MerkleTree LeafTrees Poseidon IndexedTree Keccak Regev BalanceState Account Ledger Balance Channel HashChains BlockStep CloseFunding WalletChecks Producer BlockChain Payout ProducerProps ProducerRun ProducerService ServiceProps.
Import BlockProducerService.

#[local] Remove Hints Leafable_Bytes32 : typeclass_instances.

#[local] Notation service := BlockProducerService.
#[local] Notation journal := ProductionJournalFile.
#[local] Notation entry := ProductionJournalEntry.
#[local] Notation Receipt := BlockProducerReceipt.
#[local] Notation Producer := ProductionBlockProducer.ProductionBlockProducer.
#[local] Notation res := (res BlockProducerServiceError).
#[local] Notation entries := ProductionJournalFile.entries.
#[local] Notation prepared := ProductionJournalFile.prepared.
#[local] Notation action := ProductionJournalEntry.action.
#[local] Notation id_of := ProductionJournalEntry.request_id.
#[local] Notation counts_of := ProductionJournalFile.supported_user_counts.
#[local] Notation tail_of := ProductionJournalFile.tail_hash.

Lemma rtc_preserves {A} {R : relation A} (I : A -> Prop) x y : I x -> (forall x y, I x -> R x y -> I y) -> rtc R x y -> I y.
Proof. intros Hx Hs H. induction H as [x|x y z Hxy _ IH]; [done|]. apply IH. by eapply Hs. Qed.

Section worlds.
Context {P : Poseidon} {W : PoseidonWords P} {K : Keccak} {CV : CosignVerifier} {G : BlockWitnessGenerator} {GS : GeneratorState} {JC : JournalCodec} {CC : CommandCodec}.

Inductive world := Down (file : option (list Z)) | Up (s : service).

Definition file_of (w : world) : option (list Z) := match w with Down file => file | Up s => file s end.

Definition durable (w : world) : option journal :=
  match file_of w with
  | Some bytes => match read_journal bytes with Ok d => Some d | _ => None end
  | None => None
  end.

Section runs.
Context (counts : list Z).

Inductive step : world -> world -> Prop :=
| step_open fault file : step (Down file) (match open fault file counts with (_, Ok s) => Up s | (file', _) => Down file' end)
| step_apply fault wall o s : step (Up s) (Up (apply fault wall o s).1)
| step_crash s : step (Up s) (Down (file s)).

Record serves (w : world) (d : journal) (r : Replay) (prep : option Producer) : Prop := {
  sv_durable : durable w = Some d;
  sv_good : good d r prep;
  sv_counts : counts_of d = counts;
  sv_memory : forall s, w = Up s -> poisoned s = false -> disk s = d /\ producer s = replayed r /\ prepared_producer s = prep;
}.

Lemma durable_file w d : durable w = Some d -> exists bytes, file_of w = Some bytes /\ read_journal bytes = Ok d.
Proof. unfold durable. destruct (file_of w) as [bytes|]; [|done]. destruct (read_journal bytes) eqn:Hr; try done. intros [= <-]. eauto. Qed.

Lemma serves_live s d r prep : serves (Up s) d r prep -> poisoned s = false -> live s r prep /\ disk s = d.
Proof. intros [_ Hg _ Hm] Hp. destruct (Hm s eq_refl Hp) as (Hd & ? & ?). split; [|done]. constructor; try done. by rewrite Hd. Qed.

Lemma open_serves fault w d r prep bytes : serves w d r prep -> file_of w = Some bytes ->
  open fault (Some bytes) counts = (Some bytes, Ok (mk (Some bytes) d (replayed r) prep false)).
Proof.
  intros [Hd Hg Hc _] Hf. unfold durable in Hd. rewrite Hf in Hd. destruct (read_journal bytes) as [d'| |] eqn:Hr; try done. injection Hd as ->.
  unfold open. rewrite <- Hc, (go_counts _ _ _ Hg), Hr. f_equal. cbn [mbind res_bind]. passes. { apply refl_check. } by rewrite (good_replays _ _ _ Hg).
Qed.

Lemma empty_good d : validate_supported_user_counts counts = Ok tt -> empty_journal counts = Ok d -> exists r, good d r None /\ counts_of d = counts.
Proof.
  intros Hv H. unfold empty_journal in H. simplify_res. exists (genesis_replay counts r). split; [|done]. constructor; cbn; try done.
  exists r. split; [done|constructor].
Qed.

(** The journal stands still or takes one of its next steps. *)
Definition moves_to (d : journal) (r : Replay) (prep : option Producer) (d' : journal) (r' : Replay) (prep' : option Producer) : Prop :=
  d' = d /\ r' = r /\ prep' = prep \/ next_journal d r d' r' prep'.

Context {JO : JournalCodecOk JC} {GT : GeneratorTimestamps G}.

Lemma serves_still s d r prep : serves (Up s) d r prep -> forall s', file s' = file s -> (poisoned s' = false -> s' = s) -> serves (Up s') d r prep.
Proof.
  intros [Hd Hg Hc Hm] s' Hf Hs. constructor; try done; [unfold durable in *; cbn in *; by rewrite Hf|]. intros s1 [= <-] Hp. rewrite (Hs Hp). apply Hm; [done|]. by rewrite <- (Hs Hp).
Qed.

Lemma written_serves fault s d r prep d1 r1 prep1 : serves (Up s) d r prep -> poisoned s = false -> next_journal d r d1 r1 prep1 -> exists d' r' prep',
  serves (Up (written fault s d1 (replayed r1) prep1)) d' r' prep' /\ moves_to d r prep d' r' prep' /\ (clean fault d1 -> d' = d1).
Proof.
  intros Hs Hp Hn. pose proof (good_next _ _ _ _ _ _ (sv_good _ _ _ _ Hs) Hn) as Hg1. assert (counts_of d1 = counts) as Hc1 by (rewrite <- (sv_counts _ _ _ _ Hs); by destruct Hn).
  assert (forall f, f = file s -> serves (Up (poison s f)) d r prep) as Hold by (intros f ->; by apply (serves_still s)).
  assert (forall bytes p, encode_journal d1 = Ok bytes -> (poisoned p = false -> p = mk (Some bytes) d1 (replayed r1) prep1 false) -> file p = Some bytes -> serves (Up p) d1 r1 prep1) as Hnew.
  { intros bytes p He%encode_reads Hpp Hf. constructor; try done; [unfold durable; cbn; by rewrite Hf, He|]. intros s1 [= <-] H1. by rewrite (Hpp H1). }
  unfold written, clean. destruct (encode_journal d1) as [bytes|e|] eqn:He; [destruct fault|..].
  - exists d1, r1, prep1. split; [by eapply Hnew|]. split; [by right|done].
  - exists d, r, prep. split; [by apply Hold|]. split; [by left|by intros []].
  - exists d1, r1, prep1. split; [by eapply Hnew|]. split; [by right|done].
  - exists d, r, prep. split; [by apply Hold|]. split; [by left|]. intros [_ [? [=]]].
  - exists d, r, prep. split; [by apply Hold|]. split; [by left|]. intros [_ [? [=]]].
Qed.

(** One operation: the journal moves on, and what is answered is in it. *)
Lemma apply_serves fault wall o s d r prep : serves (Up s) d r prep -> exists d' r' prep', serves (Up (apply fault wall o s).1) d' r' prep' /\
  moves_to d r prep d' r' prep' /\ known id (stages_entry o) d' (apply fault wall o s).2.
Proof.
  intros Hs. destruct (poisoned s) eqn:Hp.
  { destruct (poisoned_same fault wall o s Hp) as (e & -> & He). exists d, r, prep. split; [done|]. split; [by left|]. cbn. by intros x rc ->. }
  destruct (serves_live _ _ _ _ Hs Hp) as [Hl Hd]. destruct (apply_handled fault wall s r prep o Hl) as [a Hk|d1 r1 prep1 a Hn Hc Hk]; rewrite Hd in *; cbn [fst snd].
  - exists d, r, prep. split; [done|]. split; [by left|done].
  - destruct (written_serves fault s d r prep d1 r1 prep1 Hs Hp Hn) as (d' & r' & prep' & Hs' & Hm & Hd'). exists d', r', prep'. split; [done|]. split; [done|].
    destruct a as [a| |]; [|by intros ? ? [=]..]. rewrite Hd' by by apply Hc. done.
Qed.

Lemma step_serves w w' d r prep : step w w' -> serves w d r prep -> exists d' r' prep', serves w' d' r' prep' /\ moves_to d r prep d' r' prep'.
Proof.
  intros [fault f|fault wall o s|s] Hs.
  - destruct (durable_file _ _ (sv_durable _ _ _ _ Hs)) as (bytes & Hf & _). cbn in Hf. subst f. rewrite (open_serves fault _ _ _ _ bytes Hs eq_refl). exists d, r, prep. split; [|by left].
    destruct Hs as [Hd Hg Hc _]. constructor; try done. by intros s [= <-] _.
  - destruct (apply_serves fault wall o s d r prep Hs) as (d' & r' & prep' & ? & ? & _). eauto.
  - exists d, r, prep. split; [|by left]. destruct Hs as [Hd Hg Hc _]. by constructor.
Qed.

(** The first start. *)
Lemma step_fresh w : step (Down None) w -> w = Down None \/ exists d r prep, serves w d r prep.
Proof.
  intros H. inversion H as [fault f Hf Hw|fault wall o s Hf|s Hf]; subst f. clear H Hw. unfold open.
  destruct (validate_supported_user_counts counts) as [[]| |] eqn:Hv; [|by left..]. destruct (empty_journal counts) as [d| |] eqn:He; [|by left..].
  destruct (empty_good d Hv He) as (r & Hg & Hc). assert (forall bytes w, encode_journal d = Ok bytes -> file_of w = Some bytes -> (forall s, w = Up s -> s = mk (Some bytes) d (replayed r) None false) ->
    exists d r prep, serves w d r prep) as Hnew.
  { intros bytes w' Hb%encode_reads Hf Hs. exists d, r, None. constructor; try done; [unfold durable; by rewrite Hf, Hb|]. intros s Hw _. by rewrite (Hs s Hw). }
  unfold persist_journal. rewrite pure_bind. destruct (encode_journal d) as [bytes| |] eqn:Hb; [|by left..]. destruct fault; cbn.
  - rewrite Hc, refl_check. cbn. rewrite (good_replays _ _ _ Hg). cbn. right. eapply Hnew; [done|done|]. by intros s [= <-].
  - by left.
  - right. by eapply Hnew.
Qed.

Lemma reach_serves w : rtc step (Down None) w -> w = Down None \/ exists d r prep, serves w d r prep.
Proof.
  apply (rtc_preserves (fun w => w = Down None \/ exists d r prep, serves w d r prep)); [by left|].
  intros w1 w2 [->|(d & r & prep & H0)] Hs; [by apply step_fresh|]. right. destruct (step_serves _ _ _ _ _ Hs H0) as (d' & r' & prep' & ? & _). eauto.
Qed.

(** ** Journals over time *)

Lemma moves_prefix d r prep d' r' prep' : moves_to d r prep d' r' prep' -> entries d `prefix_of` entries d'.
Proof. intros [(-> & _ & _)|[e p _ _ _ _|e p _ _ _ _|e0 _ _]]; cbn; [done|by eexists|done|done]. Qed.

Lemma run_serves w w' d r prep : rtc step w w' -> serves w d r prep -> exists d' r' prep', serves w' d' r' prep' /\ entries d `prefix_of` entries d'.
Proof.
  intros H. revert d r prep. induction H as [w|w w1 w2 Hs _ IH]; intros d r prep Hd; [by exists d, r, prep|].
  destruct (step_serves _ _ _ _ _ Hs Hd) as (d1 & r1 & prep1 & Hd1 & Hm%moves_prefix). destruct (IH _ _ _ Hd1) as (d2 & r2 & prep2 & ? & ?). exists d2, r2, prep2. split; [done|]. by etransitivity.
Qed.
End runs.
(** ** Entries as calls of the producer *)

Definition call_of (a : ProductionJournalAction) : Call :=
  match a with
  | Register snapshot timestamp => RegisterSnapshot snapshot timestamp
  | PostDeposit deposit timestamp => DepositBlock deposit timestamp
  | SyncOffchainHeads signed_states _ => SyncHeads signed_states
  | PostInterChannel signed_state debit_payload descriptor timestamp => DescriptorBlock signed_state debit_payload descriptor timestamp
  | PostCloseFunding signed_state plan timestamp => CloseFundingBlock signed_state plan timestamp
  | AdoptDelegateJoin record signed_state _ => AdoptJoin record signed_state
  | StagedInterChannelExitKit _ _ _ _ | PostMemberSetUpdate _ _ _ _ _ => MemberSetUpdateBlock
  end.

Definition calls (d : journal) : list Call := (fun e => call_of (action e)) <$> entries d.

Lemma apply_call a p p' : committable a = true -> apply_action a p = (p', Ok tt) -> perform (call_of a) p = (p', true).
Proof.
  assert (forall A (m : meth Producer ProductionBlockProducerError A), ProducerService.call m p = (p', Ok tt) -> outcome m p = (p', true)) as H.
  { intros A m. unfold ProducerService.call, outcome. destruct (m p) as [p1 [x| |]]; cbn; congruence. }
  destruct a; cbn; intros Hc Ha; try done; by apply H.
Qed.

Lemma run_snoc ks p p1 log k p2 : run ks p = (p1, log) -> perform k p1 = (p2, true) -> run (ks ++ [k]) p = (p2, log ++ [k]).
Proof.
  revert p log. induction ks as [|k0 ks IH]; intros p log; cbn [run app].
  { intros [= <- <-] Hk. by rewrite Hk. }
  destruct (perform k0 p) as [q ok]. destruct (run ks q) as [q1 log1] eqn:Hq.
  intros [= -> <-] Hk. rewrite (IH _ _ Hq Hk). by destruct ok.
Qed.

Lemma run_app ks ks' p : (run (ks ++ ks') p).1 = (run ks' (run ks p).1).1.
Proof.
  revert p. induction ks as [|k ks IH]; intros p; cbn [run app]; [done|]. destruct (perform k p) as [p1 ok]. specialize (IH p1).
  destruct (run ks p1) as [p2 l2], (run (ks ++ ks') p1) as [p3 l3]. exact IH.
Qed.

Lemma replays_run r es r' : replays r es r' -> Forall (fun e => committable (action e) = true) es ->
  run ((fun e => call_of (action e)) <$> es) (replayed r) = (replayed r', (fun e => call_of (action e)) <$> es).
Proof.
  induction 1 as [|r es r1 e p _ IH Hf]; intros Hc; [done|]. apply list.Forall_app in Hc as [Hes He]. rewrite list.Forall_singleton in He.
  rewrite fmap_app. cbn [fmap list_fmap]. eapply run_snoc; [by apply IH|]. apply apply_call; [exact He|]. apply (fo_applied _ _ _ Hf).
Qed.

Lemma good_run d r prep : good d r prep -> run (calls d) (ProductionBlockProducer.new (counts_of d)) = (replayed r, calls d).
Proof. intros [_ _ _ Hp (g & _ & Hr) _ _ _ _]. apply (replays_run _ _ _ Hr Hp). Qed.

(** ** The payments of a journal *)

(** The channel that an action pays from and the nonce it spends. *)
Definition payment (a : ProductionJournalAction) : option (ChannelId * Z) :=
  match a with
  | PostInterChannel _ _ descriptor _ => Some (InterChannelTransferDescriptor.source_channel_id descriptor, InterChannelTx.base_nonce (InterChannelTransferDescriptor.inter_channel_tx descriptor))
  | PostCloseFunding _ plan _ => Some (CloseFundingPlan.source_channel_id plan, CloseFundingPlan.base_nonce plan)
  | _ => None
  end.

Definition spent (c : ChannelId) (d : journal) : list Z :=
  omap (fun e => match payment (action e) with Some (c', n) => if bool_decide (c' = c) then Some n else None | None => None end) (entries d).

Definition transactions (d : journal) : list Bytes32 :=
  omap (fun e => match action e with PostInterChannel _ _ descriptor _ => Some (InterChannelTransferDescriptor.tx_hash descriptor) | _ => None end) (entries d).

(** The payments are the calls that the producer numbers. *)
Lemma calls_numbered c d : nonces_of c (calls d) = spent c d.
Proof. unfold nonces_of, calls, spent. induction (entries d) as [|e es IH]; [done|]. cbn. by destruct (action e); cbn; repeat case_match; rewrite <- ?IH. Qed.

Lemma calls_fenced d : omap fenced (calls d) = transactions d.
Proof. unfold calls, transactions. induction (entries d) as [|e es IH]; [done|]. cbn. by destruct (action e); cbn; rewrite <- ?IH. Qed.

Lemma good_ledger d r prep : good d r prep -> (forall c, spent c d = seqZ 0 (next_nonce (replayed r) c)) /\ NoDup (transactions d).
Proof.
  intros Hr%good_run. pose proof (run_ledger (calls d) _ _ (new_ledger (counts_of d))) as H. rewrite Hr in H. destruct H as [_ Hn _ Ho].
  split; [intros c; rewrite <- calls_numbered; apply Hn|rewrite <- calls_fenced; exact Ho].
Qed.

(** ** Receipts *)

Lemma replays_nodup r es r' : replays r es r' -> NoDup (request_ids r) -> NoDup (request_ids r').
Proof. induction 1 as [|r es r1 e p _ IH Hf]; intros Hn; [done|]. cbn. apply list.NoDup_cons. split; [apply (fo_fresh _ _ _ Hf)|by apply IH]. Qed.

Lemma replays_request_ids r es r' : replays r es r' -> request_ids r' = reverse (id_of <$> es) ++ request_ids r.
Proof. induction 1 as [|r es r1 e p _ IH Hf]; [done|]. cbn. by rewrite IH, fmap_app, reverse_app. Qed.

Lemma good_nodup d r prep : good d r prep -> NoDup (id_of <$> entries d).
Proof.
  intros [_ _ _ _ (g & _ & Hr) _ _ _ _]. pose proof (replays_nodup _ _ _ Hr base.NoDup_nil_2) as Hn. rewrite (replays_request_ids _ _ _ Hr), app_nil_r in Hn.
  by rewrite <- (reverse_Permutation (id_of <$> entries d)).
Qed.

(** An entry is found under its request id. *)
Lemma find_unique (es : list entry) e : NoDup (id_of <$> es) -> e ∈ es -> List.find (fun x => bool_decide (id_of x = id_of e)) es = Some e.
Proof.
  induction es as [|x es IH]; intros Hn He; [by apply elem_of_nil in He|]. cbn. apply list.NoDup_cons in Hn as [Hx Hn]. case_bool_decide as Hid.
  - apply elem_of_cons in He as [->|He]; [done|]. destruct Hx. rewrite Hid. by apply list_elem_of_fmap_2.
  - apply elem_of_cons in He as [->|He]; [done|]. by apply IH.
Qed.

Lemma receipt_request_id e rc : receipt_from_entry e = Ok rc -> BlockProducerReceipt.request_id rc = id_of e.
Proof. unfold receipt_from_entry. intros H. simplify_res. done. Qed.

(** A committed entry is what its request id is answered with. *)
Lemma answered_again s d r prep e rc : live s r prep -> disk s = d -> e ∈ entries d -> receipt_from_entry e = Ok rc ->
  receipt (BlockProducerReceipt.request_id rc) s = (s, Ok (Some rc)) /\
  forall otherwise, idempotently (BlockProducerReceipt.request_id rc) (ProductionJournalEntry.request_fingerprint e) otherwise s = (s, Ok rc).
Proof.
  intros Hl Hd He Hrc. assert (find_entry (BlockProducerReceipt.request_id rc) s = Some e) as Hf.
  { unfold find_entry. rewrite (receipt_request_id _ _ Hrc), Hd. apply find_unique; [|done]. rewrite <- Hd. by eapply good_nodup, li_good. }
  split.
  - unfold receipt, ensure_healthy, mbind, meth_bind, self, pure. rewrite (li_healthy _ _ _ Hl), Hf. cbn. by rewrite Hrc.
  - intros otherwise. unfold idempotently, idempotent_receipt. unfold mbind at 1, meth_bind at 1. rewrite self_bind, Hf, pure_bind. unfold reject. rewrite refl_check. cbn. by rewrite Hrc.
Qed.

(** A request that is answered leaves a healthy service. *)
Lemma apply_answers {GT : GeneratorTimestamps G} counts fault wall o s d r prep s' x : serves counts (Up s) d r prep -> apply fault wall o s = (s', Ok x) -> poisoned s' = false.
Proof.
  intros Hs Ha. destruct (poisoned s) eqn:Hp; [destruct (poisoned_same fault wall o s Hp) as (e & He & Hne); rewrite Ha in He; by injection He as -> <-|].
  destruct (serves_live _ _ _ _ _ Hs Hp) as [Hl _]. pose proof (apply_handled fault wall s r prep o Hl) as H. rewrite Ha in H.
  inversion H as [a _ Hsa|d1 r1 prep1 a _ Hc _ Hsa]; subst; [done|]. destruct Hc as [-> [bytes Hb]]; [done|]. unfold written. by rewrite Hb.
Qed.

Lemma written_healthy fault s (d1 : journal) p1 prep1 : poisoned (written fault s d1 p1 prep1) = false -> disk (written fault s d1 p1 prep1) = d1.
Proof. unfold written. destruct (encode_journal d1); [destruct fault|..]; done. Qed.

Lemma take_subset {A} n (l : list A) : take n l ⊆ l.
Proof. intros x Hx. rewrite <- (take_drop n l). apply elem_of_app. by left. Qed.

(** ** The hash chain *)

(** The values that the chain of a journal hashes. *)
Definition hashed (counts : list Z) (es : list entry) : list Hashed :=
  genesis_material counts :: (entry_material <$> es).

(** A value of the one list and a value of the other have different bytes and the same hash. *)
Definition chain_collision (l l' : list Hashed) : Prop := exists a b x y h, a ∈ l /\ b ∈ l' /\ to_vec a = Some x /\ to_vec b = Some y /\ x <> y /\
  from_bytes_be BYTES32_LEN (keccak_of_bytes x) = Ok h /\ from_bytes_be BYTES32_LEN (keccak_of_bytes y) = Ok h.

Definition journal_collision (d d' : journal) : Prop := chain_collision (hashed (counts_of d) (entries d)) (hashed (counts_of d') (entries d')).

Lemma hash_binds {JI : JournalCodecInj JC} a b h l l' : a ∈ l -> b ∈ l' -> hash_serializable a = Ok h -> hash_serializable b = Ok h -> a = b \/ chain_collision l l'.
Proof.
  unfold hash_serializable. intros Hl Hl' Ha Hb. simplify_res. destruct (decide (r0 = r)) as [->|Hne]; [left; by eapply to_vec_inj|]. right. by exists a, b, r0, r, h.
Qed.

Lemma chain_collision_mono (l l' k k' : list Hashed) : chain_collision l l' -> l ⊆ k -> l' ⊆ k' -> chain_collision k k'.
Proof. intros (a & b & x & y & h & Ha & Hb & Hxy) H1 H2. exists a, b, x, y, h. split; [by apply H1|]. split; [by apply H2|done]. Qed.

Lemma hashed_mono counts (es fs : list entry) : es ⊆ fs -> hashed counts es ⊆ hashed counts fs.
Proof. intros H x [->|(e & -> & He)%list_elem_of_fmap]%elem_of_cons; [by left|]. right. apply list_elem_of_fmap_2. by apply H. Qed.

Lemma hashed_last counts (es : list entry) e : entry_material e ∈ hashed counts (es ++ [e]).
Proof. right. apply list_elem_of_fmap_2, elem_of_app. right. by apply list_elem_of_singleton. Qed.

Lemma material_binds (e e' : entry) : entry_material e = entry_material e' -> ProductionJournalEntry.entry_hash e = ProductionJournalEntry.entry_hash e' -> e = e'.
Proof. destruct e, e'. unfold entry_material. cbn. intros [= -> -> -> -> -> ->] ->. done. Qed.

Lemma replays_bind {JI : JournalCodecInj JC} counts g es r counts' g' es' r' : journal_genesis_hash counts = Ok g -> journal_genesis_hash counts' = Ok g' ->
  replays (genesis_replay counts g) es r -> replays (genesis_replay counts' g') es' r' -> expected_prev r = expected_prev r' ->
  (counts = counts' /\ es = es') \/ chain_collision (hashed counts es) (hashed counts' es').
Proof.
  intros Hg Hg' H. remember (genesis_replay counts g) as r0 eqn:Hr0. revert es' r'. induction H as [r|r es r1 e p H IH Hf]; intros es' r' H' He; subst r.
  - remember (genesis_replay counts' g') as r0 eqn:Hr0. destruct H' as [r'|r' es' r1' e' p' H' Hf']; subst r'; cbn in He.
    + subst g'. destruct (hash_binds _ _ _ (hashed counts []) (hashed counts' []) (list_elem_of_here _ _) (list_elem_of_here _ _) Hg Hg') as [[= ->]|?]; [by left|by right].
    + pose proof (fo_hash _ _ _ Hf') as Hh. rewrite <- He in Hh. destruct (hash_binds _ _ _ (hashed counts []) _ (list_elem_of_here _ _) (hashed_last counts' es' e') Hg Hh) as [[=]|?]. by right.
  - remember (genesis_replay counts' g') as r0' eqn:Hr0'. destruct H' as [r'|r' es' r1' e' p' H' Hf']; subst r'; cbn in He.
    + pose proof (fo_hash _ _ _ Hf) as Hh. rewrite He in Hh. destruct (hash_binds _ _ _ _ (hashed counts' []) (hashed_last counts es e) (list_elem_of_here _ _) Hh Hg') as [[=]|?]. by right.
    + pose proof (fo_hash _ _ _ Hf) as Hh. pose proof (fo_hash _ _ _ Hf') as Hh'. rewrite <- He in Hh'.
      destruct (hash_binds _ _ _ _ _ (hashed_last counts es e) (hashed_last counts' es' e') Hh Hh') as [Hm|?]; [|by right].
      pose proof (material_binds _ _ Hm He) as ->. destruct (IH eq_refl _ _ H') as [[-> ->]|Hc]; [|by left|].
      { by rewrite <- (fo_prev _ _ _ Hf), <- (fo_prev _ _ _ Hf'). }
      right. eapply chain_collision_mono; [exact Hc|apply hashed_mono..]; intros x Hx; apply elem_of_app; by left.
Qed.

(** Every prefix of a replayed list is replayed, and ends with the hash of its last entry. *)
Lemma replays_prefix r es r' i e : replays r es r' -> es !! i = Some e -> exists r1, replays r (take (S i) es) r1 /\ expected_prev r1 = ProductionJournalEntry.entry_hash e.
Proof.
  intros H. revert i e. induction H as [|r es r1 e0 p H IH Hf]; intros i e Hi; [done|]. destruct (decide (i < length es)%nat) as [Hl|Hl].
  - rewrite lookup_app_l in Hi by done. destruct (IH _ _ Hi) as (r2 & ? & ?). exists r2. split; [|done]. by rewrite take_app_le by lia.
  - rewrite lookup_app_r in Hi by lia. destruct (i - length es)%nat as [|n] eqn:Hn; [|done]. injection Hi as ->. exists (extend r1 e p).
    rewrite take_ge by (rewrite length_app; cbn; lia). split; [by apply replays_snoc|done].
Qed.

(** What the replay of a file checks. *)
Lemma replays_of_foldl r es r' : res_foldl replay_step r es = Ok r' -> Z.of_nat (index r + length es) < 2 ^ 64 -> replays r es r'.
Proof.
  revert r'. induction es as [|e es IH] using rev_ind; intros r'; [intros [= ->]; constructor|]. rewrite res_foldl_app, length_app. cbn [length]. intros (r1 & H1 & H2)%bind_Ok Hb.
  assert (replays r es r1) as Hes by (apply IH; [done|lia]). cbn [res_foldl] in H2. apply bind_Ok in H2 as (r2 & H2 & [= <-]). unfold replay_step in H2.
  apply bind_Ok in H2 as (p & H2 & [= <-]). pose proof (replays_index _ _ _ Hes) as Hi.
  apply replay_entry_follows in H2 as [_ Hf]; [|apply wrap_next; lia]. by apply (replays_snoc _ _ _ _ _ Hes).
Qed.

Lemma verified_replays d x : verify_and_replay d = Ok x -> Z.of_nat (length (entries d)) < 2 ^ 64 ->
  exists genesis r, journal_genesis_hash (counts_of d) = Ok genesis /\ replays (genesis_replay (counts_of d) genesis) (entries d) r.
Proof. unfold verify_and_replay. intros H Hb. simplify_res. eexists _, _. split; [done|]. by apply replays_of_foldl. Qed.

Lemma verified_good d p prep : verify_and_replay d = Ok (p, prep) -> Z.of_nat (length (entries d)) < 2 ^ 64 -> exists r, good d r prep /\ replayed r = p.
Proof.
  unfold verify_and_replay. intros H Hb. simplify_res. repeat match goal with H : reject _ _ = Ok _ |- _ => apply reject_Ok in H end. simplify_bool. stable.
  rewrite existsb_Forall in Hr3, Hr2. assert (r8 = prep) as -> by congruence. assert (replayed r6 = p) as <- by congruence. exists r6. split; [|done].
  assert (wrap 64 (Z.of_nat (length (entries d))) = Z.of_nat (length (entries d))) as Hw by (unfold wrap; rewrite Z.mod_small; [done|lia]). rewrite Hw in Hr4.
  pose proof (replays_of_foldl _ _ _ Hr6 Hb) as Hrep. pose proof (replays_index _ _ _ Hrep) as Hi. cbn in Hi. constructor; try done.
  - apply Forall_lookup. intros i e Hl. unfold committable. by rewrite (Forall_lookup_1 _ _ _ _ Hr2 Hl), (Forall_lookup_1 _ _ _ _ Hr3 Hl).
  - by exists r5.
  - destruct (prepared d) as [e|]; simplify_res; [|done]. apply checked_add_Some in Hr9 as [-> Hn]. apply replay_entry_follows in Hr10 as [Hk Hf]; [|lia].
    split; [exact Hk|]. split; [done|lia].
Qed.
End worlds.
