(* ===== verification/BlockChainProps.v ===== *)
(** * The chain of blocks against a history

    The specification of the validity proofs is a history: the blocks, the
    deposits and registrations they carry, and the statements about
    signatures.  [Chain.view] is the extended public state it stands for and
    [Chain.add] the effect of a block.  [prove_block] refines it: a proof it
    returns exposes the view of the extended history. *)

From S2P Require Import Prelude Limbs U63 Circuit MerkleTree LeafTrees Poseidon IndexedTree Keccak Regev BalanceState Account AccountProps Ledger LedgerProps Balance BalanceProps Channel HashChains BlockStep BlockChain HashChainProps BlockStepProps.

#[local] Remove Hints Leafable_Bytes32 : typeclass_instances.

(** ** Histories *)

(** The signature chain of a list of statements, by the fold of the update step. *)
Definition signature_chain {P : Poseidon} {W : PoseidonWords P} (es : list AggListEntry)
    : res PoseidonHashOut.PoseidonHashOutError Bytes32 :=
  res_foldl (fun chain e => leaf ← AggListEntry.leaf e; fold_statement chain leaf) bytes32_default es.

Module Chain.
Record state {P : Poseidon} := mk {
  blocks : list Block;
  deposits : list Deposit;
  records : list ChannelRegRecord;
  statements : list AggListEntry;
  channels : Z -> channel;
  past : list PublicState;
}.
#[global] Arguments state : clear implicits.
#[global] Arguments state {P}.
#[global] Arguments mk {P}.

Section chain.
Context {P : Poseidon} {W : PoseidonWords P} {K : Keccak}.

Definition genesis : state := mk [] [] [] [] (fun _ => fresh) [].

Definition number (s : state) : Z := Z.of_nat (length (blocks s)).

Definition time (s : state) : Z := match list.last (blocks s) with Some b => Block.timestamp b | None => 0 end.

Definition signatures (s : state) : Bytes32 :=
  match signature_chain (statements s) with Ok b => b | _ => bytes32_default end.

Definition public_state (s : state) : PublicState :=
  PublicState.mk (U63.mkU63 (number s)) (time s) (channels_root (channels s)) (deposit_root (deposits s))
    (state_root (past s)).

Definition view (s : state) : ExtendedPublicState :=
  ExtendedPublicState.mk (public_state s) (block_chain (blocks s) bytes32_default)
    (deposit_chain (deposits s) bytes32_default) (U63.mkU63 (Z.of_nat (length (deposits s))))
    (reg_chain (records s) bytes32_default) (signatures s).

(** What the witness of a block adds. *)
Definition update_of (s : state) (w : BlockHashChainProcessorWitness) : UpdateUserTree :=
  BlockHashChainProcessorWitness.to_update_channel_tree w (view s) (U63.mkU63 (number s + 1)).

Definition is_active (w : BlockHashChainProcessorWitness) : bool :=
  existsb active_key (Block.key_ids (BlockHashChainProcessorWitness.block w)).

Definition new_records (w : BlockHashChainProcessorWitness) : list ChannelRegRecord :=
  (BlockHashChainProcessorWitness.channel_reg_step_witness w).*1.

(** A block that repeats the deposit chain commits no deposits, whatever deposits were proved for it. *)
Definition new_deposits (s : state) (w : BlockHashChainProcessorWitness) : list Deposit :=
  if bool_decide (deposit_chain (deposits s) bytes32_default
                  = Block.deposit_hash_chain (BlockHashChainProcessorWitness.block w))
  then [] else (BlockHashChainProcessorWitness.deposit_step_witness w).*1.

Definition new_statements (s : state) (w : BlockHashChainProcessorWitness) : list AggListEntry :=
  if is_active w
  then match registration (channels s (Block.channel_id (BlockHashChainProcessorWitness.block w))) with
       | Some r => [block_entry (update_of s w) r]
       | None => []
       end
  else [].

Definition add (s : state) (w : BlockHashChainProcessorWitness) : state :=
  mk (blocks s ++ [BlockHashChainProcessorWitness.block w]) (deposits s ++ new_deposits s w)
    (records s ++ new_records w) (statements s ++ new_statements s w)
    (if is_active w then record_block (update_of s w) (channels s)
     else foldl register (channels s) (new_records w))
    (past s ++ [public_state s]).

Record ok (s : state) : Prop := {
  ok_number : number s < 2 ^ 63;
  ok_past : length (past s) = length (blocks s);
  ok_channels : channels_ok (channels s) (number s);
  ok_signatures : signature_chain (statements s) = Ok (signatures s);
}.

Lemma genesis_ok : ok genesis.
Proof. split; [done|done| |done]. split; cbn; [constructor|done]. Qed.

(** The default state of the code is the empty history. *)
Lemma genesis_view : view genesis = ExtendedPublicState.default.
Proof.
  unfold view, ExtendedPublicState.default, public_state, public_state_default, genesis. cbn [deposits past channels blocks].
  unfold channels_root, deposit_root, state_root. rewrite fresh_leaf.
  by rewrite !init_root_spec.
Qed.

End chain.
End Chain.

(** ** One block *)

Section refine.
Context {P : Poseidon} {PC : PoseidonCollisionFree P} {W : PoseidonWords P} {PE : PoseidonElements P W} {K : Keccak}.
Context {PL : Plonky2} {CP : ChainProvers} {CPO : ChainProversOk CP} {BP : BlockProvers} {BPO : BlockProversOk BP}.
Import BlockHashChainProcessor.

Notation block w := (BlockHashChainProcessorWitness.block w).

(** The widths of the fields and the heights the circuits fix for the proofs. *)
Record witness_shaped (w : BlockHashChainProcessorWitness) : Prop := {
  sh_deposits : Forall (fun e => proof_height e.2 = DEPOSIT_TREE_HEIGHT)
    (BlockHashChainProcessorWitness.deposit_step_witness w);
  sh_records : Forall (fun e => proof_height e.2 = CHANNEL_TREE_HEIGHT /\ in_width 32 (ChannelRegRecord.channel_id e.1))
    (BlockHashChainProcessorWitness.channel_reg_step_witness w);
  sh_channel : in_width 32 (Block.channel_id (block w));
  sh_users : Forall (fun p => proof_height p = CHANNEL_TREE_HEIGHT) (BlockHashChainProcessorWitness.user_merkle_proofs w);
  sh_sends : Forall (fun p => proof_height p = SEND_TREE_HEIGHT) (BlockHashChainProcessorWitness.send_merkle_proofs w);
  sh_state : proof_height (BlockHashChainProcessorWitness.public_state_merkle_proof w) = PUBLIC_STATE_TREE_HEIGHT;
  sh_txs : Forall (fun p => proof_height p = TX_TREE_HEIGHT) (default [] (BlockHashChainProcessorWitness.tx_v2_merkle_proofs w));
  sh_time : in_width 64 (Block.timestamp (block w));
}.

(** What an accepted block says about itself. *)
Record block_accepted (s : Chain.state) (w : BlockHashChainProcessorWitness) : Prop := {
  ba_deposits : Block.deposit_hash_chain (block w) = deposit_chain (Chain.deposits (Chain.add s w)) bytes32_default;
  ba_stamps i d : Chain.new_deposits s w !! i = Some d ->
    U63.as_u64 (Deposit.deposit_index d) = Z.of_nat (length (Chain.deposits s) + i) /\
    Deposit.block_number d = U63.mkU63 (Chain.number s + 1);
  ba_records : Block.channel_reg_hash_chain (block w) = reg_chain (Chain.records (Chain.add s w)) bytes32_default;
  ba_registrable : registrable (Chain.channels s) (Chain.new_records w);
  ba_exclusive : Chain.is_active w = true -> Chain.new_records w = [];
  ba_send : Chain.is_active w = true -> exists r leaf,
    registration (Chain.channels s (Block.channel_id (block w))) = Some r /\ record_valid r /\
    n_of_n (Chain.update_of s w) r /\
    AggListEntry.leaf (E := PoseidonHashOut.PoseidonHashOutError) (block_entry (Chain.update_of s w) r) = Ok leaf /\
    signed_send (Chain.update_of s w) (Chain.channels s) leaf (Chain.signatures s) (Chain.signatures (Chain.add s w));
}.

Lemma number_add s w : Chain.number (Chain.add s w) = Chain.number s + 1.
Proof. unfold Chain.number. cbn. rewrite length_app. cbn. lia. Qed.

Lemma deposit_chain_app ds ds' h : deposit_chain (ds ++ ds') h = deposit_chain ds' (deposit_chain ds h).
Proof. apply foldl_app. Qed.

Lemma reg_chain_app rs rs' h : reg_chain (rs ++ rs') h = reg_chain rs' (reg_chain rs h).
Proof. apply foldl_app. Qed.

Lemma deposit_part_sound s w bw u bn po (x : Bytes32 * PHash * U63.U63) :
  witness_shaped w ->
  UpdateUserPublicInputs.deposit_hash_chain u = Block.deposit_hash_chain (block w) ->
  bn = U63.mkU63 (Chain.number s + 1) ->
  BlockStepWitness.deposit_hash_chain_proof bw = po ->
  res_foldl (prove_deposit (Chain.view s)) None (BlockHashChainProcessorWitness.deposit_step_witness w) = Ok po ->
  BlockStepWitness.deposit_part bw deposit_chain_vd (Chain.view s) u bn = Ok x ->
  let ds := Chain.deposits (Chain.add s w) in
  x = (deposit_chain ds bytes32_default, deposit_root ds, U63.mkU63 (Z.of_nat (length ds))) /\
  Block.deposit_hash_chain (block w) = deposit_chain ds bytes32_default /\
  forall i d, Chain.new_deposits s w !! i = Some d ->
    U63.as_u64 (Deposit.deposit_index d) = Z.of_nat (length (Chain.deposits s) + i) /\
    Deposit.block_number d = U63.mkU63 (Chain.number s + 1).
Proof.
  intros Hsh Hu -> Hpo Hrun H ds. subst ds. cbn [Chain.add Chain.deposits]. unfold Chain.new_deposits.
  unfold BlockStepWitness.deposit_part in H. rewrite Hu in H.
  cbn [Chain.view ExtendedPublicState.deposit_hash_chain ExtendedPublicState.inner Chain.public_state
    PublicState.deposit_tree_root ExtendedPublicState.deposit_count] in H.
  case_bool_decide as Heq.
  - apply Ok_inj in H as <-. rewrite app_nil_r. by split_and!.
  - apply bind_Ok in H as (p & Hp%ok_or_Ok & H). rewrite Hpo in Hp. rewrite Hp in Hrun.
    apply (deposits_proved _ (Chain.deposits s)) in Hrun; [|done|done|apply Hsh].
    destruct Hrun as (pis & Hex & Hfor). apply bind_Ok in H as ([] & _ & H).
    apply bind_Ok in H as (q & Hq%map_err_Ok & H). unfold exposes_deposits in Hex. rewrite Hex in Hq.
    apply Ok_inj in Hq as <-. do 5 (apply bind_Ok in H as ([] & ?%ensure_Ok & H)). simplify_bool.
    apply Ok_inj in H as <-. destruct Hfor as [_ _ _ F4 F5 F6 F7].
    cbn [Chain.view ExtendedPublicState.deposit_hash_chain] in F4. rewrite <- deposit_chain_app in F4.
    rewrite F4, F5. split_and!.
    + f_equal. destruct (DepositChainPublicInputs.deposit_count pis). cbn in F6. by rewrite F6.
    + congruence.
    + intros i d Hd. destruct (F7 i d Hd) as [? Hb]. split; [done|]. congruence.
Qed.

(** A recorded send changes the root of the channels. *)
Lemma record_block_root u chs n :
  channels_ok chs n -> 0 <= n < U63.as_u64 (UpdateUserTree.block_number u) ->
  in_width 32 (Block.channel_id (UpdateUserTree.block u)) ->
  channels_root (record_block u chs) <> channels_root chs.
Proof.
  intros Hok Hn Hc Heq. pose proof channel_tree_height as Hh.
  apply (subtree_inj (I2 := poseidon_two_to_one_inj) _ _ _ _ (Block.channel_id (UpdateUserTree.block u))) in Heq.
  2: { rewrite Hh. unfold in_width in Hc. lia. }
  apply (inj leaf_hash) in Heq. unfold record_block in Heq. rewrite fn_lookup_insert in Heq.
  apply (f_equal ChannelLeaf.prev) in Heq. cbn in Heq. rewrite last_send_snoc in Heq. cbn in Heq.
  pose proof (last_send_le chs n (Block.channel_id (UpdateUserTree.block u)) Hok ltac:(lia)) as Hl.
  rewrite <- Heq in Hl. lia.
Qed.

Lemma reg_part_sound s w bw u bn ro root (x : Bytes32 * PHash) :
  Chain.ok s -> witness_shaped w ->
  UpdateUserPublicInputs.prev_account_tree_root u = channels_root (Chain.channels s) ->
  UpdateUserPublicInputs.new_account_tree_root u = root ->
  root = channels_root (if Chain.is_active w then record_block (Chain.update_of s w) (Chain.channels s) else Chain.channels s) ->
  BlockStepWitness.channel_reg_hash_chain_proof bw = ro ->
  res_foldl (prove_registration (Chain.view s) bn) None (BlockHashChainProcessorWitness.channel_reg_step_witness w) = Ok ro ->
  BlockStepWitness.channel_reg_part bw channel_reg_chain_vd (Chain.view s) u bn = Ok x ->
  x = (reg_chain (Chain.records (Chain.add s w)) bytes32_default, channels_root (Chain.channels (Chain.add s w))) /\
  registrable (Chain.channels s) (Chain.new_records w) /\
  (Chain.is_active w = true -> Chain.new_records w = []).
Proof.
  intros Hs Hsh Hprev Hnew Hroot Hro Hrun H. cbn [Chain.add Chain.records Chain.channels]. unfold Chain.new_records.
  unfold BlockStepWitness.channel_reg_part in H. rewrite Hro in H.
  apply (registrations_proved _ (Chain.channels s) (Chain.number s)) in Hrun; [|done|apply Hs|apply Hsh].
  destruct ro as [p|].
  - destruct Hrun as (pis & Hex & [_ _ R3 R4 _ R6]). apply bind_Ok in H as ([] & _ & H).
    apply bind_Ok in H as (q & Hq%map_err_Ok & H). unfold exposes_registrations in Hex. rewrite Hex in Hq.
    apply Ok_inj in Hq as <-. do 4 (apply bind_Ok in H as ([] & ?%ensure_Ok & H)). simplify_bool.
    apply Ok_inj in H as <-. cbn [Chain.view ExtendedPublicState.channel_reg_hash_chain] in R3.
    rewrite R3, R4, <- reg_chain_app. destruct (Chain.is_active w); [exfalso|by split_and!].
    apply (record_block_root (Chain.update_of s w) (Chain.channels s) (Chain.number s)); [apply Hs|cbn|apply Hsh|congruence].
    unfold Chain.number. lia.
  - apply Ok_inj in H as <-. rewrite Hrun. cbn [fmap list_fmap foldl registrable].
    rewrite app_nil_r, Hnew, Hroot. split_and!; [by destruct (Chain.is_active w)|done|done].
Qed.

Lemma record_block_ok u chs n :
  channels_ok chs n -> 0 <= n -> UpdateUserTree.block_number u = U63.mkU63 (n + 1) ->
  channels_ok (record_block u chs) (n + 1).
Proof.
  intros Hok Hn Hb. unfold record_block. split; intros c.
  - assert (Forall (fun l => 0 < U63.as_u64 (SendLeaf.cur l) <= n + 1) (sends (chs c))) as Hc.
    { eapply Forall_impl; [|apply (chs_sends _ _ Hok c)]. cbn. intros; lia. }
    destruct (decide (Block.channel_id (UpdateUserTree.block u) = c)) as [->|Hne].
    + rewrite fn_lookup_insert. cbn. apply Forall_app_2; [done|]. constructor; [|constructor]. cbn. rewrite Hb. cbn. lia.
    + by rewrite fn_lookup_insert_ne.
  - destruct (decide (Block.channel_id (UpdateUserTree.block u) = c)) as [->|Hne].
    + rewrite fn_lookup_insert. cbn. apply Hok.
    + rewrite fn_lookup_insert_ne by done. apply Hok.
Qed.

Lemma channels_ok_later chs n : channels_ok chs n -> channels_ok chs (n + 1).
Proof.
  intros Hok. split; [|apply Hok]. intros c. eapply Forall_impl; [|apply (chs_sends _ _ Hok c)]. cbn. intros; lia.
Qed.

(** The statement of a signing block extends the signature chain. *)
Lemma signature_snoc s e leaf b :
  signature_chain (Chain.statements s) = Ok (Chain.signatures s) ->
  AggListEntry.leaf (E := PoseidonHashOut.PoseidonHashOutError) e = Ok leaf -> fold_statement (Chain.signatures s) leaf = Ok b ->
  signature_chain (Chain.statements s ++ [e]) = Ok b.
Proof.
  intros Hs Hl Hf. unfold signature_chain. rewrite res_foldl_app. fold (signature_chain (Chain.statements s)).
  rewrite Hs. cbn [mbind res_bind res_foldl]. rewrite Hl. cbn [mbind res_bind]. by rewrite Hf.
Qed.

Lemma add_ok s w :
  Chain.ok s -> Chain.number s + 1 < 2 ^ 63 -> block_accepted s w ->
  Chain.ok (Chain.add s w) /\
  (Chain.is_active w = false -> Chain.signatures (Chain.add s w) = Chain.signatures s).
Proof.
  intros Hs Hn Ha. pose proof (Chain.ok_channels _ Hs) as Hchs. unfold Chain.number in Hn.
  assert (Chain.is_active w = false -> Chain.statements (Chain.add s w) = Chain.statements s) as Hsame.
  { intros Hact. cbn. unfold Chain.new_statements. by rewrite Hact, app_nil_r. }
  split.
  - split.
    + rewrite number_add. unfold Chain.number. lia.
    + cbn. rewrite !length_app, (Chain.ok_past _ Hs). done.
    + rewrite number_add. cbn [Chain.add Chain.channels]. destruct (Chain.is_active w).
      * apply record_block_ok; [done|unfold Chain.number; lia|done].
      * apply channels_ok_later, registrations_ok; [done|apply Ha].
    + destruct (Chain.is_active w) eqn:Hact.
      * destruct (ba_send _ _ Ha Hact) as (r & leaf & Hreg & _ & _ & Hleaf & Hss).
        cbn [Chain.add Chain.statements]. unfold Chain.new_statements. rewrite Hact, Hreg.
        eapply signature_snoc; [apply Hs|exact Hleaf|apply Hss].
      * unfold Chain.signatures. rewrite (Hsame eq_refl). by rewrite (Chain.ok_signatures _ Hs).
  - intros Hact. unfold Chain.signatures. by rewrite Hsame.
Qed.

Lemma update_of_shaped s w : witness_shaped w -> update_shaped (Chain.update_of s w).
Proof.
  intros Hw. split_and!; [apply Hw..|]. pose proof (sh_txs _ Hw) as Ht. cbn.
  destruct (BlockHashChainProcessorWitness.tx_v2_merkle_proofs w); [exact Ht|]. apply Forall_replicate, length_replicate.
Qed.

(** The whole block step. *)
Lemma block_step_sound s w bw init vd up u po ro pis vds cvd :
  Chain.ok s -> witness_shaped w -> Chain.number s + 1 < 2 ^ 63 ->
  BlockStepWitness.previous bw cvd = Ok (BlockChainPublicInputs.mk init (Chain.view s) vd) ->
  UpdateUserTree.to_public_inputs (Chain.update_of s w) = Ok u ->
  UpdateUserPublicInputs.from_u64_slice (public_inputs up) = Ok u ->
  bw = BlockStepWitness.mk (Block.num_users (block w)) (BlockStepWitness.initial_public_state bw)
    (BlockStepWitness.prev_block_chain_proof bw) po ro up (BlockHashChainProcessorWitness.public_state_merkle_proof w) ->
  res_foldl (prove_deposit (Chain.view s)) None (BlockHashChainProcessorWitness.deposit_step_witness w) = Ok po ->
  res_foldl (prove_registration (Chain.view s) (U63.mkU63 (Chain.number s + 1))) None
    (BlockHashChainProcessorWitness.channel_reg_step_witness w) = Ok ro ->
  BlockStepWitness.to_public_inputs bw cvd vds deposit_chain_vd channel_reg_chain_vd = Ok pis ->
  pis = BlockChainPublicInputs.mk init (Chain.view (Chain.add s w)) vd /\ block_accepted s w /\ Chain.ok (Chain.add s w).
Proof.
  intros Hs Hw Hn Hprev Hu Hup Hbw Hpo Hro H.
  pose proof (update_sound _ (Chain.channels s) (Chain.number s) u (update_of_shaped s w Hw) (Chain.ok_channels _ Hs)
    ltac:(cbn; unfold Chain.number; lia) eq_refl Hu) as [Hueq Hact].
  unfold BlockStepWitness.to_public_inputs in H. rewrite Hprev in H. cbn [mbind res_bind BlockChainPublicInputs.ext_public_state
    BlockChainPublicInputs.initial_ext_public_state BlockChainPublicInputs.vd] in H.
  apply bind_Ok in H as ([u' bn] & Hui & H). unfold BlockStepWitness.update_inputs in Hui.
  apply bind_Ok in Hui as (uvd & _ & Hui). apply bind_Ok in Hui as ([] & _ & Hui).
  apply bind_Ok in Hui as (u2 & Hu2%map_err_Ok & Hui). rewrite Hbw in Hu2. cbn [BlockStepWitness.update_user_proof] in Hu2.
  rewrite Hup in Hu2. apply Ok_inj in Hu2 as <-.
  apply bind_Ok in Hui as (bn' & Hbn%map_err_Ok & Hui). apply u63_succ in Hbn as [Hbn _]; [|cbn; unfold Chain.number; lia].
  cbn in Hbn. subst bn'. do 4 (apply bind_Ok in Hui as ([] & _ & Hui)). injection Hui as <- <-.
  apply bind_Ok in H as ([[dc dr] dn] & Hd & H).
  apply (deposit_part_sound s w bw u _ po) in Hd as (Hdeq & Hdc & Hds);
    [|done|by rewrite Hueq|done|by rewrite Hbw|done].
  injection Hdeq as -> -> ->.
  apply bind_Ok in H as ([rc ar] & Hr & H).
  assert (UpdateUserPublicInputs.new_account_tree_root u = channels_root
    (if Chain.is_active w then record_block (Chain.update_of s w) (Chain.channels s) else Chain.channels s)) as Hroot.
  { unfold Chain.is_active. cbn in Hact. destruct (existsb _ _); [by destruct Hact as (? & ? & ? & ? & ? & ? & ? & ?)|by destruct Hact]. }
  apply (reg_part_sound s w bw u _ ro (UpdateUserPublicInputs.new_account_tree_root u)) in Hr as (Hreq & Hrs & Hexc);
    [|done|done|by rewrite Hueq|done|exact Hroot|by rewrite Hbw|done].
  injection Hreq as -> ->.
  apply bind_Ok in H as ([] & _ & H). apply bind_Ok in H as ([] & Hrc%ensure_Ok & H). simplify_bool.
  apply bind_Ok in H as ([] & Hv%map_err_Ok & H). rewrite proof_get_root_eq in H. apply Ok_inj in H as <-.
  assert (block_accepted s w) as Hba.
  { split; try done; [by rewrite Hueq in Hrc|]. intros Ha. unfold Chain.is_active in Ha. cbn in Hact. rewrite Ha in Hact.
    destruct Hact as (r & leaf & Hreg & Hrv & Hnn & Hl & Hss & _). exists r, leaf. split_and!; try done.
    replace (Chain.signatures (Chain.add s w)) with (UpdateUserPublicInputs.new_bp_sig_chain u); [done|].
    unfold Chain.signatures at 1. cbn [Chain.add Chain.statements]. unfold Chain.new_statements, Chain.is_active.
    rewrite Ha, Hreg. by erewrite signature_snoc; [|apply Hs|exact Hl|apply Hss]. }
  destruct (add_ok s w Hs Hn Hba) as [Hok Hsig]. split; [|done]. f_equal.
  rewrite Hbw in Hv |- *. cbn [BlockStepWitness.public_state_merkle_proof] in *.
  cbn [Chain.view ExtendedPublicState.inner Chain.public_state PublicState.block_number PublicState.prev_public_state_root U63.as_u64] in Hv |- *.
  unfold state_root in Hv. rewrite <- (sh_state _ Hw) in Hv.
  apply (append_leaf (I2 := poseidon_two_to_one_inj) _ _ (Chain.public_state s)) in Hv;
    [|unfold Chain.number; by rewrite (Chain.ok_past _ Hs)|unfold in_width, Chain.number in *; lia].
  rewrite (sh_state _ Hw) in Hv. unfold Chain.view at 1. f_equal.
  - unfold Chain.public_state at 2. f_equal; [by rewrite number_add| |exact Hv].
    rewrite Hueq. unfold Chain.time. cbn. by rewrite list.last_snoc.
  - rewrite Hueq. unfold block_chain. cbn [Chain.add Chain.blocks]. by rewrite foldl_app.
  - destruct (Chain.is_active w) eqn:Ha.
    + destruct (ba_send _ _ Hba Ha) as (r & leaf & Hreg & _ & _ & Hl & Hss). unfold Chain.is_active in Ha. cbn in Hact.
      rewrite Ha in Hact. destruct Hact as (r' & leaf' & Hreg' & _ & _ & Hl' & Hss' & _).
      change (registration (Chain.channels s (Block.channel_id (block w))) = Some r') in Hreg'.
      rewrite Hreg in Hreg'. injection Hreg' as <-. rewrite Hl in Hl'. injection Hl' as <-.
      pose proof (ss_fold _ _ _ _ _ Hss) as F1. pose proof (ss_fold _ _ _ _ _ Hss') as F2.
      change (fold_statement (Chain.signatures s) leaf = Ok (UpdateUserPublicInputs.new_bp_sig_chain u)) in F2.
      rewrite F1 in F2. by injection F2.
    + rewrite Hsig by done. unfold Chain.is_active in Ha. cbn in Hact. rewrite Ha in Hact. by destruct Hact.
Qed.

(** ** The processor *)

Lemma supported_counts (counts : list Z) : (fst <$> ((fun n => (n, update_user_vd n)) <$> counts)) = counts.
Proof. rewrite <- list_fmap_compose. by rewrite <- (list_fmap_id counts) at 2. Qed.

(** What a proof of the chain exposes, read as the next step reads it. *)
Definition exposes_chain (counts : list Z) (p : Proof) (pis : BlockChainPublicInputs) : Prop :=
  BlockChainPublicInputs.from_u64_slice (public_inputs p) (cap_elements (vd_common (block_chain_vd counts))) = Ok pis.

(** The public inputs of a proof that leads from the history [s0] to [s]. *)
Definition chain_pis (counts : list Z) (s0 s : Chain.state) : BlockChainPublicInputs :=
  BlockChainPublicInputs.mk (Chain.view s0) (Chain.view s) (vd_only (block_chain_vd counts)).

(** The two ways a block is proved: on top of an initial state, or of an earlier proof. *)
Definition continues (counts : list Z) (s0 s : Chain.state) (init : option ExtendedPublicState) (prev : option Proof)
    : Prop :=
  match prev with
  | None => init = Some (Chain.view s0) /\ s = s0
  | Some p => exposes_chain counts p (chain_pis counts s0 s)
  end.

Lemma previous_state_view counts c s0 s init prev x :
  block_hash_chain_vd c = block_chain_vd counts -> continues counts s0 s init prev ->
  previous_state c init prev = Ok x -> x = Chain.view s.
Proof.
  intros Hvd Hc H. unfold previous_state in H. rewrite Hvd in H. destruct prev as [p|].
  - apply bind_Ok in H as ([] & _ & H). apply bind_Ok in H as (q & Hq%map_err_Ok & H). unfold continues, exposes_chain in Hc.
    rewrite Hc in Hq. apply Ok_inj in Hq as <-. by apply Ok_inj in H.
  - destruct Hc as [-> ->]. by apply ok_or_Ok in H as [= <-].
Qed.

Lemma previous_inputs counts s0 s init prev up po ro n mp :
  continues counts s0 s init prev ->
  let bw := BlockStepWitness.mk n init prev po ro up mp in
  forall y, BlockStepWitness.previous bw (block_chain_vd counts) = Ok y -> y = chain_pis counts s0 s.
Proof.
  intros Hc bw y H. unfold BlockStepWitness.previous in H. cbn in H. destruct prev as [p|].
  - apply bind_Ok in H as ([] & _ & H). apply map_err_Ok in H. unfold continues, exposes_chain in Hc.
    rewrite Hc in H. by apply Ok_inj in H.
  - destruct Hc as [-> ->]. by apply Ok_inj in H.
Qed.

Lemma prove_block_sound counts c s0 s init prev w p :
  new (E := BlockHashChainProcessorError) counts = Ok c -> Chain.ok s -> witness_shaped w ->
  continues counts s0 s init prev -> prove_block c init prev w = Ok p ->
  exposes_chain counts p (chain_pis counts s0 (Chain.add s w)) /\ block_accepted s w /\ Chain.ok (Chain.add s w).
Proof.
  intros Hnew Hs Hw Hcont H. unfold new in Hnew. apply bind_Ok in Hnew as ([] & _ & Hnew). apply Ok_inj in Hnew as <-.
  unfold prove_block in H. apply bind_Ok in H as ([] & _ & H). apply bind_Ok in H as ([] & _ & H).
  apply bind_Ok in H as (x & Hx & H). apply (previous_state_view counts _ s0 s) in Hx as ->; [|done|done].
  apply bind_Ok in H as (po & Hpo & H). apply bind_Ok in H as (bn & Hbn%map_err_Ok & H).
  apply u63_succ in Hbn as [Hbn Hlt]; [|cbn; unfold Chain.number; lia]. cbn in Hbn, Hlt. subst bn.
  apply bind_Ok in H as (ro & Hro & H). apply bind_Ok in H as (up & Hup%map_err_Ok & H).
  unfold update_user_prove in Hup. apply bind_Ok in Hup as (u & Hu%map_err_Ok & Hup). apply ok_or_Ok in Hup.
  apply bind_Ok in H as (sp & Hsp%map_err_Ok & H). apply ok_or_Ok in H. unfold BlockStepCircuit.prove in Hsp.
  do 5 (apply bind_Ok in Hsp as ([] & _ & Hsp)). apply bind_Ok in Hsp as (pis & Hpis & Hsp). apply ok_or_Ok in Hsp.
  cbn [BlockStepCircuit.new BlockStepCircuit.supported_user_counts block_step_circuit block_hash_chain_vd update_account_vds] in *.
  rewrite supported_counts in *. set (bw := BlockStepWitness.mk _ _ _ _ _ _ _) in *.
  assert (BlockStepWitness.previous bw (block_chain_vd counts) = Ok (chain_pis counts s0 s)) as Hprev.
  { pose proof Hpis as Hq. unfold BlockStepWitness.to_public_inputs in Hq. apply bind_Ok in Hq as (y & Hy & _).
    rewrite Hy. f_equal. by eapply previous_inputs. }
  eapply (block_step_sound s w bw (Chain.view s0)) in Hpis as (Heq & Ha & Hok);
    [|done|done|done|exact Hprev|exact Hu|exact (update_user_exposes _ _ _ _ Hup)|done|exact Hpo|exact Hro].
  split; [|done]. fold (chain_pis counts s0 (Chain.add s w)) in Heq. subst pis. unfold exposes_chain. rewrite (block_chain_forwards _ _ _ H). by apply (block_step_exposes _ _ _ _ Hsp).
Qed.

(** Proofs made one block after the other from the state of a history. *)
Inductive validity_run (counts : list Z) (s0 : Chain.state) : list BlockHashChainProcessorWitness -> Proof -> Prop :=
| run_first c w p :
    new (E := BlockHashChainProcessorError) counts = Ok c -> witness_shaped w ->
    prove_block c (Some (Chain.view s0)) None w = Ok p -> validity_run counts s0 [w] p
| run_next c ws p w p' :
    validity_run counts s0 ws p -> new (E := BlockHashChainProcessorError) counts = Ok c -> witness_shaped w ->
    prove_block c None (Some p) w = Ok p' -> validity_run counts s0 (ws ++ [w]) p'.

(** Every block was accepted on top of the ones before it. *)
Definition all_accepted (s0 : Chain.state) (ws : list BlockHashChainProcessorWitness) : Prop :=
  forall ws1 w ws2, ws = ws1 ++ w :: ws2 -> block_accepted (foldl Chain.add s0 ws1) w.

Lemma run_sound counts s0 ws p :
  Chain.ok s0 -> validity_run counts s0 ws p ->
  exposes_chain counts p (chain_pis counts s0 (foldl Chain.add s0 ws)) /\ Chain.ok (foldl Chain.add s0 ws) /\
  all_accepted s0 ws.
Proof.
  intros Hs0. induction 1 as [c w p Hnew Hw Hp|c ws p w p' Hrun IH Hnew Hw Hp].
  - apply (prove_block_sound counts c s0 s0) in Hp as (? & ? & ?); [|done..]. split_and!; [done|done|].
    intros ws1 w' ws2 Heq. destruct ws1 as [|? [|]]; [|done..]. by injection Heq as <- <-.
  - destruct IH as (Hex & Hok & Hall). rewrite foldl_app. cbn [foldl].
    apply (prove_block_sound counts c s0 (foldl Chain.add s0 ws)) in Hp as (? & Ha & ?); [|done..]. split_and!; [done|done|].
    intros ws1 w' ws2 Heq. destruct ws2 as [|w2 ws2 _] using rev_ind.
    + by apply app_inj_tail in Heq as [-> ->].
    + rewrite app_comm_cons, app_assoc in Heq. apply app_inj_tail in Heq as [-> ->]. by eapply Hall.
Qed.

(** ** What a whole run has done *)

Lemma all_accepted_snoc s0 ws w : all_accepted s0 (ws ++ [w]) ->
  all_accepted s0 ws /\ block_accepted (foldl Chain.add s0 ws) w.
Proof.
  intros H. split; [|by apply (H ws w [])]. intros ws1 w' ws2 ->. apply (H ws1 w' (ws2 ++ [w])). by rewrite <- (assoc_L (++)).
Qed.

Lemma run_number s0 ws : Chain.number (foldl Chain.add s0 ws) = Chain.number s0 + Z.of_nat (length ws).
Proof.
  induction ws as [|w ws IH] using rev_ind; [cbn; lia|]. rewrite foldl_app, length_app. cbn [foldl length].
  rewrite number_add, IH. lia.
Qed.

Lemma run_prefix_ok s0 ws1 ws2 : Chain.ok s0 -> all_accepted s0 (ws1 ++ ws2) -> Chain.number (foldl Chain.add s0 (ws1 ++ ws2)) < 2 ^ 63 ->
  Chain.ok (foldl Chain.add s0 ws1).
Proof.
  revert ws2. induction ws1 as [|w ws1 IH] using rev_ind; intros ws2 Hs Ha Hn; [done|]. rewrite <- (assoc_L (++)) in Ha, Hn.
  rewrite foldl_app. apply add_ok; [by eapply IH| |by apply (Ha ws1 w ws2)]. rewrite run_number, !length_app in Hn. rewrite run_number.
  cbn [length] in Hn. lia.
Qed.

(** The registrations of the channels are exactly the records, one per channel. *)
Record registry (s : Chain.state) : Prop := {
  rg_exact c r : registration (Chain.channels s c) = Some r <->
    r ∈ Chain.records s /\ ChannelRegRecord.channel_id r = c;
  rg_nodup : NoDup (ChannelRegRecord.channel_id <$> Chain.records s);
}.

Lemma register_all chs rs0 rs :
  (forall c r, registration (chs c) = Some r <-> r ∈ rs0 /\ ChannelRegRecord.channel_id r = c) ->
  NoDup (ChannelRegRecord.channel_id <$> rs0) -> registrable chs rs ->
  (forall c r, registration (foldl register chs rs c) = Some r <-> r ∈ rs0 ++ rs /\ ChannelRegRecord.channel_id r = c) /\
  NoDup (ChannelRegRecord.channel_id <$> rs0 ++ rs).
Proof.
  revert chs rs0. induction rs as [|r rs IH]; intros chs rs0 Hex Hnd Hrs; [by rewrite app_nil_r|].
  destruct Hrs as (_ & Hfresh & Hrs). rewrite cons_middle, (assoc_L (++)). cbn [foldl]. apply IH; [| |done].
  - intros c r'. unfold register. rewrite elem_of_app, list_elem_of_singleton.
    destruct (decide (ChannelRegRecord.channel_id r = c)) as [<-|Hne].
    + rewrite fn_lookup_insert. cbn. split; [intros [= ->]; auto|]. intros [[Hin| ->] Hid]; [|done]. exfalso.
      assert (registration (chs (ChannelRegRecord.channel_id r)) = Some r') as Hr by by apply Hex. by rewrite Hfresh in Hr.
    + rewrite fn_lookup_insert_ne by done. rewrite Hex. naive_solver.
  - rewrite fmap_app. apply list.NoDup_app. split_and!; [done| |apply NoDup_singleton].
    intros x Hx Hx'. cbn in Hx'. apply list_elem_of_singleton in Hx' as ->. apply list_elem_of_fmap in Hx as (r' & Heq & Hin).
    assert (registration (chs (ChannelRegRecord.channel_id r)) = Some r') as Hr by by apply Hex. by rewrite Hfresh in Hr.
Qed.

Lemma record_block_registration u chs c : registration (record_block u chs c) = registration (chs c).
Proof.
  unfold record_block. destruct (decide (Block.channel_id (UpdateUserTree.block u) = c)) as [<-|Hne].
  - by rewrite fn_lookup_insert.
  - by rewrite fn_lookup_insert_ne.
Qed.

Lemma registry_add s w : registry s -> block_accepted s w -> registry (Chain.add s w).
Proof.
  intros [Hex Hnd] Ha. pose proof (ba_registrable _ _ Ha) as Hr. pose proof (ba_exclusive _ _ Ha) as Hx.
  destruct (Chain.is_active w) eqn:Hact.
  - split; cbn [Chain.add Chain.channels Chain.records]; rewrite ?Hact, (Hx eq_refl), app_nil_r; [|done].
    intros c r. rewrite record_block_registration. apply Hex.
  - destruct (register_all _ _ _ Hex Hnd Hr). split; cbn [Chain.add Chain.channels Chain.records]; by rewrite ?Hact.
Qed.

Lemma registry_genesis : registry Chain.genesis.
Proof. split; [|constructor]. intros c r. cbn. split; [done|]. intros [Hin _]. by apply not_elem_of_nil in Hin. Qed.

Lemma registry_run s0 ws : registry s0 -> all_accepted s0 ws -> registry (foldl Chain.add s0 ws).
Proof.
  intros H0. induction ws as [|w ws IH] using rev_ind; intros Ha; [done|]. apply all_accepted_snoc in Ha as [Ha Hw].
  rewrite foldl_app. apply registry_add; auto.
Qed.

(** The sends of every channel, read off the blocks as the ledger does. *)
Definition sends_read_off (s : Chain.state) : Prop :=
  forall c, sends (Chain.channels s c) = send_history c (Block.default :: Chain.blocks s).

Lemma registered_sends chs rs c : registrable chs rs -> sends (foldl register chs rs c) = sends (chs c).
Proof.
  revert chs. induction rs as [|r rs IH]; intros chs Hrs; [done|]. destruct Hrs as (_ & Hfresh & Hrs). cbn [foldl].
  rewrite IH by done. unfold register. destruct (decide (ChannelRegRecord.channel_id r = c)) as [<-|Hne].
  - by rewrite fn_lookup_insert, Hfresh.
  - by rewrite fn_lookup_insert_ne.
Qed.

Lemma sends_add s w : sends_read_off s -> block_accepted s w -> sends_read_off (Chain.add s w).
Proof.
  intros Hs Ha c. pose proof (ba_registrable _ _ Ha) as Hr. cbn [Chain.add Chain.channels Chain.blocks].
  rewrite app_comm_cons, send_history_snoc. unfold takes_part. fold (Chain.is_active w). cbn [length].
  destruct (Chain.is_active w) eqn:Hact.
  - rewrite andb_true_r. unfold record_block. cbn [Chain.update_of BlockHashChainProcessorWitness.to_update_channel_tree UpdateUserTree.block UpdateUserTree.block_number].
    destruct (Z.eqb_spec (Block.channel_id (block w)) c) as [<-|Hne].
    + rewrite fn_lookup_insert. cbn [with_send sends]. rewrite Hs. unfold Chain.number. by rewrite Nat2Z.inj_succ.
    + rewrite fn_lookup_insert_ne by done. apply Hs.
  - rewrite andb_false_r, registered_sends by done. apply Hs.
Qed.

Lemma sends_run ws : all_accepted Chain.genesis ws -> sends_read_off (foldl Chain.add Chain.genesis ws).
Proof.
  induction ws as [|w ws IH] using rev_ind; intros Ha.
  - intros c. cbn [foldl Chain.genesis Chain.channels Chain.blocks]. by rewrite send_history_genesis.
  - apply all_accepted_snoc in Ha as [Ha Hw]. rewrite foldl_app. apply sends_add; auto.
Qed.

Lemma blocks_run s0 ws : Chain.blocks (foldl Chain.add s0 ws) = Chain.blocks s0 ++ (BlockHashChainProcessorWitness.block <$> ws).
Proof.
  induction ws as [|w ws IH] using rev_ind; [by rewrite app_nil_r|]. rewrite foldl_app, fmap_app. cbn [foldl Chain.add Chain.blocks].
  by rewrite IH, <- (assoc_L (++)).
Qed.

(** Every deposit has the index of its position and the number of a block of the run. *)
Lemma deposits_run ws i d : all_accepted Chain.genesis ws ->
  Chain.deposits (foldl Chain.add Chain.genesis ws) !! i = Some d ->
  U63.as_u64 (Deposit.deposit_index d) = Z.of_nat i /\
  exists k, (k < length ws)%nat /\ Deposit.block_number d = U63.mkU63 (Z.of_nat k + 1).
Proof.
  induction ws as [|w ws IH] using rev_ind; intros Ha Hd; [done|]. apply all_accepted_snoc in Ha as [Ha Hw].
  rewrite foldl_app in Hd. cbn [foldl Chain.add Chain.deposits] in Hd. rewrite length_app. cbn [length].
  apply lookup_app_Some in Hd as [Hd|[Hi Hd]].
  - destruct (IH Ha Hd) as (H1 & k & Hk & H2). split; [done|]. exists k. split; [lia|done].
  - destruct (ba_stamps _ _ Hw _ _ Hd) as [H1 H2]. split; [lia|]. exists (length ws). split; [lia|].
    rewrite H2. unfold Chain.number. rewrite blocks_run. by rewrite length_app, length_fmap.
Qed.

End refine.
