(* ===== verification/ChainCodec.v ===== *)
(** * Encodings of the validity proofs

    The word layouts of the public inputs that the deposit, registration,
    update and block proofs hand to each other: what a writer produces its
    reader gives back.  A layout is a list of chunks; [slice_chunk] reads one
    chunk, so that a round trip is one line per field. *)

From S2P Require Import Prelude Limbs U63 Circuit MerkleTree LeafTrees Poseidon IndexedTree Keccak Regev BalanceState Account AccountProps Ledger LedgerProps Balance BalanceProps BalanceCodec Channel HashChains BlockStep BlockChain.

#[local] Remove Hints Leafable_Bytes32 : typeclass_instances.

(** ** Chunks *)

Section chunks.
Context {A : Type}.
Implicit Types cs : list (list A).

Lemma length_chunks cs : length (concat cs) = sum_list (length <$> cs).
Proof. induction cs as [|x cs IH]; [done|]. cbn. by rewrite length_app, IH. Qed.

Lemma slice_chunk cs lens k c n m :
  length <$> cs = lens -> cs !! k = Some c -> sum_list (take k lens) = n -> sum_list (take (S k) lens) = m ->
  slice n m (concat cs) = c.
Proof.
  intros <- Hk <- <-. rewrite <- !fmap_take, (take_S_r _ _ _ Hk), fmap_app, sum_list_with_app. cbn.
  rewrite <- (take_drop_middle cs k c Hk) at 3. rewrite concat_app. cbn [concat].
  apply slice_middle; [apply length_chunks|]. unfold sum_list. lia.
Qed.

Lemma lookup_chunk cs lens k x n :
  length <$> cs = lens -> cs !! k = Some [x] -> sum_list (take k lens) = n -> concat cs !! n = Some x.
Proof.
  intros <- Hk <-. rewrite <- fmap_take. rewrite <- (take_drop_middle cs k [x] Hk) at 2. rewrite concat_app. cbn [concat].
  rewrite lookup_app_r by (by rewrite length_chunks). by rewrite length_chunks, Nat.sub_diag.
Qed.

End chunks.

(** [read_chunks H]: every slice and word of a layout, given [H : length <$> cs = lens]. *)
Ltac read_chunks H :=
  repeat match goal with
  | |- context [slice ?n ?m (concat ?cs)] =>
      first [
        let go k := rewrite (slice_chunk cs _ k _ n m H eq_refl) by (cbn; lia) in
        first [go 0%nat|go 1%nat|go 2%nat|go 3%nat|go 4%nat|go 5%nat|go 6%nat|go 7%nat|go 8%nat|go 9%nat
              |go 10%nat|go 11%nat|go 12%nat|go 13%nat|go 14%nat|go 15%nat|go 16%nat|go 17%nat|go 18%nat|go 19%nat]]
  | |- context [concat ?cs !! ?n] =>
      let go k := rewrite (lookup_chunk cs _ k _ n H eq_refl) by (cbn; lia) in
      first [go 0%nat|go 1%nat|go 2%nat|go 3%nat|go 4%nat|go 5%nat|go 6%nat|go 7%nat|go 8%nat|go 9%nat
              |go 10%nat|go 11%nat|go 12%nat|go 13%nat|go 14%nat|go 15%nat|go 16%nat|go 17%nat|go 18%nat|go 19%nat]
  end.

(** ** Verifier data *)

Record vd_shaped (cap_len : nat) (vd : VerifierData) : Prop := {
  shaped_cap : length (VerifierData.constants_sigmas_cap vd) = cap_len;
  shaped_entries : Forall (fun e => length e = 4%nat) (VerifierData.constants_sigmas_cap vd);
  shaped_digest : length (VerifierData.circuit_digest vd) = 4%nat;
}.

Definition vd_words (vd : VerifierData) : list Z :=
  VerifierData.circuit_digest vd ++ concat (VerifierData.constants_sigmas_cap vd).

Lemma vd_to_vec_Ok {E} cap_len vd : vd_shaped cap_len vd -> vd_to_vec (E := E) cap_len vd = Ok (vd_words vd).
Proof.
  intros [<- _ _]. unfold vd_to_vec, vd_words.
  rewrite (proj2 (res_mapM_Ok _ _ (VerifierData.constants_sigmas_cap vd))); [done|].
  apply Forall2_same_length_lookup_2; [by rewrite length_seq|].
  intros i x y Hx Hy. apply lookup_seq in Hx as [-> _]. cbn [Nat.add]. by rewrite Hy.
Qed.

Lemma caps_length (cap : list (list Z)) : Forall (fun e => length e = 4%nat) cap -> length (concat cap) = (4 * length cap)%nat.
Proof. induction 1 as [|e cap He _ IH]; [done|]. cbn [concat length]. rewrite length_app, He, IH. lia. Qed.

Lemma vd_words_length cap_len vd : vd_shaped cap_len vd -> length (vd_words vd) = VerifierData.vec_len cap_len.
Proof.
  intros [<- H1 H2]. unfold vd_words, VerifierData.vec_len. by rewrite length_app, caps_length, H2.
Qed.

Lemma vd_roundtrip cap_len vd : vd_shaped cap_len vd -> VerifierData.from_pis_slice (vd_words vd) cap_len = Ok vd.
Proof.
  intros Hs. pose proof (vd_words_length _ _ Hs) as Hl. destruct Hs as [Hc He Hd]. unfold VerifierData.from_pis_slice.
  rewrite Hl. unfold VerifierData.vec_len. rewrite Nat.ltb_irrefl. destruct vd as [cap digest]. unfold vd_words. cbn in *.
  f_equal. f_equal.
  - apply list_eq. intros i. rewrite list_lookup_fmap. destruct (decide (i < cap_len)%nat) as [Hi|Hi].
    + rewrite lookup_seq_lt by done. destruct (lookup_lt_is_Some_2 cap i) as [e Hei]; [lia|]. rewrite Hei. cbn [fmap option_fmap option_map].
      f_equal. change (digest ++ concat cap) with (concat (digest :: cap)).
      assert (Forall (fun e => length e = 4%nat) (digest :: cap)) as Hf by by constructor.
      assert (forall k, (k <= length (digest :: cap))%nat -> sum_list (take k (length <$> digest :: cap)) = (4 * k)%nat) as Hsum.
      { intros k Hk. rewrite <- fmap_take, <- length_chunks, caps_length by by apply Forall_take.
        rewrite length_take. lia. }
      apply (slice_chunk _ _ (S i) e _ _ eq_refl); [done| |];
        rewrite Hsum by (cbn; rewrite ?Hc; lia); cbn; lia.
    + rewrite !lookup_ge_None_2 by (rewrite ?length_seq; lia). done.
  - etransitivity; [|exact (slice_middle (A := Z) [] digest (concat cap) 0 4 eq_refl Hd)]. unfold slice. cbn [app]. f_equal; [lia|f_equal; lia].
Qed.

(** ** Public inputs *)

Definition u63_typed (x : U63.U63) : Prop := 0 <= U63.as_u64 x < 2 ^ 63.

Lemma u63_new_typed x : u63_typed x -> U63.new (U63.as_u64 x) = Ok x.
Proof. intros H. rewrite u63_new_Ok by exact H. by destruct x. Qed.

Lemma bytes32_words_length (b : Bytes32) : length (Limbs.to_u64_vec b) = 8%nat.
Proof. apply limbs_length. Qed.

Section codec.
Context {P : Poseidon} {W : PoseidonWords P} {PR : PoseidonReadable P W}.

(** One field read back. *)
Ltac field :=
  first [ rewrite from_u64_slice_to_u64_vec | rewrite phash_slice_roundtrip | rewrite u63_new_typed by done ];
  cbn [map_err mbind res_bind].

Ltac lengths :=
  cbn [fmap list_fmap]; rewrite ?bytes32_words_length, ?readable_length, ?public_state_words_length; reflexivity.

Record ext_typed (s : ExtendedPublicState) : Prop := {
  ext_inner : public_state_typed (ExtendedPublicState.inner s);
  ext_count : u63_typed (ExtendedPublicState.deposit_count s);
}.

Definition ext_chunks (s : ExtendedPublicState) : list (list Z) :=
  [PublicState.to_u64_vec (ExtendedPublicState.inner s); Limbs.to_u64_vec (ExtendedPublicState.block_hash_chain s);
   Limbs.to_u64_vec (ExtendedPublicState.deposit_hash_chain s); [U63.as_u64 (ExtendedPublicState.deposit_count s)];
   Limbs.to_u64_vec (ExtendedPublicState.channel_reg_hash_chain s); Limbs.to_u64_vec (ExtendedPublicState.bp_sig_chain s)].

Lemma ext_words s : ExtendedPublicState.to_u64_vec s = concat (ext_chunks s).
Proof. cbn [ext_chunks concat]. by rewrite app_nil_r. Qed.

Lemma ext_lengths s : length <$> ext_chunks s = [15; 8; 8; 1; 8; 8]%nat.
Proof. unfold ext_chunks. lengths. Qed.

Lemma ext_words_length s : length (ExtendedPublicState.to_u64_vec s) = 48%nat.
Proof. by rewrite ext_words, length_chunks, ext_lengths. Qed.

Lemma ext_roundtrip s : ext_typed s -> ExtendedPublicState.from_u64_slice (ExtendedPublicState.to_u64_vec s) = Ok s.
Proof.
  intros [H1 H2]. unfold ExtendedPublicState.from_u64_slice. rewrite ext_words_length, ext_words.
  rewrite bool_decide_eq_false_2 by (by intros []). read_chunks (ext_lengths s).
  rewrite public_state_roundtrip by done. cbn [map_err mbind res_bind unwrap expect]. repeat field. by destruct s.
Qed.

(** The two chains share their layout. *)
Definition chain_chunks (c0 : Bytes32) (r0 : PHash) (n0 : U63.U63) (c : Bytes32) (r : PHash) (n bn : U63.U63)
    (vd : VerifierData) : list (list Z) :=
  [Limbs.to_u64_vec c0; phash_to_u64_vec r0; [U63.as_u64 n0]; Limbs.to_u64_vec c; phash_to_u64_vec r; [U63.as_u64 n];
   [U63.as_u64 bn]; vd_words vd].

Lemma chain_lengths c0 r0 n0 c r n bn cap_len vd : vd_shaped cap_len vd ->
  length <$> chain_chunks c0 r0 n0 c r n bn vd = [8; 4; 1; 8; 4; 1; 1; VerifierData.vec_len cap_len]%nat.
Proof. intros H. unfold chain_chunks. cbn [fmap list_fmap]. rewrite (vd_words_length _ _ H). lengths. Qed.

(** A sum of chunk lengths whose last one is symbolic. *)
Lemma chain_words_length c0 r0 n0 c r n bn cap_len vd : vd_shaped cap_len vd ->
  length (concat (chain_chunks c0 r0 n0 c r n bn vd)) = (27 + VerifierData.vec_len cap_len)%nat.
Proof. intros H. rewrite length_chunks, (chain_lengths _ _ _ _ _ _ _ _ _ H). cbn. lia. Qed.

Record deposit_pis_typed (cap_len : nat) (p : DepositChainPublicInputs) : Prop := {
  dpt_count0 : u63_typed (DepositChainPublicInputs.initial_deposit_count p);
  dpt_count : u63_typed (DepositChainPublicInputs.deposit_count p);
  dpt_number : u63_typed (DepositChainPublicInputs.block_number p);
  dpt_vd : vd_shaped cap_len (DepositChainPublicInputs.vd p);
}.

Lemma deposit_pis_roundtrip {E} cap_len p : deposit_pis_typed cap_len p ->
  exists ws, DepositChainPublicInputs.to_u64_vec (E := E) cap_len p = Ok ws /\
    DepositChainPublicInputs.from_u64_slice ws cap_len = Ok p.
Proof.
  intros [H1 H2 H3 Hv]. destruct p as [c0 r0 n0 c r n bn vd]. cbn in *.
  exists (concat (chain_chunks c0 r0 n0 c r n bn vd)). split.
  - unfold DepositChainPublicInputs.to_u64_vec. cbn. rewrite (vd_to_vec_Ok _ _ Hv). cbn [mbind res_bind].
    cbn [chain_chunks concat]. by rewrite app_nil_r.
  - unfold DepositChainPublicInputs.from_u64_slice. rewrite (chain_words_length _ _ _ _ _ _ _ _ _ Hv).
    rewrite bool_decide_eq_false_2 by (by intros []). read_chunks (chain_lengths c0 r0 n0 c r n bn _ _ Hv).
    cbn [unwrap expect]. repeat field. by rewrite vd_roundtrip.
Qed.

Record reg_pis_typed (cap_len : nat) (p : ChannelRegChainPublicInputs) : Prop := {
  rpt_count0 : u63_typed (ChannelRegChainPublicInputs.initial_channel_reg_count p);
  rpt_count : u63_typed (ChannelRegChainPublicInputs.channel_reg_count p);
  rpt_number : u63_typed (ChannelRegChainPublicInputs.block_number p);
  rpt_vd : vd_shaped cap_len (ChannelRegChainPublicInputs.vd p);
}.

Lemma reg_pis_roundtrip {E} cap_len p : reg_pis_typed cap_len p ->
  exists ws, ChannelRegChainPublicInputs.to_u64_vec (E := E) cap_len p = Ok ws /\
    ChannelRegChainPublicInputs.from_u64_slice ws cap_len = Ok p.
Proof.
  intros [H1 H2 H3 Hv]. destruct p as [c0 r0 n0 c r n bn vd]. cbn in *.
  exists (concat (chain_chunks c0 r0 n0 c r n bn vd)). split.
  - unfold ChannelRegChainPublicInputs.to_u64_vec. cbn. rewrite (vd_to_vec_Ok _ _ Hv). cbn [mbind res_bind].
    cbn [chain_chunks concat]. by rewrite app_nil_r.
  - unfold ChannelRegChainPublicInputs.from_u64_slice. rewrite (chain_words_length _ _ _ _ _ _ _ _ _ Hv).
    rewrite bool_decide_eq_false_2 by (by intros []). read_chunks (chain_lengths c0 r0 n0 c r n bn _ _ Hv).
    cbn [unwrap expect]. repeat field. by rewrite vd_roundtrip.
Qed.

Record update_pis_typed (p : UpdateUserPublicInputs) : Prop := {
  upt_number : u63_typed (UpdateUserPublicInputs.block_number p);
  upt_time : in_width 64 (UpdateUserPublicInputs.block_timestamp p);
}.

Definition update_chunks (p : UpdateUserPublicInputs) : list (list Z) :=
  [[U63.as_u64 (UpdateUserPublicInputs.block_number p)]; split_u64 (UpdateUserPublicInputs.block_timestamp p);
   Limbs.to_u64_vec (UpdateUserPublicInputs.prev_block_hash_chain p);
   phash_to_u64_vec (UpdateUserPublicInputs.prev_account_tree_root p);
   Limbs.to_u64_vec (UpdateUserPublicInputs.new_block_hash_chain p);
   phash_to_u64_vec (UpdateUserPublicInputs.new_account_tree_root p);
   Limbs.to_u64_vec (UpdateUserPublicInputs.deposit_hash_chain p);
   Limbs.to_u64_vec (UpdateUserPublicInputs.channel_reg_hash_chain p);
   Limbs.to_u64_vec (UpdateUserPublicInputs.prev_bp_sig_chain p);
   Limbs.to_u64_vec (UpdateUserPublicInputs.new_bp_sig_chain p)].

Lemma update_words p : UpdateUserPublicInputs.to_u64_vec p = concat (update_chunks p).
Proof. cbn [update_chunks concat]. by rewrite app_nil_r. Qed.

Lemma update_lengths p : length <$> update_chunks p = [1; 2; 8; 4; 8; 4; 8; 8; 8; 8]%nat.
Proof. unfold update_chunks. lengths. Qed.

Lemma update_pis_roundtrip p : update_pis_typed p ->
  UpdateUserPublicInputs.from_u64_slice (UpdateUserPublicInputs.to_u64_vec p) = Ok p.
Proof.
  intros [H1 H2]. unfold UpdateUserPublicInputs.from_u64_slice. rewrite update_words, length_chunks, update_lengths.
  rewrite bool_decide_eq_false_2 by (by intros []). read_chunks (update_lengths p).
  cbn [unwrap expect mbind res_bind]. field. destruct (timestamp_roundtrip _ H2) as (u & Hu & Ht). rewrite Hu.
  cbn [map_err mbind res_bind]. repeat field. rewrite Ht. by destruct p.
Qed.

Record block_pis_typed (cap_len : nat) (p : BlockChainPublicInputs) : Prop := {
  bpt_initial : ext_typed (BlockChainPublicInputs.initial_ext_public_state p);
  bpt_current : ext_typed (BlockChainPublicInputs.ext_public_state p);
  bpt_vd : vd_shaped cap_len (BlockChainPublicInputs.vd p);
}.

Lemma block_pis_roundtrip {E} cap_len p : block_pis_typed cap_len p ->
  exists ws, BlockChainPublicInputs.to_u64_vec (E := E) cap_len p = Ok ws /\
    BlockChainPublicInputs.from_u64_slice ws cap_len = Ok p.
Proof.
  intros [H1 H2 Hv]. destruct p as [s0 s vd]. cbn in *.
  set (cs := [ExtendedPublicState.to_u64_vec s0; ExtendedPublicState.to_u64_vec s; vd_words vd]).
  assert (length <$> cs = [48; 48; VerifierData.vec_len cap_len]%nat) as Hl.
  { cbn [cs fmap list_fmap]. by rewrite !ext_words_length, (vd_words_length _ _ Hv). }
  exists (concat cs). split.
  - unfold BlockChainPublicInputs.to_u64_vec. cbn. rewrite (vd_to_vec_Ok _ _ Hv). cbn [mbind res_bind cs concat].
    by rewrite app_nil_r.
  - unfold BlockChainPublicInputs.from_u64_slice. rewrite length_chunks, Hl, bool_decide_eq_false_2 by (intros []; cbn; lia).
    read_chunks Hl. rewrite !ext_roundtrip by done. cbn [map_err mbind res_bind]. by rewrite vd_roundtrip.
Qed.

End codec.

(** ** Readers *)

(** What a reader accepts has the ranges of the Rust types. *)
Section readers.
Context {P : Poseidon} {W : PoseidonWords P}.

Lemma read_u63 ws i v y : Forall (in_width 64) ws -> ws !! i = Some v -> U63.new v = Ok y -> u63_typed y.
Proof.
  intros Hw Hi Hy. rewrite Forall_lookup in Hw. specialize (Hw i v Hi). unfold in_width in Hw.
  apply U63_lemmas.new_Ok in Hy as [-> ?]; [|lia]. unfold u63_typed. cbn. lia.
Qed.

Lemma slice_width n m ws : Forall (in_width 64) ws -> Forall (in_width 64) (slice n m ws).
Proof. intros H. unfold slice. by apply Forall_take, Forall_drop. Qed.

Lemma length_slice {A} n m (l : list A) : (m <= length l)%nat -> length (slice n m l) = (m - n)%nat.
Proof. intros H. unfold slice. rewrite length_take, length_drop. lia. Qed.

Lemma u64_in_width (u : U64) : in_width 64 (U64.to_u64 u).
Proof. rewrite U64_theorems.to_u64_val. apply (val_bound u). Qed.

Lemma read_vd ws cap_len vd : length ws = VerifierData.vec_len cap_len ->
  VerifierData.from_pis_slice ws cap_len = Ok vd -> vd_shaped cap_len vd.
Proof.
  intros Hl H. unfold VerifierData.from_pis_slice in H. destruct (_ <? _)%nat; [done|]. apply Ok_inj in H as <-.
  unfold VerifierData.vec_len in Hl. split; cbn.
  - by rewrite length_fmap, length_seq.
  - apply Forall_fmap, List.Forall_forall. intros i Hi%List.in_seq. cbn. rewrite length_slice by lia. lia.
  - rewrite length_slice by lia. lia.
Qed.

(** [read_fields H]: the fields of a reader that returned, one after the other. *)
Ltac read_fields H :=
  repeat match type of H with
  | mbind _ (unwrap _) = Ok _ => let v := fresh "v" in let Hv := fresh "Hv" in apply bind_Ok in H as (v & Hv%unwrap_Ok & H)
  | mbind _ (map_err _ _) = Ok _ => let x := fresh "x" in let Hx := fresh "Hx" in apply bind_Ok in H as (x & Hx%map_err_Ok & H)
  end.

Lemma public_state_read ws s : Forall (in_width 64) ws -> public_state_from_u64_slice ws = Ok s -> public_state_typed s.
Proof.
  intros Hw H. unfold public_state_from_u64_slice in H. case_bool_decide; [done|]. read_fields H. apply Ok_inj in H as <-.
  split; [by eapply (read_u63 ws 0)|apply u64_in_width].
Qed.

Lemma ext_read ws s : Forall (in_width 64) ws -> ExtendedPublicState.from_u64_slice ws = Ok s -> ext_typed s.
Proof.
  intros Hw H. unfold ExtendedPublicState.from_u64_slice in H. case_bool_decide; [done|]. read_fields H. apply Ok_inj in H as <-.
  split; cbn; [by eapply public_state_read, Hx; apply slice_width|by eapply (read_u63 ws 31)].
Qed.

Lemma update_read ws p : Forall (in_width 64) ws -> UpdateUserPublicInputs.from_u64_slice ws = Ok p -> update_pis_typed p.
Proof.
  intros Hw H. unfold UpdateUserPublicInputs.from_u64_slice in H. case_bool_decide; [done|]. read_fields H. apply Ok_inj in H as <-.
  split; [by eapply (read_u63 ws 0)|apply u64_in_width].
Qed.

Lemma deposit_read ws cap_len p : Forall (in_width 64) ws -> DepositChainPublicInputs.from_u64_slice ws cap_len = Ok p ->
  deposit_pis_typed cap_len p.
Proof.
  intros Hw H. unfold DepositChainPublicInputs.from_u64_slice in H. case_bool_decide as Hl; [done|].
  read_fields H. apply Ok_inj in H as <-. split; cbn; [by eapply (read_u63 ws 12)|by eapply (read_u63 ws 25)|by eapply (read_u63 ws 26)|].
  eapply read_vd; [|done]. change DepositChainPublicInputs.LEN with 27%nat in Hl. rewrite length_slice by lia. lia.
Qed.

Lemma reg_read ws cap_len p : Forall (in_width 64) ws -> ChannelRegChainPublicInputs.from_u64_slice ws cap_len = Ok p ->
  reg_pis_typed cap_len p.
Proof.
  intros Hw H. unfold ChannelRegChainPublicInputs.from_u64_slice in H. case_bool_decide as Hl; [done|].
  read_fields H. apply Ok_inj in H as <-. split; cbn; [by eapply (read_u63 ws 12)|by eapply (read_u63 ws 25)|by eapply (read_u63 ws 26)|].
  eapply read_vd; [|done]. change ChannelRegChainPublicInputs.LEN with 27%nat in Hl. rewrite length_slice by lia. lia.
Qed.

Lemma block_read ws cap_len p : Forall (in_width 64) ws -> BlockChainPublicInputs.from_u64_slice ws cap_len = Ok p ->
  block_pis_typed cap_len p.
Proof.
  intros Hw H. unfold BlockChainPublicInputs.from_u64_slice in H. case_bool_decide as Hl; [done|].
  read_fields H. apply Ok_inj in H as <-. split; cbn.
  - by eapply ext_read, Hx; apply slice_width.
  - by eapply ext_read, Hx0; apply slice_width.
  - eapply read_vd; [|done]. change BlockChainPublicInputs.LEN with 96%nat in Hl. rewrite length_slice by lia. lia.
Qed.

End readers.

(** ** The signed message *)

(** Where the block-level values sit in the words of the signed channel state. *)
Lemma preimage_layout f channel_id h2_tag :
  length (ChannelStateMessageFields.fund_amounts f) = MAX_CHANNEL_TOKENS ->
  let words := ChannelStateMessageFields.preimage f channel_id h2_tag in
  length words = ChannelStateMessageFields.CHANNEL_STATE_PREIMAGE_U32_LEN /\
  words !! ChannelStateMessageFields.CHANNEL_ID_LIMB = Some channel_id /\
  words !! ChannelStateMessageFields.FUND_CHANNEL_ID_LIMB = Some channel_id /\
  slice ChannelStateMessageFields.H2_TAG_LIMBS.1 ChannelStateMessageFields.H2_TAG_LIMBS.2 words = to_u32_vec h2_tag.
Proof.
  intros Ha. cbv zeta. destruct f as [ep sb cf am ir h1 nr un pd sv]. cbn in Ha.
  set (cs := [[CHANNEL_STATE_DOMAIN]; [channel_id]; split_u64 ep; split_u64 sb; split_u64 cf; [channel_id];
    am ≫= to_u32_vec; to_u32_vec ir; to_u32_vec h1; to_u32_vec nr; to_u32_vec un; to_u32_vec pd; to_u32_vec h2_tag; split_u64 sv]).
  assert (length <$> cs = [1;1;2;2;2;1;80;8;8;8;8;8;8;2]%nat) as Hlen.
  { subst cs. cbn [fmap list_fmap]. unfold to_u32_vec. rewrite !limbs_length.
    assert (forall (l : list U256), length (l ≫= limbs) = 8 * length l)%nat as Hb.
    { induction l as [|x l IH]; [done|]. rewrite bind_cons, length_app, IH, limbs_length. cbn [length]. unfold U256_LEN. lia. }
    unfold to_u32_vec in *. rewrite Hb, Ha. done. }
  assert (ChannelStateMessageFields.preimage (ChannelStateMessageFields.mk ep sb cf am ir h1 nr un pd sv) channel_id h2_tag
    = concat cs) as ->.
  { subst cs. unfold ChannelStateMessageFields.preimage. cbn [concat]. by rewrite app_nil_r. }
  split_and!.
  - by rewrite length_chunks, Hlen.
  - by apply (lookup_chunk cs _ 1 _ _ Hlen).
  - by apply (lookup_chunk cs _ 5 _ _ Hlen).
  - by apply (slice_chunk cs _ 12 _ _ _ Hlen).
Qed.
