(* ===== verification/ExitCodec.v ===== *)
(** * Encodings of the exit statements

    The word layouts of the close, cancellation, withdrawal-claim and
    post-close statements.  On 32-bit words, which is what the proofs expose,
    each reader accepts exactly what its writer produces. *)

From S2P Require Import Prelude Limbs U63 Circuit MerkleTree LeafTrees Poseidon Keccak Regev BalanceState Account Ledger Balance BalanceCodec Channel ChainCodec ExitClaims.

(** ** Fields *)

Lemma join_split {E} v : in_width 64 v -> join_u64 (E := E) (split_u64 v) = Ok v.
Proof.
  intros Hv. unfold join_u64, split_u64. cbn [lookup list_lookup unwrap mbind res_bind]. f_equal. unfold in_width in Hv.
  assert (in_width 32 (Z.shiftr v 32)) as Hs.
  { rewrite Z.shiftr_div_pow2 by lia. split; [apply Z.div_pos; lia|apply Z.div_lt_upper_bound; lia]. }
  rewrite (wrap_id 32 (Z.shiftr v 32)) by done. rewrite wrap_id.
  - rewrite lor_shiftl_add by (try apply wrap_in_width; lia). rewrite Z.shiftr_div_pow2 by lia. unfold wrap.
    pose proof (Z.div_mod v (2 ^ 32)). lia.
  - unfold in_width in *. rewrite Z.shiftl_mul_pow2 by lia. lia.
Qed.

Lemma split_join {E} ws v : length ws = 2%nat -> Forall (in_width 32) ws -> join_u64 (E := E) ws = Ok v -> ws = split_u64 v /\ in_width 64 v.
Proof.
  intros Hl Hw H. destruct ws as [|hi [|lo [|]]]; try done. rewrite !Forall_cons_iff in Hw. destruct Hw as (Hh & Hlo & _).
  unfold join_u64 in H. cbn [lookup list_lookup unwrap mbind res_bind] in H. apply Ok_inj in H as <-. unfold in_width in Hh, Hlo.
  rewrite wrap_id by (unfold in_width; rewrite Z.shiftl_mul_pow2 by lia; lia). rewrite lor_shiftl_add by (assumption || lia).
  split; [|unfold in_width; lia]. unfold split_u64, wrap. rewrite Z.shiftr_div_pow2 by lia.
  rewrite Z.div_add_l, (Z.div_small lo), Z.add_0_r by lia. rewrite Z.mod_small by lia.
  by rewrite Z.add_comm, Z.mod_add, (Z.mod_small lo) by lia.
Qed.

Lemma narrow_Ok {E} w (e : E) v x : narrow w e v = Ok x <-> v = x /\ v < 2 ^ w.
Proof. unfold narrow. destruct (Z.ltb_spec v (2 ^ w)); split; intros H'; simplify_eq; try done; naive_solver lia. Qed.

Lemma read_limbs_words {E} n (e : E) (x : Limbs n) : read_limbs n e (Limbs.to_u64_vec x) = Ok x.
Proof. unfold read_limbs. by rewrite from_u64_slice_to_u64_vec. Qed.

Lemma read_limbs_Ok {E} n (e : E) ws x : Forall (in_width 32) ws -> read_limbs n e ws = Ok x -> ws = Limbs.to_u64_vec x.
Proof.
  intros Hw H. apply map_err_Ok in H. apply from_u64_slice_Ok in H as [H _]; [by rewrite <- H|].
  eapply Forall_impl; [|exact Hw]. unfold in_width. lia.
Qed.

(** The ids a channel can have. *)
Definition id_ok (c : ChannelId) : Prop := in_width 32 c /\ c <> 0.

Lemma read_id_words {E} (e : E) c : id_ok c -> read_channel_id e (ChannelId.to_u32_vec c) = Ok c.
Proof.
  intros [Hw Hz]. unfold read_channel_id, ChannelId.from_u64_slice, ChannelId.to_u32_vec, ChannelId.new, ChannelId.validate_components.
  unfold in_width in Hw. rewrite (proj2 (Z.ltb_lt _ _)) by lia. by rewrite (proj2 (Z.eqb_neq _ _)).
Qed.

Lemma read_id_Ok {E} (e : E) ws c : Forall (in_width 32) ws -> read_channel_id e ws = Ok c -> ws = ChannelId.to_u32_vec c /\ id_ok c.
Proof.
  intros Hw H. apply map_err_Ok in H. destruct ws as [|v [|]]; try done. cbn in H. unfold ChannelId.new in H. destruct (v <? 2 ^ 32); [|done].
  unfold ChannelId.validate_components in H. destruct (Z.eqb_spec v 0); [done|]. apply Ok_inj in H as <-.
  rewrite Forall_cons_iff in Hw. by split; [|split; [apply Hw|]].
Qed.

(** ** Layouts *)

Lemma slice_app {A} a b c (l : list A) : (a <= b <= c)%nat -> slice a b l ++ slice b c l = slice a c l.
Proof.
  intros H. unfold slice. replace (drop b l) with (drop (b - a) (drop a l)) by (rewrite drop_drop; f_equal; lia).
  replace (take (c - b) (drop (b - a) (drop a l))) with (drop (b - a) (take (c - a) (drop a l))) by (rewrite skipn_firstn_comm; f_equal; lia).
  rewrite <- (take_drop (b - a) (take (c - a) (drop a l))) at 2. rewrite take_take. do 2 f_equal. lia.
Qed.

Lemma slice_one {A} (l : list A) k x n : l !! k = Some x -> n = S k -> slice k n l = [x].
Proof. intros H ->. unfold slice. rewrite (drop_S _ _ _ H). by replace (S k - k)%nat with 1%nat by lia. Qed.

Lemma slice_all {A} (l : list A) n : length l = n -> slice 0 n l = l.
Proof. intros <-. unfold slice. by rewrite Nat.sub_0_r, drop_0, take_ge. Qed.

Lemma slice_w32 n m ws : Forall (in_width 32) ws -> Forall (in_width 32) (slice n m ws).
Proof. intros H. unfold slice. by apply Forall_take, Forall_drop. Qed.

Lemma address_words_length (a : Address) : length (Limbs.to_u64_vec a) = 5%nat.
Proof. apply limbs_length. Qed.

(** One field of a written statement read back. *)
Ltac read_back :=
  first [ rewrite read_limbs_words | rewrite read_id_words by done | rewrite join_split by done
        | rewrite (proj2 (narrow_Ok _ _ _ _)) by (split; [reflexivity|unfold in_width in *; lia]) ];
  cbn [unwrap mbind res_bind].

Ltac field_lengths := cbn [fmap list_fmap]; rewrite ?bytes32_words_length, ?address_words_length; reflexivity.

(** The fields of a reader that returned: each slice is the words of what was read. *)
Ltac fields_read Hl Hw H :=
  repeat match type of H with
  | mbind _ (read_limbs _ _ (slice ?a ?b ?ws)) = Ok _ =>
      let x := fresh "x" in let Hx := fresh "Hx" in apply bind_Ok in H as (x & Hx & H); apply read_limbs_Ok in Hx; [|by apply slice_w32]
  | mbind _ (read_channel_id _ (slice ?a ?b ?ws)) = Ok _ =>
      let x := fresh "x" in let Hx := fresh "Hx" in apply bind_Ok in H as (x & Hx & H); apply read_id_Ok in Hx as [Hx ?]; [|by apply slice_w32]
  | mbind _ (join_u64 (slice ?a ?b ?ws)) = Ok _ =>
      let x := fresh "x" in let Hx := fresh "Hx" in apply bind_Ok in H as (x & Hx & H);
      apply split_join in Hx as [Hx ?]; [|by rewrite length_slice by (rewrite Hl; apply Nat.leb_le; reflexivity)|by apply slice_w32]
  | mbind _ (unwrap (?ws !! ?k)) = Ok _ =>
      let x := fresh "x" in let Hx := fresh "Hx" in let Hn := fresh "Hn" in apply bind_Ok in H as (x & Hx%unwrap_Ok & H);
      pose proof (Forall_lookup_1 _ _ _ _ Hw Hx) as Hn; apply (slice_one _ _ _ (S k)) in Hx; [|reflexivity]
  | mbind _ (narrow _ _ _) = Ok _ =>
      let x := fresh "x" in let Hx := fresh "Hx" in apply bind_Ok in H as (x & Hx & H); apply narrow_Ok in Hx as [<- ?]
  end.

(** The slices of the fields, in order, are the words. *)
Ltac join_fields Hl :=
  repeat match goal with Hx : slice ?a ?b ?ws = _ |- _ => rewrite <- Hx; clear Hx end;
  repeat (rewrite slice_app by lia); symmetry; exact (slice_all _ _ Hl).


(** ** The close *)

Module CloseCodec.
Import ChannelClosePublicInputs.

Record close_typed (p : ChannelClosePublicInputs) : Prop := {
  clt_id : id_ok (channel_id p);
  clt_nonces : in_width 64 (close_nonce p) /\ in_width 64 (close_freeze_nonce p);
  clt_counters : in_width 64 (final_epoch p) /\ in_width 64 (final_small_block_number p) /\ in_width 64 (snapshot_medium_block_number p)
    /\ in_width 64 (final_state_version p);
  clt_members : in_width 8 (member_count p) /\ in_width 16 (delegate_count p);
}.

Definition close_chunks (p : ChannelClosePublicInputs) : list (list Z) :=
  [ChannelId.to_u32_vec (channel_id p); split_u64 (close_nonce p); split_u64 (final_epoch p); split_u64 (final_small_block_number p);
   split_u64 (close_freeze_nonce p); Limbs.to_u64_vec (final_channel_state_digest p); Limbs.to_u64_vec (final_balance_state_h1 p);
   Limbs.to_u64_vec (channel_fund_amount p); Limbs.to_u64_vec (channel_fund_intmax_state_root p); Limbs.to_u64_vec (burn_tx_hash p);
   Limbs.to_u64_vec (close_withdrawal_digest p); Limbs.to_u64_vec (close_intent_digest p); split_u64 (snapshot_medium_block_number p);
   split_u64 (final_state_version p); Limbs.to_u64_vec (final_settled_tx_chain p); Limbs.to_u64_vec (final_settled_tx_accumulator_root p);
   Limbs.to_u64_vec (member_set_commitment p); [member_count p]; [delegate_count p]; Limbs.to_u64_vec (token_funds_digest p)].

Lemma close_words p : to_u64_vec p = concat (close_chunks p).
Proof. cbn [close_chunks concat]. by rewrite app_nil_r. Qed.

Lemma close_lengths p : length <$> close_chunks p = [1; 2; 2; 2; 2; 8; 8; 8; 8; 8; 8; 8; 2; 2; 8; 8; 8; 1; 1; 8]%nat.
Proof. unfold close_chunks. field_lengths. Qed.

Lemma close_roundtrip p : close_typed p -> from_u64_slice (to_u64_vec p) = Ok p.
Proof.
  intros [? [] (? & ? & ? & ?) []]. unfold from_u64_slice. rewrite close_words, length_chunks, close_lengths. cbn [ensure mbind res_bind Nat.eqb sum_list sum_list_with].
  read_chunks (close_lengths p). cbn [ensure mbind res_bind]. repeat read_back. by destruct p.
Qed.

Lemma close_read ws p : Forall (in_width 32) ws -> from_u64_slice ws = Ok p -> close_typed p /\ ws = to_u64_vec p.
Proof.
  intros Hw H. unfold from_u64_slice in H. apply bind_Ok in H as ([] & Hl%ensure_Ok%Nat.eqb_eq & H). fields_read Hl Hw H. apply Ok_inj in H as <-.
  split; [split; cbn; unfold in_width in *; auto with lia|]. unfold to_u64_vec. cbn -[split_u64 ChannelId.to_u32_vec Limbs.to_u64_vec app slice]. join_fields Hl.
Qed.
End CloseCodec.

(** ** The cancellation *)

Module CancelCodec.
Import CancelClosePublicInputs.

Record cancel_typed (p : CancelClosePublicInputs) : Prop := {
  cat_id : id_ok (channel_id p);
  cat_versions : in_width 64 (close_final_state_version p) /\ in_width 64 (revived_state_version p);
}.

Definition cancel_chunks (p : CancelClosePublicInputs) : list (list Z) :=
  [ChannelId.to_u32_vec (channel_id p); Limbs.to_u64_vec (close_intent_digest p); Limbs.to_u64_vec (member_set_commitment p);
   split_u64 (close_final_state_version p); split_u64 (revived_state_version p); Limbs.to_u64_vec (revived_channel_state_digest p)].

Lemma cancel_words p : to_u64_vec p = concat (cancel_chunks p).
Proof. cbn [cancel_chunks concat]. by rewrite app_nil_r. Qed.

Lemma cancel_lengths p : length <$> cancel_chunks p = [1; 8; 8; 2; 2; 8]%nat.
Proof. unfold cancel_chunks. field_lengths. Qed.

Lemma cancel_roundtrip p : cancel_typed p -> from_u64_slice (to_u64_vec p) = Ok p.
Proof.
  intros [? []]. unfold from_u64_slice. rewrite cancel_words, length_chunks, cancel_lengths.
  read_chunks (cancel_lengths p). cbn [ensure mbind res_bind Nat.eqb sum_list sum_list_with]. repeat read_back. by destruct p.
Qed.

Lemma cancel_read ws p : Forall (in_width 32) ws -> from_u64_slice ws = Ok p -> cancel_typed p /\ ws = to_u64_vec p.
Proof.
  intros Hw H. unfold from_u64_slice in H. apply bind_Ok in H as ([] & Hl%ensure_Ok%Nat.eqb_eq & H). fields_read Hl Hw H. apply Ok_inj in H as <-.
  split; [by split|]. unfold to_u64_vec. cbn -[split_u64 ChannelId.to_u32_vec Limbs.to_u64_vec app slice]. join_fields Hl.
Qed.
End CancelCodec.

(** ** Claims *)

Module ClaimCodec.
Import WithdrawalClaimPublicInputs.

Record claim_typed (p : WithdrawalClaimPublicInputs) : Prop := {
  wct_id : id_ok (channel_id p);
  wct_amount : in_width 64 (amount p);
  wct_token : in_width 8 (token_slot p) /\ in_width 32 (token_index p);
}.

Definition claim_chunks (p : WithdrawalClaimPublicInputs) : list (list Z) :=
  [Limbs.to_u64_vec (close_intent_digest p); ChannelId.to_u32_vec (channel_id p); Limbs.to_u64_vec (final_balance_state_h1 p);
   Limbs.to_u64_vec (member_pk_g p); Limbs.to_u64_vec (recipient p); Limbs.to_u64_vec (user_amount_digest p);
   Limbs.to_u64_vec (withdrawal_nullifier p); split_u64 (amount p); [token_slot p]; [token_index p]].

Lemma claim_words p : to_u64_vec p = concat (claim_chunks p).
Proof. cbn [claim_chunks concat]. by rewrite app_nil_r. Qed.

Lemma claim_lengths p : length <$> claim_chunks p = [8; 1; 8; 8; 5; 8; 8; 2; 1; 1]%nat.
Proof. unfold claim_chunks. field_lengths. Qed.

Lemma claim_roundtrip p : claim_typed p -> from_u64_slice (to_u64_vec p) = Ok p.
Proof.
  intros [? ? []]. unfold from_u64_slice. rewrite claim_words, length_chunks, claim_lengths.
  read_chunks (claim_lengths p). cbn [ensure mbind res_bind Nat.eqb sum_list sum_list_with]. repeat read_back. by destruct p.
Qed.

Lemma claim_read ws p : Forall (in_width 32) ws -> from_u64_slice ws = Ok p -> claim_typed p /\ ws = to_u64_vec p.
Proof.
  intros Hw H. unfold from_u64_slice in H. apply bind_Ok in H as ([] & Hl%ensure_Ok%Nat.eqb_eq & H). fields_read Hl Hw H. apply Ok_inj in H as <-.
  split; [split; cbn; unfold in_width in *; auto with lia|]. unfold to_u64_vec. cbn -[split_u64 ChannelId.to_u32_vec Limbs.to_u64_vec app slice]. join_fields Hl.
Qed.
End ClaimCodec.

Module PostCloseCodec.
Import PostCloseClaimPublicInputs.

Record post_close_typed (p : PostCloseClaimPublicInputs) : Prop := {
  pct_id : id_ok (receiver_channel_id p);
  pct_amount : in_width 64 (amount p);
  pct_token : in_width 32 (token_index p);
}.

Definition post_close_chunks (p : PostCloseClaimPublicInputs) : list (list Z) :=
  [Limbs.to_u64_vec (close_intent_digest p); ChannelId.to_u32_vec (receiver_channel_id p); Limbs.to_u64_vec (incoming_tx_hash p);
   Limbs.to_u64_vec (receiver_pk_g p); Limbs.to_u64_vec (recipient p); Limbs.to_u64_vec (shared_native_nullifier p); split_u64 (amount p);
   Limbs.to_u64_vec (final_balance_state_h1 p); Limbs.to_u64_vec (final_settled_tx_accumulator_root p); [token_index p]; [2]].

Lemma post_close_words p : to_u64_vec p = concat (post_close_chunks p).
Proof. reflexivity. Qed.

Lemma post_close_lengths p : length <$> post_close_chunks p = [8; 1; 8; 8; 5; 8; 2; 8; 8; 1; 1]%nat.
Proof. unfold post_close_chunks. field_lengths. Qed.

Lemma post_close_roundtrip p : post_close_typed p -> from_u64_slice (to_u64_vec p) = Ok p.
Proof.
  intros []. unfold from_u64_slice. rewrite post_close_words, length_chunks, post_close_lengths.
  read_chunks (post_close_lengths p). cbn [ensure mbind res_bind Nat.eqb sum_list sum_list_with unwrap Z.eqb Pos.eqb]. repeat read_back. by destruct p.
Qed.

Lemma post_close_read ws p : Forall (in_width 32) ws -> from_u64_slice ws = Ok p -> post_close_typed p /\ ws = to_u64_vec p.
Proof.
  intros Hw H. unfold from_u64_slice in H. apply bind_Ok in H as ([] & Hl%ensure_Ok%Nat.eqb_eq & H). fields_read Hl Hw H.
  apply bind_Ok in H as ([] & ->%ensure_Ok%Z.eqb_eq & H). fields_read Hl Hw H. apply Ok_inj in H as <-.
  split; [by split|]. unfold to_u64_vec. cbn -[split_u64 ChannelId.to_u32_vec Limbs.to_u64_vec app slice].
  match goal with |- context [[?x; 2]] => change [x; 2] with ([x] ++ [2]) end. join_fields Hl.
Qed.
End PostCloseCodec.
