(* ===== verification/ExitClaimsProps.v ===== *)
(** * What the exit statements guarantee

    An accepted close exposes the closed state ([close_pis_Ok]); a cancellation
    is a strictly newer state of the same era ([cancel_Ok]), so cancellations
    end ([cancel_chain_bound]); an accepted withdrawal claim pays one cell of the
    closed state ([claim_pays_cell]), and claims under different nullifiers pay
    different cells, so together they take no more than the fund
    ([claims_le_fund]). *)

From S2P Require Import Prelude Limbs U63 MerkleTree LeafTrees Poseidon IndexedTree Keccak Regev BalanceState BalanceStateProps Account Ledger Balance BalanceProps Channel ChannelProps CreditSafety CreditSafetyProps ExitClaims.

#[local] Remove Hints Leafable_Bytes32 : typeclass_instances.

#[local] Notation bal := ChannelState.balance_state.
#[local] Notation amounts s := (ChannelFund.amounts (ChannelState.channel_fund s)).
#[local] Notation registry s := (BalanceState.token_registry (ChannelState.balance_state s)).

(** ** The error type does not decide a digest *)

Lemma h1_any {K : Keccak} {P : Poseidon} {PO : PoseidonOutput P} {E E'} s b :
  well_shaped s -> ciphertexts_ok s -> BalanceState.h1 (E := E) s = Ok b -> BalanceState.h1 (E := E') s = Ok b.
Proof.
  intros Hs Hc H. destruct (h1_Ok (E := E) s Hs Hc) as (b1 & H1 & W1). destruct (h1_Ok (E := E') s Hs Hc) as (b2 & H2 & W2).
  rewrite H in H1. injection H1 as <-. rewrite H2. revert W1 W2. unfold words_into_bytes32, limbs_try_into.
  destruct (decide _); [|done]. congruence.
Qed.

Lemma pk_digest_any {P : Poseidon} {E E'} pk d : pk_digest (E := E) pk = Ok d -> pk_digest (E := E') pk = Ok d.
Proof.
  unfold pk_digest. intros H. apply bind_Ok in H as (h & Hh%pk_poseidon_digest_Ok & H).
  rewrite (proj2 (pk_poseidon_digest_Ok (E := E') pk h) Hh). cbn [mbind res_bind]. by eapply phash_bytes_any_error.
Qed.

(** ** The close *)

Section close.
Context {K : Keccak} {P : Poseidon}.

(** The statement of the close of [s] through [w]. *)
Definition close_statement (s : ChannelState) (w : CloseWithdrawal) : ChannelClosePublicInputs :=
  ChannelClosePublicInputs.mk (ChannelState.channel_id s) (ChannelState.close_freeze_nonce s + 1) (ChannelState.epoch s)
    (ChannelState.small_block_number s) (ChannelState.close_freeze_nonce s + 1) (ChannelState.digest s)
    (CloseWithdrawal.final_balance_state_h1 w) (CloseWithdrawal.burn_amount w) (ChannelFund.intmax_state_root (ChannelState.channel_fund s))
    bytes32_default (CloseWithdrawal.signing_digest w)
    (close_state_id (ChannelState.channel_id s) (ChannelState.digest s) (ChannelState.close_freeze_nonce s + 1)) 0
    (BalanceState.state_version (bal s)) (BalanceState.settled_tx_chain (bal s)) (BalanceState.settled_tx_accumulator_root (bal s))
    bytes32_default (BalanceState.member_count (bal s)) (BalanceState.delegate_count (bal s))
    (token_funds_digest (registry s) (BalanceState.token_count (bal s)) (amounts s)).

Lemma close_pis_Ok s w i pis : in_width 64 (ChannelState.close_freeze_nonce s) ->
  ChannelCloseWitness.to_public_inputs (ChannelCloseWitness.mk s w i) = Ok pis <-> closes s w i /\ pis = close_statement s w.
Proof.
  intros Hn. unfold ChannelCloseWitness.to_public_inputs.
  cbn [ChannelCloseWitness.final_channel_state ChannelCloseWitness.close_tx ChannelCloseWitness.close_intent]. split.
  - intros H. apply bind_Ok in H as (i' & Hi%map_err_Ok & H). apply bind_Ok in H as ([] & ->%ensure_Ok%bool_decide_eq_true & H).
    apply close_intent_new_Ok in Hi; [|done]. split; [done|]. destruct Hi as [_ _ _ _ _ Ha _ ->]. cbn in H. rewrite Ha in H. cbn in H. by apply Ok_inj in H.
  - intros [Hc ->]. rewrite (proj2 (close_intent_new_Ok s w i Hn) Hc). cbn [map_err mbind res_bind]. rewrite bool_decide_eq_true_2 by done.
    destruct Hc as [_ _ _ _ _ Ha _ ->]. cbn. by rewrite Ha.
Qed.

(** The withdrawal that closes [s], given its commitment. *)
Definition honest_close (s : ChannelState) (h1 : Bytes32) (amount0 : U256) : CloseWithdrawal :=
  CloseWithdrawal.mk (ChannelState.channel_id s) (ChannelState.digest s) h1 (ChannelFund.intmax_state_root (ChannelState.channel_fund s))
    bytes32_default amount0 [].

Lemma honest_close_Ok s h1 a : BalanceState.h1 (E := ChannelError) (bal s) = Ok h1 -> amounts s !! 0%nat = Some a ->
  ChannelState.close_freeze_nonce s + 1 < 2 ^ 64 -> exists i, closes s (honest_close s h1 a) i.
Proof. intros Hh Ha Hn. eexists. by constructor. Qed.
End close.

(** ** Cancellation *)

Section cancel.
Context {K : Keccak} {P : Poseidon}.

(** The state [r] cancels the close [i]: a signed state of the same channel and era with a larger version. *)
Record cancels (r : ChannelState) (i : CloseIntent) : Prop := {
  ca_channel : ChannelState.channel_id r = CloseIntent.channel_id i;
  ca_digest : ChannelState.signing_digest (E := CancelCloseWitness.Error) r = Ok (ChannelState.digest r);
  ca_version : CloseIntent.final_state_version i < BalanceState.state_version (bal r);
  ca_era : ChannelState.close_freeze_nonce r + 1 = CloseIntent.close_freeze_nonce i;
  ca_nonce : ChannelState.close_freeze_nonce r + 1 < 2 ^ 64;
}.

Definition cancel_statement (r : ChannelState) (i : CloseIntent) : CancelClosePublicInputs :=
  CancelClosePublicInputs.mk (CloseIntent.channel_id i) (CloseIntent.signing_digest i) bytes32_default (CloseIntent.final_state_version i)
    (BalanceState.state_version (bal r)) (ChannelState.digest r).

Lemma cancel_Ok r i pis :
  CancelCloseWitness.to_public_inputs (CancelCloseWitness.mk r i) = Ok pis <-> cancels r i /\ pis = cancel_statement r i.
Proof.
  unfold CancelCloseWitness.to_public_inputs. cbn [CancelCloseWitness.revived_state CancelCloseWitness.close_intent]. split.
  - intros H. simplify_res. simplify_bool. subst. unfold cancel_statement. split; [|congruence].
    match goal with H : checked_add _ _ _ = Some _ |- _ => apply checked_add_Some in H as [? ?] end. constructor; done || congruence || lia.
  - intros [[Hc Hd Hv He Hn] ->]. rewrite Hc, Z.eqb_refl, Hd. cbn [ensure mbind res_bind]. rewrite bool_decide_eq_true_2 by done.
    rewrite (proj2 (Z.ltb_lt _ _)) by done. cbn [ensure mbind res_bind]. rewrite (proj2 (checked_add_Some _ _ _ _) (conj eq_refl Hn)).
    cbn [ok_or mbind res_bind]. by rewrite He, Z.eqb_refl.
Qed.

(** An older or equal state is told so. *)
Lemma cancel_stale r i : ChannelState.channel_id r = CloseIntent.channel_id i ->
  ChannelState.signing_digest (E := CancelCloseWitness.Error) r = Ok (ChannelState.digest r) ->
  BalanceState.state_version (bal r) <= CloseIntent.final_state_version i ->
  CancelCloseWitness.to_public_inputs (CancelCloseWitness.mk r i)
    = Err (CancelCloseWitness.StaleRevivedState (BalanceState.state_version (bal r)) (CloseIntent.final_state_version i)).
Proof.
  intros Hc Hd Hv. unfold CancelCloseWitness.to_public_inputs. cbn [CancelCloseWitness.revived_state CancelCloseWitness.close_intent].
  rewrite Hc, Z.eqb_refl, Hd. cbn [ensure mbind res_bind]. rewrite bool_decide_eq_true_2 by done. cbn [ensure mbind res_bind].
  by rewrite (proj2 (Z.ltb_ge _ _)).
Qed.

(** Closes of one channel, each cancelled by the state that the next one closes. *)
Inductive cancel_chain : CloseIntent -> nat -> CloseIntent -> Prop :=
| chain_here i : cancel_chain i 0 i
| chain_next i s w i' n i'' pis :
    CancelCloseWitness.to_public_inputs (CancelCloseWitness.mk s i) = Ok pis ->
    in_width 64 (ChannelState.close_freeze_nonce s) -> in_width 64 (BalanceState.state_version (bal s)) ->
    CloseIntent.new s w = Ok i' -> cancel_chain i' n i'' -> cancel_chain i (S n) i''.

(** Every link raises the version and keeps the channel and the era. *)
Lemma cancel_chain_grows i n i' : cancel_chain i n i' ->
  CloseIntent.final_state_version i + Z.of_nat n <= CloseIntent.final_state_version i' /\
  CloseIntent.channel_id i' = CloseIntent.channel_id i /\ CloseIntent.close_freeze_nonce i' = CloseIntent.close_freeze_nonce i /\
  (n <> 0%nat -> CloseIntent.final_state_version i' < 2 ^ 64).
Proof.
  induction 1 as [i|i s w i' n i'' pis Hc Hw Hv Hnew Hchain (IH1 & IH2 & IH3 & IH4)]; [split_and!; done || lia|].
  apply cancel_Ok in Hc as [[Hid _ Hver Hera _] _]. apply close_intent_new_Ok in Hnew as [_ _ _ _ _ _ _ ->]; [|done]. cbn in *.
  split_and!; [lia|congruence|congruence|]. intros _. destruct (decide (n = 0%nat)) as [->|Hn]; [|by apply IH4].
  inversion Hchain; subst. cbn. apply Hv.
Qed.
End cancel.

(** ** Withdrawal claims *)

#[local] Notation pis_of := WithdrawalClaimPublicInputs.WithdrawalClaimPublicInputs.
#[local] Notation token_position w := (Z.to_nat (WithdrawalClaim.token_slot (WithdrawalClaimWitness.claim w))).

Section claims.
Context {K : Keccak} {P : Poseidon} {CS : ClaimStark}.

(** What the checks of a claim establish. *)
Record claim_checked (w : WithdrawalClaimWitness) (pis : pis_of) : Prop := {
  cc_valid : valid (WithdrawalClaimWitness.final_balance_state w);
  cc_h1 : BalanceState.h1 (E := WithdrawalClaimWitness.Error) (WithdrawalClaimWitness.final_balance_state w)
            = Ok (WithdrawalClaimPublicInputs.final_balance_state_h1 pis);
  cc_digest : WithdrawalClaimPublicInputs.close_intent_digest pis = CloseIntent.signing_digest (WithdrawalClaimWitness.close_intent w);
  cc_active : (WithdrawalClaimWitness.member_index w < active_slots (WithdrawalClaimWitness.final_balance_state w))%nat;
  cc_token : (token_position w < active_tokens (WithdrawalClaimWitness.final_balance_state w))%nat;
  cc_cell : exists row, BalanceState.enc_balances (WithdrawalClaimWitness.final_balance_state w) !! WithdrawalClaimWitness.member_index w = Some row /\
    row !! token_position w = Some (WithdrawalClaim.user_amount_ct (WithdrawalClaimWitness.claim w));
  cc_recipient : BalanceState.recipients (WithdrawalClaimWitness.final_balance_state w) !! WithdrawalClaimWitness.member_index w
    = Some (WithdrawalClaimPublicInputs.recipient pis);
  cc_index : BalanceState.token_registry (WithdrawalClaimWitness.final_balance_state w) !! token_position w
    = Some (WithdrawalClaimPublicInputs.token_index pis);
  cc_slot : WithdrawalClaimPublicInputs.token_slot pis = WithdrawalClaim.token_slot (WithdrawalClaimWitness.claim w);
  cc_amount : WithdrawalClaimPublicInputs.amount pis = WithdrawalClaimWitness.amount w;
  cc_nullifier : exists d, pk_digest (E := WithdrawalClaimWitness.Error) (WithdrawalClaimWitness.user_pk w) = Ok d /\
    WithdrawalClaimPublicInputs.withdrawal_nullifier pis
      = WithdrawalClaim.derive_nullifier (WithdrawalClaimPublicInputs.close_intent_digest pis) d (WithdrawalClaimPublicInputs.token_slot pis);
}.

Lemma claim_inner_Ok w level external pis : typed (WithdrawalClaimWitness.final_balance_state w) ->
  WithdrawalClaimWitness.to_public_inputs_inner w level external = Ok pis ->
  claim_checked w pis /\
  (external = true -> verify_withdraw_claim level (WithdrawalClaimWitness.user_pk w) (WithdrawalClaim.user_amount_ct (WithdrawalClaimWitness.claim w))
     (WithdrawalClaimWitness.amount w) (WithdrawalClaim.claim_proof (WithdrawalClaimWitness.claim w)) = Ok tt).
Proof.
  intros Hty H. unfold WithdrawalClaimWitness.to_public_inputs_inner in H.
  apply bind_Ok in H as ([] & Hc & H). apply bind_Ok in H as ([] & Hs & H). apply bind_Ok in H as ([] & He & H).
  apply bind_Ok in H as (dg & _ & H). apply bind_Ok in H as (ti & Hti%unwrap_Ok & H). apply Ok_inj in H as <-.
  unfold WithdrawalClaimWitness.check_claim in Hc. apply bind_Ok in Hc as ([] & _ & Hc). apply bind_Ok in Hc as ([] & _ & Hc).
  apply bind_Ok in Hc as ([] & _ & Hc). apply bind_Ok in Hc as (d & Hd & Hc).
  apply bind_Ok in Hc as ([] & Hn%ensure_Ok%bool_decide_eq_true & Hc%ensure_Ok%negb_true_iff%Nat.leb_gt).
  unfold WithdrawalClaimWitness.check_slot in Hs. apply bind_Ok in Hs as ([] & Hv%map_err_Ok & Hs). apply bind_Ok in Hs as (h & Hh & Hs).
  apply bind_Ok in Hs as ([] & ->%ensure_Ok%bool_decide_eq_true & Hs). apply bind_Ok in Hs as ([] & _ & Hs). apply bind_Ok in Hs as ([] & _ & Hs).
  apply bind_Ok in Hs as ([] & Ha%ensure_Ok%negb_true_iff%Nat.leb_gt & Hs). apply bind_Ok in Hs as (row & Hrow%unwrap_Ok & Hs).
  apply bind_Ok in Hs as (ct & Hct%unwrap_Ok & Hs). apply bind_Ok in Hs as ([] & Heq%ensure_Ok%bool_decide_eq_true & Hs).
  apply bind_Ok in Hs as (rc & Hrc%unwrap_Ok & Hre%ensure_Ok%bool_decide_eq_true). subst ct rc.
  split; [|intros ->; by apply map_err_Ok in He]. apply validate_Ok in Hv; [|done]. split; cbn; eauto.
Qed.

(** A claim that was accepted for the close [i]: the contract compares the close digest and the
    commitment with the close it finalized, and the key is the one of the claimed slot. *)
Record exit_claim := mk_claim { ec_witness : WithdrawalClaimWitness; ec_level : RegevSecurityLevel; ec_pis : pis_of }.

Record accepted (i : CloseIntent) (e : exit_claim) : Prop := {
  ac_pis : WithdrawalClaimWitness.to_public_inputs (ec_witness e) (ec_level e) = Ok (ec_pis e);
  ac_typed : typed (WithdrawalClaimWitness.final_balance_state (ec_witness e));
  ac_slot : in_width 8 (WithdrawalClaim.token_slot (WithdrawalClaimWitness.claim (ec_witness e)));
  ac_close : WithdrawalClaimPublicInputs.close_intent_digest (ec_pis e) = CloseIntent.signing_digest i;
  ac_h1 : WithdrawalClaimPublicInputs.final_balance_state_h1 (ec_pis e) = CloseIntent.final_balance_state_h1 i;
}.

(** The claim is under the key that is registered for its cell.  The circuit of the claim
    (withdrawal_claim_circuit.rs) enforces this, the native check does not. *)
Definition registered_key (e : exit_claim) : Prop :=
  forall d, pk_digest (E := WithdrawalClaimWitness.Error) (WithdrawalClaimWitness.user_pk (ec_witness e)) = Ok d ->
    BalanceState.regev_pk_digests (WithdrawalClaimWitness.final_balance_state (ec_witness e))
      !! WithdrawalClaimWitness.member_index (ec_witness e) = Some d.

Definition claim_amount (tok : Z) (e : exit_claim) : Z :=
  if WithdrawalClaimPublicInputs.token_index (ec_pis e) =? tok then WithdrawalClaimPublicInputs.amount (ec_pis e) else 0.

Definition nullifier_of (e : exit_claim) : Bytes32 := WithdrawalClaimPublicInputs.withdrawal_nullifier (ec_pis e).
End claims.

(** A verified decryption is the plaintext under the key. *)
Class ClaimStarkSound {P : Poseidon} (CS : ClaimStark) (plain : Bytes32 -> RegevCiphertext -> Z) : Prop := {
  verified_plain level pk ct amount proof d : verify_decryption level pk ct amount proof = Ok tt ->
    pk_digest (E := RegevError) pk = Ok d -> plain d ct = amount;
}.

Section covered.
Context {K : Keccak} {P : Poseidon} {PO : PoseidonOutput P} {CS : ClaimStark} (plain : Bytes32 -> RegevCiphertext -> Z) {SS : ClaimStarkSound CS plain}.
Context (s : ChannelState) (i : CloseIntent).
Context (Hty : typed (bal s)) (Hval : valid (bal s)).
Context (Hh1 : BalanceState.h1 (E := ChannelError) (bal s) = Ok (CloseIntent.final_balance_state_h1 i)).

#[local] Notation cell_of e := (WithdrawalClaimWitness.member_index (ec_witness e)).

(** The claim takes the cell of [slot] and its own token. *)
Record pays_cell (e : exit_claim) : Prop := {
  pc_active : (cell_of e < active_of s)%nat;
  pc_token : (Z.to_nat (WithdrawalClaimPublicInputs.token_slot (ec_pis e)) < tokens_of s)%nat;
  pc_recipient : BalanceState.recipients (bal s) !! cell_of e = Some (WithdrawalClaimPublicInputs.recipient (ec_pis e));
  pc_index : registry s !! Z.to_nat (WithdrawalClaimPublicInputs.token_slot (ec_pis e)) = Some (WithdrawalClaimPublicInputs.token_index (ec_pis e));
  pc_amount : WithdrawalClaimPublicInputs.amount (ec_pis e)
    = value plain s (Z.to_nat (WithdrawalClaimPublicInputs.token_slot (ec_pis e))) (cell_of e);
  pc_nullifier : exists d, BalanceState.regev_pk_digests (bal s) !! cell_of e = Some d /\
    nullifier_of e = WithdrawalClaim.derive_nullifier (CloseIntent.signing_digest i) d (WithdrawalClaimPublicInputs.token_slot (ec_pis e));
  pc_width : in_width 8 (WithdrawalClaimPublicInputs.token_slot (ec_pis e));
}.

(** Two balance states with one commitment. *)
Definition state_collision (e : exit_claim) : Prop :=
  collision hash_inputs_u64 (poseidon_queries (bal s)) (poseidon_queries (WithdrawalClaimWitness.final_balance_state (ec_witness e))) \/
  collision hash_words (keccak_queries (bal s)) (keccak_queries (WithdrawalClaimWitness.final_balance_state (ec_witness e))).

Lemma claim_pays_cell e : accepted i e -> registered_key e -> pays_cell e \/ state_collision e.
Proof.
  intros [Hp Ht Hw Hc Hh] Hk. unfold registered_key in Hk. unfold WithdrawalClaimWitness.to_public_inputs in Hp. apply claim_inner_Ok in Hp as [Hcc Hv]; [|done]. specialize (Hv eq_refl).
  pose proof (cc_h1 _ _ Hcc) as Hb. rewrite Hh in Hb. pose proof (cc_valid _ _ Hcc) as Hval'.
  apply (h1_any (E' := ChannelError)) in Hb; [|by apply valid_well_shaped|by apply valid_ciphertexts_ok].
  destruct (h1_binding (E := ChannelError) (bal s) (WithdrawalClaimWitness.final_balance_state (ec_witness e)) _
    (valid_well_shaped _ Hty Hval) (valid_well_shaped _ Ht Hval') (valid_ciphertexts_ok _ Hval) (valid_ciphertexts_ok _ Hval') Hh1 Hb) as [Heq|Hcol]; [left|by right].
  destruct Hcc as [_ _ Hd Ha Htk (row & Hrow & Hct) Hrc Hix Hsl Ham (d & Hpk & Hnf)]. rewrite <- Heq in *. rewrite Hc in Hnf. split; try done.
  - by rewrite Hsl.
  - by rewrite Hsl.
  - rewrite Ham, Hsl. unfold value, ChannelCreditBounds.key_at, ChannelCreditBounds.ciphertext_at. rewrite (Hk d Hpk), Hrow. cbn [unwrap mbind res_bind]. rewrite Hct. cbn [unwrap].
    unfold verify_withdraw_claim in Hv. apply bind_Ok in Hv as ([] & _ & Hv). apply bind_Ok in Hv as ([] & _ & Hv).
    symmetry. eapply verified_plain; [exact Hv|by eapply pk_digest_any].
  - exists d. split; [by apply Hk|exact Hnf].
  - by rewrite Hsl.
Qed.

(** Claims of one token under different nullifiers take different slots. *)
Lemma distinct_cells es tok : Forall pays_cell es -> NoDup (nullifier_of <$> es) ->
  NoDup ((fun e => cell_of e) <$> filter (fun e => WithdrawalClaimPublicInputs.token_index (ec_pis e) = tok) es).
Proof.
  induction es as [|e es IH]; intros Hall Hnd; [constructor|]. apply Forall_cons_iff in Hall as [He Hall]. cbn [fmap list_fmap] in Hnd.
  apply list.NoDup_cons in Hnd as [Hni Hnd]. specialize (IH Hall Hnd). rewrite filter_cons. destruct (decide _) as [Htok|]; [|exact IH].
  cbn [fmap list_fmap]. apply list.NoDup_cons. split; [|exact IH]. intros (e' & Hcell & (Htok' & He')%list_elem_of_filter)%list_elem_of_fmap. apply Hni.
  apply list_elem_of_fmap. exists e'. split; [|done]. rewrite list.Forall_forall in Hall. specialize (Hall e' He').
  destruct (pc_nullifier _ He) as (d & Hd & ->), (pc_nullifier _ Hall) as (d' & Hd' & ->). rewrite <- Hcell, Hd in Hd'. injection Hd' as <-. f_equal.
  pose proof (pc_index _ He) as Hi. pose proof (pc_index _ Hall) as Hi'. rewrite Htok in Hi. rewrite Htok' in Hi'.
  pose proof (pc_token _ He) as Ht. pose proof (pc_token _ Hall) as Ht'. pose proof (pc_width _ He). pose proof (pc_width _ Hall). unfold in_width in *.
  destruct (Nat.lt_total (Z.to_nat (WithdrawalClaimPublicInputs.token_slot (ec_pis e))) (Z.to_nat (WithdrawalClaimPublicInputs.token_slot (ec_pis e')))) as [Hlt|[?|Hlt]]; [|lia|].
  - destruct (v_injective _ Hval _ _ tok (conj Hlt Ht') Hi Hi').
  - destruct (v_injective _ Hval _ _ tok (conj Hlt Ht) Hi' Hi).
Qed.

(** Together they take at most the fund of the token. *)
Lemma claims_le_fund es t tok a : Forall pays_cell es -> NoDup (nullifier_of <$> es) -> backed plain s ->
  (t < tokens_of s)%nat -> registry s !! t = Some tok -> amounts s !! t = Some a -> zsum (claim_amount tok) es <= val a.
Proof.
  intros Hall Hnd Hb Ht Htok Ha. etransitivity; [|exact (bk_fund _ _ Hb t a Ht Ha)]. unfold CreditSafetyProps.total.
  pose proof (distinct_cells es tok Hall Hnd) as Hcells. etransitivity; [|apply zsum_sub; [intros x; apply (bk_nonneg _ _ Hb)|exact Hcells|]].
  - clear Hnd Hcells. induction Hall as [|e es He Hall IH]; [done|]. cbn [zsum foldr]. fold (zsum (claim_amount tok) es). rewrite filter_cons. unfold claim_amount at 1.
    destruct (decide _) as [Heq|Hne]; [|rewrite (proj2 (Z.eqb_neq _ _)) by done; lia]. rewrite (proj2 (Z.eqb_eq _ _)) by done. cbn [fmap list_fmap zsum foldr].
    rewrite (pc_amount _ He). pose proof (pc_index _ He) as Hi. rewrite Heq in Hi.
    destruct (Nat.lt_total (Z.to_nat (WithdrawalClaimPublicInputs.token_slot (ec_pis e))) t) as [Hlt|[->|Hlt]].
    + destruct (v_injective _ Hval _ _ tok (conj Hlt Ht) Hi Htok).
    + unfold zsum in *. apply Z.add_le_mono_l. exact IH.
    + destruct (v_injective _ Hval _ _ tok (conj Hlt (pc_token _ He)) Htok Hi).
  - intros x (e & -> & (_ & He)%list_elem_of_filter)%list_elem_of_fmap. rewrite list.Forall_forall in Hall. pose proof (pc_active _ (Hall e He)).
    pose proof (v_active _ Hval). apply elem_of_seq. unfold active_of, active_slots in *. lia.
Qed.

(** A token outside the registry is never paid. *)
Lemma claims_unregistered es tok : Forall pays_cell es -> tok ∉ take (tokens_of s) (registry s) -> zsum (claim_amount tok) es = 0.
Proof.
  intros Hall Hn. induction Hall as [|e es He Hall IH]; [done|]. cbn [zsum foldr]. fold (zsum (claim_amount tok) es). rewrite IH. unfold claim_amount.
  destruct (Z.eqb_spec (WithdrawalClaimPublicInputs.token_index (ec_pis e)) tok) as [<-|]; [|lia]. exfalso. apply Hn.
  eapply list_elem_of_lookup_2. rewrite lookup_take_lt; [exact (pc_index _ He)|exact (pc_token _ He)].
Qed.

(** All claims are cells of the closed state, or one of them exhibits a collision. *)
Lemma claims_cells es : Forall (accepted i) es -> Forall registered_key es -> Forall pays_cell es \/ Exists state_collision es.
Proof.
  induction 1 as [|e es He _ IH]; intros Hk; [by left|]. apply Forall_cons_iff in Hk as [Hk Hks]. destruct (IH Hks) as [IH'|IH']; [|by right; constructor 2].
  destruct (claim_pays_cell e He Hk); [left; by constructor|right; by constructor].
Qed.
End covered.

(** ** Exit without cooperation *)

(** The comparisons of a value with itself. *)
Ltac decide_refl :=
  repeat match goal with
  | |- context [bool_decide (?x <> ?y)] => rewrite (bool_decide_eq_false_2 (x <> y)) by (intros Hne; by apply Hne)
  | |- context [bool_decide (?x = ?y)] => rewrite (bool_decide_eq_true_2 (x = y)) by reflexivity
  end.

Section honest.
Context {K : Keccak} {P : Poseidon} {PO : PoseidonOutput P} {CS : ClaimStark}.

(** The claim that the owner of a cell makes alone, from the closed state. *)
Definition honest_claim (s : ChannelState) (w : CloseWithdrawal) (i : CloseIntent) (slot : nat) (token : Z) (pk_g : Bytes32) (recipient : Address)
    (ct : RegevCiphertext) (pk : RegevPk) (d : Bytes32) (amount : Z) (proof : list Z) : WithdrawalClaimWitness :=
  WithdrawalClaimWitness.mk i w (ChannelMember.mk pk_g (Z.of_nat slot) recipient)
    (WithdrawalClaim.mk (CloseIntent.signing_digest i) pk_g token recipient ct
      (WithdrawalClaim.derive_nullifier (CloseIntent.signing_digest i) d token) proof)
    (bal s) slot pk amount.

Lemma honest_claim_Ok s w i slot token pk_g recipient row ct pk d amount proof level :
  typed (bal s) -> valid (bal s) -> BalanceState.channel_id (bal s) = ChannelState.channel_id s -> closes s w i ->
  (slot < active_slots (bal s))%nat -> (Z.to_nat token < active_tokens (bal s))%nat ->
  BalanceState.enc_balances (bal s) !! slot = Some row -> row !! Z.to_nat token = Some ct ->
  BalanceState.recipients (bal s) !! slot = Some recipient ->
  pk_digest (E := WithdrawalClaimWitness.Error) pk = Ok d -> verify_decryption level pk ct amount proof = Ok tt ->
  exists pis, WithdrawalClaimWitness.to_public_inputs (honest_claim s w i slot token pk_g recipient ct pk d amount proof) level = Ok pis /\
    WithdrawalClaimPublicInputs.recipient pis = recipient /\ WithdrawalClaimPublicInputs.amount pis = amount /\
    registry s !! Z.to_nat token = Some (WithdrawalClaimPublicInputs.token_index pis) /\
    WithdrawalClaimPublicInputs.close_intent_digest pis = CloseIntent.signing_digest i /\
    WithdrawalClaimPublicInputs.final_balance_state_h1 pis = CloseIntent.final_balance_state_h1 i.
Proof.
  intros Hty Hv Hid Hc Hslot Htok Hrow Hct Hrc Hpk Hvd. pose proof Hpk as Hok. apply bind_Ok in Hok as (h & [Hpok _]%pk_poseidon_digest_Ok & _).
  destruct (v_ciphertexts _ Hv _ _ _ _ Hrow Hct) as [Hctok _].
  destruct (lookup_lt_is_Some_2 (registry s) (Z.to_nat token)) as [ti Hti]; [rewrite (ty_registry _ Hty); pose proof (v_token_count _ Hv); lia|].
  pose proof (h1_any (E' := WithdrawalClaimWitness.Error) _ _ (valid_well_shaped _ Hty Hv) (valid_ciphertexts_ok _ Hv) (cl_h1 _ _ _ Hc)) as Hh.
  destruct Hc as [Hch _ _ _ _ _ _ ->]. unfold WithdrawalClaimWitness.to_public_inputs, WithdrawalClaimWitness.to_public_inputs_inner.
  set (i := CloseIntent.mk _ _ _ _ _ _ _ _ _ _ _ _ _). eexists. split.
  - assert (WithdrawalClaimWitness.check_claim (honest_claim s w i slot token pk_g recipient ct pk d amount proof) = Ok tt) as ->.
    { unfold WithdrawalClaimWitness.check_claim, honest_claim. cbn -[Z.to_nat]. decide_refl.
      cbn -[Z.to_nat]. rewrite Hch, Z.eqb_refl. cbn -[Z.to_nat]. rewrite Hpk. cbn -[Z.to_nat]. rewrite bool_decide_eq_true_2 by done.
      cbn -[Z.to_nat]. fold (active_tokens (bal s)). by rewrite (proj2 (Nat.leb_gt _ _) Htok). }
    assert (WithdrawalClaimWitness.check_slot (honest_claim s w i slot token pk_g recipient ct pk d amount proof) = Ok tt) as ->.
    { unfold WithdrawalClaimWitness.check_slot, honest_claim. cbn -[Z.to_nat MAX_CHANNEL_MEMBERS]. rewrite (proj2 (validate_Ok _ tt Hty) Hv).
      cbn -[Z.to_nat MAX_CHANNEL_MEMBERS]. rewrite Hh. cbn -[Z.to_nat MAX_CHANNEL_MEMBERS]. rewrite bool_decide_eq_true_2 by done.
      cbn -[Z.to_nat MAX_CHANNEL_MEMBERS]. rewrite Hid, Z.eqb_refl. cbn -[Z.to_nat MAX_CHANNEL_MEMBERS].
      pose proof (v_active _ Hv). rewrite (proj2 (Nat.leb_gt MAX_CHANNEL_MEMBERS slot)) by lia. cbn -[Z.to_nat]. fold (active_slots (bal s)).
      rewrite (proj2 (Nat.leb_gt _ _) Hslot), Hrow. cbn -[Z.to_nat]. rewrite Hct. cbn. rewrite bool_decide_eq_true_2 by done. cbn.
      rewrite Hrc. cbn. by rewrite bool_decide_eq_true_2. }
    cbn -[Z.to_nat]. unfold verify_withdraw_claim. rewrite (proj2 (pk_validate_Ok _ tt) Hpok), (proj2 (ct_validate_Ok _ tt) Hctok).
    cbn -[Z.to_nat]. rewrite Hvd. cbn -[Z.to_nat]. rewrite ct_digest_ok by done. cbn -[Z.to_nat]. rewrite Hti. cbn. reflexivity.
  - cbn. by split_and!.
Qed.
End honest.

Lemma verify_withdraw_claim_Ok {CS : ClaimStark} level pk ct m proof : Pk.validate pk = Ok tt -> Ct.validate ct = Ok tt ->
  verify_decryption level pk ct m proof = Ok tt -> verify_withdraw_claim level pk ct m proof = Ok tt.
Proof. intros Hp Hc Hd. unfold verify_withdraw_claim. by rewrite Hp, Hc. Qed.

(** ** The key of a claim *)

Section rekey.
Context {K : Keccak} {P : Poseidon} {CS : ClaimStark}.

(** The same claim under another key, with the nullifier of that key, an amount and a decryption proof. *)
Definition rekey (w : WithdrawalClaimWitness) (pk : RegevPk) (d : Bytes32) (m : Z) (proof : list Z) : WithdrawalClaimWitness :=
  WithdrawalClaimWitness.mk (WithdrawalClaimWitness.close_intent w) (WithdrawalClaimWitness.close_tx w) (WithdrawalClaimWitness.member w)
    (let c := WithdrawalClaimWitness.claim w in
     WithdrawalClaim.mk (WithdrawalClaim.close_intent_digest c) (WithdrawalClaim.member_pk_g c) (WithdrawalClaim.token_slot c) (WithdrawalClaim.l1_recipient c)
       (WithdrawalClaim.user_amount_ct c)
       (WithdrawalClaim.derive_nullifier (CloseIntent.signing_digest (WithdrawalClaimWitness.close_intent w)) d (WithdrawalClaim.token_slot c))
       proof)
    (WithdrawalClaimWitness.final_balance_state w) (WithdrawalClaimWitness.member_index w) pk m.

(** The same statement with another nullifier and amount. *)
Definition restated (p : pis_of) (n : Bytes32) (m : Z) : pis_of :=
  WithdrawalClaimPublicInputs.mk (WithdrawalClaimPublicInputs.close_intent_digest p) (WithdrawalClaimPublicInputs.channel_id p)
    (WithdrawalClaimPublicInputs.final_balance_state_h1 p) (WithdrawalClaimPublicInputs.member_pk_g p) (WithdrawalClaimPublicInputs.recipient p)
    (WithdrawalClaimPublicInputs.user_amount_digest p) n m (WithdrawalClaimPublicInputs.token_slot p) (WithdrawalClaimPublicInputs.token_index p).

Lemma rekey_check_claim w pk d m proof : WithdrawalClaimWitness.check_claim w = Ok tt -> pk_digest (E := WithdrawalClaimWitness.Error) pk = Ok d ->
  WithdrawalClaimWitness.check_claim (rekey w pk d m proof) = Ok tt.
Proof.
  intros H Hd. unfold WithdrawalClaimWitness.check_claim in *. cbn -[Z.to_nat] in *.
  apply bind_Ok in H as ([] & -> & H). apply bind_Ok in H as ([] & -> & H). apply bind_Ok in H as ([] & -> & H).
  apply bind_Ok in H as (d0 & _ & H). apply bind_Ok in H as ([] & _ & H). cbn -[Z.to_nat]. rewrite Hd. cbn -[Z.to_nat].
  rewrite bool_decide_eq_true_2 by done. exact H.
Qed.

Lemma rekey_Ok w pk d m proof level pis (external : bool) :
  WithdrawalClaimWitness.to_public_inputs_for_in_circuit_decryption w level = Ok pis -> pk_digest (E := WithdrawalClaimWitness.Error) pk = Ok d ->
  (external = true -> verify_withdraw_claim level pk (WithdrawalClaim.user_amount_ct (WithdrawalClaimWitness.claim w)) m proof = Ok tt) ->
  WithdrawalClaimWitness.to_public_inputs_inner (rekey w pk d m proof) level external
    = Ok (restated pis (WithdrawalClaim.derive_nullifier (WithdrawalClaimPublicInputs.close_intent_digest pis) d (WithdrawalClaimPublicInputs.token_slot pis)) m).
Proof.
  unfold WithdrawalClaimWitness.to_public_inputs_for_in_circuit_decryption, WithdrawalClaimWitness.to_public_inputs_inner. intros H Hd Hp.
  apply bind_Ok in H as ([] & Hc & H). rewrite (rekey_check_claim w pk d m proof Hc Hd). cbn [mbind res_bind].
  change (WithdrawalClaimWitness.check_slot (rekey w pk d m proof)) with (WithdrawalClaimWitness.check_slot w). apply bind_Ok in H as ([] & -> & H). cbn [mbind res_bind] in *.
  apply bind_Ok in H as (dg & Hdg & H). apply bind_Ok in H as (ti & Hti & H). apply Ok_inj in H as <-.
  assert ((if external then map_err (fun _ => WithdrawalClaimWitness.InvalidClaimProof) (verify_withdraw_claim level pk (WithdrawalClaim.user_amount_ct (WithdrawalClaimWitness.claim w)) m proof)
    else Ok tt) = Ok tt) as Hx by (destruct external; [by rewrite Hp|done]).
  cbn -[Z.to_nat verify_withdraw_claim]. rewrite Hx. cbn -[Z.to_nat]. rewrite Hdg. cbn -[Z.to_nat]. rewrite Hti. reflexivity.
Qed.

Lemma claim_nullifier w level pis d : WithdrawalClaimWitness.to_public_inputs_for_in_circuit_decryption w level = Ok pis ->
  pk_digest (E := WithdrawalClaimWitness.Error) (WithdrawalClaimWitness.user_pk w) = Ok d ->
  WithdrawalClaimPublicInputs.withdrawal_nullifier pis
    = WithdrawalClaim.derive_nullifier (WithdrawalClaimPublicInputs.close_intent_digest pis) d (WithdrawalClaimPublicInputs.token_slot pis).
Proof.
  unfold WithdrawalClaimWitness.to_public_inputs_for_in_circuit_decryption, WithdrawalClaimWitness.to_public_inputs_inner. intros H Hd.
  apply bind_Ok in H as ([] & Hc & H).
  apply bind_Ok in H as ([] & _ & H). apply bind_Ok in H as ([] & _ & H). apply bind_Ok in H as (dg & _ & H). apply bind_Ok in H as (ti & _ & H).
  apply Ok_inj in H as <-. unfold WithdrawalClaimWitness.check_claim in Hc. apply bind_Ok in Hc as ([] & _ & Hc). apply bind_Ok in Hc as ([] & _ & Hc).
  apply bind_Ok in Hc as ([] & _ & Hc). rewrite Hd in Hc. cbn [mbind res_bind] in Hc. by apply bind_Ok in Hc as ([] & <-%ensure_Ok%bool_decide_eq_true & _).
Qed.

(** What the external proof adds is only a condition. *)
Lemma skip_proof_Ok w level pis : WithdrawalClaimWitness.to_public_inputs w level = Ok pis ->
  WithdrawalClaimWitness.to_public_inputs_for_in_circuit_decryption w level = Ok pis.
Proof.
  unfold WithdrawalClaimWitness.to_public_inputs, WithdrawalClaimWitness.to_public_inputs_for_in_circuit_decryption, WithdrawalClaimWitness.to_public_inputs_inner.
  intros H. apply bind_Ok in H as ([] & -> & H). apply bind_Ok in H as ([] & -> & H). by apply bind_Ok in H as ([] & _ & H).
Qed.
End rekey.

(** ** Claims after the close *)

Section post_close.
Context {K : Keccak} {P : Poseidon} {CS : ClaimStark} (plain : Bytes32 -> RegevCiphertext -> Z) {SS : ClaimStarkSound CS plain}.

(** What an accepted claim after the close takes: a delta of the transaction that it names,
    addressed to the key of an active slot of the closed state. *)
Record late_claim (w : PostCloseClaimWitness) (pis : PostCloseClaimPublicInputs) (delta : ReceiverBalanceDelta) (slot : nat) : Prop := {
  lc_hash : InterChannelTx.compute_tx_hash (PostCloseClaimWitness.source_tx w) = Ok (PostCloseClaimPublicInputs.incoming_tx_hash pis);
  lc_delta : delta ∈ InterChannelTx.receiver_deltas (PostCloseClaimWitness.source_tx w);
  lc_receiver : ReceiverBalanceDelta.receiver_pk_g delta = PostCloseClaimPublicInputs.receiver_pk_g pis;
  lc_amount : PostCloseClaimPublicInputs.amount pis
    = plain (ReceiverBalanceDelta.receiver_regev_pk_digest delta) (ReceiverBalanceDelta.amount delta);
  lc_channel : InterChannelTx.destination_channel_id (PostCloseClaimWitness.source_tx w) = PostCloseClaimPublicInputs.receiver_channel_id pis;
  lc_token : InterChannelTx.token_index (PostCloseClaimWitness.source_tx w) = PostCloseClaimPublicInputs.token_index pis;
  lc_active : (slot < active_slots (PostCloseClaimWitness.final_balance_state w))%nat;
  lc_key : BalanceState.regev_pk_digests (PostCloseClaimWitness.final_balance_state w) !! slot
    = Some (ReceiverBalanceDelta.receiver_regev_pk_digest delta);
  lc_recipient : BalanceState.recipients (PostCloseClaimWitness.final_balance_state w) !! slot = Some (PostCloseClaimPublicInputs.recipient pis);
  lc_h1 : BalanceState.h1 (E := PostCloseClaimWitness.Error) (PostCloseClaimWitness.final_balance_state w)
    = Ok (PostCloseClaimPublicInputs.final_balance_state_h1 pis);
}.

Lemma post_close_Ok w level pis : PostCloseClaimWitness.to_public_inputs w level = Ok pis ->
  exists delta, late_claim w pis delta (PostCloseClaimWitness.receiver_member_index w).
Proof.
  intros H. unfold PostCloseClaimWitness.to_public_inputs in H. apply bind_Ok in H as ([] & _ & H). apply bind_Ok in H as ([] & _ & H).
  apply bind_Ok in H as ([] & Hdest%ensure_Ok%Z.eqb_eq & H). apply bind_Ok in H as (th & Hth%map_err_Ok & H).
  apply bind_Ok in H as ([] & ->%ensure_Ok%bool_decide_eq_true & H). apply bind_Ok in H as (d & Hd & H). apply bind_Ok in H as ([] & Hm%ensure_Ok & H).
  apply bind_Ok in H as ([] & Hv%map_err_Ok & H). apply bind_Ok in H as ([] & Ha%ensure_Ok%negb_true_iff%Nat.leb_gt & H).
  apply bind_Ok in H as (ck & Hck%unwrap_Ok & H). apply bind_Ok in H as ([] & ->%ensure_Ok%bool_decide_eq_true & H).
  apply bind_Ok in H as (rc & Hrc%unwrap_Ok & H). apply bind_Ok in H as ([] & <-%ensure_Ok%bool_decide_eq_true & H).
  apply bind_Ok in H as (h & Hh & H). apply Ok_inj in H as <-.
  unfold PostCloseClaimWitness.matching_delta in Hm. apply existsb_exists in Hm as (delta & Hin%list_elem_of_In & Hm).
  rewrite !andb_true_iff, !bool_decide_eq_true in Hm. destruct Hm as [[Hpk Hdg] Ham]. exists delta. split; cbn; try done.
  - unfold verify_withdraw_claim in Hv. apply bind_Ok in Hv as ([] & _ & Hv). apply bind_Ok in Hv as ([] & _ & Hv).
    rewrite Hdg, Ham. symmetry. eapply verified_plain; [exact Hv|by eapply pk_digest_any].
  - by rewrite Hdg.
Qed.

(** Two claims of one transaction with a single delta take the same amount. *)
Lemma post_close_agree w w' pis pis' delta delta' slot slot' :
  late_claim w pis delta slot -> late_claim w' pis' delta' slot' ->
  InterChannelTx.receiver_deltas (PostCloseClaimWitness.source_tx w) = [delta] ->
  InterChannelTx.receiver_deltas (PostCloseClaimWitness.source_tx w') = [delta'] ->
  tx_typed (PostCloseClaimWitness.source_tx w) -> tx_typed (PostCloseClaimWitness.source_tx w') ->
  PostCloseClaimPublicInputs.incoming_tx_hash pis = PostCloseClaimPublicInputs.incoming_tx_hash pis' ->
  same_tx_content (PostCloseClaimWitness.source_tx w) (PostCloseClaimWitness.source_tx w') delta delta' \/
  collision hash_words (tx_queries (PostCloseClaimWitness.source_tx w) delta) (tx_queries (PostCloseClaimWitness.source_tx w') delta').
Proof.
  intros Hl Hl' H1 H2 Ht Ht' Heq. pose proof (lc_hash _ _ _ _ Hl) as Hh. pose proof (lc_hash _ _ _ _ Hl') as Hh'. rewrite <- Heq in Hh'.
  apply compute_tx_hash_Ok in Hh as (r & Hr & Hs & Ha & Hx); [|done]. apply compute_tx_hash_Ok in Hh' as (r' & Hr' & Hs' & Ha' & Hx'); [|done].
  rewrite H1 in Hr. rewrite H2 in Hr'. injection Hr as <-. injection Hr' as <-. rewrite Hx in Hx'.
  destruct (no_collision_or hash_words (tx_queries (PostCloseClaimWitness.source_tx w) delta) (tx_queries (PostCloseClaimWitness.source_tx w') delta'))
    as [Hnc|]; [left|by right]. by apply tx_top_words_inj.
Qed.
End post_close.
