(* ===== verification/WithdrawalProps.v ===== *)
(** * Withdrawals against the proved history

    What an accepted withdrawal says about the history that the validity
    proofs establish and about the account it is made from.  The sends of a
    channel carry consecutive nonces ([history_tx]), so the transaction of a
    withdrawal is the one the channel put in the block of that nonce.  A chain
    of withdrawals is anchored to one public state; each of its withdrawals
    refers to a state recorded in it ([update_recorded]). *)

From S2P Require Import Prelude Limbs U63 Circuit MerkleTree LeafTrees Poseidon IndexedTree Keccak Regev BalanceState Account AccountProps Ledger LedgerProps Balance BalanceProps BalanceCodec Channel HashChains BlockStep BlockChain Withdrawal HashChainProps BlockStepProps BlockChainProps ChainCodec.

#[local] Remove Hints Leafable_Bytes32 : typeclass_instances.
Import SingleWithdawalWitness.

(** ** Leaves under one root *)

Section leaves.
Context {P : Poseidon} {PC : PoseidonCollisionFree P}.

Lemma path_root_inj (ss ss' : list PHash) i h h' :
  length ss = length ss' ->
  path_root (Hs := PoseidonLeafableHasher) ss i h = path_root (Hs := PoseidonLeafableHasher) ss' i h' -> h = h'.
Proof.
  revert ss' i h h'. induction ss as [|s ss IH]; intros [|s' ss'] i h h' Hl H; try done. cbn [path_root] in H.
  apply IH in H; [|by injection Hl]. unfold parent_hash in H.
  destruct (Z.odd i); apply (inj2 (Inj2 := poseidon_two_to_one_inj) two_to_one) in H as [? ?]; done.
Qed.

(** Two proofs of one height show the same leaf hash at one position of one root. *)
Lemma proof_verify_same {V V'} {L : Leafable V} {L' : Leafable V'} p p' (x : V) (y : V') i root u u' :
  proof_height p = proof_height p' -> proof_verify p x i root = Ok u -> proof_verify p' y i root = Ok u' ->
  leaf_hash x = leaf_hash y.
Proof.
  intros Hh Hx Hy. apply proof_verify_Ok in Hx as [_ Hx], Hy as [_ Hy]. rewrite <- Hy in Hx. by apply path_root_inj in Hx.
Qed.

(** A transaction of one form is not one of the other. *)
Lemma tx_forms_disjoint (x : Tx) (y : TxV2) : leaf_hash x <> leaf_hash y.
Proof.
  intros H. apply (inj hash_inputs_u64) in H. apply (f_equal length) in H. unfold Tx.to_u64_vec, TxV2.to_u64_vec in H.
  pose proof (phash_to_u64_vec_length (Tx.transfer_tree_root x)). pose proof (phash_to_u64_vec_length (TxV2.transfer_tree_root y)).
  pose proof (phash_to_u64_vec_length (TxV2.channel_action_root y)). cbn [app length] in H. rewrite !length_app in H.
  cbn [app length] in H. lia.
Qed.

End leaves.

(** ** Accepted withdrawals *)

(** The widths of the fields and the heights the circuits fix for the proofs. *)
Record single_shaped {P : Poseidon} {BP : BalanceProofs} (w : SingleWithdawalWitness) : Prop := {
  wh_account : account_shape (account_state w);
  wh_tx : proof_height (tx_merkle_proof w) = TX_TREE_HEIGHT;
  wh_tx_v2 p : tx_v2_merkle_proof w = Some p -> proof_height p = TX_TREE_HEIGHT;
  wh_sent : proof_height (sent_tx_merkle_proof w) = SENT_TX_TREE_HEIGHT;
  wh_nonce : in_width 32 (Tx.nonce (tx w));
  wh_transfer : proof_height (TransferWitness.transfer_merkle_proof (transfer_witness w)) = TRANSFER_TREE_HEIGHT;
  wh_index : in_width 32 (TransferWitness.transfer_index (transfer_witness w));
}.

Section single.
Context {P : Poseidon} {W : PoseidonWords P} {K : Keccak} {BP : BalanceProofs} {PL : Plonky2} {WP : WithdrawalProvers}.

(** The facts of an accepted withdrawal of the balance proof [bp]. *)
Record single_facts (w : SingleWithdawalWitness) (bp : BalancePublicInputs) (d : Withdrawal) : Prop := {
  wf_balance : proves (balance_proof w) bp;
  wf_commitment : BalancePublicInputs.private_commitment bp = PrivateState.commitment (private_state w);
  wf_sent : proof_verify (sent_tx_merkle_proof w) (tx w) (Tx.nonce (tx w)) (PrivateState.sent_tx_tree_root (private_state w)) = Ok tt;
  wf_transfer : proof_verify (TransferWitness.transfer_merkle_proof (transfer_witness w))
    (TransferWitness.transfer (transfer_witness w)) (TransferWitness.transfer_index (transfer_witness w))
    (Tx.transfer_tree_root (tx w)) = Ok tt;
  wf_channel : AccountState.channel_id (account_state w) = BalancePublicInputs.channel_id bp;
  wf_root : AccountState.account_tree_root (account_state w)
    = PublicState.account_tree_root (UpdatePublicState.new (update_public_state w));
  wf_account : AccountState.verify (account_state w) = Ok tt;
  wf_included : withdrawal_tx_included w (BalancePublicInputs.channel_id bp)
    (reduce_to_hash_out (SendLeaf.tx_tree_root (AccountState.send_leaf (account_state w)))) = Ok tt;
  wf_recipient : extract_address_from_recipient (Transfer.recipient (TransferWitness.transfer (transfer_witness w)))
    = Ok (Withdrawal.recipient d);
  wf_nullifier : SettledTransfer.nullifier (E := unit) (SettledTransfer.mk (TransferWitness.transfer (transfer_witness w))
      (BalancePublicInputs.channel_id bp) (TransferWitness.transfer_index (transfer_witness w)) (Tx.nonce (tx w)))
    = Ok (Withdrawal.nullifier d);
  wf_fields : Withdrawal.token_index d = Transfer.token_index (TransferWitness.transfer (transfer_witness w)) /\
    Withdrawal.amount d = Transfer.amount (TransferWitness.transfer (transfer_witness w)) /\
    Withdrawal.aux_data d = Transfer.aux_data (TransferWitness.transfer (transfer_witness w));
}.

Lemma single_inv w pis : single_to_public_inputs w = Ok pis ->
  SingleWithdawalPublicInputs.public_state pis = UpdatePublicState.new (update_public_state w) /\
  exists bp, single_facts w bp (SingleWithdawalPublicInputs.withdrawal pis).
Proof.
  intros H. unfold single_to_public_inputs in H. simplify_res.
  match goal with x : (BalancePublicInputs * VerifierData)%type |- _ => destruct x as [bp vd] end.
  simplify_res. simplify_bool. split; [done|]. exists bp.
  split; cbn [SingleWithdawalPublicInputs.withdrawal Withdrawal.recipient Withdrawal.nullifier Withdrawal.token_index
    Withdrawal.amount Withdrawal.aux_data]; try done.
  - by eexists.
  - match goal with H : TransferWitness.verify _ = Ok _ |- _ => unfold TransferWitness.verify in H; apply map_err_Ok in H end. congruence.
  - match goal with H : SettledTransfer.nullifier _ = Ok _ |- _ => by apply (phash_bytes_any_error (E' := unit)) in H end.
Qed.

End single.

(** ** The sends of a proved history *)

Section history.
Context {P : Poseidon} {PC : PoseidonCollisionFree P} {W : PoseidonWords P} {PE : PoseidonElements P W} {K : Keccak}.

Notation block w := (BlockHashChainProcessorWitness.block w).
Notation history ws := (foldl Chain.add Chain.genesis ws).

(** A send of channel [c]: the block that carries it, and the transaction whose nonce is its position. *)
Record sent_in (ws : list BlockHashChainProcessorWitness) (c : Z) (i : nat) (l : SendLeaf) (b : BlockHashChainProcessorWitness)
    (tx : TxV2) : Prop := {
  si_block : ws !! Z.to_nat (U63.as_u64 (SendLeaf.cur l) - 1) = Some b;
  si_number : 1 <= U63.as_u64 (SendLeaf.cur l);
  si_channel : Block.channel_id (block b) = c;
  si_active : existsb active_key (Block.key_ids (block b)) = true;
  si_root : SendLeaf.tx_tree_root l = Block.tx_tree_root (block b);
  si_nonce : TxV2.nonce tx = Z.of_nat i;
  si_included : exists p, proof_height p = TX_TREE_HEIGHT /\
    proof_verify p tx c (reduce_to_hash_out (SendLeaf.tx_tree_root l)) = Ok tt;
}.

Lemma sent_in_snoc ws w c i l b tx : sent_in ws c i l b tx -> sent_in (ws ++ [w]) c i l b tx.
Proof. intros []. split; try done. by apply lookup_app_l_Some. Qed.

Lemma history_tx ws : all_accepted Chain.genesis ws -> forall c i l,
  sends (Chain.channels (history ws) c) !! i = Some l -> exists b tx, sent_in ws c i l b tx.
Proof.
  induction ws as [|w ws IH] using rev_ind; intros Ha c i l Hl; [done|].
  apply all_accepted_snoc in Ha as [Ha Hw]. specialize (IH Ha c i l). rewrite foldl_app in Hl. cbn [foldl Chain.add Chain.channels] in Hl.
  assert (sends (Chain.channels (history ws) c) !! i = Some l -> exists b tx, sent_in (ws ++ [w]) c i l b tx) as Hold.
  { intros H. destruct (IH H) as (b & tx & Hs). exists b, tx. by apply sent_in_snoc. }
  destruct (Chain.is_active w) eqn:Hact; [|rewrite registered_sends in Hl by apply Hw; auto].
  unfold record_block in Hl. cbn in Hl. destruct (decide (Block.channel_id (block w) = c)) as [Hc|Hne];
    [|rewrite fn_lookup_insert_ne in Hl by done; auto].
  subst c. rewrite fn_lookup_insert in Hl. cbn [with_send sends] in Hl.
  apply lookup_app_Some in Hl as [Hl|[Hge Hl]]; [auto|]. destruct (i - _)%nat as [|] eqn:Hi; [|done]. injection Hl as <-.
  destruct (ba_send _ _ Hw Hact) as (r & leaf & _ & _ & _ & _ & Hss).
  destruct (ss_tx _ _ _ _ _ Hss) as (tx & Hn & (mp & Hmh & Hmp) & _). exists w, tx.
  split; cbn [SendLeaf.cur SendLeaf.tx_tree_root U63.as_u64]; try done.
  - rewrite run_number. change (Chain.number Chain.genesis) with 0.
    replace (Z.to_nat (0 + Z.of_nat (length ws) + 1 - 1)) with (length ws) by lia. by apply list_lookup_middle.
  - unfold Chain.number. lia.
  - rewrite Hn. cbn. f_equal. lia.
  - by exists mp.
Qed.

(** ** Account states of a history *)

Lemma chain_account_sound chs a u :
  account_shape a -> AccountState.verify a = Ok u -> AccountState.account_tree_root a = channels_root chs ->
  AccountState.send_leaf a = default SendLeaf.default (sends (chs (AccountState.channel_id a)) !! Z.to_nat (AccountState.send_leaf_index a)).
Proof.
  intros (Hc & Hi & Hsh & Huh) Hv Hroot. unfold AccountState.verify in Hv. simplify_res.
  rewrite Hroot in Hv. unfold channels_root in Hv. rewrite <- Huh in Hv.
  apply (proof_verify_sound (I2 := poseidon_two_to_one_inj)) in Hv as (Hleaf & _); [|unfold in_width in *; lia].
  apply (inj leaf_hash) in Hleaf. rewrite <- Hleaf in Hr.
  eapply list_proof_leaf in Hr as [_ Hr]; [exact Hr|done|done|unfold in_width in *; lia].
Qed.

(** *** Later states *)

Lemma sends_later ws w c : block_accepted (history ws) w ->
  sends (Chain.channels (history ws) c) `prefix_of` sends (Chain.channels (history (ws ++ [w])) c).
Proof.
  intros Hw. rewrite foldl_app. cbn [foldl Chain.add Chain.channels].
  destruct (Chain.is_active w); [|by rewrite registered_sends by apply Hw].
  unfold record_block. cbn. destruct (decide (Block.channel_id (block w) = c)) as [<-|Hne].
  - rewrite fn_lookup_insert. cbn. by eexists.
  - by rewrite fn_lookup_insert_ne.
Qed.

Lemma sends_prefix ws1 ws2 c : all_accepted Chain.genesis (ws1 ++ ws2) ->
  sends (Chain.channels (history ws1) c) `prefix_of` sends (Chain.channels (history (ws1 ++ ws2)) c).
Proof.
  induction ws2 as [|w ws2 IH] using rev_ind; intros Ha; [by rewrite app_nil_r|].
  rewrite (assoc_L (++)) in *. apply all_accepted_snoc in Ha as [Ha Hw]. etrans; [by apply IH|]. by apply sends_later.
Qed.

Lemma all_accepted_take m ws : all_accepted Chain.genesis ws -> all_accepted Chain.genesis (take m ws).
Proof.
  intros Ha ws1 w ws2 Heq. apply (Ha ws1 w (ws2 ++ drop m ws)). rewrite <- (take_drop m ws) at 1. by rewrite Heq, <- (assoc_L (++)).
Qed.

Lemma sent_in_take m ws c i l b tx : sent_in (take m ws) c i l b tx -> sent_in ws c i l b tx.
Proof. intros []. split; try done. rewrite <- (take_drop m ws). by apply lookup_app_l_Some. Qed.

(** *** Recorded states *)

Lemma past_length ws : length (Chain.past (history ws)) = length ws.
Proof. induction ws as [|w ws IH] using rev_ind; [done|]. rewrite foldl_app. cbn. rewrite !length_app, IH. done. Qed.

Lemma history_past ws m x : Chain.past (history ws) !! m = Some x ->
  (m < length ws)%nat /\ x = Chain.public_state (history (take m ws)).
Proof.
  revert m x. induction ws as [|w ws IH] using rev_ind; intros m x H; [done|]. rewrite foldl_app in H.
  cbn [foldl Chain.add Chain.past] in H. rewrite length_app. cbn [length].
  pose proof (past_length ws) as Hl.
  apply lookup_app_Some in H as [H|[Hge H]].
  - destruct (IH m x H) as [Hm ->]. split; [lia|]. by rewrite take_app_le by lia.
  - destruct (m - _)%nat eqn:Hm; [|done]. injection H as <-. split; [lia|]. rewrite take_app_le by lia. by rewrite take_ge by lia.
Qed.

Lemma history_time ws : Forall (fun w => in_width 64 (Block.timestamp (block w))) ws ->
  in_width 64 (PublicState.timestamp (Chain.public_state (history ws))).
Proof.
  intros Hw. cbn. unfold Chain.time. destruct ws as [|w ws _] using rev_ind; [unfold in_width; cbn; lia|].
  rewrite foldl_app. cbn. rewrite list.last_snoc. by apply Forall_app in Hw as [_ [Hw _]%Forall_cons_iff].
Qed.

(** An update to the state of a history starts from a state of that history. *)
Lemma update_recorded ws u :
  Forall (fun w => in_width 64 (Block.timestamp (block w))) ws ->
  proof_height (UpdatePublicState.merkle_proof u) = PUBLIC_STATE_TREE_HEIGHT ->
  public_state_typed (UpdatePublicState.old u) -> ws <> [] -> Z.of_nat (length ws) < 2 ^ 63 ->
  UpdatePublicState.new u = Chain.public_state (history ws) -> UpdatePublicState.verify u = Ok tt ->
  exists m, (m <= length ws)%nat /\ UpdatePublicState.old u = Chain.public_state (history (take m ws)).
Proof.
  intros Hts Hh [Hn Ht] Hne Hlen Hnew Hv. unfold UpdatePublicState.verify in Hv. rewrite Hnew in Hv.
  case_bool_decide as Heq; [exists (length ws); rewrite firstn_all; done|].
  rewrite proof_get_root_eq in Hv. cbn [mbind res_bind] in Hv. apply ensure_Ok in Hv. apply bool_decide_eq_true_1 in Hv.
  set (n := U63.as_u64 (PublicState.block_number (UpdatePublicState.old u))) in *.
  assert (proof_verify (UpdatePublicState.merkle_proof u) (UpdatePublicState.old u) n
    (subtree (list_leaves (Chain.past (history ws))) (proof_height (UpdatePublicState.merkle_proof u)) 0) = Ok tt) as Hp.
  { apply proof_verify_Ok. rewrite Hh. split; [|exact Hv]. pose proof public_state_tree_height as Hps.
    apply index_in_domain_spec; [unfold in_width; lia|]. rewrite Hps. lia. }
  apply (proof_verify_sound (I2 := poseidon_two_to_one_inj)) in Hp as (Hleaf & _); [|unfold in_width; lia].
  unfold list_leaves in Hleaf. destruct (Chain.past (history ws) !! Z.to_nat n) as [x|] eqn:Hx.
  - destruct (history_past ws _ _ Hx) as [Hm ->]. exists (Z.to_nat n). split; [lia|]. symmetry.
    cbn in Hleaf. apply public_state_hash_inj in Hleaf; [done| |done]. apply history_time. by apply Forall_take.
  - cbn in Hleaf. apply public_state_hash_inj in Hleaf; [|unfold in_width; cbn; lia|done]. exfalso.
    assert (n = 0) as Hn0 by (subst n; by rewrite <- Hleaf). rewrite Hn0 in Hx.
    destruct ws as [|w ws _] using rev_ind; [done|]. rewrite foldl_app in Hx. cbn in Hx.
    by destruct (Chain.past (history ws)).
Qed.

(** *** Settled withdrawals *)

Context {NZ : PoseidonNonzero P W} {BP : BalanceProofs}.

Lemma included_nonempty (w : SingleWithdawalWitness) c :
  withdrawal_tx_included w c (reduce_to_hash_out (SendLeaf.tx_tree_root SendLeaf.default)) = Ok tt -> False.
Proof.
  change (reduce_to_hash_out _) with (phash_from_elements (PoseidonWords := W) [0; 0; 0; 0]). unfold withdrawal_tx_included. intros H.
  destruct (tx_v2 w) as [v2|], (tx_v2_merkle_proof w) as [pr|]; try done; simplify_res.
  - apply (verified_root_nonzero (V := TxV2)) in Hr; [done|by eexists].
  - apply (verified_root_nonzero (V := Tx)) in H; [done|by eexists].
Qed.

(** The included transaction is the transaction of the block. *)
Lemma included_block_form (w : SingleWithdawalWitness) c root p (t : TxV2) :
  single_shaped w -> withdrawal_tx_included w c root = Ok tt ->
  proof_height p = TX_TREE_HEIGHT -> proof_verify p t c root = Ok tt -> t = block_form (tx w).
Proof.
  intros Hs Hi Hh Hp. unfold withdrawal_tx_included in Hi.
  destruct (tx_v2 w) as [v2|], (tx_v2_merkle_proof w) as [pr|] eqn:Hpr; try done; simplify_res; simplify_bool.
  - pose proof (wh_tx_v2 _ Hs _ Hpr) as Hh'.
    eapply (proof_verify_same _ _ _ _ _ _ _ _ (eq_trans Hh (eq_sym Hh')) Hp) in Hr.
    apply (inj leaf_hash) in Hr as ->. destruct v2. cbn in *. by subst.
  - exfalso. pose proof (wh_tx _ Hs) as Hh'.
    eapply (proof_verify_same _ _ _ _ _ _ _ _ (eq_trans Hh' (eq_sym Hh)) Hi) in Hp. by apply tx_forms_disjoint in Hp.
Qed.

Lemma single_settled {PL : Plonky2} {WP : WithdrawalProvers} ws w bp d :
  all_accepted Chain.genesis ws -> single_shaped w -> single_facts w bp d ->
  PublicState.account_tree_root (UpdatePublicState.new (update_public_state w)) = channels_root (Chain.channels (history ws)) ->
  let c := BalancePublicInputs.channel_id bp in
  exists i l b, sends (Chain.channels (history ws) c) !! i = Some l /\ Tx.nonce (tx w) = Z.of_nat i /\
    sent_in ws c i l b (block_form (tx w)).
Proof.
  intros Ha Hs Hf Hroot c. destruct Hf as [_ _ _ _ Hc Hr Hv Hi _ _ _]. rewrite Hroot in Hr.
  pose proof (chain_account_sound _ _ _ (wh_account _ Hs) Hv Hr) as Hl. rewrite Hc in Hl. fold c in Hl.
  destruct (sends _ !! _) as [l|] eqn:Hsl; cbn in Hl; rewrite Hl in Hi; [|by apply included_nonempty in Hi].
  destruct (history_tx ws Ha c _ l Hsl) as (b & t & Hsent). destruct (si_included _ _ _ _ _ _ Hsent) as (p & Hh & Hp).
  assert (t = block_form (tx w)) as -> by by eapply included_block_form.
  eexists _, l, b. split_and!; [exact Hsl| |exact Hsent]. apply (si_nonce _ _ _ _ _ _ Hsent).
Qed.

End history.

(** ** Chains of withdrawals *)

(** The withdrawal chain of a list of withdrawals. *)
Definition withdrawal_chain {K : Keccak} (ds : list Withdrawal) : Bytes32 :=
  foldl (fun h d => Withdrawal.hash_with_prev_hash d h) bytes32_default ds.

Section chain.
Context {P : Poseidon} {W : PoseidonWords P} {K : Keccak} {BP : BalanceProofs} {PL : Plonky2}.
Context {WP : WithdrawalProvers} {WPO : WithdrawalProversOk WP}.

Definition update_ok (u : UpdatePublicState) : Prop :=
  proof_height (UpdatePublicState.merkle_proof u) = PUBLIC_STATE_TREE_HEIGHT /\ public_state_typed (UpdatePublicState.old u).

(** Withdrawals proved one after the other, each by [single_prove] and then a step of the chain. *)
Inductive withdrawal_run : list (SingleWithdawalWitness * Withdrawal) -> Proof -> Prop :=
| withdrawal_first w pis sp u p :
    single_shaped w -> single_to_public_inputs w = Ok pis -> single_prove w = Ok sp -> update_ok u ->
    withdrawal_prove_step (WithdrawalStepWitness.mk None sp u) = Ok p ->
    withdrawal_run [(w, SingleWithdawalPublicInputs.withdrawal pis)] p
| withdrawal_next ws q w pis sp u p :
    withdrawal_run ws q -> single_shaped w -> single_to_public_inputs w = Ok pis -> single_prove w = Ok sp -> update_ok u ->
    withdrawal_prove_step (WithdrawalStepWitness.mk (Some q) sp u) = Ok p ->
    withdrawal_run (ws ++ [(w, SingleWithdawalPublicInputs.withdrawal pis)]) p.

Definition exposes_withdrawals (p : Proof) (pis : WithdrawalStepPublicInputs) : Prop :=
  WithdrawalStepPublicInputs.from_u64_slice (public_inputs p) (cap_elements (vd_common withdrawal_chain_vd)) = Ok pis.

(** A withdrawal that refers to a state recorded in [ps]. *)
Definition anchored (ps : PublicState) (e : SingleWithdawalWitness * Withdrawal) : Prop :=
  single_shaped e.1 /\ (exists bp, single_facts e.1 bp e.2) /\
  exists u, update_ok u /\ UpdatePublicState.verify u = Ok tt /\ UpdatePublicState.new u = ps /\
    UpdatePublicState.old u = UpdatePublicState.new (update_public_state e.1).

Lemma slice_to_any {E E' A} n (l ws : list A) : slice_to (E := E) n l = Ok ws -> slice_to (E := E') n l = Ok ws.
Proof. unfold slice_to. destruct (n <=? length l)%nat; [|done]. by intros [= ->]. Qed.

Lemma step_sound prev w pis sp u p :
  single_shaped w -> single_to_public_inputs w = Ok pis -> single_prove w = Ok sp -> update_ok u ->
  withdrawal_prove_step (WithdrawalStepWitness.mk prev sp u) = Ok p ->
  anchored (UpdatePublicState.new u) (w, SingleWithdawalPublicInputs.withdrawal pis) /\
  exists h, exposes_withdrawals p (WithdrawalStepPublicInputs.mk
    (Withdrawal.hash_with_prev_hash (SingleWithdawalPublicInputs.withdrawal pis) h) (UpdatePublicState.new u)
    (vd_only withdrawal_chain_vd)) /\
  match prev with
  | None => h = bytes32_default
  | Some q => forall prev_pis, exposes_withdrawals q prev_pis ->
      h = WithdrawalStepPublicInputs.withdrawal_hash_chain prev_pis /\
      UpdatePublicState.new u = WithdrawalStepPublicInputs.public_state prev_pis
  end.
Proof.
  intros Hsh Hpis Hsp Hu Hp. unfold single_prove in Hsp. rewrite Hpis in Hsp. cbn [map_err mbind res_bind] in Hsp.
  apply ok_or_Ok in Hsp. destruct (single_exposes _ _ _ Hsp) as (words & Hwords & Hread).
  unfold withdrawal_prove_step in Hp. apply bind_Ok in Hp as (step & Hstep%map_err_Ok & Hp). apply ok_or_Ok in Hp.
  apply bind_Ok in Hstep as (new_pis & Hnew & Hstep). apply ok_or_Ok in Hstep.
  unfold step_to_public_inputs in Hnew. cbn [WithdrawalStepWitness.update_public_state WithdrawalStepWitness.single_withdrawal_proof
    WithdrawalStepWitness.prev_withdrawal_chain_proof] in Hnew.
  apply bind_Ok in Hnew as ([] & Hv%map_err_Ok & Hnew). apply bind_Ok in Hnew as ([] & _ & Hnew).
  apply bind_Ok in Hnew as (words' & Hwords' & Hnew). apply (slice_to_any (E' := unit)) in Hwords'. rewrite Hwords in Hwords'.
  apply Ok_inj in Hwords' as <-. rewrite Hread in Hnew. cbn [map_err mbind res_bind] in Hnew.
  apply bind_Ok in Hnew as ([] & Hold%ensure_Ok & Hnew). apply bool_decide_eq_true_1 in Hold.
  apply bind_Ok in Hnew as (h & Hh & Hnew). apply Ok_inj in Hnew as <-.
  destruct (single_inv w pis Hpis) as [Hps Hf]. split.
  - split_and!; [done|done|]. exists u. split_and!; [done..|]. cbn. congruence.
  - exists h. split.
    + unfold exposes_withdrawals. rewrite (withdrawal_chain_forwards _ _ Hp). by apply (withdrawal_step_exposes _ _ _ Hstep).
    + destruct prev as [q|]; [|by apply Ok_inj in Hh]. intros prev_pis Hq. unfold exposes_withdrawals in Hq. rewrite Hq in Hh.
      apply bind_Ok in Hh as ([] & _ & Hh). cbn [map_err mbind res_bind] in Hh.
      apply bind_Ok in Hh as ([] & He%ensure_Ok & Hh). apply bool_decide_eq_true_1 in He. by apply Ok_inj in Hh.
Qed.

Lemma withdrawal_run_sound ws p : withdrawal_run ws p ->
  exists ps, exposes_withdrawals p (WithdrawalStepPublicInputs.mk (withdrawal_chain ws.*2) ps (vd_only withdrawal_chain_vd)) /\
    Forall (anchored ps) ws.
Proof.
  induction 1 as [w pis sp u p Hsh Hpis Hsp Hu Hp|ws q w pis sp u p Hrun IH Hsh Hpis Hsp Hu Hp].
  - destruct (step_sound _ _ _ _ _ _ Hsh Hpis Hsp Hu Hp) as (Ha & h & Hex & ->). exists (UpdatePublicState.new u).
    split; [exact Hex|by constructor].
  - destruct IH as (ps & Hq & Hall). destruct (step_sound _ _ _ _ _ _ Hsh Hpis Hsp Hu Hp) as (Ha & h & Hex & Hprev).
    destruct (Hprev _ Hq) as [-> Heq]. cbn in Heq. rewrite Heq in Ha, Hex. exists ps. split.
    + unfold withdrawal_chain. rewrite fmap_app, foldl_app. exact Hex.
    + apply Forall_app_2; [done|by constructor].
Qed.

End chain.
