(* ===== verification/PayoutProps.v ===== *)
(** * The journal under crashes

    Every operation of the store is a decision on the snapshot in memory
    ([plan]) followed by one write ([apply_spec]).  A decision only moves the
    journal forward ([later]): completed nullifiers are only added, and the
    candidate in flight keeps its identity, its intents and its receipts until
    it is complete.  Over any sequence of operations, failed writes, crashes and
    restarts the file holds a verified snapshot that moves forward
    ([journal_inv_run]). *)

From S2P Require Import Prelude Limbs U63 Circuit MerkleTree LeafTrees Poseidon IndexedTree Keccak Regev BalanceState BalanceStateProps Account Ledger Balance BalanceCodec Channel HashChains BlockStep BlockChain ChainCodec ExitCodec Withdrawal Payout.
Import PartialWithdrawalPayoutStore.

#[local] Notation res := (res PartialWithdrawalPayoutError).
#[local] Notation candidate := PartialWithdrawalCandidate.
#[local] Notation snapshot := PayoutSnapshot.
#[local] Notation store := PartialWithdrawalPayoutStore.
#[local] Notation completed := PayoutSnapshot.completed_nullifiers.
#[local] Notation current := PayoutSnapshot.active.
#[local] Notation complete := PartialWithdrawalCandidate.is_complete.
#[local] Notation nullifier c := (Withdrawal.nullifier (PartialWithdrawalCandidate.withdrawal c)).

(** ** Bytes *)

Lemma le_bytes_roundtrip n x : in_width (8 * Z.of_nat n) x -> from_le_bytes (to_le_bytes n x) = x.
Proof.
  unfold from_le_bytes, to_le_bytes. revert x. induction n as [|n IH]; intros x Hx.
  - cbn. unfold in_width in Hx. change (2 ^ (8 * Z.of_nat 0)) with 1 in Hx. lia.
  - rewrite <- cons_seq. cbn [fmap list_fmap foldr]. rewrite <- fmap_S_seq, <- list_fmap_compose.
    assert (foldr (fun b acc => b + 2 ^ 8 * acc) 0 (((fun i => wrap 8 (Z.shiftr x (8 * Z.of_nat i))) ∘ S) <$> seq 0 n) = Z.shiftr x 8) as ->.
    { etransitivity; [|apply (IH (Z.shiftr x 8))].
      - f_equal. apply list_fmap_ext. intros i k _. cbn. rewrite Z.shiftr_shiftr by lia. do 2 f_equal. lia.
      - unfold in_width in *. rewrite Z.shiftr_div_pow2 by lia. split; [apply Z.div_pos; lia|]. apply Z.div_lt_upper_bound; [lia|].
        rewrite <- Z.pow_add_r by lia. replace (8 + 8 * Z.of_nat n) with (8 * Z.of_nat (S n)) by lia. lia. }
    cbn. rewrite Z.shiftr_0_r, Z.shiftr_div_pow2 by lia. unfold wrap. pose proof (Z.div_mod x (2 ^ 8)). lia.
Qed.

Lemma length_to_le_bytes n x : length (to_le_bytes n x) = n.
Proof. unfold to_le_bytes. by rewrite length_fmap, length_seq. Qed.

(** ** The file *)

Section codec.
Context {PC : PayoutCodec} {PO : PayoutCodecOk PC}.

Definition file_chunks (payload : list Z) : list (list Z) :=
  [SNAPSHOT_MAGIC; to_le_bytes 4 PARTIAL_WITHDRAWAL_PAYOUT_VERSION; to_le_bytes 8 (Z.of_nat (length payload)); keccak_bytes payload; payload].

Lemma file_lengths payload : length <$> file_chunks payload = [16; 4; 8; 32; length payload]%nat.
Proof. unfold file_chunks. cbn [fmap list_fmap]. by rewrite !length_to_le_bytes, keccak_bytes_length. Qed.

(** What was written is read back. *)
Lemma encode_read d bytes : encode_snapshot d = Ok bytes -> read_snapshot bytes = Ok d.
Proof.
  unfold encode_snapshot. intros H. apply bind_Ok in H as (payload & Hp%ok_or_Ok & H). apply bind_Ok in H as ([] & Hmax%ensure_Ok%negb_true_iff%Z.ltb_ge & H).
  apply Ok_inj in H as <-.
  assert (SNAPSHOT_MAGIC ++ to_le_bytes 4 PARTIAL_WITHDRAWAL_PAYOUT_VERSION ++ to_le_bytes 8 (Z.of_nat (length payload)) ++ keccak_bytes payload ++ payload
    = concat (file_chunks payload)) as -> by (cbn [file_chunks concat]; by rewrite app_nil_r).
  pose proof (file_lengths payload) as Hl. unfold read_snapshot.
  assert (length (concat (file_chunks payload)) = (60 + length payload)%nat) as Hlen by (rewrite length_chunks, Hl; cbn; lia).
  rewrite Hlen. unfold MAX_SNAPSHOT_BYTES, HEADER_BYTES in *. unfold refuse.
  rewrite (proj2 (Z.ltb_ge (Z.of_nat (60 + length payload)) (Z.of_nat 60))), (proj2 (Z.ltb_ge (512 * 1024 * 1024) _)) by lia. cbn [orb negb ensure mbind res_bind].
  rewrite (slice_chunk _ _ 0 SNAPSHOT_MAGIC 0 16 Hl eq_refl eq_refl eq_refl), (bool_decide_eq_false_2 (SNAPSHOT_MAGIC <> SNAPSHOT_MAGIC)) by (intros Hne; by apply Hne).
  cbn [mbind res_bind]. rewrite (slice_chunk _ _ 1 _ 16 20 Hl eq_refl eq_refl eq_refl), (slice_chunk _ _ 2 _ 20 28 Hl eq_refl eq_refl eq_refl),
    (slice_chunk _ _ 3 _ 28 60 Hl eq_refl eq_refl eq_refl).
  rewrite !le_bytes_roundtrip by (unfold in_width, PARTIAL_WITHDRAWAL_PAYOUT_VERSION; lia). rewrite Z.eqb_refl. cbn [negb ensure mbind res_bind].
  replace (Z.of_nat (60 + length payload) - Z.of_nat 60) with (Z.of_nat (length payload)) by lia. rewrite Z.eqb_refl. cbn [negb ensure mbind res_bind].
  assert (drop 60 (concat (file_chunks payload)) = payload) as ->.
  { cbn [file_chunks concat]. rewrite app_nil_r, !app_assoc. apply drop_app_length'.
    rewrite !length_app, !length_to_le_bytes, keccak_bytes_length. reflexivity. }
  rewrite bool_decide_eq_false_2 by (intros Hne; by apply Hne). cbn [negb ensure mbind res_bind]. by rewrite (snapshot_roundtrip d payload Hp).
Qed.

(** ** Decisions *)

Inductive op :=
| Prepare (request : PreparePartialWithdrawalPayout)
| MarkPayout (id : Bytes32) (intent : BroadcastIntent)
| ConfirmPayout (id : Bytes32) (confirmation : PayoutConfirmation)
| RecordPayout (id : Bytes32) (tx_hash : Bytes32)
| Delegate (id : Bytes32)
| MarkPull (id : Bytes32) (intent : BroadcastIntent)
| ConfirmPull (id : Bytes32) (confirmation : PullConfirmation)
| RecordPull (id : Bytes32) (tx_hash : Bytes32).

Definition apply (fault : Fault) (o : op) : meth store PartialWithdrawalPayoutError candidate :=
  match o with
  | Prepare request => prepare fault request
  | MarkPayout id intent => mark_payout_broadcast fault id intent
  | ConfirmPayout id confirmation => confirm_payout fault id confirmation
  | RecordPayout id tx_hash => record_payout_tx_hash fault id tx_hash
  | Delegate id => mark_recipient_pull_delegated fault id
  | MarkPull id intent => mark_pull_broadcast fault id intent
  | ConfirmPull id confirmation => confirm_pull fault id confirmation
  | RecordPull id tx_hash => record_pull_tx_hash fault id tx_hash
  end.

(** The candidate that a request starts. *)
Definition fresh (id : Bytes32) (r : PreparePartialWithdrawalPayout) : candidate :=
  PartialWithdrawalCandidate.mk id (PreparePartialWithdrawalPayout.chain_id r) (PreparePartialWithdrawalPayout.rollup r)
    (PreparePartialWithdrawalPayout.channel_id r) (PreparePartialWithdrawalPayout.signed_head_digest r)
    (PreparePartialWithdrawalPayout.burn_base_nonce r) (PreparePartialWithdrawalPayout.producer_receipt r)
    (lane_for (PartialWithdrawalProofArtifacts.withdrawal (PreparePartialWithdrawalPayout.artifacts r))) (PreparePartialWithdrawalPayout.artifacts r)
    None [] None false None [] None.

(** The snapshot after a changed candidate. *)
Definition changed (d : snapshot) (c : candidate) : snapshot :=
  PayoutSnapshot.mk (PayoutSnapshot.version d) (Some c)
    (if complete c && negb (bool_decide (nullifier c ∈ completed d)) then completed d ++ [nullifier c] else completed d).

Definition plan_prepare (d : snapshot) (r : PreparePartialWithdrawalPayout) : res (option snapshot * candidate) :=
  _ ← validate_prepare r;
  id ← candidate_id r;
  let create :=
    _ ← refuse (bool_decide (nullifier (fresh id r) ∈ completed d)) Conflict;
    Ok (Some (PayoutSnapshot.mk (PayoutSnapshot.version d) (Some (fresh id r)) (completed d)), fresh id r) in
  match current d with
  | Some c => if bool_decide (PartialWithdrawalCandidate.candidate_id c = id) then Ok (None, c) else if negb (complete c) then Err Conflict else create
  | None => create
  end.

Definition plan_update (d : snapshot) (id : Bytes32) (update : candidate -> res candidate) : res (option snapshot * candidate) :=
  c ← ok_or (current d) InvalidRequest;
  _ ← refuse (bool_decide (PartialWithdrawalCandidate.candidate_id c <> id)) Conflict;
  c' ← update c;
  Ok (Some (changed d c'), c').

(** What an operation decides: the snapshot to write, if any, and the answer. *)
Definition plan (o : op) (d : snapshot) : res (option snapshot * candidate) :=
  match o with
  | Prepare request => plan_prepare d request
  | MarkPayout id intent => plan_update d id (update_payout_broadcast intent)
  | ConfirmPayout id confirmation => plan_update d id (update_payout_confirmation confirmation)
  | RecordPayout id tx_hash => plan_update d id (update_payout_tx_hash tx_hash)
  | Delegate id => plan_update d id update_pull_delegated
  | MarkPull id intent => plan_update d id (update_pull_broadcast intent)
  | ConfirmPull id confirmation => plan_update d id (update_pull_confirmation confirmation)
  | RecordPull id tx_hash => plan_update d id (update_pull_tx_hash tx_hash)
  end.

(** Writing a decision. *)
Definition write (fault : Fault) (s : store) (d : snapshot) (c : candidate) : store * res candidate :=
  match verify_disk d with
  | Ok _ =>
      match encode_snapshot d with
      | Ok bytes =>
          match fault with
          | NoFault => (mk (Some bytes) d (poisoned s), Ok c)
          | BeforeRename => (mk (file s) (disk s) true, Err Snapshot)
          | AfterRename => (mk (Some bytes) (disk s) true, Err Snapshot)
          end
      | Err e => (mk (file s) (disk s) true, Err e)
      | Panic => (mk (file s) (disk s) true, Panic)
      end
  | Err e => (s, Err e)
  | Panic => (s, Panic)
  end.

Definition execute (fault : Fault) (o : op) (s : store) : store * res candidate :=
  if poisoned s then (s, Err Poisoned) else
  match plan o (disk s) with
  | Ok (Some d, c) => write fault s d c
  | Ok (None, c) => (s, Ok c)
  | Err e => (s, Err e)
  | Panic => (s, Panic)
  end.

Lemma commit_write fault d c s : (_ ← commit fault d; mret c) s = write fault s d c.
Proof.
  unfold write, commit, persist_snapshot. unfold mbind, meth_bind, pure, self, mret, meth_ret. destruct (verify_disk d) as [[]|e|]; [|done|done].
  destruct (encode_snapshot d) as [bytes|e|]; [|done|done]. by destruct fault.
Qed.

Lemma healthy_bind {A} (k : meth store PartialWithdrawalPayoutError A) s :
  (_ ← ensure_healthy; k) s = if poisoned s then (s, Err Poisoned) else k s.
Proof. unfold ensure_healthy, mbind, meth_bind, self, pure. by destruct (poisoned s). Qed.

Lemma mutate_execute fault id update s :
  mutate_candidate fault id update s =
  if poisoned s then (s, Err Poisoned) else
  match plan_update (disk s) id update with
  | Ok (Some d, c) => write fault s d c
  | Ok (None, c) => (s, Ok c)
  | Err e => (s, Err e)
  | Panic => (s, Panic)
  end.
Proof.
  unfold mutate_candidate. rewrite healthy_bind. destruct (poisoned s); [done|]. rewrite self_bind.
  unfold plan_update. destruct (current (disk s)) as [c|]; [|done]. cbn [ok_or]. rewrite pure_bind. cbn [mbind res_bind]. unfold refuse.
  destruct (bool_decide _); [done|]. cbn [negb ensure]. rewrite pure_bind. cbn [mbind res_bind]. destruct (update c) as [c'|e|]; [|done|done].
  rewrite pure_bind. cbn [mbind res_bind]. apply commit_write.
Qed.

Lemma prepare_execute fault r s : prepare fault r s = execute fault (Prepare r) s.
Proof.
  unfold prepare, execute, plan, plan_prepare. rewrite healthy_bind. destruct (poisoned s); [done|].
  destruct (validate_prepare r) as [[]|e|]; [|done|done]. rewrite pure_bind. destruct (candidate_id r) as [id|e|]; [|done|done]. rewrite pure_bind. cbn [mbind res_bind].
  rewrite self_bind. destruct (current (disk s)) as [c|]; [destruct (bool_decide (PartialWithdrawalCandidate.candidate_id c = id)); [done|];
    destruct (negb (complete c)); [done|]|]; unfold refuse; (destruct (bool_decide _); [done|]); cbn [negb ensure]; rewrite pure_bind; cbn [mbind res_bind];
    apply commit_write.
Qed.

(** Every operation is a decision and one write. *)
Lemma apply_spec fault o s : apply fault o s = execute fault o s.
Proof. destruct o; [apply prepare_execute|apply mutate_execute..]. Qed.

(** ** Moving forward *)

(** The same payout, further on: nothing that a phase wrote is undone. *)
Record advances (c c' : candidate) : Prop := {
  same_id : PartialWithdrawalCandidate.candidate_id c' = PartialWithdrawalCandidate.candidate_id c;
  same_request : request_of c' = request_of c;
  same_lane : PartialWithdrawalCandidate.lane c' = PartialWithdrawalCandidate.lane c;
  keeps_payout i : PartialWithdrawalCandidate.payout_broadcast c = Some i -> PartialWithdrawalCandidate.payout_broadcast c' = Some i;
  keeps_payout_hashes : PartialWithdrawalCandidate.payout_tx_hashes c `prefix_of` PartialWithdrawalCandidate.payout_tx_hashes c';
  keeps_payout_receipt r : PartialWithdrawalCandidate.payout_confirmation c = Some r -> PartialWithdrawalCandidate.payout_confirmation c' = Some r;
  keeps_delegation : PartialWithdrawalCandidate.recipient_pull_delegated c = true -> PartialWithdrawalCandidate.recipient_pull_delegated c' = true;
  keeps_pull i : PartialWithdrawalCandidate.pull_broadcast c = Some i -> PartialWithdrawalCandidate.pull_broadcast c' = Some i;
  keeps_pull_hashes : PartialWithdrawalCandidate.pull_tx_hashes c `prefix_of` PartialWithdrawalCandidate.pull_tx_hashes c';
  keeps_pull_receipt r : PartialWithdrawalCandidate.pull_confirmation c = Some r -> PartialWithdrawalCandidate.pull_confirmation c' = Some r;
}.

#[global] Instance advances_preorder : PreOrder advances.
Proof.
  split.
  - intros c. by split.
  - intros c1 c2 c3 [] []. split; [congruence..|eauto| |eauto|eauto|eauto| |eauto]; by etransitivity.
Qed.

Lemma advances_nullifier c c' : advances c c' -> nullifier c' = nullifier c.
Proof. intros [_ [= _ _ _ _ _ _ Ha]]. unfold PartialWithdrawalCandidate.withdrawal. by rewrite Ha. Qed.

Lemma is_some_spec {A} (o : option A) : is_some o = true <-> exists x, o = Some x.
Proof. destruct o; naive_solver. Qed.

Lemma advances_complete c c' : advances c c' -> complete c = true -> complete c' = true.
Proof.
  intros H. unfold PartialWithdrawalCandidate.is_complete. rewrite !andb_true_iff, !orb_true_iff, !is_some_spec.
  intros [[r Hr] Hp]. split; [exists r; by apply H|]. destruct Hp as [[r' Hr']|Hd]; [left; exists r'; by apply H|right; by apply H].
Qed.

(** Two snapshots of one journal, the second one later. *)
Record forward (d d' : snapshot) : Prop := {
  completed_kept : completed d `prefix_of` completed d';
  in_flight_kept c : current d = Some c -> (exists c', current d' = Some c' /\ advances c c') \/ nullifier c ∈ completed d';
  completed_closed c' : current d' = Some c' -> nullifier c' ∈ completed d -> exists c, current d = Some c /\ advances c c';
  payout_once c c' : current d = Some c -> current d' = Some c' -> nullifier c' = nullifier c -> advances c c';
}.

Lemma completed_elem d d' n : forward d d' -> n ∈ completed d -> n ∈ completed d'.
Proof. intros [[k ->] _ _ _]. rewrite elem_of_app. by left. Qed.

#[global] Instance forward_preorder : PreOrder forward.
Proof.
  split.
  - intros d. split; [done|intros c Hc; left; by exists c|intros c Hc _; by exists c|]. intros c c' Hc Hc'. rewrite Hc in Hc'. by injection Hc' as ->.
  - intros d1 d2 d3 H12 H23. split.
    + transitivity (completed d2); [apply H12|apply H23].
    + intros c Hc. destruct (in_flight_kept _ _ H12 c Hc) as [(c2 & Hc2 & Ha)|Hn]; [|right; by apply (completed_elem d2)].
      destruct (in_flight_kept _ _ H23 c2 Hc2) as [(c3 & Hc3 & Ha')|Hn]; [left; exists c3; split; [done|by etransitivity]|].
      right. by rewrite <- (advances_nullifier c c2).
    + intros c3 Hc3 Hn. destruct (completed_closed _ _ H23 c3 Hc3) as (c2 & Hc2 & Ha); [by apply (completed_elem d1)|].
      rewrite (advances_nullifier c2 c3) in Hn by done. destruct (completed_closed _ _ H12 c2 Hc2 Hn) as (c1 & Hc1 & Ha').
      exists c1. split; [done|by etransitivity].
    + intros c c3 Hc Hc3 Hn. destruct (in_flight_kept _ _ H12 c Hc) as [(c2 & Hc2 & Ha)|Hin].
      * transitivity c2; [done|]. apply (payout_once _ _ H23); [done|done|]. by rewrite Hn, <- (advances_nullifier c c2).
      * rewrite <- Hn in Hin. destruct (completed_closed _ _ H23 c3 Hc3 Hin) as (c2 & Hc2 & Ha). transitivity c2; [|done].
        apply (payout_once _ _ H12); [done|done|]. by rewrite <- Hn, (advances_nullifier c2 c3).
Qed.

(** ** Updates advance *)

Lemma push_prefix hashes h hashes' : push_tx_hash hashes h = Ok hashes' -> hashes `prefix_of` hashes'.
Proof.
  unfold push_tx_hash. intros H. apply bind_Ok in H as (_ & _ & H). destruct (bool_decide _); [by apply Ok_inj in H as <-|].
  destruct (_ <=? _)%nat; [done|]. apply Ok_inj in H as <-. by apply prefix_app_r.
Qed.

Lemma advances_payout c broadcast hashes confirmation :
  (forall i, PartialWithdrawalCandidate.payout_broadcast c = Some i -> broadcast = Some i) -> PartialWithdrawalCandidate.payout_tx_hashes c `prefix_of` hashes ->
  (forall r, PartialWithdrawalCandidate.payout_confirmation c = Some r -> confirmation = Some r) ->
  advances c (PartialWithdrawalCandidate.with_payout c broadcast hashes confirmation).
Proof. intros Hb Hh Hc. by split. Qed.

Lemma advances_pull c delegated broadcast hashes confirmation :
  (PartialWithdrawalCandidate.recipient_pull_delegated c = true -> delegated = true) ->
  (forall i, PartialWithdrawalCandidate.pull_broadcast c = Some i -> broadcast = Some i) -> PartialWithdrawalCandidate.pull_tx_hashes c `prefix_of` hashes ->
  (forall r, PartialWithdrawalCandidate.pull_confirmation c = Some r -> confirmation = Some r) ->
  advances c (PartialWithdrawalCandidate.with_pull c delegated broadcast hashes confirmation).
Proof. intros Hd Hb Hh Hc. by split. Qed.

(** Splits an update at its branches. *)
Ltac branches H :=
  repeat first
    [ apply bind_Ok in H as (? & ? & H)
    | apply Ok_inj in H as <-
    | discriminate H
    | lazymatch type of H with
      | context [match ?x with Some _ => _ | None => _ end] => destruct x eqn:?
      | context [if is_some ?x then _ else _] => destruct x eqn:?; cbn [is_some] in H
      | (if ?b then _ else _) = _ => destruct b eqn:?
      end ].

Ltac advance H :=
  intros H; branches H; first [reflexivity | apply advances_payout; [intros; congruence|first [done|eauto using push_prefix]|intros; congruence]
    | apply advances_pull; [intros; congruence|intros; congruence|first [done|eauto using push_prefix]|intros; congruence]].

Lemma payout_broadcast_advances i c c' : update_payout_broadcast i c = Ok c' -> advances c c'.
Proof. unfold update_payout_broadcast. advance H. Qed.
Lemma payout_confirmation_advances r c c' : update_payout_confirmation r c = Ok c' -> advances c c'.
Proof. unfold update_payout_confirmation. advance H. Qed.
Lemma payout_tx_hash_advances h c c' : update_payout_tx_hash h c = Ok c' -> advances c c'.
Proof. unfold update_payout_tx_hash. advance H. Qed.
Lemma pull_delegated_advances c c' : update_pull_delegated c = Ok c' -> advances c c'.
Proof. unfold update_pull_delegated. advance H. Qed.
Lemma pull_broadcast_advances i c c' : update_pull_broadcast i c = Ok c' -> advances c c'.
Proof. unfold update_pull_broadcast. advance H. Qed.
Lemma pull_confirmation_advances r c c' : update_pull_confirmation r c = Ok c' -> advances c c'.
Proof. unfold update_pull_confirmation. advance H. Qed.
Lemma pull_tx_hash_advances h c c' : update_pull_tx_hash h c = Ok c' -> advances c c'.
Proof. unfold update_pull_tx_hash. advance H. Qed.

(** ** What a verified snapshot says *)

Lemma refuse_Ok b e u : refuse b e = Ok u <-> b = false.
Proof. unfold refuse. by rewrite ensure_Ok, negb_true_iff. Qed.

Lemma verify_disk_spec d :
  verify_disk d = Ok tt <->
  PayoutSnapshot.version d = PARTIAL_WITHDRAWAL_PAYOUT_VERSION /\ NoDup (completed d) /\
  forall c, current d = Some c -> verify_active c (completed d) = Ok tt.
Proof.
  unfold verify_disk. rewrite bind_Ok. split.
  - intros ([] & Hv%refuse_Ok%negb_false_iff%Z.eqb_eq & H). apply bind_Ok in H as ([] & Hn%refuse_Ok%negb_false_iff%bool_decide_eq_true & H). split; [done|]. split; [done|].
    intros c Hc. rewrite Hc in H. exact H.
  - intros (Hv & Hn & H). exists tt. split; [by apply refuse_Ok, negb_false_iff, Z.eqb_eq|]. rewrite bool_decide_eq_true_2 by done. destruct (current d) as [c|]; [by apply H|done].
Qed.

Lemma verify_complete c ns : verify_active c ns = Ok tt -> complete c = true -> nullifier c ∈ ns.
Proof.
  unfold verify_active. intros H Hc. repeat apply bind_Ok in H as (? & ? & H).
  match goal with Hr : refuse (complete c && _) _ = Ok _ |- _ => rewrite refuse_Ok, Hc in Hr; cbn [andb] in Hr; by apply negb_false_iff, bool_decide_eq_true in Hr end.
Qed.

(** The decoded journal: verified, and what is in flight was never completed. *)
Record good (d : snapshot) : Prop := {
  good_verified : verify_disk d = Ok tt;
  good_open c : current d = Some c -> complete c = false -> nullifier c ∉ completed d;
}.

Lemma good_empty : good empty_snapshot.
Proof. split; [reflexivity|]. by intros c [=]. Qed.

Lemma good_complete d c : good d -> current d = Some c -> complete c = true -> nullifier c ∈ completed d.
Proof. intros [Hv _] Hc. apply verify_disk_spec in Hv as (_ & _ & Hv). apply verify_complete. by apply Hv. Qed.

Lemma plan_update_spec d id update d' c' : plan_update d id update = Ok (d', c') ->
  exists c, current d = Some c /\ PartialWithdrawalCandidate.candidate_id c = id /\ update c = Ok c' /\ d' = Some (changed d c').
Proof.
  unfold plan_update. intros H. apply bind_Ok in H as (c & Hc%ok_or_Ok & H). apply bind_Ok in H as (_ & Hid%refuse_Ok%bool_decide_eq_false & H).
  apply bind_Ok in H as (c1 & Hu & H). injection H as <- <-. exists c. by split_and!; [|apply dec_stable| |].
Qed.

Lemma update_forward d id update d' c' : (forall c c', update c = Ok c' -> advances c c') -> good d ->
  plan_update d id update = Ok (d', c') -> exists d1, d' = Some d1 /\ current d1 = Some c' /\ forward d d1 /\ (verify_disk d1 = Ok tt -> good d1).
Proof.
  intros Hu Hg (c & Hc & _ & Ha%Hu & ->)%plan_update_spec. exists (changed d c'). split; [done|]. split; [done|].
  assert (completed d `prefix_of` completed (changed d c')) as Hp by (cbn; destruct (_ && _); [by apply prefix_app_r|done]).
  split.
  - split; [done| | |].
    + intros c1 Hc1. rewrite Hc in Hc1. injection Hc1 as <-. left. by exists c'.
    + intros c1 Hc1 _. injection Hc1 as <-. by exists c.
    + intros c1 c2 Hc1 Hc2 _. rewrite Hc in Hc1. injection Hc1 as <-. by injection Hc2 as <-.
  - intros Hv. split; [done|]. intros c1 Hc1 Hi. injection Hc1 as <-. cbn. rewrite Hi. cbn [andb]. rewrite (advances_nullifier c c') by done.
    apply (good_open d Hg c Hc). destruct (complete c) eqn:E; [|done]. by rewrite (advances_complete c c') in Hi.
Qed.

Lemma prepare_forward d r d' c' : good d -> plan_prepare d r = Ok (d', c') ->
  match d' with Some d1 => current d1 = Some c' /\ forward d d1 /\ (verify_disk d1 = Ok tt -> good d1) | None => current d = Some c' end.
Proof.
  intros Hg H. unfold plan_prepare in H. apply bind_Ok in H as ([] & _ & H). apply bind_Ok in H as (id & _ & H).
  set (create := refuse _ _ ≫= _) in H.
  assert (Hcreate : (forall c, current d = Some c -> nullifier c ∈ completed d) -> create = Ok (d', c') ->
    match d' with Some d1 => current d1 = Some c' /\ forward d d1 /\ (verify_disk d1 = Ok tt -> good d1) | None => current d = Some c' end).
  { intros Hdone Hr. apply bind_Ok in Hr as ([] & Hn%refuse_Ok%bool_decide_eq_false & Hr). injection Hr as <- <-. split; [done|]. split.
    - split; [done|by right; apply Hdone| |].
      + intros c1 Hc1 Hin. injection Hc1 as <-. by destruct Hn.
      + intros c1 c2 Hc1 Hc2 Heq. injection Hc2 as <-. destruct Hn. rewrite Heq. by apply Hdone.
    - intros Hv. split; [done|]. intros c1 Hc1 _. by injection Hc1 as <-. }
  destruct (current d) as [c|] eqn:Hc; [|by apply Hcreate]. destruct (bool_decide (PartialWithdrawalCandidate.candidate_id c = id)); [by injection H as <- <-|].
  destruct (complete c) eqn:Hco; [|done]. apply Hcreate; [|done]. intros c1 [= <-]. by apply (good_complete d).
Qed.

(** A decision keeps the journal good and moves it forward. *)
Lemma plan_forward o d d' c' : good d -> plan o d = Ok (d', c') ->
  match d' with Some d1 => current d1 = Some c' /\ forward d d1 /\ (verify_disk d1 = Ok tt -> good d1) | None => current d = Some c' end.
Proof.
  intros Hg. assert (Hu : forall id update, (forall c c', update c = Ok c' -> advances c c') -> plan_update d id update = Ok (d', c') ->
    match d' with Some d1 => current d1 = Some c' /\ forward d d1 /\ (verify_disk d1 = Ok tt -> good d1) | None => current d = Some c' end).
  { intros id update Hadv H. by destruct (update_forward d id update d' c' Hadv Hg H) as (d1 & -> & ?). }
  destruct o; [by apply prepare_forward|apply Hu..]; eauto using payout_broadcast_advances, payout_confirmation_advances, payout_tx_hash_advances,
    pull_delegated_advances, pull_broadcast_advances, pull_confirmation_advances, pull_tx_hash_advances.
Qed.

(** ** Runs *)

(** A process that is down leaves the file; one that is up holds a store. *)
Inductive world := Down (file : option (list Z)) | Up (s : store).

Definition file_of (w : world) : option (list Z) := match w with Down file => file | Up s => file s end.

(** What the file holds; no file yet is an empty journal. *)
Definition durable (w : world) : res snapshot := match file_of w with Some bytes => read_snapshot bytes | None => Ok empty_snapshot end.

Inductive step : world -> world -> Prop :=
| step_open fault file : step (Down file) (match open fault file with (_, Ok s) => Up s | (file', _) => Down file' end)
| step_apply fault o s : step (Up s) (Up (fst (apply fault o s)))
| step_crash s : step (Up s) (Down (file s)).

Record journal_inv (w : world) (d : snapshot) : Prop := {
  inv_durable : durable w = Ok d;
  inv_good : good d;
  inv_memory s : w = Up s -> good (disk s) /\ (poisoned s = false -> disk s = d) /\ is_Some (file s);
}.

Lemma write_inv fault s d d1 c : journal_inv (Up s) d -> poisoned s = false -> forward d d1 -> (verify_disk d1 = Ok tt -> good d1) -> exists d',
  journal_inv (Up (fst (write fault s d1 c))) d' /\ forward d d' /\ (forall c', snd (write fault s d1 c) = Ok c' -> c' = c /\ d' = d1).
Proof.
  intros [Hd Hg Hm] Hp Hf Hv. destruct (Hm s eq_refl) as (Hgs & Hsd & Hfile).
  assert (Hold : forall p, journal_inv (Up (mk (file s) (disk s) p)) d).
  { intros p. split; [done|done|]. intros s' [= <-]. split; [done|]. split; [|done]. intros _. by apply Hsd. }
  assert (Hs : journal_inv (Up s) d) by done. unfold write. destruct (verify_disk d1) as [[]|e|] eqn:Hvd; [|by exists d..].
  destruct (encode_snapshot d1) as [bytes|e|] eqn:He; [|by exists d; split; [apply Hold|]..]. pose proof (encode_read d1 bytes He) as Hr.
  specialize (Hv eq_refl). destruct fault; cbn [fst snd].
  - exists d1. split; [|split; [done|by intros c' [= <-]]]. split; [done|done|]. intros s' [= <-]. split; [done|]. split; [done|by eexists].
  - exists d. split; [apply Hold|done].
  - exists d1. split; [|done]. split; [done|done|]. intros s' [= <-]. split; [done|]. split; [done|by eexists].
Qed.

(** An operation: the journal moves forward, and what is answered is durable. *)
Lemma apply_inv fault o s d : journal_inv (Up s) d -> exists d',
  journal_inv (Up (fst (apply fault o s))) d' /\ forward d d' /\ (forall c, snd (apply fault o s) = Ok c -> current d' = Some c).
Proof.
  intros Hi. rewrite apply_spec. unfold execute. destruct (poisoned s) eqn:Hp; [by exists d|].
  destruct (inv_memory _ _ Hi s eq_refl) as (Hg & ->%eq_sym & _); [|done].
  destruct (plan o (disk s)) as [[[d1|] c]|e|] eqn:Ho; [| |by exists (disk s)..]; apply plan_forward in Ho; [|done| |done].
  - destruct Ho as (Hc & Hf & Hv). destruct (write_inv fault s (disk s) d1 c Hi Hp Hf Hv) as (d' & Hi' & Hf' & Ha).
    exists d'. split; [done|]. split; [done|]. by intros c' [-> ->]%Ha.
  - exists (disk s). split; [done|]. split; [done|]. by intros c' [= <-].
Qed.

Lemma open_durable fault w d bytes : journal_inv w d -> file_of w = Some bytes -> open fault (Some bytes) = (Some bytes, Ok (mk (Some bytes) d false)).
Proof.
  intros [Hd [Hv _] _] Hw. unfold durable in Hd. rewrite Hw in Hd. unfold open. rewrite Hd. cbn [mbind res_bind]. by rewrite Hv.
Qed.

Lemma step_inv w w' d : step w w' -> journal_inv w d -> exists d', journal_inv w' d' /\ forward d d'.
Proof.
  intros [fault file|fault o s|s] Hi.
  - destruct file as [bytes|].
    + rewrite (open_durable fault _ d bytes Hi eq_refl). exists d. split; [|done]. destruct Hi as [Hd Hg _].
      split; [done|done|]. intros s [= <-]. split; [done|]. split; [done|by eexists].
    + exists d. split; [|done]. destruct Hi as [[= <-] Hg _]. unfold open, persist_snapshot. unfold mbind, meth_bind, pure, modify.
      destruct (encode_snapshot empty_snapshot) as [bytes|e|] eqn:He; [|by split..]. pose proof (encode_read _ _ He) as Hr.
      destruct fault; cbn; rewrite ?(good_verified _ Hg); split; try done. intros s [= <-]. split; [done|]. split; [done|by eexists].
  - destruct (apply_inv fault o s d Hi) as (d' & Hi' & Hf & _). by exists d'.
  - exists d. split; [|done]. destruct Hi as [Hd Hg _]. by split.
Qed.

Lemma init_inv : journal_inv (Down None) empty_snapshot.
Proof. split; [done|apply good_empty|done]. Qed.

Lemma run_inv w w' d : rtc step w w' -> journal_inv w d -> exists d', journal_inv w' d' /\ forward d d'.
Proof.
  intros Hr. revert d. induction Hr as [|w w1 w2 Hs _ IH]; intros d Hi; [by exists d|].
  destruct (step_inv _ _ _ Hs Hi) as (d1 & Hi1 & Hf1). destruct (IH d1 Hi1) as (d2 & Hi2 & Hf2). exists d2. split; [done|by etransitivity].
Qed.

Lemma reach_inv w : rtc step (Down None) w -> exists d, journal_inv w d.
Proof. intros Hr. destruct (run_inv _ _ _ Hr init_inv) as (d & Hi & _). by exists d. Qed.

(** ** Receipts *)

Record receipt_ok (c : candidate) (receipt : L1TransactionReceipt) (intent : BroadcastIntent) (kind : L1CallKind) : Prop := {
  ok_tx_hash : L1TransactionReceipt.tx_hash receipt <> bytes32_default;
  ok_block_hash : L1TransactionReceipt.block_hash receipt <> bytes32_default;
  ok_success : L1TransactionReceipt.success receipt = true;
  ok_chain : L1TransactionReceipt.chain_id receipt = PartialWithdrawalCandidate.chain_id c;
  ok_checkpoint_chain : L1FinalizedCheckpoint.chain_id (L1TransactionReceipt.finalized_checkpoint receipt) = PartialWithdrawalCandidate.chain_id c;
  ok_from : L1TransactionReceipt.from receipt = BroadcastIntent.caller intent;
  ok_to : L1TransactionReceipt.to receipt = PartialWithdrawalCandidate.rollup c;
  ok_start : BroadcastIntent.start_block intent <= L1TransactionReceipt.block_number receipt;
  ok_nonce : L1TransactionReceipt.transaction_nonce receipt = BroadcastIntent.caller_nonce intent;
  ok_calldata : L1TransactionReceipt.calldata_hash receipt = BroadcastIntent.calldata_hash intent;
  ok_kind : L1TransactionReceipt.call_kind receipt = kind;
}.

Lemma receipt_mismatch_spec c receipt intent kind : receipt_mismatch c receipt intent kind = false <-> receipt_ok c receipt intent kind.
Proof.
  unfold receipt_mismatch. rewrite !orb_false_iff, !negb_false_iff, !bool_decide_eq_false, !Z.eqb_eq, Z.ltb_ge. split.
  - intros H. repeat match type of H with _ /\ _ => destruct H as [H ?] end. split; first [done|by apply dec_stable].
  - intros []. split_and!; first [done|intros Hn; by apply Hn].
Qed.

(** The block of the receipt is final at the checkpoint. *)
Record final_at (receipt : L1TransactionReceipt) : Prop := {
  final_valid : L1FinalizedCheckpoint.validate (L1TransactionReceipt.finalized_checkpoint receipt) = Ok tt;
  final_hash : L1TransactionReceipt.block_hash receipt <> bytes32_default;
  final_number : L1TransactionReceipt.block_number receipt <= L1FinalizedCheckpoint.block_number (L1TransactionReceipt.finalized_checkpoint receipt);
  final_same : L1TransactionReceipt.block_number receipt = L1FinalizedCheckpoint.block_number (L1TransactionReceipt.finalized_checkpoint receipt) ->
    L1TransactionReceipt.block_hash receipt = L1FinalizedCheckpoint.block_hash (L1TransactionReceipt.finalized_checkpoint receipt);
}.

Lemma check_covered_spec receipt : check_covered receipt = Ok tt <-> final_at receipt.
Proof.
  unfold check_covered, L1FinalizedCheckpoint.covers_receipt. rewrite map_err_Ok, bind_Ok. split.
  - intros ([] & Hv & H). simplify_res. simplify_bool. split; [done|done|done|]. intros Hn. rewrite Hn, Z.eqb_refl in H. cbn [andb] in H.
    by apply bool_decide_eq_false, dec_stable in H.
  - intros [Hv Hh Hn Hs]. exists tt. split; [done|]. rewrite (bool_decide_eq_true_2 (L1TransactionReceipt.block_hash receipt <> bytes32_default)) by done.
    rewrite (proj2 (Z.ltb_ge _ (L1TransactionReceipt.block_number receipt))) by done. cbn.
    destruct (Z.eqb_spec (L1TransactionReceipt.block_number receipt) (L1FinalizedCheckpoint.block_number (L1TransactionReceipt.finalized_checkpoint receipt)))
      as [He|]; [|done]. rewrite bool_decide_eq_false_2; [done|]. intros Hne. by apply Hne, Hs.
Qed.

(** What a payout confirmation certifies. *)
Record payout_proved (c : candidate) (conf : PayoutConfirmation) (intent : BroadcastIntent) : Prop := {
  paid_intent : PartialWithdrawalCandidate.payout_broadcast c = Some intent;
  paid_before : PayoutConfirmation.credit_before conf = BroadcastIntent.credit_before intent;
  paid_final : final_at (PayoutConfirmation.receipt conf);
  paid_receipt : receipt_ok c (PayoutConfirmation.receipt conf) intent (expected_payout_kind (PartialWithdrawalCandidate.lane c));
  paid_anchor : PayoutConfirmation.finalized_anchor_observed conf = true;
  paid_nullifier : PayoutConfirmation.nullifier_used_observed conf = true;
  paid_amount : val (PayoutConfirmation.credit_after conf) =
    val (BroadcastIntent.credit_before intent) + val (Withdrawal.amount (PartialWithdrawalCandidate.withdrawal c));
}.

Lemma payout_confirmation_spec c conf : validate_payout_confirmation c conf = Ok tt <-> exists intent, payout_proved c conf intent.
Proof.
  unfold validate_payout_confirmation. split.
  - intros H. apply bind_Ok in H as (intent & Hi%ok_or_Ok & H). apply bind_Ok in H as (_ & Hb%refuse_Ok%bool_decide_eq_false%dec_stable & H).
    apply bind_Ok in H as ([] & Hf%check_covered_spec & H). apply bind_Ok in H as (_ & Hr%refuse_Ok%receipt_mismatch_spec & H).
    apply bind_Ok in H as (_ & Ho%refuse_Ok & H). simplify_bool. apply bind_Ok in H as (_ & _ & H).
    apply bind_Ok in H as (increase & Hs%U256_theorems.sub_Ok & H). apply refuse_Ok, bool_decide_eq_false, dec_stable in H as ->.
    exists intent. split; try done. rewrite <- Hb. lia.
  - intros (intent & [Hi Hb Hf Hr Ha Hn Hv]). rewrite Hi. cbn [ok_or mbind res_bind]. rewrite Hb, bool_decide_eq_false_2 by (intros Hne; by apply Hne).
    rewrite (proj2 (check_covered_spec _) Hf), (proj2 (receipt_mismatch_spec _ _ _ _) Hr), Ha, Hn. cbn [refuse ensure negb orb mbind res_bind].
    pose proof (val_bound (Withdrawal.amount (PartialWithdrawalCandidate.withdrawal c))).
    rewrite U256_theorems.ltb_val, (proj2 (Z.ltb_ge _ _)) by lia. cbn [refuse ensure negb mbind res_bind].
    destruct (U256_theorems.sub_total (E := PartialWithdrawalPayoutError) (PayoutConfirmation.credit_after conf) (BroadcastIntent.credit_before intent)) as [z Hz]; [lia|].
    rewrite Hz. apply U256_theorems.sub_Ok in Hz. cbn [mbind res_bind]. apply refuse_Ok, bool_decide_eq_false. intros Hne. apply Hne, val_inj. lia.
Qed.

(** ** The candidate of a verified snapshot *)

Lemma refuse_unless a b e u : refuse (a && negb b) e = Ok u <-> (a = true -> b = true).
Proof. rewrite refuse_Ok. destruct a, b; naive_solver. Qed.

Lemma if_some_Ok {A} (o : option A) (check : A -> res unit) : if_some o check = Ok tt <-> forall x, o = Some x -> check x = Ok tt.
Proof. unfold if_some. destruct o; naive_solver. Qed.

Lemma bind_unit (m : res unit) (k : res unit) : (_ ← m; k) = Ok tt <-> m = Ok tt /\ k = Ok tt.
Proof. rewrite bind_Ok. split; [by intros ([] & ?)|by exists tt]. Qed.

Record hashes_ok (hashes : list Bytes32) (has_intent : bool) : Prop := {
  hashes_intent : hashes <> [] -> has_intent = true;
  hashes_max : (length hashes <= MAX_REPLACEMENT_TX_HASHES)%nat;
  hashes_zero : bytes32_default ∉ hashes;
  hashes_nodup : NoDup hashes;
}.

Lemma verify_tx_hashes_spec hashes has_intent : verify_tx_hashes hashes has_intent = Ok tt <-> hashes_ok hashes has_intent.
Proof.
  unfold verify_tx_hashes. rewrite !bind_unit, refuse_unless, !refuse_Ok, Nat.ltb_ge, orb_false_iff, negb_false_iff, !bool_decide_eq_true, bool_decide_eq_false.
  split; [intros (? & ? & ? & ?); by split|by intros []].
Qed.

Record active_ok (c : candidate) (ns : list Bytes32) : Prop := {
  act_request : validate_prepare (request_of c) = Ok tt;
  act_id : candidate_id (request_of c) = Ok (PartialWithdrawalCandidate.candidate_id c);
  act_lane : PartialWithdrawalCandidate.lane c = lane_for (PartialWithdrawalCandidate.withdrawal c);
  act_paid : is_some (PartialWithdrawalCandidate.payout_confirmation c) = true -> is_some (PartialWithdrawalCandidate.payout_broadcast c) = true;
  act_payout_hashes : hashes_ok (PartialWithdrawalCandidate.payout_tx_hashes c) (is_some (PartialWithdrawalCandidate.payout_broadcast c));
  act_payout_intent i : PartialWithdrawalCandidate.payout_broadcast c = Some i ->
    BroadcastIntent.caller i <> address_default /\ BroadcastIntent.calldata_hash i <> bytes32_default;
  act_pull_after : is_some (PartialWithdrawalCandidate.pull_broadcast c) = true -> is_some (PartialWithdrawalCandidate.payout_confirmation c) = true;
  act_delegated : PartialWithdrawalCandidate.recipient_pull_delegated c = true ->
    is_some (PartialWithdrawalCandidate.payout_confirmation c) = true /\ is_some (PartialWithdrawalCandidate.pull_broadcast c) = false
    /\ is_some (PartialWithdrawalCandidate.pull_confirmation c) = false;
  act_pulled : is_some (PartialWithdrawalCandidate.pull_confirmation c) = true -> is_some (PartialWithdrawalCandidate.pull_broadcast c) = true;
  act_pull_hashes : hashes_ok (PartialWithdrawalCandidate.pull_tx_hashes c) (is_some (PartialWithdrawalCandidate.pull_broadcast c));
  act_pull_intent i : PartialWithdrawalCandidate.pull_broadcast c = Some i ->
    BroadcastIntent.caller i = Withdrawal.recipient (PartialWithdrawalCandidate.withdrawal c) /\ BroadcastIntent.calldata_hash i <> bytes32_default
    /\ val (Withdrawal.amount (PartialWithdrawalCandidate.withdrawal c)) <= val (BroadcastIntent.credit_before i);
  act_payout_receipt r : PartialWithdrawalCandidate.payout_confirmation c = Some r ->
    L1TransactionReceipt.tx_hash (PayoutConfirmation.receipt r) ∈ PartialWithdrawalCandidate.payout_tx_hashes c /\ validate_payout_confirmation c r = Ok tt;
  act_pull_receipt r : PartialWithdrawalCandidate.pull_confirmation c = Some r ->
    L1TransactionReceipt.tx_hash (PullConfirmation.receipt r) ∈ PartialWithdrawalCandidate.pull_tx_hashes c /\ validate_pull_confirmation c r = Ok tt;
  act_complete : complete c = true -> nullifier c ∈ ns;
}.

Lemma pull_intent_check (o : option PayoutConfirmation) b e : (_ ← ok_or o Snapshot; refuse b e) = Ok tt <-> is_some o = true /\ b = false.
Proof. destruct o; cbn [ok_or mbind res_bind is_some]; rewrite ?refuse_Ok; naive_solver. Qed.

Lemma pull_intent_refused i w : bool_decide (BroadcastIntent.caller i <> Withdrawal.recipient w) || bool_decide (BroadcastIntent.calldata_hash i = bytes32_default)
    || U256.ltb (BroadcastIntent.credit_before i) (Withdrawal.amount w) = false <->
  BroadcastIntent.caller i = Withdrawal.recipient w /\ BroadcastIntent.calldata_hash i <> bytes32_default /\
  val (Withdrawal.amount w) <= val (BroadcastIntent.credit_before i).
Proof.
  rewrite !orb_false_iff, !bool_decide_eq_false, U256_theorems.ltb_val, Z.ltb_ge. split; [|naive_solver]. intros [[H%dec_stable ?] ?]. by split_and!.
Qed.

Lemma verify_active_sound c ns : verify_active c ns = Ok tt -> active_ok c ns.
Proof.
  unfold verify_active. intros H. apply bind_unit in H as [Hreq%map_err_Ok H]. apply bind_Ok in H as (id & Hid%map_err_Ok & H).
  apply bind_unit in H as [Hne%refuse_Ok%orb_false_iff H]. destruct Hne as [<-%bool_decide_eq_false%dec_stable Hl%bool_decide_eq_false%dec_stable].
  apply bind_unit in H as [Hp H]. apply bind_unit in H as [Hh%verify_tx_hashes_spec H]. apply bind_unit in H as [Hi H].
  apply bind_unit in H as [Ha H]. apply bind_unit in H as [Hd%refuse_Ok H]. apply bind_unit in H as [Hq H].
  apply bind_unit in H as [Hqh%verify_tx_hashes_spec H]. apply bind_unit in H as [Hqi H]. apply bind_unit in H as [Hr H]. apply bind_unit in H as [Hqr H].
  apply bind_unit in H as [Hc H]. rewrite refuse_unless in Hp. rewrite refuse_unless in Ha. rewrite refuse_unless in Hq. rewrite refuse_unless in Hc.
  rewrite if_some_Ok in Hi. rewrite if_some_Ok in Hqi. rewrite if_some_Ok in Hr. rewrite if_some_Ok in Hqr. split; try done.
  - intros i Hx. specialize (Hi i Hx). apply refuse_Ok in Hi. by simplify_bool.
  - intros Hx. rewrite Hx in Hd. cbn [andb] in Hd. by simplify_bool.
  - intros i Hx. specialize (Hqi i Hx). apply pull_intent_check in Hqi as [_ Hqi]. by apply pull_intent_refused.
  - intros r Hx. specialize (Hr r Hx). apply bind_unit in Hr as [Hin%refuse_Ok%negb_false_iff%bool_decide_eq_true Hr%map_err_Ok]. done.
  - intros r Hx. specialize (Hqr r Hx). apply bind_unit in Hqr as [Hin%refuse_Ok%negb_false_iff%bool_decide_eq_true Hr'%map_err_Ok]. done.
  - intros Hx. by apply Hc, bool_decide_eq_true in Hx.
Qed.

Lemma verify_active_complete c ns : active_ok c ns -> verify_active c ns = Ok tt.
Proof.
  intros [Hreq Hid Hl Hp Hh Hi Ha Hd Hq Hqh Hqi Hr Hqr Hc]. unfold verify_active. apply bind_unit. split; [by apply map_err_Ok|].
  apply bind_Ok. exists (PartialWithdrawalCandidate.candidate_id c). split; [by apply map_err_Ok|].
  apply bind_unit. split; [apply refuse_Ok, orb_false_iff; split; apply bool_decide_eq_false; intros Hne; by apply Hne|].
  apply bind_unit. split; [by apply refuse_unless|]. apply bind_unit. split; [by apply verify_tx_hashes_spec|].
  apply bind_unit. split; [apply if_some_Ok; intros i Hx; apply refuse_Ok, orb_false_iff; rewrite !bool_decide_eq_false; by apply Hi|].
  apply bind_unit. split; [by apply refuse_unless|].
  apply bind_unit. split; [apply refuse_Ok; destruct (PartialWithdrawalCandidate.recipient_pull_delegated c); [|done]; by destruct Hd as (-> & -> & ->)|].
  apply bind_unit. split; [by apply refuse_unless|]. apply bind_unit. split; [by apply verify_tx_hashes_spec|].
  apply bind_unit. split; [apply if_some_Ok; intros i Hx; apply pull_intent_check; split; [apply Ha; by rewrite Hx|by apply pull_intent_refused, Hqi]|].
  apply bind_unit. split; [apply if_some_Ok; intros r Hx; destruct (Hr r Hx) as [Hin Hv]; rewrite bool_decide_eq_true_2, Hv by done; done|].
  apply bind_unit. split; [apply if_some_Ok; intros r Hx; destruct (Hqr r Hx) as [Hin Hv]; rewrite bool_decide_eq_true_2, Hv by done; done|].
  apply bind_unit. split; [apply refuse_unless; rewrite bool_decide_eq_true; done|]. apply refuse_unless. intros Hx. by apply Ha, Hq.
Qed.

(** ** Completing a payout *)

#[local] Arguments validate_payout_confirmation : simpl never.
#[local] Arguments validate_pull_confirmation : simpl never.

Lemma push_Ok hashes h : h <> bytes32_default -> hashes_ok hashes true -> h ∈ hashes \/ (length hashes < MAX_REPLACEMENT_TX_HASHES)%nat ->
  exists hashes', push_tx_hash hashes h = Ok hashes' /\ h ∈ hashes' /\ hashes_ok hashes' true.
Proof.
  intros Hh [_ Hm Hz Hn] Hroom. unfold push_tx_hash. rewrite (bool_decide_eq_false_2 (h = bytes32_default)) by done. cbn [refuse ensure negb mbind res_bind].
  destruct (decide (h ∈ hashes)) as [Hin|Hin]; [rewrite (bool_decide_eq_true_2 (h ∈ hashes)) by done; by exists hashes|].
  rewrite (bool_decide_eq_false_2 (h ∈ hashes)) by done. destruct Hroom as [|Hlt]; [done|]. rewrite (proj2 (Nat.leb_gt _ _)) by done.
  exists (hashes ++ [h]). split; [done|]. split; [apply elem_of_app; right; by left|]. split; [done| | |].
  - rewrite length_app. cbn. lia.
  - rewrite elem_of_app, list_elem_of_singleton. naive_solver.
  - apply list.NoDup_app. split; [done|]. split; [|apply NoDup_singleton]. by intros x Hx ->%list_elem_of_singleton.
Qed.

(** The candidate is still to be confirmed: its pull has not begun. *)
Lemma unpaid_pull c ns : active_ok c ns -> PartialWithdrawalCandidate.payout_confirmation c = None ->
  PartialWithdrawalCandidate.pull_broadcast c = None /\ PartialWithdrawalCandidate.pull_confirmation c = None /\ PartialWithdrawalCandidate.recipient_pull_delegated c = false.
Proof.
  intros [_ _ _ _ _ _ Ha Hd Hq _ _ _ _ _] Hn. rewrite Hn in Ha, Hd. cbn [is_some] in Ha, Hd.
  destruct (PartialWithdrawalCandidate.pull_broadcast c); [by specialize (Ha eq_refl)|]. destruct (PartialWithdrawalCandidate.pull_confirmation c); [by specialize (Hq eq_refl)|].
  destruct (PartialWithdrawalCandidate.recipient_pull_delegated c); [|done]. by destruct (Hd eq_refl).
Qed.

Lemma confirmed_ok c ns conf intent hashes : active_ok c ns -> PartialWithdrawalCandidate.payout_confirmation c = None ->
  payout_proved c conf intent -> L1TransactionReceipt.tx_hash (PayoutConfirmation.receipt conf) ∈ hashes -> hashes_ok hashes true ->
  active_ok (PartialWithdrawalCandidate.with_payout c (Some intent) hashes (Some conf)) ns.
Proof.
  intros Hok Hn Hp Hin Hh. destruct (unpaid_pull c ns Hok Hn) as (Hqb & Hqc & Hqd). pose proof (paid_intent _ _ _ Hp) as Hi.
  destruct Hok as [Hreq Hid Hl _ _ Hpi _ _ _ Hqh _ _ _ _]. split; try done; cbn; rewrite ?Hqb, ?Hqc, ?Hqd; try done.
  - intros i [= <-]. by apply Hpi.
  - intros r [= <-]. split; [done|]. apply payout_confirmation_spec. exists intent. by destruct Hp as [? ? ? [] ? ? ?].
Qed.

Lemma delegated_ok c ns ns' conf : active_ok c ns -> PartialWithdrawalCandidate.payout_confirmation c = Some conf ->
  PartialWithdrawalCandidate.pull_broadcast c = None -> PartialWithdrawalCandidate.pull_confirmation c = None -> nullifier c ∈ ns' ->
  active_ok (PartialWithdrawalCandidate.with_pull c true None (PartialWithdrawalCandidate.pull_tx_hashes c) None) ns'.
Proof.
  intros [Hreq Hid Hl Hp Hh Hpi _ _ _ Hqh _ Hr _ _] Hc Hb Hq Hn. rewrite Hb in Hqh. split; try done; cbn; rewrite ?Hc; done.
Qed.

(** The snapshot fits the file format. *)
Definition encodable (d : snapshot) : Prop :=
  exists payload, snapshot_to_vec d = Some payload /\ Z.of_nat (length payload) + Z.of_nat HEADER_BYTES <= MAX_SNAPSHOT_BYTES.

Lemma encode_Ok d : encodable d -> exists bytes, encode_snapshot d = Ok bytes.
Proof.
  intros (payload & Hp & Hl). unfold encode_snapshot. rewrite Hp. cbn [ok_or mbind res_bind]. rewrite (proj2 (refuse_Ok _ _ tt)) by (by apply Z.ltb_ge). by eexists.
Qed.

Lemma write_Ok s d c : verify_disk d = Ok tt -> encodable d -> exists bytes, read_snapshot bytes = Ok d /\ write NoFault s d c = (mk (Some bytes) d (poisoned s), Ok c).
Proof. intros Hv (bytes & He)%encode_Ok. exists bytes. split; [by apply encode_read|]. unfold write. by rewrite Hv, He. Qed.

(** The hashes with another one recorded. *)
Definition recorded (hashes : list Bytes32) (h : Bytes32) : list Bytes32 := if bool_decide (h ∈ hashes) then hashes else hashes ++ [h].

Lemma push_recorded hashes h : h <> bytes32_default -> h ∈ hashes \/ (length hashes < MAX_REPLACEMENT_TX_HASHES)%nat -> push_tx_hash hashes h = Ok (recorded hashes h).
Proof.
  intros Hh Hroom. unfold push_tx_hash, recorded. rewrite (bool_decide_eq_false_2 (h = bytes32_default)) by done. cbn [refuse ensure negb mbind res_bind].
  destruct (bool_decide_reflect (h ∈ hashes)); [done|]. destruct Hroom; [done|]. by rewrite (proj2 (Nat.leb_gt _ _)).
Qed.

(** The candidate after its receipt, and after the recipient was left to pull. *)
Definition confirmed (c : candidate) (intent : BroadcastIntent) (conf : PayoutConfirmation) : candidate :=
  PartialWithdrawalCandidate.with_payout c (Some intent)
    (recorded (PartialWithdrawalCandidate.payout_tx_hashes c) (L1TransactionReceipt.tx_hash (PayoutConfirmation.receipt conf))) (Some conf).

Definition delegated (c : candidate) : candidate :=
  PartialWithdrawalCandidate.with_pull c true None (PartialWithdrawalCandidate.pull_tx_hashes c) None.

Section finish.
Context (d : snapshot) (c : candidate) (intent : BroadcastIntent) (conf : PayoutConfirmation).
Context (Hgood : good d) (Hactive : current d = Some c) (Hunpaid : PartialWithdrawalCandidate.payout_confirmation c = None) (Hproved : payout_proved c conf intent).
Context (Hroom : L1TransactionReceipt.tx_hash (PayoutConfirmation.receipt conf) ∈ PartialWithdrawalCandidate.payout_tx_hashes c \/
  (length (PartialWithdrawalCandidate.payout_tx_hashes c) < MAX_REPLACEMENT_TX_HASHES)%nat).

#[local] Notation c1 := (confirmed c intent conf).
#[local] Notation id := (PartialWithdrawalCandidate.candidate_id c).

Lemma active_good : active_ok c (completed d).
Proof using Hactive Hgood. destruct Hgood as [Hv _]. apply verify_disk_spec in Hv as (_ & _ & Hv). by apply verify_active_sound, Hv. Qed.

Lemma confirm_plan : plan (ConfirmPayout id conf) d = Ok (Some (changed d c1), c1).
Proof using Hactive Hunpaid Hproved Hroom.
  unfold plan, plan_update. rewrite Hactive. cbn [ok_or mbind res_bind]. rewrite bool_decide_eq_false_2 by (intros Hne; by apply Hne). cbn [refuse ensure negb mbind res_bind].
  unfold update_payout_confirmation. rewrite (proj2 (payout_confirmation_spec c conf)) by (by exists intent). cbn [mbind res_bind]. rewrite Hunpaid.
  rewrite push_recorded; [|apply Hproved|done]. cbn [mbind res_bind]. by rewrite (paid_intent _ _ _ Hproved).
Qed.

Lemma confirmed_incomplete : complete c1 = false.
Proof using Hactive Hgood Hunpaid.
  destruct (unpaid_pull c _ active_good Hunpaid) as (_ & Hq & Hd). unfold PartialWithdrawalCandidate.is_complete. cbn. by rewrite Hq, Hd.
Qed.

Lemma confirmed_active : active_ok c1 (completed d).
Proof using Hactive Hgood Hunpaid Hproved Hroom.
  pose proof active_good as Hok. pose proof (act_payout_hashes _ _ Hok) as Hh. rewrite (paid_intent _ _ _ Hproved) in Hh.
  destruct (push_Ok _ (L1TransactionReceipt.tx_hash (PayoutConfirmation.receipt conf)) (ok_tx_hash _ _ _ _ (paid_receipt _ _ _ Hproved)) Hh Hroom) as (hs & Hp & Hin & Hhs).
  rewrite push_recorded in Hp; [|apply Hproved|done]. apply Ok_inj in Hp as <-. by apply confirmed_ok.
Qed.

Lemma confirmed_verified : verify_disk (changed d c1) = Ok tt.
Proof using Hactive Hgood Hunpaid Hproved Hroom.
  destruct (proj1 (verify_disk_spec d) (good_verified d Hgood)) as (Hv & Hn & _). apply verify_disk_spec. unfold changed. rewrite confirmed_incomplete.
  split; [done|]. split; [done|]. intros c' [= <-]. apply verify_active_complete, confirmed_active.
Qed.

Lemma delegated_complete : complete (delegated c1) = true.
Proof using. done. Qed.

Lemma delegate_plan : plan (Delegate id) (changed d c1) = Ok (Some (changed (changed d c1) (delegated c1)), delegated c1).
Proof using Hactive Hgood Hunpaid.
  destruct (unpaid_pull c _ active_good Hunpaid) as (Hqb & Hqc & _). unfold plan, plan_update. cbn [changed PayoutSnapshot.active ok_or mbind res_bind].
  rewrite bool_decide_eq_false_2 by (intros Hne; by apply Hne). cbn [refuse ensure negb mbind res_bind]. unfold update_pull_delegated. cbn [confirmed
    PartialWithdrawalCandidate.with_payout PartialWithdrawalCandidate.payout_confirmation PartialWithdrawalCandidate.pull_broadcast PartialWithdrawalCandidate.pull_confirmation
    PartialWithdrawalCandidate.pull_tx_hashes is_some].
  by rewrite Hqb, Hqc.
Qed.

Lemma delegated_disk : completed (changed (changed d c1) (delegated c1)) = completed d ++ [nullifier c].
Proof using Hactive Hgood Hunpaid.
  unfold changed. rewrite confirmed_incomplete, delegated_complete. cbn [andb PayoutSnapshot.completed_nullifiers].
  change (nullifier (delegated c1)) with (nullifier c). rewrite bool_decide_eq_false_2; [done|]. apply (good_open d Hgood c Hactive).
  unfold PartialWithdrawalCandidate.is_complete. by rewrite Hunpaid.
Qed.

Lemma delegated_verified : verify_disk (changed (changed d c1) (delegated c1)) = Ok tt.
Proof using Hactive Hgood Hunpaid Hproved Hroom.
  destruct (proj1 (verify_disk_spec d) (good_verified d Hgood)) as (Hv & Hn & _). destruct (unpaid_pull c _ active_good Hunpaid) as (Hqb & Hqc & Hqd).
  apply verify_disk_spec. rewrite delegated_disk. split; [done|]. split.
  - apply list.NoDup_app. split; [done|]. split; [|apply NoDup_singleton]. intros x Hx ->%list_elem_of_singleton.
    apply (good_open d Hgood c Hactive); [|done]. unfold PartialWithdrawalCandidate.is_complete. by rewrite Hunpaid.
  - intros c' [= <-]. apply verify_active_complete. apply (delegated_ok c1 (completed d) _ conf confirmed_active); [done|done|done|].
    apply elem_of_app. right. by left.
Qed.

(** Confirming and handing over completes the payout. *)
Lemma finish_payout s : disk s = d -> poisoned s = false -> encodable (changed d c1) -> encodable (changed (changed d c1) (delegated c1)) ->
  exists s1 s2 d2, apply NoFault (ConfirmPayout id conf) s = (s1, Ok c1) /\ apply NoFault (Delegate id) s1 = (s2, Ok (delegated c1)) /\
    durable (Up s2) = Ok d2 /\ current d2 = Some (delegated c1) /\ completed d2 = completed d ++ [nullifier c].
Proof using Hactive Hgood Hunpaid Hproved Hroom PO.
  intros Hs Hp He1 He2. destruct (write_Ok s _ c1 confirmed_verified He1) as (b1 & _ & Hw1). rewrite Hp in Hw1. set (s1 := mk (Some b1) (changed d c1) false) in *.
  destruct (write_Ok s1 _ (delegated c1) delegated_verified He2) as (b2 & Hb2 & Hw2). exists s1. eexists. exists (changed (changed d c1) (delegated c1)).
  rewrite !apply_spec. unfold execute. rewrite Hs, Hp, confirm_plan. split; [done|]. cbn [s1 poisoned disk]. rewrite delegate_plan. split; [exact Hw2|].
  split; [done|]. split; [done|apply delegated_disk].
Qed.
End finish.

(** ** The budget of recorded hashes *)

Lemma full_hashes c c' ns : active_ok c' ns -> advances c c' -> length (PartialWithdrawalCandidate.payout_tx_hashes c) = MAX_REPLACEMENT_TX_HASHES ->
  PartialWithdrawalCandidate.payout_tx_hashes c' = PartialWithdrawalCandidate.payout_tx_hashes c.
Proof.
  intros Hok Ha Hl. pose proof (hashes_max _ _ (act_payout_hashes _ _ Hok)) as Hm. destruct (keeps_payout_hashes _ _ Ha) as [k Hk].
  rewrite Hk, length_app in Hm. rewrite Hk. destruct k; [by rewrite app_nil_r|]. cbn in Hm. lia.
Qed.

Lemma full_push hashes h : length hashes = MAX_REPLACEMENT_TX_HASHES -> h ∉ hashes -> h <> bytes32_default -> push_tx_hash hashes h = Err Conflict.
Proof.
  intros Hl Hh Hz. unfold push_tx_hash. rewrite (bool_decide_eq_false_2 (h = bytes32_default)), (bool_decide_eq_false_2 (h ∈ hashes)), Hl by done. reflexivity.
Qed.

Lemma full_unconfirmed c ns conf c' : active_ok c ns -> length (PartialWithdrawalCandidate.payout_tx_hashes c) = MAX_REPLACEMENT_TX_HASHES ->
  L1TransactionReceipt.tx_hash (PayoutConfirmation.receipt conf) ∉ PartialWithdrawalCandidate.payout_tx_hashes c -> update_payout_confirmation conf c <> Ok c'.
Proof.
  intros Hok Hl Hh H. unfold update_payout_confirmation in H. apply bind_Ok in H as ([] & Hv & H). apply payout_confirmation_spec in Hv as (intent & Hp).
  destruct (PartialWithdrawalCandidate.payout_confirmation c) as [r|] eqn:Hc.
  - destruct (bool_decide_reflect (r <> conf)) as [|He%dec_stable]; [done|]. subst r. by apply Hh, (act_payout_receipt _ _ Hok).
  - rewrite full_push in H; [done|done|done|]. apply Hp.
Qed.

(** An answered update was decided on the snapshot in memory. *)
Lemma update_answer fault id update s c' : snd (mutate_candidate fault id update s) = Ok c' ->
  exists c, current (disk s) = Some c /\ poisoned s = false /\ update c = Ok c'.
Proof.
  rewrite mutate_execute. destruct (poisoned s); [done|]. destruct (plan_update (disk s) id update) as [[d' c1]|e|] eqn:Hp; [|done|done].
  destruct (plan_update_spec _ _ _ _ _ Hp) as (c & Hc & _ & Hu & ->). intros H. exists c. split; [done|]. split; [done|].
  assert (c' = c1) as ->; [|done]. unfold write in H. repeat (case_match; cbn in H; try discriminate H); by injection H as <-.
Qed.
End codec.
