(* ===== verification/PayoutScenario.v ===== *)
(** * A run of the payout journal

    A codec that knows the snapshots of one run, and the run: a request is
    prepared, its broadcast is marked, hashes are recorded. *)

From S2P Require Import Prelude Limbs U63 Circuit MerkleTree LeafTrees Poseidon IndexedTree Keccak Regev BalanceState Account Ledger Balance Channel HashChains BlockStep BlockChain Withdrawal Payout PayoutProps.
Import PartialWithdrawalPayoutStore.

#[local] Notation candidate := PartialWithdrawalCandidate.
#[local] Notation store := PartialWithdrawalPayoutStore.

(** ** Data *)

Definition b32 (x : Z) (H : limbs_wfb BYTES32_LEN [0; 0; 0; 0; 0; 0; 0; x] = true) : Bytes32 := mkLimbs _ H.
Definition addr (x : Z) (H : limbs_wfb ADDRESS_LEN [0; 0; 0; 0; x] = true) : Address := mkLimbs _ H.
Definition credit (x : Z) (H : limbs_wfb U256_LEN [0; 0; 0; 0; 0; 0; 0; x] = true) : U256 := mkLimbs _ H.

Definition the_rollup : Address := addr 77 eq_refl.
Definition the_caller : Address := addr 5 eq_refl.
Definition block_root : Bytes32 := b32 40 eq_refl.
Definition proved_withdrawal : Withdrawal := Withdrawal.mk (addr 9 eq_refl) 0 (credit 30 eq_refl) (b32 60 eq_refl) (b32 61 eq_refl).
Definition the_receipt : BlockProducerReceipt := BlockProducerReceipt.mk [113] 3 (b32 41 eq_refl) 10 0 block_root bytes32_default.
Definition the_anchor : BlockProducerAnchor := BlockProducerAnchor.mk 3 (b32 41 eq_refl) 10 0 block_root bytes32_default.
Definition the_artifacts : PartialWithdrawalProofArtifacts :=
  PartialWithdrawalProofArtifacts.mk proved_withdrawal (addr 8 eq_refl) [123; 125] [123; 125] the_anchor
    (PartialWithdrawalProofMetrics.mk 1 1 1 1 1 1 1 2 None).
Definition the_request : PreparePartialWithdrawalPayout :=
  PreparePartialWithdrawalPayout.mk 1 the_rollup 2 (b32 42 eq_refl) 0 the_receipt the_artifacts.

(** The digest of every input. *)
Definition the_digest : list Z := replicate 32 7.
Definition the_id : Bytes32 := mkLimbs (n := BYTES32_LEN) (replicate 8 117901063) eq_refl.

Definition the_intent : BroadcastIntent := BroadcastIntent.mk the_caller 100 7 (b32 50 eq_refl) (credit 12 eq_refl).
Definition sent_hashes : list Bytes32 :=
  [b32 101 eq_refl; b32 102 eq_refl; b32 103 eq_refl; b32 104 eq_refl; b32 105 eq_refl; b32 106 eq_refl; b32 107 eq_refl; b32 108 eq_refl;
   b32 109 eq_refl; b32 110 eq_refl; b32 111 eq_refl; b32 112 eq_refl; b32 113 eq_refl; b32 114 eq_refl; b32 115 eq_refl; b32 116 eq_refl].

(** The candidate before its broadcast, and with the first [n] hashes. *)
Definition prepared : candidate := fresh the_id the_request.
Definition sending (n : nat) : candidate := PartialWithdrawalCandidate.with_payout prepared (Some the_intent) (take n sent_hashes) None.

(** A final receipt of the payout under a hash. *)
Definition receipt_of (tx_hash : Bytes32) : PayoutConfirmation :=
  PayoutConfirmation.mk
    (L1TransactionReceipt.mk tx_hash (b32 70 eq_refl) 120 1 the_caller the_rollup true WithdrawNative (b32 50 eq_refl) 7
       (L1FinalizedCheckpoint.mk 1 130 (b32 71 eq_refl) (b32 72 eq_refl) RpcFinalized))
    true true (credit 12 eq_refl) (credit 42 eq_refl).

Definition first_receipt : PayoutConfirmation := receipt_of (b32 101 eq_refl).
Definition late_receipt : PayoutConfirmation := receipt_of (b32 117 eq_refl).

Definition snapshot_of (c : candidate) : PayoutSnapshot := PayoutSnapshot.mk PARTIAL_WITHDRAWAL_PAYOUT_VERSION (Some c) [].
Definition paid_snapshot : PayoutSnapshot := changed (snapshot_of (sending 1)) (confirmed (sending 1) the_intent first_receipt).
Definition final_snapshot : PayoutSnapshot := changed paid_snapshot (delegated (confirmed (sending 1) the_intent first_receipt)).

(** ** The codec *)

Definition snapshots : list PayoutSnapshot :=
  [empty_snapshot; snapshot_of prepared; paid_snapshot; final_snapshot] ++ ((fun n => snapshot_of (sending n)) <$> seq 0 17).

(** Where a snapshot can be in the list. *)
Definition place (d : PayoutSnapshot) : nat :=
  match PayoutSnapshot.active d with
  | None => 0
  | Some c =>
      if negb (is_some (PartialWithdrawalCandidate.payout_broadcast c)) then 1
      else if negb (is_some (PartialWithdrawalCandidate.payout_confirmation c)) then 4 + length (PartialWithdrawalCandidate.payout_tx_hashes c)
      else if PartialWithdrawalCandidate.recipient_pull_delegated c then 3 else 2
  end.

Definition index_of (d : PayoutSnapshot) : option nat := if bool_decide (snapshots !! place d = Some d) then Some (place d) else None.

#[global] Instance run_codec : PayoutCodec := {
  payout_from_str _ := Some (PayoutJson.mk [PayoutJson.mk_withdrawal (addr 9 eq_refl) 0 (credit 30 eq_refl) (b32 60 eq_refl) (b32 61 eq_refl)]
    (addr 8 eq_refl) 10 block_root);
  value_is_object _ := Some true;
  identity_to_vec _ := Some [];
  snapshot_to_vec d := (fun i => [Z.of_nat i]) <$> index_of d;
  snapshot_from_slice bytes := match bytes with [i] => snapshots !! Z.to_nat i | _ => None end;
  keccak_bytes _ := the_digest;
}.

#[global] Instance run_codec_ok : PayoutCodecOk run_codec.
Proof.
  split; [|done]. intros d bytes H. change ((fun i => [Z.of_nat i]) <$> index_of d = Some bytes) in H. destruct (index_of d) as [i|] eqn:Hi; [|done]. injection H as <-.
  change (snapshots !! Z.to_nat (Z.of_nat i) = Some d). rewrite Nat2Z.id.
  unfold index_of in Hi. destruct (bool_decide_reflect (snapshots !! place d = Some d)) as [Hp|]; [|done]. by injection Hi as <-.
Qed.

(** ** The run *)

Definition file_with (d : PayoutSnapshot) : list Z := match encode_snapshot d with Ok bytes => bytes | _ => [] end.
Definition at_snapshot (d : PayoutSnapshot) : store := mk (Some (file_with d)) d false.

Lemma reach_empty : rtc step (Down None) (Up (at_snapshot empty_snapshot)).
Proof. apply rtc_once. change (Up (at_snapshot empty_snapshot)) with (match open NoFault None with (_, Ok s) => Up s | (file', _) => Down file' end). apply step_open. Qed.

Lemma step_answer o s s' r : apply NoFault o s = (s', r) -> step (Up s) (Up s').
Proof. intros H. replace s' with (fst (apply NoFault o s)) by (by rewrite H). apply step_apply. Qed.

Lemma prepare_run : apply NoFault (Prepare the_request) (at_snapshot empty_snapshot) = (at_snapshot (snapshot_of prepared), Ok prepared).
Proof. vm_compute. reflexivity. Qed.

Lemma mark_run : apply NoFault (MarkPayout the_id the_intent) (at_snapshot (snapshot_of prepared)) = (at_snapshot (snapshot_of (sending 0)), Ok (sending 0)).
Proof. vm_compute. reflexivity. Qed.

Lemma record_run :
  Forall (fun n => (fun h => apply NoFault (RecordPayout the_id h) (at_snapshot (snapshot_of (sending n)))) <$> sent_hashes !! n
    = Some (at_snapshot (snapshot_of (sending (S n))), Ok (sending (S n)))) (seq 0 16).
Proof. cbn [seq]. repeat (apply list.Forall_cons; split; [vm_compute; reflexivity|]). apply list.Forall_nil. by constructor. Qed.

Lemma reach_prepared : rtc step (Down None) (Up (at_snapshot (snapshot_of prepared))).
Proof. eapply rtc_r; [apply reach_empty|]. eapply step_answer, prepare_run. Qed.

Lemma reach_sending n : (n <= 16)%nat -> rtc step (Up (at_snapshot (snapshot_of prepared))) (Up (at_snapshot (snapshot_of (sending n)))).
Proof.
  induction n as [|n IH]; intros Hn; [apply rtc_once; eapply step_answer, mark_run|]. eapply rtc_r; [apply IH; lia|].
  pose proof record_run as H. rewrite list.Forall_forall in H. specialize (H n). rewrite elem_of_seq in H. specialize (H ltac:(lia)).
  destruct (sent_hashes !! n) as [h|]; [|done]. apply (inj Some) in H. exact (step_answer _ _ _ _ H).
Qed.

Lemma reach_sent n : (n <= 16)%nat -> rtc step (Down None) (Up (at_snapshot (snapshot_of (sending n)))).
Proof. intros Hn. etransitivity; [apply reach_prepared|by apply reach_sending]. Qed.

Lemma receipt_proves n tx_hash : tx_hash <> bytes32_default -> payout_proved (sending n) (receipt_of tx_hash) the_intent.
Proof. intros Hh. by split; try done; split. Qed.
