(* ===== verification/WithdrawalBacking.v ===== *)
(** * Withdrawals against the account

    An accepted withdrawal pays out a transfer of a transaction that the
    account has spent ([withdrawal_backed]).  Withdrawals with different
    nullifiers pay out different transfers, so what is withdrawn is at most
    what was spent ([withdrawn_le_spent]). *)

From S2P Require Import Prelude Limbs U63 Circuit MerkleTree LeafTrees Poseidon IndexedTree Keccak Regev BalanceState Account AccountProps Ledger LedgerProps Balance BalanceProps BalanceCodec Channel HashChains BlockStep BlockChain Withdrawal HashChainProps BlockStepProps BlockChainProps ChainCodec WithdrawalProps.

#[local] Remove Hints Leafable_Bytes32 : typeclass_instances.
Import SingleWithdawalWitness.

(** ** The transfers of a run *)

Section transfers.
Context {P : Poseidon}.

Definition transfers_of (ev : account_event) : list Transfer :=
  match ev with Spent ts _ => ts | Received _ _ _ => [] end.

Definition of_token (token : Z) (t : Transfer) : Z :=
  if Transfer.token_index t =? token then val (Transfer.amount t) else 0.

(** What a run spends and receives of one token. *)
Definition total_spent (token : Z) (evs : list account_event) : Z :=
  zsum (fun ev => outflow (transfers_of ev) token) evs.

Definition total_received (token : Z) (evs : list account_event) : Z :=
  zsum (fun ev => match ev with Received t amount _ => if t =? token then val amount else 0 | Spent _ _ => 0 end) evs.

Lemma total_flow_split token evs : total_flow token evs = total_received token evs - total_spent token evs.
Proof.
  unfold total_flow, total_received, total_spent, zsum. induction evs as [|ev evs IH]; [done|]. cbn [foldr].
  rewrite IH. destruct ev; cbn [asset_flow transfers_of outflow]; lia.
Qed.

Lemma outflow_zsum ts token : outflow ts token = zsum (of_token token) ts.
Proof. induction ts as [|t ts IH]; [done|]. cbn [outflow zsum foldr]. rewrite IH. done. Qed.

(** The transfers of a run with their position: the event and the index in its batch. *)
Definition placed (evs : list account_event) : list (nat * nat * Transfer) :=
  concat (imap (fun k ev => imap (fun i t => (k, i, t)) (transfers_of ev)) evs).

Lemma elem_of_placed evs k i t : (k, i, t) ∈ placed evs <-> exists ev, evs !! k = Some ev /\ transfers_of ev !! i = Some t.
Proof.
  unfold placed. rewrite list_elem_of_In, in_concat. split.
  - intros (l & Hl & Hx). apply list_elem_of_In in Hl, Hx. apply list_elem_of_lookup in Hl as [k' Hl], Hx as [i' Hx].
    rewrite list_lookup_imap in Hl. destruct (evs !! k') as [ev|] eqn:Hev; [|done]. injection Hl as <-.
    rewrite list_lookup_imap in Hx. destruct (transfers_of ev !! i') eqn:Ht; [|done]. injection Hx as -> -> ->. by exists ev.
  - intros (ev & Hev & Ht). exists (imap (fun i t => (k, i, t)) (transfers_of ev)). rewrite <- !list_elem_of_In. split.
    + apply list_elem_of_lookup. exists k. by rewrite list_lookup_imap, Hev.
    + apply list_elem_of_lookup. exists i. by rewrite list_lookup_imap, Ht.
Qed.

Lemma zsum_placed token evs : zsum (fun x => of_token token x.2) (placed evs) = total_spent token evs.
Proof.
  unfold placed, total_spent.
  assert (forall ls, zsum (fun x : nat * nat * Transfer => of_token token x.2) (concat ls)
    = zsum (zsum (fun x => of_token token x.2)) ls) as Hc.
  { induction ls as [|l ls IH]; [done|]. cbn [concat]. rewrite zsum_app, IH. done. }
  rewrite Hc. apply zsum_imap. intros k ev. rewrite outflow_zsum. by apply zsum_imap.
Qed.

Lemma of_token_nonneg token t : 0 <= of_token token t.
Proof. unfold of_token. pose proof (val_bound (Transfer.amount t)). destruct (_ =? _); lia. Qed.

(** ** What a state has sent *)

Context {PC : PoseidonCollisionFree P}.

(** Every transaction in the sent tree is one of the run, and commits to its transfers. *)
Lemma account_run_sent s evs s' : account_run s evs s' -> forall l, commits s l ->
  exists l', commits s' l' /\ forall n x, sent l' !! n = Some x -> sent l !! n = Some x \/
    exists ts, Spent ts x ∈ evs /\ Tx.transfer_tree_root x = subtree (list_leaves ts) TRANSFER_TREE_HEIGHT 0.
Proof.
  induction 1 as [s|s ev s1 evs s' Hstep _ IH]; intros l Hc; [exists l; auto|].
  assert (exists l1, commits s1 l1 /\ forall n x, sent l1 !! n = Some x -> sent l !! n = Some x \/
    exists ts, ev = Spent ts x /\ Tx.transfer_tree_root x = subtree (list_leaves ts) TRANSFER_TREE_HEIGHT 0) as (l1 & Hc1 & Hs1).
  { destruct Hstep as [token amount nullifier s np bal ap u Ht Hws Hap Hu|w pi s1 Hs Hpi Hv Hs1].
    - pose proof (receive_refines _ _ _ _ _ _ _ _ _ Hc Ht Hws Hap Hu) as (_ & _ & _ & _ & _ & l1 & Hc1 & Hse & _).
      exists l1. split; [done|]. intros n x. rewrite Hse. auto.
    - destruct (spend_refines w pi l Hc Hs Hpi) as (l1 & Hc1 & Hnew & Hsp). rewrite Hnew in Hs1. apply commitment_inj in Hs1 as ->.
      exists l1. split; [done|]. intros n x. rewrite (sp_sent _ _ _ _ Hsp). intros [[_ <-]|[_ Hx]]%lookup_insert_Some; [right|by left].
      exists (SpendWitness.transfers w). split; [done|]. by rewrite (sp_tx _ _ _ _ Hsp). }
  destruct (IH l1 Hc1) as (l' & Hc' & Hs'). exists l'. split; [done|]. intros n x Hx.
  destruct (Hs' n x Hx) as [Hx1|(ts & Hin & Hroot)]; [|right; exists ts; split; [by right|done]].
  destruct (Hs1 n x Hx1) as [?|(ts & -> & Hroot)]; [by left|]. right. exists ts. split; [by left|done].
Qed.

End transfers.

(** ** Backed withdrawals *)

Section backed.
Context {P : Poseidon} {PC : PoseidonCollisionFree P} {W : PoseidonWords P} {PE : PoseidonElements P W} {NZ : PoseidonNonzero P W}.
Context {K : Keccak} {BP : BalanceProofs} {PL : Plonky2} {WP : WithdrawalProvers}.

Lemma zero_elements : phash_default = phash_from_elements (PoseidonWords := W) [0; 0; 0; 0].
Proof.
  apply (inj phash_to_u64_vec). rewrite default_elements, elements_to_from; [done|done|].
  repeat constructor; unfold GOLDILOCKS_ORDER; lia.
Qed.

(** A default transfer has no address to pay. *)
Lemma default_no_address : extract_address_from_recipient (Transfer.recipient Transfer.default) = Err InvalidRecipient.
Proof. vm_compute. reflexivity. Qed.

(** The balance proof of the withdrawal exposes the state [s] of the account of channel [c]. *)
Definition of_account (c : ChannelId) (s : PrivateState) (w : SingleWithdawalWitness) : Prop :=
  forall bp, proves (balance_proof w) bp ->
    BalancePublicInputs.channel_id bp = c /\ BalancePublicInputs.private_commitment bp = PrivateState.commitment s.

Lemma withdrawal_backed s0 evs s c w d :
  account_run s0 evs s -> commits s0 genesis_ledger -> single_shaped w -> of_account c s w ->
  (exists bp, single_facts w bp d) ->
  exists k ts t, evs !! k = Some (Spent ts (tx w)) /\
    ts !! Z.to_nat (TransferWitness.transfer_index (transfer_witness w)) = Some t /\
    t = TransferWitness.transfer (transfer_witness w) /\
    Withdrawal.token_index d = Transfer.token_index t /\ Withdrawal.amount d = Transfer.amount t /\
    SettledTransfer.nullifier (E := unit) (SettledTransfer.mk t c (TransferWitness.transfer_index (transfer_witness w))
      (Tx.nonce (tx w))) = Ok (Withdrawal.nullifier d).
Proof.
  intros Hrun Hg Hsh Hacc [bp Hf]. destruct (Hacc bp (wf_balance _ _ _ Hf)) as [Hc Hcom].
  rewrite (wf_commitment _ _ _ Hf) in Hcom. apply commitment_inj in Hcom.
  destruct (account_run_sent _ _ _ Hrun _ Hg) as (l & Hl & Hsent).
  pose proof (wf_sent _ _ _ Hf) as Hs. rewrite Hcom, (co_sent _ _ Hl) in Hs. unfold sent_root in Hs. rewrite <- (wh_sent _ Hsh) in Hs.
  apply (proof_verify_sound (I2 := poseidon_two_to_one_inj)) in Hs as (Hleaf & _); [|apply in_width_32_64, (wh_nonce _ Hsh)].
  unfold Sparse.map_leaves in Hleaf. apply (inj leaf_hash) in Hleaf.
  destruct (sent l !! Tx.nonce (tx w)) as [x|] eqn:Hx; cbn in Hleaf.
  2: { exfalso. pose proof (wf_transfer _ _ _ Hf) as Ht. rewrite <- Hleaf in Ht. cbn [empty_leaf Tx.default Tx.transfer_tree_root Leafable_Tx] in Ht.
    rewrite zero_elements in Ht. apply (verified_root_nonzero (V := Transfer)) in Ht; [done|by eexists]. }
  subst x. destruct (Hsent _ _ Hx) as [Hge|(ts & Hin & Hroot)]; [done|].
  apply list_elem_of_lookup in Hin as [k Hk]. pose proof (wf_transfer _ _ _ Hf) as Ht.
  eapply list_proof_leaf in Ht as [_ Ht]; [|exact Hroot|apply (wh_transfer _ Hsh)|apply in_width_32_64, (wh_index _ Hsh)].
  destruct (ts !! _) as [t|] eqn:Hts; cbn in Ht.
  2: { exfalso. pose proof (wf_recipient _ _ _ Hf) as Hr. rewrite Ht in Hr. by rewrite default_no_address in Hr. }
  subst t. exists k, ts, (TransferWitness.transfer (transfer_witness w)). pose proof (wf_nullifier _ _ _ Hf) as Hn. rewrite Hc in Hn.
  destruct (wf_fields _ _ _ Hf) as (? & ? & _). by split_and!.
Qed.

(** ** Sums of withdrawals *)

Definition withdrawn (token : Z) (ds : list Withdrawal) : Z :=
  zsum (fun d => if Withdrawal.token_index d =? token then val (Withdrawal.amount d) else 0) ds.

(** A withdrawal from the account at some time of its run. *)
Definition from_account (c : ChannelId) (s0 : PrivateState) (evs : list account_event)
    (e : SingleWithdawalWitness * Withdrawal) : Prop :=
  single_shaped e.1 /\
  (exists pis, single_to_public_inputs e.1 = Ok pis /\ SingleWithdawalPublicInputs.withdrawal pis = e.2) /\
  exists evs1 s1, evs1 `prefix_of` evs /\ account_run s0 evs1 s1 /\ of_account c s1 e.1.

(** The transfer a withdrawal pays out. *)
Definition pays_out (c : ChannelId) (evs : list account_event) (e : SingleWithdawalWitness * Withdrawal)
    (x : nat * nat * Transfer) : Prop :=
  exists ts i, evs !! x.1.1 = Some (Spent ts (tx e.1)) /\ ts !! x.1.2 = Some x.2 /\ x.1.2 = Z.to_nat i /\ 0 <= i /\
    Withdrawal.token_index e.2 = Transfer.token_index x.2 /\ Withdrawal.amount e.2 = Transfer.amount x.2 /\
    SettledTransfer.nullifier (E := unit) (SettledTransfer.mk x.2 c i (Tx.nonce (tx e.1))) = Ok (Withdrawal.nullifier e.2).

Lemma from_account_pays c s0 evs e : commits s0 genesis_ledger -> from_account c s0 evs e -> exists x, pays_out c evs e x.
Proof.
  intros Hg (Hsh & (pis & Hpis & Hd) & evs1 & s1 & [rest ->] & Hrun & Hacc). destruct (single_inv _ _ Hpis) as [_ Hf]. rewrite Hd in Hf.
  destruct (withdrawal_backed _ _ _ _ _ _ Hrun Hg Hsh Hacc Hf) as (k & ts & t & Hk & Ht & _ & Htok & Ham & Hn).
  exists (k, Z.to_nat (TransferWitness.transfer_index (transfer_witness e.1)), t).
  exists ts, (TransferWitness.transfer_index (transfer_witness e.1)). pose proof (wh_index _ Hsh) as Hi. unfold in_width in Hi.
  split_and!; try done; [by apply lookup_app_l_Some|lia].
Qed.

Lemma pays_out_nullifier c evs e e' x : pays_out c evs e x -> pays_out c evs e' x -> Withdrawal.nullifier e.2 = Withdrawal.nullifier e'.2.
Proof.
  intros (ts & i & H1 & _ & Hi & Hi0 & _ & _ & Hn) (ts' & i' & H1' & _ & Hi' & Hi0' & _ & _ & Hn').
  rewrite H1 in H1'. injection H1' as <- Htx. replace i' with i in Hn' by lia. rewrite <- Htx, Hn in Hn'. by injection Hn'.
Qed.

Lemma pays_out_placed c evs e x : pays_out c evs e x -> x ∈ placed evs.
Proof.
  destruct x as [[k i] t]. intros (ts & j & H1 & H2 & _). apply elem_of_placed. by exists (Spent ts (tx e.1)).
Qed.

Lemma withdrawn_le_spent c s0 evs ws token :
  commits s0 genesis_ledger -> Forall (from_account c s0 evs) ws -> NoDup (Withdrawal.nullifier <$> ws.*2) ->
  withdrawn token ws.*2 <= total_spent token evs.
Proof.
  intros Hg Hall Hnd.
  assert (exists xs, Forall2 (pays_out c evs) ws xs) as [xs Hxs].
  { apply Forall_exists_Forall2_l. eapply Forall_impl; [|exact Hall]. intros e He. by eapply from_account_pays. }
  rewrite <- zsum_placed. transitivity (zsum (fun x : nat * nat * Transfer => of_token token x.2) xs).
  - apply Z.eq_le_incl. unfold withdrawn. apply zsum_Forall2. apply Forall2_fmap_l. eapply Forall2_impl; [|exact Hxs].
    intros e x (ts & i & _ & _ & _ & _ & Ht & Ha & _). unfold of_token. cbn. by rewrite Ht, Ha.
  - apply zsum_sub; [intros; apply of_token_nonneg| |].
    + apply NoDup_alt. intros a b x Ha Hb. destruct (Forall2_lookup_r _ _ _ _ _ Hxs Ha) as (e & He & Hpe).
      destruct (Forall2_lookup_r _ _ _ _ _ Hxs Hb) as (e' & He' & Hpe').
      apply (proj1 (NoDup_alt _) Hnd a b (Withdrawal.nullifier e.2)).
      * by rewrite <- list_fmap_compose, list_lookup_fmap, He.
      * rewrite <- list_fmap_compose, list_lookup_fmap, He'. cbn. f_equal. by eapply pays_out_nullifier.
    + intros x Hx. apply list_elem_of_lookup in Hx as [a Ha]. destruct (Forall2_lookup_r _ _ _ _ _ Hxs Ha) as (e & _ & Hpe).
      by eapply pays_out_placed.
Qed.

End backed.
