(* ===== verification/ValidityProgress.v ===== *)
(** * Honest blocks are not refused

    The witness of a block read off a history, and the proof that no check of
    the processor refuses it: the deposits and registrations one after the
    other, the update of the channel tree and the block step.  The circuits may
    still fail to prove; [prover_failure] lists these outcomes, each with the
    prover that gave no proof, or made a proof that does not verify, for public
    inputs that the native code computed and that survive their encoding. *)

From S2P Require Import Prelude Limbs U63 Circuit MerkleTree LeafTrees Poseidon IndexedTree Keccak Regev BalanceState Account AccountProps Ledger LedgerProps Balance BalanceProps BalanceCodec Channel HashChains BlockStep BlockChain HashChainProps BlockStepProps BlockChainProps ChainCodec.

#[local] Remove Hints Leafable_Bytes32 : typeclass_instances.

(** ** The circuits *)

(** The verifier data of a circuit has the caps of its common data. *)
Class ChainDataOk {P : Poseidon} {PL : Plonky2} (CP : ChainProvers) : Prop := {
  deposit_vd_shaped : vd_shaped (cap_elements (vd_common deposit_chain_vd)) (vd_only deposit_chain_vd);
  channel_reg_vd_shaped : vd_shaped (cap_elements (vd_common channel_reg_chain_vd)) (vd_only channel_reg_chain_vd);
}.

(** The chain circuit has the common data that the step circuit was built for. *)
Class BlockDataOk {P : Poseidon} {PL : Plonky2} (BP : BlockProvers) : Prop := {
  block_chain_common counts : vd_common (block_chain_vd counts) = block_chain_cd;
  block_chain_vd_shaped counts : vd_shaped (cap_elements (vd_common (block_chain_vd counts))) (vd_only (block_chain_vd counts));
}.

(** What a computation may end with; it does not abort. *)
Definition ends {E A} (Q : A -> Prop) (F : E -> Prop) (r : res E A) : Prop :=
  match r with Ok x => Q x | Err e => F e | Panic => False end.

Lemma ends_impl {E A} (Q Q' : A -> Prop) (F F' : E -> Prop) r : (forall x, Q x -> Q' x) -> (forall e, F e -> F' e) -> ends Q F r -> ends Q' F' r.
Proof. destruct r; cbn; auto. Qed.

Lemma ends_Ok {E A} (Q : A -> Prop) (F : E -> Prop) r : ends (fun _ => True) F r -> (forall x, r = Ok x -> Q x) -> ends Q F r.
Proof. destruct r; cbn; auto. Qed.

Lemma ends_map_err {E E' A} (f : E -> E') (Q : A -> Prop) F r : ends Q (fun e => F (f e)) r -> ends Q F (map_err f r).
Proof. by destruct r. Qed.

Lemma ends_bind {E A B} (Q : A -> Prop) (R : B -> Prop) (F : E -> Prop) r (f : A -> res E B) :
  ends Q F r -> (forall x, r = Ok x -> Q x -> ends R F (f x)) -> ends R F (x ← r; f x).
Proof. destruct r; cbn; auto. Qed.

Lemma ends_ok_or {E A} (F : E -> Prop) (o : option A) e : (o = None -> F e) -> ends (fun x => o = Some x) F (ok_or o e).
Proof. destruct o; cbn; auto. Qed.

Lemma ends_ensure {E} (F : E -> Prop) b e : (b = false -> F e) -> ends (fun _ => b = true) F (ensure b e).
Proof. destruct b; cbn; auto. Qed.

Lemma elem_of_last {A} (l : list A) x : x ∈ l ++ [x].
Proof. apply elem_of_app. right. by apply list_elem_of_singleton. Qed.

(** A step proof, wrapped by the proof of the outer circuit. *)
Lemma ends_wrapped {E E' A B C} (f : E -> E') (r : res E A) (step : A -> option B) (outer : B -> option C) e e' x : r = Ok x ->
  ends (fun q => exists p, step x = Some p /\ outer p = Some q)
    (fun err => step x = None /\ err = f e \/ exists p, step x = Some p /\ outer p = None /\ err = e')
    (p ← map_err f (y ← r; ok_or (step y) e); ok_or (outer p) e').
Proof. intros ->. cbn. destruct (step x) as [p|]; cbn; [|by left]. destruct (outer p) eqn:Ho; cbn; [eauto|right; eauto]. Qed.

(** ** Deposits *)

Section progress.
Context {P : Poseidon} {PC : PoseidonCollisionFree P} {W : PoseidonWords P} {PE : PoseidonElements P W}.
Context {PR : PoseidonReadable P W} {K : Keccak}.
Context {PL : Plonky2} {CP : ChainProvers} {CPO : ChainProversOk CP} {CDO : ChainDataOk CP}.
Import BlockHashChainProcessor.

(** The proofs that come out of the deposit processor for the deposits [ds], and how it may fail to
    make one. *)
Definition deposit_made (ds : list Deposit) (q : Proof) : Prop :=
  exists w pis p, DepositStepWitness.deposit w ∈ ds /\ deposit_step_data_prove w pis = Some p /\ deposit_chain_data_prove p = Some q.

Inductive deposit_failure (ds : list Deposit) : DepositChainProcessorError -> Prop :=
| deposit_step_stuck w pis ws : DepositStepWitness.deposit w ∈ ds -> DepositStepWitness.to_public_inputs w deposit_chain_vd = Ok pis ->
    DepositChainPublicInputs.to_u64_vec (E := unit) (cap_elements (vd_common deposit_chain_vd)) pis = Ok ws ->
    DepositChainPublicInputs.from_u64_slice ws (cap_elements (vd_common deposit_chain_vd)) = Ok pis ->
    deposit_step_data_prove w pis = None -> deposit_failure ds (DepositStepFailed DepositFailedToProve)
| deposit_chain_stuck w pis p : DepositStepWitness.deposit w ∈ ds -> deposit_step_data_prove w pis = Some p -> deposit_chain_data_prove p = None ->
    deposit_failure ds DepositChainFailed.

Lemma deposit_failure_app ds ds' e : deposit_failure ds e -> deposit_failure (ds ++ ds') e.
Proof. intros []; [eapply deposit_step_stuck|eapply deposit_chain_stuck]; eauto; apply elem_of_app; by left. Qed.

Definition deposit_proof_for (ds : list Deposit) : MerkleProof :=
  tree_proof (list_leaves ds) DEPOSIT_TREE_HEIGHT (Z.of_nat (length ds)).

Definition honest_deposits (ds0 ds : list Deposit) : list (Deposit * MerkleProof) :=
  imap (fun i d => (d, deposit_proof_for (ds0 ++ take i ds))) ds.

Lemma honest_deposits_snoc ds0 ds d :
  honest_deposits ds0 (ds ++ [d]) = honest_deposits ds0 ds ++ [(d, deposit_proof_for (ds0 ++ ds))].
Proof.
  unfold honest_deposits. rewrite imap_app. cbn [imap length]. f_equal.
  - apply imap_ext. intros i x Hx. apply lookup_lt_Some in Hx. by rewrite take_app_le by lia.
  - cbn. by rewrite Nat.add_0_r, take_app_length.
Qed.

Lemma honest_deposits_fst ds0 ds : (honest_deposits ds0 ds).*1 = ds.
Proof.
  induction ds as [|d ds IH] using rev_ind; [done|]. by rewrite honest_deposits_snoc, fmap_app, IH.
Qed.

(** The stamps the deposits of block [bn] carry. *)
Definition stamped (ds0 ds : list Deposit) (bn : BlockNumber) : Prop :=
  forall i d, ds !! i = Some d ->
    U63.as_u64 (Deposit.deposit_index d) = Z.of_nat (length ds0 + i) /\ Deposit.block_number d = bn.

(** What a proof made so far exposes, beyond [deposit_pis_for]. *)
Definition deposits_so_far (prev : ExtendedPublicState) (ds0 ds : list Deposit) (bn : BlockNumber) (p : Proof) : Prop :=
  exists pis, exposes_deposits p pis /\ deposit_pis_for (ExtendedPublicState.deposit_hash_chain prev) ds0 ds pis /\
    DepositChainPublicInputs.block_number pis = bn /\
    DepositChainPublicInputs.initial_deposit_count pis = ExtendedPublicState.deposit_count prev /\
    DepositChainPublicInputs.vd pis = vd_only deposit_chain_vd /\ deposit_made ds p.

Lemma stamped_snoc ds0 ds d bn : stamped ds0 (ds ++ [d]) bn ->
  stamped ds0 ds bn /\ U63.as_u64 (Deposit.deposit_index d) = Z.of_nat (length (ds0 ++ ds)) /\ Deposit.block_number d = bn.
Proof.
  intros H. split.
  - intros i x Hx. apply H. by apply lookup_app_l_Some.
  - rewrite length_app. apply H. rewrite lookup_app_r by lia. by rewrite Nat.sub_diag.
Qed.

(** One step, from the public inputs of the previous one. *)
Lemma deposit_step_native w chain0 ds0 ds prev :
  DepositStepWitness.previous w deposit_chain_vd = Ok prev -> deposit_pis_for chain0 ds0 ds prev ->
  exactly_one (DepositStepWitness.initial_value w) (DepositStepWitness.prev_deposit_chain_proof w) = true ->
  U63.as_u64 (Deposit.deposit_index (DepositStepWitness.deposit w)) = Z.of_nat (length (ds0 ++ ds)) ->
  DepositStepWitness.deposit_merkle_proof w = deposit_proof_for (ds0 ++ ds) ->
  DepositChainPublicInputs.vd prev = vd_only deposit_chain_vd -> Z.of_nat (length (ds0 ++ ds)) + 1 < 2 ^ 63 ->
  exists pis, DepositStepWitness.to_public_inputs w deposit_chain_vd = Ok pis /\
    DepositChainPublicInputs.block_number pis = Deposit.block_number (DepositStepWitness.deposit w) /\
    DepositChainPublicInputs.initial_deposit_count pis = DepositChainPublicInputs.initial_deposit_count prev /\
    u63_typed (DepositChainPublicInputs.deposit_count pis) /\
    DepositChainPublicInputs.vd pis = vd_only deposit_chain_vd.
Proof.
  intros Hprev [_ _ _ _ F5 F6 _] Hone Hidx Hmp Hvd Hlt. unfold DepositStepWitness.to_public_inputs. rewrite Hone, Hprev. cbn [ensure mbind res_bind].
  rewrite Hidx, F6, Z.eqb_refl. cbn [ensure mbind res_bind]. rewrite F5, Hmp. unfold deposit_root, deposit_proof_for.
  rewrite (tree_proof_verifies (V := Deposit)); [|pose proof deposit_tree_height; lia|rewrite deposit_tree_height; lia|].
  2: { unfold list_leaves. rewrite Nat2Z.id. by rewrite (proj2 (lookup_ge_None _ _)) by lia. }
  cbn [map_err mbind res_bind]. rewrite proof_get_root_eq. cbn [mbind res_bind].
  rewrite u63_succ_Ok by lia. cbn [map_err mbind res_bind]. eexists. split; [done|]. cbn. split_and!; try done; unfold u63_typed; cbn; lia.
Qed.

Lemma deposit_prove_outcome ds w pis : DepositStepWitness.deposit w ∈ ds -> DepositStepWitness.to_public_inputs w deposit_chain_vd = Ok pis -> deposit_pis_typed (cap_elements (vd_common deposit_chain_vd)) pis ->
  ends (fun q => exposes_deposits q pis /\ deposit_made ds q) (deposit_failure ds) (deposit_prove_step w).
Proof.
  intros Hin Hpis Hty. destruct (deposit_pis_roundtrip (E := unit) _ pis Hty) as (ws & Hw1 & Hw2).
  eapply ends_impl; [| |exact (ends_wrapped _ _ _ _ _ _ pis Hpis)].
  - intros q (p & Hp & Hq). split; [|by exists w, pis, p]. unfold exposes_deposits. rewrite (deposit_chain_forwards _ _ Hq). by eapply deposit_step_exposes.
  - intros e [[Hp ->]|(p & Hp & Hq & ->)]; [by eapply deposit_step_stuck|by eapply deposit_chain_stuck].
Qed.

(** The public inputs that the next step starts from. *)
Lemma deposits_previous prev ds0 ds bn po d mp :
  PublicState.deposit_tree_root (ExtendedPublicState.inner prev) = deposit_root ds0 ->
  U63.as_u64 (ExtendedPublicState.deposit_count prev) = Z.of_nat (length ds0) -> Deposit.block_number d = bn ->
  match po with None => ds = [] | Some p => deposits_so_far prev ds0 ds bn p end ->
  let w := DepositStepWitness.mk (match po with
    | None => Some (ExtendedPublicState.deposit_hash_chain prev, PublicState.deposit_tree_root (ExtendedPublicState.inner prev), ExtendedPublicState.deposit_count prev)
    | Some _ => None end) po d mp in
  exists q0, DepositStepWitness.previous w deposit_chain_vd = Ok q0 /\
    deposit_pis_for (ExtendedPublicState.deposit_hash_chain prev) ds0 ds q0 /\
    DepositChainPublicInputs.initial_deposit_count q0 = ExtendedPublicState.deposit_count prev /\
    DepositChainPublicInputs.vd q0 = vd_only deposit_chain_vd /\
    DepositChainPublicInputs.block_number q0 = Deposit.block_number d.
Proof.
  intros Hroot Hcount Hdb Hsf. unfold DepositStepWitness.previous. destruct po as [p|]; cbn.
  - destruct Hsf as (pis & Hex & Hf & Hb & Hc & Hv & _). exists pis. unfold exposes_deposits in Hex. rewrite Hex.
    cbn [map_err mbind res_bind]. rewrite ensure_decided by by rewrite Hb. by split_and!; try congruence.
  - subst ds. eexists. split; [done|]. split_and!; try done. split; cbn; rewrite ?app_nil_r; done.
Qed.

(** The deposit loop on the witness read off the history. *)
Lemma deposits_outcome prev ds0 ds bn :
  PublicState.deposit_tree_root (ExtendedPublicState.inner prev) = deposit_root ds0 ->
  U63.as_u64 (ExtendedPublicState.deposit_count prev) = Z.of_nat (length ds0) ->
  stamped ds0 ds bn -> u63_typed bn -> Z.of_nat (length (ds0 ++ ds)) < 2 ^ 63 ->
  ends (fun po => match po with None => ds = [] | Some p => deposits_so_far prev ds0 ds bn p end)
    (fun e => exists e', e = ProcessorDeposit e' /\ deposit_failure ds e') (res_foldl (prove_deposit prev) None (honest_deposits ds0 ds)).
Proof.
  intros Hroot Hcount. induction ds as [|d ds IH] using rev_ind; intros Hst Hbn Hlt; [done|].
  apply stamped_snoc in Hst as (Hst & Hidx & Hdb). rewrite (assoc_L (++)), length_app in Hlt. cbn [length] in Hlt.
  rewrite honest_deposits_snoc, res_foldl_app. eapply ends_bind.
  { eapply ends_impl; [| |apply IH; [done|done|lia]]; [intros po H; exact H|intros e (e' & -> & H); exists e'; split; [done|by apply deposit_failure_app]]. }
  clear IH. intros po _ Hsf. cbn [res_foldl].
  apply (ends_bind (fun po => match po with None => False | Some p => deposits_so_far prev ds0 (ds ++ [d]) bn p end)); [|by intros [p|] _ H].
  unfold prove_deposit. cbn [fst snd]. destruct (deposits_previous prev ds0 ds bn po d (deposit_proof_for (ds0 ++ ds)) Hroot Hcount Hdb Hsf) as (q0 & Hq0 & Hf0 & Hc0 & Hv0 & Hb0).
  set (w := DepositStepWitness.mk _ po d _) in *.
  destruct (deposit_step_native w _ ds0 ds q0 Hq0 Hf0) as (pis & Hpis & Hb & Hc & Hn & Hvd); [by destruct po|done|done|done|lia|].
  eapply ends_bind.
  - apply ends_map_err. eapply ends_impl; [|intros e H; exists e; split; [done|exact H]|eapply (deposit_prove_outcome (ds ++ [d]) w pis (elem_of_last ds d) Hpis)]; [intros q H; exact H|].
    split; [|done|by rewrite Hb; cbn; rewrite Hdb|rewrite Hvd; apply deposit_vd_shaped]. rewrite Hc, Hc0. unfold u63_typed. rewrite Hcount. rewrite length_app in Hlt. lia.
  - intros q _ [Hex Hm]. cbn [ends]. exists pis. split_and!; [done| |by rewrite Hb|by rewrite Hc|done|done].
    eapply deposit_step_append in Hpis; [exact Hpis|apply tree_proof_height|exact Hq0|done|done].
Qed.

(** ** Registrations *)

Definition channels_proof (chs : Z -> channel) (c : Z) : MerkleProof :=
  tree_proof (fun c => leaf_hash (channel_leaf (chs c))) CHANNEL_TREE_HEIGHT c.

Lemma channels_proof_verifies chs c leaf : in_width 32 c -> channel_leaf (chs c) = leaf ->
  proof_verify (channels_proof chs c) leaf c (channels_root chs) = Ok tt.
Proof.
  intros Hc <-. unfold channels_proof, channels_root, in_width in *. pose proof channel_tree_height.
  apply tree_proof_verifies; [lia|rewrite channel_tree_height; lia|done].
Qed.

Fixpoint honest_records (chs : Z -> channel) (rs : list ChannelRegRecord) : list (ChannelRegRecord * MerkleProof) :=
  match rs with
  | [] => []
  | r :: rs' => (r, channels_proof chs (ChannelRegRecord.channel_id r)) :: honest_records (register chs r) rs'
  end.

Lemma honest_records_snoc chs rs r :
  honest_records chs (rs ++ [r]) =
  honest_records chs rs ++ [(r, channels_proof (foldl register chs rs) (ChannelRegRecord.channel_id r))].
Proof. revert chs. induction rs as [|r0 rs IH]; intros chs; [done|]. cbn. by rewrite IH. Qed.

Lemma honest_records_fst chs rs : (honest_records chs rs).*1 = rs.
Proof. revert chs. induction rs as [|r0 rs IH]; intros chs; [done|]. cbn. by rewrite IH. Qed.

Lemma honest_records_shaped chs rs : Forall (fun r => in_width 32 (ChannelRegRecord.channel_id r)) rs ->
  Forall (fun e => proof_height e.2 = CHANNEL_TREE_HEIGHT /\ in_width 32 (ChannelRegRecord.channel_id e.1)) (honest_records chs rs).
Proof.
  intros H. revert chs. induction H as [|r rs Hr _ IH]; intros chs; cbn; constructor; [|apply IH].
  split; [apply tree_proof_height|done].
Qed.

(** The proofs that come out of the registration processor for the records [rs], and how it may fail
    to make one. *)
Definition registration_made (rs : list ChannelRegRecord) (q : Proof) : Prop :=
  exists w pis p, ChannelRegStepWitness.record w ∈ rs /\ channel_reg_step_data_prove w pis = Some p /\ channel_reg_chain_data_prove p = Some q.

Inductive registration_failure (rs : list ChannelRegRecord) : ChannelRegChainProcessorError -> Prop :=
| registration_step_stuck w pis ws : ChannelRegStepWitness.record w ∈ rs -> ChannelRegStepWitness.to_public_inputs w channel_reg_chain_vd = Ok pis ->
    ChannelRegChainPublicInputs.to_u64_vec (E := unit) (cap_elements (vd_common channel_reg_chain_vd)) pis = Ok ws ->
    ChannelRegChainPublicInputs.from_u64_slice ws (cap_elements (vd_common channel_reg_chain_vd)) = Ok pis ->
    channel_reg_step_data_prove w pis = None -> registration_failure rs (RegStepFailed RegFailedToProve)
| registration_chain_stuck w pis p : ChannelRegStepWitness.record w ∈ rs -> channel_reg_step_data_prove w pis = Some p -> channel_reg_chain_data_prove p = None ->
    registration_failure rs RegChainFailed.

Lemma registration_failure_app rs rs' e : registration_failure rs e -> registration_failure (rs ++ rs') e.
Proof. intros []; [eapply registration_step_stuck|eapply registration_chain_stuck]; eauto; apply elem_of_app; by left. Qed.

Definition records_so_far (prev : ExtendedPublicState) (chs : Z -> channel) (rs : list ChannelRegRecord) (bn : BlockNumber)
    (p : Proof) : Prop :=
  exists pis, exposes_registrations p pis /\
    reg_pis_for (ExtendedPublicState.channel_reg_hash_chain prev) chs rs bn pis /\
    ChannelRegChainPublicInputs.initial_channel_reg_count pis = block_number_default /\
    U63.as_u64 (ChannelRegChainPublicInputs.channel_reg_count pis) = Z.of_nat (length rs) /\
    ChannelRegChainPublicInputs.vd pis = vd_only channel_reg_chain_vd /\ registration_made rs p.

Lemma reg_step_native w chain0 chs rs prev :
  ChannelRegStepWitness.previous w channel_reg_chain_vd = Ok prev ->
  reg_pis_for chain0 chs rs (ChannelRegStepWitness.block_number w) prev ->
  exactly_one (ChannelRegStepWitness.initial_value w) (ChannelRegStepWitness.prev_channel_reg_chain_proof w) = true ->
  record_valid (ChannelRegStepWitness.record w) ->
  in_width 32 (ChannelRegRecord.channel_id (ChannelRegStepWitness.record w)) ->
  foldl register chs rs (ChannelRegRecord.channel_id (ChannelRegStepWitness.record w)) = fresh ->
  ChannelRegStepWitness.channel_merkle_proof w =
    channels_proof (foldl register chs rs) (ChannelRegRecord.channel_id (ChannelRegStepWitness.record w)) ->
  ChannelRegChainPublicInputs.initial_channel_reg_count prev = block_number_default ->
  U63.as_u64 (ChannelRegChainPublicInputs.channel_reg_count prev) = Z.of_nat (length rs) ->
  ChannelRegChainPublicInputs.vd prev = vd_only channel_reg_chain_vd ->
  Z.of_nat (length rs) + 1 < 2 ^ 63 ->
  exists pis, ChannelRegStepWitness.to_public_inputs w channel_reg_chain_vd = Ok pis /\
    ChannelRegChainPublicInputs.block_number pis = ChannelRegStepWitness.block_number w /\
    ChannelRegChainPublicInputs.initial_channel_reg_count pis = block_number_default /\
    U63.as_u64 (ChannelRegChainPublicInputs.channel_reg_count pis) = Z.of_nat (length rs) + 1 /\
    ChannelRegChainPublicInputs.vd pis = vd_only channel_reg_chain_vd.
Proof.
  intros Hprev Hfor Hone Hr Hid Hfresh Hmp Hc0 Hcount Hvd Hlt.
  unfold ChannelRegStepWitness.to_public_inputs, ChannelRegStepWitness.to_public_inputs_unchecked.
  rewrite (proj2 (record_validate_iff _) Hr), Hone, Hprev. cbn [map_err ensure mbind res_bind].
  rewrite (rp_root _ _ _ _ _ Hfor), Hmp, channels_proof_verifies by (done || by rewrite Hfresh, fresh_leaf).
  cbn [map_err mbind res_bind]. rewrite (member_root_eq _ Hr). cbn [mbind res_bind]. rewrite proof_get_root_eq. cbn [mbind res_bind].
  rewrite u63_succ_Ok by lia. cbn [map_err mbind res_bind]. eexists. split; [done|]. cbn. by rewrite Hcount.
Qed.

Lemma reg_prove_outcome rs w pis : ChannelRegStepWitness.record w ∈ rs -> ChannelRegStepWitness.to_public_inputs w channel_reg_chain_vd = Ok pis -> reg_pis_typed (cap_elements (vd_common channel_reg_chain_vd)) pis ->
  ends (fun q => exposes_registrations q pis /\ registration_made rs q) (registration_failure rs) (channel_reg_prove_step w).
Proof.
  intros Hin Hpis Hty. destruct (reg_pis_roundtrip (E := unit) _ pis Hty) as (ws & Hw1 & Hw2).
  eapply ends_impl; [| |exact (ends_wrapped _ _ _ _ _ _ pis Hpis)].
  - intros q (p & Hp & Hq). split; [|by exists w, pis, p]. unfold exposes_registrations. rewrite (channel_reg_chain_forwards _ _ Hq). by eapply channel_reg_step_exposes.
  - intros e [[Hp ->]|(p & Hp & Hq & ->)]; [by eapply registration_step_stuck|by eapply registration_chain_stuck].
Qed.

Lemma records_previous prev chs rs bn po r mp :
  PublicState.account_tree_root (ExtendedPublicState.inner prev) = channels_root chs ->
  match po with None => rs = [] | Some p => records_so_far prev chs rs bn p /\ rs <> [] end ->
  let w := ChannelRegStepWitness.mk (match po with
    | None => Some (ExtendedPublicState.channel_reg_hash_chain prev, PublicState.account_tree_root (ExtendedPublicState.inner prev), block_number_default)
    | Some _ => None end) po r mp bn in
  exists q0, ChannelRegStepWitness.previous w channel_reg_chain_vd = Ok q0 /\
    reg_pis_for (ExtendedPublicState.channel_reg_hash_chain prev) chs rs bn q0 /\
    ChannelRegChainPublicInputs.initial_channel_reg_count q0 = block_number_default /\
    U63.as_u64 (ChannelRegChainPublicInputs.channel_reg_count q0) = Z.of_nat (length rs) /\
    ChannelRegChainPublicInputs.vd q0 = vd_only channel_reg_chain_vd.
Proof.
  intros Hroot Hsf. unfold ChannelRegStepWitness.previous. destruct po as [p|]; cbn.
  - destruct Hsf as [(pis & Hex & Hf & Hc & Hn & Hv & _) _]. exists pis. unfold exposes_registrations in Hex. rewrite Hex.
    cbn [map_err mbind res_bind]. rewrite ensure_decided by apply Hf. by split_and!.
  - subst rs. eexists. split; [done|]. split_and!; try done.
Qed.

Lemma registrations_outcome prev chs n rs bn :
  PublicState.account_tree_root (ExtendedPublicState.inner prev) = channels_root chs -> channels_ok chs n ->
  registrable chs rs -> Forall (fun r => in_width 32 (ChannelRegRecord.channel_id r)) rs -> u63_typed bn ->
  Z.of_nat (length rs) < 2 ^ 63 ->
  ends (fun po => match po with None => rs = [] | Some p => records_so_far prev chs rs bn p /\ rs <> [] end)
    (fun e => exists e', e = ProcessorChannelReg e' /\ registration_failure rs e') (res_foldl (prove_registration prev bn) None (honest_records chs rs)).
Proof.
  intros Hroot Hok. induction rs as [|r rs IH] using rev_ind; intros Hrs Hids Hbn Hlt; [done|].
  apply registrable_snoc in Hrs as (Hrs & Hr & Hfresh). apply Forall_app in Hids as [Hids Hid].
  apply Forall_cons_iff in Hid as [Hid _]. rewrite length_app in Hlt. cbn [length] in Hlt.
  rewrite honest_records_snoc, res_foldl_app. eapply ends_bind.
  { eapply ends_impl; [| |apply IH; [done|done|done|lia]]; [intros po H; exact H|intros e (e' & -> & H); exists e'; split; [done|by apply registration_failure_app]]. }
  clear IH. intros po _ Hsf. cbn [res_foldl].
  apply (ends_bind (fun po => match po with None => False | Some p => records_so_far prev chs (rs ++ [r]) bn p end)).
  2: { intros [p|] _ H; [|done]. split; [exact H|]. intros Hn. by apply app_eq_nil in Hn as [_ ?]. }
  unfold prove_registration. cbn [fst snd].
  destruct (records_previous prev chs rs bn po r (channels_proof (foldl register chs rs) (ChannelRegRecord.channel_id r)) Hroot Hsf) as (q0 & Hq0 & Hf0 & Hc0 & Hn0 & Hv0).
  set (w := ChannelRegStepWitness.mk _ po r _ bn) in *.
  destruct (reg_step_native w _ chs rs q0 Hq0 Hf0) as (pis & Hpis & Hb & Hc & Hn & Hvd); [by destruct po|done|done|done|done|done|done|done|lia|].
  eapply ends_bind.
  - apply ends_map_err. eapply ends_impl; [|intros e H; exists e; split; [done|exact H]|eapply (reg_prove_outcome (rs ++ [r]) w pis (elem_of_last rs r) Hpis)]; [intros q H; exact H|].
    split; [by rewrite Hc|unfold u63_typed; rewrite Hn; lia|by rewrite Hb|rewrite Hvd; apply channel_reg_vd_shaped].
  - intros q _ [Hex Hm]. cbn [ends]. exists pis. split_and!; [done| |done| |done|done].
    + eapply (reg_step_registers _ _ chs n) in Hpis; [exact Hpis|apply tree_proof_height|done|done|exact Hq0|done].
    + rewrite Hn, length_app. cbn [length]. lia.
Qed.

(** ** The update of the channel tree *)

Import UpdateUserTree.

Lemma into_bytes32_total {E} (h : PHash) : exists b, phash_into_bytes32 (E := E) h = Ok b.
Proof.
  destruct (PoseidonHashOut_lemmas.words_into_bytes32_ok (E := E) (phash_to_u64_vec h)) as (b & Hb & _); [apply readable_length|].
  by exists b.
Qed.

Lemma block_statement_total {E} u : length (member_leaves u) = MAX_SIG_CLUSTER -> exists leaf, block_statement (E := E) u = Ok leaf.
Proof.
  intros Hl. unfold block_statement.
  assert (exists pks, res_mapM (fun leaf => phash_into_bytes32 (E := E) (MemberLeaf.pk_g leaf)) (member_leaves u) = Ok pks /\
    length pks = length (member_leaves u)) as (pks & -> & Hp).
  { clear Hl. induction (member_leaves u) as [|l ls (pks & IH & Hlen)]; [by exists []|].
    destruct (into_bytes32_total (E := E) (MemberLeaf.pk_g l)) as [b Hb]. exists (b :: pks). cbn. rewrite Hb. cbn.
    by rewrite IH, Hlen. }
  cbn [mbind res_bind]. unfold agg_pk_list_digest. rewrite (proj2 (Nat.leb_le _ _)) by lia. cbn. by eexists.
Qed.

Lemma length_all_members r : record_valid r -> length (all_member_leaves r) = MAX_SIG_CLUSTER.
Proof.
  intros Hr. pose proof (rec_count _ Hr). unfold all_member_leaves. rewrite length_app, length_fmap, length_active, length_replicate by done.
  unfold MAX_SIG_CLUSTER. lia.
Qed.

(** Padding the members with empty slots keeps their root. *)
Lemma all_members_root r : record_valid r ->
  subtree (list_leaves (Hs := PoseidonLeafableHasher) (all_member_leaves r)) MEMBER_TREE_HEIGHT 0 =
  subtree (list_leaves (Hs := PoseidonLeafableHasher) (member_leaf_of <$> active_members r)) MEMBER_TREE_HEIGHT 0.
Proof.
  intros Hr. apply subtree_ext_nonneg; [|lia]. intros j Hj. unfold list_leaves, all_member_leaves. f_equal.
  destruct (decide (Z.to_nat j < length (member_leaf_of <$> active_members r))%nat) as [Hlt|Hge].
  - by rewrite lookup_app_l by lia.
  - rewrite lookup_app_r, (proj2 (lookup_ge_None (member_leaf_of <$> active_members r) _)) by lia.
    by destruct (replicate _ _ !! _) as [l|] eqn:Hx; [apply lookup_replicate in Hx as [-> _]|].
Qed.

Lemma all_members_slots r : record_valid r ->
  res_forall (check_member_slot (Z.to_nat (ChannelRegRecord.member_count r))) (imap pair (all_member_leaves r)) = Ok tt.
Proof.
  intros Hr. apply res_forall_Ok, Forall_lookup. intros j x Hx. rewrite list_lookup_imap in Hx.
  assert (length (member_leaf_of <$> active_members r) = Z.to_nat (ChannelRegRecord.member_count r)) as Hlf
    by by rewrite length_fmap, length_active.
  destruct (all_member_leaves r !! j) as [l|] eqn:Hj; [|done].
  injection Hx as <-. apply check_member_slot_Ok. cbn. unfold all_member_leaves in Hj. split; intros Hlt.
  - rewrite lookup_app_l in Hj by lia. apply list_lookup_fmap_Some in Hj as (m' & -> & Hm'). by eapply member_leaf_nonempty.
  - rewrite lookup_app_r in Hj by lia. by apply lookup_replicate in Hj as [-> _].
Qed.

(** What a member of slot [i] needs to sign with: the key whose digest is registered. *)
Definition holds_key (u : UpdateUserTree) (r : ChannelRegRecord) (i : nat) : Prop :=
  exists m pk, active_members r !! i = Some m /\ member_regev_pks u !! i = Some pk /\
    Pk.poseidon_digest (E := UpdateUserTreeError) pk = Ok (reduce_to_hash_out (MemberRegEntry.regev_pk_digest m)).

Lemma check_n_of_n_progress u i (chs : Z -> channel) c r :
  registration (chs c) = Some r -> record_valid r -> n_of_n u r -> holds_key u r i ->
  check_n_of_n_witness u i (channel_leaf (chs c)) = Ok tt.
Proof.
  intros Hreg Hr [Hl Hc Ht] (m & pk & Hm & Hpk & Hd). pose proof (rec_count _ Hr) as Hrc. pose proof (length_active r Hr) as Hla.
  pose proof (lookup_lt_Some _ _ _ Hm) as Hi. unfold check_n_of_n_witness.
  rewrite bool_decide_eq_false_2 by done. cbn [negb ensure mbind res_bind].
  rewrite (proj2 (Nat.ltb_lt i MAX_SIG_CLUSTER)) by (unfold MAX_SIG_CLUSTER; lia). cbn [ensure mbind res_bind].
  rewrite Hc, (proj2 (Z.leb_le _ _)), (proj2 (Z.leb_le _ _)) by (unfold MAX_SIG_CLUSTER; lia). cbn [andb ensure mbind res_bind].
  rewrite Hl, all_members_slots by done. cbn [mbind res_bind]. rewrite (proj2 (Nat.ltb_lt _ _)) by lia. cbn [ensure mbind res_bind].
  pose proof (member_tree_root (E := UpdateUserTreeError) (all_member_leaves r)) as Htree.
  rewrite length_all_members in Htree by done. specialize (Htree ltac:(unfold MAX_SIG_CLUSTER; lia)).
  destruct (res_foldl Incremental.push _ (all_member_leaves r)) as [t|e|]; [|done|done]. cbn [mbind res_bind] in Htree |- *.
  rewrite Htree. cbn [mbind res_bind]. rewrite all_members_root by done. rewrite ensure_decided.
  2: { cbn [channel_leaf ChannelLeaf.member_pubkeys_root]. unfold member_list. by rewrite Hreg. }
  cbn [mbind res_bind]. rewrite Hpk. cbn [unwrap expect mbind res_bind]. rewrite Hd. cbn [mbind res_bind].
  unfold all_member_leaves. rewrite lookup_app_l by (rewrite length_fmap; lia). rewrite list_lookup_fmap, Hm.
  cbn [fmap option_fmap option_map unwrap expect mbind res_bind]. apply ensure_decided. done.
Qed.

(** The channels as slot [j] of a block finds them: the first active slot records the send. *)
Definition slot_channels (b : Block) (bn : BlockNumber) (chs : Z -> channel) (j : nat) : Z -> channel :=
  if existsb active_key (take j (Block.key_ids b))
  then <[Block.channel_id b := with_send bn (Block.tx_tree_root b) (chs (Block.channel_id b))]> chs else chs.

Lemma slot_channels_eq u chs j : slot_channels (block u) (block_number u) chs j =
  if existsb active_key (take j (Block.key_ids (block u))) then record_block u chs else chs.
Proof. done. Qed.

Definition send_proof (ch : channel) : MerkleProof :=
  tree_proof (list_leaves (sends ch)) SEND_TREE_HEIGHT (Z.of_nat (length (sends ch))).

(** The witness of a block that channel [c] signs, read off the channels. *)
Record signing_witness (u : UpdateUserTree) (chs : Z -> channel) (r : ChannelRegRecord) : Prop := {
  sw_registered : registration (chs (Block.channel_id (block u))) = Some r;
  sw_valid : record_valid r;
  sw_n_of_n : n_of_n u r;
  sw_room : Z.of_nat (length (sends (chs (Block.channel_id (block u))))) < 2 ^ 32;
  sw_slots i k : Block.key_ids (block u) !! i = Some k ->
    prev_account_leaves u !! i = Some (channel_leaf (slot_channels (block u) (block_number u) chs i (Block.channel_id (block u)))) /\
    user_merkle_proofs u !! i = Some (channels_proof (slot_channels (block u) (block_number u) chs i) (Block.channel_id (block u))) /\
    send_merkle_proofs u !! i = Some (send_proof (chs (Block.channel_id (block u))));
  sw_signs i k : Block.key_ids (block u) !! i = Some k -> active_key k = true -> holds_key u r i;
  sw_tx i k : Block.key_ids (block u) !! i = Some k -> active_key k = true -> exists tx p idx,
    tx_v2s u !! i = Some tx /\ tx_v2_merkle_proofs u !! i = Some p /\ tx_v2_indices u !! i = Some idx /\
    check_tx (Block.channel_id (block u)) (reduce_to_hash_out (Block.tx_tree_root (block u)))
      (channel_leaf (chs (Block.channel_id (block u)))) tx p idx = Ok tt /\
    check_tx_class u i (Block.channel_id (block u)) tx = Ok tt;
}.

Lemma send_proof_verifies ch : Z.of_nat (length (sends ch)) < 2 ^ 32 ->
  proof_verify (send_proof ch) (empty_leaf (V := SendLeaf)) (ChannelLeaf.index (channel_leaf ch))
    (ChannelLeaf.send_tree_root (channel_leaf ch)) = Ok tt.
Proof.
  intros Hlt. cbn [channel_leaf ChannelLeaf.index ChannelLeaf.send_tree_root]. rewrite wrap_id by (unfold in_width; lia).
  pose proof send_tree_height. apply tree_proof_verifies; [lia|rewrite send_tree_height; lia|].
  unfold list_leaves. rewrite Nat2Z.id. by rewrite (proj2 (lookup_ge_None _ _)) by lia.
Qed.

(** Writing a channel through its proof. *)
Lemma channels_proof_writes chs c ch : in_width 32 c ->
  path_root (siblings (channels_proof chs c)) c (leaf_hash (channel_leaf ch)) = channels_root (<[c := ch]> chs).
Proof.
  intros Hc. pose proof (channels_proof_verifies chs c _ Hc eq_refl) as Hv. unfold channels_root in Hv.
  assert (proof_height (channels_proof chs c) = CHANNEL_TREE_HEIGHT) as Hh by apply tree_proof_height. rewrite <- Hh in Hv.
  apply (proof_verify_sound (I2 := poseidon_two_to_one_inj)) in Hv as (_ & _ & _ & Hup); [|unfold in_width in *; lia].
  rewrite <- channels_root_insert, Hup. by rewrite Hh.
Qed.

Lemma slot_first_progress u leaf chs n r sig sig' i k :
  signing_witness u chs r -> channels_ok chs n -> 0 <= n < U63.as_u64 (block_number u) ->
  0 < Block.channel_id (block u) < 2 ^ 32 -> Block.key_ids (block u) !! i = Some k -> active_key k = true ->
  existsb active_key (take i (Block.key_ids (block u))) = false -> fold_statement sig leaf = Ok sig' ->
  update_slot u true leaf (channels_root chs, sig) (i, k) = Ok (channels_root (record_block u chs), sig').
Proof.
  intros [Hreg Hr Hnn Hroom Hsl Hsg Htx] Hok [Hn0 Hn] Hc Hi Hk Hfirst Hfold. unfold update_slot. cbn [fst snd].
  pose proof Hk as Hk'. apply negb_true_iff in Hk'. rewrite Hk'. rewrite channel_id_new_Ok by done. cbn [map_err mbind res_bind].
  destruct (Hsl i k Hi) as (-> & -> & ->). rewrite slot_channels_eq. rewrite Hfirst. cbn [unwrap expect mbind res_bind when].
  rewrite channels_proof_verifies by (done || (unfold in_width; lia)). cbn [map_err mbind res_bind].
  rewrite bool_decide_eq_false_2.
  2: { cbn. intros Hp. pose proof (last_send_le _ _ (Block.channel_id (block u)) Hok Hn0) as Hl. rewrite Hp in Hl. lia. }
  rewrite (check_n_of_n_progress u i chs _ r) by (done || by eapply Hsg). cbn [mbind res_bind].
  unfold fold_statement in Hfold. apply bind_Ok in Hfold as (pc & Hpc & Hfold). rewrite Hpc. cbn [map_err mbind res_bind].
  rewrite (phash_into_any_error _ _ Hfold). cbn [mbind res_bind].
  destruct (Htx i k Hi Hk) as (tx & p & idx & -> & -> & -> & Hct & Hcc). cbn [unwrap expect mbind res_bind]. rewrite Hct. cbn [mbind res_bind].
  rewrite Hcc. cbn [mbind res_bind]. rewrite send_proof_verifies by done. cbn [map_err mbind res_bind].
  pose proof (send_proof_verifies _ Hroom) as Hsv.
  apply (send_slot chs n _ _ _ (SendLeaf.mk (ChannelLeaf.prev (channel_leaf (chs (Block.channel_id (block u)))))
    (block_number u) (Block.tx_tree_root (block u)))) in Hsv as [_ Hsend]; [|done|apply tree_proof_height].
  rewrite proof_get_root_eq. cbn [mbind res_bind]. rewrite Hsend, proof_get_root_eq. cbn [mbind res_bind].
  unfold channel_leaf_member_root. rewrite <- with_send_leaf by done. f_equal. f_equal.
  apply channels_proof_writes. unfold in_width. lia.
Qed.

Lemma slot_after_progress u leaf chs r sig i k :
  signing_witness u chs r -> 0 < Block.channel_id (block u) < 2 ^ 32 -> Block.key_ids (block u) !! i = Some k ->
  existsb active_key (take i (Block.key_ids (block u))) = true ->
  update_slot u true leaf (channels_root (record_block u chs), sig) (i, k) = Ok (channels_root (record_block u chs), sig).
Proof.
  intros Hw Hc Hi Hb. unfold update_slot. cbn [fst snd]. destruct (k =? 0); [done|]. rewrite channel_id_new_Ok by done. cbn [map_err mbind res_bind].
  destruct (sw_slots _ _ _ Hw i k Hi) as (-> & -> & ->). rewrite slot_channels_eq. rewrite Hb. cbn [unwrap expect mbind res_bind when].
  rewrite channels_proof_verifies by (done || (unfold in_width; lia)). cbn [map_err mbind res_bind].
  rewrite bool_decide_eq_true_2; [done|]. unfold record_block. rewrite fn_lookup_insert. cbn. by rewrite last_send_snoc.
Qed.

(** The loop, slot by slot. *)
Lemma slots_progress u leaf chs n r sig sig' m :
  signing_witness u chs r -> channels_ok chs n -> 0 <= n < U63.as_u64 (block_number u) ->
  0 < Block.channel_id (block u) < 2 ^ 32 -> fold_statement sig leaf = Ok sig' ->
  (m <= length (Block.key_ids (block u)))%nat ->
  res_foldl (update_slot u true leaf) (channels_root chs, sig) (take m (imap pair (Block.key_ids (block u)))) =
  Ok (channels_root (slot_channels (block u) (block_number u) chs m), if existsb active_key (take m (Block.key_ids (block u))) then sig' else sig).
Proof.
  intros Hw Hok Hn Hc Hf. induction m as [|m IH]; intros Hm; [done|].
  destruct (lookup_lt_is_Some_2 (Block.key_ids (block u)) m) as [k Hk]; [lia|].
  rewrite (take_S_r _ m (m, k)) by (by rewrite list_lookup_imap, Hk). rewrite res_foldl_app, IH by lia. cbn [mbind res_bind res_foldl].
  rewrite !slot_channels_eq, (take_S_r (Block.key_ids (block u)) m k Hk), existsb_app. cbn [existsb]. rewrite orb_false_r.
  destruct (existsb active_key (take m _)) eqn:He; cbn [orb].
  - by rewrite (slot_after_progress u leaf chs r sig' m k Hw Hc Hk He).
  - destruct (active_key k) eqn:Ha.
    + by rewrite (slot_first_progress u leaf chs n r sig sig' m k Hw Hok Hn Hc Hk Ha He Hf).
    + unfold update_slot. cbn [fst snd]. apply negb_false_iff in Ha. by rewrite Ha.
Qed.

(** Without active slots the update changes nothing. *)
Lemma slots_idle u leaf acc l : existsb active_key l.*2 = false -> res_foldl (update_slot u true leaf) acc l = Ok acc.
Proof.
  induction l as [|[i k] l IH]; intros H; [done|]. cbn [fmap list_fmap existsb snd] in H. apply orb_false_iff in H as [Hk H].
  apply negb_false_iff in Hk. assert (update_slot u true leaf acc (i, k) = Ok acc) as Hs by (unfold update_slot; cbn [fst snd]; by rewrite Hk).
  cbn [res_foldl]. rewrite Hs. by apply IH.
Qed.

Lemma update_progress u chs n :
  lengths_match u = true -> wrap 32 (Z.of_nat (length (Block.key_ids (block u)))) = Block.num_users (block u) ->
  length (member_leaves u) = MAX_SIG_CLUSTER -> new_member_leaves u = [] ->
  prev_account_tree_root u = channels_root chs -> channels_ok chs n -> 0 <= n < U63.as_u64 (block_number u) ->
  (existsb active_key (Block.key_ids (block u)) = true -> exists r leaf sig',
    signing_witness u chs r /\ 0 < Block.channel_id (block u) < 2 ^ 32 /\
    AggListEntry.leaf (E := UpdateUserTreeError) (block_entry u r) = Ok leaf /\ fold_statement (prev_bp_sig_chain u) leaf = Ok sig') ->
  exists pis, to_public_inputs u = Ok pis.
Proof.
  intros Hlm Hnum Hml Hnew Hroot Hok Hn Hact. unfold to_public_inputs, compute_public_inputs. rewrite Hlm. cbn [ensure mbind res_bind].
  unfold Block.hash_with_prev_hash. rewrite Hnum, Z.eqb_refl. cbn [negb map_err mbind res_bind].
  rewrite Hml, Nat.eqb_refl, Hnew. cbn [ensure mbind res_bind length negb andb bool_decide].
  rewrite bool_decide_eq_true_2 by done. cbn [negb ensure mbind res_bind].
  destruct (block_statement_total (E := UpdateUserTreeError) u Hml) as [leaf Hleaf]. rewrite Hleaf. cbn [mbind res_bind]. rewrite Hroot.
  destruct (existsb active_key (Block.key_ids (block u))) eqn:He.
  - destruct (Hact eq_refl) as (r & leaf' & sig' & Hw & Hc & Hl & Hf).
    rewrite (block_statement_entry u r (sw_valid _ _ _ Hw) (sw_n_of_n _ _ _ Hw)), Hl in Hleaf. injection Hleaf as <-.
    pose proof (slots_progress u leaf' chs n r _ sig' (length (Block.key_ids (block u))) Hw Hok Hn Hc Hf ltac:(lia)) as Hs.
    rewrite (take_ge (imap _ _)) in Hs by (rewrite length_imap; lia). rewrite Hs. cbn [mbind res_bind]. by eexists.
  - rewrite slots_idle by by rewrite imap_pair_snd. cbn [mbind res_bind]. by eexists.
Qed.

(** ** Blocks *)

(** What the members of a channel contribute to a block they sign. *)
Record send_data := SendData {
  sd_record : ChannelRegRecord;
  sd_fields : ChannelStateMessageFields;
  sd_regev_pks : list RegevPk;
  sd_tx : TxV2;
  sd_tx_proof : MerkleProof;
  sd_action : ChannelAction;
  sd_action_index : Z;
  sd_action_proof : MerkleProof;
}.

(** The witness of block [b] with the deposits [ds] and the registrations [rs], read off the history. *)
Definition honest_witness (s : Chain.state) (b : Block) (ds : list Deposit) (rs : list ChannelRegRecord)
    (sd : option send_data) : BlockHashChainProcessorWitness :=
  let c := Block.channel_id b in
  let n := length (Block.key_ids b) in
  let chs := slot_channels b (U63.mkU63 (Chain.number s + 1)) (Chain.channels s) in
  BlockHashChainProcessorWitness.mk (honest_deposits (Chain.deposits s) ds) (honest_records (Chain.channels s) rs) b
    ((fun j => channel_leaf (chs j c)) <$> seq 0 n) ((fun j => channels_proof (chs j) c) <$> seq 0 n)
    (replicate n (send_proof (Chain.channels s c)))
    (tree_proof (list_leaves (Chain.past s)) PUBLIC_STATE_TREE_HEIGHT (Chain.number s))
    ((fun d => all_member_leaves (sd_record d)) <$> sd) None ((fun d => ChannelRegRecord.member_count (sd_record d)) <$> sd)
    (sd_regev_pks <$> sd) (sd_fields <$> sd) ((fun _ => replicate n c) <$> sd) ((fun d => replicate n (sd_tx d)) <$> sd)
    ((fun d => replicate n (sd_tx_proof d)) <$> sd) ((fun d => replicate n (sd_action_index d)) <$> sd)
    ((fun d => replicate n (sd_action d)) <$> sd) ((fun d => replicate n (sd_action_proof d)) <$> sd).

(** The contribution of a registered channel, complete: every active slot holds its key, the
    transaction carries the next send index and is a transfer or commits to an inter-channel send or
    a close of the channel, and the state it signs extends the signature chain. *)
Record signs (s : Chain.state) (b : Block) (d : send_data) : Prop := {
  sg_channel : 0 < Block.channel_id b < 2 ^ 32;
  sg_record : registration (Chain.channels s (Block.channel_id b)) = Some (sd_record d);
  sg_root : Block.tx_tree_root b <> bytes32_default;
  sg_room : Z.of_nat (length (sends (Chain.channels s (Block.channel_id b)))) < 2 ^ 32;
  sg_pks : length (sd_regev_pks d) = length (Block.key_ids b);
  sg_keys i k : Block.key_ids b !! i = Some k -> active_key k = true ->
    exists m pk, active_members (sd_record d) !! i = Some m /\ sd_regev_pks d !! i = Some pk /\
      Pk.poseidon_digest (E := UpdateUserTreeError) pk = Ok (reduce_to_hash_out (MemberRegEntry.regev_pk_digest m));
  sg_tx : check_tx (Block.channel_id b) (reduce_to_hash_out (Block.tx_tree_root b))
    (channel_leaf (Chain.channels s (Block.channel_id b))) (sd_tx d) (sd_tx_proof d) (Block.channel_id b) = Ok tt;
  sg_class : match TxV2.tx_class (sd_tx d) with
    | UserTransfer => TxV2.channel_action_root (sd_tx d) = phash_default
    | ChannelActionClass => TxV2.transfer_tree_root (sd_tx d) = phash_default /\
        proof_verify (sd_action_proof d) (sd_action d) (sd_action_index d) (TxV2.channel_action_root (sd_tx d)) = Ok tt /\
        ChannelAction.source_channel_id (sd_action d) = Block.channel_id b /\ ChannelAction.kind (sd_action d) <> MemberSetUpdate
    end;
  sg_signature : exists leaf sig, AggListEntry.leaf (E := UpdateUserTreeError) (AggListEntry.mk
      (ChannelStateMessageFields.signing_digest (sd_fields d) (Block.channel_id b) (Block.tx_tree_root b))
      (MemberRegEntry.pk_g <$> active_members (sd_record d))) = Ok leaf /\
    fold_statement (Chain.signatures s) leaf = Ok sig;
}.

Record honest (s : Chain.state) (b : Block) (ds : list Deposit) (rs : list ChannelRegRecord) (sd : option send_data) : Prop := {
  ho_channel : in_width 32 (Block.channel_id b);
  ho_time : in_width 64 (Block.timestamp b);
  ho_users : Block.num_users b = Z.of_nat (length (Block.key_ids b)) /\ Z.of_nat (length (Block.key_ids b)) < 2 ^ 32;
  ho_deposits : Block.deposit_hash_chain b = deposit_chain (Chain.deposits s ++ ds) bytes32_default;
  ho_stamps : stamped (Chain.deposits s) ds (U63.mkU63 (Chain.number s + 1));
  ho_count : Z.of_nat (length (Chain.deposits s ++ ds)) < 2 ^ 63;
  ho_records : Block.channel_reg_hash_chain b = reg_chain (Chain.records s ++ rs) bytes32_default;
  ho_registrable : registrable (Chain.channels s) rs;
  ho_ids : Forall (fun r => in_width 32 (ChannelRegRecord.channel_id r)) rs /\ Z.of_nat (length rs) < 2 ^ 63;
  ho_fresh : rs <> [] -> reg_chain (Chain.records s ++ rs) bytes32_default <> reg_chain (Chain.records s) bytes32_default;
  ho_send : existsb active_key (Block.key_ids b) = true -> rs = [] /\ exists d, sd = Some d /\ signs s b d;
  ho_data d : sd = Some d -> record_valid (sd_record d) /\ length (sd_regev_pks d) = length (Block.key_ids b) /\
    proof_height (sd_tx_proof d) = TX_TREE_HEIGHT;
}.

Lemma honest_shaped s b ds rs sd : honest s b ds rs sd -> witness_shaped (honest_witness s b ds rs sd).
Proof.
  intros Hh. split; cbn.
  - unfold honest_deposits. apply Forall_lookup. intros i x Hx. rewrite list_lookup_imap in Hx.
    destruct (ds !! i); [|done]. injection Hx as <-. apply tree_proof_height.
  - apply honest_records_shaped, Hh.
  - apply Hh.
  - apply Forall_fmap, Forall_true. intros j. apply tree_proof_height.
  - apply Forall_replicate, tree_proof_height.
  - apply tree_proof_height.
  - destruct sd as [d|]; cbn; [|constructor]. apply Forall_replicate. by apply (ho_data _ _ _ _ _ Hh).
  - apply Hh.
Qed.

(** The update of an honest block succeeds. *)
Lemma honest_lengths s b ds rs sd : honest s b ds rs sd ->
  lengths_match (Chain.update_of s (honest_witness s b ds rs sd)) = true /\
  length (member_leaves (Chain.update_of s (honest_witness s b ds rs sd))) = MAX_SIG_CLUSTER.
Proof.
  intros Hh. destruct (ho_users _ _ _ _ _ Hh) as [Hu _]. pose proof (ho_data _ _ _ _ _ Hh) as Hd. clear Hh.
  unfold lengths_match. cbn. rewrite Hu, Nat2Z.id, !length_fmap, length_seq, length_replicate, !Nat.eqb_refl.
  destruct sd as [d|]; cbn.
  - destruct (Hd d eq_refl) as (Hr & -> & _). rewrite !length_replicate, !Nat.eqb_refl. split; [done|by apply length_all_members].
  - by rewrite !length_replicate, !Nat.eqb_refl.
Qed.

Lemma honest_signing_witness s b ds rs d :
  Chain.ok s -> signs s b d -> signing_witness (Chain.update_of s (honest_witness s b ds rs (Some d))) (Chain.channels s) (sd_record d).
Proof.
  intros Hs Hg. destruct (chs_record _ _ (Chain.ok_channels _ Hs) _ _ (sg_record _ _ _ Hg)) as [Hr _]. split; cbn.
  - apply Hg.
  - done.
  - split; [done|done|apply Hg].
  - apply Hg.
  - intros i k Hi. apply lookup_lt_Some in Hi as Hlt. rewrite !list_lookup_fmap, lookup_seq_lt by done. cbn.
    split_and!; [done|done|by apply lookup_replicate_2].
  - intros i k Hi Hk. destruct (sg_keys _ _ _ Hg i k Hi Hk) as (m & pk & ? & ? & ?). by exists m, pk.
  - intros i k Hi Hk. apply lookup_lt_Some in Hi as Hlt. exists (sd_tx d), (sd_tx_proof d), (Block.channel_id b).
    split_and!; [by apply lookup_replicate_2..|apply Hg|]. unfold check_tx_class. pose proof (sg_class _ _ _ Hg) as Hc.
    destruct (TxV2.tx_class (sd_tx d)); [by apply ensure_decided|]. destruct Hc as (Ht & Hv & Hsrc & Hkind). rewrite ensure_decided by done. cbn.
    rewrite !lookup_replicate_2 by done. cbn. rewrite Hv. cbn. rewrite Hsrc, Z.eqb_refl. cbn. by destruct (ChannelAction.kind (sd_action d)).
Qed.

Lemma honest_update s b ds rs sd :
  Chain.ok s -> honest s b ds rs sd -> Chain.number s + 1 < 2 ^ 63 ->
  exists u, to_public_inputs (Chain.update_of s (honest_witness s b ds rs sd)) = Ok u.
Proof.
  intros Hs Hh Hn. destruct (honest_lengths _ _ _ _ _ Hh) as [Hl Hm].
  apply (update_progress _ (Chain.channels s) (Chain.number s)); try done.
  - cbn. destruct (ho_users _ _ _ _ _ Hh) as [-> Hw]. apply wrap_id. unfold in_width. lia.
  - apply Hs.
  - cbn. unfold Chain.number. lia.
  - cbn. intros He. destruct (ho_send _ _ _ _ _ Hh He) as (_ & d & -> & Hg).
    destruct (sg_signature _ _ _ Hg) as (leaf & sig & Hleaf & Hsig). exists (sd_record d), leaf, sig.
    split_and!; [by apply honest_signing_witness|apply Hg..|exact Hleaf|exact Hsig].
Qed.

(** ** The block step *)

Context {BP : BlockProvers} {BPO : BlockProversOk BP} {BDO : BlockDataOk BP}.

Lemma collect_vds_lookup counts n : n ∈ counts ->
  collect_vds ((fun n => (n, update_user_vd n)) <$> counts) !! n = Some (update_user_vd n).
Proof.
  intros Hn. unfold collect_vds. induction counts as [|m counts IH] using rev_ind; [by apply not_elem_of_nil in Hn|].
  rewrite fmap_app, foldl_app. cbn. destruct (decide (m = n)) as [->|Hne]; [by rewrite lookup_insert_eq|].
  rewrite lookup_insert_ne by done. apply IH. apply elem_of_app in Hn as [|Hn]; [done|].
  by apply list_elem_of_singleton in Hn as ->.
Qed.

(** A proof that one of the provers made for the block and that does not verify. *)
Definition refused (s : Chain.state) (b : Block) (ds : list Deposit) (rs : list ChannelRegRecord) (sd : option send_data) (p : Proof) : Prop :=
  deposit_made ds p /\ vd_verify deposit_chain_vd p = false \/ registration_made rs p /\ vd_verify channel_reg_chain_vd p = false \/
  exists pis, update_user_data_prove (Block.num_users b) (Chain.update_of s (honest_witness s b ds rs sd)) pis = Some p /\
    vd_verify (update_user_vd (Block.num_users b)) p = false.

Definition step_refuses (s : Chain.state) (b : Block) (ds : list Deposit) (rs : list ChannelRegRecord) (sd : option send_data) (e : BlockStepError) : Prop :=
  e = BlockInvalidProof /\ exists p, refused s b ds rs sd p.

(** The deposit part, from the proof of the loop. *)
Lemma deposit_part_outcome s b ds rs sd u bw po :
  honest s b ds rs sd ->
  UpdateUserPublicInputs.deposit_hash_chain u = Block.deposit_hash_chain b ->
  BlockStepWitness.deposit_hash_chain_proof bw = po ->
  match po with None => ds = [] | Some p => deposits_so_far (Chain.view s) (Chain.deposits s) ds (U63.mkU63 (Chain.number s + 1)) p end ->
  ends (fun _ => True) (step_refuses s b ds rs sd) (BlockStepWitness.deposit_part bw deposit_chain_vd (Chain.view s) u (U63.mkU63 (Chain.number s + 1))).
Proof.
  intros Hh Hu Hpo Hsf. unfold BlockStepWitness.deposit_part. rewrite Hu, (ho_deposits _ _ _ _ _ Hh), Hpo.
  case_bool_decide as Heq; [done|]. destruct po as [p|].
  2: { exfalso. apply Heq. subst ds. by rewrite app_nil_r. }
  destruct Hsf as (pis & Hex & [F1 F2 F3 F4 F5 F6 _] & Hb & Hc & _ & Hm). cbn [ok_or mbind res_bind].
  eapply ends_bind; [apply ends_ensure; intros Hv; split; [done|exists p; by left]|intros [] _ _].
  unfold exposes_deposits in Hex. rewrite Hex. cbn [map_err mbind res_bind].
  by rewrite !ensure_decided by first [done|rewrite F4; cbn; by rewrite <- deposit_chain_app].
Qed.

(** The registration part: the chain moves exactly when there are registrations. *)
Lemma reg_part_outcome s b ds rs sd u bw ro :
  honest s b ds rs sd ->
  (rs <> [] -> UpdateUserPublicInputs.new_account_tree_root u = UpdateUserPublicInputs.prev_account_tree_root u) ->
  BlockStepWitness.channel_reg_hash_chain_proof bw = ro ->
  match ro with
  | None => rs = []
  | Some p => records_so_far (Chain.view s) (Chain.channels s) rs (U63.mkU63 (Chain.number s + 1)) p /\ rs <> []
  end ->
  ends (fun x => x.1 = reg_chain (Chain.records s ++ rs) bytes32_default /\ (is_Some ro <-> rs <> [])) (step_refuses s b ds rs sd)
    (BlockStepWitness.channel_reg_part bw channel_reg_chain_vd (Chain.view s) u (U63.mkU63 (Chain.number s + 1))).
Proof.
  intros Hh Hroot Hro Hsf. unfold BlockStepWitness.channel_reg_part. rewrite Hro. destruct ro as [p|].
  - destruct Hsf as [(pis & Hex & [R1 R2 R3 R4 R5 _] & _ & _ & _ & Hm) Hne].
    eapply ends_bind; [apply ends_ensure; intros Hv; split; [done|exists p; by right; left]|intros [] _ _].
    unfold exposes_registrations in Hex. rewrite Hex. cbn [map_err mbind res_bind].
    rewrite !ensure_decided by first [done|by apply Hroot]. split; [|split; [done|by eexists]].
    cbn [fst]. rewrite R3. cbn. by rewrite <- reg_chain_app.
  - subst rs. split; [by rewrite app_nil_r|]. split; [by intros []|done].
Qed.

(** A state or an earlier proof that the next block can build on. *)
Definition resumes (counts : list Z) (s0 s : Chain.state) (init : option ExtendedPublicState) (prev : option Proof) : Prop :=
  match prev with
  | None => init = Some (Chain.view s0) /\ s = s0
  | Some p => init = None /\ exposes_chain counts p (chain_pis counts s0 s) /\
      vd_verify (block_chain_vd counts) p = true /\ cyclic_check (block_chain_vd counts) p = true
  end.

Lemma resumes_continues counts s0 s init prev : resumes counts s0 s init prev -> continues counts s0 s init prev.
Proof. unfold resumes, continues. destruct prev; [by intros (_ & ? & _)|done]. Qed.

Lemma resumes_previous counts s0 s init prev bw :
  BlockStepWitness.initial_public_state bw = init -> BlockStepWitness.prev_block_chain_proof bw = prev ->
  resumes counts s0 s init prev -> BlockStepWitness.previous bw (block_chain_vd counts) = Ok (chain_pis counts s0 s).
Proof.
  intros Hi Hp Hres. unfold BlockStepWitness.previous. rewrite Hi, Hp. destruct prev as [p|]; cbn.
  - destruct Hres as (_ & Hex & Hvp & _). rewrite Hvp. cbn [ensure mbind res_bind]. unfold exposes_chain in Hex. by rewrite Hex.
  - by destruct Hres as [-> ->].
Qed.

Lemma reg_chain_moves s b ds rs sd (ro : option Proof) : honest s b ds rs sd -> (is_Some ro <-> rs <> []) ->
  Bool.eqb (negb (bool_decide (reg_chain (Chain.records s ++ rs) bytes32_default = reg_chain (Chain.records s) bytes32_default)))
    (bool_decide (is_Some ro)) = true.
Proof.
  intros Hh Hsome. destruct (decide (rs = [])) as [->|Hne].
  - rewrite app_nil_r, bool_decide_eq_true_2, bool_decide_eq_false_2; [done| |done]. intros Hx. by apply Hsome in Hx.
  - rewrite bool_decide_eq_false_2, bool_decide_eq_true_2; [done|by apply Hsome|]. by apply (ho_fresh _ _ _ _ _ Hh).
Qed.

(** The update of an honest block, as the block step finds it. *)
Lemma honest_update_frame s b ds rs sd u : Chain.ok s -> honest s b ds rs sd ->
  to_public_inputs (Chain.update_of s (honest_witness s b ds rs sd)) = Ok u ->
  UpdateUserPublicInputs.block_number u = U63.mkU63 (Chain.number s + 1) /\
  UpdateUserPublicInputs.prev_account_tree_root u = channels_root (Chain.channels s) /\
  UpdateUserPublicInputs.prev_block_hash_chain u = ExtendedPublicState.block_hash_chain (Chain.view s) /\
  UpdateUserPublicInputs.prev_bp_sig_chain u = ExtendedPublicState.bp_sig_chain (Chain.view s) /\
  UpdateUserPublicInputs.deposit_hash_chain u = Block.deposit_hash_chain b /\
  UpdateUserPublicInputs.channel_reg_hash_chain u = Block.channel_reg_hash_chain b /\
  (rs <> [] -> UpdateUserPublicInputs.new_account_tree_root u = UpdateUserPublicInputs.prev_account_tree_root u).
Proof.
  intros Hs Hh Hu. pose proof (honest_shaped _ _ _ _ _ Hh) as Hsh.
  assert (BlockHashChainProcessorWitness.block (honest_witness s b ds rs sd) = b) as Hb by reflexivity.
  revert Hu Hsh Hb. generalize (honest_witness s b ds rs sd). intros w Hu Hsh Hb.
  assert (0 <= Chain.number s < U63.as_u64 (block_number (Chain.update_of s w))) as Hnum by (cbn; unfold Chain.number; lia).
  assert (prev_account_tree_root (Chain.update_of s w) = channels_root (Chain.channels s)) as Hpr by reflexivity.
  pose proof (update_sound _ (Chain.channels s) (Chain.number s) u (update_of_shaped s w Hsh)
    (Chain.ok_channels _ Hs) Hnum Hpr Hu) as [Hueq Hact].
  cbn in Hact. rewrite Hb in Hact. split_and!; [by rewrite Hueq..|by rewrite Hueq; cbn; rewrite Hb|by rewrite Hueq; cbn; rewrite Hb|].
  intros Hne. rewrite Hueq at 2. cbn [UpdateUserPublicInputs.prev_account_tree_root].
  destruct (existsb active_key (Block.key_ids b)) eqn:He; [|by destruct Hact]. by destruct (ho_send _ _ _ _ _ Hh He) as [? _].
Qed.

(** The public inputs of the step, for an honest block. *)
Lemma block_step_outcome counts s0 s init prev b ds rs sd u up po ro :
  Chain.ok s -> Chain.number s + 1 < 2 ^ 63 -> honest s b ds rs sd -> Block.num_users b ∈ counts ->
  resumes counts s0 s init prev ->
  to_public_inputs (Chain.update_of s (honest_witness s b ds rs sd)) = Ok u ->
  update_user_data_prove (Block.num_users b) (Chain.update_of s (honest_witness s b ds rs sd)) u = Some up ->
  match po with None => ds = [] | Some p => deposits_so_far (Chain.view s) (Chain.deposits s) ds (U63.mkU63 (Chain.number s + 1)) p end ->
  match ro with
  | None => rs = []
  | Some p => records_so_far (Chain.view s) (Chain.channels s) rs (U63.mkU63 (Chain.number s + 1)) p /\ rs <> []
  end ->
  ends (fun _ => True) (step_refuses s b ds rs sd) (BlockStepWitness.to_public_inputs (BlockStepWitness.mk (Block.num_users b) init prev po ro up
      (BlockHashChainProcessorWitness.public_state_merkle_proof (honest_witness s b ds rs sd)))
    (block_chain_vd counts) ((fun n => (n, update_user_vd n)) <$> counts) deposit_chain_vd channel_reg_chain_vd).
Proof.
  intros Hs Hn Hh Hin Hres Hu Hup Hpo Hro.
  destruct (honest_update_frame s b ds rs sd u Hs Hh Hu) as (Hbn & Har & Hbc & Hsc & Hud & Hur & Hroot).
  assert (BlockHashChainProcessorWitness.public_state_merkle_proof (honest_witness s b ds rs sd) =
    tree_proof (list_leaves (Chain.past s)) PUBLIC_STATE_TREE_HEIGHT (Chain.number s)) as -> by reflexivity.
  set (bw := BlockStepWitness.mk _ _ _ _ _ _ _). unfold BlockStepWitness.to_public_inputs.
  rewrite (resumes_previous counts s0 s init prev bw eq_refl eq_refl Hres). cbn [mbind res_bind chain_pis BlockChainPublicInputs.ext_public_state].
  apply (ends_bind (fun x => x = (u, U63.mkU63 (Chain.number s + 1)))).
  { unfold BlockStepWitness.update_inputs. cbn [bw BlockStepWitness.num_users BlockStepWitness.update_user_proof].
    rewrite (collect_vds_lookup _ _ Hin). cbn [ok_or mbind res_bind].
    eapply ends_bind; [apply ends_ensure; intros Hv; split; [done|exists up; right; right; eauto]|intros [] _ _].
    rewrite (update_user_exposes _ _ _ _ Hup). cbn [map_err mbind res_bind]. rewrite u63_succ_Ok by (cbn; unfold Chain.number in *; lia). cbn [map_err mbind res_bind].
    by rewrite !ensure_decided by done. }
  intros [u' bn] _ [= -> ->]. eapply ends_bind; [by apply (deposit_part_outcome s b ds rs sd u bw po)|]. intros [[dc dr] dn] _ _.
  eapply ends_bind; [by apply (reg_part_outcome s b ds rs sd u bw ro)|]. intros [rc root] _ [Hrc Hsome]. cbn [fst] in Hrc. subst rc.
  pose proof (reg_chain_moves _ _ _ _ _ ro Hh Hsome) as Hch.
  change (ExtendedPublicState.channel_reg_hash_chain (Chain.view s)) with (reg_chain (Chain.records s) bytes32_default).
  change (BlockStepWitness.channel_reg_hash_chain_proof bw) with ro. rewrite Hch. cbn [ensure mbind res_bind].
  rewrite ensure_decided by (rewrite Hur; apply Hh). cbn [mbind res_bind].
  change (BlockStepWitness.public_state_merkle_proof bw) with
    (tree_proof (list_leaves (Chain.past s)) PUBLIC_STATE_TREE_HEIGHT (Chain.number s)).
  change (PublicState.prev_public_state_root (ExtendedPublicState.inner (Chain.view s))) with
    (subtree (list_leaves (Hs := PoseidonLeafableHasher) (Chain.past s)) PUBLIC_STATE_TREE_HEIGHT 0).
  change (U63.as_u64 (PublicState.block_number (ExtendedPublicState.inner (Chain.view s)))) with (Chain.number s).
  rewrite (tree_proof_verifies (V := PublicState)).
  - cbn [map_err mbind res_bind]. by rewrite proof_get_root_eq.
  - pose proof public_state_tree_height. lia.
  - rewrite public_state_tree_height. unfold Chain.number in *. lia.
  - unfold list_leaves, Chain.number. rewrite Nat2Z.id. by rewrite (proj2 (lookup_ge_None _ _)) by (rewrite (Chain.ok_past _ Hs); lia).
Qed.

Lemma honest_typed s b ds rs sd :
  Chain.number s + 1 < 2 ^ 63 -> honest s b ds rs sd -> ext_typed (Chain.view (Chain.add s (honest_witness s b ds rs sd))).
Proof.
  intros Hn Hh. pose proof (ho_count _ _ _ _ _ Hh) as Hc. pose proof (ho_time _ _ _ _ _ Hh) as Ht.
  assert (0 <= Chain.number s) by (unfold Chain.number; lia). split.
  - split; cbn [Chain.view ExtendedPublicState.inner Chain.public_state PublicState.block_number PublicState.timestamp U63.as_u64].
    + rewrite number_add. lia.
    + unfold Chain.time. cbn [Chain.add Chain.blocks]. by rewrite list.last_snoc.
  - unfold u63_typed. cbn [Chain.view ExtendedPublicState.deposit_count U63.as_u64 Chain.add Chain.deposits].
    unfold Chain.new_deposits. case_bool_decide; [rewrite app_nil_r; rewrite length_app in Hc; lia|].
    change (BlockHashChainProcessorWitness.deposit_step_witness (honest_witness s b ds rs sd)) with (honest_deposits (Chain.deposits s) ds).
    rewrite honest_deposits_fst. lia.
Qed.

Lemma update_typed s w u : Chain.number s + 1 < 2 ^ 63 -> in_width 64 (Block.timestamp (BlockHashChainProcessorWitness.block w)) ->
  to_public_inputs (Chain.update_of s w) = Ok u -> update_pis_typed u.
Proof.
  intros Hn Ht H. unfold to_public_inputs, compute_public_inputs in H. apply bind_Ok in H as ([] & _ & H).
  apply bind_Ok in H as (? & _ & H). do 2 (apply bind_Ok in H as ([] & _ & H)). apply bind_Ok in H as (? & _ & H).
  apply bind_Ok in H as (? & _ & H). apply Ok_inj in H as <-. split; [|exact Ht]. unfold u63_typed. cbn. unfold Chain.number in *. lia.
Qed.

Lemma resumes_state counts c s0 s init prev : block_hash_chain_vd c = block_chain_vd counts ->
  resumes counts s0 s init prev -> previous_state c init prev = Ok (Chain.view s).
Proof.
  intros Hvd Hres. unfold previous_state, verify. rewrite Hvd. destruct prev as [p|]; [|by destruct Hres as [-> ->]].
  destruct Hres as (_ & Hex & Hv & Hc). rewrite Hv, Hc. cbn [ensure mbind res_bind]. unfold exposes_chain in Hex. by rewrite Hex.
Qed.

(** How the processor may fail to prove a block that it did not refuse: each time a prover of the
    block's own steps gave no proof, or one that does not verify. *)
Inductive prover_failure (counts : list Z) (s0 s : Chain.state) (b : Block) (ds : list Deposit) (rs : list ChannelRegRecord) (sd : option send_data)
    : BlockHashChainProcessorError -> Prop :=
| failure_deposit e : deposit_failure ds e -> prover_failure counts s0 s b ds rs sd (ProcessorDeposit e)
| failure_registration e : registration_failure rs e -> prover_failure counts s0 s b ds rs sd (ProcessorChannelReg e)
| failure_update pis : to_public_inputs (Chain.update_of s (honest_witness s b ds rs sd)) = Ok pis ->
    UpdateUserPublicInputs.from_u64_slice (UpdateUserPublicInputs.to_u64_vec pis) = Ok pis ->
    update_user_data_prove (Block.num_users b) (Chain.update_of s (honest_witness s b ds rs sd)) pis = None ->
    prover_failure counts s0 s b ds rs sd (ProcessorUpdateUser UpdateFailedToProve)
| failure_refused p : refused s b ds rs sd p -> prover_failure counts s0 s b ds rs sd (ProcessorBlockStep BlockInvalidProof)
| failure_step w ws (pis := chain_pis counts s0 (Chain.add s (honest_witness s b ds rs sd))) :
    BlockStepWitness.to_public_inputs w (block_chain_vd counts) ((fun n => (n, update_user_vd n)) <$> counts) deposit_chain_vd channel_reg_chain_vd = Ok pis ->
    BlockChainPublicInputs.to_u64_vec (E := unit) (cap_elements (vd_common (block_chain_vd counts))) pis = Ok ws ->
    BlockChainPublicInputs.from_u64_slice ws (cap_elements (vd_common (block_chain_vd counts))) = Ok pis ->
    block_step_data_prove counts w pis = None -> prover_failure counts s0 s b ds rs sd (ProcessorBlockStep BlockFailedToProve)
| failure_chain w p : block_step_data_prove counts w (chain_pis counts s0 (Chain.add s (honest_witness s b ds rs sd))) = Some p ->
    block_chain_data_prove counts p = None -> prover_failure counts s0 s b ds rs sd ProcessorBlockHashChain.

(** The checks of the step circuit hold for the verifiers the processor was built with. *)
Lemma step_circuit_checks counts w :
  BlockStepCircuit.prove (BlockStepCircuit.new block_chain_cd ((fun n => (n, update_user_vd n)) <$> counts)
      deposit_chain_vd channel_reg_chain_vd) (block_chain_vd counts) ((fun n => (n, update_user_vd n)) <$> counts)
    deposit_chain_vd channel_reg_chain_vd w =
  (pis ← BlockStepWitness.to_public_inputs w (block_chain_vd counts) ((fun n => (n, update_user_vd n)) <$> counts) deposit_chain_vd channel_reg_chain_vd;
   ok_or (block_step_data_prove counts w pis) BlockFailedToProve).
Proof.
  unfold BlockStepCircuit.prove. cbn [BlockStepCircuit.new BlockStepCircuit.supported_user_counts
    BlockStepCircuit.block_chain_cd BlockStepCircuit.deposit_chain_common BlockStepCircuit.channel_reg_chain_common].
  rewrite !supported_counts, !ensure_decided by (done || apply block_chain_common). cbn [mbind res_bind].
  rewrite length_fmap, Nat.eqb_refl. cbn [ensure mbind res_bind]. rewrite (proj2 (res_forall_Ok _ _ tt)); [done|].
  apply Forall_lookup. intros i [x [y z]] Hx. apply lookup_zip_Some in Hx as [H1 H2]. cbn in *. rewrite list_lookup_fmap, H1 in H2.
  injection H2 as <- <-. by rewrite Z.eqb_refl.
Qed.

(** The update proof of an honest block. *)
Lemma update_prove_outcome counts s0 s b ds rs sd u : Chain.number s + 1 < 2 ^ 63 -> honest s b ds rs sd ->
  to_public_inputs (Chain.update_of s (honest_witness s b ds rs sd)) = Ok u ->
  ends (fun up => update_user_data_prove (Block.num_users b) (Chain.update_of s (honest_witness s b ds rs sd)) u = Some up) (fun e => prover_failure counts s0 s b ds rs sd (ProcessorUpdateUser e))
    (update_user_prove (Block.num_users b) (Chain.update_of s (honest_witness s b ds rs sd))).
Proof.
  intros Hn Hh Hu. unfold update_user_prove. rewrite Hu. cbn [map_err mbind res_bind]. apply ends_ok_or. intros Hup.
  eapply failure_update; [exact Hu| |exact Hup].
  exact (update_pis_roundtrip u (update_typed s (honest_witness s b ds rs sd) u Hn (ho_time _ _ _ _ _ Hh) Hu)).
Qed.

(** No check refuses an honest block: a proof is made, or a prover failed. *)
Lemma block_prove_outcome counts s0 s init prev b ds rs sd u up po ro :
  Chain.ok s -> Chain.number s + 1 < 2 ^ 63 -> ext_typed (Chain.view s0) -> honest s b ds rs sd -> Block.num_users b ∈ counts ->
  resumes counts s0 s init prev -> to_public_inputs (Chain.update_of s (honest_witness s b ds rs sd)) = Ok u ->
  update_user_data_prove (Block.num_users b) (Chain.update_of s (honest_witness s b ds rs sd)) u = Some up ->
  res_foldl (prove_deposit (Chain.view s)) None (honest_deposits (Chain.deposits s) ds) = Ok po ->
  res_foldl (prove_registration (Chain.view s) (U63.mkU63 (Chain.number s + 1))) None (honest_records (Chain.channels s) rs) = Ok ro ->
  match po with None => ds = [] | Some p => deposits_so_far (Chain.view s) (Chain.deposits s) ds (U63.mkU63 (Chain.number s + 1)) p end ->
  match ro with
  | None => rs = []
  | Some p => records_so_far (Chain.view s) (Chain.channels s) rs (U63.mkU63 (Chain.number s + 1)) p /\ rs <> []
  end ->
  let bw := BlockStepWitness.mk (Block.num_users b) init prev po ro up (BlockHashChainProcessorWitness.public_state_merkle_proof (honest_witness s b ds rs sd)) in
  ends (fun _ => True) (prover_failure counts s0 s b ds rs sd)
    (sp ← map_err ProcessorBlockStep
       (pis ← BlockStepWitness.to_public_inputs bw (block_chain_vd counts) ((fun n => (n, update_user_vd n)) <$> counts) deposit_chain_vd channel_reg_chain_vd;
        ok_or (block_step_data_prove counts bw pis) BlockFailedToProve);
     ok_or (block_chain_data_prove counts sp) ProcessorBlockHashChain).
Proof.
  intros Hs Hn Hty Hh Hin Hres Hu Hup Hpo Hro Hsd Hsr bw.
  pose proof (block_step_outcome counts s0 s init prev b ds rs sd u up po ro Hs Hn Hh Hin Hres Hu Hup Hsd Hsr) as Hout. fold bw in Hout.
  destruct (BlockStepWitness.to_public_inputs bw _ _ _ _) as [pis|e|] eqn:Hpis; cbn in Hout |- *; [|destruct Hout as (-> & p & ?); by eapply failure_refused|done].
  assert (pis = chain_pis counts s0 (Chain.add s (honest_witness s b ds rs sd))) as Heq.
  { eapply (block_step_sound s _ _ (Chain.view s0)) in Hpis as (Heq & _); [exact Heq|done|by apply honest_shaped|done| |exact Hu|
      exact (update_user_exposes _ _ _ _ Hup)|reflexivity|exact Hpo|exact Hro]. by apply (resumes_previous counts s0 s init prev). }
  destruct (block_pis_roundtrip (E := unit) (cap_elements (vd_common (block_chain_vd counts))) pis) as (ws & Hw1 & Hw2).
  { rewrite Heq. split; [done|by apply honest_typed|apply block_chain_vd_shaped]. }
  subst pis. destruct (block_step_data_prove counts bw _) as [sp|] eqn:Hsp; cbn; [|by eapply failure_step].
  destruct (block_chain_data_prove counts sp) eqn:Hq; [done|]. by eapply failure_chain.
Qed.

Lemma prove_block_outcome counts c s0 s init prev b ds rs sd :
  new (E := BlockHashChainProcessorError) counts = Ok c -> Chain.ok s -> Chain.number s + 1 < 2 ^ 63 ->
  ext_typed (Chain.view s0) -> honest s b ds rs sd -> Block.num_users b ∈ counts -> resumes counts s0 s init prev ->
  ends (fun p => exposes_chain counts p (chain_pis counts s0 (Chain.add s (honest_witness s b ds rs sd)))) (prover_failure counts s0 s b ds rs sd)
    (prove_block c init prev (honest_witness s b ds rs sd)).
Proof.
  intros Hnew Hs Hn Hty Hh Hin Hres. apply ends_Ok.
  2: { intros p Hp. eapply (prove_block_sound counts c s0 s) in Hp as (Hex & _); [exact Hex|done|done|by apply honest_shaped|by apply resumes_continues]. }
  unfold new in Hnew. apply bind_Ok in Hnew as ([] & _ & Hnew). apply Ok_inj in Hnew as <-. unfold prove_block.
  change (BlockHashChainProcessorWitness.block (honest_witness s b ds rs sd)) with b. cbn [update_user_circuits].
  rewrite ensure_decided by by apply elem_of_list_to_set. cbn [mbind res_bind].
  assert (exactly_one init prev = true) as -> by (destruct prev; [by destruct Hres as [-> _]|by destruct Hres as [-> _]]).
  cbn [ensure mbind res_bind]. set (cc := BlockHashChainProcessor.mk _ _ _ _).
  rewrite (resumes_state counts cc s0 s init prev eq_refl Hres). cbn [mbind res_bind].
  change (BlockHashChainProcessorWitness.deposit_step_witness (honest_witness s b ds rs sd)) with (honest_deposits (Chain.deposits s) ds).
  assert (u63_typed (U63.mkU63 (Chain.number s + 1))) as Hbn by (unfold u63_typed, Chain.number in *; cbn; lia).
  pose proof (deposits_outcome (Chain.view s) (Chain.deposits s) ds (U63.mkU63 (Chain.number s + 1)) eq_refl eq_refl (ho_stamps _ _ _ _ _ Hh) Hbn (ho_count _ _ _ _ _ Hh)) as Hd.
  eapply ends_bind; [eapply ends_impl; [| |exact Hd]; [intros po H; exact H|intros e (e' & -> & H); by apply failure_deposit]|].
  intros po Hpo Hsd. rewrite u63_succ_Ok by (cbn; unfold Chain.number in *; lia). cbn [map_err mbind res_bind].
  change (U63.as_u64 (PublicState.block_number (ExtendedPublicState.inner (Chain.view s)))) with (Chain.number s).
  change (BlockHashChainProcessorWitness.channel_reg_step_witness (honest_witness s b ds rs sd)) with (honest_records (Chain.channels s) rs).
  destruct (ho_ids _ _ _ _ _ Hh) as [Hids Hlen].
  pose proof (registrations_outcome (Chain.view s) (Chain.channels s) (Chain.number s) rs (U63.mkU63 (Chain.number s + 1)) eq_refl (Chain.ok_channels _ Hs) (ho_registrable _ _ _ _ _ Hh) Hids Hbn Hlen) as Hr.
  eapply ends_bind; [eapply ends_impl; [| |exact Hr]; [intros ro H; exact H|intros e (e' & -> & H); by apply failure_registration]|].
  intros ro Hro Hsr. destruct (honest_update s b ds rs sd Hs Hh Hn) as [u Hu].
  fold (Chain.update_of s (honest_witness s b ds rs sd)).
  eapply ends_bind; [apply ends_map_err, (update_prove_outcome counts s0 s b ds rs sd u Hn Hh Hu)|]. intros up _ Hup.
  cbn [cc block_step_circuit block_hash_chain_vd update_account_vds]. rewrite step_circuit_checks.
  cbn [BlockStepCircuit.new BlockStepCircuit.supported_user_counts]. rewrite supported_counts.
  by apply (block_prove_outcome counts s0 s init prev b ds rs sd u up po ro).
Qed.

End progress.
