(* ===== verification/WithdrawalProgress.v ===== *)
(** * Honest withdrawals are not refused

    The words of the withdrawal proofs with their round trips, and the witness
    of a withdrawal read off the proved history and the account: no check
    refuses it, on its own, as the next step of a chain and under the final
    proof.  The circuits may still fail to prove; [single_failure],
    [step_failure] and [final_failure] say which prover gave no proof. *)

From S2P Require Import Prelude Limbs U63 Circuit MerkleTree LeafTrees Poseidon IndexedTree Keccak Regev BalanceState Account AccountProps Ledger LedgerProps Balance BalanceProps BalanceCodec Channel HashChains BlockStep BlockChain Withdrawal HashChainProps BlockStepProps BlockChainProps ChainCodec WithdrawalProps ValidityProgress.

#[local] Remove Hints Leafable_Bytes32 : typeclass_instances.
Import SingleWithdawalWitness.

(** ** Words *)

Definition withdrawal_typed (d : Withdrawal) : Prop := in_width 32 (Withdrawal.token_index d).

Definition withdrawal_chunks (d : Withdrawal) : list (list Z) :=
  [to_u32_vec (Withdrawal.recipient d); [Withdrawal.token_index d]; to_u32_vec (Withdrawal.amount d);
   to_u32_vec (Withdrawal.nullifier d); to_u32_vec (Withdrawal.aux_data d)].

Lemma withdrawal_words d : Withdrawal.to_u32_vec d = concat (withdrawal_chunks d).
Proof. cbn [withdrawal_chunks concat]. by rewrite app_nil_r. Qed.

Lemma withdrawal_lengths d : length <$> withdrawal_chunks d = [5; 1; 8; 8; 8]%nat.
Proof. unfold withdrawal_chunks, to_u32_vec. cbn [fmap list_fmap]. by rewrite !limbs_length. Qed.

Lemma withdrawal_words_length d : length (Withdrawal.to_u32_vec d) = WITHDRAWAL_LEN.
Proof. by rewrite withdrawal_words, length_chunks, withdrawal_lengths. Qed.

Lemma withdrawal_u32_roundtrip d : Withdrawal.from_u32_slice (Withdrawal.to_u32_vec d) = Ok d.
Proof.
  unfold Withdrawal.from_u32_slice. rewrite withdrawal_words_length, bool_decide_eq_false_2 by (by intros []).
  rewrite withdrawal_words. read_chunks (withdrawal_lengths d). unfold to_u32_vec. rewrite !from_u32_slice_limbs.
  cbn [expect unwrap mbind res_bind]. by destruct d.
Qed.

Lemma withdrawal_words_width d : withdrawal_typed d -> Forall (in_width 32) (Withdrawal.to_u32_vec d).
Proof.
  intros Hd. unfold Withdrawal.to_u32_vec, to_u32_vec. repeat apply Forall_app_2; try apply limbs_u32. constructor; [exact Hd|constructor].
Qed.

Lemma withdrawal_u64_roundtrip d : withdrawal_typed d -> Withdrawal.from_u64_slice (Withdrawal.to_u32_vec d) = Ok d.
Proof.
  intros Hd. unfold Withdrawal.from_u64_slice.
  assert (forall l, Forall (in_width 32) l ->
    res_mapM (fun x => if x <? 2 ^ 32 then Ok x else Err InvalidData) l = Ok l) as Hm.
  { induction 1 as [|x l Hx _ IH]; [done|]. cbn. rewrite (proj2 (Z.ltb_lt _ _)) by (unfold in_width in Hx; lia).
    cbn [mbind res_bind]. by rewrite IH. }
  rewrite Hm by by apply withdrawal_words_width. cbn [mbind res_bind]. apply withdrawal_u32_roundtrip.
Qed.

(** A word list of the final statement. *)
Definition proof_pis_chunks (p : WithdrawalProofPublicInputs) : list (list Z) :=
  [to_u32_vec (WithdrawalProofPublicInputs.withdrawal_hash p); to_u32_vec (WithdrawalProofPublicInputs.withdrawal_prover p);
   to_u32_vec (WithdrawalProofPublicInputs.ext_public_state_commitment p); U63.to_u32_vec (WithdrawalProofPublicInputs.block_number p)].

Lemma proof_pis_words p : WithdrawalProofPublicInputs.to_u32_vec p = concat (proof_pis_chunks p).
Proof. cbn [proof_pis_chunks concat]. by rewrite app_nil_r. Qed.

Lemma proof_pis_lengths p : length <$> proof_pis_chunks p = [8; 5; 8; 2]%nat.
Proof. unfold proof_pis_chunks, to_u32_vec. cbn [fmap list_fmap]. by rewrite !limbs_length. Qed.

Lemma proof_pis_words_length p : length (WithdrawalProofPublicInputs.to_u32_vec p) = WITHDRAWAL_PROOF_PUBLIC_INPUTS_LEN.
Proof. by rewrite proof_pis_words, length_chunks, proof_pis_lengths. Qed.

Lemma proof_pis_roundtrip p : u63_typed (WithdrawalProofPublicInputs.block_number p) ->
  WithdrawalProofPublicInputs.from_u32_slice (WithdrawalProofPublicInputs.to_u32_vec p) = Ok p.
Proof.
  intros Hn. unfold WithdrawalProofPublicInputs.from_u32_slice.
  rewrite proof_pis_words_length, bool_decide_eq_false_2 by (by intros []).
  rewrite proof_pis_words. read_chunks (proof_pis_lengths p). unfold to_u32_vec. rewrite !from_u32_slice_limbs.
  rewrite U63_theorems.u63_u32_roundtrip by (unfold U63_lemmas.u63_ok, in_width, u63_typed in *; lia).
  cbn [expect map_err mbind res_bind]. by destruct p.
Qed.

(** What the reader of 64-bit words does, on every input. *)
Lemma proof_pis_read_u64 words :
  Forall (in_width 64) words ->
  WithdrawalProofPublicInputs.from_u64_slice words =
    if bool_decide (length words <> WITHDRAWAL_PROOF_PUBLIC_INPUTS_LEN) then Err WithdrawalInvalidPublicInputs
    else if forallb (fun x => x <? 2 ^ 32) words then WithdrawalProofPublicInputs.from_u32_slice words else Panic.
Proof.
  intros Hw. unfold WithdrawalProofPublicInputs.from_u64_slice. case_bool_decide; [done|].
  assert (res_mapM (fun x => _ ← assert_that (x <=? 2 ^ 32 - 1); Ok (wrap 32 x)) words
    = if forallb (fun x => x <? 2 ^ 32) words then Ok words else (Panic : res WithdrawalCircuitError _)) as Hm.
  { clear H. induction Hw as [|x l Hx _ IH]; [done|]. cbn [res_mapM forallb]. unfold in_width in Hx.
    destruct (Z.ltb_spec x (2 ^ 32)); cbn [andb].
    - rewrite (proj2 (Z.leb_le _ _)) by lia. cbn [assert_that mbind res_bind]. rewrite IH.
      destruct (forallb _ l); cbn [mbind res_bind]; [|done]. by rewrite wrap_id by (unfold in_width; lia).
    - by rewrite (proj2 (Z.leb_gt _ _)) by lia. }
  rewrite Hm. by destruct (forallb _ words).
Qed.

Section codec.
Context {P : Poseidon} {W : PoseidonWords P} {PR : PoseidonReadable P W}.

Definition single_pis_typed (p : SingleWithdawalPublicInputs) : Prop :=
  public_state_typed (SingleWithdawalPublicInputs.public_state p) /\ withdrawal_typed (SingleWithdawalPublicInputs.withdrawal p).

Lemma single_words_length p : length (SingleWithdawalPublicInputs.to_u64_vec p) = SINGLE_WITHDRAWAL_PUBLIC_INPUTS_LEN.
Proof. unfold SingleWithdawalPublicInputs.to_u64_vec. by rewrite length_app, public_state_words_length, withdrawal_words_length. Qed.

Lemma single_pis_roundtrip p : single_pis_typed p ->
  SingleWithdawalPublicInputs.from_u64_slice (SingleWithdawalPublicInputs.to_u64_vec p) = Ok p.
Proof.
  intros [Hs Hd]. unfold SingleWithdawalPublicInputs.from_u64_slice. rewrite single_words_length, bool_decide_eq_false_2 by (by intros []).
  set (cs := [PublicState.to_u64_vec (SingleWithdawalPublicInputs.public_state p);
              Withdrawal.to_u32_vec (SingleWithdawalPublicInputs.withdrawal p)]).
  assert (length <$> cs = [15; 30]%nat) as Hl.
  { subst cs. cbn [fmap list_fmap]. by rewrite public_state_words_length, withdrawal_words_length. }
  assert (SingleWithdawalPublicInputs.to_u64_vec p = concat cs) as -> by (subst cs; cbn [concat]; by rewrite app_nil_r).
  read_chunks Hl. rewrite public_state_roundtrip by done. rewrite withdrawal_u64_roundtrip by done.
  cbn [map_err mbind res_bind]. by destruct p.
Qed.

Definition step_pis_typed (cap_len : nat) (p : WithdrawalStepPublicInputs) : Prop :=
  public_state_typed (WithdrawalStepPublicInputs.public_state p) /\ vd_shaped cap_len (WithdrawalStepPublicInputs.vd p).

Lemma step_pis_roundtrip {E} cap_len p : step_pis_typed cap_len p ->
  exists ws, WithdrawalStepPublicInputs.to_u64_vec (E := E) cap_len p = Ok ws /\
    WithdrawalStepPublicInputs.from_u64_slice ws cap_len = Ok p /\
    slice 0 8 ws = Limbs.to_u64_vec (WithdrawalStepPublicInputs.withdrawal_hash_chain p) /\
    slice 8 23 ws = PublicState.to_u64_vec (WithdrawalStepPublicInputs.public_state p).
Proof.
  intros [Hs Hv]. destruct p as [h ps vd]. cbn in Hs, Hv. unfold WithdrawalStepPublicInputs.to_u64_vec.
  cbn [WithdrawalStepPublicInputs.vd WithdrawalStepPublicInputs.public_state WithdrawalStepPublicInputs.withdrawal_hash_chain].
  rewrite (vd_to_vec_Ok _ _ Hv). cbn [mbind res_bind].
  set (cs := [Limbs.to_u64_vec h; PublicState.to_u64_vec ps; vd_words vd]).
  assert (length <$> cs = [8; 15; VerifierData.vec_len cap_len]%nat) as Hl.
  { subst cs. cbn [fmap list_fmap]. by rewrite bytes32_words_length, public_state_words_length, (vd_words_length _ _ Hv). }
  exists (concat cs). split; [subst cs; cbn [concat]; by rewrite app_nil_r|].
  split; [|split; by read_chunks Hl].
  unfold WithdrawalStepPublicInputs.from_u64_slice. rewrite length_chunks, Hl.
  rewrite bool_decide_eq_false_2 by (intros []; cbn; lia).
  read_chunks Hl. rewrite from_u64_slice_to_u64_vec, public_state_roundtrip by done. cbn [map_err mbind res_bind].
  rewrite vd_roundtrip by done. by cbn [map_err mbind res_bind].
Qed.

End codec.

(** ** The circuits *)

(** The verifier data of the chain circuit has the caps of its common data, and a step proof exposes
    the words of its public inputs. *)
Class WithdrawalDataOk {P : Poseidon} {W : PoseidonWords P} {BP : BalanceProofs} {PL : Plonky2} (WP : WithdrawalProvers) : Prop := {
  withdrawal_vd_shaped : vd_shaped (cap_elements (vd_common withdrawal_chain_vd)) (vd_only withdrawal_chain_vd);
  withdrawal_step_words w pis p ws : withdrawal_step_data_prove w pis = Some p ->
    WithdrawalStepPublicInputs.to_u64_vec (E := unit) (cap_elements (vd_common withdrawal_chain_vd)) pis = Ok ws -> public_inputs p = ws;
}.

(** ** The honest withdrawal *)

Section honest.
Context {P : Poseidon} {W : PoseidonWords P} {K : Keccak} {BP : BalanceProofs} {PL : Plonky2}.

Notation history ws := (foldl Chain.add Chain.genesis ws).

(** The account state of channel [c] for its send [i]. *)
Definition chain_account (chs : Z -> channel) (c : ChannelId) (i : nat) : AccountState :=
  AccountState.mk c (channels_root chs) (default SendLeaf.default (sends (chs c) !! i)) (Z.of_nat i)
    (tree_proof (list_leaves (sends (chs c))) SEND_TREE_HEIGHT (Z.of_nat i)) (channel_leaf (chs c))
    (tree_proof (fun c => leaf_hash (channel_leaf (chs c))) CHANNEL_TREE_HEIGHT c).

Lemma chain_account_ok chs c i : in_width 32 c -> Z.of_nat i < 2 ^ 32 ->
  account_shape (chain_account chs c i) /\ AccountState.verify (chain_account chs c i) = Ok tt.
Proof.
  intros Hc Hi. pose proof send_tree_height as Hsh. pose proof channel_tree_height as Hch.
  unfold account_shape, AccountState.verify. cbn [chain_account AccountState.channel_id
    AccountState.account_tree_root AccountState.send_leaf AccountState.send_leaf_index
    AccountState.send_merkle_proof AccountState.channel_leaf AccountState.user_merkle_proof].
  rewrite !tree_proof_height. split; [unfold in_width in *; split_and!; done || lia|].
  cbn [channel_leaf ChannelLeaf.send_tree_root].
  rewrite (tree_proof_verifies (V := SendLeaf)) by (unfold list_leaves; rewrite ?Nat2Z.id, ?Hsh; done || lia).
  cbn [map_err mbind res_bind]. unfold channels_root.
  by rewrite (tree_proof_verifies (V := ChannelLeaf)) by (unfold in_width in *; rewrite ?Hch; done || lia).
Qed.

(** From the state after [m] blocks of a history to the state after all of them. *)
Definition chain_update (ws : list BlockHashChainProcessorWitness) (m : nat) : UpdatePublicState :=
  UpdatePublicState.mk (Chain.public_state (history ws)) (Chain.public_state (history (take m ws)))
    (tree_proof (list_leaves (Chain.past (history ws))) PUBLIC_STATE_TREE_HEIGHT (Z.of_nat m)).

Lemma past_lookup ws m : (m < length ws)%nat -> Chain.past (history ws) !! m = Some (Chain.public_state (history (take m ws))).
Proof.
  intros Hm. destruct (Chain.past (history ws) !! m) as [x|] eqn:Hx; [by destruct (history_past _ _ _ Hx) as [_ ->]|].
  apply lookup_ge_None in Hx. rewrite past_length in Hx. lia.
Qed.

Lemma chain_update_ok ws m : (m <= length ws)%nat -> Z.of_nat (length ws) < 2 ^ 63 -> UpdatePublicState.verify (chain_update ws m) = Ok tt.
Proof.
  intros Hm Hlen. unfold UpdatePublicState.verify, chain_update.
  cbn [UpdatePublicState.old UpdatePublicState.new UpdatePublicState.merkle_proof].
  case_bool_decide as Heq; [done|].
  assert (m < length ws)%nat as Hlt.
  { destruct (decide (m = length ws)) as [->|]; [|lia]. by rewrite firstn_all in Heq. }
  rewrite proof_get_root_eq. cbn [mbind res_bind].
  set (n := U63.as_u64 (PublicState.block_number (Chain.public_state (history (take m ws))))).
  assert (n = Z.of_nat m) as ->.
  { subst n. cbn [Chain.public_state PublicState.block_number U63.as_u64]. rewrite run_number, length_take.
    change (Chain.number Chain.genesis) with 0. lia. }
  pose proof public_state_tree_height as Hh.
  pose proof (tree_proof_verifies (list_leaves (Chain.past (history ws))) PUBLIC_STATE_TREE_HEIGHT (Z.of_nat m)
    (Chain.public_state (history (take m ws)))) as Hv.
  rewrite ensure_decided; [done|]. symmetry.
  enough (proof_verify (tree_proof (list_leaves (Chain.past (history ws))) PUBLIC_STATE_TREE_HEIGHT (Z.of_nat m))
    (Chain.public_state (history (take m ws))) (Z.of_nat m)
    (subtree (list_leaves (Chain.past (history ws))) PUBLIC_STATE_TREE_HEIGHT 0) = Ok tt) as Hp.
  { apply proof_verify_Ok in Hp as [_ Hp]. symmetry. exact Hp. }
  apply Hv; [lia|rewrite Hh; lia|]. unfold list_leaves. by rewrite Nat2Z.id, (past_lookup ws m Hlt).
Qed.

(** A transfer of a settled transaction that can be withdrawn: the account's proof and state, the send
    of the history that settled it, and its place in the batch. *)
Record payout := mkPayout {
  po_proof : BalanceProof;
  po_private : PrivateState;
  po_since : nat;
  po_channel : ChannelId;
  po_send : nat;
  po_tx : Tx;
  po_tx_proof : MerkleProof;
  po_batch : list Transfer;
  po_index : nat;
}.

Definition honest_single (ws : list BlockHashChainProcessorWitness) (l : ledger) (x : payout) (t : Transfer)
    : SingleWithdawalWitness :=
  mk (po_proof x) (po_private x) (chain_update ws (po_since x))
    (chain_account (Chain.channels (history ws)) (po_channel x) (po_send x))
    (proof_dummy (Hs := PoseidonLeafableHasher) TX_TREE_HEIGHT) (Some (po_tx_proof x)) (Some (block_form (po_tx x))) (po_tx x)
    (honest_proof SENT_TX_TREE_HEIGHT (sent l) (Tx.nonce (po_tx x)))
    (TransferWitness.mk (Tx.transfer_tree_root (po_tx x)) t (Z.of_nat (po_index x))
       (tree_proof (list_leaves (po_batch x)) TRANSFER_TREE_HEIGHT (Z.of_nat (po_index x)))).

Record withdrawable {WP : WithdrawalProvers} (ws : list BlockHashChainProcessorWitness) (l : ledger) (x : payout) (t : Transfer) (a : Address)
    : Prop := {
  pa_checked : balance_cyclic_check (po_proof x) = true /\ balance_verify (po_proof x) = true;
  pa_since : (po_since x <= length ws)%nat;
  pa_proof : exists r tail, proves (po_proof x) (BalancePublicInputs.mk (po_channel x)
    (Chain.public_state (history (take (po_since x) ws))) r (PrivateState.commitment (po_private x)) tail);
  pa_ledger : commits (po_private x) l;
  pa_sent : sent l !! Tx.nonce (po_tx x) = Some (po_tx x);
  pa_nonce : in_width 32 (Tx.nonce (po_tx x));
  pa_channel : in_width 32 (po_channel x);
  pa_send : exists leaf, sends (Chain.channels (history ws) (po_channel x)) !! po_send x = Some leaf /\
    proof_verify (po_tx_proof x) (block_form (po_tx x)) (po_channel x) (reduce_to_hash_out (SendLeaf.tx_tree_root leaf)) = Ok tt;
  pa_index : Z.of_nat (po_send x) < 2 ^ 32;
  pa_height : proof_height (po_tx_proof x) = TX_TREE_HEIGHT;
  pa_batch : Tx.transfer_tree_root (po_tx x) = subtree (list_leaves (po_batch x)) TRANSFER_TREE_HEIGHT 0;
  pa_transfer : po_batch x !! po_index x = Some t;
  pa_place : (po_index x < MAX_NUM_TRANSFERS_PER_TX)%nat;
  pa_token : in_width 32 (Transfer.token_index t);
  pa_address : extract_address_from_recipient (Transfer.recipient t) = Ok a;
}.

Lemma max_transfers : Z.of_nat MAX_NUM_TRANSFERS_PER_TX = 2 ^ Z.of_nat TRANSFER_TREE_HEIGHT.
Proof. reflexivity. Qed.

Lemma honest_single_shaped {WP : WithdrawalProvers} ws l x t a : withdrawable ws l x t a -> single_shaped (honest_single ws l x t).
Proof.
  intros [_ _ _ _ _ Hn Hc _ Hi Hh _ _ Hp _ _]. pose proof max_transfers as Hm. change (2 ^ Z.of_nat TRANSFER_TREE_HEIGHT) with 64 in Hm.
  split; cbn [honest_single account_state tx_merkle_proof tx_v2_merkle_proof sent_tx_merkle_proof tx transfer_witness
    TransferWitness.transfer_merkle_proof TransferWitness.transfer_index].
  - by apply chain_account_ok.
  - unfold proof_height, proof_dummy. cbn [siblings]. apply length_replicate.
  - by intros p [= <-].
  - apply honest_proof_height.
  - done.
  - apply tree_proof_height.
  - unfold in_width. lia.
Qed.

(** The witness of a withdrawable transfer is accepted. *)
Lemma honest_single_accepted {PR : PoseidonReadable P W} {WP : WithdrawalProvers} ws l x t a :
  withdrawable ws l x t a -> Z.of_nat (length ws) < 2 ^ 63 ->
  exists n, single_to_public_inputs (honest_single ws l x t) =
    Ok (SingleWithdawalPublicInputs.mk (Chain.public_state (history ws))
      (Withdrawal.mk a (Transfer.token_index t) (Transfer.amount t) n (Transfer.aux_data t))) /\
    SettledTransfer.nullifier (E := unit)
      (SettledTransfer.mk t (po_channel x) (Z.of_nat (po_index x)) (Tx.nonce (po_tx x))) = Ok n.
Proof.
  intros [[Hcy Hve] Hm (r & tail & vd & Hpr) Hl Hs Hn Hc (leaf & Hleaf & Hinc) Hi Hh Hb Ht Hp Htok Hadr] Hlen.
  set (st := SettledTransfer.mk t (po_channel x) (Z.of_nat (po_index x)) (Tx.nonce (po_tx x))).
  destruct (into_bytes32_total (E := unit) (SettledTransfer.poseidon_hash st)) as [n Hnf]. exists n. split; [|exact Hnf].
  unfold single_to_public_inputs.
  cbn [honest_single balance_proof private_state update_public_state account_state tx_merkle_proof tx_v2_merkle_proof
    tx_v2 tx sent_tx_merkle_proof transfer_witness chain_account AccountState.channel_id AccountState.account_tree_root
    AccountState.send_leaf TransferWitness.transfer_tree_root TransferWitness.transfer TransferWitness.transfer_index].
  fold (chain_account (Chain.channels (history ws)) (po_channel x) (po_send x)).
  rewrite Hcy, Hve. cbn [ensure mbind res_bind]. rewrite Hpr. cbn [map_err mbind res_bind BalancePublicInputs.channel_id
    BalancePublicInputs.private_commitment BalancePublicInputs.public_state].
  rewrite ensure_decided by done. rewrite (chain_update_ok ws (po_since x)) by done. cbn [map_err mbind res_bind].
  rewrite ensure_decided by done. rewrite (co_sent _ _ Hl). unfold sent_root. pose proof sent_tx_tree_height as Hsh.
  rewrite honest_proof_verifies; [|lia|rewrite Hsh; unfold in_width in Hn; lia|by rewrite Hs]. cbn [map_err mbind res_bind].
  rewrite ensure_decided by done. unfold TransferWitness.verify at 1.
  cbn [TransferWitness.transfer_merkle_proof TransferWitness.transfer TransferWitness.transfer_index TransferWitness.transfer_tree_root].
  pose proof max_transfers as Hmt. rewrite Hb.
  rewrite (tree_proof_verifies (V := Transfer)); [|unfold TRANSFER_TREE_HEIGHT; lia|split; [lia|]; rewrite <- Hmt; by apply Nat2Z.inj_lt|unfold list_leaves; by rewrite Nat2Z.id, Ht].
  cbn [map_err mbind res_bind]. rewrite Z.eqb_refl. cbn [ensure mbind res_bind]. rewrite ensure_decided by done.
  destruct (chain_account_ok (Chain.channels (history ws)) (po_channel x) (po_send x) Hc Hi) as [_ Hacc]. rewrite Hacc.
  cbn [map_err mbind res_bind]. rewrite Hleaf. change (default SendLeaf.default (Some leaf)) with leaf. unfold withdrawal_tx_included. cbn [honest_single tx_v2 tx_v2_merkle_proof tx].
  rewrite Hinc. cbn [map_err mbind res_bind block_form TxV2.tx_class TxV2.channel_action_root TxV2.transfer_tree_root TxV2.nonce].
  rewrite !ensure_decided by done. cbn [mbind res_bind]. rewrite ?Z.eqb_refl. cbn [ensure mbind res_bind]. rewrite Hadr.
  cbn [map_err mbind res_bind]. fold st. unfold SettledTransfer.nullifier. rewrite (phash_bytes_any_error _ _ Hnf). done.
Qed.

End honest.

(** ** The honest chain *)

Section chain.
Context {P : Poseidon} {W : PoseidonWords P} {PR : PoseidonReadable P W} {K : Keccak} {BP : BalanceProofs} {PL : Plonky2}.
Context {WP : WithdrawalProvers} {WPO : WithdrawalProversOk WP} {WDO : WithdrawalDataOk WP}.

Notation history ws := (foldl Chain.add Chain.genesis ws).

(** A history whose counters and timestamps fit their words. *)
Definition history_typed (ws : list BlockHashChainProcessorWitness) : Prop :=
  Z.of_nat (length ws) < 2 ^ 63 /\ Forall (fun w => in_width 64 (Block.timestamp (BlockHashChainProcessorWitness.block w))) ws.

Lemma history_typed_take m ws : history_typed ws -> history_typed (take m ws).
Proof. intros [Hl Ht]. split; [rewrite length_take; lia|by apply Forall_take]. Qed.

Lemma history_state_typed ws : history_typed ws -> public_state_typed (Chain.public_state (history ws)).
Proof.
  intros [Hl Ht]. split; [|by apply history_time]. cbn [Chain.public_state PublicState.block_number U63.as_u64].
  rewrite run_number. change (Chain.number Chain.genesis) with 0. lia.
Qed.

Lemma chain_update_shaped ws m : history_typed ws -> update_ok (chain_update ws m).
Proof. intros Ht. split; [apply tree_proof_height|]. by apply history_state_typed, history_typed_take. Qed.

(** A chain proof for the withdrawals [ds] under the state of the history. *)
Record chain_at (ws : list BlockHashChainProcessorWitness) (ds : list Withdrawal) (p : Proof) : Prop := {
  ca_exposes : exposes_withdrawals p (WithdrawalStepPublicInputs.mk (withdrawal_chain ds)
    (Chain.public_state (history ws)) (vd_only withdrawal_chain_vd));
  ca_verifies : vd_verify withdrawal_chain_vd p = true;
  ca_cyclic : cyclic_check withdrawal_chain_vd p = true;
  ca_words : slice 0 8 (public_inputs p) = Limbs.to_u64_vec (withdrawal_chain ds) /\
    slice 8 23 (public_inputs p) = PublicState.to_u64_vec (Chain.public_state (history ws));
}.

Definition resumes_withdrawals (ws : list BlockHashChainProcessorWitness) (ds : list Withdrawal) (prev : option Proof) : Prop :=
  match prev with None => ds = [] | Some q => chain_at ws ds q end.

Definition payout_of (t : Transfer) (a : Address) (n : Bytes32) : Withdrawal :=
  Withdrawal.mk a (Transfer.token_index t) (Transfer.amount t) n (Transfer.aux_data t).

(** What the chain reads from the proof of a single withdrawal. *)
Definition exposes_single (p : Proof) (pis : SingleWithdawalPublicInputs) : Prop :=
  exists words, slice_to (E := unit) SINGLE_WITHDRAWAL_PUBLIC_INPUTS_LEN (public_inputs p) = Ok words /\
    SingleWithdawalPublicInputs.from_u64_slice words = Ok pis.

(** No proof of a single withdrawal that the native code accepts. *)
Definition single_failure (w : SingleWithdawalWitness) (e : SingleWithdawalCircuitError) : Prop :=
  e = SingleFailedToProve /\ exists pis, single_to_public_inputs w = Ok pis /\
    SingleWithdawalPublicInputs.from_u64_slice (SingleWithdawalPublicInputs.to_u64_vec pis) = Ok pis /\ single_withdrawal_data_prove w pis = None.

Lemma single_outcome w pis : single_to_public_inputs w = Ok pis -> single_pis_typed pis ->
  ends (fun sp => exposes_single sp pis) (single_failure w) (single_prove w).
Proof.
  intros Hpis Ht. unfold single_prove. rewrite Hpis. cbn [map_err mbind res_bind].
  eapply ends_impl; [| |apply (ends_ok_or (single_failure w))]; [intros sp Hsp; exact (single_exposes _ _ _ Hsp)|done|].
  intros Hn. split; [done|]. exists pis. split_and!; [done|by apply single_pis_roundtrip|done].
Qed.

(** The next step of a chain, on a proof of a single withdrawal at an earlier state. *)
Lemma step_native ws ds prev sp pis m :
  Z.of_nat (length ws) < 2 ^ 63 -> (m <= length ws)%nat -> resumes_withdrawals ws ds prev -> vd_verify single_withdrawal_vd sp = true ->
  exposes_single sp pis -> SingleWithdawalPublicInputs.public_state pis = Chain.public_state (history (take m ws)) ->
  step_to_public_inputs (WithdrawalStepWitness.mk prev sp (chain_update ws m)) =
    Ok (WithdrawalStepPublicInputs.mk (withdrawal_chain (ds ++ [SingleWithdawalPublicInputs.withdrawal pis]))
      (Chain.public_state (history ws)) (vd_only withdrawal_chain_vd)).
Proof.
  intros Hl Hm Hprev Hv (words & Hwords & Hread) Hps. unfold step_to_public_inputs.
  cbn [WithdrawalStepWitness.update_public_state WithdrawalStepWitness.single_withdrawal_proof WithdrawalStepWitness.prev_withdrawal_chain_proof].
  rewrite (chain_update_ok ws m Hm Hl). cbn [map_err mbind res_bind]. rewrite Hv. cbn [ensure mbind res_bind].
  rewrite (slice_to_any _ _ _ Hwords). cbn [mbind res_bind]. rewrite Hread. cbn [map_err mbind res_bind].
  rewrite ensure_decided by exact Hps. cbn [mbind res_bind]. unfold withdrawal_chain. rewrite foldl_app. cbn [foldl].
  destruct prev as [q|]; cbn in Hprev; [|by subst ds]. destruct Hprev as [Hex Hvq _ _]. rewrite Hvq. cbn [ensure mbind res_bind].
  unfold exposes_withdrawals in Hex. rewrite Hex. cbn [map_err mbind res_bind]. by rewrite ensure_decided by done.
Qed.

(** No proof of a step that the native code accepts, or none of the outer circuit. *)
Inductive step_failure (w : WithdrawalStepWitness) : WithdrawalProcessorError -> Prop :=
| step_stuck pis ws : step_to_public_inputs w = Ok pis ->
    WithdrawalStepPublicInputs.to_u64_vec (E := unit) (cap_elements (vd_common withdrawal_chain_vd)) pis = Ok ws ->
    WithdrawalStepPublicInputs.from_u64_slice ws (cap_elements (vd_common withdrawal_chain_vd)) = Ok pis ->
    withdrawal_step_data_prove w pis = None -> step_failure w (WithdrawalStepFailed StepFailedToProve)
| outer_stuck pis p : withdrawal_step_data_prove w pis = Some p -> withdrawal_chain_data_prove p = None -> step_failure w WithdrawalChainFailed.

Lemma step_outcome ws ds prev sp pis m :
  history_typed ws -> (m <= length ws)%nat -> resumes_withdrawals ws ds prev -> vd_verify single_withdrawal_vd sp = true ->
  exposes_single sp pis -> SingleWithdawalPublicInputs.public_state pis = Chain.public_state (history (take m ws)) ->
  let w := WithdrawalStepWitness.mk prev sp (chain_update ws m) in
  ends (fun q => vd_verify withdrawal_chain_vd q = true -> cyclic_check withdrawal_chain_vd q = true ->
      chain_at ws (ds ++ [SingleWithdawalPublicInputs.withdrawal pis]) q) (step_failure w) (withdrawal_prove_step w).
Proof.
  intros Ht Hm Hprev Hv Hex Hps w. pose proof (step_native ws ds prev sp pis m (proj1 Ht) Hm Hprev Hv Hex Hps) as Hnew. fold w in Hnew.
  set (new := WithdrawalStepPublicInputs.mk _ _ _) in Hnew.
  destruct (step_pis_roundtrip (E := unit) (cap_elements (vd_common withdrawal_chain_vd)) new) as (out & Hout & Hparse & Hh & Hs).
  { split; [by apply history_state_typed|apply withdrawal_vd_shaped]. }
  eapply ends_impl; [| |exact (ends_wrapped _ _ _ _ _ _ new Hnew)].
  - intros q (p & Hp & Hq) Hvq Hcq. pose proof (withdrawal_chain_forwards _ _ Hq) as Hf. split; [|done|done|].
    + unfold exposes_withdrawals. rewrite Hf. by apply (withdrawal_step_exposes _ _ _ Hp).
    + rewrite Hf, (withdrawal_step_words _ _ _ _ Hp Hout). by split.
  - intros e [[Hp ->]|(p & Hp & Hq & ->)]; [by eapply step_stuck|by eapply outer_stuck].
Qed.

(** ** The final proof *)

Lemma remove_3bits_total {E} (b : Bytes32) : exists c, remove_3bits (E := E) b = Ok c.
Proof.
  unfold remove_3bits. pose proof (limbs_length b) as Hl. pose proof (limbs_u32 b) as Hw.
  destruct (limbs b) as [|l ls] eqn:Hb; [done|]. apply Forall_cons_iff in Hw as [_ Hw].
  assert (limbs_wfb BYTES32_LEN (Z.land l (2 ^ 29 - 1) :: ls) = true) as Hwf.
  { apply limbs_wfb_spec. split; [exact Hl|]. constructor; [|exact Hw]. change (2 ^ 29 - 1) with (Z.ones 29).
    rewrite Z.land_ones by lia. unfold in_width. pose proof (Z.mod_pos_bound l (2 ^ 29)). lia. }
  exists (mkLimbs _ Hwf). change (Z.land l (2 ^ 29 - 1) :: ls) with (limbs (mkLimbs _ Hwf)) at 1. by rewrite from_u32_slice_limbs.
Qed.

(** No final proof for inputs that the native code accepts. *)
Definition final_failure (p : Proof) (a : Address) (x : ExtendedPublicState) (e : WithdrawalProcessorError) : Prop :=
  e = WithdrawalCircuitFailed WithdrawalFailedToProve /\
  exists inputs, WithdrawalCircuit.registered_inputs p a x = Ok inputs /\ withdrawal_data_prove p a x inputs = None.

Lemma final_outcome ws ds p a : chain_at ws ds p ->
  ends (fun fin => WithdrawalCircuit.registered_inputs p a (Chain.view (history ws)) = Ok (public_inputs fin))
    (final_failure p a (Chain.view (history ws))) (WithdrawalCircuit.prove_final p a (Chain.view (history ws))).
Proof.
  intros [Hex Hv Hc [Hh Hs]].
  destruct (into_bytes32_total (E := WithdrawalCircuitError) (hash_inputs_u64 (ExtendedPublicState.to_u64_vec (Chain.view (history ws))))) as [c Hcm].
  assert (exists inputs, WithdrawalCircuit.registered_inputs p a (Chain.view (history ws)) = Ok inputs) as [inputs Hin].
  { unfold WithdrawalCircuit.registered_inputs. rewrite Hc, Hv. cbn [andb ensure mbind res_bind]. rewrite Hh, from_u64_slice_to_u64_vec.
    cbn [map_err mbind res_bind]. rewrite ensure_decided by exact Hs. cbn [mbind res_bind].
    unfold ExtendedPublicState.commitment. rewrite Hcm. cbn [mbind res_bind]. unfold WithdrawalProofPublicInputs.hash.
    match goal with |- context [remove_3bits ?b] => destruct (remove_3bits_total (E := WithdrawalCircuitError) b) as [r Hr] end.
    rewrite Hr. by eexists. }
  unfold WithdrawalCircuit.prove_final, WithdrawalCircuit.prove. rewrite Hin. cbn [mbind res_bind]. apply ends_map_err.
  eapply ends_impl; [| |apply (ends_ok_or (fun e => final_failure p a (Chain.view (history ws)) (WithdrawalCircuitFailed e)))]; [|done|].
  - intros fin Hfin. by rewrite (withdrawal_exposes _ _ _ _ _ Hfin).
  - intros Hn. split; [done|]. by exists inputs.
Qed.

(** ** Many withdrawals *)

(** A withdrawable transfer at the state after [cl_at] blocks. *)
Record claim := mkClaim {
  cl_at : nat;
  cl_ledger : ledger;
  cl_payout : payout;
  cl_transfer : Transfer;
  cl_address : Address;
}.

Definition claim_ok (ws : list BlockHashChainProcessorWitness) (e : claim) : Prop :=
  (cl_at e <= length ws)%nat /\ withdrawable (take (cl_at e) ws) (cl_ledger e) (cl_payout e) (cl_transfer e) (cl_address e).

Definition claim_witness (ws : list BlockHashChainProcessorWitness) (e : claim) : SingleWithdawalWitness :=
  honest_single (take (cl_at e) ws) (cl_ledger e) (cl_payout e) (cl_transfer e).

(** The withdrawal that a claim is paid by. *)
Definition pays (e : claim) (d : Withdrawal) : Prop :=
  exists n, d = payout_of (cl_transfer e) (cl_address e) n /\
    SettledTransfer.nullifier (E := unit) (SettledTransfer.mk (cl_transfer e) (po_channel (cl_payout e))
      (Z.of_nat (po_index (cl_payout e))) (Tx.nonce (po_tx (cl_payout e)))) = Ok n.

(** The statement that the claim proves on its own. *)
Definition claim_statement (ws : list BlockHashChainProcessorWitness) (e : claim) (d : Withdrawal) : SingleWithdawalPublicInputs :=
  SingleWithdawalPublicInputs.mk (Chain.public_state (history (take (cl_at e) ws))) d.

Lemma claim_outcome ws e : history_typed ws -> claim_ok ws e ->
  exists d, pays e d /\ single_to_public_inputs (claim_witness ws e) = Ok (claim_statement ws e d) /\
    ends (fun sp => exposes_single sp (claim_statement ws e d)) (single_failure (claim_witness ws e)) (single_prove (claim_witness ws e)).
Proof.
  intros Ht [Hm Hx]. pose proof (history_typed_take (cl_at e) ws Ht) as Ht'. destruct (honest_single_accepted _ _ _ _ _ Hx (proj1 Ht')) as (n & Hpis & Hn).
  exists (payout_of (cl_transfer e) (cl_address e) n). split; [by exists n|]. split; [exact Hpis|]. apply single_outcome; [exact Hpis|].
  split; [by apply history_state_typed|apply Hx].
Qed.

End chain.
