(* ===== verification/ValidityScenario.v ===== *)
(** * A concrete run of the validity proofs

    A deposit and a channel registration in a first block, a signed send of
    that channel in a second one.  Hash outs are four words below the field
    order; [ScenarioPoseidon] is collision free and maps the two inputs whose
    hash must be a digest (a Regev key and the transaction tree of the second
    block) to small words.  Proofs are the words they expose. *)

From S2P Require Import Prelude Limbs U63 Circuit MerkleTree LeafTrees Poseidon IndexedTree Keccak Regev BalanceState Account AccountProps AccountScenario Ledger LedgerProps Balance BalanceProps BalanceCodec LedgerScenario Channel HashChains BlockStep BlockChain HashChainProps BlockStepProps BlockChainProps ChainCodec ValidityProgress.

#[local] Remove Hints Leafable_Bytes32 : typeclass_instances.

(** ** Hashes *)

Definition words_okb (l : list Z) : bool := (length l =? 4)%nat && forallb (fun x => x <? GOLDILOCKS_ORDER) l.

Record words4 := mkWords4 { words4_list : list Z; words4_ok : words_okb words4_list = true }.

Lemma words4_eq (h k : words4) : words4_list h = words4_list k -> h = k.
Proof. destruct h as [l Hl], k as [k Hk]. cbn. intros ->. f_equal. apply (Eqdep_dec.UIP_dec Bool.bool_dec). Qed.

#[local] Instance words4_eq_dec : EqDecision words4.
Proof.
  intros h k. destruct (decide (words4_list h = words4_list k)) as [He|Hne]; [left; by apply words4_eq|right; by intros ->].
Defined.

Definition words4_default : words4 := mkWords4 [0; 0; 0; 0] eq_refl.

Definition words4_of (l : list Z) : words4 :=
  match decide (words_okb l = true) with left H => mkWords4 l H | right _ => words4_default end.

Lemma words4_of_list l : words_okb l = true -> words4_list (words4_of l) = l.
Proof. intros H. unfold words4_of. by destruct (decide _). Qed.

(** The code of a word list, as one negative word. *)
Definition code (l : list Z) : list Z := [- Zpos (encode l); 0; 0; 0].

Lemma code_ok l : words_okb (code l) = true.
Proof. unfold words_okb, code. cbn [length forallb]. rewrite (proj2 (Z.ltb_lt _ _)) by (unfold GOLDILOCKS_ORDER; lia). reflexivity. Qed.

(** A batch that pays five units to an address, and its tree over [code]. *)
Definition payee : Bytes32 := mkLimbs (n := BYTES32_LEN) [2 ^ 25; 0; 0; 0; 0; 0; 0; 9] eq_refl.

Fixpoint code_tree (h : nat) (i : Z) : list Z :=
  match h with
  | O => code (Transfer.to_u64_vec (default Transfer.default (batch payee !! Z.to_nat i)))
  | S h' => code (code_tree h' (2 * i) ++ code_tree h' (2 * i + 1))
  end.

(** Sealed: it is never evaluated. *)
Lemma code_root_sealed : { l : list Z | l = code_tree TRANSFER_TREE_HEIGHT 0 }.
Proof. by eexists. Qed.
Definition code_root : list Z := proj1_sig code_root_sealed.

Definition tx_words : list Z := [0] ++ code_root ++ [0; 0; 0; 0; 0].
Definition pk_preimage : list Z := Pk.poseidon_inputs Pk.padding.
Definition root_preimage : list Z := [0; 0; 0; 0] ++ code tx_words.

(** The pairs of a small word and an empty sibling, and the word they hash to. *)
Definition spine (l : list Z) : option Z :=
  match l with
  | [x; 0; 0; 0; 0; 0; 0; 0] => if (2 <=? x) && (x <? 100) then Some (x + 1) else None
  | _ => None
  end.

Lemma spine_Some l y : spine l = Some y -> l = [y - 1; 0; 0; 0; 0; 0; 0; 0] /\ 3 <= y <= 100.
Proof.
  unfold spine. repeat case_match; try done. intros [= <-]. simplify_bool. split; [f_equal; lia|lia].
Qed.

(** Sealed as well: only its equations are used. *)
Definition hash_def (l : list Z) : list Z :=
  if decide (l = pk_preimage) then [1; 0; 0; 0]
  else if decide (l = root_preimage) then [2; 0; 0; 0]
  else match spine l with Some y => [y; 0; 0; 0] | None => code l end.

Lemma hash_sealed : { f : list Z -> list Z | forall l, f l = hash_def l }.
Proof. by eexists. Qed.
Definition scenario_hash : list Z -> list Z := proj1_sig hash_sealed.

Lemma scenario_hash_eq l : scenario_hash l = hash_def l.
Proof. exact (proj2_sig hash_sealed l). Qed.

Lemma scenario_hash_ok l : words_okb (scenario_hash l) = true.
Proof.
  rewrite scenario_hash_eq. unfold hash_def. destruct (decide _); [reflexivity|]. destruct (decide _); [reflexivity|].
  destruct (spine l) as [y|] eqn:Hy; [|apply code_ok]. apply spine_Some in Hy as [_ Hy].
  unfold words_okb, GOLDILOCKS_ORDER. cbn [length forallb]. by rewrite (proj2 (Z.ltb_lt _ _)) by lia.
Qed.

Definition ScenarioPoseidon : Poseidon := {|
  PHash := words4;
  phash_default := words4_default;
  phash_to_u64_vec := words4_list;
  hash_inputs_u64 l := mkWords4 (scenario_hash l) (scenario_hash_ok l);
|}.
#[local] Existing Instance ScenarioPoseidon.

#[local] Instance ScenarioWords : PoseidonWords ScenarioPoseidon := {| phash_from_elements l := words4_of l |}.

#[local] Instance scenario_collision_free : PoseidonCollisionFree ScenarioPoseidon.
Proof.
  split.
  - intros l k H. injection H as H. rewrite !scenario_hash_eq in H. unfold hash_def in H.
    repeat case_decide; try congruence; destruct (spine l) as [y|] eqn:Hl, (spine k) as [z|] eqn:Hk;
      try apply spine_Some in Hl as [Hl ?]; try apply spine_Some in Hk as [Hk ?]; injection H as H; try lia; try congruence.
    by apply (inj encode).
  - intros h k. apply words4_eq.
  - intros [l Hl]. cbn. unfold words_okb in Hl. apply andb_true_iff in Hl as [Hl _]. by apply Nat.eqb_eq in Hl.
Qed.

#[local] Instance scenario_elements : PoseidonElements ScenarioPoseidon ScenarioWords.
Proof.
  split; [|done]. intros ws Hl Hw. apply words4_of_list. unfold words_okb. rewrite Hl. apply forallb_forall.
  rewrite List.Forall_forall in Hw. intros x Hx. apply Z.ltb_lt, Hw, Hx.
Qed.

#[local] Instance scenario_readable : PoseidonReadable ScenarioPoseidon ScenarioWords.
Proof.
  split. intros [l Hl]. unfold phash_from_u64_slice. cbn [phash_to_u64_vec ScenarioPoseidon words4_list phash_from_elements ScenarioWords].
  pose proof Hl as Hl'. unfold words_okb in Hl'. apply andb_true_iff in Hl' as [Hlen Hw]. apply Nat.eqb_eq in Hlen.
  rewrite bool_decide_eq_false_2 by (intros H; by apply H). rewrite (proj2 (PoseidonHashOut_lemmas.position_noncanonical_None 0 l)).
  - f_equal. apply words4_eq. by apply words4_of_list.
  - rewrite forallb_forall in Hw. apply List.Forall_forall. intros x Hx. by apply Z.ltb_lt, Hw.
Qed.

#[local] Existing Instance UnitKeccak.

(** ** Proofs *)

#[local] Instance DepositChainPublicInputs_eq_dec {P : Poseidon} : EqDecision DepositChainPublicInputs.
Proof. solve_decision. Defined.
#[local] Instance ChannelRegChainPublicInputs_eq_dec {P : Poseidon} : EqDecision ChannelRegChainPublicInputs.
Proof. solve_decision. Defined.
#[local] Instance UpdateUserPublicInputs_eq_dec {P : Poseidon} : EqDecision UpdateUserPublicInputs.
Proof. solve_decision. Defined.
#[local] Instance ExtendedPublicState_eq_dec {P : Poseidon} : EqDecision ExtendedPublicState.
Proof. solve_decision. Defined.
#[local] Instance BlockChainPublicInputs_eq_dec {P : Poseidon} : EqDecision BlockChainPublicInputs.
Proof. solve_decision. Defined.

#[local] Instance WordPlonky2 : Plonky2 := {|
  Proof := list Z;
  public_inputs p := p;
  CommonData := unit;
  cap_elements _ := 0%nat;
  VerifierCircuitData := unit;
  vd_common _ := tt;
  vd_only _ := VerifierData.mk [] [0; 0; 0; 0];
  vd_verify _ _ := true;
  cyclic_check _ _ := true;
|}.

(** The words of [x], when they can be read back. *)
Definition exposing {E A} `{EqDecision A} (words : res unit (list Z)) (parse : list Z -> res E A) (x : A) : option (list Z) :=
  match words with
  | Ok ws => match parse ws with Ok y => if decide (y = x) then Some ws else None | _ => None end
  | _ => None
  end.

Lemma exposing_Some {E A} `{EqDecision A} words (parse : list Z -> res E A) x ws :
  exposing words parse x = Some ws <-> words = Ok ws /\ parse ws = Ok x.
Proof.
  unfold exposing. destruct words as [ws'| |]; [|naive_solver..]. split.
  - destruct (parse ws') as [y| |] eqn:Hp; [|done|done]. destruct (decide (y = x)) as [->|]; [|done]. intros [= <-]. done.
  - intros [[= ->] Hp]. rewrite Hp. by destruct (decide (x = x)).
Qed.

#[local] Instance WordChainProvers : ChainProvers := {|
  deposit_chain_vd := tt;
  deposit_step_data_prove _ pis :=
    exposing (DepositChainPublicInputs.to_u64_vec 0 pis) (fun ws => DepositChainPublicInputs.from_u64_slice ws 0) pis;
  deposit_chain_data_prove p := Some p;
  channel_reg_chain_vd := tt;
  channel_reg_step_data_prove _ pis :=
    exposing (ChannelRegChainPublicInputs.to_u64_vec 0 pis) (fun ws => ChannelRegChainPublicInputs.from_u64_slice ws 0) pis;
  channel_reg_chain_data_prove p := Some p;
|}.

#[local] Instance word_chain_provers_ok : ChainProversOk WordChainProvers.
Proof. split; [by intros w pis p [_ H]%exposing_Some|by intros p q [= ->]|by intros w pis p [_ H]%exposing_Some|by intros p q [= ->]]. Qed.

Lemma word_vd_shaped : vd_shaped 0 (VerifierData.mk [] [0; 0; 0; 0]).
Proof. by split. Qed.

#[local] Instance word_chain_data : ChainDataOk WordChainProvers.
Proof. split; apply word_vd_shaped. Qed.

#[local] Instance WordBlockProvers : BlockProvers := {|
  block_chain_cd := tt;
  update_user_vd _ := tt;
  update_user_data_prove _ _ pis :=
    exposing (Ok (UpdateUserPublicInputs.to_u64_vec pis)) UpdateUserPublicInputs.from_u64_slice pis;
  block_step_data_prove _ _ pis :=
    exposing (BlockChainPublicInputs.to_u64_vec 0 pis) (fun ws => BlockChainPublicInputs.from_u64_slice ws 0) pis;
  block_chain_vd _ := tt;
  block_chain_data_prove _ p := Some p;
|}.

#[local] Instance word_block_provers_ok : BlockProversOk WordBlockProvers.
Proof.
  split; [|by intros c w pis p [_ H]%exposing_Some|by intros c p q [= ->]].
  intros n w pis p H. apply (exposing_Some (Ok _) UpdateUserPublicInputs.from_u64_slice) in H. apply H.
Qed.

#[local] Instance word_block_data : BlockDataOk WordBlockProvers.
Proof. split; [done|intros; apply word_vd_shaped]. Qed.

Lemma exposing_None {E A} `{EqDecision A} words (parse : list Z -> res E A) x ws : words = Ok ws -> parse ws = Ok x -> exposing words parse x <> None.
Proof. intros H1 H2. by rewrite (proj2 (exposing_Some words parse x ws) (conj H1 H2)). Qed.

(** These provers prove whatever can be read back from its words. *)
Lemma word_never_fails counts s0 s b ds rs sd e : ~ prover_failure counts s0 s b ds rs sd e.
Proof.
  intros [e' [w pis ws _ _ Hw Hr Hn|]|e' [w pis ws _ _ Hw Hr Hn|]|pis _ Hr Hn|p [[_ ?]|[[_ ?]|(? & _ & ?)]]|w ws pis _ Hw Hr Hn|]; try done.
  - exact (exposing_None _ _ _ _ Hw Hr Hn).
  - exact (exposing_None _ _ _ _ Hw Hr Hn).
  - exact (exposing_None (Ok _) UpdateUserPublicInputs.from_u64_slice pis _ eq_refl Hr Hn).
  - exact (exposing_None _ _ _ _ Hw Hr Hn).
Qed.

Lemma word_proves counts c s0 s init prev b ds rs sd :
  BlockHashChainProcessor.new (E := BlockHashChainProcessorError) counts = Ok c -> Chain.ok s -> Chain.number s + 1 < 2 ^ 63 ->
  ext_typed (Chain.view s0) -> honest s b ds rs sd -> Block.num_users b ∈ counts -> resumes counts s0 s init prev ->
  exists p, BlockHashChainProcessor.prove_block c init prev (honest_witness s b ds rs sd) = Ok p /\
    resumes counts s0 (Chain.add s (honest_witness s b ds rs sd)) None (Some p).
Proof.
  intros Hc Hs Hn Ht Hh Hin Hr. pose proof (prove_block_outcome counts c s0 s init prev b ds rs sd Hc Hs Hn Ht Hh Hin Hr) as Hout.
  destruct (BlockHashChainProcessor.prove_block _ _ _ _) as [p|e|]; [|by apply word_never_fails in Hout|done]. exists p. by split_and!.
Qed.

(** ** The run *)

Definition digest (x : Z) (H : limbs_wfb BYTES32_LEN [0; x; 0; 0; 0; 0; 0; 0] = true) : Bytes32 := mkLimbs _ H.

Definition member (x : Z) (H : limbs_wfb BYTES32_LEN [0; x; 0; 0; 0; 0; 0; 0] = true) : MemberRegEntry :=
  MemberRegEntry.mk (digest x H) (digest x H) bytes32_one address_default.

Definition record1 : ChannelRegRecord :=
  ChannelRegRecord.mk 1 0 2 0 ([member 7 eq_refl; member 8 eq_refl] ++ replicate 6 MemberRegEntry.default).

Lemma record1_valid : record_valid record1.
Proof. apply record_validate_iff. vm_compute. reflexivity. Qed.

Definition deposit1 : Deposit :=
  Deposit.mk (U63.mkU63 0) (U63.mkU63 1) address_default bytes32_default 0 u256_max bytes32_default.

Definition block1 : Block := Block.mk 1 0 10 [0] bytes32_default bytes32_one bytes32_one.
Definition root2 : Bytes32 := digest 33 eq_refl.
Definition block2 : Block := Block.mk 1 1 20 [1] root2 bytes32_one bytes32_one.

Lemma tx2_root_sealed : { h : PHash | h = subtree (list_leaves (batch payee)) TRANSFER_TREE_HEIGHT 0 }.
Proof. by eexists. Qed.
Definition tx2_root : PHash := proj1_sig tx2_root_sealed.
Definition tx2 : TxV2 := TxV2.mk UserTransfer tx2_root 0 phash_default.
Definition tx2_proof : MerkleProof := mkMerkleProof (Hs := PoseidonLeafableHasher) (replicate 32 words4_default).

Definition send2 : send_data :=
  SendData record1 ChannelStateMessageFields.default [Pk.padding] tx2 tx2_proof ChannelAction.default 0 tx2_proof.

Definition witness1 : BlockHashChainProcessorWitness := honest_witness Chain.genesis block1 [deposit1] [record1] None.
Definition state1 : Chain.state := Chain.add Chain.genesis witness1.
Definition witness2 : BlockHashChainProcessorWitness := honest_witness state1 block2 [] [] (Some send2).

Lemma block1_honest : honest Chain.genesis block1 [deposit1] [record1] None.
Proof.
  split; cbn [block1 Block.channel_id Block.timestamp Block.num_users Block.key_ids length].
  - unfold in_width; lia.
  - unfold in_width; lia.
  - lia.
  - reflexivity.
  - intros [|i] d H; [|by destruct i]. injection H as <-. split; reflexivity.
  - cbn; lia.
  - reflexivity.
  - split; [exact record1_valid|]. split; [reflexivity|exact I].
  - split; [|cbn; lia]. constructor; [unfold in_width; cbn; lia|constructor].
  - intros _ H. cbn in H. apply (f_equal limbs) in H. discriminate H.
  - discriminate.
  - discriminate.
Qed.

Lemma hash_pk : scenario_hash pk_preimage = [1; 0; 0; 0].
Proof. rewrite scenario_hash_eq. unfold hash_def. by destruct (decide (pk_preimage = pk_preimage)). Qed.

Lemma pk_preimage_length : (25 < length pk_preimage)%nat.
Proof. unfold pk_preimage, Pk.poseidon_inputs. cbn [app length]. vm_compute. lia. Qed.

(** Words that are neither the key nor a pair of hash outs. *)
Lemma hash_long l : (8 < length l <= 25)%nat -> scenario_hash l = code l.
Proof.
  intros Hl. pose proof pk_preimage_length as Hpk. rewrite scenario_hash_eq. unfold hash_def. destruct (decide _) as [->|_]; [lia|].
  destruct (decide _) as [->|_]; [change (8 < 8 <= 25)%nat in Hl; lia|]. unfold spine. do 9 (destruct l as [|? l]; [cbn in Hl; lia|]).
  repeat case_match; done.
Qed.

Lemma hash_codes l k : scenario_hash (code l ++ code k) = code (code l ++ code k).
Proof.
  rewrite scenario_hash_eq. unfold hash_def. destruct (decide _) as [H|_].
  - exfalso. pose proof pk_preimage_length as Hl. rewrite <- H in Hl. cbn in Hl. lia.
  - destruct (decide _) as [H|_]; [discriminate H|reflexivity].
Qed.

Lemma code_tree_code h i : exists l, code_tree h i = code l.
Proof. destruct h; by eexists. Qed.

(** The transfer tree of the transaction. *)
Lemma transfer_tree_words h i :
  words4_list (subtree (list_leaves (batch payee)) h i) = code_tree h i.
Proof.
  revert i. induction h as [|h IH]; intros i.
  - cbn [subtree code_tree]. unfold list_leaves.
    change (scenario_hash (Transfer.to_u64_vec (default Transfer.default (batch payee !! Z.to_nat i)))
      = code (Transfer.to_u64_vec (default Transfer.default (batch payee !! Z.to_nat i)))).
    apply hash_long. rewrite transfer_to_u64_vec_length. change Transfer.TRANSFER_LEN with 25%nat. lia.
  - cbn [subtree code_tree]. rewrite <- !IH. destruct (code_tree_code h (2 * i)) as [l Hl], (code_tree_code h (2 * i + 1)) as [k Hk].
    change (scenario_hash (words4_list (subtree (list_leaves (batch payee)) h (2 * i))
      ++ words4_list (subtree (list_leaves (batch payee)) h (2 * i + 1))) = code (words4_list (subtree (list_leaves (batch payee)) h (2 * i))
      ++ words4_list (subtree (list_leaves (batch payee)) h (2 * i + 1)))).
    rewrite !IH, Hl, Hk. apply hash_codes.
Qed.

Lemma tx2_words : TxV2.to_u64_vec tx2 = tx_words.
Proof.
  change ([0] ++ words4_list tx2_root ++ [0; 0; 0; 0; 0] = tx_words). unfold tx_words, code_root, tx2_root.
  by rewrite (proj2_sig code_root_sealed), (proj2_sig tx2_root_sealed), transfer_tree_words.
Qed.

Lemma tx_words_length : length tx_words = 10%nat.
Proof. unfold tx_words, code_root. rewrite (proj2_sig code_root_sealed). destruct (code_tree_code TRANSFER_TREE_HEIGHT 0) as [l ->]. reflexivity. Qed.

Lemma hash_tx : scenario_hash tx_words = code tx_words.
Proof. apply hash_long. rewrite tx_words_length. lia. Qed.

Lemma hash_spine x : 2 <= x < 100 -> scenario_hash [x; 0; 0; 0; 0; 0; 0; 0] = [x + 1; 0; 0; 0].
Proof.
  intros Hx. rewrite scenario_hash_eq. unfold hash_def. destruct (decide _) as [H|_].
  - exfalso. pose proof pk_preimage_length as Hl. rewrite <- H in Hl. cbn in Hl. lia.
  - destruct (decide _) as [H|_]; [exfalso; injection H as H; lia|]. unfold spine.
    by rewrite (proj2 (Z.leb_le _ _)), (proj2 (Z.ltb_lt _ _)) by lia.
Qed.

Lemma hash_root : scenario_hash root_preimage = [2; 0; 0; 0].
Proof.
  rewrite scenario_hash_eq. unfold hash_def. destruct (decide _) as [H|_].
  - exfalso. pose proof pk_preimage_length as Hl. rewrite <- H in Hl. cbn in Hl. lia.
  - by destruct (decide (root_preimage = root_preimage)).
Qed.

(** The transaction tree of the second block. *)
Lemma spine_root n (h : words4) x :
  words4_list h = [x; 0; 0; 0] -> 2 <= x -> x + Z.of_nat n <= 100 ->
  words4_list (path_root (Hs := PoseidonLeafableHasher) (replicate n words4_default) 0 h) = [x + Z.of_nat n; 0; 0; 0].
Proof.
  revert h x. induction n as [|n IH]; intros h x Hh Hx Hn; [rewrite Z.add_0_r; exact Hh|]. cbn [replicate path_root].
  change (0 / 2) with 0. replace (x + Z.of_nat (S n)) with (x + 1 + Z.of_nat n) by lia. apply IH; [|lia|lia].
  change (scenario_hash (words4_list h ++ [0; 0; 0; 0]) = [x + 1; 0; 0; 0]). rewrite Hh. apply hash_spine. lia.
Qed.

Lemma tx2_included : proof_verify tx2_proof tx2 1 (reduce_to_hash_out root2) = Ok tt.
Proof.
  apply proof_verify_Ok. split; [reflexivity|]. apply words4_eq.
  change (reduce_to_hash_out root2) with (words4_of [33; 0; 0; 0]). rewrite words4_of_list by reflexivity.
  change (siblings tx2_proof) with (words4_default :: replicate 31 words4_default). cbn [path_root]. change (1 / 2) with 0.
  rewrite (spine_root 31 _ 2); [reflexivity| |lia|lia].
  change (scenario_hash ([0; 0; 0; 0] ++ scenario_hash (TxV2.to_u64_vec tx2)) = [2; 0; 0; 0]).
  rewrite tx2_words, hash_tx. exact hash_root.
Qed.

Lemma state1_channel : Chain.channels state1 1 = mkChannel [] (Some record1).
Proof. reflexivity. Qed.

Lemma state1_deposits : Chain.deposits state1 = [deposit1].
Proof.
  unfold state1. cbn [Chain.add Chain.deposits Chain.genesis app]. unfold Chain.new_deposits. rewrite bool_decide_eq_false_2.
  - apply (honest_deposits_fst [] [deposit1]).
  - intros H. apply (f_equal limbs) in H. discriminate H.
Qed.

Lemma state1_signatures : Chain.signatures state1 = bytes32_default.
Proof. reflexivity. Qed.

Lemma state1_records : Chain.records state1 = [record1].
Proof. reflexivity. Qed.

Lemma fold_genesis leaf : exists b, fold_statement bytes32_default leaf = Ok b.
Proof.
  unfold fold_statement, phash_try_from_bytes32. change (PoseidonHashOut.position_noncanonical _ _) with (@None nat).
  cbn iota. rewrite reduce_into_bytes32 by (vm_compute; reflexivity). cbn [mbind res_bind].
  rewrite bool_decide_eq_false_2 by (intros H; by apply H). cbn [mbind res_bind]. apply into_bytes32_total.
Qed.

Lemma send2_signs : signs state1 block2 send2.
Proof.
  split.
  - cbn; lia.
  - exact (f_equal registration state1_channel).
  - intros H. apply (f_equal limbs) in H. discriminate H.
  - change (Chain.channels state1 (Block.channel_id block2)) with (mkChannel [] (Some record1)). cbn; lia.
  - reflexivity.
  - intros [|i] k Hk Ha; [|by destruct i]. exists (member 7 eq_refl), Pk.padding. split_and!; [reflexivity|reflexivity|].
    apply pk_poseidon_digest_Ok. split; [apply pk_padding_ok|]. apply words4_eq.
    change (reduce_to_hash_out (MemberRegEntry.regev_pk_digest (member 7 eq_refl))) with (words4_of [1; 0; 0; 0]).
    rewrite words4_of_list by reflexivity. symmetry. exact hash_pk.
  - unfold UpdateUserTree.check_tx. change (Chain.channels state1 (Block.channel_id block2)) with (mkChannel [] (Some record1)).
    change (Block.tx_tree_root block2) with root2. change (Block.channel_id block2) with 1. cbn [Z.eqb Pos.eqb ensure mbind res_bind].
    change (sd_tx send2) with tx2. change (sd_tx_proof send2) with tx2_proof.
    rewrite tx2_included. reflexivity.
  - split; reflexivity.
  - rewrite state1_signatures. unfold AggListEntry.leaf, agg_pk_list_digest. 
    match goal with |- context [assert_that ?b] => change b with true end. cbn [assert_that mbind res_bind].
    eexists. destruct (fold_genesis (agg_list_leaf (ChannelStateMessageFields.signing_digest (sd_fields send2)
      (Block.channel_id block2) (Block.tx_tree_root block2)) 2
      (hash_inputs_u64 (resize_with (1 + AGG_PK_LIST_LIMBS) 0 ([AGG_PK_LIST_DOMAIN] ++ ((MemberRegEntry.pk_g <$> active_members (sd_record send2)) ≫= to_u32_vec)))))) as [b Hb].
    exists b. split; [reflexivity|exact Hb].
Qed.

Lemma block2_honest : honest state1 block2 [] [] (Some send2).
Proof.
  split; rewrite ?app_nil_r, ?state1_deposits, ?state1_records;
    cbn [block2 Block.channel_id Block.timestamp Block.num_users Block.key_ids length].
  - unfold in_width; lia.
  - unfold in_width; lia.
  - lia.
  - reflexivity.
  - intros i d H. discriminate H.
  - lia.
  - reflexivity.
  - exact I.
  - split; [constructor|lia].
  - intros H. by destruct H.
  - intros _. split; [reflexivity|]. exists send2. split; [reflexivity|exact send2_signs].
  - intros d [= <-]. split; [exact record1_valid|]. split; [reflexivity|]. apply Nat2Z.inj. rewrite tx_tree_height. reflexivity.
Qed.

Lemma genesis_typed : ext_typed (Chain.view Chain.genesis).
Proof. repeat split; discriminate || reflexivity. Qed.

(** The two blocks are proved one after the other. *)
Lemma run_exists : exists p, validity_run [1] Chain.genesis [witness1; witness2] p.
Proof.
  destruct (BlockHashChainProcessor.new (E := BlockHashChainProcessorError) [1]) as [c|e|] eqn:Hc; [|discriminate Hc|discriminate Hc].
  destruct (word_proves [1] c Chain.genesis Chain.genesis (Some (Chain.view Chain.genesis)) None block1 [deposit1] [record1] None)
    as (p1 & Hp1 & Hr1); [exact Hc|exact Chain.genesis_ok|reflexivity|exact genesis_typed|exact block1_honest|constructor|done|].
  fold witness1 in Hp1, Hr1. fold state1 in Hr1.
  assert (Chain.ok state1) as Hok1.
  { eapply (prove_block_sound [1] c Chain.genesis Chain.genesis) in Hp1 as (_ & _ & Hok); [exact Hok|exact Hc|exact Chain.genesis_ok
      |exact (honest_shaped _ _ _ _ _ block1_honest)|by split]. }
  destruct (word_proves [1] c Chain.genesis state1 None (Some p1) block2 [] [] (Some send2))
    as (p2 & Hp2 & _); [exact Hc|exact Hok1|reflexivity|exact genesis_typed|exact block2_honest|constructor|exact Hr1|].
  exists p2. apply (run_next [1] Chain.genesis c [witness1] p1 witness2 p2).
  - apply (run_first [1] Chain.genesis c); [exact Hc|exact (honest_shaped _ _ _ _ _ block1_honest)|exact Hp1].
  - exact Hc.
  - exact (honest_shaped _ _ _ _ _ block2_honest).
  - exact Hp2.
Qed.

(** ** Canonical hash outs *)

(** Four canonical words: the documented format of real outputs, with a small polynomial hash. *)
Definition canon_okb (l : list Z) : bool :=
  (length l =? 4)%nat && forallb (fun x => (0 <=? x) && (x <? GOLDILOCKS_ORDER)) l.

Record canon4 := mkCanon4 { canon4_list : list Z; canon4_ok : canon_okb canon4_list = true }.

Lemma canon4_eq (h k : canon4) : canon4_list h = canon4_list k -> h = k.
Proof. destruct h as [l Hl], k as [k Hk]. cbn. intros ->. f_equal. apply (Eqdep_dec.UIP_dec Bool.bool_dec). Qed.

#[local] Instance canon4_eq_dec : EqDecision canon4.
Proof.
  intros h k. destruct (decide (canon4_list h = canon4_list k)) as [He|Hne]; [left; by apply canon4_eq|right; by intros ->].
Defined.

Definition canon4_default : canon4 := mkCanon4 [0; 0; 0; 0] eq_refl.

Definition canon4_of (l : list Z) : canon4 :=
  match decide (canon_okb l = true) with left H => mkCanon4 l H | right _ => canon4_default end.

Definition CanonPoseidon : Poseidon := {|
  PHash := canon4;
  phash_default := canon4_default;
  phash_to_u64_vec := canon4_list;
  hash_inputs_u64 l := canon4_of [foldr (fun x a => (x + 31 * a) mod GOLDILOCKS_ORDER) 7 l; 0; 0; 0];
|}.

Definition CanonWords : PoseidonWords CanonPoseidon := {| phash_from_elements l := (canon4_of l : @PHash CanonPoseidon) |}.

Lemma CanonWords_ok : PoseidonWordsOk CanonPoseidon CanonWords.
Proof.
  split.
  - intros [l Hl]. cbn. unfold canon4_of. destruct (decide _); [|done]. by apply canon4_eq.
  - intros [l Hl]. cbn. apply andb_true_iff in Hl as [_ Hl]. rewrite forallb_forall in Hl. apply List.Forall_forall.
    intros x Hx. apply Hl, andb_true_iff in Hx as [H1 H2]. apply Z.leb_le in H1. apply Z.ltb_lt in H2. by split.
  - intros [l Hl]. cbn. apply andb_true_iff in Hl as [Hl _]. by apply Nat.eqb_eq in Hl.
Qed.
