(* ===== verification/WithdrawalScenario.v ===== *)
(** * A concrete withdrawal

    The two blocks of the validity scenario, whose second block settles a
    batch of channel 1 that pays five units to an L1 address, and an account
    that received seven units and spent that batch.  The transfer can be
    withdrawn. *)

From S2P Require Import Prelude Limbs U63 Circuit MerkleTree LeafTrees Poseidon IndexedTree Keccak Regev BalanceState Account AccountProps AccountScenario Ledger LedgerProps Balance BalanceProps BalanceCodec LedgerScenario Channel HashChains BlockStep BlockChain Withdrawal HashChainProps BlockStepProps BlockChainProps ChainCodec WithdrawalProps WithdrawalBacking ValidityProgress WithdrawalProgress ValidityScenario.

#[local] Remove Hints Leafable_Bytes32 : typeclass_instances.
#[local] Existing Instances ScenarioPoseidon ScenarioWords scenario_collision_free scenario_elements scenario_readable UnitKeccak.
#[local] Existing Instances WordPlonky2 WordChainProvers word_chain_provers_ok word_chain_data.
#[local] Existing Instances WordBlockProvers word_block_provers_ok word_block_data WordProofs.

(** ** Parameters *)

#[local] Instance scenario_nonzero : PoseidonNonzero ScenarioPoseidon ScenarioWords.
Proof.
  split. intros l H. apply (f_equal words4_list) in H. change (scenario_hash l = [0; 0; 0; 0]) in H. rewrite scenario_hash_eq in H.
  unfold hash_def in H. repeat case_decide; try done. destruct (spine l) as [y|] eqn:Hy; [|done].
  apply spine_Some in Hy as [_ Hy]. injection H as H. lia.
Qed.

#[local] Instance SingleWithdawalPublicInputs_eq_dec {P : Poseidon} : EqDecision SingleWithdawalPublicInputs.
Proof. solve_decision. Defined.
#[local] Instance WithdrawalStepPublicInputs_eq_dec {P : Poseidon} : EqDecision WithdrawalStepPublicInputs.
Proof. solve_decision. Defined.

#[local] Instance WordWithdrawalProvers : WithdrawalProvers := {|
  balance_cyclic_check _ := true;
  balance_verify _ := true;
  single_withdrawal_vd := tt;
  single_withdrawal_data_prove _ pis :=
    exposing (Ok (SingleWithdawalPublicInputs.to_u64_vec pis)) SingleWithdawalPublicInputs.from_u64_slice pis;
  withdrawal_chain_vd := tt;
  withdrawal_step_data_prove _ pis :=
    exposing (WithdrawalStepPublicInputs.to_u64_vec 0 pis) (fun ws => WithdrawalStepPublicInputs.from_u64_slice ws 0) pis;
  withdrawal_chain_data_prove p := Some p;
  withdrawal_data_prove _ _ _ inputs := Some inputs;
|}.

#[local] Instance word_withdrawal_provers_ok : WithdrawalProversOk WordWithdrawalProvers.
Proof.
  split; [|by intros w pis p [_ H]%exposing_Some|by intros p q [= ->]|by intros p a e inputs q [= ->]].
  intros w pis p H. apply (exposing_Some (Ok _) SingleWithdawalPublicInputs.from_u64_slice) in H as [[= <-] H].
  exists (SingleWithdawalPublicInputs.to_u64_vec pis). split; [|exact H]. unfold slice_to.
  cbn [public_inputs WordPlonky2].
  rewrite <- (single_words_length pis), (proj2 (Nat.leb_le _ _)) by done. by rewrite firstn_all.
Qed.

#[local] Instance word_withdrawal_data : WithdrawalDataOk WordWithdrawalProvers.
Proof. split; [apply word_vd_shaped|]. intros w pis p ws [H _]%exposing_Some Hw. cbn in *. rewrite Hw in H. by injection H. Qed.

(** These provers prove whatever can be read back from its words. *)
Lemma word_single_proves w e : ~ single_failure w e.
Proof. intros [_ (pis & _ & Hr & Hn)]. exact (exposing_None (Ok _) SingleWithdawalPublicInputs.from_u64_slice pis _ eq_refl Hr Hn). Qed.

Lemma word_step_proves w e : ~ step_failure w e.
Proof. intros [pis ws _ Hw Hr Hn|]; [exact (exposing_None _ _ _ _ Hw Hr Hn)|done]. Qed.

Lemma word_final_proves p a x e : ~ final_failure p a x e.
Proof. by intros [_ (inputs & _ & Hn)]. Qed.

(** ** The claim *)

Definition blocks2 : list BlockHashChainProcessorWitness := [witness1; witness2].
Notation history2 := (foldl Chain.add Chain.genesis blocks2).

Lemma blocks2_typed : history_typed blocks2.
Proof. split; [by cbn|]. repeat constructor; by cbn. Qed.

Lemma blocks2_sends : sends (Chain.channels history2 1) = [SendLeaf.mk block_number_default (U63.mkU63 2) root2].
Proof.
  destruct run_exists as [p Hp]. destruct (run_sound _ _ _ _ Chain.genesis_ok Hp) as (_ & _ & Ha).
  rewrite (sends_run _ Ha), (blocks_run Chain.genesis). reflexivity.
Qed.

Definition payee_address : Address := mkLimbs (n := ADDRESS_LEN) [0; 0; 0; 0; 9] eq_refl.

Lemma payee_address_eq : extract_address_from_recipient payee = Ok payee_address.
Proof. vm_compute. reflexivity. Qed.

(** The balance proof of channel 1 after the second block, for the state [s]. *)
Definition pis2 (s : PrivateState) : BalancePublicInputs :=
  BalancePublicInputs.mk 1 (Chain.public_state history2) (U63.mkU63 2) (PrivateState.commitment s) bytes32_default.

Definition proof2 (s : PrivateState) : BalanceProof := BalancePublicInputs.to_u64_vec (pis2 s) ++ [0; 0; 0; 0].

Lemma proof2_proves s : proves (proof2 s) (pis2 s).
Proof.
  unfold proves, proof2. cbn [balance_public_inputs WordProofs].
  refine (full_pis_roundtrip (pis2 s) [0; 0; 0; 0] _ eq_refl). split; [done|].
  split; [exact (history_state_typed blocks2 blocks2_typed)|done].
Qed.

Definition claim2 (s : PrivateState) (l : ledger) : claim :=
  mkClaim 2 l (mkPayout (proof2 s) s 2 1 0 (Tx.mk ScenarioPoseidon tx2_root 0) tx2_proof (batch payee) 0) (pay_five payee) payee_address.

Lemma claim2_ok s l : commits s l -> sent l !! 0 = Some (Tx.mk ScenarioPoseidon tx2_root 0) -> claim_ok blocks2 (claim2 s l).
Proof.
  intros Hc Hs. split; [cbn; lia|].
  change (take (cl_at (claim2 s l)) blocks2) with blocks2. cbn [claim2 cl_ledger cl_payout cl_transfer cl_address].
  split; cbn [po_proof po_private po_since po_channel po_send po_tx po_tx_proof po_batch po_index Tx.nonce Tx.transfer_tree_root].
  - done.
  - cbn; lia.
  - eexists _, _. apply proof2_proves.
  - exact Hc.
  - exact Hs.
  - by cbn.
  - by cbn.
  - exists (SendLeaf.mk block_number_default (U63.mkU63 2) root2). rewrite blocks2_sends. split; [reflexivity|]. exact tx2_included.
  - by cbn.
  - apply Nat2Z.inj. rewrite tx_tree_height. reflexivity.
  - exact (proj2_sig tx2_root_sealed).
  - reflexivity.
  - apply Nat2Z.inj_lt. rewrite max_transfers. reflexivity.
  - by cbn.
  - exact payee_address_eq.
Qed.

(** The account that spent the batch, with its claim. *)
Lemma scenario_account : exists s0 tx s l, commits s0 genesis_ledger /\ PrivateState.nonce s0 = 0 /\
  account_run s0 [Received 0 amount_seven nullifier_one; Spent (batch payee) tx] s /\
  claim_ok blocks2 (claim2 s l) /\ of_account 1 s (claim_witness blocks2 (claim2 s l)).
Proof.
  destruct (small_run payee) as (s0 & tx & s & l & Hg & Hn & Hrun & Hc & Hs & Htx). exists s0, tx, s, l.
  assert (tx = Tx.mk ScenarioPoseidon tx2_root 0) as ->.
  { rewrite Htx. f_equal. symmetry. exact (proj2_sig tx2_root_sealed). }
  split_and!; [done|done|done|by apply claim2_ok|]. intros bp [v Hv]. destruct (proof2_proves s) as [v' Hv'].
  assert (Ok (E := BalancePublicInputsError) (bp, v) = Ok (pis2 s, v')) as Heq by exact (eq_trans (eq_sym Hv) Hv'). by injection Heq as -> _.
Qed.

(** The withdrawal of the claim, proved and closed. *)
Lemma scenario_withdrawal : exists s0 tx s l pis q fin,
  commits s0 genesis_ledger /\ account_run s0 [Received 0 amount_seven nullifier_one; Spent (batch payee) tx] s /\
  of_account 1 s (claim_witness blocks2 (claim2 s l)) /\ single_shaped (claim_witness blocks2 (claim2 s l)) /\
  single_to_public_inputs (claim_witness blocks2 (claim2 s l)) = Ok pis /\
  pays (claim2 s l) (SingleWithdawalPublicInputs.withdrawal pis) /\
  withdrawal_run [(claim_witness blocks2 (claim2 s l), SingleWithdawalPublicInputs.withdrawal pis)] q /\
  WithdrawalCircuit.prove_final q payee_address (Chain.view history2) = Ok fin.
Proof.
  destruct scenario_account as (s0 & tx & s & l & Hg & _ & Hrun & Hok & Hacc).
  destruct (claim_outcome blocks2 _ blocks2_typed Hok) as (d & Hpay & Hpis & Hs).
  destruct (single_prove _) as [sp|e|] eqn:Hsp; [|by apply word_single_proves in Hs|done]. cbn [ends] in Hs.
  pose proof (step_outcome blocks2 [] None sp _ 2 blocks2_typed ltac:(cbn; lia) eq_refl eq_refl Hs eq_refl) as Hq. cbv zeta in Hq.
  destruct (withdrawal_prove_step _) as [q|e|] eqn:Hqe; [|by apply word_step_proves in Hq|done]. specialize (Hq eq_refl eq_refl).
  pose proof (final_outcome blocks2 _ q payee_address Hq) as Hf.
  destruct (WithdrawalCircuit.prove_final q payee_address (Chain.view history2)) as [fin|e|] eqn:Hfin; [|by apply word_final_proves in Hf|done].
  pose proof (honest_single_shaped _ _ _ _ _ (proj2 Hok)) as Hsh.
  exists s0, tx, s, l, (claim_statement blocks2 (claim2 s l) d), q, fin. split_and!; try done. eapply withdrawal_first; [exact Hsh|exact Hpis|exact Hsp| |exact Hqe].
  by apply chain_update_shaped, blocks2_typed.
Qed.
