(* ===== verification/FundingScenario.v ===== *)
(** * A channel to close

    A head that holds a fund and has nothing in flight, so that a close-funding
    proposal can be built from it.  The Keccak function is any constant one. *)

From S2P Require Import Prelude Limbs U63 Circuit MerkleTree LeafTrees Poseidon IndexedTree Keccak Regev BalanceState BalanceStateProps Account AccountProps AccountScenario Ledger LedgerProps Balance BalanceProps BalanceCodec LedgerScenario Channel ChannelProps StateUpdate StateUpdateProps ChannelRun Scenario CreditSafety CreditSafetyProps HashChains BlockStep CloseFunding BlockChain Withdrawal HashChainProps BlockStepProps CloseFundingProps BlockChainProps ChainCodec WithdrawalProps WithdrawalBacking ValidityProgress WithdrawalProgress ValidityScenario WithdrawalScenario.

#[local] Remove Hints Leafable_Bytes32 : typeclass_instances.

(** A channel that holds five units of token zero, in the cell of one member, and has nothing in flight. *)
Definition fund_view : view := Build_view 1 ct_a zero_ciphertext 0 registry_one 1 amount_five u256_zero digest_one bytes32_default.
Definition funded_with (d : Bytes32) : ChannelState := ChannelState.with_digest (toy_state fund_view) d.

Lemma fund_view_ok : view_ok fund_view.
Proof. prove_view_ok. Qed.

Lemma funded_with_typed d : state_words_typed (funded_with d) /\ in_width 32 (ChannelState.channel_id (funded_with d)).
Proof. split; [|by cbn]. destruct (toy_words_typed fund_view fund_view_ok). by split. Qed.

Section constant.
Context {P : Poseidon} {W : PoseidonWords P} {PR : PoseidonReadable P W}.
Context {K : Keccak} (d : Bytes32) (constant : forall l, solidity_keccak256 l = d).

(** The digest of every state. *)
Lemma constant_digest {E} s : typed (ChannelState.balance_state s) -> valid (ChannelState.balance_state s) -> ChannelState.signing_digest (E := E) s = Ok d.
Proof.
  intros Hty Hval. destruct (signing_digest_total (E := E) s Hty Hval) as [x Hx]. rewrite Hx. f_equal.
  unfold ChannelState.signing_digest in Hx. apply bind_Ok in Hx as (h & _ & Hx). apply Ok_inj in Hx. rewrite <- Hx. apply constant.
Qed.

Lemma funded_with_fundable : fundable (funded_with d) recipient_address payee_address.
Proof.
  pose proof (toy_valid fund_view fund_view_ok) as Hv. split.
  - exact Hv.
  - reflexivity.
  - reflexivity.
  - apply constant_digest; [apply (toy_typed fund_view), fund_view_ok|exact Hv].
  - intros H. apply (f_equal limbs) in H. discriminate H.
  - intros H. apply (f_equal limbs) in H. discriminate H.
  - reflexivity.
  - intros slot a Hs Ha. change (token_row amount_five u256_zero !! slot = Some a) in Ha. change (1 <= slot)%nat in Hs.
    apply token_row_lookup in Ha as [[-> _]|[_ ->]]; [lia|reflexivity].
  - exists 0%nat, amount_five. split; [apply Nat.lt_0_succ|]. split; [reflexivity|]. intros H. apply (f_equal val) in H. discriminate H.
  - reflexivity.
  - reflexivity.
  - reflexivity.
  - reflexivity.
Qed.

Lemma funded_with_builds : exists p, build_close_funding_proposal (funded_with d) 1 recipient_address payee_address 0 = Ok p.
Proof.
  destruct (funded_with_typed d) as [Hty Hid]. pose proof (build_spec (funded_with d) 1 recipient_address payee_address 0 Hty Hid) as H.
  destruct (build_close_funding_proposal _ _ _ _ _) as [p|e|]; [by exists p|by destruct (H funded_with_fundable)|done].
Qed.
End constant.
