(* ===== verification/ProducerScenario.v ===== *)
(** * A producer at work

    The producer over a generator that accepts every block registers a channel
    of two members, takes its first block, follows it off chain, and either
    funds its close or takes an inter-channel send.  Keccak is constant, and the
    hash outs of Poseidon have constant bytes. *)

From S2P Require Import Prelude Limbs U63 Circuit MerkleTree LeafTrees Poseidon IndexedTree Keccak Regev BalanceState BalanceStateProps Account AccountProps AccountScenario Ledger LedgerProps Balance BalanceProps BalanceCodec LedgerScenario Channel ChannelProps StateUpdate StateUpdateProps ChannelRun Scenario HashChains BlockStep CloseFunding BlockChain Withdrawal HashChainProps BlockStepProps CloseFundingProps BlockChainProps ChainCodec WithdrawalProps WithdrawalBacking ValidityProgress WithdrawalProgress ValidityScenario WithdrawalScenario FundingScenario WalletChecks WalletChecksProps Producer ProducerProps ProducerRun.
Import ProductionBlockProducer.

#[local] Remove Hints Leafable_Bytes32 : typeclass_instances.

(** ** Parameters *)

Definition AnySigner : CosignVerifier := {| verify_cosign_blob _ _ _ := true |}.

Definition AnyGenerator {P : Poseidon} : BlockWitnessGenerator := {|
  Generator := unit;
  generator_new _ := tt;
  supported_user_counts _ := [1];
  blocks _ := [];
  deposit_counts _ := 0;
  deposit_leaves _ := [];
  deposit_hash_chain _ := bytes32_default;
  holds_local_signing_keys _ _ := false;
  add_channel_registration_public _ _ g := Ok g;
  add_registration_block _ g := Ok g;
  add_deposit _ _ _ _ _ g := Ok g;
  stage_cosign _ _ _ g := g;
  add_block_with_tx_v2 _ _ _ _ _ g := Ok g;
|}.

#[local] Existing Instances ToyKeccak AnySigner AnyGenerator.

Section scene.
Context {P : Poseidon} {W : PoseidonWords P} {PR : PoseidonReadable P W}.
Context (flat : forall E l, phash_into_bytes32 (E := E) (hash_inputs_u64 l) = Ok bytes32_one).

Definition scene_member (pk_g : Bytes32) : MemberRegEntry := MemberRegEntry.mk pk_g digest_one bytes32_one address_default.

Definition scene_registration : ProductionChannelRegistration := ProductionChannelRegistration.mk toy_record
  (ChannelRegRecord.mk 7 0 2 0 ([scene_member digest_one; scene_member digest_two] ++ replicate 6 MemberRegEntry.default)) [Pk.padding; Pk.padding].

Lemma padding_digest_one {E} : exists h, Pk.poseidon_digest (E := E) Pk.padding = Ok h /\ phash_into_bytes32 (E := E) h = Ok bytes32_one.
Proof. exists (hash_inputs_u64 (Pk.poseidon_inputs Pk.padding)). split; [|apply flat]. apply pk_poseidon_digest_Ok. split; [apply pk_padding_ok|done]. Qed.

Lemma scene_slot pk_g slot : ChannelRegRecord.members (ProductionChannelRegistration.validity_record scene_registration) !! slot = Some (scene_member pk_g) ->
  ChannelRecord.member_pk_gs toy_record !! slot = Some pk_g -> ProductionChannelRegistration.regev_pks scene_registration !! slot = Some Pk.padding ->
  ProductionChannelRegistration.check_slot scene_registration slot = Ok tt.
Proof.
  intros Hm Hk Hp. unfold ProductionChannelRegistration.check_slot. rewrite Hm. cbn [unwrap mbind res_bind]. change (ProductionChannelRegistration.channel_record scene_registration) with toy_record.
  rewrite Hk. cbn [unwrap mbind res_bind]. unfold invalid_if at 1. rewrite bool_decide_eq_false_2 by auto. cbn [negb ensure mbind res_bind]. rewrite Hp. cbn [unwrap mbind res_bind].
  unfold registration_ok. rewrite (proj2 (pk_validate_Ok Pk.padding tt) pk_padding_ok). cbn [map_err mbind res_bind]. destruct (padding_digest_one (E := ProductionBlockProducerError)) as (h & -> & Hb).
  cbn [mbind res_bind]. rewrite Hb. cbn [mbind res_bind]. unfold invalid_if. by rewrite bool_decide_eq_false_2 by auto.
Qed.

Lemma scene_registration_valid : ProductionChannelRegistration.validate scene_registration = Ok tt.
Proof.
  unfold ProductionChannelRegistration.validate, registration_ok. change (ProductionChannelRegistration.channel_record scene_registration) with toy_record.
  assert (ChannelRecord.validate toy_record = Ok tt) as -> by (vm_compute; reflexivity). cbn [map_err mbind res_bind].
  assert (ChannelRegRecord.validate (ProductionChannelRegistration.validity_record scene_registration) = Ok tt) as -> by (vm_compute; reflexivity).
  cbn [map_err mbind res_bind]. unfold invalid_if. cbn [scene_registration ProductionChannelRegistration.validity_record ProductionChannelRegistration.regev_pks toy_record record_of
    ChannelRegRecord.channel_id ChannelRegRecord.member_count ChannelRegRecord.bp_member_slot ChannelRegRecord.delegate_count ChannelRecord.channel_id ChannelRecord.member_count ChannelRecord.bp_member_slot length].
  change (Z.to_nat 2) with 2%nat. cbn [Z.eqb Pos.eqb Nat.eqb negb orb ensure mbind res_bind]. apply res_forall_Ok. repeat constructor; by eapply scene_slot.
Qed.

(** The producer after the registration. *)
Definition scene0 : ProductionBlockProducer := with_record 7 toy_record (with_witness (new [1]) tt).

Lemma scene_registers : perform (RegisterChannel scene_registration 1) (new [1]) = (scene0, true).
Proof. cbn [perform]. unfold outcome, register_channel. rewrite scene_registration_valid, (pure_Ok _ tt) by done. rewrite self_bind. reflexivity. Qed.

(** ** States *)

(** State [v] with its own small block number and transaction tag. *)
Definition posted (v : view) (small : Z) (h2 : Bytes32) : ChannelState :=
  ChannelState.mk 7 (vw_version v) small 0 (ChannelFund.mk 7 (token_row (vw_fund v) u256_zero) bytes32_default) (toy_balance v) h2
    (vw_nullifiers v) (vw_incoming v) digest_one digest_one toy_signatures.

Lemma scene_signed r s : ChannelRecord.member_count r = 2 -> ChannelRecord.member_pk_gs r = ChannelRecord.member_pk_gs toy_record -> typed (ChannelState.balance_state s) -> valid (ChannelState.balance_state s) -> ChannelState.digest s = digest_one ->
  ChannelState.member_signatures s = toy_signatures -> verify_all_signatures r s = Ok tt.
Proof.
  intros Hmc Hpk Hty Hv Hd Hs. unfold verify_all_signatures. rewrite (constant_digest (K := ToyKeccak) digest_one (fun _ => eq_refl)) by done. cbn [mbind res_bind]. unfold bail_if at 1.
  rewrite Hd, bool_decide_eq_false_2 by auto. cbn [negb ensure mbind res_bind]. apply res_forall_Ok. rewrite Hmc. change (Z.to_nat 2) with 2%nat.
  assert (forall slot key blob, ChannelRecord.member_pk_gs toy_record !! slot = Some key ->
    List.find (fun s => Z.to_nat (MemberSignature.member_slot s) =? slot)%nat toy_signatures = Some (MemberSignature.mk (Z.of_nat slot) key blob) ->
    verify_slot_signature r s digest_one slot = Ok tt) as Hslot.
  { intros slot key blob Hk Hf. unfold verify_slot_signature. rewrite Hpk, Hk. cbn [unwrap mbind res_bind]. rewrite Hs, Hf. cbn [ok_or mbind res_bind MemberSignature.pk_g MemberSignature.signature].
    unfold bail_if. by rewrite bool_decide_eq_false_2 by auto. }
  repeat constructor; by eapply Hslot.
Qed.

Lemma scene_view_signed v s : view_ok v -> ChannelState.balance_state s = toy_balance v -> ChannelState.digest s = digest_one ->
  ChannelState.member_signatures s = toy_signatures -> verify_all_signatures toy_record s = Ok tt.
Proof. intros Hv Hb. apply scene_signed; [done|done|rewrite Hb..]; [by apply toy_typed|by apply toy_valid]. Qed.

Definition first_view : view := Build_view 0 ct_a zero_ciphertext 0 registry_one 1 amount_five u256_zero digest_one digest_two.

Lemma first_view_ok : view_ok first_view.
Proof. prove_view_ok. Qed.

Definition first_state : ChannelState := posted first_view 0 digest_two.

Definition empty_witness : BlockTxV2Witness := BlockTxV2Witness.mk [] [] [] None None None None.

Definition scene1 : ProductionBlockProducer := with_head 7 first_state (with_witness scene0 tt).

Lemma scene_first_block : perform (CosignedBlock first_state [1] 2 digest_two empty_witness) scene0 = (scene1, true).
Proof.
  assert (produce_cosigned_block_with first_state [1] 2 digest_two empty_witness Verified scene0 = (scene1, Ok tt)) as H.
  2: { cbn [perform]. unfold outcome, produce_cosigned_block. by rewrite H. }
  apply (produce_cosigned_block_progress (G := AnyGenerator) first_state [1] 2 digest_two empty_witness scene0 toy_record tt).
  - reflexivity.
  - apply not_elem_of_empty.
  - apply (lookup_insert_eq (M := gmap Z)).
  - by apply (scene_view_signed first_view); [apply first_view_ok|..].
  - intros H. apply (f_equal limbs) in H. discriminate H.
  - reflexivity.
  - reflexivity.
  - reflexivity.
  - reflexivity.
  - intros prev H. discriminate H.
  - reflexivity.
Qed.

Definition scene2 : ProductionBlockProducer := with_head 7 (funded_with digest_one) scene1.

Lemma scene_follows : perform (SyncHeads [funded_with digest_one]) scene1 = (scene2, true).
Proof.
  cbn [perform]. unfold outcome, sync_offchain_heads. rewrite self_bind. cbn [head ok_or]. rewrite (pure_Ok _ (funded_with digest_one)) by done.
  change (ChannelState.channel_id (funded_with digest_one)) with 7. rewrite (pure_Ok _ tt) by (apply auth_false; rewrite bool_decide_eq_false_2; [done|set_solver]).
  change (channel_records scene1 !! 7) with (Some toy_record). rewrite (pure_Ok _ toy_record) by done. change (channel_heads scene1 !! 7) with (Some first_state).
  rewrite (pure_Ok _ first_state) by done. rewrite (pure_Ok _ (funded_with digest_one)).
  - reflexivity.
  - cbn [res_foldl]. unfold sync_step, authorized. rewrite (scene_view_signed fund_view); [|apply fund_view_ok|done..]. reflexivity.
Qed.

(** A tree of hash outs has flat bytes at its root. *)
Lemma flat_root {E} f i : exists h, subtree (Hs := PoseidonLeafableHasher) f TX_TREE_HEIGHT i = h /\ phash_into_bytes32 (E := E) h = Ok bytes32_one.
Proof. eexists. split; [reflexivity|]. change TX_TREE_HEIGHT with (S (Nat.pred TX_TREE_HEIGHT)). cbn [subtree]. apply flat. Qed.

(** ** An inter-channel send *)

(** Thirty units of token zero from channel seven to channel eight. *)
Definition send_tx : InterChannelTx :=
  let t := toy_tx 7 8 in
  InterChannelTx.mk (InterChannelTx.tx_inclusion_proof t)
    (SignedSmallBlock.mk (SmallBlockRootMessage.mk 7 0 digest_one 1 bytes32_default bytes32_one bytes32_one 0 0) toy_signatures [] 0 [])
    (InterChannelTx.sender_delta_ct t) 7 8 0 0 (InterChannelTx.destination_base_transfer_salt t) (InterChannelTx.source_pk_g t) bytes32_default
    (InterChannelTx.tx_hash t) bytes32_one [] (InterChannelTx.receiver_deltas t) (InterChannelTx.channel_update_zkp t) [] (InterChannelTx.sender_hash_sig t)
    (InterChannelTx.sender_pk_b t).

Definition send_view : view := Build_view 1 ct_a zero_ciphertext 0 registry_one 1 amount_five u256_zero digest_two bytes32_one.

Lemma send_view_ok : view_ok send_view.
Proof. prove_view_ok. Qed.

Definition send_state : ChannelState := posted send_view 1 bytes32_one.

Definition send_debit : InterChannelDebitPayload := InterChannelDebitPayload.mk 0 send_state send_tx 30 [] toy_record Pk.padding.

Lemma send_tx_digest {E} sigs : InterChannelTx.signing_digest (E := E) (with_small_block_signatures send_tx sigs) = Ok digest_one.
Proof.
  get digest_one ltac:(apply ct_a_digest).
  get [to_u32_vec digest_two ++ to_u32_vec bytes32_default ++ to_u32_vec digest_one] ltac:(idtac); [|reflexivity].
  apply res_mapM_Ok. constructor; [|constructor]. get digest_one ltac:(apply ct_a_digest). reflexivity.
Qed.

Lemma send_leaf : InterChannelTx.tx_leaf_hash send_tx = Ok digest_one.
Proof. get toy_delta ltac:(reflexivity). get digest_one ltac:(apply ct_a_digest). get digest_one ltac:(apply ct_a_digest). reflexivity. Qed.

Lemma send_h1 {E} : BalanceState.h1 (E := E) (toy_balance send_view) = Ok bytes32_one.
Proof.
  pose proof (toy_typed send_view send_view_ok) as Hty. pose proof (toy_valid send_view send_view_ok) as Hv.
  destruct (h1_words (E := E) (toy_balance send_view)) as (b & Hb & Hw); [apply readable_length|by apply valid_well_shaped|by apply valid_ciphertexts_ok|].
  rewrite Hb. f_equal. pose proof (flat E (BalanceState.h1_header_words (toy_balance send_view) (subtree (list_leaves (leaf_list (toy_balance send_view))) BALANCE_SLOT_TREE_HEIGHT 0))) as Hf.
  unfold phash_into_bytes32 in Hf. rewrite Hw in Hf. by injection Hf.
Qed.

(** The transfer of the send. *)
Lemma send_transfer : exists r, canonical_inter_channel_base_transfer send_tx 30 = Ok (Transfer.mk r 0 u256_30 digest_one).
Proof.
  assert (exists r, calculate_recipient_from_user_id (E := WalletError) 8 (salt_hash_out toy_salt) = Ok r) as [r Hr].
  { unfold calculate_recipient_from_user_id. rewrite flat. cbn [mbind res_bind]. destruct (tag_recipient_spec (E := WalletError) USER_ID_TAG bytes32_one) as (r & Hr & _); [done|]. by exists r. }
  exists r. pass ltac:(reflexivity). get digest_one ltac:(apply map_err_Ok, send_leaf). get toy_delta ltac:(reflexivity). pass ltac:(reflexivity). pass ltac:(reflexivity).
  get digest_one ltac:(reflexivity). get r ltac:(exact Hr). get u256_30 ltac:(reflexivity). reflexivity.
Qed.

(** Its transaction, and the path to it. *)
Lemma send_binding : exists t tx_v2, canonical_inter_channel_binding send_tx 30 = Ok (t, tx_v2, bytes32_one) /\
  proof_get_root (E := ProductionBlockProducerError) (honest_proof TX_TREE_HEIGHT {[7 := tx_v2]} 7) tx_v2 7 =
    Ok (subtree (Hs := PoseidonLeafableHasher) (Sparse.map_leaves {[7 := tx_v2]}) TX_TREE_HEIGHT 0).
Proof.
  destruct send_transfer as [r Hr]. set (t := Transfer.mk _ _ _ _) in Hr.
  pose proof (inter_channel_tx_v2_leaf_eq (E := WalletError) t 0) as Hleaf. set (tx := TxV2.mk _ _ _ _) in Hleaf. clearbody tx. clearbody t.
  destruct (tx_tree_spec (E := WalletError) 7 tx ltac:(done)) as (tree & Ht & Hg & _).
  destruct (flat_root (E := WalletError) (Sparse.map_leaves {[7 := tx]}) 0) as (h & Hh & Hb). exists t, tx. split.
  - get t ltac:(exact Hr). get (tx, h) ltac:(idtac); [|get bytes32_one ltac:(exact Hb); reflexivity]. get tx ltac:(exact Hleaf). get tree ltac:(exact Ht).
    get h ltac:(rewrite <- Hh; exact Hg). reflexivity.
  - rewrite honest_proof_writes by (rewrite tx_tree_height; lia). by rewrite insert_singleton_eq.
Qed.

Lemma send_commitment {E} t : phash_into_bytes32 (E := E) (Transfer.poseidon_hash t) = Ok bytes32_one.
Proof. apply flat. Qed.

Lemma send_canonical t tx_v2 : canonical_inter_channel_binding send_tx 30 = Ok (t, tx_v2, bytes32_one) ->
  verify_canonical_inter_channel_binding send_tx 30 = Ok (tx_v2, bytes32_one).
Proof.
  intros H. pass ltac:(reflexivity). get (t, tx_v2, bytes32_one) ltac:(exact H). get bytes32_one ltac:(apply send_commitment).
  pass ltac:(apply ensure_Ok, negb_true_iff, bool_decide_eq_false_2; auto). pass ltac:(apply ensure_Ok, negb_true_iff, bool_decide_eq_false_2; auto). reflexivity.
Qed.

Definition send_descriptor (tx_v2 : TxV2) : InterChannelTransferDescriptor :=
  InterChannelTransferDescriptor.mk 7 8 0 30 (InterChannelTx.tx_hash send_tx) bytes32_one (InterChannelTx.source_pk_g send_tx)
    (ReceiverBalanceDelta.receiver_pk_g toy_delta) toy_salt Pk.padding Pk.padding ct_a ct_a (InterChannelTx.sender_delta_ct send_tx)
    (ReceiverBalanceDelta.amount toy_delta) send_tx tx_v2 (honest_proof TX_TREE_HEIGHT {[7 := tx_v2]} 7).

Lemma send_matches t tx_v2 : canonical_inter_channel_binding send_tx 30 = Ok (t, tx_v2, bytes32_one) ->
  verify_inter_channel_descriptor_matches_debit send_debit (send_descriptor tx_v2) = Ok tt.
Proof.
  intros H. unfold verify_inter_channel_descriptor_matches_debit. cbv zeta. pass ltac:(reflexivity). pass ltac:(apply ensure_Ok, negb_true_iff, bool_decide_eq_false_2; auto).
  get digest_one ltac:(apply (send_tx_digest toy_signatures)). get digest_one ltac:(apply (send_tx_digest toy_signatures)).
  pass ltac:(apply ensure_Ok, negb_true_iff, bool_decide_eq_false_2; auto). get toy_delta ltac:(reflexivity).
  pass ltac:(apply ensure_Ok, negb_true_iff; rewrite !bool_decide_eq_false_2 by auto; reflexivity). get (tx_v2, bytes32_one) ltac:(by apply (send_canonical t)).
  apply ensure_Ok, negb_true_iff. by rewrite !bool_decide_eq_false_2 by auto.
Qed.

Lemma send_attached : exists tx', attach_small_block_signatures toy_record send_state send_tx = Ok tx' /\ InterChannelTx.message tx' = InterChannelTx.message send_tx.
Proof.
  eexists (with_small_block_signatures send_tx _). split; [|reflexivity].
  pass ltac:(apply map_err_Ok, (scene_view_signed send_view); [apply send_view_ok|reflexivity..]). pass ltac:(idtac).
  - pass ltac:(reflexivity). pass ltac:(reflexivity). pass ltac:(reflexivity). pass ltac:(apply ensure_Ok, negb_true_iff, bool_decide_eq_false_2; discriminate).
    pass ltac:(apply ensure_Ok, negb_true_iff, bool_decide_eq_false_2; auto). get bytes32_one ltac:(apply send_h1). apply ensure_Ok, negb_true_iff, bool_decide_eq_false_2; auto.
  - get digest_one ltac:(apply (send_tx_digest toy_signatures)). get digest_one ltac:(apply send_tx_digest). pass ltac:(apply ensure_Ok, negb_true_iff, bool_decide_eq_false_2; auto). reflexivity.
Qed.

Lemma scene_sends : exists d p' tx', produce_inter_channel_descriptor_block send_state send_debit d 3 scene1 = (p', Ok tx').
Proof.
  destruct send_binding as (t & tx_v2 & Hc & Hroot). destruct send_attached as (tx' & Hatt & Hmsg). exists (send_descriptor tx_v2).
  destruct (flat_root (E := ProductionBlockProducerError) (Sparse.map_leaves {[7 := tx_v2]}) 0) as (h & Hh & Hb). eexists _, tx'.
  apply (produce_descriptor_block_progress (G := AnyGenerator) send_state send_debit (send_descriptor tx_v2) 3 scene1 toy_record toy_record 1 tx' h tt).
  - reflexivity.
  - reflexivity.
  - apply not_elem_of_empty.
  - by apply (send_matches t).
  - reflexivity.
  - reflexivity.
  - reflexivity.
  - reflexivity.
  - rewrite <- Hh. exact Hroot.
  - exact Hb.
  - apply not_elem_of_nil.
  - reflexivity.
  - reflexivity.
  - lia.
  - exact Hatt.
  - by apply (scene_view_signed send_view); [apply send_view_ok|..].
  - rewrite Hmsg. intros H. apply (f_equal limbs) in H. discriminate H.
  - rewrite Hmsg. reflexivity.
  - reflexivity.
  - reflexivity.
  - reflexivity.
  - intros prev H. change (Some first_state = Some prev) in H. injection H as <-. apply block_fence_progress; reflexivity.
  - reflexivity.
Qed.

End scene.

(** ** Closing *)

Section closing.
Context {P : Poseidon} {W : PoseidonWords P} {PR : PoseidonReadable P W} {WO : PoseidonWordsOk P W}.
Context (flat_tree : forall E f i, exists h, subtree (Hs := PoseidonLeafableHasher) f TX_TREE_HEIGHT i = h /\ phash_into_bytes32 (E := E) h = Ok bytes32_one).

(** The signed child of the funded head. *)
Definition child_signed (proposal : CloseFundingProposal) : ChannelState := ChannelState.with_signatures (CloseFundingProposal.proposed_state proposal) toy_signatures.

Record scene_child (proposal : CloseFundingProposal) : Prop := {
  sc_built : build_close_funding_proposal (funded_with digest_one) 1 recipient_address payee_address 0 = Ok proposal;
  sc_plan : CloseFundingPlan.source_channel_id (CloseFundingProposal.plan proposal) = 7 /\ CloseFundingPlan.base_nonce (CloseFundingProposal.plan proposal) = 0 /\
    CloseFundingPlan.tx_tree_root (CloseFundingProposal.plan proposal) = bytes32_one;
  sc_child : exists aux, child_signed proposal = ChannelState.with_signatures (child_of (funded_with digest_one) aux bytes32_one digest_one) toy_signatures;
  sc_typed : state_words_typed (child_signed proposal) /\ valid (ChannelState.balance_state (child_signed proposal));
}.

Lemma scene_proposal : exists proposal, scene_child proposal.
Proof.
  destruct (funded_with_builds (K := ToyKeccak) digest_one (fun _ => eq_refl)) as [proposal Hp]. exists proposal. destruct (funded_with_typed digest_one) as [Hty Hid].
  pose proof (build_spec (funded_with digest_one) 1 recipient_address payee_address 0 Hty Hid) as Hs. rewrite Hp in Hs. destruct Hs as [Hfd Hf].
  destruct (fu_context _ _ _ _ _ _ Hf) as (_ & _ & _ & Hn & Hi). destruct (fu_root _ _ _ _ _ _ Hf) as (root & Hrb & Hroot & _).
  assert (CloseFundingPlan.tx_tree_root (CloseFundingProposal.plan proposal) = bytes32_one) as Hr.
  { destruct (flat_tree CloseFundingError (Sparse.map_leaves {[ChannelState.channel_id (funded_with digest_one) := CloseFundingPlan.tx_v2 (CloseFundingProposal.plan proposal)]}) 0) as (h & Hh & Hb).
    rewrite <- Hroot in Hh. subst h. rewrite Hrb in Hb. by injection Hb. }
  destruct (fu_child _ _ _ _ _ _ Hf) as (d & Hch & Hcd). rewrite Hr in Hch.
  assert (state_words_typed (CloseFundingProposal.proposed_state proposal)) as Htc by (rewrite Hch; apply child_typed; [done|apply Hfd..]).
  assert (valid (ChannelState.balance_state (CloseFundingProposal.proposed_state proposal))) as Hvc by (rewrite Hch; apply child_balance_valid, Hfd).
  rewrite (constant_digest (K := ToyKeccak) digest_one (fun _ => eq_refl)) in Hcd; [|apply Htc|exact Hvc]. apply Ok_inj in Hcd. subst d.
  constructor; [exact Hp|exact (conj Hi (conj Hn Hr))| |].
  - exists (CloseFundingPlan.funding_aux_data (CloseFundingProposal.plan proposal)). unfold child_signed. rewrite Hch. reflexivity.
  - split; [|exact Hvc]. destruct Htc as [? ? ? ? ?]. constructor; assumption.
Qed.

Lemma scene_closes proposal p r t : scene_child proposal -> channel_heads p !! 7 = Some (funded_with digest_one) -> channel_records p !! 7 = Some r ->
  ChannelRecord.member_count r = 2 -> ChannelRecord.member_pk_gs r = ChannelRecord.member_pk_gs toy_record -> 7 ∉ terminal_close_funding p ->
  accepted_base_nonces p !! 7 = None -> 0 < t -> produce_close_funding_block (child_signed proposal) (CloseFundingProposal.plan proposal) t p =
    (with_terminal 7 (with_nonce 7 0 (with_head 7 (child_signed proposal) (with_witness p tt))), Ok tt).
Proof.
  intros [Hb (Hi & Hn & Hr) [aux Hch] [Hty Hv]] Hhead Hrec Hmc Hpk Hter Hnon Ht. destruct (funded_with_typed digest_one) as [Hty0 Hid0].
  assert (ChannelState.channel_id (child_signed proposal) = 7) as H7 by (rewrite Hch; reflexivity).
  pose proof (produce_close_funding_block_progress (G := AnyGenerator) (child_signed proposal) (CloseFundingProposal.plan proposal) t p (funded_with digest_one) r 1 tt) as H.
  cbv zeta in H. rewrite H7, Hn in H. apply H.
  - exact Hi.
  - exact Hter.
  - exact Hhead.
  - exact (built_verifies (funded_with digest_one) 1 recipient_address payee_address 0 _ _ Hty0 Hid0 Hb).
  - assert (expected_nonce p 7 = match accepted_base_nonces p !! 7 with Some n => next 32 n | None => Ok 0 end) as He by reflexivity. rewrite Hnon in He. exact He.
  - reflexivity.
  - reflexivity.
  - exact Hrec.
  - apply scene_signed; [exact Hmc|exact Hpk|apply Hty|exact Hv|rewrite Hch; reflexivity|rewrite Hch; reflexivity].
  - rewrite Hr. intros Hx. apply (f_equal limbs) in Hx. discriminate Hx.
  - rewrite Hr, Hch. reflexivity.
  - rewrite Hch. reflexivity.
  - rewrite Hch. reflexivity.
  - exact Ht.
  - apply block_fence_progress; rewrite Hch; reflexivity.
  - destruct p as [[] ? ? ? ? ?]. reflexivity.
Qed.
End closing.

(** ** Hash functions with constant bytes *)

#[local] Existing Instances canon4_eq_dec words4_eq_dec.

(** Canonical hash outs and a constant hash. *)
Definition FlatPoseidon : Poseidon := {|
  PHash := canon4;
  phash_default := canon4_default;
  phash_to_u64_vec := canon4_list;
  hash_inputs_u64 _ := mkCanon4 [1; 0; 0; 0] eq_refl;
|}.

Definition FlatWords : PoseidonWords FlatPoseidon := {| phash_from_elements l := (canon4_of l : @PHash FlatPoseidon) |}.

Lemma FlatWords_ok : PoseidonWordsOk FlatPoseidon FlatWords.
Proof. destruct CanonWords_ok as [H1 H2 H3]. by split. Qed.

Lemma FlatPoseidon_flat E l : phash_into_bytes32 (P := FlatPoseidon) (E := E) (hash_inputs_u64 l) = Ok bytes32_one.
Proof.
  unfold phash_into_bytes32, words_into_bytes32. apply (limbs_try_into_limbs (E := E) BYTES32_LEN bytes32_one).
Qed.

(** A collision-free hash: the code of the words above a constant low word. *)
Definition high_code (l : list Z) : list Z := [1 - 2 ^ 64 * Zpos (encode l); 0; 0; 0].

Lemma high_code_ok l : words_okb (high_code l) = true.
Proof. unfold words_okb, high_code. cbn [length forallb]. by rewrite (proj2 (Z.ltb_lt _ _)) by (unfold GOLDILOCKS_ORDER; lia). Qed.

Definition HighPoseidon : Poseidon := {|
  PHash := words4;
  phash_default := words4_default;
  phash_to_u64_vec := words4_list;
  hash_inputs_u64 l := mkWords4 (high_code l) (high_code_ok l);
|}.

Definition HighWords : PoseidonWords HighPoseidon := {| phash_from_elements l := (words4_of l : @PHash HighPoseidon) |}.

Lemma high_collision_free : PoseidonCollisionFree HighPoseidon.
Proof.
  destruct scenario_collision_free as [_ H2 H3]. split; [|exact H2|exact H3].
  intros l k H. injection H as H. apply (inj encode). lia.
Qed.

Lemma high_readable : PoseidonReadable HighPoseidon HighWords.
Proof. destruct scenario_readable as [H]. by split. Qed.

Lemma HighPoseidon_flat E l : phash_into_bytes32 (P := HighPoseidon) (E := E) (hash_inputs_u64 l) = Ok bytes32_one.
Proof.
  unfold phash_into_bytes32, words_into_bytes32. rewrite <- (limbs_try_into_limbs (E := E) BYTES32_LEN bytes32_one). f_equal.
  cbn [phash_to_u64_vec HighPoseidon hash_inputs_u64 words4_list high_code mbind list_bind app]. 
  assert (wrap 32 (Z.shiftr (1 - 2 ^ 64 * Zpos (encode l)) 32) = 0 /\ wrap 32 (1 - 2 ^ 64 * Zpos (encode l)) = 1) as [-> ->]; [|done].
  generalize (Zpos (encode l)). intros n. unfold wrap. rewrite Z.shiftr_div_pow2 by lia. split; Z.div_mod_to_equations; lia.
Qed.
