(* ===== verification/ServiceScenario.v ===== *)
(** * A durable producer at work

    Journals can be compared, so that a codec can be a table of the values that a
    scenario writes and hashes.  A service takes two deposits, crashes and starts
    again; another one registers a channel and prepares the funding of its
    close. *)

From S2P Require Import Prelude Limbs U63 Circuit MerkleTree LeafTrees Poseidon IndexedTree Keccak Regev BalanceState BalanceStateProps Account AccountProps AccountScenario Ledger LedgerProps Balance BalanceProps BalanceCodec LedgerScenario Channel ChannelProps StateUpdate StateUpdateProps ChannelRun Scenario HashChains BlockStep CloseFunding BlockChain Withdrawal Payout HashChainProps BlockStepProps CloseFundingProps BlockChainProps ChainCodec WithdrawalProps WithdrawalBacking ValidityProgress WithdrawalProgress ValidityScenario WithdrawalScenario FundingScenario WalletChecks WalletChecksProps Producer ProducerProps ProducerRun ProducerScenario ProducerService ServiceProps ServiceRun.
From stdpp Require Import strings.
Import BlockProducerService.

#[local] Remove Hints Leafable_Bytes32 : typeclass_instances.
#[local] Open Scope Z_scope.

(** ** Journals can be compared *)

Section decisions.
Context {P : Poseidon}.

#[export] Instance HashOut_eq_dec : EqDecision (@HashOut PoseidonLeafableHasher) := PHash_eq_dec.

#[export] Instance MerkleTree_eq_dec : EqDecision (MerkleTree.MerkleTree (Hs := PoseidonLeafableHasher)).
Proof. intros [h n z] [h' n' z']. refine (cast_if_and3 (decide (h = h')) (decide (n = n')) (decide (z = z'))); congruence. Defined.

#[export] Instance IncrementalMerkleTree_eq_dec : EqDecision (Incremental.IncrementalMerkleTree (Hs := PoseidonLeafableHasher) Bytes32).
Proof. intros [t l] [t' l']. refine (cast_if_and (decide (t = t')) (decide (l = l'))); congruence. Defined.

#[export] Instance MerkleProof_eq_dec : EqDecision (MerkleProof (Hs := PoseidonLeafableHasher)).
Proof. solve_decision. Defined.

#[export] Instance MemberInfo_eq_dec : EqDecision MemberInfo.
Proof. solve_decision. Defined.

#[export] Instance ChannelSnapshot_eq_dec : EqDecision ChannelSnapshot.
Proof. solve_decision. Defined.

#[export] Instance ProductionDepositRequest_eq_dec : EqDecision ProductionDepositRequest.
Proof. solve_decision. Defined.

#[export] Instance Transfer_eq_dec : EqDecision Transfer.
Proof. solve_decision. Defined.

#[export] Instance CloseFundingPlan_eq_dec : EqDecision CloseFundingPlan.
Proof. solve_decision. Defined.

#[export] Instance ReceiverBalanceDelta_eq_dec : EqDecision ReceiverBalanceDelta.ReceiverBalanceDelta.
Proof. solve_decision. Defined.

#[export] Instance InterChannelTx_eq_dec : EqDecision InterChannelTx.InterChannelTx.
Proof. solve_decision. Defined.

#[export] Instance InterChannelDebitPayload_eq_dec : EqDecision InterChannelDebitPayload.
Proof. solve_decision. Defined.

#[export] Instance InterChannelTransferDescriptor_eq_dec : EqDecision InterChannelTransferDescriptor.
Proof. solve_decision. Defined.

#[export] Instance ProductionJournalAction_eq_dec : EqDecision ProductionJournalAction.
Proof. solve_decision. Defined.

#[export] Instance ProductionJournalEntry_eq_dec : EqDecision ProductionJournalEntry.
Proof. solve_decision. Defined.

#[export] Instance ProductionJournalFile_eq_dec : EqDecision ProductionJournalFile.
Proof. solve_decision. Defined.

#[export] Instance RequestBody_eq_dec : EqDecision RequestBody.
Proof. solve_decision. Defined.

#[export] Instance Hashed_eq_dec : EqDecision Hashed.
Proof. solve_decision. Defined.

(** ** Codecs from tables *)

Definition code {A} `{EqDecision A} (table : list A) (x : A) : option (list Z) := (fun e => [Z.of_nat e.1]) <$> list_find (x =.) table.

Definition decode {A} (table : list A) (bytes : list Z) : option A :=
  match bytes with [i] => table !! Z.to_nat i | _ => None end.

Lemma decode_code {A} `{EqDecision A} (table : list A) x bytes : code table x = Some bytes -> decode table bytes = Some x.
Proof.
  unfold code. intros ([i y] & Hf & ->)%fmap_Some. apply list_find_Some in Hf as (Hi & <- & _). cbn. by rewrite Nat2Z.id.
Qed.

(** A journal and a hashed value are written as one byte; a hash is its input after zeros. *)
Definition TableCodec (journals : list ProductionJournalFile) (values : list Hashed) : JournalCodec := {|
  to_vec := code values;
  journal_to_vec := code journals;
  journal_from_slice := decode journals;
  keccak_of_bytes bytes := replicate 31 0 ++ bytes;
|}.

Lemma TableCodec_ok journals values : JournalCodecOk (TableCodec journals values).
Proof. split. exact (decode_code journals). Qed.

Lemma TableCodec_inj journals values : JournalCodecInj (TableCodec journals values).
Proof. split. intros a b bytes Ha%(decode_code values) Hb%(decode_code values). congruence. Qed.
End decisions.

Definition hash_byte (n : Z) : Bytes32 :=
  match from_bytes_be BYTES32_LEN (replicate 31 0 ++ [n]) with Ok b => b | _ => bytes32_default end.

(** Commands without a payload. *)
Definition NoPayload {P : Poseidon} : CommandCodec := {|
  Value := unit;
  snapshot_from_value _ := None;
  states_from_value _ := None;
  state_from_value _ := None;
  payload_from_value _ := None;
  descriptor_from_value _ := None;
  record_from_value _ := None;
|}.

(** ** Deposits *)

Section deposits.
#[local] Existing Instances FlatPoseidon FlatWords ToyKeccak AnySigner.

(** The generator keeps the deposits. *)
Definition DepositGenerator : BlockWitnessGenerator := {|
  Generator := list Deposit;
  generator_new _ := [];
  supported_user_counts _ := [1];
  blocks _ := [];
  deposit_counts g := Z.of_nat (length g);
  deposit_leaves g := g;
  deposit_hash_chain _ := bytes32_one;
  holds_local_signing_keys _ _ := false;
  add_channel_registration_public _ _ g := Ok g;
  add_registration_block _ g := Ok g;
  add_deposit depositor recipient token_index amount aux_data g :=
    Ok (g ++ [Deposit.mk (U63.mkU63 (Z.of_nat (length g))) (U63.mkU63 0) depositor recipient token_index amount aux_data]);
  stage_cosign _ _ _ g := g;
  add_block_with_tx_v2 _ _ _ _ _ g := Ok g;
|}.

Definition DepositState : GeneratorState (G := DepositGenerator) := Build_GeneratorState _ DepositGenerator
  (fun g : list Deposit => U63.mkU63 (Z.of_nat (length g)))
  (fun g : list Deposit =>
    let s := ExtendedPublicState.default in
    ExtendedPublicState.mk (ExtendedPublicState.inner s) (ExtendedPublicState.block_hash_chain s) bytes32_one (U63.mkU63 (Z.of_nat (length g)))
      (ExtendedPublicState.channel_reg_hash_chain s) (ExtendedPublicState.bp_sig_chain s)).

Lemma DepositTimestamps : GeneratorTimestamps DepositGenerator.
Proof. split. intros g b Hb. by apply elem_of_nil in Hb. Qed.

#[local] Existing Instances DepositGenerator DepositState DepositTimestamps NoPayload.

Definition toy_deposit (i : Z) : ProductionDepositRequest := ProductionDepositRequest.mk i recipient_address digest_one 0 amount_five bytes32_default bytes32_one.

(** The deposits that the generator holds, and the producer with them. *)
Definition toy_leaf (i : Z) : Deposit := Deposit.mk (U63.mkU63 i) (U63.mkU63 0) recipient_address digest_one 0 amount_five bytes32_default.

Definition toy_producer (leaves : list Deposit) : ProductionBlockProducer.ProductionBlockProducer :=
  ProductionBlockProducer.with_witness (ProductionBlockProducer.new [1]) leaves.

(** The entries, whose hashes are the places in the table of hashed values. *)
Definition toy_entry (i : Z) (fingerprint previous hash : Z) (leaves : list Deposit) : ProductionJournalEntry :=
  ProductionJournalEntry.mk (i + 1) [97 + i] (hash_byte fingerprint) (hash_byte previous) (PostDeposit (toy_deposit i) (5 + i)) (capture (toy_producer leaves)) (hash_byte hash).

Definition entry_one : ProductionJournalEntry := toy_entry 0 1 0 2 [toy_leaf 0].
Definition entry_two : ProductionJournalEntry := toy_entry 1 3 2 4 [toy_leaf 0; toy_leaf 1].

Definition deposit_fingerprint (i : Z) : Hashed := RequestFingerprint "INTMAX_BLOCK_PRODUCER_REQUEST_V1" "postDeposit" (DepositBody (toy_deposit i)).

Definition toy_values : list Hashed := [genesis_material [1]; deposit_fingerprint 0; entry_material entry_one; deposit_fingerprint 1; entry_material entry_two].

Definition toy_journal (generation : Z) (tail : Z) (entries : list ProductionJournalEntry) : ProductionJournalFile :=
  ProductionJournalFile.mk PRODUCTION_JOURNAL_MAGIC PRODUCTION_JOURNAL_VERSION [1] generation (hash_byte tail) entries None.

Definition journal_zero : ProductionJournalFile := toy_journal 0 0 [].
Definition journal_one : ProductionJournalFile := toy_journal 1 2 [entry_one].
Definition journal_two : ProductionJournalFile := toy_journal 2 4 [entry_one; entry_two].

Definition DepositCodec : JournalCodec := TableCodec [journal_zero; journal_one; journal_two] toy_values.

#[local] Existing Instance DepositCodec.

(** The services before a deposit, after one and after two. *)
Definition service_zero : BlockProducerService := mk (Some [0]) journal_zero (toy_producer []) None false.
Definition service_one : BlockProducerService := mk (Some [1]) journal_one (toy_producer [toy_leaf 0]) None false.
Definition service_two : BlockProducerService := mk (Some [2]) journal_two (toy_producer [toy_leaf 0; toy_leaf 1]) None false.

Definition toy_receipt (e : ProductionJournalEntry) : BlockProducerReceipt :=
  match receipt_from_entry e with Ok rc => rc | _ => BlockProducerReceipt.mk [] 0 bytes32_default 0 0 bytes32_default bytes32_default end.

Lemma deposit_opens file : file = None \/ file = Some [0] -> open NoFault file [1] = (Some [0], Ok service_zero).
Proof. intros [->| ->]; vm_compute; reflexivity. Qed.

Lemma deposit_reopens fault : open fault (Some [1]) [1] = (Some [1], Ok service_one).
Proof. destruct fault; vm_compute; reflexivity. Qed.

Lemma deposit_one : ServiceProps.apply NoFault (Some 5) (ODeposit [97] (toy_deposit 0)) service_zero = (service_one, Ok (Some (toy_receipt entry_one))).
Proof. vm_compute. reflexivity. Qed.

Lemma deposit_two : ServiceProps.apply NoFault (Some 5) (ODeposit [98] (toy_deposit 1)) service_one = (service_two, Ok (Some (toy_receipt entry_two))).
Proof. vm_compute. reflexivity. Qed.
End deposits.

(** ** A close that is prepared *)

(** The nodes of trees have the bytes of one, everything else has zeros. *)
Definition PeakPoseidon : Poseidon := {|
  PHash := canon4;
  PHash_eq_dec := canon4_eq_dec;
  phash_default := canon4_default;
  phash_to_u64_vec := canon4_list;
  hash_inputs_u64 l := if (length l =? 8)%nat then mkCanon4 [1; 0; 0; 0] eq_refl else canon4_default;
|}.

Definition PeakWords : PoseidonWords PeakPoseidon := {| phash_from_elements l := (canon4_of l : @PHash PeakPoseidon) |}.

Lemma PeakWords_ok : PoseidonWordsOk PeakPoseidon PeakWords.
Proof. destruct CanonWords_ok as [H1 H2 H3]. by split. Qed.

Section close.
#[local] Existing Instances PeakPoseidon PeakWords PeakWords_ok ToyKeccak AnySigner AnyGenerator NoPayload.

Lemma peak_tree E f i : exists h, subtree (Hs := PoseidonLeafableHasher) f TX_TREE_HEIGHT i = h /\ phash_into_bytes32 (E := E) h = Ok bytes32_one.
Proof.
  eexists. split; [reflexivity|]. change TX_TREE_HEIGHT with (S (Nat.pred TX_TREE_HEIGHT)). cbn [subtree].
  match goal with |- phash_into_bytes32 (two_to_one ?a ?b) = _ => generalize a b end. intros a b.
  assert (two_to_one (LeafableHasher := PoseidonLeafableHasher) a b = mkCanon4 [1; 0; 0; 0] eq_refl) as ->.
  { destruct PeakWords_ok as [_ _ Hl]. pose proof (Hl a) as Ha. pose proof (Hl b) as Hb. cbn in *. by rewrite length_app, Ha, Hb. }
  apply (limbs_try_into_limbs (E := E) BYTES32_LEN bytes32_one).
Qed.

Definition snap_record : ChannelRecord := ChannelRecord.mk 7 2 0 (ChannelRecord.member_pk_gs toy_record) bytes32_one 0 0 u256_zero 0 Active digest_one.

Definition snap : ChannelSnapshot := ChannelSnapshot.mk snap_record (funded_with digest_one)
  [MemberInfo.mk 0 digest_one digest_one Pk.padding; MemberInfo.mk 1 digest_two digest_one Pk.padding]
  (Incremental.new (Hs := PoseidonLeafableHasher) SETTLED_TX_ACCUMULATOR_HEIGHT).

Lemma constant_pk_root {E} pks : Forall pk_ok pks -> regev_pk_root (K := ToyKeccak) (E := E) pks = Ok digest_one.
Proof.
  intros H. get (map (fun pk => hash_words (K := ToyKeccak) (Pk.digest_words pk)) pks) ltac:(idtac); [|reflexivity]. apply res_mapM_Ok.
  induction H as [|pk pks Hp _ IH]; constructor; [by apply pk_digest_Ok|exact IH].
Qed.

Lemma snap_keys : Forall pk_ok (regev_pks_array (ChannelSnapshot.members snap)).
Proof.
  unfold regev_pks_array. cbn [ChannelSnapshot.members snap foldl].
  assert (Forall pk_ok (replicate MAX_CHANNEL_MEMBERS Pk.padding)) as H by (apply Forall_replicate, pk_padding_ok).
  repeat case_match; repeat apply Forall_insert; try exact H; apply pk_padding_ok.
Qed.

Lemma snap_verifies : verify_snapshot snap = Ok tt.
Proof.
  pass ltac:(idtac).
  - unfold verify_snapshot_structure. cbv zeta. do 4 pass ltac:(reflexivity). do 4 pass ltac:(vm_compute; reflexivity).
    get digest_one ltac:(apply constant_pk_root, snap_keys). pass ltac:(reflexivity). get bytes32_one ltac:(vm_compute; reflexivity). pass ltac:(reflexivity).
    pass ltac:(vm_compute; reflexivity). pass ltac:(apply map_err_Ok, validate_Ok; [apply (toy_typed fund_view), fund_view_ok|apply (toy_valid fund_view), fund_view_ok]).
    vm_compute. reflexivity.
  - apply scene_signed; [reflexivity|reflexivity|apply (toy_typed fund_view), fund_view_ok|apply (toy_valid fund_view), fund_view_ok|reflexivity|reflexivity].
Qed.

Definition snapped : ProductionBlockProducer.ProductionBlockProducer :=
  ProductionBlockProducer.with_head 7 (funded_with digest_one) (ProductionBlockProducer.with_record 7 snap_record (ProductionBlockProducer.with_witness (ProductionBlockProducer.new [1]) tt)).

Lemma snap_registers t : ProductionBlockProducer.register_snapshot snap t (ProductionBlockProducer.new [1]) = (snapped, Ok 7).
Proof.
  unfold ProductionBlockProducer.register_snapshot.
  assert (exists r, ProductionChannelRegistration.from_snapshot snap = Ok r /\ ProductionChannelRegistration.validate r = Ok tt /\ ProductionChannelRegistration.channel_record r = snap_record) as (r & -> & Hv & Hr).
  { unfold ProductionChannelRegistration.from_snapshot. rewrite snap_verifies. cbn [registration_ok map_err mbind res_bind].
    eexists. split; [vm_compute; reflexivity|]. split; vm_compute; reflexivity. }
  rewrite (pure_Ok _ r) by done. rewrite Hr. unfold ProductionBlockProducer.register_channel, ProductionBlockProducer.on_candidate, mbind, meth_bind, pure.
  rewrite Hv, Hr. reflexivity.
Qed.

(** The producer after the block that funds the close. *)
Definition closed (proposal : CloseFundingProposal) : ProductionBlockProducer.ProductionBlockProducer :=
  ProductionBlockProducer.with_terminal 7 (ProductionBlockProducer.with_nonce 7 0 (ProductionBlockProducer.with_head 7 (child_signed proposal) (ProductionBlockProducer.with_witness snapped tt))).

Lemma snap_closes proposal t : scene_child proposal -> 0 < t ->
  ProductionBlockProducer.produce_close_funding_block (child_signed proposal) (CloseFundingProposal.plan proposal) t snapped = (closed proposal, Ok tt).
Proof.
  intros Hp Ht. apply (scene_closes proposal snapped snap_record t Hp); [apply (lookup_insert_eq (M := gmap Z))|apply (lookup_insert_eq (M := gmap Z))|reflexivity|reflexivity| |reflexivity|exact Ht].
  apply not_elem_of_empty.
Qed.

(** Every value is written as one byte. *)
Definition OneByte : JournalCodec := {|
  to_vec _ := Some [0];
  journal_to_vec _ := Some [0];
  journal_from_slice _ := None;
  keccak_of_bytes _ := replicate 32 0;
|}.

Definition AnyState : GeneratorState (G := AnyGenerator) := Build_GeneratorState _ AnyGenerator (fun _ => U63.mkU63 0) (fun _ => ExtendedPublicState.default).

Lemma AnyTimestamps : GeneratorTimestamps AnyGenerator.
Proof. split. intros g b Hb. by apply elem_of_nil in Hb. Qed.

#[local] Existing Instances OneByte AnyState AnyTimestamps.

Definition snap_entry : ProductionJournalEntry :=
  ProductionJournalEntry.mk 1 [97] (hash_byte 0) (hash_byte 0) (Register snap 5) (capture snapped) (hash_byte 0).

Definition close_entry (proposal : CloseFundingProposal) : ProductionJournalEntry :=
  ProductionJournalEntry.mk 2 [98] (hash_byte 0) (hash_byte 0) (PostCloseFunding (child_signed proposal) (CloseFundingProposal.plan proposal) 6) (capture (closed proposal)) (hash_byte 0).

Definition close_journal (proposal : CloseFundingProposal) : ProductionJournalFile :=
  ProductionJournalFile.mk PRODUCTION_JOURNAL_MAGIC PRODUCTION_JOURNAL_VERSION [1] 1 (hash_byte 0) [snap_entry] (Some (close_entry proposal)).

Definition close_service (proposal : CloseFundingProposal) : BlockProducerService := mk (Some [0]) (close_journal proposal) snapped (Some (closed proposal)) false.

Lemma one_byte_hash value : hash_serializable value = Ok (hash_byte 0).
Proof. vm_compute. reflexivity. Qed.

Lemma any_keyless (p : ProductionBlockProducer.ProductionBlockProducer) : ProductionBlockProducer.holds_any_local_signing_keys p = false.
Proof. unfold ProductionBlockProducer.holds_any_local_signing_keys. by induction (map_to_list _) as [|e l IH]. Qed.

(** What the codec leaves to check of an entry. *)
Lemma one_byte_follows r id a p : validate_request_id id = Ok tt -> id ∉ request_ids r -> prior_timestamp r < action_timestamp a -> expected_prev r = hash_byte 0 ->
  apply_action a (replayed r) = (p, Ok tt) ->
  follows r (ProductionJournalEntry.mk (Z.of_nat (index r) + 1) id (hash_byte 0) (hash_byte 0) a (capture p) (hash_byte 0)) p.
Proof. intros Hid Hn Ht He Ha. constructor; [reflexivity|exact (eq_sym He)|exact Hid|exact Hn|destruct a; apply one_byte_hash|exact Ht|apply one_byte_hash|exact Ha|reflexivity|apply any_keyless]. Qed.

(** The two entries, one after the other. *)
Lemma snap_follows : follows (genesis_replay [1] (hash_byte 0)) snap_entry snapped.
Proof.
  apply (one_byte_follows (genesis_replay [1] (hash_byte 0))); [vm_compute; reflexivity|apply not_elem_of_nil|reflexivity|reflexivity|].
  cbn [apply_action]. unfold call. by rewrite snap_registers.
Qed.

Lemma close_follows proposal : scene_child proposal -> follows (extend (genesis_replay [1] (hash_byte 0)) snap_entry snapped) (close_entry proposal) (closed proposal).
Proof.
  intros Hp. set (r := extend _ snap_entry snapped). apply (one_byte_follows r); [vm_compute; reflexivity|by cbn; rewrite list_elem_of_singleton|reflexivity|reflexivity|].
  cbn [apply_action]. unfold call. change (replayed r) with snapped. by rewrite snap_closes.
Qed.

Lemma close_verified proposal : scene_child proposal -> verify_and_replay (close_journal proposal) = Ok (snapped, Some (closed proposal)).
Proof.
  intros Hp. set (r0 := genesis_replay [1] (hash_byte 0)). set (r := extend r0 snap_entry snapped). apply (good_replays _ r). constructor.
  - reflexivity.
  - reflexivity.
  - vm_compute. reflexivity.
  - constructor; [reflexivity|constructor].
  - exists (hash_byte 0). split; [apply one_byte_hash|]. apply (replays_snoc _ [] _ snap_entry snapped); [constructor|exact snap_follows].
  - reflexivity.
  - reflexivity.
  - reflexivity.
  - split; [reflexivity|]. split; [exact (close_follows proposal Hp)|reflexivity].
Qed.

(** The same two entries, both committed. *)
Definition paid_journal (proposal : CloseFundingProposal) : ProductionJournalFile :=
  ProductionJournalFile.mk PRODUCTION_JOURNAL_MAGIC PRODUCTION_JOURNAL_VERSION [1] 2 (hash_byte 0) [snap_entry; close_entry proposal] None.

Lemma paid_verified proposal : scene_child proposal -> verify_and_replay (paid_journal proposal) = Ok (closed proposal, None).
Proof.
  intros Hp. set (r0 := genesis_replay [1] (hash_byte 0)). set (r1 := extend r0 snap_entry snapped). set (r2 := extend r1 (close_entry proposal) (closed proposal)).
  apply (good_replays _ r2). constructor.
  - reflexivity.
  - reflexivity.
  - vm_compute. reflexivity.
  - constructor; [reflexivity|constructor; [reflexivity|constructor]].
  - exists (hash_byte 0). split; [apply one_byte_hash|]. apply (replays_snoc _ [snap_entry] r1 (close_entry proposal) (closed proposal)); [|exact (close_follows proposal Hp)].
    apply (replays_snoc _ [] _ snap_entry snapped); [constructor|exact snap_follows].
  - reflexivity.
  - reflexivity.
  - reflexivity.
  - reflexivity.
Qed.

Definition close_anchor (proposal : CloseFundingProposal) : BlockProducerAnchor :=
  match anchor_from_entry (close_entry proposal) with Ok a => a | _ => BlockProducerAnchor.mk 0 bytes32_default 0 0 bytes32_default bytes32_default end.

Lemma close_commits proposal : poisoned (ServiceProps.apply NoFault None (OCommitAtAnchor (close_anchor proposal)) (close_service proposal)).1 = false.
Proof. vm_compute. reflexivity. Qed.
End close.
