(* ===== verification/FoundationTheorems.v ===== *)
(** * The theorems on the foundations

    Machine-width numbers, the range-check gadgets, byte encodings, Merkle trees
    (plain, incremental and indexed) and Regev ciphertexts: the facts the
    channel and account layers rest on, each with a concrete instance. *)

From S2P Require Import Prelude Limbs Circuit U63 MerkleTree LeafTrees Poseidon IndexedTree Keccak Regev.

(** ** Merkle trees *)

(** On a tree that represents the leaf assignment [f], writing a leaf
    succeeds, represents exactly the assignment with that leaf replaced, has the
    root the recursive definition gives, and its own proof for the leaf
    verifies against that root. *)
Theorem merkle_update_prove_verify {Hs : LeafableHasher} {V} {L : Leafable V} t f i (leaf : V) :
  represents t f -> 0 <= i < 2 ^ Z.of_nat (height t) -> in_width 64 i ->
  exists t' p, update_leaf (E := MerkleProofError) t i (leaf_hash leaf) = Ok t' /\
    represents t' (<[i := leaf_hash leaf]> f) /\
    get_root (E := MerkleProofError) t' = Ok (subtree (<[i := leaf_hash leaf]> f) (height t) 0) /\
    prove (E := MerkleProofError) t' i = Ok p /\
    proof_verify p leaf i (subtree (<[i := leaf_hash leaf]> f) (height t) 0) = Ok tt.
Proof.
  intros Hr Hi Hw.
  destruct (update_leaf_spec (E := MerkleProofError) t f i (leaf_hash leaf) Hr Hi Hw) as (t' & Ht' & Hh & _ & Hr').
  pose proof (get_root_spec (E := MerkleProofError) t' _ Hr') as Hroot. rewrite Hh in Hroot.
  rewrite <- Hh in Hi. pose proof (prove_spec (E := MerkleProofError) t' _ i Hr' Hi Hw) as Hp.
  exists t'. eexists. split_and!; [done..|exact Hp|].
  eapply prove_verify_complete; [exact Hr'|done|exact Hp|exact Hroot|apply fn_lookup_insert].
Qed.

(** A small hasher on numbers, for the instances. *)
Definition SmallHasher : LeafableHasher :=
  {| HashOut := Z; default_hash := 0; two_to_one a b := 2 * a + 3 * b + 1 |}.

Definition SmallLeaf : Leafable (Hs := SmallHasher) Z :=
  {| empty_leaf := 0; leaf_hash := (fun x : Z => x) : Z -> HashOut (LeafableHasher := SmallHasher) |}.

#[local] Existing Instance SmallHasher.
#[local] Existing Instance SmallLeaf.

Lemma merkle_update_prove_verify_witness :
  exists t' p, update_leaf (E := MerkleProofError) (new (V := Z) 2) 1 (leaf_hash 5) = Ok t' /\
    represents t' (<[1 := leaf_hash 5]> (empty_leaves (V := Z))) /\
    get_root (E := MerkleProofError) t' = Ok (subtree (<[1 := leaf_hash 5]> (empty_leaves (V := Z))) 2 0) /\
    prove (E := MerkleProofError) t' 1 = Ok p /\
    proof_verify p 5 1 (subtree (<[1 := leaf_hash 5]> (empty_leaves (V := Z))) 2 0) = Ok tt.
Proof.
  apply (merkle_update_prove_verify (new (V := Z) 2) (empty_leaves (V := Z)) 1 5).
  - apply new_represents.
  - by split.
  - by split.
Defined.

(** Two proofs of the same height that verify different leaves at the same
    index against the same root hand over a collision of the node hash, which
    [find_collision] computes from the two paths. *)
Theorem merkle_proof_binding {Hs : LeafableHasher} {V} {L : Leafable V} p p' (leaf leaf' : V) i root :
  proof_verify p leaf i root = Ok tt -> proof_verify p' leaf' i root = Ok tt ->
  proof_height p = proof_height p' ->
  leaf_hash leaf = leaf_hash leaf' \/
  exists a b a' b', find_collision (siblings p) (siblings p') i (leaf_hash leaf) (leaf_hash leaf')
      = Some ((a, b), (a', b')) /\
    (a, b) <> (a', b') /\ two_to_one a b = two_to_one a' b'.
Proof.
  intros (_ & H)%proof_verify_Ok (_ & H')%proof_verify_Ok Hh.
  destruct (decide (leaf_hash leaf = leaf_hash leaf')) as [|Hne]; [by left|right].
  apply find_collision_sound; [exact Hh|done|congruence].
Qed.

Definition merkle_pair (a : Z) : MerkleProof (Hs := SmallHasher) := mkMerkleProof (Hs := SmallHasher) [a].

Lemma merkle_proof_binding_witness :
  leaf_hash 3 = leaf_hash 0 \/
  exists a b a' b', find_collision (siblings (merkle_pair 0)) (siblings (merkle_pair 2)) 0 (leaf_hash 3) (leaf_hash 0)
      = Some ((a, b), (a', b')) /\
    (a, b) <> (a', b') /\ two_to_one a b = two_to_one a' b'.
Proof.
  apply (merkle_proof_binding (merkle_pair 0) (merkle_pair 2) 3 0 0 7); reflexivity.
Defined.

(** The bottom-up root of a leaf list equals the root of the tree that the
    leaves are pushed into one by one, whenever the list fits; a list that does
    not fit is refused. *)
Theorem root_from_leaves_is_tree_root {Hs : LeafableHasher} {V} {L : Leafable V} h (leaves : list V) :
  (h < 64)%nat ->
  if decide (length leaves <= 2 ^ h)%nat
  then exists t r, Incremental.unpack (E := GetRootFromLeavesError) (Incremental.mkPacked h leaves) = Ok t /\
         Incremental.get_root (E := GetRootFromLeavesError) t = Ok r /\
         get_merkle_root_from_leaves h leaves = Ok r
  else exists e, get_merkle_root_from_leaves h leaves = Err e.
Proof.
  intros Hh. destruct (decide _) as [Hl|Hl].
  - destruct (Incremental.unpack_loop (E := GetRootFromLeavesError) leaves (Incremental.new h))
      as (t & Ht & Hinv & Hth & Htl); [by apply Incremental.new_inv|cbn; pose proof (Nat2Z.inj_pow 2 h); lia|].
    exists t. eexists. split_and!; [exact Ht|by apply Incremental.get_root_inv|].
    rewrite get_merkle_root_from_leaves_eq by done. by rewrite Htl, Hth.
  - unfold get_merkle_root_from_leaves. destruct (Nat.ltb_spec (2 ^ h) (length leaves)); [by eexists|lia].
Qed.

Lemma root_from_leaves_is_tree_root_witness :
  exists t r, Incremental.unpack (E := GetRootFromLeavesError) (Incremental.mkPacked 2 [1; 2; 3]) = Ok t /\
    Incremental.get_root (E := GetRootFromLeavesError) t = Ok r /\
    get_merkle_root_from_leaves 2 [1; 2; 3] = Ok r.
Proof. refine (root_from_leaves_is_tree_root 2 [1; 2; 3] _). lia. Defined.

(** Pushing to an incremental tree appends the leaf and keeps the invariant
    below capacity and aborts at capacity; loading a packed tree never aborts: it
    returns the tree with exactly those leaves, or the error that applies. *)
Theorem incremental_tree_push_and_load {Hs : LeafableHasher} {V} {L : Leafable V} t (leaf : V) p :
  Incremental.inv t ->
  (if decide (Z.of_nat (length (Incremental.leaves t)) < 2 ^ Z.of_nat (Incremental.height t))
   then exists t', Incremental.push (E := Incremental.DeserializeError) t leaf = Ok t' /\ Incremental.inv t' /\
          Incremental.height t' = Incremental.height t /\ Incremental.leaves t' = Incremental.leaves t ++ [leaf]
   else Incremental.push (E := Incremental.DeserializeError) t leaf = Panic) /\
  match Incremental.deserialize p with
  | Ok t' => Incremental.inv t' /\ Incremental.height t' = Incremental.packed_height p /\
      Incremental.leaves t' = Incremental.packed_leaves p
  | Err Incremental.HeightNotAddressable => (64 <= Incremental.packed_height p)%nat
  | Err Incremental.TooManyLeavesForHeight =>
      2 ^ Z.of_nat (Incremental.packed_height p) < Z.of_nat (length (Incremental.packed_leaves p))
  | Panic => False
  end.
Proof.
  intros Hinv. split; [|apply Incremental.deserialize_spec]. destruct (decide _) as [Hlt|Hge].
  - by apply Incremental.push_spec.
  - apply Incremental.push_full; [done|]. destruct Hinv as (_ & _ & Hc). lia.
Qed.

Lemma incremental_tree_push_and_load_witness :
  exists t', Incremental.push (E := Incremental.DeserializeError) (Incremental.new 2) 7 = Ok t' /\
    Incremental.inv t' /\ Incremental.height t' = 2%nat /\ Incremental.leaves t' = [7].
Proof.
  refine (proj1 (incremental_tree_push_and_load (Incremental.new 2) 7 (Incremental.mkPacked 2 []) _)).
  apply Incremental.new_inv. lia.
Defined.

(** ** The indexed Merkle tree *)

#[local] Existing Instance CodePoseidon.

Definition key_one : U256 := mkLimbs (n := U256_LEN) [0; 0; 0; 0; 0; 0; 0; 1] eq_refl.

Lemma small_tree : exists t, indexed_new (E := Empty_set) 1 = Ok t /\ indexed_inv t /\
  Incremental.height t = 1%nat /\ Incremental.leaves t = [default_leaf].
Proof. apply indexed_new_inv. lia. Qed.

Lemma key_one_absent : ~ has_key (positions [default_leaf]) key_one.
Proof.
  intros (i & leaf & Hi & Hk). apply positions_lookup in Hi as [_ Hi].
  destruct (Z.to_nat i) as [|[|]]; [|done|done]. cbn in Hi. injection Hi as <-. discriminate Hk.
Qed.

(** Insertion proofs checked one after the other from the root of a linked
    leaf map never insert a key twice and never insert a present key, whatever
    the proofs contain; the final root is that of a linked map with exactly the
    added keys.  Stated for a collision-free hash. *)
Theorem insertion_chain_no_double_insert {P : Poseidon} {PC : PoseidonCollisionFree P} h m ps r :
  linked m -> dom_ok h m -> (h < 64)%nat ->
  Forall (fun e => well_shaped h e.1.1) ps ->
  run_insertions (root_of h m) ps = Ok r ->
  NoDup ((fun e => e.1.2) <$> ps) /\
  (forall k, k ∈ ((fun e => e.1.2) <$> ps) -> ~ has_key m k) /\
  exists m', linked m' /\ dom_ok h m' /\ r = root_of h m' /\
    forall k, has_key m' k <-> k ∈ ((fun e => e.1.2) <$> ps) \/ has_key m k.
Proof. apply run_insertions_sound. Qed.

Lemma small_insertion : exists p r, well_shaped 1 p /\
  run_insertions (root_of 1 (positions [default_leaf])) [(p, key_one, 0)] = Ok r.
Proof.
  destruct small_tree as (t & Ht & Hinv & Hh & Hl).
  assert (exists t' p, prove_and_insert t key_one 0 = Ok (t', p)) as (t' & p & Hp).
  { vm_compute in Ht. injection Ht as <-. do 2 eexists. vm_compute. reflexivity. }
  pose proof (prove_and_insert_Ok t key_one 0 t' p Hinv Hp) as (Hins & low & prev & Hlow & _ & Hpe & _ & _).
  pose proof (insert_spec t key_one 0 Hinv) as Hspec. rewrite Hins in Hspec. destruct Hspec as (_ & Hinv' & _).
  pose proof (inv_root_of t (E := IndexedMerkleTreeError) (proj1 Hinv)) as Hr.
  pose proof (inv_root_of t' (E := IndexedMerkleTreeError) (proj1 Hinv')) as Hr'.
  pose proof (prove_and_insert_verifies t key_one 0 t' p _ _ Hinv Hp Hr Hr') as Hv.
  unfold insertion_verify in Hv. apply bind_Ok in Hv as (r & Hg & _). rewrite Hh, Hl in Hg.
  exists p, r. split; [|unfold run_insertions; cbn [res_foldl fst snd]; by rewrite Hg].
  apply (inv_dom_ok t (proj1 Hinv)) in Hlow. rewrite Hh in Hlow. subst p. rewrite Hh, Hl.
  split_and!; cbn [low_leaf_proof leaf_proof low_leaf_index ip_index].
  - apply sibling_path_length.
  - apply sibling_path_length.
  - unfold in_width. change (2 ^ Z.of_nat 1) with 2 in Hlow. lia.
  - by split.
Qed.

Lemma insertion_chain_no_double_insert_witness :
  NoDup [key_one] /\ (forall k, k ∈ [key_one] -> ~ has_key (positions [default_leaf]) k).
Proof.
  destruct small_insertion as (p & r & Hws & Hr).
  destruct small_tree as (t & _ & [Hinv Hlk] & Hh & Hl).
  pose proof (inv_dom_ok t Hinv) as Hdom. rewrite Hh, Hl in *.
  destruct (insertion_chain_no_double_insert 1 (positions [default_leaf]) [(p, key_one, 0)] r) as (H1 & H2 & _).
  - exact Hlk.
  - exact Hdom.
  - lia.
  - constructor; [exact Hws|constructor].
  - exact Hr.
  - split; [exact H1|exact H2].
Defined.

(** ** Machine-width numbers *)

(** C40: 256-bit addition and subtraction on eight 32-bit limbs compute the
    integer sum and difference, and abort exactly when the result does not fit;
    the limb order is the integer order. *)
Theorem u256_arithmetic_exact {E} (x y : U256) :
  match U256.add (E := E) x y with
  | Ok z => val z = val x + val y
  | Err _ => False
  | Panic => 2 ^ 256 <= val x + val y
  end /\
  match U256.sub (E := E) x y with
  | Ok z => val z = val x - val y
  | Err _ => False
  | Panic => val x < val y
  end /\
  U256.cmp x y = (val x ?= val y) /\ U256.to_biguint x = val x.
Proof.
  pose proof (U256_theorems.add_val (E := E) x y) as Ha. pose proof (U256_theorems.sub_val (E := E) x y) as Hs.
  split_and!; [by destruct (U256.add x y); intuition|by destruct (U256.sub x y); intuition| |].
  - apply U256_theorems.cmp_val.
  - apply U256_theorems.to_biguint_val.
Qed.

(** The comparison gadgets on 63-bit counters accept exactly the pairs of
    63-bit values in the stated order (no field wrap-around admits another
    assignment); decoding a counter from two 32-bit words accepts exactly the
    encodings, and adding to a counter is exact or refused. *)
Theorem u63_counters_exact `{CircuitBuilder} slice x y :
  Forall (in_width 32) slice -> U63_lemmas.u63_ok x -> in_width 64 y ->
  (forall a b, tt ∈ U63.enforce_ge a b <-> in_width 63 a /\ in_width 63 b /\ b <= a) /\
  (forall a b, tt ∈ U63.enforce_gt a b <-> in_width 63 a /\ in_width 63 b /\ b < a) /\
  match U63.from_u32_slice slice with
  | Ok z => U63_lemmas.u63_ok z /\ U63.to_u32_vec z = slice
  | Err _ => length slice <> 2%nat \/ exists h l, slice = [h; l] /\ 2 ^ 31 <= h
  | Panic => False
  end /\
  match U63.add x y with
  | Ok z => U63_lemmas.u63_ok z /\ U63.as_u64 z = U63.as_u64 x + y
  | Err _ => 2 ^ 63 <= U63.as_u64 x + y
  | Panic => False
  end.
Proof.
  intros Hs Hx Hy. split_and!.
  - intros a b. apply U63_lemmas.enforce_compare_spec.
  - intros a b. apply U63_lemmas.enforce_compare_spec.
  - by apply U63_theorems.u63_from_u32_slice_total.
  - by apply U63_theorems.u63_add_spec.
Qed.

Lemma u63_counters_exact_witness :
  tt ∈ @U63.enforce_ge ReferenceBuilder 5 5 /\
  (U63_lemmas.u63_ok (U63.mkU63 (2 ^ 32 + 5)) /\ U63.to_u32_vec (U63.mkU63 (2 ^ 32 + 5)) = [1; 5]) /\
  (U63_lemmas.u63_ok (U63.mkU63 10) /\ 10 = 7 + 3).
Proof.
  destruct (@u63_counters_exact ReferenceBuilder [1; 5] (U63.mkU63 7) 3
              ltac:(repeat constructor; done) ltac:(by split) ltac:(by split)) as (Hge & _ & Hd & Ha).
  split; [|split; [exact Hd|exact Ha]]. apply Hge. split_and!; [by split|by split|apply Z.le_refl].
Defined.

(** Every limb value survives its three encodings (big-endian bytes,
    big-endian bits, the 64-bit word vector); a 32-byte string converts to a
    Poseidon output exactly when its four words are canonical field elements,
    and then converts back to the same bytes. *)
Theorem encodings_roundtrip {n} (x : Limbs n) (b : Bytes32) :
  from_bytes_be n (to_bytes_be x) = Ok x /\ from_bits_be n (to_bits_be x) = Ok x /\
  from_u64_slice n (to_u64_vec x) = Ok x /\
  match PoseidonHashOut.try_from_bytes32 b with
  | Ok h => Forall canonical (PoseidonHashOut.elements h) /\ PoseidonHashOut.into_bytes32 (E := Empty_set) h = Ok b
  | Err (PoseidonHashOut.NonCanonicalElement _) => ~ Forall canonical (PoseidonHashOut.pair_words (limbs b))
  | Err _ => False
  | Panic => False
  end.
Proof.
  split_and!; [apply from_bytes_be_to_bytes_be | apply from_bits_be_to_bits_be | apply from_u64_slice_to_u64_vec
    | apply PoseidonHashOut_theorems.try_from_bytes32_exact].
Qed.

(** ** Regev ciphertexts *)

(** Homomorphic addition of canonical ciphertexts always succeeds with a
    canonical ciphertext, is commutative and associative, and has the padding
    ciphertext as its unit; it refuses a non-canonical operand. *)
Theorem ciphertext_addition_laws a b c :
  ct_canonical a -> ct_ok b -> ct_ok c ->
  (exists ab, add_ciphertexts a b = Ok ab /\ ct_canonical ab) /\
  add_ciphertexts a b = add_ciphertexts b a /\
  (bc ← add_ciphertexts b c; add_ciphertexts a bc) = (ab ← add_ciphertexts a b; add_ciphertexts ab c) /\
  add_ciphertexts a Ct.padding = Ok a /\
  (forall d, ~ ct_ok d -> add_ciphertexts a d = Err InvalidCiphertext).
Proof.
  intros Ha Hb Hc. pose proof (ct_canonical_ok a Ha) as Ha'. split_and!.
  - assert (exists ab, add_ciphertexts a b = Ok ab) as [ab Hab]
      by (eexists; apply add_ciphertexts_Ok; by split_and!).
    exists ab. split; [done|]. by eapply add_ciphertexts_canonical.
  - by apply add_ciphertexts_comm.
  - by apply add_ciphertexts_assoc.
  - by apply add_ciphertexts_padding.
  - intros d Hd. unfold add_ciphertexts. rewrite (proj2 (ct_validate_Ok a tt) Ha'). cbn [mbind res_bind].
    destruct (ct_validate_total d) as [H|H]; [by apply ct_validate_Ok in H|by rewrite H].
Qed.

Lemma ciphertext_addition_laws_witness : add_ciphertexts Ct.padding Ct.padding = Ok Ct.padding.
Proof.
  assert (ct_canonical Ct.padding) as Hc
    by (split; (split; [apply length_replicate | by apply Forall_replicate])).
  exact (proj1 (proj2 (proj2 (proj2
    (ciphertext_addition_laws Ct.padding Ct.padding Ct.padding Hc padding_ok padding_ok))))).
Defined.

(** Decoding an amount succeeds exactly when the key and ciphertext are
    well formed, no digit above position 63 is set and the denoted value is
    below 2^64, and then returns the denoted value; digit vectors add to the sum
    of their values. *)
Theorem decrypt_amount_exact {R : RegevScheme} sk ct v ds es :
  length ds = length es ->
  (decrypt_amount sk ct = Ok v <->
    length (sk_s sk) = REGEV_N /\ ct_ok ct /\ high_digits_zero (regev_decrypt sk ct) /\
    v = digits_value 0 (regev_decrypt sk ct) /\ v < 2 ^ 64) /\
  digits_value 0 (zip_with Z.add ds es) = digits_value 0 ds + digits_value 0 es.
Proof. intros H. split; [apply decrypt_amount_Ok | by apply digits_value_add]. Qed.

#[local] Instance SmallScheme : RegevScheme := {| regev_decrypt _ _ := [1; 0; 1] |}.

Lemma decrypt_amount_exact_witness :
  decrypt_amount (mkSk (replicate REGEV_N 0)) Ct.padding = Ok 5.
Proof.
  apply (proj1 (decrypt_amount_exact (mkSk (replicate REGEV_N 0)) Ct.padding 5 [] [] eq_refl)).
  split_and!; [apply length_replicate|apply padding_ok| |reflexivity|reflexivity].
  intros [|[|[|i]]] d Hi Hd; try lia. discriminate Hd.
Defined.
