(* ===== verification/AccountTheorems.v ===== *)
(** * The account theorems

    The properties of the private account state: what an accepted receive and
    an accepted spend do to the ledger the state commits to, that the honest
    prover always succeeds, what every run conserves, and what the settlement
    nullifiers bind. *)

From S2P Require Import Prelude Limbs U63 MerkleTree LeafTrees Poseidon IndexedTree Keccak Regev BalanceState Account AccountProps AccountScenario.

#[local] Remove Hints Leafable_Bytes32 : typeclass_instances.

#[local] Existing Instance CodePoseidon.

(** ** Receiving *)

(** A receive accepted for a state that commits to a ledger uses a nullifier
    that was never used, credits exactly one asset by exactly the amount
    (without wrap-around), records the nullifier, and changes nothing else but
    the link to the previous commitment. *)
Theorem account_receive_sound {P : Poseidon} {PC : PoseidonCollisionFree P}
    token amount nullifier prev np bal ap u l :
  commits prev l -> in_width 32 token -> well_shaped NULLIFIER_TREE_HEIGHT np ->
  proof_height ap = ASSET_TREE_HEIGHT ->
  UpdatePrivateState.new token amount nullifier prev np bal ap = Ok u ->
  let s' := UpdatePrivateState.new_private_state u in
  ~ is_spent l nullifier /\ bal = default u256_zero (assets l !! token) /\
  PrivateState.nonce s' = PrivateState.nonce prev /\ PrivateState.salt s' = PrivateState.salt prev /\
  PrivateState.prev_private_commitment s' = PrivateState.commitment prev /\
  exists l', commits s' l' /\ sent l' = sent l /\
    (forall t, balance_of (assets l') t = balance_of (assets l) t + (if token =? t then val amount else 0)) /\
    (forall n, is_spent l' n <-> n = nullifier \/ is_spent l n).
Proof. apply receive_refines. Qed.

Lemma account_receive_sound_witness :
  exists s u l', PrivateState.prev_private_commitment (UpdatePrivateState.new_private_state u) = PrivateState.commitment s /\
    commits (UpdatePrivateState.new_private_state u) l' /\ balance_of (assets l') 0 = 7 /\ is_spent l' nullifier_one.
Proof.
  destruct first_receive as (s & np & u & Hc & _ & Hws & Hu).
  destruct (account_receive_sound _ _ _ _ _ _ _ _ _ Hc ltac:(by split) Hws (honest_proof_height _ _ _) Hu)
    as (_ & _ & _ & _ & Hp & l' & Hc' & _ & Hb & Hk).
  exists s, u, l'. split; [exact Hp|]. split; [exact Hc'|]. split; [exact (Hb 0)|]. apply Hk. by left.
Defined.

(** ** Spending *)

(** A spend accepted for a state that commits to a ledger debits every token
    by exactly the sum of its transfers (so the sum is covered), fills the empty
    slot of its nonce in the sent tree with the transaction over the transfers,
    keeps the nullifiers, publishes the two commitments, and is marked valid
    exactly when its nonce is the account's. *)
Theorem account_spend_sound {P : Poseidon} {PC : PoseidonCollisionFree P} w pi l :
  commits (SpendWitness.prev_private_state w) l -> spend_shape w ->
  SpendWitness.to_public_inputs w = Ok pi ->
  exists l', let s' := spent_state w (asset_root (assets l')) (sent_root (sent l')) in
    commits s' l' /\ SpendPublicInputs.new_private_commitment pi = PrivateState.commitment s' /\
    spends w l l' pi.
Proof. apply spend_refines. Qed.

Lemma account_spend_sound_witness : exists s l l' w pi, commits s l /\
  SpendWitness.to_public_inputs w = Ok pi /\ spends w l l' pi /\ balance_of (assets l') 0 = 2.
Proof.
  destruct funded as (s & l & Hc & Hn & Hs & Hb).
  destruct (funded_spend bytes32_default s l Hc Hn Hs Hb) as (Hsh & pi & Hpi & _).
  destruct (account_spend_sound (honest_spend s l (batch bytes32_default)) pi l Hc Hsh Hpi) as (l' & _ & _ & Hsp).
  exists s, l, l', (honest_spend s l (batch bytes32_default)), pi. split; [exact Hc|]. split; [exact Hpi|]. split; [exact Hsp|].
  pose proof (sp_assets _ _ _ _ Hsp 0) as H0. rewrite Hb in H0. change (7 = balance_of (assets l') 0 + outflow (batch bytes32_default) 0) in H0.
  rewrite outflow_batch in H0. change (7 = balance_of (assets l') 0 + 5) in H0. lia.
Defined.

(** Nothing but the balances and the nullifiers can block an account: a batch
    of 64 transfers has an accepted valid spend exactly when it is covered token
    by token and the nonce's slot is empty, and an incoming amount with a fresh
    nullifier is accepted whenever the sum fits 256 bits and a tree position is
    free. *)
Theorem account_progress {P : Poseidon} {PC : PoseidonCollisionFree P} s l ts token amount nullifier i :
  commits s l -> in_width 32 (PrivateState.nonce s) -> length ts = MAX_NUM_TRANSFERS_PER_TX ->
  Forall (fun t => in_width 32 (Transfer.token_index t)) ts ->
  in_width 32 token -> 0 <= i < 2 ^ 32 -> spent_nullifiers l !! i = None ->
  ((exists w pi, SpendWitness.prev_private_state w = s /\ SpendWitness.transfers w = ts /\ spend_shape w /\
      SpendWitness.to_public_inputs w = Ok pi /\ SpendPublicInputs.is_valid pi = true) <->
    affordable (assets l) ts /\ default empty_leaf (sent l !! PrivateState.nonce s) = empty_leaf) /\
  (~ is_spent l nullifier -> balance_of (assets l) token + val amount < 2 ^ 256 ->
    exists np bal ap u, well_shaped NULLIFIER_TREE_HEIGHT np /\ proof_height ap = ASSET_TREE_HEIGHT /\
      UpdatePrivateState.new token amount nullifier s np bal ap = Ok u).
Proof.
  intros Hc Hn Hl Hts Ht Hi Hfree. split; [split|].
  - intros (w & pi & <- & <- & Hs & Hpi & Hv). destruct (spend_refines w pi l Hc Hs Hpi) as (l' & _ & _ & Hsp).
    split.
    + intros t. pose proof (sp_assets _ _ _ _ Hsp t) as Ha. unfold balance_of in *.
      pose proof (val_bound (default u256_zero (assets l' !! t))). lia.
    + rewrite <- (proj1 (sp_valid _ _ _ _ Hsp) Hv). apply (sp_fresh _ _ _ _ Hsp).
  - intros [Ha Hsent]. destruct (honest_spend_accepted s l ts Hc Hl Hts Hn Ha Hsent) as (pi & Hpi & Hv).
    exists (honest_spend s l ts), pi. split_and!; try done. by apply honest_spend_shape.
  - intros Hns Hlt.
    destruct (honest_receive_accepted s l token amount nullifier i Hc Ht Hns Hlt Hi Hfree) as (np & u & Hws & Hu).
    do 4 eexists. split_and!; [exact Hws| |exact Hu]. apply honest_proof_height.
Qed.

Lemma account_progress_witness : exists s w pi np bal ap u,
  (SpendWitness.prev_private_state w = s /\ SpendWitness.transfers w = replicate 64 Transfer.default /\
   spend_shape w /\ SpendWitness.to_public_inputs w = Ok pi /\ SpendPublicInputs.is_valid pi = true) /\
  (well_shaped NULLIFIER_TREE_HEIGHT np /\ proof_height ap = ASSET_TREE_HEIGHT /\
   UpdatePrivateState.new 0 amount_seven nullifier_one s np bal ap = Ok u).
Proof.
  destruct (private_state_new_commits (E := Empty_set) phash_default) as (s & _ & Hc & Hn).
  destruct (account_progress s genesis_ledger (replicate 64 Transfer.default) 0 amount_seven nullifier_one 1)
    as [Hspend Hreceive].
  - exact Hc.
  - by rewrite Hn.
  - reflexivity.
  - apply Forall_replicate. by split.
  - by split.
  - done.
  - apply positions_None; [done|]. cbn. lia.
  - destruct (proj2 Hspend) as (w & pi & Hw).
    { split; [|by rewrite Hn]. intros t. rewrite outflow_padding. cbn. by destruct t. }
    destruct Hreceive as (np & bal & ap & u & Hu); [exact genesis_fresh|done|].
    exists s, w, pi, np, bal, ap, u. split; [exact Hw|exact Hu].
Defined.

(** ** Runs *)

(** C3: over any run of accepted receives and valid spends, every balance is the
    initial one plus what was received minus what was spent, no nullifier is
    received twice or again, and the transactions carry consecutive nonces. *)
Theorem account_run_conserves {P : Poseidon} {PC : PoseidonCollisionFree P} s evs s' l :
  account_run s evs s' -> commits s l -> in_width 32 (PrivateState.nonce s) ->
  exists l', commits s' l' /\
    (forall token, balance_of (assets l') token = balance_of (assets l) token + total_flow token evs) /\
    NoDup (received evs) /\ (forall n, n ∈ received evs -> ~ is_spent l n) /\
    (forall n, is_spent l' n <-> n ∈ received evs \/ is_spent l n) /\
    PrivateState.nonce s' = wrap 32 (PrivateState.nonce s + Z.of_nat (length (sent_txs evs))) /\
    (forall i tx, sent_txs evs !! i = Some tx -> Tx.nonce tx = wrap 32 (PrivateState.nonce s + Z.of_nat i)).
Proof.
  intros Hr Hc Hn. destruct (account_run_refines s evs s' Hr l Hc) as (l' & ? & ? & ? & ? & ?).
  destruct (account_run_nonces s evs s' Hr Hn l Hc) as [? ?]. exists l'. by split_and!.
Qed.

Lemma account_run_conserves_witness :
  exists s' l', commits s' l' /\ balance_of (assets l') 0 = 2 /\ PrivateState.nonce s' = 1 /\ is_spent l' nullifier_one.
Proof.
  destruct (small_run bytes32_default) as (s & tx & s' & l2 & Hc & Hn & Hr & _).
  destruct (account_run_conserves _ _ _ genesis_ledger Hr Hc) as (l' & Hc' & Hb & _ & _ & Hk & Hn' & _);
    [by rewrite Hn|].
  exists s', l'. split; [exact Hc'|]. split; [|split].
  - rewrite Hb. unfold total_flow. cbn [foldr asset_flow]. rewrite outflow_batch. reflexivity.
  - rewrite Hn', Hn. reflexivity.
  - apply Hk. left. apply list_elem_of_here.
Defined.

(** ** The nullifier tree *)

(** On a well-formed nullifier tree, inserting decides membership: a new
    nullifier is appended and the returned proof moves the old root to the new
    one; a used one, and the zero nullifier, are refused; only a full tree
    aborts. *)
Theorem nullifier_tree_insert_exact {P : Poseidon} t n :
  indexed_inv t ->
  match NullifierTree.prove_and_insert t n with
  | Ok (t', p) => (n ∉ NullifierTree.nullifiers t) /\ n <> bytes32_default /\ indexed_inv t' /\
      NullifierTree.nullifiers t' = NullifierTree.nullifiers t ++ [n] /\
      forall r r', NullifierTree.get_root (E := IndexedMerkleTreeError) t = Ok r ->
        NullifierTree.get_root (E := IndexedMerkleTreeError) t' = Ok r' ->
        NullifierTree.verify p r r' n = Ok tt
  | Err NullifierAlreadyExists => n ∈ NullifierTree.nullifiers t \/ n = bytes32_default
  | Err InvalidData => False
  | Panic => Z.of_nat (length (Incremental.leaves t)) = 2 ^ Z.of_nat (Incremental.height t)
  end.
Proof. apply nullifier_insert_spec. Qed.

Lemma nullifier_tree_insert_exact_witness : exists t t' p, NullifierTree.init (E := Empty_set) = Ok t /\
  NullifierTree.prove_and_insert t nullifier_one = Ok (t', p) /\ NullifierTree.nullifiers t' = [nullifier_one].
Proof.
  pose proof nullifier_tree_height as Hh.
  destruct (indexed_new_inv (E := Empty_set) NULLIFIER_TREE_HEIGHT) as (t & Ht & Hinv & Hht & Hl); [lia|].
  pose proof (nullifier_tree_insert_exact t nullifier_one Hinv) as H. exists t.
  unfold NullifierTree.nullifiers in H. rewrite Hl, Hht, Hh in H.
  destruct (NullifierTree.prove_and_insert t nullifier_one) as [[t' p]|[]|].
  - exists t', p. split; [exact Ht|]. split; [reflexivity|]. exact (proj1 (proj2 (proj2 (proj2 H)))).
  - exfalso. destruct H as [H|H]; [by apply elem_of_nil in H|discriminate H].
  - exfalso. exact H.
  - exfalso. discriminate H.
Defined.

(** ** Settlement identities *)

Lemma nullifier_binding {P : Poseidon} {PO : PoseidonOutput P} {E} x y n :
  phash_into_bytes32 (E := E) (hash_inputs_u64 x) = Ok n -> phash_into_bytes32 (E := E) (hash_inputs_u64 y) = Ok n ->
  x = y \/ (x <> y /\ hash_inputs_u64 x = hash_inputs_u64 y).
Proof.
  intros Hx Hy. destruct (decide (x = y)); [by left|right]. split; [done|].
  apply (inj phash_to_u64_vec). eapply (PoseidonHashOut_lemmas.words_into_bytes32_inj (E := E));
    [apply poseidon_output_length|apply poseidon_output_length|apply poseidon_output_u64|apply poseidon_output_u64
    |exact Hx|exact Hy].
Qed.

(** The nullifier of a settled transfer fixes the transfer, its sender, its
    position and the sender's nonce (not the block), that of a deposit fixes the
    whole deposit, its index included, and no transfer shares a nullifier with a
    deposit, unless the two hashed word lists are a Poseidon collision. *)
Theorem settlement_nullifiers_binding {P : Poseidon} {PO : PoseidonOutput P} {E} t t' d d' n :
  (SettledTransfer.nullifier (E := E) t = Ok n -> SettledTransfer.nullifier (E := E) t' = Ok n ->
     t = t' \/ (SettledTransfer.to_u64_vec t <> SettledTransfer.to_u64_vec t' /\
       SettledTransfer.poseidon_hash t = SettledTransfer.poseidon_hash t')) /\
  (Deposit.nullifier (E := E) d = Ok n -> Deposit.nullifier (E := E) d' = Ok n ->
     d = d' \/ (Deposit.to_u64_vec d <> Deposit.to_u64_vec d' /\ Deposit.poseidon_hash d = Deposit.poseidon_hash d')) /\
  (SettledTransfer.nullifier (E := E) t = Ok n -> Deposit.nullifier (E := E) d = Ok n ->
     SettledTransfer.to_u64_vec t <> Deposit.to_u64_vec d /\ SettledTransfer.poseidon_hash t = Deposit.poseidon_hash d).
Proof.
  split_and!; intros H H'; destruct (nullifier_binding _ _ _ H H') as [Heq|Hc]; auto.
  - left. by apply settled_to_u64_vec_inj.
  - left. by apply deposit_to_u64_vec_inj.
  - exfalso. apply (f_equal length) in Heq. revert Heq.
    unfold SettledTransfer.to_u64_vec, Deposit.to_u64_vec. rewrite !length_app, transfer_to_u64_vec_length.
    unfold Limbs.to_u64_vec, to_u32_vec. rewrite !limbs_length. done.
Qed.

(** A one-value Poseidon with four-word outputs. *)
Definition UnitPoseidon : Poseidon := {|
  PHash := unit;
  phash_default := tt;
  phash_to_u64_vec _ := [0; 0; 0; 0];
  hash_inputs_u64 _ := tt;
|}.

Lemma UnitPoseidon_output : PoseidonOutput UnitPoseidon.
Proof. split; [done|by repeat constructor|by intros [] []]. Qed.

Definition settled_five (index : Z) : SettledTransfer := SettledTransfer.mk (pay_five bytes32_default) 7 index 0.
Definition some_deposit : Deposit :=
  Deposit.mk (U63.mkU63 0) (U63.mkU63 1) address_default bytes32_default 0 amount_seven bytes32_default.

Lemma settlement_nullifiers_binding_witness :
  settled_five 0 = settled_five 1 \/
  (SettledTransfer.to_u64_vec (settled_five 0) <> SettledTransfer.to_u64_vec (settled_five 1) /\
   SettledTransfer.poseidon_hash (P := UnitPoseidon) (settled_five 0) = SettledTransfer.poseidon_hash (settled_five 1)).
Proof.
  refine (proj1 (@settlement_nullifiers_binding UnitPoseidon UnitPoseidon_output Empty_set
    (settled_five 0) (settled_five 1) some_deposit some_deposit bytes32_default) _ _).
  - apply (limbs_try_into_limbs BYTES32_LEN bytes32_default).
  - apply (limbs_try_into_limbs BYTES32_LEN bytes32_default).
Defined.
