(* ===== verification/LedgerTheorems.v ===== *)
(** * The ledger theorems

    The public ledger as a function of its history, what its operations can
    do, what its hash chains bind, and what the steps of a channel's balance
    proof establish about it. *)

From S2P Require Import Prelude Limbs U63 Circuit MerkleTree LeafTrees Poseidon IndexedTree Keccak Regev BalanceState Account AccountProps Ledger LedgerProps Balance BalanceProps BalanceCodec LedgerScenario.

#[local] Remove Hints Leafable_Bytes32 : typeclass_instances.
Import FullPublicState.

(** ** The ledger and its history *)

(** C17: whatever sequence of blocks and deposits a caller applies, also after refused ones, every
    field of the ledger is the function of the blocks and the deposits that its documentation
    promises: the public state is that of the history, the send leaves of a channel are the blocks
    it took part in, its channel leaf summarises them, the two hash chains are folds, and block
    [i] commits exactly the deposits stamped up to [i]. *)
Theorem ledger_history_exact {P : Poseidon} {K : Keccak} counts s :
  Forall (in_width 32) counts -> ledger_reach counts s ->
  to_public_state (E := unit) s = Ok (history_view (blocks s) (deposits s)) /\
  Z.of_nat (length (blocks s)) = U63.as_u64 (block_number s) + 1 /\
  (forall c, in_width 32 c ->
    default [] (send_leaves s !! c) = send_history c (blocks s) /\
    Sparse.get_leaf (channel_tree s) c = channel_summary (send_history c (blocks s))) /\
  block_hash_chain s = block_chain (tail (blocks s)) bytes32_default /\
  deposit_hash_chain s = deposit_chain (deposits s) bytes32_default /\
  Incremental.leaves (deposit_tree s) = deposits s /\
  (forall i d, deposits s !! i = Some d -> U63.as_u64 (Deposit.deposit_index d) = Z.of_nat i) /\
  forall i b, blocks s !! i = Some b ->
    Block.deposit_hash_chain b = deposit_chain (deposits_upto (Z.of_nat i) (deposits s)) bytes32_default.
Proof.
  intros Hc Hr. apply ledger_reach_inv in Hr as Hs; [|done].
  split_and!; [by apply to_public_state_eq|apply Hs|intros c Hw; split; by apply Hs|apply Hs..| |apply Hs].
  intros i d Hd. by apply (inv_deposit _ Hs).
Qed.

Section witness.
#[local] Existing Instance CodePoseidon.
#[local] Existing Instance UnitKeccak.

Lemma ledger_history_exact_witness :
  exists s, to_public_state (E := unit) s = Ok (history_view (blocks s) (deposits s)) /\
    length (deposits s) = 1%nat /\ length (send_history 1 (blocks s)) = 1%nat /\
    default [] (send_leaves s !! 1) = send_history 1 (blocks s).
Proof.
  destruct (ledger_runs bytes32_default) as (s0 & s1 & d & H0 & _ & Ha0 & Ha1 & _ & _ & H1). exists s1.
  destruct (ledger_history_exact [1] s1 one_count (ledger_runs_reach s0 s1 _ Ha0 Ha1)) as (Hv & _ & Hl & _).
  destruct (Hl 1) as [Hl1 _]; [unfold in_width; lia|].
  split; [exact Hv|]. rewrite (block1_deposits s0 s1 d H0 H1). destruct (send1_history s0 s1 d H0 H1) as [Hs _].
  rewrite Hl1, Hs. split_and!; reflexivity.
Defined.

End witness.

(** C18: every outcome of adding a block or a deposit to a reachable ledger. A block is refused with
    one of two errors, exactly when no supported size holds its keys or an active key comes with
    channel id zero, and a refused block leaves the ledger untouched; a block is otherwise appended
    with the header of its inputs, and the previous public state recorded. The consistency
    assertion inside the loop never fires: the only aborts are an exhausted block counter and a
    full send tree. A deposit is never refused and gets the next index and block number. *)
Theorem ledger_operations_exact {P : Poseidon} {K : Keccak} counts s :
  Forall (in_width 32) counts -> ledger_reach counts s ->
  (forall c keys ts root, in_width 32 c -> Z.of_nat (length keys) < 2 ^ 32 -> in_width 64 ts ->
    match add_block_with_channel c keys ts root s with
    | (s', Ok _) => (existsb active_key keys = true -> c <> 0) /\
        exists n, get_num_users (length keys) (supported_user_counts s) = Some n /\
          block_added s n c keys ts root s'
    | (s', Err e) => s' = s /\
        (e = TooManyKeyIds (length keys) /\ get_num_users (length keys) (supported_user_counts s) = None \/
         e = UserIdError ChannelId.InvalidChannelId /\ c = 0 /\ existsb active_key keys = true)
    | (_, Panic) => U63.as_u64 (block_number s) + 1 = 2 ^ 63 \/
        existsb active_key keys = true /\ Z.of_nat (length (send_history c (blocks s))) = 2 ^ 32
    end) /\
  (forall depositor recipient token amount aux,
    match add_deposit depositor recipient token amount aux s with
    | (s', Ok _) => deposit_added s (next_deposit s depositor recipient token amount aux) s'
    | (_, Err _) => False
    | (_, Panic) => U63.as_u64 (block_number s) + 1 = 2 ^ 63 \/ Z.of_nat (length (deposits s)) = 2 ^ 63
    end).
Proof.
  intros Hc Hr. apply ledger_reach_inv in Hr as Hs; [|done]. split.
  - intros c keys ts root Hw Hl Ht. pose proof (add_block_cases s c keys ts root Hs Hw Hl Ht) as H.
    destruct (add_block_with_channel c keys ts root s) as [s' [[]|e|]]; [|exact H|exact H]. by destruct H.
  - intros depositor recipient token amount aux.
    pose proof (add_deposit_cases s depositor recipient token amount aux Hs) as H.
    destruct (add_deposit depositor recipient token amount aux s) as [s' [[]|e|]]; [|exact H|exact H]. by destruct H.
Qed.

Section witness.
#[local] Existing Instance CodePoseidon.
#[local] Existing Instance UnitKeccak.

Lemma ledger_operations_exact_witness :
  exists s, length (blocks s) = 2%nat /\
    forall keys, Z.of_nat (length (1 :: keys)) < 2 ^ 32 ->
    match add_block_with_channel 0 (1 :: keys) 0 bytes32_default (new [1]) with
    | (s', Ok _) => False
    | (s', Err _) => s' = new [1]
    | (_, Panic) => True
    end.
Proof.
  destruct (ledger_runs bytes32_default) as (s0 & s1 & d & H0 & _ & Ha0 & Ha1 & _ & _ & H1).
  exists s1. split; [destruct H1 as (-> & _); destruct H0 as (_ & -> & _); reflexivity|].
  intros keys Hk.
  destruct (ledger_operations_exact [1] (new [1]) one_count (reach_new [1])) as [Hb _].
  specialize (Hb 0 (1 :: keys) 0 bytes32_default ltac:(unfold in_width; lia) Hk ltac:(unfold in_width; lia)).
  destruct (add_block_with_channel 0 (1 :: keys) 0 bytes32_default (new [1])) as [s' [[]|e|]];
    [destruct Hb as [Hb _]; by apply Hb|by destruct Hb|exact I].
Defined.

End witness.

(** The two hash chains bind the whole ledger. Two reachable ledgers with the same block chain
    and the same deposit chain have the same blocks and the same deposits, hence the same public
    state; or the words that the two ledgers hash for these chains contain a Keccak collision or a
    preimage of the zero start value. *)
Theorem ledger_chains_bind {P : Poseidon} {K : Keccak} counts counts' s s' :
  Forall (in_width 32) counts -> Forall (in_width 32) counts' ->
  ledger_reach counts s -> ledger_reach counts' s' ->
  block_hash_chain s = block_hash_chain s' -> deposit_hash_chain s = deposit_hash_chain s' ->
  (blocks s = blocks s' /\ deposits s = deposits s' /\
   to_public_state (E := unit) s = to_public_state (E := unit) s') \/ ledger_broken s s'.
Proof.
  intros Hc Hc' Hr Hr' Hb Hd. apply ledger_reach_inv in Hr as Hs; [|done]. apply ledger_reach_inv in Hr' as Hs'; [|done].
  destruct (ledger_binding s s' Hs Hs' Hb Hd) as [[Eb Ed]|H]; [left|by right]. split_and!; [done..|].
  rewrite !to_public_state_eq by done. unfold public_view. by rewrite Eb, Ed.
Qed.

Section witness.
#[local] Existing Instance CodePoseidon.
#[local] Existing Instance UnitKeccak.

Lemma ledger_chains_bind_witness :
  exists s, block_hash_chain s = block_hash_chain s /\
    ((blocks s = blocks s /\ deposits s = deposits s /\
      to_public_state (E := unit) s = to_public_state (E := unit) s) \/ ledger_broken s s).
Proof.
  destruct (ledger_runs bytes32_default) as (s0 & s1 & d & _ & _ & Ha0 & Ha1 & _). exists s1. split; [reflexivity|].
  pose proof (ledger_runs_reach s0 s1 _ Ha0 Ha1) as Hr.
  exact (ledger_chains_bind [1] [1] s1 s1 one_count one_count Hr Hr eq_refl eq_refl).
Defined.

End witness.

(** *** The recorded public states *)

Section recorded.
Context {P : Poseidon} {PC : PoseidonCollisionFree P}.

(** A root fixes its leaves. *)
Lemma deposit_root_inj ds ds' i :
  (i < 2 ^ 63) -> 0 <= i -> deposit_root ds = deposit_root ds' ->
  default (empty_leaf (V := Deposit)) (ds !! Z.to_nat i) = default (empty_leaf (V := Deposit)) (ds' !! Z.to_nat i).
Proof.
  pose proof deposit_tree_height as Hh. intros Hi Hi0 Heq.
  pose proof (tree_proof_verifies (V := Deposit) (list_leaves ds) DEPOSIT_TREE_HEIGHT i
    (default empty_leaf (ds !! Z.to_nat i))) as Hv.
  fold (deposit_root ds) in Hv. rewrite Heq in Hv.
  eapply (list_proof_leaf (V := Deposit) ds' DEPOSIT_TREE_HEIGHT) in Hv as [_ Hv];
    [exact Hv|done|apply tree_proof_height|unfold in_width; lia|lia|rewrite Hh; lia|done].
Qed.

Lemma past_states_lookup bs ds n m :
  (m < n)%nat -> exists ps, past_states bs ds n !! m = Some ps /\
    PublicState.block_number ps = U63.mkU63 (Z.of_nat m) /\
    PublicState.deposit_tree_root ps = deposit_root (deposits_upto (Z.of_nat m + 1) ds).
Proof.
  induction n as [|n IH]; intros Hm; [lia|]. cbn [past_states].
  destruct (decide (m = n)) as [->|Hne].
  - eexists. rewrite lookup_app_r, length_past_states, Nat.sub_diag by (rewrite length_past_states; lia). by split.
  - rewrite lookup_app_l by (rewrite length_past_states; lia). apply IH. lia.
Qed.

(** A stamp separates the deposits before it from those up to it. *)
Lemma deposits_upto_stamped ds m d j :
  stamps_ordered ds -> ds !! j = Some d -> U63.as_u64 (Deposit.block_number d) = m + 1 ->
  exists i e, (i < 2 ^ 63 -> deposits_upto (m + 1) ds !! Z.to_nat i = Some e /\
    deposits_upto m ds !! Z.to_nat i = None) /\ i = Z.of_nat (length (deposits_upto m ds)) /\
    U63.as_u64 (Deposit.block_number e) = m + 1.
Proof.
  revert j. induction ds as [|d0 ds IH]; intros j Hord Hj Hm; [done|].
  assert (stamps_ordered ds) as Hord'.
  { intros a b x y Ha Hb Hab. apply (Hord (S a) (S b)); [done|done|lia]. }
  unfold deposits_upto. destruct (decide (U63.as_u64 (Deposit.block_number d0) <= m)) as [Hle|Hgt].
  - destruct j as [|j]; [injection Hj as ->; lia|].
    destruct (IH j Hord' Hj Hm) as (i & e & Hi & Hlen & He). unfold deposits_upto in *.
    exists (i + 1), e. rewrite !filter_cons_True by lia. split_and!; [|cbn [length]; lia|done].
    intros Hb. destruct Hi as [H1 H2]; [lia|]. replace (Z.to_nat (i + 1)) with (S (Z.to_nat i)) by lia. done.
  - exists 0, d0. pose proof (Hord 0%nat j d0 d eq_refl Hj ltac:(lia)) as H0.
    rewrite filter_cons_True, filter_cons_False by lia.
    assert (filter (fun d => U63.as_u64 (Deposit.block_number d) <= m) ds = []) as ->.
    { apply list_filter_none. intros k x Hk. pose proof (Hord 0%nat (S k) d0 x eq_refl Hk ltac:(lia)). lia. }
    split_and!; [done|done|lia].
Qed.
End recorded.

(** C39: the public state recorded for block [m] when the next block is added does not have the
    deposit root of block [m] once a deposit arrived in between: the recorded root covers the
    deposits stamped [m + 1], while block [m] commits the chain of the deposits up to [m]. *)
Theorem recorded_state_runs_ahead {P : Poseidon} {PC : PoseidonCollisionFree P} {K : Keccak} counts s m d :
  Forall (in_width 32) counts -> ledger_reach counts s ->
  0 <= m < U63.as_u64 (block_number s) -> d ∈ deposits s -> U63.as_u64 (Deposit.block_number d) = m + 1 ->
  exists ps b, Incremental.leaves (public_state_tree s) !! Z.to_nat m = Some ps /\
    U63.as_u64 (PublicState.block_number ps) = m /\ blocks s !! Z.to_nat m = Some b /\
    Block.deposit_hash_chain b = deposit_chain (deposits_upto m (deposits s)) bytes32_default /\
    PublicState.deposit_tree_root ps <> deposit_root (deposits_upto m (deposits s)).
Proof.
  intros Hc Hr Hm Hd Hst. apply ledger_reach_inv in Hr as Hs; [|done].
  apply list_elem_of_lookup in Hd as [j Hj]. pose proof (inv_blocks _ Hs) as Hlen.
  destruct (past_states_lookup (blocks s) (deposits s) (Z.to_nat (U63.as_u64 (block_number s))) (Z.to_nat m))
    as (ps & Hps & Hn & Hroot); [lia|]. rewrite <- (inv_past _ Hs) in Hps. rewrite Z2Nat.id in Hn, Hroot by lia.
  destruct (lookup_lt_is_Some_2 (blocks s) (Z.to_nat m)) as [b Hb]; [lia|].
  exists ps, b. split_and!; [done|by rewrite Hn|done| |].
  - rewrite (inv_block_deposits _ Hs _ _ Hb). by rewrite Z2Nat.id by lia.
  - rewrite Hroot. intros Heq.
    destruct (deposits_upto_stamped (deposits s) m d j (inv_deposit_order _ Hs) Hj Hst) as (i & e & Hi & Hil & He).
    assert (i < 2 ^ 63) as Hi63.
    { rewrite Hil. destruct (inv_deposit_tree _ Hs) as (_ & _ & Hcap).
      rewrite (inv_deposit_height _ Hs), deposit_tree_height, (inv_deposit_leaves _ Hs) in Hcap.
      pose proof (proj1 (upto_prefix (deposits s) m j d (inv_deposit_order _ Hs) Hj)).
      destruct (decide (length (deposits_upto m (deposits s)) < length (deposits s))%nat); [lia|].
      assert (j < length (deposits s))%nat by by eapply lookup_lt_Some. exfalso.
      assert (U63.as_u64 (Deposit.block_number d) <= m); [|lia].
      apply (upto_prefix (deposits s) m j d (inv_deposit_order _ Hs) Hj). lia. }
    destruct (Hi Hi63) as [H1 H2].
    apply (deposit_root_inj _ _ i) in Heq; [|done|lia]. rewrite H1, H2 in Heq. cbn in Heq. rewrite Heq in He. cbn in He. lia.
Qed.

Section witness.
#[local] Existing Instance CodePoseidon.
#[local] Existing Instance UnitKeccak.

Lemma recorded_state_runs_ahead_witness :
  exists s ps, Incremental.leaves (public_state_tree s) !! 0%nat = Some ps /\
    PublicState.deposit_tree_root ps <> deposit_root (deposits_upto 0 (deposits s)).
Proof.
  destruct (ledger_runs bytes32_default) as (s0 & s1 & d & H0 & Hd & Ha0 & Ha1 & _ & Hi1 & H1).
  destruct (recorded_state_runs_ahead [1] s1 0 d one_count (ledger_runs_reach s0 s1 _ Ha0 Ha1))
    as (ps & b & Hps & _ & _ & _ & Hne).
  - rewrite (block1_number s0 s1 d Hi1 H0 H1). lia.
  - rewrite (block1_deposits s0 s1 d H0 H1). left.
  - rewrite Hd. reflexivity.
  - exists s1, ps. split; [exact Hps|exact Hne].
Defined.

End witness.
