(* ===== verification/BalanceTheorems.v ===== *)
(** * The balance theorems

    What the steps of a channel's balance proof establish about the public
    ledger: every send is spent once and in order, receives skip no send,
    a receive names a deposit or a settled transfer of the ledger, the next
    send is always accepted, and the encodings that link one proof to the
    next are inverse to each other. *)

From S2P Require Import Prelude Limbs U63 Circuit MerkleTree LeafTrees Poseidon IndexedTree Keccak Regev BalanceState Account AccountProps AccountScenario Ledger LedgerProps Balance BalanceProps BalanceCodec LedgerScenario.

#[local] Remove Hints Leafable_Bytes32 : typeclass_instances.
Import FullPublicState.

(** ** The concrete run *)

Section run.
#[local] Existing Instance CodePoseidon.
#[local] Existing Instance UnitKeccak.
#[local] Existing Instance WordProofs.
#[local] Existing Instance TailReceive.

Definition the_pay (recipient : Bytes32) : Transfer := Transfer.mk recipient 0 u256_zero bytes32_default.

(** The roots the run needs: those of channel 1's transaction, and a public state. *)
Definition run_table (pay : Transfer) (c0 : Z) (v : PublicState) : table :=
  let tr := leaf_hash pay in
  {| tx_root := path_root (Hs := PoseidonLeafableHasher) [0] 1 (leaf_hash (Tx.mk CodePoseidon tr 0));
     commitment0 := c0;
     transfer_root := tr;
     channel_root0 := PublicState.account_tree_root v;
     deposit_root0 := PublicState.deposit_tree_root v;
     state_root0 := PublicState.prev_public_state_root v |}.

Lemma channel_recipient : exists r, calculate_recipient_from_user_id (E := ReceiveTransferError) 2 0 = Ok r.
Proof.
  unfold calculate_recipient_from_user_id.
  match goal with |- context [phash_into_bytes32 ?h] =>
    destruct (nullifier_exists (E := ReceiveTransferError) h) as [b Hb] end.
  rewrite Hb. cbn [mbind res_bind].
  destruct (tag_recipient_spec (E := ReceiveTransferError) USER_ID_TAG b) as (r & Hr & _); [by split|by exists r].
Qed.

Lemma run_opens c : exists ps p, BalancePublicInputs.new (E := unit) c 0 = Ok p /\
  p = BalancePublicInputs.mk c public_state_default block_number_default (PrivateState.commitment ps) bytes32_default.
Proof.
  destruct (private_state_new_commits (P := CodePoseidon) (E := unit) 0) as (ps & Hps & _).
  exists ps. eexists. unfold BalancePublicInputs.new. rewrite Hps. split; reflexivity.
Qed.

(** The ledger with one deposit and one block of channel 1, and channel 1's send. *)
Lemma run_opened : exists (t : table) (pay : Transfer) s,
  system (W := TableWords) 1 s (pis0 1) [] /\ transfer_root = leaf_hash pay /\
  tx_root = path_root (Hs := PoseidonLeafableHasher) [0] 1 (leaf_hash tx1) /\
  send_history 1 (blocks s) = [send1].
Proof.
  destruct (ledger_runs bytes32_default) as (s0 & s1 & d & H0 & Hd & Ha0 & Ha1 & _ & Hi1 & H1).
  destruct (run_opens 1) as (ps & p & Hp & Hpe). pose (pay := the_pay bytes32_default).
  exists (run_table pay (PrivateState.commitment ps) public_state_default), pay, s1.
  split; [|split_and!; [reflexivity|reflexivity|apply (send1_history s0 s1 d H0 H1)]].
  change (pis0 1) with (BalancePublicInputs.mk 1 public_state_default block_number_default
    (PrivateState.commitment ps) bytes32_default). rewrite <- Hpe.
  eapply (sys_ledger 1 s0 p [] (OpBlock 1 [1] 100 bytes32_one) s1 (Ok tt)); [| |exact Ha1|discriminate].
  - eapply sys_ledger; [| |exact Ha0|discriminate]; [|exact I]. exact (sys_init (P := CodePoseidon) 1 [1] 0 p one_count Hp).
  - cbn [op_typed length]; unfold in_width; lia.
Qed.

Lemma run_sends : exists (t : table) s w p',
  system (W := TableWords) 1 s (pis0 1) [] /\ send_step s (pis0 1) w p' /\
  spend_valid (SendTxWitness.tx_settlement w) = true /\
  AccountState.send_leaf (TxSettlement.account_state (SendTxWitness.tx_settlement w)) = send1 /\
  SendTxWitness.prev_balance_proof w = words0 1.
Proof.
  destruct run_opened as (t & pay & s & Hsys & Htr & Htx & Hh).
  destruct (system_sends_exact 1 s (pis0 1) [] Hsys) as [Hs _ _ _].
  assert (exists p', send_step s (pis0 1)
    (send_witness (words0 1) (pis0 1) s (settlement_of s 1 0 tx1 spend1 tx1_proof) (pay_witness pay)) p') as [p' Hstep].
  { apply (send_progress_step s 1 0 send1 tx1 spend1 spend1_pis); [exact Hs|unfold in_width; lia|cbn; lia| | |].
    - rewrite Hh. reflexivity.
    - eexists. exact (proj1 words0_prove).
    - exact (send1_sendable pay Htr Htx). }
  eexists t, s, _, p'. split_and!; [exact Hsys|exact Hstep|reflexivity| |reflexivity].
  cbn [send_witness SendTxWitness.tx_settlement settlement_of TxSettlement.account_state account_state_of
    AccountState.send_leaf]. rewrite Hh. reflexivity.
Qed.

(** Channel 2 receives the transfer of that send. *)
Lemma run_transfer : exists (t : table) s p w p',
  ledger_reach [1] s /\ receive_transfer_step (W := TableWords) s p w p' /\
  settlement_built (W := TableWords) (ReceiveTransferWitness.tx_settlement w) /\
  account_shape (TxSettlement.account_state (ReceiveTransferWitness.tx_settlement w)) /\
  TransferWitness.verify (ReceiveTransferWitness.transfer_witness w) = Ok tt.
Proof.
  destruct channel_recipient as [r Hr].
  destruct (ledger_runs r) as (s0 & s1 & d & H0 & Hd & Ha0 & Ha1 & _ & Hi1 & H1).
  destruct (run_opens 1) as (ps & p & Hp & Hpe). pose (pay := the_pay r).
  pose (t := run_table pay (PrivateState.commitment ps) public_state_default).
  destruct (receive1_step (t := t) pay s0 s1 d Hi1 H0 H1 ps eq_refl Hr) as (w & p' & Hstep & Hw & Htw).
  destruct (settlement1_built (t := t) pay eq_refl eq_refl s0 s1 d H0 H1) as [Hb Hs].
  exists t, s1, (pis0 2), w, p'. split; [exact (ledger_runs_reach s0 s1 r Ha0 Ha1)|]. split; [exact Hstep|].
  rewrite Hw. split; [exact Hb|]. split; [exact Hs|]. rewrite Htw. exact (pay_verifies (t := t) pay eq_refl).
Qed.

(** Channel 2 receives the deposit. *)
Lemma run_deposit : exists (t : table) s p w p',
  ledger_reach [1] s /\ receive_deposit_step (W := TableWords) s p w p'.
Proof.
  destruct channel_recipient as [r Hr].
  destruct (ledger_runs r) as (s0 & s1 & d & H0 & Hd & Ha0 & Ha1 & _ & Hi1 & H1).
  destruct (run_opens 1) as (ps & p & Hp & Hpe). pose (pay := the_pay r).
  pose (t := run_table pay (PrivateState.commitment ps) (public_view s1)).
  destruct (receive2_step (t := t) pay s0 s1 d Hi1 H0 H1 ps eq_refl Hr) as (w & p' & Hstep).
  - destruct H1 as (Hb & _). destruct H0 as (_ & Hb0 & _). unfold pis1.
    cbn [BalancePublicInputs.public_state t run_table channel_root0 deposit_root0 state_root0].
    unfold public_view, history_view. rewrite Hb, Hb0. reflexivity.
  - exact Hd.
  - exists t, s1, pis1, w, p'. split; [exact (ledger_runs_reach s0 s1 r Ha0 Ha1)|exact Hstep].
Qed.

End run.

(** ** Sends *)

(** C16: for every interleaving of ledger operations with the accepted steps of one channel's balance
    proof, the transactions the channel has spent are exactly its sends up to the block the proof
    refers to, each once and in block order. A proof therefore cannot move past a send it has not
    spent, and cannot spend one twice. *)
Theorem balance_sends_exact {P : Poseidon} {PC : PoseidonCollisionFree P} {W : PoseidonWords P}
    {NZ : PoseidonNonzero P W} {K : Keccak} {BP : BalanceProofs} {F : Features} c s p sent :
  system c s p sent ->
  sent = sends_upto (U63.as_u64 (BalancePublicInputs.block_r p)) (send_history c (blocks s)) /\
  BalancePublicInputs.channel_id p = c /\
  0 <= U63.as_u64 (BalancePublicInputs.block_r p) <= U63.as_u64 (block_number s) /\
  forall i j l l', sent !! i = Some l -> sent !! j = Some l' -> (i < j)%nat -> cur l < cur l'.
Proof.
  intros Hsys. destruct (system_sends_exact c s p sent Hsys) as [Hs Hc Hr ->]. split_and!; [done|done|lia|lia|].
  apply sends_upto_sorted.
Qed.

Lemma balance_sends_exact_witness :
  exists (t : table) s p l,
    system (P := CodePoseidon) (K := UnitKeccak) (BP := WordProofs) (F := TailReceive) 1 s p [l] /\
    sends_upto (U63.as_u64 (BalancePublicInputs.block_r p)) (send_history 1 (blocks s)) = [l] /\
    0 < U63.as_u64 (BalancePublicInputs.block_r p).
Proof.
  destruct run_sends as (t & s & w & p' & Hsys & Hstep & Hv & Hl & _). exists t, s, p', send1.
  pose proof (sys_send (F := TailReceive) 1 s (pis0 1) [] w p' Hsys Hstep) as Hsys'. rewrite Hv, Hl in Hsys'. cbn [app] in Hsys'.
  split; [exact Hsys'|].
  destruct (balance_sends_exact (F := TailReceive) 1 s p' [send1] Hsys') as (Hsent & _). split; [exact (eq_sym Hsent)|].
  destruct (decide (0 < U63.as_u64 (BalancePublicInputs.block_r p'))) as [Hlt|Hge]; [exact Hlt|exfalso].
  assert (send1 ∈ sends_upto (U63.as_u64 (BalancePublicInputs.block_r p')) (send_history 1 (blocks s))) as Hin.
  { rewrite <- Hsent. left. }
  unfold sends_upto in Hin. apply list_elem_of_filter in Hin as [Hin _]. cbn in Hin. lia.
Defined.

(** The next send of a channel can always be proved: whenever a send leaf of the ledger lies right
    after the block the balance proof refers to, its transaction is in the tree of its block and a
    verifying spend proof starts from the channel's commitment, the send step is accepted for the
    account state read off the ledger, and moves the proof to that block. *)
Theorem send_progress {P : Poseidon} {PC : PoseidonCollisionFree P} {W : PoseidonWords P}
    {NZ : PoseidonNonzero P W} {K : Keccak} {BP : BalanceProofs} {F : Features}
    c s p sent i l tx sp pis txp tw b :
  system c s p sent -> in_width 32 c -> Z.of_nat i < 2 ^ 32 -> send_history c (blocks s) !! i = Some l ->
  proves b p -> sendable c p l tx sp pis txp tw -> SpendPublicInputs.is_valid pis = true ->
  exists w p', SendTxWitness.prev_balance_proof w = b /\ send_step s p w p' /\
    BalancePublicInputs.block_r p' = SendLeaf.cur l /\
    BalancePublicInputs.private_commitment p' = SpendPublicInputs.new_private_commitment pis /\
    system c s p' (sent ++ [l]).
Proof.
  intros Hsys Hc Hi Hl Hb Hsd Hv. destruct (system_sends_exact c s p sent Hsys) as [Hs _ _ _].
  destruct (send_progress_step s c i l tx sp pis txp tw b p Hs Hc Hi Hl Hb Hsd) as [p' Hstep].
  set (w := send_witness b p s (settlement_of s c i tx sp txp) tw) in *. exists w, p'.
  assert (TxSettlement.spend_pis (SendTxWitness.tx_settlement w) = Ok pis) as Hpis.
  { unfold TxSettlement.spend_pis. cbn. by rewrite (sd_pis _ _ _ _ _ _ _ _ Hsd). }
  assert (spend_valid (SendTxWitness.tx_settlement w) = true) as Hsv by (unfold spend_valid; by rewrite Hpis).
  assert (AccountState.send_leaf (TxSettlement.account_state (SendTxWitness.tx_settlement w)) = l) as Hleaf.
  { cbn. by rewrite Hl. }
  pose proof Hstep as [Hprev [vd Hok] _ _ _ _]. pose proof (send_inv p w p' vd Hprev Hok) as Hf.
  pose proof (sf_block_r _ _ _ Hf) as Hbr. rewrite Hsv in Hbr.
  destruct (sf_spend _ _ _ Hf) as (pis' & Hpis' & _ & Hcom). rewrite Hpis in Hpis'. injection Hpis' as <-.
  rewrite Hv in Hcom. split_and!; [done|done| |done|].
  - rewrite Hbr. unfold TxSettlement.tx_block_number. by rewrite Hleaf.
  - pose proof (sys_send c s p sent w p' Hsys Hstep) as Hsys'. by rewrite Hsv, Hleaf in Hsys'.
Qed.

Lemma send_progress_witness :
  exists (t : table) s p p' l,
    system (P := CodePoseidon) (K := UnitKeccak) (BP := WordProofs) (F := TailReceive) 1 s p [] /\
    system (P := CodePoseidon) (K := UnitKeccak) (BP := WordProofs) (F := TailReceive) 1 s p' [l] /\
    BalancePublicInputs.block_r p' = SendLeaf.cur l.
Proof.
  destruct run_opened as (t & pay & s & Hsys & Htr & Htx & Hh).
  destruct (send_progress (P := CodePoseidon) (K := UnitKeccak) (BP := WordProofs) (F := TailReceive)
    1 s (pis0 1) [] 0 send1 tx1 spend1 spend1_pis tx1_proof (pay_witness pay) (words0 1) Hsys)
    as (w & p' & _ & _ & Hr & _ & Hsys').
  - unfold in_width; lia.
  - cbn; lia.
  - rewrite Hh. reflexivity.
  - eexists. exact (proj1 words0_prove).
  - exact (send1_sendable pay Htr Htx).
  - reflexivity.
  - exists t, s, (pis0 1), p', send1. split; [exact Hsys|]. split; [exact Hsys'|exact Hr].
Defined.

(** ** Receives *)

(** An accepted receive of a deposit, on a reachable ledger, credits a deposit that is in the
    ledger at its index, was made out to this channel under the salt, and is settled by the block
    the new proof refers to; the private update is for exactly its token, amount and nullifier and
    links the two commitments; the nullifier is pushed on the settle chain; and the channel sent
    nothing in the blocks that are skipped. *)
Theorem receive_deposit_sound {P : Poseidon} {PC : PoseidonCollisionFree P} {W : PoseidonWords P} {K : Keccak}
    {BP : BalanceProofs} {F : Features} counts s p w p' :
  Forall (in_width 32) counts -> ledger_reach counts s -> receive_deposit_step s p w p' ->
  let dw := ReceiveDepositWitness.deposit_witness w in
  let d := DepositWitness.deposit dw in
  let u := ReceiveDepositWitness.update_private_state w in
  let c := BalancePublicInputs.channel_id p in
  deposits s !! Z.to_nat (U63.as_u64 (Deposit.deposit_index d)) = Some d /\
  calculate_recipient_from_user_id (E := unit) c (DepositWitness.deposit_salt dw) = Ok (Deposit.recipient d) /\
  UpdatePrivateState.token_index u = Deposit.token_index d /\ UpdatePrivateState.amount u = Deposit.amount d /\
  Deposit.nullifier (E := unit) d = Ok (UpdatePrivateState.nullifier u) /\
  PrivateState.commitment (UpdatePrivateState.prev_private_state u) = BalancePublicInputs.private_commitment p /\
  PrivateState.commitment (UpdatePrivateState.new_private_state u) = BalancePublicInputs.private_commitment p' /\
  BalancePublicInputs.settled_tx_chain p' =
    settled_tx_chain_push (BalancePublicInputs.settled_tx_chain p) (UpdatePrivateState.nullifier u) /\
  BalancePublicInputs.channel_id p' = c /\
  U63.as_u64 (Deposit.block_number d) <= U63.as_u64 (BalancePublicInputs.block_r p') <= U63.as_u64 (block_number s) /\
  U63.as_u64 (BalancePublicInputs.block_r p) <= U63.as_u64 (BalancePublicInputs.block_r p') /\
  forall l, l ∈ send_history c (blocks s) ->
    ~ (U63.as_u64 (BalancePublicInputs.block_r p) < cur l <= U63.as_u64 (BalancePublicInputs.block_r p')).
Proof.
  intros Hc Hr Hstep. apply ledger_reach_inv in Hr as Hs; [|done]. cbn zeta.
  destruct Hstep as [Hprev [vd Hok] Hshape Hdshape Hpub Hnew].
  pose proof (receive_deposit_inv p w p' vd Hprev Hok) as Hf.
  pose proof (df_root _ _ _ Hf) as Hroot. pose proof (df_deposit_root _ _ _ Hf) as Hdroot.
  pose proof (df_window _ _ _ Hf) as Hwin. rewrite Hpub in *.
  destruct (deposit_witness_sound (deposits s) _ tt Hdshape (df_deposit _ _ _ Hf) Hdroot) as [Hd Hrec].
  eapply receive_window_sound in Hwin as [Hb Hno]; [|by apply Hs|done|by apply Hf|exact Hroot|lia].
  rewrite public_view_number in Hb by done. rewrite (df_channel _ _ _ Hf) in Hno.
  rewrite (df_deposit_channel _ _ _ Hf) in Hrec. pose proof (df_settled _ _ _ Hf).
  destruct (df_update _ _ _ Hf) as (Hu1 & Hu2 & Hu3 & Hu4 & Hu5).
  rewrite (df_block_r' _ _ _ Hf). split_and!; try done; try lia; apply Hf.
Qed.

Lemma receive_deposit_sound_witness :
  exists (t : table) s p w p',
    receive_deposit_step (P := CodePoseidon) (K := UnitKeccak) (BP := WordProofs) (F := TailReceive) s p w p' /\
    DepositWitness.deposit (ReceiveDepositWitness.deposit_witness w) ∈ deposits s /\
    U63.as_u64 (BalancePublicInputs.block_r p') <= U63.as_u64 (block_number s).
Proof.
  destruct run_deposit as (t & s & p & w & p' & Hr & Hstep). exists t, s, p, w, p'. split; [exact Hstep|].
  destruct (receive_deposit_sound (P := CodePoseidon) (K := UnitKeccak) (BP := WordProofs) (F := TailReceive)
    [1] s p w p' one_count Hr Hstep) as (Hd & _ & _ & _ & _ & _ & _ & _ & _ & Hb & _).
  split; [exact (list_elem_of_lookup_2 _ _ _ Hd)|exact (proj2 Hb)].
Defined.

(** C32: an accepted receive of a transfer, on a reachable ledger and with a settlement and a transfer
    witness that passed the checks of their constructors, is for a transfer of a settled transaction.
    There is a block of the ledger in which the sender's channel takes part and whose transaction
    tree has the transaction at the sender's place; a verifying, valid spend from the sender's proven
    commitment made the transaction; the sender's proof stands right before that block; the transfer
    is in the transfer tree of the transaction, so that for a proof of the height of the tree every
    batch with this root has it at its index; it is made out to this channel; the private update is
    for exactly its token, amount and settlement nullifier; and the channel sent nothing in the
    blocks that are skipped. *)
Theorem receive_transfer_sound {P : Poseidon} {PC : PoseidonCollisionFree P} {W : PoseidonWords P}
    {NZ : PoseidonNonzero P W} {K : Keccak} {BP : BalanceProofs} {F : Features} counts s p w p' :
  Forall (in_width 32) counts -> ledger_reach counts s -> receive_transfer_step s p w p' ->
  settlement_built (ReceiveTransferWitness.tx_settlement w) ->
  account_shape (TxSettlement.account_state (ReceiveTransferWitness.tx_settlement w)) ->
  TransferWitness.verify (ReceiveTransferWitness.transfer_witness w) = Ok tt ->
  let t := ReceiveTransferWitness.tx_settlement w in
  let tw := ReceiveTransferWitness.transfer_witness w in
  let tr := TransferWitness.transfer tw in
  let u := ReceiveTransferWitness.update_private_state w in
  let c := BalancePublicInputs.channel_id p in
  (exists sender pis i l b, proves (ReceiveTransferWitness.sender_balance_proof w) sender /\
    blocks s !! Z.to_nat (cur l) = Some b /\ takes_part (BalancePublicInputs.channel_id sender) b = true /\
    Block.tx_tree_root b = SendLeaf.tx_tree_root l /\
    included (BalancePublicInputs.channel_id sender) (TxSettlement.tx t) (reduce_to_hash_out (Block.tx_tree_root b)) /\
    send_history (BalancePublicInputs.channel_id sender) (blocks s) !! i = Some l /\
    U63.as_u64 (SendLeaf.prev l) <= U63.as_u64 (BalancePublicInputs.block_r sender) < cur l /\
    cur l <= U63.as_u64 (BalancePublicInputs.block_r p') /\
    spend_verify (TxSettlement.spend_proof t) = true /\ TxSettlement.spend_pis t = Ok pis /\
    SpendPublicInputs.is_valid pis = true /\ SpendPublicInputs.tx pis = TxSettlement.tx t /\
    SpendPublicInputs.prev_private_commitment pis = BalancePublicInputs.private_commitment sender /\
    SettledTransfer.nullifier (E := unit) (SettledTransfer.mk tr (BalancePublicInputs.channel_id sender)
      (TransferWitness.transfer_index tw) (Tx.nonce (TxSettlement.tx t))) = Ok (UpdatePrivateState.nullifier u)) /\
  proof_verify (TransferWitness.transfer_merkle_proof tw) tr (TransferWitness.transfer_index tw) (Tx.transfer_tree_root (TxSettlement.tx t)) = Ok tt /\
  (forall batch : list Transfer, proof_height (TransferWitness.transfer_merkle_proof tw) = TRANSFER_TREE_HEIGHT -> in_width 32 (TransferWitness.transfer_index tw) ->
    Tx.transfer_tree_root (TxSettlement.tx t) = subtree (list_leaves batch) TRANSFER_TREE_HEIGHT 0 ->
    batch !! Z.to_nat (TransferWitness.transfer_index tw) = Some tr) /\
  calculate_recipient_from_user_id (E := unit) c (ReceiveTransferWitness.transfer_salt w)
    = Ok (Transfer.recipient tr) /\
  UpdatePrivateState.token_index u = Transfer.token_index tr /\ UpdatePrivateState.amount u = Transfer.amount tr /\
  PrivateState.commitment (UpdatePrivateState.prev_private_state u) = BalancePublicInputs.private_commitment p /\
  PrivateState.commitment (UpdatePrivateState.new_private_state u) = BalancePublicInputs.private_commitment p' /\
  BalancePublicInputs.channel_id p' = c /\
  U63.as_u64 (BalancePublicInputs.block_r p) <= U63.as_u64 (BalancePublicInputs.block_r p')
    <= U63.as_u64 (block_number s) /\
  forall l, l ∈ send_history c (blocks s) ->
    ~ (U63.as_u64 (BalancePublicInputs.block_r p) < cur l <= U63.as_u64 (BalancePublicInputs.block_r p')).
Proof.
  intros Hc Hr Hstep Hbuilt Hts Htw. apply ledger_reach_inv in Hr as Hs; [|done]. cbn zeta.
  destruct Hstep as [Hprev [vd Hok] Hacc Hshape Hpub Hnew].
  pose proof (receive_transfer_inv p w p' vd Hprev Hok) as Hf.
  pose proof (rf_root _ _ _ Hf) as Hroot. pose proof (rf_window _ _ _ Hf) as Hwin.
  pose proof (rf_public _ _ _ Hf) as Htp. rewrite Hpub in *.
  destruct (settlement_sound (blocks s) _ Hts Hbuilt) as ([i Hi] & Hsv & pis & Hpis & Htx); [by rewrite Htp|].
  destruct (rf_sender _ _ _ Hf) as (sender & Hsp & Hsc & Hsb & pis' & Hpis' & Hvalid & Hcom).
  rewrite Hpis in Hpis'. injection Hpis' as <-.
  eapply receive_window_sound in Hwin as [Hb Hno]; [|by apply Hs|done|done|exact Hroot|lia].
  rewrite public_view_number in Hb by done. rewrite (rf_account _ _ _ Hf) in Hno.
  pose proof (rf_settled _ _ _ Hf). destruct (rf_update _ _ _ Hf) as (Hu1 & Hu2 & Hu3 & Hu4 & Hu5).
  pose proof (settlement_included _ Hbuilt) as Hin. pose proof (rf_transfer _ _ _ Hf) as Htr. pose proof (rf_recipient _ _ _ Hf) as Hrec.
  destruct (send_history_block _ _ _ (list_elem_of_lookup_2 _ _ _ Hi)) as (b & Hbl & Hbt & Hbr).
  rewrite Hsc in *. rewrite (rf_block_r' _ _ _ Hf). split_and!; try done; try lia; try apply Hf.
  - unfold TxSettlement.tx_block_number, TxSettlement.send_block_number_before_tx in *.
    eexists sender, pis, i, _, b. rewrite Hbr. split_and!; first [done|lia].
  - rewrite <- Htr. exact (proj1 (map_err_Ok _ _ _) Htw).
  - intros batch Hh Hw Hbatch. eapply (transfer_witness_sound batch); [done|done|exact Htw|by rewrite Htr|exact Hrec].
Qed.

Lemma receive_transfer_sound_witness :
  exists (t : table) s p w p' b,
    receive_transfer_step (P := CodePoseidon) (K := UnitKeccak) (BP := WordProofs) (F := TailReceive) s p w p' /\
    BalancePublicInputs.channel_id p' = BalancePublicInputs.channel_id p /\ b ∈ blocks s /\
    proof_verify (TransferWitness.transfer_merkle_proof (ReceiveTransferWitness.transfer_witness w)) (TransferWitness.transfer (ReceiveTransferWitness.transfer_witness w))
      (TransferWitness.transfer_index (ReceiveTransferWitness.transfer_witness w)) (Tx.transfer_tree_root (TxSettlement.tx (ReceiveTransferWitness.tx_settlement w))) = Ok tt /\
    UpdatePrivateState.amount (ReceiveTransferWitness.update_private_state w)
      = Transfer.amount (TransferWitness.transfer (ReceiveTransferWitness.transfer_witness w)).
Proof.
  destruct run_transfer as (t & s & p & w & p' & Hr & Hstep & Hb & Hs & Htw).
  destruct (receive_transfer_sound (P := CodePoseidon) (K := UnitKeccak) (BP := WordProofs) (F := TailReceive)
    [1] s p w p' one_count Hr Hstep Hb Hs Htw) as ((sender & pis & i & l & b & _ & Hbl & _) & Hv & _ & _ & _ & Ha & _ & _ & Hc & _).
  exists t, s, p, w, p', b. split; [exact Hstep|]. split; [exact Hc|]. split; [exact (list_elem_of_lookup_2 _ _ _ Hbl)|]. split; [exact Hv|exact Ha].
Defined.

(** ** The order of blocks in a send *)

(** The same step with another previous proof. *)
Definition with_prev_proof {P : Poseidon} {BP : BalanceProofs} (b : BalanceProof) (w : SendTxWitness) : SendTxWitness :=
  SendTxWitness.mk b (SendTxWitness.update_public_state w) (SendTxWitness.tx_settlement w)
    (SendTxWitness.transfer_witness w).

(** The same public inputs at another block. *)
Definition with_block_r {P : Poseidon} (r : BlockNumber) (p : BalancePublicInputs) : BalancePublicInputs :=
  BalancePublicInputs.mk (BalancePublicInputs.channel_id p) (BalancePublicInputs.public_state p) r
    (BalancePublicInputs.private_commitment p) (BalancePublicInputs.settled_tx_chain p).

(** The native check of a send also accepts a previous proof that already refers to the block of the
    transaction; the circuit, whose comparison gate is strict, has no witness for it. *)
Theorem native_send_accepts_current_block {P : Poseidon} {W : PoseidonWords P} {K : Keccak} {BP : BalanceProofs}
    {CB : CircuitBuilder} w b p vd p' :
  let r := TxSettlement.tx_block_number (SendTxWitness.tx_settlement w) in
  full_pis_from_u64_slice (balance_public_inputs (SendTxWitness.prev_balance_proof w)) = Ok (p, vd) ->
  SendTxWitness.to_public_inputs w = Ok (p', vd) ->
  full_pis_from_u64_slice (balance_public_inputs b) = Ok (with_block_r r p, vd) ->
  (exists p2, SendTxWitness.to_public_inputs (with_prev_proof b w) = Ok (p2, vd)) /\
  ~ (tt ∈ U63.enforce_gt (U63.as_u64 r) (U63.as_u64 (BalancePublicInputs.block_r (with_block_r r p)))).
Proof.
  cbn zeta. intros Hp Hok Hb. split.
  - unfold SendTxWitness.to_public_inputs in *. rewrite Hp in Hok. cbn [map_err mbind res_bind] in Hok.
    simplify_res. unfold u63_ltb in *. simplify_bool. clear Hok.
    cbn [with_prev_proof SendTxWitness.prev_balance_proof SendTxWitness.update_public_state
      SendTxWitness.tx_settlement SendTxWitness.transfer_witness]. rewrite Hb.
    cbn [map_err mbind res_bind with_block_r BalancePublicInputs.public_state BalancePublicInputs.channel_id
      BalancePublicInputs.block_r BalancePublicInputs.private_commitment].
    match goal with H : TxSettlement.spend_pis _ = Ok _ |- _ => rewrite H end.
    match goal with H : TransferWitness.verify _ = Ok _ |- _ => rewrite H end.
    match goal with H : TransferWitness.transfer_index _ = 0 |- _ => rewrite H end.
    match goal with H : TxSettlement.channel_id _ = _ |- _ => rewrite H end.
    cbn [map_err mbind res_bind]. rewrite !ensure_decided, !Z.eqb_refl by done. cbn [ensure mbind res_bind].
    rewrite !(proj2 (Z.ltb_ge _ _)) by lia. cbn [negb ensure mbind res_bind].
    destruct (SpendPublicInputs.is_valid _); by eexists.
  - rewrite U63.U63_theorems.enforce_gt_exact. cbn. lia.
Qed.

(** A step keeps the verifier key of the previous proof. *)
Lemma send_vd {P : Poseidon} {W : PoseidonWords P} {K : Keccak} {BP : BalanceProofs} w p vd p' vd' :
  full_pis_from_u64_slice (balance_public_inputs (SendTxWitness.prev_balance_proof w)) = Ok (p, vd) ->
  SendTxWitness.to_public_inputs w = Ok (p', vd') -> vd' = vd.
Proof.
  intros Hp Hok. unfold SendTxWitness.to_public_inputs in Hok. rewrite Hp in Hok.
  cbn [map_err mbind res_bind] in Hok. simplify_res.
  destruct (SpendPublicInputs.is_valid _); by injection Hok.
Qed.

Lemma native_send_accepts_current_block_witness :
  exists (t : table) w b p2,
    SendTxWitness.to_public_inputs (P := CodePoseidon) (K := UnitKeccak) (BP := WordProofs) (with_prev_proof b w)
      = Ok (p2, vd0).
Proof.
  destruct run_sends as (t & s & w & p' & _ & [Hprev [vd Hok] _ _ _ _] & _ & Hl & Hw). exists t, w.
  pose (b := ([1] ++ [0; 0; 0] ++ [5; 0; 0; 0] ++ [6; 0; 0; 0] ++ [7; 0; 0; 0] ++ [1] ++ [2; 0; 0; 0] ++ replicate 8 0
    ++ replicate 4 0) : BalanceProof (BalanceProofs := WordProofs)).
  exists b. assert (vd = vd0) as ->.
  { eapply send_vd; [|exact Hok]. rewrite Hw. exact (proj1 words0_prove). }
  destruct (native_send_accepts_current_block (CB := ReferenceBuilder) (P := CodePoseidon) (K := UnitKeccak)
    (BP := WordProofs) w b (pis0 1) vd0 p') as [[p2 H2] _].
  - rewrite Hw. exact (proj1 words0_prove).
  - exact Hok.
  - unfold TxSettlement.tx_block_number. rewrite Hl. reflexivity.
  - exists p2. exact H2.
Defined.

(** ** Encodings *)

(** The recipient of a withdrawal has one canonical form. Writing an address and reading it back
    gives the address; whatever the reader accepts is the canonical form of what it returns and it
    refuses everything else with an error; and the recipient of a channel is never read as an
    address. *)
Theorem recipient_roundtrip {P : Poseidon} :
  (forall a, exists r, calculate_recipient_from_address (E := RecipientError) a = Ok r /\
    extract_address_from_recipient r = Ok a) /\
  (forall r, match extract_address_from_recipient r with
    | Ok a => calculate_recipient_from_address (E := RecipientError) a = Ok r
    | Err _ => forall a, calculate_recipient_from_address (E := RecipientError) a <> Ok r
    | Panic => False
    end) /\
  (forall c salt r, calculate_recipient_from_user_id (E := RecipientError) c salt = Ok r ->
    extract_address_from_recipient r = Err InvalidRecipient).
Proof.
  split_and!.
  - intros a. destruct (recipient_from_address (E := RecipientError) a) as (r & Hr & _). exists r.
    split; [done|]. by eapply extract_from_address.
  - apply extract_address_spec.
  - intros c salt r. apply user_recipient_no_address.
Qed.

(** A balance proof hands its successor what it proves: the words of well-typed public inputs
    followed by a verifier key of the fixed length are read back as the same public inputs, the
    words of a public state and of a transaction likewise. *)
Theorem balance_words_roundtrip {P : Poseidon} {W : PoseidonWords P} {WO : PoseidonWordsOk P W} {BP : BalanceProofs}
    p vd t :
  balance_pis_typed p -> length vd = VerifierData.vec_len num_cap_elements -> in_width 32 (Tx.nonce t) ->
  (exists v, full_pis_from_u64_slice (BalancePublicInputs.to_u64_vec p ++ vd) = Ok (p, v)) /\
  public_state_from_u64_slice (PublicState.to_u64_vec (BalancePublicInputs.public_state p))
    = Ok (BalancePublicInputs.public_state p) /\
  tx_from_u64_slice (Tx.to_u64_vec t) = Ok t.
Proof.
  intros Hp Hv Ht. split_and!; [by apply full_pis_roundtrip|by apply public_state_roundtrip, Hp|by apply tx_roundtrip].
Qed.

Definition ZeroPoseidon : Poseidon := {|
  PHash := unit;
  phash_default := tt;
  phash_to_u64_vec _ := [0; 0; 0; 0];
  hash_inputs_u64 _ := tt;
|}.

Definition ZeroWords : PoseidonWords ZeroPoseidon := {| phash_from_elements _ := (tt : @PHash ZeroPoseidon) |}.

Lemma ZeroWords_ok : PoseidonWordsOk ZeroPoseidon ZeroWords.
Proof. split; [by intros []|by repeat constructor|done]. Qed.

Definition sample_pis : BalancePublicInputs (P := ZeroPoseidon) :=
  BalancePublicInputs.mk (P := ZeroPoseidon) 5 (PublicState.mk (P := ZeroPoseidon) (U63.mkU63 3) 99 tt tt tt)
    (U63.mkU63 2) tt bytes32_one.

Lemma balance_words_roundtrip_witness :
  exists v, full_pis_from_u64_slice (P := ZeroPoseidon) (W := ZeroWords) (BP := WordProofs)
    (BalancePublicInputs.to_u64_vec sample_pis ++ [0; 0; 0; 0]) = Ok (sample_pis, v).
Proof.
  apply (balance_words_roundtrip (WO := ZeroWords_ok) (BP := WordProofs) sample_pis [0; 0; 0; 0]
    (Tx.mk ZeroPoseidon tt 0)).
  - split; [by split|]. split; [split; [by split|by split]|by split].
  - reflexivity.
  - by split.
Defined.
