(* ===== verification/ChannelTheorems.v ===== *)
(** * The channel theorems

    The properties of the channel layer, stated on the definitions of
    [BalanceState], [Channel] and [StateUpdate], each with its instance on the
    run of [Scenario]. *)

From S2P Require Import Prelude Limbs MerkleTree LeafTrees Poseidon Keccak Regev BalanceState BalanceStateProps Channel ChannelProps StateUpdate StateUpdateProps ChannelRun Scenario.

#[local] Existing Instance ToyKeccak.
#[local] Existing Instance ToyPoseidon.
#[local] Existing Instance ToyPoseidon_output.
#[local] Existing Instance ToyScheme.
#[local] Existing Instance ToyChannelProofs.
#[local] Existing Instance ToyRegevProofs.

(** ** Runs *)

(** C1: over any run of accepted updates, the channel fund of every token that
    is registered at the end equals the fund at the start plus the deposits and
    imports of that token minus the sends of that token, as integers (no
    256-bit wrap-around), and the value not yet credited to a member is the
    initial one plus all imports and deposits minus all applications. *)
Theorem channel_run_conserves_value {K : Keccak} {P : Poseidon} {R : RegevScheme}
    {VP : ChannelProofVerifier} {VR : RegevProofVerifier} record s evs s' t tok :
  run record s evs s' -> cs_typed s -> valid (ChannelState.balance_state s) ->
  (t < active_tokens (ChannelState.balance_state s'))%nat ->
  BalanceState.token_registry (ChannelState.balance_state s') !! t = Some tok ->
  (exists a b, fund_lookup s t = Some a /\ fund_lookup s' t = Some b /\
    val b = val a + total (fund_flow tok) evs) /\
  val (ChannelState.unallocated_confirmed_incoming s')
    = val (ChannelState.unallocated_confirmed_incoming s) + total incoming_flow evs.
Proof. intros Hr Hty Hv Ht Htok. split; [by eapply run_funds | by eapply run_incoming]. Qed.

Lemma channel_run_conserves_value_witness :
  (exists a b, fund_lookup (toy_state v0) 0 = Some a /\ fund_lookup (toy_state v7) 0 = Some b /\
    val b = val a + 90) /\
  val (ChannelState.unallocated_confirmed_incoming (toy_state v7))
    = val (ChannelState.unallocated_confirmed_incoming (toy_state v0)) + 100.
Proof.
  apply (channel_run_conserves_value toy_record (toy_state v0) toy_events (toy_state v7) 0 0 toy_run).
  - apply toy_cs_typed, v0_ok.
  - apply toy_valid, v0_ok.
  - apply Nat.lt_0_succ.
  - reflexivity.
Defined.

(** C2: no run changes the channel id, the member and delegate counts, the L1
    recipients, the committed Regev keys or the close-freeze nonce; a token
    once registered keeps its position; epoch and state version advance by
    exactly one per update (modulo 2^64); and every state reached from a valid
    state is valid again: full slot width, canonical ciphertexts, zero padding,
    an injective registry, no position past its budget of 64 homomorphic
    additions. *)
Theorem channel_run_invariant {K : Keccak} {P : Poseidon} {R : RegevScheme}
    {VP : ChannelProofVerifier} {VR : RegevProofVerifier} record s evs s' :
  run record s evs s' -> cs_typed s -> valid (ChannelState.balance_state s) ->
  same_identity s s' /\ registry_extends s s' /\
  ChannelState.epoch s' = wrap 64 (ChannelState.epoch s + Z.of_nat (length evs)) /\
  BalanceState.state_version (ChannelState.balance_state s')
    = wrap 64 (BalanceState.state_version (ChannelState.balance_state s) + Z.of_nat (length evs)) /\
  BalanceState.validate (ChannelState.balance_state s') = Ok tt /\
  forall i t n, adds_lookup s' i t = Some n -> 0 <= n <= MAX_HOMO_ADDS_BEFORE_REFRESH.
Proof.
  intros H Hty Hv. destruct (run_state_ok _ _ _ _ H (conj Hty Hv)) as [Hty' Hv'].
  destruct (run_counters record s evs s') as [He Hver]; [exact H|apply (cty_epoch s Hty)|
    apply (ty_state_version _ (cty_balance s Hty))|].
  split_and!; [by eapply run_identity|by eapply run_registry|exact He|exact Hver| |].
  - apply validate_Ok; [by apply cty_balance|done].
  - intros i t n Hn. split; [by eapply adds_lookup_nonneg|].
    apply bind_Some in Hn as (row & Hrow & Hn). by eapply (v_pending _ Hv').
Qed.

Lemma channel_run_invariant_witness :
  same_identity (toy_state v0) (toy_state v7) /\ registry_extends (toy_state v0) (toy_state v7) /\
  ChannelState.epoch (toy_state v7) = wrap 64 (0 + 7) /\
  BalanceState.state_version (ChannelState.balance_state (toy_state v7)) = wrap 64 (0 + 7) /\
  BalanceState.validate (ChannelState.balance_state (toy_state v7)) = Ok tt /\
  forall i t n, adds_lookup (toy_state v7) i t = Some n -> 0 <= n <= MAX_HOMO_ADDS_BEFORE_REFRESH.
Proof.
  exact (channel_run_invariant toy_record _ toy_events _ toy_run (toy_cs_typed v0 v0_ok) (toy_valid v0 v0_ok)).
Defined.

(** ** Single updates *)

Lemma transfer_public_inputs {K : Keccak} {P : Poseidon} {R : RegevScheme} {VR : RegevProofVerifier} w pi :
  InChannelTransferUpdateWitness.verify w = Ok pi -> exists sender receiver digest,
    pi = PublicInputs.of_states InChannelTransfer (InChannelTransferUpdateWitness.prev_state w) (InChannelTransferUpdateWitness.next_state w)
           0 1 sender receiver digest.
Proof. intros H. unfold InChannelTransferUpdateWitness.verify in H. cbv zeta in H. simplify_res. eauto. Qed.

(** An accepted in-channel transfer moves one ciphertext between two
    different slots of one active token: the recipient's balance becomes the
    homomorphic sum with the signed amount under the 64-addition budget, the
    sender's counter is reset and its new ciphertext is covered by a proof about
    exactly (sender key, recipient key, before, amount, after); every other
    ciphertext and counter, the funds, the settle chain, the registry and the
    nullifier root are untouched. *)
Theorem in_channel_transfer_sound {K : Keccak} {P : Poseidon} {R : RegevScheme} {VR : RegevProofVerifier} w pi :
  cs_typed (InChannelTransferUpdateWitness.prev_state w) -> cs_typed (InChannelTransferUpdateWitness.next_state w) ->
  InChannelTransferUpdateWitness.verify w = Ok pi ->
  (InChannel.effect w) /\ (exists sender receiver digest,
    pi = PublicInputs.of_states InChannelTransfer (InChannelTransferUpdateWitness.prev_state w) (InChannelTransferUpdateWitness.next_state w)
           0 1 sender receiver digest).
Proof.
  intros. split; [by eapply InChannel.transfer_effect | by apply transfer_public_inputs].
Qed.

Lemma in_channel_transfer_sound_witness : InChannel.effect transfer_witness.
Proof.
  destruct transfer_accepted as [pi H].
  refine (proj1 (in_channel_transfer_sound transfer_witness pi (toy_cs_typed v1 v1_ok) (toy_cs_typed v2 v2_ok) H)).
Defined.

Lemma send_public_inputs {K : Keccak} {P : Poseidon} {VP : ChannelProofVerifier} {VR : RegevProofVerifier} w pi :
  InterChannelSendUpdateWitness.verify w = Ok pi -> exists sender receiver digest,
    pi = PublicInputs.of_states InterChannelSend (InterChannelSendUpdateWitness.prev_state w) (InterChannelSendUpdateWitness.next_state w)
           (InterChannelSendUpdateWitness.amount w) 1 sender receiver digest.
Proof. intros H. unfold InterChannelSendUpdateWitness.verify in H. cbv zeta in H. simplify_res. eauto. Qed.

(** An accepted inter-channel send debits exactly one fund position, the
    registered position of the transaction's token, by exactly the amount
    (without underflow), changes one ciphertext only, the sender's, under a
    proof about (sender key, destination key, before, after, both deltas,
    amount, token), consumes a nullifier, and publishes the next balance
    commitment in the signed small block. *)
Theorem inter_channel_send_sound {K : Keccak} {P : Poseidon} {VP : ChannelProofVerifier} {VR : RegevProofVerifier} w pi :
  cs_typed (InterChannelSendUpdateWitness.prev_state w) -> cs_typed (InterChannelSendUpdateWitness.next_state w) ->
  in_width 64 (InterChannelSendUpdateWitness.amount w) ->
  InterChannelSendUpdateWitness.verify w = Ok pi ->
  (exists si ts, Send.effect w si ts) /\ (exists sender receiver digest,
    pi = PublicInputs.of_states InterChannelSend (InterChannelSendUpdateWitness.prev_state w) (InterChannelSendUpdateWitness.next_state w)
           (InterChannelSendUpdateWitness.amount w) 1 sender receiver digest).
Proof.
  intros. split; [by eapply Send.send_effect | by apply send_public_inputs].
Qed.

Lemma inter_channel_send_sound_witness : exists si ts, Send.effect send_witness si ts.
Proof.
  destruct send_accepted as [pi H].
  refine (proj1 (inter_channel_send_sound send_witness pi (toy_cs_typed v2 v2_ok) (toy_cs_typed v3 v3_ok) _ H)). by split.
Defined.

Lemma import_public_inputs {K : Keccak} {P : Poseidon} {VP : ChannelProofVerifier} w pi :
  InterChannelFundImportUpdateWitness.verify w = Ok pi -> exists sender receiver digest,
    pi = PublicInputs.of_states InterChannelFundImport (InterChannelFundImportUpdateWitness.prev_state w) (InterChannelFundImportUpdateWitness.next_state w)
           (InterChannelFundImportUpdateWitness.amount w) (Z.of_nat (length (InterChannelTx.receiver_deltas (InterChannelFundImportUpdateWitness.inter_channel_tx w)))) sender receiver digest.
Proof. intros H. unfold InterChannelFundImportUpdateWitness.verify in H. cbv zeta in H. simplify_res. eauto. Qed.

(** An accepted fund import credits exactly one fund position, the registered
    position of the transaction's token, and the unallocated pool by exactly the
    amount, leaves every balance and counter untouched, consumes a nullifier,
    recomputes the transaction hash, and addresses an active member of the
    receiving channel under its committed key. *)
Theorem fund_import_sound {K : Keccak} {P : Poseidon} {VP : ChannelProofVerifier} w pi :
  cs_typed (InterChannelFundImportUpdateWitness.prev_state w) -> cs_typed (InterChannelFundImportUpdateWitness.next_state w) ->
  in_width 64 (InterChannelFundImportUpdateWitness.amount w) ->
  InterChannelFundImportUpdateWitness.verify w = Ok pi ->
  (exists ts, FundImport.effect w ts) /\ (exists sender receiver digest,
    pi = PublicInputs.of_states InterChannelFundImport (InterChannelFundImportUpdateWitness.prev_state w) (InterChannelFundImportUpdateWitness.next_state w)
           (InterChannelFundImportUpdateWitness.amount w) (Z.of_nat (length (InterChannelTx.receiver_deltas (InterChannelFundImportUpdateWitness.inter_channel_tx w)))) sender receiver digest).
Proof.
  intros. split; [by eapply FundImport.import_effect | by apply import_public_inputs].
Qed.

Lemma fund_import_sound_witness : exists ts, FundImport.effect import_witness ts.
Proof.
  destruct import_accepted as [pi H].
  refine (proj1 (fund_import_sound import_witness pi (toy_cs_typed v3 v3_ok) (toy_cs_typed v4 v4_ok) _ H)). by split.
Defined.

Lemma deposit_public_inputs {K : Keccak} {P : Poseidon} w pi :
  L1DepositImportUpdateWitness.verify w = Ok pi -> exists sender receiver digest,
    pi = PublicInputs.of_states L1DepositImport (L1DepositImportUpdateWitness.prev_state w) (L1DepositImportUpdateWitness.next_state w)
           (L1DepositImportUpdateWitness.amount w) 0 sender receiver digest.
Proof. intros H. unfold L1DepositImportUpdateWitness.verify in H. cbv zeta in H. simplify_res. eauto. Qed.

(** An accepted L1 deposit import credits exactly one fund position, the
    registered position of the deposited token, and the unallocated pool by
    exactly the amount, pushes the deposit nullifier on the settle chain, and
    leaves every balance and counter untouched. *)
Theorem l1_deposit_import_sound {K : Keccak} {P : Poseidon} w pi :
  cs_typed (L1DepositImportUpdateWitness.prev_state w) -> cs_typed (L1DepositImportUpdateWitness.next_state w) ->
  in_width 64 (L1DepositImportUpdateWitness.amount w) ->
  L1DepositImportUpdateWitness.verify w = Ok pi ->
  (exists ts, Deposit.effect w ts) /\ (exists sender receiver digest,
    pi = PublicInputs.of_states L1DepositImport (L1DepositImportUpdateWitness.prev_state w) (L1DepositImportUpdateWitness.next_state w)
           (L1DepositImportUpdateWitness.amount w) 0 sender receiver digest).
Proof.
  intros. split; [by eapply Deposit.deposit_effect | by apply deposit_public_inputs].
Qed.

Lemma l1_deposit_import_sound_witness : exists ts, Deposit.effect deposit_witness ts.
Proof.
  destruct deposit_accepted as [pi H].
  refine (proj1 (l1_deposit_import_sound deposit_witness pi (toy_cs_typed v0 v0_ok) (toy_cs_typed v1 v1_ok) _ H)). by split.
Defined.

Lemma apply_public_inputs {K : Keccak} {P : Poseidon} {R : RegevScheme} {VR : RegevProofVerifier} w pi :
  ReceiverBundleApplyUpdateWitness.verify w = Ok pi -> exists sender receiver digest,
    pi = PublicInputs.of_states ReceiverBundleApply (ReceiverBundleApplyUpdateWitness.prev_state w) (ReceiverBundleApplyUpdateWitness.next_state w)
           (ReceiverBundleApplyUpdateWitness.amount w) 1 sender receiver digest.
Proof. intros H. unfold ReceiverBundleApplyUpdateWitness.verify in H. cbv zeta in H. simplify_res. eauto. Qed.

(** An accepted bundle application credits one member's ciphertext with the
    single receiver delta of the transaction, takes the amount out of the
    unallocated pool without underflow, flips exactly one accumulator leaf from
    the tagged unapplied form to the applied one along one Merkle path, and
    moves no fund and no other balance. *)
Theorem receiver_bundle_apply_sound {K : Keccak} {P : Poseidon} {R : RegevScheme} {VR : RegevProofVerifier} w pi :
  cs_typed (ReceiverBundleApplyUpdateWitness.prev_state w) -> cs_typed (ReceiverBundleApplyUpdateWitness.next_state w) ->
  in_width 64 (ReceiverBundleApplyUpdateWitness.amount w) ->
  ReceiverBundleApplyUpdateWitness.verify w = Ok pi ->
  (exists ts, Bundle.effect w ts) /\ (exists sender receiver digest,
    pi = PublicInputs.of_states ReceiverBundleApply (ReceiverBundleApplyUpdateWitness.prev_state w) (ReceiverBundleApplyUpdateWitness.next_state w)
           (ReceiverBundleApplyUpdateWitness.amount w) 1 sender receiver digest).
Proof.
  intros. split; [by eapply Bundle.bundle_effect | by apply apply_public_inputs].
Qed.

Lemma receiver_bundle_apply_sound_witness : exists ts, Bundle.effect apply_witness ts.
Proof.
  destruct apply_accepted as [pi H].
  refine (proj1 (receiver_bundle_apply_sound apply_witness pi (toy_cs_typed v4 v4_ok) (toy_cs_typed v5 v5_ok) _ H)). by split.
Defined.

Lemma refresh_public_inputs {K : Keccak} {P : Poseidon} {VR : RegevProofVerifier} w pi :
  BalanceRefreshUpdateWitness.verify w = Ok pi -> exists sender receiver digest,
    pi = PublicInputs.of_states BalanceRefresh (BalanceRefreshUpdateWitness.prev_state w) (BalanceRefreshUpdateWitness.next_state w)
           0 0 sender receiver digest.
Proof. intros H. unfold BalanceRefreshUpdateWitness.verify in H. cbv zeta in H. simplify_res. eauto. Qed.

(** An accepted refresh replaces one ciphertext of an active token slot under
    a proof about (key, old, new), resets that counter to zero and changes
    nothing else. *)
Theorem balance_refresh_sound {K : Keccak} {P : Poseidon} {VR : RegevProofVerifier} w pi :
  cs_typed (BalanceRefreshUpdateWitness.prev_state w) -> cs_typed (BalanceRefreshUpdateWitness.next_state w) ->
  BalanceRefreshUpdateWitness.verify w = Ok pi ->
  (Refresh.effect w) /\ (exists sender receiver digest,
    pi = PublicInputs.of_states BalanceRefresh (BalanceRefreshUpdateWitness.prev_state w) (BalanceRefreshUpdateWitness.next_state w)
           0 0 sender receiver digest).
Proof.
  intros. split; [by eapply Refresh.refresh_effect | by apply refresh_public_inputs].
Qed.

Lemma balance_refresh_sound_witness : Refresh.effect refresh_witness.
Proof.
  destruct refresh_accepted as [pi H].
  refine (proj1 (balance_refresh_sound refresh_witness pi (toy_cs_typed v5 v5_ok) (toy_cs_typed v6 v6_ok) H)).
Defined.

Lemma register_public_inputs {K : Keccak} {P : Poseidon} w pi :
  TokenRegisterUpdateWitness.verify w = Ok pi -> exists sender receiver digest,
    pi = PublicInputs.of_states TokenRegisterKind (TokenRegisterUpdateWitness.prev_state w) (TokenRegisterUpdateWitness.next_state w)
           0 0 sender receiver digest.
Proof. intros H. unfold TokenRegisterUpdateWitness.verify in H. cbv zeta in H. simplify_res. eauto. Qed.

(** An accepted token registration is exactly the canonical append: the next
    balance state is [apply_token_register] of the previous one, and the next
    channel state is the one [token_register_next_state] builds, up to its
    signatures. *)
Theorem token_register_sound {K : Keccak} {P : Poseidon} w pi :
  cs_typed (TokenRegisterUpdateWitness.prev_state w) -> cs_typed (TokenRegisterUpdateWitness.next_state w) ->
  TokenRegisterUpdateWitness.verify w = Ok pi ->
  (Register.effect w) /\ (exists sender receiver digest,
    pi = PublicInputs.of_states TokenRegisterKind (TokenRegisterUpdateWitness.prev_state w) (TokenRegisterUpdateWitness.next_state w)
           0 0 sender receiver digest).
Proof.
  intros. split; [by eapply Register.register_effect | by apply register_public_inputs].
Qed.

Lemma token_register_sound_witness : Register.effect register_witness.
Proof.
  destruct register_accepted as [pi H].
  refine (proj1 (token_register_sound register_witness pi (toy_cs_typed v6 v6_ok) (toy_cs_typed v7 v7_ok) H)).
Defined.

(** ** Malformed next states *)

Section updates.
Context {K : Keccak} {P : Poseidon} {R : RegevScheme} {VP : ChannelProofVerifier} {VR : RegevProofVerifier}.

(** The seven updates, with the states they lead from and to. *)
Inductive update :=
| UTransfer (w : InChannelTransferUpdateWitness.InChannelTransferUpdateWitness)
| USend (w : InterChannelSendUpdateWitness.InterChannelSendUpdateWitness)
| UFundImport (w : InterChannelFundImportUpdateWitness.InterChannelFundImportUpdateWitness)
| UDeposit (w : L1DepositImportUpdateWitness.L1DepositImportUpdateWitness)
| UApply (w : ReceiverBundleApplyUpdateWitness.ReceiverBundleApplyUpdateWitness P)
| URefresh (w : BalanceRefreshUpdateWitness.BalanceRefreshUpdateWitness)
| URegister (w : TokenRegisterUpdateWitness.TokenRegisterUpdateWitness).

Definition update_prev (x : update) : ChannelState :=
  match x with
  | UTransfer w => InChannelTransferUpdateWitness.prev_state w
  | USend w => InterChannelSendUpdateWitness.prev_state w
  | UFundImport w => InterChannelFundImportUpdateWitness.prev_state w
  | UDeposit w => L1DepositImportUpdateWitness.prev_state w
  | UApply w => ReceiverBundleApplyUpdateWitness.prev_state w
  | URefresh w => BalanceRefreshUpdateWitness.prev_state w
  | URegister w => TokenRegisterUpdateWitness.prev_state w
  end.

Definition update_next (x : update) : ChannelState :=
  match x with
  | UTransfer w => InChannelTransferUpdateWitness.next_state w
  | USend w => InterChannelSendUpdateWitness.next_state w
  | UFundImport w => InterChannelFundImportUpdateWitness.next_state w
  | UDeposit w => L1DepositImportUpdateWitness.next_state w
  | UApply w => ReceiverBundleApplyUpdateWitness.next_state w
  | URefresh w => BalanceRefreshUpdateWitness.next_state w
  | URegister w => TokenRegisterUpdateWitness.next_state w
  end.

(** Four of the verifiers check the encryption keys of the members first. *)
Definition update_keys (x : update) : result unit :=
  match x with
  | UTransfer w => verify_regev_pk_root (InChannelTransferUpdateWitness.channel_record w) (InChannelTransferUpdateWitness.regev_pks w)
  | USend w => verify_regev_pk_root (InterChannelSendUpdateWitness.channel_record w) (InterChannelSendUpdateWitness.regev_pks w)
  | UApply w => verify_regev_pk_root (ReceiverBundleApplyUpdateWitness.receiver_channel_record w) (ReceiverBundleApplyUpdateWitness.regev_pks w)
  | URefresh w => verify_regev_pk_root (BalanceRefreshUpdateWitness.channel_record w) (BalanceRefreshUpdateWitness.regev_pks w)
  | UFundImport _ | UDeposit _ | URegister _ => Ok tt
  end.

Definition verify_update (x : update) : result ChannelStateUpdatePublicInputs :=
  match x with
  | UTransfer w => InChannelTransferUpdateWitness.verify w
  | USend w => InterChannelSendUpdateWitness.verify w
  | UFundImport w => InterChannelFundImportUpdateWitness.verify w
  | UDeposit w => L1DepositImportUpdateWitness.verify w
  | UApply w => ReceiverBundleApplyUpdateWitness.verify w
  | URefresh w => BalanceRefreshUpdateWitness.verify w
  | URegister w => TokenRegisterUpdateWitness.verify w
  end.

(** C37: the linkage check hashes the next state before anything validates it. Take any of the seven
    updates whose key check, where it has one, passes and whose next state is of the same channel,
    has the next epoch and the digest of the previous state, whose own digest is right. If the next
    state has all slots of its width and one ciphertext of it is not canonical, the verifier aborts
    the process instead of rejecting the update with an error. *)
Theorem malformed_next_state_panics x i t row ct :
  update_keys x = Ok tt ->
  ChannelState.channel_id (update_prev x) = ChannelState.channel_id (update_next x) ->
  ChannelState.epoch (update_next x) = wrap 64 (ChannelState.epoch (update_prev x) + 1) ->
  ChannelState.prev_digest (update_next x) = ChannelState.digest (update_prev x) ->
  ChannelState.signing_digest (E := ChannelStateUpdateError) (update_prev x) = Ok (ChannelState.digest (update_prev x)) ->
  well_shaped (ChannelState.balance_state (update_next x)) ->
  BalanceState.enc_balances (ChannelState.balance_state (update_next x)) !! i = Some row ->
  row !! t = Some ct -> Ct.validate ct <> Ok tt ->
  verify_update x = Panic.
Proof.
  intros Hk Hid He Hp Hd Hws Hrow Hct Hbad.
  assert (verify_state_linkage (update_prev x) (update_next x) = Panic) as Hl.
  { rewrite verify_state_linkage_Panic; try done. apply h1_Panic. eapply slot_leaf_hashes_Panic; [done|exact Hrow|exact Hct|]. by rewrite <- ct_validate_Ok. }
  clear - Hk Hl. destruct x as [w|w|w|w|w|w|w]; cbn [update_keys update_prev update_next verify_update] in *.
  - unfold InChannelTransferUpdateWitness.verify. cbv zeta. by rewrite Hk, Hl.
  - unfold InterChannelSendUpdateWitness.verify. cbv zeta. by rewrite Hk, Hl.
  - unfold InterChannelFundImportUpdateWitness.verify. cbv zeta. by rewrite Hl.
  - unfold L1DepositImportUpdateWitness.verify. cbv zeta. by rewrite Hl.
  - unfold ReceiverBundleApplyUpdateWitness.verify. cbv zeta. by rewrite Hk, Hl.
  - unfold BalanceRefreshUpdateWitness.verify. cbv zeta. by rewrite Hk, Hl.
  - unfold TokenRegisterUpdateWitness.verify. cbv zeta. by rewrite Hl.
Qed.
End updates.

Definition empty_ct : RegevCiphertext := mkCt [] [].

(** The deposit of [Scenario] with an empty ciphertext in the next state. *)
Definition malformed_witness : L1DepositImportUpdateWitness.L1DepositImportUpdateWitness :=
  {| L1DepositImportUpdateWitness.channel_record := toy_record;
     L1DepositImportUpdateWitness.prev_state := toy_state v0;
     L1DepositImportUpdateWitness.next_state :=
       toy_state (Build_view 1 empty_ct zero_ciphertext 0 registry_one 1 u256_100 u256_100 digest_one bytes32_default);
     L1DepositImportUpdateWitness.amount := 100;
     L1DepositImportUpdateWitness.deposit_nullifier := digest_two;
     L1DepositImportUpdateWitness.token_index := 0;
     L1DepositImportUpdateWitness.depositor_slot := 0 |}.

Lemma malformed_next_state_panics_witness : verify_update (UDeposit malformed_witness) = Panic.
Proof.
  apply (malformed_next_state_panics (UDeposit malformed_witness) 0 0 (token_row empty_ct zero_ciphertext) empty_ct).
  - reflexivity.
  - reflexivity.
  - reflexivity.
  - reflexivity.
  - apply (toy_digest v0), v0_ok.
  - split; [|split; apply length_two].
    apply toy_shape; [cbn; lia | by left].
  - reflexivity.
  - reflexivity.
  - rewrite ct_validate_Ok. intros [[Hl _] _]. pose proof REGEV_N_pos as Hpos. rewrite <- Hl in Hpos. inversion Hpos.
Defined.

(** ** Balance states *)

(** [BalanceState::validate] accepts exactly the canonical states and
    refuses every other one with an error; it never aborts. *)
Theorem balance_state_validate_exact s :
  typed s ->
  (BalanceState.validate s = Ok tt <-> valid s) /\
  (BalanceState.validate s = Err InvalidBalanceState <-> ~ valid s).
Proof.
  intros Hty. rewrite <- (validate_Ok s tt Hty). split; [done|].
  destruct (validate_decides s Hty) as [H|H]; rewrite H; naive_solver.
Qed.

Lemma balance_state_validate_exact_witness : BalanceState.validate (toy_balance v2) = Ok tt.
Proof.
  apply (proj1 (balance_state_validate_exact (toy_balance v2) (toy_typed v2 v2_ok))).
  apply toy_valid, v2_ok.
Defined.

(** The signed commitment [h1] binds every field of a valid balance state:
    two valid states with the same commitment are equal, or two of the inputs
    hashed for them are an explicit Poseidon or Keccak collision. *)
Theorem balance_state_h1_binding {K : Keccak} {P : Poseidon} {PO : PoseidonOutput P} {E} s s' b :
  typed s -> typed s' -> valid s -> valid s' ->
  BalanceState.h1 (E := E) s = Ok b -> BalanceState.h1 (E := E) s' = Ok b ->
  s = s' \/ collision hash_inputs_u64 (poseidon_queries s) (poseidon_queries s')
    \/ collision hash_words (keccak_queries s) (keccak_queries s').
Proof.
  intros. eapply h1_binding; eauto using valid_well_shaped, valid_ciphertexts_ok.
Qed.

Lemma balance_state_h1_binding_witness :
  toy_balance v1 = toy_balance v2 \/
  collision hash_inputs_u64 (poseidon_queries (toy_balance v1)) (poseidon_queries (toy_balance v2)) \/
  collision hash_words (keccak_queries (toy_balance v1)) (keccak_queries (toy_balance v2)).
Proof.
  exact (balance_state_h1_binding (E := ChannelError) (toy_balance v1) (toy_balance v2) bytes32_default
           (toy_typed v1 v1_ok) (toy_typed v2 v2_ok) (toy_valid v1 v1_ok) (toy_valid v2 v2_ok)
           (toy_h1 v1 v1_ok) (toy_h1 v2 v2_ok)).
Defined.

(** The memoised level-by-level fold [slot_tree_root] computes the root of
    the incremental Merkle tree [slot_tree] over the same leaves, and both
    succeed on every valid state. *)
Theorem slot_tree_root_is_tree_root {K : Keccak} {P : Poseidon} {E} s :
  typed s -> valid s ->
  exists t r, BalanceState.slot_tree (E := E) s = Ok t /\
    Incremental.get_root (E := E) t = Ok r /\ BalanceState.slot_tree_root (E := E) s = Ok r.
Proof.
  intros Hty Hv. pose proof (valid_well_shaped s Hty Hv) as Hws. pose proof (valid_ciphertexts_ok s Hv) as Hok.
  destruct (slot_tree_Ok (E := E) s Hws Hok) as (t & Ht & _).
  pose proof (slot_tree_get_root (E := E) s t Hws Hok Ht) as Hr.
  rewrite slot_tree_root_Ok in Hr by done. exists t. eexists. split_and!; [done|exact Hr|by apply slot_tree_root_Ok].
Qed.

Lemma slot_tree_root_is_tree_root_witness :
  exists t r, BalanceState.slot_tree (E := ChannelError) (toy_balance v2) = Ok t /\
    Incremental.get_root (E := ChannelError) t = Ok r /\
    BalanceState.slot_tree_root (E := ChannelError) (toy_balance v2) = Ok r.
Proof. exact (slot_tree_root_is_tree_root (toy_balance v2) (toy_typed v2 v2_ok) (toy_valid v2 v2_ok)). Defined.

(** Registering a token succeeds exactly when a registry slot is free and
    the token is not registered; it keeps the state valid, activates exactly
    one more token slot, and is refused with an error otherwise. *)
Theorem apply_token_register_exact s token_index :
  typed s -> valid s ->
  match BalanceState.apply_token_register s token_index with
  | Ok s' => typed s' /\ valid s' /\ active_tokens s' = S (active_tokens s) /\
      BalanceState.token_registry s' !! active_tokens s = Some token_index /\
      BalanceState.enc_balances s' = BalanceState.enc_balances s /\
      BalanceState.pending_adds s' = BalanceState.pending_adds s
  | Err e => e = InvalidBalanceState /\
      ((MAX_CHANNEL_TOKENS <= active_tokens s)%nat \/
       token_index ∈ take (active_tokens s) (BalanceState.token_registry s))
  | Panic => False
  end.
Proof.
  intros Hty Hv. pose proof (apply_token_register_Err s token_index) as H.
  destruct (BalanceState.apply_token_register s token_index) as [s'| |] eqn:Hs; [|done..].
  pose proof (apply_token_register_valid _ _ _ Hty Hv Hs) as (? & ? & ?).
  apply apply_token_register_Ok in Hs as (Hlt & _ & Hreg & _ & _ & _ & _ & _ & He & _ & _ & _ & _ & Ha).
  split_and!; try done. rewrite Hreg. apply list_lookup_insert_eq. by rewrite (ty_registry s Hty).
Qed.

Lemma apply_token_register_exact_witness :
  typed (toy_balance v7) /\ valid (toy_balance v7) /\ active_tokens (toy_balance v7) = 2%nat.
Proof.
  pose proof (apply_token_register_exact (toy_balance v6) 9 (toy_typed v6 v6_ok) (toy_valid v6 v6_ok)) as H.
  rewrite toy_register in H. destruct H as (H1 & H2 & H3 & _). exact (conj H1 (conj H2 H3)).
Defined.

(** The compact wire form of the ciphertext matrix loses nothing: loading a
    stored full-width matrix gives it back, and whatever the loader accepts is a
    full-width matrix. *)
Theorem token_matrix_roundtrip rows sparse :
  length rows = MAX_CHANNEL_MEMBERS -> Forall (fun row => length row = MAX_CHANNEL_TOKENS) rows ->
  TokenMatrixSerde.ciphertexts_deserialize (TokenMatrixSerde.ciphertexts_serialize rows) = Ok rows /\
  (forall rows', TokenMatrixSerde.ciphertexts_deserialize sparse = Ok rows' ->
     length rows' = MAX_CHANNEL_MEMBERS /\ Forall (fun row => length row = MAX_CHANNEL_TOKENS) rows').
Proof.
  intros Hl Hf. split; [by apply deserialize_serialize|]. intros rows'. apply deserialize_shape.
Qed.

Lemma token_matrix_roundtrip_witness :
  TokenMatrixSerde.ciphertexts_deserialize
    (TokenMatrixSerde.ciphertexts_serialize (BalanceState.enc_balances (toy_balance v2)))
  = Ok (BalanceState.enc_balances (toy_balance v2)).
Proof.
  refine (proj1 (token_matrix_roundtrip (BalanceState.enc_balances (toy_balance v2)) [] _ _)).
  - apply length_two.
  - apply (ty_rows _ (toy_typed v2 v2_ok)).
Defined.

(** ** Digests *)

(** C33: the digest the members sign binds the whole channel state, the balance
    state included: two valid states with the same digest differ at most in
    their signatures, or the words hashed for them contain an explicit
    collision. *)
Theorem channel_state_digest_binding {K : Keccak} {P : Poseidon} {PO : PoseidonOutput P} {E} s s' h h' :
  state_words_typed s -> state_words_typed s' ->
  valid (ChannelState.balance_state s) -> valid (ChannelState.balance_state s') ->
  BalanceState.h1 (E := E) (ChannelState.balance_state s) = Ok h ->
  BalanceState.h1 (E := E) (ChannelState.balance_state s') = Ok h' ->
  ChannelState.signing_digest (E := E) s = Ok (ChannelState.digest s) ->
  ChannelState.signing_digest (E := E) s' = Ok (ChannelState.digest s') ->
  ChannelState.digest s = ChannelState.digest s' ->
  ChannelState.with_signatures s [] = ChannelState.with_signatures s' [] \/
  keccak_collision (ChannelState.signing_words s h) (ChannelState.signing_words s' h') \/
  collision hash_inputs_u64 (poseidon_queries (ChannelState.balance_state s))
    (poseidon_queries (ChannelState.balance_state s')) \/
  collision hash_words (keccak_queries (ChannelState.balance_state s))
    (keccak_queries (ChannelState.balance_state s')).
Proof. apply state_digest_binding. Qed.

Lemma channel_state_digest_binding_witness :
  ChannelState.with_signatures (toy_state v1) [] = ChannelState.with_signatures (toy_state v1) [] \/
  keccak_collision (ChannelState.signing_words (toy_state v1) bytes32_default)
    (ChannelState.signing_words (toy_state v1) bytes32_default) \/
  collision hash_inputs_u64 (poseidon_queries (toy_balance v1)) (poseidon_queries (toy_balance v1)) \/
  collision hash_words (keccak_queries (toy_balance v1)) (keccak_queries (toy_balance v1)).
Proof.
  exact (channel_state_digest_binding (E := ChannelError) (toy_state v1) (toy_state v1) _ _
           (toy_words_typed v1 v1_ok) (toy_words_typed v1 v1_ok) (toy_valid v1 v1_ok) (toy_valid v1 v1_ok)
           (toy_h1 v1 v1_ok) (toy_h1 v1 v1_ok) (toy_digest v1 v1_ok) (toy_digest v1 v1_ok) eq_refl).
Defined.

(** [ChannelRecord::validate] accepts exactly the records with a Regev key
    root, a non-burn channel id, 2 to the cluster maximum of members, a block
    producer among them, and pairwise distinct nonzero keys on exactly the
    active slots. *)
Theorem channel_record_validate_exact r : ChannelRecord.validate r = Ok tt <-> record_valid r.
Proof. apply validate_record_Ok. Qed.

(** A set of co-signatures is accepted exactly when the record is valid and
    there is one signature per member, in slot order, each under that member's
    key and of the one fixed Falcon length. *)
Theorem member_signatures_exact r sigs :
  validate_all_member_signatures r sigs = Ok tt <->
  record_valid r /\ length sigs = Z.to_nat (ChannelRecord.member_count r) /\
  forall slot sig, sigs !! slot = Some sig -> signs_for r slot sig.
Proof. apply validate_all_member_signatures_Ok. Qed.

(** A close intent is built exactly from a withdrawal that names the state's
    channel, digest, commitment, state root and native fund, with an empty burn
    transaction, and takes the next freeze nonce; the last nonce cannot close. *)
Theorem close_intent_exact {K : Keccak} {P : Poseidon} s w i :
  in_width 64 (ChannelState.close_freeze_nonce s) -> (CloseIntent.new s w = Ok i <-> closes s w i).
Proof. apply close_intent_new_Ok. Qed.

Definition toy_withdrawal : CloseWithdrawal :=
  {| CloseWithdrawal.channel_id := 7; CloseWithdrawal.final_channel_state_digest := digest_one;
     CloseWithdrawal.final_balance_state_h1 := bytes32_default; CloseWithdrawal.intmax_state_root := bytes32_default;
     CloseWithdrawal.burn_tx_hash := bytes32_default; CloseWithdrawal.burn_amount := u256_90;
     CloseWithdrawal.zkp := [] |}.

Lemma close_intent_exact_witness : exists i, CloseIntent.new (toy_state v7) toy_withdrawal = Ok i.
Proof.
  eexists. apply (close_intent_exact (toy_state v7) toy_withdrawal); [by split|].
  constructor; [reflexivity | reflexivity | apply (toy_h1 v7), v7_ok | reflexivity..].
Defined.

(** A withdrawal nullifier fixes the close, the member's key and the token
    slot, a post-close nullifier fixes the close, the transaction and the
    receiver, and no withdrawal nullifier is a post-close nullifier, unless the
    two hashed word lists are a Keccak collision. *)
Theorem nullifiers_binding {K : Keccak} d p t d' p' t' r :
  (WithdrawalClaim.derive_nullifier d p t = WithdrawalClaim.derive_nullifier d' p' t' ->
     (d = d' /\ p = p' /\ t = t') \/
     keccak_collision (WithdrawalClaim.nullifier_words d p t) (WithdrawalClaim.nullifier_words d' p' t')) /\
  (PostCloseIncomingClaim.derive_shared_native_nullifier d p r
     = PostCloseIncomingClaim.derive_shared_native_nullifier d' p' r ->
     (d = d' /\ p = p') \/
     keccak_collision (PostCloseIncomingClaim.nullifier_words d p r)
       (PostCloseIncomingClaim.nullifier_words d' p' r)) /\
  (WithdrawalClaim.derive_nullifier d p t = PostCloseIncomingClaim.derive_shared_native_nullifier d' p' r ->
     keccak_collision (WithdrawalClaim.nullifier_words d p t) (PostCloseIncomingClaim.nullifier_words d' p' r)).
Proof.
  split_and!.
  - intros [H|H]%hash_words_inj_or; [left; by apply withdrawal_nullifier_words_inj|by right].
  - intros [H|H]%hash_words_inj_or; [left|by right]. by apply post_close_nullifier_words_inj in H as (? & ? & _).
  - intros [H|H]%hash_words_inj_or; [|done]. discriminate H.
Qed.

(** The hash of an inter-channel transaction fixes source, destination,
    token, transaction tree root, sender key, sender delta and receiver delta,
    unless the words hashed for the two transactions contain a collision. *)
Theorem inter_channel_tx_hash_binding {K : Keccak} t t' h :
  tx_typed t -> tx_typed t' ->
  InterChannelTx.compute_tx_hash t = Ok h -> InterChannelTx.compute_tx_hash t' = Ok h ->
  exists r r', head (InterChannelTx.receiver_deltas t) = Some r /\
    head (InterChannelTx.receiver_deltas t') = Some r' /\
    (same_tx_content t t' r r' \/ collision hash_words (tx_queries t r) (tx_queries t' r')).
Proof.
  intros Hty Hty' (r & Hr & Hs & Ha & ->)%compute_tx_hash_Ok (r' & Hr' & Hs' & Ha' & Heq)%compute_tx_hash_Ok; [|done..].
  exists r, r'. split_and!; [done..|].
  destruct (no_collision_or hash_words (tx_queries t r) (tx_queries t' r')) as [Hnc|]; [left|by right].
  by apply tx_top_words_inj.
Qed.

Lemma inter_channel_tx_hash_binding_witness :
  exists r r', head (InterChannelTx.receiver_deltas (toy_tx 8 7)) = Some r /\
    head (InterChannelTx.receiver_deltas (toy_tx 8 7)) = Some r' /\
    (same_tx_content (toy_tx 8 7) (toy_tx 8 7) r r' \/
     collision hash_words (tx_queries (toy_tx 8 7) r) (tx_queries (toy_tx 8 7) r')).
Proof.
  apply (inter_channel_tx_hash_binding (toy_tx 8 7) (toy_tx 8 7) digest_one).
  - by constructor; split.
  - by constructor; split.
  - by apply toy_tx_hash_value; split.
  - by apply toy_tx_hash_value; split.
Defined.

(** The digest a sender signs for an in-channel transfer fixes the channel,
    the previous state, the encrypted amount, the nonce, the token slot and both
    parties, unless the hashed words are a Keccak collision. *)
Theorem channel_tx_digest_binding {K : Keccak} {E} c d ct n t a b c' d' ct' n' t' a' b' h :
  ChannelTx.signing_digest (E := E) c d ct n t a b = Ok h ->
  ChannelTx.signing_digest (E := E) c' d' ct' n' t' a' b' = Ok h ->
  (c = c' /\ d = d' /\ ct = ct' /\ n = n' /\ t = t' /\ a = a' /\ b = b') \/
  keccak_collision (Ct.digest_words ct) (Ct.digest_words ct') \/
  keccak_collision (ChannelTx.signing_words c d (ct_hash ct) n t a b)
    (ChannelTx.signing_words c' d' (ct_hash ct') n' t' a' b').
Proof.
  unfold ChannelTx.signing_digest. intros H H'. simplify_res.
  apply ct_digest_Ok in Hr as [Hok ->], Hr0 as [Hok' ->].
  match goal with H : hash_words _ = hash_words _ |- _ => apply hash_words_inj_or in H as [H|H]; [|by auto] end.
  match goal with H : ChannelTx.signing_words _ _ _ _ _ _ _ = _ |- _ =>
    apply channel_tx_words_inj in H as (? & ? & Hct & ? & ? & ? & ?) end.
  apply hash_words_inj_or in Hct as [Hct|Hct]; [left|by auto].
  apply digest_words_inj in Hct; [|done..]. by split_and!.
Qed.

Lemma channel_tx_digest_binding_witness :
  (7 = 7 /\ digest_one = digest_one /\ ct_a = ct_b /\ digest_one = digest_one /\ 0 = 0 /\
     digest_one = digest_one /\ digest_two = digest_two) \/
  keccak_collision (Ct.digest_words ct_a) (Ct.digest_words ct_b) \/
  keccak_collision (ChannelTx.signing_words 7 digest_one (ct_hash ct_a) digest_one 0 digest_one digest_two)
    (ChannelTx.signing_words 7 digest_one (ct_hash ct_b) digest_one 0 digest_one digest_two).
Proof.
  apply (channel_tx_digest_binding (E := ChannelError) 7 digest_one ct_a digest_one 0 digest_one digest_two
           7 digest_one ct_b digest_one 0 digest_one digest_two digest_one).
  - get digest_one ltac:(apply ct_a_digest). reflexivity.
  - get digest_one ltac:(apply ct_b_digest). reflexivity.
Defined.

(** The close commits to its members: equal member-set commitments mean the
    same member count and the same keys on the member slots, and equal close ids
    mean the same channel, state digest and freeze nonce, unless the hashed words
    are a Keccak collision. *)
Theorem close_commitments_binding {K : Keccak} hs m hs' m' c d n c' d' n' :
  length hs = length hs' -> in_width 64 n -> in_width 64 n' ->
  (close_member_set_commitment hs m = close_member_set_commitment hs' m' ->
     (m = m' /\ take (Z.to_nat m) hs = take (Z.to_nat m) hs') \/
     keccak_collision (close_member_set_words hs m) (close_member_set_words hs' m')) /\
  (close_state_id c d n = close_state_id c' d' n' ->
     (c = c' /\ d = d' /\ n = n') \/
     keccak_collision (close_state_id_words c d n) (close_state_id_words c' d' n')).
Proof.
  intros Hl Hn Hn'. split.
  - intros [H|H]%hash_words_inj_or; [left; by apply close_member_set_words_inj|by right].
  - intros [H|H]%hash_words_inj_or; [left; by apply close_state_id_words_inj|by right].
Qed.

Lemma close_commitments_binding_witness :
  (2 = 2 /\ take 2 [digest_one; digest_two] = take 2 [digest_one; digest_three]) \/
  keccak_collision (close_member_set_words [digest_one; digest_two] 2)
    (close_member_set_words [digest_one; digest_three] 2).
Proof.
  refine (proj1 (close_commitments_binding [digest_one; digest_two] 2 [digest_one; digest_three] 2
                   7 digest_one 0 7 digest_one 1 eq_refl _ _) _); [by split|by split|reflexivity].
Defined.
