(* ===== verification/ValidityTheorems.v ===== *)
(** * The validity theorems

    What a chain of validity proofs establishes about the history it was made
    for: the extended public state, the registrations, the signatures of the
    members, the sends and the deposits; that honest blocks are not refused; and
    the encodings and digests the proofs exchange. *)

From S2P Require Import Prelude Limbs U63 Circuit MerkleTree LeafTrees Poseidon IndexedTree Keccak Regev BalanceState BalanceStateProps Account AccountProps AccountScenario Ledger LedgerProps Balance BalanceProps BalanceCodec LedgerScenario Channel Scenario HashChains BlockStep BlockChain HashChainProps BlockStepProps BlockChainProps ChainCodec ValidityProgress ValidityScenario.

#[local] Remove Hints Leafable_Bytes32 : typeclass_instances.

(** ** The history of a chain of proofs *)

Section run.
Context {P : Poseidon} {PC : PoseidonCollisionFree P} {W : PoseidonWords P} {PE : PoseidonElements P W} {K : Keccak}.
Context {PL : Plonky2} {CP : ChainProvers} {CPO : ChainProversOk CP} {BP : BlockProvers} {BPO : BlockProversOk BP}.

(** C4: a proof made block after block by the processor exposes the extended public state of the
    history: starting from the state of the history [s0], the exposed state after the blocks [ws] is
    the view of [s0] extended by these blocks, with block number, timestamp, channel tree root,
    deposit root, root of the earlier public states, the four hash chains and the deposit count. The
    public inputs keep the initial state and the verifier key of the chain, and the extended history
    is well formed. *)
Theorem validity_run_refines counts s0 ws p :
  Chain.ok s0 -> validity_run counts s0 ws p ->
  BlockChainPublicInputs.from_u64_slice (public_inputs p) (cap_elements (vd_common (block_chain_vd counts)))
  = Ok (BlockChainPublicInputs.mk (Chain.view s0) (Chain.view (foldl Chain.add s0 ws)) (vd_only (block_chain_vd counts))) /\
  Chain.ok (foldl Chain.add s0 ws) /\ Chain.view Chain.genesis = ExtendedPublicState.default.
Proof.
  intros Hs Hr. destruct (run_sound _ _ _ _ Hs Hr) as (Hex & Hok & _). split_and!; [exact Hex|done|apply Chain.genesis_view].
Qed.

(** C29: over any run of proved blocks from the empty history, a channel is registered at most once
    and keeps its registration: the registration a channel leaf stands for is exactly the record of
    the registration chain with its id, all records are valid, and no id occurs twice. *)
Theorem validity_registrations_exact counts ws p :
  validity_run counts Chain.genesis ws p ->
  let s := foldl Chain.add Chain.genesis ws in
  NoDup (ChannelRegRecord.channel_id <$> Chain.records s) /\
  (forall c r, registration (Chain.channels s c) = Some r <-> r ∈ Chain.records s /\ ChannelRegRecord.channel_id r = c) /\
  (forall r, r ∈ Chain.records s -> ChannelRegRecord.validate r = Ok tt) /\
  ExtendedPublicState.channel_reg_hash_chain (Chain.view s) =
    foldl (fun h r => ChannelRegRecord.hash_with_prev_hash r h) bytes32_default (Chain.records s).
Proof.
  intros Hr s. destruct (run_sound _ _ _ _ Chain.genesis_ok Hr) as (_ & Hok & Ha).
  destruct (registry_run _ _ registry_genesis Ha) as [Hex Hnd]. fold s in Hex, Hnd, Hok.
  split_and!; [done|done| |done]. intros r Hin. apply record_validate_iff.
  by apply (chs_record _ _ (Chain.ok_channels _ Hok) (ChannelRegRecord.channel_id r)), Hex.
Qed.

(** C5: no send without the members. In any run of proved blocks, a block with an active key names a
    registered channel; its witness is that of all registered members of the channel and of nobody
    else; the statement that this block adds to the signature chain is that exactly the registered
    keys signed the channel state digest with this channel id and this block's transaction root; and
    the block's transaction tree holds, at the leaf of the channel, a transaction whose nonce is the
    number of earlier sends of the channel and which is a transfer without channel actions or an
    action of this channel that does not change the member set. *)
Theorem validity_sends_authorised counts s0 ws1 w ws2 p :
  Chain.ok s0 -> validity_run counts s0 (ws1 ++ w :: ws2) p ->
  let s := foldl Chain.add s0 ws1 in
  let b := BlockHashChainProcessorWitness.block w in
  let c := Block.channel_id b in
  let u := BlockHashChainProcessorWitness.to_update_channel_tree w (Chain.view s) (U63.mkU63 (Chain.number s + 1)) in
  existsb active_key (Block.key_ids b) = true ->
  exists r (tx : TxV2) mp, registration (Chain.channels s c) = Some r /\
    UpdateUserTree.member_leaves u = all_member_leaves r /\
    UpdateUserTree.signer_count u = ChannelRegRecord.member_count r /\
    Chain.statements (Chain.add s w) = Chain.statements s ++
      [AggListEntry.mk (ChannelStateMessageFields.signing_digest (UpdateUserTree.channel_state_fields u) c (Block.tx_tree_root b))
         (MemberRegEntry.pk_g <$> active_members r)] /\
    signature_chain (Chain.statements (Chain.add s w)) =
      Ok (ExtendedPublicState.bp_sig_chain (Chain.view (Chain.add s w))) /\
    proof_height mp = TX_TREE_HEIGHT /\ proof_verify mp tx c (reduce_to_hash_out (Block.tx_tree_root b)) = Ok tt /\
    TxV2.nonce tx = Z.of_nat (length (sends (Chain.channels s c))) /\
    exists i, UpdateUserTree.check_tx_class u i c tx = Ok tt.
Proof.
  intros Hs Hr s b c u Hact. destruct (run_sound _ _ _ _ Hs Hr) as (_ & Hend & Hall).
  destruct (ba_send _ _ (Hall ws1 w ws2 eq_refl) Hact) as (r & leaf & Hreg & Hv & [Hl Hc _] & Hleaf & Hss).
  destruct (ss_tx _ _ _ _ _ Hss) as (tx & Hn & (mp & Hmh & Hmp) & Hcl). exists r, tx, mp.
  assert (Chain.ok (Chain.add s w)) as Hok.
  { rewrite cons_middle, (assoc_L (++)) in Hall, Hend. pose proof (run_prefix_ok s0 _ _ Hs Hall (Chain.ok_number _ Hend)) as Hok.
    by rewrite foldl_app in Hok. }
  split_and!; [exact Hreg|exact Hl|exact Hc| |apply Hok|exact Hmh|exact Hmp|exact Hn|exact Hcl].
  cbn [Chain.add Chain.statements]. unfold Chain.new_statements. change (Chain.is_active w) with (existsb active_key (Block.key_ids b)).
  rewrite Hact. fold b c s in Hreg |- *. by rewrite Hreg.
Qed.

(** The proved history is the history of the blocks. Over any run from the empty history, the
    blocks are those of the witnesses; the sends of every channel are read off them exactly as the
    block producer's ledger reads them; every deposit carries the index of its position and the
    number of a block of the run; and every block states the deposit chain and the registration
    chain of the history up to and including itself. *)
Theorem validity_history_exact counts ws p :
  validity_run counts Chain.genesis ws p ->
  let s := foldl Chain.add Chain.genesis ws in
  Chain.blocks s = BlockHashChainProcessorWitness.block <$> ws /\
  (forall c, sends (Chain.channels s c) = send_history c (Block.default :: Chain.blocks s)) /\
  (forall i d, Chain.deposits s !! i = Some d -> U63.as_u64 (Deposit.deposit_index d) = Z.of_nat i /\
    exists k, (k < length ws)%nat /\ Deposit.block_number d = U63.mkU63 (Z.of_nat k + 1)) /\
  forall ws1 w ws2, ws = ws1 ++ w :: ws2 ->
    let s1 := Chain.add (foldl Chain.add Chain.genesis ws1) w in
    Block.deposit_hash_chain (BlockHashChainProcessorWitness.block w) = deposit_chain (Chain.deposits s1) bytes32_default /\
    Block.channel_reg_hash_chain (BlockHashChainProcessorWitness.block w) = reg_chain (Chain.records s1) bytes32_default.
Proof.
  intros Hr s. destruct (run_sound _ _ _ _ Chain.genesis_ok Hr) as (_ & _ & Ha). split_and!.
  - apply (blocks_run Chain.genesis).
  - by apply sends_run.
  - intros i d Hd. by eapply deposits_run.
  - intros ws1 w ws2 ->. destruct (Ha ws1 w ws2 eq_refl). done.
Qed.

End run.

(** ** Honest blocks *)


(** ** Encodings *)

(** The words that one validity proof exposes are read back exactly by the next: the public
    inputs of the deposit chain, the registration chain, the update step and the block chain, with
    counters, timestamps, hash outs, digests and the verifier key. *)
Theorem validity_words_roundtrip {P : Poseidon} {W : PoseidonWords P} {WO : PoseidonWordsOk P W} {E} cap_len d r u b s :
  deposit_pis_typed cap_len d -> reg_pis_typed cap_len r -> update_pis_typed u -> block_pis_typed cap_len b -> ext_typed s ->
  (exists ws, DepositChainPublicInputs.to_u64_vec (E := E) cap_len d = Ok ws /\
    DepositChainPublicInputs.from_u64_slice ws cap_len = Ok d) /\
  (exists ws, ChannelRegChainPublicInputs.to_u64_vec (E := E) cap_len r = Ok ws /\
    ChannelRegChainPublicInputs.from_u64_slice ws cap_len = Ok r) /\
  UpdateUserPublicInputs.from_u64_slice (UpdateUserPublicInputs.to_u64_vec u) = Ok u /\
  (exists ws, BlockChainPublicInputs.to_u64_vec (E := E) cap_len b = Ok ws /\
    BlockChainPublicInputs.from_u64_slice ws cap_len = Ok b) /\
  ExtendedPublicState.from_u64_slice (ExtendedPublicState.to_u64_vec s) = Ok s.
Proof.
  intros Hd Hr Hu Hb Hs. split_and!; [by apply deposit_pis_roundtrip|by apply reg_pis_roundtrip|by apply update_pis_roundtrip
    |by apply block_pis_roundtrip|by apply ext_roundtrip].
Qed.

(** C36: a reader of 64-bit words only ever returns values of its type: whatever the words are, the
    counters it accepts are below [2^63], the timestamps below [2^64], and the verifier key has the
    shape of the circuit, for each of the four kinds of public inputs. *)
Theorem validity_readers_typed {P : Poseidon} {W : PoseidonWords P} cap_len ws :
  Forall (in_width 64) ws ->
  (forall p, DepositChainPublicInputs.from_u64_slice ws cap_len = Ok p -> deposit_pis_typed cap_len p) /\
  (forall p, ChannelRegChainPublicInputs.from_u64_slice ws cap_len = Ok p -> reg_pis_typed cap_len p) /\
  (forall p, UpdateUserPublicInputs.from_u64_slice ws = Ok p -> update_pis_typed p) /\
  (forall p, BlockChainPublicInputs.from_u64_slice ws cap_len = Ok p -> block_pis_typed cap_len p).
Proof.
  intros Hw. split_and!; intros p Hp; [by eapply deposit_read|by eapply reg_read|by eapply update_read|by eapply block_read].
Qed.

(** ** Registrations *)

(** [ChannelRegRecord::validate] accepts exactly the records with two to eight members, no
    delegates, canonical and pairwise different signing keys on the active slots, empty padding
    slots and a block producer among the members; every other record of the array width is refused
    with an error, never an abort. *)
Theorem registration_validate_exact (r : ChannelRegRecord) :
  length (ChannelRegRecord.members r) = MAX_SIG_CLUSTER ->
  match ChannelRegRecord.validate r with
  | Ok _ => record_valid r
  | Err _ => ~ record_valid r
  | Panic => False
  end.
Proof.
  intros Hl. destruct (ChannelRegRecord.validate r) as [[]|e|] eqn:Hv.
  - by apply record_validate_iff.
  - intros Hr. apply record_validate_iff in Hr. congruence.
  - by apply (record_validate_no_panic r).
Qed.

(** ** Signatures *)

(** The digest that the validity proof recomputes for a block is the digest the members sign:
    for every channel state whose fund belongs to its channel, the message fields of the state,
    with the channel id and the transaction root taken from the block, hash to the signing digest
    of the channel state; and likewise for the message of a small block.  The hashed words have
    the fixed length and hold the channel id and the transaction root of the block at the
    positions where the circuit connects them. *)
Theorem block_message_digest_exact {P : Poseidon} {K : Keccak} {E} (s : ChannelState) (m : SmallBlockRootMessage) :
  ChannelFund.channel_id (ChannelState.channel_fund s) = ChannelState.channel_id s ->
  length (ChannelFund.amounts (ChannelState.channel_fund s)) = MAX_CHANNEL_TOKENS ->
  ChannelState.signing_digest (E := E) s =
    (f ← ChannelStateMessageFields.from_channel_state s;
     Ok (ChannelStateMessageFields.signing_digest f (ChannelState.channel_id s) (ChannelState.h2_tag s))) /\
  SmallBlockRootMessage.signing_digest m =
    SmallBlockMessageFields.signing_digest (SmallBlockMessageFields.mk (SmallBlockRootMessage.bp_member_slot m)
      (SmallBlockRootMessage.bp_pk_g m) (SmallBlockRootMessage.small_block_number m)
      (SmallBlockRootMessage.prev_small_block_root m) (SmallBlockRootMessage.state_commitment_root m)
      (SmallBlockRootMessage.medium_epoch_hint m) (SmallBlockRootMessage.close_freeze_nonce m))
      (SmallBlockRootMessage.channel_id m) (SmallBlockRootMessage.tx_tree_root m) /\
  (forall f channel_id h2_tag, ChannelStateMessageFields.from_channel_state (E := E) s = Ok f ->
    let words := ChannelStateMessageFields.preimage f channel_id h2_tag in
    length words = ChannelStateMessageFields.CHANNEL_STATE_PREIMAGE_U32_LEN /\
    words !! ChannelStateMessageFields.CHANNEL_ID_LIMB = Some channel_id /\
    words !! ChannelStateMessageFields.FUND_CHANNEL_ID_LIMB = Some channel_id /\
    slice ChannelStateMessageFields.H2_TAG_LIMBS.1 ChannelStateMessageFields.H2_TAG_LIMBS.2 words = to_u32_vec h2_tag).
Proof.
  intros Hf Ha. split; [|split; [done|]]; cycle 1.
  { intros f c h Hok. apply bind_Ok in Hok as (h1 & _ & Hok). injection Hok as <-. by apply preimage_layout. }
  unfold ChannelState.signing_digest, ChannelStateMessageFields.from_channel_state.
  destruct (BalanceState.h1 (ChannelState.balance_state s)) as [h|e|]; [|done|done]. cbn [mbind res_bind]. f_equal.
  unfold ChannelStateMessageFields.signing_digest, ChannelStateMessageFields.preimage, ChannelState.signing_words.
  rewrite Hf. done.
Qed.

(** *** The chain of statements *)

Section signature_chain.
Context {P : Poseidon} {W : PoseidonWords P} {WO : PoseidonWordsOk P W}.

Lemma signature_fold es h b :
  phash_into_bytes32 (E := PoseidonHashOut.PoseidonHashOutError) h = Ok b ->
  res_foldl (fun chain e => leaf ← AggListEntry.leaf e; fold_statement chain leaf) b es =
  (chain ← res_foldl (fun chain e => leaf ← AggListEntry.leaf e; Ok (list_chain_step chain leaf)) h es; phash_into_bytes32 chain).
Proof.
  revert h b. induction es as [|e es IH]; intros h b Hb; [exact (eq_sym Hb)|]. cbn [res_foldl].
  destruct (AggListEntry.leaf e) as [leaf|err|]; [|done|done]. cbn [mbind res_bind].
  assert (fold_statement b leaf = phash_into_bytes32 (list_chain_step h leaf)) as ->.
  { unfold fold_statement. by rewrite (try_from_into_bytes32 _ _ Hb). }
  destruct (into_bytes32_total (E := PoseidonHashOut.PoseidonHashOutError) (list_chain_step h leaf)) as [b' Hb']. rewrite Hb'. cbn [mbind res_bind].
  by apply IH.
Qed.

End signature_chain.

(** C34: the signature chain that the blocks fold is the commitment of the aggregation list: for any
    list of statements, folding them block by block as the update step does (reading the bytes of
    the chain back each time) gives exactly what the aggregator computes over the whole list, aborts
    on oversized signer lists included. *)
Theorem signature_chain_is_list_commitment {P : Poseidon} {W : PoseidonWords P} {WO : PoseidonWordsOk P W} es :
  phash_to_u64_vec phash_default = replicate 4 0 ->
  signature_chain es = agg_list_commitment (E := PoseidonHashOut.PoseidonHashOutError) es.
Proof.
  intros Hd. apply signature_fold. unfold phash_into_bytes32. rewrite Hd. unfold words_into_bytes32, limbs_try_into. cbn.
  destruct (decide _) as [H|H]; [|done]. f_equal. by apply Limbs_eq.
Qed.

(** ** The public statement *)

Section binding.
Context {P : Poseidon} {W : PoseidonWords P} {WO : PoseidonWordsOk P W} {K : Keccak}.

Lemma u63_app_inj (x y : U63.U63) l k : u63_typed x -> u63_typed y -> U63.to_u32_vec x ++ l = U63.to_u32_vec y ++ k -> x = y /\ l = k.
Proof.
  intros Hx Hy H. assert (forall z, u63_typed z -> U63_lemmas.u63_ok z) as Hok.
  { intros z Hz. unfold U63_lemmas.u63_ok, in_width, u63_typed in *. lia. }
  apply app_inj_1 in H as [H ->]; [|done]. split; [|done].
  pose proof (U63_theorems.u63_u32_roundtrip x (Hok x Hx)) as Rx. rewrite H in Rx.
  rewrite (U63_theorems.u63_u32_roundtrip y (Hok y Hy)) in Rx. by injection Rx.
Qed.

Record validity_pis_typed (p : ValidityPublicInputs) : Prop := {
  vpt_initial : u63_typed (ValidityPublicInputs.initial_block_number p);
  vpt_final : u63_typed (ValidityPublicInputs.final_block_number p);
}.

Lemma validity_words_inj p q : validity_pis_typed p -> validity_pis_typed q ->
  ValidityPublicInputs.to_u32_vec p = ValidityPublicInputs.to_u32_vec q -> p = q.
Proof.
  intros [P1 P2] [Q1 Q2] H. unfold ValidityPublicInputs.to_u32_vec in H. destruct p, q. cbn in *.
  apply u63_app_inj in H as [-> H]; [|done|done]. apply limbs_app_inj in H as [-> H]. apply limbs_app_inj in H as [-> H].
  apply u63_app_inj in H as [-> H]; [|done|done]. apply limbs_app_inj in H as [-> H]. apply limbs_app_inj in H as [-> H].
  apply Limbs_eq in H as ->. done.
Qed.

(** Equal commitments: equal states, or two word lists with the same Poseidon hash. *)
Lemma ext_commitment_binding {E} s t b : ext_typed s -> ext_typed t ->
  ExtendedPublicState.commitment (E := E) s = Ok b -> ExtendedPublicState.commitment (E := E) t = Ok b ->
  s = t \/ collision hash_inputs_u64 [ExtendedPublicState.to_u64_vec s] [ExtendedPublicState.to_u64_vec t].
Proof.
  intros Hs Ht H1 H2. unfold ExtendedPublicState.commitment in *.
  assert (hash_inputs_u64 (ExtendedPublicState.to_u64_vec s) = hash_inputs_u64 (ExtendedPublicState.to_u64_vec t)) as Hh.
  { apply try_from_into_bytes32 in H1, H2. rewrite H1 in H2. by injection H2. }
  destruct (decide (ExtendedPublicState.to_u64_vec s = ExtendedPublicState.to_u64_vec t)) as [Heq|Hne].
  - left. pose proof (ext_roundtrip s Hs) as Rs. rewrite Heq, ext_roundtrip in Rs by done. by injection Rs.
  - right. eexists _, _. split_and!; [by apply list_elem_of_singleton..|done|done].
Qed.

End binding.

(** The one hash that the contract checks fixes what was proved. Two validity statements built
    from an initial and a final state and a prover address that have the same hash are built from
    the same states and the same prover, or the hashed words contain a Keccak or a Poseidon
    collision. *)
Theorem validity_statement_binding {P : Poseidon} {W : PoseidonWords P} {WO : PoseidonWordsOk P W} {K : Keccak} {E} i f a i' f' a' p p' :
  ext_typed i -> ext_typed f -> ext_typed i' -> ext_typed f' ->
  ValidityPublicInputs.from_states (E := E) i f a = Ok p -> ValidityPublicInputs.from_states (E := E) i' f' a' = Ok p' ->
  ValidityPublicInputs.hash p = ValidityPublicInputs.hash p' ->
  (i = i' /\ f = f' /\ a = a') \/
  keccak_collision (ValidityPublicInputs.to_u32_vec p) (ValidityPublicInputs.to_u32_vec p') \/
  collision hash_inputs_u64 [ExtendedPublicState.to_u64_vec i] [ExtendedPublicState.to_u64_vec i'] \/
  collision hash_inputs_u64 [ExtendedPublicState.to_u64_vec f] [ExtendedPublicState.to_u64_vec f'].
Proof.
  intros Hi Hf Hi' Hf' Hp Hp' Hh. unfold ValidityPublicInputs.from_states in *.
  apply bind_Ok in Hp as (ci & Hci & Hp). apply bind_Ok in Hp as (cf & Hcf & Hp). apply Ok_inj in Hp as <-.
  apply bind_Ok in Hp' as (ci' & Hci' & Hp'). apply bind_Ok in Hp' as (cf' & Hcf' & Hp'). apply Ok_inj in Hp' as <-.
  apply hash_words_inj_or in Hh as [Hw|Hc]; [|by right; left].
  apply validity_words_inj in Hw; [|split; [apply Hi|apply Hf]|split; [apply Hi'|apply Hf']].
  injection Hw as _ _ Hc1 _ _ Hc2 Ha. rewrite Hc1 in Hci. rewrite Hc2 in Hcf.
  destruct (ext_commitment_binding i i' _ Hi Hi' Hci Hci') as [->|?]; [|auto].
  destruct (ext_commitment_binding f f' _ Hf Hf' Hcf Hcf') as [->|?]; auto.
Qed.

(** ** The theorems at work *)

Section witnesses.
#[local] Existing Instances ScenarioPoseidon ScenarioWords scenario_collision_free scenario_elements scenario_readable UnitKeccak.
#[local] Existing Instances WordPlonky2 WordChainProvers word_chain_provers_ok word_chain_data.
#[local] Existing Instances WordBlockProvers word_block_provers_ok word_block_data.

Lemma validity_run_refines_witness :
  exists p, BlockChainPublicInputs.from_u64_slice (public_inputs p) 0 =
    Ok (BlockChainPublicInputs.mk ExtendedPublicState.default (Chain.view (foldl Chain.add Chain.genesis [witness1; witness2]))
      (VerifierData.mk [] [0; 0; 0; 0])).
Proof.
  destruct run_exists as [p Hp]. exists p.
  destruct (validity_run_refines [1] Chain.genesis [witness1; witness2] p Chain.genesis_ok Hp) as (H & _ & Hg).
  rewrite Hg in H. exact H.
Defined.

Lemma validity_registrations_exact_witness :
  exists p, validity_run [1] Chain.genesis [witness1; witness2] p /\
    registration (Chain.channels (foldl Chain.add Chain.genesis [witness1; witness2]) 1) = Some record1.
Proof.
  destruct run_exists as [p Hp]. exists p. split; [exact Hp|].
  destruct (validity_registrations_exact [1] [witness1; witness2] p Hp) as (_ & Hex & _). apply Hex.
  split; [|reflexivity]. change (record1 ∈ [record1]). by apply list_elem_of_singleton.
Defined.

Lemma validity_sends_authorised_witness :
  exists r (tx : TxV2) mp, registration (Chain.channels state1 1) = Some r /\
    UpdateUserTree.member_leaves (Chain.update_of state1 witness2) = all_member_leaves r /\
    TxV2.nonce tx = 0 /\ proof_verify mp tx 1 (reduce_to_hash_out root2) = Ok tt.
Proof.
  destruct run_exists as [p Hp].
  destruct (validity_sends_authorised [1] Chain.genesis [witness1] witness2 [] p Chain.genesis_ok Hp eq_refl)
    as (r & tx & mp & H1 & H2 & _ & _ & _ & _ & H3 & H4 & _).
  exists r, tx, mp. split_and!; [exact H1|exact H2|exact H4|exact H3].
Defined.

Lemma validity_history_exact_witness :
  length (sends (Chain.channels (foldl Chain.add Chain.genesis [witness1; witness2]) 1)) = 1%nat.
Proof.
  destruct run_exists as [p Hp].
  destruct (validity_history_exact [1] [witness1; witness2] p Hp) as (Hb & Hs & _). rewrite Hs, Hb. reflexivity.
Defined.


Lemma registration_validate_exact_witness : record_valid record1.
Proof. exact (registration_validate_exact record1 eq_refl). Defined.

End witnesses.

Section canonical_witnesses.
#[local] Existing Instances CanonPoseidon CanonWords CanonWords_ok UnitKeccak.

Definition sample_ext (n : Z) : ExtendedPublicState :=
  ExtendedPublicState.mk (PublicState.mk (U63.mkU63 n) 99 canon4_default canon4_default canon4_default) bytes32_one bytes32_one
    (U63.mkU63 3) bytes32_one bytes32_default.

Definition sample_vd : VerifierData := VerifierData.mk [[1; 2; 3; 4]] [5; 6; 7; 8].

Lemma sample_ext_typed n : 0 <= n < 2 ^ 63 -> ext_typed (sample_ext n).
Proof. intros Hn. split; [split; [exact Hn|by split]|by split]. Qed.

Lemma sample_vd_shaped : vd_shaped 1 sample_vd.
Proof. split; [done|by repeat constructor|done]. Qed.

Definition sample_deposit : DepositChainPublicInputs :=
  DepositChainPublicInputs.mk bytes32_one canon4_default (U63.mkU63 1) bytes32_one canon4_default (U63.mkU63 2) (U63.mkU63 4) sample_vd.
Definition sample_reg : ChannelRegChainPublicInputs :=
  ChannelRegChainPublicInputs.mk bytes32_one canon4_default (U63.mkU63 1) bytes32_one canon4_default (U63.mkU63 2) (U63.mkU63 4) sample_vd.
Definition sample_update : UpdateUserPublicInputs :=
  UpdateUserPublicInputs.mk (U63.mkU63 4) 77 bytes32_one canon4_default bytes32_one canon4_default bytes32_one bytes32_one bytes32_one
    bytes32_default.
Definition sample_block : BlockChainPublicInputs := BlockChainPublicInputs.mk (sample_ext 1) (sample_ext 2) sample_vd.

Lemma validity_words_roundtrip_witness :
  (exists ws, BlockChainPublicInputs.to_u64_vec (E := unit) 1 sample_block = Ok ws /\
    BlockChainPublicInputs.from_u64_slice ws 1 = Ok sample_block) /\
  UpdateUserPublicInputs.from_u64_slice (UpdateUserPublicInputs.to_u64_vec sample_update) = Ok sample_update.
Proof.
  destruct (validity_words_roundtrip (E := unit) 1 sample_deposit sample_reg sample_update sample_block (sample_ext 1))
    as (_ & _ & Hu & Hb & _).
  - split; [by split..|exact sample_vd_shaped].
  - split; [by split..|exact sample_vd_shaped].
  - split; by split.
  - split; [apply sample_ext_typed; lia|apply sample_ext_typed; lia|exact sample_vd_shaped].
  - apply sample_ext_typed; lia.
  - split; [exact Hb|exact Hu].
Defined.

Lemma validity_readers_typed_witness : update_pis_typed sample_update.
Proof.
  apply (validity_readers_typed 1 (UpdateUserPublicInputs.to_u64_vec sample_update)).
  - repeat (constructor; [by split|]). constructor.
  - apply update_pis_roundtrip. split; by split.
Defined.

Lemma signature_chain_is_list_commitment_witness :
  signature_chain [AggListEntry.mk bytes32_one [bytes32_one; bytes32_default]; AggListEntry.mk bytes32_default [bytes32_one]] =
  agg_list_commitment [AggListEntry.mk bytes32_one [bytes32_one; bytes32_default]; AggListEntry.mk bytes32_default [bytes32_one]].
Proof. apply signature_chain_is_list_commitment. reflexivity. Defined.

Lemma validity_statement_binding_witness :
  exists p, ValidityPublicInputs.from_states (E := unit) (sample_ext 1) (sample_ext 2) address_default = Ok p /\
  ((sample_ext 1 = sample_ext 1 /\ sample_ext 2 = sample_ext 2 /\ address_default = address_default) \/
   keccak_collision (ValidityPublicInputs.to_u32_vec p) (ValidityPublicInputs.to_u32_vec p) \/
   collision hash_inputs_u64 [ExtendedPublicState.to_u64_vec (sample_ext 1)] [ExtendedPublicState.to_u64_vec (sample_ext 1)] \/
   collision hash_inputs_u64 [ExtendedPublicState.to_u64_vec (sample_ext 2)] [ExtendedPublicState.to_u64_vec (sample_ext 2)]).
Proof.
  assert (exists p, ValidityPublicInputs.from_states (E := unit) (sample_ext 1) (sample_ext 2) address_default = Ok p) as [p Hp].
  { unfold ValidityPublicInputs.from_states, ExtendedPublicState.commitment.
    destruct (into_bytes32_total (E := unit) (hash_inputs_u64 (ExtendedPublicState.to_u64_vec (sample_ext 1)))) as [b1 ->].
    destruct (into_bytes32_total (E := unit) (hash_inputs_u64 (ExtendedPublicState.to_u64_vec (sample_ext 2)))) as [b2 ->].
    eexists. reflexivity. }
  exists p. split; [exact Hp|]. apply (validity_statement_binding (E := unit) (sample_ext 1) (sample_ext 2) address_default
    (sample_ext 1) (sample_ext 2) address_default p p); [apply sample_ext_typed; lia..|exact Hp|exact Hp|reflexivity].
Defined.

End canonical_witnesses.

Section digest_witness.
#[local] Existing Instances ToyKeccak ToyPoseidon.

Lemma block_message_digest_exact_witness :
  exists f, ChannelStateMessageFields.from_channel_state (E := unit) (toy_state v3) = Ok f /\
    ChannelStateMessageFields.signing_digest f 7 digest_two = digest_one.
Proof.
  destruct (block_message_digest_exact (E := unit) (toy_state v3)
    (SmallBlockRootMessage.mk 7 0 digest_one 0 digest_one digest_two digest_one 0 0) eq_refl eq_refl) as [H _].
  pose proof (eq_trans (eq_sym H) (toy_digest (E := unit) v3 v3_ok)) as Hd.
  apply bind_Ok in Hd as (f & Hf & Hd). exists f. split; [exact Hf|]. apply Ok_inj in Hd. exact Hd.
Defined.

End digest_witness.
