(* ===== verification/WithdrawalTheorems.v ===== *)
(** * The withdrawal theorems

    What the final withdrawal proof says: every withdrawal it lists pays out a
    transfer that a channel of the proved history has settled, no account can
    withdraw more than it received, the one public hash fixes the list, and
    honest withdrawals are not refused. *)

From S2P Require Import Prelude Limbs U63 Circuit MerkleTree LeafTrees Poseidon IndexedTree Keccak Regev BalanceState Account AccountProps AccountScenario Ledger LedgerProps Balance BalanceProps BalanceCodec LedgerScenario Channel HashChains BlockStep BlockChain Withdrawal HashChainProps BlockStepProps BlockChainProps ChainCodec WithdrawalProps WithdrawalBacking ValidityProgress WithdrawalProgress ValidityScenario WithdrawalScenario.

#[local] Remove Hints Leafable_Bytes32 : typeclass_instances.
Import SingleWithdawalWitness.

(** ** Settled withdrawals *)

Section settled.
Context {P : Poseidon} {PC : PoseidonCollisionFree P} {W : PoseidonWords P} {PE : PoseidonElements P W}.
Context {PR : PoseidonReadable P W} {NZ : PoseidonNonzero P W} {K : Keccak} {PL : Plonky2}.
Context {CP : ChainProvers} {CPO : ChainProversOk CP} {XP : BlockProvers} {XPO : BlockProversOk XP}.
Context {BP : BalanceProofs} {WP : WithdrawalProvers} {WPO : WithdrawalProversOk WP}.

Notation history ws := (foldl Chain.add Chain.genesis ws).

(** The payment behind a withdrawal: transfer [t] of the [i]-th send of channel [c], settled in block
    [b] of the history. *)
Record settled_by (ws : list BlockHashChainProcessorWitness) (e : SingleWithdawalWitness * Withdrawal) (c : ChannelId)
    (i : nat) (l : SendLeaf) (b : BlockHashChainProcessorWitness) (t : Transfer) : Prop := {
  sb_proof : exists bp, proves (balance_proof e.1) bp /\ BalancePublicInputs.channel_id bp = c;
  sb_send : sends (Chain.channels (history ws) c) !! i = Some l;
  sb_nonce : Tx.nonce (tx e.1) = Z.of_nat i;
  sb_block : sent_in ws c i l b (block_form (tx e.1));
  sb_transfer : proof_verify (TransferWitness.transfer_merkle_proof (transfer_witness e.1)) t
    (TransferWitness.transfer_index (transfer_witness e.1)) (Tx.transfer_tree_root (tx e.1)) = Ok tt;
  sb_recipient : calculate_recipient_from_address (E := RecipientError) (Withdrawal.recipient e.2) = Ok (Transfer.recipient t);
  sb_fields : Withdrawal.token_index e.2 = Transfer.token_index t /\ Withdrawal.amount e.2 = Transfer.amount t /\
    Withdrawal.aux_data e.2 = Transfer.aux_data t;
  sb_nullifier : SettledTransfer.nullifier (E := unit) (SettledTransfer.mk t c
    (TransferWitness.transfer_index (transfer_witness e.1)) (Z.of_nat i)) = Ok (Withdrawal.nullifier e.2);
}.

Lemma run_shaped counts s0 ws p : validity_run counts s0 ws p -> Forall witness_shaped ws /\ ws <> [].
Proof.
  induction 1 as [c w p _ Hw _|c ws p w p' _ [IH _] _ Hw _]; [split; [by constructor|done]|].
  split; [apply Forall_app_2; [done|by constructor]|]. by destruct ws.
Qed.

Lemma run_typed counts ws p : validity_run counts Chain.genesis ws p -> history_typed ws.
Proof.
  intros Hr. destruct (run_sound _ _ _ _ Chain.genesis_ok Hr) as (_ & Hok & _). destruct (run_shaped _ _ _ _ Hr) as [Hs _]. split.
  - pose proof (Chain.ok_number _ Hok) as Hn. rewrite run_number in Hn. change (Chain.number Chain.genesis) with 0 in Hn. lia.
  - eapply Forall_impl; [|exact Hs]. intros w Hw. apply Hw.
Qed.

(** A withdrawal anchored to the state of a proved history is settled in it. *)
Lemma anchored_settled counts ws p e :
  validity_run counts Chain.genesis ws p -> anchored (Chain.public_state (history ws)) e -> exists c i l b t, settled_by ws e c i l b t.
Proof.
  intros Hr (Hsh & [bp Hf] & u & [Hh Ht] & Hv & Hnew & Hold).
  destruct (run_typed _ _ _ Hr) as [Hlen Htime]. destruct (run_shaped _ _ _ _ Hr) as [_ Hne].
  destruct (run_sound _ _ _ _ Chain.genesis_ok Hr) as (_ & _ & Ha).
  destruct (update_recorded ws u Htime Hh Ht Hne Hlen Hnew Hv) as (m & Hm & Hst). rewrite Hold in Hst.
  destruct (single_settled (take m ws) e.1 bp e.2 (all_accepted_take m ws Ha) Hsh Hf) as (i & l & b & Hl & Hn & Hin); [by rewrite Hst|].
  exists (BalancePublicInputs.channel_id bp), i, l, b, (TransferWitness.transfer (transfer_witness e.1)).
  destruct Hf as [Hb _ _ Htr _ _ _ _ Hrec Hnf Hfs]. split; try done; [by exists bp| |by eapply sent_in_take| |].
  - rewrite <- (take_drop m ws) in Ha |- *. eapply prefix_lookup_Some; [exact Hl|]. by apply sends_prefix.
  - pose proof (extract_address_spec (Transfer.recipient (TransferWitness.transfer (transfer_witness e.1)))) as Hx. by rewrite Hrec in Hx.
  - by rewrite <- Hn.
Qed.

(** C6: a final withdrawal proof is about settled transfers. Let blocks be proved from the empty
    history, and withdrawals be proved one after the other and closed by [prove_final] against the
    extended state of that history. Then the public inputs are the hash of the withdrawal chain, the
    prover, the commitment of that state and its block number, followed by the commitment and the
    number; and every withdrawal in the chain pays exactly a transfer (recipient, token, amount,
    auxiliary data and nullifier) of the transaction that the channel of its balance proof put in
    the block of that nonce, where the transaction is authorised as every send is. *)
Theorem withdrawal_proof_settled counts ws p ds q prover fin :
  validity_run counts Chain.genesis ws p -> withdrawal_run ds q ->
  WithdrawalCircuit.prove_final q prover (Chain.view (history ws)) = Ok fin ->
  exists commitment h,
    ExtendedPublicState.commitment (E := WithdrawalCircuitError) (Chain.view (history ws)) = Ok commitment /\
    WithdrawalProofPublicInputs.hash (E := WithdrawalCircuitError) (WithdrawalProofPublicInputs.mk (withdrawal_chain ds.*2) prover
      commitment (U63.mkU63 (Z.of_nat (length ws)))) = Ok h /\
    public_inputs fin = Limbs.to_u64_vec h ++ Limbs.to_u64_vec commitment ++ U63.to_u64_vec (U63.mkU63 (Z.of_nat (length ws))) /\
    forall e, e ∈ ds -> exists c i l b t, settled_by ws e c i l b t.
Proof.
  intros Hr Hds Hfin. unfold WithdrawalCircuit.prove_final in Hfin. apply map_err_Ok in Hfin.
  apply bind_Ok in Hfin as (inputs & Hin & Hfin). apply ok_or_Ok in Hfin. apply withdrawal_exposes in Hfin.
  destruct (withdrawal_run_sound _ _ Hds) as (ps & Hex & Hall). unfold exposes_withdrawals in Hex.
  apply bind_Ok in Hin as ([] & _ & Hin). apply bind_Ok in Hin as (wh & Hwh%map_err_Ok & Hin).
  apply bind_Ok in Hin as ([] & Hs%ensure_Ok & Hin). apply bool_decide_eq_true_1 in Hs.
  apply bind_Ok in Hin as (cm & Hcm & Hin). apply bind_Ok in Hin as (h & Hh & Hin). apply Ok_inj in Hin as <-.
  pose proof (history_state_typed ws (run_typed _ _ _ Hr)) as Hty.
  unfold WithdrawalStepPublicInputs.from_u64_slice in Hex. case_bool_decide; [done|].
  rewrite Hwh in Hex. cbn [map_err mbind res_bind] in Hex. rewrite Hs, public_state_roundtrip in Hex by exact Hty.
  cbn [map_err mbind res_bind] in Hex. apply bind_Ok in Hex as (vd & _ & Hex). injection Hex as -> <- _.
  assert (PublicState.block_number (ExtendedPublicState.inner (Chain.view (history ws))) = U63.mkU63 (Z.of_nat (length ws))) as Hn.
  { cbn [Chain.view ExtendedPublicState.inner Chain.public_state PublicState.block_number]. by rewrite run_number. }
  rewrite Hn in Hh, Hfin. exists cm, h. split_and!; [exact Hcm|exact Hh|exact Hfin|].
  intros e He. rewrite List.Forall_forall in Hall. apply list_elem_of_In in He. eapply anchored_settled; [exact Hr|]. by apply Hall.
Qed.

End settled.

(** ** Covered withdrawals *)

(** C7: no account withdraws more than it received. Over a run of an account from its empty state,
    for any withdrawals accepted against states that the account had during the run and with
    pairwise different nullifiers, what they pay out of a token plus the balance that the account
    still holds is at most what it received of that token. *)
Theorem withdrawals_covered {P : Poseidon} {PC : PoseidonCollisionFree P} {W : PoseidonWords P} {PE : PoseidonElements P W}
    {NZ : PoseidonNonzero P W} {K : Keccak} {BP : BalanceProofs} {PL : Plonky2} {WP : WithdrawalProvers} c s0 evs s ws token :
  account_run s0 evs s -> commits s0 genesis_ledger -> Forall (from_account c s0 evs) ws ->
  NoDup (Withdrawal.nullifier <$> ws.*2) ->
  exists l, commits s l /\ withdrawn token ws.*2 + balance_of (assets l) token <= total_received token evs.
Proof.
  intros Hrun Hg Hws Hnd. destruct (account_run_refines _ _ _ Hrun _ Hg) as (l & Hl & Hb & _). exists l. split; [exact Hl|].
  rewrite Hb, total_flow_split. pose proof (withdrawn_le_spent c s0 evs ws token Hg Hws Hnd).
  change (balance_of (assets genesis_ledger) token) with 0. lia.
Qed.

(** ** The public statement *)

Section statement.
Context {K : Keccak}.

(** The words that the chain of a list of withdrawals hashes. *)
Definition withdrawal_inputs (ds : list Withdrawal) : list (list Z) :=
  chain_inputs (fun d h => to_u32_vec h ++ Withdrawal.to_u32_vec d) ds bytes32_default.

Lemma withdrawal_words_inj d d' : Withdrawal.to_u32_vec d = Withdrawal.to_u32_vec d' -> d = d'.
Proof.
  intros H. pose proof (withdrawal_u32_roundtrip d) as Hd. rewrite H, withdrawal_u32_roundtrip in Hd. by injection Hd.
Qed.

Lemma withdrawal_chain_binding ds ds' : withdrawal_chain ds = withdrawal_chain ds' ->
  ds = ds' \/ chain_broken (withdrawal_inputs ds) (withdrawal_inputs ds').
Proof.
  intros H. destruct (hash_chain_binding (fun d h => to_u32_vec h ++ Withdrawal.to_u32_vec d) (fun _ => True) eq ds ds') as [He|];
    [|by apply Forall_true..|exact H| |by right].
  - intros a b h h' _ _ Hw. apply limbs_app_inj in Hw as [-> Hw]. split; [by apply withdrawal_words_inj|done].
  - left. by apply list_eq_Forall2.
Qed.

(** The digest of the statement: Keccak without its three highest bits. *)
Definition statement_hash (words : list Z) : res unit Bytes32 := remove_3bits (hash_words words).

(** The one hash that the contract checks fixes the withdrawals. Two statements with the same
    hash have the same list of withdrawals in the same order, the same prover, the same state
    commitment and the same block number, or the words hashed for them contain a collision of the
    truncated Keccak digest, a collision in the chain or a preimage of its zero start value. *)
Theorem withdrawal_statement_binding ds a cm n ds' a' cm' n' h :
  u63_typed n -> u63_typed n' ->
  let p := WithdrawalProofPublicInputs.mk (withdrawal_chain ds) a cm n in
  let p' := WithdrawalProofPublicInputs.mk (withdrawal_chain ds') a' cm' n' in
  WithdrawalProofPublicInputs.hash (E := unit) p = Ok h -> WithdrawalProofPublicInputs.hash (E := unit) p' = Ok h ->
  (ds = ds' /\ a = a' /\ cm = cm' /\ n = n') \/
  collision statement_hash [WithdrawalProofPublicInputs.to_u32_vec p] [WithdrawalProofPublicInputs.to_u32_vec p'] \/
  chain_broken (withdrawal_inputs ds) (withdrawal_inputs ds').
Proof.
  intros Hn Hn' p p' Hp Hp'.
  destruct (decide (WithdrawalProofPublicInputs.to_u32_vec p = WithdrawalProofPublicInputs.to_u32_vec p')) as [Heq|Hne].
  - assert (p = p') as Hpp.
    { pose proof (proof_pis_roundtrip p Hn) as Hr. rewrite Heq, proof_pis_roundtrip in Hr by done. symmetry. by apply Ok_inj in Hr. }
    injection Hpp as Hc -> -> ->. destruct (withdrawal_chain_binding ds ds' Hc) as [->|Hb]; [by left|by right; right].
  - right. left. eexists _, _. split_and!; [by apply list_elem_of_singleton..|exact Hne|]. unfold statement_hash.
    unfold WithdrawalProofPublicInputs.hash in Hp, Hp'. exact (eq_trans Hp (eq_sym Hp')).
Qed.

End statement.

(** ** Words *)

(** The words of the withdrawal proofs are read back exactly: a withdrawal, the public inputs of a
    single withdrawal, of a step of the chain and of the final statement. *)
Theorem withdrawal_words_roundtrip {P : Poseidon} {W : PoseidonWords P} {PR : PoseidonReadable P W} {E} cap_len d s p f :
  withdrawal_typed d -> single_pis_typed s -> step_pis_typed cap_len p ->
  u63_typed (WithdrawalProofPublicInputs.block_number f) ->
  Withdrawal.from_u64_slice (Withdrawal.to_u32_vec d) = Ok d /\
  SingleWithdawalPublicInputs.from_u64_slice (SingleWithdawalPublicInputs.to_u64_vec s) = Ok s /\
  (exists ws, WithdrawalStepPublicInputs.to_u64_vec (E := E) cap_len p = Ok ws /\
    WithdrawalStepPublicInputs.from_u64_slice ws cap_len = Ok p) /\
  WithdrawalProofPublicInputs.from_u32_slice (WithdrawalProofPublicInputs.to_u32_vec f) = Ok f.
Proof.
  intros Hd Hs Hp Hf. split_and!; [by apply withdrawal_u64_roundtrip|by apply single_pis_roundtrip| |by apply proof_pis_roundtrip].
  destruct (step_pis_roundtrip (E := E) cap_len p Hp) as (ws & ? & ? & _). by exists ws.
Qed.

Lemma withdrawal_oversized words :
  existsb (fun x => 2 ^ 32 <=? x) words = true -> Withdrawal.from_u64_slice words = Err InvalidData.
Proof.
  intros H. unfold Withdrawal.from_u64_slice.
  assert (res_mapM (fun x => if x <? 2 ^ 32 then Ok x else Err InvalidData) words = Err InvalidData) as ->; [|done].
  induction words as [|x l IH]; [done|]. cbn [existsb] in H. cbn [res_mapM]. destruct (Z.ltb_spec x (2 ^ 32)) as [Hx|Hx]; [|done].
  cbn [mbind res_bind]. rewrite (proj2 (Z.leb_gt _ _)) in H by lia. by rewrite IH.
Qed.

(** On a word that does not fit 32 bits the two readers of 64-bit words differ: the reader of a
    withdrawal returns an error, whatever the length, while the reader of the final statement aborts
    on a list of the right length. *)
Theorem withdrawal_readers_oversized words :
  Forall (in_width 64) words -> existsb (fun x => 2 ^ 32 <=? x) words = true ->
  Withdrawal.from_u64_slice words = Err InvalidData /\
  WithdrawalProofPublicInputs.from_u64_slice words =
    if bool_decide (length words = WITHDRAWAL_PROOF_PUBLIC_INPUTS_LEN) then Panic else Err WithdrawalInvalidPublicInputs.
Proof.
  intros Hw Hx. split; [by apply withdrawal_oversized|]. rewrite proof_pis_read_u64 by done.
  destruct (decide (length words = WITHDRAWAL_PROOF_PUBLIC_INPUTS_LEN)) as [Hl|Hl].
  - rewrite bool_decide_eq_false_2, bool_decide_eq_true_2 by (done || by intros []).
    replace (forallb _ words) with false; [done|]. symmetry. revert Hx. clear. induction words as [|x l IH]; [done|].
    cbn [existsb forallb]. intros [Hx|Hx]%orb_true_iff; [|by rewrite IH, andb_false_r]. apply Z.leb_le in Hx.
    by rewrite (proj2 (Z.ltb_ge _ _)).
  - by rewrite bool_decide_eq_true_2, bool_decide_eq_false_2.
Qed.

(** ** Honest withdrawals *)

(** C31: settled transfers to an address are never refused. Take blocks proved from the empty history
    and claims for transfers that were spent by an account, included in a send of that history and
    sent to an address, at states of the history that may differ. The native checks accept the single
    withdrawal of every claim, with exactly its transfer and nullifier. Its proof, if it verifies,
    extends by this withdrawal every verified chain at the final state, and the chain so far that
    verifies is accepted by the final proof. Nothing aborts, and the only errors are those of a
    circuit that gave no proof for public inputs that the native code computed. *)
Theorem honest_withdrawals_not_refused {P : Poseidon} {PC : PoseidonCollisionFree P} {W : PoseidonWords P} {PE : PoseidonElements P W}
    {PR : PoseidonReadable P W} {K : Keccak} {PL : Plonky2} {CP : ChainProvers} {CPO : ChainProversOk CP} {XP : BlockProvers}
    {XPO : BlockProversOk XP} {BP : BalanceProofs} {WP : WithdrawalProvers} {WPO : WithdrawalProversOk WP}
    {WDO : WithdrawalDataOk WP} counts ws p : validity_run counts Chain.genesis ws p ->
  (forall e, claim_ok ws e -> exists d, pays e d /\ single_to_public_inputs (claim_witness ws e) = Ok (claim_statement ws e d) /\
    match single_prove (claim_witness ws e) with
    | Ok sp => exposes_single sp (claim_statement ws e d)
    | Err err => single_failure (claim_witness ws e) err
    | Panic => False
    end) /\
  (forall e d sp ds prev, claim_ok ws e -> vd_verify single_withdrawal_vd sp = true -> exposes_single sp (claim_statement ws e d) ->
    resumes_withdrawals ws ds prev -> let w := WithdrawalStepWitness.mk prev sp (chain_update ws (cl_at e)) in
    match withdrawal_prove_step w with
    | Ok q => vd_verify withdrawal_chain_vd q = true -> cyclic_check withdrawal_chain_vd q = true -> chain_at ws (ds ++ [d]) q
    | Err err => step_failure w err
    | Panic => False
    end) /\
  (forall ds q prover, chain_at ws ds q -> let s := Chain.view (foldl Chain.add Chain.genesis ws) in
    match WithdrawalCircuit.prove_final q prover s with
    | Ok fin => WithdrawalCircuit.registered_inputs q prover s = Ok (public_inputs fin)
    | Err err => final_failure q prover s err
    | Panic => False
    end).
Proof.
  intros Hr. pose proof (run_typed _ _ _ Hr) as Ht. split; [intros e He; by apply claim_outcome|]. split.
  - intros e d sp ds prev [Hm _] Hv Hex Hprev. exact (step_outcome ws ds prev sp _ (cl_at e) Ht Hm Hprev Hv Hex eq_refl).
  - intros ds q prover Hc. exact (final_outcome ws ds q prover Hc).
Qed.

(** ** The theorems at work *)

Section witnesses.
#[local] Existing Instances ScenarioPoseidon ScenarioWords scenario_collision_free scenario_elements scenario_readable scenario_nonzero.
#[local] Existing Instances UnitKeccak WordPlonky2 WordChainProvers word_chain_provers_ok WordBlockProvers word_block_provers_ok.
#[local] Existing Instances WordProofs WordWithdrawalProvers word_withdrawal_provers_ok word_withdrawal_data.

Lemma withdrawal_proof_settled_witness :
  exists e c i l b t, settled_by blocks2 e c i l b t /\ val (Withdrawal.amount e.2) = 5.
Proof.
  destruct run_exists as [p Hp].
  destruct scenario_withdrawal as (s0 & tx & s & l & pis & q & fin & _ & _ & _ & _ & _ & (n & Hd & _) & Hq & Hfin).
  destruct (withdrawal_proof_settled [1] blocks2 p _ q payee_address fin Hp Hq Hfin) as (_ & _ & _ & _ & _ & Hall).
  destruct (Hall _ ltac:(by apply list_elem_of_singleton)) as (c & i & lf & b & t & Hs).
  eexists _, c, i, lf, b, t. split; [exact Hs|]. cbn [snd]. rewrite Hd. reflexivity.
Defined.

Lemma withdrawals_covered_witness :
  exists s l ds, commits s l /\ withdrawn 0 ds = 5 /\ withdrawn 0 ds + balance_of (assets l) 0 <= 7.
Proof.
  destruct scenario_withdrawal as (s0 & tx & s & l & pis & q & fin & Hg & Hrun & Hacc & Hsh & Hpis & (n & Hd & _) & _).
  set (e := (claim_witness blocks2 (claim2 s l), SingleWithdawalPublicInputs.withdrawal pis)).
  destruct (withdrawals_covered 1 s0 _ s [e] 0 Hrun Hg) as (l' & Hl' & Hle).
  - constructor; [|constructor]. split; [exact Hsh|]. split; [by exists pis|].
    exists [Received 0 amount_seven nullifier_one; Spent (batch payee) tx], s. split_and!; [done|exact Hrun|exact Hacc].
  - apply NoDup_singleton.
  - exists s, l', [e.2]. split; [exact Hl'|]. split; [|exact Hle]. cbn [e snd]. rewrite Hd. reflexivity.
Defined.

Lemma honest_withdrawals_not_refused_witness :
  exists e d sp q fin, claim_ok blocks2 e /\ pays e d /\ single_prove (claim_witness blocks2 e) = Ok sp /\
    withdrawal_prove_step (WithdrawalStepWitness.mk None sp (chain_update blocks2 2)) = Ok q /\ chain_at blocks2 [d] q /\
    WithdrawalCircuit.prove_final q payee_address (Chain.view (foldl Chain.add Chain.genesis blocks2)) = Ok fin.
Proof.
  destruct run_exists as [p Hp]. destruct scenario_account as (s0 & tx & s & l & _ & _ & _ & Hok & _).
  destruct (honest_withdrawals_not_refused [1] blocks2 p Hp) as (Hsingle & Hstep & Hfinal).
  destruct (Hsingle _ Hok) as (d & Hpay & _ & Hs). destruct (single_prove _) as [sp|e|] eqn:Hsp; [|exfalso; exact (word_single_proves _ _ Hs)|destruct Hs].
  pose proof (Hstep _ d sp [] None Hok eq_refl Hs eq_refl) as Hq. cbv zeta in Hq. change (cl_at (claim2 s l)) with 2%nat in Hq.
  destruct (withdrawal_prove_step _) as [q|e|] eqn:Hqe; [|exfalso; exact (word_step_proves _ _ Hq)|destruct Hq]. specialize (Hq eq_refl eq_refl).
  pose proof (Hfinal _ q payee_address Hq) as Hf. cbv zeta in Hf.
  destruct (WithdrawalCircuit.prove_final _ _ _) as [fin|e|] eqn:Hfin; [|exfalso; exact (word_final_proves _ _ _ _ Hf)|destruct Hf].
  exists (claim2 s l), d, sp, q, fin. exact (conj Hok (conj Hpay (conj Hsp (conj Hqe (conj Hq Hfin))))).
Defined.

Definition sample_withdrawal : Withdrawal := Withdrawal.mk payee_address 0 amount_five bytes32_one bytes32_default.

Lemma withdrawal_statement_binding_witness :
  let statement ds := WithdrawalProofPublicInputs.to_u32_vec
    (WithdrawalProofPublicInputs.mk (withdrawal_chain ds) payee_address bytes32_one (U63.mkU63 2)) in
  collision statement_hash [statement []] [statement [sample_withdrawal]] \/
  chain_broken (withdrawal_inputs []) (withdrawal_inputs [sample_withdrawal]).
Proof.
  destruct (withdrawal_statement_binding [] payee_address bytes32_one (U63.mkU63 2) [sample_withdrawal] payee_address bytes32_one
    (U63.mkU63 2) bytes32_one) as [(H & _)|H].
  - split; reflexivity || discriminate.
  - split; reflexivity || discriminate.
  - vm_compute. reflexivity.
  - vm_compute. reflexivity.
  - discriminate H.
  - exact H.
Defined.

End witnesses.

Section word_witnesses.
#[local] Existing Instances CanonPoseidon CanonWords CanonWords_ok.

Definition sample_state : PublicState := PublicState.mk (U63.mkU63 2) 20 canon4_default canon4_default canon4_default.

Lemma withdrawal_words_roundtrip_witness :
  exists ws, WithdrawalStepPublicInputs.to_u64_vec (E := unit) 0
      (WithdrawalStepPublicInputs.mk bytes32_one sample_state (VerifierData.mk [] [0; 0; 0; 0])) = Ok ws /\
    WithdrawalStepPublicInputs.from_u64_slice ws 0
      = Ok (WithdrawalStepPublicInputs.mk bytes32_one sample_state (VerifierData.mk [] [0; 0; 0; 0])).
Proof.
  assert (public_state_typed sample_state) as Hs by (split; split; reflexivity || discriminate).
  destruct (withdrawal_words_roundtrip (E := unit) 0 sample_withdrawal (SingleWithdawalPublicInputs.mk sample_state sample_withdrawal)
    (WithdrawalStepPublicInputs.mk bytes32_one sample_state (VerifierData.mk [] [0; 0; 0; 0]))
    (WithdrawalProofPublicInputs.mk bytes32_one payee_address bytes32_one (U63.mkU63 2))) as (_ & _ & H & _).
  - split; reflexivity || discriminate.
  - split; [exact Hs|split; reflexivity || discriminate].
  - split; [exact Hs|exact word_vd_shaped].
  - split; reflexivity || discriminate.
  - exact H.
Defined.

Lemma withdrawal_readers_oversized_witness :
  WithdrawalProofPublicInputs.from_u64_slice (replicate 22 0 ++ [2 ^ 32]) = Panic.
Proof.
  destruct (withdrawal_readers_oversized (replicate 22 0 ++ [2 ^ 32])) as [_ H].
  - repeat constructor; reflexivity || discriminate.
  - reflexivity.
  - exact H.
Defined.

End word_witnesses.
