(* ===== verification/FundingTheorems.v ===== *)
(** * The credit and close-funding theorems

    A signer's upper bounds on hidden balances stay true over every run of
    authenticated transitions and refuse a credit that could overflow; a
    close-funding plan pays the whole fund to the manager, in an accepted plan
    and in every withdrawal of it. *)

From S2P Require Import Prelude Limbs U63 Circuit MerkleTree LeafTrees Poseidon IndexedTree Keccak Regev BalanceState BalanceStateProps Account AccountProps AccountScenario Ledger LedgerProps Balance BalanceProps BalanceCodec LedgerScenario Channel ChannelProps StateUpdate StateUpdateProps ChannelRun Scenario CreditSafety CreditSafetyProps HashChains BlockStep CloseFunding BlockChain Withdrawal HashChainProps BlockStepProps CloseFundingProps BlockChainProps ChainCodec WithdrawalProps WithdrawalBacking ValidityProgress WithdrawalProgress ValidityScenario WithdrawalScenario FundingScenario.

#[local] Remove Hints Leafable_Bytes32 : typeclass_instances.
Import ChannelCreditBounds.

(** ** Credit bounds *)

(** C20: credit bounds are sound. Let [plain] say what each ciphertext holds, and let a signer derive
    bounds from a start and over any authenticated transitions that conserve the tokens. Then the
    bounds are valid for the current state and every known bound is one on the hidden balance; the
    next advance never aborts, and when it accepts, the new bounds continue the run and every
    active cell it changed holds less than 2^64; and a public credit that [can_credit] allows
    leaves the cell below 2^64. *)
Theorem credit_bounds_safe plain s b :
  credit_run plain s b ->
  validate_for b s = Ok tt /\ bounds_sound plain b s /\
  (forall next owned, arrays next -> backed plain next -> conserves plain s next -> opens plain next owned ->
    advance_authenticated b s next owned <> Panic /\
    forall b', advance_authenticated b s next owned = Ok b' -> credit_run plain next b' /\
      forall slot token, (slot < active_of next)%nat -> (token < tokens_of next)%nat -> chg s next token slot = true ->
        value plain next token slot < 2 ^ 64) /\
  (forall slot token amount owned, (forall v, owned = Some v -> v = value plain s token slot) ->
    can_credit b s slot token amount owned <> Panic /\
    (can_credit b s slot token amount owned = Ok tt -> value plain s token slot + amount < 2 ^ 64)).
Proof.
  intros Hrun. destruct (credit_run_sound plain s b Hrun) as (Ha & Hb & Hv & Hr & Hs). split; [done|]. split; [done|]. split.
  - intros next owned Han Hbn Hc Ho. split; [by apply advance_no_panic|]. intros b' H. split; [by eapply credit_step|].
    by apply (advance_sound plain b s next owned b').
  - intros slot token amount owned Ho. split; [by apply can_credit_no_panic|]. intros H. by apply (can_credit_sound plain b s slot token amount owned).
Qed.

(** The bounds do not get in the way. From any run, a well-formed successor in the same channel
    that keeps the registry, links to the state and changes only cells of claimable shape whose
    token fund fits 64 bits is accepted without any plaintext. *)
Theorem credit_advance_progress plain s b next :
  credit_run plain s b -> arrays next -> checked_layout next = Ok (active_of next, tokens_of next) ->
  ChannelState.channel_id next = ChannelState.channel_id s -> ChannelState.prev_digest next = ChannelState.digest s ->
  (tokens_of s <= tokens_of next)%nat ->
  take (tokens_of s) (BalanceState.token_registry (ChannelState.balance_state next))
    = take (tokens_of s) (BalanceState.token_registry (ChannelState.balance_state s)) ->
  (forall slot token ct, (slot < active_of next)%nat -> (token < tokens_of next)%nat -> chg s next token slot = true ->
    ciphertext_at (E := CreditSafetyError) next slot token = Ok ct -> Ct.validate_balance_exit_shape ct = Ok tt) ->
  (forall slot token a, (slot < active_of next)%nat -> (token < tokens_of next)%nat -> chg s next token slot = true ->
    ChannelFund.amounts (ChannelState.channel_fund next) !! token = Some a -> val a < 2 ^ 64) ->
  exists b', advance_authenticated b s next [] = Ok b'.
Proof. intros Hrun. destruct (credit_run_sound plain s b Hrun) as (Ha & _ & Hv & Hr & _). intros. by apply advance_progress. Qed.

(** ** Close funding *)

(** C19: a close-funding proposal is built exactly for the heads that can be funded: a valid state
    whose ids agree, whose digest is its own and whose transaction tag is empty, a nonzero rollup
    and manager, no fund outside the registered tokens, some fund inside, and counters below their
    maximum; any other head is refused without an abort. The plan's transfers pay the manager, for
    every registered token, exactly the fund of that token and nothing of any other token, in
    registry order; its transaction and inclusion proof are those of these transfers; and the
    proposed state is the head with only the counters, the settled chain, the previous digest, the
    tag, the digest and the signatures changed. *)
Theorem close_funding_exact {P : Poseidon} {W : PoseidonWords P} {PR : PoseidonReadable P W} {K : Keccak} head chain_id rollup manager base_nonce :
  state_words_typed head -> in_width 32 (ChannelState.channel_id head) ->
  match build_close_funding_proposal head chain_id rollup manager base_nonce with
  | Ok p => fundable head rollup manager /\ funding head chain_id rollup manager base_nonce p
  | Err _ => ~ fundable head rollup manager
  | Panic => False
  end.
Proof. apply build_spec. Qed.

(** The rebuild check is complete and sound. A built proposal is accepted with any signatures;
    and an accepted plan is the one built from the head except for its inclusion proof, which
    verifies against the plan's root, while the signed state is the built child up to its
    signatures, or the words hashed for the two exhibit a collision. *)
Theorem close_funding_gate {P : Poseidon} {W : PoseidonWords P} {WO : PoseidonWordsOk P W} {K : Keccak} prev :
  state_words_typed prev -> in_width 32 (ChannelState.channel_id prev) ->
  (forall chain_id rollup manager base_nonce p sigs, build_close_funding_proposal prev chain_id rollup manager base_nonce = Ok p ->
    verify_close_funding_proposal prev (ChannelState.with_signatures (CloseFundingProposal.proposed_state p) sigs)
      (CloseFundingProposal.plan p) = Ok tt) /\
  (forall signed plan, state_words_typed signed -> valid (ChannelState.balance_state signed) ->
    verify_close_funding_proposal prev signed plan = Ok tt ->
    exists p, build_close_funding_proposal prev (CloseFundingPlan.chain_id plan) (CloseFundingPlan.rollup plan) (CloseFundingPlan.manager plan)
        (CloseFundingPlan.base_nonce plan) = Ok p /\
      plan = with_proof (CloseFundingProposal.plan p) (CloseFundingPlan.tx_v2_merkle_proof plan) /\
      (exists root, phash_into_bytes32 (E := CloseFundingError) root = Ok (CloseFundingPlan.tx_tree_root plan) /\
        proof_verify (CloseFundingPlan.tx_v2_merkle_proof plan) (CloseFundingPlan.tx_v2 plan) (ChannelState.channel_id prev) root = Ok tt) /\
      (ChannelState.with_signatures signed [] = CloseFundingProposal.proposed_state p \/
       digest_collision (CloseFundingProposal.proposed_state p) signed)).
Proof.
  intros Hty Hid. split; [intros; by eapply built_verifies|]. intros signed plan Hts Hv H. by apply verify_sound.
Qed.

(** ** Withdrawals of a plan *)

Section withdrawals.
Context {P : Poseidon} {PC : PoseidonCollisionFree P} {W : PoseidonWords P} {PE : PoseidonElements P W}.
Context {PR : PoseidonReadable P W} {NZ : PoseidonNonzero P W} {K : Keccak} {PL : Plonky2}.
Context {BP : BalanceProofs} {WP : WithdrawalProvers} {WPO : WithdrawalProversOk WP}.

Lemma default_recipient : extract_address_from_recipient (Transfer.recipient Transfer.default) = Err InvalidRecipient.
Proof. vm_compute. reflexivity. Qed.

(** A withdrawal of a transaction whose batch pays a fund pays one entry of the fund. *)
Lemma single_pays_fund head manager aux ts w bp d :
  pays_fund head manager aux ts -> single_shaped w -> single_facts w bp d ->
  Tx.transfer_tree_root (SingleWithdawalWitness.tx w) = subtree (list_leaves ts) TRANSFER_TREE_HEIGHT 0 ->
  Withdrawal.recipient d = manager /\ Withdrawal.aux_data d = aux /\
  exists slot, (slot < active_tokens (ChannelState.balance_state head))%nat /\
    BalanceState.token_registry (ChannelState.balance_state head) !! slot = Some (Withdrawal.token_index d) /\
    ChannelFund.amounts (ChannelState.channel_fund head) !! slot = Some (Withdrawal.amount d).
Proof.
  intros Hp Hsh Hf Hroot. pose proof (wf_transfer _ _ _ Hf) as Ht. pose proof (wf_recipient _ _ _ Hf) as Hrec.
  destruct (wf_fields _ _ _ Hf) as (-> & -> & ->).
  destruct (list_proof_leaf (V := Transfer) ts TRANSFER_TREE_HEIGHT _ _ _ _ tt Hroot (wh_transfer _ Hsh) (in_width_32_64 _ (wh_index _ Hsh)) Ht) as [_ Hl].
  set (t := TransferWitness.transfer _) in *. destruct (ts !! _) as [t'|] eqn:Hlk; cbn [default] in Hl.
  - assert (t ∈ ts) as Hin by (rewrite Hl; by eapply list_elem_of_lookup_2). destruct (pf_each _ _ _ _ Hp t Hin) as (Hm & Haux & _ & Hslot).
    rewrite Hm in Hrec. injection Hrec as ->. done.
  - exfalso. rewrite Hl in Hrec. change (extract_address_from_recipient (Transfer.recipient Transfer.default) = Ok (Withdrawal.recipient d)) in Hrec.
    by rewrite default_recipient in Hrec.
Qed.

(** Every withdrawal of a close-funding transaction goes to the manager. Let a proposal be built
    from a head and withdrawals be proved one after the other. Then every one of them whose
    transaction is the plan's pays the manager, with the plan's auxiliary data, one registered
    token of the channel and the whole fund of that token. *)
Theorem close_funding_withdrawals ds q head chain_id rollup manager base_nonce p :
  withdrawal_run ds q -> state_words_typed head -> in_width 32 (ChannelState.channel_id head) ->
  build_close_funding_proposal head chain_id rollup manager base_nonce = Ok p ->
  forall e, e ∈ ds -> block_form (SingleWithdawalWitness.tx e.1) = CloseFundingPlan.tx_v2 (CloseFundingProposal.plan p) ->
  Withdrawal.recipient e.2 = manager /\ Withdrawal.aux_data e.2 = CloseFundingPlan.funding_aux_data (CloseFundingProposal.plan p) /\
  exists slot, (slot < active_tokens (ChannelState.balance_state head))%nat /\
    BalanceState.token_registry (ChannelState.balance_state head) !! slot = Some (Withdrawal.token_index e.2) /\
    ChannelFund.amounts (ChannelState.channel_fund head) !! slot = Some (Withdrawal.amount e.2).
Proof.
  intros Hrun Hty Hid Hb e He Htx. destruct (withdrawal_run_sound _ _ Hrun) as (ps & _ & Hall).
  pose proof (build_spec head chain_id rollup manager base_nonce Hty Hid) as Hs. rewrite Hb in Hs. destruct Hs as [_ Hf].
  apply list_elem_of_lookup in He as [i Hi]. destruct (Forall_lookup_1 _ _ _ _ Hall Hi) as (Hsh & [bp Hsf] & _).
  rewrite (fu_tx _ _ _ _ _ _ Hf) in Htx. injection Htx as Hroot _. eapply single_pays_fund; [apply Hf|exact Hsh|exact Hsf|exact Hroot].
Qed.
End withdrawals.

(** ** The theorems at work *)

Definition funded_head : ChannelState := funded_with bytes32_one.

Lemma funded_typed : state_words_typed funded_head /\ in_width 32 (ChannelState.channel_id funded_head).
Proof. apply funded_with_typed. Qed.

Lemma funded_builds {P : Poseidon} {W : PoseidonWords P} {PR : PoseidonReadable P W} :
  exists p, build_close_funding_proposal (K := UnitKeccak) funded_head 1 recipient_address payee_address 0 = Ok p.
Proof. by apply funded_with_builds. Qed.

Lemma close_funding_exact_witness :
  exists p, build_close_funding_proposal (P := CanonPoseidon) (K := UnitKeccak) funded_head 1 recipient_address payee_address 0 = Ok p /\
    outflow (CloseFundingPlan.transfers (CloseFundingProposal.plan p)) 0 = 5.
Proof.
  pose proof CanonWords_ok as WO. destruct funded_typed as [Hty Hid].
  destruct (funded_builds (P := CanonPoseidon) (W := CanonWords)) as [p Hp]. exists p. split; [exact Hp|].
  pose proof (close_funding_exact (K := UnitKeccak) (P := CanonPoseidon) (W := CanonWords) funded_head 1 recipient_address payee_address 0 Hty Hid) as H.
  rewrite Hp in H. destruct H as [_ Hf]. exact (pf_token _ _ _ _ (fu_pays _ _ _ _ _ _ Hf) 0%nat 0 amount_five (Nat.lt_0_succ 0) eq_refl eq_refl).
Defined.

Lemma close_funding_gate_witness :
  exists p, verify_close_funding_proposal (P := CanonPoseidon) (W := CanonWords) (K := UnitKeccak) funded_head
    (ChannelState.with_signatures (CloseFundingProposal.proposed_state p) toy_signatures) (CloseFundingProposal.plan p) = Ok tt.
Proof.
  pose proof CanonWords_ok as WO. destruct funded_typed as [Hty Hid].
  destruct (funded_builds (P := CanonPoseidon) (W := CanonWords)) as [p Hp]. exists p.
  exact (proj1 (close_funding_gate (K := UnitKeccak) (P := CanonPoseidon) (W := CanonWords) funded_head Hty Hid) 1 recipient_address payee_address 0 p toy_signatures Hp).
Defined.

Section withdrawal_witness.
#[local] Existing Instances ScenarioPoseidon ScenarioWords scenario_collision_free scenario_elements scenario_readable scenario_nonzero.
#[local] Existing Instances UnitKeccak WordPlonky2 WordProofs WordWithdrawalProvers word_withdrawal_provers_ok.

(** The one transfer of the plan. *)
Lemma plan_transfers p : build_close_funding_proposal funded_head 1 recipient_address payee_address 0 = Ok p ->
  funding funded_head 1 recipient_address payee_address 0 p /\ CloseFundingPlan.transfers (CloseFundingProposal.plan p) = [pay_five payee].
Proof.
  intros Hp. destruct funded_typed as [Hty Hid]. pose proof (build_spec funded_head 1 recipient_address payee_address 0 Hty Hid) as H.
  rewrite Hp in H. destruct H as [_ Hf]. split; [exact Hf|]. pose proof (fu_pays _ _ _ _ _ _ Hf) as Hpay. pose proof (fu_aux _ _ _ _ _ _ Hf) as Haux.
  assert (CloseFundingPlan.funding_aux_data (CloseFundingProposal.plan p) = bytes32_one) as Hone.
  { unfold close_funding_aux_data in Haux. apply bind_Ok in Haux as (x & _ & Haux). apply Ok_inj in Haux. by rewrite <- Haux. }
  rewrite Hone in Hpay. set (ts := CloseFundingPlan.transfers _) in *.
  pose proof (pf_token _ _ _ _ Hpay 0%nat 0 amount_five (Nat.lt_0_succ 0) eq_refl eq_refl) as Hout.
  pose proof (sublist_length _ _ (pf_order _ _ _ _ Hpay)) as Hlen. rewrite length_fmap in Hlen. change (length ts <= 1)%nat in Hlen.
  destruct ts as [|t [|t' ts']]; [discriminate Hout| |cbn [length] in Hlen; lia]. f_equal.
  destruct (pf_each _ _ _ _ Hpay t) as (Hr & Ha & _ & slot & Hs & Htk & Ham); [by left|]. change (slot < 1)%nat in Hs. destruct slot as [|]; [|lia].
  injection Htk as Htk. injection Ham as Ham. destruct t as [rcp tok am ax]. cbn [Transfer.recipient Transfer.token_index Transfer.amount Transfer.aux_data] in *.
  unfold pay_five. subst tok am ax. f_equal. pose proof (extract_address_spec rcp) as H1. rewrite Hr in H1.
  pose proof (extract_address_spec payee) as H2. rewrite payee_address_eq, H1 in H2. by injection H2.
Qed.

(** The batch that the account spent is the batch of the plan, padded. *)
Lemma plan_batch p : build_close_funding_proposal funded_head 1 recipient_address payee_address 0 = Ok p ->
  CloseFundingPlan.tx_v2 (CloseFundingProposal.plan p) = block_form (Tx.mk ScenarioPoseidon tx2_root 0).
Proof.
  intros Hp. destruct (plan_transfers p Hp) as [Hf Hts]. rewrite (fu_tx _ _ _ _ _ _ Hf), Hts. unfold block_form. f_equal.
  unfold tx2_root. cbn [Tx.transfer_tree_root]. rewrite (proj2_sig tx2_root_sealed). apply (subtree_ext_nonneg (Hs := PoseidonLeafableHasher)); [|lia]. intros i Hi. unfold list_leaves, batch.
  destruct (Z.to_nat i) as [|k]; [done|]. cbn [lookup list_lookup]. destruct (replicate 63 Transfer.default !! k) as [t|] eqn:Ht.
  - apply lookup_replicate in Ht as [-> _]. done.
  - done.
Qed.

Lemma close_funding_withdrawals_witness :
  exists ds q e p, withdrawal_run ds q /\ e ∈ ds /\ build_close_funding_proposal funded_head 1 recipient_address payee_address 0 = Ok p /\
    Withdrawal.recipient e.2 = payee_address /\ val (Withdrawal.amount e.2) = 5.
Proof.
  destruct scenario_withdrawal as (s0 & tx & s & l & pis & q & fin & _ & _ & _ & _ & _ & (n & Hd & _) & Hq & _).
  destruct funded_typed as [Hty Hid]. destruct funded_builds as [p Hp].
  assert ((claim_witness blocks2 (claim2 s l), SingleWithdawalPublicInputs.withdrawal pis) ∈ [(claim_witness blocks2 (claim2 s l), SingleWithdawalPublicInputs.withdrawal pis)])
    as Hin by by apply list_elem_of_singleton.
  destruct (close_funding_withdrawals _ q funded_head 1 recipient_address payee_address 0 p Hq Hty Hid Hp _ Hin) as (Hr & _).
  - symmetry. exact (plan_batch p Hp).
  - eexists _, q, _, p. split; [exact Hq|]. split; [exact Hin|]. split; [exact Hp|]. split; [exact Hr|]. cbn [snd]. rewrite Hd. reflexivity.
Defined.
End withdrawal_witness.

Section toy_hidden.
Context (plain : Bytes32 -> RegevCiphertext -> Z) (plain_zero : forall key, plain key zero_ciphertext = 0).

(** The hidden balances of the example: one token, two members. *)
Lemma toy_value v token slot : value plain (toy_state v) token slot =
  match token, slot with
  | O, O => plain bytes32_default (vw_ct0 v)
  | O, S O => plain bytes32_default (vw_ct1 v)
  | _, _ => 0
  end.
Proof.
  unfold value, key_at, ciphertext_at. cbn [ChannelState.balance_state toy_state BalanceState.regev_pk_digests BalanceState.enc_balances toy_balance].
  destruct (two bytes32_default bytes32_default bytes32_default !! slot) as [k|] eqn:Hk.
  - destruct (two (token_row (vw_ct0 v) zero_ciphertext) (token_row (vw_ct1 v) zero_ciphertext) zero_token_row !! slot) as [row|] eqn:Hrow.
    + cbn [unwrap mbind res_bind]. assert (k = bytes32_default) as -> by (apply two_lookup in Hk; naive_solver).
      apply two_lookup in Hrow as [[-> ->]|[[-> ->]|[Hs ->]]].
      * destruct (token_row _ _ !! token) as [ct|] eqn:Ht; cbn [unwrap];
          [apply token_row_lookup in Ht as [[-> ->]|[H ->]]; [done|]; destruct token; [lia|apply plain_zero]|].
        destruct token; [done|done].
      * destruct (token_row _ _ !! token) as [ct|] eqn:Ht; cbn [unwrap];
          [apply token_row_lookup in Ht as [[-> ->]|[H ->]]; [done|]; destruct token; [lia|apply plain_zero]|].
        destruct token; [done|done].
      * destruct (zero_token_row !! token) as [ct|] eqn:Ht; cbn [unwrap].
        -- apply lookup_replicate in Ht as [-> _]. rewrite plain_zero. by destruct token, slot as [|[|]]; try lia.
        -- by destruct token, slot as [|[|]]; try lia.
    + exfalso. apply lookup_ge_None in Hrow. pose proof (lookup_lt_Some _ _ _ Hk) as Hlt. rewrite length_two in Hrow. rewrite length_two in Hlt. lia.
  - cbn [unwrap]. apply lookup_ge_None in Hk. rewrite length_two, MAX_CHANNEL_MEMBERS_nat in Hk. by destruct token, slot as [|[|]]; try lia.
Qed.

Lemma toy_total v : total plain (toy_state v) 0 = plain bytes32_default (vw_ct0 v) + plain bytes32_default (vw_ct1 v).
Proof.
  unfold total. rewrite MAX_CHANNEL_MEMBERS_nat. change (seq 0 1024) with (0%nat :: 1%nat :: seq 2 1022). unfold zsum. cbn [foldr].
  rewrite !toy_value. fold (zsum (value plain (toy_state v) 0) (seq 2 1022)).
  assert (zsum (value plain (toy_state v) 0) (seq 2 1022) = 0) as ->; [|lia].
  transitivity (zsum (fun _ : nat => 0) (seq 2 1022)); [|vm_compute; reflexivity].
  apply Z.le_antisymm; apply zsum_le; intros i Hi%elem_of_seq; rewrite toy_value; destruct i as [|[|]]; lia.
Qed.

Lemma toy_arrays v : view_ok v -> arrays (toy_state v).
Proof. intros Hv. destruct (toy_typed v Hv). by split. Qed.

Lemma toy_layout v : view_ok v -> vw_tokens v = 1 -> active_of (toy_state v) = 2%nat /\ tokens_of (toy_state v) = 1%nat.
Proof. intros _ Ht. unfold active_of, tokens_of. cbn. by rewrite Ht. Qed.

Lemma toy_backed v : (forall key ct, 0 <= plain key ct) -> view_ok v -> vw_tokens v = 1 ->
  plain bytes32_default (vw_ct0 v) + plain bytes32_default (vw_ct1 v) <= val (vw_fund v) -> backed plain (toy_state v).
Proof.
  intros plain_nonneg Hv Ht Hle. destruct (toy_layout v Hv Ht) as [Ha Hk]. split.
  - intros token slot. rewrite toy_value. destruct token, slot as [|[|]]; try lia; apply plain_nonneg.
  - intros token a Htok Hfa. rewrite Hk in Htok. destruct token; [|lia]. rewrite toy_total. injection Hfa as <-. exact Hle.
  - intros token slot H. rewrite Ha, Hk in H. rewrite toy_value. destruct token, slot as [|[|]]; lia.
Qed.

End toy_hidden.

Section credit_witness.

(** Twenty units in the one ciphertext, forty in its double, nothing elsewhere. *)
Definition cell_plain (_ : Bytes32) (ct : RegevCiphertext) : Z :=
  if bool_decide (ct = ct_a) then 20 else if bool_decide (ct = ct_b) then 40 else 0.

Lemma cell_plain_zero key : cell_plain key zero_ciphertext = 0.
Proof. vm_compute. reflexivity. Qed.

Lemma cell_plain_nonneg key ct : 0 <= cell_plain key ct.
Proof. unfold cell_plain. repeat case_bool_decide; lia. Qed.

Lemma toy_conserves : conserves cell_plain (toy_state v4) (toy_state v5).
Proof.
  intros token a a' Ht Ha Ha'. change (tokens_of (toy_state v5)) with 1%nat in Ht. destruct token; [|lia].
  injection Ha as <-. injection Ha' as <-. rewrite !(toy_total _ cell_plain_zero). vm_compute. discriminate.
Qed.

(** The application of an import, seen by a signer. *)
Lemma toy_bounds : exists b b', bootstrap (toy_state v4) [] = Ok b /\ advance_authenticated b (toy_state v4) (toy_state v5) [] = Ok b'.
Proof.
  assert (match bootstrap (toy_state v4) [] with
    | Ok b => match advance_authenticated b (toy_state v4) (toy_state v5) [] with Ok _ => true | _ => false end
    | _ => false end = true) as H by (vm_compute; reflexivity).
  destruct (bootstrap (toy_state v4) []) as [b| |]; [|done|done]. exists b.
  destruct (advance_authenticated b (toy_state v4) (toy_state v5) []) as [b'| |]; [|done|done]. by exists b'.
Qed.

Lemma toy_credit_run : exists b, credit_run cell_plain (toy_state v4) b.
Proof.
  destruct toy_bounds as (b & _ & Hb & _). exists b. eapply (credit_start _ _ []); [apply toy_arrays, v4_ok| |done|exact Hb].
  apply (toy_backed _ cell_plain_zero); [exact cell_plain_nonneg|apply v4_ok|done|]. vm_compute. discriminate.
Qed.

Lemma credit_bounds_safe_witness :
  exists b b', credit_run cell_plain (toy_state v4) b /\ credit_run cell_plain (toy_state v5) b' /\ value cell_plain (toy_state v5) 0 1 = 40 /\
    value cell_plain (toy_state v5) 0 1 < 2 ^ 64.
Proof.
  destruct toy_bounds as (b & b' & Hb & Hb').
  assert (credit_run cell_plain (toy_state v4) b) as Hrun.
  { eapply (credit_start _ _ []); [apply toy_arrays, v4_ok| |discriminate|exact Hb]. apply (toy_backed _ cell_plain_zero); [exact cell_plain_nonneg|apply v4_ok|reflexivity|]. vm_compute. discriminate. }
  destruct (credit_bounds_safe cell_plain (toy_state v4) b Hrun) as (_ & _ & Hadv & _).
  destruct (Hadv (toy_state v5) []) as [_ Hok]; [apply toy_arrays, v5_ok| |exact toy_conserves|discriminate|].
  - apply (toy_backed _ cell_plain_zero); [exact cell_plain_nonneg|apply v5_ok|reflexivity|]. vm_compute. discriminate.
  - destruct (Hok b' Hb') as [Hrun' Hlt]. exists b, b'. split; [exact Hrun|]. split; [exact Hrun'|]. split; [rewrite (toy_value _ cell_plain_zero); vm_compute; reflexivity|].
    apply Hlt; [vm_compute; lia|vm_compute; lia|vm_compute; reflexivity].
Defined.

Lemma toy_changed slot token : (slot < 2)%nat -> (token < 1)%nat -> chg (toy_state v4) (toy_state v5) token slot = true -> slot = 1%nat /\ token = 0%nat.
Proof.
  intros Hs Ht H. destruct token; [|lia]. destruct slot as [|[|]]; [|split; reflexivity|lia]. exfalso.
  assert (chg (toy_state v4) (toy_state v5) 0 0 = false) as Hf by (vm_compute; reflexivity).
  rewrite Hf in H. discriminate H.
Qed.

Lemma credit_advance_progress_witness : exists b b', advance_authenticated b (toy_state v4) (toy_state v5) [] = Ok b'.
Proof.
  destruct toy_credit_run as [b Hrun]. exists b. apply (credit_advance_progress cell_plain (toy_state v4) b (toy_state v5) Hrun).
  - apply toy_arrays, v5_ok.
  - vm_compute. reflexivity.
  - reflexivity.
  - reflexivity.
  - vm_compute. lia.
  - reflexivity.
  - intros slot token ct Hs Ht Hc Hct. destruct (toy_changed slot token Hs Ht Hc) as [-> ->].
    assert (ciphertext_at (E := CreditSafetyError) (toy_state v5) 1 0 = Ok ct_b) as Hb by reflexivity. rewrite Hb in Hct. injection Hct as <-.
    vm_compute. reflexivity.
  - intros slot token a Hs Ht Hc Ha. destruct (toy_changed slot token Hs Ht Hc) as [-> ->]. injection Ha as <-. reflexivity.
Defined.
End credit_witness.
