(* ===== verification/ExitTheorems.v ===== *)
(** * Theorems: leaving a channel

    A closed channel can pay what is claimed from it, a stale close can be
    cancelled and cancelling ends, the owner of a cell needs nobody to claim it,
    and the statements that the contracts read are exact encodings. *)

From S2P Require Import Prelude Limbs U63 Circuit MerkleTree LeafTrees Poseidon IndexedTree Keccak Regev BalanceState BalanceStateProps Account AccountProps AccountScenario Ledger LedgerProps LedgerScenario Balance BalanceProps BalanceCodec Channel ChannelProps StateUpdate StateUpdateProps ChannelRun Scenario CreditSafety CreditSafetyProps HashChains BlockStep BlockStepProps CloseFunding CloseFundingProps ExitClaims ExitCodec ExitClaimsProps ValidityScenario WithdrawalScenario FundingScenario FundingTheorems.

#[local] Remove Hints Leafable_Bytes32 : typeclass_instances.

#[local] Notation bal := ChannelState.balance_state.
#[local] Notation amounts s := (ChannelFund.amounts (ChannelState.channel_fund s)).
#[local] Notation registry s := (BalanceState.token_registry (ChannelState.balance_state s)).
#[local] Notation plan_of p := (CloseFundingProposal.plan p).

(** ** Claims *)

(** What is claimed from a closed channel is owed. Let a close of a valid state be accepted, let
    the hidden balances of the state be backed by its fund, and let withdrawal claims with
    different nullifiers be accepted for this close, each under the key of its slot. Then the
    statement of the close is that of the state, and every claim pays the registered recipient of
    one active slot exactly the hidden balance of one cell in the token of that cell, and all
    claims in a token together pay at most the fund of the token; or a claimed balance state and
    the closed one exhibit a hash collision. *)
Theorem exit_claims_covered {K : Keccak} {P : Poseidon} {PO : PoseidonOutput P} {CS : ClaimStark} plain {SS : ClaimStarkSound CS plain} s w i pis claims :
  state_words_typed s -> valid (bal s) -> backed plain s ->
  ChannelCloseWitness.to_public_inputs (ChannelCloseWitness.mk s w i) = Ok pis ->
  Forall (accepted i) claims -> Forall registered_key claims -> NoDup (nullifier_of <$> claims) ->
  pis = close_statement s w /\
  (Exists (state_collision s) claims \/
   Forall (pays_cell plain s i) claims /\
   forall t tok a, (t < tokens_of s)%nat -> registry s !! t = Some tok -> amounts s !! t = Some a -> zsum (claim_amount tok) claims <= val a).
Proof.
  intros Hty Hv Hb Hc Hall Hks Hnd. apply close_pis_Ok in Hc as [Hcl ->]; [|apply Hty]. split; [done|].
  assert (BalanceState.h1 (E := ChannelError) (bal s) = Ok (CloseIntent.final_balance_state_h1 i)) as Hh by (destruct Hcl as [? ? ? ? ? ? ? ->]; done).
  destruct (claims_cells plain s i (sw_balance _ Hty) Hv Hh claims Hall Hks) as [Hp|Hcol]; [right|by left]. split; [exact Hp|].
  intros t tok a Ht Htok Ha. by eapply claims_le_fund.
Qed.

(** The child of a plan shares the balances and the fund of its head. *)
Lemma child_backed {K : Keccak} plain head aux root d sigs : backed plain head -> backed plain (ChannelState.with_signatures (child_of head aux root d) sigs).
Proof. intros [H1 H2 H3]. split; [exact H1|exact H2|exact H3]. Qed.

(** C21: the exit of a backed channel is solvent. Let a close-funding plan be built for a head whose
    hidden balances are backed: none is negative, unused cells are empty, and in each token they
    add up to at most its fund. Let its child be closed with any signatures, and let claims with
    different nullifiers be accepted for the close by a verifier whose decryption proofs are sound,
    each under the key that is registered for its cell, which the circuit of the claim enforces and
    the native check does not. Then the auxiliary data that the plan's transfers carry
    is recomputed from the public inputs of the close, and for every token the claims together pay
    at most what the plan's transfers bring to the manager; or a claimed balance state and the
    closed one exhibit a hash collision. *)
Theorem exit_solvent {K : Keccak} {P : Poseidon} {W : PoseidonWords P} {PR : PoseidonReadable P W} {PO : PoseidonOutput P} {CS : ClaimStark}
    plain {SS : ClaimStarkSound CS plain} head chain_id rollup manager base_nonce p sigs w i pis claims :
  state_words_typed head -> in_width 32 (ChannelState.channel_id head) -> backed plain head ->
  build_close_funding_proposal head chain_id rollup manager base_nonce = Ok p ->
  ChannelCloseWitness.to_public_inputs
    (ChannelCloseWitness.mk (ChannelState.with_signatures (CloseFundingProposal.proposed_state p) sigs) w i) = Ok pis ->
  Forall (accepted i) claims -> Forall registered_key claims -> NoDup (nullifier_of <$> claims) ->
  close_funding_aux_data (E := CloseFundingError) chain_id rollup manager (ChannelClosePublicInputs.channel_id pis)
    (ChannelClosePublicInputs.close_freeze_nonce pis) (ChannelClosePublicInputs.token_funds_digest pis)
    = Ok (CloseFundingPlan.funding_aux_data (plan_of p)) /\
  (Exists (state_collision (ChannelState.with_signatures (CloseFundingProposal.proposed_state p) sigs)) claims \/
   forall tok, zsum (claim_amount tok) claims <= outflow (CloseFundingPlan.transfers (plan_of p)) tok).
Proof.
  intros Hty Hid Hb Hp Hc Hall Hks Hnd. pose proof (build_spec head chain_id rollup manager base_nonce Hty Hid) as Hs. rewrite Hp in Hs.
  destruct Hs as [Hfd Hf]. destruct (fu_child _ _ _ _ _ _ Hf) as (d & Hch & _). rewrite Hch in *.
  set (s := ChannelState.with_signatures (child_of head _ _ d) sigs) in *.
  assert (valid (bal s)) as Hv by apply child_balance_valid, Hfd.
  assert (typed (bal s)) as Ht.
  { pose proof (ty_state_version _ (sw_balance _ Hty)). apply child_balance_typed; [|apply Hty]. pose proof (fd_version _ _ _ Hfd). unfold in_width in *. lia. }
  apply close_pis_Ok in Hc as [Hcl ->]; [|apply Hty]. split.
  - rewrite <- (fu_aux _ _ _ _ _ _ Hf), (fu_funds _ _ _ _ _ _ Hf). reflexivity.
  - assert (BalanceState.h1 (E := ChannelError) (bal s) = Ok (CloseIntent.final_balance_state_h1 i)) as Hh by (destruct Hcl as [? ? ? ? ? ? ? ->]; done).
    destruct (claims_cells plain s i Ht Hv Hh claims Hall Hks) as [Hpay|Hcol]; [right|by left]. intros tok. pose proof (fu_pays _ _ _ _ _ _ Hf) as Hpf.
    destruct (decide (tok ∈ take (active_tokens (bal head)) (registry head))) as [Hin|Hni].
    + apply list_elem_of_lookup in Hin as [t Hin]. apply lookup_take_Some in Hin as [Htok Htl].
      destruct (lookup_lt_is_Some_2 (amounts head) t) as [a Ha]; [rewrite (sw_amounts _ Hty); pose proof (v_token_count _ Hv) as Hc; change (active_tokens (bal s)) with (active_tokens (bal head)) in Hc; lia|].
      rewrite (pf_token _ _ _ _ Hpf t tok a Htl Htok Ha). by eapply (claims_le_fund plain s i Hv claims t tok a); try apply child_backed.
    + rewrite (pf_other _ _ _ _ Hpf tok Hni). erewrite (claims_unregistered plain s i claims tok); done.
Qed.

(** C24: the owner of a cell claims it alone. From the closed state, its close and a verified
    decryption under a canonical key, the claim of an active cell is accepted: it pays the
    registered recipient the decrypted amount in the registered token, for this close. *)
Theorem honest_claim_accepted {K : Keccak} {P : Poseidon} {PO : PoseidonOutput P} {CS : ClaimStark} s w i slot token pk_g recipient row ct pk d amount proof level :
  state_words_typed s -> valid (bal s) -> BalanceState.channel_id (bal s) = ChannelState.channel_id s -> CloseIntent.new s w = Ok i ->
  (slot < active_slots (bal s))%nat -> (Z.to_nat token < active_tokens (bal s))%nat ->
  BalanceState.enc_balances (bal s) !! slot = Some row -> row !! Z.to_nat token = Some ct -> BalanceState.recipients (bal s) !! slot = Some recipient ->
  pk_digest (E := WithdrawalClaimWitness.Error) pk = Ok d -> verify_decryption level pk ct amount proof = Ok tt ->
  exists pis, WithdrawalClaimWitness.to_public_inputs (honest_claim s w i slot token pk_g recipient ct pk d amount proof) level = Ok pis /\
    WithdrawalClaimPublicInputs.recipient pis = recipient /\ WithdrawalClaimPublicInputs.amount pis = amount /\
    registry s !! Z.to_nat token = Some (WithdrawalClaimPublicInputs.token_index pis) /\
    WithdrawalClaimPublicInputs.close_intent_digest pis = CloseIntent.signing_digest i /\
    WithdrawalClaimPublicInputs.final_balance_state_h1 pis = CloseIntent.final_balance_state_h1 i.
Proof. intros Hty Hv Hid Hi%close_intent_new_Ok; [|apply Hty]. intros. eapply honest_claim_Ok; eauto using sw_balance. Qed.

(** ** Cancellation *)

Lemma signing_digest_any {K : Keccak} {P : Poseidon} {PO : PoseidonOutput P} {E E'} s d : typed (bal s) -> valid (bal s) ->
  ChannelState.signing_digest (E := E) s = Ok d -> ChannelState.signing_digest (E := E') s = Ok d.
Proof.
  intros Ht Hv H. unfold ChannelState.signing_digest in *. apply bind_Ok in H as (h & Hh & H).
  apply (h1_any (E' := E')) in Hh; [|by apply valid_well_shaped|by apply valid_ciphertexts_ok]. rewrite Hh. by apply Ok_inj in H as <-.
Qed.

(** The last state of a nonempty run carries its own digest. *)
Lemma run_digest {K : Keccak} {P : Poseidon} {PO : PoseidonOutput P} {R : RegevScheme} {VP : ChannelProofVerifier} {VR : RegevProofVerifier} {E} record s evs s' :
  run record s evs s' -> evs <> [] -> ChannelState.signing_digest (E := E) s' = Ok (ChannelState.digest s').
Proof.
  induction 1 as [s|s ev s1 evs s2 Hstep Hrun IH]; [done|]. intros _. destruct evs as [|ev' evs]; [|by apply IH].
  inversion Hrun; subst. apply step_has_effect in Hstep as [[_ Ht] Hl Hc _ _ _].
  eapply signing_digest_any; [apply Ht|apply (lk_next_valid _ _ _ Hl)|apply (ch_digest_next _ _ Hc)].
Qed.

(** C22: of two states of one run of updates, the later cancels a close of the earlier one and the
    earlier does not cancel a close of the later one, which is reported as stale; and whatever
    cancels a close is a state of the same channel and the same close era with a larger version. *)
Theorem cancellation_order {K : Keccak} {P : Poseidon} {PO : PoseidonOutput P} {R : RegevScheme} {VP : ChannelProofVerifier} {VR : RegevProofVerifier}
    record s evs s' w i w' i' :
  run record s evs s' -> cs_typed s -> valid (bal s) -> in_width 64 (ChannelState.close_freeze_nonce s) ->
  ChannelState.signing_digest (E := CancelCloseWitness.Error) s = Ok (ChannelState.digest s) ->
  BalanceState.state_version (bal s) + Z.of_nat (length evs) < 2 ^ 64 ->
  CloseIntent.new s w = Ok i -> CloseIntent.new s' w' = Ok i' ->
  (evs <> [] -> CancelCloseWitness.to_public_inputs (CancelCloseWitness.mk s' i) = Ok (cancel_statement s' i)) /\
  CancelCloseWitness.to_public_inputs (CancelCloseWitness.mk s i')
    = Err (CancelCloseWitness.StaleRevivedState (BalanceState.state_version (bal s)) (BalanceState.state_version (bal s'))) /\
  (forall r pis, CancelCloseWitness.to_public_inputs (CancelCloseWitness.mk r i) = Ok pis ->
    ChannelState.channel_id r = ChannelState.channel_id s /\ ChannelState.close_freeze_nonce r = ChannelState.close_freeze_nonce s /\
    BalanceState.state_version (bal s) < BalanceState.state_version (bal r)).
Proof.
  intros Hrun Hty Hv Hn Hd Hle Hi Hi'. pose proof (cty_epoch _ Hty) as He. pose proof (ty_state_version _ (cty_balance _ Hty)) as Hw.
  destruct (run_identity _ _ _ _ Hrun) as [Hid _ _ _ _ Hnonce]. destruct (run_counters _ _ _ _ Hrun He Hw) as [_ Hver].
  rewrite wrap_id in Hver by (unfold in_width in *; lia).
  apply close_intent_new_Ok in Hi as [_ _ _ _ _ _ Hb ->]; [|done]. apply close_intent_new_Ok in Hi' as [_ _ _ _ _ _ _ ->]; [|by rewrite Hnonce].
  split_and!.
  - intros Hne. apply cancel_Ok. split; [|done]. constructor; cbn; rewrite ?Hnonce; try done; [by eapply run_digest|].
    rewrite Hver. destruct evs; [done|]. cbn [length]. lia.
  - rewrite cancel_stale; cbn; [done|congruence|done|rewrite Hver; lia].
  - intros r pis [[Hc _ Hlt Hera _] _]%cancel_Ok. cbn in *. split_and!; [done|lia|done].
Qed.

(** C23: cancelling ends. In any chain of closes, each cancelled by the state that the next one
    closes, the versions grow, so that a chain from version v has fewer than 2^64 - v links, all of
    the same channel and the same close era. *)
Theorem cancellations_end {K : Keccak} {P : Poseidon} i n i' :
  in_width 64 (CloseIntent.final_state_version i) -> cancel_chain i n i' ->
  CloseIntent.final_state_version i + Z.of_nat n < 2 ^ 64 /\
  CloseIntent.channel_id i' = CloseIntent.channel_id i /\ CloseIntent.close_freeze_nonce i' = CloseIntent.close_freeze_nonce i.
Proof.
  intros Hw Hc. destruct (cancel_chain_grows _ _ _ Hc) as (H1 & H2 & H3 & H4). split_and!; [|done..].
  destruct (decide (n = 0%nat)) as [->|Hn]; [unfold in_width in Hw; lia|]. specialize (H4 Hn). lia.
Qed.

(** ** Keys, late claims, encodings *)

(** C38: the native checks of a claim leave its key open. Whenever a claim passes the check without
    the external decryption proof, the same cell can be claimed under every other canonical key and
    for every amount: that check passes, and the public check with the external proof passes
    whenever the verifier accepts some proof that the cell decrypts to this amount under this key,
    which need not be the registered one. The statement is the same except for the amount and the
    nullifier, which differs unless the two keys have one digest or the hashed words collide. *)
Theorem claim_key_unchecked {K : Keccak} {P : Poseidon} {CS : ClaimStark} w pk d d' m proof level pis :
  WithdrawalClaimWitness.to_public_inputs_for_in_circuit_decryption w level = Ok pis ->
  pk_digest (E := WithdrawalClaimWitness.Error) (WithdrawalClaimWitness.user_pk w) = Ok d -> pk_digest (E := WithdrawalClaimWitness.Error) pk = Ok d' ->
  exists n, let pis' := restated pis n m in
    WithdrawalClaimWitness.to_public_inputs_for_in_circuit_decryption (rekey w pk d' m proof) level = Ok pis' /\
    (verify_withdraw_claim level pk (WithdrawalClaim.user_amount_ct (WithdrawalClaimWitness.claim w)) m proof = Ok tt ->
     WithdrawalClaimWitness.to_public_inputs (rekey w pk d' m proof) level = Ok pis') /\
    WithdrawalClaimWitness.member_index (rekey w pk d' m proof) = WithdrawalClaimWitness.member_index w /\
    (n = WithdrawalClaimPublicInputs.withdrawal_nullifier pis ->
     d = d' \/ keccak_collision (WithdrawalClaim.nullifier_words (WithdrawalClaimPublicInputs.close_intent_digest pis) d (WithdrawalClaimPublicInputs.token_slot pis))
       (WithdrawalClaim.nullifier_words (WithdrawalClaimPublicInputs.close_intent_digest pis) d' (WithdrawalClaimPublicInputs.token_slot pis))).
Proof.
  intros H Hd Hd'. eexists. cbv zeta. split; [by apply rekey_Ok|]. split; [intros Hp; by apply rekey_Ok|]. split; [done|].
  rewrite (claim_nullifier w level pis d H Hd). intros Heq. symmetry in Heq.
  apply hash_words_inj_or in Heq as [Heq|Hc]; [left|by right]. by apply withdrawal_nullifier_words_inj in Heq as (_ & ? & _).
Qed.

(** A late transfer is worth one amount. Two accepted claims after the close that name one
    transaction hash, each with a single receiver delta, are for the same delta: the same amount,
    which is its plaintext under the addressed key, the same token, receiver and channel, and each
    pays the registered recipient of an active slot that holds the addressed key; or the hashed
    words exhibit a collision. *)
Theorem post_close_claims_agree {K : Keccak} {P : Poseidon} {CS : ClaimStark} plain {SS : ClaimStarkSound CS plain} w w' level level' pis pis' :
  PostCloseClaimWitness.to_public_inputs w level = Ok pis -> PostCloseClaimWitness.to_public_inputs w' level' = Ok pis' ->
  PostCloseClaimPublicInputs.incoming_tx_hash pis = PostCloseClaimPublicInputs.incoming_tx_hash pis' ->
  length (InterChannelTx.receiver_deltas (PostCloseClaimWitness.source_tx w)) = 1%nat ->
  length (InterChannelTx.receiver_deltas (PostCloseClaimWitness.source_tx w')) = 1%nat ->
  tx_typed (PostCloseClaimWitness.source_tx w) -> tx_typed (PostCloseClaimWitness.source_tx w') ->
  exists delta delta', InterChannelTx.receiver_deltas (PostCloseClaimWitness.source_tx w) = [delta] /\
    InterChannelTx.receiver_deltas (PostCloseClaimWitness.source_tx w') = [delta'] /\
    late_claim plain w pis delta (PostCloseClaimWitness.receiver_member_index w) /\
    late_claim plain w' pis' delta' (PostCloseClaimWitness.receiver_member_index w') /\
    (delta = delta' /\ PostCloseClaimPublicInputs.amount pis = PostCloseClaimPublicInputs.amount pis' /\
       PostCloseClaimPublicInputs.token_index pis = PostCloseClaimPublicInputs.token_index pis' /\
       PostCloseClaimPublicInputs.receiver_pk_g pis = PostCloseClaimPublicInputs.receiver_pk_g pis' /\
       PostCloseClaimPublicInputs.receiver_channel_id pis = PostCloseClaimPublicInputs.receiver_channel_id pis' \/
     collision hash_words (tx_queries (PostCloseClaimWitness.source_tx w) delta) (tx_queries (PostCloseClaimWitness.source_tx w') delta')).
Proof.
  intros (delta & Hl)%(post_close_Ok plain) (delta' & Hl')%(post_close_Ok plain) Heq [x Hx]%list_eq_len_1 [x' Hx']%list_eq_len_1 Ht Ht'.
  pose proof (lc_delta _ _ _ _ _ Hl) as Hd. pose proof (lc_delta _ _ _ _ _ Hl') as Hd'. rewrite Hx in Hd. rewrite Hx' in Hd'.
  apply list_elem_of_singleton in Hd as <-. apply list_elem_of_singleton in Hd' as <-. exists delta, delta'. split_and!; try done.
  destruct (post_close_agree plain w w' pis pis' delta delta' _ _ Hl Hl' Hx Hx' Ht Ht' Heq) as [Hsame|Hc]; [left|by right].
  destruct Hsame as [_ Hdst Htok _ _ _ <-]. destruct Hl as [_ _ Hr Ha Hc Hk _ _ _ _], Hl' as [_ _ Hr' Ha' Hc' Hk' _ _ _ _]. split_and!; congruence.
Qed.

(** C35: on 32-bit words the readers of the close, cancellation, withdrawal-claim and post-close
    statements accept exactly the words that the writers produce for a statement with a nonzero
    channel id and fields in their widths, and return that statement. *)
Theorem exit_words_exact ws : Forall (in_width 32) ws ->
  (forall p, ChannelClosePublicInputs.from_u64_slice ws = Ok p <-> CloseCodec.close_typed p /\ ws = ChannelClosePublicInputs.to_u64_vec p) /\
  (forall p, CancelClosePublicInputs.from_u64_slice ws = Ok p <-> CancelCodec.cancel_typed p /\ ws = CancelClosePublicInputs.to_u64_vec p) /\
  (forall p, WithdrawalClaimPublicInputs.from_u64_slice ws = Ok p <-> ClaimCodec.claim_typed p /\ ws = WithdrawalClaimPublicInputs.to_u64_vec p) /\
  (forall p, PostCloseClaimPublicInputs.from_u64_slice ws = Ok p <-> PostCloseCodec.post_close_typed p /\ ws = PostCloseClaimPublicInputs.to_u64_vec p).
Proof.
  intros Hw. split_and!; intros p; (split; [|intros [Ht ->]]).
  - by apply CloseCodec.close_read.
  - by apply CloseCodec.close_roundtrip.
  - by apply CancelCodec.cancel_read.
  - by apply CancelCodec.cancel_roundtrip.
  - by apply ClaimCodec.claim_read.
  - by apply ClaimCodec.claim_roundtrip.
  - by apply PostCloseCodec.post_close_read.
  - by apply PostCloseCodec.post_close_roundtrip.
Qed.

(** ** The theorems at work *)

(** Five units in every ciphertext that is not empty. *)
Definition five_plain (_ : Bytes32) (ct : RegevCiphertext) : Z := if bool_decide (ct = zero_ciphertext) then 0 else 5.

Definition FiveStark : ClaimStark :=
  {| verify_decryption _ _ ct amount _ := ensure (amount =? five_plain bytes32_default ct) InvalidCiphertext |}.

Lemma five_sound {P : Poseidon} : ClaimStarkSound FiveStark five_plain.
Proof. split. intros level pk ct amount proof d H%ensure_Ok%Z.eqb_eq _. by rewrite H. Qed.

Lemma five_zero key : five_plain key zero_ciphertext = 0.
Proof. unfold five_plain. by rewrite bool_decide_eq_true_2. Qed.

Lemma ct_a_zero : ct_a <> zero_ciphertext.
Proof. intros H. apply (f_equal (fun ct => c1 ct !! 0%nat)) in H. discriminate H. Qed.

Lemma five_cell key : five_plain key ct_a = 5.
Proof. unfold five_plain. by rewrite bool_decide_eq_false_2 by apply ct_a_zero. Qed.

Lemma five_nonneg key ct : 0 <= five_plain key ct.
Proof. unfold five_plain. case_bool_decide; lia. Qed.

(** Hash outs that are all zero, in the documented word format. *)
Definition BlankPoseidon : Poseidon := {|
  PHash := canon4;
  PHash_eq_dec := canon4_eq_dec;
  phash_default := canon4_default;
  phash_to_u64_vec := canon4_list;
  hash_inputs_u64 _ := canon4_default;
|}.

Definition BlankWords : PoseidonWords BlankPoseidon := {| phash_from_elements l := (canon4_of l : @PHash BlankPoseidon) |}.

Lemma BlankWords_ok : PoseidonWordsOk BlankPoseidon BlankWords.
Proof. destruct CanonWords_ok as [H1 H2 H3]. split; [exact H1|exact H2|exact H3]. Qed.

Lemma padding_digest {E} : pk_digest (P := BlankPoseidon) (E := E) Pk.padding = Ok bytes32_default.
Proof.
  unfold pk_digest. rewrite (proj2 (pk_poseidon_digest_Ok (P := BlankPoseidon) Pk.padding _) (conj pk_padding_ok eq_refl)). reflexivity.
Qed.

Section funded_exit.
#[local] Existing Instances BlankPoseidon BlankWords BlankWords_ok words_output UnitKeccak FiveStark five_sound.

(** A closed state with the balances of the funded example, and the claim of its first member. *)
Lemma member_claim s : state_words_typed s -> valid (bal s) -> BalanceState.channel_id (bal s) = ChannelState.channel_id s ->
  ChannelState.close_freeze_nonce s = 0 -> amounts s !! 0%nat = Some amount_five -> BalanceState.token_registry (bal s) = registry_one ->
  active_slots (bal s) = 2%nat -> active_tokens (bal s) = 1%nat ->
  BalanceState.enc_balances (bal s) = BalanceState.enc_balances (toy_balance fund_view) ->
  BalanceState.recipients (bal s) = BalanceState.recipients (toy_balance fund_view) ->
  BalanceState.regev_pk_digests (bal s) = BalanceState.regev_pk_digests (toy_balance fund_view) ->
  exists w i pis e, ChannelCloseWitness.to_public_inputs (ChannelCloseWitness.mk s w i) = Ok pis /\ CloseIntent.new s w = Ok i /\
    (accepted i e /\ registered_key e) /\ claim_amount 0 e = 5.
Proof.
  intros Hty Hv Hid Hn Ha Hreg Has Hat Henc Hrec Hkey. pose proof (sw_balance _ Hty) as Ht.
  destruct (h1_Ok (E := ChannelError) (bal s) (valid_well_shaped _ Ht Hv) (valid_ciphertexts_ok _ Hv)) as (h & Hh & _).
  destruct (honest_close_Ok s h amount_five Hh Ha) as [i Hi]; [by rewrite Hn|]. exists (honest_close s h amount_five), i.
  destruct (honest_claim_Ok s _ i 0 0 digest_one recipient_address (token_row ct_a zero_ciphertext) ct_a Pk.padding bytes32_default 5 [] Test
    Ht Hv Hid Hi) as (q & Hq & _ & Hamt & Htok & Hd & Hh1).
  - rewrite Has. lia.
  - rewrite Hat. cbn. lia.
  - by rewrite Henc.
  - reflexivity.
  - by rewrite Hrec.
  - apply padding_digest.
  - cbn [verify_decryption FiveStark]. by rewrite five_cell.
  - eexists _, (mk_claim _ Test q). split; [by apply close_pis_Ok; [apply Hty|]|]. split; [apply close_intent_new_Ok; [apply Hty|exact Hi]|]. split.
    + split; [by split|]. intros d Hpk. cbn [ec_witness honest_claim WithdrawalClaimWitness.user_pk] in Hpk.
      rewrite padding_digest in Hpk. injection Hpk as <-. cbn [ec_witness honest_claim WithdrawalClaimWitness.final_balance_state WithdrawalClaimWitness.member_index].
      by rewrite Hkey.
    + unfold claim_amount. cbn [ec_pis]. rewrite Hreg in Htok. cbn in Htok. injection Htok as <-. by rewrite Hamt.
Qed.

Lemma funded_backed : backed five_plain funded_head.
Proof.
  destruct (toy_backed five_plain five_zero fund_view five_nonneg fund_view_ok eq_refl) as [H1 H2 H3].
  - cbn [vw_ct0 vw_ct1 vw_fund fund_view]. rewrite five_cell, five_zero. vm_compute. discriminate.
  - split; [exact H1|exact H2|exact H3].
Qed.

Lemma exit_claims_covered_witness : exists w i pis e,
  ChannelCloseWitness.to_public_inputs (ChannelCloseWitness.mk funded_head w i) = Ok pis /\ accepted i e /\ claim_amount 0 e = 5 /\
  pis = close_statement funded_head w.
Proof.
  destruct funded_typed as [Hty _]. pose proof (toy_valid fund_view fund_view_ok) as Hv.
  destruct (member_claim funded_head Hty Hv) as (w & i & pis & e & Hc & _ & [He Hk] & Hamt); try reflexivity. exists w, i, pis, e.
  split; [exact Hc|]. split; [exact He|]. split; [exact Hamt|].
  refine (proj1 (exit_claims_covered five_plain funded_head w i pis [e] Hty Hv funded_backed Hc _ _ _)).
  - constructor; [exact He|constructor].
  - constructor; [exact Hk|constructor].
  - apply NoDup_singleton.
Defined.

Lemma exit_solvent_witness : exists p w i pis e,
  build_close_funding_proposal funded_head 1 recipient_address payee_address 0 = Ok p /\
  ChannelCloseWitness.to_public_inputs
    (ChannelCloseWitness.mk (ChannelState.with_signatures (CloseFundingProposal.proposed_state p) toy_signatures) w i) = Ok pis /\
  accepted i e /\ claim_amount 0 e = 5 /\
  close_funding_aux_data (E := CloseFundingError) 1 recipient_address payee_address (ChannelClosePublicInputs.channel_id pis)
    (ChannelClosePublicInputs.close_freeze_nonce pis) (ChannelClosePublicInputs.token_funds_digest pis)
    = Ok (CloseFundingPlan.funding_aux_data (plan_of p)).
Proof.
  destruct funded_typed as [Hty Hid]. destruct funded_builds as [p Hp]. exists p.
  pose proof (build_spec funded_head 1 recipient_address payee_address 0 Hty Hid) as Hs. rewrite Hp in Hs. destruct Hs as [Hfd Hf].
  destruct (fu_child _ _ _ _ _ _ Hf) as (d & Hch & _).
  destruct (member_claim (ChannelState.with_signatures (CloseFundingProposal.proposed_state p) toy_signatures)) as (w & i & pis & e & Hc & _ & [He Hk] & Hamt);
    rewrite ?Hch; try reflexivity.
  - destruct (child_typed funded_head (CloseFundingPlan.funding_aux_data (plan_of p)) (CloseFundingPlan.tx_tree_root (plan_of p)) d Hty
      (fd_epoch _ _ _ Hfd) (fd_block _ _ _ Hfd) (fd_version _ _ _ Hfd)) as [H1 H2 H3 H4 H5]. split; [exact H1|exact H2|exact H3|exact H4|exact H5].
  - apply child_balance_valid, Hfd.
  - rewrite <- Hch. exists w, i, pis, e. split; [exact Hp|]. split; [exact Hc|]. split; [exact He|]. split; [exact Hamt|].
    refine (proj1 (exit_solvent five_plain funded_head 1 recipient_address payee_address 0 p toy_signatures w i pis [e] Hty Hid funded_backed Hp Hc _ _ _)).
    + constructor; [exact He|constructor].
    + constructor; [exact Hk|constructor].
    + apply NoDup_singleton.
Defined.

Lemma honest_claim_accepted_witness : exists w i pis,
  WithdrawalClaimWitness.to_public_inputs (honest_claim funded_head w i 0 0 digest_one recipient_address ct_a Pk.padding bytes32_default 5 []) Test = Ok pis /\
  WithdrawalClaimPublicInputs.amount pis = 5.
Proof.
  destruct funded_typed as [Hty _]. pose proof (toy_valid fund_view fund_view_ok) as Hv.
  destruct (member_claim funded_head Hty Hv) as (w & i & _ & _ & _ & Hi & _); try reflexivity. exists w, i.
  destruct (honest_claim_accepted funded_head w i 0 0 digest_one recipient_address (token_row ct_a zero_ciphertext) ct_a Pk.padding bytes32_default 5 [] Test
    Hty Hv eq_refl Hi) as (pis & Hq & _ & Hamt & _).
  - apply Nat.lt_0_succ.
  - apply Nat.lt_0_succ.
  - reflexivity.
  - reflexivity.
  - reflexivity.
  - apply padding_digest.
  - cbn [verify_decryption FiveStark]. rewrite five_cell. reflexivity.
  - exists pis. split; [exact Hq|exact Hamt].
Defined.
End funded_exit.

Section cancel_witness.
#[local] Existing Instances ToyKeccak ToyPoseidon ToyPoseidon_output ToyScheme ToyChannelProofs ToyRegevProofs.

(** The close of a state of the example run. *)
Lemma toy_close v : view_ok v -> exists i, CloseIntent.new (toy_state v) (honest_close (toy_state v) bytes32_default (vw_fund v)) = Ok i /\
  CloseIntent.final_state_version i = vw_version v /\ CloseIntent.channel_id i = 7 /\ CloseIntent.close_freeze_nonce i = 1.
Proof.
  intros Hv. destruct (honest_close_Ok (toy_state v) bytes32_default (vw_fund v)) as [i Hi]; [by apply toy_h1|reflexivity|reflexivity|].
  exists i. split; [by apply close_intent_new_Ok|]. by destruct Hi as [_ _ _ _ _ _ _ ->].
Qed.

Lemma cancellation_order_witness : exists i i' pis,
  CancelCloseWitness.to_public_inputs (CancelCloseWitness.mk (toy_state v7) i) = Ok pis /\
  CancelCloseWitness.to_public_inputs (CancelCloseWitness.mk (toy_state v0) i') = Err (CancelCloseWitness.StaleRevivedState 0 7).
Proof.
  destruct (toy_close v0 v0_ok) as (i & Hi & _). destruct (toy_close v7 v7_ok) as (i' & Hi' & _). exists i, i', (cancel_statement (toy_state v7) i).
  destruct (cancellation_order toy_record (toy_state v0) toy_events (toy_state v7) (honest_close (toy_state v0) bytes32_default (vw_fund v0)) i
    (honest_close (toy_state v7) bytes32_default (vw_fund v7)) i' toy_run (toy_cs_typed v0 v0_ok) (toy_valid v0 v0_ok)) as (H1 & H2 & _); [by split|apply toy_digest, v0_ok|reflexivity|exact Hi|exact Hi'|]. split; [apply H1; discriminate|exact H2].
Defined.

Lemma cancellations_end_witness : exists i i', cancel_chain i 1 i' /\ CloseIntent.final_state_version i + Z.of_nat 1 < 2 ^ 64 /\
  CloseIntent.channel_id i' = CloseIntent.channel_id i.
Proof.
  destruct (toy_close v0 v0_ok) as (i & Hi & Hv & Hc & Hn). destruct (toy_close v7 v7_ok) as (i' & Hi' & _). exists i, i'.
  assert (cancel_chain i 1 i') as Hchain.
  { eapply (chain_next i (toy_state v7)); [apply cancel_Ok; split; [|reflexivity]| | |exact Hi'|constructor].
    - constructor; rewrite ?Hc, ?Hn, ?Hv; [reflexivity|apply toy_digest, v7_ok|reflexivity|reflexivity|reflexivity].
    - change (in_width 64 0). by split.
    - change (in_width 64 7). by split. }
  split; [exact Hchain|]. destruct (cancellations_end i 1 i') as (H1 & H2 & _); [rewrite Hv; change (in_width 64 0); by split|exact Hchain|].
  split; [exact H1|exact H2].
Defined.
End cancel_witness.

Section late_witness.
#[local] Existing Instances ToyKeccak ToyPoseidon ToyPoseidon_output FiveStark five_sound.

(** The receiver of the example transfer claims it after the close. *)
Definition late_witness : PostCloseClaimWitness :=
  PostCloseClaimWitness.mk digest_one 7 (toy_tx 8 7)
    (PostCloseIncomingClaim.mk digest_one digest_one digest_two recipient_address ct_a bytes32_default [] []) Pk.padding 5 (toy_balance v7) 1.

Lemma late_witness_Ok : exists pis, PostCloseClaimWitness.to_public_inputs late_witness Test = Ok pis /\
  PostCloseClaimPublicInputs.incoming_tx_hash pis = digest_one /\ PostCloseClaimPublicInputs.amount pis = 5.
Proof.
  assert (forall E, pk_digest (E := E) Pk.padding = Ok bytes32_default) as Hpk.
  { intros E. unfold pk_digest. by rewrite (proj2 (pk_poseidon_digest_Ok Pk.padding _) (conj pk_padding_ok eq_refl)). }
  assert (ct_ok ct_a) as Hct by (by apply (ct_digest_Ok (E := unit) ct_a digest_one), ct_a_digest).
  eexists. split; [|split].
  - unfold PostCloseClaimWitness.to_public_inputs, late_witness. cbn -[toy_tx ct_a toy_balance InterChannelTx.compute_tx_hash verify_withdraw_claim Z.to_nat].
    pass_eq. pass_eq. pass ltac:(reflexivity). get digest_one ltac:(rewrite toy_tx_hash_value by (split; [discriminate|reflexivity]); reflexivity).
    pass_eq. get (bytes32_default : Bytes32) ltac:(apply Hpk).
    pass ltac:(apply ensure_Ok; unfold PostCloseClaimWitness.matching_delta; cbn -[ct_a]; decide_refl; reflexivity).
    pass ltac:(apply map_err_Ok; unfold verify_withdraw_claim; rewrite (proj2 (pk_validate_Ok _ tt) pk_padding_ok), (proj2 (ct_validate_Ok _ tt) Hct);
      cbn [mbind res_bind verify_decryption FiveStark]; rewrite five_cell; reflexivity).
    pass ltac:(reflexivity). get (bytes32_default : Bytes32) ltac:(reflexivity). pass_eq. get recipient_address ltac:(reflexivity). pass_eq.
    get (bytes32_default : Bytes32) ltac:(apply toy_h1, v7_ok). reflexivity.
  - reflexivity.
  - reflexivity.
Qed.

Lemma post_close_claims_agree_witness : exists pis, PostCloseClaimWitness.to_public_inputs late_witness Test = Ok pis /\
  exists delta, late_claim five_plain late_witness pis delta 1.
Proof.
  destruct late_witness_Ok as (pis & Hp & _). exists pis. split; [exact Hp|].
  destruct (post_close_claims_agree five_plain late_witness late_witness Test Test pis pis Hp Hp eq_refl eq_refl eq_refl) as (delta & _ & _ & _ & Hl & _).
  - change (tx_typed (toy_tx 8 7)). by constructor; split.
  - change (tx_typed (toy_tx 8 7)). by constructor; split.
  - exists delta. exact Hl.
Defined.
End late_witness.

(** A hash that returns one of its words. *)
Lemma picked_wf x : limbs_wfb BYTES32_LEN [wrap 32 x; 0; 0; 0; 0; 0; 0; 0] = true.
Proof. apply limbs_wfb_spec. split; [done|]. constructor; [apply wrap_in_width; lia|]. repeat (constructor; [split; lia|]). constructor. Qed.

Definition PickKeccak : Keccak := {| solidity_keccak256 ws := mkLimbs _ (picked_wf (default 0 (ws !! 10%nat))) |}.

Section key_witness.
#[local] Existing Instances CanonPoseidon CanonWords CanonWords_ok words_output PickKeccak FiveStark.

Definition other_pk : RegevPk := mkPk (replicate REGEV_N 1) (replicate REGEV_N 1).

Lemma key_digests : exists d d', pk_digest (E := WithdrawalClaimWitness.Error) Pk.padding = Ok d /\ pk_digest (E := WithdrawalClaimWitness.Error) other_pk = Ok d' /\
  wrap 32 (default 0 (limbs d !! 1%nat)) <> wrap 32 (default 0 (limbs d' !! 1%nat)).
Proof.
  assert (match pk_digest (E := WithdrawalClaimWitness.Error) Pk.padding, pk_digest (E := WithdrawalClaimWitness.Error) other_pk with
    | Ok d, Ok d' => negb (wrap 32 (default 0 (limbs d !! 1%nat)) =? wrap 32 (default 0 (limbs d' !! 1%nat)))
    | _, _ => false end = true) as H by (vm_compute; reflexivity).
  destruct (pk_digest (E := WithdrawalClaimWitness.Error) Pk.padding) as [d| |]; [|discriminate H|discriminate H].
  destruct (pk_digest (E := WithdrawalClaimWitness.Error) other_pk) as [d'| |]; [|discriminate H|discriminate H].
  exists d, d'. split; [reflexivity|]. split; [reflexivity|]. apply Z.eqb_neq, negb_true_iff. exact H.
Qed.

Lemma other_proof : verify_withdraw_claim Test other_pk ct_a 5 [] = Ok tt.
Proof.
  apply verify_withdraw_claim_Ok; [vm_compute; reflexivity|vm_compute; reflexivity|]. cbn [verify_decryption FiveStark]. rewrite five_cell. reflexivity.
Qed.

Lemma picked_nullifier c d t : limbs (WithdrawalClaim.derive_nullifier c d t) = [wrap 32 (default 0 (limbs d !! 1%nat)); 0; 0; 0; 0; 0; 0; 0].
Proof.
  unfold WithdrawalClaim.derive_nullifier, hash_words. cbn [solidity_keccak256 PickKeccak limbs]. do 3 f_equal. unfold WithdrawalClaim.nullifier_words, to_u32_vec.
  pose proof (limbs_length c) as Hc. pose proof (limbs_length d) as Hd.
  destruct (limbs c) as [|? [|? [|? [|? [|? [|? [|? [|? [|]]]]]]]]]; try done. destruct (limbs d) as [|? [|? [|]]]; done.
Qed.

Lemma claim_key_unchecked_witness : exists w pk d pis pis',
  WithdrawalClaimWitness.to_public_inputs w Test = Ok pis /\ WithdrawalClaimWitness.to_public_inputs (rekey w pk d 5 []) Test = Ok pis' /\
  WithdrawalClaimWitness.member_index (rekey w pk d 5 []) = WithdrawalClaimWitness.member_index w /\
  WithdrawalClaimPublicInputs.withdrawal_nullifier pis' <> WithdrawalClaimPublicInputs.withdrawal_nullifier pis.
Proof.
  destruct funded_typed as [Hty _]. pose proof (toy_valid fund_view fund_view_ok) as Hv. pose proof (sw_balance _ Hty) as Ht.
  destruct (h1_Ok (E := ChannelError) (bal funded_head) (valid_well_shaped _ Ht Hv) (valid_ciphertexts_ok _ Hv)) as (h & Hh & _).
  destruct (honest_close_Ok funded_head h amount_five Hh eq_refl eq_refl) as [i Hi]. destruct key_digests as (d & d' & Hd & Hd' & Hne).
  destruct (honest_claim_Ok funded_head _ i 0 0 digest_one recipient_address (token_row ct_a zero_ciphertext) ct_a Pk.padding d 5 [] Test
    Ht Hv eq_refl Hi (Nat.lt_0_succ _) (Nat.lt_0_succ _) eq_refl eq_refl eq_refl Hd) as (pis & Hp & _).
  - cbn [verify_decryption FiveStark]. rewrite five_cell. reflexivity.
  - pose proof (skip_proof_Ok _ _ _ Hp) as Hs. destruct (claim_key_unchecked _ other_pk d d' 5 [] Test pis Hs Hd Hd') as (n & Hi' & Hx & Hm & _).
    assert (verify_withdraw_claim Test other_pk ct_a 5 [] = Ok tt) as Hpr by exact other_proof. specialize (Hx Hpr).
    eexists _, other_pk, d', pis, _. split; [exact Hp|]. split; [exact Hx|]. split; [exact Hm|].
    rewrite (claim_nullifier _ _ _ d Hs Hd), (claim_nullifier _ _ _ d' Hi' Hd'). intros H. apply (f_equal limbs) in H.
    rewrite !picked_nullifier in H. injection H as H. apply Hne. symmetry. exact H.
Defined.
End key_witness.

Lemma exit_words_exact_witness : Forall (in_width 32) (replicate 29 1) /\
  exists p, CancelClosePublicInputs.from_u64_slice (replicate 29 1) = Ok p /\ replicate 29 1 = CancelClosePublicInputs.to_u64_vec p.
Proof.
  assert (Forall (in_width 32) (replicate 29 1)) as Hw by (apply Forall_replicate; split; [discriminate|reflexivity]). split; [exact Hw|].
  destruct (CancelClosePublicInputs.from_u64_slice (replicate 29 1)) as [p|e|] eqn:H; [|vm_compute in H; discriminate H|vm_compute in H; discriminate H].
  exists p. split; [reflexivity|]. exact (proj2 (proj1 (proj1 (proj2 (exit_words_exact _ Hw)) p) H)).
Defined.
