(* ===== verification/PayoutTheorems.v ===== *)
(** * Theorems: the journal of partial withdrawals

    The journal survives failed writes and crashes, an answer is never lost, one
    withdrawal is broadcast with one intent only, a payout that L1 finalized can
    always be finished after a restart, and the one case in which it cannot. *)

From S2P Require Import Prelude Limbs U63 Circuit MerkleTree LeafTrees Poseidon IndexedTree Keccak Regev BalanceState Account Ledger Balance Channel HashChains BlockStep BlockChain Withdrawal Payout PayoutProps PayoutScenario.
Import PartialWithdrawalPayoutStore.

#[local] Notation candidate := PartialWithdrawalCandidate.
#[local] Notation completed := PayoutSnapshot.completed_nullifiers.
#[local] Notation current := PayoutSnapshot.active.
#[local] Notation complete := PartialWithdrawalCandidate.is_complete.
#[local] Notation nullifier c := (Withdrawal.nullifier (PartialWithdrawalCandidate.withdrawal c)).
#[local] Notation intent_of := PartialWithdrawalCandidate.payout_broadcast.
#[local] Notation hashes_of := PartialWithdrawalCandidate.payout_tx_hashes.
#[local] Notation hash_of r := (L1TransactionReceipt.tx_hash (PayoutConfirmation.receipt r)).
#[local] Notation id_of := PartialWithdrawalCandidate.candidate_id.

(** C25: the journal is crash safe. Starting without a file, let a process open the journal, run
    any operations, fail at any write before or after the rename, crash and restart, any number of
    times. Then the file decodes to one snapshot that passes verification, its completed nullifiers
    are distinct and the withdrawal in flight is not among them, a store that is not poisoned
    agrees with the file, and opening the file succeeds with exactly this snapshot. *)
Theorem journal_crash_safe {PC : PayoutCodec} {PO : PayoutCodecOk PC} w : rtc step (Down None) w -> exists d,
  durable w = Ok d /\ verify_disk d = Ok tt /\ NoDup (completed d) /\
  (forall c, current d = Some c -> complete c = false -> nullifier c ∉ completed d) /\
  (forall s, w = Up s -> poisoned s = false -> disk s = d) /\
  (forall fault bytes, file_of w = Some bytes -> open fault (Some bytes) = (Some bytes, Ok (mk (Some bytes) d false))).
Proof.
  intros (d & Hi)%reach_inv. exists d. pose proof Hi as [Hd [Hv Ho] Hm]. split_and!; [done|done| |done|by intros s Hs; apply Hm|].
  - apply verify_disk_spec in Hv as (_ & Hn & _). exact Hn.
  - intros fault bytes. by apply open_durable.
Qed.

(** C26: an answer is durable. When an operation of a store that was reached this way answers with
    a candidate, then at every later point, whatever fails in between, the file holds that
    candidate or a further state of it, with the same identity and with every intent, hash and
    receipt it had, or its nullifier is recorded as completed. *)
Theorem journal_answers_durable {PC : PayoutCodec} {PO : PayoutCodecOk PC} fault o s s' c w :
  rtc step (Down None) (Up s) -> apply fault o s = (s', Ok c) -> rtc step (Up s') w ->
  exists d, durable w = Ok d /\ ((exists c', current d = Some c' /\ advances c c') \/ nullifier c ∈ completed d).
Proof.
  intros (d & Hi)%reach_inv Ha Hr. destruct (apply_inv fault o s d Hi) as (d1 & Hi1 & _ & Hc). rewrite Ha in Hi1, Hc.
  destruct (run_inv _ _ _ Hr Hi1) as (d2 & Hi2 & Hf). exists d2. split; [apply Hi2|]. apply (in_flight_kept _ _ Hf). by apply Hc.
Qed.

(** The candidate that [prepare] answers with is the durable one. *)
Lemma prepare_answer {PC : PayoutCodec} {PO : PayoutCodecOk PC} fault r s d c : journal_inv (Up s) d -> snd (prepare fault r s) = Ok c ->
  exists d', forward d d' /\ current d' = Some c.
Proof. intros Hi H. destruct (apply_inv fault (Prepare r) s d Hi) as (d' & _ & Hf & Hc). exists d'. split; [done|by apply Hc]. Qed.

(** A candidate with an intent is never broadcast afresh. *)
Lemma intent_resumes c i state : intent_of c = Some i -> partial_withdrawal_resume_action c state <> Ok BroadcastPayout.
Proof. unfold partial_withdrawal_resume_action. intros ->. destruct (PartialWithdrawalCandidate.payout_confirmation c); [|done]. by destruct (negb _). Qed.

(** C27: one withdrawal is broadcast with one intent only. Let a candidate be durable at some point.
    At every later point a durable candidate with the same nullifier, and likewise one that
    [prepare] answers with, is a further state of it: once an intent was durable, the candidate
    carries the same caller, nonce and calldata and resuming it never asks for a new broadcast, and
    once it was complete it is complete. *)
Theorem journal_single_payout {PC : PayoutCodec} {PO : PayoutCodecOk PC} w w' d c c' :
  rtc step (Down None) w -> rtc step w w' -> durable w = Ok d -> current d = Some c -> nullifier c' = nullifier c ->
  (exists d', durable w' = Ok d' /\ current d' = Some c') \/ (exists fault r s, w' = Up s /\ snd (prepare fault r s) = Ok c') ->
  (forall i, intent_of c = Some i -> intent_of c' = Some i /\ forall state, partial_withdrawal_resume_action c' state <> Ok BroadcastPayout) /\
  (complete c = true -> complete c' = true).
Proof.
  intros (d0 & Hi)%reach_inv Hr Hd Hc Hn Hc'. rewrite (inv_durable _ _ Hi) in Hd. apply Ok_inj in Hd as ->. destruct (run_inv _ _ _ Hr Hi) as (d1 & Hi1 & Hf).
  assert (advances c c') as Ha.
  { destruct Hc' as [(d2 & Hd2 & Hc2)|(fault & r & s & -> & Hp)].
    - rewrite (inv_durable _ _ Hi1) in Hd2. apply Ok_inj in Hd2 as ->. by apply (payout_once _ _ Hf).
    - destruct (prepare_answer _ _ _ _ _ Hi1 Hp) as (d2 & Hf2 & Hc2). apply (payout_once d d2); [by etransitivity|done..]. }
  split; [|by apply advances_complete]. intros i Hint. apply (keeps_payout _ _ Ha) in Hint. split; [done|]. intros state. by apply (intent_resumes _ i).
Qed.

(** A payout confirmation is accepted exactly when it proves the payout: an intent is durable,
    the receipt is a successful call of the expected kind from the pinned caller with the pinned
    nonce and calldata to the rollup, not before the pinned block, in a block that the checkpoint
    covers, both observations were made, and the recipient's credit rose by exactly the proved
    amount over the pinned credit. The check never aborts. *)
Theorem payout_confirmation_exact c conf :
  (validate_payout_confirmation c conf = Ok tt <-> exists intent, payout_proved c conf intent) /\ validate_payout_confirmation c conf <> Panic.
Proof.
  split; [apply payout_confirmation_spec|]. unfold validate_payout_confirmation, check_covered, L1FinalizedCheckpoint.covers_receipt, L1FinalizedCheckpoint.validate, refuse.
  repeat first [apply bind_no_panic; [|intros ? ?] | apply ensure_no_Panic | apply map_err_no_panic]; [by destruct (intent_of c)|].
  match goal with H : ensure (negb (U256.ltb ?x ?y)) _ = Ok _ |- _ => apply ensure_Ok, negb_true_iff in H; rewrite U256_theorems.ltb_val in H; apply Z.ltb_ge in H;
    destruct (U256_theorems.sub_total (E := PartialWithdrawalPayoutError) x y H) as [z ->] end. done.
Qed.

(** C28: a payout that L1 finalized can be finished after any crash. Let the file hold a candidate
    whose payout is not confirmed, and let a receipt prove its payout, with a hash that is recorded
    or fewer than sixteen recorded hashes. If the two snapshots to write fit the file format, then
    reopening the journal succeeds, confirming the receipt succeeds, handing the pull to the
    recipient succeeds, and the candidate is durably complete with its nullifier recorded. *)
Theorem journal_resumes {PC : PayoutCodec} {PO : PayoutCodecOk PC} w d c intent conf :
  rtc step (Down None) w -> durable w = Ok d -> current d = Some c -> PartialWithdrawalCandidate.payout_confirmation c = None -> payout_proved c conf intent ->
  hash_of conf ∈ hashes_of c \/ (length (hashes_of c) < MAX_REPLACEMENT_TX_HASHES)%nat ->
  encodable (changed d (confirmed c intent conf)) -> encodable (changed (changed d (confirmed c intent conf)) (delegated (confirmed c intent conf))) ->
  exists s s1 s2 c1 c2 d2, open NoFault (file_of w) = (file_of w, Ok s) /\ confirm_payout NoFault (id_of c) conf s = (s1, Ok c1) /\
    mark_recipient_pull_delegated NoFault (id_of c) s1 = (s2, Ok c2) /\ durable (Up s2) = Ok d2 /\ current d2 = Some c2 /\
    complete c2 = true /\ completed d2 = completed d ++ [nullifier c].
Proof.
  intros (d0 & Hi)%reach_inv Hd Hc Hu Hp Hroom He1 He2. rewrite (inv_durable _ _ Hi) in Hd. apply Ok_inj in Hd as ->.
  assert (exists bytes, file_of w = Some bytes) as [bytes Hb].
  { pose proof (inv_durable _ _ Hi) as Hd. unfold durable in Hd. destruct (file_of w) as [bytes|]; [by exists bytes|]. by injection Hd as <-. }
  exists (mk (Some bytes) d false). destruct (finish_payout d c intent conf (inv_good _ _ Hi) Hc Hu Hp Hroom (mk (Some bytes) d false) eq_refl eq_refl He1 He2)
    as (s1 & s2 & d2 & H1 & H2 & Hd2 & Hc2 & Hn). exists s1, s2. do 2 eexists. exists d2. rewrite Hb. split; [by apply (open_durable _ w)|].
  split; [exact H1|]. split; [exact H2|]. split; [done|]. split; [done|]. by split.
Qed.

(** The budget of recorded hashes can lock a payout. Let a healthy store hold an unconfirmed
    candidate with sixteen recorded hashes, and let a receipt with another hash prove its payout.
    Then confirming it is refused as a conflict, and it is refused at every later point as long as
    the candidate is the durable one; starting another withdrawal is refused as well. *)
Theorem journal_hash_budget {PC : PayoutCodec} {PO : PayoutCodecOk PC} s c conf intent :
  rtc step (Down None) (Up s) -> poisoned s = false -> current (disk s) = Some c -> PartialWithdrawalCandidate.payout_confirmation c = None ->
  payout_proved c conf intent -> length (hashes_of c) = MAX_REPLACEMENT_TX_HASHES -> hash_of conf ∉ hashes_of c ->
  (forall fault, confirm_payout fault (id_of c) conf s = (s, Err Conflict)) /\
  (forall s' c' fault id, rtc step (Up s) (Up s') -> current (disk s') = Some c' -> nullifier c' = nullifier c ->
     forall r, snd (confirm_payout fault id conf s') <> Ok r) /\
  (forall fault request r, snd (prepare fault request s) = Ok r -> r = c).
Proof.
  intros (d & Hi)%reach_inv Hp Hc Hu Hpr Hl Hh. destruct (inv_memory _ _ Hi s eq_refl) as (Hg & Hd & _). specialize (Hd Hp). subst d. split_and!.
  - intros fault. unfold confirm_payout. rewrite mutate_execute, Hp. unfold plan_update. rewrite Hc. cbn [ok_or mbind res_bind].
    rewrite bool_decide_eq_false_2 by (intros Hne; by apply Hne). cbn [refuse ensure negb mbind res_bind]. unfold update_payout_confirmation.
    rewrite (proj2 (payout_confirmation_spec c conf)) by (by exists intent). cbn [mbind res_bind]. rewrite Hu, full_push; [done|done|done|apply Hpr].
  - intros s' c' fault id Hr Hc' Hn r (c1 & Hc1 & Hp1 & Hup)%update_answer. rewrite Hc' in Hc1. injection Hc1 as <-.
    destruct (run_inv _ _ _ Hr Hi) as (d' & Hi' & Hf). destruct (inv_memory _ _ Hi' s' eq_refl) as (Hg' & Hd' & _). specialize (Hd' Hp1). subst d'.
    pose proof (payout_once _ _ Hf _ _ Hc Hc' Hn) as Ha. pose proof (active_good _ _ Hg' Hc') as Hok. pose proof (full_hashes _ _ _ Hok Ha Hl) as He.
    by apply (full_unconfirmed c' _ conf r Hok); rewrite ?He.
  - intros fault request r. rewrite prepare_execute. unfold execute. rewrite Hp. unfold plan, plan_prepare. rewrite Hc.
    destruct (validate_prepare request) as [[]|e|]; [|done|done]. destruct (candidate_id request) as [id|e|]; [|done|done]. cbn [mbind res_bind].
    destruct (bool_decide _); [by intros [= <-]|]. unfold PartialWithdrawalCandidate.is_complete. by rewrite Hu.
Qed.

(** ** The theorems on the run of [PayoutScenario] *)

(** After a crash with one recorded hash. *)
Definition crashed : world := Down (Some (file_with (snapshot_of (sending 1)))).

Lemma reach_crashed : rtc step (Down None) crashed.
Proof. eapply rtc_r; [apply (reach_sent 1); lia|]. apply (step_crash (at_snapshot (snapshot_of (sending 1)))). Qed.

Lemma crashed_durable : durable crashed = Ok (snapshot_of (sending 1)).
Proof. vm_compute. reflexivity. Qed.

Lemma journal_crash_safe_witness : exists d, durable crashed = Ok d /\ verify_disk d = Ok tt /\ NoDup (completed d) /\
  (forall c, current d = Some c -> complete c = false -> nullifier c ∉ completed d) /\
  (forall s, crashed = Up s -> poisoned s = false -> disk s = d) /\
  (forall fault bytes, file_of crashed = Some bytes -> open fault (Some bytes) = (Some bytes, Ok (mk (Some bytes) d false))).
Proof. apply (journal_crash_safe crashed), reach_crashed. Defined.

Lemma journal_answers_durable_witness : exists d, durable crashed = Ok d /\
  ((exists c', current d = Some c' /\ advances prepared c') \/ nullifier prepared ∈ completed d).
Proof.
  apply (journal_answers_durable NoFault (Prepare the_request) (at_snapshot empty_snapshot) (at_snapshot (snapshot_of prepared)) prepared crashed).
  - apply reach_empty.
  - apply prepare_run.
  - eapply rtc_r; [apply (reach_sending 1); lia|]. apply (step_crash (at_snapshot (snapshot_of (sending 1)))).
Defined.

Lemma journal_single_payout_witness :
  (forall i, intent_of (sending 0) = Some i -> intent_of (sending 1) = Some i /\ forall state, partial_withdrawal_resume_action (sending 1) state <> Ok BroadcastPayout) /\
  (complete (sending 0) = true -> complete (sending 1) = true).
Proof.
  apply (journal_single_payout (Up (at_snapshot (snapshot_of (sending 0)))) crashed (snapshot_of (sending 0)) (sending 0) (sending 1)).
  - apply (reach_sent 0). lia.
  - eapply rtc_l; [|apply rtc_once; apply (step_crash (at_snapshot (snapshot_of (sending 1))))].
    apply (step_answer (RecordPayout the_id (b32 101 eq_refl)) _ _ (Ok (sending 1))). vm_compute. reflexivity.
  - vm_compute. reflexivity.
  - reflexivity.
  - reflexivity.
  - left. exists (snapshot_of (sending 1)). split; [apply crashed_durable|reflexivity].
Defined.

Lemma journal_resumes_witness : exists s s1 s2 c1 c2 d2, open NoFault (file_of crashed) = (file_of crashed, Ok s) /\
  confirm_payout NoFault the_id first_receipt s = (s1, Ok c1) /\ mark_recipient_pull_delegated NoFault the_id s1 = (s2, Ok c2) /\
  durable (Up s2) = Ok d2 /\ current d2 = Some c2 /\ complete c2 = true /\ completed d2 = [b32 60 eq_refl].
Proof.
  apply (journal_resumes crashed (snapshot_of (sending 1)) (sending 1) the_intent first_receipt).
  - apply reach_crashed.
  - apply crashed_durable.
  - reflexivity.
  - reflexivity.
  - apply receipt_proves. discriminate.
  - right. cbn. unfold MAX_REPLACEMENT_TX_HASHES. lia.
  - exists [2]. split; [vm_compute; reflexivity|]. vm_compute. discriminate.
  - exists [3]. split; [vm_compute; reflexivity|]. vm_compute. discriminate.
Defined.

Lemma journal_hash_budget_witness :
  (forall fault, confirm_payout fault the_id late_receipt (at_snapshot (snapshot_of (sending 16))) = (at_snapshot (snapshot_of (sending 16)), Err Conflict)) /\
  (forall s' c' fault id, rtc step (Up (at_snapshot (snapshot_of (sending 16)))) (Up s') -> current (disk s') = Some c' -> nullifier c' = nullifier (sending 16) ->
     forall r, snd (confirm_payout fault id late_receipt s') <> Ok r) /\
  (forall fault request r, snd (prepare fault request (at_snapshot (snapshot_of (sending 16)))) = Ok r -> r = sending 16).
Proof.
  apply (journal_hash_budget (at_snapshot (snapshot_of (sending 16))) (sending 16) late_receipt the_intent).
  - apply (reach_sent 16). lia.
  - reflexivity.
  - reflexivity.
  - reflexivity.
  - apply receipt_proves. discriminate.
  - reflexivity.
  - apply (bool_decide_unpack _). vm_compute. exact I.
Defined.
