(* ===== verification/ProducerTheorems.v ===== *)
(** * Theorems: the block producer

    The heads of a channel form one chain that its co-signers signed, a channel
    that paid its fund out is final, and the block of an inter-channel debit
    carries exactly that debit. *)

From S2P Require Import Prelude Limbs U63 Circuit MerkleTree LeafTrees Poseidon IndexedTree Keccak Regev BalanceState BalanceStateProps Account AccountProps AccountScenario Ledger LedgerProps Balance BalanceProps BalanceCodec LedgerScenario Channel ChannelProps StateUpdate StateUpdateProps ChannelRun Scenario HashChains BlockStep CloseFunding BlockChain Withdrawal HashChainProps BlockStepProps CloseFundingProps BlockChainProps ChainCodec WithdrawalProps WithdrawalBacking ValidityProgress WithdrawalProgress ValidityScenario WithdrawalScenario FundingScenario WalletChecks WalletChecksProps Producer ProducerProps ProducerRun ProducerScenario.
Import ProductionBlockProducer.

#[local] Remove Hints Leafable_Bytes32 : typeclass_instances.

#[local] Notation records := channel_records.
#[local] Notation heads := channel_heads.
#[local] Notation source_of := InterChannelTransferDescriptor.source_channel_id.
#[local] Notation tx_of_debit := InterChannelDebitPayload.inter_channel_tx.
#[local] Notation epoch_of := ChannelState.epoch.

Section producer.
Context {P : Poseidon} {W : PoseidonWords P} {K : Keccak} {CV : CosignVerifier} {G : BlockWitnessGenerator}.

(** C8: no fork. Let a producer run any calls, and later any further calls (all but the staging of
    unsigned states, which the service runs on a copy that it throws away). Then the head of a
    channel at the earlier point is a state that each of at least two distinct registered keys
    signed, the channel still has the same co-signers at the later point, and the later head is
    reached from the earlier one by states that each extend the one before, by digest and by
    counters, in the same close era, and that the same co-signers signed; in particular two heads
    of one channel with the same epoch are the same state. *)
Theorem producer_no_fork counts ks ks' c h : let p := (run ks (new counts)).1 in let p' := (run ks' p).1 in
  heads p !! c = Some h ->
  exists r r' h', records p !! c = Some r /\ good_record c r /\ head_of (cosigners r) c h /\
    records p' !! c = Some r' /\ appended r r' /\ cosigners r' = cosigners r /\
    heads p' !! c = Some h' /\ rtc (link (cosigners r) c) h h' /\ (epoch_of h' = epoch_of h -> h' = h).
Proof.
  intros p p' Hh. destruct (run_moves ks _ (producer_new_inv counts)) as [Hi _]. destruct (run_moves ks' p Hi) as [_ Hl]. fold p in Hi. fold p' in Hl.
  destruct (pi_head _ Hi _ _ Hh) as (r & Hr & Hho). destruct (la_record _ _ Hl _ _ Hr) as (r' & Hr' & Ha). destruct (la_head _ _ Hl _ _ _ Hr Hh) as (h' & Hh' & Hc).
  exists r, r', h'. split_and!; try done; [by apply (pi_record _ Hi)|by apply appended_cosigners|by eapply chain_same_epoch].
Qed.

(** The later of two points of a run, past a call that succeeded. *)
Lemma run_accepted counts ks k p' : perform k (run ks (new counts)).1 = (p', true) ->
  producer_inv (run ks (new counts)).1 /\ producer_inv p' /\ accepted k (run ks (new counts)).1 p'.
Proof.
  intros H%perform_true. destruct (run_moves ks _ (producer_new_inv counts)) as [Hi _]. split; [done|]. split; [|done]. by apply (accepted_moves _ _ _ H).
Qed.

Lemma funded_final c s p p' ks k : producer_inv p' -> c ∈ terminal_close_funding p' -> heads p' !! c = s -> later p' p -> p = (run ks p').1 -> touches c k ->
  heads p !! c = s /\ accepted_base_nonces p !! c = accepted_base_nonces p' !! c /\ perform k p = (p, false).
Proof.
  intros Hi Hc Hs Hl -> Ht. destruct (la_terminal _ _ Hl c Hc) as (Ht' & -> & ->). split; [done|]. split; [done|].
  destruct (perform k _) as [p2 ok] eqn:Hp. destruct ok; [|apply perform_false in Hp as ->; done].
  exfalso. apply perform_true in Hp. destruct (run_moves ks p' Hi) as [Hi' _]. exact (terminal_refuses _ _ _ _ Hi' Ht' Ht Hp).
Qed.

(** C10: closing is final. Let a reached producer accept a close-funding block. Then the plan is the
    one built from the channel's head, which pays its whole fund to the manager, and the signed
    state is the built child up to its signatures, or the words hashed for the two exhibit a
    collision. In the first case the state extends the head and all co-signers signed it, and
    whatever calls follow, it stays the head, the plan's nonce stays the last one spent, and every
    call that would register the channel again, move its head or spend a nonce of it is refused
    and changes nothing. *)
Theorem producer_close_final {WO : PoseidonWordsOk P W} counts ks s plan timestamp p' :
  let p := (run ks (new counts)).1 in let c := CloseFundingPlan.source_channel_id plan in
  in_width 32 c -> (forall h, heads p !! c = Some h -> state_words_typed h) -> state_words_typed s -> valid (ChannelState.balance_state s) ->
  produce_close_funding_block s plan timestamp p = (p', Ok tt) ->
  exists r prev proposal, records p !! c = Some r /\ heads p !! c = Some prev /\
    build_close_funding_proposal prev (CloseFundingPlan.chain_id plan) (CloseFundingPlan.rollup plan) (CloseFundingPlan.manager plan)
      (CloseFundingPlan.base_nonce plan) = Ok proposal /\
    plan = with_proof (CloseFundingProposal.plan proposal) (CloseFundingPlan.tx_v2_merkle_proof plan) /\
    ((ChannelState.with_signatures s [] = CloseFundingProposal.proposed_state proposal /\ link (cosigners r) c prev s /\
      forall ks' k, touches c k -> let q := (run ks' p').1 in
        heads q !! c = Some s /\ accepted_base_nonces q !! c = Some (CloseFundingPlan.base_nonce plan) /\ perform k q = (q, false)) \/
     digest_collision (CloseFundingProposal.proposed_state proposal) s).
Proof.
  intros p c Hw Hty Hts Hv H. assert (perform (CloseFundingBlock s plan timestamp) p = (p', true)) as Hp by (cbn; unfold outcome; by rewrite H).
  apply run_accepted in Hp as (Hi & Hi' & Ha). fold p in Hi, Ha. destruct Ha as [Hl (prev & Hprev & Hver) _ (n & p1 & _ & _ & Hb & Hp')].
  destruct (pi_head _ Hi _ _ Hprev) as (r & Hr & Hho). pose proof (ho_channel _ _ _ Hho) as Hch.
  destruct (verify_sound prev s plan) as (proposal & Hbuild & Hplan & _ & Hor); [by apply Hty|by rewrite Hch|done|done|done|].
  exists r, prev, proposal. split; [done|]. split; [done|]. split; [done|]. split; [done|]. destruct Hor as [Heq|Hcol]; [left|by right].
  assert (ChannelState.channel_id s = c) as Hsc.
  { change (ChannelState.channel_id (ChannelState.with_signatures s []) = c). rewrite Heq.
    pose proof (build_spec prev (CloseFundingPlan.chain_id plan) (CloseFundingPlan.rollup plan) (CloseFundingPlan.manager plan)
      (CloseFundingPlan.base_nonce plan) (Hty _ Hprev) ltac:(by rewrite Hch)) as Hs. rewrite Hbuild in Hs. destruct Hs as [_ Hf].
    destruct (fu_child _ _ _ _ _ _ Hf) as (d & -> & _). exact Hch. }
  pose proof Hb as [_ _ Hrec _ Hbf Hbb _ Hext Hblk]. rewrite Hsc in *. destruct Hrec as (r0 & Hr0 & Hvs). change (records p !! c = Some r0) in Hr0. change (records p !! c = Some r) in Hr. assert (r0 = r) as -> by congruence.
  unfold check_cosigned, authorized in Hvs. simplify_res. apply verify_all_signatures_sound in Hvs as [Hsig _].
  assert (head_of (cosigners r) c s) as Hs by by constructor. split; [done|]. split; [by split; [apply Hext|]|].
  destruct Hblk as (g & _ & ->). intros ks' k Ht q. subst p'. eapply (funded_final c (Some s)) in Ht as (H1 & H2 & H3); [|exact Hi'| | |by apply run_moves|reflexivity].
  - split; [exact H1|]. split; [|exact H3]. etransitivity; [exact H2|]. cbn. by rewrite lookup_insert_eq.
  - cbn. apply elem_of_union_l, elem_of_singleton. done.
  - cbn. by rewrite lookup_insert_eq.
Qed.

(** What the block of a debit carries. *)
Record pays_debit (s : ChannelState) (debit : InterChannelDebitPayload) (d : InterChannelTransferDescriptor) (timestamp : Z) (p p' : ProductionBlockProducer) : Prop := {
  pd_signed : exists r, records p !! ChannelState.channel_id s = Some r /\ signed_by (cosigners r) s;
  pd_transfer : exists t, debit_transfer (tx_of_debit debit) (InterChannelDebitPayload.amount debit) t /\
    InterChannelTransferDescriptor.tx_v2 d = TxV2.mk UserTransfer (subtree (list_leaves [t]) TRANSFER_TREE_HEIGHT 0) (next_nonce p (source_of d)) phash_default;
  pd_tree : exists root, phash_into_bytes32 (E := WalletError) root = Ok (ChannelState.h2_tag s) /\
    forall proof (leaf : TxV2) i, proof_height proof = TX_TREE_HEIGHT -> in_width 64 i -> proof_verify proof leaf i root = Ok tt ->
      leaf = if bool_decide (i = source_of d) then InterChannelTransferDescriptor.tx_v2 d else TxV2.default;
  pd_block : exists n, 0 < n /\ add_block_with_tx_v2 (wrap 32 (ChannelState.channel_id s)) [1] timestamp (ChannelState.h2_tag s)
      (Some (single_tx_witness (Z.to_nat n) (source_of d) (InterChannelTransferDescriptor.tx_v2 d) (InterChannelTransferDescriptor.tx_v2_merkle_proof d)))
      (stage_cosign false s (ChannelState.member_signatures s) (witness p)) = Ok (witness p');
}.

(** The signatures that are attached leave the small block alone. *)
Lemma attach_message r s tx tx' : attach_small_block_signatures r s tx = Ok tx' -> InterChannelTx.message tx' = InterChannelTx.message tx.
Proof. unfold attach_small_block_signatures. intros H. simplify_res. done. Qed.

(** The leaves of a tree with one transaction. *)
Lemma single_leaf {PC : PoseidonCollisionFree P} c (tx : TxV2) proof leaf i : proof_height proof = TX_TREE_HEIGHT -> in_width 64 i ->
  proof_verify proof leaf i (subtree (Sparse.map_leaves {[c := tx]}) TX_TREE_HEIGHT 0) = Ok tt -> leaf = if bool_decide (i = c) then tx else TxV2.default.
Proof.
  intros Hh Hi Hv. rewrite <- Hh in Hv. destruct (proof_verify_sound (Sparse.map_leaves {[c := tx]}) proof leaf i tt Hi Hv) as (Hl & _).
  apply (inj leaf_hash). rewrite <- Hl. unfold Sparse.map_leaves. case_bool_decide as Hc.
  - subst i. by rewrite lookup_singleton_eq.
  - rewrite lookup_singleton_ne by congruence. done.
Qed.

(** C11: the block of a debit carries exactly the debit. When the producer accepts a descriptor, the
    co-signers of the block's channel signed its state, and the root they signed is that of a tree
    in which the source channel's transaction is the only one: every proof against it shows this
    transaction at the source channel and the empty one elsewhere. The transaction spends the
    channel's next nonce on one transfer, of the debit's token and amount, to the destination
    channel or burn address of the debit. Otherwise the words hashed for the descriptor's and the
    debit's transaction exhibit a collision. *)
Theorem producer_block_pays_debit {PC : PoseidonCollisionFree P} {PR : PoseidonReadable P W} s debit d timestamp p p' tx' :
  in_width 32 (InterChannelTx.source_channel_id (tx_of_debit debit)) ->
  produce_inter_channel_descriptor_block s debit d timestamp p = (p', Ok tx') ->
  pays_debit s debit d timestamp p p' \/ small_block_collision (InterChannelTransferDescriptor.inter_channel_tx d) (tx_of_debit debit).
Proof.
  intros Hw H%produce_inter_channel_descriptor_block_Ok. destruct H as [_ Hm _ _ _ _ Hn (r & n & p1 & _ & Hatt & _ & Hnz & Hb & ->)].
  apply descriptor_matches_sound in Hm as (Hsrc & (dg & Hd1 & Hd2) & (t & Hcb & _ & Hroot)%verify_canonical_binding_sound).
  destruct (tx_digest_send _ _ _ Hd1 Hd2) as [Hsame|Hcol]; [left|by right]. destruct (canonical_binding_sound _ _ _ _ _ Hw Hcb) as (Ht & Htx & root & Hrb & Htree).
  pose proof (attach_message _ _ _ _ Hatt) as Hmsg. rewrite Hmsg in Hb. destruct Hb as [_ _ (r' & Hr' & Hv) [_ Hh2] _ _ _ _ (g & Hg & ->)].
  unfold check_cosigned, authorized in Hv. simplify_res. apply verify_all_signatures_sound in Hv as [Hs _]. rewrite (ss_root _ _ Hsame), Hroot in Hh2, Hg.
  apply expected_nonce_Ok in Hn. rewrite (ss_nonce _ _ Hsame) in Hn. constructor.
  - eauto.
  - exists t. split; [done|]. by rewrite Htx, Hn.
  - exists root. rewrite Hh2. split; [done|]. intros proof leaf i Hp Hi Hver. rewrite Hsrc. rewrite Htree in Hver. by eapply single_leaf.
  - exists n. split; [done|]. rewrite Hh2. exact Hg.
Qed.
End producer.

(** ** The theorems at work *)

Section witnesses.
#[local] Existing Instances ToyKeccak AnySigner AnyGenerator FlatPoseidon FlatWords FlatWords_ok.

Lemma run_step k ks p p1 q : perform k p = (p1, true) -> (run ks p1).1 = q -> (run (k :: ks) p).1 = q.
Proof. intros H <-. cbn [run]. rewrite H. by destruct (run ks p1). Qed.

Definition scene_calls : list Call := [RegisterChannel scene_registration 1; CosignedBlock first_state [1] 2 digest_two empty_witness].

Lemma scene_run1 : (run scene_calls (new [1])).1 = scene1.
Proof. exact (run_step _ _ _ _ _ (scene_registers FlatPoseidon_flat) (run_step _ _ _ _ _ scene_first_block eq_refl)). Qed.

Lemma scene_run2 : (run [SyncHeads [funded_with digest_one]] scene1).1 = scene2.
Proof. exact (run_step _ _ _ _ _ (scene_follows FlatPoseidon_flat) eq_refl). Qed.

Lemma producer_no_fork_witness :
  exists r h', cosigners r = [digest_one; digest_two] /\ heads scene2 !! 7 = Some h' /\ rtc (link (cosigners r) 7) first_state h'.
Proof.
  destruct (producer_no_fork [1] scene_calls [SyncHeads [funded_with digest_one]] 7 first_state) as (r & r' & h' & Hr & _ & _ & _ & _ & _ & Hh & Hc & _).
  - rewrite scene_run1. apply (lookup_insert_eq (M := gmap Z)).
  - rewrite scene_run1, scene_run2 in Hh. rewrite scene_run1 in Hr. exists r, h'. split; [|by split]. injection Hr as <-. reflexivity.
Defined.

Lemma producer_close_final_witness :
  exists proposal p', produce_close_funding_block (child_signed proposal) (CloseFundingProposal.plan proposal) 3 scene2 = (p', Ok tt) /\
    ((forall ks' k, touches 7 k -> perform k (run ks' p').1 = ((run ks' p').1, false)) \/
     digest_collision (CloseFundingProposal.proposed_state proposal) (child_signed proposal)).
Proof.
  destruct (scene_proposal (fun E => flat_root FlatPoseidon_flat (E := E))) as [proposal Hp]. exists proposal. set (p' := with_terminal 7 (with_nonce 7 0 (with_head 7 (child_signed proposal) (with_witness scene2 tt)))). exists p'.
  assert (produce_close_funding_block (child_signed proposal) (CloseFundingProposal.plan proposal) 3 scene2 = (p', Ok tt)) as H.
  { apply (scene_closes proposal scene2 toy_record 3 Hp); [apply (lookup_insert_eq (M := gmap Z))|apply (lookup_insert_eq (M := gmap Z))|reflexivity|reflexivity|apply not_elem_of_empty|reflexivity|reflexivity]. }
  split; [exact H|].
  pose proof Hp as [Hbuild (Hi & _) _ [Hty Hv]]. 
  assert ((run (scene_calls ++ [SyncHeads [funded_with digest_one]]) (new [1])).1 = scene2) as Hrun.
  { exact (run_step _ _ _ _ _ (scene_registers FlatPoseidon_flat) (run_step _ _ _ _ _ scene_first_block scene_run2)). }
  destruct (producer_close_final [1] (scene_calls ++ [SyncHeads [funded_with digest_one]]) (child_signed proposal) (CloseFundingProposal.plan proposal) 3 p')
    as (r & prev & proposal' & _ & Hh & Hb & _ & Hor).
  - rewrite Hi. unfold in_width. lia.
  - intros h Hh. rewrite Hrun, Hi in Hh. injection Hh as <-. apply funded_with_typed.
  - exact Hty.
  - exact Hv.
  - rewrite Hrun. exact H.
  - rewrite Hi in Hor, Hh. rewrite Hrun in Hh. assert (prev = funded_with digest_one) as ->.
    { assert (Some prev = Some (funded_with digest_one)) as He by (rewrite <- Hh; apply (lookup_insert_eq (M := gmap Z))). by injection He. }
    destruct (funded_with_typed digest_one) as [Ht0 Hid0].
    pose proof (build_spec (funded_with digest_one) 1 recipient_address payee_address 0 Ht0 Hid0) as Hs. rewrite Hbuild in Hs. destruct Hs as [_ Hf].
    destruct (fu_context _ _ _ _ _ _ Hf) as (H1 & H2 & H3 & H4 & _). rewrite H1, H2, H3, H4 in Hb. rewrite Hbuild in Hb. apply Ok_inj in Hb as <-.
    destruct Hor as [(_ & _ & Hfin)|Hcol]; [left|right; exact Hcol]. intros ks' k Hk. by apply Hfin.
Defined.
End witnesses.

Section send_witness.
#[local] Existing Instances ToyKeccak AnySigner AnyGenerator HighPoseidon HighWords high_collision_free high_readable.

Lemma producer_block_pays_debit_witness :
  exists d p', pays_debit send_state send_debit d 3 scene1 p' \/ small_block_collision (InterChannelTransferDescriptor.inter_channel_tx d) send_tx.
Proof.
  destruct (scene_sends HighPoseidon_flat) as (d & p' & tx' & H). exists d, p'.
  exact (producer_block_pays_debit send_state send_debit d 3 scene1 p' tx' ltac:(split; reflexivity || discriminate) H).
Defined.
End send_witness.
