(* ===== verification/ServiceTheorems.v ===== *)
(** * Theorems: the durable block producer

    A restart resumes exactly, receipts and the history behind them are durable,
    the payments of a channel spend its nonces in order, an entry hash fixes the history up to its entry, and a prepared entry lands
    as it was prepared or not at all. *)

From S2P Require Import Prelude Limbs U63 Circuit MerkleTree LeafTrees Poseidon IndexedTree Keccak Regev BalanceState Account Ledger Balance Channel HashChains BlockStep CloseFunding WalletChecks Producer BlockChain Payout ProducerProps ProducerRun ProducerService ServiceProps ServiceRun BalanceCodec Scenario ProducerScenario ServiceScenario.
Import BlockProducerService.

#[local] Remove Hints Leafable_Bytes32 : typeclass_instances.

#[local] Notation journal := ProductionJournalFile.
#[local] Notation entry := ProductionJournalEntry.
#[local] Notation entries := ProductionJournalFile.entries.
#[local] Notation prepared := ProductionJournalFile.prepared.
#[local] Notation action := ProductionJournalEntry.action.
#[local] Notation counts_of := ProductionJournalFile.supported_user_counts.
#[local] Notation new := ProductionBlockProducer.new.

Section service.
Context {P : Poseidon} {W : PoseidonWords P} {K : Keccak} {CV : CosignVerifier} {G : BlockWitnessGenerator} {GS : GeneratorState} {JC : JournalCodec} {CC : CommandCodec}.

(** C12: a restart resumes exactly. Let a service run through any starts, requests, failed writes
    and crashes. Once there is a journal file, it reads as a journal from which every start
    succeeds, and the producer it starts with is the one that the calls of the committed entries,
    all of them accepted, lead to from a new producer. A service that is up and has not seen a
    failed write is, field by field, the service that a restart would give. *)
Theorem service_restart_exact {JO : JournalCodecOk JC} {GT : GeneratorTimestamps G} counts w : rtc (step counts) (Down None) w ->
  w = Down None \/ exists bytes d p prep, file_of w = Some bytes /\ read_journal bytes = Ok d /\
    (forall fault, open fault (Some bytes) counts = (Some bytes, Ok (mk (Some bytes) d p prep false))) /\
    run (calls d) (new counts) = (p, calls d) /\
    (forall s, w = Up s -> poisoned s = false -> s = mk (Some bytes) d p prep false).
Proof.
  intros Hw. destruct (reach_serves counts w Hw) as [->|(d & r & prep & Hs)]; [by left|right]. destruct (durable_file _ _ (sv_durable _ _ _ _ _ Hs)) as (bytes & Hf & Hr).
  exists bytes, d, (replayed r), prep. split; [done|]. split; [done|]. split; [intros fault; by eapply open_serves|]. split.
  - rewrite <- (sv_counts _ _ _ _ _ Hs). eapply good_run, Hs.
  - intros s -> Hp. destruct (sv_memory _ _ _ _ _ Hs s eq_refl Hp) as (Hd & Hpr & Hprep). destruct s. cbn in *. by subst.
Qed.

Lemma serves_inv counts w d r prep : serves counts w d r prep -> producer_inv (replayed r) /\ run (calls d) (new counts) = (replayed r, calls d).
Proof.
  intros Hs. pose proof (good_run _ _ _ (sv_good _ _ _ _ _ Hs)) as Hr. rewrite (sv_counts _ _ _ _ _ Hs) in Hr. split; [|done].
  destruct (run_moves (calls d) _ (producer_new_inv counts)) as [Hi _]. by rewrite Hr in Hi.
Qed.

(** A longer journal leads to a later producer. *)
Lemma prefix_later counts w w' d r prep d' r' prep' : serves counts w d r prep -> serves counts w' d' r' prep' -> entries d `prefix_of` entries d' -> later (replayed r) (replayed r').
Proof.
  intros [Hi Hr]%serves_inv [_ Hr']%serves_inv [more He]. apply (f_equal fst) in Hr, Hr'. cbn in Hr, Hr'. unfold calls in Hr'. rewrite He, fmap_app, run_app in Hr'.
  fold (calls d) in Hr'. rewrite Hr in Hr'. rewrite <- Hr'. by apply run_moves.
Qed.

(** C13: receipts and the history behind them are durable. Let any request be answered with a
    receipt, other than the two that only prepare an entry ([prepare_close_funding] and
    [prepare_inter_channel_exit_kit], directly or as a command), whose entry is not committed yet.
    Whatever starts, requests, failed writes and crashes follow, the
    journal file holds a committed entry with this receipt; the file replays to a producer that
    is later than the one that answered, so that no channel forks across restarts; and a service
    that is up and healthy then answers the request id, and the request itself, with the same
    receipt and without a change. *)
Theorem service_receipts_durable {JO : JournalCodecOk JC} {GT : GeneratorTimestamps G} counts s fault wall o s' rc w :
  rtc (step counts) (Down None) (Up s) -> stages_entry o = false -> apply fault wall o s = (s', Ok (Some rc)) -> rtc (step counts) (Up s') w ->
  exists d e p prep, durable w = Some d /\ e ∈ entries d /\ receipt_from_entry e = Ok rc /\ verify_and_replay d = Ok (p, prep) /\ later (producer s') p /\
    forall s2, w = Up s2 -> poisoned s2 = false -> receipt (BlockProducerReceipt.request_id rc) s2 = (s2, Ok (Some rc)) /\
      forall otherwise, idempotently (BlockProducerReceipt.request_id rc) (ProductionJournalEntry.request_fingerprint e) otherwise s2 = (s2, Ok rc).
Proof.
  intros Hreach Ho Ha Hw. destruct (reach_serves counts (Up s) Hreach) as [[=]|(d0 & r0 & prep0 & Hs0)].
  destruct (apply_serves counts fault wall o s d0 r0 prep0 Hs0) as (d1 & r1 & prep1 & Hs1 & _ & Hk). rewrite Ha in Hs1, Hk. cbn [fst snd] in Hs1, Hk.
  destruct (Hk _ rc eq_refl eq_refl) as (e & He & Hrc). rewrite Ho in He. destruct He as [He|[[=] _]].
  assert (poisoned s' = false) as Hp by exact (apply_answers counts fault wall o s _ _ _ _ _ Hs0 Ha).
  destruct (run_serves counts _ _ _ _ _ Hw Hs1) as (d & r & prep & Hs & Hpre). exists d, e, (replayed r), prep.
  split; [apply Hs|]. assert (e ∈ entries d) as Hed by (destruct Hpre as [more ->]; apply elem_of_app; by left). split; [done|]. split; [done|].
  split; [by apply good_replays, Hs|]. split.
  - destruct (sv_memory _ _ _ _ _ Hs1 s' eq_refl Hp) as (_ & -> & _). by eapply prefix_later.
  - intros s2 -> Hp2. destruct (serves_live counts _ _ _ _ Hs Hp2) as [Hl Hd]. by eapply answered_again.
Qed.

(** C9: payments in order. In every journal of fewer than 2^64 entries that a start accepts, the
    committed payments of a channel, which are its inter-channel sends and the final funding of its
    close, spend the nonces 0, 1, 2 and so on without a gap or a repeat, up to the next nonce of the
    producer that the start gives, and the hashes of the committed inter-channel transactions are
    pairwise different. *)
Theorem journal_payments_in_order d p prep : verify_and_replay d = Ok (p, prep) -> Z.of_nat (length (entries d)) < 2 ^ 64 ->
  (forall c, spent c d = seqZ 0 (next_nonce p c)) /\ NoDup (transactions d).
Proof. intros Hv Hb. destruct (verified_good _ _ _ Hv Hb) as (r & Hg & <-). exact (good_ledger _ _ _ Hg). Qed.

(** C15: an entry hash fixes the history. Take two journal files that a start accepts. If an entry
    of the one and an entry of the other have the same hash, they are at the same position, the
    entries up to them are the same, and so are the circuit arities; or two values hashed for the
    two journals have different bytes and the same Keccak hash. *)
Theorem journal_hash_binds {JI : JournalCodecInj JC} d d' x x' i j e e' :
  verify_and_replay d = Ok x -> verify_and_replay d' = Ok x' -> Z.of_nat (length (entries d)) < 2 ^ 64 -> Z.of_nat (length (entries d')) < 2 ^ 64 ->
  entries d !! i = Some e -> entries d' !! j = Some e' -> ProductionJournalEntry.entry_hash e = ProductionJournalEntry.entry_hash e' ->
  (i = j /\ take (S i) (entries d) = take (S j) (entries d') /\ counts_of d = counts_of d') \/ journal_collision d d'.
Proof.
  intros Hv Hv' Hb Hb' Hi Hj Hh. destruct (verified_replays _ _ Hv Hb) as (g & r & Hg & Hr). destruct (verified_replays _ _ Hv' Hb') as (g' & r' & Hg' & Hr').
  destruct (replays_prefix _ _ _ _ _ Hr Hi) as (r1 & H1 & Hp1). destruct (replays_prefix _ _ _ _ _ Hr' Hj) as (r1' & H1' & Hp1').
  destruct (replays_bind _ _ _ _ _ _ _ _ Hg Hg' H1 H1' ltac:(congruence)) as [[Hc He]|Hcol].
  - left. split; [|done]. apply lookup_lt_Some in Hi, Hj. apply (f_equal length) in He. rewrite !length_take in He. lia.
  - right. eapply chain_collision_mono; [exact Hcol|apply hashed_mono..]; apply take_subset.
Qed.

(** C14: a prepared entry lands as it was prepared, or not at all. Let the memory of a healthy
    service be what its journal replays to, as it is after every start and every request, with an
    entry prepared. After any request that leaves the service healthy, the journal is the same; or
    the prepared entry is gone without a trace, which happens only to a staged exit kit; or exactly
    one entry was committed, with the generation and the resulting head of the prepared entry: the
    prepared close funding itself, or the transfer that the exit kit was staged for. *)
Theorem prepared_entry_lands {GT : GeneratorTimestamps G} fault wall o s e0 :
  poisoned s = false -> verify_and_replay (disk s) = Ok (producer s, prepared_producer s) -> Z.of_nat (length (entries (disk s))) < 2 ^ 64 ->
  prepared (disk s) = Some e0 -> let s' := (apply fault wall o s).1 in poisoned s' = false ->
  disk s' = disk s \/
  disk s' = with_prepared (disk s) None /\ is_staged (action e0) = true \/
  exists e, disk s' = pushed (disk s) e /\ lands e0 e /\ ProductionJournalEntry.generation e = ProductionJournalEntry.generation e0 /\
    ProductionJournalEntry.result e = ProductionJournalEntry.result e0.
Proof.
  intros Hp Hv Hb He s' Hp'. destruct (verified_good _ _ _ Hv Hb) as (r & Hg & Hr). assert (live s r (prepared_producer s)) as Hl by by constructor.
  subst s'. destruct (apply_handled fault wall s r _ o Hl) as [a _|d1 r1 prep1 a Hn _ _]; cbn [fst snd] in *; [by left|right].
  apply written_healthy in Hp' as ->. destruct Hn as [e p _ Hf _ Hlands|e p Hnone _ _ _|e1 He1 Hst]; [|congruence|].
  - right. exists e. specialize (Hlands e0 He). split; [done|]. split; [done|]. by destruct Hlands as [[-> _]|(? & ? & ? & ? & _ & _ & _ & _ & ? & ?)].
  - left. split; [done|]. congruence.
Qed.
End service.

(** ** At work *)

Section deposits.
#[local] Existing Instances FlatPoseidon FlatWords ToyKeccak AnySigner DepositGenerator DepositState DepositTimestamps NoPayload DepositCodec.

#[local] Instance deposit_codec_ok : JournalCodecOk DepositCodec := TableCodec_ok _ _.
#[local] Instance deposit_codec_inj : JournalCodecInj DepositCodec := TableCodec_inj _ _.

Lemma deposit_starts : rtc (step [1]) (Down None) (Up service_zero).
Proof. apply rtc_once. pose proof (step_open [1] NoFault None) as H. by rewrite deposit_opens in H by by left. Qed.

(** After a crash the service is the one before it. *)
Lemma deposit_restarts : rtc (step [1]) (Up service_one) (Up service_one).
Proof. eapply rtc_l; [apply step_crash|]. apply rtc_once. pose proof (step_open [1] BeforeRename (Some [1])) as H. by rewrite deposit_reopens in H. Qed.

Lemma deposit_served fault wall o s s' a : apply fault wall o s = (s', a) -> rtc (step [1]) (Up s) (Up s').
Proof. intros H. apply rtc_once. pose proof (step_apply [1] fault wall o s) as Hs. by rewrite H in Hs. Qed.

(** A deposit, a crash, a restart and a second deposit. *)
Lemma deposit_run : rtc (step [1]) (Down None) (Up service_two).
Proof.
  etransitivity; [apply deposit_starts|]. etransitivity; [eapply deposit_served, deposit_one|]. etransitivity; [apply deposit_restarts|].
  eapply deposit_served, deposit_two.
Qed.

Lemma service_restart_exact_witness :
  open BeforeRename (Some [2]) [1] = (Some [2], Ok service_two) /\ run (calls journal_two) (new [1]) = (producer service_two, calls journal_two).
Proof.
  destruct (service_restart_exact [1] (Up service_two) deposit_run) as [[=]|(bytes & d & p & prep & _ & _ & Ho & Hr & Hs)].
  specialize (Hs service_two eq_refl eq_refl). injection Hs as <- <- <- <-. split; [apply Ho|exact Hr].
Defined.

Lemma service_receipts_durable_witness : exists d e p prep,
  durable (Up service_two) = Some d /\ e ∈ entries d /\ receipt_from_entry e = Ok (toy_receipt entry_one) /\ verify_and_replay d = Ok (p, prep) /\ later (producer service_one) p /\
  receipt [97] service_two = (service_two, Ok (Some (toy_receipt entry_one))).
Proof.
  destruct (service_receipts_durable [1] service_zero NoFault (Some 5) (ODeposit [97] (toy_deposit 0)) service_one (toy_receipt entry_one) (Up service_two))
    as (d & e & p & prep & Hd & He & Hrc & Hv & Hl & Ha).
  - exact deposit_starts.
  - reflexivity.
  - exact deposit_one.
  - etransitivity; [apply deposit_restarts|]. eapply deposit_served, deposit_two.
  - exists d, e, p, prep. exact (conj Hd (conj He (conj Hrc (conj Hv (conj Hl (proj1 (Ha service_two eq_refl eq_refl))))))).
Defined.

Lemma deposit_verified d n : d = journal_one /\ n = 1%nat \/ d = journal_two /\ n = 2%nat ->
  verify_and_replay d = Ok (toy_producer (take n [toy_leaf 0; toy_leaf 1]), None).
Proof. intros [[-> ->]|[-> ->]]; vm_compute; reflexivity. Qed.

Lemma journal_hash_binds_witness : (0 = 0 /\ take 1 (entries journal_one) = take 1 (entries journal_two) /\ counts_of journal_one = counts_of journal_two)%nat \/ journal_collision journal_one journal_two.
Proof.
  eapply (journal_hash_binds journal_one journal_two _ _ 0 0 entry_one entry_one).
  - by apply (deposit_verified _ 1); left.
  - by apply (deposit_verified _ 2); right.
  - reflexivity.
  - reflexivity.
  - reflexivity.
  - reflexivity.
  - reflexivity.
Defined.
End deposits.

Section close.
#[local] Existing Instances PeakPoseidon PeakWords PeakWords_ok ToyKeccak AnySigner AnyGenerator AnyState AnyTimestamps NoPayload OneByte.

Lemma journal_payments_in_order_witness : exists proposal,
  verify_and_replay (paid_journal proposal) = Ok (closed proposal, None) /\ spent 7 (paid_journal proposal) = [0] /\ spent 8 (paid_journal proposal) = [] /\
  (forall c, spent c (paid_journal proposal) = seqZ 0 (next_nonce (closed proposal) c)) /\ NoDup (transactions (paid_journal proposal)).
Proof.
  destruct (scene_proposal peak_tree) as [proposal Hp]. exists proposal. assert (verify_and_replay (paid_journal proposal) = Ok (closed proposal, None)) as Hv by exact (paid_verified proposal Hp).
  destruct (journal_payments_in_order (paid_journal proposal) (closed proposal) None Hv ltac:(reflexivity)) as [Hn Hd].
  split; [exact Hv|]. split; [rewrite Hn; reflexivity|]. split; [rewrite Hn; reflexivity|]. split; [exact Hn|exact Hd].
Defined.

Lemma prepared_entry_lands_witness : exists proposal, let s := close_service proposal in
  let s' := (apply NoFault None (OCommitAtAnchor (close_anchor proposal)) s).1 in
  disk s' = disk s \/ disk s' = with_prepared (disk s) None /\ is_staged (action (close_entry proposal)) = true \/
  exists e, disk s' = pushed (disk s) e /\ lands (close_entry proposal) e /\ ProductionJournalEntry.generation e = 2 /\
    ProductionJournalEntry.result e = capture (closed proposal).
Proof.
  destruct (scene_proposal peak_tree) as [proposal Hp]. exists proposal. cbv zeta.
  apply (prepared_entry_lands NoFault None (OCommitAtAnchor (close_anchor proposal)) (close_service proposal) (close_entry proposal)).
  - reflexivity.
  - exact (close_verified proposal Hp).
  - reflexivity.
  - reflexivity.
  - exact (close_commits proposal).
Defined.
End close.
